(* ===== verification/_CoqProject ===== *)
-Q . S2P
Prelude.v
Bpf.v
Seccomp.v
Process.v
Sched.v
Kernel.v
SchedIface.v
Pipe.v
Phys.v
Ipc.v
Signal.v
Tty.v
KernelIface.v
Files.v
Gate.v
Zswap.v
Paging.v
Vmm.v
VmmFork.v
VmmMap.v
VmmIface.v
Inet.v
Net.v
NetFacts.v
NetTcp.v
Socket.v
SocketFacts.v
Bytes.v
Tmpfs.v
TmpfsFile.v
TmpfsFacts.v
Vfs.v
VfsPath.v
VfsTmpfs.v
VfsCalls.v
VfsCallsFacts.v
Utf8.v
Fat.v
FatFacts.v
Elf.v
ElfFacts.v
ElfLoad.v
PiMutex.v
Disk.v
DiskFacts.v
Ext4.v
Ext4Facts.v
Ext4Files.v
Ext4Dir.v
Text.v
Access.v
MacPolicy.v
Namespace.v
Epoll.v
IoUring.v
Shell.v
ShellArith.v
