(* ===== verification/Prelude.v ===== *)
(** * A verification of the Qunix kernel

    Qunix is an operating system for x86-64 written in Rust (kernel/,
    bootloader/, userland/, plugins/).  This development models the core of
    its kernel, and the texts its shell works on, as executable functions and
    proves what makes them correct.  The
    kernel is built in release mode: arithmetic on machine integers wraps, an
    index out of range panics.

    ** The parts and how they interact

    Every entry into the kernel is a system call that passes the gate
    (syscall/mod.rs, [dispatch]), or an interrupt (timer, keyboard).  Processes
    live in one table (process/mod.rs); the scheduler (sched/mod.rs) keeps run
    queues of their identifiers per processor and moves processes between the
    states of the table.  Blocking objects (pipes, semaphores, message queues,
    the terminal) put the caller to sleep through the scheduler and wake
    others through [wake_process].  Signals change states and, on the way back
    to user code, the registers.  Descriptors tie processes to pipes and to
    files; files are found by the virtual file system (vfs/mod.rs), which
    calls the file system of the mount (tmpfs, FAT32, ext4).  Frames of memory come
    from the buddy allocator; address spaces map them through the page
    tables, share them after a fork, and compress them when they are swapped
    out.  Sockets sit on UDP and TCP, which exchange frames with the card and
    the loop-back queue.

    ** Files

    - Prelude: Rust results, wrapping arithmetic, bit lemmas, bounded loops,
      little-endian layout; the hint database [words].
    - Bpf: seccomp's BPF machine (security/seccomp.rs: [validate], [run]).
    - Seccomp: filter chains and notifications (security/seccomp.rs).
    - Process: states, descriptor tables, the process table (process/mod.rs).
    - Sched: the run queue of one processor (sched/mod.rs, [RunQueue]).
    - Kernel: the scheduler of all processors (sched/mod.rs).
    - SchedIface: what blocking code needs of the scheduler, as type classes;
      KernelIface: the scheduler of Kernel as their instance.
    - Pipe: pipes (ipc/pipe.rs).
    - Phys: physical memory (memory/phys.rs, boot/mod.rs).
    - Ipc: semaphores, message queues, shared memory (ipc/sem.rs, msgq.rs,
      shm.rs), a Module each.
    - Signal: signals (signal/mod.rs, handlers of syscall/handlers.rs).
    - Tty: the terminal (tty/mod.rs).
    - Files: descriptors and the life of processes (syscall/handlers.rs,
      [fork_current] and [exit_current] of process/mod.rs, the constructors of
      ipc/pipe.rs).
    - Gate: bitmap filters (security/mod.rs), installation of seccomp programs
      (security/seccomp.rs), the checks of [dispatch] (syscall/mod.rs).
    - Zswap: the LZ4 codec, the pool of compressed pages and the compressed
      block device (memory/zswap.rs).
    - Paging: the four levels of page tables in physical memory
      (arch/x86_64/paging.rs).
    - Vmm: address spaces over an allocator and page tables given as a class
      [FrameAlloc] (memory/vmm.rs); VmmFork: fork and copy on write; VmmMap:
      mmap and mprotect; VmmIface: the buddy allocator as an instance.
    - Inet: headers, checksums, routes (net/ip/mod.rs); Net: IP, ICMP, UDP and TCP
      with their tables and the driver's queues (net/udp, net/tcp,
      drivers/net.rs);
      NetFacts and NetTcp prove about them.
    - Socket: the POSIX layer (net/socket/mod.rs); SocketFacts proves.
    - Tmpfs: files as lists of frames, nodes, inodes (fs/tmpfs/mod.rs); TmpfsFile
      proves about one file, TmpfsFacts states a tree of byte strings as the
      specification and proves that tmpfs refines it.
    - Vfs: mounts, paths, symbolic links, open files over the class [VfsOps]
      of what a file system promises (vfs/mod.rs); VfsPath proves about paths
      and mounts, VfsTmpfs makes tmpfs an instance and composes the two.
    - VfsCalls: the system calls on files (syscall/handlers.rs); VfsCallsFacts
      proves.
    - Fat: FAT32 with writing (fs/fat32_rw/mod.rs) over the bytes of the
      image; FatFacts proves about cluster chains, names and truncation.
    - Bytes: slices and words of byte strings; Utf8: UTF-8; Text: Rust's strings
      as characters, numbers in decimal and hexadecimal.
    - Elf: the program loader (elf/mod.rs) over the address spaces of Vmm;
      ElfFacts proves about the first stack, ElfLoad about segments.
    - PiMutex: the priority-inheritance mutex (sync/pi_mutex.rs).
    - Disk: the disk image and the journal of ext4 (fs/ext4/journal.rs);
      DiskFacts proves.  Ext4: ext4 itself (fs/ext4/mod.rs); Ext4Facts proves
      about extents, Ext4Files about contents and inodes, Ext4Dir about
      directories.
    - Access: permission bits, capabilities, labels and rules, the audit ring
      (security/mod.rs); MacPolicy: the policy file (security/mac_policy.rs);
      Namespace: the namespaces (security/namespace.rs).
    - Epoll: epoll (ipc/epoll.rs).  IoUring: io_uring (io_uring/mod.rs) over
      the class [SqeCalls] of the system calls behind its entries.
    - Shell: tokens, patterns and history of the shell
      (userland/qshell/src/main.rs); ShellArith: its arithmetic.
    A struct is a Record with the source's fields, an enum an Inductive, a
    function a Definition of the same name (with a prefix where a name is used
    twice) that returns the new state.  [Result] is [result]; [None] of an
    operation is a panic, or a call that does not return, as its file says.
    BTreeMap is [gmap]; Vec and VecDeque are lists.  Global tables behind locks
    are fields of the state; what happens between two critical sections is a
    parameter of the operation or a step of an interleaving.  Where a lock is
    taken while it is held the state says so, and the call does not return.

    ** What is proved

    - Bpf, Seccomp, Gate: validated programs terminate and run like a
      budget-free reference semantics; the most restrictive filter of a chain
      decides; only validated programs are installed, and the program in user
      memory is the one loaded; the notification queue returns each answer to
      its question; the handler of a call runs exactly when every layer allows
      it (with the exceptions the code makes).
    - Process, Files: identifiers and descriptors are fresh; fork copies the
      descriptors; an exit is reported by wait, once; the counters of a pipe
      are the numbers of live descriptors, so that end of file is seen exactly
      when no writer is left; [close] undoes [dup].
    - Sched, Kernel: the bitmap search is the linear scan for the best
      priority; every operation keeps queues, bitmaps and counters consistent
      and none panics, in any sequence, and a queued task has its entity as
      long as no task is added twice (SIGCONT after SIGSTOP does); the task
      that runs next is the best one; waking and removing have exactly the
      documented effect.
    - Pipe, Ipc, Tty: pipes are bounded FIFOs and deliver what was written;
      closing the last writer ends the readers' wait; on one processor, where
      calls take turns, nobody sleeps while there is something to do, and on
      several a wakeup can be lost; semaphores conserve their units; queues deliver their
      messages; a line typed is the line read, and reads lose nothing.
    - Phys: the buddy allocator refines a set of free frames, for allocation,
      release, coalescing and the magazines; start-up frees exactly the usable
      frames that are not reserved.
    - Signal: dispatch ends and leaves nothing deliverable; sending and default
      actions do what they should on every branch; a signal frame is restored
      by the matching [sigreturn].
    - Zswap: decompressing what was compressed gives the page back; the store
      of compressed pages refines a map with eviction.
    - Paging, Vmm, VmmFork, VmmMap: the tree of tables refines a map from
      pages to frames; unmapping removes exactly the range and conserves the
      frames; a new mapping is zeroed and free of other mappings; after fork
      both sides read the same bytes and, while frames are free, a write of one
      is not seen by the other.
    - Inet, Net, NetFacts, NetTcp, Socket: routes are chosen by the longest
      prefix; no operation of TCP and no packet from the card panics or breaks
      the table, but the poll of the card holds a lock that every answer needs,
      so that it stops at the first segment with new data; of the protocol code
      on its own, with that lock free: an echo request is answered with its own
      data, the handshake establishes both ends, and what a TCP receiver has is
      a prefix of what the sender sent, under loss, duplication and reordering;
      without a card a datagram to the own address is received and a connection
      to it never made.
    - Tmpfs, Vfs, VfsCalls: every sequence of operations on tmpfs, sizes in
      the last page of 64 bits excepted, is a run of the tree of byte strings
      and conserves the frames; paths are normalised,
      mounts chosen by components; a file that was created and written reads
      back by its path; chains of links end; a directory is listed completely.
    - Fat: where the disk has every cluster of the table, writing a chain reads
      back, frees what is left over and touches no other chain; short names round trip.
    - Elf: the first stack is laid out as the ABI asks, but for the order of
      the auxiliary vector; a segment is mapped with its bytes and zeros.
    - PiMutex: a lock donates its priority along the chain; once contended it
      never returns.
    - Disk, Ext4: tags of a descriptor round trip; recovery copies the blocks
      of the log to their places, committed or not; a committed transaction is lost; a new
      extent maps its blocks and keeps the others; what is written to a file
      is read back and other files keep their contents; a new directory entry
      is listed with the others.
    - Access, MacPolicy, Namespace: a rule decides about its pair
      alone; a dropped capability stays dropped; the audit ring holds the last
      256 events; the dump of the policy reads back; maps of users round trip
      and invert; where the tables of PID namespaces agree with the processes,
      local numbers are unique and a signal does not leave its namespace.
    - Epoll, IoUring: a wait reports, in the order of their numbers, the
      descriptors that its rule of readiness picks; a
      submission completes its entries in order, and what does not fit is
      counted; the parts of a ring fit the frames it gets.
    - Shell, ShellArith: the tokenizer ends on every text; a quoted text is
      read as the one word it is; the matcher of names decides what a pattern
      means; the history file reads back; a parenthesized expression, the
      shifts excepted, has the value its operators mean.
    Where the code does something else than it means to, a theorem says what
    it does (for example [exit_keeps_duplicates], [sigreturn_misreads],
    [stolen_task_stays_queued], [free_frames_n_leaks],
    [loopback_connect_deadlocks], [first_page_decides_nx], [ip_checksum_order],
    [chroot_deadlocks], [pread_writes_anywhere], [truncate_write_free],
    [truncate_top_panics], [stop_cont_stays_queued]).

    ** Bounds

    Loops that are not structural run with [loop_nat] or [loop_pos]; a theorem
    about them says how many rounds are enough: the length of the program for
    BPF (the source allows a million), 65,536 for process identifiers, 1,021
    for descriptors, 12 for coalescing, 65 for signal dispatch, three for a
    non-blocking write.  Loops that wait for others (blocking reads, [wait4],
    the idle loop) get fuel, and their theorems say when one round, or as many
    rounds as interrupts, suffice.  LZ4 runs a round per byte of input; the
    carries of a checksum are folded in three rounds; a frame sent to the own
    address nests the receiver in the sender, with fuel for the depth; file
    loops of tmpfs get a round per byte; a path is resolved through 41 links
    at most (the source's limit), a string of user memory is 4,097 bytes, a
    file read whole 65,537 chunks; a FAT chain is at most as long as the disk
    has words, more is a circle and the source does not return.
    The copy of a segment takes filesz/4096 + 2 rounds; priority is passed on
    along eight mutexes (the source's limit); the descent in an extent tree is
    bounded by the length of the disk, recovery of the journal and the loops
    over directories by fuel that their theorems give; the tokenizer, the
    matcher and the arithmetic of the shell take at most a round per
    character.

    ** Parameters

    Who may signal whom ([may_signal]), what runs while a process is off the
    processor ([block], [blocked], [irq], [resched]), signals to a process
    group in Tty ([signal_group]), the answer of other processes between two
    polls ([env]), user memory ([mem]), the address of a new pipe, the outcome
    of copying an address space in Files, the frame allocator ([FrameAlloc]),
    the network card ([nic]) and what arrives while a call spins ([spin]), the
    network policy ([may_connect]), the file systems under the virtual one
    ([VfsOps]), devices and pipes under it ([Devices]), and the texts of the
    five virtual files that depend on the machine ([build]).
    The loader opens its interpreter and reads the time-stamp counter through
    arguments; the mutex sees priorities and states only ([PrioSched]); ext4
    gets the caller and the time, Access the caller and the tick, Namespace
    the namespaces of the processes, io_uring the calls of [SqeCalls], the
    tokenizer the classes of Unicode letters and digits.

    ** Not modelled

    Threads that share a descriptor table.  Futexes and the remaining system
    calls, which are thin wrappers or return constants.  Huge pages (the walk
    of Paging has none), NUMA and the kernel heap (firmware tables, counters,
    an external allocator), memory tagging (registers of the processor).
    procfs and devfs (texts about the state of the machine), the FAT32 reader
    (the reading half of Fat).  Drivers, graphics, start-up and interrupt code
    (accesses to hardware, assembly), the boot loader (UEFI calls), plugins
    (foreign code).  Of the shell the line editor, completion, prompts, job
    control and the interpreter of commands, which read and write the
    terminal and start processes; the other user programs. *)
From stdpp Require Export base tactics numbers list gmap strings.
From Stdlib Require Export ZArith Lia.

Open Scope Z_scope.

(** ** Rust results

    [Result<T, E>] of the Rust core library; [?] is the monadic bind of
    stdpp's [MBind] class, so a body reads [x ← e; k]. *)
Inductive result (E A : Type) : Type :=
| Ok (a : A)
| Err (e : E).
Arguments Ok {E A} a.
Arguments Err {E A} e.

#[export] Instance result_ret E : MRet (result E) := λ A a, Ok a.
#[export] Instance result_bind E : MBind (result E) := λ A B k m,
  match m with Ok a => k a | Err e => Err e end.
#[export] Instance result_fmap E : FMap (result E) := λ A B f m,
  match m with Ok a => Ok (f a) | Err e => Err e end.
#[export] Instance result_eq_dec `{EqDecision E, EqDecision A} : EqDecision (result E A).
Proof. solve_decision. Defined.

Definition is_ok {E A} (r : result E A) : bool :=
  match r with Ok _ => true | Err _ => false end.

(** ** Machine integers

    An unsigned integer of [w] bits is a [Z] in [0, 2^w).  The kernel is
    built with [--release] (build.sh), where plain arithmetic wraps. *)
Definition wrap (w z : Z) : Z := z mod 2 ^ w.
Definition wadd (w a b : Z) : Z := wrap w (a + b).
Definition wsub (w a b : Z) : Z := wrap w (a - b).
Definition wmul (w a b : Z) : Z := wrap w (a * b).
(** Bitwise complement [!a]. *)
Definition wnot (w a : Z) : Z := 2 ^ w - 1 - a.
(** [a.saturating_add(b)], [a.saturating_sub(b)]. *)
Definition sat_add (w a b : Z) : Z := Z.min (a + b) (2 ^ w - 1).
Definition sat_sub (a b : Z) : Z := Z.max (a - b) 0.
(** [a as i32] for a value of an unsigned type, two's complement. *)
Definition to_signed (w z : Z) : Z :=
  let r := wrap w z in if r <? 2 ^ (w - 1) then r else r - 2 ^ w.

Definition in_range (w z : Z) : Prop := 0 ≤ z < 2 ^ w.
#[export] Instance in_range_dec w z : Decision (in_range w z).
Proof. unfold in_range. apply _. Defined.

Abbreviation is_u8 := (in_range 8).
Abbreviation is_u16 := (in_range 16).
Abbreviation is_u32 := (in_range 32).
Abbreviation is_u64 := (in_range 64).

(** The automation of the development: [words] holds the range facts. *)
Create HintDb words.
#[export] Hint Extern 1 (_ ≤ _) => lia : words.
#[export] Hint Extern 1 (_ < _) => lia : words.

Lemma wrap_range w z : 0 ≤ w → in_range w (wrap w z).
Proof. intros. apply Z.mod_pos_bound. lia. Qed.
#[export] Hint Resolve wrap_range : words.

Lemma wrap_small w z : in_range w z → wrap w z = z.
Proof. intros. by apply Z.mod_small. Qed.

Lemma wadd_small w a b : 0 ≤ a + b < 2 ^ w → wadd w a b = a + b.
Proof. apply wrap_small. Qed.

Lemma wsub_small w a b : 0 ≤ a - b < 2 ^ w → wsub w a b = a - b.
Proof. apply wrap_small. Qed.

Lemma to_signed_small w z : 0 < w → 0 ≤ z < 2 ^ (w - 1) → to_signed w z = z.
Proof.
  intros Hw Hz. unfold to_signed.
  assert (2 ^ w = 2 * 2 ^ (w - 1)) as Hp.
  { rewrite <- Z.pow_succ_r by lia. f_equal. lia. }
  rewrite wrap_small by (unfold in_range; lia).
  destruct (Z.ltb_spec z (2 ^ (w - 1))); lia.
Qed.

Lemma in_range_testbit w a :
  0 ≤ w → 0 ≤ a → (∀ i, w ≤ i → Z.testbit a i = false) → in_range w a.
Proof.
  intros Hw Ha Hbits. split; [done|].
  destruct (decide (a = 0)) as [->|Hne]; [lia|].
  apply Z.log2_lt_pow2; [lia|].
  destruct (Z.lt_ge_cases (Z.log2 a) w) as [|Hge]; [done|].
  pose proof (Z.bit_log2 a ltac:(lia)). by rewrite Hbits in *.
Qed.

Lemma testbit_above w a i : in_range w a → w ≤ i → Z.testbit a i = false.
Proof.
  intros [Ha Hlt] Hi. destruct (decide (a = 0)) as [->|]; [apply Z.bits_0|].
  destruct (Z.lt_ge_cases w 0); [rewrite Z.pow_neg_r in Hlt by lia; lia|].
  apply Z.bits_above_log2; [lia|].
  apply Z.log2_lt_pow2 in Hlt; lia.
Qed.

Lemma in_range_land w a b : 0 ≤ w → in_range w a → in_range w (Z.land a b).
Proof.
  intros Hw Ha. apply in_range_testbit; [done|apply Z.land_nonneg; left; apply Ha|].
  intros i Hi. rewrite Z.land_spec, (testbit_above w a) by done. done.
Qed.

Lemma in_range_lor w a b : 0 ≤ w → in_range w a → in_range w b → in_range w (Z.lor a b).
Proof.
  intros Hw Ha Hb. apply in_range_testbit; [done|apply Z.lor_nonneg; split; [apply Ha|apply Hb]|].
  intros i Hi. rewrite Z.lor_spec, (testbit_above w a), (testbit_above w b) by done. done.
Qed.

Lemma in_range_lxor w a b : 0 ≤ w → in_range w a → in_range w b → in_range w (Z.lxor a b).
Proof.
  intros Hw Ha Hb. apply in_range_testbit; [done|apply Z.lxor_nonneg; destruct Ha, Hb; lia|].
  intros i Hi. rewrite Z.lxor_spec, (testbit_above w a), (testbit_above w b) by done. done.
Qed.
#[export] Hint Resolve in_range_land in_range_lor in_range_lxor : words.

Lemma wnot_testbit w a i :
  in_range w a → 0 ≤ i < w → Z.testbit (wnot w a) i = negb (Z.testbit a i).
Proof.
  intros Ha Hi. unfold wnot.
  replace (2 ^ w - 1 - a) with (Z.lnot a + 1 * 2 ^ w) by (unfold Z.lnot; lia).
  rewrite <- (Z.mod_pow2_bits_low _ w) by lia.
  rewrite Z.mod_add by lia. rewrite Z.mod_pow2_bits_low by lia.
  apply Z.lnot_spec. lia.
Qed.

Lemma wnot_range w a : in_range w a → in_range w (wnot w a).
Proof. unfold in_range, wnot. lia. Qed.

Lemma in_range_shiftl_1 w i : 0 ≤ i < w → in_range w (Z.shiftl 1 i).
Proof.
  intros. rewrite Z.shiftl_1_l. split; [lia|]. apply Z.pow_lt_mono_r; lia.
Qed.
#[export] Hint Resolve wnot_range in_range_shiftl_1 : words.

Lemma in_range_shiftr w a n : 0 ≤ n → in_range w a → in_range w (Z.shiftr a n).
Proof.
  intros Hn [Ha Hb]. rewrite Z.shiftr_div_pow2 by done. split; [apply Z.div_pos; lia|].
  apply Z.le_lt_trans with a; [|done]. apply Z.div_le_upper_bound; nia.
Qed.
#[export] Hint Resolve in_range_shiftr : words.

(** *** Trailing and leading zeros of a word *)

Fixpoint ctz_pos (p : positive) : Z :=
  match p with
  | xO p => 1 + ctz_pos p
  | _ => 0
  end.

(** [w.trailing_zeros()] of a word of [n] bits: the index of its lowest set
    bit, [n] when there is none. *)
Definition trailing_zeros (n w : Z) : Z :=
  match w with Zpos p => ctz_pos p | _ => n end.

(** [w.leading_zeros()] of a word of [n] bits. *)
Definition leading_zeros (n w : Z) : Z :=
  match w with Zpos p => n - 1 - Z.log2 w | _ => n end.

Lemma ctz_pos_spec p :
  0 ≤ ctz_pos p ∧ Z.testbit (Zpos p) (ctz_pos p) = true ∧
  ∀ j, 0 ≤ j < ctz_pos p → Z.testbit (Zpos p) j = false.
Proof.
  induction p as [p IH|p IH|]; cbn [ctz_pos]; [split_and!; try done; lia| |split_and!; try done; lia].
  destruct IH as (H0 & H1 & H2). split_and!; [lia| |].
  - rewrite Pos2Z.inj_xO. replace (1 + ctz_pos p) with (Z.succ (ctz_pos p)) by lia.
    by rewrite Z.double_bits_succ.
  - intros j Hj. rewrite Pos2Z.inj_xO. destruct (decide (j = 0)) as [->|].
    + apply Z.testbit_even_0.
    + replace j with (Z.succ (j - 1)) by lia. rewrite Z.double_bits_succ. apply H2. lia.
Qed.

Lemma trailing_zeros_spec n w :
  in_range n w → w ≠ 0 →
  0 ≤ trailing_zeros n w < n ∧ Z.testbit w (trailing_zeros n w) = true ∧
  ∀ j, 0 ≤ j < trailing_zeros n w → Z.testbit w j = false.
Proof.
  intros Hw Hne. destruct w as [|p|p]; [done| |destruct Hw; lia].
  destruct (ctz_pos_spec p) as (H0 & H1 & H2). cbn. split_and!; try done.
  destruct (Z.lt_ge_cases (ctz_pos p) n); [done|].
  by rewrite (testbit_above n) in H1.
Qed.

(** ** Bounded loops

    A Rust [loop] whose body either continues with a new state ([inl]) or
    leaves with a result ([inr]), cut after a given number of rounds.
    [loop_pos] takes the bound in binary, so that a bound of a million does
    not cost a million constructors; [loop_nat] is its specification. *)
Section Loops.
Context {S R : Type} (f : S → S + R).

Fixpoint loop_nat (n : nat) (s : S) : S + R :=
  match n with
  | O => inl s
  | Datatypes.S n => match f s with inl s' => loop_nat n s' | inr r => inr r end
  end.

Fixpoint loop_pos (p : positive) (s : S) : S + R :=
  match p with
  | xH => f s
  | xO p => match loop_pos p s with inl s' => loop_pos p s' | inr r => inr r end
  | xI p =>
      match f s with
      | inl s1 => match loop_pos p s1 with inl s2 => loop_pos p s2 | inr r => inr r end
      | inr r => inr r
      end
  end.

Lemma loop_nat_S n s :
  loop_nat (Datatypes.S n) s = match f s with inl s' => loop_nat n s' | inr r => inr r end.
Proof. done. Qed.

Lemma loop_nat_add n m s :
  loop_nat (n + m) s = match loop_nat n s with inl s' => loop_nat m s' | inr r => inr r end.
Proof.
  revert s. induction n as [|n IH]; intros s; [done|]. simpl.
  destruct (f s); [apply IH|done].
Qed.

Lemma loop_pos_nat p s : loop_pos p s = loop_nat (Pos.to_nat p) s.
Proof.
  revert s. induction p as [p IH|p IH|]; intros s.
  - rewrite Pos2Nat.inj_xI. replace (2 * Pos.to_nat p)%nat with (Pos.to_nat p + Pos.to_nat p)%nat by lia.
    cbn [loop_pos loop_nat]. destruct (f s) as [s1|r]; [|done].
    rewrite loop_nat_add, <- IH. destruct (loop_pos p s1); [apply IH|done].
  - rewrite Pos2Nat.inj_xO. replace (2 * Pos.to_nat p)%nat with (Pos.to_nat p + Pos.to_nat p)%nat by lia.
    cbn [loop_pos]. rewrite loop_nat_add, <- IH. destruct (loop_pos p s); [apply IH|done].
  - change (Pos.to_nat 1) with 1%nat. simpl. by destruct (f s).
Qed.

(** A run that has left the loop does so with any larger bound. *)
Lemma loop_nat_more n m s r : loop_nat n s = inr r → (n ≤ m)%nat → loop_nat m s = inr r.
Proof.
  intros Hr Hle. replace m with (n + (m - n))%nat by lia. by rewrite loop_nat_add, Hr.
Qed.

(** Termination by a measure that every round decreases. *)
Lemma loop_nat_terminates (I : S → Prop) (μ : S → nat) :
  (∀ s s', I s → f s = inl s' → I s' ∧ (μ s' < μ s)%nat) →
  ∀ n s, I s → (μ s < n)%nat → ∃ r, loop_nat n s = inr r.
Proof.
  intros Hdec n. induction n as [|n IH]; intros s Hs Hn; [lia|]. simpl.
  destruct (f s) as [s'|r] eqn:E; [|by eauto].
  destruct (Hdec _ _ Hs E). apply IH; [done|lia].
Qed.

(** Rule for the result of a loop under an invariant. *)
Lemma loop_nat_inv (I : S → Prop) (Q : R → Prop) :
  (∀ s s', I s → f s = inl s' → I s') →
  (∀ s r, I s → f s = inr r → Q r) →
  ∀ n s, I s → match loop_nat n s with inl s' => I s' | inr r => Q r end.
Proof.
  intros Hinl Hinr n. induction n as [|n IH]; intros s Hs; [done|]. simpl.
  destruct (f s) eqn:E; [by eapply IH, Hinl|by eapply Hinr].
Qed.
End Loops.

(** ** Little-endian layout of integers *)
Fixpoint le_bytes (n : nat) (v : Z) : list Z :=
  match n with
  | O => []
  | S n => v mod 256 :: le_bytes n (Z.shiftr v 8)
  end.

Fixpoint le_value (bs : list Z) : Z :=
  match bs with
  | [] => 0
  | b :: bs => b + 256 * le_value bs
  end.

Lemma le_value_bytes n v : le_value (le_bytes n v) = wrap (8 * Z.of_nat n) v.
Proof.
  unfold wrap. revert v. induction n as [|n IH]; intros v; [by rewrite Z.mod_1_r|].
  cbn [le_bytes le_value]. rewrite IH, Z.shiftr_div_pow2 by done. change (2 ^ 8) with 256.
  replace (8 * Z.of_nat (S n)) with (8 + 8 * Z.of_nat n) by lia.
  rewrite Z.pow_add_r by lia. change (2 ^ 8) with 256. rewrite Z.rem_mul_r by lia. done.
Qed.

Lemma length_le_bytes n v : length (le_bytes n v) = n.
Proof. revert v. induction n; intros; simpl; [done|by rewrite IHn]. Qed.

Lemma le_bytes_u8 n v : Forall is_u8 (le_bytes n v).
Proof.
  revert v. induction n as [|n IH]; intros v; [constructor|].
  constructor; [by apply (wrap_range 8)|apply IH].
Qed.

Lemma le_bytes_value bs : Forall is_u8 bs → le_bytes (length bs) (le_value bs) = bs.
Proof.
  induction 1 as [|b bs Hb _ IH]; [done|]. cbn [length le_value le_bytes]. destruct Hb as [H0 H1].
  change (2 ^ 8) with 256 in H1. f_equal.
  - rewrite Z.mul_comm, Z.mod_add by done. by apply Z.mod_small.
  - rewrite Z.shiftr_div_pow2 by done. change (2 ^ 8) with 256.
    by rewrite Z.mul_comm, Z.div_add, (Z.div_small b), Z.add_0_l by lia.
Qed.

Lemma take_le_bytes n m v : take n (le_bytes (n + m) v) = le_bytes n v.
Proof. revert v. induction n; intros v; simpl; [by rewrite take_0|by rewrite IHn]. Qed.

Lemma drop_le_bytes n m v :
  drop n (le_bytes (n + m) v) = le_bytes m (Z.shiftr v (8 * Z.of_nat n)).
Proof.
  revert v. induction n as [|n IH]; intros v; [done|].
  cbn [Nat.add le_bytes drop]. rewrite IH, Z.shiftr_shiftr by lia. do 2 f_equal. lia.
Qed.

(** ** Bits of a 64-bit word *)
Definition word_set (w b : Z) : Z := Z.lor w (Z.shiftl 1 b).
Definition word_clr (w b : Z) : Z := Z.land w (wnot 64 (Z.shiftl 1 b)).

Lemma testbit_shiftl_1 b j : 0 ≤ b → 0 ≤ j → Z.testbit (Z.shiftl 1 b) j = bool_decide (j = b).
Proof.
  intros Hb Hj. rewrite Z.shiftl_1_l. rewrite Z.pow2_bits_eqb by done.
  case_bool_decide; [subst; apply Z.eqb_refl|apply Z.eqb_neq; lia].
Qed.

Lemma word_set_testbit w b j :
  0 ≤ b → 0 ≤ j → Z.testbit (word_set w b) j = bool_decide (j = b) || Z.testbit w j.
Proof.
  intros. unfold word_set. rewrite Z.lor_spec, testbit_shiftl_1 by done. apply orb_comm.
Qed.

Lemma word_clr_testbit w b j :
  0 ≤ b < 64 → 0 ≤ j < 64 →
  Z.testbit (word_clr w b) j = negb (bool_decide (j = b)) && Z.testbit w j.
Proof.
  intros. unfold word_clr. rewrite Z.land_spec, wnot_testbit, testbit_shiftl_1 by auto with words lia.
  apply andb_comm.
Qed.

(** The test [w & (1 << b) != 0]. *)
Lemma word_test w b : 0 ≤ b → negb (Z.land w (Z.shiftl 1 b) =? 0) = Z.testbit w b.
Proof.
  intros Hb. assert (Z.land w (Z.shiftl 1 b) = if Z.testbit w b then Z.shiftl 1 b else 0) as ->.
  { apply Z.bits_inj'. intros j Hj. rewrite Z.land_spec, testbit_shiftl_1 by lia.
    destruct (Z.testbit w b) eqn:E; [rewrite testbit_shiftl_1 by lia|rewrite Z.bits_0];
      (case_bool_decide; [subst; rewrite E; done|by rewrite andb_false_r]). }
  destruct (Z.testbit w b); [|done]. rewrite Z.shiftl_1_l. destruct (Z.eqb_spec (2 ^ b) 0); [lia|done].
Qed.

Lemma word_set_range w b : is_u64 w → 0 ≤ b < 64 → is_u64 (word_set w b).
Proof. unfold word_set. auto with words. Qed.
Lemma word_clr_range w b : is_u64 w → is_u64 (word_clr w b).
Proof. unfold word_clr. auto with words. Qed.
#[export] Hint Resolve word_set_range word_clr_range : words.

(** A word is zero when no bit of it is set. *)
Lemma word_zero w : is_u64 w → (∀ j, 0 ≤ j < 64 → Z.testbit w j = false) → w = 0.
Proof.
  intros Hw Hz. apply Z.bits_inj'. intros j Hj. rewrite Z.bits_0.
  destruct (Z.lt_ge_cases j 64); [by apply Hz|by apply (testbit_above 64)].
Qed.

(** Splitting an index into a word number and a bit number. *)
Lemma split_index_64 p : Z.shiftr p 6 = p / 64 ∧ Z.land p 63 = p mod 64.
Proof.
  split; [by rewrite Z.shiftr_div_pow2|]. change 63 with (Z.ones 6). by rewrite Z.land_ones.
Qed.

(** Linear arithmetic with divisions of naturals by constants. *)
Ltac nat_div_lia :=
  repeat match goal with
  | |- context [(?a / ?b)%nat] =>
      lazymatch goal with
      | _ : (a mod b < b)%nat |- _ => fail
      | _ => pose proof (Nat.mod_upper_bound a b ltac:(lia)); pose proof (Nat.div_mod_eq a b)
      end
  | _ : context [(?a / ?b)%nat] |- _ =>
      lazymatch goal with
      | _ : (a mod b < b)%nat |- _ => fail
      | _ => pose proof (Nat.mod_upper_bound a b ltac:(lia)); pose proof (Nat.div_mod_eq a b)
      end
  end; lia.

(** ** Lists *)
Lemma sum_insert (f : list Z → nat) (l : list (list Z)) i q q' :
  l !! i = Some q →
  (sum_list_with f (<[i := q']> l) + f q = sum_list_with f l + f q')%nat.
Proof.
  revert i. induction l as [|y l IH]; intros [|i] Hi; simplify_eq/=; [lia|].
  specialize (IH i Hi). lia.
Qed.

Lemma filter_all {A} (P : A → Prop) `{!∀ y, Decision (P y)} (l : list A) :
  Forall P l → filter P l = l.
Proof. induction 1; [done|]. rewrite filter_cons_True by done. by f_equal. Qed.
