(* ===== verification/Bpf.v ===== *)
(** * The seccomp BPF machine: instructions, validator, interpreter

    Models the classic-BPF part of kernel/src/security/seccomp.rs:
    [BpfInsn], [SeccompData::load_u32], [validate] and [run].  A program is
    the list of its instructions, a register is a [Z] of 32 bits, the program
    counter a [Z] of 64 bits.  [run] is the interpreter with its budget of a
    million rounds; [reference] is a budget-free semantics by structural
    recursion on the instructions that remain. *)
From S2P Require Import Prelude.

(** ** Constants *)
Definition BPF_LD := 0x00.
Definition BPF_LDX := 0x01.
Definition BPF_ST := 0x02.
Definition BPF_STX := 0x03.
Definition BPF_ALU := 0x04.
Definition BPF_JMP := 0x05.
Definition BPF_RET := 0x06.
Definition BPF_MISC := 0x07.

Definition BPF_IMM := 0x00.
Definition BPF_ABS := 0x20.
Definition BPF_IND := 0x40.
Definition BPF_MEM := 0x60.
Definition BPF_LEN := 0x80.
Definition BPF_MSH := 0xa0.

Definition BPF_ADD := 0x00.
Definition BPF_SUB := 0x10.
Definition BPF_MUL := 0x20.
Definition BPF_DIV := 0x30.
Definition BPF_OR := 0x40.
Definition BPF_AND := 0x50.
Definition BPF_LSH := 0x60.
Definition BPF_RSH := 0x70.
Definition BPF_NEG := 0x80.
Definition BPF_MOD := 0x90.
Definition BPF_XOR := 0xa0.

Definition BPF_JA := 0x00.
Definition BPF_JEQ := 0x10.
Definition BPF_JGT := 0x20.
Definition BPF_JGE := 0x30.
Definition BPF_JSET := 0x40.

Definition BPF_K := 0x00.
Definition BPF_X := 0x08.
Definition BPF_A := 0x10.
Definition BPF_TAX := 0x00.
Definition BPF_TXA := 0x80.

Definition SECCOMP_RET_KILL_PROCESS := 0x80000000.
Definition SECCOMP_RET_KILL := 0x00000000.
Definition SECCOMP_RET_TRAP := 0x00030000.
Definition SECCOMP_RET_ERRNO := 0x00050000.
Definition SECCOMP_RET_USER_NOTIF := 0x7FC00000.
Definition SECCOMP_RET_TRACE := 0x7FF00000.
Definition SECCOMP_RET_LOG := 0x7FFC0000.
Definition SECCOMP_RET_ALLOW := 0x7FFF0000.
Definition SECCOMP_RET_ACTION_FULL := 0xFFFF0000.
Definition AUDIT_ARCH_X86_64 := 0xC000003E.
Definition SECCOMP_DATA_LEN := 64.

(** ** Instructions *)
Record BpfInsn := mkInsn { code : Z; jt : Z; jf : Z; k : Z }.

Definition class (i : BpfInsn) : Z := Z.land (code i) 0x07.
Definition mode (i : BpfInsn) : Z := Z.land (code i) 0xe0.
Definition op (i : BpfInsn) : Z := Z.land (code i) 0xf0.
Definition src (i : BpfInsn) : Z := Z.land (code i) 0x08.

Definition insn_wf (i : BpfInsn) : Prop :=
  is_u16 (code i) ∧ is_u8 (jt i) ∧ is_u8 (jf i) ∧ is_u32 (k i).
#[export] Instance insn_wf_dec i : Decision (insn_wf i).
Proof. unfold insn_wf. apply _. Defined.

(** ** The data a program reads *)
Record SeccompData := mkData { nr : Z; arch : Z; ip : Z; args : list Z }.

Definition data_wf (d : SeccompData) : Prop :=
  is_u32 (nr d) ∧ is_u32 (arch d) ∧ is_u64 (ip d) ∧
  length (args d) = 6%nat ∧ Forall is_u64 (args d).

(** The argument [self.args[i]]; [i < 6] at every use. *)
Definition arg (d : SeccompData) (i : Z) : Z := default 0 (args d !! Z.to_nat i).

Definition data_new (nr frame_ip a0 a1 a2 a3 a4 a5 : Z) : SeccompData :=
  mkData (wrap 32 nr) AUDIT_ARCH_X86_64 frame_ip [a0; a1; a2; a3; a4; a5].

Definition load_u32 (d : SeccompData) (offset : Z) : option Z :=
  if offset =? 0 then Some (nr d)
  else if offset =? 4 then Some (arch d)
  else if (8 <=? offset) && (offset <=? 11) then
    Some (Z.land (Z.shiftr (ip d) (8 * (offset - 8))) 0xFF)
  else if (8 <=? offset) && (offset <=? 15) then
    let shift := (offset - 8) * 8 in
    if offset + 4 <=? 16 then Some (wrap 32 (Z.shiftr (ip d) shift)) else None
  else if (16 <=? offset) && (offset <=? 63) then
    let arg_idx := (offset - 16) / 8 in
    if 6 <=? arg_idx then None
    else
      let byte_off := (offset - 16) mod 8 in
      Some (wrap 32 (Z.shiftr (arg d arg_idx) (byte_off * 8)))
  else None.

(** ** Validator *)
Inductive BpfError :=
| TooLong
| Empty
| InvalidJump (pc : Z)
| InvalidMemAccess (pc : Z)
| InvalidLoadOffset (pc : Z)
| NoReturnAtEnd
| DivisionByConstantZero (pc : Z).
#[export] Instance BpfError_eq_dec : EqDecision BpfError.
Proof. solve_decision. Defined.

Definition MAX_INSNS : Z := 4096.

(** One round of the validator's loop; [len] is [insns.len()]. *)
Definition validate_insn (len pc : Z) (i : BpfInsn) : result BpfError unit :=
  if (class i =? BPF_LD) || (class i =? BPF_LDX) then
    if (mode i =? BPF_ABS) || (mode i =? BPF_IND) then
      if (mode i =? BPF_ABS) && (SECCOMP_DATA_LEN <? wadd 32 (k i) 4)
      then Err (InvalidLoadOffset pc) else Ok tt
    else if mode i =? BPF_MEM then
      if 16 <=? k i then Err (InvalidMemAccess pc) else Ok tt
    else Ok tt
  else if (class i =? BPF_ST) || (class i =? BPF_STX) then
    if 16 <=? k i then Err (InvalidMemAccess pc) else Ok tt
  else if class i =? BPF_ALU then
    if ((op i =? BPF_DIV) || (op i =? BPF_MOD)) && (src i =? BPF_K) && (k i =? 0)
    then Err (DivisionByConstantZero pc) else Ok tt
  else if class i =? BPF_JMP then
    if op i =? BPF_JA then
      let target := wadd 64 pc (1 + k i) in
      if len <=? target then Err (InvalidJump pc) else Ok tt
    else
      let jt_target := pc + 1 + jt i in
      let jf_target := pc + 1 + jf i in
      if (len <=? jt_target) || (len <=? jf_target) then Err (InvalidJump pc) else Ok tt
  else Ok tt.

Fixpoint validate_from (len pc : Z) (insns : list BpfInsn) : result BpfError unit :=
  match insns with
  | [] => Ok tt
  | i :: rest => _ ← validate_insn len pc i; validate_from len (pc + 1) rest
  end.

Definition validate (insns : list BpfInsn) : result BpfError unit :=
  let len := Z.of_nat (length insns) in
  match last insns with
  | None => Err Empty
  | Some final =>
      if MAX_INSNS <? len then Err TooLong
      else
        _ ← validate_from len 0 insns;
        if class final =? BPF_RET then Ok tt else Err NoReturnAtEnd
  end.

(** ** Interpreter *)
Definition MEM_WORDS : nat := 16.

Record Vm := mkVm { a : Z; x : Z; mem : list Z; pc : Z }.

Definition vm_init : Vm := mkVm 0 0 (replicate MEM_WORDS 0) 0.

Definition set_pc (s : Vm) (p : Z) : Vm := mkVm (a s) (x s) (mem s) p.
Definition set_a (s : Vm) (v : Z) : Vm := mkVm v (x s) (mem s) (pc s).
Definition set_x (s : Vm) (v : Z) : Vm := mkVm (a s) v (mem s) (pc s).
Definition set_mem (s : Vm) (m : list Z) : Vm := mkVm (a s) (x s) m (pc s).

(** [mem.get(k).copied().unwrap_or(0)] *)
Definition mem_get (m : list Z) (i : Z) : Z :=
  if i <? 16 then default 0 (m !! Z.to_nat i) else 0.
(** [if k < MEM_WORDS { mem[k] = v; }] *)
Definition mem_put (m : list Z) (i v : Z) : list Z :=
  if i <? 16 then <[Z.to_nat i := v]> m else m.

Definition load_a (d : SeccompData) (i : BpfInsn) (s : Vm) : Z :=
  if mode i =? BPF_IMM then k i
  else if mode i =? BPF_ABS then default 0 (load_u32 d (k i))
  else if mode i =? BPF_IND then default 0 (load_u32 d (wadd 32 (x s) (k i)))
  else if mode i =? BPF_MEM then mem_get (mem s) (k i)
  else if mode i =? BPF_LEN then SECCOMP_DATA_LEN
  else 0.

Definition load_x (i : BpfInsn) (s : Vm) : Z :=
  if mode i =? BPF_IMM then k i
  else if mode i =? BPF_MEM then mem_get (mem s) (k i)
  else if mode i =? BPF_LEN then SECCOMP_DATA_LEN
  else 0.

(** [None] is the early [return SECCOMP_RET_KILL] of a division by zero. *)
Definition alu (o a src : Z) : option Z :=
  if o =? BPF_ADD then Some (wadd 32 a src)
  else if o =? BPF_SUB then Some (wsub 32 a src)
  else if o =? BPF_MUL then Some (wmul 32 a src)
  else if o =? BPF_DIV then if src =? 0 then None else Some (a / src)
  else if o =? BPF_MOD then if src =? 0 then None else Some (a mod src)
  else if o =? BPF_OR then Some (Z.lor a src)
  else if o =? BPF_AND then Some (Z.land a src)
  else if o =? BPF_XOR then Some (Z.lxor a src)
  else if o =? BPF_LSH then Some (if src <? 32 then wrap 32 (Z.shiftl a src) else 0)
  else if o =? BPF_RSH then Some (if src <? 32 then Z.shiftr a src else 0)
  else if o =? BPF_NEG then Some (wadd 32 (wnot 32 a) 1)
  else Some a.

Definition jump_taken (o a src : Z) : bool :=
  if o =? BPF_JEQ then a =? src
  else if o =? BPF_JGT then src <? a
  else if o =? BPF_JGE then src <=? a
  else if o =? BPF_JSET then negb (Z.land a src =? 0)
  else false.

Definition next (s : Vm) : Vm + Z := inl (set_pc s (wadd 64 (pc s) 1)).

(** The [match insn.class()] of the interpreter's loop. *)
Definition exec_insn (d : SeccompData) (i : BpfInsn) (s : Vm) : Vm + Z :=
  let source := if src i =? BPF_X then x s else k i in
  if class i =? BPF_LD then next (set_a s (load_a d i s))
  else if class i =? BPF_LDX then next (set_x s (load_x i s))
  else if class i =? BPF_ST then next (set_mem s (mem_put (mem s) (k i) (a s)))
  else if class i =? BPF_STX then next (set_mem s (mem_put (mem s) (k i) (x s)))
  else if class i =? BPF_ALU then
    match alu (op i) (a s) source with
    | Some v => next (set_a s v)
    | None => inr SECCOMP_RET_KILL
    end
  else if class i =? BPF_JMP then
    if op i =? BPF_JA then inl (set_pc s (wadd 64 (pc s) (1 + k i)))
    else
      let off := if jump_taken (op i) (a s) source then jt i else jf i in
      inl (set_pc s (wadd 64 (pc s) (1 + off)))
  else if class i =? BPF_RET then inr (if src i =? BPF_A then a s else k i)
  else if class i =? BPF_MISC then
    if op i =? BPF_TAX then next (set_x s (a s))
    else if op i =? BPF_TXA then next (set_a s (x s))
    else next s
  else inr SECCOMP_RET_KILL.

(** One round of the loop, [pc >= prog.len()] included. *)
Definition vm_step (prog : list BpfInsn) (d : SeccompData) (s : Vm) : Vm + Z :=
  if Z.of_nat (length prog) <=? pc s then inr SECCOMP_RET_KILL
  else match prog !! Z.to_nat (pc s) with
       | Some i => exec_insn d i s
       | None => inr SECCOMP_RET_KILL
       end.

Definition BUDGET : positive := 1000000.

Definition run (prog : list BpfInsn) (d : SeccompData) : Z :=
  match loop_pos (vm_step prog d) BUDGET vm_init with
  | inr r => r
  | inl _ => SECCOMP_RET_KILL
  end.

#[global] Arguments run : simpl never.

(** ** Reference semantics

    No budget and no program counter: [rest] is what remains of the program
    and [skip] how many of its instructions a jump still passes over.  [None]
    means that control ran past the last instruction. *)
Fixpoint reference (d : SeccompData) (rest : list BpfInsn) (skip : Z) (s : Vm) : option Z :=
  match rest with
  | [] => None
  | i :: rest' =>
      if 0 <? skip then reference d rest' (skip - 1) s
      else match exec_insn d i (set_pc s 0) with
           | inl s' => reference d rest' (pc s' - 1) s'
           | inr r => Some r
           end
  end.

(** ** Lemmas on the validator *)
Lemma validate_from_lookup len start insns n i :
  validate_from len start insns = Ok tt → insns !! n = Some i →
  validate_insn len (start + Z.of_nat n) i = Ok tt.
Proof.
  revert start n. induction insns as [|j rest IH]; intros start n Hv Hn; [done|].
  simpl in Hv. unfold mbind, result_bind in Hv.
  destruct (validate_insn len start j) as [[]|] eqn:Hj; [|done].
  destruct n as [|n]; simplify_eq/=; [by rewrite Z.add_0_r|].
  replace (start + Z.of_nat (S n)) with (start + 1 + Z.of_nat n) by lia. by apply IH.
Qed.

(** What acceptance gives about a program: its length, each instruction, and
    the class of the last one. *)
Record validated (prog : list BpfInsn) : Prop := {
  validated_len : (0 < length prog)%nat ∧ Z.of_nat (length prog) ≤ MAX_INSNS;
  validated_insn n i : prog !! n = Some i →
    validate_insn (Z.of_nat (length prog)) (Z.of_nat n) i = Ok tt;
  validated_last i : last prog = Some i → class i = BPF_RET;
}.

Lemma validate_validated prog : validate prog = Ok tt → validated prog.
Proof.
  unfold validate. destruct (last prog) as [f|] eqn:Hl; [|done].
  destruct (Z.ltb_spec MAX_INSNS (Z.of_nat (length prog))); [done|].
  unfold mbind, result_bind.
  destruct (validate_from _ 0 prog) as [[]|] eqn:Hv; [|done].
  destruct (Z.eqb_spec (class f) BPF_RET); [|done]. intros _.
  split; [split; [destruct prog; [done|simpl; lia]|done]| |].
  - intros n i Hn. by apply (validate_from_lookup _ 0 _ _ _ Hv).
  - intros i Hi. congruence.
Qed.

(** ** Lemmas on the interpreter *)
Lemma set_pc_set_pc s p q : set_pc (set_pc s p) q = set_pc s q.
Proof. done. Qed.
Lemma set_pc_id s : set_pc s (pc s) = s.
Proof. by destruct s. Qed.

Ltac exec_cases :=
  unfold exec_insn, next, load_a, load_x; cbn [a x mem pc set_pc set_a set_x set_mem];
  repeat case_match; simplify_eq.

(** An instruction moves the program counter forward by an amount that does
    not depend on where it stands. *)
Lemma exec_insn_pc d i s p :
  insn_wf i → 0 ≤ p < 2 ^ 62 →
  match exec_insn d i (set_pc s 0), exec_insn d i (set_pc s p) with
  | inl s0, inl s' => s' = set_pc s0 (p + pc s0) ∧ 1 ≤ pc s0
  | inr r, inr r' => r = r'
  | _, _ => False
  end.
Proof.
  intros (_ & Hjt & Hjf & Hk) Hp. unfold in_range in *.
  exec_cases; try done;
    rewrite !(wadd_small 64) by lia; unfold set_pc; cbn; (split; [f_equal; lia|lia]).
Qed.

(** Registers and memory stay in range. *)
Definition vm_wf (s : Vm) : Prop :=
  is_u32 (a s) ∧ is_u32 (x s) ∧ length (mem s) = MEM_WORDS ∧ Forall is_u32 (mem s).

Lemma vm_init_wf : vm_wf vm_init.
Proof.
  repeat split; try done. unfold vm_init; cbn [mem]. apply Forall_replicate. done.
Qed.

Lemma default_range w o : 0 ≤ w → (∀ v, o = Some v → in_range w v) → in_range w (default 0 o).
Proof. intros ? Ho. destruct o; simpl; [by apply Ho|split; [done|lia]]. Qed.

Lemma mem_get_range m i : Forall is_u32 m → is_u32 (mem_get m i).
Proof.
  intros Hm. unfold mem_get. case_match; [|done].
  apply default_range; [done|]. intros v Hv. by eapply Forall_lookup_1.
Qed.

Lemma load_u32_range d off v : data_wf d → load_u32 d off = Some v → is_u32 v.
Proof.
  intros (Hnr & Harch & Hip & Hargs). unfold load_u32.
  repeat case_match; intros; simplify_eq; auto with words.
  split; [apply Z.land_nonneg; lia|].
  apply Z.le_lt_trans with 255; [|done]. rewrite (Z.land_ones _ 8) by done.
  pose proof (Z.mod_pos_bound (Z.shiftr (ip d) (8 * (off - 8))) (2 ^ 8)). lia.
Qed.

Lemma alu_range o v w r : is_u32 v → is_u32 w → alu o v w = Some r → is_u32 r.
Proof.
  intros Hv Hw. unfold alu, wadd, wsub, wmul.
  repeat case_match; intros; simplify_eq; try (by auto with words); try done.
  - destruct Hv, Hw. split; [apply Z.div_pos; lia|].
    apply Z.le_lt_trans with v; [|done]. apply Z.div_le_upper_bound; nia.
  - destruct Hv, Hw. pose proof (Z.mod_pos_bound v w). split; lia.
  - apply in_range_shiftr; [apply Hw|done].
Qed.

Lemma Forall_list_insert {A} (P : A → Prop) l i v : Forall P l → P v → Forall P (<[i:=v]> l).
Proof. intros Hl Hv. by apply Forall_insert. Qed.

Lemma mem_put_wf m i v :
  length m = MEM_WORDS ∧ Forall is_u32 m → is_u32 v →
  length (mem_put m i v) = MEM_WORDS ∧ Forall is_u32 (mem_put m i v).
Proof.
  intros [Hl Hm] Hv. unfold mem_put. case_match; [|done].
  rewrite length_insert. split; [done|by apply Forall_list_insert].
Qed.

Lemma load_a_range d i s : data_wf d → insn_wf i → vm_wf s → is_u32 (load_a d i s).
Proof.
  intros Hd (_ & _ & _ & Hk) (Ha & Hx & _ & Hm). unfold load_a.
  repeat case_match; try done;
    first [by apply mem_get_range
          | apply default_range; [done|]; intros v Hv; by eapply load_u32_range].
Qed.

Lemma load_x_range i s : insn_wf i → vm_wf s → is_u32 (load_x i s).
Proof.
  intros (_ & _ & _ & Hk) (Ha & Hx & _ & Hm). unfold load_x.
  repeat case_match; try done. by apply mem_get_range.
Qed.

(** One instruction keeps the machine in range, and what it returns is a
    32-bit value. *)
Lemma exec_insn_wf d i s :
  data_wf d → insn_wf i → vm_wf s →
  match exec_insn d i s with inl s' => vm_wf s' | inr r => is_u32 r end.
Proof.
  intros Hd Hi Hs. pose proof (load_a_range d i s Hd Hi Hs) as Hla.
  pose proof (load_x_range i s Hi Hs) as Hlx.
  destruct Hs as (Ha & Hx & Hm). destruct Hi as (Hc & Hjt & Hjf & Hk).
  assert (is_u32 (if src i =? BPF_X then x s else k i)) as Hsrc by (by case_match).
  unfold exec_insn, next. unfold vm_wf. cbn.
  repeat case_match; simplify_eq; cbn; try done;
    first [ split; [by eapply (alu_range _ _ _ _ Ha Hsrc)|done]
          | split_and!; try done; by apply mem_put_wf
          | by split_and!].
Qed.

Lemma vm_step_wf prog d s :
  data_wf d → Forall insn_wf prog → vm_wf s →
  match vm_step prog d s with inl s' => vm_wf s' | inr r => is_u32 r end.
Proof.
  intros Hd Hp Hs. unfold vm_step. destruct (Z.leb_spec (Z.of_nat (length prog)) (pc s)); [done|].
  destruct (prog !! Z.to_nat (pc s)) eqn:Hi; [|done].
  apply exec_insn_wf; [done| |done]. by eapply Forall_lookup_1.
Qed.

(** Control flow of an accepted program: it never leaves the program. *)
Lemma exec_insn_validated d prog n i s s' :
  validated prog → insn_wf i → prog !! n = Some i →
  exec_insn d i (set_pc s (Z.of_nat n)) = inl s' →
  Z.of_nat n < pc s' < Z.of_nat (length prog).
Proof.
  intros [[Hpos Hlen] Hvalid Hlast] (_ & Hjt & Hjf & Hk) Hn Hex.
  assert (n < length prog)%nat as Hlt by (by eapply lookup_lt_Some).
  assert (class i ≠ BPF_RET → (S n < length prog)%nat) as Hnext.
  { intros Hne. destruct (decide (S n = length prog)) as [He|]; [|lia].
    exfalso. apply Hne, Hlast. rewrite last_lookup, <- He. done. }
  specialize (Hvalid n i Hn). unfold MAX_INSNS, in_range in *.
  unfold exec_insn, next in Hex. cbn in Hex. unfold validate_insn in Hvalid.
  repeat case_match; simplify_eq; cbn;
    repeat match goal with
           | H : _ || _ = false |- _ => apply orb_false_iff in H as [? ?]
           | H : (_ =? _) = true |- _ => apply Z.eqb_eq in H
           | H : (_ =? _) = false |- _ => apply Z.eqb_neq in H
           | H : (_ <=? _) = false |- _ => apply Z.leb_gt in H
           end;
    try (rewrite (wadd_small 64) in * by lia; lia);
    rewrite (wadd_small 64) in * by lia;
    (assert (class i ≠ BPF_RET) as Hc by (intros Hc; rewrite Hc in *; done));
    specialize (Hnext Hc); lia.
Qed.

Lemma reference_set_pc d rest skip s q :
  reference d rest skip (set_pc s q) = reference d rest skip s.
Proof.
  revert skip. induction rest as [|i rest IH]; intros skip; [done|]. simpl.
  case_match; [apply IH|]. done.
Qed.

Lemma reference_skip d rest m s :
  reference d rest (Z.of_nat m) s = reference d (drop m rest) 0 s.
Proof.
  revert m. induction rest as [|i rest IH]; intros [|m]; try done.
  cbn [reference drop]. destruct (Z.ltb_spec 0 (Z.of_nat (S m))); [|lia].
  replace (Z.of_nat (S m) - 1) with (Z.of_nat m) by lia. apply IH.
Qed.

(** From any position of an accepted program, the reference semantics gives a
    result and the machine leaves its loop with it, in no more rounds than
    instructions remain. *)
Lemma validated_run_from d prog fuel n s :
  validated prog → Forall insn_wf prog →
  (n < length prog)%nat → (length prog - n ≤ fuel)%nat →
  ∃ r, reference d (drop n prog) 0 s = Some r ∧
       loop_nat (vm_step prog d) fuel (set_pc s (Z.of_nat n)) = inr r.
Proof.
  intros Hval Hwf. revert n s. induction fuel as [|fuel IH]; intros n s Hn Hfuel; [lia|].
  destruct (lookup_lt_is_Some_2 prog n Hn) as [i Hi].
  assert (insn_wf i) as Hwi by (by eapply Forall_lookup_1).
  assert (length prog ≤ 4096)%nat as Hlen.
  { destruct Hval as [[_ Hl] _ _]. unfold MAX_INSNS in Hl. lia. }
  rewrite (drop_S prog i n Hi). cbn [reference loop_nat].
  change (0 <? 0) with false. cbv iota. unfold vm_step at 1. cbn [pc set_pc].
  destruct (Z.leb_spec (Z.of_nat (length prog)) (Z.of_nat n)); [lia|].
  rewrite Nat2Z.id, Hi.
  pose proof (exec_insn_pc d i s (Z.of_nat n) Hwi ltac:(lia)) as Hpc.
  destruct (exec_insn d i (set_pc s 0)) as [s0|r0] eqn:E0;
    destruct (exec_insn d i (set_pc s (Z.of_nat n))) as [s'|r'] eqn:E'; try done.
  - destruct Hpc as [-> Hge]. pose proof (exec_insn_validated _ _ _ _ _ _ Hval Hwi Hi E') as Hb.
    cbn in Hb. destruct (IH (n + Z.to_nat (pc s0))%nat s0) as (r & Hr & Hl); [lia|lia|].
    exists r. split.
    + replace (pc s0 - 1) with (Z.of_nat (Z.to_nat (pc s0 - 1))) by lia.
      rewrite reference_skip, drop_drop. rewrite <- Hr. f_equal. f_equal. lia.
    + rewrite <- Hl. f_equal. f_equal. lia.
  - exists r'. by rewrite Hpc.
Qed.

Lemma validated_run d prog s :
  validated prog → Forall insn_wf prog →
  ∃ r, reference d prog 0 s = Some r ∧
       loop_nat (vm_step prog d) (length prog) (set_pc s 0) = inr r.
Proof.
  intros Hval Hwf. apply (validated_run_from d prog (length prog) 0 s Hval Hwf).
  - apply Hval.
  - lia.
Qed.

(** ** Theorems *)

(** C9. Validation makes execution total and exact: for a program that
    [validate] accepts, [run] returns the value of the budget-free reference
    semantics, which is defined (control never runs past the last
    instruction), whatever the system call examined. *)
Theorem run_validated_reference prog d :
  Forall insn_wf prog → validate prog = Ok tt →
  reference d prog 0 vm_init = Some (run prog d).
Proof.
  intros Hwf Hv%validate_validated.
  destruct (validated_run d prog vm_init Hv Hwf) as (r & Href & Hloop).
  rewrite Href. f_equal. unfold run. rewrite loop_pos_nat.
  rewrite (loop_nat_more _ (length prog) _ _ r); [done|exact Hloop|].
  destruct Hv as [[_ Hlen] _ _]. unfold MAX_INSNS, BUDGET in *. lia.
Qed.

(** Termination bound: an accepted program stops by itself within as
    many rounds as it has instructions (at most 4096), from any register and
    memory contents; the interpreter's budget of a million rounds is never
    what stops it. *)
Theorem validated_terminates prog d s :
  Forall insn_wf prog → validate prog = Ok tt →
  ∃ r, loop_nat (vm_step prog d) (length prog) (set_pc s 0) = inr r ∧
       (length prog < Pos.to_nat BUDGET)%nat.
Proof.
  intros Hwf Hv%validate_validated.
  destruct (validated_run d prog s Hv Hwf) as (r & _ & Hloop). exists r.
  split; [done|]. destruct Hv as [[_ Hlen] _ _]. unfold MAX_INSNS, BUDGET in *. lia.
Qed.

(** Type safety: on 32-bit instructions and a well-formed system-call
    record, [run] returns a 32-bit value, validated or not. *)
Theorem run_u32 prog d : Forall insn_wf prog → data_wf d → is_u32 (run prog d).
Proof.
  intros Hp Hd. unfold run. rewrite loop_pos_nat.
  pose proof (loop_nat_inv (vm_step prog d) vm_wf is_u32) as Hinv.
  specialize (Hinv (λ s s' Hs E, ltac:(pose proof (vm_step_wf prog d s Hd Hp Hs) as H; by rewrite E in H))).
  specialize (Hinv (λ s r Hs E, ltac:(pose proof (vm_step_wf prog d s Hd Hp Hs) as H; by rewrite E in H))).
  specialize (Hinv (Pos.to_nat BUDGET) vm_init vm_init_wf).
  by destruct (loop_nat _ _ _).
Qed.

(** Memory safety of accepted programs: every scratch access indexes one
    of the sixteen words and every absolute load reads inside the 64-byte
    record, except for the four offsets whose [k + 4] wraps around in 32
    bits and slips through the check. *)
Theorem validate_bounds prog n i :
  validate prog = Ok tt → prog !! n = Some i → is_u32 (k i) →
  (class i = BPF_ST ∨ class i = BPF_STX → k i < 16) ∧
  (class i = BPF_LD ∨ class i = BPF_LDX → mode i = BPF_MEM → k i < 16) ∧
  (class i = BPF_LD → mode i = BPF_ABS → k i + 4 ≤ SECCOMP_DATA_LEN ∨ 2 ^ 32 - 4 ≤ k i).
Proof.
  intros Hv%validate_validated Hn Hk. pose proof (validated_insn _ Hv n i Hn) as Hi.
  unfold validate_insn in Hi. split_and!.
  - intros [Hc|Hc]; rewrite Hc in Hi; cbn in Hi;
      destruct (Z.leb_spec 16 (k i)); done || lia.
  - intros [Hc|Hc] Hm; rewrite Hc, Hm in Hi; cbn in Hi;
      destruct (Z.leb_spec 16 (k i)); done || lia.
  - intros Hc Hm. rewrite Hc, Hm in Hi. cbn in Hi.
    destruct (Z.ltb_spec SECCOMP_DATA_LEN (wadd 32 (k i) 4)) as [|Hle]; [done|].
    destruct (Z.lt_ge_cases (k i) (2 ^ 32 - 4)); [|by right].
    left. rewrite wadd_small in Hle; [done|]. unfold in_range in Hk. lia.
Qed.

(** The record as the 64 bytes a program addresses. *)
Definition data_bytes (d : SeccompData) : list Z :=
  le_bytes 4 (nr d) ++ le_bytes 4 (arch d) ++ le_bytes 8 (ip d) ++
  concat (map (le_bytes 8) (args d)).

Lemma word_of_u64 v (hi : bool) rest :
  take 4 (drop (if hi then 4 else 0) (le_bytes 8 v ++ rest))%nat =
  le_bytes 4 (Z.shiftr v (if hi then 32 else 0)).
Proof.
  destruct hi.
  - rewrite drop_app_le by (rewrite length_le_bytes; lia).
    rewrite (drop_le_bytes 4 4). rewrite take_app_le by (rewrite length_le_bytes; lia).
    by rewrite (take_le_bytes 4 0).
  - rewrite drop_0, take_app_le by (rewrite length_le_bytes; lia).
    rewrite (take_le_bytes 4 4). by rewrite Z.shiftr_0_r.
Qed.

Lemma drop_args_bytes l n rest :
  (n < length l)%nat →
  drop (8 * n) (concat (map (le_bytes 8) l) ++ rest) =
  le_bytes 8 (default 0 (l !! n)) ++ concat (map (le_bytes 8) (drop (S n) l)) ++ rest.
Proof.
  revert n. induction l as [|v l IH]; intros [|n] Hn; simpl in Hn; try lia.
  - simpl. by rewrite drop_0.
  - cbn [map concat lookup list_lookup drop]. rewrite <- app_assoc.
    rewrite drop_app_ge by (rewrite length_le_bytes; lia). rewrite length_le_bytes.
    replace (8 * S n - 8)%nat with (8 * n)%nat by lia. apply IH. lia.
Qed.

(** Loads read the record's layout: at every 4-aligned offset except that
    of the low half of the instruction pointer, [load_u32] returns the
    little-endian word at that offset of the 64-byte record. *)
Theorem load_u32_layout d w :
  data_wf d → 0 ≤ w < 16 → w ≠ 2 →
  load_u32 d (4 * w) = Some (le_value (take 4 (drop (Z.to_nat (4 * w)) (data_bytes d)))).
Proof.
  intros (Hnr & Har & Hip & Hlen & Hargs) Hw Hne. unfold data_bytes.
  destruct (decide (w < 4)) as [Hlt|Hge].
  - assert (w = 0 ∨ w = 1 ∨ w = 3) as [-> | [-> | ->]] by lia.
    + change (Z.to_nat (4 * 0)) with 0%nat. rewrite drop_0.
      rewrite take_app_le by (rewrite length_le_bytes; lia).
      rewrite (take_le_bytes 4 0), le_value_bytes. cbn. by rewrite wrap_small.
    + change (Z.to_nat (4 * 1)) with 4%nat.
      rewrite drop_app_ge by (rewrite length_le_bytes; lia). rewrite length_le_bytes.
      change (4 - 4)%nat with 0%nat. rewrite drop_0.
      rewrite take_app_le by (rewrite length_le_bytes; lia).
      rewrite (take_le_bytes 4 0), le_value_bytes. cbn. by rewrite wrap_small.
    + change (Z.to_nat (4 * 3)) with (4 + (4 + 4))%nat.
      rewrite (app_assoc (le_bytes 4 _)). rewrite drop_app_ge by (rewrite length_app, !length_le_bytes; lia).
      rewrite length_app, !length_le_bytes. change (4 + (4 + 4) - (4 + 4))%nat with 4%nat.
      rewrite (word_of_u64 (ip d) true), le_value_bytes. done.
  - set (n := Z.to_nat (w / 2 - 2)). set (hi := negb (w mod 2 =? 0)).
    assert (w / 2 < 8 ∧ 2 ≤ w / 2) as Hw2 by (split; [apply Z.div_lt_upper_bound; lia|apply Z.div_le_lower_bound; lia]).
    assert (0 ≤ w mod 2 < 2) as Hm by (apply Z.mod_pos_bound; lia).
    pose proof (Z.div_mod w 2 ltac:(lia)) as Hdm.
    assert (Z.to_nat (4 * w) = 16 + 8 * n + (if hi then 4 else 0))%nat as ->.
    { unfold n, hi. destruct (Z.eqb_spec (w mod 2) 0); cbn [negb]; lia. }
    rewrite <- !drop_drop. rewrite !app_assoc. rewrite drop_app_ge; rewrite ?length_app, ?length_le_bytes; [|lia].
    change (16 - (4 + 4 + 8))%nat with 0%nat. rewrite drop_0.
    rewrite <- (app_nil_r (concat _)), drop_args_bytes by lia.
    rewrite word_of_u64, le_value_bytes. unfold load_u32, arg.
    replace ((4 * w - 16) / 8) with (Z.of_nat n); [replace ((4 * w - 16) mod 8 * 8) with (if hi then 32 else 0)|].
    + rewrite Nat2Z.id.
      repeat match goal with |- context [?b <=? ?c] => destruct (Z.leb_spec b c); try lia end; cbn [andb].
      destruct (Z.eqb_spec (4 * w) 0), (Z.eqb_spec (4 * w) 4); try lia. done.
    + replace (4 * w - 16) with (w mod 2 * 4 + (w / 2 - 2) * 8) by lia.
      rewrite Z.mod_add by lia. rewrite Z.mod_small by lia. unfold hi.
      destruct (Z.eqb_spec (w mod 2) 0); cbn [negb]; lia.
    + unfold n. replace (4 * w - 16) with (w mod 2 * 4 + (w / 2 - 2) * 8) by lia.
      rewrite Z.div_add by lia. rewrite (Z.div_small (w mod 2 * 4) 8) by lia. lia.
Qed.

(** The remaining offset: a load at offset 8 yields only the lowest byte
    of the instruction pointer, so a filter on the program's address sees
    eight of its 32 bits. *)
Theorem load_u32_ip_low d : load_u32 d 8 = Some (ip d mod 256).
Proof.
  cbn. rewrite Z.shiftr_0_r. by rewrite (Z.land_ones _ 8).
Qed.

(** [ret a] ignores the accumulator: the return test compares the
    instruction's source bit (0x08) with [BPF_A] (0x10), which it never
    equals, so every return yields the constant [k]. *)
Theorem ret_a_returns_k d i s : class i = BPF_RET → exec_insn d i s = inr (k i).
Proof.
  intros Hc. unfold exec_insn. rewrite Hc. cbn.
  destruct (Z.eqb_spec (src i) BPF_A) as [He|]; [|done]. exfalso.
  unfold src, BPF_A in He.
  assert (Z.testbit (Z.land (code i) 8) 4 = true) as Hb by (by rewrite He).
  rewrite Z.land_spec in Hb. by rewrite andb_false_r in Hb.
Qed.

(** ** Witnesses

    The filter [ld [0]; jeq #59, 0, 1; ret ERRNO|1; ret ALLOW], which denies
    [execve] and allows the rest. *)
Definition demo_filter : list BpfInsn :=
  [mkInsn 0x20 0 0 0; mkInsn 0x15 0 1 59; mkInsn 0x06 0 0 0x50001; mkInsn 0x06 0 0 0x7FFF0000].
Definition demo_data (n : Z) : SeccompData := data_new n 0x401000 1 2 3 4 5 0x123456789A.

Lemma demo_filter_wf : Forall insn_wf demo_filter.
Proof. repeat constructor; done. Qed.
Lemma demo_data_wf n : data_wf (demo_data n).
Proof.
  unfold demo_data, data_new. split_and!; try done.
  - cbn [nr]. auto with words.
  - repeat constructor; done.
Qed.

Lemma run_validated_reference_witness :
  validate demo_filter = Ok tt ∧
  reference (demo_data 59) demo_filter 0 vm_init = Some 0x50001 ∧
  reference (demo_data 60) demo_filter 0 vm_init = Some (run demo_filter (demo_data 60)).
Proof.
  split; [reflexivity|]. split; [reflexivity|].
  apply (run_validated_reference demo_filter (demo_data 60)); [apply demo_filter_wf|reflexivity].
Defined.

Lemma validated_terminates_witness :
  ∃ r, loop_nat (vm_step demo_filter (demo_data 59)) (length demo_filter) (set_pc vm_init 0) = inr r ∧
       (length demo_filter < Pos.to_nat BUDGET)%nat.
Proof.
  apply (validated_terminates demo_filter (demo_data 59) vm_init); [apply demo_filter_wf|reflexivity].
Defined.

Lemma run_u32_witness : is_u32 (run demo_filter (demo_data 59)).
Proof. apply (run_u32 demo_filter (demo_data 59)); [apply demo_filter_wf|apply demo_data_wf]. Defined.

Lemma validate_bounds_witness :
  validate demo_filter = Ok tt ∧
  (class (mkInsn 0x20 0 0 0) = BPF_LD → mode (mkInsn 0x20 0 0 0) = BPF_ABS →
   0 + 4 ≤ SECCOMP_DATA_LEN ∨ 2 ^ 32 - 4 ≤ 0).
Proof.
  split; [reflexivity|].
  apply (validate_bounds demo_filter 0 (mkInsn 0x20 0 0 0)); [reflexivity|reflexivity|].
  split; [apply Z.le_refl|reflexivity].
Defined.

Lemma load_u32_layout_witness :
  load_u32 (demo_data 59) 60 = Some 0x12 ∧
  load_u32 (demo_data 59) (4 * 14) =
    Some (le_value (take 4 (drop (Z.to_nat (4 * 14)) (data_bytes (demo_data 59))))).
Proof.
  split; [reflexivity|]. apply (load_u32_layout (demo_data 59) 14); [apply demo_data_wf|lia|lia].
Defined.

Lemma ret_a_returns_k_witness :
  exec_insn (demo_data 0) (mkInsn 0x16 0 0 0) (mkVm 0x7FFF0000 0 [] 0) = inr 0.
Proof. apply (ret_a_returns_k (demo_data 0) (mkInsn 0x16 0 0 0)). reflexivity. Defined.
