(* ===== verification/Seccomp.v ===== *)
(** * Seccomp filter chains and user notification

    Models the rest of kernel/src/security/seccomp.rs: the mapping of return
    values to decisions ([action_to_qsf]), the per-process chain of filters
    ([FilterChain]) and the notification queue that lets a supervisor decide
    ([NotifState], [intercept_for_notif]).  The system calls that install
    filters are in Gate. *)
From S2P Require Import Prelude Bpf.

(** [QsfResult] of kernel/src/security/mod.rs *)
Inductive QsfResult := Allow | Deny | Kill.
#[export] Instance QsfResult_eq_dec : EqDecision QsfResult.
Proof. solve_decision. Defined.

Definition SECCOMP_MODE_STRICT := 1.
Definition SECCOMP_MODE_FILTER := 2.

Definition action_to_qsf (retval : Z) : QsfResult * Z :=
  let action := Z.land retval SECCOMP_RET_ACTION_FULL in
  let data := Z.land retval 0x0000FFFF in
  if action =? SECCOMP_RET_ALLOW then (Allow, 0)
  else if action =? SECCOMP_RET_KILL then (Kill, 0)
  else if action =? SECCOMP_RET_KILL_PROCESS then (Kill, 0)
  else if action =? SECCOMP_RET_TRAP then (Kill, 0)
  else if action =? SECCOMP_RET_ERRNO then (Deny, data)
  else if SECCOMP_RET_TRACE <=? action then (Allow, 0)
  else if action =? SECCOMP_RET_LOG then (Allow, 0)
  else (Allow, 0).

(** ** The chain of a process *)
Record SeccompFilter := mkFilter { insns : list BpfInsn; log : bool }.

Record FilterChain := mkChain {
  filters : list SeccompFilter;
  chain_mode : Z;
  notif_fd : option Z;
}.

Definition chain_new : FilterChain := mkChain [] 0 None.
Definition is_active (c : FilterChain) : bool := negb (chain_mode c =? 0).

Definition strict_allows (n : Z) : bool :=
  (n =? 0) || (n =? 1) || (n =? 15) || (n =? 60) || (n =? 231).

(** The loop of [run_chain] over the filters: the most restrictive value so
    far and the audit records ([pid], [nr]) the logging filters wrote. *)
Fixpoint run_filters (pid : Z) (d : SeccompData) (fs : list SeccompFilter) (most : Z)
    : Z * list (Z * Z) :=
  match fs with
  | [] => (most, [])
  | f :: fs =>
      let ret := run (insns f) d in
      let most' := if ret <? most then ret else most in
      let '(r, audit) := run_filters pid d fs most' in
      (r, if log f then (pid, nr d) :: audit else audit)
  end.

Definition run_chain (pid : Z) (c : FilterChain) (d : SeccompData)
    : (QsfResult * Z) * list (Z * Z) :=
  if chain_mode c =? SECCOMP_MODE_STRICT then
    (if strict_allows (nr d) then (Allow, 0) else (Kill, 0), [])
  else
    let '(r, audit) := run_filters pid d (filters c) SECCOMP_RET_ALLOW in
    (action_to_qsf r, audit).

Definition install (c : FilterChain) (f : SeccompFilter) : FilterChain :=
  mkChain (filters c ++ [f]) SECCOMP_MODE_FILTER (notif_fd c).

Definition set_strict (c : FilterChain) : FilterChain :=
  mkChain (filters c) SECCOMP_MODE_STRICT (notif_fd c).

(** [check_seccomp]: [cur] is the chain of the current process, if any. *)
Definition check_seccomp (pid : Z) (cur : option FilterChain) (n ip : Z) (args : list Z)
    : (QsfResult * Z) * list (Z * Z) :=
  match cur with
  | None => ((Allow, 0), [])
  | Some c =>
      if is_active c then run_chain pid c (mkData (wrap 32 n) AUDIT_ARCH_X86_64 ip args)
      else ((Allow, 0), [])
  end.

(** ** Notifications *)
Record SeccompNotif := mkNotif { notif_id : Z; notif_pid : Z; notif_flags : Z; notif_data : SeccompData }.
Record SeccompNotifResp := mkResp { resp_id : Z; resp_val : Z; resp_error : Z; resp_flags : Z }.

Record PendingNotif := mkPending {
  pn_id : Z;
  pn_pid : Z;
  pn_notif : SeccompNotif;
  pn_responded : bool;
  pn_response : option SeccompNotifResp;
}.

Record NotifState := mkNotifState { fd_id : Z; pending : list PendingNotif; next_id : Z }.

Definition notif_new (fd : Z) : NotifState := mkNotifState fd [] 1.

Definition push_notif (s : NotifState) (pid : Z) (d : SeccompData) : NotifState * Z :=
  let id := next_id s in
  let notif := mkNotif id pid 0 d in
  (mkNotifState (fd_id s) (pending s ++ [mkPending id pid notif false None]) (wadd 64 id 1), id).

Definition recv_notif (s : NotifState) : option SeccompNotif :=
  pn_notif <$> head (pending s).

Fixpoint respond (l : list PendingNotif) (r : SeccompNotifResp) : option (list PendingNotif) :=
  match l with
  | [] => None
  | n :: l' =>
      if pn_id n =? resp_id r
      then Some (mkPending (pn_id n) (pn_pid n) (pn_notif n) true (Some r) :: l')
      else cons n <$> respond l' r
  end.

Definition send_response (s : NotifState) (r : SeccompNotifResp) : NotifState * bool :=
  match respond (pending s) r with
  | Some l => (mkNotifState (fd_id s) l (next_id s), true)
  | None => (s, false)
  end.

Definition id_valid (s : NotifState) (id : Z) : bool :=
  existsb (λ n, (pn_id n =? id) && negb (pn_responded n)) (pending s).

(** [position] and [remove] of the first completed notification with this
    identifier. *)
Fixpoint take_response (l : list PendingNotif) (id : Z)
    : option (list PendingNotif * option SeccompNotifResp) :=
  match l with
  | [] => None
  | n :: l' =>
      if (pn_id n =? id) && pn_responded n then Some (l', pn_response n)
      else match take_response l' id with
           | Some (l'', r) => Some (n :: l'', r)
           | None => None
           end
  end.

Definition get_response (s : NotifState) (id : Z) : NotifState * option SeccompNotifResp :=
  match take_response (pending s) id with
  | Some (l, r) => (mkNotifState (fd_id s) l (next_id s), r)
  | None => (s, None)
  end.

Definition SECCOMP_USER_NOTIF_FLAG_CONTINUE := 1.

(** The decision a response carries. *)
Definition resp_decision (r : SeccompNotifResp) : QsfResult * Z :=
  if negb (Z.land (resp_flags r) SECCOMP_USER_NOTIF_FLAG_CONTINUE =? 0) then (Allow, 0)
  else if negb (resp_error r =? 0) then (Deny, - resp_error r)
  else (Allow, 0).

(** The table [NOTIF_STATES] with the counter [NEXT_NOTIF_FD]. *)
Record NotifTable := mkNotifTable { states : gmap Z NotifState; next_notif_fd : Z }.

Definition create_notif_fd (t : NotifTable) : NotifTable * Z :=
  let fd := next_notif_fd t in
  (mkNotifTable (<[fd := notif_new fd]> (states t)) (wadd 32 fd 1), fd).

Definition MAX_POLLS : nat := Z.to_nat 10001.

Section Intercept.
(** What the rest of the system does to the notification table while the
    intercepted thread has yielded. *)
Variable env : gmap Z NotifState → gmap Z NotifState.

(** [rounds] polls remain. *)
Fixpoint poll (rounds : nat) (fd id : Z) (g : gmap Z NotifState)
    : gmap Z NotifState * (QsfResult * Z) :=
  match rounds with
  | O => (g, (Allow, 0))
  | S rounds' =>
      let '(g1, resp) :=
        match g !! fd with
        | Some ns => let '(ns', r) := get_response ns id in (<[fd := ns']> g, r)
        | None => (g, None)
        end in
      match resp with
      | Some r => (g1, resp_decision r)
      | None => if rounds' is O then (g1, (Allow, 0)) else poll rounds' fd id (env g1)
      end
  end.

Definition intercept_for_notif (fd pid : Z) (d : SeccompData) (g : gmap Z NotifState)
    : gmap Z NotifState * (QsfResult * Z) :=
  match g !! fd with
  | None => (g, (Allow, 0))
  | Some ns =>
      let '(ns', id) := push_notif ns pid d in
      poll MAX_POLLS fd id (<[fd := ns']> g)
  end.
End Intercept.

(** ** Lemmas on the chain *)
Lemma run_filters_min pid d fs most :
  (run_filters pid d fs most).1 = foldr Z.min most ((λ f, run (insns f) d) <$> fs).
Proof.
  revert most. induction fs as [|f fs IH]; intros most; [done|]. simpl.
  set (r := run (insns f) d). specialize (IH (if r <? most then r else most)).
  destruct (run_filters _ _ _ _) as [v audit]. cbn in *. rewrite IH.
  assert (∀ l b, foldr Z.min (Z.min r b) l = Z.min r (foldr Z.min b l)) as Hmin.
  { clear. induction l as [|y l IHl]; intros b; simpl; [done|]. rewrite IHl. lia. }
  replace (if r <? most then r else most) with (Z.min r most); [apply Hmin|].
  destruct (Z.ltb_spec r most); lia.
Qed.

Lemma foldr_min_le (l : list Z) b v : v = b ∨ v ∈ l → foldr Z.min b l ≤ v.
Proof.
  induction l as [|y l IH]; simpl; intros [->|Hin].
  - lia.
  - by apply not_elem_of_nil in Hin.
  - specialize (IH (or_introl eq_refl)). lia.
  - apply elem_of_cons in Hin as [->|Hin]; [lia|]. specialize (IH (or_intror Hin)). lia.
Qed.

Lemma foldr_min_in (l : list Z) b : foldr Z.min b l = b ∨ foldr Z.min b l ∈ l.
Proof.
  induction l as [|y l IH]; simpl; [by left|].
  destruct (Z.min_spec y (foldr Z.min b l)) as [[_ ->]|[_ ->]].
  - right. by left.
  - destruct IH as [->|]; [by left|right; by right].
Qed.

Lemma foldr_min_mono (l : list Z) b b' : b' ≤ b → foldr Z.min b' l ≤ foldr Z.min b l.
Proof. intros. induction l as [|y l IH]; simpl; lia. Qed.

(** The documented actions a filter may return, [SECCOMP_RET_KILL_PROCESS]
    apart, with any data in the low 16 bits. *)
Definition known_action (v : Z) : bool :=
  existsb (Z.eqb (Z.land v SECCOMP_RET_ACTION_FULL))
    [SECCOMP_RET_KILL; SECCOMP_RET_TRAP; SECCOMP_RET_ERRNO; SECCOMP_RET_USER_NOTIF;
     SECCOMP_RET_TRACE; SECCOMP_RET_LOG; SECCOMP_RET_ALLOW].

(** How much a decision restricts. *)
Definition severity (q : QsfResult) : Z := match q with Allow => 0 | Deny => 1 | Kill => 2 end.

Lemma action_part v : is_u32 v → Z.land v SECCOMP_RET_ACTION_FULL = 2 ^ 16 * (v / 2 ^ 16).
Proof.
  intros Hv. rewrite Z.mul_comm, <- Z.shiftl_mul_pow2, <- Z.shiftr_div_pow2 by done.
  unfold SECCOMP_RET_ACTION_FULL. change 0xFFFF0000 with (Z.shiftl (Z.ones 16) 16).
  apply Z.bits_inj'. intros i Hi. rewrite Z.land_spec.
  destruct (Z.lt_ge_cases i 16).
  - rewrite !Z.shiftl_spec_low by done. apply andb_false_r.
  - rewrite !Z.shiftl_spec, Z.shiftr_spec by lia. rewrite Z.sub_add.
    destruct (Z.lt_ge_cases i 32); [|by rewrite (testbit_above 32 v)].
    rewrite Z.ones_spec_low by lia. apply andb_true_r.
Qed.

(** The decision on a 32-bit value, by its upper half. *)
Lemma action_to_qsf_cases v :
  is_u32 v → known_action v = true →
  let h := v / 2 ^ 16 in
  (h = 0 ∨ h = 3) ∧ action_to_qsf v = (Kill, 0) ∨
  h = 5 ∧ action_to_qsf v = (Deny, Z.land v 0xFFFF) ∨
  0x7FC0 ≤ h ∧ action_to_qsf v = (Allow, 0).
Proof.
  intros Hv Hk h. unfold known_action in Hk. unfold action_to_qsf.
  rewrite action_part in * by done. fold h in Hk |- *.
  apply existsb_exists in Hk as (y & Hin & He%Z.eqb_eq). rewrite He.
  cbn [In] in Hin. destruct Hin as [<-|[<-|[<-|[<-|[<-|[<-|[<-|[]]]]]]]]; cbn;
    unfold SECCOMP_RET_KILL, SECCOMP_RET_TRAP, SECCOMP_RET_ERRNO, SECCOMP_RET_USER_NOTIF,
      SECCOMP_RET_TRACE, SECCOMP_RET_LOG, SECCOMP_RET_ALLOW in He; naive_solver lia.
Qed.

(** On documented actions a lower value never restricts less. *)
Lemma severity_antitone v w :
  is_u32 v → is_u32 w → known_action v = true → known_action w = true → v ≤ w →
  severity (action_to_qsf w).1 ≤ severity (action_to_qsf v).1.
Proof.
  intros Hv Hw Kv Kw Hle.
  assert (v / 2 ^ 16 ≤ w / 2 ^ 16) by (by apply Z.div_le_mono).
  destruct (action_to_qsf_cases v Hv Kv) as [[? ->]|[[? ->]|[? ->]]];
    destruct (action_to_qsf_cases w Hw Kw) as [[? ->]|[[? ->]|[? ->]]]; cbn; lia.
Qed.

(** A chain is well formed when every filter holds well-formed instructions. *)
Definition chain_wf (c : FilterChain) : Prop := Forall (λ f, Forall insn_wf (insns f)) (filters c).

(** Every filter of the chain answers with a documented action. *)
Definition chain_known (c : FilterChain) (d : SeccompData) : Prop :=
  Forall (λ f, known_action (run (insns f) d) = true) (filters c).
#[export] Instance chain_known_dec c d : Decision (chain_known c d).
Proof. unfold chain_known. apply _. Defined.

Definition chain_value (c : FilterChain) (d : SeccompData) : Z :=
  foldr Z.min SECCOMP_RET_ALLOW ((λ f, run (insns f) d) <$> filters c).

Lemma run_chain_value pid c d :
  chain_mode c ≠ SECCOMP_MODE_STRICT → (run_chain pid c d).1 = action_to_qsf (chain_value c d).
Proof.
  intros Hm. unfold run_chain, chain_value. apply Z.eqb_neq in Hm. rewrite Hm.
  pose proof (run_filters_min pid d (filters c) SECCOMP_RET_ALLOW) as He.
  destruct (run_filters _ _ _ _). cbn in *. by rewrite He.
Qed.

Lemma chain_value_ok c d :
  chain_wf c → data_wf d → chain_known c d →
  is_u32 (chain_value c d) ∧ known_action (chain_value c d) = true.
Proof.
  intros Hwf Hd Hk. unfold chain_value.
  destruct (foldr_min_in ((λ f, run (insns f) d) <$> filters c) SECCOMP_RET_ALLOW) as [->|Hin].
  - split; [done|reflexivity].
  - apply list_elem_of_fmap in Hin as (f & -> & Hf).
    unfold chain_wf, chain_known in *. rewrite Forall_forall in Hwf, Hk.
    split; [apply run_u32; [by apply Hwf|done]|by apply Hk].
Qed.

(** ** Lemmas on notifications *)

(** Identifiers are handed out in increasing order and a notification counts
    as answered exactly when it holds the answer to it. *)
Definition pending_wf (n : PendingNotif) : Prop :=
  match pn_response n with
  | Some r => pn_responded n = true ∧ resp_id r = pn_id n
  | None => pn_responded n = false
  end.

Record notif_wf (s : NotifState) : Prop := {
  notif_ids_nodup : NoDup (pn_id <$> pending s);
  notif_ids_below : Forall (λ n, pn_id n < next_id s) (pending s);
  notif_answers : Forall pending_wf (pending s);
}.

Lemma notif_new_wf fd : notif_wf (notif_new fd).
Proof. split; constructor. Qed.

Lemma push_notif_wf s pid d :
  notif_wf s → 0 ≤ next_id s < 2 ^ 64 - 1 → notif_wf (push_notif s pid d).1.
Proof.
  intros [Hnd Hlt Hans] Hid. unfold push_notif. cbn. split; cbn.
  - rewrite fmap_app. apply NoDup_app. split; [done|]. split; [|by apply NoDup_singleton].
    intros y (n & -> & Hn)%list_elem_of_fmap He%list_elem_of_singleton.
    rewrite Forall_forall in Hlt. specialize (Hlt n Hn). cbn in He. lia.
  - rewrite wadd_small by lia. apply Forall_app. split; [|constructor; [cbn; lia|constructor]].
    eapply Forall_impl; [exact Hlt|]. cbn. lia.
  - apply Forall_app. split; [done|]. by repeat constructor.
Qed.

Lemma respond_ids l r l' : respond l r = Some l' → pn_id <$> l' = pn_id <$> l.
Proof.
  revert l'. induction l as [|n l IH]; intros l'; simpl; [done|].
  case_match; intros; simplify_eq/=; [done|].
  destruct (respond l r) as [l1|]; simplify_eq/=. f_equal. by apply IH.
Qed.

Lemma respond_wf l r l' : Forall pending_wf l → respond l r = Some l' → Forall pending_wf l'.
Proof.
  revert l'. induction l as [|n l IH]; intros l' Hl; simpl; [done|]. inversion_clear Hl.
  destruct (Z.eqb_spec (pn_id n) (resp_id r)); intros; simplify_eq/=.
  - constructor; [|done]. unfold pending_wf. cbn. done.
  - destruct (respond l r) as [l1|]; simplify_eq/=. constructor; [done|by apply IH].
Qed.

Lemma Forall_ids (P : Z → Prop) l : Forall (λ n, P (pn_id n)) l ↔ Forall P (pn_id <$> l).
Proof. by rewrite Forall_fmap. Qed.

Lemma send_response_wf s r : notif_wf s → notif_wf (send_response s r).1.
Proof.
  intros [Hnd Hlt Hans]. unfold send_response. destruct (respond _ _) as [l|] eqn:E; [|done].
  pose proof (respond_ids _ _ _ E) as Hids. split; cbn.
  - by rewrite Hids.
  - rewrite (Forall_ids (λ i, i < next_id s)) in *. by rewrite Hids.
  - by eapply respond_wf.
Qed.

Lemma take_response_sublist l id l' r :
  take_response l id = Some (l', r) → sublist l' l.
Proof.
  revert l'. induction l as [|n l IH]; intros l'; simpl; [done|].
  case_match; intros; simplify_eq/=; [by apply sublist_cons|].
  destruct (take_response l id) as [[l1 r1]|]; simplify_eq/=.
  by apply sublist_skip, IH.
Qed.

Lemma sublist_Forall {A} (P : A → Prop) l l' : sublist l' l → Forall P l → Forall P l'.
Proof. intros Hs. rewrite !Forall_forall. intros H y Hy. apply H. by eapply elem_of_sublist. Qed.

Lemma sublist_map {A B} (f : A → B) l l' : sublist l' l → sublist (f <$> l') (f <$> l).
Proof. induction 1; simpl; by constructor. Qed.

Lemma get_response_wf s id : notif_wf s → notif_wf (get_response s id).1.
Proof.
  intros [Hnd Hlt Hans]. unfold get_response.
  destruct (take_response _ _) as [[l r]|] eqn:E; [|done].
  apply take_response_sublist in E. split; cbn.
  - eapply sublist_NoDup; [done|]. by apply sublist_map.
  - by eapply sublist_Forall.
  - by eapply sublist_Forall.
Qed.

Lemma take_respond_last l id r n :
  pn_id n = id → resp_id r = id → id ∉ pn_id <$> l →
  ∃ l2, respond (l ++ [n]) r = Some l2 ∧ take_response l2 id = Some (l, Some r).
Proof.
  intros Hn Hr. induction l as [|m l IH]; intros Hnin; simpl.
  - rewrite Hn, Hr, Z.eqb_refl. eexists. split; [done|]. simpl. by rewrite Z.eqb_refl.
  - apply not_elem_of_cons in Hnin as [Hm Hnin].
    destruct (Z.eqb_spec (pn_id m) (resp_id r)); [congruence|].
    destruct (IH Hnin) as (l2 & -> & Ht). simpl. eexists. split; [done|]. simpl.
    destruct (Z.eqb_spec (pn_id m) id); [congruence|]. simpl. by rewrite Ht.
Qed.

(** ** Theorems *)

(** The most restrictive filter wins: in filter mode, when the filters
    answer with documented actions, the decision is at least as severe as the
    decision of every filter, and it is the decision of one of them (or
    [Allow]). *)
Theorem run_chain_most_restrictive pid c d :
  chain_mode c ≠ SECCOMP_MODE_STRICT → chain_wf c → data_wf d → chain_known c d →
  let decision := (run_chain pid c d).1 in
  (∀ f, f ∈ filters c → severity (action_to_qsf (run (insns f) d)).1 ≤ severity decision.1) ∧
  (decision = (Allow, 0) ∨ ∃ f, f ∈ filters c ∧ decision = action_to_qsf (run (insns f) d)).
Proof.
  intros Hm Hwf Hd Hk decision. subst decision. rewrite run_chain_value by done.
  destruct (chain_value_ok c d Hwf Hd Hk) as [Hr Hkn]. split.
  - intros f Hf. unfold chain_wf, chain_known in *. rewrite Forall_forall in Hwf, Hk.
    apply severity_antitone; auto using run_u32.
    apply foldr_min_le. right. apply list_elem_of_fmap. eauto.
  - unfold chain_value.
    destruct (foldr_min_in ((λ f, run (insns f) d) <$> filters c) SECCOMP_RET_ALLOW) as [->|Hin].
    + left. reflexivity.
    + right. apply list_elem_of_fmap in Hin as (f & -> & Hf). eauto.
Qed.

(** Filters only tighten: installing one more filter never makes the
    decision on a system call less severe. *)
Theorem install_never_relaxes pid c f d :
  chain_mode c ≠ SECCOMP_MODE_STRICT → chain_wf (install c f) → data_wf d →
  chain_known (install c f) d →
  severity (run_chain pid c d).1.1 ≤ severity (run_chain pid (install c f) d).1.1.
Proof.
  intros Hm Hwf Hd Hk.
  assert (chain_wf c ∧ chain_known c d) as [Hwf' Hk'].
  { unfold chain_wf, chain_known, install in *. cbn [filters] in *.
    apply Forall_app in Hwf as [Hwf _], Hk as [Hk _]. done. }
  rewrite !run_chain_value by done.
  destruct (chain_value_ok c d) as [??]; [done..|].
  destruct (chain_value_ok (install c f) d) as [??]; [done..|].
  apply severity_antitone; try done. unfold chain_value. cbn [filters install].
  rewrite fmap_app, foldr_app, list_fmap_singleton. apply foldr_min_mono. cbn [foldr]. apply Z.le_min_r.
Qed.

(** A kill cannot be overridden: if any filter of the chain returns a
    kill-thread value, the decision is [Kill], whatever the other filters
    return, documented or not. *)
Theorem run_chain_kill pid c d f :
  chain_mode c ≠ SECCOMP_MODE_STRICT → chain_wf c → data_wf d → f ∈ filters c →
  run (insns f) d < 2 ^ 16 → (run_chain pid c d).1 = (Kill, 0).
Proof.
  intros Hm Hwf Hd Hf Hlt. rewrite run_chain_value by done.
  assert (chain_value c d < 2 ^ 16) as Hv.
  { eapply Z.le_lt_trans; [|exact Hlt]. apply foldr_min_le. right. apply list_elem_of_fmap. eauto. }
  assert (0 ≤ chain_value c d) as H0.
  { unfold chain_value. destruct (foldr_min_in ((λ f, run (insns f) d) <$> filters c) SECCOMP_RET_ALLOW) as [->|Hin]; [done|].
    apply list_elem_of_fmap in Hin as (g & -> & Hg). unfold chain_wf in Hwf. rewrite Forall_forall in Hwf.
    apply run_u32; auto. }
  unfold action_to_qsf. rewrite action_part by (split; lia).
  by rewrite Z.div_small by lia.
Qed.

(** Values above [SECCOMP_RET_ALLOW] are treated as permissive: the chain
    compares return values as unsigned numbers, so a chain whose filters
    return [SECCOMP_RET_KILL_PROCESS] allows the system call. *)
Theorem kill_process_allowed pid c d :
  chain_mode c ≠ SECCOMP_MODE_STRICT →
  Forall (λ f, run (insns f) d = SECCOMP_RET_KILL_PROCESS) (filters c) →
  (run_chain pid c d).1 = (Allow, 0).
Proof.
  intros Hm Hall. rewrite run_chain_value by done.
  replace (chain_value c d) with SECCOMP_RET_ALLOW; [reflexivity|]. unfold chain_value.
  induction Hall as [|f fs Hf _ IH]; [done|].
  rewrite fmap_cons. cbn [foldr]. rewrite Hf, <- IH. reflexivity.
Qed.

(** Notification round trip: an answer to a freshly pushed notification
    is accepted, collected exactly as sent, and leaves the queue as it was
    before the push. *)
Theorem notif_roundtrip s pid d r :
  notif_wf s → resp_id r = (push_notif s pid d).2 →
  let s1 := (push_notif s pid d).1 in
  (send_response s1 r).2 = true ∧
  (get_response (send_response s1 r).1 (resp_id r)).2 = Some r ∧
  pending (get_response (send_response s1 r).1 (resp_id r)).1 = pending s.
Proof.
  intros [Hnd Hlt Hans] Hr s1. subst s1. unfold push_notif in *. cbn in *.
  destruct (take_respond_last (pending s) (next_id s) r
    (mkPending (next_id s) pid (mkNotif (next_id s) pid 0 d) false None)) as (l2 & Hl2 & Ht); try done.
  { intros (n & He & Hn)%list_elem_of_fmap. rewrite Forall_forall in Hlt. specialize (Hlt n Hn). lia. }
  unfold send_response. cbn. rewrite Hl2. cbn. unfold get_response. cbn. rewrite Hr, Ht. done.
Qed.

(** The queue's invariant holds in every state the operations reach:
    identifiers are distinct and below the next one, and a notification is
    marked answered exactly when it holds the answer with its own
    identifier. *)
Theorem notif_ops_wf s pid d r id :
  notif_wf s → 0 ≤ next_id s < 2 ^ 64 - 1 →
  notif_wf (push_notif s pid d).1 ∧ notif_wf (send_response s r).1 ∧ notif_wf (get_response s id).1.
Proof. intros. split_and!; auto using push_notif_wf, send_response_wf, get_response_wf. Qed.

(** No answer to [id] has arrived in [g]. *)
Definition unanswered (fd id : Z) (g : gmap Z NotifState) : Prop :=
  ∀ ns, g !! fd = Some ns → take_response (pending ns) id = None.

Lemma poll_unanswered env fd id rounds g :
  unanswered fd id g → poll env (S (S rounds)) fd id g = poll env (S rounds) fd id (env g).
Proof.
  intros Hu. cbn [poll]. destruct (g !! fd) as [ns|] eqn:E; [|done].
  unfold get_response at 1. rewrite (Hu ns E). cbn. by rewrite insert_id.
Qed.

(** The supervisor decides: if the answer is first present after [i]
    yields, within the ten thousand and one polls, the intercepted call gets
    exactly the decision of that answer. *)
Theorem poll_answered env fd id i rounds g ns r l :
  (i < rounds)%nat →
  (∀ j, (j < i)%nat → unanswered fd id (Nat.iter j env g)) →
  Nat.iter i env g !! fd = Some ns →
  take_response (pending ns) id = Some (l, Some r) →
  (poll env rounds fd id g).2 = resp_decision r.
Proof.
  revert rounds g. induction i as [|i IH]; intros rounds g Hlt Hu Hns Ht.
  - destruct rounds as [|rounds]; [lia|]. cbn in Hns. cbn [poll]. rewrite Hns.
    unfold get_response. by rewrite Ht.
  - destruct rounds as [|[|rounds]]; [lia|lia|].
    rewrite poll_unanswered by (apply (Hu 0%nat); lia).
    apply IH; [lia| |by rewrite Nat.iter_succ_r in Hns|done].
    intros j Hj. rewrite <- Nat.iter_succ_r. apply Hu. lia.
Qed.

(** Fail open: a supervisor that never answers within the polls leaves
    the intercepted call allowed. *)
Theorem poll_timeout env fd id rounds g :
  (∀ j, (j < rounds)%nat → unanswered fd id (Nat.iter j env g)) →
  (poll env rounds fd id g).2 = (Allow, 0).
Proof.
  revert g. induction rounds as [|rounds IH]; intros g Hu; [done|].
  destruct rounds as [|rounds].
  - cbn [poll]. destruct (g !! fd) as [ns|] eqn:E; [|done]. unfold get_response.
    by rewrite (Hu 0%nat ltac:(lia) ns E).
  - rewrite poll_unanswered by (apply (Hu 0%nat); lia). apply IH.
    intros j Hj. rewrite <- Nat.iter_succ_r. apply Hu. lia.
Qed.

(** ** Witnesses *)
Definition deny_execve : SeccompFilter := mkFilter demo_filter true.
Definition ret_filter (v : Z) : SeccompFilter := mkFilter [mkInsn 0x06 0 0 v] false.
Definition demo_chain : FilterChain := install (install chain_new deny_execve) (ret_filter SECCOMP_RET_ALLOW).

Lemma demo_chain_wf : chain_wf demo_chain.
Proof. repeat constructor; done. Qed.
Lemma demo_chain_known : chain_known demo_chain (demo_data 59).
Proof. repeat constructor; vm_compute; reflexivity. Qed.

Lemma run_chain_most_restrictive_witness :
  (run_chain 7 demo_chain (demo_data 59)).1 = (Deny, 1) ∧
  (∀ f, f ∈ filters demo_chain →
    severity (action_to_qsf (run (insns f) (demo_data 59))).1 ≤
    severity (run_chain 7 demo_chain (demo_data 59)).1.1).
Proof.
  split; [vm_compute; reflexivity|].
  apply (run_chain_most_restrictive 7 demo_chain (demo_data 59));
    [discriminate|apply demo_chain_wf|apply demo_data_wf|apply demo_chain_known].
Defined.

Lemma install_never_relaxes_witness :
  severity (run_chain 7 (install chain_new deny_execve) (demo_data 59)).1.1 ≤
  severity (run_chain 7 demo_chain (demo_data 59)).1.1.
Proof.
  apply (install_never_relaxes 7 (install chain_new deny_execve) (ret_filter SECCOMP_RET_ALLOW) (demo_data 59));
    [discriminate|apply demo_chain_wf|apply demo_data_wf|apply demo_chain_known].
Defined.

Lemma run_chain_kill_witness :
  (run_chain 7 (install (install chain_new (ret_filter 0)) deny_execve) (demo_data 1)).1 = (Kill, 0).
Proof.
  apply (run_chain_kill 7 _ (demo_data 1) (ret_filter 0)).
  - discriminate.
  - repeat constructor; done.
  - apply demo_data_wf.
  - left.
  - vm_compute; reflexivity.
Defined.

Lemma kill_process_allowed_witness :
  (run_chain 7 (install chain_new (ret_filter SECCOMP_RET_KILL_PROCESS)) (demo_data 1)).1 = (Allow, 0).
Proof.
  apply kill_process_allowed; [discriminate|]. repeat constructor; vm_compute; reflexivity.
Defined.

Lemma notif_roundtrip_witness :
  (get_response (send_response (push_notif (notif_new 20000) 5 (demo_data 59)).1 (mkResp 1 0 13 0)).1 1).2
  = Some (mkResp 1 0 13 0).
Proof.
  apply (notif_roundtrip (notif_new 20000) 5 (demo_data 59) (mkResp 1 0 13 0));
    [apply notif_new_wf|reflexivity].
Defined.

Lemma notif_ops_wf_witness : notif_wf (push_notif (notif_new 20000) 5 (demo_data 59)).1.
Proof.
  apply (notif_ops_wf (notif_new 20000) 5 (demo_data 59) (mkResp 1 0 0 0) 1);
    [apply notif_new_wf|split; [done|reflexivity]].
Defined.

(** A supervisor that denies the oldest notification with [EACCES] while the
    caller has yielded. *)
Definition demo_supervisor (g : gmap Z NotifState) : gmap Z NotifState :=
  match g !! 20000 with
  | Some ns => match recv_notif ns with
               | Some n => <[20000 := (send_response ns (mkResp (notif_id n) 0 13 0)).1]> g
               | None => g
               end
  | None => g
  end.
Definition demo_table : gmap Z NotifState :=
  {[20000 := (push_notif (notif_new 20000) 5 (demo_data 59)).1]}.

Lemma poll_answered_witness :
  (intercept_for_notif demo_supervisor 20000 5 (demo_data 59) {[20000 := notif_new 20000]}).2 = (Deny, -13) ∧
  (poll demo_supervisor MAX_POLLS 20000 1 demo_table).2 = resp_decision (mkResp 1 0 13 0).
Proof.
  split; [vm_compute; reflexivity|].
  eapply (poll_answered demo_supervisor 20000 1 1 MAX_POLLS demo_table).
  - unfold MAX_POLLS. lia.
  - intros j Hj. replace j with 0%nat by lia. intros ns [= <-]. reflexivity.
  - vm_compute. reflexivity.
  - vm_compute. reflexivity.
Defined.

Lemma poll_timeout_witness :
  (poll id MAX_POLLS 20000 1 demo_table).2 = (Allow, 0).
Proof.
  apply (poll_timeout id 20000 1 MAX_POLLS demo_table). intros j _ ns Hns.
  assert (Nat.iter j id demo_table = demo_table) as He.
  { clear. induction j as [|j IH]; [done|]. simpl. unfold id at 1. apply IH. }
  rewrite He in Hns. vm_compute in Hns. injection Hns as <-. reflexivity.
Defined.
