(* ===== verification/Process.v ===== *)
(** * Processes: states, descriptor tables, the process table

    Models kernel/src/process/mod.rs: [ProcessState], the descriptor-table
    helpers of [Process] ([alloc_fd] to [close_fd]), [Table::alloc_pid],
    [spawn], [reap_child], [wait_any_zombie] and the [with_*] accessors.  A
    [Process] keeps the fields the modelled subsystems read or write; the
    descriptor table is the one the process uses (its own, or that of its
    thread group: the source runs the same code on both).  A descriptor keeps
    the number of its inode and not its path. *)
From S2P Require Import Prelude Bpf Seccomp.

(** ** Data *)
Inductive ProcessState :=
| Runnable
| Running
| Sleeping
| Stopped
| Zombie (code : Z).
#[export] Instance ProcessState_eq_dec : EqDecision ProcessState.
Proof. solve_decision. Defined.

(** The kinds of descriptors; a pipe end carries the identity of the shared
    [Arc<Mutex<PipeBuf>>]. *)
Inductive FdKind :=
| FdRegular
| FdDirectory
| PipeRead (pipe : Z)
| PipeWrite (pipe : Z)
| FdDevice (minor : Z)
| FdDrm
| FdSocket (id : Z)
| FdEpoll (id : Z)
| FdIoUring (id : Z)
| SeccompNotif (id : Z).
#[export] Instance FdKind_eq_dec : EqDecision FdKind.
Proof. solve_decision. Defined.

Record FileDescriptor := mkFd { fd_ino : Z; fd_offset : Z; fd_flags : Z; fd_kind : FdKind }.
#[export] Instance FileDescriptor_eq_dec : EqDecision FileDescriptor.
Proof. solve_decision. Defined.

(** [SigHandler] and [SigAction] of kernel/src/signal/mod.rs; a [SignalSet]
    is its 64-bit word. *)
Inductive SigHandler := SigDefault | SigIgnore | SigUser (addr : Z).
#[export] Instance SigHandler_eq_dec : EqDecision SigHandler.
Proof. solve_decision. Defined.
Record SigAction := mkAction { handler : SigHandler; act_mask : Z; act_flags : Z; restorer : Z }.
Definition sigaction_default : SigAction := mkAction SigDefault 0 0 0.

Record Process := mkProcess {
  p_pid : Z;
  p_ppid : Z;
  p_pgid : Z;
  p_state : ProcessState;
  p_sleep_until : Z;
  p_fds : gmap Z FileDescriptor;
  p_next_fd : Z;
  p_sig_pending : Z;
  p_sig_mask : Z;
  p_sig_actions : list SigAction;
  p_exit_code : Z;
  p_children : list Z;
  p_seccomp : FilterChain;
}.

Definition set_state (st : ProcessState) (p : Process) : Process :=
  mkProcess (p_pid p) (p_ppid p) (p_pgid p) st (p_sleep_until p) (p_fds p) (p_next_fd p)
    (p_sig_pending p) (p_sig_mask p) (p_sig_actions p) (p_exit_code p) (p_children p) (p_seccomp p).
Definition set_sleep_until (t : Z) (p : Process) : Process :=
  mkProcess (p_pid p) (p_ppid p) (p_pgid p) (p_state p) t (p_fds p) (p_next_fd p)
    (p_sig_pending p) (p_sig_mask p) (p_sig_actions p) (p_exit_code p) (p_children p) (p_seccomp p).
Definition set_fds (fds : gmap Z FileDescriptor) (next : Z) (p : Process) : Process :=
  mkProcess (p_pid p) (p_ppid p) (p_pgid p) (p_state p) (p_sleep_until p) fds next
    (p_sig_pending p) (p_sig_mask p) (p_sig_actions p) (p_exit_code p) (p_children p) (p_seccomp p).
Definition set_sig (pending mask : Z) (acts : list SigAction) (p : Process) : Process :=
  mkProcess (p_pid p) (p_ppid p) (p_pgid p) (p_state p) (p_sleep_until p) (p_fds p) (p_next_fd p)
    pending mask acts (p_exit_code p) (p_children p) (p_seccomp p).
Definition set_exit_code (c : Z) (p : Process) : Process :=
  mkProcess (p_pid p) (p_ppid p) (p_pgid p) (p_state p) (p_sleep_until p) (p_fds p) (p_next_fd p)
    (p_sig_pending p) (p_sig_mask p) (p_sig_actions p) c (p_children p) (p_seccomp p).
Definition set_children (c : list Z) (p : Process) : Process :=
  mkProcess (p_pid p) (p_ppid p) (p_pgid p) (p_state p) (p_sleep_until p) (p_fds p) (p_next_fd p)
    (p_sig_pending p) (p_sig_mask p) (p_sig_actions p) (p_exit_code p) c (p_seccomp p).
Definition set_pid (n : Z) (p : Process) : Process :=
  mkProcess n (p_ppid p) (p_pgid p) (p_state p) (p_sleep_until p) (p_fds p) (p_next_fd p)
    (p_sig_pending p) (p_sig_mask p) (p_sig_actions p) (p_exit_code p) (p_children p) (p_seccomp p).
Definition set_seccomp (c : FilterChain) (p : Process) : Process :=
  mkProcess (p_pid p) (p_ppid p) (p_pgid p) (p_state p) (p_sleep_until p) (p_fds p) (p_next_fd p)
    (p_sig_pending p) (p_sig_mask p) (p_sig_actions p) (p_exit_code p) (p_children p) c.

Definition is_zombie (p : Process) : bool :=
  match p_state p with Zombie _ => true | _ => false end.

(** ** Descriptor table *)
Definition MAX_FDS : Z := 1024.

(** One round of the scan of [alloc_fd]: the descriptor [next] is free
    ([inr]), or the scan moves on. *)
Definition alloc_fd_round (fds : gmap Z FileDescriptor) (next : Z) : Z + Z :=
  if decide (is_Some (fds !! next)) then
    let next' := wadd 32 next 1 in
    inl (if MAX_FDS <=? next' then 3 else next')
  else inr next.

(** [alloc_fd] with the scan cut after [fuel] rounds; [None] when it is still
    scanning. *)
Definition alloc_fd (fuel : nat) (fd : FileDescriptor) (p : Process) : option (Process * Z) :=
  match loop_nat (alloc_fd_round (p_fds p)) fuel (p_next_fd p) with
  | inr n => Some (set_fds (<[n := fd]> (p_fds p)) (wadd 32 n 1) p, n)
  | inl _ => None
  end.

Definition alloc_fd_at (n : Z) (fd : FileDescriptor) (p : Process) : Process * Z :=
  (set_fds (<[n := fd]> (p_fds p)) (p_next_fd p) p, n).

Definition get_fd (p : Process) (n : Z) : option FileDescriptor := p_fds p !! n.

Definition get_fd_mut_op (n : Z) (f : FileDescriptor → FileDescriptor) (p : Process) : Process :=
  set_fds (alter f n (p_fds p)) (p_next_fd p) p.

Definition close_fd (n : Z) (p : Process) : Process * bool :=
  (set_fds (delete n (p_fds p)) (p_next_fd p) p,
   match p_fds p !! n with Some _ => true | None => false end).

(** ** Process table *)
Record Table := mkTable { procs : gmap Z Process; next_pid : Z; current : Z }.

Definition MAX_PIDS : Z := 65536.

(** One round of [alloc_pid]; the state is [next_pid], the result the fresh
    identifier ([None]: exhausted) and the new [next_pid]. *)
Definition alloc_pid_round (ps : gmap Z Process) (start next : Z) : Z + (option Z * Z) :=
  let pid := next in
  let next' := if MAX_PIDS <=? next then 2 else next + 1 in
  if decide (is_Some (ps !! pid)) then
    if next' =? start then inr (None, next') else inl next'
  else inr (Some pid, next').

Definition alloc_pid (t : Table) : Table * option Z :=
  match loop_pos (alloc_pid_round (procs t) (next_pid t)) 65536 (next_pid t) with
  | inr (r, next) => (mkTable (procs t) next (current t), r)
  | inl next => (mkTable (procs t) next (current t), None)
  end.

Definition with_process {A} (t : Table) (pid : Z) (f : Process → A) : option A := f <$> procs t !! pid.
Definition with_process_mut (t : Table) (pid : Z) (f : Process → Process) : Table :=
  mkTable (alter f pid (procs t)) (next_pid t) (current t).
Definition with_current {A} (t : Table) (f : Process → A) : option A := with_process t (current t) f.
Definition with_current_mut (t : Table) (f : Process → Process) : Table := with_process_mut t (current t) f.

Definition spawn (t : Table) (proc : Process) : Table * Z :=
  let '(t1, opid) :=
    if negb (p_pid proc =? 0) && negb (bool_decide (is_Some (procs t !! p_pid proc)))
    then (t, Some (p_pid proc)) else alloc_pid t in
  match opid with
  | None => (t1, 0)
  | Some pid =>
      let t2 :=
        if negb (p_ppid proc =? 0) && negb (p_ppid proc =? pid) then
          with_process_mut t1 (p_ppid proc) (λ parent,
            if bool_decide (pid ∈ p_children parent) then parent
            else set_children (p_children parent ++ [pid]) parent)
        else t1 in
      (mkTable (<[pid := set_pid pid proc]> (procs t2)) (next_pid t2) (current t2), pid)
  end.

Definition reap_child (t : Table) (child : Z) : Table * option Z :=
  match procs t !! child with
  | Some p =>
      match p_state p with
      | Zombie code =>
          let t1 := mkTable (delete child (procs t)) (next_pid t) (current t) in
          (with_process_mut t1 (p_ppid p) (λ parent,
             set_children (filter (λ c, c ≠ child) (p_children parent)) parent), Some code)
      | _ => (t, None)
      end
  | None => (t, None)
  end.

Definition wait_any_zombie (t : Table) (ppid : Z) : option Z :=
  match procs t !! ppid with
  | Some p => find (λ c, default false (with_process t c is_zombie)) (p_children p)
  | None => None
  end.

(** ** Cyclic scans

    Both allocators walk a range [lo, hi) cyclically from a start point;
    [cyc start k] is the value after [k] steps. *)
Section Cyclic.
Variables lo hi start : Z.
Hypothesis Hlohi : lo < hi.
Hypothesis Hstart : lo ≤ start < hi.

Definition cyc (k : Z) : Z := lo + (start - lo + k) mod (hi - lo).

Lemma cyc_range k : lo ≤ cyc k < hi.
Proof. unfold cyc. pose proof (Z.mod_pos_bound (start - lo + k) (hi - lo)). lia. Qed.

Lemma cyc_0 : cyc 0 = start.
Proof. unfold cyc. rewrite Z.mod_small by lia. lia. Qed.

Lemma cyc_succ k : cyc (k + 1) = if hi <=? cyc k + 1 then lo else cyc k + 1.
Proof.
  unfold cyc. pose proof (Z.mod_pos_bound (start - lo + k) (hi - lo)).
  replace (start - lo + (k + 1)) with (start - lo + k + 1) by lia.
  rewrite (Z.add_mod (start - lo + k)) by lia.
  destruct (decide (hi - lo = 1)) as [He|].
  - rewrite He, Z.mod_1_r. destruct (Z.leb_spec hi (lo + (start - lo + k) mod 1 + 1)); [lia|].
    rewrite Z.mod_1_r in *. lia.
  - rewrite (Z.mod_small 1) by lia.
    destruct (Z.leb_spec hi (lo + (start - lo + k) mod (hi - lo) + 1)).
    + replace ((start - lo + k) mod (hi - lo) + 1) with (hi - lo) by lia.
      rewrite Z.mod_same by lia. lia.
    + rewrite Z.mod_small by lia. lia.
Qed.

(** Every value of the range is met within [hi - lo] steps, and the scan is
    back at its start only after all of them. *)
Lemma cyc_onto n : lo ≤ n < hi → ∃ k, 0 ≤ k < hi - lo ∧ cyc k = n.
Proof.
  intros Hn. exists ((n - start) mod (hi - lo)).
  split; [apply Z.mod_pos_bound; lia|]. unfold cyc.
  rewrite Z.add_mod_idemp_r by lia. rewrite Z.mod_small by lia. lia.
Qed.

Lemma cyc_back k : 0 < k ≤ hi - lo → cyc k = start → k = hi - lo.
Proof.
  unfold cyc. intros Hk He. destruct (decide (k = hi - lo)) as [|Hne]; [done|].
  destruct (Z.lt_ge_cases (start - lo + k) (hi - lo)).
  - rewrite Z.mod_small in He by lia. lia.
  - replace (start - lo + k) with (start - lo + k - (hi - lo) + 1 * (hi - lo)) in He by lia.
    rewrite Z.mod_add in He by lia. rewrite Z.mod_small in He by lia. lia.
Qed.
End Cyclic.

Lemma alloc_fd_round_busy fds n :
  3 ≤ n < MAX_FDS → is_Some (fds !! n) →
  alloc_fd_round fds n = inl (if MAX_FDS <=? n + 1 then 3 else n + 1).
Proof.
  unfold MAX_FDS. intros Hn Hb. unfold alloc_fd_round. rewrite decide_True by done.
  by rewrite wadd_small by lia.
Qed.

Lemma alloc_fd_scan fds s d k :
  3 ≤ s < MAX_FDS → fds !! cyc 3 MAX_FDS s (k + Z.of_nat d) = None →
  ∃ n, loop_nat (alloc_fd_round fds) (S d) (cyc 3 MAX_FDS s k) = inr n ∧
       fds !! n = None ∧ 3 ≤ n < MAX_FDS.
Proof.
  intros Hs. revert k. induction d as [|d IH]; intros k Hfree.
  - rewrite Z.add_0_r in Hfree. exists (cyc 3 MAX_FDS s k). simpl.
    unfold alloc_fd_round at 1. rewrite decide_False by (rewrite Hfree; by intros [? ?]).
    split_and!; try done; apply cyc_range; done.
  - rewrite loop_nat_S. destruct (fds !! cyc 3 MAX_FDS s k) as [f|] eqn:E.
    + rewrite alloc_fd_round_busy; [|by apply cyc_range|by eauto].
      rewrite <- cyc_succ by done. apply (IH (k + 1)).
      by replace (k + 1 + Z.of_nat d) with (k + Z.of_nat (S d)) by lia.
    + exists (cyc 3 MAX_FDS s k). unfold alloc_fd_round at 1.
      rewrite decide_False by (rewrite E; by intros [? ?]).
      split_and!; try done; apply cyc_range; done.
Qed.

Lemma alloc_pid_scan ps s d k :
  2 ≤ s < 65537 → 0 ≤ k → k + Z.of_nat d = 65534 →
  (∀ j, 0 ≤ j < k → is_Some (ps !! cyc 2 65537 s j)) →
  ∃ r next, loop_nat (alloc_pid_round ps s) (S d) (cyc 2 65537 s k) = inr (r, next) ∧
    2 ≤ next ≤ MAX_PIDS ∧
    match r with
    | Some pid => 2 ≤ pid ≤ MAX_PIDS ∧ ps !! pid = None
    | None => ∀ pid, 2 ≤ pid ≤ MAX_PIDS → is_Some (ps !! pid)
    end.
Proof.
  intros Hs. revert k. unfold MAX_PIDS. induction d as [|d IH]; intros k Hk Hd Hbusy;
    pose proof (cyc_range 2 65537 s ltac:(lia) k) as Hr;
    pose proof (cyc_range 2 65537 s ltac:(lia) (k + 1)) as Hr1;
    rewrite loop_nat_S; unfold alloc_pid_round at 1; unfold MAX_PIDS;
    replace (if 65536 <=? cyc 2 65537 s k then 2 else cyc 2 65537 s k + 1)
      with (cyc 2 65537 s (k + 1))
      by (rewrite cyc_succ by lia; destruct (Z.leb_spec 65536 (cyc 2 65537 s k)),
          (Z.leb_spec 65537 (cyc 2 65537 s k + 1)); lia);
    (destruct (decide (is_Some (ps !! cyc 2 65537 s k))) as [Hb|Hf];
       [|rewrite <- eq_None_not_Some in Hf; eexists _, _; split; [done|]; split; [lia|]; split; [lia|done]]);
    (assert (∀ j, 0 ≤ j < k + 1 → is_Some (ps !! cyc 2 65537 s j)) as Hbusy'
       by (intros j Hj; destruct (decide (j = k)) as [->|]; [done|apply Hbusy; lia]));
    destruct (Z.eqb_spec (cyc 2 65537 s (k + 1)) s) as [He|Hne].
  1, 3: apply cyc_back in He; [|lia..]; eexists _, _; split; [done|]; split; [lia|];
    intros pid Hpid; destruct (cyc_onto 2 65537 s ltac:(lia) pid ltac:(lia)) as (j & Hj & <-);
    apply Hbusy'; lia.
  - exfalso. apply Hne. replace (k + 1) with 65535 by lia. unfold cyc.
    replace (s - 2 + 65535) with (s - 2 + 1 * (65537 - 2)) by lia.
    rewrite Z.mod_add by lia. rewrite Z.mod_small by lia. lia.
  - apply IH; [lia|lia|done].
Qed.

Lemma alloc_pid_spec t :
  2 ≤ next_pid t ≤ MAX_PIDS →
  let '(t', r) := alloc_pid t in
  procs t' = procs t ∧ current t' = current t ∧ 2 ≤ next_pid t' ≤ MAX_PIDS ∧
  match r with
  | Some pid => 2 ≤ pid ≤ MAX_PIDS ∧ procs t !! pid = None
  | None => ∀ pid, 2 ≤ pid ≤ MAX_PIDS → is_Some (procs t !! pid)
  end.
Proof.
  intros Hn. unfold alloc_pid. rewrite loop_pos_nat. unfold MAX_PIDS in Hn.
  destruct (alloc_pid_scan (procs t) (next_pid t) (Z.to_nat 65534) 0) as (r & next & Hl & Hnext & Hr);
    [lia|lia|lia|lia|].
  rewrite cyc_0 in Hl by lia.
  rewrite (loop_nat_more _ _ _ _ _ Hl) by lia. cbn. done.
Qed.

(** Tables as the kernel keeps them: a key is its process's identifier. *)
Definition table_wf (t : Table) : Prop :=
  2 ≤ next_pid t ≤ MAX_PIDS ∧ ∀ pid p, procs t !! pid = Some p → p_pid p = pid.

Lemma with_process_mut_lookup t pid f q :
  procs (with_process_mut t pid f) !! q = if decide (q = pid) then f <$> procs t !! q else procs t !! q.
Proof.
  unfold with_process_mut. cbn [procs]. rewrite lookup_alter. repeat case_decide; by subst.
Qed.

(** ** Theorems *)

(** Process identifiers: [alloc_pid] always stops; it returns an
    identifier in [2, 65536] that no live process has, or reports exhaustion
    and then every identifier of the range is taken. *)
Theorem alloc_pid_fresh t :
  2 ≤ next_pid t ≤ MAX_PIDS →
  match (alloc_pid t).2 with
  | Some pid => 2 ≤ pid ≤ MAX_PIDS ∧ procs t !! pid = None
  | None => ∀ pid, 2 ≤ pid ≤ MAX_PIDS → is_Some (procs t !! pid)
  end.
Proof.
  intros Hn. pose proof (alloc_pid_spec t Hn) as H.
  destruct (alloc_pid t) as [t' r]. apply H.
Qed.

(** [spawn] keeps the table consistent: an identifier it returns was
    free, afterwards names the new process, is listed among the children of
    its (other) parent when that exists, and no other process is replaced. *)
Theorem spawn_spec t proc :
  table_wf t →
  let '(t', pid) := spawn t proc in
  pid ≠ 0 →
  table_wf t' ∧ procs t !! pid = None ∧
  procs t' !! pid = Some (set_pid pid proc) ∧
  (∀ parent, p_ppid proc ≠ 0 → p_ppid proc ≠ pid → procs t !! p_ppid proc = Some parent →
     ∃ parent', procs t' !! p_ppid proc = Some parent' ∧ pid ∈ p_children parent') ∧
  (∀ q, q ≠ pid → is_Some (procs t' !! q) ↔ is_Some (procs t !! q)).
Proof.
  intros [Hnext Hids]. unfold spawn.
  set (pick := if negb _ && negb _ then _ else _).
  assert (let '(t1, o) := pick in procs t1 = procs t ∧ 2 ≤ next_pid t1 ≤ MAX_PIDS ∧
    match o with Some pid => procs t !! pid = None | None => True end) as Hpick.
  { subst pick. destruct (negb (p_pid proc =? 0) && _) eqn:Hc.
    - apply andb_true_iff in Hc as [_ Hc]. rewrite negb_true_iff, bool_decide_eq_false in Hc.
      rewrite <- eq_None_not_Some in Hc. done.
    - pose proof (alloc_pid_spec t Hnext) as H. destruct (alloc_pid t) as [t1 [q|]]; naive_solver. }
  destruct pick as [t1 [pid|]]; [|done]. destruct Hpick as (Hp & Hn1 & Hfree). intros Hpid.
  match goal with |- context [if ?c then ?y else t1] => set (t2 := if c then y else t1) end.
  assert (next_pid t2 = next_pid t1) as Hn2 by (unfold t2; by case_match).
  assert (∀ q, procs t2 !! q = procs t !! q ∨ ∃ p, procs t !! q = Some p ∧ q = p_ppid proc ∧
    ∃ c, procs t2 !! q = Some (set_children c p) ∧ pid ∈ c) as Ht2.
  { intros q. unfold t2. case_match; [|rewrite Hp; by left].
    rewrite with_process_mut_lookup, Hp. case_decide as Hq; [|by left].
    destruct (procs t !! q) as [p|]; [|by left]. right. exists p. split_and!; [done..|]. cbn.
    case_bool_decide; eexists; (split; [|try done]); [by destruct p| done|set_solver]. }
  split_and!.
  - split; [cbn [next_pid]; by rewrite Hn2|]. cbn [procs]. intros q p. rewrite lookup_insert. case_decide as Hq.
    + intros [= <-]. done.
    + destruct (Ht2 q) as [->|(p0 & Hp0 & _ & c & -> & _)]; [apply Hids|].
      intros [= <-]. by apply (Hids q p0).
  - done.
  - cbn [procs]. by rewrite lookup_insert_eq.
  - intros parent H0 Hne Hpar. cbn [procs]. rewrite lookup_insert_ne by done.
    destruct (Ht2 (p_ppid proc)) as [He|(p0 & Hp0 & _ & c & -> & Hc)]; [|by eauto].
    unfold t2 in He |- *. apply Z.eqb_neq in H0, Hne. rewrite H0, Hne in *. cbn [negb andb] in *.
    rewrite with_process_mut_lookup, decide_True, Hp, Hpar by done. cbn. eexists. split; [done|].
    case_bool_decide; [done|]. cbn. set_solver.
  - intros q Hq. cbn [procs]. rewrite lookup_insert_ne by done.
    destruct (Ht2 q) as [->|(p0 & -> & _ & c & -> & _)]; [done|]. by split; eauto.
Qed.

(** Reaping: only a zombie is reaped; it yields its exit code, leaves the
    table and its parent's list of children, and every other process stays. *)
Theorem reap_child_spec t child p code :
  procs t !! child = Some p → p_state p = Zombie code → p_ppid p ≠ child →
  let '(t', r) := reap_child t child in
  r = Some code ∧ procs t' !! child = None ∧
  (∀ parent, procs t !! p_ppid p = Some parent →
     ∃ parent', procs t' !! p_ppid p = Some parent' ∧ child ∉ p_children parent') ∧
  (∀ q, q ≠ child → q ≠ p_ppid p → procs t' !! q = procs t !! q).
Proof.
  intros Hp Hz Hne. unfold reap_child. rewrite Hp, Hz. split_and!.
  - done.
  - rewrite with_process_mut_lookup. rewrite decide_False by done. cbn [procs]. by rewrite lookup_delete_eq.
  - intros parent Hpar. rewrite with_process_mut_lookup, decide_True by done. cbn [procs].
    rewrite lookup_delete_ne by done. rewrite Hpar. cbn. eexists. split; [done|]. cbn.
    intros Hin%list_elem_of_filter. naive_solver.
  - intros q Hq1 Hq2. rewrite with_process_mut_lookup, decide_False by done. cbn [procs].
    by rewrite lookup_delete_ne.
Qed.

(** Descriptors: while a descriptor in [3, 1024) is free, [alloc_fd]
    stops within 1021 rounds, returns a descriptor that was free, and maps it
    to the file, leaving the others. *)
Theorem alloc_fd_fresh p fd m :
  3 ≤ p_next_fd p < MAX_FDS → 3 ≤ m < MAX_FDS → p_fds p !! m = None →
  ∃ p' n, alloc_fd (Z.to_nat 1021) fd p = Some (p', n) ∧
    p_fds p !! n = None ∧ 3 ≤ n < MAX_FDS ∧ p_fds p' = <[n := fd]> (p_fds p).
Proof.
  intros Hs Hm Hfree.
  destruct (cyc_onto 3 MAX_FDS (p_next_fd p) ltac:(done) m Hm) as (k & Hk & Hc).
  destruct (alloc_fd_scan (p_fds p) (p_next_fd p) (Z.to_nat k) 0 Hs) as (n & Hl & Hn & Hr).
  { replace (0 + Z.of_nat (Z.to_nat k)) with k by lia. by rewrite Hc. }
  rewrite cyc_0 in Hl by done. unfold alloc_fd, MAX_FDS in *.
  rewrite (loop_nat_more _ _ _ _ _ Hl) by lia. eauto 10.
Qed.

(** With all of [3, 1024) in use the scan of [alloc_fd] never ends: no
    number of rounds yields a descriptor, and no error is reported. *)
Theorem alloc_fd_full_diverges p fd :
  3 ≤ p_next_fd p < MAX_FDS → (∀ n, 3 ≤ n < MAX_FDS → is_Some (p_fds p !! n)) →
  ∀ fuel, alloc_fd fuel fd p = None.
Proof.
  intros Hs Hall fuel. unfold alloc_fd.
  pose proof (loop_nat_inv (alloc_fd_round (p_fds p)) (λ n, 3 ≤ n < MAX_FDS) (λ _, False)) as Hinv.
  assert (∀ n, 3 ≤ n < MAX_FDS → alloc_fd_round (p_fds p) n = inl (if MAX_FDS <=? n + 1 then 3 else n + 1)) as Hr.
  { intros n Hn. apply alloc_fd_round_busy; auto. }
  specialize (Hinv ltac:(intros n n' Hn E; rewrite Hr in E by done; simplify_eq; unfold MAX_FDS in *;
    destruct (Z.leb_spec 1024 (n + 1)); lia)).
  specialize (Hinv ltac:(intros n r Hn E; by rewrite Hr in E by done)).
  specialize (Hinv fuel _ Hs). by destruct (loop_nat _ _ _).
Qed.

(** ** Witnesses *)
Definition demo_process (pid ppid : Z) (st : ProcessState) : Process :=
  mkProcess pid ppid 1 st 0 ∅ 3 0 0 (replicate 32 sigaction_default) 0 [] chain_new.
Definition demo_table : Table :=
  mkTable {[2 := demo_process 2 1 Running; 3 := demo_process 3 2 (Zombie 5)]} 2 2.

Lemma demo_table_wf : table_wf demo_table.
Proof.
  split; [done|]. cbn [procs demo_table]. intros pid p Hp.
  rewrite lookup_insert in Hp. case_decide; [by simplify_eq|].
  rewrite lookup_singleton_Some in Hp. by destruct Hp as [<- <-].
Qed.

Lemma alloc_pid_fresh_witness : match (alloc_pid demo_table).2 with
  | Some pid => 2 ≤ pid ≤ MAX_PIDS ∧ procs demo_table !! pid = None
  | None => ∀ pid, 2 ≤ pid ≤ MAX_PIDS → is_Some (procs demo_table !! pid)
  end.
Proof. apply (alloc_pid_fresh demo_table). done. Defined.

Lemma spawn_spec_witness :
  procs (spawn demo_table (demo_process 0 2 Runnable)).1 !! 4 = Some (demo_process 4 2 Runnable).
Proof.
  assert ((spawn demo_table (demo_process 0 2 Runnable)).2 = 4) as Hpid by (vm_compute; reflexivity).
  pose proof (spawn_spec demo_table (demo_process 0 2 Runnable) demo_table_wf) as H.
  destruct (spawn demo_table (demo_process 0 2 Runnable)) as [t' pid]. cbn in Hpid. subst pid.
  apply H. done.
Defined.

Lemma reap_child_spec_witness :
  let '(t', r) := reap_child demo_table 3 in r = Some 5 ∧ procs t' !! 3 = None.
Proof.
  pose proof (reap_child_spec demo_table 3 (demo_process 3 2 (Zombie 5)) 5 eq_refl eq_refl ltac:(done)) as H.
  destruct (reap_child demo_table 3) as [t' r]. split; apply H.
Defined.

Lemma alloc_fd_fresh_witness :
  ∃ p' n, alloc_fd (Z.to_nat 1021) (mkFd 1 0 0 FdRegular) (demo_process 2 1 Running) = Some (p', n) ∧
    p_fds (demo_process 2 1 Running) !! n = None ∧ 3 ≤ n < MAX_FDS ∧
    p_fds p' = <[n := mkFd 1 0 0 FdRegular]> (p_fds (demo_process 2 1 Running)).
Proof. apply (alloc_fd_fresh _ _ 3); done. Defined.

Definition full_fds : gmap Z FileDescriptor :=
  set_to_map (λ n, (n, mkFd 1 0 0 FdRegular)) (list_to_set (seqZ 0 1024) : gset Z).

Lemma full_fds_lookup n : 0 ≤ n < 1024 → full_fds !! n = Some (mkFd 1 0 0 FdRegular).
Proof.
  intros Hn. unfold full_fds. apply lookup_set_to_map; [done|].
  exists n. rewrite elem_of_list_to_set, elem_of_seqZ. split; [lia|done].
Qed.

Lemma alloc_fd_full_diverges_witness :
  ∀ fuel, alloc_fd fuel (mkFd 1 0 0 FdRegular) (set_fds full_fds 3 (demo_process 2 1 Running)) = None.
Proof.
  apply alloc_fd_full_diverges; [done|]. intros n Hn. cbn [p_fds set_fds].
  rewrite full_fds_lookup; [by eauto|]. unfold MAX_FDS in Hn. lia.
Defined.
