(* ===== verification/Sched.v ===== *)
(** * The O(1) run queue

    Models [SchedEntity], [timeslice_for], the priority bitmap and [RunQueue]
    of kernel/src/sched/mod.rs.  A queue is a list of process identifiers,
    front first; the bitmap is its three 64-bit words.  [None] from an
    operation that indexes the 140 queues is the panic of an index out of
    range. *)
From S2P Require Import Prelude.

(** ** Constants and entities *)
Definition PRIO_NORMAL : Z := 120.
Definition NUM_PRIO_LEVELS : nat := 140.
Definition SCHED_NORMAL := 0.
Definition SCHED_FIFO := 1.
Definition SCHED_RR := 2.
Definition SCHED_IDLE := 5.

Definition RT_TIMESLICE_US := 1000.
Definition NORMAL_BASE_US := 4000.
Definition NORMAL_GRANULARITY_US := 100.
Definition MIN_TIMESLICE_US := 200.

Record SchedEntity := mkEntity {
  e_pid : Z;
  e_prio : Z;
  e_static_prio : Z;
  e_policy : Z;
  e_vruntime : Z;
  e_timeslice_us : Z;
  e_used_us : Z;
  e_cpu_affinity : Z;
}.

Definition timeslice_for (prio policy : Z) : Z :=
  if (policy =? SCHED_FIFO) || (policy =? SCHED_RR) then RT_TIMESLICE_US
  else if policy =? SCHED_IDLE then MIN_TIMESLICE_US
  else if prio <? 100 then RT_TIMESLICE_US
  else Z.max (sat_sub NORMAL_BASE_US ((prio - 100) * NORMAL_GRANULARITY_US)) MIN_TIMESLICE_US.

Definition entity_new (pid prio policy : Z) : SchedEntity :=
  mkEntity pid prio prio policy 0 (timeslice_for prio policy) 0 0.

(** ** Priority bitmap: three words *)
Definition bitmap_set (bm : list Z) (prio : Z) : list Z :=
  alter (λ w, word_set w (Z.land prio 63)) (Z.to_nat (Z.shiftr prio 6)) bm.

Definition bitmap_clr (bm : list Z) (prio : Z) : list Z :=
  alter (λ w, word_clr w (Z.land prio 63)) (Z.to_nat (Z.shiftr prio 6)) bm.

Fixpoint find_first_from (i : Z) (bm : list Z) : option Z :=
  match bm with
  | [] => None
  | w :: bm => if w =? 0 then find_first_from (i + 1) bm
               else Some (wrap 8 (i * 64 + trailing_zeros 64 w))
  end.
Definition bitmap_find_first (bm : list Z) : option Z := find_first_from 0 bm.

(** ** Run queue *)
Record RunQueue := mkRq {
  queues : list (list Z);
  bitmap : list Z;
  nr_running : Z;
  entities : gmap Z SchedEntity;
  clock_us : Z;
  cpu_id : Z;
  load_avg : Z;
}.

Definition rq_new (cpu : Z) : RunQueue :=
  mkRq (replicate NUM_PRIO_LEVELS []) [0; 0; 0] 0 ∅ 0 cpu 0.

Definition set_queues (qs : list (list Z)) (bm : list Z) (n : Z) (rq : RunQueue) : RunQueue :=
  mkRq qs bm n (entities rq) (clock_us rq) (cpu_id rq) (load_avg rq).
Definition set_entities (es : gmap Z SchedEntity) (rq : RunQueue) : RunQueue :=
  mkRq (queues rq) (bitmap rq) (nr_running rq) es (clock_us rq) (cpu_id rq) (load_avg rq).

Definition rq_enqueue (rq : RunQueue) (pid prio : Z) : option RunQueue :=
  q ← queues rq !! Z.to_nat prio;
  Some (if bool_decide (pid ∈ q) then rq
        else set_queues (<[Z.to_nat prio := q ++ [pid]]> (queues rq))
               (bitmap_set (bitmap rq) prio) (wadd 32 (nr_running rq) 1) rq).

Definition rq_dequeue (rq : RunQueue) (pid prio : Z) : option RunQueue :=
  q ← queues rq !! Z.to_nat prio;
  let q' := filter (λ y, y ≠ pid) q in
  let removed := (length q - length q')%nat in
  Some (set_queues (<[Z.to_nat prio := q']> (queues rq))
          (if q' is [] then bitmap_clr (bitmap rq) prio else bitmap rq)
          (if bool_decide (0 < removed)%nat && (0 <? nr_running rq)
           then nr_running rq - 1 else nr_running rq) rq).

Definition pick_next (rq : RunQueue) : option (RunQueue * Z) :=
  prio ← bitmap_find_first (bitmap rq);
  q ← queues rq !! Z.to_nat prio;
  match q with
  | [] => None
  | pid :: q' =>
      Some (set_queues (<[Z.to_nat prio := q']> (queues rq))
              (if q' is [] then bitmap_clr (bitmap rq) prio else bitmap rq)
              (if 0 <? nr_running rq then nr_running rq - 1 else nr_running rq) rq, pid)
  end.

Definition add_entity (rq : RunQueue) (e : SchedEntity) : RunQueue :=
  set_entities (<[e_pid e := e]> (entities rq)) rq.
Definition entity (rq : RunQueue) (pid : Z) : option SchedEntity := entities rq !! pid.
Definition entity_mut (rq : RunQueue) (pid : Z) (f : SchedEntity → SchedEntity) : RunQueue :=
  set_entities (alter f pid (entities rq)) rq.
Definition remove_entity (rq : RunQueue) (pid : Z) : RunQueue * option SchedEntity :=
  (set_entities (delete pid (entities rq)) rq, entities rq !! pid).

(** ** Reference: scan the queues from the highest priority *)
Fixpoint scan_queues (qs : list (list Z)) : option (nat * Z) :=
  match qs with
  | [] => None
  | (pid :: _) :: _ => Some (0%nat, pid)
  | [] :: qs => prod_map S id <$> scan_queues qs
  end.

(** ** Invariant *)
Definition queued (rq : RunQueue) : nat := sum_list_with length (queues rq).

Definition bit_at (bm : list Z) (prio : Z) : bool :=
  match bm !! Z.to_nat (Z.shiftr prio 6) with
  | Some w => Z.testbit w (Z.land prio 63)
  | None => false
  end.

Record rq_wf (rq : RunQueue) : Prop := {
  rq_queues_len : length (queues rq) = NUM_PRIO_LEVELS;
  rq_bitmap_len : length (bitmap rq) = 3%nat;
  rq_bitmap_words : Forall is_u64 (bitmap rq);
  rq_bitmap_queues prio : 0 ≤ prio < 192 →
    bit_at (bitmap rq) prio = true ↔ ∃ pid q, queues rq !! Z.to_nat prio = Some (pid :: q);
  rq_nodup : Forall NoDup (queues rq);
  rq_count : nr_running rq = Z.of_nat (queued rq);
}.

(** ** Lemmas on the bitmap *)
Definition bm_wf (bm : list Z) : Prop := length bm = 3%nat ∧ Forall is_u64 bm.

Lemma Forall_alter_list {A} (P : A → Prop) (f : A → A) i l :
  Forall P l → (∀ y, P y → P (f y)) → Forall P (alter f i l).
Proof. intros Hl Hf. apply Forall_alter; [done|]. intros y Hy HP. by apply Hf. Qed.

Lemma bitmap_set_wf bm p : bm_wf bm → bm_wf (bitmap_set bm p).
Proof.
  intros [Hl Hw]. unfold bitmap_set. split; [by rewrite length_alter|].
  apply Forall_alter_list; [done|]. intros w Hw'. destruct (split_index_64 p) as [_ ->].
  pose proof (Z.mod_pos_bound p 64). auto with words.
Qed.

Lemma bitmap_clr_wf bm p : bm_wf bm → bm_wf (bitmap_clr bm p).
Proof.
  intros [Hl Hw]. unfold bitmap_clr. split; [by rewrite length_alter|].
  apply Forall_alter_list; [done|]. auto with words.
Qed.

Lemma bit_at_alter bm f p q :
  bm_wf bm → 0 ≤ p < 192 → 0 ≤ q < 192 →
  (∀ w j, 0 ≤ j < 64 → j ≠ p mod 64 → Z.testbit (f w) j = Z.testbit w j) →
  bit_at (alter f (Z.to_nat (Z.shiftr p 6)) bm) q =
  if decide (q = p)
  then default false ((λ w, Z.testbit (f w) (p mod 64)) <$> bm !! Z.to_nat (p / 64))
  else bit_at bm q.
Proof.
  intros [Hl Hw] Hp Hq Hf. unfold bit_at.
  destruct (split_index_64 p) as [-> _]. destruct (split_index_64 q) as [-> ->].
  pose proof (Z.mod_pos_bound q 64). pose proof (Z.mod_pos_bound p 64).
  pose proof (Z.div_mod p 64). pose proof (Z.div_mod q 64).
  pose proof (Z.div_pos p 64). pose proof (Z.div_pos q 64).
  destruct (decide (q / 64 = p / 64)) as [He|Hne].
  - rewrite He, list_lookup_alter_eq. case_decide as Hqp; [subst; by destruct (bm !! _)|].
    destruct (bm !! Z.to_nat (p / 64)); [|done]. cbn. apply Hf; lia.
  - rewrite list_lookup_alter_ne by lia. case_decide; [congruence|done].
Qed.

Lemma bm_lookup bm p : bm_wf bm → 0 ≤ p < 192 → is_Some (bm !! Z.to_nat (p / 64)).
Proof.
  intros [Hl _] Hp. apply lookup_lt_is_Some. rewrite Hl.
  assert (p / 64 < 3) by (apply Z.div_lt_upper_bound; lia). pose proof (Z.div_pos p 64). lia.
Qed.

Lemma bit_at_set bm p q :
  bm_wf bm → 0 ≤ p < 192 → 0 ≤ q < 192 →
  bit_at (bitmap_set bm p) q = bool_decide (q = p) || bit_at bm q.
Proof.
  intros Hbm Hp Hq. pose proof (Z.mod_pos_bound p 64). unfold bitmap_set.
  rewrite bit_at_alter by (try done; intros w j Hj Hne; destruct (split_index_64 p) as [_ ->];
    rewrite word_set_testbit, bool_decide_eq_false_2 by lia; done).
  case_decide as E; [|by rewrite bool_decide_eq_false_2].
  rewrite bool_decide_eq_true_2 by done. destruct (bm_lookup bm p Hbm Hp) as [w ->]. cbn.
  destruct (split_index_64 p) as [_ ->]. rewrite word_set_testbit by lia. by rewrite bool_decide_eq_true_2.
Qed.

Lemma bit_at_clr bm p q :
  bm_wf bm → 0 ≤ p < 192 → 0 ≤ q < 192 →
  bit_at (bitmap_clr bm p) q = negb (bool_decide (q = p)) && bit_at bm q.
Proof.
  intros Hbm Hp Hq. pose proof (Z.mod_pos_bound p 64). unfold bitmap_clr.
  rewrite bit_at_alter by (try done; intros w j Hj Hne; destruct (split_index_64 p) as [_ ->];
    rewrite word_clr_testbit, bool_decide_eq_false_2 by lia; done).
  case_decide as E; [|by rewrite bool_decide_eq_false_2].
  rewrite bool_decide_eq_true_2 by done. destruct (bm_lookup bm p Hbm Hp) as [w ->]. cbn.
  destruct (split_index_64 p) as [_ ->]. rewrite word_clr_testbit by lia. by rewrite bool_decide_eq_true_2.
Qed.

Lemma find_first_from_spec i bm :
  Forall is_u64 bm → 0 ≤ i → i + Z.of_nat (length bm) ≤ 3 →
  match find_first_from i bm with
  | Some p => 64 * i ≤ p < 192 ∧
      (∃ w, bm !! Z.to_nat (p / 64 - i) = Some w ∧ Z.testbit w (p mod 64) = true) ∧
      (∀ q w, 64 * i ≤ q < p → bm !! Z.to_nat (q / 64 - i) = Some w → Z.testbit w (q mod 64) = false)
  | None => Forall (λ w, w = 0) bm
  end.
Proof.
  intros Hbm. revert i. induction Hbm as [|w bm Hw Hbm IH]; intros i Hi Hl; [by constructor|].
  cbn [find_first_from]. cbn [length] in Hl. destruct (Z.eqb_spec w 0) as [->|Hne].
  - specialize (IH (i + 1) ltac:(lia) ltac:(lia)).
    destruct (find_first_from (i + 1) bm) as [p|]; [|by constructor].
    destruct IH as (Hp & (w & Hwp & Hbit) & Hmin). split_and!; [lia|lia| |].
    + exists w. assert (i + 1 ≤ p / 64) by (apply Z.div_le_lower_bound; lia).
      replace (Z.to_nat (p / 64 - i)) with (S (Z.to_nat (p / 64 - (i + 1)))) by lia. done.
    + intros q w' Hq Hl'. assert (i ≤ q / 64) by (apply Z.div_le_lower_bound; lia).
      destruct (decide (q / 64 = i)) as [He|].
      * rewrite He, Z.sub_diag in Hl'. injection Hl' as <-. apply Z.bits_0.
      * replace (Z.to_nat (q / 64 - i)) with (S (Z.to_nat (q / 64 - (i + 1)))) in Hl' by lia.
        apply (Hmin q); [|done]. pose proof (Z.div_mod q 64). pose proof (Z.mod_pos_bound q 64). lia.
  - destruct (trailing_zeros_spec 64 w Hw Hne) as (Ht & Hbit & Hlow).
    rewrite wrap_small by (unfold in_range; lia). set (b := trailing_zeros 64 w) in *.
    assert ((i * 64 + b) / 64 = i ∧ (i * 64 + b) mod 64 = b) as [Hd Hm].
    { rewrite Z.add_comm, Z.div_add, Z.mod_add by lia. rewrite Z.div_small, Z.mod_small by lia. lia. }
    split_and!; [lia|lia| |].
    + exists w. rewrite Hd, Hm, Z.sub_diag. done.
    + intros q w' Hq Hl'. assert (q / 64 = i) as He by (symmetry; apply (Z.div_unique q 64 i (q - 64 * i)); lia).
      rewrite He, Z.sub_diag in Hl'. injection Hl' as <-. apply Hlow.
      pose proof (Z.div_mod q 64). pose proof (Z.mod_pos_bound q 64). lia.
Qed.

(** The bitmap search finds the lowest set priority. *)
Lemma bitmap_find_first_spec bm :
  bm_wf bm →
  match bitmap_find_first bm with
  | Some p => 0 ≤ p < 192 ∧ bit_at bm p = true ∧ ∀ q, 0 ≤ q < p → bit_at bm q = false
  | None => ∀ q, 0 ≤ q < 192 → bit_at bm q = false
  end.
Proof.
  intros [Hl Hw]. pose proof (find_first_from_spec 0 bm Hw ltac:(lia) ltac:(lia)) as H.
  unfold bitmap_find_first. destruct (find_first_from 0 bm) as [p|].
  - destruct H as (Hp & (w & Hwp & Hbit) & Hmin). rewrite Z.sub_0_r in Hwp. split_and!; [lia|lia| |].
    + unfold bit_at. destruct (split_index_64 p) as [-> ->]. by rewrite Hwp.
    + intros q Hq. unfold bit_at. destruct (split_index_64 q) as [-> ->].
      destruct (bm !! Z.to_nat (q / 64)) as [w'|] eqn:E; [|done].
      apply (Hmin q); [lia|]. by rewrite Z.sub_0_r.
  - intros q Hq. unfold bit_at. destruct (bm !! _) as [w|] eqn:E; [|done].
    rewrite Forall_forall in H. rewrite (H w) by (by eapply list_elem_of_lookup_2). apply Z.bits_0.
Qed.

(** ** Lemmas on the run queue *)
Lemma rq_new_wf cpu : rq_wf (rq_new cpu).
Proof.
  split; cbn; try done.
  - repeat constructor; done.
  - intros prio Hp. split.
    + unfold bit_at. destruct (split_index_64 prio) as [-> ->]. intros Hb. exfalso.
      assert (∀ w : Z, [0; 0; 0] !! Z.to_nat (prio / 64) = Some w → w = 0) as Hz.
      { intros w Hw%list_elem_of_lookup_2. set_solver. }
      destruct ([0; 0; 0] !! Z.to_nat (prio / 64)) as [w|]; [|done].
      rewrite (Hz w eq_refl), Z.bits_0 in Hb. done.
    + intros (pid & q & Hq). apply list_elem_of_lookup_2 in Hq. change (pid :: q ∈ replicate NUM_PRIO_LEVELS []) in Hq. apply elem_of_replicate_inv in Hq. done.
  - change (Forall NoDup (replicate NUM_PRIO_LEVELS (@nil Z))). apply Forall_replicate. constructor.
Qed.

Lemma rq_lookup rq prio : rq_wf rq → 0 ≤ prio < 140 → ∃ q, queues rq !! Z.to_nat prio = Some q ∧ NoDup q.
Proof.
  intros Hwf Hp. destruct (lookup_lt_is_Some_2 (queues rq) (Z.to_nat prio)) as [q Hq].
  { rewrite (rq_queues_len _ Hwf). unfold NUM_PRIO_LEVELS. lia. }
  exists q. split; [done|]. eapply Forall_lookup_1; [apply (rq_nodup _ Hwf)|done].
Qed.

(** Replacing one queue, with the bitmap and the count kept in step. *)
Lemma set_queues_wf rq prio q q' bm' n' :
  rq_wf rq → 0 ≤ prio < 140 → queues rq !! Z.to_nat prio = Some q → NoDup q' → bm_wf bm' →
  (∀ r, 0 ≤ r < 192 → bit_at bm' r =
     if decide (r = prio) then negb (bool_decide (q' = [])) else bit_at (bitmap rq) r) →
  n' + Z.of_nat (length q) = nr_running rq + Z.of_nat (length q') →
  rq_wf (set_queues (<[Z.to_nat prio := q']> (queues rq)) bm' n' rq).
Proof.
  intros Hwf Hp Hq Hnd [Hl Hw] Hbits Hn. destruct Hwf as [Hql Hbl Hbw Hbq Hnds Hc].
  assert (Z.to_nat prio < length (queues rq))%nat by (by eapply lookup_lt_Some).
  split; cbn [queues bitmap nr_running set_queues]; try done.
  - by rewrite length_insert.
  - intros r Hr. rewrite Hbits by done. case_decide as He.
    + subst. rewrite list_lookup_insert_eq by done. rewrite negb_true_iff, bool_decide_eq_false.
      destruct q'; naive_solver.
    + rewrite list_lookup_insert_ne by lia. by apply Hbq.
  - by apply Forall_insert.
  - unfold queued. cbn [queues set_queues]. pose proof (sum_insert length _ _ _ q' Hq).
    unfold queued in Hc. lia.
Qed.

Lemma rq_bm_wf rq : rq_wf rq → bm_wf (bitmap rq).
Proof. intros []. done. Qed.

Lemma rq_enqueue_spec rq pid prio :
  rq_wf rq → 0 ≤ prio < 140 → nr_running rq < 2 ^ 32 - 1 →
  ∃ rq' q, queues rq !! Z.to_nat prio = Some q ∧ rq_enqueue rq pid prio = Some rq' ∧ rq_wf rq' ∧
    queues rq' = (if bool_decide (pid ∈ q) then queues rq else <[Z.to_nat prio := q ++ [pid]]> (queues rq)) ∧
    entities rq' = entities rq.
Proof.
  intros Hwf Hp Hn. destruct (rq_lookup rq prio Hwf Hp) as (q & Hq & Hnd).
  unfold rq_enqueue. rewrite Hq. cbn [mbind option_bind]. eexists _, q. split; [done|]. split; [done|].
  case_bool_decide as Hin; [done|]. split_and!; [|done..].
  assert (0 ≤ nr_running rq) by (rewrite (rq_count _ Hwf); lia).
  eapply set_queues_wf; try done.
  - apply NoDup_app. split_and!; [done| |apply NoDup_singleton]. intros y Hy ->%list_elem_of_singleton. done.
  - apply bitmap_set_wf. by apply rq_bm_wf.
  - intros r Hr. rewrite bit_at_set by (try lia; by apply rq_bm_wf). case_decide as He.
    + rewrite bool_decide_eq_true_2 by done. by destruct q.
    + by rewrite bool_decide_eq_false_2.
  - rewrite wadd_small by lia. rewrite length_app. cbn. lia.
Qed.

Lemma clr_if_empty_bits rq prio (q' : list Z) r :
  rq_wf rq → 0 ≤ prio < 140 → 0 ≤ r < 192 →
  (∃ pid q, queues rq !! Z.to_nat prio = Some (pid :: q)) ∨ q' = [] →
  bit_at (if q' is [] then bitmap_clr (bitmap rq) prio else bitmap rq) r =
  if decide (r = prio) then negb (bool_decide (q' = [])) else bit_at (bitmap rq) r.
Proof.
  intros Hwf Hp Hr Hq. destruct q' as [|y q'].
  - rewrite bit_at_clr by (try lia; by apply rq_bm_wf). case_decide as He.
    + by rewrite bool_decide_eq_true_2 by done.
    + by rewrite bool_decide_eq_false_2 by done.
  - case_decide as He; [|done]. subst r. destruct Hq as [Hq|]; [|done].
    rewrite (proj2 (rq_bitmap_queues _ Hwf prio Hr) Hq). by rewrite bool_decide_eq_false_2.
Qed.

Lemma clr_if_empty_wf (q' : list Z) bm prio : bm_wf bm → bm_wf (if q' is [] then bitmap_clr bm prio else bm).
Proof. destruct q'; [apply bitmap_clr_wf|done]. Qed.

Lemma filter_neq_length (pid : Z) q :
  NoDup q → length q = (length (filter (λ y, y ≠ pid) q) + if bool_decide (pid ∈ q) then 1 else 0)%nat.
Proof.
  induction 1 as [|y q Hy Hnd IH]; [done|]. rewrite filter_cons.
  destruct (decide (y ≠ pid)) as [Hne|Hne]; cbn [length].
  - rewrite IH. rewrite (bool_decide_ext (pid ∈ y :: q) (pid ∈ q)) by set_solver. lia.
  - assert (y = pid) as -> by (destruct (decide (y = pid)); tauto).
    rewrite bool_decide_eq_true_2 by set_solver. rewrite bool_decide_eq_false_2 in IH by done. lia.
Qed.

Lemma rq_dequeue_spec rq pid prio :
  rq_wf rq → 0 ≤ prio < 140 →
  ∃ rq' q, queues rq !! Z.to_nat prio = Some q ∧ rq_dequeue rq pid prio = Some rq' ∧ rq_wf rq' ∧
    queues rq' = <[Z.to_nat prio := filter (λ y, y ≠ pid) q]> (queues rq) ∧
    entities rq' = entities rq.
Proof.
  intros Hwf Hp. destruct (rq_lookup rq prio Hwf Hp) as (q & Hq & Hnd).
  unfold rq_dequeue. rewrite Hq. cbn [mbind option_bind]. eexists _, q. split; [done|]. split; [done|].
  split_and!; [|done..]. pose proof (filter_neq_length pid q Hnd) as Hlen.
  eapply set_queues_wf; try done.
  - by apply NoDup_filter.
  - apply clr_if_empty_wf. by apply rq_bm_wf.
  - intros r Hr. apply clr_if_empty_bits; try done.
    destruct q as [|y q]; [by right|left; eauto].
  - assert (Z.of_nat (length q) ≤ nr_running rq) as Hge.
    { rewrite (rq_count _ Hwf). unfold queued. pose proof (sum_insert length _ _ _ [] Hq). cbn in *. lia. }
    case_bool_decide as Hin; case_bool_decide; cbn [andb];
      try (destruct (Z.ltb_spec 0 (nr_running rq))); lia.
Qed.

Lemma scan_queues_spec qs :
  match scan_queues qs with
  | Some (p, pid) => (∃ q, qs !! p = Some (pid :: q)) ∧ ∀ r q, (r < p)%nat → qs !! r = Some q → q = []
  | None => Forall (λ q, q = []) qs
  end.
Proof.
  induction qs as [|q qs IH]; [by constructor|]. cbn. destruct q as [|pid q]; cbn.
  - destruct (scan_queues qs) as [[p pid]|]; cbn; [|by constructor].
    destruct IH as [[q Hq] Hmin]. split; [by eauto|].
    intros [|r] q' Hr Hl; [by simplify_eq/=|]. apply (Hmin r); [lia|done].
  - split; [by eauto|]. intros r q' Hr. lia.
Qed.

Lemma scan_queues_unique qs p pid q :
  qs !! p = Some (pid :: q) → (∀ r q', (r < p)%nat → qs !! r = Some q' → q' = []) →
  scan_queues qs = Some (p, pid).
Proof.
  intros Hp Hmin. pose proof (scan_queues_spec qs) as H.
  destruct (scan_queues qs) as [[p' pid']|].
  - destruct H as [[q' Hq'] Hmin']. destruct (lt_eq_lt_dec p p') as [[Hlt| -> ]|Hlt].
    + by specialize (Hmin' p _ Hlt Hp).
    + congruence.
    + by specialize (Hmin p' _ Hlt Hq').
  - rewrite Forall_forall in H. by specialize (H _ (list_elem_of_lookup_2 _ _ _ Hp)).
Qed.

(** [pick_next], by the reference scan. *)
Lemma pick_next_scan rq :
  rq_wf rq →
  match scan_queues (queues rq) with
  | Some (p, pid) => ∃ q rq', queues rq !! p = Some (pid :: q) ∧ (p < 140)%nat ∧
      pick_next rq = Some (rq', pid) ∧ rq_wf rq' ∧
      queues rq' = <[p := q]> (queues rq) ∧ entities rq' = entities rq
  | None => pick_next rq = None
  end.
Proof.
  intros Hwf. pose proof (scan_queues_spec (queues rq)) as Hscan.
  pose proof (bitmap_find_first_spec (bitmap rq) (rq_bm_wf _ Hwf)) as Hff. unfold pick_next.
  destruct (bitmap_find_first (bitmap rq)) as [p|]; cbn [mbind option_bind].
  - destruct Hff as (Hp & Hbit & Hmin).
    apply (rq_bitmap_queues _ Hwf) in Hbit as (pid & q & Hq); [|done].
    assert (Z.to_nat p < 140)%nat as Hlt.
    { apply lookup_lt_Some in Hq. by rewrite (rq_queues_len _ Hwf) in Hq. }
    rewrite (scan_queues_unique (queues rq) (Z.to_nat p) pid q Hq).
    + rewrite Hq. cbn. eexists q, _. split_and!; try done.
      eapply set_queues_wf; try done; [lia| | | |].
      * destruct (rq_lookup rq p Hwf ltac:(lia)) as (q0 & Hq0 & Hnd). simplify_eq. by inversion Hnd.
      * apply clr_if_empty_wf. by apply rq_bm_wf.
      * intros r Hr. apply clr_if_empty_bits; try done; [lia|]. left. eauto.
      * assert (Z.of_nat (length (pid :: q)) ≤ nr_running rq) as Hge.
        { rewrite (rq_count _ Hwf). unfold queued. pose proof (sum_insert length _ _ _ [] Hq). cbn in *. lia. }
        cbn [length] in *. destruct (Z.ltb_spec 0 (nr_running rq)); lia.
    + intros r q' Hr Hq'. destruct q' as [|y q']; [done|].
      assert (bit_at (bitmap rq) (Z.of_nat r) = true) as Hb.
      { apply (rq_bitmap_queues _ Hwf); [lia|]. rewrite Nat2Z.id. eauto. }
      rewrite Hmin in Hb by lia. done.
  - destruct (scan_queues (queues rq)) as [[p pid]|]; [|done].
    destruct Hscan as [[q Hq] _]. exfalso.
    assert (p < 140)%nat as Hlt.
    { apply lookup_lt_Some in Hq. by rewrite (rq_queues_len _ Hwf) in Hq. }
    specialize (Hff (Z.of_nat p) ltac:(lia)).
    assert (bit_at (bitmap rq) (Z.of_nat p) = true) as Hb.
    { apply (rq_bitmap_queues _ Hwf); [lia|]. rewrite Nat2Z.id. eauto. }
    congruence.
Qed.

(** Picking [n] times. *)
Fixpoint pick_n (n : nat) (rq : RunQueue) : list Z :=
  match n with
  | O => []
  | S n => match pick_next rq with
           | Some (rq', pid) => pid :: pick_n n rq'
           | None => []
           end
  end.

Lemma pick_n_prefix n rq p q :
  rq_wf rq → queues rq !! p = Some q → (n ≤ length q)%nat →
  (∀ r q', (r < p)%nat → queues rq !! r = Some q' → q' = []) →
  pick_n n rq = take n q.
Proof.
  revert rq q. induction n as [|n IH]; intros rq q Hwf Hq Hn Hmin; [done|].
  destruct q as [|pid q]; [cbn in Hn; lia|].
  pose proof (pick_next_scan rq Hwf) as H. rewrite (scan_queues_unique _ _ _ _ Hq Hmin) in H.
  destruct H as (q' & rq' & Hq' & Hp & Hpick & Hwf' & Hqs & _). simplify_eq/=.
  rewrite Hpick. f_equal. apply IH; [done| |lia|].
  - rewrite Hqs, list_lookup_insert_eq; [done|]. by eapply lookup_lt_Some.
  - intros r q'' Hr Hl. rewrite Hqs, list_lookup_insert_ne in Hl by lia. by eapply Hmin.
Qed.

(** ** Theorems *)

(** The run queue's invariant is kept by every operation: the bitmap has
    a bit exactly for the non-empty queues, no queue holds a task twice, and
    [nr_running] counts the queued tasks; no operation on a valid priority
    panics. *)
Theorem rq_ops_wf rq pid prio :
  rq_wf rq → 0 ≤ prio < 140 → nr_running rq < 2 ^ 32 - 1 →
  (∃ rq', rq_enqueue rq pid prio = Some rq' ∧ rq_wf rq') ∧
  (∃ rq', rq_dequeue rq pid prio = Some rq' ∧ rq_wf rq') ∧
  (∀ rq' next, pick_next rq = Some (rq', next) → rq_wf rq').
Proof.
  intros Hwf Hp Hn. split_and!.
  - destruct (rq_enqueue_spec rq pid prio Hwf Hp Hn) as (rq' & q & _ & ? & ? & _). eauto.
  - destruct (rq_dequeue_spec rq pid prio Hwf Hp) as (rq' & q & _ & ? & ? & _). eauto.
  - intros rq' next Hpick. pose proof (pick_next_scan rq Hwf) as H.
    destruct (scan_queues (queues rq)) as [[p y]|]; [|congruence].
    destruct H as (q & rq2 & _ & _ & Hpick' & Hwf' & _). by simplify_eq.
Qed.

(** The constant-time choice is the reference choice: [pick_next], which
    finds a priority with [trailing_zeros] on the bitmap, returns the head of
    the first non-empty queue of a linear scan and removes just that task. *)
Theorem pick_next_reference rq :
  rq_wf rq →
  (snd <$> pick_next rq) = (snd <$> scan_queues (queues rq)) ∧
  ∀ rq' pid, pick_next rq = Some (rq', pid) →
    ∃ p q, queues rq !! p = Some (pid :: q) ∧ queues rq' = <[p := q]> (queues rq) ∧
      ∀ r q', (r < p)%nat → queues rq !! r = Some q' → q' = [].
Proof.
  intros Hwf. pose proof (pick_next_scan rq Hwf) as H.
  pose proof (scan_queues_spec (queues rq)) as Hs.
  destruct (scan_queues (queues rq)) as [[p pid]|].
  - destruct H as (q & rq' & Hq & _ & Hpick & _ & Hqs & _). rewrite Hpick. split; [done|].
    intros rq2 y [= <- <-]. destruct Hs as [_ Hmin]. eauto 10.
  - rewrite H. split; [done|]. intros rq2 y [=].
Qed.

(** First come, first served: with no task of higher priority queued,
    the next [n] choices are the first [n] tasks of the queue, in the order
    they were enqueued. *)
Theorem pick_next_fifo n rq p q :
  rq_wf rq → queues rq !! p = Some q → (n ≤ length q)%nat →
  (∀ r q', (r < p)%nat → queues rq !! r = Some q' → q' = []) →
  pick_n n rq = take n q.
Proof. apply pick_n_prefix. Qed.

(** Enqueue and dequeue cancel: dequeuing a task just enqueued where it
    was not queued before restores the queues and the count. *)
Theorem enqueue_dequeue rq pid prio :
  rq_wf rq → 0 ≤ prio < 140 → nr_running rq < 2 ^ 32 - 1 →
  (∀ q, queues rq !! Z.to_nat prio = Some q → pid ∉ q) →
  ∃ rq1 rq2, rq_enqueue rq pid prio = Some rq1 ∧ rq_dequeue rq1 pid prio = Some rq2 ∧
    queues rq2 = queues rq ∧ nr_running rq2 = nr_running rq.
Proof.
  intros Hwf Hp Hn Hnin.
  destruct (rq_enqueue_spec rq pid prio Hwf Hp Hn) as (rq1 & q & Hq & He & Hwf1 & Hqs1 & _).
  destruct (rq_dequeue_spec rq1 pid prio Hwf1 Hp) as (rq2 & q1 & Hq1 & Hd & Hwf2 & Hqs2 & _).
  exists rq1, rq2. split; [done|]. split; [done|]. specialize (Hnin q Hq).
  rewrite bool_decide_eq_false_2 in Hqs1 by done.
  assert (Z.to_nat prio < length (queues rq))%nat by (by eapply lookup_lt_Some).
  assert (queues rq2 = queues rq) as He2.
  { rewrite Hqs1, list_lookup_insert_eq in Hq1 by done. simplify_eq.
    rewrite Hqs2, Hqs1, list_insert_insert_eq.
    apply list_insert_id. rewrite Hq. f_equal. rewrite filter_app. cbn.
    rewrite decide_False by tauto. rewrite app_nil_r. symmetry. apply filter_all.
    rewrite Forall_forall. intros y Hy ->. done. }
  split; [done|]. rewrite (rq_count _ Hwf2), (rq_count _ Hwf). unfold queued. by rewrite He2.
Qed.

(** Timeslices: every priority and policy gets between 0.2 and 4 ms, and
    a lower priority (larger number) of the normal class never gets more. *)
Theorem timeslice_bounds prio prio' policy :
  0 ≤ prio < 256 → 0 ≤ prio' < 256 →
  200 ≤ timeslice_for prio policy ≤ 4000 ∧
  (100 ≤ prio ≤ prio' → timeslice_for prio' policy ≤ timeslice_for prio policy).
Proof.
  intros Hp Hp'. unfold timeslice_for, sat_sub, RT_TIMESLICE_US, MIN_TIMESLICE_US, NORMAL_BASE_US, NORMAL_GRANULARITY_US.
  destruct (_ || _); [lia|]. destruct (policy =? SCHED_IDLE); [lia|].
  destruct (Z.ltb_spec prio 100), (Z.ltb_spec prio' 100); lia.
Qed.

(** ** Witnesses *)
Definition demo_rq : RunQueue :=
  default (rq_new 0) (rq1 ← rq_enqueue (rq_new 0) 7 120; rq2 ← rq_enqueue rq1 8 120; rq_enqueue rq2 9 99).

Lemma demo_rq_wf : rq_wf demo_rq ∧ nr_running demo_rq = 3.
Proof.
  split; [|reflexivity]. unfold demo_rq.
  destruct (rq_enqueue_spec (rq_new 0) 7 120 (rq_new_wf 0)) as (rq1 & q1 & _ & E1 & W1 & _); [done..|].
  rewrite E1. cbn [mbind option_bind].
  assert (nr_running rq1 = 1) as N1 by (vm_compute in E1; by simplify_eq).
  destruct (rq_enqueue_spec rq1 8 120 W1) as (rq2 & q2 & _ & E2 & W2 & _); [done|lia|].
  rewrite E2. cbn [mbind option_bind].
  assert (nr_running rq2 = 2) as N2 by (vm_compute in E1; simplify_eq; vm_compute in E2; by simplify_eq).
  destruct (rq_enqueue_spec rq2 9 99 W2) as (rq3 & q3 & _ & E3 & W3 & _); [done|lia|].
  by rewrite E3.
Qed.

Lemma rq_ops_wf_witness : ∃ rq', rq_enqueue demo_rq 10 139 = Some rq' ∧ rq_wf rq'.
Proof. apply (rq_ops_wf demo_rq 10 139); [apply demo_rq_wf|done|reflexivity]. Defined.

Lemma pick_next_reference_witness :
  (snd <$> pick_next demo_rq) = Some 9 ∧ (snd <$> pick_next demo_rq) = (snd <$> scan_queues (queues demo_rq)).
Proof. split; [reflexivity|]. apply (pick_next_reference demo_rq). apply demo_rq_wf. Defined.

Lemma pick_next_fifo_witness : pick_n 1 demo_rq = [9].
Proof.
  apply (pick_next_fifo 1 demo_rq 99 [9]); [apply demo_rq_wf|reflexivity|cbn; lia|].
  intros r q Hr Hq. pose proof (scan_queues_spec (queues demo_rq)) as H.
  replace (scan_queues (queues demo_rq)) with (Some (99%nat, 9)) in H by reflexivity.
  by eapply H.
Defined.

Lemma enqueue_dequeue_witness :
  ∃ rq1 rq2, rq_enqueue demo_rq 11 120 = Some rq1 ∧ rq_dequeue rq1 11 120 = Some rq2 ∧
    queues rq2 = queues demo_rq ∧ nr_running rq2 = nr_running demo_rq.
Proof.
  apply (enqueue_dequeue demo_rq 11 120); [apply demo_rq_wf|done|reflexivity|].
  intros q Hq. vm_compute in Hq. injection Hq as <-. set_solver.
Defined.

Lemma timeslice_bounds_witness : timeslice_for 139 SCHED_NORMAL ≤ timeslice_for 120 SCHED_NORMAL.
Proof. apply (timeslice_bounds 120 139 SCHED_NORMAL); lia. Defined.
