(* ===== verification/Kernel.v ===== *)
(** * The scheduler of the kernel: run queues of all processors and the
    process table

    Models the public scheduling functions of kernel/src/sched/mod.rs on top
    of [RunQueue] (Sched) and the process table (Process): [add_task],
    [remove_task], [enqueue], [set_priority], [tick], [schedule] with
    [work_steal] and [switch_to], [block_current], [sleep_current] and
    [wake_process].  The processor that runs an operation and the number of
    processors, which the source reads from the hardware, are arguments.
    [None] is a panic (index out of range).  The register switch itself
    ([qunix_context_switch]), protection keys, page tables and the FS base are
    not part of the state. *)
From S2P Require Import Prelude Bpf Seccomp Process Sched.

Definition MAX_CPUS_SCHED : Z := 64.

Record Kernel := mkKernel {
  k_table : Table;
  k_rqs : list (option RunQueue);
  k_need_resched : bool;
}.

Definition set_table (t : Table) (k : Kernel) : Kernel := mkKernel t (k_rqs k) (k_need_resched k).
Definition set_rqs (r : list (option RunQueue)) (k : Kernel) : Kernel :=
  mkKernel (k_table k) r (k_need_resched k).
Definition set_need (b : bool) (k : Kernel) : Kernel := mkKernel (k_table k) (k_rqs k) b.
Definition set_rq (i : nat) (rq : RunQueue) (k : Kernel) : Kernel := set_rqs (<[i := Some rq]> (k_rqs k)) k.

Definition rq_at (k : Kernel) (i : nat) : option RunQueue := default None (k_rqs k !! i).
Definition cpu_index (cpu : Z) : nat := Z.to_nat (Z.min cpu (MAX_CPUS_SCHED - 1)).
Definition proc (k : Kernel) (pid : Z) : option Process := procs (k_table k) !! pid.
Definition proc_state (k : Kernel) (pid : Z) : option ProcessState := p_state <$> proc k pid.
Definition update_proc (pid : Z) (f : Process → Process) (k : Kernel) : Kernel :=
  set_table (with_process_mut (k_table k) pid f) k.

Definition sched_init (k : Kernel) : Kernel := set_rq 0 (rq_new 0) k.
Definition init_cpu (cpu : Z) (k : Kernel) : Kernel :=
  if cpu <? MAX_CPUS_SCHED then set_rq (Z.to_nat cpu) (rq_new cpu) k else k.

(** The loops over [RQS] that stop at the first run queue with an entity for
    [pid]: its index, itself and the entity. *)
Fixpoint find_rq (pid : Z) (rqs : list (option RunQueue)) : option (nat * RunQueue * SchedEntity) :=
  match rqs with
  | [] => None
  | o :: rest =>
      match o ≫= λ rq, entity rq pid with
      | Some e => match o with Some rq => Some (0%nat, rq, e) | None => None end
      | None => match find_rq pid rest with
                | Some (i, rq, e) => Some (S i, rq, e)
                | None => None
                end
      end
  end.

(** [select_cpu_for_new_task]: the first processor with the fewest runnable
    tasks; [u32::MAX] stands for no run queue. *)
Fixpoint select_from (i : nat) (rqs : list (option RunQueue)) (best : nat) (min_load : Z) : nat :=
  match rqs with
  | [] => best
  | o :: rest =>
      let load := match o with Some rq => nr_running rq | None => 2 ^ 32 - 1 end in
      if load <? min_load then select_from (S i) rest i load else select_from (S i) rest best min_load
  end.
Definition select_cpu_for_new_task (ncpus : Z) (k : Kernel) : nat :=
  select_from 0 (take (Z.to_nat (Z.min ncpus MAX_CPUS_SCHED)) (k_rqs k)) 0 (2 ^ 32 - 1).

Definition add_task (ncpus pid prio policy : Z) (k : Kernel) : option Kernel :=
  let cpu := select_cpu_for_new_task ncpus k in
  match rq_at k cpu with
  | Some rq =>
      rq' ← rq_enqueue (add_entity rq (entity_new pid prio policy)) pid prio;
      Some (set_rq cpu rq' k)
  | None => Some k
  end.

Definition remove_task (pid : Z) (k : Kernel) : option Kernel :=
  match find_rq pid (k_rqs k) with
  | Some (i, rq, e) =>
      rq' ← rq_dequeue (remove_entity rq pid).1 pid (e_prio e);
      Some (set_rq i rq' k)
  | None => Some k
  end.

Definition enqueue (pid : Z) (k : Kernel) : option Kernel :=
  match find_rq pid (k_rqs k) with
  | Some (i, rq, e) => rq' ← rq_enqueue rq pid (e_prio e); Some (set_rq i rq' k)
  | None => Some k
  end.

Definition set_priority (pid new_prio : Z) (k : Kernel) : option Kernel :=
  match find_rq pid (k_rqs k) with
  | Some (i, rq, e) =>
      let rq1 := entity_mut rq pid (λ e, mkEntity (e_pid e) new_prio (e_static_prio e) (e_policy e)
        (e_vruntime e) (timeslice_for new_prio (e_policy e)) (e_used_us e) (e_cpu_affinity e)) in
      rq2 ← rq_dequeue rq1 pid (e_prio e);
      rq3 ← rq_enqueue rq2 pid new_prio;
      Some (set_rq i rq3 k)
  | None => Some k
  end.

(** The time accounting of [tick]; the plugin hook it calls last is not
    modelled. *)
Definition tick (cpu : Z) (k : Kernel) : Kernel :=
  let i := cpu_index cpu in
  let pid := current (k_table k) in
  match rq_at k i with
  | None => k
  | Some rq =>
      let rq1 := mkRq (queues rq) (bitmap rq) (nr_running rq) (entities rq)
                   (wadd 64 (clock_us rq) 1000) (cpu_id rq) (load_avg rq) in
      let account (e : SchedEntity) := mkEntity (e_pid e) (e_prio e) (e_static_prio e) (e_policy e)
        (wadd 64 (e_vruntime e) (1000 * 100 / Z.max (e_prio e + 1) 1))
        (e_timeslice_us e) (wadd 64 (e_used_us e) 1000) (e_cpu_affinity e) in
      let k1 := set_rq i (entity_mut rq1 pid account) k in
      match entity rq pid with
      | Some e => if e_timeslice_us e <=? wadd 64 (e_used_us e) 1000 then set_need true k1 else k1
      | None => k1
      end
  end.

(** [work_steal]: the busiest other processor and its load. *)
Fixpoint busiest_from (my i : nat) (rqs : list (option RunQueue)) (best : nat) (max_load : Z) : nat * Z :=
  match rqs with
  | [] => (best, max_load)
  | o :: rest =>
      let load := match o with Some rq => nr_running rq | None => 0 end in
      if bool_decide (i = my) then busiest_from my (S i) rest best max_load
      else if max_load <? load then busiest_from my (S i) rest i load
      else busiest_from my (S i) rest best max_load
  end.

Definition work_steal (my : nat) (ncpus : Z) (k : Kernel) : option (Kernel * option Z) :=
  let '(busiest, max_load) := busiest_from my 0 (take (Z.to_nat (Z.min ncpus MAX_CPUS_SCHED)) (k_rqs k)) 0 0 in
  if max_load <? 2 then Some (k, None)
  else
    match rq_at k busiest ≫= pick_next with
    | None => Some (k, None)
    | Some (rq1, pid) =>
        let '(rq2, ent) := remove_entity rq1 pid in
        let k1 := set_rq busiest rq2 k in
        match ent with
        | None => Some (k1, Some pid)
        | Some e =>
            match rq_at k1 my with
            | Some rq => rq' ← rq_enqueue (add_entity rq e) pid (e_prio e); Some (set_rq my rq' k1, Some pid)
            | None => Some (k1, Some pid)
            end
        end
    end.

(** The bookkeeping of [switch_to]. *)
Definition switch_to (from to : Z) (k : Kernel) : Kernel :=
  let k1 := update_proc from (λ p, if decide (p_state p = Running) then set_state Runnable p else p) k in
  let k2 := update_proc to (set_state Running) k1 in
  set_table (mkTable (procs (k_table k2)) (next_pid (k_table k2)) to) k2.

Definition blocked_state (s : ProcessState) : bool :=
  match s with Sleeping | Stopped | Zombie _ => true | _ => false end.

(** [schedule] up to the idle loop; the flag says that the caller has to wait
    for an interrupt. *)
Definition schedule_core (cpu ncpus : Z) (k : Kernel) : option (Kernel * bool) :=
  if negb (k_need_resched k) then Some (k, false)
  else
    let k0 := set_need false k in
    let cur := current (k_table k0) in
    let i := cpu_index cpu in
    k1 ← (if bool_decide (proc_state k0 cur = Some Running) then enqueue cur k0 else Some k0);
    let reset (e : SchedEntity) := mkEntity (e_pid e) (e_prio e) (e_static_prio e) (e_policy e) (e_vruntime e)
                     (e_timeslice_us e) 0 (e_cpu_affinity e) in
    let k2 := match rq_at k1 i with Some rq => set_rq i (entity_mut rq cur reset) k1 | None => k1 end in
    match rq_at k2 i ≫= pick_next with
    | Some (rq', next) =>
        let k3 := set_rq i rq' k2 in
        Some (if next =? cur then k3 else switch_to cur next k3, false)
    | None =>
        match work_steal i ncpus k2 with
        | Some (k3, Some pid) => Some (switch_to cur pid k3, false)
        | Some (k3, None) => Some (k3, default false (blocked_state <$> proc_state k3 cur))
        | None => None
        end
    end.

(** One round of the idle loop: [inr] when there is work, otherwise the state
    after the interrupt [irq] that ends the [hlt]. *)
Definition idle_round (irq : Kernel → Kernel) (i : nat) (k : Kernel) : Kernel + Kernel :=
  let has_work := match rq_at k i with Some rq => 0 <? nr_running rq | None => false end in
  if has_work || k_need_resched k then inr (set_need true k) else inl (irq k).

(** [schedule]; [None] also when the processor is still idle after [fuel]
    interrupts. *)
Definition schedule (irq : Kernel → Kernel) (fuel : nat) (cpu ncpus : Z) (k : Kernel) : option Kernel :=
  match schedule_core cpu ncpus k with
  | Some (k1, false) => Some k1
  | Some (k1, true) =>
      match loop_nat (idle_round irq (cpu_index cpu)) fuel k1 with inr k2 => Some k2 | inl _ => None end
  | None => None
  end.

(** [block_current] before it yields, and what it does when it resumes. *)
Definition block_prepare (st : ProcessState) (k : Kernel) : Kernel :=
  set_need true (update_proc (current (k_table k)) (set_state st) k).
Definition block_resume (pid : Z) (k : Kernel) : Kernel :=
  update_proc pid (λ p, if decide (p_state p = Sleeping ∨ p_state p = Runnable) then set_state Running p else p) k.

Definition sleep_prepare (until_ticks : Z) (k : Kernel) : Kernel :=
  set_need true (update_proc (current (k_table k)) (λ p, set_sleep_until until_ticks (set_state Sleeping p)) k).

Definition request_reschedule (k : Kernel) : Kernel := set_need true k.

Definition wake_process (pid : Z) (k : Kernel) : option Kernel :=
  if bool_decide (proc_state k pid = Some Sleeping) then
    k1 ← enqueue pid (update_proc pid (set_state Runnable) k);
    Some (set_need true k1)
  else Some k.

Definition total_running (k : Kernel) : Z :=
  foldr Z.add 0 ((λ o, match o with Some rq => nr_running rq | None => 0 end) <$> k_rqs k).

(** ** Invariant *)
Definition in_queue (rq : RunQueue) (pid : Z) (p : nat) : Prop :=
  ∃ q, queues rq !! p = Some q ∧ pid ∈ q.
Definition is_queued (rq : RunQueue) (pid : Z) : Prop := ∃ p, in_queue rq pid p.

(** A pid that [alloc_pid] can return. *)
Definition pid_ok (pid : Z) : Prop := 0 ≤ pid ≤ MAX_PIDS.

(** One run queue: its tasks have an entity with a valid priority, and sit in
    the queue of that priority. *)
Record rq_ok (rq : RunQueue) : Prop := {
  rqk_wf : rq_wf rq;
  rqk_queued pid p : in_queue rq pid p → ∃ e, entities rq !! pid = Some e ∧ Z.to_nat (e_prio e) = p;
  rqk_entity pid e : entities rq !! pid = Some e → e_pid e = pid ∧ pid_ok pid ∧ 0 ≤ e_prio e < 140;
}.

(** All run queues; a process has an entity on one processor at most. *)
Record kernel_wf (k : Kernel) : Prop := {
  kwf_len : length (k_rqs k) = Z.to_nat MAX_CPUS_SCHED;
  kwf_rq i rq : rq_at k i = Some rq → rq_ok rq;
  kwf_unique i j rqi rqj pid :
    rq_at k i = Some rqi → rq_at k j = Some rqj →
    is_Some (entities rqi !! pid) → is_Some (entities rqj !! pid) → i = j;
}.

Definition k_queued (k : Kernel) (pid : Z) : Prop := ∃ i rq, rq_at k i = Some rq ∧ is_queued rq pid.
Definition has_entity (k : Kernel) (pid : Z) : Prop :=
  ∃ i rq, rq_at k i = Some rq ∧ is_Some (entities rq !! pid).

(** ** One run queue *)
Lemma NoDup_range_length (l : list Z) n :
  0 ≤ n → NoDup l → Forall (λ y, 0 ≤ y < n) l → Z.of_nat (length l) ≤ n.
Proof.
  intros Hn Hnd Hl. assert (l ⊆+ seqZ 0 n) as Hs.
  { apply NoDup_submseteq; [done|]. intros y Hy. rewrite elem_of_seqZ. rewrite Forall_forall in Hl.
    specialize (Hl y Hy). lia. }
  apply submseteq_length in Hs. rewrite length_seqZ in Hs. lia.
Qed.

Lemma NoDup_mjoin (ls : list (list Z)) :
  Forall NoDup ls →
  (∀ i j a b y, ls !! i = Some a → ls !! j = Some b → y ∈ a → y ∈ b → i = j) →
  NoDup (mjoin ls).
Proof.
  induction 1 as [|l ls Hl Hls IH]; intros Hd; [constructor|]. cbn. apply NoDup_app. split_and!; [done| |].
  - intros y Hy Hin. apply list_elem_of_join in Hin as (b & Hyb & Hb).
    apply list_elem_of_lookup in Hb as [j Hj]. by specialize (Hd 0%nat (S j) l b y eq_refl Hj Hy Hyb).
  - apply IH. intros i j a b y Hi Hj Ha Hb. specialize (Hd (S i) (S j) a b y Hi Hj Ha Hb). lia.
Qed.

Lemma length_mjoin_sum (ls : list (list Z)) : length (mjoin ls) = sum_list_with length ls.
Proof.
  induction ls as [|l ls IH]; [done|]. change (length (l ++ mjoin ls) = length l + sum_list_with length ls)%nat.
  by rewrite length_app, IH.
Qed.

(** The counter of a run queue is far from overflow. *)
Lemma rq_ok_count rq : rq_ok rq → 0 ≤ nr_running rq ≤ MAX_PIDS + 1.
Proof.
  intros [Hwf Hq He]. rewrite (rq_count _ Hwf). unfold queued. rewrite <-length_mjoin_sum.
  split; [lia|]. apply NoDup_range_length; [done| |].
  - apply NoDup_mjoin; [apply Hwf|]. intros i j a b y Hi Hj Ha Hb.
    destruct (Hq y i) as (e & Ee & <-); [by exists a|].
    destruct (Hq y j) as (e' & Ee' & <-); [by exists b|]. congruence.
  - apply Forall_forall. intros y Hy. apply list_elem_of_join in Hy as (a & Hya & Ha).
    apply list_elem_of_lookup in Ha as [i Hi]. destruct (Hq y i) as (e & Ee & _); [by exists a|].
    destruct (He y e Ee) as (_ & Hp & _). unfold pid_ok in Hp. lia.
Qed.

Lemma exists_some_eq {A} (a : A) (P : A → Prop) : (∃ q, Some a = Some q ∧ P q) ↔ P a.
Proof. naive_solver. Qed.

Lemma rq_ok_new cpu : rq_ok (rq_new cpu).
Proof.
  split; [apply rq_new_wf| |intros pid e He; cbn in He; by rewrite lookup_empty in He].
  intros pid p (q & Hq & Hin). cbn [rq_new queues] in Hq.
  apply lookup_replicate in Hq as [-> _]. set_solver.
Qed.

(** The entities may change as long as queued tasks keep theirs at the same
    priority. *)
Lemma set_entities_ok rq es :
  rq_ok rq →
  (∀ pid p, in_queue rq pid p → ∃ e, es !! pid = Some e ∧ Z.to_nat (e_prio e) = p) →
  (∀ pid e, es !! pid = Some e → e_pid e = pid ∧ pid_ok pid ∧ 0 ≤ e_prio e < 140) →
  rq_ok (set_entities es rq).
Proof. intros [[] _ _] Hq He. split; [by split|exact Hq|exact He]. Qed.

Lemma in_queue_bound rq pid p : rq_wf rq → in_queue rq pid p → (p < 140)%nat.
Proof. intros Hwf (q & Hq & _). apply lookup_lt_Some in Hq. by rewrite (rq_queues_len _ Hwf) in Hq. Qed.

(** Membership in some queue, from membership in each. *)
Lemma in_queue_plus rq rq' pid p :
  (∀ pid' p', in_queue rq' pid' p' ↔ in_queue rq pid' p' ∨ pid' = pid ∧ p' = p) →
  ∀ q, is_queued rq' q ↔ is_queued rq q ∨ q = pid.
Proof. intros Hq q. unfold is_queued. setoid_rewrite Hq. naive_solver. Qed.

Lemma in_queue_minus rq rq' pid :
  (∀ pid' p', in_queue rq' pid' p' ↔ in_queue rq pid' p' ∧ pid' ≠ pid) →
  ∀ q, is_queued rq' q ↔ is_queued rq q ∧ q ≠ pid.
Proof. intros Hq q. unfold is_queued. setoid_rewrite Hq. naive_solver. Qed.

Lemma rq_enqueue_ok rq pid e :
  rq_ok rq → entities rq !! pid = Some e →
  ∃ rq', rq_enqueue rq pid (e_prio e) = Some rq' ∧ rq_ok rq' ∧ entities rq' = entities rq ∧
    ∀ pid' p, in_queue rq' pid' p ↔ in_queue rq pid' p ∨ pid' = pid ∧ p = Z.to_nat (e_prio e).
Proof.
  intros Hok He. pose proof (rq_ok_count rq Hok) as Hn. destruct (rqk_entity _ Hok _ _ He) as (Hpid & _ & Hp).
  destruct (rq_enqueue_spec rq pid (e_prio e)) as (rq' & q & Hq & Henq & Hwf' & Hqs & Hes);
    [apply Hok|lia|unfold MAX_PIDS in Hn; lia|].
  assert (∀ pid' p, in_queue rq' pid' p ↔ in_queue rq pid' p ∨ pid' = pid ∧ p = Z.to_nat (e_prio e)) as Hin.
  { intros pid' p. unfold in_queue. rewrite Hqs. case_bool_decide as Hi.
    - split; [by left|]. intros [?|[-> ->]]; eauto.
    - destruct (decide (p = Z.to_nat (e_prio e))) as [->|].
      + rewrite list_lookup_insert_eq by (by eapply lookup_lt_Some).
        rewrite Hq, !exists_some_eq. set_solver.
      + rewrite list_lookup_insert_ne by done. naive_solver. }
  exists rq'. split_and!; [done| |done|done]. split; [done| |rewrite Hes; apply Hok].
  rewrite Hes. intros pid' p [?|[-> ->]]%Hin; [by apply Hok|eauto].
Qed.

Lemma rq_dequeue_ok rq pid e :
  rq_ok rq → entities rq !! pid = Some e →
  ∃ rq', rq_dequeue rq pid (e_prio e) = Some rq' ∧ rq_ok rq' ∧ entities rq' = entities rq ∧
    ∀ pid' p, in_queue rq' pid' p ↔ in_queue rq pid' p ∧ pid' ≠ pid.
Proof.
  intros Hok He. destruct (rqk_entity _ Hok _ _ He) as (Hpid & _ & Hp).
  destruct (rq_dequeue_spec rq pid (e_prio e)) as (rq' & q & Hq & Hdeq & Hwf' & Hqs & Hes); [apply Hok|lia|].
  assert (∀ pid' p, in_queue rq' pid' p ↔ in_queue rq pid' p ∧ pid' ≠ pid) as Hin.
  { intros pid' p. unfold in_queue at 1. rewrite Hqs. destruct (decide (p = Z.to_nat (e_prio e))) as [->|Hne].
    - rewrite list_lookup_insert_eq by (by eapply lookup_lt_Some). unfold in_queue.
      rewrite Hq, !exists_some_eq, list_elem_of_filter. tauto.
    - rewrite list_lookup_insert_ne by done. split; [|naive_solver].
      intros Hq'. split; [done|]. intros ->. destruct (rqk_queued _ Hok pid p Hq') as (e' & ? & ?). simplify_eq. }
  exists rq'. split_and!; [done| |done|done]. split; [done| |rewrite Hes; apply Hok].
  rewrite Hes. intros pid' p [? _]%Hin. by apply Hok.
Qed.

Lemma pick_next_ok rq rq' pid :
  rq_ok rq → pick_next rq = Some (rq', pid) →
  rq_ok rq' ∧ entities rq' = entities rq ∧ is_Some (entities rq !! pid) ∧ is_queued rq pid ∧
  ∀ pid' p, in_queue rq' pid' p ↔ in_queue rq pid' p ∧ pid' ≠ pid.
Proof.
  intros Hok Hpick. pose proof (pick_next_scan rq (rqk_wf _ Hok)) as Hs.
  destruct (scan_queues (queues rq)) as [[p y]|]; [|congruence].
  destruct Hs as (q & rq2 & Hq & Hlt & Hpick' & Hwf' & Hqs & Hes). simplify_eq.
  assert (in_queue rq pid p) as Hpid by (exists (pid :: q); split; [done|set_solver]).
  assert (NoDup (pid :: q)) as Hnd by (eapply Forall_lookup_1; [apply (rq_nodup _ (rqk_wf _ Hok))|done]).
  assert (∀ pid' p', in_queue rq' pid' p' ↔ in_queue rq pid' p' ∧ pid' ≠ pid) as Hin.
  { intros pid' p'. unfold in_queue at 1. rewrite Hqs. destruct (decide (p' = p)) as [->|Hne].
    - rewrite list_lookup_insert_eq by (by eapply lookup_lt_Some). unfold in_queue. rewrite Hq, !exists_some_eq.
      apply NoDup_cons in Hnd as [Hni _]. set_solver.
    - rewrite list_lookup_insert_ne by done. split; [|naive_solver].
      intros Hq'. split; [done|]. intros ->. destruct (rqk_queued _ Hok pid p' Hq') as (e' & ? & ?).
      destruct (rqk_queued _ Hok pid p Hpid) as (e2 & ? & ?). simplify_eq. }
  destruct (rqk_queued _ Hok pid p Hpid) as (e & He & _).
  split_and!; [|done|by rewrite He|by exists p|done].
  split; [done| |rewrite Hes; apply Hok]. rewrite Hes. intros pid' p' [? _]%Hin. by apply Hok.
Qed.

(** ** All run queues *)
Lemma rq_at_lt k i rq : rq_at k i = Some rq → (i < length (k_rqs k))%nat.
Proof. unfold rq_at. destruct (k_rqs k !! i) eqn:E; [|done]. intros _. by eapply lookup_lt_Some. Qed.

Lemma rq_at_set k i rq j :
  (i < length (k_rqs k))%nat → rq_at (set_rq i rq k) j = if decide (j = i) then Some rq else rq_at k j.
Proof.
  intros Hi. unfold rq_at, set_rq. cbn [set_rqs k_rqs]. case_decide as E; [subst|].
  - by rewrite list_lookup_insert_eq.
  - by rewrite list_lookup_insert_ne.
Qed.

Lemma set_rq_wf k i rq' :
  kernel_wf k → (i < length (k_rqs k))%nat → rq_ok rq' →
  (∀ pid j rqj, is_Some (entities rq' !! pid) → j ≠ i → rq_at k j = Some rqj → entities rqj !! pid = None) →
  kernel_wf (set_rq i rq' k).
Proof.
  intros Hwf Hi Hok Hes. split.
  - cbn. rewrite length_insert. apply Hwf.
  - intros j rq. rewrite rq_at_set by done. case_decide; [by intros [= <-]|apply Hwf].
  - intros j1 j2 rq1 rq2 pid. rewrite !rq_at_set by done.
    repeat case_decide; subst; intros H1 H2 Hs1 Hs2; simplify_eq; try done.
    + specialize (Hes pid j2 rq2 Hs1). rewrite Hes in Hs2 by done. by destruct Hs2.
    + specialize (Hes pid j1 rq1 Hs2). rewrite Hes in Hs1 by done. by destruct Hs1.
    + by eapply (kwf_unique _ Hwf j1 j2).
Qed.

(** The new run queue has no entity the old one at that index had not. *)
Lemma set_rq_sub_wf k i rq rq' :
  kernel_wf k → rq_at k i = Some rq → rq_ok rq' →
  (∀ pid, is_Some (entities rq' !! pid) → is_Some (entities rq !! pid)) →
  kernel_wf (set_rq i rq' k).
Proof.
  intros Hwf Hi Hok Hsub. apply set_rq_wf; [done|by eapply rq_at_lt|done|].
  intros pid j rqj Hs Hne Hj. destruct (entities rqj !! pid) eqn:E; [|done].
  destruct Hne. by eapply (kwf_unique _ Hwf j i); eauto.
Qed.

Lemma find_rq_spec pid rqs :
  match find_rq pid rqs with
  | Some (i, rq, e) => rqs !! i = Some (Some rq) ∧ entities rq !! pid = Some e
  | None => ∀ i rq, rqs !! i = Some (Some rq) → entities rq !! pid = None
  end.
Proof.
  induction rqs as [|o rqs IH]; [done|]. cbn [find_rq]. destruct o as [rq|]; cbn [mbind option_bind].
  - unfold entity. destruct (entities rq !! pid) eqn:E; [done|].
    destruct (find_rq pid rqs) as [[[i rq'] e]|]; [done|]. intros [|i] rq' Hi; [by simplify_eq/=|by eapply IH].
  - destruct (find_rq pid rqs) as [[[i rq'] e]|]; [done|]. intros [|i] rq' Hi; [by simplify_eq/=|by eapply IH].
Qed.

Lemma find_rq_at pid k :
  match find_rq pid (k_rqs k) with
  | Some (i, rq, e) => rq_at k i = Some rq ∧ entities rq !! pid = Some e
  | None => ¬ has_entity k pid
  end.
Proof.
  pose proof (find_rq_spec pid (k_rqs k)) as H. destruct (find_rq pid (k_rqs k)) as [[[i rq] e]|].
  - destruct H as [Hi He]. unfold rq_at. by rewrite Hi.
  - intros (i & rq & Hi & [e He]). unfold rq_at in Hi. destruct (k_rqs k !! i) as [[rq'|]|] eqn:E; simplify_eq/=.
    rewrite (H i rq E) in He. done.
Qed.

(** The process table plays no part in the invariant. *)
Lemma kernel_wf_table k k' : kernel_wf k → k_rqs k' = k_rqs k → kernel_wf k'.
Proof. intros Hwf E. destruct Hwf as [Hl Hr Hu]. unfold rq_at in *. split; unfold rq_at; rewrite E; eauto. Qed.

Lemma update_proc_wf k pid f : kernel_wf k → kernel_wf (update_proc pid f k).
Proof. intros Hwf. by apply (kernel_wf_table _ _ Hwf). Qed.

Lemma k_queued_rqs k k' pid : k_rqs k' = k_rqs k → k_queued k' pid ↔ k_queued k pid.
Proof. intros E. unfold k_queued, rq_at. by rewrite E. Qed.

Lemma k_queued_set k i rq pid :
  (i < length (k_rqs k))%nat →
  k_queued (set_rq i rq k) pid ↔ is_queued rq pid ∨ ∃ j rqj, j ≠ i ∧ rq_at k j = Some rqj ∧ is_queued rqj pid.
Proof.
  intros Hi. unfold k_queued. setoid_rewrite rq_at_set; [|done]. split.
  - intros (j & rqj & Hj & Hq). case_decide; simplify_eq; eauto 6.
  - intros [Hq|(j & rqj & Hne & Hj & Hq)]; [exists i, rq; by rewrite decide_True|].
    exists j, rqj. by rewrite decide_False.
Qed.

(** Replacing one run queue by another, as to what is queued. *)
Lemma k_queued_update k i rq rq' pid :
  rq_at k i = Some rq → (is_queued rq' pid ↔ is_queued rq pid) →
  k_queued (set_rq i rq' k) pid ↔ k_queued k pid.
Proof.
  intros Hi Hq. rewrite k_queued_set by (by eapply rq_at_lt). split.
  - intros [Hq'|(j & rqj & ? & ? & ?)]; [|by exists j, rqj]. exists i, rq. tauto.
  - intros (j & rqj & Hj & Hqj). destruct (decide (j = i)) as [->|]; [|eauto 7]. left. simplify_eq. tauto.
Qed.

Lemma queued_has_entity k pid : kernel_wf k → k_queued k pid → has_entity k pid.
Proof.
  intros Hwf (i & rq & Hi & p & Hq). destruct (rqk_queued _ (kwf_rq _ Hwf _ _ Hi) _ _ Hq) as (e & He & _).
  exists i, rq. eauto.
Qed.

Lemma find_rq_eq k pid i rq e :
  kernel_wf k → rq_at k i = Some rq → entities rq !! pid = Some e →
  find_rq pid (k_rqs k) = Some (i, rq, e).
Proof.
  intros Hwf Hi He. pose proof (find_rq_at pid k) as H.
  destruct (find_rq pid (k_rqs k)) as [[[i' rq'] e']|].
  - destruct H as [Hi' He']. assert (i' = i) as -> by (eapply (kwf_unique _ Hwf); eauto). congruence.
  - destruct H. exists i, rq. eauto.
Qed.

(** One task leaves, or enters, the queues of run queue [i]. *)
Lemma k_queued_minus k i rq rq' pid :
  kernel_wf k → rq_at k i = Some rq → is_Some (entities rq !! pid) →
  (∀ q, is_queued rq' q ↔ is_queued rq q ∧ q ≠ pid) →
  ∀ q, k_queued (set_rq i rq' k) q ↔ k_queued k q ∧ q ≠ pid.
Proof.
  intros Hwf Hi Hs Hq q. rewrite k_queued_set by (by eapply rq_at_lt). rewrite Hq. split.
  - intros [[? ?]|(j & rqj & Hji & Hj & p & Hp)].
    + split; [|done]. by exists i, rq.
    + split; [by exists j, rqj; split; [|exists p]|]. intros ->.
      destruct (rqk_queued _ (kwf_rq _ Hwf _ _ Hj) _ _ Hp) as (e' & He' & _).
      apply Hji. eapply (kwf_unique _ Hwf); eauto.
  - intros [(j & rqj & Hj & Hp) Hne']. destruct (decide (j = i)) as [->|]; [simplify_eq; left; eauto|].
    right. by exists j, rqj.
Qed.

Lemma k_queued_plus k i rq rq' pid :
  rq_at k i = Some rq → (∀ q, is_queued rq' q ↔ is_queued rq q ∨ q = pid) →
  ∀ q, k_queued (set_rq i rq' k) q ↔ k_queued k q ∨ q = pid.
Proof.
  intros Hi Hq q. rewrite k_queued_set by (by eapply rq_at_lt). rewrite Hq. split.
  - intros [[?| ->]|(j & rqj & ? & ? & ?)]; [left; by exists i, rq|by right|left; by exists j, rqj].
  - intros [(j & rqj & Hj & Hp)| ->]; [|by left; right].
    destruct (decide (j = i)) as [->|]; [simplify_eq; by left; left|]. right. by exists j, rqj.
Qed.

(** ** Operations *)
Definition same_but_rqs (k k' : Kernel) : Prop :=
  k_table k' = k_table k ∧ k_need_resched k' = k_need_resched k.

Lemma enqueue_spec pid k :
  kernel_wf k →
  ∃ k', enqueue pid k = Some k' ∧ kernel_wf k' ∧ same_but_rqs k k' ∧
    (∀ q, k_queued k' q ↔ k_queued k q ∨ q = pid ∧ has_entity k pid).
Proof.
  intros Hwf. unfold enqueue. pose proof (find_rq_at pid k) as Hf.
  destruct (find_rq pid (k_rqs k)) as [[[i rq] e]|].
  - destruct Hf as [Hi He]. pose proof (kwf_rq _ Hwf _ _ Hi) as Hok.
    destruct (rq_enqueue_ok rq pid e Hok He) as (rq' & -> & Hok' & Hes & Hq). cbn [mbind option_bind].
    eexists. split; [done|]. split_and!; [|done|].
    + eapply set_rq_sub_wf; try done. intros q. by rewrite Hes.
    + intros q. rewrite (k_queued_plus k i rq rq' pid Hi) by (by eapply in_queue_plus).
      assert (has_entity k pid) by (exists i, rq; eauto). tauto.
  - eexists. split; [done|]. split_and!; [done|done|]. intros q. naive_solver.
Qed.

Lemma alter_entities_ok rq pid f :
  rq_ok rq → (∀ e, e_pid (f e) = e_pid e ∧ e_prio (f e) = e_prio e) → rq_ok (entity_mut rq pid f).
Proof.
  intros Hok Hf. apply set_entities_ok; [done| |].
  - intros q p Hq. destruct (rqk_queued _ Hok _ _ Hq) as (e & He & <-).
    destruct (decide (q = pid)) as [->|].
    + rewrite lookup_alter_eq, He. eexists. split; [done|]. by destruct (Hf e) as [_ ->].
    + rewrite lookup_alter_ne by done. eauto.
  - intros q e. destruct (decide (q = pid)) as [->|].
    + rewrite lookup_alter_eq. destruct (entities rq !! pid) as [e0|] eqn:E; [|done].
      intros [= <-]. destruct (Hf e0) as [-> ->]. by apply Hok.
    + rewrite lookup_alter_ne by done. apply Hok.
Qed.

Lemma is_Some_alter {A} (f : A → A) (m : gmap Z A) i j : is_Some (alter f i m !! j) ↔ is_Some (m !! j).
Proof. apply lookup_alter_is_Some. Qed.

Lemma entity_mut_wf k i rq pid f :
  kernel_wf k → rq_at k i = Some rq → (∀ e, e_pid (f e) = e_pid e ∧ e_prio (f e) = e_prio e) →
  kernel_wf (set_rq i (entity_mut rq pid f) k).
Proof.
  intros Hwf Hi Hf. eapply set_rq_sub_wf; [done|done| |].
  - apply alter_entities_ok; [by eapply kwf_rq|done].
  - intros q. cbn. by rewrite is_Some_alter.
Qed.

(** [set_priority]: dequeue at the old priority, enqueue at the new one. *)
Lemma set_priority_spec pid prio k :
  kernel_wf k → 0 ≤ prio < 140 →
  ∃ k', set_priority pid prio k = Some k' ∧ kernel_wf k' ∧ same_but_rqs k k' ∧
    (has_entity k pid → k_queued k' pid).
Proof.
  intros Hwf Hp. unfold set_priority. pose proof (find_rq_at pid k) as Hf.
  destruct (find_rq pid (k_rqs k)) as [[[i rq] e]|]; [|by eexists].
  destruct Hf as [Hi He]. pose proof (kwf_rq _ Hwf _ _ Hi) as Hok. cbn zeta.
  set (f := λ e : SchedEntity, _).
  destruct (rq_dequeue_ok rq pid e Hok He) as (rq2 & Hd & Hok2 & Hes2 & Hq2).
  assert (rq_dequeue (entity_mut rq pid f) pid (e_prio e) = Some (entity_mut rq2 pid f)) as Hd'.
  { unfold entity_mut. rewrite Hes2. unfold rq_dequeue in *. cbn [queues set_entities].
    destruct (queues rq !! Z.to_nat (e_prio e)); [|done]. cbn [mbind option_bind] in *. by simplify_eq. }
  rewrite Hd'. cbn [mbind option_bind].
  assert (rq_ok (entity_mut rq2 pid f)) as Hok2'.
  { apply set_entities_ok; [done| |].
    - intros q p Hq. pose proof (proj2 (proj1 (Hq2 q p) Hq)). rewrite lookup_alter_ne by done.
      by apply (rqk_queued _ Hok2).
    - intros q e'. destruct (decide (q = pid)) as [->|].
      + rewrite lookup_alter_eq, Hes2, He. intros [= <-]. cbn. destruct (rqk_entity _ Hok _ _ He) as (? & ? & _). done.
      + rewrite lookup_alter_ne by done. apply Hok2. }
  assert (entities (entity_mut rq2 pid f) !! pid = Some (f e)) as He2.
  { cbn. by rewrite lookup_alter_eq, Hes2, He. }
  destruct (rq_enqueue_ok _ pid (f e) Hok2' He2) as (rq3 & Henq & Hok3 & Hes3 & Hq3).
  change (e_prio (f e)) with prio in *. rewrite Henq. cbn [mbind option_bind]. eexists. split; [done|].
  split_and!; [|done|].
  - eapply set_rq_sub_wf; try done. intros q. rewrite Hes3. cbn. rewrite is_Some_alter. by rewrite Hes2.
  - intros _. rewrite k_queued_set by (by eapply rq_at_lt). left. eexists. apply Hq3. by right.
Qed.

Lemma add_entity_ok rq e :
  rq_ok rq → pid_ok (e_pid e) → 0 ≤ e_prio e < 140 → entities rq !! e_pid e = None → rq_ok (add_entity rq e).
Proof.
  intros Hok Hpid Hp Hn. apply set_entities_ok; [done| |].
  - intros q p Hq. destruct (rqk_queued _ Hok _ _ Hq) as (e' & He' & ?).
    rewrite lookup_insert_ne by congruence. eauto.
  - intros q e'. destruct (decide (q = e_pid e)) as [->|].
    + rewrite lookup_insert_eq. intros [= <-]. done.
    + rewrite lookup_insert_ne by done. apply Hok.
Qed.

(** Moving an entity into run queue [i] and enqueueing it there. *)
Lemma add_enqueue_spec k i rq e :
  kernel_wf k → rq_at k i = Some rq → pid_ok (e_pid e) → 0 ≤ e_prio e < 140 → ¬ has_entity k (e_pid e) →
  ∃ rq', rq_enqueue (add_entity rq e) (e_pid e) (e_prio e) = Some rq' ∧
    kernel_wf (set_rq i rq' k) ∧
    (∀ q, k_queued (set_rq i rq' k) q ↔ k_queued k q ∨ q = e_pid e).
Proof.
  intros Hwf Hi Hpid Hp Hn. pose proof (kwf_rq _ Hwf _ _ Hi) as Hok.
  assert (entities rq !! e_pid e = None) as Hnone.
  { destruct (entities rq !! e_pid e) eqn:E; [|done]. destruct Hn. exists i, rq. eauto. }
  pose proof (add_entity_ok rq e Hok Hpid Hp Hnone) as Hok'.
  destruct (rq_enqueue_ok (add_entity rq e) (e_pid e) e Hok') as (rq' & Henq & Hok2 & Hes & Hq);
    [by cbn; rewrite lookup_insert_eq|].
  exists rq'. split; [done|]. split.
  - apply set_rq_wf; [done|by eapply rq_at_lt|done|]. intros q j rqj. rewrite Hes. cbn. intros Hs Hne Hj.
    destruct (entities rqj !! q) eqn:E; [exfalso|done]. destruct (decide (q = e_pid e)) as [->|].
    + apply Hn. exists j, rqj. eauto.
    + rewrite lookup_insert_ne in Hs by done. apply Hne. eapply (kwf_unique _ Hwf); eauto.
  - apply (k_queued_plus k i rq rq' (e_pid e) Hi). by eapply in_queue_plus.
Qed.

Lemma add_task_spec ncpus pid prio policy k :
  kernel_wf k → pid_ok pid → 0 ≤ prio < 140 → ¬ has_entity k pid →
  ∃ k', add_task ncpus pid prio policy k = Some k' ∧ kernel_wf k' ∧ same_but_rqs k k' ∧
    (is_Some (rq_at k (select_cpu_for_new_task ncpus k)) → ∀ q, k_queued k' q ↔ k_queued k q ∨ q = pid).
Proof.
  intros Hwf Hpid Hp Hn. unfold add_task. destruct (rq_at k _) as [rq|] eqn:Hi.
  - destruct (add_enqueue_spec k _ rq (entity_new pid prio policy) Hwf Hi) as (rq' & Henq & Hwf' & Hq);
      [done..|]. cbn [entity_new e_pid e_prio] in *. rewrite Henq. eexists. split; [done|]. done.
  - eexists. split; [done|]. split_and!; [done|done|]. intros [? [=]].
Qed.

(** Taking an unqueued task's entity out of run queue [i]. *)
Lemma remove_entity_wf k i rq rq' pid :
  kernel_wf k → rq_at k i = Some rq → rq_ok rq' → entities rq' = entities rq → ¬ is_queued rq' pid →
  let k' := set_rq i (remove_entity rq' pid).1 k in
  kernel_wf k' ∧ (is_Some (entities rq !! pid) → ¬ has_entity k' pid) ∧
  (∀ q, is_queued (remove_entity rq' pid).1 q ↔ is_queued rq' q).
Proof.
  intros Hwf Hi Hok' Hes Hq. split_and!; [| |done].
  - eapply set_rq_sub_wf; [done|done| |].
    + apply set_entities_ok; [done| |].
      * intros q p Hqp. rewrite lookup_delete_ne; [by apply Hok'|]. intros ->. apply Hq. by exists p.
      * intros q e [_ He]%lookup_delete_Some. by apply Hok'.
    + intros q [e He]. cbn in He. apply lookup_delete_Some in He as [_ He]. rewrite <-Hes. eauto.
  - intros Hs (j & rqj & Hj & Hsj). rewrite rq_at_set in Hj by (by eapply rq_at_lt). case_decide as E.
    + simplify_eq. cbn in Hsj. rewrite lookup_delete_eq in Hsj. by destruct Hsj.
    + apply E. eapply (kwf_unique _ Hwf); eauto.
Qed.

Lemma remove_task_spec pid k :
  kernel_wf k →
  ∃ k', remove_task pid k = Some k' ∧ kernel_wf k' ∧ same_but_rqs k k' ∧ ¬ has_entity k' pid ∧
    (∀ q, k_queued k' q ↔ k_queued k q ∧ q ≠ pid).
Proof.
  intros Hwf. unfold remove_task. pose proof (find_rq_at pid k) as Hf.
  destruct (find_rq pid (k_rqs k)) as [[[i rq] e]|].
  - destruct Hf as [Hi He]. pose proof (kwf_rq _ Hwf _ _ Hi) as Hok.
    destruct (rq_dequeue_ok rq pid e Hok He) as (rq2 & Hd & Hok2 & Hes2 & Hq2).
    assert (rq_dequeue (remove_entity rq pid).1 pid (e_prio e) = Some (remove_entity rq2 pid).1) as Hd'.
    { cbn [remove_entity fst]. rewrite Hes2. unfold rq_dequeue in *. cbn [queues set_entities].
      destruct (queues rq !! Z.to_nat (e_prio e)); [|done]. cbn [mbind option_bind] in *. by simplify_eq. }
    rewrite Hd'. cbn [mbind option_bind].
    destruct (remove_entity_wf k i rq rq2 pid Hwf Hi Hok2 Hes2) as (Hwf' & Hne & Hqs).
    { intros [p Hp]. apply Hq2 in Hp. naive_solver. }
    eexists. split; [done|]. split_and!; [done|done|by apply Hne; rewrite He|].
    eapply (k_queued_minus k i rq); [done|done|by rewrite He|].
    intros q. rewrite Hqs. by apply in_queue_minus.
  - eexists. split; [done|]. split_and!; [done|done|done|].
    intros q. split; [|tauto]. intros Hq. split; [done|]. intros ->. by apply Hf, queued_has_entity.
Qed.

Lemma tick_wf cpu k : kernel_wf k → kernel_wf (tick cpu k) ∧ k_table (tick cpu k) = k_table k ∧
  ∀ q, k_queued (tick cpu k) q ↔ k_queued k q.
Proof.
  intros Hwf. unfold tick. destruct (rq_at k (cpu_index cpu)) as [rq|] eqn:Hi; [|done]. cbn zeta.
  set (rq1 := mkRq _ _ _ _ _ _ _). set (f := λ e : SchedEntity, _).
  pose proof (kwf_rq _ Hwf _ _ Hi) as Hok.
  assert (rq_ok rq1) as Hok1 by (destruct Hok as [[] ? ?]; split; [by split|done|done]).
  assert (kernel_wf (set_rq (cpu_index cpu) (entity_mut rq1 (current (k_table k)) f) k)) as Hwf1.
  { eapply set_rq_sub_wf; [done|done|by apply alter_entities_ok|].
    intros q. cbn. by rewrite is_Some_alter. }
  assert (∀ q, k_queued (set_rq (cpu_index cpu) (entity_mut rq1 (current (k_table k)) f) k) q ↔ k_queued k q) as Hq.
  { intros q. by eapply k_queued_update. }
  destruct (entity rq _) as [e|]; [|done]. destruct (_ <=? _); [|done].
  split; [by apply (kernel_wf_table _ _ Hwf1)|]. split; [done|]. intros q. rewrite <-Hq. by apply k_queued_rqs.
Qed.

Lemma busiest_from_spec my i rqs best ml :
  let r := busiest_from my i rqs best ml in r = (best, ml) ∨ r.1 ≠ my.
Proof.
  revert i best ml. induction rqs as [|o rqs IH]; intros i best ml; [by left|]. cbn [busiest_from].
  case_bool_decide as E; [apply IH|]. set (load := match o with Some _ => _ | None => _ end).
  destruct (ml <? load); [|apply IH]. destruct (IH (S i) i load) as [-> |]; by right.
Qed.

Lemma work_steal_spec my ncpus k :
  kernel_wf k →
  ∃ k' r, work_steal my ncpus k = Some (k', r) ∧ kernel_wf k' ∧ same_but_rqs k k' ∧
    match r with
    | None => k' = k
    | Some pid => k_queued k pid ∧ (is_Some (rq_at k my) → ∀ q, k_queued k' q ↔ k_queued k q)
    end.
Proof.
  intros Hwf. unfold work_steal. pose proof (busiest_from_spec my 0 (take (Z.to_nat (Z.min ncpus MAX_CPUS_SCHED)) (k_rqs k)) 0 0) as Hb.
  destruct (busiest_from _ _ _ _ _) as [b ml]. cbn zeta iota in *.
  destruct (Z.ltb_spec ml 2) as [Hlt|Hge]; [by eexists _, None|].
  destruct Hb as [[= -> ->]|Hb]; [lia|]. cbn [fst] in Hb.
  destruct (rq_at k b) as [rq|] eqn:Hi; cbn [mbind option_bind]; [|by eexists _, None].
  destruct (pick_next rq) as [[rq1 pid]|] eqn:Hpick; [|by eexists _, None].
  destruct (pick_next_ok rq rq1 pid (kwf_rq _ Hwf _ _ Hi) Hpick) as (Hok1 & Hes & [e He] & Hqp & Hq).
  assert (¬ is_queued rq1 pid) as Hnq by (intros [p Hp%Hq]; naive_solver).
  destruct (remove_entity_wf k b rq rq1 pid Hwf Hi Hok1 Hes Hnq) as (Hwf1 & Hne & Hqs).
  cbn [remove_entity fst] in *. rewrite Hes, He in *. set (rq2 := set_entities _ _) in *.
  specialize (Hne ltac:(by eauto)). rewrite rq_at_set by (by eapply rq_at_lt). rewrite decide_False by done.
  destruct (rqk_entity _ (kwf_rq _ Hwf _ _ Hi) _ _ He) as (Hpe & Hpid & Hp). subst pid.
  assert (k_queued k (e_pid e)) as Hkq by (exists b, rq; done).
  destruct (rq_at k my) as [rqm|] eqn:Hm.
  - destruct (add_enqueue_spec (set_rq b rq2 k) my rqm e Hwf1) as (rq' & -> & Hwf' & Hq'); try done.
    { rewrite rq_at_set by (by eapply rq_at_lt). by rewrite decide_False. }
    cbn [mbind option_bind]. eexists _, (Some _). split; [done|]. split_and!; [done|done|done|]. intros _ q.
    rewrite Hq'. rewrite k_queued_set by (by eapply rq_at_lt). rewrite Hqs. split.
    + intros [[[p Hp']|(j & rqj & ? & ? & ?)]| ->]; [|by exists j, rqj|done].
      exists b, rq. split; [done|]. exists p. by apply Hq.
    + intros (j & rqj & Hj & p & Hp'). destruct (decide (q = e_pid e)) as [->|]; [by right|left].
      destruct (decide (j = b)) as [->|]; [simplify_eq; left; exists p; by apply Hq|].
      right. exists j, rqj. split_and!; [done|done|by exists p].
  - eexists _, (Some _). split; [done|]. split_and!; [done|done|done|]. by intros [? [=]].
Qed.

Lemma switch_to_rqs from to k : k_rqs (switch_to from to k) = k_rqs k.
Proof. done. Qed.

Lemma schedule_core_wf cpu ncpus k :
  kernel_wf k → ∃ k' idle, schedule_core cpu ncpus k = Some (k', idle) ∧ kernel_wf k'.
Proof.
  intros Hwf. unfold schedule_core. destruct (k_need_resched k); [|eauto]. cbn [negb].
  set (k0 := set_need false k). assert (kernel_wf k0) as Hwf0 by (by apply (kernel_wf_table _ _ Hwf)).
  set (cur := current _). set (i := cpu_index cpu).
  assert (∃ k1, (if bool_decide (proc_state k0 cur = Some Running) then enqueue cur k0 else Some k0) = Some k1 ∧ kernel_wf k1)
    as (k1 & -> & Hwf1).
  { case_bool_decide; [|eauto]. destruct (enqueue_spec cur k0 Hwf0) as (k1 & ? & ? & _). eauto. }
  cbn [mbind option_bind]. set (reset := λ e : SchedEntity, _). set (k2 := match rq_at k1 i with Some _ => _ | None => _ end).
  assert (kernel_wf k2) as Hwf2.
  { unfold k2. destruct (rq_at k1 i) eqn:E; [|done]. by apply entity_mut_wf. }
  destruct (rq_at k2 i ≫= pick_next) as [[rq' next]|] eqn:Ep.
  - destruct (rq_at k2 i) as [rq|] eqn:Hi; [|done]. cbn [mbind option_bind] in Ep.
    destruct (pick_next_ok rq rq' next (kwf_rq _ Hwf2 _ _ Hi) Ep) as (Hok & Hes & _).
    assert (kernel_wf (set_rq i rq' k2)) as Hwf3.
    { eapply set_rq_sub_wf; [done|done|done|]. by rewrite Hes. }
    eexists _, _. split; [done|]. destruct (next =? cur); [done|]. by apply (kernel_wf_table _ _ Hwf3).
  - destruct (work_steal_spec i ncpus k2 Hwf2) as (k3 & [pid|] & -> & Hwf3 & _); eexists _, _; (split; [done|]).
    + by apply (kernel_wf_table _ _ Hwf3).
    + done.
Qed.

(** A task is picked when one is queued, and none with a smaller priority
    number. *)
Lemma pick_next_min rq q :
  rq_ok rq → is_queued rq q →
  ∃ rq' next en, pick_next rq = Some (rq', next) ∧ entities rq !! next = Some en ∧
    ∀ q' e', is_queued rq q' → entities rq !! q' = Some e' → e_prio en ≤ e_prio e'.
Proof.
  intros Hok [p (l & Hl & Hin)]. pose proof (pick_next_scan rq (rqk_wf _ Hok)) as Hp.
  pose proof (scan_queues_spec (queues rq)) as Hs. destruct (scan_queues (queues rq)) as [[pn next]|].
  - destruct Hp as (qn & rq' & Hqn & _ & Hpick & _). destruct Hs as [_ Hmin].
    destruct (rqk_queued _ Hok next pn) as (en & Hen & Hpn); [exists (next :: qn); split; [done|set_solver]|].
    exists rq', next, en. split_and!; [done|done|]. intros q' e' [p' (l' & Hl' & Hin')] He'.
    destruct (rqk_queued _ Hok q' p') as (e2 & ? & Hp'); [by exists l'|]. simplify_eq.
    destruct (rqk_entity _ Hok _ _ Hen) as (_ & _ & ?). destruct (rqk_entity _ Hok _ _ He') as (_ & _ & ?).
    destruct (decide (Z.to_nat (e_prio e') < Z.to_nat (e_prio en))%nat) as [Hlt|]; [|lia].
    rewrite (Hmin _ _ Hlt Hl') in Hin'. set_solver.
  - rewrite Forall_forall in Hs. rewrite (Hs l) in Hin by (by eapply list_elem_of_lookup_2). set_solver.
Qed.

Lemma proc_update k pid f q :
  proc (update_proc pid f k) q = if decide (q = pid) then f <$> proc k pid else proc k q.
Proof.
  unfold proc, update_proc. cbn [set_table k_table]. unfold with_process_mut. cbn [procs].
  case_decide; [subst; by rewrite lookup_alter_eq|by rewrite lookup_alter_ne].
Qed.

Lemma proc_state_update k pid f q :
  proc_state (update_proc pid f k) q = if decide (q = pid) then p_state ∘ f <$> proc k pid else proc_state k q.
Proof. unfold proc_state. rewrite proc_update. case_decide; [|done]. by rewrite <-option_fmap_compose. Qed.

Lemma proc_state_switch from to k q :
  proc_state (switch_to from to k) q =
    if decide (q = to) then (λ _, Running) <$> proc_state k q
    else if decide (q = from) then (λ s, if decide (s = Running) then Runnable else s) <$> proc_state k q
    else proc_state k q.
Proof.
  unfold switch_to, proc_state. change (proc (set_table ?t ?k) q) with (procs t !! q). cbn [procs].
  change (procs (k_table ?k) !! q) with (proc k q). rewrite !proc_update.
  destruct (decide (q = to)) as [->|].
  - case_decide as E; [subst|]; destruct (proc k _) as [p|]; done.
  - case_decide as E; [subst|done]. destruct (proc k from) as [p|]; [|done]. cbn. by case_decide.
Qed.

(** ** The operations together *)
Inductive Op :=
  | OpInitCpu (cpu : Z)
  | OpAdd (pid prio policy : Z)
  | OpRemove (pid : Z)
  | OpEnqueue (pid : Z)
  | OpSetPriority (pid prio : Z)
  | OpTick
  | OpSchedule
  | OpBlock (st : ProcessState)
  | OpResume (pid : Z)
  | OpSleep (until : Z)
  | OpWake (pid : Z).

(** An operation on processor [cpu] of [ncpus]; [OpBlock] and [OpSleep] are
    the parts of [block_current] and [sleep_current] before [schedule]. *)
Definition exec (cpu ncpus : Z) (o : Op) (k : Kernel) : option Kernel :=
  match o with
  | OpInitCpu c => Some (init_cpu c k)
  | OpAdd pid prio policy => add_task ncpus pid prio policy k
  | OpRemove pid => remove_task pid k
  | OpEnqueue pid => enqueue pid k
  | OpSetPriority pid prio => set_priority pid prio k
  | OpTick => Some (tick cpu k)
  | OpSchedule => fst <$> schedule_core cpu ncpus k
  | OpBlock st => Some (block_prepare st k)
  | OpResume pid => Some (block_resume pid k)
  | OpSleep t => Some (sleep_prepare t k)
  | OpWake pid => wake_process pid k
  end.

(** What a caller must respect: the priority is a valid one, and a task is
    added only while it has no entity. *)
Definition op_pre (o : Op) (k : Kernel) : Prop :=
  match o with
  | OpInitCpu c => 0 ≤ c
  | OpAdd pid prio _ => pid_ok pid ∧ 0 ≤ prio < 140 ∧ ¬ has_entity k pid
  | OpSetPriority _ prio => 0 ≤ prio < 140
  | _ => True
  end.

(** A run of the kernel: operations on any processors, each within its
    precondition. *)
Inductive kernel_run (ncpus : Z) : Kernel → list (Z * Op) → Kernel → Prop :=
  | run_nil k : kernel_run ncpus k [] k
  | run_cons k k1 k2 cpu o os :
      op_pre o k → exec cpu ncpus o k = Some k1 → kernel_run ncpus k1 os k2 →
      kernel_run ncpus k ((cpu, o) :: os) k2.

Lemma wake_process_ok pid k :
  kernel_wf k →
  ∃ k', wake_process pid k = Some k' ∧ kernel_wf k' ∧
    (proc_state k pid = Some Sleeping →
      proc_state k' pid = Some Runnable ∧ k_need_resched k' = true ∧
      (∀ q, k_queued k' q ↔ k_queued k q ∨ q = pid ∧ has_entity k pid)) ∧
    (proc_state k pid ≠ Some Sleeping → k' = k) ∧
    (∀ q, q ≠ pid → proc k' q = proc k q).
Proof.
  intros Hwf. unfold wake_process. case_bool_decide as Hs; [|by eexists].
  set (k1 := update_proc pid (set_state Runnable) k).
  assert (kernel_wf k1) as Hwf1 by (by apply (kernel_wf_table _ _ Hwf)).
  destruct (enqueue_spec pid k1 Hwf1) as (k2 & -> & Hwf2 & [Ht _] & Hq). cbn [mbind option_bind].
  eexists. split; [done|].
  assert (∀ q, proc (set_need true k2) q = proc k1 q) as Hpr by (intros q; unfold proc; cbn [set_need k_table]; by rewrite Ht).
  split_and!; [by apply (kernel_wf_table _ _ Hwf2)| |done|].
  - intros _. split_and!; [|done|].
    + unfold proc_state in *. rewrite Hpr. unfold k1. rewrite proc_update, decide_True by done.
      destruct (proc k pid); [done|by cbn in Hs].
    + intros q. rewrite (k_queued_rqs k2) by done. rewrite Hq. rewrite (k_queued_rqs k) by done. done.
  - intros q Hne. rewrite Hpr. unfold k1. by rewrite proc_update, decide_False.
Qed.

(** Waking changes neither the entities nor the current process. *)
Lemma set_rq_entities k i rq rq' q :
  rq_at k i = Some rq → entities rq' = entities rq → has_entity (set_rq i rq' k) q ↔ has_entity k q.
Proof.
  intros Hi He. unfold has_entity. setoid_rewrite rq_at_set; [|by eapply rq_at_lt]. split.
  - intros (j & rqj & Hj & Hs). case_decide; simplify_eq; [exists i, rq; by rewrite <-He|by exists j, rqj].
  - intros (j & rqj & Hj & Hs). destruct (decide (j = i)) as [->|Hne].
    + exists i, rq'. rewrite decide_True by done. simplify_eq. by rewrite He.
    + exists j, rqj. by rewrite decide_False.
Qed.

Lemma wake_process_keeps pid k k' :
  wake_process pid k = Some k' →
  current (k_table k') = current (k_table k) ∧ ∀ q, has_entity k' q ↔ has_entity k q.
Proof.
  unfold wake_process. case_bool_decide; [|by intros [= <-]].
  set (k1 := update_proc pid (set_state Runnable) k). unfold enqueue. pose proof (find_rq_at pid k1) as Hf.
  destruct (find_rq pid (k_rqs k1)) as [[[i rq] e]|]; [|by cbn; intros [= <-]]. destruct Hf as [Hi _].
  destruct (rq_enqueue rq pid (e_prio e)) as [rq'|] eqn:E; [|done]. cbn [mbind option_bind]. intros [= <-].
  assert (entities rq' = entities rq) as He.
  { unfold rq_enqueue in E. destruct (queues rq !! _); [|done]. cbn in E. simplify_eq. by case_bool_decide. }
  split; [done|]. intros q. by apply (set_rq_entities k1 i rq rq').
Qed.

Lemma exec_wf cpu ncpus o k :
  kernel_wf k → op_pre o k → ∃ k', exec cpu ncpus o k = Some k' ∧ kernel_wf k'.
Proof.
  intros Hwf Hpre. destruct o as [c|pid prio pol|pid|pid|pid prio| | |st|pid|t|pid]; cbn [exec op_pre] in *.
  - eexists. split; [done|]. unfold init_cpu. destruct (Z.ltb_spec c MAX_CPUS_SCHED); [|done].
    apply set_rq_wf; [done|rewrite (kwf_len _ Hwf); lia|apply rq_ok_new|].
    intros pid j rqj [e He]. cbn in He. by rewrite lookup_empty in He.
  - destruct Hpre as (? & ? & ?). destruct (add_task_spec ncpus pid prio pol k) as (k' & ? & ? & _); eauto.
  - destruct (remove_task_spec pid k Hwf) as (k' & ? & ? & _); eauto.
  - destruct (enqueue_spec pid k Hwf) as (k' & ? & ? & _); eauto.
  - destruct (set_priority_spec pid prio k Hwf Hpre) as (k' & ? & ? & _); eauto.
  - eexists. split; [done|]. by apply tick_wf.
  - destruct (schedule_core_wf cpu ncpus k Hwf) as (k' & idle & -> & ?). eexists. by split.
  - eexists. split; [done|]. by apply (kernel_wf_table _ _ Hwf).
  - eexists. split; [done|]. by apply (kernel_wf_table _ _ Hwf).
  - eexists. split; [done|]. by apply (kernel_wf_table _ _ Hwf).
  - destruct (wake_process_ok pid k Hwf) as (k' & ? & ? & _); eauto.
Qed.

(** The state the scheduler boots in. *)
Definition kernel_boot (t : Table) : Kernel :=
  sched_init (mkKernel t (replicate (Z.to_nat MAX_CPUS_SCHED) None) false).

Lemma kernel_boot_wf t : kernel_wf (kernel_boot t).
Proof.
  unfold kernel_boot, sched_init.
  assert (kernel_wf (mkKernel t (replicate (Z.to_nat MAX_CPUS_SCHED) None) false)) as Hwf.
  { assert (∀ i, rq_at (mkKernel t (replicate (Z.to_nat MAX_CPUS_SCHED) None) false) i = None) as Hn.
    { intros i. unfold rq_at. cbn [k_rqs]. destruct (replicate _ None !! i) as [o|] eqn:E; [|done].
      by apply lookup_replicate in E as [-> _]. }
    split; [by cbn [k_rqs]; rewrite length_replicate|intros i rq; by rewrite Hn|intros i j rq rq'; by rewrite Hn]. }
  apply set_rq_wf; [done|cbn [k_rqs]; rewrite length_replicate; unfold MAX_CPUS_SCHED; lia|apply rq_ok_new|].
  intros pid j rqj [e He]. cbn in He. by rewrite lookup_empty in He.
Qed.

Lemma kernel_run_ok t ncpus os k : kernel_run ncpus (kernel_boot t) os k → kernel_wf k.
Proof.
  intros Hrun. pose proof (kernel_boot_wf t) as Hwf. remember (kernel_boot t) as k0. clear Heqk0.
  induction Hrun as [|k0 k1 k2 cpu o os Hpre Hex _ IH]; [done|]. apply IH.
  destruct (exec_wf cpu ncpus o k0 Hwf Hpre) as (k' & ? & ?). congruence.
Qed.

(** [kernel_run], executable. *)
Definition op_preb (o : Op) (k : Kernel) : bool :=
  match o with
  | OpInitCpu c => 0 <=? c
  | OpAdd pid prio _ =>
      (0 <=? pid) && (pid <=? MAX_PIDS) && (0 <=? prio) && (prio <? 140) &&
      match find_rq pid (k_rqs k) with None => true | Some _ => false end
  | OpSetPriority _ prio => (0 <=? prio) && (prio <? 140)
  | _ => true
  end.

Fixpoint exec_list (ncpus : Z) (os : list (Z * Op)) (k : Kernel) : option Kernel :=
  match os with
  | [] => Some k
  | (cpu, o) :: os => if op_preb o k then exec cpu ncpus o k ≫= exec_list ncpus os else None
  end.

Lemma op_preb_ok o k : op_preb o k = true → op_pre o k.
Proof.
  destruct o; cbn; try done; try lia. intros H. repeat (apply andb_prop in H as [H ?]).
  split_and!; unfold pid_ok; try lia. pose proof (find_rq_at pid k). by destruct (find_rq pid (k_rqs k)).
Qed.

Lemma exec_list_run ncpus os k k' : exec_list ncpus os k = Some k' → kernel_run ncpus k os k'.
Proof.
  revert k. induction os as [|[cpu o] os IH]; intros k; cbn [exec_list]; [intros [= <-]; constructor|].
  destruct (op_preb o k) eqn:Hp; [|done]. destruct (exec cpu ncpus o k) as [k1|] eqn:He; [|done].
  cbn [mbind option_bind]. intros H%IH. econstructor; [by apply op_preb_ok|done|done].
Qed.

Lemma pick_next_set_entities es rq :
  pick_next (set_entities es rq) = prod_map (set_entities es) id <$> pick_next rq.
Proof.
  unfold pick_next. cbn [bitmap queues set_entities]. destruct (bitmap_find_first _) as [p|]; [|done].
  cbn [mbind option_bind]. destruct (queues rq !! _) as [[|y q]|]; done.
Qed.

(** ** What holds in every run

    A task may be added that already has an entity: SIGCONT does so for a
    process that SIGSTOP has marked as stopped.  What survives is the
    consistency of each run queue with itself. *)
Record rq_sound (rq : RunQueue) : Prop := {
  rqs_wf : rq_wf rq;
  rqs_pids pid p : in_queue rq pid p → pid_ok pid;
  rqs_entity pid e : entities rq !! pid = Some e → e_pid e = pid ∧ pid_ok pid ∧ 0 ≤ e_prio e < 140;
}.
Definition kernel_sound (k : Kernel) : Prop := ∀ i rq, rq_at k i = Some rq → rq_sound rq.

(** What the callers pass: a process identifier and a valid priority. *)
Definition op_args (o : Op) : Prop :=
  match o with
  | OpAdd pid prio _ => pid_ok pid ∧ 0 ≤ prio < 140
  | OpSetPriority _ prio => 0 ≤ prio < 140
  | _ => True
  end.
Inductive any_run (ncpus : Z) : Kernel → list (Z * Op) → Kernel → Prop :=
  | any_nil k : any_run ncpus k [] k
  | any_cons k k1 k2 cpu o os : op_args o → exec cpu ncpus o k = Some k1 → any_run ncpus k1 os k2 → any_run ncpus k ((cpu, o) :: os) k2.

Lemma sum_list_bound (qs : list (list Z)) n : Forall (λ q, (length q ≤ n)%nat) qs → (sum_list_with length qs ≤ n * length qs)%nat.
Proof. intros H. induction H as [|q qs Hq Hqs IH]; cbn; lia. Qed.
Lemma rq_sound_count rq : rq_sound rq → 0 ≤ nr_running rq < 2 ^ 32 - 1.
Proof.
  intros [Hwf Hp _]. rewrite (rq_count _ Hwf). split; [lia|]. unfold queued.
  assert (Forall (λ q, (length q ≤ Z.to_nat (MAX_PIDS + 1))%nat) (queues rq)) as Hq.
  { apply Forall_lookup. intros i q Hi. assert (Z.of_nat (length q) ≤ MAX_PIDS + 1); [|lia]. apply NoDup_range_length; [done|by eapply Forall_lookup_1; [apply (rq_nodup _ Hwf)|]|].
    apply Forall_forall. intros y Hy. destruct (Hp y i) as [? ?]; [by exists q|]. lia. }
  apply sum_list_bound in Hq. rewrite (rq_queues_len _ Hwf) in Hq. unfold NUM_PRIO_LEVELS, MAX_PIDS in Hq. lia.
Qed.
Lemma sound_enqueue rq pid prio : rq_sound rq → pid_ok pid → 0 ≤ prio < 140 → ∃ rq', rq_enqueue rq pid prio = Some rq' ∧ rq_sound rq' ∧ entities rq' = entities rq.
Proof.
  intros Hs Hpid Hp. destruct (rq_enqueue_spec rq pid prio (rqs_wf _ Hs) Hp) as (rq' & q & Hq & He & Hwf & Hqs & Hes); [apply rq_sound_count; done|].
  exists rq'. split_and!; [done| |done]. split; [done| |rewrite Hes; apply Hs]. intros y p (l & Hl & Hy). rewrite Hqs in Hl. case_bool_decide; [apply (rqs_pids _ Hs y p); by exists l|].
  destruct (decide (p = Z.to_nat prio)) as [->|Hne]; [|rewrite list_lookup_insert_ne in Hl by done; apply (rqs_pids _ Hs y p); by exists l].
  rewrite list_lookup_insert_eq in Hl by (by eapply lookup_lt_Some). injection Hl as <-. apply elem_of_app in Hy as [Hy|Hy]; [apply (rqs_pids _ Hs y (Z.to_nat prio)); by exists q|]. by apply list_elem_of_singleton in Hy as ->.
Qed.
Lemma sound_dequeue rq pid prio : rq_sound rq → 0 ≤ prio < 140 → ∃ rq', rq_dequeue rq pid prio = Some rq' ∧ rq_sound rq' ∧ entities rq' = entities rq.
Proof.
  intros Hs Hp. destruct (rq_dequeue_spec rq pid prio (rqs_wf _ Hs) Hp) as (rq' & q & Hq & He & Hwf & Hqs & Hes).
  exists rq'. split_and!; [done| |done]. split; [done| |rewrite Hes; apply Hs]. intros y p (l & Hl & Hy). rewrite Hqs in Hl.
  destruct (decide (p = Z.to_nat prio)) as [->|Hne]; [|rewrite list_lookup_insert_ne in Hl by done; apply (rqs_pids _ Hs y p); by exists l].
  rewrite list_lookup_insert_eq in Hl by (by eapply lookup_lt_Some). injection Hl as <-. apply list_elem_of_filter in Hy as [_ Hy]. apply (rqs_pids _ Hs y (Z.to_nat prio)). by exists q.
Qed.
Lemma sound_pick rq rq' pid : rq_sound rq → pick_next rq = Some (rq', pid) → rq_sound rq' ∧ pid_ok pid ∧ entities rq' = entities rq.
Proof.
  intros Hs Hpick. pose proof (pick_next_scan rq (rqs_wf _ Hs)) as H. destruct (scan_queues (queues rq)) as [[p y]|]; [|congruence]. destruct H as (q & rq2 & Hq & _ & Hpick' & Hwf & Hqs & Hes). simplify_eq.
  assert (∀ z, z ∈ pid :: q → pid_ok z) as Hall by (intros z Hz; apply (rqs_pids _ Hs z p); by exists (pid :: q)). split_and!; [|apply Hall; left|done]. split; [done| |rewrite Hes; apply Hs].
  intros z p' (l & Hl & Hz). rewrite Hqs in Hl. destruct (decide (p' = p)) as [->|Hne]; [|rewrite list_lookup_insert_ne in Hl by done; apply (rqs_pids _ Hs z p'); by exists l].
  rewrite list_lookup_insert_eq in Hl by (by eapply lookup_lt_Some). injection Hl as <-. apply Hall. by right.
Qed.
Lemma sound_entities rq es : rq_sound rq → (∀ pid e, es !! pid = Some e → e_pid e = pid ∧ pid_ok pid ∧ 0 ≤ e_prio e < 140) → rq_sound (set_entities es rq).
Proof. intros [[] Hp _] He. split; [by split|exact Hp|exact He]. Qed.
Lemma sound_mut rq pid f : rq_sound rq → (∀ e, e_pid (f e) = e_pid e ∧ (0 ≤ e_prio e < 140 → 0 ≤ e_prio (f e) < 140)) → rq_sound (entity_mut rq pid f).
Proof.
  intros Hs Hf. apply sound_entities; [done|]. intros q e He. destruct (decide (q = pid)) as [->|Hne]; [|rewrite lookup_alter_ne in He by done; by apply Hs].
  rewrite lookup_alter_eq in He. destruct (entities rq !! pid) as [e0|] eqn:E; [|done]. injection He as <-. destruct (rqs_entity _ Hs _ _ E) as (? & ? & ?). destruct (Hf e0) as [-> Hp]. auto.
Qed.
Lemma sound_add rq e : rq_sound rq → pid_ok (e_pid e) → 0 ≤ e_prio e < 140 → rq_sound (add_entity rq e).
Proof.
  intros Hs Hpid Hp. apply sound_entities; [done|]. intros q e' He. apply lookup_insert_Some in He as [[<- <-]|[_ He]]; [done|]. by apply Hs.
Qed.
Lemma sound_remove rq pid : rq_sound rq → rq_sound (remove_entity rq pid).1.
Proof. intros Hs. apply sound_entities; [done|]. intros q e [_ He]%lookup_delete_Some. by apply Hs. Qed.
Lemma set_rq_sound i rq k : kernel_sound k → rq_sound rq → kernel_sound (set_rq i rq k).
Proof.
  intros Hk Hrq j r. unfold rq_at, set_rq. cbn [set_rqs k_rqs]. intros Hj. destruct (decide (i = j)) as [->|Hne].
  - destruct (decide (j < length (k_rqs k))%nat); [rewrite list_lookup_insert_eq in Hj by done; by simplify_eq/=|]. rewrite list_insert_ge in Hj by lia. by apply (Hk j).
  - rewrite list_lookup_insert_ne in Hj by done. by apply (Hk j).
Qed.
Lemma kernel_sound_rqs k k' : kernel_sound k → k_rqs k' = k_rqs k → kernel_sound k'.
Proof. intros Hk E i rq. unfold rq_at. rewrite E. apply Hk. Qed.
Lemma enqueue_sound pid k : kernel_sound k → ∃ k', enqueue pid k = Some k' ∧ kernel_sound k'.
Proof.
  intros Hk. unfold enqueue. pose proof (find_rq_at pid k) as Hf. destruct (find_rq pid (k_rqs k)) as [[[i rq] e]|]; [|eauto]. destruct Hf as [Hi He]. destruct (rqs_entity _ (Hk i rq Hi) _ _ He) as (_ & Hpid & Hp).
  destruct (sound_enqueue rq pid (e_prio e) (Hk i rq Hi) Hpid Hp) as (rq' & -> & Hs & _). eexists. split; [done|]. by apply set_rq_sound.
Qed.
Lemma work_steal_sound my ncpus k : kernel_sound k → ∃ k' r, work_steal my ncpus k = Some (k', r) ∧ kernel_sound k'.
Proof.
  intros Hk. unfold work_steal. destruct (busiest_from _ _ _ _ _) as [b ml]. destruct (ml <? 2); [eauto|]. destruct (rq_at k b) as [rq|] eqn:Hb; cbn [mbind option_bind]; [|eauto].
  destruct (pick_next rq) as [[rq1 pid]|] eqn:Ep; [|eauto]. destruct (sound_pick rq rq1 pid (Hk b rq Hb) Ep) as (Hs1 & Hpid & Hes). cbn [remove_entity].
  pose proof (set_rq_sound b _ k Hk (sound_remove rq1 pid Hs1)) as Hk1. cbn [remove_entity fst] in Hk1. set (k1 := set_rq b _ k) in *.
  destruct (entities rq1 !! pid) as [e|] eqn:He; [|eauto]. destruct (rqs_entity _ Hs1 _ _ He) as (Hep & _ & Hp). destruct (rq_at k1 my) as [rqm|] eqn:Hm; [|eauto].
  destruct (sound_enqueue (add_entity rqm e) pid (e_prio e)) as (rq' & -> & Hs & _); [apply sound_add; [by apply (Hk1 my)|by rewrite Hep|done]|done|done|].
  cbn [mbind option_bind]. eexists _, _. split; [done|]. by apply set_rq_sound.
Qed.
Lemma schedule_core_sound cpu ncpus k : kernel_sound k → ∃ r, schedule_core cpu ncpus k = Some r ∧ kernel_sound r.1.
Proof.
  intros Hk. unfold schedule_core. destruct (k_need_resched k); [|eauto]. cbn [negb]. set (k0 := set_need false k). assert (kernel_sound k0) as Hk0 by (by apply (kernel_sound_rqs k)). set (cur := current _). set (i := cpu_index cpu).
  assert (∃ k1, (if bool_decide (proc_state k0 cur = Some Running) then enqueue cur k0 else Some k0) = Some k1 ∧ kernel_sound k1) as (k1 & -> & Hk1) by (case_bool_decide; [by apply enqueue_sound|eauto]).
  cbn [mbind option_bind]. set (reset := λ e : SchedEntity, _). set (k2 := match rq_at k1 i with Some _ => _ | None => _ end).
  assert (kernel_sound k2) as Hk2 by (unfold k2; destruct (rq_at k1 i) eqn:E; [|done]; apply set_rq_sound; [done|]; apply sound_mut; [by apply (Hk1 i)|done]).
  destruct (rq_at k2 i ≫= pick_next) as [[rq' next]|] eqn:Ep.
  - destruct (rq_at k2 i) as [rq|] eqn:Hi; [|done]. cbn [mbind option_bind] in Ep. destruct (sound_pick rq rq' next (Hk2 i rq Hi) Ep) as (Hs & _). pose proof (set_rq_sound i rq' k2 Hk2 Hs) as Hk3.
    eexists. split; [done|]. cbn [fst]. destruct (next =? cur); [done|]. by apply (kernel_sound_rqs _ _ Hk3).
  - destruct (work_steal_sound i ncpus k2 Hk2) as (k3 & [pid|] & -> & Hk3); (eexists; split; [done|]); cbn [fst]; [by apply (kernel_sound_rqs _ _ Hk3)|done].
Qed.
Lemma set_priority_sound pid prio k : kernel_sound k → 0 ≤ prio < 140 → ∃ k', set_priority pid prio k = Some k' ∧ kernel_sound k'.
Proof.
  intros Hk Hp. unfold set_priority. pose proof (find_rq_at pid k) as Hf. destruct (find_rq pid (k_rqs k)) as [[[i rq] e]|]; [|eauto]. destruct Hf as [Hi He]. destruct (rqs_entity _ (Hk i rq Hi) _ _ He) as (_ & Hpid & Hpe). cbn zeta. set (f := λ e : SchedEntity, _).
  destruct (sound_dequeue (entity_mut rq pid f) pid (e_prio e)) as (rq2 & -> & Hs2 & _); [apply sound_mut; [by apply (Hk i)|done]|done|]. cbn [mbind option_bind].
  destruct (sound_enqueue rq2 pid prio Hs2 Hpid Hp) as (rq3 & -> & Hs3 & _). eexists. split; [done|]. by apply set_rq_sound.
Qed.
Lemma exec_sound cpu ncpus o k : kernel_sound k → op_args o → ∃ k', exec cpu ncpus o k = Some k' ∧ kernel_sound k'.
Proof.
  intros Hk Ha. destruct o as [c|pid prio pol|pid|pid|pid prio| | |st|pid|t|pid]; cbn [exec op_args] in *.
  - eexists. split; [done|]. unfold init_cpu. destruct (_ <? _); [|done]. apply set_rq_sound; [done|]. destruct (rq_ok_new c) as [Hw Hq He]. split; [done| |done]. intros y p Hy. destruct (Hq y p Hy) as (e & Hl & _). by apply He in Hl as (_ & ? & _).
  - destruct Ha as [Hpid Hp]. unfold add_task. destruct (rq_at k _) as [rq|] eqn:Hi; [|eauto]. destruct (sound_enqueue (add_entity rq (entity_new pid prio pol)) pid prio) as (rq' & -> & Hs & _); [by apply sound_add; [apply (Hk _ rq Hi)|..]|done|done|].
    eexists. split; [done|]. by apply set_rq_sound.
  - unfold remove_task. pose proof (find_rq_at pid k) as Hf. destruct (find_rq pid (k_rqs k)) as [[[i rq] e]|]; [|eauto]. destruct Hf as [Hi He]. destruct (rqs_entity _ (Hk i rq Hi) _ _ He) as (_ & _ & Hp).
    destruct (sound_dequeue (remove_entity rq pid).1 pid (e_prio e) (sound_remove rq pid (Hk i rq Hi)) Hp) as (rq' & -> & Hs & _). eexists. split; [done|]. by apply set_rq_sound.
  - by apply enqueue_sound.
  - by apply set_priority_sound.
  - eexists. split; [done|]. unfold tick. destruct (rq_at k (cpu_index cpu)) as [rq|] eqn:Hi; [|done]. cbn zeta. set (rq1 := mkRq _ _ _ _ _ _ _). set (f := λ e : SchedEntity, _).
    assert (rq_sound rq1) as H1 by (destruct (Hk _ rq Hi) as [[] Hq He]; split; [by split|exact Hq|exact He]). assert (kernel_sound (set_rq (cpu_index cpu) (entity_mut rq1 (current (k_table k)) f) k)) as H2 by (apply set_rq_sound; [done|]; by apply sound_mut).
    destruct (entity rq _); [|done]. destruct (_ <=? _); [|done]. by apply (kernel_sound_rqs _ _ H2).
  - destruct (schedule_core_sound cpu ncpus k Hk) as (r & -> & Hs). eexists. split; [done|done].
  - eexists. split; [done|]. by apply (kernel_sound_rqs k).
  - eexists. split; [done|]. by apply (kernel_sound_rqs k).
  - eexists. split; [done|]. by apply (kernel_sound_rqs k).
  - unfold wake_process. case_bool_decide; [|eauto]. destruct (enqueue_sound pid (update_proc pid (set_state Runnable) k)) as (k' & -> & Hs); [by apply (kernel_sound_rqs k)|]. eexists. split; [done|]. by apply (kernel_sound_rqs _ _ Hs).
Qed.
Lemma kernel_boot_sound t : kernel_sound (kernel_boot t).
Proof. intros i rq Hi. destruct (kwf_rq _ (kernel_boot_wf t) i rq Hi) as [Hw Hq He]. split; [done| |done]. intros y p Hy. destruct (Hq y p Hy) as (e & Hl & _). by apply He in Hl as (_ & ? & _). Qed.
Lemma any_run_sound t ncpus os k : any_run ncpus (kernel_boot t) os k → kernel_sound k.
Proof.
  intros Hrun. pose proof (kernel_boot_sound t) as Hk. remember (kernel_boot t) as k0. clear Heqk0. induction Hrun as [|k0 k1 k2 cpu o os Ha Hex _ IH]; [done|]. apply IH.
  destruct (exec_sound cpu ncpus o k0 Hk Ha) as (k' & He & Hs). rewrite He in Hex. by injection Hex as <-.
Qed.

(** ** Theorems *)

(** C5. After any sequence of scheduler operations from boot, on any number of
    processors and with valid identifiers and priorities, tasks added again while they still
    have an entity included (as SIGCONT after SIGSTOP does): in every run queue
    the bitmap has a bit exactly for the non-empty queues, no queue holds a
    task twice, the counter is the number of queued tasks and below
    2^32 - 1, and every entity has a valid priority; and no operation panics.
    If moreover no task was added while it had an entity, every queued task has
    an entity with its queue's priority and no task has entities on two
    processors ([readded_task_stays_queued] shows that this fails
    otherwise). *)
Theorem kernel_run_wf t ncpus os k :
  any_run ncpus (kernel_boot t) os k →
  (∀ i rq, rq_at k i = Some rq → rq_wf rq ∧ nr_running rq < 2 ^ 32 - 1 ∧ ∀ pid e, entities rq !! pid = Some e → e_pid e = pid ∧ 0 ≤ e_prio e < 140) ∧
  (∀ cpu o, op_args o → is_Some (exec cpu ncpus o k)) ∧
  (kernel_run ncpus (kernel_boot t) os k → kernel_wf k).
Proof.
  intros Hrun. pose proof (any_run_sound _ _ _ _ Hrun) as Hk. split_and!.
  - intros i rq Hi. pose proof (Hk i rq Hi) as Hs. split_and!; [apply Hs|by apply rq_sound_count|]. intros pid e He. by destruct (rqs_entity _ Hs _ _ He) as (? & _ & ?).
  - intros cpu o Ha. destruct (exec_sound cpu ncpus o k Hk Ha) as (k' & -> & _). eauto.
  - apply kernel_run_ok.
Qed.

(** [wake_process] makes a sleeping process runnable, queues it if the
    scheduler still has an entity for it, and asks for a reschedule; on a
    process in any other state it does nothing at all.  No other process is
    affected. *)
Theorem wake_process_spec pid k :
  kernel_wf k →
  ∃ k', wake_process pid k = Some k' ∧ kernel_wf k' ∧
    (proc_state k pid = Some Sleeping →
      proc_state k' pid = Some Runnable ∧ k_need_resched k' = true ∧
      (∀ q, k_queued k' q ↔ k_queued k q ∨ q = pid ∧ has_entity k pid)) ∧
    (proc_state k pid ≠ Some Sleeping → k' = k) ∧
    (∀ q, q ≠ pid → proc k' q = proc k q).
Proof. apply wake_process_ok. Qed.

(** [remove_task] leaves no trace of the process on any processor, and the
    other tasks as they were. *)
Theorem remove_task_complete pid k :
  kernel_wf k →
  ∃ k', remove_task pid k = Some k' ∧ kernel_wf k' ∧ ¬ has_entity k' pid ∧
    (∀ q, k_queued k' q ↔ k_queued k q ∧ q ≠ pid).
Proof. intros Hwf. destruct (remove_task_spec pid k Hwf) as (k' & ? & ? & _ & ? & ?). eauto. Qed.

(** What [schedule] does when the current task can go on running. *)
Lemma schedule_core_running cpu ncpus k rq e :
  let cur := current (k_table k) in
  kernel_wf k → k_need_resched k = true → rq_at k (cpu_index cpu) = Some rq →
  proc_state k cur = Some Running → entities rq !! cur = Some e →
  ∃ k3 next en, schedule_core cpu ncpus k = Some (if next =? cur then k3 else switch_to cur next k3, false) ∧
    k_table k3 = k_table k ∧ entities rq !! next = Some en ∧ (next = cur ∨ is_queued rq next) ∧
    (∀ q e', q = cur ∨ is_queued rq q → entities rq !! q = Some e' → e_prio en ≤ e_prio e') ∧
    (∀ q, k_queued k3 q ↔ (k_queued k q ∨ q = cur) ∧ q ≠ next).
Proof.
  intros cur Hwf Hneed Hi Hrun He. unfold schedule_core. rewrite Hneed. cbn [negb].
  change (current (k_table (set_need false k))) with cur.
  set (i := cpu_index cpu) in *. pose proof (kwf_rq _ Hwf _ _ Hi) as Hok.
  change (proc_state (set_need false k) cur) with (proc_state k cur). rewrite bool_decide_eq_true_2 by done.
  destruct (rq_enqueue_ok rq cur e Hok He) as (rq1 & Henq & Hok1 & Hes1 & Hq1).
  assert (enqueue cur (set_need false k) = Some (set_rq i rq1 (set_need false k))) as ->.
  { unfold enqueue. cbn [set_need k_rqs]. rewrite (find_rq_eq k cur i rq e) by done. by rewrite Henq. }
  assert (i < length (k_rqs k))%nat as Hlt by (by eapply rq_at_lt).
  cbn [mbind option_bind]. rewrite rq_at_set by done. rewrite decide_True by done.
  set (k1 := set_rq i rq1 _). set (f := λ e : SchedEntity, _).
  assert (kernel_wf k1) as Hwf1.
  { apply (set_rq_sub_wf _ i rq); [by apply (kernel_wf_table _ _ Hwf)|done|done|]. by rewrite Hes1. }
  assert (rq_at k1 i = Some rq1) as Hi1 by (unfold k1; rewrite rq_at_set by done; by rewrite decide_True).
  pose proof (entity_mut_wf k1 i rq1 cur f Hwf1 Hi1 ltac:(done)) as Hwf2. set (k2 := set_rq i _ k1) in *.
  assert (rq_at k2 i = Some (entity_mut rq1 cur f)) as Hi2.
  { unfold k2. rewrite rq_at_set by (by eapply rq_at_lt). by rewrite decide_True. }
  rewrite Hi2. cbn [mbind option_bind]. pose proof (in_queue_plus _ _ _ _ Hq1) as Hq1'.
  destruct (pick_next_min (entity_mut rq1 cur f) cur) as (rq3 & next & en & Hpick & Hen & Hmin);
    [by eapply kwf_rq|by apply Hq1'; right|]. rewrite Hpick.
  destruct (pick_next_ok _ rq3 next (kwf_rq _ Hwf2 _ _ Hi2) Hpick) as (Hok3 & Hes3 & Hsn & Hqn & Hq3).
  change (is_queued (entity_mut rq1 cur f)) with (is_queued rq1) in *.
  assert (∀ q e', entities rq !! q = Some e' → ∃ e2, entities (entity_mut rq1 cur f) !! q = Some e2 ∧ e_prio e2 = e_prio e') as Hp.
  { intros q e' Hq. cbn. rewrite Hes1. destruct (decide (q = cur)) as [->|].
    - rewrite lookup_alter_eq, Hq. by eexists.
    - rewrite lookup_alter_ne by done. eauto. }
  assert (is_Some (entities rq !! next)) as [en' Hen'].
  { cbn in Hsn. rewrite is_Some_alter, Hes1 in Hsn. done. }
  destruct (Hp next en' Hen') as (e2 & He2 & Hpe). rewrite Hen in He2. simplify_eq.
  exists (set_rq i rq3 k2), next, en'. split_and!; try done.
  - apply Hq1' in Hqn. tauto.
  - intros q e' Hq He'. destruct (Hp q e' He') as (e3 & He3 & Hp3). rewrite <-Hpe, <-Hp3.
    eapply Hmin; [|done]. apply Hq1'. tauto.
  - intros q. rewrite (k_queued_minus k2 i (entity_mut rq1 cur f) rq3 next Hwf2 Hi2 Hsn)
      by (by apply in_queue_minus).
    unfold k2. rewrite (k_queued_update k1 i rq1) by done. unfold k1. rewrite (k_queued_plus _ i rq rq1 cur) by done.
    by rewrite (k_queued_rqs k).
Qed.

(** C18. Preemption: when the running task's processor reschedules, the task
    that runs next is queued on that processor or the running task itself, no
    contender has a better priority, it is in no queue any more, and a task
    that loses the processor is runnable and queued again. *)
Theorem schedule_picks_best cpu ncpus k rq e :
  kernel_wf k → k_need_resched k = true → rq_at k (cpu_index cpu) = Some rq →
  proc_state k (current (k_table k)) = Some Running →
  entities rq !! current (k_table k) = Some e →
  ∃ k' en, schedule_core cpu ncpus k = Some (k', false) ∧
    let cur := current (k_table k) in let next := current (k_table k') in
    (next = cur ∨ is_queued rq next) ∧ entities rq !! next = Some en ∧
    (∀ q e', q = cur ∨ is_queued rq q → entities rq !! q = Some e' → e_prio en ≤ e_prio e') ∧
    ¬ k_queued k' next ∧
    (next ≠ cur → k_queued k' cur ∧ proc_state k' cur = Some Runnable) ∧
    (is_Some (proc k next) → proc_state k' next = Some Running).
Proof.
  intros Hwf Hneed Hi Hrun He.
  destruct (schedule_core_running cpu ncpus k rq e) as (k3 & next & en & Hs & Ht & Hen & Hnext & Hmin & Hq);
    [done..|]. cbn zeta in *. set (cur := current (k_table k)) in *. rewrite Hs. eexists _, en. split; [done|].
  assert (∀ q, proc_state k3 q = proc_state k q) as Hst by (intros q; unfold proc_state, proc; by rewrite Ht).
  destruct (Z.eqb_spec next cur) as [Heq|Hne].
  - rewrite Ht. fold cur. rewrite Heq in *. split_and!; [by left|done|done|naive_solver|done|].
    intros _. by rewrite Hst.
  - change (current (k_table (switch_to cur next k3))) with next.
    split_and!; [done|done|done| | |].
    + rewrite (k_queued_rqs k3) by done. naive_solver.
    + intros _. rewrite (k_queued_rqs k3) by done. split; [apply Hq; naive_solver|].
      rewrite proc_state_switch, decide_False, decide_True by done. by rewrite Hst, Hrun.
    + intros [pr Hpr]. rewrite proc_state_switch, decide_True by done. rewrite Hst. unfold proc_state. by rewrite Hpr.
Qed.

(** A stolen task runs while it is still queued: when a processor whose
    queue is empty takes its next task from another processor, that task is
    current and at the same time in a run queue, from which a second
    processor or the next [schedule] can pick it.  ([block_current] states
    that the running task is not in a run queue.) *)
Theorem stolen_task_stays_queued cpu ncpus k rq k' :
  kernel_wf k → k_need_resched k = true → rq_at k (cpu_index cpu) = Some rq → pick_next rq = None →
  proc_state k (current (k_table k)) ≠ Some Running →
  schedule_core cpu ncpus k = Some (k', false) → current (k_table k') ≠ current (k_table k) →
  k_queued k' (current (k_table k')).
Proof.
  intros Hwf Hneed Hi Hnone Hst Hs Hcur. unfold schedule_core in Hs. rewrite Hneed in Hs. cbn [negb] in Hs.
  change (proc_state (set_need false k)) with (proc_state k) in Hs.
  change (current (k_table (set_need false k))) with (current (k_table k)) in Hs.
  rewrite bool_decide_eq_false_2 in Hs by done. cbn [mbind option_bind] in Hs.
  change (rq_at (set_need false k)) with (rq_at k) in Hs. rewrite Hi in Hs.
  set (f := λ e : SchedEntity, _) in Hs. set (k2 := set_rq (cpu_index cpu) _ _) in Hs.
  assert (kernel_wf k2) as Hwf2 by (apply entity_mut_wf; [by apply (kernel_wf_table _ _ Hwf)|done|done]).
  assert (rq_at k2 (cpu_index cpu) = Some (entity_mut rq (current (k_table k)) f)) as Hi2.
  { unfold k2. rewrite rq_at_set by (by eapply (rq_at_lt k)). by rewrite decide_True. }
  rewrite Hi2 in Hs. cbn [mbind option_bind] in Hs. unfold entity_mut in Hs.
  rewrite pick_next_set_entities, Hnone in Hs. cbn [fmap option_fmap option_map] in Hs.
  destruct (work_steal_spec (cpu_index cpu) ncpus k2 Hwf2) as (k3 & r & Hw & _ & [Ht _] & Hr). rewrite Hw in Hs.
  destruct r as [pid|]; simplify_eq.
  change (current (k_table (switch_to _ pid k3))) with pid. rewrite (k_queued_rqs k3) by done.
  destruct Hr as [Hq Hall]. apply Hall; [|done]. by rewrite Hi2.
Qed.

(** [set_priority] queues its task whatever state it is in: a sleeping
    task, which is in no queue, is runnable for [pick_next] after its
    priority is changed, without having been woken. *)
Theorem set_priority_queues pid prio k :
  kernel_wf k → 0 ≤ prio < 140 → has_entity k pid →
  ∃ k', set_priority pid prio k = Some k' ∧ kernel_wf k' ∧ k_queued k' pid ∧
    proc_state k' pid = proc_state k pid.
Proof.
  intros Hwf Hp He. destruct (set_priority_spec pid prio k Hwf Hp) as (k' & ? & ? & [Ht _] & Hq).
  exists k'. split_and!; [done|done|by apply Hq|]. unfold proc_state, proc. by rewrite Ht.
Qed.

(** The idle loop of [schedule] ends: if some interrupt makes a task
    runnable on the processor or asks for a reschedule, [schedule] returns
    with the reschedule flag set, after as many rounds as interrupts. *)
Theorem schedule_idle_wakes irq cpu ncpus k k1 n :
  schedule_core cpu ncpus k = Some (k1, true) →
  (k_need_resched (Nat.iter n irq k1) = true ∨
   ∃ rq, rq_at (Nat.iter n irq k1) (cpu_index cpu) = Some rq ∧ 0 < nr_running rq) →
  ∃ k2, schedule irq (S n) cpu ncpus k = Some k2 ∧ k_need_resched k2 = true.
Proof.
  intros Hs Hn. unfold schedule. rewrite Hs. clear Hs.
  enough (∃ k2, loop_nat (idle_round irq (cpu_index cpu)) (S n) k1 = inr k2 ∧ k_need_resched k2 = true)
    as (k2 & -> & ?) by eauto.
  revert k1 Hn. induction n as [|n IH]; intros k1 Hn; rewrite loop_nat_S; unfold idle_round at 1.
  - assert (match rq_at k1 (cpu_index cpu) with Some rq => 0 <? nr_running rq | None => false end || k_need_resched k1 = true) as ->.
    { destruct Hn as [Hn|(rq & Hn & Hr)]; cbn in Hn; [rewrite Hn; apply orb_true_r|]. rewrite Hn.
      apply orb_true_iff. left. by apply Z.ltb_lt. }
    by eexists.
  - destruct (_ || _); [by eexists|]. apply IH. by rewrite Nat.iter_succ_r in Hn.
Qed.

(** ** Witnesses *)
Definition demo_ktable : Table :=
  mkTable {[2 := demo_process 2 1 Running; 3 := demo_process 3 1 Runnable; 4 := demo_process 4 1 Runnable;
            5 := demo_process 5 1 Sleeping]} 6 2.

(** Two processors; task 2 runs on the first, where 4 is queued with a better
    priority, and 3 and 5 are on the second. *)
Definition demo_ops : list (Z * Op) :=
  [(0, OpInitCpu 1); (0, OpAdd 2 120 0); (0, OpAdd 3 120 0); (0, OpAdd 4 110 0); (0, OpAdd 5 130 0);
   (0, OpTick); (0, OpTick)].
Definition demo_kernel : Kernel := default (kernel_boot demo_ktable) (exec_list 2 demo_ops (kernel_boot demo_ktable)).

(** Task 2 alone on the first processor, and blocked. *)
Definition demo_blocked_ops : list (Z * Op) :=
  demo_ops ++ [(0, OpRemove 4); (0, OpSchedule); (0, OpBlock Sleeping)].
Definition demo_blocked : Kernel :=
  default (kernel_boot demo_ktable) (exec_list 2 demo_blocked_ops (kernel_boot demo_ktable)).

Lemma demo_kernel_run : kernel_run 2 (kernel_boot demo_ktable) demo_ops demo_kernel.
Proof. apply exec_list_run. vm_compute. reflexivity. Qed.
Lemma demo_blocked_run : kernel_run 2 (kernel_boot demo_ktable) demo_blocked_ops demo_blocked.
Proof. apply exec_list_run. vm_compute. reflexivity. Qed.

Lemma demo_kernel_wf : kernel_wf demo_kernel.
Proof. exact (kernel_run_ok _ _ _ _ demo_kernel_run). Qed.
Lemma demo_blocked_wf : kernel_wf demo_blocked.
Proof. exact (kernel_run_ok _ _ _ _ demo_blocked_run). Qed.

Lemma kernel_run_any ncpus k os k' : kernel_run ncpus k os k' → any_run ncpus k os k'.
Proof. intros H. induction H as [|k k1 k2 cpu o os Hp He _ IH]; [constructor|]. econstructor; [|exact He|exact IH]. destruct o; cbn in *; naive_solver. Qed.
Lemma kernel_run_wf_witness : is_Some (exec 0 2 (OpWake 5) demo_kernel) ∧ kernel_wf demo_kernel.
Proof.
  destruct (kernel_run_wf demo_ktable 2 demo_ops demo_kernel) as (_ & H1 & H2); [apply kernel_run_any, demo_kernel_run|]. split; [apply H1; done|apply H2, demo_kernel_run].
Defined.

(** A task with a changed priority that is added again stays in its old queue
    when it is removed: the scheduler can pick a process that is gone. *)
Example readded_task_stays_queued :
  match (k1 ← set_priority 4 100 demo_kernel; k2 ← add_task 2 4 PRIO_NORMAL SCHED_NORMAL k1; remove_task 4 k2) with
  | Some k => (λ rq, bool_decide ((queues rq !! 100%nat) = Some [4])) <$> rq_at k 0 = Some true ∧ (λ rq, entities rq !! 4) <$> rq_at k 0 = Some None
  | None => False
  end.
Proof. vm_compute. done. Qed.

Lemma wake_process_spec_witness :
  ∃ k', wake_process 5 demo_kernel = Some k' ∧ proc_state k' 5 = Some Runnable ∧ k_need_resched k' = true.
Proof.
  destruct (wake_process_spec 5 demo_kernel demo_kernel_wf) as (k' & ? & _ & H & _).
  destruct H as (? & ? & _); [vm_compute; reflexivity|]. eauto.
Defined.

Lemma remove_task_complete_witness : ∃ k', remove_task 4 demo_kernel = Some k' ∧ ¬ has_entity k' 4.
Proof. destruct (remove_task_complete 4 demo_kernel demo_kernel_wf) as (k' & ? & _ & ? & _). eauto. Defined.

Lemma schedule_picks_best_witness :
  ∃ rq k' en, rq_at demo_kernel 0 = Some rq ∧ schedule_core 0 2 demo_kernel = Some (k', false) ∧
    entities rq !! current (k_table k') = Some en ∧ e_prio en ≤ 120.
Proof.
  destruct (rq_at demo_kernel 0) as [rq|] eqn:Hi; [|by vm_compute in Hi].
  assert (entities rq !! 2 = Some (mkEntity 2 120 120 0 1652 2000 2000 0)) as He.
  { vm_compute in Hi. injection Hi as <-. vm_compute. reflexivity. }
  assert (proc_state demo_kernel 2 = Some Running) as Hst by (vm_compute; reflexivity).
  assert (current (k_table demo_kernel) = 2) as Hc by (vm_compute; reflexivity).
  destruct (schedule_picks_best 0 2 demo_kernel rq (mkEntity 2 120 120 0 1652 2000 2000 0))
    as (k' & en & Hs & _ & Hen & Hmin & _); [apply demo_kernel_wf|vm_compute; reflexivity|done|by rewrite Hc..|].
  exists rq, k', en. split_and!; [done|done|done|].
  apply (Hmin 2 (mkEntity 2 120 120 0 1652 2000 2000 0)); [by left|done].
Defined.

Definition demo_stolen : Kernel := default demo_blocked (fst <$> schedule_core 0 2 demo_blocked).
Lemma stolen_task_stays_queued_witness : k_queued demo_stolen (current (k_table demo_stolen)).
Proof.
  destruct (rq_at demo_blocked 0) as [rq|] eqn:Hi; [|by vm_compute in Hi].
  apply (stolen_task_stays_queued 0 2 demo_blocked rq); [apply demo_blocked_wf|vm_compute; reflexivity|done| |by vm_compute|vm_compute; reflexivity|by vm_compute].
  vm_compute in Hi. injection Hi as <-. vm_compute. reflexivity.
Defined.

Lemma set_priority_queues_witness :
  ∃ k', set_priority 2 100 demo_blocked = Some k' ∧ k_queued k' 2 ∧ proc_state k' 2 = Some Sleeping.
Proof.
  destruct (set_priority_queues 2 100 demo_blocked) as (k' & ? & _ & ? & Hs); [apply demo_blocked_wf|done| |].
  - destruct (rq_at demo_blocked 0) as [rq|] eqn:Hi; [|by vm_compute in Hi].
    exists 0%nat, rq. split; [done|]. vm_compute in Hi. injection Hi as <-. vm_compute. eauto.
  - exists k'. split_and!; [done|done|]. rewrite Hs. vm_compute. reflexivity.
Defined.

(** One processor whose only task has blocked; the interrupt wakes it. *)
Definition demo_idle_ops : list (Z * Op) :=
  [(0, OpAdd 2 120 0); (0, OpTick); (0, OpTick); (0, OpSchedule); (0, OpBlock Sleeping)].
Definition demo_idle : Kernel :=
  default (kernel_boot demo_ktable) (exec_list 1 demo_idle_ops (kernel_boot demo_ktable)).
Definition demo_irq (k : Kernel) : Kernel := default k (wake_process 2 k).

Lemma schedule_idle_wakes_witness :
  ∃ k2, schedule demo_irq 2 0 1 demo_idle = Some k2 ∧ k_need_resched k2 = true.
Proof.
  destruct (schedule_core 0 1 demo_idle) as [[k1 b]|] eqn:Hs; [|by vm_compute in Hs].
  apply (schedule_idle_wakes demo_irq 0 1 demo_idle k1 1).
  - rewrite Hs. do 2 f_equal. vm_compute in Hs. by injection Hs.
  - left. vm_compute in Hs. injection Hs as <- <-. vm_compute. reflexivity.
Defined.
