(* ===== verification/SchedIface.v ===== *)
(** * What blocking code needs of the scheduler

    The interface between the scheduler (Kernel) and the code that sleeps on
    it and wakes others: pipes (Pipe), semaphores and message queues (Ipc),
    the terminal (Tty).  Their theorems are proved against [Scheduler] and
    [SchedulerLaws]; KernelIface gives the kernel's own instance. *)
From S2P Require Import Prelude.

Class Scheduler (K : Type) := {
  sched_current : K → Z;                (* process::current_pid *)
  sched_asleep : K → Z → bool;          (* is the process in state Sleeping? *)
  sched_wake : Z → K → K;               (* sched::wake_process *)
  sched_block : K → K;                  (* sched::block_current(Sleeping) *)
  sched_sigpipe : Z → K → K;            (* signal::send_signal(pid, SIGPIPE) *)
}.

(** What the clients rely on: waking ends the sleep of that process and of no
    other. *)
Class SchedulerLaws (K : Type) `{Scheduler K} := {
  sched_wake_asleep k p q :
    sched_asleep (sched_wake p k) q = (sched_asleep k q && negb (bool_decide (q = p)));
}.

(** Blocking and SIGPIPE put no process to sleep but the caller that blocks. *)
Class BlockLaws (K : Type) `{Scheduler K} := {
  sched_block_asleep k q : sched_asleep (sched_block k) q = true → sched_asleep k q = true ∨ q = sched_current k;
  sched_sigpipe_asleep p k q : sched_asleep (sched_sigpipe p k) q = true → sched_asleep k q = true;
}.

(** [for pid in pids { wake_process(pid) }]. *)
Definition wake_all {K} `{Scheduler K} (pids : list Z) (k : K) : K := foldl (λ k pid, sched_wake pid k) k pids.

Lemma wake_all_asleep {K} `{SchedulerLaws K} pids (k : K) q :
  sched_asleep (wake_all pids k) q = (sched_asleep k q && negb (bool_decide (q ∈ pids))).
Proof.
  revert k. induction pids as [|p pids IH]; intros k; cbn.
  - by rewrite andb_true_r.
  - unfold wake_all in IH. rewrite IH, sched_wake_asleep, <- andb_assoc. f_equal.
    repeat case_bool_decide; set_solver.
Qed.

(** The smallest scheduler with the law, for concrete runs: the set of the
    processes that sleep, of which process 1 is the current one. *)
#[export] Instance demo_scheduler : Scheduler (gset Z) := {
  sched_current _ := 1;
  sched_asleep k q := bool_decide (q ∈ k);
  sched_wake p k := k ∖ {[p]};
  sched_block k := k ∪ {[1]};
  sched_sigpipe _ k := k;
}.
#[export] Instance demo_scheduler_laws : SchedulerLaws (gset Z).
Proof. split. intros k p q. cbn. repeat case_bool_decide; set_solver. Qed.
#[export] Instance demo_block_laws : BlockLaws (gset Z).
Proof. split; [intros k q; cbn; repeat case_bool_decide; set_solver|done]. Qed.
