(* ===== verification/Pipe.v ===== *)
(** * Pipes

    Models kernel/src/ipc/pipe.rs: the ring buffer [PipeBuf], the wait queue
    [PIPE_WAITERS] and the blocking [pipe_read] / [pipe_write] on top of the
    scheduler, which they see through the interface [Scheduler].  A pipe is
    named by the key its allocation has in the source ([pipe_key]).

    [contents] abstracts the ring buffer to the bytes it holds, oldest first;
    the theorems say that reads and writes are those of a bounded FIFO.  The
    last part lets processes take turns in these operations on one processor. *)
From S2P Require Import Prelude SchedIface.

(** ** Ring buffer *)
Definition EAGAIN : Z := 11.
Definition EPIPE : Z := 32.
Definition PIPE_CAPACITY : Z := 65536.

Record PipeBuf := mkPipe {
  buf : list Z;
  read_pos : Z;
  write_pos : Z;
  len : Z;
  write_closed : bool;
  read_closed : bool;
  readers : Z;
  writers : Z;
}.

Definition pipe_new : PipeBuf :=
  mkPipe (replicate (Z.to_nat PIPE_CAPACITY) 0) 0 0 0 false false 1 1.

Definition readable (p : PipeBuf) : bool := (0 <? len p) || write_closed p.
Definition writable (p : PipeBuf) : bool := (len p <? PIPE_CAPACITY) && negb (read_closed p).

(** The copy loops: the bytes taken and the position reached; the buffer and
    the position reached. *)
Fixpoint copy_out (n : nat) (b : list Z) (pos : Z) : list Z * Z :=
  match n with
  | O => ([], pos)
  | S n =>
      let '(bytes, pos') := copy_out n b ((pos + 1) mod PIPE_CAPACITY) in
      (default 0 (b !! Z.to_nat pos) :: bytes, pos')
  end.

Fixpoint copy_in (data : list Z) (b : list Z) (pos : Z) : list Z * Z :=
  match data with
  | [] => (b, pos)
  | d :: data => copy_in data (<[Z.to_nat pos := d]> b) ((pos + 1) mod PIPE_CAPACITY)
  end.

(** [try_read] into a buffer of [count] bytes; the value of [Ok] is the bytes
    read, whose number the source returns. *)
Definition try_read (p : PipeBuf) (count : Z) : PipeBuf * result Z (list Z) :=
  if len p =? 0 then (p, if write_closed p then Ok [] else Err EAGAIN)
  else
    let n := Z.min count (len p) in
    let '(bytes, pos) := copy_out (Z.to_nat n) (buf p) (read_pos p) in
    (mkPipe (buf p) pos (write_pos p) (len p - n) (write_closed p) (read_closed p) (readers p) (writers p),
     Ok bytes).

Definition try_write (p : PipeBuf) (data : list Z) : PipeBuf * result Z Z :=
  if read_closed p then (p, Err EPIPE)
  else
    let space := PIPE_CAPACITY - len p in
    if space =? 0 then (p, Err EAGAIN)
    else
      let n := Z.min (Z.of_nat (length data)) space in
      let '(b, pos) := copy_in (take (Z.to_nat n) data) (buf p) (write_pos p) in
      (mkPipe b (read_pos p) pos (len p + n) (write_closed p) (read_closed p) (readers p) (writers p),
       Ok n).

Definition close_write (p : PipeBuf) : PipeBuf :=
  let w := if 0 <? writers p then writers p - 1 else writers p in
  mkPipe (buf p) (read_pos p) (write_pos p) (len p)
    (if w =? 0 then true else write_closed p) (read_closed p) (readers p) w.

Definition close_read (p : PipeBuf) : PipeBuf :=
  let r := if 0 <? readers p then readers p - 1 else readers p in
  mkPipe (buf p) (read_pos p) (write_pos p) (len p)
    (write_closed p) (if r =? 0 then true else read_closed p) r (writers p).

Definition dup_write (p : PipeBuf) : PipeBuf :=
  mkPipe (buf p) (read_pos p) (write_pos p) (len p) (write_closed p) (read_closed p)
    (readers p) (sat_add 64 (writers p) 1).

Definition dup_read (p : PipeBuf) : PipeBuf :=
  mkPipe (buf p) (read_pos p) (write_pos p) (len p) (write_closed p) (read_closed p)
    (sat_add 64 (readers p) 1) (writers p).

(** ** Wait queue and blocking operations *)
Section Blocking.
Context {K : Type} `{Scheduler K}.

(** The pipes by key, the wait queue (readers, writers) by key, and the rest
    of the kernel. *)
Record World := mkWorld {
  w_pipes : gmap Z PipeBuf;
  w_waiters : gmap Z (list Z * list Z);
  w_kernel : K;
}.

Definition waiters_of (w : World) (key : Z) : list Z * list Z := default ([], []) (w_waiters w !! key).

Definition register_reader_waiter (key pid : Z) (w : World) : World :=
  let '(rs, ws) := waiters_of w key in
  mkWorld (w_pipes w) (<[key := (rs ++ [pid], ws)]> (w_waiters w)) (w_kernel w).

Definition register_writer_waiter (key pid : Z) (w : World) : World :=
  let '(rs, ws) := waiters_of w key in
  mkWorld (w_pipes w) (<[key := (rs, ws ++ [pid])]> (w_waiters w)) (w_kernel w).

Definition wake_readers (key : Z) (w : World) : World :=
  match w_waiters w !! key with
  | Some (rs, ws) => mkWorld (w_pipes w) (<[key := ([], ws)]> (w_waiters w)) (wake_all rs (w_kernel w))
  | None => w
  end.

Definition wake_writers (key : Z) (w : World) : World :=
  match w_waiters w !! key with
  | Some (rs, ws) => mkWorld (w_pipes w) (<[key := (rs, [])]> (w_waiters w)) (wake_all ws (w_kernel w))
  | None => w
  end.

Definition cleanup_waiters (key : Z) (w : World) : World :=
  mkWorld (w_pipes w) (delete key (w_waiters w)) (w_kernel w).

(** [entry.0.retain(|&p| p != pid)] when there is an entry. *)
Definition unregister_reader (key pid : Z) (w : World) : World :=
  mkWorld (w_pipes w) (alter (λ e, (filter (λ q, q ≠ pid) e.1, e.2)) key (w_waiters w)) (w_kernel w).

Definition set_pipe (key : Z) (p : PipeBuf) (w : World) : World :=
  mkWorld (<[key := p]> (w_pipes w)) (w_waiters w) (w_kernel w).
Definition set_kernel (k : K) (w : World) : World := mkWorld (w_pipes w) (w_waiters w) k.
Definition the_pipe (key : Z) (w : World) : PipeBuf := default pipe_new (w_pipes w !! key).

(** What happens to the world while the caller is blocked, seen when it
    resumes. *)
Variable blocked : World → World.

(** One round of [pipe_read]; [inr] is its return. *)
Definition pipe_read_round (key : Z) (count : Z) (nonblock : bool) (w : World)
    : World + (World * result Z (list Z)) :=
  let pid := sched_current (w_kernel w) in
  let w1 := register_reader_waiter key pid w in
  let '(p, r) := try_read (the_pipe key w1) count in
  let w2 := set_pipe key p w1 in
  match r with
  | Ok bytes =>
      let w3 := unregister_reader key pid w2 in
      inr (if (0 <? length bytes)%nat then wake_writers key w3 else w3, Ok bytes)
  | Err e =>
      if e =? EAGAIN then
        if nonblock then inr (unregister_reader key pid w2, Err EAGAIN)
        else inl (blocked (set_kernel (sched_block (w_kernel w2)) w2))
      else inr (w2, Err e)
  end.

(** [pipe_read], cut after [fuel] rounds. *)
Definition pipe_read (fuel : nat) (key : Z) (count : Z) (nonblock : bool) (w : World)
    : World + (World * result Z (list Z)) :=
  loop_nat (pipe_read_round key count nonblock) fuel w.

(** One round of [pipe_write]; the state carries the bytes written so far. *)
Definition pipe_write_round (key : Z) (data : list Z) (nonblock : bool) (s : World * Z)
    : (World * Z) + (World * result Z Z) :=
  let '(w, written) := s in
  if Z.of_nat (length data) <=? written then inr (w, Ok written)
  else
    let '(p, r) := try_write (the_pipe key w) (drop (Z.to_nat written) data) in
    let w1 := set_pipe key p w in
    match r with
    | Ok n => inl (wake_readers key w1, written + n)
    | Err e =>
        if e =? EPIPE then
          let w2 := set_kernel (sched_sigpipe (sched_current (w_kernel w1)) (w_kernel w1)) w1 in
          inr (w2, if 0 <? written then Ok written else Err EPIPE)
        else if e =? EAGAIN then
          if nonblock then inr (w1, if 0 <? written then Ok written else Err EAGAIN)
          else
            let w2 := register_writer_waiter key (sched_current (w_kernel w1)) w1 in
            inl (blocked (set_kernel (sched_block (w_kernel w2)) w2), written)
        else inr (w1, Err e)
    end.

Definition pipe_write (fuel : nat) (key : Z) (data : list Z) (nonblock : bool) (w : World)
    : (World * Z) + (World * result Z Z) :=
  loop_nat (pipe_write_round key data nonblock) fuel (w, 0).

Definition pipe_close_write (key : Z) (w : World) : World :=
  let p := close_write (the_pipe key w) in
  let w1 := wake_readers key (set_pipe key p w) in
  if write_closed p && read_closed p then cleanup_waiters key w1 else w1.

Definition pipe_close_read (key : Z) (w : World) : World :=
  let p := close_read (the_pipe key w) in
  let w1 := wake_writers key (set_pipe key p w) in
  if write_closed p && read_closed p then cleanup_waiters key w1 else w1.
End Blocking.
Arguments World K : clear implicits.

(** ** The FIFO a pipe implements *)

(** The byte [i] places after position [pos] of the ring. *)
Definition ring (b : list Z) (pos i : Z) : Z := default 0 (b !! Z.to_nat ((pos + i) mod PIPE_CAPACITY)).

Definition contents (p : PipeBuf) : list Z := ring (buf p) (read_pos p) <$> seqZ 0 (len p).

Record pipe_wf (p : PipeBuf) : Prop := {
  pipe_buf_len : Z.of_nat (length (buf p)) = PIPE_CAPACITY;
  pipe_read_pos : 0 ≤ read_pos p < PIPE_CAPACITY;
  pipe_len : 0 ≤ len p ≤ PIPE_CAPACITY;
  pipe_write_pos : write_pos p = (read_pos p + len p) mod PIPE_CAPACITY;
}.

Lemma capacity_mod z : 0 ≤ z mod PIPE_CAPACITY < PIPE_CAPACITY.
Proof. by apply Z.mod_pos_bound. Qed.

Lemma length_contents p : pipe_wf p → Z.of_nat (length (contents p)) = len p.
Proof. intros []. unfold contents. rewrite length_fmap, length_seqZ. lia. Qed.

Lemma ring_shift b pos n i : ring b ((pos + n) mod PIPE_CAPACITY) i = ring b pos (n + i).
Proof. unfold ring. rewrite Z.add_mod_idemp_l by done. by rewrite Z.add_assoc. Qed.

Lemma ring_0 b pos : 0 ≤ pos < PIPE_CAPACITY → ring b pos 0 = default 0 (b !! Z.to_nat pos).
Proof. intros. unfold ring. by rewrite Z.add_0_r, Z.mod_small. Qed.

(** [n] places of the ring, from offset [i]. *)
Definition ring_range (b : list Z) (pos i n : Z) : list Z := ring b pos <$> seqZ i n.

Lemma ring_range_cons b pos i n :
  0 < n → ring_range b pos i n = ring b pos i :: ring_range b pos (i + 1) (n - 1).
Proof.
  intros. unfold ring_range. rewrite seqZ_cons by done. by rewrite fmap_cons, <- Z.add_1_r, <- Z.sub_1_r.
Qed.

Lemma ring_range_shift b pos n i m :
  ring_range b ((pos + n) mod PIPE_CAPACITY) i m = ring_range b pos (n + i) m.
Proof.
  unfold ring_range. replace (seqZ (n + i) m) with (Z.add n <$> seqZ i m) by (by rewrite fmap_add_seqZ).
  rewrite <- list_fmap_compose. apply list_fmap_ext. intros _ j _. apply ring_shift.
Qed.

Lemma ring_range_app b pos i n m :
  0 ≤ n → 0 ≤ m → ring_range b pos i (n + m) = ring_range b pos i n ++ ring_range b pos (i + n) m.
Proof. intros. unfold ring_range. rewrite seqZ_app by done. by rewrite fmap_app. Qed.

Lemma copy_out_spec n b pos :
  0 ≤ pos < PIPE_CAPACITY →
  copy_out n b pos = (ring_range b pos 0 (Z.of_nat n), (pos + Z.of_nat n) mod PIPE_CAPACITY).
Proof.
  revert pos. induction n as [|n IH]; intros pos Hpos; cbn [copy_out].
  - by rewrite Z.add_0_r, Z.mod_small.
  - rewrite IH by apply capacity_mod. f_equal.
    + rewrite (ring_range_cons b pos 0 (Z.of_nat (S n))) by lia. rewrite ring_0 by done. f_equal.
      rewrite ring_range_shift. by replace (Z.of_nat (S n) - 1) with (Z.of_nat n) by lia.
    + rewrite Z.add_mod_idemp_l by done. f_equal. lia.
Qed.

Lemma copy_in_spec data b pos :
  Z.of_nat (length b) = PIPE_CAPACITY → 0 ≤ pos < PIPE_CAPACITY →
  Z.of_nat (length data) ≤ PIPE_CAPACITY →
  let '(b', pos') := copy_in data b pos in
  length b' = length b ∧ pos' = (pos + Z.of_nat (length data)) mod PIPE_CAPACITY ∧
  ∀ i, 0 ≤ i < PIPE_CAPACITY → ring b' pos i = default (ring b pos i) (data !! Z.to_nat i).
Proof.
  revert b pos. induction data as [|d data IH]; intros b pos Hb Hpos Hl; cbn [copy_in length].
  - rewrite Z.add_0_r, Z.mod_small by done. done.
  - cbn [length] in Hl. specialize (IH (<[Z.to_nat pos := d]> b) ((pos + 1) mod PIPE_CAPACITY)).
    destruct (copy_in data _ _) as [b' pos']. rewrite length_insert in IH.
    destruct IH as (Hb' & Hp' & Hr); [done|apply capacity_mod|lia|].
    split_and!; [done|subst; rewrite Z.add_mod_idemp_l by done; f_equal; lia|].
    intros i Hi. destruct (decide (i = 0)) as [->|Hne].
    + specialize (Hr (PIPE_CAPACITY - 1) ltac:(lia)). rewrite !ring_shift in Hr.
      replace (1 + (PIPE_CAPACITY - 1)) with PIPE_CAPACITY in Hr by lia.
      assert (∀ c, ring c pos PIPE_CAPACITY = ring c pos 0) as Hwrap.
      { intros c. unfold ring. replace (pos + PIPE_CAPACITY) with (pos + 0 + 1 * PIPE_CAPACITY) by lia.
        by rewrite Z.mod_add. }
      rewrite !Hwrap in Hr. rewrite Hr. rewrite lookup_ge_None_2 by lia. cbn [default].
      rewrite ring_0 by done. rewrite list_lookup_insert_eq by lia. done.
    + specialize (Hr (i - 1) ltac:(lia)). rewrite !ring_shift in Hr.
      replace (1 + (i - 1)) with i in Hr by lia. rewrite Hr.
      replace (Z.to_nat i) with (S (Z.to_nat (i - 1))) by lia. cbn [lookup list_lookup].
      f_equal. unfold ring. rewrite list_lookup_insert_ne; [done|].
      pose proof (capacity_mod (pos + i)). intros He. assert (pos = (pos + i) mod PIPE_CAPACITY) as He' by lia.
      destruct (Z.lt_ge_cases (pos + i) PIPE_CAPACITY).
      * rewrite Z.mod_small in He' by lia. lia.
      * replace (pos + i) with (pos + i - PIPE_CAPACITY + 1 * PIPE_CAPACITY) in He' by lia.
        rewrite Z.mod_add in He' by done. rewrite Z.mod_small in He' by lia. lia.
Qed.

Lemma contents_range p : contents p = ring_range (buf p) (read_pos p) 0 (len p).
Proof. done. Qed.

Lemma pipe_new_wf : pipe_wf pipe_new.
Proof. split; [cbn [buf pipe_new]; rewrite length_replicate; by apply Z2Nat.id|done..]. Qed.

(** [try_read] takes a prefix of the contents. *)
Lemma try_read_spec p count :
  pipe_wf p → 0 ≤ count →
  let '(p', r) := try_read p count in
  pipe_wf p' ∧
  match r with
  | Ok bytes => contents p = bytes ++ contents p' ∧
      Z.of_nat (length bytes) = Z.min count (len p) ∧ (len p = 0 → write_closed p = true)
  | Err e => e = EAGAIN ∧ p' = p ∧ contents p = [] ∧ write_closed p = false
  end.
Proof.
  intros Hwf Hc. destruct Hwf as [Hb Hr Hl Hw] eqn:Heq. unfold try_read.
  destruct (Z.eqb_spec (len p) 0) as [H0|Hne].
  - assert (contents p = []) as Hnil by (unfold contents; by rewrite H0).
    split; [done|]. destruct (write_closed p); [|done]. rewrite Hnil. split_and!; try done.
    cbn. lia.
  - set (n := Z.min count (len p)). rewrite copy_out_spec by done. split.
    + split; cbn; try done; [apply capacity_mod|lia|]. rewrite Hw.
      rewrite Z.add_mod_idemp_l by done. f_equal. lia.
    + split_and!; [| |lia].
      * rewrite !contents_range. cbn [buf read_pos len].
        rewrite ring_range_shift, Z.add_0_r. rewrite Z2Nat.id by lia.
        replace (len p) with (n + (len p - n)) at 1 by lia. apply ring_range_app; lia.
      * unfold ring_range. rewrite length_fmap, length_seqZ. lia.
Qed.

(** [try_write] appends a prefix of the data. *)
Lemma try_write_spec p data :
  pipe_wf p →
  let '(p', r) := try_write p data in
  pipe_wf p' ∧
  match r with
  | Ok n => n = Z.min (Z.of_nat (length data)) (PIPE_CAPACITY - len p) ∧ len p < PIPE_CAPACITY ∧
      contents p' = contents p ++ take (Z.to_nat n) data ∧
      read_closed p = false ∧ read_closed p' = false ∧ write_closed p' = write_closed p
  | Err e => p' = p ∧ (e = EPIPE ∧ read_closed p = true ∨
                       e = EAGAIN ∧ read_closed p = false ∧ len p = PIPE_CAPACITY)
  end.
Proof.
  intros Hwf. destruct Hwf as [Hb Hr Hl Hw] eqn:Heq. unfold try_write.
  destruct (read_closed p) eqn:Hrc; [by eauto|].
  destruct (Z.eqb_spec (PIPE_CAPACITY - len p) 0) as [H0|Hne].
  { split; [done|]. split; [done|]. right. split_and!; [done..|lia]. }
  set (n := Z.min (Z.of_nat (length data)) (PIPE_CAPACITY - len p)).
  set (d := take (Z.to_nat n) data).
  assert (Z.of_nat (length d) = n) as Hd by (unfold d; rewrite length_take; lia).
  pose proof (copy_in_spec d (buf p) (write_pos p) Hb ltac:(rewrite Hw; apply capacity_mod) ltac:(lia)) as Hin.
  destruct (copy_in d (buf p) (write_pos p)) as [b' pos']. destruct Hin as (Hb' & Hp' & Hring).
  split.
  - split; cbn; [lia|done|lia|]. rewrite Hp', Hw, Z.add_mod_idemp_l by done. f_equal. lia.
  - split_and!; [done|lia| |done|done|done].
    rewrite !contents_range. cbn [buf read_pos len]. rewrite ring_range_app by lia.
    rewrite Hw in Hring. f_equal.
    + unfold ring_range. apply list_fmap_ext. intros _ j Hj%list_elem_of_lookup_2%elem_of_seqZ.
      specialize (Hring (PIPE_CAPACITY - len p + j)). rewrite !ring_shift in Hring.
      replace (len p + (PIPE_CAPACITY - len p + j)) with (PIPE_CAPACITY + j) in Hring by lia.
      assert (∀ c, ring c (read_pos p) (PIPE_CAPACITY + j) = ring c (read_pos p) j) as Hwrap.
      { intros c. unfold ring. replace (read_pos p + (PIPE_CAPACITY + j)) with (read_pos p + j + 1 * PIPE_CAPACITY) by lia.
        by rewrite Z.mod_add. }
      rewrite !Hwrap in Hring. rewrite Hring by lia. by rewrite lookup_ge_None_2 by lia.
    + fold d. rewrite Z.add_0_l. apply list_eq. intros i. unfold ring_range. rewrite list_lookup_fmap.
      destruct (decide (i < Z.to_nat n)%nat) as [Hi|Hi].
      * rewrite lookup_seqZ_lt by lia. cbn.
        specialize (Hring (Z.of_nat i) ltac:(lia)). rewrite !ring_shift in Hring. rewrite Hring.
        rewrite Nat2Z.id. destruct (lookup_lt_is_Some_2 d i ltac:(lia)) as [y ->]. done.
      * rewrite (lookup_ge_None_2 d) by lia. rewrite lookup_seqZ_ge by lia. done.
Qed.

(** ** Lemmas on the wait queue *)
Section BlockingLemmas.
Context {K : Type} `{SchedulerLaws K}.
Implicit Type w : World K.

Lemma wake_readers_pipes key w : w_pipes (wake_readers key w) = w_pipes w.
Proof. unfold wake_readers. by destruct (w_waiters w !! key) as [[rs ws]|]. Qed.
Lemma wake_writers_pipes key w : w_pipes (wake_writers key w) = w_pipes w.
Proof. unfold wake_writers. by destruct (w_waiters w !! key) as [[rs ws]|]. Qed.

Lemma wake_readers_spec key w :
  waiters_of (wake_readers key w) key = ([], (waiters_of w key).2) ∧
  ∀ q, sched_asleep (w_kernel (wake_readers key w)) q =
       (sched_asleep (w_kernel w) q && negb (bool_decide (q ∈ (waiters_of w key).1))).
Proof.
  unfold wake_readers, waiters_of. destruct (w_waiters w !! key) as [[rs ws]|] eqn:E; cbn [w_waiters w_kernel].
  - rewrite lookup_insert_eq. split; [done|]. intros q. apply wake_all_asleep.
  - rewrite E. split; [done|]. intros q. cbn. by rewrite andb_true_r.
Qed.

Lemma the_pipe_set key p w : the_pipe key (set_pipe key p w) = p.
Proof. unfold the_pipe, set_pipe. cbn [w_pipes]. by rewrite lookup_insert_eq. Qed.
Lemma the_pipe_wake_readers key w : the_pipe key (wake_readers key w) = the_pipe key w.
Proof. unfold the_pipe. by rewrite wake_readers_pipes. Qed.

(** A round that finds the buffer full after some bytes were written. *)
Lemma pipe_write_round_full blocked key data w n :
  0 < n < Z.of_nat (length data) → pipe_wf (the_pipe key w) →
  len (the_pipe key w) = PIPE_CAPACITY → read_closed (the_pipe key w) = false →
  pipe_write_round blocked key data true (w, n) = inr (set_pipe key (the_pipe key w) w, Ok n).
Proof.
  intros Hn Hwf Hfull Hrc. unfold pipe_write_round.
  destruct (Z.leb_spec (Z.of_nat (length data)) n); [lia|].
  pose proof (try_write_spec _ (drop (Z.to_nat n) data) Hwf) as Hspec.
  destruct (try_write _ _) as [p2 [n2|e]]; destruct Hspec as [_ Hr]; [lia|].
  destruct Hr as [-> [[-> ?]|[-> _]]]; [congruence|]. cbn.
  by destruct (Z.ltb_spec 0 n); [|lia].
Qed.

(** The first round of a write into a pipe with room. *)
Lemma pipe_write_round_room blocked key data w p :
  the_pipe key w = p → pipe_wf p → data ≠ [] → read_closed p = false → len p < PIPE_CAPACITY →
  ∃ p1 n, n = Z.min (Z.of_nat (length data)) (PIPE_CAPACITY - len p) ∧ 0 < n ∧
    pipe_wf p1 ∧ contents p1 = contents p ++ take (Z.to_nat n) data ∧
    read_closed p1 = false ∧ len p1 = len p + n ∧
    pipe_write_round blocked key data true (w, 0) = inl (wake_readers key (set_pipe key p1 w), n).
Proof.
  intros Hthe Hwf Hne Hrc Hlen. unfold pipe_write_round.
  assert (0 < length data)%nat by (destruct data; [done|cbn; lia]).
  destruct (Z.leb_spec (Z.of_nat (length data)) 0); [lia|].
  rewrite Hthe. cbn [Z.to_nat]. rewrite drop_0. pose proof (try_write_spec p data Hwf) as Hspec.
  destruct (try_write p data) as [p1 [n|e]]; destruct Hspec as [Hwf1 Hr].
  - destruct Hr as (Hn & _ & Hcont & _ & Hrc1 & _). exists p1, n. split_and!; try done; [lia|].
    pose proof (length_contents p1 Hwf1) as Hl1. rewrite Hcont, length_app, Nat2Z.inj_add in Hl1.
    rewrite (length_contents p Hwf), length_take in Hl1. lia.
  - destruct Hr as [-> [[-> ?]|[-> [_ ?]]]]; [congruence|lia].
Qed.

(** A non-blocking [pipe_write] ends within three rounds on every branch:
    nothing to write, no reader left ([EPIPE] and SIGPIPE), buffer full
    ([EAGAIN]), or the bytes that fit are appended to the pipe's contents, in
    order, and every reader registered before is awake. *)
Theorem pipe_write_nonblock blocked key data w p :
  the_pipe key w = p → pipe_wf p →
  ∃ w' r, pipe_write blocked 3 key data true w = inr (w', r) ∧
  pipe_wf (the_pipe key w') ∧
  if bool_decide (data = []) then r = Ok 0 ∧ w' = w
  else if read_closed p then
    r = Err EPIPE ∧ the_pipe key w' = p ∧
    w_kernel w' = sched_sigpipe (sched_current (w_kernel w)) (w_kernel w)
  else if bool_decide (len p = PIPE_CAPACITY) then r = Err EAGAIN ∧ the_pipe key w' = p
  else ∃ n, r = Ok n ∧ n = Z.min (Z.of_nat (length data)) (PIPE_CAPACITY - len p) ∧
       contents (the_pipe key w') = contents p ++ take (Z.to_nat n) data ∧
       ∀ q, q ∈ (waiters_of w key).1 → sched_asleep (w_kernel w') q = false.
Proof.
  intros Hthe Hwf. unfold pipe_write. rewrite loop_nat_S.
  case_bool_decide as Hnil.
  { subst data. exists w, (Ok 0). by rewrite Hthe. }
  assert (0 < length data)%nat as Hpos by (destruct data; [done|cbn; lia]).
  destruct (decide (read_closed p = false ∧ len p < PIPE_CAPACITY)) as [[Hrc Hlt]|Hno].
  - rewrite Hrc, bool_decide_eq_false_2 by lia.
    destruct (pipe_write_round_room blocked key data w p) as (p1 & n & Hn & Hn0 & Hwf1 & Hc1 & Hrc1 & Hl1 & ->); [done..|].
    set (w1 := wake_readers key (set_pipe key p1 w)).
    assert (the_pipe key w1 = p1) as Hthe1 by (unfold w1; by rewrite the_pipe_wake_readers, the_pipe_set).
    assert (∀ q, q ∈ (waiters_of w key).1 → sched_asleep (w_kernel w1) q = false) as Hawake.
    { intros q Hq. unfold w1. destruct (wake_readers_spec key (set_pipe key p1 w)) as [_ ->].
      rewrite bool_decide_eq_true_2 by done. apply andb_false_r. }
    rewrite loop_nat_S. destruct (decide (Z.of_nat (length data) ≤ n)) as [Hle|Hgt].
    + unfold pipe_write_round at 1. destruct (Z.leb_spec (Z.of_nat (length data)) n); [|lia].
      exists w1, (Ok n). rewrite Hthe1. eauto 10.
    + rewrite pipe_write_round_full by (rewrite ?Hthe1; lia || done). rewrite Hthe1.
      exists (set_pipe key p1 w1), (Ok n). rewrite the_pipe_set. eauto 10.
  - unfold pipe_write_round at 1. destruct (Z.leb_spec (Z.of_nat (length data)) 0); [lia|].
    rewrite Hthe. cbn [Z.to_nat]. rewrite drop_0. pose proof (try_write_spec p data Hwf) as Hspec.
    destruct (try_write p data) as [p1 [n|e]]; destruct Hspec as [_ Hr]; [naive_solver|].
    destruct Hr as [-> [[-> Hrc]|[-> [Hrc Hfull]]]]; rewrite Hrc.
    + eexists _, _. split; [done|]. unfold the_pipe, set_kernel, set_pipe. cbn [w_pipes].
      by rewrite lookup_insert_eq.
    + rewrite bool_decide_eq_true_2 by done. eexists _, _. split; [done|]. by rewrite the_pipe_set.
Qed.

(** [pipe_read] on a pipe with data, or at end of file, returns in its
    first round, blocking or not: it takes the oldest bytes, leaves the rest,
    withdraws its registration, and wakes the writers when it freed space;
    on an empty open pipe a non-blocking read reports [EAGAIN] and changes
    nothing. *)
Theorem pipe_read_ready blocked key count nonblock w p :
  the_pipe key w = p → pipe_wf p → 0 ≤ count →
  (len p ≠ 0 ∨ write_closed p = true ∨ nonblock = true) →
  ∃ w' r, pipe_read blocked 1 key count nonblock w = inr (w', r) ∧
    sched_current (w_kernel w) ∉ (waiters_of w' key).1 ∧
    match r with
    | Ok bytes => contents p = bytes ++ contents (the_pipe key w') ∧
        Z.of_nat (length bytes) = Z.min count (len p)
    | Err e => e = EAGAIN ∧ the_pipe key w' = p ∧ contents p = [] ∧ write_closed p = false ∧ nonblock = true
    end.
Proof.
  intros Hthe Hwf Hc Hready. unfold pipe_read. rewrite loop_nat_S. unfold pipe_read_round.
  set (pid := sched_current (w_kernel w)). set (w1 := register_reader_waiter key pid w).
  assert (the_pipe key w1 = p) as Hthe1.
  { unfold w1, register_reader_waiter. by destruct (waiters_of w key). }
  rewrite Hthe1. pose proof (try_read_spec p count Hwf Hc) as Hspec.
  assert (∀ p', pid ∉ (waiters_of (unregister_reader key pid (set_pipe key p' w1)) key).1) as Hun.
  { intros p'. unfold waiters_of, unregister_reader. cbn [w_waiters]. rewrite lookup_alter_eq.
    destruct (w_waiters (set_pipe key p' w1) !! key); cbn; [|by intros ?%not_elem_of_nil].
    rewrite list_elem_of_filter. naive_solver. }
  destruct (try_read p count) as [p' [bytes|e]]; destruct Hspec as [Hwf' Hr].
  - destruct Hr as (Hcont & Hlen & _). eexists _, _. split; [done|].
    assert (∀ w2, the_pipe key (unregister_reader key pid w2) = the_pipe key w2) as Hu by done.
    destruct (0 <? length bytes)%nat; [|rewrite Hu, the_pipe_set; auto].
    unfold the_pipe at 1. rewrite wake_writers_pipes. fold (the_pipe key (unregister_reader key pid (set_pipe key p' w1))).
    rewrite Hu, the_pipe_set. split; [|done]. unfold wake_writers.
    destruct (w_waiters _ !! key) as [[rs ws]|] eqn:E; [|apply Hun].
    specialize (Hun p'). unfold waiters_of in *. rewrite E in Hun. cbn [w_waiters]. by rewrite lookup_insert_eq.
  - destruct Hr as (-> & -> & Hnil & Hwc). cbn [Z.eqb].
    assert (len p = 0) as Hl0 by (rewrite <- length_contents by done; by rewrite Hnil).
    destruct nonblock; [|exfalso; destruct Hready as [?|[?|?]]; [lia|congruence..]]. change (EAGAIN =? EAGAIN) with true. cbv iota.
    eexists _, _. split; [done|]. split; [apply Hun|]. split_and!; try done.
    apply (the_pipe_set key p w1).
Qed.
End BlockingLemmas.

(** ** End of file *)

(** Closing: when the last writer closes, every registered reader is
    awake, the readers' queue is empty, and a read that finds no data reports
    end of file instead of blocking. *)
Theorem close_write_eof {K} `{SchedulerLaws K} blocked key (w : World K) p count nonblock :
  the_pipe key w = p → pipe_wf p → writers p = 1 → 0 ≤ count →
  let w' := pipe_close_write key w in
  (waiters_of w' key).1 = [] ∧
  (∀ q, q ∈ (waiters_of w key).1 → sched_asleep (w_kernel w') q = false) ∧
  (len p = 0 → ∃ w'', pipe_read blocked 1 key count nonblock w' = inr (w'', Ok [])).
Proof.
  intros Hthe Hwf Hw Hc w'. subst w'. unfold pipe_close_write. rewrite Hthe.
  set (p1 := close_write p). set (w1 := wake_readers key (set_pipe key p1 w)).
  assert (write_closed p1 = true) as Hwc by (unfold p1, close_write; by rewrite Hw).
  assert (pipe_wf p1) as Hwf1 by (destruct Hwf; by split).
  destruct (wake_readers_spec key (set_pipe key p1 w)) as [Hq Hawake]. fold w1 in Hq, Hawake.
  assert (∀ q, q ∈ (waiters_of w key).1 → sched_asleep (w_kernel w1) q = false) as Haw.
  { intros q Hin. rewrite Hawake, bool_decide_eq_true_2 by done. apply andb_false_r. }
  match goal with |- context [if ?c then ?y else w1] => set (w2 := if c then y else w1) end.
  assert (the_pipe key w2 = p1) as Hthe2.
  { unfold w2. destruct (write_closed p1 && read_closed p1);
      [change (the_pipe key w1 = p1)|]; unfold w1; by rewrite the_pipe_wake_readers, the_pipe_set. }
  split_and!.
  - unfold w2. destruct (write_closed p1 && read_closed p1); [|by rewrite Hq].
    unfold waiters_of, cleanup_waiters. cbn [w_waiters]. by rewrite lookup_delete_eq.
  - intros q Hin. unfold w2. destruct (_ && _); by apply Haw.
  - intros Hl0. unfold pipe_read. rewrite loop_nat_S. unfold pipe_read_round.
    assert (∀ pid, the_pipe key (register_reader_waiter key pid w2) = p1) as Hreg.
    { intros pid. unfold register_reader_waiter. by destruct (waiters_of w2 key). }
    rewrite Hreg. unfold try_read. change (len p1) with (len p). rewrite Hl0, Hwc. cbn. eauto.
Qed.

(** A run of duplications and closes of the write end, each on a descriptor
    that is open. *)
Inductive end_op := DupWrite | CloseWrite.
Definition apply_end (p : PipeBuf) (o : end_op) : PipeBuf :=
  match o with DupWrite => dup_write p | CloseWrite => close_write p end.

Fixpoint open_after (n : Z) (ops : list end_op) : option Z :=
  match ops with
  | [] => Some n
  | DupWrite :: ops => if (0 <? n) && (n <? 2 ^ 64 - 1) then open_after (n + 1) ops else None
  | CloseWrite :: ops => if 0 <? n then open_after (n - 1) ops else None
  end.

(** Descriptor counting: after any run of duplications and closes, each of
    an open descriptor, [writers] is the number of open write descriptors and
    the write end is marked closed exactly when that number is zero. *)
Theorem write_end_count p ops n :
  0 < writers p → write_closed p = false → open_after (writers p) ops = Some n →
  writers (foldl apply_end p ops) = n ∧ write_closed (foldl apply_end p ops) = (n =? 0).
Proof.
  intros Hw Hc. assert (write_closed p = (writers p =? 0)) as Hinv.
  { rewrite Hc. symmetry. apply Z.eqb_neq. lia. }
  assert (0 ≤ writers p) as Hnn by lia. clear Hw Hc. revert p Hinv Hnn.
  induction ops as [|o ops IH]; intros p Hinv Hnn; cbn [open_after foldl]; [intros [= <-]; done|].
  destruct o; cbn [apply_end].
  - destruct (Z.ltb_spec 0 (writers p)); [|done]. destruct (Z.ltb_spec (writers p) (2 ^ 64 - 1)); [|done].
    cbn [andb]. intros Ho.
    assert (writers (dup_write p) = writers p + 1) as Hw by (cbn; unfold sat_add; lia).
    apply IH; rewrite ?Hw; [|lia|done]. cbn [write_closed dup_write]. rewrite Hinv.
    destruct (Z.eqb_spec (writers p) 0), (Z.eqb_spec (writers p + 1) 0); lia.
  - destruct (Z.ltb_spec 0 (writers p)) as [Hlt|]; [|done]. intros Ho.
    assert (writers (close_write p) = writers p - 1) as Hw.
    { cbn. by destruct (Z.ltb_spec 0 (writers p)); [|lia]. }
    apply IH; rewrite ?Hw; [|lia|done]. cbn [write_closed close_write].
    destruct (Z.ltb_spec 0 (writers p)); [|lia]. rewrite Hinv.
    destruct (Z.eqb_spec (writers p - 1) 0); [done|]. by destruct (Z.eqb_spec (writers p) 0); [lia|].
Qed.

(** ** Taking turns on one processor

    Processes that read, write, duplicate and close one pipe on one processor.
    A process keeps the processor for a whole round of [pipe_read] or
    [pipe_write] (the timer interrupt only asks for a reschedule); when the
    round blocks, others run until it is woken and scheduled, and then it runs
    its next round. *)
Section Turns.
Context {K : Type} `{!Scheduler K, !SchedulerLaws K, !BlockLaws K}.
Variable key : Z.

Lemma wake_writers_spec (w : World K) :
  waiters_of (wake_writers key w) key = ((waiters_of w key).1, []) ∧
  ∀ q, sched_asleep (w_kernel (wake_writers key w)) q =
       (sched_asleep (w_kernel w) q && negb (bool_decide (q ∈ (waiters_of w key).2))).
Proof.
  unfold wake_writers, waiters_of. destruct (w_waiters w !! key) as [[rs ws]|] eqn:E; cbn [w_waiters w_kernel].
  - rewrite lookup_insert_eq. split; [done|]. intros q. apply wake_all_asleep.
  - rewrite E. split; [done|]. intros q. cbn. by rewrite andb_true_r.
Qed.
Lemma the_pipe_wake_writers (w : World K) : the_pipe key (wake_writers key w) = the_pipe key w.
Proof. unfold the_pipe. by rewrite wake_writers_pipes. Qed.

(** The processes inside [pipe_read] or [pipe_write], with the arguments and
    the bytes written so far. *)
Inductive call := InRead (count : Z) | InWrite (data : list Z) (written : Z).
Record Sys := mkSys { s_world : World K; s_calls : gmap Z call }.

Definition read_turn (count : Z) (nonblock : bool) (s : Sys) : Sys :=
  let pid := sched_current (w_kernel (s_world s)) in
  match pipe_read_round id key count nonblock (s_world s) with
  | inl w => mkSys w (<[pid := InRead count]> (s_calls s))
  | inr (w, _) => mkSys w (delete pid (s_calls s))
  end.
Definition write_turn (data : list Z) (nonblock : bool) (written : Z) (s : Sys) : Sys :=
  let pid := sched_current (w_kernel (s_world s)) in
  match pipe_write_round id key data nonblock (s_world s, written) with
  | inl (w, n) => mkSys w (<[pid := InWrite data n]> (s_calls s))
  | inr (w, _) => mkSys w (delete pid (s_calls s))
  end.

(** The process that runs is awake; it starts a call or goes on with the one it
    is in.  [turn_other] is anything else, scheduling, signals, time and other
    pipes: it leaves this pipe and its queue alone and may wake any process,
    but puts none to sleep that is inside a call on this pipe.  A process that
    ends leaves its call. *)
Inductive turn : Sys → Sys → Prop :=
  | turn_read s count nonblock : let pid := sched_current (w_kernel (s_world s)) in
      sched_asleep (w_kernel (s_world s)) pid = false → 0 ≤ count →
      s_calls s !! pid = None ∨ s_calls s !! pid = Some (InRead count) →
      turn s (read_turn count nonblock s)
  | turn_write s data nonblock written : let pid := sched_current (w_kernel (s_world s)) in
      sched_asleep (w_kernel (s_world s)) pid = false →
      s_calls s !! pid = None ∧ written = 0 ∨ s_calls s !! pid = Some (InWrite data written) →
      turn s (write_turn data nonblock written s)
  | turn_close_write w cs : turn (mkSys w cs) (mkSys (pipe_close_write key w) cs)
  | turn_close_read w cs : turn (mkSys w cs) (mkSys (pipe_close_read key w) cs)
  | turn_dup_write w cs : turn (mkSys w cs) (mkSys (set_pipe key (dup_write (the_pipe key w)) w) cs)
  | turn_dup_read w cs : turn (mkSys w cs) (mkSys (set_pipe key (dup_read (the_pipe key w)) w) cs)
  | turn_poll_read w cs pid : turn (mkSys w cs) (mkSys (register_reader_waiter key pid w) cs)
  | turn_poll_write w cs pid : turn (mkSys w cs) (mkSys (register_writer_waiter key pid w) cs)
  | turn_leave w cs pid : turn (mkSys w cs) (mkSys w (delete pid cs))
  | turn_other w w' cs :
      the_pipe key w' = the_pipe key w → waiters_of w' key = waiters_of w key →
      (∀ q c, cs !! q = Some c → sched_asleep (w_kernel w') q = true → sched_asleep (w_kernel w) q = true) →
      turn (mkSys w cs) (mkSys w' cs).

(** Who sleeps in a call on the pipe is registered, and has a reason to. *)
Definition waits_rightly (w : World K) (q : Z) (c : call) : Prop :=
  match c with
  | InRead _ => q ∈ (waiters_of w key).1 ∧ contents (the_pipe key w) = [] ∧ write_closed (the_pipe key w) = false
  | InWrite _ _ => q ∈ (waiters_of w key).2 ∧ len (the_pipe key w) = PIPE_CAPACITY ∧ read_closed (the_pipe key w) = false
  end.
Record turn_inv (s : Sys) : Prop := {
  ti_pipe : pipe_wf (the_pipe key (s_world s));
  ti_wait q c : s_calls s !! q = Some c → sched_asleep (w_kernel (s_world s)) q = true → waits_rightly (s_world s) q c;
}.

Lemma waiters_register_reader pid (w : World K) : waiters_of (register_reader_waiter key pid w) key = ((waiters_of w key).1 ++ [pid], (waiters_of w key).2).
Proof. unfold register_reader_waiter. destruct (waiters_of w key) as [rs ws] eqn:E. unfold waiters_of. cbn [w_waiters]. by rewrite lookup_insert_eq. Qed.
Lemma waiters_register_writer pid (w : World K) : waiters_of (register_writer_waiter key pid w) key = ((waiters_of w key).1, (waiters_of w key).2 ++ [pid]).
Proof. unfold register_writer_waiter. destruct (waiters_of w key) as [rs ws] eqn:E. unfold waiters_of. cbn [w_waiters]. by rewrite lookup_insert_eq. Qed.
Lemma register_reader_same pid (w : World K) : the_pipe key (register_reader_waiter key pid w) = the_pipe key w ∧ w_kernel (register_reader_waiter key pid w) = w_kernel w.
Proof. unfold register_reader_waiter. by destruct (waiters_of w key). Qed.
Lemma register_writer_same pid (w : World K) : the_pipe key (register_writer_waiter key pid w) = the_pipe key w ∧ w_kernel (register_writer_waiter key pid w) = w_kernel w.
Proof. unfold register_writer_waiter. by destruct (waiters_of w key). Qed.

Lemma waiters_unregister pid (w : World K) : waiters_of (unregister_reader key pid w) key = (filter (λ q, q ≠ pid) (waiters_of w key).1, (waiters_of w key).2).
Proof. unfold waiters_of, unregister_reader. cbn [w_waiters]. rewrite lookup_alter_eq. by destruct (w_waiters w !! key) as [[rs ws]|]. Qed.

(** A change that only adds to the queue and keeps the pipe. *)
Lemma waits_rightly_more w w' q c :
  the_pipe key w' = the_pipe key w → (q ∈ (waiters_of w key).1 → q ∈ (waiters_of w' key).1) → (q ∈ (waiters_of w key).2 → q ∈ (waiters_of w' key).2) →
  waits_rightly w q c → waits_rightly w' q c.
Proof. intros Hp H1 H2. destruct c; cbn; rewrite Hp; naive_solver. Qed.

Lemma read_turn_inv count nonblock s : 0 ≤ count → sched_asleep (w_kernel (s_world s)) (sched_current (w_kernel (s_world s))) = false → turn_inv s → turn_inv (read_turn count nonblock s).
Proof.
  intros Hc Hcur [Hwf Hw]. unfold read_turn, pipe_read_round. set (w := s_world s) in *. set (pid := sched_current (w_kernel w)) in *. set (w1 := register_reader_waiter key pid w).
  destruct (register_reader_same pid w) as [Hp1 Hk1]. fold w1 in Hp1, Hk1. pose proof (waiters_register_reader pid w) as Hr1. fold w1 in Hr1. rewrite Hp1. set (p := the_pipe key w) in *.
  pose proof (try_read_spec p count Hwf Hc) as Hspec. assert (read_closed (try_read p count).1 = read_closed p) as Hrc by (unfold try_read; destruct (len p =? 0); [done|]; by destruct (copy_out _ _ _)).
  destruct (try_read p count) as [p' [bytes|e]]; destruct Hspec as [Hwf' Hr].
  - destruct Hr as (Hcont & Hlen & Hz). cbn [fst] in Hrc. set (w3 := unregister_reader key pid (set_pipe key p' w1)). assert (the_pipe key w3 = p') as Hp3 by (unfold w3; apply (the_pipe_set key p' w1)).
    assert (w_kernel w3 = w_kernel w) as Hk3 by exact Hk1. assert ((waiters_of w3 key).2 = (waiters_of w key).2) as Hws by (unfold w3; rewrite waiters_unregister; by rewrite (Hr1 : waiters_of (set_pipe key p' w1) key = _)).
    assert (∀ q c, delete pid (s_calls s) !! q = Some c → sched_asleep (w_kernel w) q = true → ∃ d n, c = InWrite d n ∧ waits_rightly w q c) as Hold.
    { intros q c Hq Hs. apply lookup_delete_Some in Hq as [_ Hq]. pose proof (Hw q c Hq Hs) as Hx. destruct c as [n|d n]; [|by exists d, n]. exfalso. destruct Hx as (_ & Hnil & Hwc). fold p in Hnil, Hwc.
      pose proof (length_contents p Hwf) as Hl. rewrite Hnil in Hl. cbn in Hl. rewrite Hz in Hwc by lia. done. }
    destruct (Nat.ltb_spec 0 (length bytes)) as [Hpos|Hpos]; split; cbn [s_world s_calls].
    + by rewrite the_pipe_wake_writers, Hp3.
    + intros q c Hq Hs. destruct (wake_writers_spec w3) as [_ Hss]. rewrite Hss, Hk3, Hws in Hs. apply andb_prop in Hs as [Hs1 Hs2]. destruct (Hold q c Hq Hs1) as (d & n & -> & (Hin & _)). rewrite bool_decide_eq_true_2 in Hs2 by done. done.
    + by rewrite Hp3.
    + intros q c Hq Hs. rewrite Hk3 in Hs. destruct (Hold q c Hq Hs) as (d & n & -> & (Hin & Hf & Ho)). cbn. rewrite Hp3, Hws. fold p in Hf, Ho. split_and!; [done| |congruence].
      assert (bytes = []) as -> by (destruct bytes; [done|cbn in Hpos; lia]). cbn in Hcont. rewrite <- (length_contents p' Hwf'), <- Hcont, (length_contents p Hwf). done.
  - destruct Hr as (-> & -> & Hnil & Hwc). change (EAGAIN =? EAGAIN) with true. cbv iota. destruct nonblock; split; cbn [s_world s_calls].
    + by rewrite (the_pipe_set key p w1 : the_pipe key (unregister_reader key pid (set_pipe key p w1)) = p).
    + intros q c Hq Hs. apply lookup_delete_Some in Hq as [Hne Hq]. cbn [unregister_reader set_pipe w_kernel] in Hs. rewrite Hk1 in Hs.
      apply (waits_rightly_more w); [apply (the_pipe_set key p w1)|rewrite waiters_unregister, (Hr1 : waiters_of (set_pipe key p w1) key = _); cbn [fst snd]..|by apply Hw]; [|done].
      intros Hx. rewrite list_elem_of_filter, elem_of_app. auto.
    + by rewrite (the_pipe_set key p w1 : the_pipe key (id (set_kernel (sched_block (w_kernel (set_pipe key p w1))) (set_pipe key p w1))) = p).
    + set (w2 := id _). assert (the_pipe key w2 = p) as Hp2 by apply (the_pipe_set key p w1). assert (waiters_of w2 key = ((waiters_of w key).1 ++ [pid], (waiters_of w key).2)) as Hr2 by exact Hr1.
      assert (w_kernel w2 = sched_block (w_kernel w)) as Hk2 by exact (f_equal sched_block Hk1).
      intros q c Hq Hs. rewrite Hk2 in Hs. destruct (decide (q = pid)) as [->|Hne].
      * rewrite lookup_insert_eq in Hq. injection Hq as <-. cbn. rewrite Hp2, Hr2. cbn [fst]. rewrite elem_of_app, list_elem_of_singleton. auto.
      * rewrite lookup_insert_ne in Hq by done. apply (waits_rightly_more w); [done|rewrite Hr2; cbn [fst snd]..|]; [rewrite elem_of_app; auto|done|]. apply Hw; [done|]. by apply sched_block_asleep in Hs as [Hs| ->].
Qed.

Lemma write_turn_inv data nonblock written s : sched_asleep (w_kernel (s_world s)) (sched_current (w_kernel (s_world s))) = false → turn_inv s → turn_inv (write_turn data nonblock written s).
Proof.
  intros Hcur [Hwf Hw]. unfold write_turn, pipe_write_round. set (w := s_world s) in *. set (pid := sched_current (w_kernel w)) in *. set (p := the_pipe key w) in *.
  assert (∀ w' k, the_pipe key w' = p → waiters_of w' key = waiters_of w key → w_kernel w' = k → (∀ q, sched_asleep k q = true → sched_asleep (w_kernel w) q = true) → turn_inv (mkSys w' (delete pid (s_calls s)))) as Hsame.
  { intros w' k Hp Hq <- Hk. split; cbn [s_world s_calls]; [by rewrite Hp|]. intros q c Hc Hs. apply lookup_delete_Some in Hc as [_ Hc]. apply (waits_rightly_more w); rewrite ?Hp, ?Hq; try done. by apply Hw, Hk. }
  destruct (_ <=? written); [by apply (Hsame w (w_kernel w))|]. pose proof (try_write_spec p (drop (Z.to_nat written) data) Hwf) as Hspec.
  destruct (try_write p _) as [p' [n|e]]; destruct Hspec as [Hwf' Hr].
  - destruct Hr as (_ & Hlt & _). set (w1 := set_pipe key p' w). destruct (wake_readers_spec key w1) as [_ Hss]. split; cbn [s_world s_calls]; [rewrite the_pipe_wake_readers; unfold w1; by rewrite the_pipe_set|].
    intros q c Hq Hs. rewrite Hss in Hs. apply andb_prop in Hs as [Hs1 Hs2]. change (w_kernel w1) with (w_kernel w) in Hs1. exfalso. destruct (decide (q = pid)) as [->|Hne]; [congruence|]. rewrite lookup_insert_ne in Hq by done.
    destruct c; destruct (Hw q _ Hq Hs1) as (Hin & Hx & _); [|fold p in Hx; lia]. by rewrite bool_decide_eq_true_2 in Hs2.
  - destruct Hr as (-> & Hr). set (w1 := set_pipe key p w). assert (the_pipe key w1 = p) as Hp1 by apply the_pipe_set. destruct Hr as [[-> Hrc]|(-> & Hrc & Hfull)].
    + change (EPIPE =? EPIPE) with true. cbv iota. apply (Hsame _ (sched_sigpipe pid (w_kernel w))); [done..|]. intros q. apply sched_sigpipe_asleep.
    + change (EAGAIN =? EPIPE) with false. change (EAGAIN =? EAGAIN) with true. cbv iota. destruct nonblock; [by apply (Hsame w1 (w_kernel w))|].
      change (sched_current (w_kernel w1)) with pid. set (w2 := register_writer_waiter key pid w1). destruct (register_writer_same pid w1) as [Hp2 Hk2]. fold w2 in Hp2, Hk2. pose proof (waiters_register_writer pid w1) as Hq2. fold w2 in Hq2. change (waiters_of w1 key) with (waiters_of w key) in Hq2.
      split; cbn [s_world s_calls id]; [change (pipe_wf (the_pipe key w2)); by rewrite Hp2, Hp1|]. set (w3 := set_kernel _ w2). change (waits_rightly w3) with (waits_rightly w2).
      assert (w_kernel w3 = sched_block (w_kernel w)) as Hk3 by exact (f_equal sched_block Hk2).
      intros q c Hq Hs. rewrite Hk3 in Hs. destruct (decide (q = pid)) as [->|Hne].
      * rewrite lookup_insert_eq in Hq. injection Hq as <-. cbn. rewrite Hp2, Hp1, Hq2. cbn [snd]. rewrite elem_of_app, list_elem_of_singleton. auto.
      * rewrite lookup_insert_ne in Hq by done. apply (waits_rightly_more w); [by rewrite Hp2, Hp1|rewrite Hq2; cbn [fst snd]..|]; [done|rewrite elem_of_app; auto|]. apply Hw; [done|]. by apply sched_block_asleep in Hs as [Hs| ->].
Qed.

Lemma close_write_inv w cs : turn_inv (mkSys w cs) → turn_inv (mkSys (pipe_close_write key w) cs).
Proof.
  intros [Hwf Hw]. cbn [s_world s_calls] in *. unfold pipe_close_write. set (p := the_pipe key w) in *. set (p1 := close_write p). set (w1 := wake_readers key (set_pipe key p1 w)).
  assert (pipe_wf p1) as Hwf1 by (destruct Hwf; by split). assert (the_pipe key w1 = p1) as Hp1 by (unfold w1; by rewrite the_pipe_wake_readers, the_pipe_set). destruct (wake_readers_spec key (set_pipe key p1 w)) as [Hq1 Hs1]. fold w1 in Hq1, Hs1.
  assert (∀ q c, cs !! q = Some c → sched_asleep (w_kernel w1) q = true → ∃ d n, c = InWrite d n ∧ waits_rightly w1 q c) as Hkey.
  { intros q c Hq Hs. rewrite Hs1 in Hs. apply andb_prop in Hs as [Hs Hn]. pose proof (Hw q c Hq Hs) as Hx. destruct c as [n|d n]; cbn in Hx |- *; [destruct Hx as [Hx _]; by rewrite bool_decide_eq_true_2 in Hn|].
    exists d, n. rewrite Hp1, Hq1. done. }
  destruct (write_closed p1 && read_closed p1) eqn:E; split; cbn [s_world s_calls].
  - by rewrite (Hp1 : the_pipe key (cleanup_waiters key w1) = p1).
  - intros q c Hq Hs. destruct (Hkey q c Hq Hs) as (d & n & -> & (_ & _ & Hx)). rewrite Hp1 in Hx. apply andb_prop in E as [_ E]. congruence.
  - by rewrite Hp1.
  - intros q c Hq Hs. by destruct (Hkey q c Hq Hs) as (d & n & _ & Hx).
Qed.
Lemma close_read_inv w cs : turn_inv (mkSys w cs) → turn_inv (mkSys (pipe_close_read key w) cs).
Proof.
  intros [Hwf Hw]. cbn [s_world s_calls] in *. unfold pipe_close_read. set (p := the_pipe key w) in *. set (p1 := close_read p). set (w1 := wake_writers key (set_pipe key p1 w)).
  assert (pipe_wf p1) as Hwf1 by (destruct Hwf; by split). assert (the_pipe key w1 = p1) as Hp1 by (unfold w1; by rewrite the_pipe_wake_writers, the_pipe_set). destruct (wake_writers_spec (set_pipe key p1 w)) as [Hq1 Hs1]. fold w1 in Hq1, Hs1.
  assert (∀ q c, cs !! q = Some c → sched_asleep (w_kernel w1) q = true → ∃ n, c = InRead n ∧ waits_rightly w1 q c) as Hkey.
  { intros q c Hq Hs. rewrite Hs1 in Hs. apply andb_prop in Hs as [Hs Hn]. pose proof (Hw q c Hq Hs) as Hx. destruct c as [n|d n]; cbn in Hx |- *; [|destruct Hx as [Hx _]; by rewrite bool_decide_eq_true_2 in Hn].
    exists n. rewrite Hp1, Hq1. done. }
  destruct (write_closed p1 && read_closed p1) eqn:E; split; cbn [s_world s_calls].
  - by rewrite (Hp1 : the_pipe key (cleanup_waiters key w1) = p1).
  - intros q c Hq Hs. destruct (Hkey q c Hq Hs) as (n & -> & (_ & _ & Hx)). rewrite Hp1 in Hx. apply andb_prop in E as [E _]. congruence.
  - by rewrite Hp1.
  - intros q c Hq Hs. by destruct (Hkey q c Hq Hs) as (n & _ & Hx).
Qed.
Lemma turn_preserves s s' : turn s s' → turn_inv s → turn_inv s'.
Proof.
  intros [? ? ? pid Hcur Hc _|? ? ? ? pid Hcur _|w cs|w cs|w cs|w cs|w cs pid|w cs pid|w cs pid|w w' cs Hp Hq Ho] Hinv.
  - by apply read_turn_inv.
  - by apply write_turn_inv.
  - by apply close_write_inv.
  - by apply close_read_inv.
  - destruct Hinv as [Hwf Hw]. split; cbn [s_world s_calls] in *; [rewrite the_pipe_set; destruct Hwf; by split|]. intros q c Hq Hs. pose proof (Hw q c Hq Hs) as Hx. destruct c; cbn in Hx |- *; by rewrite the_pipe_set.
  - destruct Hinv as [Hwf Hw]. split; cbn [s_world s_calls] in *; [rewrite the_pipe_set; destruct Hwf; by split|]. intros q c Hq Hs. pose proof (Hw q c Hq Hs) as Hx. destruct c; cbn in Hx |- *; by rewrite the_pipe_set.
  - destruct Hinv as [Hwf Hw]. destruct (register_reader_same pid w) as [Hp Hk]. split; cbn [s_world s_calls] in *; [by rewrite Hp|]. intros q c Hq Hs. rewrite Hk in Hs. apply (waits_rightly_more w); [done|rewrite waiters_register_reader; cbn [fst snd]..|by apply Hw]; [rewrite elem_of_app; auto|done].
  - destruct Hinv as [Hwf Hw]. destruct (register_writer_same pid w) as [Hp Hk]. split; cbn [s_world s_calls] in *; [by rewrite Hp|]. intros q c Hq Hs. rewrite Hk in Hs. apply (waits_rightly_more w); [done|rewrite waiters_register_writer; cbn [fst snd]..|by apply Hw]; [done|rewrite elem_of_app; auto].
  - destruct Hinv as [Hwf Hw]. split; cbn [s_world s_calls] in *; [done|]. intros q c [_ Hq]%lookup_delete_Some. by apply Hw.
  - destruct Hinv as [Hwf Hw]. split; cbn [s_world s_calls] in *; [by rewrite Hp|]. intros q c Hc Hs. apply (waits_rightly_more w); rewrite ?Hp, ?Hq; try done. eapply Hw, Ho; done.
Qed.

(** C36. No lost wake-up on one processor.  Processes call [pipe_read],
    [pipe_write], the closes, duplications and registrations by poll on one
    pipe in any order, each keeping the processor from the start of a round of
    the call to its end or its block, and anything else happens in between that
    puts no process to sleep that is inside a call on this pipe.  Then a
    process that sleeps in [pipe_read] is registered as a reader, the pipe is
    empty and its write end open; one that sleeps in [pipe_write] is registered
    as a writer, the pipe is full and its read end open.  So whoever adds
    bytes, frees room or closes an end leaves nobody asleep who could go on. *)
Theorem up_no_lost_wakeup w s q c :
  pipe_wf (the_pipe key w) → rtc turn (mkSys w ∅) s →
  s_calls s !! q = Some c → sched_asleep (w_kernel (s_world s)) q = true →
  match c with
  | InRead _ => q ∈ (waiters_of (s_world s) key).1 ∧ contents (the_pipe key (s_world s)) = [] ∧ write_closed (the_pipe key (s_world s)) = false
  | InWrite _ _ => q ∈ (waiters_of (s_world s) key).2 ∧ len (the_pipe key (s_world s)) = PIPE_CAPACITY ∧ read_closed (the_pipe key (s_world s)) = false
  end.
Proof.
  intros Hwf Hrun. assert (turn_inv (mkSys w ∅)) as Hinv by (split; [done|]; intros ? ?; cbn; by rewrite lookup_empty).
  assert (turn_inv s) as [_ Hs]; [|intros Hq Ha; exact (Hs q c Hq Ha)]. revert Hinv. induction Hrun as [s|s1 s2 s3 Ht _ IH]; [done|]. intros Hinv. by eapply IH, turn_preserves.
Qed.
End Turns.

(** A lost wake-up on several processors: although [pipe_read] registers before
    it checks, a write on another processor that falls between its check and
    its block finds the reader not yet asleep, and takes its registration: when
    the reader then blocks it sleeps, unregistered, with data in the pipe. *)
Theorem smp_lost_wakeup {K} `{SchedulerLaws K} blocked key pid d (w : World K) :
  pipe_wf (the_pipe key w) → len (the_pipe key w) = 0 → write_closed (the_pipe key w) = false → read_closed (the_pipe key w) = false →
  let w1 := register_reader_waiter key pid w in
  try_read (the_pipe key w1) 1 = (the_pipe key w1, Err EAGAIN) ∧
  ∃ w2, pipe_write_round blocked key [d] false (w1, 0) = inl (w2, 1) ∧
    let w3 := set_kernel (sched_block (w_kernel w2)) w2 in
    contents (the_pipe key w3) = [d] ∧ (waiters_of w3 key).1 = [].
Proof.
  intros Hwf Hl Hwc Hrc w1. destruct (register_reader_same key pid w) as [Hp1 _]. fold w1 in Hp1. rewrite Hp1. split; [unfold try_read; by rewrite Hl, Hwc|].
  unfold pipe_write_round. change (Z.of_nat (length [d]) <=? 0) with false. cbv iota. rewrite Hp1. change (drop (Z.to_nat 0) [d]) with [d]. pose proof (try_write_spec _ [d] Hwf) as Hspec.
  destruct (try_write (the_pipe key w) [d]) as [p' [n|e]]; destruct Hspec as [Hwf' Hr]; [|destruct Hr as (_ & [[_ ?]|(_ & _ & Hf)]); [congruence|by rewrite Hl in Hf]].
  destruct Hr as (Hn & _ & Hc & _). rewrite Hl in Hn. assert (n = 1) as -> by (rewrite Hn; reflexivity). eexists. split; [reflexivity|]. cbv zeta.
  destruct (wake_readers_spec key (set_pipe key p' w1)) as [Hq _]. unfold waiters_of, the_pipe, set_kernel in *. cbn [w_pipes w_waiters]. rewrite wake_readers_pipes, Hq. cbn [set_pipe w_pipes fst]. rewrite lookup_insert_eq. cbn [default id]. split; [|done].
  rewrite Hc. unfold contents at 1. by rewrite Hl.
Qed.

(** ** FIFO theorems *)

(** C20. Reads and writes of the ring buffer are those of a bounded FIFO: a
    write appends the longest prefix of its data that fits (and fails with
    [EPIPE] without readers, [EAGAIN] when full, changing nothing); a read
    removes the oldest bytes, as many as asked for and available. *)
Theorem pipe_fifo p data count :
  pipe_wf p → 0 ≤ count →
  (let '(p', r) := try_write p data in
   pipe_wf p' ∧
   match r with
   | Ok n => n = Z.min (Z.of_nat (length data)) (PIPE_CAPACITY - len p) ∧
             contents p' = contents p ++ take (Z.to_nat n) data
   | Err e => p' = p ∧ (e = EPIPE ∧ read_closed p = true ∨
                        e = EAGAIN ∧ read_closed p = false ∧ len p = PIPE_CAPACITY)
   end) ∧
  (let '(p', r) := try_read p count in
   pipe_wf p' ∧
   match r with
   | Ok bytes => contents p = bytes ++ contents p' ∧ Z.of_nat (length bytes) = Z.min count (len p)
   | Err e => e = EAGAIN ∧ p' = p ∧ contents p = [] ∧ write_closed p = false
   end).
Proof.
  intros Hwf Hc. pose proof (try_write_spec p data Hwf) as Hw. pose proof (try_read_spec p count Hwf Hc) as Hr.
  split.
  - destruct (try_write p data) as [p' [n|e]]; [|done]. split; naive_solver.
  - destruct (try_read p count) as [p' [b|e]]; [|done]. split; naive_solver.
Qed.

(** Round trip: what is written into a pipe with enough room comes out
    unchanged, after what the pipe already held. *)
Theorem write_read_roundtrip p data :
  pipe_wf p → read_closed p = false → Z.of_nat (length data) ≤ PIPE_CAPACITY - len p → data ≠ [] →
  ∃ p1 p2, try_write p data = (p1, Ok (Z.of_nat (length data))) ∧
    try_read p1 PIPE_CAPACITY = (p2, Ok (contents p ++ data)) ∧ contents p2 = [].
Proof.
  intros Hwf Hrc Hfit Hne. assert (0 < length data)%nat by (destruct data; [done|cbn; lia]).
  pose proof (try_write_spec p data Hwf) as Hw.
  destruct (try_write p data) as [p1 [n|e]]; destruct Hw as [Hwf1 Hw].
  2: { destruct Hw as [_ [[_ ?]|[_ [_ ?]]]]; [congruence|lia]. }
  destruct Hw as (Hn & _ & Hcont & _). assert (n = Z.of_nat (length data)) as -> by lia.
  rewrite take_ge in Hcont by lia. exists p1. pose proof (try_read_spec p1 PIPE_CAPACITY Hwf1 ltac:(done)) as Hr.
  destruct (try_read p1 PIPE_CAPACITY) as [p2 [bytes|e]]; destruct Hr as [Hwf2 Hr].
  - destruct Hr as (Hc & Hl & _). exists p2. split; [done|].
    rewrite Z.min_r in Hl by (apply (pipe_len _ Hwf1)). rewrite <- (length_contents p1 Hwf1), Hc, length_app in Hl.
    assert (contents p2 = []) as Hnil by (apply length_zero_iff_nil; lia).
    rewrite Hnil, app_nil_r, Hcont in Hc. by rewrite Hc.
  - destruct Hr as (_ & _ & Hnil & _). rewrite Hcont in Hnil. apply app_eq_nil in Hnil as [_ ->]. done.
Qed.

(** ** Witnesses *)

Definition demo_world : World (gset Z) := mkWorld {[10 := pipe_new]} {[10 := ([2; 3], [])]} {[2; 3]}.

Lemma pipe_write_nonblock_witness :
  ∃ w' r, pipe_write id 3 10 [65; 66] true demo_world = inr (w', r) ∧
    ∃ n, r = Ok n ∧ contents (the_pipe 10 w') = take (Z.to_nat n) [65; 66] ∧
         sched_asleep (w_kernel w') 2 = false.
Proof.
  destruct (pipe_write_nonblock id 10 [65; 66] demo_world pipe_new) as (w' & r & He & _ & H);
    [reflexivity|apply pipe_new_wf|].
  exists w', r. split; [exact He|]. destruct H as (n & Hr & _ & Hc & Ha). exists n.
  split; [exact Hr|]. split; [exact Hc|]. apply Ha. apply list_elem_of_here.
Defined.

Lemma pipe_read_ready_witness :
  ∃ w' r, pipe_read id 1 10 5 true demo_world = inr (w', r) ∧ 1 ∉ (waiters_of w' 10).1.
Proof.
  destruct (pipe_read_ready id 10 5 true demo_world pipe_new) as (w' & r & He & Hw & _);
    [reflexivity|apply pipe_new_wf|lia|by right; right|].
  exists w', r. split; [exact He|exact Hw].
Defined.

Lemma close_write_eof_witness :
  (waiters_of (pipe_close_write 10 demo_world) 10).1 = [] ∧
  ∃ w'', pipe_read id 1 10 5 false (pipe_close_write 10 demo_world) = inr (w'', Ok []).
Proof.
  destruct (close_write_eof id 10 demo_world pipe_new 5 false) as (H1 & _ & H2);
    [reflexivity|apply pipe_new_wf|reflexivity|lia|].
  split; [exact H1|apply H2; reflexivity].
Defined.

Lemma write_end_count_witness :
  writers (foldl apply_end pipe_new [DupWrite; CloseWrite; CloseWrite]) = 0 ∧
  write_closed (foldl apply_end pipe_new [DupWrite; CloseWrite; CloseWrite]) = (0 =? 0).
Proof. apply write_end_count; reflexivity. Defined.

(** Process 1 finds the pipe empty and sleeps. *)
Lemma up_no_lost_wakeup_witness :
  let s := read_turn 10 5 false (mkSys (mkWorld {[10 := pipe_new]} ∅ ∅ : World (gset Z)) ∅) in
  s_calls s !! 1 = Some (InRead 5) ∧ sched_asleep (w_kernel (s_world s)) 1 = true ∧ 1 ∈ (waiters_of (s_world s) 10).1.
Proof.
  set (w := mkWorld {[10 := pipe_new]} ∅ ∅ : World (gset Z)). intros s. assert (s_calls s !! 1 = Some (InRead 5)) as H1 by reflexivity. assert (sched_asleep (w_kernel (s_world s)) 1 = true) as H2 by reflexivity.
  split; [exact H1|]. split; [exact H2|]. apply (up_no_lost_wakeup 10 w s 1 (InRead 5)); [apply pipe_new_wf| |exact H1|exact H2]. apply rtc_once, turn_read; [reflexivity|lia|by left].
Defined.

Lemma smp_lost_wakeup_witness : ∃ w2, pipe_write_round id 10 [65] false (register_reader_waiter 10 1 (mkWorld {[10 := pipe_new]} ∅ ∅ : World (gset Z)), 0) = inl (w2, 1) ∧
  sched_asleep (sched_block (w_kernel w2)) 1 = true ∧ contents (the_pipe 10 w2) = [65] ∧ (waiters_of w2 10).1 = [].
Proof.
  destruct (smp_lost_wakeup id 10 1 65 (mkWorld {[10 := pipe_new]} ∅ ∅ : World (gset Z))) as (_ & w2 & H1 & H2 & H3); [apply pipe_new_wf|reflexivity..|].
  exists w2. split; [exact H1|]. split; [apply bool_decide_eq_true_2; cbn; set_solver|]. split; [exact H2|exact H3].
Defined.

Lemma pipe_fifo_witness :
  let '(p', r) := try_write pipe_new [1; 2; 3] in
  pipe_wf p' ∧
   match r with
   | Ok n => n = Z.min (Z.of_nat (length [1; 2; 3])) (PIPE_CAPACITY - len pipe_new) ∧
             contents p' = contents pipe_new ++ take (Z.to_nat n) [1; 2; 3]
   | Err e => p' = pipe_new ∧ (e = EPIPE ∧ read_closed pipe_new = true ∨
                        e = EAGAIN ∧ read_closed pipe_new = false ∧ len pipe_new = PIPE_CAPACITY)
   end.
Proof. apply (pipe_fifo pipe_new [1; 2; 3] 2); [apply pipe_new_wf|lia]. Defined.

Lemma write_read_roundtrip_witness :
  ∃ p1 p2, try_write pipe_new [1; 2; 3] = (p1, Ok 3) ∧
    try_read p1 PIPE_CAPACITY = (p2, Ok (contents pipe_new ++ [1; 2; 3])) ∧ contents p2 = [].
Proof. apply (write_read_roundtrip pipe_new [1; 2; 3]); [apply pipe_new_wf|reflexivity|vm_compute; discriminate|done]. Defined.
