(* ===== verification/Phys.v ===== *)
(** * Physical frames: buddy allocator and per-processor magazines

    Models kernel/src/memory/phys.rs and the fields of kernel/src/boot/mod.rs
    it reads.  The bitmaps [free_bitmaps] are a sparse array of 64-bit words
    indexed by order and word number (an absent word is zero); an index outside
    the source's array is a panic ([None]).  Block and frame numbers are below
    2^20 whenever the bitmaps accept them, so their arithmetic does not wrap.

    [buddy_rep b F] relates an allocator to the set of frames that are free:
    the theorems say that [alloc] and [free] are removal and insertion of an
    aligned block of that set, and that [alloc] fails only if the set has no
    such block. *)
From S2P Require Import Prelude.

Definition PAGE_SIZE : Z := 4096.
Definition MAX_FRAMES : Z := 1048576.
Definition BITMAP_WORDS : Z := MAX_FRAMES / 64.
Definition MAX_ORDER : Z := 11.
Definition MAGAZINE_SIZE : Z := 64.
Definition MAX_CPUS_PHYS : Z := 64.

(** ** Buddy allocator *)
Record BuddyAlloc := mkBuddy {
  free_bitmaps : gmap (Z * Z) Z;
  total_frames : Z;
  free_frames : Z;
}.

Definition buddy_new : BuddyAlloc := mkBuddy ∅ 0 0.

Definition word_at (b : BuddyAlloc) (order i : Z) : Z := default 0 (free_bitmaps b !! (order, i)).
Definition in_bitmap (order i : Z) : bool :=
  (0 <=? order) && (order <=? MAX_ORDER) && (0 <=? i) && (i <? BITMAP_WORDS).
Definition set_word (order i w : Z) (b : BuddyAlloc) : BuddyAlloc :=
  mkBuddy (<[(order, i) := w]> (free_bitmaps b)) (total_frames b) (free_frames b).
Definition set_free_frames (n : Z) (b : BuddyAlloc) : BuddyAlloc := mkBuddy (free_bitmaps b) (total_frames b) n.

Definition set_free (b : BuddyAlloc) (order block_idx : Z) : option BuddyAlloc :=
  if in_bitmap order (block_idx / 64)
  then Some (set_word order (block_idx / 64) (word_set (word_at b order (block_idx / 64)) (block_idx mod 64)) b)
  else None.

Definition clr_free (b : BuddyAlloc) (order block_idx : Z) : option BuddyAlloc :=
  if in_bitmap order (block_idx / 64)
  then Some (set_word order (block_idx / 64) (word_clr (word_at b order (block_idx / 64)) (block_idx mod 64)) b)
  else None.

Definition is_free (b : BuddyAlloc) (order block_idx : Z) : option bool :=
  if in_bitmap order (block_idx / 64)
  then Some (negb (Z.land (word_at b order (block_idx / 64)) (Z.shiftl 1 (block_idx mod 64)) =? 0))
  else None.

Definition find_free_round (b : BuddyAlloc) (order i : Z) : Z + Z :=
  let w := word_at b order i in
  if w =? 0 then inl (i + 1) else inr (i * 64 + trailing_zeros 64 w).

Definition find_free (b : BuddyAlloc) (order : Z) : option Z :=
  let max := Z.shiftr MAX_FRAMES order / 64 + 1 in
  match loop_pos (find_free_round b order) (Z.to_pos (Z.min max BITMAP_WORDS)) 0 with
  | inr idx => Some idx
  | inl _ => None
  end.

(** The split loop: [n] halvings, from order [order + n] down to [order]. *)
Fixpoint split_down (n : nat) (order current_idx : Z) (b : BuddyAlloc) : option (BuddyAlloc * Z) :=
  match n with
  | O => Some (b, current_idx)
  | S n => b' ← set_free b (order + Z.of_nat n) (current_idx * 2 + 1); split_down n order (current_idx * 2) b'
  end.

(** The search through the orders from [o] up; the outer option is a panic,
    the inner one the result. *)
Fixpoint alloc_from (n : nat) (order o : Z) (b : BuddyAlloc) : option (BuddyAlloc * option Z) :=
  match n with
  | O => Some (b, None)
  | S n =>
      match find_free b o with
      | Some idx =>
          b1 ← clr_free b o idx;
          match split_down (Z.to_nat (o - order)) order idx b1 with
          | Some (b2, current_idx) =>
              let frames := 2 ^ order in
              Some (if frames <=? free_frames b2 then set_free_frames (free_frames b2 - frames) b2 else b2,
                    Some (current_idx * frames * PAGE_SIZE))
          | None => None
          end
      | None => alloc_from n order (o + 1) b
      end
  end.

Definition alloc (b : BuddyAlloc) (order : Z) : option (BuddyAlloc * option Z) :=
  alloc_from (Z.to_nat (MAX_ORDER + 1 - order)) order order b.

(** One round of the coalescing loop, on the block ([o], [idx]). *)
Definition free_round (s : BuddyAlloc * Z * Z) : (BuddyAlloc * Z * Z) + option BuddyAlloc :=
  let '(b, idx, o) := s in
  let buddy := Z.lxor idx 1 in
  if MAX_ORDER <=? o then inr (set_free b o idx)
  else match is_free b o buddy with
       | None => inr None
       | Some false => inr (set_free b o idx)
       | Some true => match clr_free b o buddy with
                      | None => inr None
                      | Some b' => inl (b', idx / 2, o + 1)
                      end
       end.

(** [free]; the loop ends within [MAX_ORDER] + 1 rounds. *)
Definition free (b : BuddyAlloc) (phys order : Z) : option BuddyAlloc :=
  let frames := 2 ^ order in
  let block_idx := phys / PAGE_SIZE / frames in
  match loop_nat free_round 12 (set_free_frames (wadd 64 (free_frames b) frames) b, block_idx, order) with
  | inr r => r
  | inl _ => None
  end.

Fixpoint mark_used_loop (n : nat) (f : Z) (b : BuddyAlloc) : option BuddyAlloc :=
  match n with
  | O => Some b
  | S n => b' ← clr_free b 0 f; mark_used_loop n (f + 1) b'
  end.
Definition mark_range_used (b : BuddyAlloc) (first count : Z) : option BuddyAlloc :=
  b' ← mark_used_loop (Z.to_nat count) first b;
  Some (if count <=? free_frames b' then set_free_frames (free_frames b' - count) b' else b').

Fixpoint add_loop (n : nat) (f : Z) (b : BuddyAlloc) : option BuddyAlloc :=
  match n with
  | O => Some b
  | S n => b' ← free b (f * PAGE_SIZE) 0; add_loop n (f + 1) b'
  end.
Definition add_range (b : BuddyAlloc) (first count : Z) : option BuddyAlloc :=
  b' ← add_loop (Z.to_nat count) first b;
  Some (mkBuddy (free_bitmaps b') (wadd 64 (total_frames b') count) (free_frames b')).

(** ** Magazines

    The frames of a magazine below [top], last pushed first; [pop] of the
    source returns 0 when it is empty. *)
Definition mag_pop (m : list Z) : list Z * Z :=
  match m with
  | [] => ([], 0)
  | p :: m => (m, p)
  end.
Definition mag_push (m : list Z) (phys : Z) : list Z * bool :=
  if MAGAZINE_SIZE <=? Z.of_nat (length m) then (m, false) else (phys :: m, true).
Definition mag_full (m : list Z) : bool := MAGAZINE_SIZE <=? Z.of_nat (length m).

(** ** Global state and interface *)
Record Phys := mkPhys {
  buddy : BuddyAlloc;
  magazines : gmap Z (list Z);
  TOTAL_FREE : Z;
  TOTAL_ALL : Z;
}.

Definition cpu_slot (cpu : Z) : Z := Z.min cpu (MAX_CPUS_PHYS - 1).
Definition mag (s : Phys) (cpu : Z) : list Z := default [] (magazines s !! cpu).
Definition set_mag (cpu : Z) (m : list Z) (s : Phys) : Phys :=
  mkPhys (buddy s) (<[cpu := m]> (magazines s)) (TOTAL_FREE s) (TOTAL_ALL s).
Definition set_buddy (b : BuddyAlloc) (s : Phys) : Phys :=
  mkPhys b (magazines s) (TOTAL_FREE s) (TOTAL_ALL s).
Definition set_total_free (n : Z) (s : Phys) : Phys :=
  mkPhys (buddy s) (magazines s) n (TOTAL_ALL s).

(** The refill loop: [n] is the number of free slots. *)
Fixpoint refill (n : nat) (b : BuddyAlloc) (m : list Z) : option (BuddyAlloc * list Z) :=
  match n with
  | O => Some (b, m)
  | S n =>
      if mag_full m then Some (b, m)
      else match alloc b 0 with
           | None => None
           | Some (b', None) => Some (b', m)
           | Some (b', Some p) => refill n b' (mag_push m p).1
           end
  end.

Definition alloc_frame (cpu : Z) (s : Phys) : option (Phys * option Z) :=
  let c := cpu_slot cpu in
  let '(m, phys) := mag_pop (mag s c) in
  if negb (phys =? 0) then Some (set_total_free (wsub 64 (TOTAL_FREE s) 1) (set_mag c m s), Some phys)
  else
    match refill (Z.to_nat MAGAZINE_SIZE) (buddy s) m with
    | None => None
    | Some (b, m1) =>
        let '(m2, phys) := mag_pop m1 in
        let s1 := set_buddy b (set_mag c m2 s) in
        Some (if negb (phys =? 0) then (set_total_free (wsub 64 (TOTAL_FREE s1) 1) s1, Some phys) else (s1, None))
    end.

Fixpoint drain (n : nat) (b : BuddyAlloc) (m : list Z) : option (BuddyAlloc * list Z) :=
  match n with
  | O => Some (b, m)
  | S n =>
      let '(m', p) := mag_pop m in
      if negb (p =? 0) then b' ← free b p 0; drain n b' m' else Some (b, m')
  end.

Definition free_frame (cpu phys : Z) (s : Phys) : option Phys :=
  let c := cpu_slot cpu in
  match mag_push (mag s c) phys with
  | (m, true) => Some (set_total_free (wadd 64 (TOTAL_FREE s) 1) (set_mag c m s))
  | (m, false) =>
      match drain (Z.to_nat (Z.of_nat (length m) / 2)) (buddy s) m with
      | None => None
      | Some (b, m1) =>
          Some (set_total_free (wadd 64 (TOTAL_FREE s) 1) (set_buddy b (set_mag c (mag_push m1 phys).1 s)))
      end
  end.

Definition is_power_of_two (n : Z) : bool := (0 <? n) && (Z.land n (n - 1) =? 0).

Definition alloc_order (n : Z) : Z :=
  Z.min (64 - leading_zeros 64 n - (if is_power_of_two n then 1 else 0)) MAX_ORDER.
Definition alloc_frames (cpu n : Z) (s : Phys) : option (Phys * option Z) :=
  if n =? 0 then Some (s, None)
  else if n =? 1 then alloc_frame cpu s
  else
    let order := alloc_order n in
    match alloc (buddy s) order with
    | None => None
    | Some (b, None) => Some (set_buddy b s, None)
    | Some (b, Some phys) =>
        Some (set_total_free (wsub 64 (TOTAL_FREE s) (2 ^ order)) (set_buddy b s), Some phys)
    end.

Definition free_order (n : Z) : Z := Z.min (sat_sub (64 - leading_zeros 64 n) 1) MAX_ORDER.
Definition free_frames_n (cpu phys n : Z) (s : Phys) : option Phys :=
  if n =? 1 then free_frame cpu phys s
  else
    let order := free_order n in
    b ← free (buddy s) phys order;
    Some (set_total_free (wadd 64 (TOTAL_FREE s) (2 ^ order)) (set_buddy b s)).

Definition reserve_range (phys_start bytes : Z) (s : Phys) : option Phys :=
  let first := phys_start / PAGE_SIZE in
  let count := wsub 64 (wadd 64 bytes PAGE_SIZE) 1 / PAGE_SIZE in
  b ← mark_range_used (buddy s) first count;
  Some (set_buddy b s).

Definition usage_percent (s : Phys) : Z :=
  if TOTAL_ALL s =? 0 then 0
  else wrap 32 (wmul 64 (sat_sub (TOTAL_ALL s) (TOTAL_FREE s)) 100 / TOTAL_ALL s).

(** ** Boot *)
Record UefiMemoryDescriptor := mkDesc { mem_type : Z; phys_start : Z; num_pages : Z }.
Record BootInfo := mkBoot {
  memory_map : list UefiMemoryDescriptor;
  kernel_phys_start : Z;
  kernel_phys_end : Z;
  init_phys_start : Z;
  init_size : Z;
  qshell_phys_start : Z;
  qshell_size : Z;
}.

Definition align_down (a : Z) : Z := Z.land a (wnot 64 (PAGE_SIZE - 1)).
Definition align_up (a : Z) : Z := align_down (wsub 64 (wadd 64 a PAGE_SIZE) 1).

Definition is_reserved (bi : BootInfo) (phys : Z) : bool :=
  let in_range_of lo hi := (lo <=? phys) && (phys <? hi) in
  (phys <? 0x100000)
  || in_range_of (align_down (kernel_phys_start bi)) (align_up (kernel_phys_end bi))
  || (negb (init_size bi =? 0) &&
      in_range_of (align_down (init_phys_start bi)) (align_up (wadd 64 (init_phys_start bi) (init_size bi))))
  || (negb (qshell_size bi =? 0) &&
      in_range_of (align_down (qshell_phys_start bi)) (align_up (wadd 64 (qshell_phys_start bi) (qshell_size bi)))).

Definition usable (d : UefiMemoryDescriptor) : bool :=
  (mem_type d =? 7) || (mem_type d =? 3) || (mem_type d =? 4) || (mem_type d =? 1) || (mem_type d =? 2).

(** The loop over the pages of a descriptor; it runs at most [num_pages]
    rounds. *)
Fixpoint init_pages (bi : BootInfo) (n : nat) (phys desc_end : Z) (b : BuddyAlloc) (total : Z) :
    option (BuddyAlloc * Z) :=
  match n with
  | O => Some (b, total)
  | S n =>
      if phys <? desc_end then
        b' ← (if is_reserved bi phys then Some b else add_range b (phys / PAGE_SIZE) 1);
        init_pages bi n (wadd 64 phys PAGE_SIZE) desc_end b' (wadd 64 total 1)
      else Some (b, total)
  end.

Fixpoint init_descs (bi : BootInfo) (ds : list UefiMemoryDescriptor) (b : BuddyAlloc) (total : Z) :
    option (BuddyAlloc * Z) :=
  match ds with
  | [] => Some (b, total)
  | d :: ds =>
      if usable d then
        let desc_end := wadd 64 (phys_start d) (wmul 64 (num_pages d) PAGE_SIZE) in
        match init_pages bi (Z.to_nat (num_pages d)) (Z.max (phys_start d) 0x100000) desc_end b total with
        | Some (b', total') => init_descs bi ds b' total'
        | None => None
        end
      else init_descs bi ds b total
  end.

Definition phys_init (bi : BootInfo) (s : Phys) : option Phys :=
  match init_descs bi (memory_map bi) buddy_new 0 with
  | Some (b, total) => Some (mkPhys b (magazines s) (free_frames b) total)
  | None => None
  end.

(** ** The free set *)
Definition bit (b : BuddyAlloc) (o i : Z) : bool := Z.testbit (word_at b o (i / 64)) (i mod 64).

(** The frames of block [i] of order [o]. *)
Definition block (o i : Z) : gset Z := list_to_set (seqZ (i * 2 ^ o) (2 ^ o)).
Definition valid_block (o i : Z) : Prop := 0 ≤ o ≤ MAX_ORDER ∧ 0 ≤ i < 2 ^ (20 - o).

(** [b]'s bitmaps describe the free frames [F] as disjoint blocks, no two of
    which are buddies that should have been merged. *)
Record buddy_bits (b : BuddyAlloc) (F : gset Z) : Prop := {
  bb_words k w : free_bitmaps b !! k = Some w → is_u64 w;
  bb_range o i : bit b o i = true → valid_block o i;
  bb_disjoint f o o' : bit b o (f / 2 ^ o) = true → bit b o' (f / 2 ^ o') = true → o = o';
  bb_coalesced o i : o < MAX_ORDER → bit b o i = true → bit b o (Z.lxor i 1) = false;
  bb_frames f : f ∈ F ↔ ∃ o, bit b o (f / 2 ^ o) = true;
}.
Definition buddy_rep (b : BuddyAlloc) (F : gset Z) : Prop :=
  buddy_bits b F ∧ free_frames b = Z.of_nat (size F).

(** ** Arithmetic of blocks *)
Lemma elem_of_block o i f : 0 ≤ o → f ∈ block o i ↔ f / 2 ^ o = i.
Proof.
  intros Ho. assert (0 < 2 ^ o) by lia. unfold block. rewrite elem_of_list_to_set, elem_of_seqZ.
  pose proof (Z.div_mod f (2 ^ o)). pose proof (Z.mod_pos_bound f (2 ^ o)). split.
  - intros Hf. symmetry. apply (Z.div_unique f (2 ^ o) i (f - i * 2 ^ o)); lia.
  - intros <-. nia.
Qed.

Lemma size_block o i : 0 ≤ o → Z.of_nat (size (block o i)) = 2 ^ o.
Proof.
  intros Ho. assert (0 < 2 ^ o) by lia. unfold block. rewrite size_list_to_set by apply NoDup_seqZ.
  rewrite length_seqZ. lia.
Qed.

Lemma block_base o i : 0 ≤ o → i * 2 ^ o / 2 ^ o = i.
Proof. intros Ho. assert (0 < 2 ^ o) by lia. apply Z.div_mul. lia. Qed.

Lemma div_pow_succ f o : 0 ≤ o → f / 2 ^ (o + 1) = f / 2 ^ o / 2.
Proof. intros Ho. rewrite Z.pow_add_r, Z.div_div by lia. done. Qed.

Lemma div_pow_split o o' f : 0 ≤ o ≤ o' → f / 2 ^ o' = f / 2 ^ o / 2 ^ (o' - o).
Proof. intros Ho. rewrite Z.div_div, <-Z.pow_add_r by lia. do 2 f_equal. lia. Qed.

Lemma lxor_1 i : Z.lxor i 1 = if Z.even i then i + 1 else i - 1.
Proof.
  assert (∀ k, Z.lxor (2 * k) 1 = 2 * k + 1) as H.
  { intros k. rewrite Z.add_nocarry_lxor; [done|]. change 1 with (Z.ones 1). rewrite Z.land_ones by lia.
    change (2 ^ 1) with 2. rewrite Z.mul_comm. apply Z.mod_mul. lia. }
  destruct (Z.even i) eqn:E.
  - apply Z.even_spec in E as [k ->]. apply H.
  - assert (Z.odd i = true) as Ho by (by rewrite <-Z.negb_even, E). apply Z.odd_spec in Ho as [k ->].
    rewrite <-H, Z.lxor_assoc, Z.lxor_nilpotent, Z.lxor_0_r, H. lia.
Qed.

(** A block is its two halves. *)
Lemma buddy_half i : i / 2 = Z.lxor i 1 / 2 ∧ Z.lxor i 1 ≠ i ∧ ∀ j, j / 2 = i / 2 → j = i ∨ j = Z.lxor i 1.
Proof.
  rewrite lxor_1. pose proof (Zmod_even i) as Hm.
  destruct (Z.even i); (split_and!; [| |intros j Hj]); Z.div_mod_to_equations; lia.
Qed.

Lemma lxor_1_invol i : Z.lxor (Z.lxor i 1) 1 = i.
Proof. by rewrite Z.lxor_assoc, Z.lxor_nilpotent, Z.lxor_0_r. Qed.

Lemma block_split o i : 0 ≤ o → block (o + 1) (i / 2) = block o i ∪ block o (Z.lxor i 1).
Proof.
  intros Ho. apply set_eq. intros f. rewrite elem_of_union, !elem_of_block by lia. rewrite div_pow_succ by done.
  destruct (buddy_half i) as (H1 & H2 & H3). split; [apply H3|]. intros [<-|Hf]; [done|]. by rewrite Hf.
Qed.

Lemma valid_block_half o i : valid_block o i → o < MAX_ORDER → valid_block (o + 1) (i / 2).
Proof.
  unfold valid_block, MAX_ORDER. intros [Ho Hi] Hlt. replace (20 - o) with (20 - (o + 1) + 1) in Hi by lia.
  rewrite Z.pow_add_r in Hi by lia. pose proof (Z.div_mod i 2). pose proof (Z.mod_pos_bound i 2).
  assert (0 < 2 ^ (20 - (o + 1))) by lia. lia.
Qed.

Lemma valid_block_halves o i :
  0 ≤ o → valid_block (o + 1) i → valid_block o (i * 2) ∧ valid_block o (i * 2 + 1).
Proof.
  unfold valid_block, MAX_ORDER. intros H0 [Ho Hi]. replace (20 - o) with (20 - (o + 1) + 1) by lia.
  rewrite Z.pow_add_r by lia. lia.
Qed.

Lemma valid_block_buddy o i : valid_block o i → o < MAX_ORDER → valid_block o (Z.lxor i 1).
Proof.
  intros Hv Hlt. destruct Hv as [Ho Hi]. destruct (valid_block_half o i) as [H1 H2]; [done|done|].
  destruct (valid_block_halves o (i / 2)) as [Ha Hb]; [lia|done|].
  pose proof (Z.div_mod (Z.lxor i 1) 2). pose proof (Z.mod_pos_bound (Z.lxor i 1) 2).
  destruct (buddy_half i) as (He & _). destruct (Z.eq_dec (Z.lxor i 1 mod 2) 0).
  - replace (Z.lxor i 1) with (i / 2 * 2) by lia. done.
  - replace (Z.lxor i 1) with (i / 2 * 2 + 1) by lia. done.
Qed.

Lemma valid_in_bitmap o i : valid_block o i → in_bitmap o (i / 64) = true.
Proof.
  unfold valid_block, in_bitmap, BITMAP_WORDS, MAX_FRAMES, MAX_ORDER. intros [Ho Hi].
  assert (2 ^ (20 - o) ≤ 2 ^ 20) by (apply Z.pow_le_mono_r; lia). change (2 ^ 20) with 1048576 in *.
  pose proof (Z.div_pos i 64). assert (i / 64 < 1048576 / 64) by (apply Z.div_lt_upper_bound; [lia|]; change (64 * (1048576 / 64)) with 1048576; lia).
  repeat (apply andb_true_intro; split); lia.
Qed.

(** ** Bits *)
Lemma word_at_range b F o i : buddy_bits b F → is_u64 (word_at b o i).
Proof.
  intros Hb. unfold word_at. destruct (free_bitmaps b !! (o, i)) eqn:E; [by eapply Hb|done].
Qed.

Lemma index_64 i j : i / 64 = j / 64 → i mod 64 = j mod 64 → i = j.
Proof. intros. rewrite (Z.div_mod i 64), (Z.div_mod j 64) by done. congruence. Qed.

(** Replacing a word by one that differs in the bit of block ([o], [i]). *)
Lemma bit_set_word b o i w v o' i' :
  (∀ j, 0 ≤ j < 64 → Z.testbit w j = if decide (j = i mod 64) then v else Z.testbit (word_at b o (i / 64)) j) →
  bit (set_word o (i / 64) w b) o' i' = if decide (o' = o ∧ i' = i) then v else bit b o' i'.
Proof.
  intros Hw. unfold bit. pose proof (Z.mod_pos_bound i' 64).
  destruct (decide ((o', i' / 64) = (o, i / 64))) as [He|Hne].
  - injection He as -> Hi. unfold word_at at 1. cbn [set_word free_bitmaps]. rewrite Hi, lookup_insert_eq. cbn.
    rewrite Hw by lia. case_decide as E1; case_decide as E2; try done.
    + destruct E2. split; [done|]. by apply index_64.
    + destruct E2 as [_ ->]. done.
  - unfold word_at at 1. cbn [set_word free_bitmaps]. rewrite lookup_insert_ne by done.
    rewrite decide_False; [done|]. intros [-> ->]. done.
Qed.

Lemma set_free_bit b o i :
  in_bitmap o (i / 64) = true →
  ∃ b', set_free b o i = Some b' ∧ free_frames b' = free_frames b ∧
    (∀ k w, (∀ k w, free_bitmaps b !! k = Some w → is_u64 w) → free_bitmaps b' !! k = Some w → is_u64 w) ∧
    ∀ o' i', bit b' o' i' = if decide (o' = o ∧ i' = i) then true else bit b o' i'.
Proof.
  intros Hin. unfold set_free. rewrite Hin. pose proof (Z.mod_pos_bound i 64). eexists. split; [done|].
  split_and!; [done| |].
  - intros k w Hw. cbn [set_word free_bitmaps]. intros [[<- <-]|[_ ?]]%lookup_insert_Some; [|by eapply Hw].
    apply word_set_range; [|lia]. unfold word_at. destruct (_ !! _) eqn:E; [by eapply Hw|done].
  - intros o' i'. apply bit_set_word. intros j Hj. rewrite word_set_testbit by lia.
    by case_decide; [rewrite bool_decide_eq_true_2|rewrite bool_decide_eq_false_2].
Qed.

Lemma clr_free_bit b o i :
  in_bitmap o (i / 64) = true →
  ∃ b', clr_free b o i = Some b' ∧ free_frames b' = free_frames b ∧
    (∀ k w, (∀ k w, free_bitmaps b !! k = Some w → is_u64 w) → free_bitmaps b' !! k = Some w → is_u64 w) ∧
    ∀ o' i', bit b' o' i' = if decide (o' = o ∧ i' = i) then false else bit b o' i'.
Proof.
  intros Hin. unfold clr_free. rewrite Hin. pose proof (Z.mod_pos_bound i 64). eexists. split; [done|].
  split_and!; [done| |].
  - intros k w Hw. cbn [set_word free_bitmaps]. intros [[<- <-]|[_ ?]]%lookup_insert_Some; [|by eapply Hw].
    apply word_clr_range. unfold word_at. destruct (_ !! _) eqn:E; [by eapply Hw|done].
  - intros o' i'. apply bit_set_word. intros j Hj. rewrite word_clr_testbit by lia.
    by case_decide; [rewrite bool_decide_eq_true_2|rewrite bool_decide_eq_false_2].
Qed.

Lemma is_free_bit b o i : in_bitmap o (i / 64) = true → is_free b o i = Some (bit b o i).
Proof.
  intros Hin. unfold is_free. rewrite Hin. f_equal. apply word_test. by apply Z.mod_pos_bound.
Qed.

(** ** Adding and taking a block *)
Lemma set_free_bits b F o i :
  buddy_bits b F → valid_block o i → block o i ## F →
  (o < MAX_ORDER → bit b o (Z.lxor i 1) = false) →
  ∃ b', set_free b o i = Some b' ∧ buddy_bits b' (F ∪ block o i) ∧ free_frames b' = free_frames b.
Proof.
  intros Hb Hv Hd Hc. destruct (set_free_bit b o i (valid_in_bitmap o i Hv)) as (b' & Hs & Hff & Hw & Hbit).
  exists b'. split; [done|]. split; [|done]. destruct Hv as [Ho Hi].
  assert (∀ f o', f / 2 ^ o = i → bit b o' (f / 2 ^ o') = true → False) as Hno.
  { intros f o' Hf Hbf. apply (Hd f); [by apply elem_of_block; [lia|]|]. apply Hb. eauto. }
  split.
  - intros k w. apply Hw. apply Hb.
  - intros o' i'. rewrite Hbit. case_decide as E; [destruct E as [-> ->]; done|apply Hb].
  - intros f o1 o2. rewrite !Hbit.
    destruct (decide (o1 = o ∧ _)) as [[-> E1]|N1], (decide (o2 = o ∧ _)) as [[-> E2]|N2]; intros H1 H2.
    + done.
    + exfalso. by eapply (Hno f o2).
    + exfalso. by eapply (Hno f o1).
    + by eapply (bb_disjoint _ _ Hb f).
  - intros o' i' Hlt. rewrite !Hbit.
    destruct (decide (o' = o ∧ i' = i)) as [[-> ->]|N1]; [|destruct (decide (o' = o ∧ _)) as [[-> E2]|N2]]; intros H1.
    + case_decide as E; [by destruct (buddy_half i) as (_ & ? & _), E|by apply Hc].
    + rewrite <-E2, lxor_1_invol in Hc. rewrite Hc in H1 by done. done.
    + by eapply (bb_coalesced _ _ Hb).
  - intros f. rewrite elem_of_union, (bb_frames _ _ Hb), elem_of_block by lia. split.
    + intros [[o' Hf]|Hf].
      * exists o'. rewrite Hbit. by case_decide.
      * exists o. rewrite Hbit. by rewrite decide_True.
    + intros [o' Hf]. rewrite Hbit in Hf. case_decide as E; [right; by destruct E as [-> ?]|left; eauto].
Qed.

Lemma clr_free_bits b F o i :
  buddy_bits b F → bit b o i = true →
  ∃ b', clr_free b o i = Some b' ∧ buddy_bits b' (F ∖ block o i) ∧ free_frames b' = free_frames b ∧ block o i ⊆ F.
Proof.
  intros Hb Hi. pose proof (bb_range _ _ Hb _ _ Hi) as Hv.
  destruct (clr_free_bit b o i (valid_in_bitmap o i Hv)) as (b' & Hs & Hff & Hw & Hbit).
  exists b'. destruct Hv as [Ho Hr].
  assert (∀ o' j, bit b' o' j = true → bit b o' j = true ∧ ¬ (o' = o ∧ j = i)) as Hsub.
  { intros o' j. rewrite Hbit. by case_decide. }
  split; [done|]. split_and!; [|done|].
  - split.
    + intros k w. apply Hw. apply Hb.
    + intros o' i' [? _]%Hsub. by apply Hb.
    + intros f o1 o2 [? _]%Hsub [? _]%Hsub. by eapply (bb_disjoint _ _ Hb f).
    + intros o' i' Hlt [Hb1 _]%Hsub. rewrite Hbit. case_decide; [done|]. by eapply (bb_coalesced _ _ Hb).
    + intros f. rewrite elem_of_difference, (bb_frames _ _ Hb), elem_of_block by lia. split.
      * intros [[o' Hf] Hne]. exists o'. rewrite Hbit. rewrite decide_False; [done|]. intros [-> ?]. done.
      * intros [o' [Hf Hne]%Hsub]. split; [by eauto|]. intros <-. apply Hne.
        by rewrite (bb_disjoint _ _ Hb f o' o).
  - intros f. rewrite elem_of_block by lia. intros <-. apply Hb. eauto.
Qed.

(** ** The loops of [alloc] *)
Lemma find_free_loop b F o n i :
  buddy_bits b F → 0 ≤ i →
  match loop_nat (find_free_round b o) n i with
  | inr idx => 0 ≤ idx ∧ bit b o idx = true ∧ ∀ j, 64 * i ≤ j < idx → bit b o j = false
  | inl _ => ∀ j, 64 * i ≤ j < 64 * (i + Z.of_nat n) → bit b o j = false
  end.
Proof.
  intros Hb. revert i. induction n as [|n IH]; intros i Hi; [intros j Hj; lia|].
  rewrite loop_nat_S. unfold find_free_round at 1. pose proof (word_at_range b F o i Hb) as Hw.
  destruct (Z.eqb_spec (word_at b o i) 0) as [Hz|Hnz].
  - assert (∀ j, 64 * i ≤ j < 64 * (i + 1) → bit b o j = false) as Hrow.
    { intros j Hj. unfold bit. assert (j / 64 = i) as -> by (symmetry; apply (Z.div_unique j 64 i (j - 64 * i)); lia).
      rewrite Hz. apply Z.bits_0. }
    specialize (IH (i + 1) ltac:(lia)). destruct (loop_nat _ n (i + 1)) as [k|idx].
    + intros j Hj. destruct (decide (j < 64 * (i + 1))); [apply Hrow; lia|apply IH; lia].
    + destruct IH as (? & ? & Hmin). split_and!; [done|done|]. intros j Hj.
      destruct (decide (j < 64 * (i + 1))); [apply Hrow; lia|apply Hmin; lia].
  - destruct (trailing_zeros_spec 64 _ Hw Hnz) as (Ht & Hbit & Hlow). set (t := trailing_zeros 64 _) in *.
    split_and!; [lia| |].
    + unfold bit. assert ((i * 64 + t) / 64 = i) as -> by (symmetry; apply (Z.div_unique _ 64 i t); lia).
      assert ((i * 64 + t) mod 64 = t) as -> by (symmetry; apply (Z.mod_unique _ 64 i t); lia). done.
    + intros j Hj. unfold bit. assert (j / 64 = i) as -> by (symmetry; apply (Z.div_unique j 64 i (j - 64 * i)); lia).
      apply Hlow. assert (j mod 64 = j - 64 * i) by (symmetry; apply (Z.mod_unique j 64 i (j - 64 * i)); lia). lia.
Qed.

Lemma find_free_spec b F o :
  buddy_bits b F → 0 ≤ o ≤ MAX_ORDER →
  match find_free b o with
  | Some idx => bit b o idx = true ∧ ∀ j, 0 ≤ j < idx → bit b o j = false
  | None => ∀ j, bit b o j = false
  end.
Proof.
  intros Hb Ho. unfold MAX_ORDER in Ho. unfold find_free. rewrite loop_pos_nat. pose proof (find_free_loop b F o (Pos.to_nat (Z.to_pos (Z.min (Z.shiftr MAX_FRAMES o / 64 + 1) BITMAP_WORDS))) 0 Hb ltac:(done)) as H.
  destruct (loop_nat _ _ 0) as [k|idx]; [|naive_solver]. intros j.
  destruct (bit b o j) eqn:E; [|done]. exfalso. destruct (bb_range _ _ Hb _ _ E) as [_ Hj].
  rewrite H in E; [done|]. rewrite Z.shiftr_div_pow2 by lia. rewrite positive_nat_Z.
  assert (MAX_FRAMES / 2 ^ o = 2 ^ (20 - o)) as ->.
  { change MAX_FRAMES with (2 ^ 20). rewrite <-Z.pow_sub_r by lia. done. }
  assert (0 < 2 ^ (20 - o) ≤ 2 ^ 20) by (split; [lia|apply Z.pow_le_mono_r; lia]).
  change (2 ^ 20) with 1048576 in *. unfold BITMAP_WORDS, MAX_FRAMES. change (1048576 / 64) with 16384.
  pose proof (Z.div_mod (2 ^ (20 - o)) 64). pose proof (Z.mod_pos_bound (2 ^ (20 - o)) 64). 
  rewrite Z2Pos.id by lia. lia.
Qed.

Lemma bit_frames b F o i f : buddy_bits b F → bit b o i = true → f ∈ block o i → f ∈ F.
Proof.
  intros Hb Hi Hf. destruct (bb_range _ _ Hb _ _ Hi) as [Ho _]. apply elem_of_block in Hf; [|lia].
  apply Hb. exists o. by rewrite Hf.
Qed.

Lemma block_disjoint_bit b F o i : buddy_bits b F → 0 ≤ o → block o i ## F → bit b o i = false.
Proof.
  intros Hb Ho Hd. destruct (bit b o i) eqn:E; [|done]. exfalso. apply (Hd (i * 2 ^ o)).
  - apply elem_of_block; [done|by apply block_base].
  - eapply bit_frames; [done|done|]. apply elem_of_block; [done|by apply block_base].
Qed.

Lemma sub_block o n i f :
  0 ≤ o → f ∈ block o (i * 2 ^ Z.of_nat n) → f ∈ block (o + Z.of_nat n) i.
Proof.
  intros Ho. rewrite !elem_of_block by lia. rewrite Z.pow_add_r, <-Z.div_div by lia. intros ->. by apply block_base; lia.
Qed.

Lemma split_down_spec n order idx b F :
  buddy_bits b F → 0 ≤ order → valid_block (order + Z.of_nat n) idx → block (order + Z.of_nat n) idx ## F →
  ∃ b', split_down n order idx b = Some (b', idx * 2 ^ Z.of_nat n) ∧ free_frames b' = free_frames b ∧
    buddy_bits b' (F ∪ (block (order + Z.of_nat n) idx ∖ block order (idx * 2 ^ Z.of_nat n))).
Proof.
  revert idx b F. induction n as [|n IH]; intros idx b F Hb Ho Hv Hd; cbn [split_down].
  - rewrite Z.add_0_r. change (2 ^ Z.of_nat 0) with 1. rewrite Z.mul_1_r. eexists. split_and!; [done|done|].
    rewrite difference_diag_L, union_empty_r_L. done.
  - replace (order + Z.of_nat (S n)) with (order + Z.of_nat n + 1) in * by lia.
    set (so := order + Z.of_nat n) in *. assert (0 ≤ so) by lia.
    destruct (valid_block_halves so idx ltac:(done) Hv) as [Hvl Hvr].
    assert (Z.lxor (idx * 2 + 1) 1 = idx * 2) as Hx.
    { rewrite lxor_1. replace (Z.even (idx * 2 + 1)) with false; [lia|].
      rewrite Z.add_comm, Z.mul_comm, Z.even_add_mul_2. done. }
    assert (∀ f, f ∈ block (so + 1) idx ↔ f ∈ block so (idx * 2) ∨ f ∈ block so (idx * 2 + 1)) as Hblk.
    { intros f. rewrite !elem_of_block, div_pow_succ by lia. Z.div_mod_to_equations. lia. }
    assert (block so (idx * 2) ## F) as Hdl by (intros f Hf; apply Hd, Hblk; by left).
    destruct (set_free_bits b F so (idx * 2 + 1)) as (b1 & -> & Hb1 & Hf1); [done|done| | |].
    { intros f Hf. apply Hd, Hblk. by right. }
    { intros _. rewrite Hx. by eapply block_disjoint_bit. }
    cbn [mbind option_bind]. destruct (IH (idx * 2) b1 _ Hb1 Ho Hvl) as (b2 & -> & Hf2 & Hb2).
    { intros f Hf [HF|Hr]%elem_of_union; [by apply (Hdl f)|]. rewrite !elem_of_block in * by lia. lia. }
    rewrite <-Z.mul_assoc, <-(Z.pow_succ_r 2) by lia. replace (Z.succ (Z.of_nat n)) with (Z.of_nat (S n)) by lia.
    exists b2. rewrite <-Z.mul_assoc, <-(Z.pow_succ_r 2) in Hb2 by lia.
    replace (Z.succ (Z.of_nat n)) with (Z.of_nat (S n)) in Hb2 by lia. split_and!; [done|congruence|].
    assert (∀ f, f ∈ block order (idx * 2 ^ Z.of_nat (S n)) → f ∈ block so (idx * 2)) as Hsub.
    { intros f Hf. apply sub_block; [done|]. replace (idx * 2 * 2 ^ Z.of_nat n) with (idx * 2 ^ Z.of_nat (S n)); [done|].
      rewrite Nat2Z.inj_succ, Z.pow_succ_r by lia. lia. }
    eapply eq_ind; [exact Hb2|]. apply set_eq. intros f. specialize (Hsub f). specialize (Hblk f).
    assert (¬ (f ∈ block so (idx * 2) ∧ f ∈ block so (idx * 2 + 1))) by (rewrite !elem_of_block by lia; lia).
    rewrite !elem_of_union, !elem_of_difference, Hblk. tauto.
Qed.

(** Coalescing is complete: an aligned block of free frames lies in one block
    of the bitmaps. *)
Lemma block_covered b F o i :
  buddy_bits b F → 0 ≤ o ≤ MAX_ORDER → block o i ⊆ F →
  ∃ o', o ≤ o' ∧ bit b o' (i * 2 ^ o / 2 ^ o') = true.
Proof.
  intros Hb Ho. revert i. destruct Ho as [H0 Hm]. revert Hm. pattern o. apply natlike_ind; [| |done]; clear o H0.
  - intros _ i HF. assert (i ∈ F) as Hi by (apply HF, elem_of_block; [done|]; by rewrite Z.div_1_r).
    apply Hb in Hi as [o Hbit]. destruct (bb_range _ _ Hb _ _ Hbit) as [? _]. exists o.
    split; [lia|]. by rewrite Z.mul_1_r.
  - intros o Ho IH Hm i HF. rewrite <-Z.add_1_r in *. specialize (IH ltac:(lia)).
    assert (∀ j, j / 2 = i → block o j ⊆ F) as Hsub.
    { intros j Hj f Hf. apply HF. rewrite elem_of_block, div_pow_succ in * by lia. congruence. }
    destruct (IH (i * 2)) as (o1 & Ho1 & Hb1); [apply Hsub; apply Z.div_mul; lia|].
    destruct (IH (i * 2 + 1)) as (o2 & Ho2 & Hb2); [apply Hsub; Z.div_mod_to_equations; lia|].
    assert (i * 2 ^ (o + 1) = i * 2 * 2 ^ o) as He by (rewrite Z.pow_add_r by lia; lia).
    destruct (decide (o1 = o)) as [->|]; [|exists o1; rewrite He; split; [lia|done]].
    destruct (decide (o2 = o)) as [->|].
    + rewrite !block_base in * by done. exfalso. pose proof (bb_coalesced _ _ Hb o (i * 2) ltac:(lia) Hb1) as Hc.
      rewrite lxor_1 in Hc. replace (Z.even (i * 2)) with true in Hc; [congruence|].
      rewrite Z.mul_comm, Z.even_mul. done.
    + exists o2. split; [lia|].
      rewrite He, (div_pow_split (o + 1) o2), div_pow_succ, block_base in * by lia.
      by replace (i * 2 / 2) with ((i * 2 + 1) / 2) by (Z.div_mod_to_equations; lia).
Qed.

Lemma size_take_block F o i :
  0 ≤ o → block o i ⊆ F → Z.of_nat (size (F ∖ block o i)) = Z.of_nat (size F) - 2 ^ o ∧ 2 ^ o ≤ Z.of_nat (size F).
Proof.
  intros Ho Hs. pose proof (size_block o i Ho). rewrite size_difference by done.
  pose proof (subseteq_size _ _ Hs). lia.
Qed.

Lemma alloc_from_spec n order o b F :
  buddy_rep b F → 0 ≤ order ≤ o → order ≤ MAX_ORDER → o + Z.of_nat n = MAX_ORDER + 1 →
  (∀ o', order ≤ o' < o → ∀ j, bit b o' j = false) →
  match alloc_from n order o b with
  | None => False
  | Some (b', Some phys) => ∃ i, phys = i * 2 ^ order * PAGE_SIZE ∧ valid_block order i ∧
      block order i ⊆ F ∧ buddy_rep b' (F ∖ block order i)
  | Some (b', None) => b' = b ∧ ∀ i, ¬ block order i ⊆ F
  end.
Proof.
  intros [Hb Hc] Ho Hm. revert o Ho. induction n as [|n IH]; intros o Ho Hn Hlow; cbn [alloc_from].
  - split; [done|]. intros i Hi. destruct (block_covered b F order i Hb ltac:(lia) Hi) as (o' & Hge & Hbit).
    destruct (bb_range _ _ Hb _ _ Hbit) as [Hr _]. rewrite Hlow in Hbit by lia. done.
  - pose proof (find_free_spec b F o Hb ltac:(lia)) as Hff. destruct (find_free b o) as [idx|].
    + destruct Hff as [Hbit _]. destruct (clr_free_bits b F o idx Hb Hbit) as (b1 & -> & Hb1 & Hf1 & Hsub).
      cbn [mbind option_bind]. pose proof (bb_range _ _ Hb _ _ Hbit) as Hv.
      destruct (split_down_spec (Z.to_nat (o - order)) order idx b1 _ Hb1) as (b2 & -> & Hf2 & Hb2).
      { lia. } { by replace (order + Z.of_nat (Z.to_nat (o - order))) with o by lia. }
      { replace (order + Z.of_nat (Z.to_nat (o - order))) with o by lia. set_solver. }
      set (i := idx * 2 ^ Z.of_nat (Z.to_nat (o - order))) in *.
      assert (block order i ⊆ block o idx) as Hin.
      { intros f Hf. replace o with (order + Z.of_nat (Z.to_nat (o - order))) by lia. apply sub_block; [lia|done]. }
      replace (order + Z.of_nat (Z.to_nat (o - order))) with o in Hb2 by lia.
      destruct (size_take_block F order i) as [Hsz Hge]; [lia|set_solver|].
      exists i. split_and!; [done| |set_solver|].
      * destruct Hv as [? Hidx]. split; [lia|]. unfold i. rewrite Z2Nat.id by lia.
        replace (20 - order) with ((20 - o) + (o - order)) by lia. unfold MAX_ORDER in *. rewrite Z.pow_add_r by lia. nia.
      * replace (2 ^ order <=? free_frames b2) with true by (symmetry; apply Z.leb_le; lia).
        split; [|cbn [set_free_frames free_frames]; lia].
        eapply (eq_ind _ (λ S, buddy_bits (set_free_frames _ b2) S)); [exact Hb2 || (destruct Hb2; split; done)|].
        apply set_eq. intros f. specialize (Hin f). specialize (Hsub f).
        rewrite elem_of_union, !elem_of_difference. destruct (decide (f ∈ block o idx)); tauto.
    + apply IH; [lia|lia|]. intros o' Ho' j. destruct (decide (o' = o)) as [->|]; [apply Hff|apply Hlow; lia].
Qed.

(** ** The loop of [free] *)
Lemma free_loop_spec n b idx o F :
  buddy_bits b F → valid_block o idx → block o idx ## F → MAX_ORDER - o < Z.of_nat n →
  ∃ b', loop_nat free_round n (b, idx, o) = inr (Some b') ∧ buddy_bits b' (F ∪ block o idx) ∧
    free_frames b' = free_frames b.
Proof.
  revert b idx o F. induction n as [|n IH]; intros b idx o F Hb Hv Hd Hn; [destruct Hv; lia|].
  rewrite loop_nat_S. cbn [free_round]. destruct (Z.leb_spec MAX_ORDER o) as [Hge|Hlt].
  - destruct (set_free_bits b F o idx) as (b' & -> & ? & ?); [done|done|done|lia|eauto].
  - pose proof (valid_block_buddy o idx Hv Hlt) as Hvb. rewrite is_free_bit by (by apply valid_in_bitmap).
    destruct (bit b o (Z.lxor idx 1)) eqn:Hbit.
    + destruct (clr_free_bits b F o (Z.lxor idx 1) Hb Hbit) as (b1 & -> & Hb1 & Hf1 & Hsub).
      destruct Hv as [Ho Hi]. pose proof (block_split o idx ltac:(lia)) as Hs.
      destruct (IH b1 (idx / 2) (o + 1) _ Hb1) as (b' & -> & Hb' & Hf').
      * by apply valid_block_half.
      * rewrite Hs. set_solver.
      * lia.
      * exists b'. split_and!; [done| |congruence]. eapply eq_ind; [exact Hb'|]. rewrite Hs. apply set_eq. intros f.
        specialize (Hsub f). rewrite !elem_of_union, elem_of_difference.
        destruct (decide (f ∈ block o (Z.lxor idx 1))); tauto.
    + destruct (set_free_bits b F o idx) as (b' & -> & ? & ?); [done|done|done|done|eauto].
Qed.

Lemma buddy_bits_count b F n : buddy_bits b F → buddy_bits (set_free_frames n b) F.
Proof. intros []. by split. Qed.

Lemma frames_below b F f : buddy_bits b F → f ∈ F → 0 ≤ f < MAX_FRAMES.
Proof.
  intros Hb Hf. apply Hb in Hf as [o Hbit]. destruct (bb_range _ _ Hb _ _ Hbit) as [Ho Hi]. unfold MAX_ORDER in Ho.
  assert (0 < 2 ^ o) by lia. change MAX_FRAMES with (2 ^ 20). replace 20 with (20 - o + o) by lia.
  rewrite Z.pow_add_r by lia. pose proof (Z.div_mod f (2 ^ o)). pose proof (Z.mod_pos_bound f (2 ^ o)). nia.
Qed.

Lemma size_frames_below (F : gset Z) : (∀ f, f ∈ F → 0 ≤ f < MAX_FRAMES) → Z.of_nat (size F) ≤ MAX_FRAMES.
Proof.
  intros HF. assert (F ⊆ list_to_set (seqZ 0 MAX_FRAMES)) as Hs%subseteq_size.
  { intros f Hf. apply elem_of_list_to_set, elem_of_seqZ. specialize (HF f Hf). lia. }
  rewrite size_list_to_set, length_seqZ in Hs by apply NoDup_seqZ. unfold MAX_FRAMES in *. lia.
Qed.

Lemma free_spec_aux b F order i :
  buddy_rep b F → valid_block order i → block order i ## F →
  ∃ b', free b (i * 2 ^ order * PAGE_SIZE) order = Some b' ∧ buddy_rep b' (F ∪ block order i).
Proof.
  intros [Hb Hc] Hv Hd. destruct Hv as [Ho Hi]. unfold free.
  assert (i * 2 ^ order * PAGE_SIZE / PAGE_SIZE / 2 ^ order = i) as ->.
  { rewrite (Z.div_mul _ PAGE_SIZE) by done. apply block_base. lia. }
  destruct (free_loop_spec 12 (set_free_frames (wadd 64 (free_frames b) (2 ^ order)) b) i order F)
    as (b' & -> & Hb' & Hf'); [by apply buddy_bits_count|done|done|unfold MAX_ORDER; lia|].
  exists b'. split; [done|]. split; [done|]. rewrite Hf'. cbn [set_free_frames free_frames].
  pose proof (size_block order i ltac:(lia)). rewrite size_union by set_solver.
  pose proof (size_frames_below F (λ f, frames_below b F f Hb)). unfold MAX_FRAMES, MAX_ORDER in *.
  assert (2 ^ order ≤ 2 ^ 11) by (apply Z.pow_le_mono_r; lia). rewrite wadd_small by lia. lia.
Qed.

Lemma buddy_new_rep : buddy_rep buddy_new ∅.
Proof.
  assert (∀ o i, bit buddy_new o i = false) as H.
  { intros o i. unfold bit, word_at. cbn [buddy_new free_bitmaps]. rewrite lookup_empty. apply Z.bits_0. }
  split; [|done]. split.
  - intros k w. cbn [buddy_new free_bitmaps]. by rewrite lookup_empty.
  - intros o i. by rewrite H.
  - intros f o o'. by rewrite H.
  - intros o i _. by rewrite H.
  - intros f. split; [set_solver|]. intros [o Ho]. by rewrite H in Ho.
Qed.

(** ** Buddy allocator and magazines together *)
Definition mget (M : gmap Z (list Z)) (c : Z) : list Z := default [] (M !! c).

(** The free frames [F] are those of the buddy allocator and, as addresses,
    those in the magazines, without repetition.  Frame 0 is never free. *)
Record parts (B : gset Z) (M : gmap Z (list Z)) (F : gset Z) : Prop := {
  pt_len c : Z.of_nat (length (mget M c)) ≤ MAGAZINE_SIZE;
  pt_nodup c : NoDup (mget M c);
  pt_frame c p : p ∈ mget M c → ∃ f, p = f * PAGE_SIZE ∧ 0 < f < MAX_FRAMES ∧ f ∉ B;
  pt_owner c c' p : p ∈ mget M c → p ∈ mget M c' → c = c';
  pt_all f : f ∈ F ↔ f ∈ B ∨ ∃ c, f * PAGE_SIZE ∈ mget M c;
  pt_below f : f ∈ B → 0 < f < MAX_FRAMES;
}.

Record phys_rep (s : Phys) (F : gset Z) : Prop := {
  ph_buddy : ∃ B, buddy_rep (buddy s) B ∧ parts B (magazines s) F;
  ph_total : TOTAL_FREE s = Z.of_nat (size F);
}.

Lemma mget_insert M c m c' : mget (<[c := m]> M) c' = if decide (c' = c) then m else mget M c'.
Proof. unfold mget. case_decide; [subst; by rewrite lookup_insert_eq|by rewrite lookup_insert_ne]. Qed.

Lemma page_inj f g : f * PAGE_SIZE = g * PAGE_SIZE → f = g.
Proof. unfold PAGE_SIZE. lia. Qed.

Lemma parts_below B M F f : parts B M F → f ∈ F → 0 < f < MAX_FRAMES.
Proof.
  intros Hp [Hf|[c Hc]]%(pt_all _ _ _ Hp); [by eapply pt_below|].
  destruct (pt_frame _ _ _ Hp c _ Hc) as (g & ->%page_inj & ? & _). done.
Qed.

(** A frame that is in no magazine goes into magazine [c]. *)
Lemma parts_push B M F B' F' c f m :
  parts B M F → mget M c = m → Z.of_nat (length m) < MAGAZINE_SIZE → 0 < f < MAX_FRAMES →
  (∀ c', f * PAGE_SIZE ∉ mget M c') → f ∉ B' → B' ⊆ B →
  (∀ g, g ∈ F' ↔ g = f ∨ g ∈ B' ∨ ∃ c', g * PAGE_SIZE ∈ mget M c') →
  parts B' (<[c := f * PAGE_SIZE :: m]> M) F'.
Proof.
  intros Hp Hm Hl Hf Hn HB' Hsub HF. subst m. split.
  - intros c'. rewrite mget_insert. case_decide; [cbn [length]; lia|apply Hp].
  - intros c'. rewrite mget_insert. case_decide; [|apply Hp]. constructor; [apply Hn|apply Hp].
  - intros c' p. rewrite mget_insert. case_decide; [|intros Hin]; [intros [->|Hin]%elem_of_cons; [by eauto|]|];
      destruct (pt_frame _ _ _ Hp _ _ Hin) as (g & ? & ? & ?); exists g; set_solver.
  - intros c1 c2 p. rewrite !mget_insert. repeat case_decide; subst; try done.
    + intros [->|H1]%elem_of_cons H2; [by apply Hn in H2|by eapply (pt_owner _ _ _ Hp)].
    + intros H1 [->|H2]%elem_of_cons; [by apply Hn in H1|by eapply (pt_owner _ _ _ Hp)].
    + by apply Hp.
  - intros g. rewrite HF. split.
    + intros [->|[?|[c' Hc]]]; [right; exists c; rewrite mget_insert, decide_True by done; set_solver|by left|].
      right. exists c'. rewrite mget_insert. case_decide; [subst; set_solver|done].
    + intros [?|[c' Hc]]; [by right; left|]. rewrite mget_insert in Hc. case_decide; [|by eauto].
      apply elem_of_cons in Hc as [->%page_inj|]; [by left|]. eauto.
  - intros g Hg. eapply pt_below; [done|set_solver].
Qed.

(** The last frame pushed on magazine [c] leaves it. *)
Lemma parts_pop B M F c p m B' F' :
  parts B M F → mget M c = p :: m → B ⊆ B' → (∀ g, g ∈ B' → g * PAGE_SIZE = p ∨ g ∈ B) →
  (∀ g, g ∈ F' ↔ g ∈ B' ∨ g ∈ F ∧ g * PAGE_SIZE ≠ p) →
  parts B' (<[c := m]> M) F'.
Proof.
  intros Hp Hm HB HB' HF. pose proof (pt_nodup _ _ _ Hp c) as Hnd. rewrite Hm in Hnd. apply NoDup_cons in Hnd as [Hni Hnd].
  assert (∀ c' q, q ∈ mget (<[c := m]> M) c' → q ∈ mget M c' ∧ q ≠ p) as Hin.
  { intros c' q. rewrite mget_insert. case_decide; [subst|].
    - rewrite Hm. intros Hq. split; [set_solver|]. by intros ->.
    - intros Hq. split; [done|]. intros ->. assert (c' = c); [|done].
      eapply (pt_owner _ _ _ Hp); [done|]. rewrite Hm. set_solver. }
  split.
  - intros c'. rewrite mget_insert. case_decide; [|apply Hp]. pose proof (pt_len _ _ _ Hp c) as Hl.
    rewrite Hm in Hl. cbn [length] in Hl. lia.
  - intros c'. rewrite mget_insert. case_decide; [done|apply Hp].
  - intros c' q [Hq Hne]%Hin. destruct (pt_frame _ _ _ Hp _ _ Hq) as (g & ? & ? & ?). exists g. split_and!; [done|lia|lia|].
    intros [Hg|]%HB'; [|done]. congruence.
  - intros c1 c2 q [? _]%Hin [? _]%Hin. by eapply (pt_owner _ _ _ Hp).
  - intros g. rewrite HF, (pt_all _ _ _ Hp). split.
    + intros [?|[[?|[c' Hc]] Hne]]; [by left|left; set_solver|]. right. exists c'. rewrite mget_insert.
      case_decide; [|done]. subst. rewrite Hm in Hc. set_solver.
    + intros [?|[c' [Hc Hne]%Hin]]; [by left|]. right. eauto.
  - intros g [Hg|Hg]%HB'; [|by eapply pt_below]. subst p.
    destruct (pt_frame _ _ _ Hp c (g * PAGE_SIZE)) as (h & ->%page_inj & ? & _); [rewrite Hm; set_solver|]. done.
Qed.

Lemma mag_mget s c : mag s c = mget (magazines s) c.
Proof. done. Qed.

Lemma alloc_frame_0 b B :
  buddy_rep b B →
  match alloc b 0 with
  | None => False
  | Some (b', Some p) => ∃ f, p = f * PAGE_SIZE ∧ f ∈ B ∧ buddy_rep b' (B ∖ {[f]})
  | Some (b', None) => b' = b ∧ B = ∅
  end.
Proof.
  intros Hb. pose proof (alloc_from_spec (Z.to_nat (MAX_ORDER + 1 - 0)) 0 0 b B Hb) as H.
  unfold alloc. assert (∀ i, block 0 i = {[i]}) as Hblk.
  { intros i. apply set_eq. intros f. rewrite elem_of_block, Z.div_1_r by done. set_solver. }
  destruct (alloc_from _ 0 0 b) as [[b' [p|]]|].
  - destruct H as (i & -> & _ & Hi & Hr); [done|done|done|intros; lia|]. exists i. rewrite Hblk in *.
    rewrite Z.mul_1_r. split_and!; [done|set_solver|done].
  - destruct H as [-> Hn]; [done|done|done|intros; lia|]. split; [done|]. apply set_eq. intros f. split; [|set_solver].
    intros Hf. exfalso. apply (Hn f). rewrite Hblk. set_solver.
  - apply H; [done|done|done|intros; lia].
Qed.

Lemma refill_spec n b m B M F c :
  buddy_rep b B → parts B (<[c := m]> M) F →
  ∃ b' m' B', refill n b m = Some (b', m') ∧ buddy_rep b' B' ∧ parts B' (<[c := m']> M) F ∧
    (m' = [] → n ≠ 0%nat → m = [] ∧ B' = ∅).
Proof.
  revert b m B. induction n as [|n IH]; intros b m B Hb Hp; cbn [refill].
  - exists b, m, B. done.
  - unfold mag_full. destruct (Z.leb_spec MAGAZINE_SIZE (Z.of_nat (length m))) as [Hge|Hlt].
    { exists b, m, B. split_and!; [done|done|done|]. intros -> _. unfold MAGAZINE_SIZE in Hge. cbn in Hge. lia. }
    pose proof (alloc_frame_0 b B Hb) as Ha. destruct (alloc b 0) as [[b1 [p|]]|]; [| |done].
    + destruct Ha as (f & -> & Hf & Hb1). unfold mag_push. destruct (Z.leb_spec MAGAZINE_SIZE (Z.of_nat (length m))); [lia|].
      cbn [fst]. destruct (IH b1 (f * PAGE_SIZE :: m) (B ∖ {[f]}) Hb1) as (b' & m' & B' & Hr & Hb' & Hp' & He).
      * rewrite <-(insert_insert_eq M c (f * PAGE_SIZE :: m) m).
        assert (∀ c', f * PAGE_SIZE ∉ mget (<[c := m]> M) c') as Hno.
        { intros c' Hin. destruct (pt_frame _ _ _ Hp _ _ Hin) as (g & ->%page_inj & _ & ?). done. }
        eapply (parts_push B _ F); try done; [by rewrite mget_insert, decide_True|by eapply pt_below|set_solver|set_solver|].
        intros g. rewrite (pt_all _ _ _ Hp). destruct (decide (g = f)) as [->|]; set_solver.
      * exists b', m', B'. split_and!; [done|done|done|]. intros -> _. exfalso.
        destruct n as [|n]; [cbn in Hr; congruence|]. destruct (He eq_refl) as [[=] _]. done.
    + destruct Ha as [-> ->]. exists b, m, ∅. done.
Qed.

Lemma size_remove (F : gset Z) f : f ∈ F → Z.of_nat (size (F ∖ {[f]})) = Z.of_nat (size F) - 1 ∧ 1 ≤ Z.of_nat (size F).
Proof.
  intros Hf. rewrite size_difference by set_solver. rewrite size_singleton.
  assert ({[f]} ⊆ F) as Hs%subseteq_size by set_solver. rewrite size_singleton in Hs. lia.
Qed.

Lemma parts_size B M F : parts B M F → Z.of_nat (size F) ≤ MAX_FRAMES.
Proof. intros Hp. apply size_frames_below. intros f Hf. pose proof (parts_below _ _ _ _ Hp Hf). lia. Qed.

(** Taking the top of a magazine that holds one. *)
Lemma take_top s F c p m B t :
  buddy_rep (buddy s) B → parts B (magazines s) F → mget (magazines s) c = p :: m →
  TOTAL_FREE s = Z.of_nat (size F) → t = wsub 64 (TOTAL_FREE s) 1 →
  p ≠ 0 ∧ ∃ f, p = f * PAGE_SIZE ∧ f ∈ F ∧ phys_rep (set_total_free t (set_mag c m s)) (F ∖ {[f]}).
Proof.
  intros Hb Hp Hm Ht ->. assert (p ∈ mget (magazines s) c) as Hin by (rewrite Hm; set_solver).
  destruct (pt_frame _ _ _ Hp c p Hin) as (f & -> & Hf & HfB). assert (f ∈ F) as HfF by (apply (pt_all _ _ _ Hp); eauto).
  split; [unfold PAGE_SIZE; lia|]. exists f. split_and!; [done|done|]. split.
  - exists B. split; [done|]. eapply parts_pop; [done|done|done|by right|].
    intros g. rewrite elem_of_difference, elem_of_singleton, (pt_all _ _ _ Hp). split.
    + intros [? Hne]. right. split; [done|]. intros ?%page_inj. done.
    + intros [Hg|[Hg Hne]]; [|by split; [|intros ->]]. split; [by left|]. by intros ->.
  - cbn [set_total_free TOTAL_FREE set_mag]. rewrite Ht. pose proof (size_remove F f HfF) as [-> ?].
    pose proof (parts_size _ _ _ Hp). unfold MAX_FRAMES in *. rewrite wsub_small by lia. done.
Qed.

Lemma parts_id B M F c : parts B M F → parts B (<[c := mget M c]> M) F.
Proof.
  intros Hp. assert (∀ c', mget (<[c := mget M c]> M) c' = mget M c') as E.
  { intros c'. rewrite mget_insert. by case_decide; [subst|]. }
  destruct Hp. split; intros; rewrite ?E in *; eauto. rewrite pt_all0. by setoid_rewrite E.
Qed.

Lemma alloc_frame_spec cpu s F :
  phys_rep s F →
  ∃ s' r, alloc_frame cpu s = Some (s', r) ∧
    match r with
    | Some p => ∃ f, p = f * PAGE_SIZE ∧ f ∈ F ∧ phys_rep s' (F ∖ {[f]})
    | None => phys_rep s' F ∧ mag s (cpu_slot cpu) = [] ∧
        ∀ f, f ∈ F → ∃ c, c ≠ cpu_slot cpu ∧ f * PAGE_SIZE ∈ mag s c
    end.
Proof.
  intros [(B & Hb & Hp) Ht]. unfold alloc_frame. set (c := cpu_slot cpu). rewrite mag_mget.
  destruct (mget (magazines s) c) as [|p m] eqn:Hm; cbn [mag_pop].
  - cbn [negb Z.eqb]. pose proof (parts_id B _ F c Hp) as Hp1. rewrite Hm in Hp1.
    destruct (refill_spec (Z.to_nat MAGAZINE_SIZE) (buddy s) [] B (magazines s) F c Hb Hp1)
      as (b' & m' & B' & -> & Hb' & Hp' & He).
    destruct m' as [|p m']; cbn [mag_pop].
    + cbn [negb Z.eqb]. eexists _, None. split; [done|]. destruct (He eq_refl) as [_ ->]; [done|]. split_and!; [|done|].
      * split; [by exists ∅|done].
      * intros f [?|[c' Hc]]%(pt_all _ _ _ Hp'); [set_solver|]. rewrite mget_insert in Hc.
        case_decide; [set_solver|]. by exists c'.
    + destruct (take_top (mkPhys b' (<[c := p :: m']> (magazines s)) (TOTAL_FREE s) (TOTAL_ALL s)) F c p m' B' (wsub 64 (TOTAL_FREE s) 1))
        as (Hne & f & -> & Hf & [Hr1 Hr2]); [done|done|by cbn; rewrite mget_insert, decide_True|done|done|].
      replace (negb (f * PAGE_SIZE =? 0)) with true by lia. eexists _, (Some _). split; [done|].
      exists f. split_and!; [done|done|]. cbn in Hr1. rewrite insert_insert_eq in Hr1. by split.
  - destruct (take_top s F c p m B (wsub 64 (TOTAL_FREE s) 1) Hb Hp Hm Ht eq_refl) as (Hne & f & -> & Hf & Hr).
    replace (negb (f * PAGE_SIZE =? 0)) with true by lia. eexists _, (Some _). split; [done|]. eauto.
Qed.

Lemma free_frame_0 b B f :
  buddy_rep b B → 0 < f < MAX_FRAMES → f ∉ B →
  ∃ b', free b (f * PAGE_SIZE) 0 = Some b' ∧ buddy_rep b' (B ∪ {[f]}).
Proof.
  intros Hb Hf Hn. assert (block 0 f = {[f]}) as Hblk.
  { apply set_eq. intros g. rewrite elem_of_block, Z.div_1_r by done. set_solver. }
  destruct (free_spec_aux b B 0 f Hb) as (b' & Hfr & Hr).
  - split; [done|]. change (2 ^ (20 - 0)) with MAX_FRAMES. lia.
  - rewrite Hblk. set_solver.
  - rewrite Hblk in Hr. change (2 ^ 0) with 1 in Hfr. rewrite Z.mul_1_r in Hfr. eauto.
Qed.

Lemma drain_spec n b m B M F c :
  buddy_rep b B → parts B (<[c := m]> M) F →
  ∃ b' m' B', drain n b m = Some (b', m') ∧ buddy_rep b' B' ∧ parts B' (<[c := m']> M) F ∧
    (length m' ≤ length m - n)%nat.
Proof.
  revert b m B. induction n as [|n IH]; intros b m B Hb Hp; cbn [drain].
  - exists b, m, B. split_and!; [done..|lia].
  - destruct m as [|p m]; cbn [mag_pop].
    + cbn [negb Z.eqb]. exists b, [], B. split_and!; [done..|cbn; lia].
    + assert (mget (<[c := p :: m]> M) c = p :: m) as Hm by (by rewrite mget_insert, decide_True).
      destruct (pt_frame _ _ _ Hp c p) as (f & -> & Hf & HfB); [rewrite Hm; set_solver|].
      replace (negb (f * PAGE_SIZE =? 0)) with true by (unfold PAGE_SIZE; lia).
      destruct (free_frame_0 b B f Hb Hf HfB) as (b1 & -> & Hb1). cbn [mbind option_bind].
      destruct (IH b1 m (B ∪ {[f]}) Hb1) as (b' & m' & B' & -> & Hb' & Hp' & Hl).
      * rewrite <-(insert_insert_eq M c m (f * PAGE_SIZE :: m)).
        eapply parts_pop; [done|done|set_solver|set_solver|]. intros g.
        rewrite (pt_all _ _ _ Hp). rewrite elem_of_union, elem_of_singleton. split.
        -- destruct (decide (g = f)) as [->|]; [by left; right|]. intros Hg. right. split; [done|]. by intros ?%page_inj.
        -- intros [[?| ->]|[? _]]; [by left| |done]. right. exists c. rewrite Hm. set_solver.
      * exists b', m', B'. split_and!; [done..|cbn; lia].
Qed.

Lemma free_frame_spec cpu s F f :
  phys_rep s F → 0 < f < MAX_FRAMES → f ∉ F →
  ∃ s', free_frame cpu (f * PAGE_SIZE) s = Some s' ∧ phys_rep s' (F ∪ {[f]}).
Proof.
  intros [(B & Hb & Hp) Ht] Hf Hn. unfold free_frame. set (c := cpu_slot cpu). rewrite mag_mget.
  assert (wadd 64 (TOTAL_FREE s) 1 = Z.of_nat (size (F ∪ {[f]}))) as Hcount.
  { rewrite size_union, size_singleton by set_solver. pose proof (parts_size _ _ _ Hp). unfold MAX_FRAMES in *.
    rewrite Ht, wadd_small by lia. lia. }
  assert (∀ B' m', buddy_rep (buddy s) B ∧ parts B' (<[c := m']> (magazines s)) F → Z.of_nat (length m') < MAGAZINE_SIZE →
    parts B' (<[c := f * PAGE_SIZE :: m']> (magazines s)) (F ∪ {[f]})) as Hpush.
  { intros B' m' [_ Hp'] Hl. rewrite <-(insert_insert_eq (magazines s) c (f * PAGE_SIZE :: m') m').
    eapply (parts_push B' _ F); try done.
    - by rewrite mget_insert, decide_True.
    - intros c' Hc'. apply Hn, (pt_all _ _ _ Hp'). eauto.
    - intros HB. apply Hn, (pt_all _ _ _ Hp'). by left.
    - intros g. rewrite elem_of_union, elem_of_singleton, (pt_all _ _ _ Hp'). tauto. }
  pose proof (parts_id B _ F c Hp) as Hpid. unfold mag_push at 1.
  destruct (Z.leb_spec MAGAZINE_SIZE (Z.of_nat (length (mget (magazines s) c)))) as [Hfull|Hroom].
  - destruct (drain_spec (Z.to_nat (Z.of_nat (length (mget (magazines s) c)) / 2)) (buddy s) _ B (magazines s) F c Hb Hpid)
      as (b' & m' & B' & -> & Hb' & Hp' & Hl).
    pose proof (pt_len _ _ _ Hp c) as Hlen. unfold MAGAZINE_SIZE in *.
    assert (Z.of_nat (length m') < 64) as Hlt.
    { assert (Z.of_nat (length (mget (magazines s) c)) = 64) as E by lia. rewrite E in Hl. change (Z.to_nat (64 / 2)) with 32%nat in Hl. lia. }
    unfold mag_push. unfold MAGAZINE_SIZE. destruct (Z.leb_spec 64 (Z.of_nat (length m'))); [lia|].
    eexists. split; [done|]. split; [|done]. exists B'. split; [done|]. cbn. apply Hpush; [done|lia].
  - eexists. split; [done|]. split; [|done]. exists B. split; [done|]. cbn. by apply Hpush.
Qed.

(** ** Boot *)
Lemma add_range_1 b B f :
  buddy_rep b B → 0 < f < MAX_FRAMES → f ∉ B → ∃ b', add_range b f 1 = Some b' ∧ buddy_rep b' (B ∪ {[f]}).
Proof.
  intros Hb Hf Hn. destruct (free_frame_0 b B f Hb Hf Hn) as (b' & Hfr & [Hb' Hc']).
  unfold add_range. change (Z.to_nat 1) with 1%nat. cbn [add_loop]. rewrite Hfr. cbn [mbind option_bind].
  eexists. split; [done|]. split; [by destruct Hb'; split|done].
Qed.

Definition page_free (bi : BootInfo) (lo hi g : Z) : Prop := lo ≤ g < hi ∧ is_reserved bi (g * PAGE_SIZE) = false.

Lemma init_pages_spec bi n lo hi b B total :
  buddy_rep b B → 0 < lo → hi ≤ MAX_FRAMES → hi - lo ≤ Z.of_nat n → (∀ g, lo ≤ g < hi → g ∉ B) →
  ∃ b' total' B', init_pages bi n (lo * PAGE_SIZE) (hi * PAGE_SIZE) b total = Some (b', total') ∧
    buddy_rep b' B' ∧ ∀ g, g ∈ B' ↔ g ∈ B ∨ page_free bi lo hi g.
Proof.
  revert lo b B total. induction n as [|n IH]; intros lo b B total Hb Hlo Hhi Hn Hdisj; cbn [init_pages].
  - exists b, total, B. split_and!; [done|done|]. unfold page_free. intros g. split; [by left|]. intros [?|[? _]]; [done|lia].
  - destruct (Z.ltb_spec (lo * PAGE_SIZE) (hi * PAGE_SIZE)) as [Hlt|Hge].
    + assert (lo < hi) by (unfold PAGE_SIZE in Hlt; lia).
      assert (∃ b1 B1, (if is_reserved bi (lo * PAGE_SIZE) then Some b else add_range b (lo * PAGE_SIZE / PAGE_SIZE) 1) = Some b1 ∧
        buddy_rep b1 B1 ∧ ∀ g, g ∈ B1 ↔ g ∈ B ∨ g = lo ∧ is_reserved bi (g * PAGE_SIZE) = false) as (b1 & B1 & -> & Hb1 & HB1).
      { destruct (is_reserved bi (lo * PAGE_SIZE)) eqn:Hr.
        - exists b, B. split_and!; [done|done|]. intros g. split; [by left|]. intros [?|[-> ?]]; [done|congruence].
        - rewrite Z.div_mul by done. destruct (add_range_1 b B lo Hb) as (b1 & -> & Hb1); [lia|apply Hdisj; lia|].
          exists b1, (B ∪ {[lo]}). split_and!; [done|done|]. intros g. rewrite elem_of_union, elem_of_singleton. naive_solver. }
      cbn [mbind option_bind]. unfold MAX_FRAMES, PAGE_SIZE in *. rewrite wadd_small by lia.
      replace (lo * 4096 + 4096) with ((lo + 1) * 4096) by lia.
      destruct (IH (lo + 1) b1 B1 (wadd 64 total 1) Hb1) as (b' & t' & B' & -> & Hb' & HB'); [lia|lia|lia| |].
      { intros g Hg [?|[-> _]]%HB1; [|lia]. apply (Hdisj g); [lia|done]. }
      exists b', t', B'. split_and!; [done|done|]. intros g. rewrite HB', HB1. unfold page_free, PAGE_SIZE.
      destruct (decide (g = lo)) as [->|]; [|naive_solver lia]. split; [naive_solver lia|].
      intros [?|[? ?]]; [by left; left|]. by left; right.
    + exists b, total, B. split_and!; [done|done|]. unfold page_free, PAGE_SIZE in *. intros g. split; [by left|].
      intros [?|[? _]]; [done|lia].
Qed.

(** A descriptor of whole pages below 4 GB. *)
Definition desc_ok (d : UefiMemoryDescriptor) : Prop :=
  ∃ first, phys_start d = first * PAGE_SIZE ∧ 0 ≤ first ∧ 0 ≤ num_pages d ∧ first + num_pages d ≤ MAX_FRAMES.
Definition desc_pages (d : UefiMemoryDescriptor) (f : Z) : Prop :=
  phys_start d ≤ f * PAGE_SIZE < phys_start d + num_pages d * PAGE_SIZE.

Lemma exists_cons {A} (P : A → Prop) y l : (∃ d, d ∈ y :: l ∧ P d) ↔ P y ∨ ∃ d, d ∈ l ∧ P d.
Proof. setoid_rewrite elem_of_cons. naive_solver. Qed.

Lemma init_descs_spec bi ds b B total :
  buddy_rep b B → Forall desc_ok ds →
  (∀ i j d d' f, ds !! i = Some d → ds !! j = Some d' → desc_pages d f → desc_pages d' f → i = j) →
  (∀ d f, d ∈ ds → desc_pages d f → f ∉ B) →
  ∃ b' total' B', init_descs bi ds b total = Some (b', total') ∧ buddy_rep b' B' ∧
    ∀ f, f ∈ B' ↔ f ∈ B ∨ is_reserved bi (f * PAGE_SIZE) = false ∧ ∃ d, d ∈ ds ∧ usable d = true ∧ desc_pages d f.
Proof.
  intros Hb Hok. revert b B total Hb. induction Hok as [|d ds Hd Hok IH]; intros b B total Hb Hdisj HB; cbn [init_descs].
  - exists b, total, B. split_and!; [done|done|]. set_solver.
  - assert (∀ i j d d' f, ds !! i = Some d → ds !! j = Some d' → desc_pages d f → desc_pages d' f → i = j) as Hdisj'.
    { intros i j d1 d2 f H1 H2 H3 H4. specialize (Hdisj (S i) (S j) d1 d2 f H1 H2 H3 H4). lia. }
    destruct (usable d) eqn:Hu.
    + destruct Hd as (first & Hps & Hf0 & Hnp & Hend). rewrite Hps.
      assert (Z.max (first * PAGE_SIZE) 0x100000 = Z.max first 256 * PAGE_SIZE) as -> by (unfold PAGE_SIZE; lia).
      assert (wadd 64 (first * PAGE_SIZE) (wmul 64 (num_pages d) PAGE_SIZE) = (first + num_pages d) * PAGE_SIZE) as ->.
      { unfold wmul, MAX_FRAMES, PAGE_SIZE in *. rewrite wrap_small by (unfold in_range; lia). rewrite wadd_small by lia. lia. }
      destruct (init_pages_spec bi (Z.to_nat (num_pages d)) (Z.max first 256) (first + num_pages d) b B total Hb)
        as (b1 & t1 & B1 & -> & Hb1 & HB1); [lia|lia|lia| |].
      { intros g Hg. apply (HB d); [set_solver|]. unfold desc_pages. rewrite Hps. unfold PAGE_SIZE. lia. }
      assert (∀ g, page_free bi (Z.max first 256) (first + num_pages d) g ↔
        is_reserved bi (g * PAGE_SIZE) = false ∧ desc_pages d g) as Hpf.
      { intros g. unfold page_free, desc_pages. rewrite Hps. split; [intros [? ?]; unfold PAGE_SIZE in *; split; [done|lia]|].
        intros [Hr ?]. split; [|done]. assert (0x100000 ≤ g * PAGE_SIZE); [|unfold PAGE_SIZE in *; lia].
        unfold is_reserved in Hr. destruct (Z.ltb_spec (g * PAGE_SIZE) 0x100000); [done|lia]. }
      destruct (IH b1 B1 t1 Hb1 Hdisj') as (b' & t' & B' & -> & Hb' & HB').
      { intros d' f Hd' Hf [?|[_ Hpd]%Hpf]%HB1; [by eapply HB; [right|..]|]. apply list_elem_of_lookup in Hd' as [j Hj].
        by specialize (Hdisj 0%nat (S j) d d' f eq_refl Hj Hpd Hf). }
      exists b', t', B'. split_and!; [done|done|]. intros f. rewrite HB', HB1, Hpf, exists_cons. tauto.
    + destruct (IH b B total Hb Hdisj') as (b' & t' & B' & -> & Hb' & HB'); [by intros; eapply HB; [right|..]|].
      exists b', t', B'. split_and!; [done|done|]. intros f. rewrite HB', exists_cons, Hu.
      intuition congruence.
Qed.

(** ** Canonical form *)
Lemma bit_iff_maximal b F o i :
  buddy_bits b F → 0 ≤ o ≤ MAX_ORDER →
  bit b o i = true ↔ block o i ⊆ F ∧ (o = MAX_ORDER ∨ ¬ block (o + 1) (i / 2) ⊆ F).
Proof.
  intros Hb Ho. split.
  - intros Hbit. split; [intros f Hf; by eapply bit_frames|]. destruct (decide (o = MAX_ORDER)) as [|Hne]; [by left|right].
    intros Hsub. destruct (block_covered b F (o + 1) (i / 2) Hb ltac:(lia) Hsub) as (o' & Ho' & Hb').
    assert (o = o'); [|lia]. apply (bb_disjoint _ _ Hb (i * 2 ^ o)); [by rewrite block_base by lia|].
    rewrite (div_pow_split (o + 1) o'), block_base in Hb' by lia.
    by rewrite (div_pow_split (o + 1) o'), div_pow_succ, block_base by lia.
  - intros [Hsub Hmax]. destruct (block_covered b F o i Hb Ho Hsub) as (o' & Ho' & Hb').
    destruct (decide (o' = o)) as [->|]; [by rewrite block_base in Hb' by lia|]. exfalso.
    destruct (bb_range _ _ Hb _ _ Hb') as [Hr _]. destruct Hmax as [->|Hn]; [lia|]. apply Hn. intros f.
    rewrite elem_of_block by lia. intros Hf. apply Hb. exists o'.
    rewrite (div_pow_split (o + 1) o'), div_pow_succ, block_base in Hb' by lia.
    by rewrite (div_pow_split (o + 1) o'), Hf by lia.
Qed.

Lemma buddy_bits_canonical b b' F o i : buddy_bits b F → buddy_bits b' F → bit b o i = bit b' o i.
Proof.
  intros Hb Hb'. assert (∀ b, buddy_bits b F → bit b o i = true → 0 ≤ o ≤ MAX_ORDER) as Hr.
  { intros b0 H0 H1. by destruct (bb_range _ _ H0 _ _ H1). }
  apply eq_bool_prop_intro. rewrite !Is_true_true. split; intros H.
  - pose proof (Hr b Hb H). by rewrite bit_iff_maximal in * by done.
  - pose proof (Hr b' Hb' H). by rewrite bit_iff_maximal in * by done.
Qed.

Lemma alloc_spec_aux b F order :
  buddy_rep b F → 0 ≤ order ≤ MAX_ORDER →
  match alloc b order with
  | None => False
  | Some (b', Some phys) => ∃ i, phys = i * 2 ^ order * PAGE_SIZE ∧ valid_block order i ∧
      block order i ⊆ F ∧ buddy_rep b' (F ∖ block order i)
  | Some (b', None) => b' = b ∧ ∀ i, ¬ block order i ⊆ F
  end.
Proof. intros Hb Ho. apply alloc_from_spec; [done|lia|lia|unfold MAX_ORDER in *; lia|]. intros. lia. Qed.

(** ** Several frames *)
Lemma log2_leading n : 0 < n < 2 ^ 64 → 64 - leading_zeros 64 n = Z.log2 n + 1.
Proof. intros Hn. unfold leading_zeros. destruct n as [|p|p]; lia. Qed.

Lemma is_power_of_two_spec n : 0 < n → is_power_of_two n = bool_decide (n = 2 ^ Z.log2 n).
Proof.
  intros Hn. unfold is_power_of_two. replace (0 <? n) with true by lia. cbn [andb].
  pose proof (Z.log2_spec n Hn) as Hl. pose proof (Z.log2_nonneg n) as Hk. rewrite Z.pow_succ_r in Hl by done.
  case_bool_decide as E.
  - apply Z.eqb_eq. rewrite E. replace (2 ^ Z.log2 n - 1) with (Z.ones (Z.log2 n)) by (rewrite Z.ones_equiv; lia).
    rewrite Z.land_ones by done. apply Z.mod_same. lia.
  - apply Z.eqb_neq. intros H0. assert (Z.testbit (Z.land n (n - 1)) (Z.log2 n) = true) as Hb.
    { rewrite Z.land_spec, Z.bit_log2 by done. assert (Z.log2 (n - 1) = Z.log2 n) as <-.
      { apply Z.log2_unique; [done|]. rewrite Z.pow_succ_r by done. lia. }
      rewrite Z.bit_log2 by lia. done. }
    rewrite H0, Z.bits_0 in Hb. done.
Qed.

Lemma free_order_log2 n : 2 ≤ n ≤ 2048 → free_order n = Z.log2 n ∧ 1 ≤ Z.log2 n ≤ 11.
Proof.
  intros Hn. unfold free_order. rewrite log2_leading by lia. unfold sat_sub, MAX_ORDER.
  assert (Z.log2 2 ≤ Z.log2 n ≤ Z.log2 2048) as [H1 H2] by (split; apply Z.log2_le_mono; lia).
  change (Z.log2 2) with 1 in H1. change (Z.log2 2048) with 11 in H2. lia.
Qed.

Lemma alloc_order_log2 n :
  2 ≤ n ≤ 2048 → alloc_order n = Z.log2 n + (if decide (n = 2 ^ Z.log2 n) then 0 else 1) ∧ 0 ≤ alloc_order n ≤ 11.
Proof.
  intros Hn. unfold alloc_order. rewrite log2_leading, is_power_of_two_spec by lia. unfold MAX_ORDER.
  destruct (free_order_log2 n Hn) as [_ Hl]. case_decide as E.
  - rewrite bool_decide_eq_true_2 by done. lia.
  - rewrite bool_decide_eq_false_2 by done. assert (Z.log2 n ≠ 11); [|lia]. intros H. apply E. rewrite H.
    pose proof (Z.log2_spec n ltac:(lia)) as [H1 _]. rewrite H in H1. change (2 ^ 11) with 2048 in *. lia.
Qed.

Lemma parts_take B M F S : parts B M F → S ⊆ B → parts (B ∖ S) M (F ∖ S).
Proof.
  intros Hp HS. destruct Hp as [Hl Hn Hf Ho Ha Hb]. split; [done|done| |done| |].
  - intros c p Hin. destruct (Hf c p Hin) as (g & ? & ? & ?). exists g. set_solver.
  - intros f. rewrite !elem_of_difference, Ha. split; [tauto|]. intros [?|[c Hc]]; [tauto|].
    split; [by right; exists c|]. destruct (Hf c _ Hc) as (g & ->%page_inj & _ & ?). set_solver.
  - intros f. set_solver.
Qed.

Lemma parts_give B M F S :
  parts B M F → (∀ f, f ∈ S → 0 < f < MAX_FRAMES) → S ## F → parts (B ∪ S) M (F ∪ S).
Proof.
  intros Hp HS Hd. destruct Hp as [Hl Hn Hf Ho Ha Hb]. split; [done|done| |done| |].
  - intros c p Hin. destruct (Hf c p Hin) as (g & -> & ? & ?). exists g. split_and!; [done|lia|lia|].
    intros [?|Hg]%elem_of_union; [done|]. apply (Hd g Hg), Ha. eauto.
  - intros f. rewrite !elem_of_union, Ha. tauto.
  - intros f [?|?]%elem_of_union; auto.
Qed.

Lemma alloc_frames_ok cpu n s F :
  phys_rep s F → 2 ≤ n ≤ 2048 →
  ∃ s' r, alloc_frames cpu n s = Some (s', r) ∧
    match r with
    | Some p => ∃ i, p = i * 2 ^ alloc_order n * PAGE_SIZE ∧ valid_block (alloc_order n) i ∧
        block (alloc_order n) i ⊆ F ∧ phys_rep s' (F ∖ block (alloc_order n) i)
    | None => s' = s
    end.
Proof.
  intros [(B & Hb & Hp) Ht] Hn. unfold alloc_frames. destruct (alloc_order_log2 n Hn) as [_ Ho].
  replace (n =? 0) with false by lia. replace (n =? 1) with false by lia. cbn zeta. set (order := alloc_order n) in *.
  pose proof (alloc_spec_aux (buddy s) B order Hb Ho) as Ha.
  destruct (alloc (buddy s) order) as [[b' [p|]]|]; [| |done].
  - destruct Ha as (i & -> & Hv & Hsub & Hb'). eexists _, (Some _). split; [done|]. exists i.
    assert (block order i ⊆ F) as HF by (intros f Hf; apply (pt_all _ _ _ Hp); left; by apply Hsub).
    split_and!; [done|done|done|]. split; [exists (B ∖ block order i); split; [done|by apply parts_take]|].
    cbn. destruct (size_take_block F order i) as [-> ?]; [lia|done|]. pose proof (parts_size _ _ _ Hp).
    unfold MAX_FRAMES in *. rewrite Ht, wsub_small by lia. done.
  - destruct Ha as [-> _]. eexists _, None. split; [done|]. by destruct s.
Qed.

Lemma phys_init_ok bi s :
  Forall desc_ok (memory_map bi) → magazines s = ∅ →
  (∀ i j d d' f, memory_map bi !! i = Some d → memory_map bi !! j = Some d' →
     desc_pages d f → desc_pages d' f → i = j) →
  ∃ s' F, phys_init bi s = Some s' ∧ phys_rep s' F ∧
    ∀ f, f ∈ F ↔ is_reserved bi (f * PAGE_SIZE) = false ∧
      ∃ d, d ∈ memory_map bi ∧ usable d = true ∧ desc_pages d f.
Proof.
  intros Hok Hm Hdisj. destruct (init_descs_spec bi (memory_map bi) buddy_new ∅ 0 buddy_new_rep Hok Hdisj)
    as (b & t & B & Hi & Hb & HB); [set_solver|].
  assert (∀ f, f ∈ B ↔ is_reserved bi (f * PAGE_SIZE) = false ∧ ∃ d, d ∈ memory_map bi ∧ usable d = true ∧ desc_pages d f) as HB2.
  { intros f. rewrite HB, elem_of_empty. tauto. }
  unfold phys_init. rewrite Hi. eexists _, B. split; [done|]. split; [|done].
  assert (∀ c, mget (magazines s) c = []) as He by (intros c; unfold mget; by rewrite Hm, lookup_empty).
  split; [|by apply Hb]. exists B. split; [done|]. cbn [magazines].
  split; try setoid_rewrite He.
  - done.
  - intros c. constructor.
  - intros c p Hin. by apply not_elem_of_nil in Hin.
  - intros c c' p Hin. by apply not_elem_of_nil in Hin.
  - intros f. split; [by left|]. intros [?|[c Hin]]; [done|]. by apply not_elem_of_nil in Hin.
  - intros f Hf. pose proof (frames_below b B f (proj1 Hb) Hf) as Hlt. split; [|lia]. apply HB2 in Hf as [Hr _].
    unfold is_reserved in Hr. destruct (Z.ltb_spec (f * PAGE_SIZE) 0x100000); [done|unfold PAGE_SIZE in *; lia].
Qed.

(** ** Theorems *)

(** C6. [alloc] refines removal from the set of free frames: on every order it
    either returns the address of an aligned block of free frames, which leave
    the set, or fails because the set holds no aligned block of that size; it
    never panics.  That a failure means there is no such block rests on the
    coalescing of [free]. *)
Theorem alloc_refines b F order :
  buddy_rep b F → 0 ≤ order ≤ MAX_ORDER →
  match alloc b order with
  | None => False
  | Some (b', Some phys) => ∃ i, phys = i * 2 ^ order * PAGE_SIZE ∧ valid_block order i ∧
      block order i ⊆ F ∧ buddy_rep b' (F ∖ block order i)
  | Some (b', None) => b' = b ∧ ∀ i, ¬ block order i ⊆ F
  end.
Proof. apply alloc_spec_aux. Qed.

(** C7. [free] of an allocated, aligned block below 4 GB inserts its frames
    into the free set, merging buddies as far as possible; the loop ends and
    no index is out of range. *)
Theorem free_refines b F order i :
  buddy_rep b F → valid_block order i → block order i ## F →
  ∃ b', free b (i * 2 ^ order * PAGE_SIZE) order = Some b' ∧ buddy_rep b' (F ∪ block order i).
Proof. apply free_spec_aux. Qed.

(** No fragmentation from an allocation and its release: freeing a block
    right after allocating it restores every bit of every bitmap and the
    counter. *)
Theorem alloc_free_roundtrip b F order b1 phys :
  buddy_rep b F → 0 ≤ order ≤ MAX_ORDER → alloc b order = Some (b1, Some phys) →
  ∃ b2, free b1 phys order = Some b2 ∧ free_frames b2 = free_frames b ∧
    ∀ o i, is_free b2 o i = is_free b o i.
Proof.
  intros Hb Ho Ha. pose proof (alloc_spec_aux b F order Hb Ho) as H. rewrite Ha in H.
  destruct H as (i & -> & Hv & Hsub & Hb1).
  destruct (free_spec_aux b1 _ order i Hb1 Hv) as (b2 & Hf & Hb2); [set_solver|].
  replace (F ∖ block order i ∪ block order i) with F in Hb2
    by (apply set_eq; intros f; specialize (Hsub f); destruct (decide (f ∈ block order i)); set_solver).
  exists b2. split; [done|]. destruct Hb as [Hb Hc], Hb2 as [Hb2 Hc2]. split; [congruence|].
  intros o j. destruct (in_bitmap o (j / 64)) eqn:E; [|unfold is_free; by rewrite E].
  rewrite !is_free_bit by done. f_equal. by eapply buddy_bits_canonical.
Qed.

(** Single frames: [alloc_frame] on any processor hands out a frame that
    was free and counts it, or fails only when the processor's magazine and
    the buddy allocator are empty, every free frame being in another
    processor's magazine; [free_frame] makes an allocated frame free again. *)
Theorem frame_alloc_free cpu s F :
  phys_rep s F →
  (∃ s' r, alloc_frame cpu s = Some (s', r) ∧
    match r with
    | Some p => ∃ f, p = f * PAGE_SIZE ∧ f ∈ F ∧ phys_rep s' (F ∖ {[f]})
    | None => phys_rep s' F ∧ mag s (cpu_slot cpu) = [] ∧
        ∀ f, f ∈ F → ∃ c, c ≠ cpu_slot cpu ∧ f * PAGE_SIZE ∈ mag s c
    end) ∧
  (∀ f, 0 < f < MAX_FRAMES → f ∉ F →
    ∃ s', free_frame cpu (f * PAGE_SIZE) s = Some s' ∧ phys_rep s' (F ∪ {[f]})).
Proof. intros Hs. split; [by apply alloc_frame_spec|]. intros f Hf Hn. by apply free_frame_spec. Qed.

(** Boot: from a memory map of disjoint, page-aligned descriptors below
    4 GB, [init] frees exactly the pages of usable descriptors that are not
    reserved (first megabyte, kernel, init and shell images). *)
Theorem phys_init_spec bi s :
  Forall desc_ok (memory_map bi) → magazines s = ∅ →
  (∀ i j d d' f, memory_map bi !! i = Some d → memory_map bi !! j = Some d' →
     desc_pages d f → desc_pages d' f → i = j) →
  ∃ s' F, phys_init bi s = Some s' ∧ phys_rep s' F ∧
    ∀ f, f ∈ F ↔ is_reserved bi (f * PAGE_SIZE) = false ∧
      ∃ d, d ∈ memory_map bi ∧ usable d = true ∧ desc_pages d f.
Proof. apply phys_init_ok. Qed.

(** [alloc_frames] of 2 to 2048 frames: the block it returns has room for
    them, is contiguous and aligned, was free, and less than twice too
    large. *)
Theorem alloc_frames_enough cpu n s F :
  phys_rep s F → 2 ≤ n ≤ 2048 →
  ∃ s' r, alloc_frames cpu n s = Some (s', r) ∧
    match r with
    | Some p => ∃ i order, p = i * 2 ^ order * PAGE_SIZE ∧ n ≤ 2 ^ order < 2 * n ∧
        block order i ⊆ F ∧ phys_rep s' (F ∖ block order i)
    | None => s' = s
    end.
Proof.
  intros Hs Hn. destruct (alloc_frames_ok cpu n s F Hs Hn) as (s' & r & Ha & Hr). exists s', r. split; [done|].
  destruct r as [p|]; [|done]. destruct Hr as (i & -> & _ & Hsub & Hr). exists i, (alloc_order n). split_and!; try done.
  - destruct (alloc_order_log2 n Hn) as [-> _]. pose proof (Z.log2_spec n ltac:(lia)) as Hl.
    rewrite Z.pow_succ_r in Hl by apply Z.log2_nonneg. case_decide; [rewrite Z.add_0_r; lia|].
    rewrite Z.pow_add_r by (try apply Z.log2_nonneg; lia). lia.
  - destruct (alloc_order_log2 n Hn) as [-> _]. pose proof (Z.log2_spec n ltac:(lia)) as Hl.
    rewrite Z.pow_succ_r in Hl by apply Z.log2_nonneg. case_decide; [rewrite Z.add_0_r; lia|].
    rewrite Z.pow_add_r by (try apply Z.log2_nonneg; lia). lia.
Qed.

(** [free_frames_n] with the number passed to [alloc_frames] gives back
    half the block when that number is not a power of two: of the 2^(k+1)
    frames taken, 2^k stay allocated for good. *)
Theorem free_frames_n_leaks cpu n s F s1 p :
  phys_rep s F → 2 ≤ n ≤ 2048 → n ≠ 2 ^ Z.log2 n →
  alloc_frames cpu n s = Some (s1, Some p) →
  ∃ s2 F2, free_frames_n cpu p n s1 = Some s2 ∧ phys_rep s2 F2 ∧ F2 ⊆ F ∧
    Z.of_nat (size F2) = Z.of_nat (size F) - 2 ^ Z.log2 n.
Proof.
  intros Hs Hn Hp2 Ha. destruct (alloc_frames_ok cpu n s F Hs Hn) as (s' & r & Ha' & Hr).
  rewrite Ha in Ha'. simplify_eq. destruct Hr as (i & -> & Hv & Hsub & [(B & Hb & Hp) Ht]).
  destruct (alloc_order_log2 n Hn) as [Ho _]. rewrite decide_False in Ho by done.
  destruct (free_order_log2 n Hn) as [Hfo Hl]. unfold free_frames_n. replace (n =? 1) with false by lia.
  cbn zeta. rewrite Hfo. set (k := Z.log2 n) in *. rewrite Ho in *. clear Ho.
  destruct (valid_block_halves k i ltac:(lia) Hv) as [Hvl _].
  assert (block k (i * 2) ⊆ block (k + 1) i) as Hhalf.
  { intros f. rewrite !elem_of_block, div_pow_succ by lia. intros ->. apply Z.div_mul. lia. }
  assert (block k (i * 2) ## F ∖ block (k + 1) i) as Hd by set_solver.
  destruct (free_spec_aux (buddy s') B k (i * 2) Hb Hvl) as (b2 & Hfr & Hb2).
  { intros f Hf HB. apply (Hd f Hf). apply (pt_all _ _ _ Hp). by left. }
  replace (i * 2 * 2 ^ k * PAGE_SIZE) with (i * 2 ^ (k + 1) * PAGE_SIZE) in Hfr by (rewrite Z.pow_add_r by lia; lia).
  rewrite Hfr. cbn [mbind option_bind]. eexists _, (F ∖ block (k + 1) i ∪ block k (i * 2)). split; [done|].
  assert (Z.of_nat (size (F ∖ block (k + 1) i ∪ block k (i * 2))) = Z.of_nat (size F) - 2 ^ k) as Hsz.
  { rewrite size_union by set_solver. rewrite Nat2Z.inj_add, size_block by lia.
    destruct (size_take_block F (k + 1) i) as [-> _]; [lia|done|]. rewrite Z.pow_add_r by lia. lia. }
  destruct Hs as [(B0 & _ & Hp0) _]. split_and!; [|set_solver|done]. split.
  - eexists. split; [exact Hb2|]. cbn [set_total_free set_buddy magazines]. apply parts_give; [done| |done].
    intros f Hf. eapply parts_below; [exact Hp0|]. set_solver.
  - cbn. rewrite Hsz, Ht. destruct (size_take_block F (k + 1) i) as [-> ?]; [lia|done|].
    pose proof (parts_size _ _ _ Hp0). unfold MAX_FRAMES in *. rewrite Z.pow_add_r in * by lia.
    rewrite wadd_small by lia. lia.
Qed.

(** A request for more than 2048 frames is answered with 2048: the order
    is capped without a check that the block is large enough. *)
Theorem alloc_frames_too_small n : 2048 < n < 2 ^ 64 → alloc_order n = MAX_ORDER ∧ 2 ^ alloc_order n < n.
Proof.
  intros Hn. assert (alloc_order n = MAX_ORDER) as He; [|rewrite He; change (2 ^ MAX_ORDER) with 2048; lia].
  unfold alloc_order. rewrite log2_leading, is_power_of_two_spec by lia.
  assert (Z.log2 2048 ≤ Z.log2 n) as Hl by (apply Z.log2_le_mono; lia). change (Z.log2 2048) with 11 in Hl.
  unfold MAX_ORDER. case_bool_decide as E; [|lia]. assert (Z.log2 n ≠ 11); [|lia].
  intros H. rewrite H in E. change (2 ^ 11) with 2048 in E. lia.
Qed.

(** [reserve_range] does not reserve frames of merged blocks: it clears
    bits of order 0 only, and every free block of two frames or more stays
    free. *)
Theorem reserve_range_keeps_merged phys_start bytes s s' o i :
  reserve_range phys_start bytes s = Some s' → 0 < o →
  is_free (buddy s') o i = is_free (buddy s) o i.
Proof.
  unfold reserve_range, mark_range_used. intros H Ho. cbn zeta in H.
  set (n := Z.to_nat _) in H. set (f := phys_start / PAGE_SIZE) in H. set (c := _ / PAGE_SIZE) in H.
  assert (∀ n f b b', mark_used_loop n f b = Some b' → is_free b' o i = is_free b o i) as Hloop.
  { clear -Ho. intros n. induction n as [|n IH]; intros f b b'; cbn [mark_used_loop]; [by intros [= ->]|].
    unfold clr_free at 1. destruct (in_bitmap 0 (f / 64)); [|done]. cbn [mbind option_bind]. intros ->%IH.
    unfold is_free, word_at. cbn [set_word free_bitmaps]. by rewrite lookup_insert_ne by (intros [= E _]; lia). }
  destruct (mark_used_loop n f (buddy s)) as [b'|] eqn:E; [|done]. cbn [mbind option_bind] in H. injection H as <-.
  rewrite <-(Hloop n f (buddy s) b' E). cbn [set_buddy buddy]. by destruct (c <=? free_frames b').
Qed.

(** Memory above 4 GB stops the kernel: [init] panics on a memory map
    whose first usable descriptor starts at or above the 2^20-th frame, the
    index being out of the bitmap. *)
Theorem phys_init_panics bi s d ds :
  memory_map bi = d :: ds → usable d = true → MAX_FRAMES * PAGE_SIZE ≤ phys_start d →
  phys_start d + num_pages d * PAGE_SIZE < 2 ^ 64 → 0 < num_pages d → is_reserved bi (phys_start d) = false →
  phys_init bi s = None.
Proof.
  intros Hm Hu Hs He Hn Hr. unfold phys_init. rewrite Hm. cbn [init_descs]. rewrite Hu.
  unfold MAX_FRAMES, PAGE_SIZE in *. unfold wmul. rewrite wrap_small by (unfold in_range; lia). rewrite wadd_small by lia.
  rewrite Z.max_l by lia. destruct (Z.to_nat (num_pages d)) as [|n] eqn:En; [lia|]. cbn [init_pages].
  replace (phys_start d <? _) with true by lia. rewrite Hr. unfold PAGE_SIZE.
  set (f := phys_start d / 4096). assert (1048576 ≤ f) by (apply Z.div_le_lower_bound; lia).
  assert (1048576 / 64 ≤ Z.lxor f 1 / 64) as Hge.
  { apply Z.div_le_mono; [done|]. rewrite lxor_1. destruct (Z.even f) eqn:Ev; [lia|].
    assert (f ≠ 1048576); [|lia]. intros ->. done. }
  assert (add_range buddy_new f 1 = None) as ->; [|done].
  unfold add_range. change (Z.to_nat 1) with 1%nat. cbn [add_loop]. unfold free.
  rewrite Z.div_mul by done. change (2 ^ 0) with 1. rewrite Z.div_1_r, loop_nat_S. cbn [free_round].
  replace (MAX_ORDER <=? 0) with false by done. unfold is_free, in_bitmap, BITMAP_WORDS, MAX_FRAMES.
  replace (Z.lxor f 1 / 64 <? 1048576 / 64) with false by (symmetry; apply Z.ltb_ge; done).
  by rewrite !andb_false_r.
Qed.

(** The usage figure is a percentage. *)
Theorem usage_percent_bounds s F :
  phys_rep s F → 0 ≤ TOTAL_ALL s ≤ MAX_FRAMES → 0 ≤ usage_percent s ≤ 100.
Proof.
  intros [_ Ht] Ha. unfold usage_percent. destruct (Z.eqb_spec (TOTAL_ALL s) 0); [lia|]. unfold MAX_FRAMES, sat_sub in *.
  unfold wmul. rewrite (wrap_small 64) by (unfold in_range; lia).
  set (u := Z.max (TOTAL_ALL s - TOTAL_FREE s) 0). assert (0 ≤ u * 100 / TOTAL_ALL s ≤ 100) as Hb.
  { split; [apply Z.div_pos; lia|]. apply Z.div_le_upper_bound; lia. }
  rewrite wrap_small by (unfold in_range; lia). done.
Qed.

(** ** Witnesses *)

(** Sixteen pages from 1 MB, of which the kernel image takes the first two. *)
Definition demo_boot : BootInfo :=
  mkBoot [mkDesc 7 0x100000 16; mkDesc 0 0x200000 4] 0x100000 0x102000 0 0 0 0.
Definition empty_phys : Phys := mkPhys buddy_new ∅ 0 0.
Definition demo_phys : Phys := default empty_phys (phys_init demo_boot empty_phys).

Lemma demo_boot_ok : Forall desc_ok (memory_map demo_boot).
Proof.
  repeat constructor; [exists 256|exists 512]; cbn [phys_start num_pages]; unfold PAGE_SIZE, MAX_FRAMES; lia.
Qed.
Lemma demo_boot_disjoint i j d d' f :
  memory_map demo_boot !! i = Some d → memory_map demo_boot !! j = Some d' → desc_pages d f → desc_pages d' f → i = j.
Proof.
  cbn [demo_boot memory_map]. unfold desc_pages.
  destruct i as [|[|i]], j as [|[|j]]; cbn; intros; simplify_eq; cbn [phys_start num_pages] in *; unfold PAGE_SIZE in *; lia.
Qed.

Lemma demo_phys_rep :
  ∃ F, phys_rep demo_phys F ∧
    ∀ f, f ∈ F ↔ is_reserved demo_boot (f * PAGE_SIZE) = false ∧
      ∃ d, d ∈ memory_map demo_boot ∧ usable d = true ∧ desc_pages d f.
Proof.
  destruct (phys_init_ok demo_boot empty_phys demo_boot_ok eq_refl demo_boot_disjoint) as (s' & F & Hi & HF).
  exists F. unfold demo_phys. rewrite Hi. exact HF.
Qed.

Lemma demo_phys_buddy : ∃ B, buddy_rep (buddy demo_phys) B.
Proof. destruct demo_phys_rep as (F & [(B & HB & _) _] & _). eauto. Qed.

Lemma alloc_refines_witness :
  ∃ b', alloc (buddy demo_phys) 2 = Some (b', Some (0x104000)) ∧ free_frames b' = 10.
Proof.
  destruct demo_phys_buddy as [B HB]. pose proof (alloc_refines (buddy demo_phys) B 2 HB ltac:(done)) as H.
  destruct (alloc (buddy demo_phys) 2) as [[b' [p|]]|] eqn:E; [|by vm_compute in E|destruct H].
  exists b'. vm_compute in E. by injection E as <- <-.
Defined.

Lemma free_refines_witness :
  ∃ b', free (buddy demo_phys) (600 * 2 ^ 0 * PAGE_SIZE) 0 = Some b' ∧ is_free b' 0 600 = Some true.
Proof.
  destruct demo_phys_rep as (F & [(B & HB & Hp) _] & HF).
  destruct (free_refines (buddy demo_phys) B 0 600 HB) as (b' & Hf & _).
  - split; [done|]. by vm_compute.
  - intros f Hin HfB. apply elem_of_block in Hin; [|done]. rewrite Z.div_1_r in Hin. subst f.
    assert (600 ∈ F) as H6 by (apply (pt_all _ _ _ Hp); by left). apply HF in H6 as [_ (d & Hd & Hu & Hpg)].
    unfold desc_pages, PAGE_SIZE in Hpg. cbn [demo_boot memory_map] in Hd.
    apply elem_of_cons in Hd as [->|Hd]; [cbn in Hpg; lia|]. apply list_elem_of_singleton in Hd as ->. done.
  - exists b'. split; [assumption|]. vm_compute in Hf. by injection Hf as <-.
Defined.

Lemma alloc_free_roundtrip_witness :
  ∃ b1 b2, alloc (buddy demo_phys) 1 = Some (b1, Some 0x102000) ∧ free b1 0x102000 1 = Some b2 ∧
    free_frames b2 = free_frames (buddy demo_phys).
Proof.
  destruct demo_phys_buddy as [B HB]. destruct (alloc (buddy demo_phys) 1) as [[b1 [p|]]|] eqn:E; [|by vm_compute in E..].
  assert (p = 0x102000) as -> by (vm_compute in E; by injection E).
  destruct (alloc_free_roundtrip (buddy demo_phys) B 1 b1 0x102000 HB ltac:(clear; done) E) as (b2 & ? & ? & _).
  exists b1, b2. split; [reflexivity|]. split; assumption.
Defined.

Lemma frame_alloc_free_witness : ∃ s' r, alloc_frame 0 demo_phys = Some (s', r) ∧ r = Some 0x10f000.
Proof.
  destruct demo_phys_rep as (F & HF & _). destruct (frame_alloc_free 0 demo_phys F HF) as [(s' & r & Ha & _) _].
  exists s', r. split; [assumption|]. vm_compute in Ha. by injection Ha as _ <-.
Defined.

Lemma phys_init_spec_witness : ∃ s' F, phys_init demo_boot empty_phys = Some s' ∧ phys_rep s' F ∧ 258 ∈ F.
Proof.
  destruct (phys_init_spec demo_boot empty_phys demo_boot_ok eq_refl demo_boot_disjoint) as (s' & F & ? & ? & HF).
  exists s', F. split_and!; [done|done|]. apply HF. split; [vm_compute; reflexivity|].
  exists (mkDesc 7 0x100000 16). split_and!; [by left|done|]. unfold desc_pages, PAGE_SIZE. cbn. lia.
Defined.

Lemma alloc_frames_enough_witness : ∃ s' p, alloc_frames 0 3 demo_phys = Some (s', Some p) ∧ TOTAL_FREE s' = 10.
Proof.
  destruct demo_phys_rep as (F & HF & _). destruct (alloc_frames_enough 0 3 demo_phys F HF ltac:(lia)) as (s' & r & Ha & _).
  destruct r as [p|]; [|by vm_compute in Ha]. exists s', p. split; [assumption|]. vm_compute in Ha. by injection Ha as <- _.
Defined.

Lemma free_frames_n_leaks_witness :
  ∃ s1 s2, alloc_frames 0 3 demo_phys = Some (s1, Some 0x104000) ∧ free_frames_n 0 0x104000 3 s1 = Some s2.
Proof.
  destruct demo_phys_rep as (F & HF & _).
  destruct (alloc_frames 0 3 demo_phys) as [[s1 [p|]]|] eqn:E; [|by vm_compute in E..].
  assert (p = 0x104000) as -> by (vm_compute in E; by injection E).
  destruct (free_frames_n_leaks 0 3 demo_phys F s1 0x104000 HF ltac:(clear; lia) ltac:(clear; done) E) as (s2 & F2 & ? & _).
  exists s1, s2. split; [reflexivity|assumption].
Defined.

Lemma alloc_frames_too_small_witness : 2 ^ alloc_order 4096 < 4096.
Proof. apply (alloc_frames_too_small 4096). lia. Defined.

Lemma reserve_range_keeps_merged_witness :
  ∃ s', reserve_range 0x104000 0x1000 demo_phys = Some s' ∧ is_free (buddy s') 2 65 = Some true.
Proof.
  destruct (reserve_range 0x104000 0x1000 demo_phys) as [s'|] eqn:E; [|by vm_compute in E].
  exists s'. split; [reflexivity|]. rewrite (reserve_range_keeps_merged 0x104000 0x1000 demo_phys s' 2 65 E ltac:(clear; done)).
  vm_compute. reflexivity.
Defined.

Lemma phys_init_panics_witness :
  phys_init (mkBoot [mkDesc 7 0x100000000 1] 0x100000 0x102000 0 0 0 0) empty_phys = None.
Proof.
  apply (phys_init_panics _ empty_phys (mkDesc 7 0x100000000 1) []);
    [done|done|by vm_compute|by vm_compute|done|vm_compute; reflexivity].
Defined.

Lemma usage_percent_bounds_witness : 0 ≤ usage_percent demo_phys ≤ 100.
Proof. destruct demo_phys_rep as (F & HF & _). apply (usage_percent_bounds demo_phys F HF). by vm_compute. Defined.
