(* ===== verification/Ipc.v ===== *)
(** * Named semaphores, message queues and shared memory

    Models kernel/src/ipc/sem.rs, kernel/src/ipc/msgq.rs and, of
    kernel/src/ipc/shm.rs, everything but [mmap_shm].  The tables by name are
    finite maps; the kernel below them is the interface of SchedIface, the
    physical frames of a shared memory region come from Phys.  Each round of a
    loop that takes the table's lock is one atomic step, as in the source. *)
From S2P Require Import Prelude Bpf Seccomp Process SchedIface Phys.

Definition O_CREAT_bit (oflag : Z) : bool := negb (Z.land oflag 64 =? 0).
Definition O_EXCL_bit (oflag : Z) : bool := negb (Z.land oflag 128 =? 0).

(** ** Semaphores *)
Module Sem.
Record Semaphore := mkSem {
  sem_value : Z;
  sem_waiters : list Z;
  sem_mode : Z;
  sem_refs : Z;
}.

(** [x as i32], and the addition and subtraction of [i32]. *)
Abbreviation i32 := (to_signed 32).

Section Ops.
Context {K : Type} `{Scheduler K}.

Record SemWorld := mkSemWorld { sems : gmap string Semaphore; sw_kernel : K }.

Definition set_sem (name : string) (s : Semaphore) (w : SemWorld) : SemWorld :=
  mkSemWorld (<[name := s]> (sems w)) (sw_kernel w).

Definition sem_open (name : string) (oflag mode value : Z) (w : SemWorld) : SemWorld * Z :=
  match sems w !! name with
  | Some s =>
      if O_CREAT_bit oflag && O_EXCL_bit oflag then (w, -17)
      else (set_sem name (mkSem (sem_value s) (sem_waiters s) (sem_mode s) (wadd 32 (sem_refs s) 1)) w, 0)
  | None =>
      if negb (O_CREAT_bit oflag) then (w, -2)
      else (set_sem name (mkSem (i32 value) [] mode 1) w, 0)
  end.

Definition sem_close (name : string) (w : SemWorld) : SemWorld * Z :=
  (match sems w !! name with
   | Some s =>
       if 0 <? sem_refs s
       then set_sem name (mkSem (sem_value s) (sem_waiters s) (sem_mode s) (sem_refs s - 1)) w else w
   | None => w
   end, 0).

Definition sem_unlink (name : string) (w : SemWorld) : SemWorld * Z :=
  match sems w !! name with
  | Some _ => (mkSemWorld (delete name (sems w)) (sw_kernel w), 0)
  | None => (w, -2)
  end.

(** What happens to the world while the caller is blocked. *)
Variable blocked : SemWorld → SemWorld.

Definition sem_wait_round (name : string) (w : SemWorld) : SemWorld + (SemWorld * Z) :=
  match sems w !! name with
  | Some s =>
      if 0 <? sem_value s
      then inr (set_sem name (mkSem (sem_value s - 1) (sem_waiters s) (sem_mode s) (sem_refs s)) w, 0)
      else
        let w1 := set_sem name (mkSem (sem_value s) (sem_waiters s ++ [sched_current (sw_kernel w)])
                                  (sem_mode s) (sem_refs s)) w in
        inl (blocked (mkSemWorld (sems w1) (sched_block (sw_kernel w1))))
  | None => inr (w, -2)
  end.

(** [sem_wait], cut after [fuel] rounds. *)
Definition sem_wait (fuel : nat) (name : string) (w : SemWorld) : SemWorld + (SemWorld * Z) :=
  loop_nat (sem_wait_round name) fuel w.

Definition sem_trywait (name : string) (w : SemWorld) : SemWorld * Z :=
  match sems w !! name with
  | Some s =>
      if 0 <? sem_value s
      then (set_sem name (mkSem (sem_value s - 1) (sem_waiters s) (sem_mode s) (sem_refs s)) w, 0)
      else (w, -11)
  | None => (w, -2)
  end.

Definition sem_post (name : string) (w : SemWorld) : SemWorld * Z :=
  match sems w !! name with
  | Some s =>
      let w1 := set_sem name (mkSem (i32 (sem_value s + 1)) (tail (sem_waiters s)) (sem_mode s) (sem_refs s)) w in
      (match head (sem_waiters s) with
       | Some pid => mkSemWorld (sems w1) (sched_wake pid (sw_kernel w1))
       | None => w1
       end, 0)
  | None => (w, -2)
  end.

Definition sem_getvalue (name : string) (w : SemWorld) : Z :=
  match sems w !! name with Some s => sem_value s | None => -2 end.

End Ops.
Arguments SemWorld K : clear implicits.

Section Steps.
Context {K : Type} `{Scheduler K}.

(** The atomic steps that processes take on the semaphore [name], each with
    the units it takes (1), gives (-1) or neither; a blocked waiter's next
    round is a later step. *)
Inductive SemStep := StepPost | StepTryWait | StepWaitRound.

Definition sem_step (name : string) (o : SemStep) (w : SemWorld K) : SemWorld K * Z :=
  match o with
  | StepPost => ((sem_post name w).1, -1)
  | StepTryWait => let '(w', r) := sem_trywait name w in (w', if r =? 0 then 1 else 0)
  | StepWaitRound =>
      match sem_wait_round (λ w, w) name w with
      | inl w' => (w', 0)
      | inr (w', r) => (w', if r =? 0 then 1 else 0)
      end
  end.

Fixpoint sem_run (name : string) (os : list SemStep) (w : SemWorld K) : SemWorld K * Z :=
  match os with
  | [] => (w, 0)
  | o :: os => let '(w1, t) := sem_step name o w in let '(w2, ts) := sem_run name os w1 in (w2, t + ts)
  end.
End Steps.
End Sem.

(** ** Message queues *)
Module Msgq.
Definition MAX_MSGS : Z := 64.
Definition MAX_MSG_SZ : Z := 8192.

Record Message := mkMsg { msg_prio : Z; msg_data : list Z }.
Record MsgQueue := mkQ {
  msgs : list Message;
  maxmsg : Z;
  msgsize : Z;
  mq_mode : Z;
  mq_refs : Z;
  waiters_r : list Z;
  waiters_w : list Z;
}.

Section Ops.
Context {K : Type} `{Scheduler K}.

Record MqWorld := mkMqWorld { mqs : gmap string MsgQueue; mw_kernel : K }.

Definition set_q (name : string) (q : MsgQueue) (w : MqWorld) : MqWorld :=
  mkMqWorld (<[name := q]> (mqs w)) (mw_kernel w).

Definition mq_open (name : string) (oflag mode maxmsg_arg msgsize_arg : Z) (w : MqWorld) : MqWorld * Z :=
  match mqs w !! name with
  | Some q =>
      if O_CREAT_bit oflag && O_EXCL_bit oflag then (w, -17)
      else (set_q name (mkQ (msgs q) (maxmsg q) (msgsize q) (mq_mode q) (wadd 32 (mq_refs q) 1)
                          (waiters_r q) (waiters_w q)) w, 0)
  | None =>
      if negb (O_CREAT_bit oflag) then (w, -2)
      else (set_q name (mkQ [] (if maxmsg_arg =? 0 then MAX_MSGS else maxmsg_arg)
                          (if msgsize_arg =? 0 then MAX_MSG_SZ else msgsize_arg) mode 1 [] []) w, 0)
  end.

Definition mq_close (name : string) (w : MqWorld) : MqWorld * Z :=
  (match mqs w !! name with
   | Some q =>
       if 0 <? mq_refs q
       then set_q name (mkQ (msgs q) (maxmsg q) (msgsize q) (mq_mode q) (mq_refs q - 1) (waiters_r q) (waiters_w q)) w
       else w
   | None => w
   end, 0).

Definition mq_unlink (name : string) (w : MqWorld) : MqWorld * Z :=
  match mqs w !! name with
  | Some _ => (mkMqWorld (delete name (mqs w)) (mw_kernel w), 0)
  | None => (w, -2)
  end.

Variable blocked : MqWorld → MqWorld.

Definition wake_opt (pid : option Z) (w : MqWorld) : MqWorld :=
  match pid with Some p => mkMqWorld (mqs w) (sched_wake p (mw_kernel w)) | None => w end.
Definition block_mq (w : MqWorld) : MqWorld := blocked (mkMqWorld (mqs w) (sched_block (mw_kernel w))).

Definition mq_send_round (name : string) (data : list Z) (prio : Z) (w : MqWorld) : MqWorld + (MqWorld * Z) :=
  match mqs w !! name with
  | None => inr (w, -2)
  | Some q =>
      let '(q', waiter) :=
        if Z.of_nat (length (msgs q)) <? maxmsg q then
          let n := Z.min (Z.of_nat (length data)) (msgsize q) in
          (mkQ (msgs q ++ [mkMsg prio (take (Z.to_nat n) data)]) (maxmsg q) (msgsize q) (mq_mode q) (mq_refs q)
             (tail (waiters_r q)) (waiters_w q), head (waiters_r q))
        else
          (mkQ (msgs q) (maxmsg q) (msgsize q) (mq_mode q) (mq_refs q)
             (waiters_r q) (waiters_w q ++ [sched_current (mw_kernel w)]), None) in
      let w1 := set_q name q' w in
      match waiter with
      | Some pid => inr (wake_opt (Some pid) w1, 0)
      | None => inl (block_mq w1)
      end
  end.
Definition mq_send (fuel : nat) (name : string) (data : list Z) (prio : Z) (w : MqWorld) : MqWorld + (MqWorld * Z) :=
  loop_nat (mq_send_round name data prio) fuel w.

(** [mq_receive] into a buffer of [count] bytes; the bytes copied stand for
    their number. *)
Definition mq_receive_round (name : string) (count : Z) (w : MqWorld) : MqWorld + (MqWorld * result Z (list Z)) :=
  match mqs w !! name with
  | None => inr (w, Err 2)
  | Some q =>
      match msgs q with
      | msg :: rest =>
          let n := Z.min (Z.of_nat (length (msg_data msg))) count in
          let q' := mkQ rest (maxmsg q) (msgsize q) (mq_mode q) (mq_refs q) (waiters_r q) (tail (waiters_w q)) in
          inr (wake_opt (head (waiters_w q)) (set_q name q' w), Ok (take (Z.to_nat n) (msg_data msg)))
      | [] =>
          let q' := mkQ [] (maxmsg q) (msgsize q) (mq_mode q) (mq_refs q)
                      (waiters_r q ++ [sched_current (mw_kernel w)]) (waiters_w q) in
          inl (block_mq (set_q name q' w))
      end
  end.
Definition mq_receive (fuel : nat) (name : string) (count : Z) (w : MqWorld) : MqWorld + (MqWorld * result Z (list Z)) :=
  loop_nat (mq_receive_round name count) fuel w.
End Ops.
Arguments MqWorld K : clear implicits.
End Msgq.

(** ** Shared memory *)
Module Shm.
Record ShmRegion := mkShm { shm_frames : list Z; shm_size : Z; shm_refs : Z; shm_mode : Z }.

(** The table, whether its spin lock is held, the frame allocator and the
    process whose descriptor table [shm_open] extends. *)
Record ShmWorld := mkShmWorld {
  shm_map : gmap string ShmRegion;
  shm_held : bool;
  shm_phys : Phys;
  shm_proc : Process;
}.
Definition set_map (m : gmap string ShmRegion) (w : ShmWorld) : ShmWorld :=
  mkShmWorld m (shm_held w) (shm_phys w) (shm_proc w).

(** [SHM_MAP.lock()]: on a lock that is held it spins, for ever when the
    holder is the caller; [None] stands for that. *)
Definition lock (w : ShmWorld) : option ShmWorld :=
  if shm_held w then None else Some (mkShmWorld (shm_map w) true (shm_phys w) (shm_proc w)).
Definition unlock (w : ShmWorld) : ShmWorld := mkShmWorld (shm_map w) false (shm_phys w) (shm_proc w).

(** [alloc_shm_fd]; the temporary lock of its first statement is released at
    once. *)
Definition alloc_shm_fd (fuel : nat) (name : string) (w : ShmWorld) : option (ShmWorld * Z) :=
  w1 ← lock w;
  let w2 := unlock w1 in
  match alloc_fd fuel (mkFd 0xA0000000 0 0 FdRegular) (shm_proc w2) with
  | Some (p, n) => Some (mkShmWorld (shm_map w2) (shm_held w2) (shm_phys w2) p, n)
  | None => None
  end.

(** [shm_open]; the guard [map] lives to the end of the body. *)
Definition shm_open (fuel : nat) (name : string) (flags mode : Z) (w : ShmWorld) : option (ShmWorld * Z) :=
  w1 ← lock w;
  let finish (w : ShmWorld) :=
    match alloc_shm_fd fuel name w with
    | Some (w', fd) => Some (unlock w', fd)
    | None => None
    end in
  match shm_map w1 !! name with
  | Some r =>
      if O_CREAT_bit flags && O_EXCL_bit flags then Some (unlock w1, -17)
      else finish (set_map (<[name := mkShm (shm_frames r) (shm_size r) (wadd 32 (shm_refs r) 1) (shm_mode r)]> (shm_map w1)) w1)
  | None =>
      if negb (O_CREAT_bit flags) then Some (unlock w1, -2)
      else finish (set_map (<[name := mkShm [] 0 1 mode]> (shm_map w1)) w1)
  end.

Definition shm_unlink (name : string) (w : ShmWorld) : option (ShmWorld * Z) :=
  w1 ← lock w;
  Some (match shm_map w1 !! name with
        | Some _ => (unlock (set_map (delete name (shm_map w1)) w1), 0)
        | None => (unlock w1, -2)
        end).

(** The allocation loop of [ftruncate_shm]: the frames so far, and whether it
    ran out of memory. *)
Fixpoint grow (cpu : Z) (n : nat) (fs : list Z) (s : Phys) : option (Phys * list Z * bool) :=
  match n with
  | O => Some (s, fs, true)
  | S n => match alloc_frame cpu s with
           | Some (s', Some f) => grow cpu n (fs ++ [f]) s'
           | Some (s', None) => Some (s', fs, false)
           | None => None
           end
  end.
Fixpoint free_all (cpu : Z) (fs : list Z) (s : Phys) : option Phys :=
  match fs with
  | [] => Some s
  | f :: fs => s' ← free_frame cpu f s; free_all cpu fs s'
  end.

Definition ftruncate_shm (cpu : Z) (name : string) (size : Z) (w : ShmWorld) : option (ShmWorld * Z) :=
  w1 ← lock w;
  match shm_map w1 !! name with
  | None => Some (unlock w1, -9)
  | Some r =>
      let needed := wsub 64 (wadd 64 size PAGE_SIZE) 1 / PAGE_SIZE in
      let cur := Z.of_nat (length (shm_frames r)) in
      let put (fs : list Z) (sz : Z) (s : Phys) :=
        unlock (mkShmWorld (<[name := mkShm fs sz (shm_refs r) (shm_mode r)]> (shm_map w1)) (shm_held w1) s (shm_proc w1)) in
      if cur <? needed then
        match grow cpu (Z.to_nat (needed - cur)) (shm_frames r) (shm_phys w1) with
        | Some (s, fs, true) => Some (put fs size s, 0)
        | Some (s, fs, false) => Some (put fs (shm_size r) s, -12)
        | None => None
        end
      else
        s ← free_all cpu (drop (Z.to_nat needed) (shm_frames r)) (shm_phys w1);
        Some (put (take (Z.to_nat needed) (shm_frames r)) size s, 0)
  end.
End Shm.

(** ** Theorems: semaphores *)
Module SemFacts.
Import Sem.
Section Facts.
Context {K : Type} `{SchedulerLaws K}.

(** The number of posts in a list of steps. *)
Fixpoint posts (os : list SemStep) : Z :=
  match os with
  | [] => 0
  | o :: os => (match o with StepPost => 1 | _ => 0 end) + posts os
  end.

Lemma posts_nonneg os : 0 ≤ posts os.
Proof. induction os as [|[] os IH]; cbn; lia. Qed.

Lemma sem_step_value name o (w : SemWorld K) s :
  sems w !! name = Some s → 0 ≤ sem_value s → sem_value s + posts [o] < 2 ^ 31 →
  ∃ s', sems (sem_step name o w).1 !! name = Some s' ∧
    sem_value s' = sem_value s - (sem_step name o w).2 ∧ 0 ≤ sem_value s'.
Proof.
  intros Hs Hpos Hlt. cbn [posts] in Hlt. destruct o; cbn [sem_step].
  - unfold sem_post. rewrite Hs. cbn [fst snd]. unfold set_sem. cbn [sems].
    eexists. split; [by destruct (head _); cbn [sems]; rewrite lookup_insert_eq|]. cbn [sem_value].
    rewrite to_signed_small by lia. lia.
  - unfold sem_trywait. rewrite Hs. destruct (Z.ltb_spec 0 (sem_value s)); cbn [fst snd Z.eqb].
    + eexists. split; [by unfold set_sem; cbn [sems]; rewrite lookup_insert_eq|]. cbn. lia.
    + exists s. split; [done|]. lia.
  - unfold sem_wait_round. rewrite Hs. destruct (Z.ltb_spec 0 (sem_value s)); cbn [fst snd Z.eqb].
    + eexists. split; [by unfold set_sem; cbn [sems]; rewrite lookup_insert_eq|]. cbn. lia.
    + eexists. split; [by cbn [set_sem sems]; rewrite lookup_insert_eq|]. cbn. lia.
Qed.

Lemma sem_run_value name os (w : SemWorld K) s :
  sems w !! name = Some s → 0 ≤ sem_value s → sem_value s + posts os < 2 ^ 31 →
  ∃ s', sems (sem_run name os w).1 !! name = Some s' ∧
    sem_value s' = sem_value s - (sem_run name os w).2 ∧ 0 ≤ sem_value s'.
Proof.
  revert w s. induction os as [|o os IH]; intros w s Hs Hpos Hp; cbn [sem_run].
  - exists s. cbn. split; [done|]. lia.
  - cbn [posts] in Hp. pose proof (posts_nonneg os).
    destruct (sem_step_value name o w s Hs Hpos) as (s1 & Hs1 & Hv1 & Hp1).
    { cbn [posts]. lia. }
    destruct (sem_step name o w) as [w1 t] eqn:E. cbn [fst snd] in *.
    assert (-t ≤ match o with StepPost => 1 | _ => 0 end) as Ht.
    { destruct o; cbn in E; [by simplify_eq|..].
      - destruct (sem_trywait name w) as [? r]. simplify_eq. destruct (r =? 0); lia.
      - destruct (sem_wait_round _ name w) as [?|[? r]]; simplify_eq; [lia|]. destruct (r =? 0); lia. }
    destruct (IH w1 s1 Hs1 Hp1) as (s2 & Hs2 & Hv2 & Hp2); [lia|].
    destruct (sem_run name os w1) as [w2 ts]. cbn [fst snd] in *. exists s2. split; [done|]. lia.
Qed.

(** Units are conserved: whatever atomic steps processes take on a
    semaphore, and in whatever order, its value is the initial value plus the
    posts minus the successful waits, and never negative, so no more waits
    succeed than units were available (up to the range of [i32]). *)
Theorem sem_conservation name os (w : SemWorld K) s :
  sems w !! name = Some s → 0 ≤ sem_value s → sem_value s + posts os < 2 ^ 31 →
  ∃ s', sems (sem_run name os w).1 !! name = Some s' ∧
    sem_value s' = sem_value s - (sem_run name os w).2 ∧ 0 ≤ sem_value s'.
Proof. apply sem_run_value. Qed.

(** [sem_post] releases one waiter: the longest waiting process is awake
    and leaves the queue, and the next [sem_wait] returns 0 at once. *)
Theorem sem_post_releases blocked name (w : SemWorld K) s pid rest :
  sems w !! name = Some s → 0 ≤ sem_value s < 2 ^ 31 - 1 → sem_waiters s = pid :: rest →
  ∃ w' w'', sem_post name w = (w', 0) ∧ sched_asleep (sw_kernel w') pid = false ∧
    (∀ q, q ≠ pid → sched_asleep (sw_kernel w') q = sched_asleep (sw_kernel w) q) ∧
    sem_waiters <$> sems w' !! name = Some rest ∧
    sem_wait blocked 1 name w' = inr (w'', 0) ∧ sem_getvalue name w'' = sem_value s.
Proof.
  intros Hs Hv Hw. unfold sem_post. rewrite Hs, Hw. cbn [head tail]. eexists _, _. split; [done|].
  cbn [sw_kernel sems set_sem]. split_and!.
  - rewrite sched_wake_asleep, bool_decide_eq_true_2 by done. apply andb_false_r.
  - intros q Hq. rewrite sched_wake_asleep, bool_decide_eq_false_2 by done. apply andb_true_r.
  - by rewrite lookup_insert_eq.
  - unfold sem_wait. rewrite loop_nat_S. unfold sem_wait_round. cbn [sems]. rewrite lookup_insert_eq. cbn [sem_value].
    rewrite to_signed_small by lia. destruct (Z.ltb_spec 0 (sem_value s + 1)); [|lia]. reflexivity.
  - unfold sem_getvalue, set_sem. cbn [sems]. rewrite lookup_insert_eq. cbn. lia.
Qed.
End Facts.
End SemFacts.

(** ** Theorems: message queues *)
Module MsgqFacts.
Import Msgq.
Section Facts.
Context {K : Type} `{SchedulerLaws K}.

(** Delivery with a waiting reader: [mq_send] returns 0 after one round,
    appends the message (cut to [msgsize]) behind the earlier ones and wakes
    the longest waiting reader; [mq_receive] then returns the oldest message. *)
Theorem mq_send_receive blocked name data prio count (w : MqWorld K) q pid rest :
  mqs w !! name = Some q → Z.of_nat (length (msgs q)) < maxmsg q → waiters_r q = pid :: rest →
  let m := mkMsg prio (take (Z.to_nat (Z.min (Z.of_nat (length data)) (msgsize q))) data) in
  ∃ w' w'' q', mq_send blocked 1 name data prio w = inr (w', 0) ∧
    mqs w' !! name = Some q' ∧ msgs q' = msgs q ++ [m] ∧ waiters_r q' = rest ∧
    sched_asleep (mw_kernel w') pid = false ∧
    mq_receive blocked 1 name count w' =
      inr (w'', Ok (let d := msg_data (default m (head (msgs q))) in
                    take (Z.to_nat (Z.min (Z.of_nat (length d)) count)) d)).
Proof.
  intros Hq Hlt Hw m. unfold mq_send. rewrite loop_nat_S. unfold mq_send_round. rewrite Hq, Hw.
  destruct (Z.ltb_spec (Z.of_nat (length (msgs q))) (maxmsg q)); [|lia]. cbn [head tail wake_opt].
  destruct (msgs q) as [|m0 ms] eqn:Hm; eexists _, _, _; (split; [done|]); cbn [mqs mw_kernel set_q];
    rewrite lookup_insert_eq; (split_and!; [done|done|done| |]).
  1,3: rewrite sched_wake_asleep, bool_decide_eq_true_2 by done; apply andb_false_r.
  all: unfold mq_receive; rewrite loop_nat_S; unfold mq_receive_round; cbn [mqs]; rewrite lookup_insert_eq; reflexivity.
Qed.

(** A message is sent twice: when no reader is waiting, [mq_send] queues
    the message but, instead of returning, blocks; if it is woken with the
    queue unchanged, it queues the same message again and is still not done. *)
Theorem mq_send_duplicates name data prio (w : MqWorld K) q :
  mqs w !! name = Some q → Z.of_nat (length (msgs q)) + 1 < maxmsg q → waiters_r q = [] →
  let m := mkMsg prio (take (Z.to_nat (Z.min (Z.of_nat (length data)) (msgsize q))) data) in
  ∃ w' q', mq_send (λ w, w) 2 name data prio w = inl w' ∧ mqs w' !! name = Some q' ∧ msgs q' = msgs q ++ [m; m].
Proof.
  intros Hq Hlt Hw m. unfold mq_send. rewrite loop_nat_S. unfold mq_send_round at 1. rewrite Hq, Hw.
  destruct (Z.ltb_spec (Z.of_nat (length (msgs q))) (maxmsg q)); [|lia]. cbn [head tail].
  rewrite loop_nat_S. unfold mq_send_round at 1, block_mq at 1. cbn [mqs set_q]. rewrite lookup_insert_eq. cbn [msgs maxmsg waiters_r msgsize].
  rewrite length_app. cbn [length]. destruct (Z.ltb_spec (Z.of_nat (length (msgs q) + 1)) (maxmsg q)); [|lia].
  cbn [head tail]. eexists _, _. split; [reflexivity|]. unfold block_mq. cbn [mqs set_q]. rewrite lookup_insert_eq.
  split; [done|]. cbn [msgs]. by rewrite <-app_assoc.
Qed.

(** A queue never holds more than [maxmsg] messages, whatever rounds of
    send and receive run on it, and [mq_send] returns 0 only if a reader was
    waiting in the round that queued the message. *)
Theorem mq_bounded name data prio count (w : MqWorld K) q :
  mqs w !! name = Some q → Z.of_nat (length (msgs q)) ≤ maxmsg q →
  let bounded (w : MqWorld K) := ∃ q', mqs w !! name = Some q' ∧ maxmsg q' = maxmsg q ∧ Z.of_nat (length (msgs q')) ≤ maxmsg q' in
  match mq_send_round (λ w, w) name data prio w with
  | inl w' => bounded w'
  | inr (w', r) => bounded w' ∧ r = 0 ∧ waiters_r q ≠ []
  end ∧
  match mq_receive_round (λ w, w) name count w with
  | inl w' => bounded w' ∧ msgs q = []
  | inr (w', r) => bounded w' ∧ is_ok r = true
  end.
Proof.
  intros Hq Hle bounded. unfold mq_send_round, mq_receive_round. rewrite Hq. split.
  - destruct (Z.ltb_spec (Z.of_nat (length (msgs q))) (maxmsg q)) as [Hlt|Hge].
    + destruct (waiters_r q) as [|pid rest]; cbn [head tail].
      * eexists. unfold block_mq. cbn [mqs set_q]. rewrite lookup_insert_eq. split; [done|]. split; [done|].
        cbn [msgs maxmsg]. rewrite length_app. cbn. lia.
      * split_and!; [|done|done]. eexists. cbn [mqs set_q wake_opt]. rewrite lookup_insert_eq. split; [done|].
        split; [done|]. cbn [msgs maxmsg]. rewrite length_app. cbn. lia.
    + eexists. unfold block_mq. cbn [mqs set_q]. rewrite lookup_insert_eq. done.
  - destruct (msgs q) as [|m ms] eqn:Hm.
    + split; [|done]. eexists. unfold block_mq. cbn [mqs set_q]. rewrite lookup_insert_eq. done.
    + split; [|done]. eexists. split; [by destruct (head _); cbn [mqs set_q wake_opt]; rewrite lookup_insert_eq|].
      cbn [msgs maxmsg length] in *. split; [done|]. lia.
Qed.
End Facts.
End MsgqFacts.

(** ** Theorems: shared memory *)
Module ShmFacts.
Import Shm.

(** [shm_open] never returns a descriptor: whenever it does not fail with
    EEXIST or ENOENT, it calls [alloc_shm_fd] with the lock of the table held,
    and that function waits for the same lock. *)
Theorem shm_open_deadlocks fuel name flags mode w :
  shm_held w = false →
  shm_open fuel name flags mode w =
    match shm_map w !! name with
    | Some _ => if O_CREAT_bit flags && O_EXCL_bit flags then Some (w, -17) else None
    | None => if O_CREAT_bit flags then None else Some (w, -2)
    end.
Proof.
  intros Hh. destruct w as [m h ph pr]. cbn in Hh. subst h. unfold shm_open. cbn [lock shm_held mbind option_bind shm_map].
  destruct (m !! name); [destruct (_ && _)|destruct (O_CREAT_bit flags)]; reflexivity.
Qed.

(** The frames of a region: distinct, aligned, and not free. *)
Definition region_ok (fs : list Z) (s : Phys) (F : gset Z) : Prop :=
  phys_rep s F ∧ NoDup fs ∧ ∀ p, p ∈ fs → ∃ f, p = f * PAGE_SIZE ∧ 0 < f < MAX_FRAMES ∧ f ∉ F.
(** No frame is lost or made up. *)
Definition conserves (fs : list Z) (F : gset Z) (fs' : list Z) (F' : gset Z) : Prop :=
  ∀ f, (f ∈ F' ∨ f * PAGE_SIZE ∈ fs') ↔ (f ∈ F ∨ f * PAGE_SIZE ∈ fs).

Lemma region_below s F f : phys_rep s F → f ∈ F → 0 < f < MAX_FRAMES.
Proof. intros [(B & _ & Hp) _] Hf. by eapply parts_below. Qed.

Lemma grow_spec cpu n fs s F :
  region_ok fs s F →
  ∃ s' fs' ok F', grow cpu n fs s = Some (s', fs', ok) ∧ region_ok fs' s' F' ∧ conserves fs F fs' F' ∧
    (length fs ≤ length fs')%nat ∧ (length fs' ≤ length fs + n)%nat ∧
    (ok = true ↔ length fs' = (length fs + n)%nat).
Proof.
  revert fs s F. induction n as [|n IH]; intros fs s F Hok; cbn [grow].
  - exists s, fs, true, F. split; [done|]. split; [done|]. split; [done|]. split; [lia|]. split; [lia|]. split; [lia|done].
  - destruct Hok as (Hs & Hnd & Hfr). destruct (alloc_frame_spec cpu s F Hs) as (s1 & r & -> & Hr).
    destruct r as [p|].
    + destruct Hr as (f & -> & Hf & Hs1). destruct (IH (fs ++ [f * PAGE_SIZE]) s1 (F ∖ {[f]})) as
        (s' & fs' & ok & F' & -> & Hok' & Hc & Hl1 & Hl2 & Hb).
      * split_and!; [done| |].
        -- apply NoDup_app. split_and!; [done| |apply NoDup_singleton].
           intros p Hp ->%list_elem_of_singleton. destruct (Hfr _ Hp) as (g & ->%page_inj & _ & ?). done.
        -- intros p [Hp| ->%list_elem_of_singleton]%elem_of_app.
           ++ destruct (Hfr _ Hp) as (g & ? & ? & ?). exists g. split_and!; [done|lia|lia|set_solver].
           ++ exists f. split; [done|]. split; [exact (region_below s F f Hs Hf)|set_solver].
      * rewrite length_app in *. cbn [length] in *. exists s', fs', ok, F'. split; [done|]. split; [done|].
        split; [|rewrite Hb; lia]. intros g.
        rewrite (Hc g), elem_of_difference, elem_of_singleton, elem_of_app, list_elem_of_singleton.
        destruct (decide (g = f)) as [->|Hne]; [split; [by left|by right; right]|].
        assert (g * PAGE_SIZE ≠ f * PAGE_SIZE) by (intros ?%page_inj; done). tauto.
    + destruct Hr as (Hs1 & _). exists s1, fs, false, F. split; [done|]. split; [done|]. split; [done|].
      split; [lia|]. split; [lia|]. split; [done|lia].
Qed.

Lemma free_all_spec cpu fs s F :
  region_ok fs s F →
  ∃ s' F', free_all cpu fs s = Some s' ∧ phys_rep s' F' ∧ ∀ f, f ∈ F' ↔ f ∈ F ∨ f * PAGE_SIZE ∈ fs.
Proof.
  revert s F. induction fs as [|p fs IH]; intros s F (Hs & Hnd & Hfr); cbn [free_all].
  - exists s, F. split_and!; [done|done|]. set_solver.
  - apply NoDup_cons in Hnd as [Hni Hnd]. destruct (Hfr p) as (f & -> & Hf & HfF); [by left|].
    destruct (free_frame_spec cpu s F f Hs Hf HfF) as (s1 & -> & Hs1). cbn [mbind option_bind].
    destruct (IH s1 (F ∪ {[f]})) as (s' & F' & -> & Hs' & HF').
    + split_and!; [done|done|]. intros q Hq. destruct (Hfr q) as (g & -> & ? & ?); [by right|].
      exists g. split_and!; [done|lia|lia|]. intros [?|Hg%elem_of_singleton]%elem_of_union; [done|]. by subst.
    + exists s', F'. split_and!; [done|done|]. intros g. rewrite HF', elem_of_union, elem_of_singleton, elem_of_cons.
      split; [intros [[?| ->]|?]; tauto|]. intros [?|[?%page_inj|?]]; tauto.
Qed.

(** [ftruncate_shm] below 2^64 - 4096 bytes: on success the region has
    exactly the pages its size needs, on ENOMEM the ones it could get and its
    old size; in both cases its frames stay distinct and allocated, and no
    frame is lost to the region and the allocator together. *)
Theorem ftruncate_shm_spec cpu name size w r F :
  shm_held w = false → shm_map w !! name = Some r → region_ok (shm_frames r) (shm_phys w) F →
  0 ≤ size < 2 ^ 64 - PAGE_SIZE →
  let needed := (size + PAGE_SIZE - 1) / PAGE_SIZE in
  ∃ w' code r' F', ftruncate_shm cpu name size w = Some (w', code) ∧ shm_held w' = false ∧
    shm_map w' !! name = Some r' ∧ region_ok (shm_frames r') (shm_phys w') F' ∧
    conserves (shm_frames r) F (shm_frames r') F' ∧
    (code = 0 ∧ shm_size r' = size ∧ Z.of_nat (length (shm_frames r')) = needed ∨
     code = -12 ∧ shm_size r' = shm_size r ∧ Z.of_nat (length (shm_frames r')) < needed).
Proof.
  intros Hh Hr Hok Hsize needed. destruct w as [m h ph pr]. cbn [shm_held shm_map shm_phys] in *. subst h.
  unfold ftruncate_shm. cbn [lock shm_held mbind option_bind shm_map shm_phys shm_proc]. rewrite Hr.
  unfold PAGE_SIZE in Hsize. rewrite (wadd_small 64 size) by (unfold PAGE_SIZE; lia).
  rewrite wsub_small by (unfold PAGE_SIZE; lia). fold needed. assert (0 ≤ needed) by (apply Z.div_pos; unfold PAGE_SIZE; lia).
  destruct (Z.ltb_spec (Z.of_nat (length (shm_frames r))) needed) as [Hlt|Hge].
  - destruct (grow_spec cpu (Z.to_nat (needed - Z.of_nat (length (shm_frames r)))) (shm_frames r) ph F Hok)
      as (s' & fs' & ok & F' & -> & Hok' & Hc & Hl1 & Hl2 & Hb).
    destruct ok; eexists _, _, _, F'; (split; [reflexivity|]); (split; [reflexivity|]); cbn [unlock shm_map shm_phys];
      rewrite lookup_insert_eq; (split; [reflexivity|]); cbn [shm_frames shm_size]; (split; [exact Hok'|]); (split; [exact Hc|]).
    + left. split; [done|]. split; [done|]. rewrite (proj1 Hb eq_refl). lia.
    + right. split; [done|]. split; [done|]. assert (length fs' ≠ (length (shm_frames r) + Z.to_nat (needed - Z.of_nat (length (shm_frames r))))%nat); [|lia].
      intros E. by apply Hb in E.
  - destruct Hok as (Hs & Hnd & Hfr). rewrite <-(take_drop (Z.to_nat needed) (shm_frames r)) in Hnd.
    apply NoDup_app in Hnd as (Hnd1 & Hdisj & Hnd2).
    assert (∀ p, p ∈ shm_frames r ↔ p ∈ take (Z.to_nat needed) (shm_frames r) ∨ p ∈ drop (Z.to_nat needed) (shm_frames r)) as Hsplit.
    { intros p. rewrite <-elem_of_app, take_drop. done. }
    destruct (free_all_spec cpu (drop (Z.to_nat needed) (shm_frames r)) ph F) as (s' & F' & -> & Hs' & HF').
    { split; [done|]. split; [done|]. intros p Hp. apply Hfr, Hsplit. by right. }
    cbn [mbind option_bind]. eexists _, _, _, F'. split; [reflexivity|]. split; [reflexivity|]. cbn [unlock shm_map shm_phys].
    rewrite lookup_insert_eq. split; [reflexivity|]. cbn [shm_frames shm_size]. split; [split; [done|split; [done|]]|split].
    + intros p Hp. destruct (Hfr p) as (f & -> & ? & ?); [apply Hsplit; by left|]. exists f. split; [done|]. split; [done|].
      intros [?|Hd]%HF'; [done|]. by apply (Hdisj _ Hp).
    + intros f. rewrite HF', Hsplit. tauto.
    + left. split; [done|]. split; [done|]. rewrite length_take. lia.
Qed.

(** A size close to 2^64 wraps to zero pages: the region loses all its
    frames although its recorded size becomes the huge one. *)
Theorem ftruncate_shm_wraps cpu name size w r F :
  shm_held w = false → shm_map w !! name = Some r → region_ok (shm_frames r) (shm_phys w) F →
  2 ^ 64 - PAGE_SIZE < size < 2 ^ 64 →
  ∃ w', ftruncate_shm cpu name size w = Some (w', 0) ∧
    shm_map w' !! name = Some (mkShm [] size (shm_refs r) (shm_mode r)).
Proof.
  intros Hh Hr Hok Hsize. destruct w as [m h ph pr]. cbn [shm_held shm_map shm_phys] in *. subst h.
  unfold ftruncate_shm. cbn [lock shm_held mbind option_bind shm_map shm_phys shm_proc]. rewrite Hr.
  assert (wsub 64 (wadd 64 size PAGE_SIZE) 1 / PAGE_SIZE = 0) as ->.
  { unfold wadd, wrap, PAGE_SIZE in *. replace (size + 4096) with (size + 4096 - 2 ^ 64 + 1 * 2 ^ 64) by lia.
    rewrite Z.mod_add, Z.mod_small by lia. rewrite wsub_small by lia. apply Z.div_small. lia. }
  destruct (Z.ltb_spec (Z.of_nat (length (shm_frames r))) 0); [lia|]. change (Z.to_nat 0) with 0%nat.
  rewrite drop_0, take_0. destruct (free_all_spec cpu (shm_frames r) ph F Hok) as (s' & F' & -> & _).
  cbn [mbind option_bind]. eexists. split; [reflexivity|]. cbn [unlock shm_map]. by rewrite lookup_insert_eq.
Qed.
End ShmFacts.

(** ** Witnesses *)
Module IpcWitnesses.
Import Sem SemFacts Msgq MsgqFacts Shm ShmFacts.

Definition demo_sems : SemWorld (gset Z) :=
  mkSemWorld {["a" := mkSem 1 [2; 3] 0 1]} {[2; 3]}.

Lemma sem_conservation_witness :
  ∃ s', sems (sem_run "a" [StepTryWait; StepWaitRound; StepPost; StepWaitRound] demo_sems).1 !! "a" = Some s' ∧
    sem_value s' = 0.
Proof.
  destruct (sem_conservation "a" [StepTryWait; StepWaitRound; StepPost; StepWaitRound] demo_sems (mkSem 1 [2; 3] 0 1))
    as (s' & Hs & Hv & _); [reflexivity|done|done|]. exists s'. split; [done|]. rewrite Hv. vm_compute. reflexivity.
Defined.

Lemma sem_post_releases_witness :
  ∃ w' w'', sem_post "a" demo_sems = (w', 0) ∧ sched_asleep (sw_kernel w') 2 = false ∧
    sem_wait id 1 "a" w' = inr (w'', 0).
Proof.
  destruct (sem_post_releases id "a" demo_sems (mkSem 1 [2; 3] 0 1) 2 [3]) as (w' & w'' & ? & ? & _ & _ & ? & _);
    [reflexivity|done|done|]. eauto.
Defined.

Definition demo_mqs (readers : list Z) : MqWorld (gset Z) :=
  mkMqWorld {["q" := mkQ [mkMsg 0 [1; 2]] 8 16 0 1 readers []]} {[2]}.

Lemma mq_send_receive_witness :
  ∃ w' w'', mq_send id 1 "q" [7] 0 (demo_mqs [2]) = inr (w', 0) ∧ mq_receive id 1 "q" 10 w' = inr (w'', Ok [1; 2]).
Proof.
  destruct (mq_send_receive id "q" [7] 0 10 (demo_mqs [2]) (mkQ [mkMsg 0 [1; 2]] 8 16 0 1 [2] []) 2 [])
    as (w' & w'' & q' & ? & _ & _ & _ & _ & ?); [reflexivity|done|done|]. eauto.
Defined.

Lemma mq_send_duplicates_witness :
  ∃ w' q', mq_send (λ w, w) 2 "q" [7] 0 (demo_mqs []) = inl w' ∧ mqs w' !! "q" = Some q' ∧
    msgs q' = [mkMsg 0 [1; 2]; mkMsg 0 [7]; mkMsg 0 [7]].
Proof.
  apply (mq_send_duplicates "q" [7] 0 (demo_mqs []) (mkQ [mkMsg 0 [1; 2]] 8 16 0 1 [] [])); [reflexivity|done|done].
Defined.

Lemma mq_bounded_witness :
  match mq_receive_round (λ w, w) "q" 10 (demo_mqs []) with inl _ => False | inr (_, r) => is_ok r = true end.
Proof.
  destruct (mq_bounded "q" [7] 0 10 (demo_mqs []) (mkQ [mkMsg 0 [1; 2]] 8 16 0 1 [] [])) as [_ H]; [reflexivity|done|].
  destruct (mq_receive_round _ "q" 10 (demo_mqs [])) as [w'|[w' r]] eqn:E; [|by destruct H]. by vm_compute in E.
Defined.

Definition demo_shm : ShmWorld := mkShmWorld {["s" := mkShm [] 0 1 0]} false demo_phys (demo_process 2 1 Running).

Lemma shm_open_deadlocks_witness : shm_open 10 "s" 0 0 demo_shm = None.
Proof. rewrite (shm_open_deadlocks 10 "s" 0 0 demo_shm eq_refl). reflexivity. Defined.

Lemma demo_region_ok : ∃ F, region_ok [] demo_phys F.
Proof.
  destruct demo_phys_rep as (F & HF & _). exists F. split; [done|]. split; [constructor|].
  intros p Hp. by apply not_elem_of_nil in Hp.
Qed.

Lemma ftruncate_shm_spec_witness : ∃ w' code, ftruncate_shm 0 "s" 5000 demo_shm = Some (w', code).
Proof.
  destruct demo_region_ok as [F HF].
  destruct (ftruncate_shm_spec 0 "s" 5000 demo_shm (mkShm [] 0 1 0) F) as (w' & code & r' & F' & ? & _);
    [reflexivity|reflexivity|exact HF|unfold PAGE_SIZE; lia|]. eauto.
Defined.

Lemma ftruncate_shm_wraps_witness : ∃ w', ftruncate_shm 0 "s" (2 ^ 64 - 1) demo_shm = Some (w', 0).
Proof.
  destruct demo_region_ok as [F HF].
  destruct (ftruncate_shm_wraps 0 "s" (2 ^ 64 - 1) demo_shm (mkShm [] 0 1 0) F) as (w' & ? & _);
    [reflexivity|reflexivity|exact HF|unfold PAGE_SIZE; lia|]. eauto.
Defined.
End IpcWitnesses.
