(* ===== verification/Signal.v ===== *)
(** * Signals

    Models kernel/src/signal/mod.rs and the signal system calls of
    kernel/src/syscall/handlers.rs on top of the process table (Process) and
    the scheduler (Kernel): sets, sending, dispatch in interrupt context and at
    system call exit, default actions, the signal frame on the user stack and
    [sigreturn].  A [SignalSet] is its 64-bit word.

    Three things come from components that are not part of this file and are
    parameters: [may_signal] (security/namespace.rs, [check_kill_permission]),
    [resched] (the [schedule_next_from_irq] of a process that has just died)
    and [frame_of], the page table of the process (arch/x86_64/paging.rs): the
    physical base address of a mapped virtual page. *)
From S2P Require Import Prelude Bpf Seccomp Process Sched Kernel.

Definition SIGKILL : Z := 9.
Definition SIGCHLD : Z := 17.
Definition SIGCONT : Z := 18.
Definition SIGSTOP : Z := 19.
Definition SIGTSTP : Z := 20.
Definition SIGTTIN : Z := 21.
Definition SIGTTOU : Z := 22.
Definition SIGURG : Z := 23.
Definition SIGWINCH : Z := 28.
Definition NSIG : Z := 32.
Definition SA_NODEFER : Z := 0x40000000.
Definition SA_RESETHAND : Z := 0x80000000.

(** ** Signal sets *)
Definition sig_add (s sig : Z) : Z := if sig <? 64 then word_set s sig else s.
Definition sig_remove (s sig : Z) : Z := if sig <? 64 then word_clr s sig else s.
Definition sig_has (s sig : Z) : bool := (sig <? 64) && negb (Z.land s (Z.shiftl 1 sig) =? 0).
Definition and_not (s mask : Z) : Z := Z.land s (wnot 64 mask).
Definition next_pending (s : Z) : option Z := if s =? 0 then None else Some (trailing_zeros 64 s).

(** [for s in 0..64 { if m.has(s) { mask.add(s) } }] and its counterpart with
    [remove]; [n] counts the signals left. *)
Fixpoint fold_sigs (f : Z → Z → Z) (n : nat) (s m mask : Z) : Z :=
  match n with
  | O => mask
  | S n => fold_sigs f n (s + 1) m (if sig_has m s then f mask s else mask)
  end.
Definition add_all (mask m : Z) : Z := fold_sigs sig_add 64 0 m mask.
Definition remove_all (mask m : Z) : Z := fold_sigs sig_remove 64 0 m mask.

(** ** User memory: physical bytes behind the page table *)
Record SyscallFrame := mkFrame {
  r15 : Z; r14 : Z; r13 : Z; r12 : Z; r11 : Z; r10 : Z; r9 : Z; r8 : Z;
  rbp : Z; rdi : Z; rsi : Z; rdx : Z; rcx : Z; rbx : Z; rax : Z;
  rflags_saved : Z; rip_saved : Z;
}.

Record SigWorld := mkSW {
  sw_k : Kernel;
  sw_mem : gmap Z Z;          (* physical memory, by byte *)
  sw_rsp : Z;                 (* gs:[16], the user stack pointer *)
  sw_frame : SyscallFrame;
}.
Definition set_k (k : Kernel) (w : SigWorld) : SigWorld := mkSW k (sw_mem w) (sw_rsp w) (sw_frame w).
Definition set_mem (m : gmap Z Z) (w : SigWorld) : SigWorld := mkSW (sw_k w) m (sw_rsp w) (sw_frame w).
Definition set_rsp (r : Z) (w : SigWorld) : SigWorld := mkSW (sw_k w) (sw_mem w) r (sw_frame w).
Definition set_frame (f : SyscallFrame) (w : SigWorld) : SigWorld := mkSW (sw_k w) (sw_mem w) (sw_rsp w) f.

Definition set_rip (v : Z) (f : SyscallFrame) : SyscallFrame :=
  mkFrame (r15 f) (r14 f) (r13 f) (r12 f) (r11 f) (r10 f) (r9 f) (r8 f) (rbp f) (rdi f) (rsi f) (rdx f) (rcx f)
    (rbx f) (rax f) (rflags_saved f) v.

Definition action_of (k : Kernel) (pid sig : Z) : SigAction :=
  match proc k pid with
  | Some p => if sig <? NSIG then default sigaction_default (p_sig_actions p !! Z.to_nat sig) else sigaction_default
  | None => sigaction_default
  end.
Definition pending_mask (k : Kernel) (pid : Z) : Z * Z :=
  match proc k pid with Some p => (p_sig_pending p, p_sig_mask p) | None => (0, 0) end.
Definition update_pending (f : Z → Z) (p : Process) : Process :=
  set_sig (f (p_sig_pending p)) (p_sig_mask p) (p_sig_actions p) p.
Definition update_mask (f : Z → Z) (p : Process) : Process :=
  set_sig (p_sig_pending p) (f (p_sig_mask p)) (p_sig_actions p) p.

Section Signals.
Variable may_signal : Z → Z → Z → bool.
Variable resched : Kernel → Kernel.
Variable ncpus : Z.

(** ** Sending *)
Definition send_to (sig : Z) (p : Process) : Process :=
  let blocked := negb (sig =? SIGKILL) && negb (sig =? SIGSTOP) && sig_has (p_sig_mask p) sig in
  let p1 := if blocked then p else update_pending (λ s, sig_add s sig) p in
  if sig =? SIGKILL then set_state (Zombie (-1)) p1
  else if sig =? SIGSTOP then set_state Stopped p1 else p1.

Definition send_signal (pid sig : Z) (k : Kernel) : Kernel :=
  if (sig =? 0) || (NSIG <=? sig) then k
  else
    let sender := current (k_table k) in
    if negb (sender =? 0) && negb (may_signal sender pid sig) then k
    else update_proc pid (send_to sig) k.

Definition all_pids (k : Kernel) : list Z := (map_to_list (procs (k_table k))).*1.

Definition send_signal_group (pgid sig : Z) (k : Kernel) : Kernel :=
  foldl (λ k pid, match proc k pid with
                  | Some p => if p_pgid p =? pgid then send_signal pid sig k else k
                  | None => k
                  end) k (all_pids k).

(** ** Default actions *)
Inductive DefaultAction := ActIgnore | ActStop | ActCont | ActTerminate.
Definition default_action (sig : Z) : DefaultAction :=
  if (sig =? SIGCHLD) || (sig =? SIGWINCH) || (sig =? SIGURG) then ActIgnore
  else if (sig =? SIGSTOP) || (sig =? SIGTSTP) || (sig =? SIGTTIN) || (sig =? SIGTTOU) then ActStop
  else if sig =? SIGCONT then ActCont else ActTerminate.

Definition apply_default (pid sig : Z) (k : Kernel) : option Kernel :=
  match default_action sig with
  | ActIgnore => Some k
  | ActStop => remove_task pid (update_proc pid (set_state Stopped) k)
  | ActCont =>
      let was_stopped := bool_decide (proc_state k pid = Some Stopped) in
      let k1 := update_proc pid (λ p, if decide (p_state p = Stopped) then set_state Runnable p else p) k in
      if was_stopped then add_task ncpus pid PRIO_NORMAL SCHED_NORMAL k1 else wake_process pid k1
  | ActTerminate =>
      let exit_code := - sig in
      let ppid := match proc k pid with Some p => p_ppid p | None => 0 end in
      let k1 := update_proc pid (λ p, set_exit_code exit_code (set_state (Zombie exit_code) p)) k in
      k2 ← remove_task pid k1;
      k3 ← (if negb (ppid =? 0) then wake_process ppid (send_signal ppid SIGCHLD k2) else Some k2);
      Some (if pid =? current (k_table k3) then resched k3 else k3)
  end.

(** ** Dispatch *)
Definition deliver (pid sig : Z) (k : Kernel) : option Kernel :=
  match handler (action_of k pid sig) with
  | SigIgnore => Some k
  | SigUser _ => Some k
  | SigDefault => apply_default pid sig k
  end.

(** One round of [dispatch_pending_inner], with the signals skipped so far. *)
Definition dispatch_round (pid : Z) (from_irq : bool) (s : Kernel * Z) : (Kernel * Z) + option Kernel :=
  let '(k, irq_skip) := s in
  let '(pending, mask) := pending_mask k pid in
  let deliverable := if from_irq then and_not (and_not pending mask) irq_skip else and_not pending mask in
  match next_pending deliverable with
  | None => inr (Some k)
  | Some sig =>
      let is_user := match handler (action_of k pid sig) with SigUser _ => true | _ => false end in
      if from_irq && is_user then inl (k, sig_add irq_skip sig)
      else match deliver pid sig (update_proc pid (update_pending (λ p, sig_remove p sig)) k) with
           | Some k' => inl (k', irq_skip)
           | None => inr None
           end
  end.
Definition dispatch_pending_inner (fuel : nat) (pid : Z) (from_irq : bool) (k : Kernel) : option Kernel :=
  match loop_nat (dispatch_round pid from_irq) fuel (k, 0) with inr r => r | inl _ => None end.

(** ** The signal frame *)
Variable frame_of : Z → option Z.
Definition translate (va : Z) : option Z := (λ b, b + va mod 4096) <$> frame_of (va / 4096).

Definition write_bytes (a : Z) (bs : list Z) (m : gmap Z Z) : gmap Z Z :=
  (foldl (λ '(m, a) b, (<[a := b]> m, a + 1)) (m, a) bs).1.
Definition read_bytes (a : Z) (n : nat) (m : gmap Z Z) : list Z :=
  (λ i, default 0 (m !! (a + i))) <$> seqZ 0 (Z.of_nat n).

Definition write_round (s : gmap Z Z * Z * list Z) : (gmap Z Z * Z * list Z) + (gmap Z Z * bool) :=
  let '(m, va, remaining) := s in
  match remaining with
  | [] => inr (m, true)
  | _ =>
      match translate va with
      | None => inr (m, false)
      | Some phys =>
          let page_off := Z.land va 0xFFF in
          let base := Z.land phys (wnot 64 0xFFF) in
          let can_write := Z.to_nat (Z.min (0x1000 - page_off) (Z.of_nat (length remaining))) in
          inl (write_bytes (base + page_off) (take can_write remaining) m,
               wadd 64 va (Z.of_nat can_write), drop can_write remaining)
      end
  end.
(** [write_to_user_va]; every round writes at least a byte. *)
Definition write_to_user_va (va : Z) (data : list Z) (m : gmap Z Z) : gmap Z Z * bool :=
  match loop_nat write_round (S (length data)) (m, va, data) with inr r => r | inl _ => (m, false) end.

Definition read_round (m : gmap Z Z) (size : nat) (s : Z * list Z) : (Z * list Z) + option (list Z) :=
  let '(va, bytes) := s in
  if bool_decide (length bytes < size)%nat then
    match translate va with
    | None => inr None
    | Some phys =>
        let page_off := Z.land va 0xFFF in
        let chunk := Z.to_nat (Z.min (0x1000 - page_off) (Z.of_nat (size - length bytes))) in
        inl (wadd 64 va (Z.of_nat chunk), bytes ++ read_bytes (Z.land phys (wnot 64 0xFFF) + page_off) chunk m)
    end
  else inr (Some bytes).
Definition read_user (va : Z) (size : nat) (m : gmap Z Z) : option (list Z) :=
  match loop_nat (read_round m size) (S size) (va, []) with inr r => r | inl _ => None end.

(** [SigFrame] as its 63 words: [pretcode], [SigInfo] (16 words), flags, link
    and stack (5), [MContext] (32, from word 22), [sigmask] (word 54) and the
    floating point area (8). *)
Definition SIGFRAME_WORDS : nat := 63.
Definition sig_frame (f : SyscallFrame) (user_rsp mask sig restorer_addr : Z) : list Z :=
  [restorer_addr; sig; 0] ++ replicate 14 0 ++ replicate 5 0 ++
  [r8 f; r9 f; r10 f; r11 f; r12 f; r13 f; r14 f; r15 f; rdi f; rsi f; rbp f; rbx f; rdx f; rax f; rcx f;
   user_rsp; rip_saved f; rflags_saved f; 0; 0; 0; mask; 0; 0] ++ replicate 8 0 ++ [mask] ++ replicate 8 0.
Definition words_bytes (ws : list Z) : list Z := ws ≫= le_bytes 8.
Definition word_of (bs : list Z) (i : nat) : Z := le_value (take 8 (drop (8 * i) bs)).

Definition USER_TOP : Z := 0x800000000000.

Definition build_signal_frame (pid sig : Z) (action : SigAction) (user_rsp : Z) (w : SigWorld) : SigWorld * option Z :=
  if (user_rsp =? 0) || (USER_TOP <=? user_rsp) then (w, None)
  else match proc (sw_k w) pid with
       | None => (w, None)
       | Some p =>
           let new_rsp := Z.land (wsub 64 user_rsp (8 * Z.of_nat SIGFRAME_WORDS)) (wnot 64 0xF) in
           if USER_TOP <=? new_rsp then (w, None)
           else
             let bytes := words_bytes (sig_frame (sw_frame w) user_rsp (p_sig_mask p) sig (restorer action)) in
             let '(m, ok) := write_to_user_va new_rsp bytes (sw_mem w) in
             (set_mem m w, if ok then Some new_rsp else None)
       end.

Definition deliver_with_frame (pid sig user_rsp : Z) (w : SigWorld) : option SigWorld :=
  let action := action_of (sw_k w) pid sig in
  match handler action with
  | SigIgnore => Some w
  | SigDefault => k ← apply_default pid sig (sw_k w); Some (set_k k w)
  | SigUser addr =>
      match build_signal_frame pid sig action user_rsp w with
      | (w1, Some new_rsp) =>
          let w2 := set_rsp new_rsp (set_frame (set_rip addr (sw_frame w1)) w1) in
          let upd (p : Process) :=
            let m1 := if Z.land (act_flags action) SA_NODEFER =? 0 then sig_add (p_sig_mask p) sig else p_sig_mask p in
            let acts := if negb (Z.land (act_flags action) SA_RESETHAND =? 0)
                        then alter (λ a, mkAction SigDefault (act_mask a) (act_flags a) (restorer a)) (Z.to_nat sig) (p_sig_actions p)
                        else p_sig_actions p in
            set_sig (p_sig_pending p) (add_all m1 (act_mask action)) acts p in
          Some (set_k (update_proc pid upd (sw_k w2)) w2)
      | (w1, None) => k ← apply_default pid sig (sw_k w1); Some (set_k k w1)
      end
  end.

(** [deliver_pending_at_syscall_exit]: a round, and the loop. *)
Definition exit_round (pid user_rsp : Z) (w : SigWorld) : SigWorld + option SigWorld :=
  let '(pending, mask) := pending_mask (sw_k w) pid in
  match next_pending (and_not pending mask) with
  | None => inr (Some w)
  | Some sig =>
      let w1 := set_k (update_proc pid (update_pending (λ p, sig_remove p sig)) (sw_k w)) w in
      match handler (action_of (sw_k w1) pid sig) with
      | SigIgnore => inl w1
      | SigUser _ => inr (deliver_with_frame pid sig user_rsp w1)
      | SigDefault =>
          match apply_default pid sig (sw_k w1) with
          | None => inr None
          | Some k =>
              let dead := match proc k pid with
                          | Some p => is_zombie p || bool_decide (p_state p = Stopped)
                          | None => true
                          end in
              if dead then inr (Some (set_k k w1)) else inl (set_k k w1)
          end
      end
  end.
Definition deliver_pending_at_syscall_exit (fuel : nat) (w : SigWorld) : option SigWorld :=
  match loop_nat (exit_round (current (k_table (sw_k w))) (sw_rsp w)) fuel w with inr r => r | inl _ => None end.

(** ** [sigreturn] *)
Definition EFAULT : Z := -14.
Definition SAFE_RFLAGS : Z := 0x3F7FF.

Definition sigreturn (w : SigWorld) : SigWorld * Z :=
  let sig_frame_rsp := sw_rsp w in
  if (sig_frame_rsp =? 0) || (USER_TOP <=? sig_frame_rsp) then (w, EFAULT)
  else
    let pid := current (k_table (sw_k w)) in
    match proc (sw_k w) pid with
    | None => (w, EFAULT)
    | Some _ =>
        match read_user sig_frame_rsp (8 * SIGFRAME_WORDS) (sw_mem w) with
        | None => (w, EFAULT)
        | Some bs =>
            let mc i := word_of bs (22 + i) in
            let rip := mc 16%nat in
            if (rip =? 0) || (USER_TOP <=? rip) then (w, EFAULT)
            else
              let k := update_proc pid (update_mask (λ _, word_of bs 54)) (sw_k w) in
              let f := sw_frame w in
              let f' := mkFrame (mc 7%nat) (mc 6%nat) (mc 5%nat) (mc 4%nat) (r11 f) (mc 2%nat) (mc 1%nat) (mc 0%nat)
                          (mc 10%nat) (mc 8%nat) (mc 9%nat) (mc 12%nat) (mc 14%nat) (mc 11%nat) (rax f)
                          (Z.lor (Z.land (mc 17%nat) SAFE_RFLAGS) 0x200) rip in
              (mkSW k (sw_mem w) (mc 15%nat) f', to_signed 64 (mc 13%nat))
        end
    end.

(** ** System calls *)
Definition EINVAL : Z := -22.
Definition ESRCH : Z := -3.

Definition sys_kill (pid sig : Z) (k : Kernel) : Kernel * Z :=
  if (sig <? 0) || (64 <? sig) then (k, EINVAL)
  else if 0 <? pid then
    if bool_decide (pid ∈ all_pids k) then (if sig =? 0 then k else send_signal pid sig k, 0) else (k, ESRCH)
  else if pid =? 0 then
    let pgid := match proc k (current (k_table k)) with Some p => p_pgid p | None => 0 end in
    (if sig =? 0 then k else send_signal_group pgid sig k, 0)
  else if pid =? -1 then
    let me := current (k_table k) in
    (foldl (λ k p, if negb (p =? 1) && negb (p =? me) && negb (sig =? 0) then send_signal p sig k else k) k (all_pids k), 0)
  else (if sig =? 0 then k else send_signal_group (- pid) sig k, 0).
End Signals.

(** [sys_rt_sigaction]; [act] is the structure the user pointer leads to, and
    the second result the one written to [oldact]. *)
Record KSigaction := mkKSA { ksa_handler : Z; ksa_flags : Z; ksa_restorer : Z; ksa_mask : Z }.
Definition handler_of (h : Z) : SigHandler := if h =? 0 then SigDefault else if h =? 1 then SigIgnore else SigUser h.
Definition handler_word (h : SigHandler) : Z := match h with SigUser a => a | SigIgnore => 1 | SigDefault => 0 end.

Definition sys_rt_sigaction (sig : Z) (act : option KSigaction) (k : Kernel) : Kernel * option KSigaction * Z :=
  if (sig <=? 0) || (NSIG <=? sig) then (k, None, EINVAL)
  else
    let cur := current (k_table k) in
    let old := (λ a, mkKSA (handler_word (handler a)) (act_flags a) (restorer a) (act_mask a)) <$>
               (proc k cur ≫= λ p, p_sig_actions p !! Z.to_nat sig) in
    let k' := match act with
              | Some a =>
                  let new := mkAction (handler_of (ksa_handler a)) (ksa_mask a) (wrap 32 (ksa_flags a)) (ksa_restorer a) in
                  update_proc cur (λ p, set_sig (p_sig_pending p) (p_sig_mask p)
                                          (<[Z.to_nat sig := new]> (p_sig_actions p)) p) k
              | None => k
              end in
    (k', old, 0).

Definition sys_rt_sigprocmask (how : Z) (set : option Z) (k : Kernel) : Kernel * Z * Z :=
  let cur := current (k_table k) in
  let old := match proc k cur with Some p => p_sig_mask p | None => 0 end in
  let k' := match set with
            | Some new =>
                update_proc cur (update_mask (λ m,
                  if how =? 0 then add_all m new else if how =? 1 then remove_all m new else if how =? 2 then new else m)) k
            | None => k
            end in
  (k', old, 0).

(** ** Lemmas on sets *)
Lemma sig_has_testbit s sig : 0 ≤ sig < 64 → sig_has s sig = Z.testbit s sig.
Proof. intros Hs. unfold sig_has. rewrite word_test by lia. by replace (sig <? 64) with true by lia. Qed.

Lemma sig_add_testbit s sig j : 0 ≤ sig < 64 → 0 ≤ j → Z.testbit (sig_add s sig) j = bool_decide (j = sig) || Z.testbit s j.
Proof. intros Hs Hj. unfold sig_add. replace (sig <? 64) with true by lia. apply word_set_testbit; lia. Qed.

Lemma sig_remove_testbit s sig j :
  0 ≤ sig < 64 → 0 ≤ j < 64 → Z.testbit (sig_remove s sig) j = negb (bool_decide (j = sig)) && Z.testbit s j.
Proof. intros Hs Hj. unfold sig_remove. replace (sig <? 64) with true by lia. by apply word_clr_testbit. Qed.

Lemma and_not_testbit s m j : is_u64 m → 0 ≤ j < 64 → Z.testbit (and_not s m) j = Z.testbit s j && negb (Z.testbit m j).
Proof. intros Hm Hj. unfold and_not. by rewrite Z.land_spec, wnot_testbit. Qed.

Lemma and_not_range s m : is_u64 s → is_u64 (and_not s m).
Proof. unfold and_not. auto with words. Qed.
Lemma sig_add_range s sig : is_u64 s → 0 ≤ sig → is_u64 (sig_add s sig).
Proof. intros. unfold sig_add. destruct (Z.ltb_spec sig 64); auto with words. Qed.
Lemma sig_remove_range s sig : is_u64 s → is_u64 (sig_remove s sig).
Proof. intros. unfold sig_remove. destruct (Z.ltb_spec sig 64); auto with words. Qed.
#[export] Hint Resolve and_not_range sig_add_range sig_remove_range : words.

Lemma next_pending_spec s :
  is_u64 s →
  match next_pending s with
  | Some sig => 0 ≤ sig < 64 ∧ Z.testbit s sig = true ∧ ∀ j, 0 ≤ j < sig → Z.testbit s j = false
  | None => s = 0
  end.
Proof.
  intros Hs. unfold next_pending. destruct (Z.eqb_spec s 0); [done|]. by apply (trailing_zeros_spec 64).
Qed.

Lemma fold_sigs_spec f v n s m mask j :
  (∀ mk i, 0 ≤ i < 64 → Z.testbit (f mk i) j = if decide (j = i) then v else Z.testbit mk j) →
  0 ≤ s → s + Z.of_nat n ≤ 64 →
  Z.testbit (fold_sigs f n s m mask) j =
    if decide (s ≤ j < s + Z.of_nat n ∧ Z.testbit m j = true) then v else Z.testbit mask j.
Proof.
  intros Hf. revert s mask. induction n as [|n IH]; intros s mask Hs Hn; cbn [fold_sigs].
  - rewrite decide_False by lia. done.
  - rewrite IH, sig_has_testbit by lia. destruct (decide (j = s)) as [->|Hne].
    + rewrite decide_False by lia. destruct (Z.testbit m s) eqn:Em.
      * rewrite Hf, decide_True, decide_True by lia. done.
      * rewrite decide_False; [done|]. intros [_ ?]. done.
    + assert (Z.testbit (if Z.testbit m s then f mask s else mask) j = Z.testbit mask j) as ->.
      { destruct (Z.testbit m s); [|done]. rewrite Hf, decide_False by lia. done. }
      assert (s + 1 ≤ j < s + 1 + Z.of_nat n ↔ s ≤ j < s + Z.of_nat (S n)) by lia.
      repeat case_decide; tauto.
Qed.

Lemma fold_sigs_range f n s m mask :
  (∀ mk i, 0 ≤ i < 64 → is_u64 mk → is_u64 (f mk i)) → 0 ≤ s → s + Z.of_nat n ≤ 64 →
  is_u64 mask → is_u64 (fold_sigs f n s m mask).
Proof.
  intros Hf. revert s mask. induction n as [|n IH]; intros s mask Hs Hn Hm; cbn [fold_sigs]; [done|].
  apply IH; [lia|lia|]. destruct (sig_has m s); [|done]. apply Hf; [lia|done].
Qed.

Lemma u64_ext a b : is_u64 a → is_u64 b → (∀ j, 0 ≤ j < 64 → Z.testbit a j = Z.testbit b j) → a = b.
Proof.
  intros Ha Hb H. apply Z.bits_inj'. intros j Hj. destruct (Z.lt_ge_cases j 64); [by apply H|].
  by rewrite !(testbit_above 64).
Qed.

Lemma add_all_lor mask m : is_u64 mask → is_u64 m → add_all mask m = Z.lor mask m.
Proof.
  intros Hk Hm. unfold add_all. assert (is_u64 (fold_sigs sig_add 64 0 m mask)) as Hr.
  { apply fold_sigs_range; [|lia|lia|done]. intros mk i Hi Hmk. apply sig_add_range; [done|lia]. }
  apply u64_ext; [done|auto with words|].
  intros j Hj. clear Hr. rewrite (fold_sigs_spec sig_add true); [|intros mk i Hi; rewrite sig_add_testbit by lia|lia|lia].
  - rewrite Z.lor_spec. case_decide as E; [destruct E as [_ ->]; by rewrite orb_true_r|].
    destruct (Z.testbit m j); [destruct E; split; [lia|done]|by rewrite orb_false_r].
  - case_decide; [by rewrite bool_decide_eq_true_2|by rewrite bool_decide_eq_false_2].
Qed.

Lemma remove_all_land mask m : is_u64 mask → is_u64 m → remove_all mask m = Z.land mask (wnot 64 m).
Proof.
  intros Hk Hm. unfold remove_all. assert (is_u64 (fold_sigs sig_remove 64 0 m mask)) as Hr.
  { apply fold_sigs_range; [|lia|lia|done]. intros mk i Hi Hmk. by apply sig_remove_range. }
  apply u64_ext; [done|auto with words|].
  intros j Hj. clear Hr. rewrite (fold_sigs_spec sig_remove false); [|intros mk i Hi; rewrite sig_remove_testbit by lia|lia|lia].
  - rewrite Z.land_spec, wnot_testbit by done. case_decide as E; [destruct E as [_ ->]; by rewrite andb_false_r|].
    destruct (Z.testbit m j); [destruct E; split; [lia|done]|by rewrite andb_true_r].
  - case_decide; [by rewrite bool_decide_eq_true_2|by rewrite bool_decide_eq_false_2].
Qed.

(** ** What the default actions leave alone *)
Definition sig_view (p : Process) : Z * Z * list SigAction * Z :=
  (p_sig_pending p, p_sig_mask p, p_sig_actions p, p_ppid p).
Definition sig_fields (k : Kernel) (pid : Z) : option (Z * Z * list SigAction * Z) := sig_view <$> proc k pid.

Lemma remove_task_table pid k k' : remove_task pid k = Some k' → k_table k' = k_table k.
Proof.
  unfold remove_task. destruct (find_rq pid (k_rqs k)) as [[[i rq] e]|]; [|by intros [= <-]].
  destruct (rq_dequeue _ _ _); [|done]. by intros [= <-].
Qed.
Lemma enqueue_table pid k k' : enqueue pid k = Some k' → k_table k' = k_table k.
Proof.
  unfold enqueue. destruct (find_rq pid (k_rqs k)) as [[[i rq] e]|]; [|by intros [= <-]].
  destruct (rq_enqueue _ _ _); [|done]. by intros [= <-].
Qed.
Lemma add_task_table ncpus pid prio pol k k' : add_task ncpus pid prio pol k = Some k' → k_table k' = k_table k.
Proof.
  unfold add_task. destruct (rq_at k _); [|by intros [= <-]].
  destruct (rq_enqueue _ _ _); [|done]. by intros [= <-].
Qed.

Lemma sig_fields_table k k' pid : k_table k' = k_table k → sig_fields k' pid = sig_fields k pid.
Proof. intros E. unfold sig_fields, proc. by rewrite E. Qed.

Lemma sig_fields_update k pid q f :
  (∀ p, sig_view (f p) = sig_view p) ∨ q ≠ pid →
  sig_fields (update_proc q f k) pid = sig_fields k pid.
Proof.
  intros Hf. unfold sig_fields. rewrite proc_update. case_decide as E; [subst|done].
  destruct Hf as [Hf|]; [|done]. destruct (proc k q); [|done]. cbn. by rewrite Hf.
Qed.

Lemma wake_process_fields pid q k k' : wake_process q k = Some k' → sig_fields k' pid = sig_fields k pid.
Proof.
  unfold wake_process. case_bool_decide; [|by intros [= <-]].
  destruct (enqueue q _) as [k1|] eqn:E; [|done]. cbn [mbind option_bind]. intros [= <-].
  rewrite (sig_fields_table k1) by done. rewrite (sig_fields_table _ _ _ (enqueue_table _ _ _ E)).
  by apply sig_fields_update; left.
Qed.

Section SignalFacts.
Context (may_signal : Z → Z → Z → bool) (resched : Kernel → Kernel) (ncpus : Z).

Lemma send_signal_fields pid q sig k :
  q ≠ pid → sig_fields (send_signal may_signal q sig k) pid = sig_fields k pid.
Proof.
  intros Hne. unfold send_signal. destruct (_ || _); [done|]. destruct (_ && _); [done|].
  apply sig_fields_update. by right.
Qed.

(** A default action leaves the signal state of its process alone, unless the
    process is its own parent. *)
Lemma apply_default_fields pid sig k k' :
  (∀ k, sig_fields (resched k) pid = sig_fields k pid) →
  (∀ p, proc k pid = Some p → p_ppid p ≠ pid) →
  apply_default may_signal resched ncpus pid sig k = Some k' → sig_fields k' pid = sig_fields k pid.
Proof.
  intros Hre Hpp. unfold apply_default. destruct (default_action sig).
  - by intros [= <-].
  - intros H. rewrite (sig_fields_table _ _ _ (remove_task_table _ _ _ H)). by apply sig_fields_update; left.
  - set (k1 := update_proc pid _ k). assert (sig_fields k1 pid = sig_fields k pid) as H1.
    { apply sig_fields_update. left. intros p. by case_decide. }
    rewrite <-H1. case_bool_decide as Hst; intros H.
    + by rewrite (sig_fields_table _ _ _ (add_task_table _ _ _ _ _ _ H)).
    + by eapply wake_process_fields.
  - set (k1 := update_proc pid _ k). assert (sig_fields k1 pid = sig_fields k pid) as H1.
    { by apply sig_fields_update; left. }
    destruct (remove_task pid k1) as [k2|] eqn:E2; [|done]. cbn [mbind option_bind].
    assert (sig_fields k2 pid = sig_fields k pid) as H2.
    { by rewrite (sig_fields_table _ _ _ (remove_task_table _ _ _ E2)). }
    set (ppid := match proc k pid with Some p => p_ppid p | None => 0 end).
    destruct (if negb (ppid =? 0) then _ else _) as [k3|] eqn:E3; [|done]. cbn [mbind option_bind]. intros [= <-].
    assert (sig_fields k3 pid = sig_fields k pid) as H3.
    { destruct (proc k pid) as [p|] eqn:Ep; cbn in ppid.
      - destruct (negb (ppid =? 0)); [|by simplify_eq]. rewrite (wake_process_fields _ _ _ _ E3).
        rewrite send_signal_fields; [done|]. by apply Hpp.
      - subst ppid. cbn in E3. by simplify_eq. }
    destruct (pid =? _); [by rewrite Hre|done].
Qed.

Lemma fields_proc k k' pid :
  sig_fields k' pid = sig_fields k pid →
  pending_mask k' pid = pending_mask k pid ∧ ∀ sig, action_of k' pid sig = action_of k pid sig.
Proof.
  unfold sig_fields, pending_mask, action_of. destruct (proc k' pid), (proc k pid); cbn; try done.
  intros [= H1 H2 H3 _]. split; [by rewrite H1, H2|]. intros sig. by rewrite H3.
Qed.

(** ** The dispatch loop *)
Definition deliverable (from_irq : bool) (pending mask skip : Z) : Z :=
  if from_irq then and_not (and_not pending mask) skip else and_not pending mask.
Definition bits (d : Z) : gset Z := filter (λ j, Z.testbit d j = true) (list_to_set (seqZ 0 64)).

Lemma elem_of_bits d j : j ∈ bits d ↔ 0 ≤ j < 64 ∧ Z.testbit d j = true.
Proof. unfold bits. rewrite elem_of_filter, elem_of_list_to_set, elem_of_seqZ. intuition lia. Qed.

Lemma size_bits d : (size (bits d) ≤ 64)%nat.
Proof.
  assert (bits d ⊆ list_to_set (seqZ 0 64)) as H%subseteq_size by (unfold bits; set_solver).
  by rewrite size_list_to_set, length_seqZ in H by apply NoDup_seqZ.
Qed.

Lemma bits_shrink d d' sig :
  0 ≤ sig < 64 → Z.testbit d sig = true →
  (∀ j, 0 ≤ j < 64 → Z.testbit d' j = Z.testbit d j && negb (bool_decide (j = sig))) →
  (size (bits d') < size (bits d))%nat.
Proof.
  intros Hs Hd H. apply subset_size. split.
  - intros j [Hj Hb]%elem_of_bits. rewrite H in Hb by done. apply elem_of_bits. split; [done|].
    by apply andb_prop in Hb as [? _].
  - intros Hsub. assert (sig ∈ bits d') as [_ Hb]%elem_of_bits by (by apply Hsub, elem_of_bits).
    rewrite H, bool_decide_eq_true_2, andb_false_r in Hb by done. done.
Qed.

(** The signal state of [pid] during dispatch: well-formed words, and only
    signals with a user handler skipped. *)
Definition dispatch_inv (pid : Z) (from_irq : bool) (s : Kernel * Z) : Prop :=
  ∃ pend mask acts ppid, sig_fields s.1 pid = Some (pend, mask, acts, ppid) ∧ ppid ≠ pid ∧
    is_u64 pend ∧ is_u64 mask ∧ is_u64 s.2 ∧
    ∀ j, 0 ≤ j < 64 → Z.testbit s.2 j = true → from_irq = true ∧ ∃ a, handler (action_of s.1 pid j) = SigUser a.
Definition dispatch_measure (pid : Z) (from_irq : bool) (s : Kernel * Z) : nat :=
  let '(pend, mask) := pending_mask s.1 pid in size (bits (deliverable from_irq pend mask s.2)).

Lemma pending_mask_fields k pid pend mask acts ppid :
  sig_fields k pid = Some (pend, mask, acts, ppid) → pending_mask k pid = (pend, mask).
Proof. unfold sig_fields, pending_mask. destruct (proc k pid); [|done]. by intros [= <- <- _ _]. Qed.

Lemma deliverable_testbit from_irq pend mask skip j :
  is_u64 mask → is_u64 skip → 0 ≤ j < 64 →
  Z.testbit (deliverable from_irq pend mask skip) j =
    Z.testbit pend j && negb (Z.testbit mask j) && (negb from_irq || negb (Z.testbit skip j)).
Proof.
  intros Hm Hs Hj. unfold deliverable. destruct from_irq; rewrite !and_not_testbit by done; cbn; [done|].
  by rewrite andb_true_r.
Qed.

Lemma dispatch_step pid from_irq s s' :
  (∀ k, sig_fields (resched k) pid = sig_fields k pid) →
  dispatch_inv pid from_irq s →
  dispatch_round may_signal resched ncpus pid from_irq s = inl s' →
  dispatch_inv pid from_irq s' ∧ (dispatch_measure pid from_irq s' < dispatch_measure pid from_irq s)%nat.
Proof.
  intros Hre (pend & mask & acts & ppid & Hf & Hpp & Hp & Hm & Hs & Husr). destruct s as [k skip]. cbn [fst snd] in *.
  unfold dispatch_round, dispatch_measure. cbn [fst snd]. rewrite (pending_mask_fields _ _ _ _ _ _ Hf).
  fold (deliverable from_irq pend mask skip). set (d := deliverable from_irq pend mask skip).
  assert (is_u64 d) as Hd by (unfold d, deliverable; destruct from_irq; auto with words).
  pose proof (next_pending_spec d Hd) as Hn. destruct (next_pending d) as [sig|]; [|done].
  destruct Hn as (Hsig & Hbit & _). destruct (from_irq && _) eqn:Euser.
  - apply andb_prop in Euser as [-> Eh]. intros [= <-]. cbn [fst snd]. split.
    + exists pend, mask, acts, ppid. cbn [fst snd]. split; [done|]. split; [done|]. split; [done|]. split; [done|].
      split; [apply sig_add_range; [done|lia]|].
      intros j Hj. rewrite sig_add_testbit by lia. case_bool_decide as E; [intros _|by apply Husr].
      subst j. split; [done|]. destruct (handler _); [done|done|eauto].
    + rewrite (pending_mask_fields _ _ _ _ _ _ Hf). apply (bits_shrink d _ sig Hsig Hbit). intros j Hj.
      unfold d. rewrite !deliverable_testbit by first [done | apply sig_add_range; [done|lia]].
      rewrite sig_add_testbit by lia. cbn [negb orb]. rewrite negb_orb.
      by destruct (Z.testbit pend j), (Z.testbit mask j), (Z.testbit skip j), (bool_decide (j = sig)).
  - set (k1 := update_proc pid _ k). destruct (deliver may_signal resched ncpus pid sig k1) as [k2|] eqn:Ed; [|done].
    intros [= <-]. cbn [fst snd].
    assert (sig_fields k1 pid = Some (sig_remove pend sig, mask, acts, ppid)) as Hf1.
    { unfold sig_fields, k1 in *. rewrite proc_update, decide_True by done.
      destruct (proc k pid) as [p|]; [|done]. injection Hf as <- <- <- <-. done. }
    assert (sig_fields k2 pid = sig_fields k1 pid) as Hf2.
    { unfold deliver in Ed. destruct (handler (action_of k1 pid sig)); [|by injection Ed as <-|by injection Ed as <-].
      eapply apply_default_fields; [done| |done]. intros p Hpr. unfold sig_fields in Hf1. rewrite Hpr in Hf1.
      by injection Hf1 as _ _ _ ->. }
    split.
    + exists (sig_remove pend sig), mask, acts, ppid. cbn [fst snd]. split; [congruence|]. split; [done|].
      split; [auto with words|]. split; [done|]. split; [done|].
      intros j Hj Hb. destruct (Husr j Hj Hb) as [? [a Ha]]. split; [done|]. exists a.
      rewrite (proj2 (fields_proc _ _ _ Hf2)). rewrite <-Ha. unfold action_of. unfold sig_fields in Hf, Hf1.
      destruct (proc k1 pid), (proc k pid); [|done..]. injection Hf as _ _ -> _. injection Hf1 as _ _ -> _. done.
    + rewrite Hf1 in Hf2. rewrite (pending_mask_fields _ _ _ _ _ _ Hf2).
      apply (bits_shrink d _ sig Hsig Hbit). intros j Hj. unfold d. rewrite !deliverable_testbit by done.
      rewrite sig_remove_testbit by done.
      by destruct (Z.testbit pend j), (Z.testbit mask j), (Z.testbit skip j), (bool_decide (j = sig)), from_irq.
Qed.
End SignalFacts.

(** ** User memory *)
Lemma write_bytes_lookup a bs m y :
  write_bytes a bs m !! y = if decide (a ≤ y < a + Z.of_nat (length bs)) then bs !! Z.to_nat (y - a) else m !! y.
Proof.
  unfold write_bytes. revert a m. induction bs as [|b bs IH]; intros a m; cbn [foldl length].
  - rewrite decide_False by lia. done.
  - rewrite IH. destruct (decide (y = a)) as [->|Hne].
    + rewrite decide_False by lia. rewrite lookup_insert_eq, decide_True by lia. by rewrite Z.sub_diag.
    + rewrite lookup_insert_ne by done. destruct (decide (a ≤ y < a + Z.of_nat (S (length bs)))).
      * rewrite decide_True by lia. replace (Z.to_nat (y - a)) with (S (Z.to_nat (y - (a + 1)))) by lia. done.
      * by rewrite decide_False by lia.
Qed.

Lemma length_read_bytes a n m : length (read_bytes a n m) = n.
Proof. unfold read_bytes. rewrite length_fmap, length_seqZ. lia. Qed.

Lemma read_bytes_lookup a n m i :
  (i < n)%nat → read_bytes a n m !! i = Some (default 0 (m !! (a + Z.of_nat i))).
Proof. intros Hi. unfold read_bytes. rewrite list_lookup_fmap, lookup_seqZ_lt by lia. done. Qed.

Section UserMemory.
Context (frame_of : Z → option Z).

(** The page table maps pages to distinct, page-aligned frames. *)
Definition pages_ok : Prop :=
  (∀ pg b, frame_of pg = Some b → b mod 4096 = 0 ∧ 0 ≤ b < 2 ^ 52) ∧
  (∀ pg pg' b, frame_of pg = Some b → frame_of pg' = Some b → pg = pg').

Definition pa (va : Z) : Z := default 0 (frame_of (va / 4096)) + va mod 4096.
Definition mapped (va n : Z) : Prop := ∀ i, 0 ≤ i < n → is_Some (frame_of ((va + i) / 4096)).

Lemma page_offset va : Z.land va 0xFFF = va mod 4096.
Proof. change 0xFFF with (Z.ones 12). by rewrite Z.land_ones. Qed.

Lemma page_base b o : b mod 4096 = 0 → 0 ≤ b < 2 ^ 52 → 0 ≤ o < 4096 → Z.land (b + o) (wnot 64 0xFFF) = b.
Proof.
  intros Hb Hr Ho. apply Z.bits_inj'. intros j Hj.
  assert (b = Z.shiftl (b / 4096) 12) as Eb by (rewrite Z.shiftl_mul_pow2 by lia; change (2 ^ 12) with 4096; Z.div_mod_to_equations; lia).
  assert (b + o = Z.lor b o) as ->.
  { rewrite <-Z.lxor_lor; [apply Z.add_nocarry_lxor|].
    all: apply Z.bits_inj'; intros i Hi; rewrite Z.land_spec, Z.bits_0, Eb, Z.shiftl_spec by lia;
      destruct (Z.lt_ge_cases i 12); [rewrite Z.testbit_neg_r by lia; done|];
      rewrite (testbit_above 12 o) by (unfold in_range; change (2 ^ 12) with 4096; lia); apply andb_false_r. }
  rewrite Z.land_spec, Z.lor_spec. destruct (Z.lt_ge_cases j 64).
  - rewrite wnot_testbit by (done || (unfold in_range; lia)). change 0xFFF with (Z.ones 12).
    destruct (Z.lt_ge_cases j 12).
    + rewrite Z.ones_spec_low by lia. rewrite Eb, Z.shiftl_spec, (Z.testbit_neg_r _ (j - 12)) by lia. by rewrite andb_false_r.
    + rewrite Z.ones_spec_high by lia. rewrite (testbit_above 12 o) by (unfold in_range; change (2 ^ 12) with 4096; lia).
      by rewrite orb_false_r, andb_true_r.
  - rewrite (testbit_above 64 (wnot 64 _)) by (try apply wnot_range; unfold in_range; lia).
    rewrite (testbit_above 64 b) by (unfold in_range; lia). apply andb_false_r.
Qed.

(** The bytes from [va] to the end of its page are contiguous. *)
Lemma pa_step va i : 0 ≤ i < 4096 - va mod 4096 → pa (va + i) = pa va + i.
Proof.
  intros Hi. unfold pa. pose proof (Z.mod_pos_bound va 4096). pose proof (Z.div_mod va 4096).
  assert ((va + i) / 4096 = va / 4096) as -> by (symmetry; apply (Z.div_unique _ 4096 _ (va mod 4096 + i)); lia).
  assert ((va + i) mod 4096 = va mod 4096 + i) as -> by (symmetry; apply (Z.mod_unique _ 4096 (va / 4096)); lia). lia.
Qed.

Lemma translate_pa va b :
  pages_ok → frame_of (va / 4096) = Some b →
  translate frame_of va = Some (pa va) ∧ Z.land (pa va) (wnot 64 0xFFF) + Z.land va 0xFFF = pa va.
Proof.
  intros [Hal _] Hb. unfold translate, pa. rewrite Hb. split; [done|]. cbn. destruct (Hal _ _ Hb).
  rewrite page_offset, page_base; [done|done|done|]. by apply Z.mod_pos_bound.
Qed.

Lemma pa_inj va va' :
  pages_ok → is_Some (frame_of (va / 4096)) → is_Some (frame_of (va' / 4096)) → pa va = pa va' → va = va'.
Proof.
  intros [Hal Hinj] [b Hb] [b' Hb']. unfold pa. rewrite Hb, Hb'. cbn. destruct (Hal _ _ Hb) as [A1 R1], (Hal _ _ Hb') as [A2 R2].
  intros E. pose proof (Z.div_mod va 4096). pose proof (Z.div_mod va' 4096).
  pose proof (Z.mod_pos_bound va 4096). pose proof (Z.mod_pos_bound va' 4096).
  pose proof (Z.div_mod b 4096). pose proof (Z.div_mod b' 4096).
  assert (b = b') as -> by nia. rewrite (Hinj _ _ _ Hb Hb') in *. lia.
Qed.

Lemma mapped_head va n : mapped va n → 0 < n → ∃ b, frame_of (va / 4096) = Some b.
Proof. intros Hm Hn. destruct (Hm 0 ltac:(lia)) as [b Hb]. rewrite Z.add_0_r in Hb. eauto. Qed.

Lemma mapped_tail va n k : mapped va n → 0 ≤ k → mapped (va + k) (n - k).
Proof. intros Hm Hk i Hi. rewrite <-Z.add_assoc. apply Hm. lia. Qed.

(** Writing through the page table, byte by byte. *)
Lemma write_loop n va data m :
  pages_ok → mapped va (Z.of_nat (length data)) → 0 ≤ va → va + Z.of_nat (length data) < 2 ^ 64 → (length data < n)%nat →
  ∃ m', loop_nat (write_round frame_of) n (m, va, data) = inr (m', true) ∧
    (∀ i, 0 ≤ i < Z.of_nat (length data) → m' !! pa (va + i) = data !! Z.to_nat i) ∧
    (∀ y, (∀ i, 0 ≤ i < Z.of_nat (length data) → y ≠ pa (va + i)) → m' !! y = m !! y).
Proof.
  intros Hok. revert va data m. induction n as [|n IH]; intros va data m Hm Hv Hend Hn; [lia|].
  rewrite loop_nat_S. destruct data as [|d data0] eqn:Ed; [exists m; cbn; split_and!; [done|lia|done]|].
  rewrite <-Ed in *. assert (0 < Z.of_nat (length data)) as Hpos by (rewrite Ed; cbn; lia).
  destruct (mapped_head _ _ Hm Hpos) as [b Hb]. destruct (translate_pa va b Hok Hb) as [Htr Hpa].
  assert (write_round frame_of (m, va, data) = inl (write_bytes (pa va) (take (Z.to_nat (Z.min (0x1000 - va mod 4096) (Z.of_nat (length data)))) data) m,
     wadd 64 va (Z.of_nat (Z.to_nat (Z.min (0x1000 - va mod 4096) (Z.of_nat (length data))))), drop (Z.to_nat (Z.min (0x1000 - va mod 4096) (Z.of_nat (length data)))) data)) as ->.
  { unfold write_round. rewrite Ed, <-Ed, Htr, Hpa, page_offset. done. }
  pose proof (Z.mod_pos_bound va 4096). set (c := Z.min (0x1000 - va mod 4096) (Z.of_nat (length data))) in *.
  assert (0 < c ≤ Z.of_nat (length data)) as Hc by lia. rewrite Z2Nat.id by lia. rewrite wadd_small by lia.
  assert (Z.of_nat (length (drop (Z.to_nat c) data)) = Z.of_nat (length data) - c) as Hl by (rewrite length_drop; lia).
  destruct (IH (va + c) (drop (Z.to_nat c) data) (write_bytes (pa va) (take (Z.to_nat c) data) m)) as (m' & -> & Hw & Hframe);
    [rewrite Hl; by apply mapped_tail; [|lia]|lia|lia|rewrite length_drop; lia|].
  rewrite Hl in Hw, Hframe. exists m'. split_and!; [done| |].
  - intros i Hi. destruct (Z.lt_ge_cases i c) as [Hic|Hic].
    + rewrite Hframe.
      * rewrite pa_step by lia. rewrite write_bytes_lookup, decide_True by (rewrite length_take; lia).
        rewrite lookup_take_lt by lia. f_equal. lia.
      * intros j Hj E. apply pa_inj in E; [lia|done|by apply Hm|]. rewrite <-Z.add_assoc. apply Hm. lia.
    + replace (va + i) with (va + c + (i - c)) by lia. rewrite Hw by lia. rewrite lookup_drop. f_equal. lia.
  - intros y Hy. rewrite Hframe.
    + rewrite write_bytes_lookup, decide_False; [done|]. rewrite length_take. intros Hr.
      apply (Hy (y - pa va)); [lia|]. rewrite pa_step by lia. lia.
    + intros i Hi. rewrite <-Z.add_assoc. apply Hy. lia.
Qed.

Lemma read_loop m size n va bytes :
  pages_ok → mapped va (Z.of_nat (size - length bytes)) → 0 ≤ va → va + Z.of_nat (size - length bytes) < 2 ^ 64 →
  (length bytes ≤ size)%nat → (size - length bytes < n)%nat →
  ∃ rest, loop_nat (read_round frame_of m size) n (va, bytes) = inr (Some (bytes ++ rest)) ∧
    length rest = (size - length bytes)%nat ∧
    ∀ i, (i < length rest)%nat → rest !! i = Some (default 0 (m !! pa (va + Z.of_nat i))).
Proof.
  intros Hok. revert va bytes. induction n as [|n IH]; intros va bytes Hm Hv Hend Hle Hn; [lia|].
  rewrite loop_nat_S. cbn [read_round]. case_bool_decide as Hlt.
  2: { exists []. rewrite app_nil_r. cbn [length]. split_and!; [done|lia|]. intros i Hi. lia. }
  destruct (mapped_head _ _ Hm ltac:(lia)) as [b Hb]. destruct (translate_pa va b Hok Hb) as [-> ->]. rewrite page_offset.
  pose proof (Z.mod_pos_bound va 4096). set (c := Z.min (0x1000 - va mod 4096) (Z.of_nat (size - length bytes))) in *.
  assert (0 < c ≤ Z.of_nat (size - length bytes)) as Hc by lia. rewrite Z2Nat.id by lia. rewrite wadd_small by lia.
  set (chunk := read_bytes (pa va) (Z.to_nat c) m).
  assert (length (bytes ++ chunk) = (length bytes + Z.to_nat c)%nat) as Hl by (rewrite length_app; unfold chunk; by rewrite length_read_bytes).
  destruct (IH (va + c) (bytes ++ chunk)) as (rest & -> & Hlen & Hrest); rewrite ?Hl; [|lia|lia|lia|lia|].
  { replace (Z.of_nat (size - (length bytes + Z.to_nat c))) with (Z.of_nat (size - length bytes) - c) by lia. by apply mapped_tail; [|lia]. }
  rewrite Hl in Hlen. exists (chunk ++ rest). rewrite <-app_assoc. assert (length chunk = Z.to_nat c) as Hlc by apply length_read_bytes.
  split_and!; [done|rewrite length_app; lia|]. intros i Hi. rewrite length_app in Hi.
  destruct (decide (i < Z.to_nat c)%nat).
  - rewrite lookup_app_l by lia. unfold chunk. rewrite read_bytes_lookup by lia. by rewrite pa_step by lia.
  - rewrite lookup_app_r by lia. rewrite Hrest by lia. do 4 f_equal. lia.
Qed.
End UserMemory.

(** ** The signal frame in memory *)
Lemma length_words_bytes ws : length (words_bytes ws) = (8 * length ws)%nat.
Proof.
  induction ws as [|y ws IH]; [done|]. change (words_bytes (y :: ws)) with (le_bytes 8 y ++ words_bytes ws).
  rewrite length_app, length_le_bytes, IH. cbn [length]. lia.
Qed.

Lemma drop_words_bytes i ws : drop (8 * i) (words_bytes ws) = words_bytes (drop i ws).
Proof.
  revert ws. induction i as [|i IH]; intros ws; [by rewrite !drop_0|]. destruct ws as [|x ws]; [by rewrite drop_nil|].
  change (words_bytes (x :: ws)) with (le_bytes 8 x ++ words_bytes ws). cbn [drop].
  replace (8 * S i)%nat with (length (le_bytes 8 x) + 8 * i)%nat by (rewrite length_le_bytes; lia).
  by rewrite drop_app_add.
Qed.

Lemma word_of_words ws i x : ws !! i = Some x → word_of (words_bytes ws) i = wrap 64 x.
Proof.
  intros Hi. unfold word_of. rewrite drop_words_bytes. rewrite (drop_S ws x i Hi).
  change (words_bytes (x :: drop (S i) ws)) with (le_bytes 8 x ++ words_bytes (drop (S i) ws)).
  rewrite take_app_length' by (by rewrite length_le_bytes). by rewrite le_value_bytes.
Qed.

Lemma length_sig_frame f user_rsp mask sig rest : length (sig_frame f user_rsp mask sig rest) = SIGFRAME_WORDS.
Proof. done. Qed.

Lemma align_16 a : 0 ≤ a < 2 ^ 64 → Z.land a (wnot 64 0xF) = 16 * (a / 16).
Proof.
  intros Ha. apply Z.bits_inj'. intros j Hj. rewrite Z.land_spec.
  replace (16 * (a / 16)) with (Z.shiftl (Z.shiftr a 4) 4) by (rewrite Z.shiftl_mul_pow2, Z.shiftr_div_pow2 by lia; change (2 ^ 4) with 16; lia).
  rewrite Z.shiftl_spec by lia. destruct (Z.lt_ge_cases j 64).
  - rewrite wnot_testbit by (done || (unfold in_range; lia)). change 0xF with (Z.ones 4). destruct (Z.lt_ge_cases j 4).
    + rewrite Z.ones_spec_low by lia. rewrite (Z.testbit_neg_r _ (j - 4)) by lia. apply andb_false_r.
    + rewrite Z.ones_spec_high by lia. rewrite Z.shiftr_spec by lia. replace (j - 4 + 4) with j by lia. apply andb_true_r.
  - rewrite (testbit_above 64 a) by (unfold in_range; lia). rewrite Z.shiftr_spec by lia. replace (j - 4 + 4) with j by lia.
    by rewrite (testbit_above 64 a) by (unfold in_range; lia).
Qed.

Section FrameFacts.
Context (frame_of : Z → option Z).

Lemma build_signal_frame_inv pid sig action user_rsp w w1 new_rsp p :
  build_signal_frame frame_of pid sig action user_rsp w = (w1, Some new_rsp) → proc (sw_k w) pid = Some p →
  0 ≤ user_rsp →
  0 < user_rsp < USER_TOP ∧ 0 ≤ new_rsp < USER_TOP ∧ new_rsp + 504 ≤ user_rsp ∧
  write_to_user_va frame_of new_rsp (words_bytes (sig_frame (sw_frame w) user_rsp (p_sig_mask p) sig (restorer action))) (sw_mem w)
    = (sw_mem w1, true).
Proof.
  unfold build_signal_frame. intros Hb Hp Hr. destruct (Z.eqb_spec user_rsp 0); [done|].
  destruct (Z.leb_spec USER_TOP user_rsp); [done|]. cbn [orb] in Hb. rewrite Hp in Hb. cbn zeta in Hb.
  change (8 * Z.of_nat SIGFRAME_WORDS) with 504 in Hb. set (nr := Z.land _ _) in Hb.
  destruct (Z.leb_spec USER_TOP nr) as [|Hnr]; [done|].
  destruct (write_to_user_va _ _ _ _) as [m ok] eqn:E. injection Hb as <- Hok. destruct ok; [|done]. injection Hok as <-.
  cbn [set_mem sw_mem]. unfold USER_TOP in *.
  assert (wsub 64 user_rsp 504 = user_rsp - 504) as Hw.
  { unfold wsub, wrap in *. destruct (Z.lt_ge_cases user_rsp 504) as [Hlt|]; [exfalso|apply Z.mod_small; lia].
    unfold nr in Hnr. rewrite align_16 in Hnr by (apply Z.mod_pos_bound; lia).
    replace (user_rsp - 504) with (user_rsp - 504 + 2 ^ 64 + -1 * 2 ^ 64) in Hnr by lia.
    rewrite Z.mod_add, Z.mod_small in Hnr by lia. Z.div_mod_to_equations. lia. }
  unfold nr in *. rewrite Hw in *.
  assert (504 ≤ user_rsp) as Hge.
  { unfold wsub, wrap in Hw. pose proof (Z.mod_pos_bound (user_rsp - 504) (2 ^ 64)). lia. }
  rewrite align_16 in * by lia. split; [lia|]. split; [Z.div_mod_to_equations; lia|]. split; [Z.div_mod_to_equations; lia|]. done.
Qed.

(** Reading a signal frame [d] words above its start. *)
Lemma read_frame d ws nr m m' :
  pages_ok frame_of → length ws = SIGFRAME_WORDS → 0 ≤ nr → nr + 1000 < 2 ^ 64 → (d ≤ 1)%nat →
  mapped frame_of nr (8 * (63 + Z.of_nat d)) →
  write_to_user_va frame_of nr (words_bytes ws) m = (m', true) →
  ∃ bs, read_user frame_of (nr + 8 * Z.of_nat d) (8 * SIGFRAME_WORDS) m' = Some bs ∧
    ∀ i x, ws !! (i + d)%nat = Some x → word_of bs i = wrap 64 x.
Proof.
  intros Hok Hlen Hnr Hend Hd Hm Hw. pose proof (length_words_bytes ws) as Hlb. rewrite Hlen in Hlb. change (8 * SIGFRAME_WORDS)%nat with 504%nat in *.
  unfold write_to_user_va in Hw. destruct (write_loop frame_of (S (length (words_bytes ws))) nr (words_bytes ws) m Hok) as (m2 & Hl & Hbytes & _).
  { rewrite Hlb. intros i Hi. apply Hm. lia. } { done. } { lia. } { lia. }
  rewrite Hl in Hw. injection Hw as ->. unfold read_user.
  destruct (read_loop frame_of m' 504 505 (nr + 8 * Z.of_nat d) [] Hok) as (bs & -> & Hlbs & Hbs);
    cbn [length]; [|lia|lia|lia|lia|].
  { intros i Hi. rewrite <-Z.add_assoc. apply Hm. lia. }
  rewrite Hlb in Hbytes. exists bs. split; [done|]. intros i y Hi. rewrite <-(word_of_words ws _ _ Hi). unfold word_of. f_equal.
  assert (i + d < 63)%nat as Hid by (apply lookup_lt_Some in Hi; unfold SIGFRAME_WORDS in *; lia).
  cbn [length] in Hlbs. apply list_eq_same_length with 8%nat; [rewrite length_take, length_drop; lia..|].
  intros j a b Hj. rewrite !lookup_take_lt, !lookup_drop by lia. rewrite Hbs by lia.
  replace (nr + 8 * Z.of_nat d + Z.of_nat (8 * i + j)) with (nr + Z.of_nat (8 * (i + d) + j)) by lia.
  rewrite Hbytes by lia. rewrite Nat2Z.id. intros Ha Hb. rewrite Hb in Ha. cbn in Ha. by injection Ha.
Qed.
End FrameFacts.

Lemma send_to_pending sig p :
  p_sig_pending (send_to sig p) =
    if negb (sig =? SIGKILL) && negb (sig =? SIGSTOP) && sig_has (p_sig_mask p) sig
    then p_sig_pending p else sig_add (p_sig_pending p) sig.
Proof. unfold send_to. destruct (_ && _ && _), (sig =? SIGKILL), (sig =? SIGSTOP); done. Qed.

Lemma send_to_state sig p :
  p_state (send_to sig p) = if sig =? SIGKILL then Zombie (-1) else if sig =? SIGSTOP then Stopped else p_state p.
Proof. unfold send_to. destruct (_ && _ && _), (sig =? SIGKILL), (sig =? SIGSTOP); done. Qed.

(** What holds when the dispatch loop leaves. *)
Lemma dispatch_done may_signal resched ncpus pid from_irq s k' :
  dispatch_inv pid from_irq s → dispatch_round may_signal resched ncpus pid from_irq s = inr (Some k') →
  ∃ skip, dispatch_inv pid from_irq (k', skip) ∧
    deliverable from_irq (pending_mask k' pid).1 (pending_mask k' pid).2 skip = 0.
Proof.
  destruct s as [k skip]. intros Hi. unfold dispatch_round. destruct (pending_mask k pid) as [pe mk] eqn:Epm.
  fold (deliverable from_irq pe mk skip). unfold next_pending.
  destruct (Z.eqb_spec (deliverable from_irq pe mk skip) 0) as [E0|].
  - intros [= <-]. exists skip. by rewrite Epm.
  - destruct (from_irq && _); [done|]. destruct (deliver _ _ _ _ _ _); done.
Qed.

Definition frame_u64 (f : SyscallFrame) : Prop :=
  is_u64 (r15 f) ∧ is_u64 (r14 f) ∧ is_u64 (r13 f) ∧ is_u64 (r12 f) ∧ is_u64 (r11 f) ∧ is_u64 (r10 f) ∧ is_u64 (r9 f) ∧
  is_u64 (r8 f) ∧ is_u64 (rbp f) ∧ is_u64 (rdi f) ∧ is_u64 (rsi f) ∧ is_u64 (rdx f) ∧ is_u64 (rcx f) ∧ is_u64 (rbx f) ∧
  is_u64 (rax f) ∧ is_u64 (rflags_saved f) ∧ is_u64 (rip_saved f).

(** ** Theorems *)
Section SignalTheorems.
Context (may_signal : Z → Z → Z → bool) (resched : Kernel → Kernel) (ncpus : Z) (frame_of : Z → option Z).

(** C29. Dispatch ends: the loop leaves after at most 65 rounds, and then no
    unmasked signal is pending, except, in interrupt context, signals that
    have a user handler, which stay pending for the next system call. *)
Theorem dispatch_complete pid from_irq k p :
  proc k pid = Some p → is_u64 (p_sig_pending p) → is_u64 (p_sig_mask p) → p_ppid p ≠ pid →
  (∀ k, sig_fields (resched k) pid = sig_fields k pid) →
  (∃ r, loop_nat (dispatch_round may_signal resched ncpus pid from_irq) 65 (k, 0) = inr r) ∧
  ∀ k', dispatch_pending_inner may_signal resched ncpus 65 pid from_irq k = Some k' →
    ∀ sig, 0 ≤ sig < 64 → sig_has (pending_mask k' pid).1 sig = true → sig_has (pending_mask k' pid).2 sig = false →
      from_irq = true ∧ ∃ a, handler (action_of k' pid sig) = SigUser a.
Proof.
  intros Hp Hpend Hmask Hpp Hre. assert (dispatch_inv pid from_irq (k, 0)) as Hinv.
  { exists (p_sig_pending p), (p_sig_mask p), (p_sig_actions p), (p_ppid p). cbn [fst snd]. unfold sig_fields.
    rewrite Hp. do 5 (split; [done|]). intros j Hj Hb. by rewrite Z.bits_0 in Hb. }
  split.
  - apply (loop_nat_terminates _ (dispatch_inv pid from_irq) (dispatch_measure pid from_irq)); [|done|].
    + intros s s' Hs Hr. by eapply dispatch_step.
    + unfold dispatch_measure. destruct (pending_mask _ _). pose proof (size_bits (deliverable from_irq z z0 (k, 0).2)). lia.
  - intros k' Hd sig Hsig Hh Hm. unfold dispatch_pending_inner in Hd.
    pose proof (loop_nat_inv (dispatch_round may_signal resched ncpus pid from_irq) (dispatch_inv pid from_irq)
      (λ r, match r with Some k' => ∃ skip, dispatch_inv pid from_irq (k', skip) ∧
         deliverable from_irq (pending_mask k' pid).1 (pending_mask k' pid).2 skip = 0 | None => True end)) as H.
    specialize (H (λ s s' Hs Hr, proj1 (dispatch_step _ _ _ _ _ _ _ Hre Hs Hr))).
    assert (∀ s r, dispatch_inv pid from_irq s → dispatch_round may_signal resched ncpus pid from_irq s = inr r →
      match r with Some k' => ∃ skip, dispatch_inv pid from_irq (k', skip) ∧
         deliverable from_irq (pending_mask k' pid).1 (pending_mask k' pid).2 skip = 0 | None => True end) as Hfin.
    { intros s [k1|] Hs Hr; [|done]. by eapply dispatch_done. }
    specialize (H Hfin 65%nat (k, 0) Hinv). destruct (loop_nat _ 65 (k, 0)) as [s|r]; [done|]. subst r.
    destruct H as (skip & (pe & mk & acts & ppid & Hf & _ & Hpe & Hmk & Hsk & Husr) & H0).
    cbn [fst snd] in *. rewrite (pending_mask_fields _ _ _ _ _ _ Hf) in *. cbn [fst snd] in *.
    rewrite sig_has_testbit in Hh, Hm by done. pose proof (deliverable_testbit from_irq pe mk skip sig Hmk Hsk Hsig) as Hb.
    rewrite H0, Z.bits_0, Hh, Hm in Hb. apply Husr; [done|].
    destruct from_irq, (Z.testbit skip sig); done.
Qed.

(** What [send_signal] does, on every branch: an invalid number or a
    sender without permission changes nothing; otherwise only the target
    changes, an unmasked signal becomes pending and a masked one is dropped;
    SIGKILL and SIGSTOP ignore the mask and change the state at once. *)
Theorem send_signal_spec pid sig k p :
  proc k pid = Some p → 1 ≤ sig < NSIG →
  current (k_table k) = 0 ∨ may_signal (current (k_table k)) pid sig = true →
  let k' := send_signal may_signal pid sig k in
  k_rqs k' = k_rqs k ∧ (∀ q, q ≠ pid → proc k' q = proc k q) ∧
  ∃ p', proc k' pid = Some p' ∧
    (∀ j, 0 ≤ j < 64 → sig_has (p_sig_pending p') j = sig_has (p_sig_pending p) j ||
       (bool_decide (j = sig) && (negb (sig_has (p_sig_mask p) sig) || (sig =? SIGKILL) || (sig =? SIGSTOP)))) ∧
    p_state p' = (if sig =? SIGKILL then Zombie (-1) else if sig =? SIGSTOP then Stopped else p_state p).
Proof.
  intros Hp Hsig Hperm k'. unfold k', send_signal, NSIG in *.
  replace ((sig =? 0) || (32 <=? sig)) with false by (symmetry; apply orb_false_iff; lia).
  replace (negb (current (k_table k) =? 0) && negb (may_signal (current (k_table k)) pid sig)) with false.
  2: { destruct Hperm as [->| ->]; [done|]. cbn. by rewrite andb_false_r. }
  split; [done|]. split; [intros q Hq; by rewrite proc_update, decide_False|].
  rewrite proc_update, decide_True, Hp by done. eexists. split; [done|]. split; [|apply send_to_state].
  intros j Hj. rewrite send_to_pending, !sig_has_testbit by lia.
  destruct (sig =? SIGKILL), (sig =? SIGSTOP), (Z.testbit (p_sig_mask p) sig); cbn [negb andb orb];
    rewrite ?sig_add_testbit, ?andb_true_r, ?andb_false_r, ?orb_false_r by lia; try done; apply orb_comm.
Qed.

(** SIGKILL can be blocked after all: a process that has it in its mask is
    marked dead but keeps its place in the run queues, the dispatch loop does
    not deliver the signal, and the next switch to the process makes it run
    again.  (The comment of [send_signal] says that it cannot be blocked.) *)
Theorem sigkill_blockable pid k p from from_irq n :
  proc k pid = Some p → is_u64 (p_sig_mask p) → is_u64 (p_sig_pending p) → sig_has (p_sig_mask p) SIGKILL = true →
  and_not (p_sig_pending p) (p_sig_mask p) = 0 →
  current (k_table k) = 0 ∨ may_signal (current (k_table k)) pid SIGKILL = true →
  let k1 := send_signal may_signal pid SIGKILL k in
  proc_state k1 pid = Some (Zombie (-1)) ∧
  dispatch_pending_inner may_signal resched ncpus (S n) pid from_irq k1 = Some k1 ∧
  proc_state (switch_to from pid k1) pid = Some Running ∧ k_rqs (switch_to from pid k1) = k_rqs k.
Proof.
  intros Hp Hm Hpe Hh H0 Hperm k1.
  assert (k1 = update_proc pid (send_to SIGKILL) k) as E1.
  { unfold k1, send_signal. cbn [orb Z.eqb SIGKILL NSIG Z.leb Z.compare].
    destruct Hperm as [->| ->]; [done|]. change (negb true) with false. by rewrite andb_false_r. }
  rewrite E1. assert (proc (update_proc pid (send_to SIGKILL) k) pid = Some (send_to SIGKILL p)) as Hp1
    by (by rewrite proc_update, decide_True, Hp).
  split_and!; [unfold proc_state; by rewrite Hp1| |rewrite proc_state_switch, decide_True by done; unfold proc_state; by rewrite Hp1|done].
  unfold dispatch_pending_inner. rewrite loop_nat_S. unfold dispatch_round, pending_mask. rewrite Hp1.
  change (p_sig_mask (send_to SIGKILL p)) with (p_sig_mask p).
  change (p_sig_pending (send_to SIGKILL p)) with (sig_add (p_sig_pending p) SIGKILL).
  assert (and_not (sig_add (p_sig_pending p) SIGKILL) (p_sig_mask p) = 0) as Hz.
  { transitivity (and_not (p_sig_pending p) (p_sig_mask p)); [|done].
    apply u64_ext; [apply and_not_range, sig_add_range; [done|unfold SIGKILL; lia]|by apply and_not_range|]. intros j Hj. rewrite !and_not_testbit by done.
    rewrite sig_add_testbit by (unfold SIGKILL; lia). case_bool_decide as E; [subst|done].
    rewrite sig_has_testbit in Hh by (unfold SIGKILL; lia). rewrite Hh. by rewrite !andb_false_r. }
  rewrite Hz. destruct from_irq; done.
Qed.

(** The user registers after [sigreturn], from those saved in the frame;
    [r11] and the system call number are not restored. *)
Definition restored (f : SyscallFrame) (rflags cur_r11 cur_rax : Z) : SyscallFrame :=
  mkFrame (r15 f) (r14 f) (r13 f) (r12 f) cur_r11 (r10 f) (r9 f) (r8 f) (rbp f) (rdi f) (rsi f) (rdx f) (rcx f) (rbx f)
    cur_rax rflags (rip_saved f).

(** Delivery and [sigreturn] are inverse when the user stack pointer at
    [sigreturn] is the address of the signal frame: the registers, the stack
    pointer and the signal mask are those saved (flags filtered), and the
    value returned is the saved [rax]. *)
Theorem sigreturn_roundtrip pid sig action user_rsp w w1 new_rsp p w2 q :
  pages_ok frame_of → build_signal_frame frame_of pid sig action user_rsp w = (w1, Some new_rsp) →
  proc (sw_k w) pid = Some p → is_u64 (p_sig_mask p) → frame_u64 (sw_frame w) → 0 ≤ user_rsp →
  0 < rip_saved (sw_frame w) < USER_TOP → mapped frame_of new_rsp 504 → new_rsp ≠ 0 →
  sw_mem w2 = sw_mem w1 → sw_rsp w2 = new_rsp → proc (sw_k w2) (current (k_table (sw_k w2))) = Some q →
  ∃ w3, sigreturn frame_of w2 = (w3, to_signed 64 (rax (sw_frame w))) ∧ sw_rsp w3 = user_rsp ∧
    sw_frame w3 = restored (sw_frame w) (Z.lor (Z.land (rflags_saved (sw_frame w)) SAFE_RFLAGS) 0x200)
                    (r11 (sw_frame w2)) (rax (sw_frame w2)) ∧
    p_sig_mask <$> proc (sw_k w3) (current (k_table (sw_k w2))) = Some (p_sig_mask p).
Proof.
  intros Hok Hb Hp Hmask Hf Hu Hrip Hm Hnz Hmem Hrsp Hq.
  destruct (build_signal_frame_inv frame_of _ _ _ _ _ _ _ _ Hb Hp Hu) as (Hur & Hnr & _ & Hw). unfold USER_TOP in *.
  destruct (read_frame frame_of 0 _ new_rsp _ _ Hok (length_sig_frame _ _ _ _ _) ltac:(lia) ltac:(lia) ltac:(lia) Hm Hw) as (bs & Hr & Hws).
  rewrite Z.mul_0_r, Z.add_0_r in Hr. unfold sigreturn. rewrite Hrsp. unfold USER_TOP.
  replace ((new_rsp =? 0) || (0x800000000000 <=? new_rsp)) with false by (symmetry; apply orb_false_iff; lia).
  rewrite Hq, Hmem, Hr. cbn zeta. destruct Hf as (? & ? & ? & ? & ? & ? & ? & ? & ? & ? & ? & ? & ? & ? & ? & ? & ?).
  assert (∀ i y, (sig_frame (sw_frame w) user_rsp (p_sig_mask p) sig (restorer action)) !! i = Some y → is_u64 y → word_of bs i = y) as Hword.
  { intros i y Hi Hy. rewrite (Hws i y); [by apply wrap_small|]. by rewrite Nat.add_0_r. }
  assert (is_u64 user_rsp) by (unfold in_range; lia).
  rewrite (Hword (22 + 16)%nat (rip_saved (sw_frame w)) eq_refl) by done.
  replace ((rip_saved (sw_frame w) =? 0) || (0x800000000000 <=? rip_saved (sw_frame w))) with false by (symmetry; apply orb_false_iff; lia).
  eexists. split; [rewrite (Hword (22 + 13)%nat _ eq_refl) by done; reflexivity|]. cbn [sw_rsp sw_frame sw_k].
  split; [by apply (Hword (22 + 15)%nat user_rsp eq_refl)|]. split.
  - unfold restored. f_equal; try done; try (apply Hword; [reflexivity|done]).
    by rewrite (Hword (22 + 17)%nat (rflags_saved (sw_frame w)) eq_refl) by done.
  - rewrite proc_update, decide_True, Hq by done. cbn [fmap option_fmap option_map update_mask set_sig p_sig_mask].
    f_equal. by apply Hword.
Qed.

(** What really happens: the handler returns with [ret], which pops
    [pretcode], so at [sigreturn] the stack pointer is 8 bytes above the
    frame ([syscall_entry] stores it in gs:[16] at every system call).  All
    words are then read one off: execution continues at the saved flags, with
    the saved instruction pointer as stack and an empty signal mask. *)
Theorem sigreturn_misreads pid sig action user_rsp w w1 new_rsp p w2 q :
  pages_ok frame_of → build_signal_frame frame_of pid sig action user_rsp w = (w1, Some new_rsp) →
  proc (sw_k w) pid = Some p → frame_u64 (sw_frame w) → 0 ≤ user_rsp →
  0 < rflags_saved (sw_frame w) < USER_TOP → mapped frame_of new_rsp 512 →
  sw_mem w2 = sw_mem w1 → sw_rsp w2 = new_rsp + 8 → new_rsp + 8 < USER_TOP →
  proc (sw_k w2) (current (k_table (sw_k w2))) = Some q →
  ∃ w3, sigreturn frame_of w2 = (w3, to_signed 64 (rcx (sw_frame w))) ∧
    rip_saved (sw_frame w3) = rflags_saved (sw_frame w) ∧ sw_rsp w3 = rip_saved (sw_frame w) ∧
    p_sig_mask <$> proc (sw_k w3) (current (k_table (sw_k w2))) = Some 0.
Proof.
  intros Hok Hb Hp Hf Hu Hfl Hm Hmem Hrsp Htop Hq.
  destruct (build_signal_frame_inv frame_of _ _ _ _ _ _ _ _ Hb Hp Hu) as (Hur & Hnr & _ & Hw). unfold USER_TOP in *.
  destruct (read_frame frame_of 1 _ new_rsp _ _ Hok (length_sig_frame _ _ _ _ _) ltac:(lia) ltac:(lia) ltac:(lia) Hm Hw) as (bs & Hr & Hws).
  change (8 * Z.of_nat 1) with 8 in Hr. unfold sigreturn. rewrite Hrsp. unfold USER_TOP.
  replace ((new_rsp + 8 =? 0) || (0x800000000000 <=? new_rsp + 8)) with false by (symmetry; apply orb_false_iff; lia).
  rewrite Hq, Hmem, Hr. cbn zeta. destruct Hf as (_ & _ & _ & _ & _ & _ & _ & _ & _ & _ & _ & _ & Hrcx & _ & _ & Hfg & Hri).
  assert (∀ i y, (sig_frame (sw_frame w) user_rsp (p_sig_mask p) sig (restorer action)) !! (i + 1)%nat = Some y → is_u64 y → word_of bs i = y) as Hword.
  { intros i y Hi Hy. rewrite (Hws i y Hi). by apply wrap_small. }
  rewrite (Hword (22 + 16)%nat (rflags_saved (sw_frame w)) eq_refl) by done.
  replace ((rflags_saved (sw_frame w) =? 0) || (0x800000000000 <=? rflags_saved (sw_frame w))) with false by (symmetry; apply orb_false_iff; lia).
  eexists. split; [rewrite (Hword (22 + 13)%nat _ eq_refl) by done; reflexivity|]. cbn [sw_rsp sw_frame sw_k rip_saved].
  split; [done|]. split; [by apply (Hword (22 + 15)%nat _ eq_refl)|].
  rewrite proc_update, decide_True, Hq by done. cbn [fmap option_fmap option_map update_mask set_sig p_sig_mask].
  f_equal. by apply (Hword 54%nat 0 eq_refl).
Qed.

(** A terminating default action: the process is a zombie with the negated
    signal number as exit code, the scheduler has forgotten it, and its
    parent, if it was asleep, is runnable; the scheduler's invariant holds. *)
Theorem terminate_spec pid sig k p :
  kernel_wf k → proc k pid = Some p → default_action sig = ActTerminate →
  p_ppid p ≠ pid → p_ppid p ≠ 0 → pid ≠ current (k_table k) →
  ∃ k' p', apply_default may_signal resched ncpus pid sig k = Some k' ∧ kernel_wf k' ∧
    proc k' pid = Some p' ∧ p_state p' = Zombie (- sig) ∧ p_exit_code p' = - sig ∧
    ¬ has_entity k' pid ∧ ¬ k_queued k' pid ∧
    (proc_state k (p_ppid p) = Some Sleeping → proc_state k' (p_ppid p) = Some Runnable).
Proof.
  intros Hwf Hp Hact Hpp Hp0 Hcur. unfold apply_default. rewrite Hact, Hp.
  set (f := λ p, set_exit_code (- sig) (set_state (Zombie (- sig)) p)). set (k1 := update_proc pid f k).
  assert (kernel_wf k1) as Hwf1 by (by apply (kernel_wf_table _ _ Hwf)).
  destruct (remove_task_spec pid k1 Hwf1) as (k2 & -> & Hwf2 & [Ht _] & Hne & Hq). cbn [mbind option_bind].
  replace (negb (p_ppid p =? 0)) with true by lia.
  set (k2' := send_signal may_signal (p_ppid p) SIGCHLD k2).
  assert (k_rqs k2' = k_rqs k2) as Hr2 by (unfold k2', send_signal; destruct (_ || _); [done|]; by destruct (_ && _)).
  assert (kernel_wf k2') as Hwf2' by (by apply (kernel_wf_table _ _ Hwf2)).
  assert (∀ q, q ≠ p_ppid p → proc k2' q = proc k2 q) as Hpr2.
  { intros q Hq'. unfold k2', send_signal. destruct (_ || _); [done|]. destruct (_ && _); [done|].
    by rewrite proc_update, decide_False. }
  assert (proc_state k2' (p_ppid p) = proc_state k2 (p_ppid p)) as Hst2.
  { unfold k2', send_signal. destruct (_ || _); [done|]. destruct (_ && _); [done|].
    rewrite proc_state_update, decide_True by done. unfold proc_state. destruct (proc k2 (p_ppid p)) as [pp|]; [|done].
    cbn [fmap option_fmap option_map compose]. f_equal. apply send_to_state. }
  assert (∀ q, proc k2 q = proc k1 q) as Hpr1 by (intros q; unfold proc; by rewrite Ht).
  destruct (wake_process_ok (p_ppid p) k2' Hwf2') as (k3 & Hwk & Hwf3 & Hsl & Hns & Hother). rewrite Hwk. cbn [mbind option_bind].
  destruct (wake_process_keeps _ _ _ Hwk) as [Hcur3 Hent3].
  assert (current (k_table k2') = current (k_table k)) as Hcur2.
  { unfold k2', send_signal. destruct (_ || _); [by rewrite Ht|]. destruct (_ && _); [by rewrite Ht|].
    cbn [update_proc set_table k_table with_process_mut current]. by rewrite Ht. }
  replace (pid =? current (k_table k3)) with false by (rewrite Hcur3, Hcur2; symmetry; by apply Z.eqb_neq).
  assert (¬ has_entity k3 pid) as Hn3 by (rewrite Hent3; unfold has_entity, rq_at; by rewrite Hr2).
  exists k3, (f p). split; [done|]. split; [done|].
  split; [rewrite Hother, Hpr2, Hpr1 by done; unfold k1; by rewrite proc_update, decide_True, Hp|].
  split_and!; [done|done|done|intros Hqd; by apply Hn3, queued_has_entity|].
  intros Hs. apply Hsl. rewrite Hst2. unfold proc_state. rewrite Hpr1. unfold k1. by rewrite proc_update, decide_False.
Qed.

(** Stop and continue: a process stopped by SIGSTOP's default action has no
    scheduler entity; SIGCONT's default action makes it runnable and queues it
    again (at normal priority) on a processor that has a run queue. *)
Theorem stop_cont_roundtrip pid k p k1 :
  kernel_wf k → proc k pid = Some p → pid_ok pid →
  apply_default may_signal resched ncpus pid SIGSTOP k = Some k1 →
  is_Some (rq_at k1 (select_cpu_for_new_task ncpus k1)) →
  proc_state k1 pid = Some Stopped ∧ ¬ has_entity k1 pid ∧
  ∃ k2, apply_default may_signal resched ncpus pid SIGCONT k1 = Some k2 ∧ kernel_wf k2 ∧
    proc_state k2 pid = Some Runnable ∧ k_queued k2 pid.
Proof.
  intros Hwf Hp Hpid Hstop Hrq. unfold apply_default in Hstop. cbn [default_action] in Hstop.
  change (default_action SIGSTOP) with ActStop in Hstop. set (k0 := update_proc pid (set_state Stopped) k) in *.
  assert (kernel_wf k0) as Hwf0 by (by apply (kernel_wf_table _ _ Hwf)).
  destruct (remove_task_spec pid k0 Hwf0) as (k1' & Hr & Hwf1 & [Ht _] & Hne & _). rewrite Hr in Hstop. injection Hstop as ->.
  assert (proc_state k1 pid = Some Stopped) as Hst.
  { unfold proc_state, proc. rewrite Ht. change (procs (k_table k0) !! pid) with (proc k0 pid). unfold k0.
    by rewrite proc_update, decide_True, Hp. }
  split; [done|]. split; [done|]. unfold apply_default. change (default_action SIGCONT) with ActCont.
  rewrite bool_decide_eq_true_2 by done. set (k2 := update_proc pid _ k1).
  assert (kernel_wf k2) as Hwf2 by (by apply (kernel_wf_table _ _ Hwf1)).
  destruct (add_task_spec ncpus pid PRIO_NORMAL SCHED_NORMAL k2) as (k3 & -> & Hwf3 & [Ht3 _] & Hq3); [done|done|done|done|].
  exists k3. split; [done|]. split; [done|]. split; [|apply Hq3; [done|by right]].
  unfold proc_state, proc. rewrite Ht3. change (procs (k_table k2) !! pid) with (proc k2 pid). unfold k2.
  rewrite proc_update, decide_True by done. unfold proc_state in Hst. destruct (proc k1 pid) as [p1|]; [|done].
  injection Hst as Hst. cbn. by rewrite decide_True.
Qed.
End SignalTheorems.

(** An action set with [sys_rt_sigaction] is the one a later call reports
    (flags being 32 bits wide); an invalid number is rejected.  SIGKILL and
    SIGSTOP are accepted like any other. *)
Theorem sigaction_roundtrip sig a k p :
  proc k (current (k_table k)) = Some p → 1 ≤ sig < NSIG → length (p_sig_actions p) = Z.to_nat NSIG →
  let k' := (sys_rt_sigaction sig (Some a) k).1.1 in
  (sys_rt_sigaction sig None k').1.2 =
    Some (mkKSA (ksa_handler a) (wrap 32 (ksa_flags a)) (ksa_restorer a) (ksa_mask a)).
Proof.
  intros Hp Hs Hl. unfold sys_rt_sigaction, NSIG in *.
  replace ((sig <=? 0) || (32 <=? sig)) with false by (symmetry; apply orb_false_iff; lia). cbn [fst snd].
  set (k' := update_proc _ _ k). change (current (k_table k')) with (current (k_table k)).
  unfold k'. rewrite proc_update, decide_True, Hp by done. cbn [fmap option_fmap option_map mbind option_bind set_sig p_sig_actions].
  rewrite list_lookup_insert_eq by lia. cbn. f_equal. f_equal. unfold handler_of.
  destruct (Z.eqb_spec (ksa_handler a) 0); [done|]. by destruct (Z.eqb_spec (ksa_handler a) 1).
Qed.

(** The signal-by-signal loops of [sys_rt_sigprocmask] are the bitwise
    operations: SIG_BLOCK is union, SIG_UNBLOCK difference, SIG_SETMASK
    assignment, and an unknown [how] keeps the mask; the old mask is
    reported. *)
Theorem sigprocmask_bitwise how new k p :
  proc k (current (k_table k)) = Some p → is_u64 (p_sig_mask p) → is_u64 new →
  let '(k', old, r) := sys_rt_sigprocmask how (Some new) k in
  old = p_sig_mask p ∧ r = 0 ∧
  p_sig_mask <$> proc k' (current (k_table k)) = Some (
    if how =? 0 then Z.lor (p_sig_mask p) new
    else if how =? 1 then Z.land (p_sig_mask p) (wnot 64 new)
    else if how =? 2 then new else p_sig_mask p).
Proof.
  intros Hp Hm Hn. unfold sys_rt_sigprocmask. rewrite Hp. split_and!; [done|done|].
  rewrite proc_update, decide_True, Hp by done. unfold update_mask. cbn [fmap option_fmap option_map set_sig p_sig_mask].
  by rewrite add_all_lor, remove_all_land by done.
Qed.

(** ** Witnesses *)
Definition allow_all (_ _ _ : Z) : bool := true.
Definition keep (k : Kernel) : Kernel := k.

(** Process 3 has SIGTERM pending with the default action and SIGUSR1 with a
    user handler; SIGKILL is in the mask of process 4. *)
Definition demo_sig_kernel : Kernel :=
  update_proc 3 (λ p, set_sig (Z.lor (2 ^ 15) (2 ^ 10)) 0 (<[10%nat := mkAction (SigUser 0x1000) 0 0 0x2000]> (replicate 32 sigaction_default)) p)
    (update_proc 4 (λ p, set_sig 0 (2 ^ 9) (replicate 32 sigaction_default) p) demo_kernel).

Lemma demo_sig_kernel_wf : kernel_wf demo_sig_kernel.
Proof. exact (update_proc_wf _ _ _ (update_proc_wf _ _ _ demo_kernel_wf)). Qed.

Lemma dispatch_complete_witness :
  ∃ r, loop_nat (dispatch_round allow_all keep 2 3 true) 65 (demo_sig_kernel, 0) = inr r.
Proof.
  destruct (proc demo_sig_kernel 3) as [p|] eqn:Hp; [|by vm_compute in Hp].
  apply (dispatch_complete allow_all keep 2 3 true demo_sig_kernel p Hp); [..|done];
    vm_compute in Hp; injection Hp as <-; by vm_compute.
Defined.

Lemma send_signal_spec_witness :
  ∃ p', proc (send_signal allow_all 3 12 demo_sig_kernel) 3 = Some p' ∧ sig_has (p_sig_pending p') 12 = true.
Proof.
  destruct (proc demo_sig_kernel 3) as [p|] eqn:Hp; [|by vm_compute in Hp].
  destruct (send_signal_spec allow_all 3 12 demo_sig_kernel p Hp) as (_ & _ & p' & Hp' & Hpend & _); [done|by right|].
  exists p'. split; [exact Hp'|]. rewrite Hpend by lia. vm_compute in Hp. injection Hp as <-. vm_compute. reflexivity.
Defined.

Lemma sigkill_blockable_witness :
  proc_state (switch_to 2 4 (send_signal allow_all 4 SIGKILL demo_sig_kernel)) 4 = Some Running.
Proof.
  destruct (proc demo_sig_kernel 4) as [p|] eqn:Hp; [|by vm_compute in Hp].
  apply (sigkill_blockable allow_all keep 2 4 demo_sig_kernel p 2 true 0 Hp); [..|by right];
    vm_compute in Hp; injection Hp as <-; by vm_compute.
Defined.

Lemma terminate_spec_witness :
  ∃ k', apply_default allow_all keep 2 3 15 demo_sig_kernel = Some k' ∧ ¬ has_entity k' 3.
Proof.
  destruct (proc demo_sig_kernel 3) as [p|] eqn:Hp; [|by vm_compute in Hp].
  destruct (terminate_spec allow_all keep 2 3 15 demo_sig_kernel p) as (k' & p' & Ha & _ & _ & _ & _ & Hne & _).
  - exact demo_sig_kernel_wf.
  - exact Hp.
  - done.
  - vm_compute in Hp. by injection Hp as <-.
  - vm_compute in Hp. by injection Hp as <-.
  - by vm_compute.
  - exists k'. split; [exact Ha|exact Hne].
Defined.

Lemma stop_cont_roundtrip_witness :
  ∃ k1 k2, apply_default allow_all keep 2 3 SIGSTOP demo_sig_kernel = Some k1 ∧
    apply_default allow_all keep 2 3 SIGCONT k1 = Some k2 ∧ k_queued k2 3.
Proof.
  destruct (proc demo_sig_kernel 3) as [p|] eqn:Hp; [|by vm_compute in Hp].
  destruct (apply_default allow_all keep 2 3 SIGSTOP demo_sig_kernel) as [k1|] eqn:E; [|by vm_compute in E].
  destruct (stop_cont_roundtrip allow_all keep 2 3 demo_sig_kernel p k1 demo_sig_kernel_wf Hp) as (_ & _ & k2 & H2 & _ & _ & Hq).
  - by vm_compute.
  - exact E.
  - vm_compute in E. injection E as <-. vm_compute. eauto.
  - exists k1, k2. split; [reflexivity|]. split; [exact H2|exact Hq].
Defined.

(** A flat page table, and a world in which process 3 takes SIGUSR1. *)
Definition flat_pages (pg : Z) : option Z := if (0 <=? pg) && (pg <? 2 ^ 36) then Some (pg * 4096) else None.
Lemma flat_pages_ok : pages_ok flat_pages.
Proof.
  unfold flat_pages. split.
  - intros pg b. destruct (Z.leb_spec 0 pg), (Z.ltb_spec pg (2 ^ 36)); cbn; try done. intros [= <-].
    rewrite Z.mod_mul by lia. lia.
  - intros pg pg' b. destruct (_ && _); [|done]. destruct (_ && _); [|done]. intros [= <-] [= E]. lia.
Qed.
Lemma flat_mapped va n : 0 ≤ va → va + n < 2 ^ 47 → mapped flat_pages va n.
Proof.
  intros Hv Hn i Hi. unfold flat_pages. assert (0 ≤ (va + i) / 4096) by (apply Z.div_pos; lia).
  assert ((va + i) / 4096 < 2 ^ 36) by (apply Z.div_lt_upper_bound; lia).
  destruct (Z.leb_spec 0 ((va + i) / 4096)), (Z.ltb_spec ((va + i) / 4096) (2 ^ 36)); cbn; [eauto|lia..].
Qed.

Definition demo_frame : SyscallFrame := mkFrame 1 2 3 4 5 6 7 8 9 10 11 12 13 14 39 0x202 0x400000.
Definition demo_sw : SigWorld := mkSW demo_sig_kernel ∅ 0x7f0000 demo_frame.
Definition demo_action : SigAction := mkAction (SigUser 0x1000) 0 0 0x2000.
Definition demo_delivered : SigWorld := (build_signal_frame flat_pages 3 10 demo_action 0x7f0000 demo_sw).1.

Lemma demo_delivered_eq : build_signal_frame flat_pages 3 10 demo_action 0x7f0000 demo_sw = (demo_delivered, Some 0x7efe00).
Proof. vm_compute. reflexivity. Qed.
Lemma demo_frame_u64 : frame_u64 (sw_frame demo_sw).
Proof. by vm_compute. Qed.

Lemma sigreturn_roundtrip_witness :
  ∃ w3, sigreturn flat_pages (set_rsp 0x7efe00 demo_delivered) = (w3, 39) ∧ rip_saved (sw_frame w3) = 0x400000.
Proof.
  destruct (proc demo_sig_kernel 3) as [p|] eqn:Hp; [|by vm_compute in Hp].
  destruct (proc demo_sig_kernel 2) as [q|] eqn:Hq; [|by vm_compute in Hq].
  destruct (sigreturn_roundtrip flat_pages 3 10 demo_action 0x7f0000 demo_sw demo_delivered 0x7efe00 p
    (set_rsp 0x7efe00 demo_delivered) q flat_pages_ok demo_delivered_eq Hp) as (w3 & Hs & _ & Hf & _).
  - vm_compute in Hp. injection Hp as <-. by vm_compute.
  - exact demo_frame_u64.
  - done.
  - done.
  - apply flat_mapped; lia.
  - done.
  - reflexivity.
  - reflexivity.
  - exact Hq.
  - exists w3. split; [exact Hs|]. by rewrite Hf.
Defined.

Lemma sigreturn_misreads_witness :
  ∃ w3, sigreturn flat_pages (set_rsp (0x7efe00 + 8) demo_delivered) = (w3, 13) ∧ rip_saved (sw_frame w3) = 0x202.
Proof.
  destruct (proc demo_sig_kernel 3) as [p|] eqn:Hp; [|by vm_compute in Hp].
  destruct (proc demo_sig_kernel 2) as [q|] eqn:Hq; [|by vm_compute in Hq].
  destruct (sigreturn_misreads flat_pages 3 10 demo_action 0x7f0000 demo_sw demo_delivered 0x7efe00 p
    (set_rsp (0x7efe00 + 8) demo_delivered) q flat_pages_ok demo_delivered_eq Hp demo_frame_u64) as (w3 & Hs & Hrip & _).
  - done.
  - done.
  - apply flat_mapped; lia.
  - reflexivity.
  - reflexivity.
  - done.
  - exact Hq.
  - exists w3. split; [exact Hs|]. by rewrite Hrip.
Defined.

Lemma sigaction_roundtrip_witness :
  (sys_rt_sigaction 9 None (sys_rt_sigaction 9 (Some (mkKSA 0x5000 4 0x6000 0))
     (update_proc 2 (λ p, set_sig 0 0 (replicate 32 sigaction_default) p) demo_kernel)).1.1).1.2 = Some (mkKSA 0x5000 4 0x6000 0).
Proof.
  set (k := update_proc 2 _ demo_kernel). destruct (proc k 2) as [p|] eqn:Hp; [|by vm_compute in Hp].
  apply (sigaction_roundtrip 9 (mkKSA 0x5000 4 0x6000 0) k p); [exact Hp|done|]. vm_compute in Hp. by injection Hp as <-.
Defined.

Lemma sigprocmask_bitwise_witness :
  p_sig_mask <$> proc (sys_rt_sigprocmask 0 (Some 6) demo_kernel).1.1 2 = Some 6.
Proof.
  destruct (proc demo_kernel 2) as [p|] eqn:Hp; [|by vm_compute in Hp].
  pose proof (sigprocmask_bitwise 0 6 demo_kernel p Hp) as H.
  assert (p_sig_mask p = 0) as Hm by (vm_compute in Hp; by injection Hp as <-). rewrite Hm in H.
  specialize (H ltac:(clear; done) ltac:(clear; done)).
  destruct (sys_rt_sigprocmask 0 (Some 6) demo_kernel) as [[k' old] r]. apply H.
Defined.

(** SIGSTOP marks a process stopped and leaves its task with the scheduler;
    SIGCONT, which has the lower number and is delivered before it, then adds
    the task a second time.  With a priority other than the normal one, the
    process that is removed afterwards stays in its first queue. *)
Example stop_cont_stays_queued :
  let allow := λ _ _ _, true in
  let k1 := default demo_kernel (set_priority 4 100 demo_kernel) in
  let k2 := send_signal allow 4 SIGCONT (send_signal allow 4 SIGSTOP k1) in
  next_pending (pending_mask k2 4).1 = Some SIGCONT ∧
  match (k3 ← apply_default allow id 2 4 SIGCONT k2; remove_task 4 k3) with
  | Some k => (λ rq, bool_decide (queues rq !! 100%nat = Some [4])) <$> rq_at k 0 = Some true ∧ (λ rq, entities rq !! 4) <$> rq_at k 0 = Some None
  | None => False
  end.
Proof. vm_compute. done. Qed.
