(* ===== verification/Tty.v ===== *)
(** * The terminal: line discipline, reads and ioctls

    Models kernel/src/tty/mod.rs.  The state is [TtyState] with the wait queue
    [TTY_READERS]; everything echoed or written goes to one output list, oldest
    first: the bytes of the serial line, which get what the VGA console gets
    (written, not echoed, bytes go to the framebuffer console too).  The scheduler is the interface of SchedIface;
    [signal_group] stands for signal::send_signal_group.  Pointers of [ioctl]
    are optional values, [None] being the null pointer. *)
From S2P Require Import Prelude SchedIface.

Definition ICANON : Z := 0x0002.
Definition ECHO : Z := 0x0008.
Definition ECHOE : Z := 0x0010.
Definition ISIG : Z := 0x0001.
Definition OPOST : Z := 0x0001.
Definition ONLCR : Z := 0x0004.
Definition VINTR : nat := 0.
Definition VQUIT : nat := 1.
Definition VERASE : nat := 2.
Definition VKILL : nat := 3.
Definition VEOF : nat := 4.
Definition VTIME : nat := 5.
Definition VMIN : nat := 6.
Definition VSUSP : nat := 10.
Definition SIGINT : Z := 2.
Definition SIGTSTP_tty : Z := 20.
Definition SIGWINCH_tty : Z := 28.
Definition NL : Z := 10.
Definition CR : Z := 13.
Definition BS : Z := 8.

Record Termios := mkTermios {
  c_iflag : Z;
  c_oflag : Z;
  c_cflag : Z;
  c_lflag : Z;
  c_line : Z;
  c_cc : list Z;
}.

Definition default_cooked : Termios :=
  mkTermios 0x0500 (Z.lor OPOST ONLCR) 0x00BF
    (Z.lor (Z.lor (Z.lor (Z.lor ICANON ECHO) ECHOE) ISIG) 0x8000) 0
    [0x03; 0x1C; 0x7F; 0x15; 0x04; 0; 1; 0; 0; 0; 0x1A; 0; 0; 0; 0; 0; 0; 0; 0].

Record Winsize := mkWinsize { ws_row : Z; ws_col : Z; ws_xpixel : Z; ws_ypixel : Z }.

Record TtyState := mkTty {
  termios : Termios;
  winsize : Winsize;
  foreground_pgid : Z;
  session : Z;
  line_buf : list Z;
  ready_lines : list (list Z);
  raw_buf : list Z;
}.

Definition tty_new : TtyState := mkTty default_cooked (mkWinsize 24 80 0 0) 1 1 [] [] [].

Definition set_input (lb : list Z) (rl : list (list Z)) (rb : list Z) (t : TtyState) : TtyState :=
  mkTty (termios t) (winsize t) (foreground_pgid t) (session t) lb rl rb.
Definition set_termios (m : Termios) (t : TtyState) : TtyState :=
  mkTty m (winsize t) (foreground_pgid t) (session t) (line_buf t) (ready_lines t) (raw_buf t).
Definition set_winsize (ws : Winsize) (t : TtyState) : TtyState :=
  mkTty (termios t) ws (foreground_pgid t) (session t) (line_buf t) (ready_lines t) (raw_buf t).
Definition set_fg (pgid : Z) (t : TtyState) : TtyState :=
  mkTty (termios t) (winsize t) pgid (session t) (line_buf t) (ready_lines t) (raw_buf t).
Definition set_session (sid : Z) (t : TtyState) : TtyState :=
  mkTty (termios t) (winsize t) (foreground_pgid t) sid (line_buf t) (ready_lines t) (raw_buf t).

Definition lflag (t : TtyState) (m : Z) : bool := negb (Z.land (c_lflag (termios t)) m =? 0).
Definition is_canonical (t : TtyState) : bool := lflag t ICANON.
Definition echo_enabled (t : TtyState) : bool := lflag t ECHO.
Definition echoe_enabled (t : TtyState) : bool := lflag t ECHOE.
Definition isig_enabled (t : TtyState) : bool := lflag t ISIG.
Definition cc (t : TtyState) (i : nat) : Z := default 0 (c_cc (termios t) !! i).
Definition erase_char (t : TtyState) : Z := cc t VERASE.
Definition kill_char (t : TtyState) : Z := cc t VKILL.
Definition eof_char (t : TtyState) : Z := cc t VEOF.
Definition intr_char (t : TtyState) : Z := cc t VINTR.

Definition rub : list Z := [BS; 32; BS].

(** The loop of the KILL character: one rub-out per character. *)
Fixpoint kill_echo (t : TtyState) (buf : list Z) : list Z :=
  match buf with
  | [] => []
  | _ :: buf => (if echoe_enabled t then rub else []) ++ kill_echo t buf
  end.

(** [input_byte]: the new state, the bytes echoed and the signal. *)
Definition input_byte (t : TtyState) (byte : Z) : TtyState * list Z * option Z :=
  let echo (l : list Z) := if echo_enabled t then l else [] in
  let susp := cc t VSUSP in
  if is_canonical t && isig_enabled t && (byte =? intr_char t) then
    (set_input [] (ready_lines t) (raw_buf t) t, echo [94; 67; NL], Some SIGINT)
  else if is_canonical t && isig_enabled t && negb (susp =? 0) && (byte =? susp) then
    (set_input [] (ready_lines t) (raw_buf t) t, echo [94; 90; NL], Some SIGTSTP_tty)
  else if is_canonical t then
    if (byte =? erase_char t) || (byte =? BS) then
      match line_buf t with
      | [] => (t, [], None)
      | _ => (set_input (removelast (line_buf t)) (ready_lines t) (raw_buf t) t,
              if echoe_enabled t then rub else [], None)
      end
    else if negb (kill_char t =? 0) && (byte =? kill_char t) then
      (set_input [] (ready_lines t) (raw_buf t) t, kill_echo t (line_buf t), None)
    else if negb (eof_char t =? 0) && (byte =? eof_char t) then
      (set_input [] (ready_lines t ++ [line_buf t]) (raw_buf t) t, [], None)
    else
      let ch := if byte =? CR then NL else byte in
      let buf := line_buf t ++ [ch] in
      (if ch =? NL then set_input [] (ready_lines t ++ [buf]) (raw_buf t) t
       else set_input buf (ready_lines t) (raw_buf t) t, echo [ch], None)
  else (set_input (line_buf t) (ready_lines t) (raw_buf t ++ [byte]) t, echo [byte], None).

(** [try_read] into a buffer of [count] bytes. *)
Definition tty_try_read (t : TtyState) (count : Z) : TtyState * option (list Z) :=
  if is_canonical t then
    match ready_lines t with
    | [] => (t, None)
    | line :: rest =>
        let n := Z.to_nat (Z.min (Z.of_nat (length line)) count) in
        (set_input (line_buf t) (if bool_decide (n = length line) then rest else drop n line :: rest) (raw_buf t) t,
         Some (take n line))
    end
  else
    match raw_buf t with
    | [] => (t, None)
    | _ =>
        let n := Z.to_nat (Z.min (Z.of_nat (length (raw_buf t))) count) in
        (set_input (line_buf t) (ready_lines t) (drop n (raw_buf t)) t, Some (take n (raw_buf t)))
    end.

Definition data_available (t : TtyState) : bool :=
  if is_canonical t then negb (bool_decide (ready_lines t = [])) else negb (bool_decide (raw_buf t = [])).

(** ** Global state *)
Section Global.
Context {K : Type} `{Scheduler K}.
Variable signal_group : Z → Z → K → K.

Record TtyWorld := mkTtyWorld {
  tty : TtyState;
  tty_readers : list Z;
  tty_out : list Z;
  tty_kernel : K;
}.
Definition with_tty (t : TtyState) (w : TtyWorld) : TtyWorld :=
  mkTtyWorld t (tty_readers w) (tty_out w) (tty_kernel w).
Definition with_readers (r : list Z) (w : TtyWorld) : TtyWorld :=
  mkTtyWorld (tty w) r (tty_out w) (tty_kernel w).
Definition with_kernel (k : K) (w : TtyWorld) : TtyWorld :=
  mkTtyWorld (tty w) (tty_readers w) (tty_out w) k.

Definition handle_input_byte (byte : Z) (w : TtyWorld) : TtyWorld :=
  let '(t, echoed, sig) := input_byte (tty w) byte in
  let w1 := mkTtyWorld t (tty_readers w) (tty_out w ++ echoed) (tty_kernel w) in
  match sig with
  | Some s => with_kernel (signal_group (foreground_pgid t) s (tty_kernel w1)) w1
  | None => w1
  end.

Definition tty_wake_readers (w : TtyWorld) : TtyWorld :=
  mkTtyWorld (tty w) [] (tty_out w) (wake_all (tty_readers w) (tty_kernel w)).

Definition tty_input_byte (byte : Z) (w : TtyWorld) : TtyWorld := tty_wake_readers (handle_input_byte byte w).

(** [poll_input_devices], with the bytes the serial line delivers. *)
Definition poll_input_devices (bytes : list Z) (w : TtyWorld) : TtyWorld :=
  let w1 := foldl (λ w b, handle_input_byte b w) w bytes in
  match bytes with [] => w1 | _ => tty_wake_readers w1 end.

Definition register_poll_waiter (pid : Z) (w : TtyWorld) : TtyWorld :=
  if bool_decide (pid ∈ tty_readers w) then w else with_readers (tty_readers w ++ [pid]) w.

(** What happens to the world while the caller is blocked. *)
Variable blocked : TtyWorld → TtyWorld.

Definition tty_read_round (count : Z) (nonblock : bool) (w : TtyWorld) : TtyWorld + (TtyWorld * result Z (list Z)) :=
  let pid := sched_current (tty_kernel w) in
  let w1 := register_poll_waiter pid w in
  let unregister (w : TtyWorld) := with_readers (filter (λ p, p ≠ pid) (tty_readers w)) w in
  match tty_try_read (tty w1) count with
  | (t, Some bytes) => inr (unregister (with_tty t w1), Ok bytes)
  | (t, None) =>
      let w2 := with_tty t w1 in
      if nonblock then inr (unregister w2, Err 11)
      else inl (blocked (with_kernel (sched_block (tty_kernel w2)) w2))
  end.
Definition tty_read (fuel : nat) (count : Z) (nonblock : bool) (w : TtyWorld) : TtyWorld + (TtyWorld * result Z (list Z)) :=
  loop_nat (tty_read_round count nonblock) fuel w.

(** The bytes [tty_write] sends to the output devices. *)
Fixpoint post_process (onlcr : bool) (bs : list Z) : list Z :=
  match bs with
  | [] => []
  | b :: bs => (if onlcr && (b =? NL) then [CR] else []) ++ [b] ++ post_process onlcr bs
  end.
Definition tty_write (bs : list Z) (w : TtyWorld) : TtyWorld * Z :=
  let onlcr := negb (Z.land (c_oflag (termios (tty w))) ONLCR =? 0) in
  (mkTtyWorld (tty w) (tty_readers w) (tty_out w ++ post_process onlcr bs) (tty_kernel w), Z.of_nat (length bs)).

Definition tty_poll_readable (w : TtyWorld) : bool := data_available (tty w).

Definition set_foreground_pgid (pgid : Z) (w : TtyWorld) : TtyWorld := with_tty (set_fg pgid (tty w)) w.
Definition get_foreground_pgid (w : TtyWorld) : Z := foreground_pgid (tty w).

(** ** ioctl *)
Inductive TtyArg :=
  | ArgTermios (t : Termios)
  | ArgWinsize (ws : Winsize)
  | ArgWord (v : Z).

(** The user memory behind the pointer argument, read at each type. *)
Record UserPtr := mkPtr { at_termios : Termios; at_winsize : Winsize; at_word : Z }.

(** [tty_ioctl] with its pointer argument ([None] for null), the session of
    the caller and its controlling terminal; the value written back, if any,
    and the result. *)
Definition tty_ioctl (req : Z) (arg : option UserPtr) (sid ctty : Z) (w : TtyWorld) : TtyWorld * Z * option TtyArg * Z :=
  let get (v : TtyArg) := match arg with None => (w, ctty, None, -14) | Some _ => (w, ctty, Some v, 0) end in
  if req =? 0x5401 then get (ArgTermios (termios (tty w)))
  else if (req =? 0x5402) || (req =? 0x5403) || (req =? 0x5404) then
    match arg with
    | None => (w, ctty, None, -14)
    | Some p => (with_tty (set_termios (at_termios p) (tty w)) w, ctty, None, 0)
    end
  else if req =? 0x540F then get (ArgWord (foreground_pgid (tty w)))
  else if req =? 0x5410 then
    match arg with
    | None => (w, ctty, None, -14)
    | Some p => (with_tty (set_fg (at_word p) (tty w)) w, ctty, None, 0)
    end
  else if req =? 0x5413 then get (ArgWinsize (winsize (tty w)))
  else if req =? 0x5414 then
    match arg with
    | None => (w, ctty, None, -14)
    | Some p =>
        let w1 := with_tty (set_winsize (at_winsize p) (tty w)) w in
        (with_kernel (signal_group (foreground_pgid (tty w1)) SIGWINCH_tty (tty_kernel w1)) w1, ctty, None, 0)
    end
  else if req =? 0x540E then (with_tty (set_session sid (tty w)) w, 1, None, 0)
  else if req =? 0x5422 then (w, -1, None, 0)
  else if (req =? 0x540C) || (req =? 0x540D) || (req =? 0x5439) then (w, ctty, None, 0)
  else (w, ctty, None, -22).
End Global.
Arguments TtyWorld K : clear implicits.

(** Feeding a sequence of bytes; signals and echo aside. *)
Definition feed (bs : list Z) (t : TtyState) : TtyState := foldl (λ t b, (input_byte t b).1.1) t bs.

(** ** Lemmas on the line discipline *)
Definition is_signal_char (t : TtyState) (b : Z) : bool :=
  isig_enabled t && ((b =? intr_char t) || negb (cc t VSUSP =? 0) && (b =? cc t VSUSP)).
Definition is_erase (t : TtyState) (b : Z) : bool := (b =? erase_char t) || (b =? BS).
Definition is_control (t : TtyState) (b : Z) : bool :=
  negb (kill_char t =? 0) && (b =? kill_char t) || negb (eof_char t =? 0) && (b =? eof_char t).
(** A byte that is neither special nor ends the line. *)
Definition ordinary (t : TtyState) (b : Z) : bool :=
  negb (is_signal_char t b) && negb (is_erase t b) && negb (is_control t b) && negb (b =? CR) && negb (b =? NL).
(** A byte that ends the line, and is not special. *)
Definition ends_line (t : TtyState) (b : Z) : bool :=
  negb (is_signal_char t b) && negb (is_erase t b) && negb (is_control t b) && ((b =? CR) || (b =? NL)).

Lemma no_signal t b :
  is_signal_char t b = false →
  isig_enabled t && (b =? intr_char t) = false ∧ isig_enabled t && negb (cc t VSUSP =? 0) && (b =? cc t VSUSP) = false.
Proof.
  unfold is_signal_char. destruct (isig_enabled t); [|done]. cbn. intros [? ?]%orb_false_elim. done.
Qed.

(** What a byte that is not special does in canonical mode. *)
Lemma input_plain t b :
  is_canonical t = true → is_signal_char t b = false → is_erase t b = false → is_control t b = false →
  (input_byte t b).1.1 =
    let ch := if b =? CR then NL else b in
    if ch =? NL then set_input [] (ready_lines t ++ [line_buf t ++ [ch]]) (raw_buf t) t
    else set_input (line_buf t ++ [ch]) (ready_lines t) (raw_buf t) t.
Proof.
  intros Hc Hs He Hk. destruct (no_signal t b Hs) as [H1 H2]. unfold input_byte. rewrite Hc. cbn [andb].
  rewrite H1, H2. unfold is_erase in He. rewrite He. unfold is_control in Hk. apply orb_false_elim in Hk as [-> ->]. done.
Qed.

Lemma input_ordinary t b :
  is_canonical t = true → ordinary t b = true →
  (input_byte t b).1.1 = set_input (line_buf t ++ [b]) (ready_lines t) (raw_buf t) t.
Proof.
  unfold ordinary. intros Hc Ho. repeat (apply andb_prop in Ho as [Ho ?]). rewrite input_plain by (try done; by apply negb_true_iff).
  cbn zeta. destruct (Z.eqb_spec b CR); [done|]. by destruct (Z.eqb_spec b NL).
Qed.

Lemma input_ends_line t b :
  is_canonical t = true → ends_line t b = true →
  (input_byte t b).1.1 = set_input [] (ready_lines t ++ [line_buf t ++ [NL]]) (raw_buf t) t.
Proof.
  unfold ends_line. intros Hc Ho. repeat (apply andb_prop in Ho as [Ho ?]). rewrite input_plain by (try done; by apply negb_true_iff).
  cbn zeta. destruct (Z.eqb_spec b CR); [done|]. by destruct (Z.eqb_spec b NL); subst.
Qed.

Lemma input_erase t b :
  is_canonical t = true → is_signal_char t b = false → is_erase t b = true →
  (input_byte t b).1.1 = set_input (removelast (line_buf t)) (ready_lines t) (raw_buf t) t.
Proof.
  intros Hc Hs He. destruct (no_signal t b Hs) as [H1 H2]. unfold input_byte. rewrite Hc. cbn [andb].
  rewrite H1, H2. unfold is_erase in He. rewrite He. destruct (line_buf t) eqn:E; [|done]. destruct t; cbn in *. by subst.
Qed.

Lemma feed_app bs bs' t : feed (bs ++ bs') t = feed bs' (feed bs t).
Proof. apply foldl_app. Qed.

Lemma feed_ordinary text t :
  is_canonical t = true → Forall (λ b, ordinary t b = true) text →
  feed text t = set_input (line_buf t ++ text) (ready_lines t) (raw_buf t) t.
Proof.
  intros Hc Ht. revert t Hc Ht. induction text as [|b text IH]; intros t Hc Ht.
  - cbn. rewrite app_nil_r. by destruct t.
  - apply Forall_cons in Ht as [Hb Ht]. change (feed (b :: text) t) with (feed text (input_byte t b).1.1).
    rewrite input_ordinary by done. rewrite IH by done. cbn. by rewrite <-app_assoc.
Qed.

Lemma set_input_id t : set_input (line_buf t) (ready_lines t) (raw_buf t) t = t.
Proof. by destruct t. Qed.

Lemma feed_erase e n t :
  is_canonical t = true → is_signal_char t e = false → is_erase t e = true →
  feed (replicate n e) t = set_input (take (length (line_buf t) - n) (line_buf t)) (ready_lines t) (raw_buf t) t.
Proof.
  intros Hc Hs He. revert t Hc Hs He. induction n as [|n IH]; intros t Hc Hs He.
  - cbn [replicate]. rewrite Nat.sub_0_r, firstn_all. by rewrite set_input_id.
  - change (feed (replicate (S n) e) t) with (feed (replicate n e) (input_byte t e).1.1). rewrite input_erase by done.
    rewrite IH by done. cbn [set_input line_buf ready_lines raw_buf].
    assert (take (length (removelast (line_buf t)) - n) (removelast (line_buf t)) = take (length (line_buf t) - S n) (line_buf t)) as ->; [|done].
    rewrite removelast_firstn_len, take_take, length_take. f_equal. lia.
Qed.

(** The bytes of the complete lines not yet read. *)
Definition pending_bytes (t : TtyState) : list Z := mjoin (ready_lines t).

Lemma try_read_canonical t count :
  is_canonical t = true → 0 ≤ count →
  match tty_try_read t count with
  | (t', Some bytes) => ∃ line rest tl, ready_lines t = line :: rest ∧ line = bytes ++ tl ∧
      Z.of_nat (length bytes) = Z.min (Z.of_nat (length line)) count ∧
      pending_bytes t = bytes ++ pending_bytes t' ∧ is_canonical t' = true
  | (t', None) => t' = t ∧ ready_lines t = []
  end.
Proof.
  intros Hc Hn. unfold tty_try_read. rewrite Hc. destruct (ready_lines t) as [|line rest] eqn:E; [done|].
  set (n := Z.to_nat _). exists line, rest, (drop n line). split; [done|]. split; [by rewrite take_drop|].
  split; [rewrite length_take; lia|]. split; [|done]. unfold pending_bytes. rewrite E. cbn [set_input ready_lines].
  change (mjoin (line :: rest)) with (line ++ mjoin rest). case_bool_decide as El.
  - rewrite El, firstn_all. done.
  - change (mjoin (drop n line :: rest)) with (drop n line ++ mjoin rest). by rewrite app_assoc, take_drop.
Qed.

(** Reading with the given buffer sizes, as long as there is data. *)
Fixpoint read_seq (counts : list Z) (t : TtyState) : TtyState * list Z :=
  match counts with
  | [] => (t, [])
  | c :: counts =>
      match tty_try_read t c with
      | (t', Some bytes) => let '(t'', rest) := read_seq counts t' in (t'', bytes ++ rest)
      | (t', None) => read_seq counts t'
      end
  end.

(** Removing the carriage return in front of each newline. *)
Fixpoint strip_cr (bs : list Z) : list Z :=
  match bs with
  | [] => []
  | b :: rest => match rest with
                 | c :: _ => if (b =? CR) && (c =? NL) then strip_cr rest else b :: strip_cr rest
                 | [] => [b]
                 end
  end.

(** ** Theorems *)

(** A line typed is the line read: in canonical mode, bytes that are not
    special, ended by CR or LF, make a line that a read returns with a newline
    at its end, after which the terminal is as before. *)
Theorem line_roundtrip t text e count :
  is_canonical t = true → line_buf t = [] → ready_lines t = [] →
  Forall (λ b, ordinary t b = true) text → ends_line t e = true →
  Z.of_nat (length text) < count →
  tty_try_read (feed (text ++ [e]) t) count = (t, Some (text ++ [NL])).
Proof.
  intros Hc Hlb Hrl Ht He Hn. rewrite feed_app, (feed_ordinary text t) by done. rewrite Hlb, Hrl.
  change (feed [e] ?t) with (input_byte t e).1.1. rewrite input_ends_line by done.
  cbn [set_input line_buf ready_lines raw_buf app]. unfold tty_try_read. change (is_canonical (set_input _ _ _ _)) with (is_canonical t).
  rewrite Hc. cbn [set_input ready_lines line_buf raw_buf].
  assert (Z.to_nat (Z.min (Z.of_nat (length (text ++ [NL]))) count) = length (text ++ [NL])) as ->
    by (rewrite length_app; cbn [length]; lia).
  rewrite bool_decide_eq_true_2 by done. rewrite firstn_all. f_equal. destruct t; cbn in *. by subst.
Qed.

(** Erasing undoes typing: as many erase characters as ordinary characters
    typed bring the terminal back to the state before them; more do not erase
    past the start of the line. *)
Theorem erase_undoes t text e n :
  is_canonical t = true → Forall (λ b, ordinary t b = true) text →
  is_signal_char t e = false → is_erase t e = true → (length text ≤ n)%nat →
  feed (text ++ replicate n e) t =
    set_input (take (length (line_buf t) + length text - n) (line_buf t)) (ready_lines t) (raw_buf t) t.
Proof.
  intros Hc Ht Hs He Hn. rewrite feed_app, (feed_ordinary text t) by done. rewrite feed_erase by done.
  cbn [set_input line_buf ready_lines raw_buf]. rewrite length_app, take_app_le by lia. done.
Qed.

(** Reads lose, repeat and reorder nothing: whatever buffer sizes a
    sequence of reads uses, the bytes returned followed by those still pending
    are the bytes that were pending; no single read crosses a line. *)
Theorem reads_conserve t counts :
  is_canonical t = true → Forall (λ c, 0 ≤ c) counts →
  let '(t', bytes) := read_seq counts t in pending_bytes t = bytes ++ pending_bytes t'.
Proof.
  intros Hc Hcs. revert t Hc. induction Hcs as [|c counts H0 Hcs IH]; intros t Hc; cbn [read_seq]; [done|].
  pose proof (try_read_canonical t c Hc H0) as Hr. destruct (tty_try_read t c) as [t' [bytes|]].
  - destruct Hr as (line & rest & tl & _ & _ & _ & Hp & Hc'). specialize (IH t' Hc').
    destruct (read_seq counts t') as [t'' bs]. by rewrite Hp, IH, app_assoc.
  - destruct Hr as [-> _]. by apply IH.
Qed.

(** ^D on an empty line is end of file, once: the next read after the
    pending lines returns no bytes, and the one after that finds nothing. *)
Theorem eof_once t count :
  is_canonical t = true → line_buf t = [] → ready_lines t = [] → is_signal_char t (eof_char t) = false →
  is_erase t (eof_char t) = false → kill_char t ≠ eof_char t → eof_char t ≠ 0 → 0 ≤ count →
  let t1 := (input_byte t (eof_char t)).1.1 in
  tty_try_read t1 count = (t, Some []) ∧ tty_try_read t count = (t, None).
Proof.
  intros Hc Hlb Hrl Hs He Hk Hz Hn. destruct (no_signal t _ Hs) as [H1 H2]. cbn zeta. unfold input_byte. rewrite Hc. cbn [andb].
  rewrite H1, H2. unfold is_erase in He. rewrite He. replace (eof_char t =? kill_char t) with false by lia.
  rewrite andb_false_r. rewrite Z.eqb_refl. replace (eof_char t =? 0) with false by lia. cbn [negb andb fst].
  unfold tty_try_read. change (is_canonical (set_input _ _ _ _)) with (is_canonical t). rewrite Hc, Hlb, Hrl.
  cbn [app set_input ready_lines length]. replace (Z.to_nat (Z.min (Z.of_nat 0) count)) with 0%nat by lia. split; [|done].
  cbn. f_equal. destruct t; cbn in *. by subst.
Qed.

(** Output processing is undone by removing the carriage return in front
    of each newline: nothing but those is added. *)
Theorem onlcr_roundtrip bs : strip_cr (post_process true bs) = bs.
Proof.
  induction bs as [|b bs IH]; [done|]. cbn [post_process andb]. destruct (Z.eqb_spec b NL) as [->|Hne].
  - cbn [app]. change (strip_cr (CR :: NL :: post_process true bs)) with (strip_cr (NL :: post_process true bs)).
    destruct (post_process true bs) as [|c rest] eqn:E.
    + cbn. destruct bs as [|z bs]; [done|]. cbn in E. by destruct (z =? NL).
    + change (strip_cr (NL :: c :: rest)) with (NL :: strip_cr (c :: rest)). by rewrite IH.
  - cbn [app]. destruct (post_process true bs) as [|c rest] eqn:E.
    + cbn. destruct bs as [|z bs]; [done|]. cbn in E. by destruct (z =? NL).
    + change (strip_cr (b :: c :: rest)) with (if (b =? CR) && (c =? NL) then strip_cr (c :: rest) else b :: strip_cr (c :: rest)).
      rewrite IH. assert (c ≠ NL) as Hc.
      { destruct bs as [|b' bs']; [done|]. cbn [post_process andb] in E. destruct (Z.eqb_spec b' NL) as [->|Hb']; cbn in E; injection E as <- _; done. }
      replace (c =? NL) with false by (symmetry; by apply Z.eqb_neq). by rewrite andb_false_r.
Qed.

(** Input wakes the readers: after a byte arrives no registered reader is
    asleep and the wait queue is empty; ^C empties the line and signals the
    foreground process group. *)
Theorem tty_input_wakes {K} `{SchedulerLaws K} (signal_group : Z → Z → K → K) byte (w : TtyWorld K) :
  let w' := tty_input_byte signal_group byte w in
  tty_readers w' = [] ∧ (∀ q, q ∈ tty_readers w → sched_asleep (tty_kernel w') q = false) ∧
  (is_canonical (tty w) = true → isig_enabled (tty w) = true → byte = intr_char (tty w) →
    line_buf (tty w') = [] ∧
    tty_kernel w' = wake_all (tty_readers w) (signal_group (foreground_pgid (tty w)) SIGINT (tty_kernel w))).
Proof.
  cbn zeta. unfold tty_input_byte, tty_wake_readers. cbn [tty_readers tty_kernel tty]. split; [done|].
  assert (tty_readers (handle_input_byte signal_group byte w) = tty_readers w) as Hr.
  { unfold handle_input_byte. destruct (input_byte (tty w) byte) as [[t e] [s|]]; done. }
  rewrite Hr. split.
  - intros q Hq. rewrite wake_all_asleep, bool_decide_eq_true_2 by done. apply andb_false_r.
  - intros Hc Hi ->. unfold handle_input_byte, input_byte. rewrite Hc, Hi, Z.eqb_refl. done.
Qed.

(** A read that does not block: with data it returns the bytes
    [try_read] takes; with [O_NONBLOCK] and no data it fails with EAGAIN; in
    both cases the caller is not left in the wait queue. *)
Theorem tty_read_ready {K} `{Scheduler K} blocked count nonblock (w : TtyWorld K) :
  data_available (tty w) = true ∨ nonblock = true →
  ∃ w' r, tty_read blocked 1 count nonblock w = inr (w', r) ∧
    sched_current (tty_kernel w) ∉ tty_readers w' ∧ tty w' = (tty_try_read (tty w) count).1 ∧
    r = match (tty_try_read (tty w) count).2 with Some bytes => Ok bytes | None => Err 11 end.
Proof.
  intros Hd. unfold tty_read. rewrite loop_nat_S. unfold tty_read_round. cbn zeta.
  set (w1 := register_poll_waiter _ w). assert (tty w1 = tty w) as Ht by (unfold w1, register_poll_waiter; by case_bool_decide).
  rewrite Ht. destruct (tty_try_read (tty w) count) as [t [bytes|]] eqn:E.
  - eexists _, _. split; [done|]. cbn. split_and!; [|done|done]. rewrite list_elem_of_filter. tauto.
  - assert (nonblock = true) as ->.
    { destruct Hd as [Hd|]; [exfalso|done]. unfold data_available in Hd. unfold tty_try_read in E. destruct (is_canonical (tty w)).
      - destruct (ready_lines (tty w)); [by rewrite bool_decide_eq_true_2 in Hd|done].
      - destruct (raw_buf (tty w)); [by rewrite bool_decide_eq_true_2 in Hd|done]. }
    eexists _, _. split; [done|]. cbn. split_and!; [|done|done]. rewrite list_elem_of_filter. tauto.
Qed.

(** What a successful set request stores, the matching get request
    returns: attributes, foreground group and window size; a null pointer is
    refused by all of them with EFAULT, and changes nothing. *)
Theorem tty_ioctl_roundtrip {K} (signal_group : Z → Z → K → K) p sid ctty (w : TtyWorld K) :
  let ioctl req arg w := tty_ioctl signal_group req arg sid ctty w in
  (∀ req, req ∈ [0x5402; 0x5403; 0x5404] →
    (ioctl 0x5401 (Some p) (ioctl req (Some p) w).1.1.1).1.2 = Some (ArgTermios (at_termios p))) ∧
  (ioctl 0x540F (Some p) (ioctl 0x5410 (Some p) w).1.1.1).1.2 = Some (ArgWord (at_word p)) ∧
  (ioctl 0x5413 (Some p) (ioctl 0x5414 (Some p) w).1.1.1).1.2 = Some (ArgWinsize (at_winsize p)) ∧
  tty_kernel (ioctl 0x5414 (Some p) w).1.1.1 = signal_group (foreground_pgid (tty w)) SIGWINCH_tty (tty_kernel w) ∧
  (∀ req, req ∈ [0x5401; 0x5402; 0x5403; 0x5404; 0x540F; 0x5410; 0x5413; 0x5414] →
    ioctl req None w = (w, ctty, None, -14)).
Proof.
  cbn zeta. split_and!; try done.
  - intros req Hr. repeat (apply elem_of_cons in Hr as [->|Hr]; [done|]). by apply elem_of_nil in Hr.
  - intros req Hr. repeat (apply elem_of_cons in Hr as [->|Hr]; [done|]). by apply elem_of_nil in Hr.
Qed.

(** ** Witnesses *)
Definition demo_tty : TtyState := tty_new.
Definition demo_tty_world : TtyWorld (gset Z) := mkTtyWorld demo_tty [7; 9] [] {[7; 9]}.

Lemma line_roundtrip_witness :
  tty_try_read (feed ([104; 105] ++ [CR]) demo_tty) 16 = (demo_tty, Some ([104; 105] ++ [NL])).
Proof.
  apply (line_roundtrip demo_tty [104; 105] CR 16); try (vm_compute; reflexivity).
  repeat constructor.
Defined.

Lemma erase_undoes_witness : feed ([104; 105] ++ replicate 3 0x7F) demo_tty = demo_tty.
Proof.
  rewrite (erase_undoes demo_tty [104; 105] 0x7F 3); [reflexivity|reflexivity| |reflexivity|reflexivity|cbn; lia].
  repeat constructor.
Defined.

Lemma reads_conserve_witness :
  let t := feed [97; 98; 99; NL; 100; NL] demo_tty in
  let '(t', bytes) := read_seq [2; 2; 9] t in pending_bytes t = bytes ++ pending_bytes t'.
Proof. cbv zeta. apply (reads_conserve (feed [97; 98; 99; NL; 100; NL] demo_tty) [2; 2; 9]); [reflexivity|]. repeat constructor; lia. Defined.

Lemma eof_once_witness :
  tty_try_read (input_byte demo_tty 4).1.1 8 = (demo_tty, Some []) ∧ tty_try_read demo_tty 8 = (demo_tty, None).
Proof. apply (eof_once demo_tty 8); try (vm_compute; reflexivity); vm_compute; discriminate. Defined.

Lemma tty_input_wakes_witness :
  tty_readers (tty_input_byte (λ _ _ k, k) 97 demo_tty_world) = [] ∧
  sched_asleep (tty_kernel (tty_input_byte (λ _ _ k, k) 97 demo_tty_world)) 7 = false.
Proof.
  destruct (tty_input_wakes (λ _ _ k, k) 97 demo_tty_world) as (H1 & H2 & _). split; [exact H1|].
  apply H2. apply elem_of_cons. by left.
Defined.

Lemma tty_read_ready_witness :
  ∃ w' r, tty_read (λ w, w) 1 8 true demo_tty_world = inr (w', r) ∧ 1 ∉ tty_readers w' ∧ r = Err 11.
Proof.
  destruct (tty_read_ready (λ w, w) 8 true demo_tty_world) as (w' & r & H1 & H2 & _ & H4); [by right|].
  exists w', r. split; [exact H1|]. split; [exact H2|exact H4].
Defined.
