(* ===== verification/KernelIface.v ===== *)
(** * The scheduler of the kernel, as an implementation of the interface

    Discharges the interface of SchedIface with the scheduler of Kernel:
    [kernel_scheduler] gives the operations on [Kernel], and on the kernels
    that satisfy the scheduler's invariant ([WfKernel]) they have the laws, so
    that every theorem of Pipe, Ipc and Tty holds of the kernel itself.  The
    interval in which a blocked caller is off the processor ([block]) is a
    parameter: it depends on everything else that runs. *)
From S2P Require Import Prelude Bpf Seccomp Process Sched Kernel SchedIface Signal.

Definition SIGPIPE : Z := 13.

Definition kernel_asleep (k : Kernel) (q : Z) : bool := bool_decide (proc_state k q = Some Sleeping).

(** [wake_process] on a state in which it does not panic. *)
Definition kernel_wake (p : Z) (k : Kernel) : Kernel := default k (wake_process p k).

Definition kernel_scheduler (may_signal : Z → Z → Z → bool) (block : Kernel → Kernel) : Scheduler Kernel := {|
  sched_current k := current (k_table k);
  sched_asleep := kernel_asleep;
  sched_wake := kernel_wake;
  sched_block := block;
  sched_sigpipe pid k := send_signal may_signal pid SIGPIPE k;
|}.

Lemma kernel_wake_wf p k : kernel_wf k → kernel_wf (kernel_wake p k).
Proof. intros Hwf. unfold kernel_wake. by destruct (wake_process_ok p k Hwf) as (k' & -> & ? & _). Qed.

Lemma kernel_wake_asleep p q k :
  kernel_wf k → kernel_asleep (kernel_wake p k) q = (kernel_asleep k q && negb (bool_decide (q = p))).
Proof.
  intros Hwf. unfold kernel_wake. destruct (wake_process_ok p k Hwf) as (k' & -> & _ & Hs & Hn & Ho). cbn [default id].
  unfold kernel_asleep. destruct (decide (q = p)) as [->|Hne].
  - rewrite (bool_decide_eq_true_2 (p = p)), andb_false_r by done. apply bool_decide_eq_false_2.
    destruct (decide (proc_state k p = Some Sleeping)) as [Hsl|Hsl]; [by destruct (Hs Hsl) as [-> _]|by rewrite (Hn Hsl)].
  - rewrite (bool_decide_eq_false_2 (q = p)), andb_true_r by done. unfold proc_state. by rewrite Ho.
Qed.

Section Wf.
Variable may_signal : Z → Z → Z → bool.

Definition WfKernel : Type := { k : Kernel | kernel_wf k }.
Variable block : WfKernel → WfKernel.

Definition wf_wake (p : Z) (k : WfKernel) : WfKernel := exist _ (kernel_wake p (`k)) (kernel_wake_wf p _ (proj2_sig k)).

Lemma send_signal_wf pid sig k : kernel_wf k → kernel_wf (send_signal may_signal pid sig k).
Proof. intros Hwf. unfold send_signal. repeat case_match; try done. by apply update_proc_wf. Qed.

Definition wf_sigpipe (pid : Z) (k : WfKernel) : WfKernel :=
  exist _ (send_signal may_signal pid SIGPIPE (`k)) (send_signal_wf pid SIGPIPE _ (proj2_sig k)).

#[export] Instance wf_scheduler : Scheduler WfKernel := {|
  sched_current k := current (k_table (`k));
  sched_asleep k := kernel_asleep (`k);
  sched_wake := wf_wake;
  sched_block := block;
  sched_sigpipe := wf_sigpipe;
|}.

#[export] Instance wf_scheduler_laws : SchedulerLaws WfKernel.
Proof. split. intros [k Hk] p q. cbn. by apply kernel_wake_asleep. Qed.
End Wf.

(** With [block_current] up to the point where it yields as the way to block,
    the kernel has the laws of blocking too: what runs until the caller resumes
    is then the business of whoever interleaves processes. *)
Section Block.
Variable may_signal : Z → Z → Z → bool.

Lemma update_asleep pid f k q : (∀ p, p_state (f p) = Sleeping → p_state p = Sleeping) → kernel_asleep (update_proc pid f k) q = true → kernel_asleep k q = true.
Proof.
  intros Hf. unfold kernel_asleep. rewrite !bool_decide_eq_true, proc_state_update. case_decide as E; [subst q|done].
  unfold proc_state. destruct (proc k pid) as [p|]; [|done]. cbn. intros [= H]. by rewrite (Hf p H).
Qed.
Lemma block_prepare_wf st k : kernel_wf k → kernel_wf (block_prepare st k).
Proof. intros Hwf. apply (kernel_wf_table _ _ Hwf); done. Qed.
Definition wf_block (k : WfKernel) : WfKernel := exist _ (block_prepare Sleeping (`k)) (block_prepare_wf Sleeping _ (proj2_sig k)).
Lemma block_asleep k q : kernel_asleep (block_prepare Sleeping k) q = true → kernel_asleep k q = true ∨ q = current (k_table k).
Proof.
  unfold kernel_asleep, block_prepare. rewrite !bool_decide_eq_true. change (proc_state (set_need true ?k)) with (proc_state k). rewrite proc_state_update. case_decide; auto.
Qed.
#[export] Instance wf_block_laws : @BlockLaws WfKernel (wf_scheduler may_signal wf_block).
Proof.
  split.
  - intros [k Hk] q. apply block_asleep.
  - intros p [k Hk] q. cbn. unfold send_signal. repeat case_match; try done. apply update_asleep. intros x. unfold send_to. repeat case_match; done.
Qed.
End Block.
