(* ===== verification/Files.v ===== *)
(** * Descriptors, pipes and the life of a process

    Models the system calls of kernel/src/syscall/handlers.rs that make, copy
    and drop descriptors ([sys_close], [sys_dup], [sys_dup2], [sys_dup3],
    [sys_pipe], [sys_pipe2], [sys_fcntl], [sys_fork], [sys_exit],
    [sys_wait4], the descriptor part of [sys_execve]) with [fork_current] and
    [exit_current] of kernel/src/process/mod.rs and the constructors of
    kernel/src/ipc/pipe.rs.  The state is the [World] of Pipe over the kernel
    of Kernel: pipe buffers, their wait queues, process table, run queues.

    [live_fds] abstracts the process table to the descriptor tables of the
    processes that have not ended.  The promise is [refs_ok]: each pipe counts
    exactly the descriptors that live processes have on each of its ends.

    Processes have their own descriptor table; threads that share one
    ([clone_thread]) are not modelled.  The address the allocator gives a new
    pipe, the success of the copy of the address space and the descriptor of
    /dev/null are arguments.  [alloc_fd] gets the 1021 rounds that are enough
    whenever it ends; [None] stands for a call that does not return. *)
From stdpp Require Import sorting.
From S2P Require Import Prelude Bpf Seccomp Process Sched Kernel SchedIface Pipe Signal KernelIface.

Definition EBADF : Z := -9.
Definition ENOMEM : Z := -12.
Definition ECHILD : Z := -10.
Definition O_NONBLOCK : Z := 0x800. (* 0o4000 *)
Definition O_CLOEXEC : Z := 0x80000. (* 0o2000000 *)
Definition FD_FUEL : nat := Z.to_nat 1021.

(** [flags |= bit]. *)
Definition add_flag (bit : Z) (f : FileDescriptor) : FileDescriptor :=
  mkFd (fd_ino f) (fd_offset f) (Z.lor (fd_flags f) bit) (fd_kind f).
Definition clear_flag (bit : Z) (f : FileDescriptor) : FileDescriptor :=
  mkFd (fd_ino f) (fd_offset f) (Z.land (fd_flags f) (Z.lnot bit)) (fd_kind f).
Definition set_flags (v : Z) (f : FileDescriptor) : FileDescriptor :=
  mkFd (fd_ino f) (fd_offset f) v (fd_kind f).
Definition has_flag (bit : Z) (f : FileDescriptor) : bool := negb (Z.land (fd_flags f) bit =? 0).

(** The two descriptors of a new pipe at address [key]; [ino] is the value of
    [PIPE_INO]. *)
Definition new_pipe (key ino : Z) : FileDescriptor * FileDescriptor :=
  (mkFd ino 0 0 (PipeRead key), mkFd (wadd 64 ino 1) 0 0 (PipeWrite key)).

Definition new_pipe2 (key ino flags : Z) : FileDescriptor * FileDescriptor :=
  let '(r, w) := new_pipe key ino in
  let '(r, w) := if negb (Z.land flags O_NONBLOCK =? 0) then (add_flag O_NONBLOCK r, add_flag O_NONBLOCK w) else (r, w) in
  if negb (Z.land flags O_CLOEXEC =? 0) then (add_flag O_CLOEXEC r, add_flag O_CLOEXEC w) else (r, w).

(** The values of a descriptor table in the order of their keys. *)
Definition fd_le (a b : Z * FileDescriptor) : Prop := a.1 ≤ b.1.
#[export] Instance fd_le_dec : RelDecision fd_le := λ a b, decide (a.1 ≤ b.1).
Definition fd_values (fds : gmap Z FileDescriptor) : list FileDescriptor :=
  (merge_sort fd_le (map_to_list fds)).*2.

Definition is_write_end (kind : FdKind) : bool := match kind with PipeWrite _ => true | _ => false end.
Definition is_read_end (kind : FdKind) : bool := match kind with PipeRead _ => true | _ => false end.
Definition is_pipe (kind : FdKind) : bool := is_write_end kind || is_read_end kind.

(** The pipe ends among the descriptors, each once: the keys [ptr | 1] and
    [ptr & !1] of the source, for pipes at even addresses, are the pairs of
    pipe and end. *)
Fixpoint unique_ends (seen : list FdKind) (fds : list FileDescriptor) : list FdKind :=
  match fds with
  | [] => []
  | f :: fds =>
      let kind := fd_kind f in
      if is_pipe kind && negb (bool_decide (kind ∈ seen)) then kind :: unique_ends (kind :: seen) fds
      else unique_ends seen fds
  end.

(** Steps 3 to 5 of [sys_execve] on the process, [null] being the descriptor
    of /dev/null when it can be opened. *)
Definition ensure_std_fd (null : option FileDescriptor) (n : Z) (p : Process) : Process :=
  match get_fd p n, null with
  | None, Some f => (alloc_fd_at n f p).1
  | _, _ => p
  end.
Definition exec_reset (null : option FileDescriptor) (p : Process) : Process :=
  let keep := filter (λ e, has_flag O_CLOEXEC e.2 = false) (p_fds p) in
  let p1 := set_fds keep (p_next_fd p) p in
  let p2 := ensure_std_fd null 2 (ensure_std_fd null 1 (ensure_std_fd null 0 p1)) in
  let reset (a : SigAction) :=
    match handler a with SigUser _ => mkAction SigDefault (act_mask a) (act_flags a) (restorer a) | _ => a end in
  set_sig 0 (p_sig_mask p2) (reset <$> p_sig_actions p2) p2.

Section Files.
Variable may_signal : Z → Z → Z → bool.
Variable block : Kernel → Kernel.
Variable ncpus : Z.
#[local] Instance files_scheduler : Scheduler Kernel := kernel_scheduler may_signal block.

Definition on_kernel (f : Kernel → Kernel) (w : World Kernel) : World Kernel := set_kernel (f (w_kernel w)) w.
Definition cur (w : World Kernel) : Z := current (k_table (w_kernel w)).
Definition cur_proc (w : World Kernel) : option Process := proc (w_kernel w) (cur w).
Definition update_cur (f : Process → Process) (w : World Kernel) : World Kernel :=
  on_kernel (update_proc (cur w) f) w.
(** [fd as u32] of a descriptor of the current process. *)
Definition cur_fd (fd : Z) (w : World Kernel) : option FileDescriptor :=
  p ← cur_proc w; get_fd p (wrap 32 fd).

(** ** Pipe ends *)
Definition pipe_dup_inc (kind : FdKind) (w : World Kernel) : World Kernel :=
  match kind with
  | PipeWrite key => set_pipe key (dup_write (the_pipe key w)) w
  | PipeRead key => set_pipe key (dup_read (the_pipe key w)) w
  | _ => w
  end.
Definition close_kind (kind : FdKind) (w : World Kernel) : World Kernel :=
  match kind with
  | PipeWrite key => pipe_close_write key w
  | PipeRead key => pipe_close_read key w
  | _ => w
  end.

(** ** System calls on descriptors *)
Definition sys_close (fd : Z) (w : World Kernel) : World Kernel * Z :=
  let kind := fd_kind <$> cur_fd fd w in
  let closed := match cur_proc w with Some p => (close_fd (wrap 32 fd) p).2 | None => false end in
  let w1 := update_cur (λ p, (close_fd (wrap 32 fd) p).1) w in
  if negb closed then (w1, EBADF)
  else (match kind with Some k => close_kind k w1 | None => w1 end, 0).

(** [with_current_mut(|p| p.alloc_fd(fd))]. *)
Definition cur_alloc_fd (f : FileDescriptor) (w : World Kernel) : option (World Kernel * Z) :=
  p ← cur_proc w;
  '(p', n) ← alloc_fd FD_FUEL f p;
  Some (update_cur (λ _, p') w, n).

(** The part that [sys_dup] and [F_DUPFD] share. *)
Definition dup_fd (fd : Z) (w : World Kernel) : option (World Kernel * result Z Z) :=
  match cur_fd fd w with
  | None => Some (w, Err EBADF)
  | Some f =>
      '(w1, n) ← cur_alloc_fd f w;
      Some (pipe_dup_inc (fd_kind f) w1, Ok n)
  end.
Definition to_ret (r : result Z Z) : Z := match r with Ok n => n | Err e => e end.

Definition sys_dup (fd : Z) (w : World Kernel) : option (World Kernel * Z) :=
  '(w1, r) ← dup_fd fd w; Some (w1, to_ret r).

Definition sys_dup2 (old new : Z) (w : World Kernel) : World Kernel * Z :=
  if old =? new then (w, match cur_fd old w with Some _ => new | None => EBADF end)
  else
    match cur_fd old w with
    | None => (w, EBADF)
    | Some src =>
        let w1 := match cur_fd new w with Some f => close_kind (fd_kind f) w | None => w end in
        let w2 := update_cur (λ p, (alloc_fd_at (wrap 32 new) src p).1) w1 in
        (pipe_dup_inc (fd_kind src) w2, new)
    end.

Definition sys_dup3 (old new flags : Z) (w : World Kernel) : World Kernel * Z :=
  if old =? new then (w, EINVAL)
  else
    let '(w1, r) := sys_dup2 old new w in
    if (0 <=? r) && negb (Z.land flags O_CLOEXEC =? 0) then
      (update_cur (get_fd_mut_op (wrap 32 new) (add_flag O_CLOEXEC)) w1, r)
    else (w1, r).

(** [sys_pipe] and [sys_pipe2] after the check of the pointer: the new state,
    the result and the two numbers stored at the pointer. *)
Definition install_pipe (key : Z) (r w : FileDescriptor) (st : World Kernel) : option (World Kernel * Z * option (Z * Z)) :=
  let st1 := set_pipe key pipe_new st in
  match cur_proc st1 with
  | None => Some (st1, 0, Some (0, 0))
  | Some _ =>
      '(st2, rfd) ← cur_alloc_fd r st1;
      '(st3, wfd) ← cur_alloc_fd w st2;
      Some (st3, 0, Some (rfd, wfd))
  end.
Definition bad_ptr (p : Z) : bool := (p =? 0) || (0x800000000000 <=? p).
Definition sys_pipe (key ino fds : Z) (w : World Kernel) : option (World Kernel * Z * option (Z * Z)) :=
  if bad_ptr fds then Some (w, EFAULT, None)
  else let '(rf, wf) := new_pipe key ino in install_pipe key rf wf w.
Definition sys_pipe2 (key ino fds flags : Z) (w : World Kernel) : option (World Kernel * Z * option (Z * Z)) :=
  if bad_ptr fds then Some (w, EFAULT, None)
  else let '(rf, wf) := new_pipe2 key ino flags in install_pipe key rf wf w.

Definition FCNTL_SETFL_MASK : Z := 0x2001FF. (* 0o10000777 *)
Definition sys_fcntl (fd cmd arg : Z) (w : World Kernel) : option (World Kernel * Z) :=
  if (cmd =? 0) || (cmd =? 1030) then
    '(w1, r) ← dup_fd fd w;
    match r with
    | Err e => Some (w1, e)
    | Ok n => Some (if cmd =? 1030 then update_cur (get_fd_mut_op n (add_flag O_CLOEXEC)) w1 else w1, n)
    end
  else if cmd =? 1 then
    Some (w, match cur_fd fd w with Some f => Z.land (fd_flags f) O_CLOEXEC | None => EBADF end)
  else if cmd =? 2 then
    Some (update_cur (get_fd_mut_op (wrap 32 fd)
            (if negb (Z.land arg 1 =? 0) then add_flag O_CLOEXEC else clear_flag O_CLOEXEC)) w, 0)
  else if cmd =? 3 then Some (w, match cur_fd fd w with Some f => fd_flags f | None => EBADF end)
  else if cmd =? 4 then
    Some (update_cur (get_fd_mut_op (wrap 32 fd) (λ f,
            set_flags (Z.lor (Z.land (fd_flags f) (Z.lnot FCNTL_SETFL_MASK)) (Z.land arg FCNTL_SETFL_MASK)) f)) w, 0)
  else if (cmd =? 5) || (cmd =? 6) || (cmd =? 7) || (cmd =? 8) || (cmd =? 9) then Some (w, 0)
  else Some (w, EINVAL).

(** ** Fork *)
Definition child_of (parent : Process) (child_pid ppid : Z) : Process :=
  mkProcess child_pid ppid (p_pgid parent) Runnable 0 (p_fds parent) (p_next_fd parent)
    0 (p_sig_mask parent) (p_sig_actions parent) 0 [] (p_seccomp parent).

(** [as_ok] says whether the address space could be copied.  The kernel stack
    image from which the child starts, its credentials, names and namespaces
    are not part of the model. *)
Definition fork_current (as_ok : bool) (w : World Kernel) : World Kernel * option Z :=
  let ppid := cur w in
  let '(t1, opid) := alloc_pid (k_table (w_kernel w)) in
  let w1 := on_kernel (set_table t1) w in
  match opid with
  | None => (w1, None)
  | Some child_pid =>
      match procs t1 !! ppid with
      | None => (w1, None)
      | Some parent =>
          if negb as_ok then (w1, None)
          else
            let w2 := foldl (λ w f, pipe_dup_inc (fd_kind f) w) w1 (fd_values (p_fds parent)) in
            let w3 := on_kernel (update_proc ppid (λ p, set_children (p_children p ++ [child_pid]) p)) w2 in
            let add (t : Table) := mkTable (<[child_pid := child_of parent child_pid ppid]> (procs t)) (next_pid t) (current t) in
            (on_kernel (λ k, set_table (add (k_table k)) k) w3, Some child_pid)
      end
  end.

Definition sys_fork (as_ok : bool) (w : World Kernel) : option (World Kernel * Z) :=
  match fork_current as_ok w with
  | (w1, None) => Some (w1, ENOMEM)
  | (w1, Some child) =>
      k ← add_task ncpus child PRIO_NORMAL SCHED_NORMAL (w_kernel w1);
      Some (set_kernel (request_reschedule k) w1, child)
  end.

(** ** Exit *)
Definition close_ends (fds : gmap Z FileDescriptor) (w : World Kernel) : World Kernel :=
  let ends := unique_ends [] (fd_values fds) in
  let w1 := foldl (λ w k, close_kind k w) w (filter (λ k, is_write_end k = true) ends) in
  foldl (λ w k, close_kind k w) w1 (filter (λ k, is_read_end k = true) ends).

(** The store through [clear_child_tid], which only threads have, is not part
    of the model. *)
Definition exit_current (code : Z) (w : World Kernel) : option (World Kernel) :=
  let w1 := match cur_proc w with Some p => close_ends (p_fds p) w | None => w end in
  match cur_proc w1 with
  | None => Some w1
  | Some p =>
      let w2 := update_cur (λ p, set_exit_code code (set_state (Zombie code) p)) w1 in
      if p_ppid p =? 0 then Some w2
      else
        k ← wake_process (p_ppid p) (send_signal may_signal (p_ppid p) SIGCHLD (w_kernel w2));
        Some (set_kernel k w2)
  end.

(** [sys_exit] up to the switch to another process. *)
Definition sys_exit (code : Z) (w : World Kernel) : option (World Kernel) :=
  w1 ← exit_current code w;
  k ← remove_task (cur w1) (w_kernel w1);
  Some (set_kernel (set_need true k) w1).

(** ** Wait *)
Definition find_zombie (pid : Z) (k : Kernel) : option Z :=
  let zombie (q : Z) := match proc k q with Some p => is_zombie p | None => false end in
  if pid =? -1 then wait_any_zombie (k_table k) (current (k_table k))
  else if pid <? -1 then
    find (λ q, match proc k q with Some p => (p_pgid p =? wrap 32 (- pid)) && is_zombie p | None => false end)
      (merge_sort Z.le (all_pids k))
  else if zombie (wrap 32 pid) then Some (wrap 32 pid) else None.

Definition has_relevant_children (pid : Z) (k : Kernel) : bool :=
  if pid =? -1 then
    match proc k (current (k_table k)) with Some p => negb (bool_decide (p_children p = [])) | None => false end
  else if pid <? -1 then
    existsb (λ q, match proc k q with Some p => p_pgid p =? wrap 32 (- pid) | None => false end) (all_pids k)
  else bool_decide (is_Some (proc k (wrap 32 pid))).

(** The zombie found is reaped: its identifier and the status word. *)
Definition wait_reap (pid : Z) (k : Kernel) : option (Kernel * (Z * Z)) :=
  c ← find_zombie pid k;
  let '(t, code) := reap_child (k_table k) c in
  Some (set_table t k, (c, Z.shiftl (Z.land (default 0 code) 0xFF) 8)).

(** One round of the blocking loop; [block] is the time off the processor. *)
Definition wait_round (pid : Z) (k : Kernel) : Kernel + (Kernel * result Z (Z * Z)) :=
  let k1 := block k in
  match wait_reap pid k1 with
  | Some (k2, r) => inr (k2, Ok r)
  | None => if negb (has_relevant_children pid k1) then inr (k1, Err ECHILD) else inl k1
  end.

(** [sys_wait4], cut after [fuel] rounds of its loop; [Ok (0, 0)] stands for
    the result 0 with [WNOHANG]. *)
Definition sys_wait4 (fuel : nat) (pid options : Z) (k : Kernel) : Kernel + (Kernel * result Z (Z * Z)) :=
  match wait_reap pid k with
  | Some (k1, r) => inr (k1, Ok r)
  | None =>
      if negb (Z.land options 1 =? 0) then inr (k, Ok (0, 0))
      else if negb (has_relevant_children pid k) then inr (k, Err ECHILD)
      else loop_nat (wait_round pid) fuel k
  end.
End Files.

(** ** Counting descriptors *)

(** The descriptor tables of the processes that have not ended. *)
Definition live_of (t : Table) : gmap Z (gmap Z FileDescriptor) :=
  omap (λ p, if is_zombie p then None else Some (p_fds p)) (procs t).
Definition live_fds (w : World Kernel) : gmap Z (gmap Z FileDescriptor) := live_of (k_table (w_kernel w)).

Definition fd_count (kind : FdKind) (fds : gmap Z FileDescriptor) : Z :=
  Z.of_nat (size (filter (λ e, fd_kind e.2 = kind) fds)).
Definition total_fds (kind : FdKind) (V : gmap Z (gmap Z FileDescriptor)) : Z :=
  map_fold (λ _ fds n, fd_count kind fds + n) 0 V.
(** 1 for equal kinds, else 0. *)
Definition same_kind (a b : FdKind) : Z := if decide (a = b) then 1 else 0.

Lemma fd_count_nonneg kind fds : 0 ≤ fd_count kind fds.
Proof. unfold fd_count. lia. Qed.

Lemma fd_count_insert kind fds n f :
  fds !! n = None → fd_count kind (<[n := f]> fds) = fd_count kind fds + same_kind (fd_kind f) kind.
Proof.
  intros Hn. unfold fd_count, same_kind. case_decide as Hk.
  - rewrite map_filter_insert_True by done. rewrite map_size_insert_None; [lia|].
    apply map_lookup_filter_None. by left.
  - rewrite map_filter_insert_False by done. rewrite delete_id by done. lia.
Qed.

Lemma fd_count_delete kind fds n f :
  fds !! n = Some f → fd_count kind (delete n fds) = fd_count kind fds - same_kind (fd_kind f) kind.
Proof.
  intros Hn. pose proof (fd_count_insert kind (delete n fds) n f ltac:(apply lookup_delete_eq)) as H.
  rewrite insert_delete_id in H by done. lia.
Qed.

Lemma fd_count_replace kind fds n f g :
  fds !! n = Some f →
  fd_count kind (<[n := g]> fds) = fd_count kind fds - same_kind (fd_kind f) kind + same_kind (fd_kind g) kind.
Proof.
  intros Hn. rewrite <- insert_delete_eq. rewrite fd_count_insert by apply lookup_delete_eq.
  by rewrite (fd_count_delete _ _ _ f).
Qed.

Lemma fd_count_pos kind fds : 0 < fd_count kind fds ↔ ∃ n f, fds !! n = Some f ∧ fd_kind f = kind.
Proof.
  unfold fd_count. split.
  - intros Hp. assert (filter (λ e, fd_kind e.2 = kind) fds ≠ ∅) as Hne by (intros He; rewrite He, map_size_empty in Hp; lia).
    apply map_choose in Hne as (n & f & Hf). apply map_lookup_filter_Some in Hf as [??]. by exists n, f.
  - intros (n & f & Hn & Hk). destruct (size _) eqn:E; [|lia]. apply map_size_empty_inv in E.
    assert (filter (λ e, fd_kind e.2 = kind) fds !! n = Some f) as Hf by (by apply map_lookup_filter_Some).
    by rewrite E in Hf.
Qed.

Lemma total_insert kind V i fds :
  V !! i = None → total_fds kind (<[i := fds]> V) = fd_count kind fds + total_fds kind V.
Proof. intros Hi. unfold total_fds. rewrite map_fold_insert_L; [done| |done]. intros. lia. Qed.

Lemma total_delete kind V i fds :
  V !! i = Some fds → total_fds kind (delete i V) = total_fds kind V - fd_count kind fds.
Proof.
  intros Hi. pose proof (total_insert kind (delete i V) i fds ltac:(apply lookup_delete_eq)) as H.
  rewrite insert_delete_id in H by done. lia.
Qed.

Lemma total_update kind V i fds fds' :
  V !! i = Some fds → total_fds kind (<[i := fds']> V) = total_fds kind V - fd_count kind fds + fd_count kind fds'.
Proof.
  intros Hi. rewrite <- insert_delete_eq. rewrite total_insert by apply lookup_delete_eq.
  rewrite (total_delete _ _ _ fds) by done. lia.
Qed.

Lemma total_nonneg kind V : 0 ≤ total_fds kind V.
Proof.
  induction V as [|j g V Hj IH] using map_ind; [done|]. rewrite total_insert by done.
  pose proof (fd_count_nonneg kind g). lia.
Qed.

Lemma total_ge kind V i fds : V !! i = Some fds → fd_count kind fds ≤ total_fds kind V.
Proof. intros Hi. pose proof (total_delete kind V i fds Hi). pose proof (total_nonneg kind (delete i V)). lia. Qed.

Lemma total_zero kind V : total_fds kind V = 0 ↔ ∀ i fds, V !! i = Some fds → fd_count kind fds = 0.
Proof.
  split.
  - intros Ht i fds Hi. pose proof (total_ge kind V i fds Hi). pose proof (fd_count_nonneg kind fds). lia.
  - induction V as [|i fds V Hi IH] using map_ind; intros Hall; [done|].
    rewrite total_insert by done. rewrite (Hall i fds) by apply lookup_insert_eq. apply IH.
    intros j g Hj. apply (Hall j). rewrite lookup_insert_ne; [done|]. intros ->. congruence.
Qed.

(** ** What waking and signalling leave alone *)

(** What descriptors, families and ends of processes depend on. *)
Definition ended (p : Process) : option Z := match p_state p with Zombie c => Some c | _ => None end.
Definition view (p : Process) : Z * Z * gmap Z FileDescriptor * Z * list Z * Z * option Z :=
  (p_ppid p, p_pgid p, p_fds p, p_next_fd p, p_children p, p_exit_code p, ended p).
Definition same_procs (k k' : Kernel) : Prop :=
  current (k_table k') = current (k_table k) ∧ ∀ pid, view <$> proc k' pid = view <$> proc k pid.

#[export] Instance same_procs_preorder : PreOrder same_procs.
Proof.
  split; [by intros k|]. intros k1 k2 k3 [Hc1 H1] [Hc2 H2]. split; [congruence|]. intros pid. by rewrite H2, H1.
Qed.

Lemma is_zombie_ended p : is_zombie p = bool_decide (is_Some (ended p)).
Proof. unfold is_zombie, ended. by destruct (p_state p). Qed.

Lemma live_of_lookup t pid :
  live_of t !! pid = (p ← procs t !! pid; if is_zombie p then None else Some (p_fds p)).
Proof. apply lookup_omap. Qed.

Lemma same_procs_live k k' : same_procs k k' → live_of (k_table k') = live_of (k_table k).
Proof.
  intros [_ H]. apply map_eq. intros pid. rewrite !live_of_lookup. specialize (H pid). unfold proc in H.
  destruct (procs (k_table k') !! pid) as [p'|], (procs (k_table k) !! pid) as [p|]; try done. cbn in H |- *.
  injection H as _ _ Hf _ _ _ He. by rewrite !is_zombie_ended, He, Hf.
Qed.

Lemma same_procs_update k pid f : (∀ p, view (f p) = view p) → same_procs k (update_proc pid f k).
Proof.
  intros Hf. split; [done|]. intros q. rewrite proc_update. case_decide as Hq; [subst|done].
  destruct (proc k pid); [|done]. cbn. by rewrite Hf.
Qed.

Lemma wake_same pid k k' : wake_process pid k = Some k' → same_procs k k'.
Proof.
  unfold wake_process. case_bool_decide as Hs; [|by intros [= <-]].
  destruct (enqueue _ _) as [k1|] eqn:E; [|done]. intros [= <-]. apply enqueue_table in E.
  split; [cbn; by rewrite E|]. intros q. unfold proc. cbn [set_need k_table]. rewrite E. fold (proc (update_proc pid (set_state Runnable) k) q).
  rewrite proc_update. case_decide as Hq; [subst|done]. unfold proc_state in Hs. unfold proc in *.
  destruct (procs (k_table k) !! pid) as [p|]; [|done]. cbn in *. injection Hs as Hs. unfold view, ended. cbn. by rewrite Hs.
Qed.

Lemma kernel_wake_same pid k : same_procs k (kernel_wake pid k).
Proof. unfold kernel_wake. destruct (wake_process pid k) eqn:E; [by apply wake_same in E|done]. Qed.

Lemma sigchld_same may_signal pid k : same_procs k (send_signal may_signal pid SIGCHLD k).
Proof.
  unfold send_signal. repeat case_match; try done. apply same_procs_update. intros p. unfold send_to.
  by destruct (_ && sig_has _ _).
Qed.

(** ** The promise: pipes count their descriptors *)
Definition recorded (kind : FdKind) (w : World Kernel) : Z :=
  match kind with
  | PipeWrite key => match w_pipes w !! key with Some p => writers p | None => 0 end
  | PipeRead key => match w_pipes w !! key with Some p => readers p | None => 0 end
  | _ => 0
  end.
Definition closed_ok (w : World Kernel) : Prop :=
  ∀ key p, w_pipes w !! key = Some p →
    write_closed p = (writers p =? 0) ∧ read_closed p = (readers p =? 0).
(** Every end of every pipe counts the descriptors live processes have on it,
    and is marked closed exactly when there are none. *)
Record refs_ok (w : World Kernel) : Prop := {
  refs_count kind : is_pipe kind = true → recorded kind w = total_fds kind (live_fds w);
  refs_closed : closed_ok w;
}.
(** Room for the counters: they saturate at the largest 64-bit number. *)
Definition refs_room (w : World Kernel) : Prop := ∀ kind, 2 * total_fds kind (live_fds w) < 2 ^ 64 - 1.

Lemma same_kind_refl k : same_kind k k = 1.
Proof. unfold same_kind. by rewrite decide_True. Qed.
Lemma same_kind_ne a b : a ≠ b → same_kind a b = 0.
Proof. intros. unfold same_kind. by rewrite decide_False. Qed.

(** How an operation on a pipe end changes what is recorded. *)
Definition shifts (d : FdKind → Z) (w w' : World Kernel) : Prop :=
  (∀ k, is_pipe k = true → recorded k w' = recorded k w + d k) ∧ closed_ok w' ∧
  same_procs (w_kernel w) (w_kernel w').

Lemma shifts_nil w : closed_ok w → shifts (λ _, 0) w w.
Proof. intros Hc. split_and!; [intros; lia|done|done]. Qed.

Lemma shifts_trans d1 d2 w1 w2 w3 : shifts d1 w1 w2 → shifts d2 w2 w3 → shifts (λ k, d1 k + d2 k) w1 w3.
Proof.
  intros (H1 & _ & S1) (H2 & C2 & S2). split_and!; [|done|by etrans].
  intros k Hk. rewrite H2, H1 by done. lia.
Qed.

Lemma shifts_ext d1 d2 w w' : (∀ k, is_pipe k = true → d1 k = d2 k) → shifts d1 w w' → shifts d2 w w'.
Proof. intros He (H & C & S). split_and!; [|done|done]. intros k Hk. rewrite H, He by done. done. Qed.

(** Replacing one pipe by another with given counters. *)
Lemma shifts_set_pipe key p p' w w' d :
  w_pipes w !! key = Some p → w_pipes w' = <[key := p']> (w_pipes w) → same_procs (w_kernel w) (w_kernel w') →
  closed_ok w → write_closed p' = (writers p' =? 0) → read_closed p' = (readers p' =? 0) →
  writers p' = writers p + d (PipeWrite key) → readers p' = readers p + d (PipeRead key) →
  (∀ k, k ≠ PipeWrite key → k ≠ PipeRead key → d k = 0) → shifts d w w'.
Proof.
  intros Hp Hw HS Hc Hcw Hcr Hdw Hdr Hd. split_and!; [|intros j q|done].
  - intros k Hk. destruct k as [| |j|j| | | | | |]; try done; unfold recorded; rewrite Hw;
      (destruct (decide (j = key)) as [->|Hne];
       [rewrite lookup_insert_eq, Hp; lia|rewrite lookup_insert_ne, Hd by congruence; lia]).
  - rewrite Hw. destruct (decide (j = key)) as [->|Hne].
    + rewrite lookup_insert_eq. by intros [= <-].
    + rewrite lookup_insert_ne by done. apply Hc.
Qed.

(** A pipe end somebody has a descriptor on belongs to a pipe. *)
Lemma recorded_pipe kind w :
  0 < recorded kind w → ∃ key p, w_pipes w !! key = Some p ∧
    (kind = PipeWrite key ∧ recorded kind w = writers p ∨ kind = PipeRead key ∧ recorded kind w = readers p).
Proof.
  destruct kind as [| |key|key| | | | | |]; cbn; try lia;
    destruct (w_pipes w !! key) as [p|] eqn:E; try lia; intros _; exists key, p; auto.
Qed.

Section Ends.
Variable may_signal : Z → Z → Z → bool.
Variable block : Kernel → Kernel.
#[local] Instance ends_scheduler : Scheduler Kernel := kernel_scheduler may_signal block.

Lemma pipe_dup_inc_shifts kind w :
  closed_ok w → (is_pipe kind = true → 0 < recorded kind w < 2 ^ 64 - 1) →
  shifts (same_kind kind) w (pipe_dup_inc kind w).
Proof.
  intros Hc Hr. destruct (is_pipe kind) eqn:Hk.
  - specialize (Hr eq_refl). destruct (recorded_pipe kind w) as (key & p & Hp & [[-> He]|[-> He]]); [lia|..];
      rewrite He in Hr; destruct (Hc key p Hp) as [Hw Hrd]; cbn [pipe_dup_inc]; unfold the_pipe; rewrite Hp; cbn [default id];
      (eapply (shifts_set_pipe key p); [done|done|done|done|..]);
      unfold dup_write, dup_read, sat_add; cbn [writers readers write_closed read_closed];
      rewrite ?same_kind_refl, ?(same_kind_ne (PipeWrite key) (PipeRead key)), ?(same_kind_ne (PipeRead key) (PipeWrite key)) by done;
      rewrite ?Hw, ?Hrd; try lia; intros k H1 H2; apply same_kind_ne; congruence.
  - replace (pipe_dup_inc kind w) with w by (by destruct kind). eapply shifts_ext; [|by apply shifts_nil].
    intros k Hk'. symmetry. apply same_kind_ne. intros ->. congruence.
Qed.

Lemma wake_all_same pids k : same_procs k (wake_all pids k).
Proof. revert k. induction pids as [|q pids IH]; intros k; [done|]. etrans; [apply (kernel_wake_same q)|apply IH]. Qed.

Lemma wake_readers_same key w :
  w_pipes (wake_readers key w) = w_pipes w ∧ same_procs (w_kernel w) (w_kernel (wake_readers key w)).
Proof. unfold wake_readers. destruct (w_waiters w !! key) as [[rs ws]|]; [|done]. split; [done|]. apply wake_all_same. Qed.
Lemma wake_writers_same key w :
  w_pipes (wake_writers key w) = w_pipes w ∧ same_procs (w_kernel w) (w_kernel (wake_writers key w)).
Proof. unfold wake_writers. destruct (w_waiters w !! key) as [[rs ws]|]; [|done]. split; [done|]. apply wake_all_same. Qed.

Lemma close_kind_shifts kind w :
  closed_ok w → (is_pipe kind = true → 0 < recorded kind w) →
  shifts (λ k, - same_kind kind k) w (close_kind may_signal block kind w).
Proof.
  intros Hc Hr. destruct (is_pipe kind) eqn:Hk.
  - specialize (Hr eq_refl). destruct (recorded_pipe kind w) as (key & p & Hp & [[-> He]|[-> He]]); [lia|..];
      rewrite He in Hr; destruct (Hc key p Hp) as [Hw Hrd]; cbn [close_kind]; unfold pipe_close_write, pipe_close_read, the_pipe;
      rewrite Hp; cbn [default id].
    + destruct (wake_readers_same key (set_pipe key (close_write p) w)) as [Hpi Hs].
      eapply (shifts_set_pipe key p (close_write p));
        [done|destruct (_ && _); apply Hpi|destruct (_ && _); apply Hs|done|..]; cbn [close_write writers readers write_closed read_closed];
        rewrite ?same_kind_refl, ?(same_kind_ne (PipeWrite key) (PipeRead key)) by done;
        destruct (Z.ltb_spec 0 (writers p)); try lia.
      * rewrite Hw. destruct (Z.eqb_spec (writers p - 1) 0), (Z.eqb_spec (writers p) 0); done || lia.
      * done.
      * intros k H1 H2. rewrite same_kind_ne by congruence. done.
    + destruct (wake_writers_same key (set_pipe key (close_read p) w)) as [Hpi Hs].
      eapply (shifts_set_pipe key p (close_read p));
        [done|destruct (_ && _); apply Hpi|destruct (_ && _); apply Hs|done|..]; cbn [close_read writers readers write_closed read_closed];
        rewrite ?same_kind_refl, ?(same_kind_ne (PipeRead key) (PipeWrite key)) by done;
        destruct (Z.ltb_spec 0 (readers p)); try lia.
      * done.
      * rewrite Hrd. destruct (Z.eqb_spec (readers p - 1) 0), (Z.eqb_spec (readers p) 0); done || lia.
      * intros k H1 H2. rewrite same_kind_ne by congruence. done.
  - replace (close_kind may_signal block kind w) with w by (by destruct kind). eapply shifts_ext; [|by apply shifts_nil].
    intros k Hk'. rewrite same_kind_ne; [done|]. intros ->. congruence.
Qed.
End Ends.

(** ** Keeping the promise *)

(** The promise up to a difference [d], in the middle of an operation. *)
Definition refs_off (d : FdKind → Z) (w : World Kernel) : Prop :=
  (∀ k, is_pipe k = true → total_fds k (live_fds w) = recorded k w + d k) ∧ closed_ok w.

Lemma refs_off_0 w : refs_ok w ↔ refs_off (λ _, 0) w.
Proof. split; [intros [H C]|intros [H C]]; split; try done; intros k Hk; rewrite (H k Hk); lia. Qed.

Lemma refs_off_shift d e w w' : refs_off d w → shifts e w w' → refs_off (λ k, d k - e k) w'.
Proof.
  intros [H _] (S & C & P). split; [|done]. intros k Hk. unfold live_fds in *. rewrite (same_procs_live _ _ P).
  rewrite S, H by done. lia.
Qed.

Lemma refs_off_update d e w w' :
  refs_off d w → w_pipes w' = w_pipes w →
  (∀ k, is_pipe k = true → total_fds k (live_fds w') = total_fds k (live_fds w) + e k) → refs_off (λ k, d k + e k) w'.
Proof.
  intros [H C] Hp He. split.
  - intros k Hk. rewrite He, H by done. assert (recorded k w' = recorded k w) as ->; [|lia].
    destruct k; try done; unfold recorded; by rewrite Hp.
  - intros key p. rewrite Hp. apply C.
Qed.

Lemma refs_off_ext d e w : refs_off d w → (∀ k, is_pipe k = true → d k = e k) → refs_off e w.
Proof. intros [H C] He. split; [|done]. intros k Hk. rewrite H, He by done. done. Qed.

(** The process that makes the calls is there and alive. *)
Definition alive (w : World Kernel) (p : Process) : Prop := cur_proc w = Some p ∧ is_zombie p = false.

Lemma live_lookup w pid p : proc (w_kernel w) pid = Some p → is_zombie p = false → live_fds w !! pid = Some (p_fds p).
Proof. intros Hp Hz. unfold live_fds. rewrite live_of_lookup. unfold proc in Hp. rewrite Hp. cbn. by rewrite Hz. Qed.

Lemma live_update w pid p f :
  proc (w_kernel w) pid = Some p → is_zombie p = false → is_zombie (f p) = false →
  live_fds (on_kernel (update_proc pid f) w) = <[pid := p_fds (f p)]> (live_fds w).
Proof.
  intros Hp Hz Hz'. apply map_eq. intros q. unfold live_fds. rewrite live_of_lookup.
  change (procs (k_table (w_kernel (on_kernel (update_proc pid f) w))) !! q) with (proc (update_proc pid f (w_kernel w)) q).
  rewrite proc_update. case_decide as Hq; [subst q|].
  - rewrite Hp. cbn. by rewrite Hz', lookup_insert_eq.
  - rewrite lookup_insert_ne by done. by rewrite live_of_lookup.
Qed.

(** An update of the caller that keeps it alive changes the totals by what it
    changes in the descriptor table. *)
Lemma refs_update_cur d w p f :
  refs_off d w → alive w p → is_zombie (f p) = false →
  refs_off (λ k, d k + (fd_count k (p_fds (f p)) - fd_count k (p_fds p))) (update_cur f w).
Proof.
  intros Hoff [Hp Hz] Hz'. apply (refs_off_update d _ w); [done|done|]. intros k _. unfold update_cur.
  rewrite (live_update w (cur w) p f Hp Hz Hz'). rewrite (total_update k _ _ (p_fds p)) by by apply live_lookup. lia.
Qed.

Lemma alive_update w p f : alive w p → is_zombie (f p) = false → alive (update_cur f w) (f p).
Proof.
  intros [Hp Hz] Hz'. split; [|done]. unfold cur_proc, update_cur, cur in *. cbn [on_kernel set_kernel w_kernel].
  change (current (k_table (update_proc (current (k_table (w_kernel w))) f (w_kernel w)))) with (current (k_table (w_kernel w))).
  rewrite proc_update, decide_True by done. by rewrite Hp.
Qed.

(** What is left of the caller after others were woken. *)
Lemma alive_same w w' p :
  alive w p → same_procs (w_kernel w) (w_kernel w') → ∃ p', alive w' p' ∧ view p' = view p ∧ cur w' = cur w.
Proof.
  intros [Hp Hz] [Hc Hv]. unfold alive, cur_proc, cur in *. rewrite Hc. specialize (Hv (current (k_table (w_kernel w)))). rewrite Hp in Hv.
  destruct (proc (w_kernel w') _) as [p'|]; [|done]. apply (inj Some) in Hv. exists p'. split_and!; [done| |done|done].
  rewrite is_zombie_ended in *. unfold view in Hv. by injection Hv as _ _ _ _ _ _ ->.
Qed.

Lemma live_recorded w p n f :
  refs_ok w → alive w p → get_fd p n = Some f → is_pipe (fd_kind f) = true → 0 < recorded (fd_kind f) w.
Proof.
  intros [H _] [Hp Hz] Hf Hk. rewrite H by done. pose proof (total_ge (fd_kind f) _ _ _ (live_lookup w _ p Hp Hz)).
  assert (0 < fd_count (fd_kind f) (p_fds p)); [|lia]. apply fd_count_pos. by exists n, f.
Qed.

Lemma alloc_fd_free fuel f p p' n :
  alloc_fd fuel f p = Some (p', n) → p_fds p !! n = None ∧ p_fds p' = <[n := f]> (p_fds p) ∧ p_state p' = p_state p.
Proof.
  unfold alloc_fd. destruct (loop_nat _ _ _) as [|m] eqn:E; [done|]. intros [= <- <-]. split; [|done].
  revert E. generalize (p_next_fd p). induction fuel as [|fuel IH]; intros s; [done|]. rewrite loop_nat_S.
  unfold alloc_fd_round at 1. case_decide as Hs; [apply IH|]. intros [= ->]. by apply eq_None_not_Some.
Qed.

Lemma is_zombie_state p p' : p_state p' = p_state p → is_zombie p' = is_zombie p.
Proof. unfold is_zombie. by intros ->. Qed.

Section Keep.
Variable may_signal : Z → Z → Z → bool.
Variable block : Kernel → Kernel.
Variable ncpus : Z.
#[local] Instance keep_scheduler : Scheduler Kernel := kernel_scheduler may_signal block.

Lemma cur_fd_alive fd w p : alive w p → cur_fd fd w = get_fd p (wrap 32 fd).
Proof. intros [Hp _]. unfold cur_fd. by rewrite Hp. Qed.

Lemma sys_close_refs fd w p : refs_ok w → alive w p → refs_ok (sys_close may_signal block fd w).1.
Proof.
  intros Hok Ha. pose proof Hok as Hoff. rewrite refs_off_0 in Hoff. unfold sys_close. rewrite (cur_fd_alive fd w p Ha). destruct Ha as [Hp Hz] eqn:Ea.
  rewrite Hp. cbn [close_fd snd fst]. unfold get_fd. destruct (p_fds p !! wrap 32 fd) as [f|] eqn:Ef; cbn [negb fmap option_fmap option_map fst].
  - set (w1 := update_cur _ w).
    assert (refs_off (λ k, 0 + (fd_count k (delete (wrap 32 fd) (p_fds p)) - fd_count k (p_fds p))) w1) as H1
      by (by apply (refs_update_cur _ w p (λ p, (close_fd (wrap 32 fd) p).1))).
    apply refs_off_0. eapply refs_off_ext; [eapply refs_off_shift; [exact H1|]|].
    + apply close_kind_shifts; [apply H1|]. intros Hk. assert (recorded (fd_kind f) w1 = recorded (fd_kind f) w) as -> by done.
      by apply (live_recorded w p (wrap 32 fd)).
    + intros k Hk. cbn. rewrite (fd_count_delete _ _ _ f) by done. lia.
  - apply refs_off_0. eapply refs_off_ext; [by apply (refs_update_cur (λ _, 0) w p (λ p, (close_fd (wrap 32 fd) p).1))|].
    intros k Hk. cbn. rewrite delete_id by done. lia.
Qed.

(** After [alloc_fd] the caller has one descriptor more. *)
Lemma cur_alloc_fd_off d f w p w' n :
  refs_off d w → alive w p → cur_alloc_fd f w = Some (w', n) →
  refs_off (λ k, d k + same_kind (fd_kind f) k) w' ∧ w_pipes w' = w_pipes w ∧
  ∃ p', alive w' p' ∧ p_fds p !! n = None ∧ p_fds p' = <[n := f]> (p_fds p) ∧
    cur w' = cur w ∧ live_fds w' = <[cur w := p_fds p']> (live_fds w).
Proof.
  intros Hoff Ha. unfold cur_alloc_fd. destruct Ha as [Hp Hz] eqn:Ea. rewrite Hp. cbn [mbind option_bind].
  destruct (alloc_fd FD_FUEL f p) as [[p' m]|] eqn:E; [|done]. cbn [mbind option_bind]. intros [= <- <-].
  apply alloc_fd_free in E as (Hfree & Hfds & Hst). pose proof (is_zombie_state p p' Hst) as Hz'. rewrite Hz in Hz'.
  split_and!; [|done|].
  - eapply refs_off_ext; [by apply (refs_update_cur d w p (λ _, p'))|]. intros k Hk. cbn. rewrite Hfds, fd_count_insert by done. lia.
  - exists p'. split; [by apply (alive_update w p (λ _, p'))|]. split_and!; [done..|].
    by apply (live_update w (cur w) p (λ _, p')).
Qed.

Lemma dup_fd_refs fd w p w' r :
  refs_ok w → refs_room w → alive w p → dup_fd fd w = Some (w', r) →
  refs_ok w' ∧ match r with
               | Ok n => ∃ f p', get_fd p (wrap 32 fd) = Some f ∧ alive w' p' ∧ p_fds p !! n = None ∧
                   p_fds p' = <[n := f]> (p_fds p) ∧ cur w' = cur w ∧ live_fds w' = <[cur w := p_fds p']> (live_fds w)
               | Err e => w' = w ∧ e = EBADF ∧ get_fd p (wrap 32 fd) = None
               end.
Proof.
  intros Hok Hroom Ha. pose proof Hok as Hoff. rewrite refs_off_0 in Hoff. unfold dup_fd. rewrite (cur_fd_alive fd w p Ha).
  destruct (get_fd p (wrap 32 fd)) as [f|] eqn:Ef; [|by intros [= <- <-]].
  destruct (cur_alloc_fd f w) as [[w1 n]|] eqn:E; [|done]. cbn [mbind option_bind]. intros [= <- <-].
  destruct (cur_alloc_fd_off _ f w p w1 n Hoff Ha E) as (H1 & Hpi & p' & Ha' & Hfree & Hfds & Hcu & Hli).
  assert (shifts (same_kind (fd_kind f)) w1 (pipe_dup_inc (fd_kind f) w1)) as HS.
  { apply pipe_dup_inc_shifts; [apply H1|]. intros Hk.
    assert (recorded (fd_kind f) w1 = recorded (fd_kind f) w) as -> by (destruct (fd_kind f); try done; unfold recorded; by rewrite Hpi).
    split; [by apply (live_recorded w p (wrap 32 fd))|]. rewrite (refs_count w Hok) by done. specialize (Hroom (fd_kind f)).
    pose proof (total_nonneg (fd_kind f) (live_fds w)). lia. }
  split.
  - apply refs_off_0. eapply refs_off_ext; [eapply refs_off_shift; [exact H1|exact HS]|]. intros k Hk. cbn. lia.
  - exists f. assert (w_kernel (pipe_dup_inc (fd_kind f) w1) = w_kernel w1) as Hk by (by destruct (fd_kind f)).
    exists p'. split; [done|]. unfold alive, cur_proc, live_fds, cur in *. by rewrite Hk.
Qed.

(** Changes of flags keep the promise. *)
Lemma fd_count_alter k g n fds :
  (∀ f, fd_kind (g f) = fd_kind f) → fd_count k (alter g n fds) = fd_count k fds.
Proof.
  intros Hg. destruct (fds !! n) as [f|] eqn:E.
  - rewrite (alter_alt_Some g fds n f) by done. rewrite (fd_count_replace _ _ _ f) by done. rewrite Hg. lia.
  - assert (alter g n fds = fds) as ->; [|done]. apply map_eq. intros j. destruct (decide (n = j)) as [<-|];
      [by rewrite lookup_alter_eq, E|by rewrite lookup_alter_ne].
Qed.

Lemma set_flag_refs g n w p :
  refs_ok w → alive w p → (∀ f, fd_kind (g f) = fd_kind f) → refs_ok (update_cur (get_fd_mut_op n g) w).
Proof.
  intros Hok Ha Hg. apply refs_off_0. eapply refs_off_ext.
  - apply (refs_update_cur (λ _, 0) w p (get_fd_mut_op n g)); [by apply refs_off_0|done|by apply Ha].
  - intros k _. cbn. rewrite fd_count_alter by done. lia.
Qed.

Lemma fd_count_two k fds m n f g :
  m ≠ n → fds !! m = Some f → fds !! n = Some g → fd_kind f = k → same_kind (fd_kind g) k + 1 ≤ fd_count k fds.
Proof.
  intros Hne Hm Hn Hk. pose proof (fd_count_delete k fds n g Hn) as Hd.
  assert (0 < fd_count k (delete n fds)); [|lia]. apply fd_count_pos. exists m, f. by rewrite lookup_delete_ne.
Qed.

(** Closing what [dup2] replaces; [n] is the descriptor replaced, [src] the
    one copied. *)
Lemma close_old_off w p m n src :
  refs_ok w → alive w p → m ≠ n → p_fds p !! m = Some src →
  let w1 := match p_fds p !! n with Some f => close_kind may_signal block (fd_kind f) w | None => w end in
  let gone k := match p_fds p !! n with Some f => same_kind (fd_kind f) k | None => 0 end in
  refs_off gone w1 ∧ (is_pipe (fd_kind src) = true → 0 < recorded (fd_kind src) w1 ≤ recorded (fd_kind src) w) ∧
  ∃ p1, alive w1 p1 ∧ view p1 = view p.
Proof.
  intros Hok Ha Hne Hsrc. cbn zeta. pose proof (live_recorded w p m src Hok Ha Hsrc) as Hpos.
  destruct (p_fds p !! n) as [f|] eqn:En; [|split_and!; [by apply refs_off_0|intros; split; [eauto|lia]|by exists p]].
  pose proof (close_kind_shifts may_signal block (fd_kind f) w (refs_closed w Hok) (live_recorded w p n f Hok Ha En)) as HS.
  split_and!.
  - eapply refs_off_ext; [eapply refs_off_shift; [by apply refs_off_0|exact HS]|]. intros. cbn. lia.
  - intros Hk. destruct HS as (HS & _ & _). rewrite HS by done.
    pose proof (fd_count_two _ _ m n src f Hne Hsrc En eq_refl). rewrite (refs_count w Hok) by done.
    pose proof (total_ge (fd_kind src) _ _ _ (live_lookup w _ p (proj1 Ha) (proj2 Ha))). unfold same_kind in *. case_decide; lia.
  - destruct HS as (_ & _ & HP). destruct (alive_same w _ p Ha HP) as (p1 & ? & ? & _). by exists p1.
Qed.

Lemma sys_dup2_refs old new w p :
  refs_ok w → refs_room w → alive w p → wrap 32 old ≠ wrap 32 new ∨ old = new →
  refs_ok (sys_dup2 may_signal block old new w).1 ∧ ∃ p', alive (sys_dup2 may_signal block old new w).1 p'.
Proof.
  intros Hok Hroom Ha Hneq. unfold sys_dup2. destruct (Z.eqb_spec old new) as [|Hne]; [by eauto|].
  assert (wrap 32 old ≠ wrap 32 new) as Hw by (by destruct Hneq). clear Hneq.
  rewrite !(cur_fd_alive _ w p Ha). destruct (get_fd p (wrap 32 old)) as [src|] eqn:Es; [|by eauto]. cbn [fst].
  destruct (close_old_off w p _ _ src Hok Ha Hw Es) as (H1 & Hr & p1 & Ha1 & Hv1). unfold get_fd.
  set (w1 := match p_fds p !! wrap 32 new with Some _ => _ | None => _ end) in *.
  set (g := λ p, (alloc_fd_at (wrap 32 new) src p).1). set (w2 := update_cur g w1).
  pose proof (refs_update_cur _ w1 p1 g H1 Ha1 (proj2 Ha1)) as H2. fold w2 in H2.
  assert (shifts (same_kind (fd_kind src)) w2 (pipe_dup_inc (fd_kind src) w2)) as HS.
  { apply pipe_dup_inc_shifts; [apply H2|]. intros Hk. change (recorded (fd_kind src) w2) with (recorded (fd_kind src) w1).
    specialize (Hr Hk). rewrite (refs_count w Hok) in Hr by done. specialize (Hroom (fd_kind src)). lia. }
  split.
  - apply refs_off_0. eapply refs_off_ext; [eapply refs_off_shift; [exact H2|exact HS]|]. intros k _. cbn.
    assert (p_fds p1 = p_fds p) as -> by (by injection Hv1). destruct (p_fds p !! wrap 32 new) as [f|] eqn:En.
    + rewrite (fd_count_replace _ _ _ f) by done. lia.
    + rewrite fd_count_insert by done. lia.
  - destruct HS as (_ & _ & HP). destruct (alive_same w2 _ (g p1) (alive_update w1 p1 g Ha1 (proj2 Ha1)) HP) as (p' & ? & _). eauto.
Qed.

Lemma sys_dup3_refs old new flags w p :
  refs_ok w → refs_room w → alive w p → wrap 32 old ≠ wrap 32 new ∨ old = new →
  refs_ok (sys_dup3 may_signal block old new flags w).1.
Proof.
  intros Hok Hroom Ha Hne. unfold sys_dup3. destruct (Z.eqb_spec old new); [done|].
  destruct (sys_dup2_refs old new w p Hok Hroom Ha Hne) as [H1 [p' Ha']]. destruct (sys_dup2 _ _ old new w) as [w1 r].
  destruct (_ && _); [|done]. cbn [fst] in *. by apply (set_flag_refs _ _ w1 p').
Qed.

Lemma sys_fcntl_refs fd cmd arg w p w' r :
  refs_ok w → refs_room w → alive w p → sys_fcntl fd cmd arg w = Some (w', r) → refs_ok w'.
Proof.
  intros Hok Hroom Ha. unfold sys_fcntl. destruct (_ || (cmd =? 1030)).
  { destruct (dup_fd fd w) as [[w1 [n|e]]|] eqn:E; [| |done]; cbn [mbind option_bind].
    - destruct (dup_fd_refs fd w p w1 (Ok n) Hok Hroom Ha E) as [H1 (f & p' & _ & Ha' & _)]. intros [= <- _].
      destruct (cmd =? 1030); [|done]. by apply (set_flag_refs _ _ w1 p').
    - intros [= <- _]. by destruct (dup_fd_refs fd w p w1 (Err e) Hok Hroom Ha E) as [H1 _]. }
  destruct (cmd =? 1); [by intros [= <- _]|].
  destruct (cmd =? 2); [intros [= <- _]; apply (set_flag_refs _ _ w p); [done..|]; intros f; by destruct (negb _)|].
  destruct (cmd =? 3); [by intros [= <- _]|].
  destruct (cmd =? 4); [intros [= <- _]; by apply (set_flag_refs _ _ w p)|].
  by destruct (_ || (cmd =? 9)); intros [= <- _].
Qed.
End Keep.

(** ** New pipes *)
Definition unused (key : Z) (w : World Kernel) : Prop :=
  total_fds (PipeRead key) (live_fds w) = 0 ∧ total_fds (PipeWrite key) (live_fds w) = 0.

Lemma install_pipe_refs key r wr w p w' n fds :
  refs_ok w → alive w p → unused key w → fd_kind r = PipeRead key → fd_kind wr = PipeWrite key →
  install_pipe key r wr w = Some (w', n, fds) →
  refs_ok w' ∧ n = 0 ∧ ∃ rfd wfd p', fds = Some (rfd, wfd) ∧ alive w' p' ∧ rfd ≠ wfd ∧
    p_fds p !! rfd = None ∧ p_fds p !! wfd = None ∧ p_fds p' = <[wfd := wr]> (<[rfd := r]> (p_fds p)) ∧
    w_pipes w' !! key = Some pipe_new.
Proof.
  intros Hok Ha [Hur Huw] Hkr Hkw. unfold install_pipe. set (w1 := set_pipe key pipe_new w).
  assert (refs_off (λ k, - (same_kind (PipeRead key) k + same_kind (PipeWrite key) k)) w1) as H1.
  { split.
    - intros k Hk. change (live_fds w1) with (live_fds w).
      destruct k as [| |j|j| | | | | |]; try done; unfold recorded, w1; cbn [set_pipe w_pipes];
        (destruct (decide (j = key)) as [->|Hne];
         [rewrite lookup_insert_eq, same_kind_refl, same_kind_ne by done; cbn [pipe_new readers writers]; lia|
          rewrite lookup_insert_ne, !same_kind_ne by congruence; rewrite <-(refs_count w Hok) by done; cbn; lia]).
    - intros j q. cbn [w1 set_pipe w_pipes]. destruct (decide (j = key)) as [->|Hne].
      + rewrite lookup_insert_eq. by intros [= <-].
      + rewrite lookup_insert_ne by done. apply (refs_closed w Hok). }
  assert (alive w1 p) as Ha1 by done. destruct (cur_proc w1) as [q|] eqn:Eq; [|by destruct Ha1; congruence].
  destruct (cur_alloc_fd r w1) as [[w2 rfd]|] eqn:E2; [|done]. cbn [mbind option_bind].
  destruct (cur_alloc_fd wr w2) as [[w3 wfd]|] eqn:E3; [|done]. cbn [mbind option_bind]. intros [= <- <- <-].
  destruct (cur_alloc_fd_off _ r w1 p w2 rfd H1 Ha1 E2) as (H2 & Hp2 & p2 & Ha2 & Hf2 & Hd2 & _).
  destruct (cur_alloc_fd_off _ wr w2 p2 w3 wfd H2 Ha2 E3) as (H3 & Hp3 & p3 & Ha3 & Hf3 & Hd3 & _). rewrite Hd2 in Hf3, Hd3.
  apply lookup_insert_None in Hf3 as [Hf3 Hne]. split; [|split; [done|]].
  - apply refs_off_0. eapply refs_off_ext; [exact H3|]. intros k _. cbn. rewrite Hkr, Hkw. lia.
  - exists rfd, wfd, p3. split; [done|]. split; [done|]. split_and!; try done.
    rewrite Hp3, Hp2. apply lookup_insert_eq.
Qed.

Lemma new_pipe2_kinds key ino flags :
  fd_kind (new_pipe2 key ino flags).1 = PipeRead key ∧ fd_kind (new_pipe2 key ino flags).2 = PipeWrite key.
Proof. unfold new_pipe2, new_pipe. by destruct (negb _), (negb _). Qed.

(** ** Fork *)
Definition list_count (k : FdKind) (fs : list FileDescriptor) : Z := foldr (λ f n, same_kind (fd_kind f) k + n) 0 fs.

Lemma list_count_cons k f fs : list_count k (f :: fs) = same_kind (fd_kind f) k + list_count k fs.
Proof. done. Qed.

#[export] Instance list_count_perm k : Proper ((≡ₚ) ==> (=)) (list_count k).
Proof. intros l1 l2 H. induction H; rewrite ?list_count_cons; lia. Qed.

Lemma fd_values_perm fds : fd_values fds ≡ₚ (map_to_list fds).*2.
Proof. unfold fd_values. by rewrite merge_sort_Permutation. Qed.

Lemma list_count_values k fds : list_count k (fd_values fds) = fd_count k fds.
Proof.
  rewrite fd_values_perm. induction fds as [|n f fds Hn IH] using map_ind; [done|].
  rewrite map_to_list_insert by done. rewrite fmap_cons, list_count_cons. cbn [snd]. rewrite IH, fd_count_insert by done. lia.
Qed.

Lemma list_count_nonneg k fs : 0 ≤ list_count k fs.
Proof. induction fs as [|f fs IH]; [done|]. rewrite list_count_cons. unfold same_kind. case_decide; lia. Qed.

Lemma dup_all_shifts fs w :
  closed_ok w → (∀ f, f ∈ fs → is_pipe (fd_kind f) = true → 0 < recorded (fd_kind f) w) →
  (∀ k, is_pipe k = true → recorded k w + list_count k fs < 2 ^ 64 - 1) →
  shifts (λ k, list_count k fs) w (foldl (λ w f, pipe_dup_inc (fd_kind f) w) w fs).
Proof.
  revert w. induction fs as [|f fs IH]; intros w Hc Hpos Hroom; cbn [foldl]; [by apply shifts_nil|].
  assert (shifts (same_kind (fd_kind f)) w (pipe_dup_inc (fd_kind f) w)) as H1.
  { apply pipe_dup_inc_shifts; [done|]. intros Hk. split; [by apply Hpos; [left|]|].
    specialize (Hroom _ Hk). rewrite list_count_cons, same_kind_refl in Hroom. pose proof (list_count_nonneg (fd_kind f) fs). lia. }
  assert (shifts (λ k, list_count k fs) (pipe_dup_inc (fd_kind f) w) (foldl (λ w f, pipe_dup_inc (fd_kind f) w) (pipe_dup_inc (fd_kind f) w) fs)) as H2.
  { destruct H1 as (H1 & C1 & _). apply IH; [done| |].
    - intros g Hg Hk. rewrite H1 by done. specialize (Hpos g ltac:(by right) Hk). unfold same_kind. case_decide; lia.
    - intros k Hk. rewrite H1 by done. specialize (Hroom k Hk). rewrite list_count_cons in Hroom. lia. }
  eapply shifts_ext; [|eapply shifts_trans; [exact H1|exact H2]]. done.
Qed.

Lemma dup_all_kernel fs w : w_kernel (foldl (λ w f, pipe_dup_inc (fd_kind f) w) w fs) = w_kernel w.
Proof. revert w. induction fs as [|f fs IH]; intros w; [done|]. cbn. rewrite IH. by destruct (fd_kind f). Qed.

Lemma alloc_pid_free t t' pid :
  alloc_pid t = (t', Some pid) → procs t !! pid = None ∧ procs t' = procs t ∧ current t' = current t.
Proof.
  unfold alloc_pid. rewrite loop_pos_nat. generalize (Pos.to_nat 65536). intros n.
  pose proof (loop_nat_inv (alloc_pid_round (procs t) (next_pid t)) (λ _, True)
    (λ r, match r.1 with Some pid => procs t !! pid = None | None => True end)) as H.
  specialize (H ltac:(done)). specialize (H ltac:(intros s r _; unfold alloc_pid_round; case_decide as Hs; [by case_match; intros [= <-]|];
    intros [= <-]; cbn; by apply eq_None_not_Some) n (next_pid t) I).
  destruct (loop_nat _ _ _) as [s|[r next]]; [done|]. intros [= <- ->]. done.
Qed.

Lemma alloc_pid_procs t : procs (alloc_pid t).1 = procs t ∧ current (alloc_pid t).1 = current t.
Proof. unfold alloc_pid. by destruct (loop_pos _ _ _) as [|[]]. Qed.

Lemma live_of_insert t c q n cu :
  is_zombie q = false → live_of (mkTable (<[c := q]> (procs t)) n cu) = <[c := p_fds q]> (live_of t).
Proof.
  intros Hz. apply map_eq. intros j. rewrite live_of_lookup. cbn [procs]. destruct (decide (c = j)) as [<-|Hne].
  - rewrite !lookup_insert_eq. cbn. by rewrite Hz.
  - rewrite !lookup_insert_ne by done. by rewrite live_of_lookup.
Qed.

(** What [fork_current] does for a live caller, when it succeeds and when it
    fails. *)
Lemma fork_spec as_ok w p :
  refs_ok w → refs_room w → alive w p →
  let '(w', r) := fork_current as_ok w in
  refs_ok w' ∧ cur w' = cur w ∧ k_rqs (w_kernel w') = k_rqs (w_kernel w) ∧
  match r with
  | Some c => proc (w_kernel w) c = None ∧ live_fds w' = <[c := p_fds p]> (live_fds w) ∧
      proc (w_kernel w') c = Some (child_of p c (cur w)) ∧
      proc (w_kernel w') (cur w) = Some (set_children (p_children p ++ [c]) p)
  | None => live_fds w' = live_fds w
  end.
Proof.
  intros Hok Hroom Ha. unfold fork_current. pose proof (alloc_pid_procs (k_table (w_kernel w))) as [Hps Hcu].
  destruct (alloc_pid (k_table (w_kernel w))) as [t1 opid] eqn:Eal. cbn [fst] in Hps, Hcu. set (w1 := on_kernel (set_table t1) w).
  assert (live_fds w1 = live_fds w) as Hl1 by (unfold live_fds, w1, live_of; cbn; by rewrite Hps).
  assert (refs_ok w1) as Hok1 by (destruct Hok as [H C]; split; [intros k Hk; rewrite Hl1; by apply H|done]).
  assert (cur w1 = cur w) as Hc1 by exact Hcu.
  destruct opid as [c|]; [|by split_and!]. apply alloc_pid_free in Eal as (Hfree & _ & _).
  destruct Ha as [Hp Hz] eqn:Ea. unfold cur_proc, proc, cur in Hp. unfold cur. rewrite Hps, Hp. destruct as_ok; cbn [negb]; [|by split_and!].
  set (cu := current (k_table (w_kernel w))) in *. set (w2 := foldl _ w1 _). set (g := λ p, set_children (p_children p ++ [c]) p).
  set (w3 := on_kernel (update_proc cu g) w2).
  assert (proc (w_kernel w1) cu = Some p) as Hp1 by (unfold proc, w1; cbn; by rewrite Hps).
  assert (shifts (λ k, list_count k (fd_values (p_fds p))) w1 w2) as HS.
  { apply dup_all_shifts; [apply Hok1| |].
    - intros f Hf Hk. rewrite fd_values_perm in Hf. apply list_elem_of_fmap in Hf as ([n f'] & -> & Hin). apply elem_of_map_to_list in Hin.
      apply (live_recorded w p n f' Hok (conj Hp Hz) Hin Hk).
    - intros k Hk. rewrite list_count_values. rewrite (refs_count w1 Hok1) by done. rewrite Hl1. specialize (Hroom k).
      pose proof (total_ge k _ _ _ (live_lookup w cu p Hp Hz)). lia. }
  assert (w_kernel w2 = w_kernel w1) as Hk2 by apply dup_all_kernel.
  assert (live_fds w3 = live_fds w) as Hl3.
  { unfold w3. rewrite (live_update w2 cu p g) by (rewrite ?Hk2; done). unfold live_fds at 1. rewrite Hk2. fold (live_fds w1). rewrite Hl1.
    apply insert_id. exact (live_lookup w cu p Hp Hz). }
  set (w4 := on_kernel _ w3). assert (live_fds w4 = <[c := p_fds p]> (live_fds w)) as Hl4.
  { rewrite <-Hl3. unfold live_fds at 1, w4. cbn [on_kernel set_kernel w_kernel set_table k_table]. by rewrite live_of_insert. }
  assert (c ≠ cu) as Hne by congruence.
  split; [|split; [|split; [|split; [|split; [|split]]]]].
  - apply refs_off_0. eapply refs_off_ext.
    + eapply (refs_off_update _ (λ k, fd_count k (p_fds p)) w2); [eapply refs_off_shift; [apply refs_off_0; exact Hok1|exact HS]|done|].
      intros k Hk. rewrite Hl4. rewrite total_insert.
      * unfold live_fds at 2. rewrite Hk2. fold (live_fds w1). rewrite Hl1. lia.
      * unfold live_fds. rewrite live_of_lookup. by rewrite Hfree.
    + intros k Hk. cbn. rewrite list_count_values. lia.
  - unfold w4, w3. cbn. rewrite Hk2. exact Hcu.
  - unfold w4, w3. cbn. by rewrite Hk2.
  - exact Hfree.
  - exact Hl4.
  - unfold w4, proc. cbn [on_kernel set_kernel w_kernel set_table k_table procs]. apply lookup_insert_eq.
  - unfold w4, proc. cbn [on_kernel set_kernel w_kernel set_table k_table procs]. rewrite lookup_insert_ne by done.
    unfold w3. cbn [on_kernel set_kernel w_kernel]. change (proc (update_proc cu g (w_kernel w2)) cu = Some (g p)).
    rewrite proc_update, decide_True, Hk2, Hp1 by done. done.
Qed.

(** ** Exit *)
Lemma unique_ends_spec fs seen :
  NoDup (unique_ends seen fs) ∧
  ∀ k, k ∈ unique_ends seen fs ↔ is_pipe k = true ∧ k ∉ seen ∧ ∃ f, f ∈ fs ∧ fd_kind f = k.
Proof.
  revert seen. induction fs as [|f fs IH]; intros seen; cbn [unique_ends].
  - split; [constructor|]. intros k. split; [intros H; by apply not_elem_of_nil in H|]. intros (_ & _ & f & H & _).
    by apply not_elem_of_nil in H.
  - destruct (is_pipe (fd_kind f)) eqn:Hk; [case_bool_decide as Hs|]; cbn [andb negb].
    + destruct (IH seen) as [Hnd Hin]. split; [done|]. intros k. rewrite Hin. setoid_rewrite elem_of_cons. split; [naive_solver|].
      intros (? & ? & g & [->|?] & <-); [done|]. eauto 10.
    + destruct (IH (fd_kind f :: seen)) as [Hnd Hin]. split.
      * constructor; [|done]. rewrite Hin. intros (_ & Hn & _). apply Hn. by left.
      * intros k. rewrite elem_of_cons, Hin, not_elem_of_cons. setoid_rewrite elem_of_cons. split; [naive_solver|].
        intros (? & ? & g & Hg & <-). destruct (decide (fd_kind g = fd_kind f)) as [|Hne]; [by left|right].
        destruct Hg as [->|Hg]; [done|]. eauto 10.
    + destruct (IH seen) as [Hnd Hin]. split; [done|]. intros k. rewrite Hin. setoid_rewrite elem_of_cons. split; [naive_solver|].
      intros (? & ? & g & [->|?] & <-); [congruence|]. eauto 10.
Qed.

Section Exit.
Variable may_signal : Z → Z → Z → bool.
Variable block : Kernel → Kernel.
#[local] Instance exit_scheduler : Scheduler Kernel := kernel_scheduler may_signal block.

Lemma close_all_shifts ks w :
  closed_ok w → NoDup ks → (∀ k, k ∈ ks → 0 < recorded k w) →
  shifts (λ k, - (if decide (k ∈ ks) then 1 else 0)) w (foldl (λ w k, close_kind may_signal block k w) w ks).
Proof.
  intros Hc Hnd. revert w Hc. induction Hnd as [|k ks Hk Hnd IH]; intros w Hc Hpos; cbn [foldl].
  - eapply shifts_ext; [|by apply shifts_nil]. intros k _. cbn. case_decide as H; [by apply not_elem_of_nil in H|done].
  - pose proof (close_kind_shifts may_signal block k w Hc (λ _, Hpos k ltac:(by left))) as H1.
    assert (shifts (λ j, - (if decide (j ∈ ks) then 1 else 0)) (close_kind may_signal block k w)
              (foldl (λ w k, close_kind may_signal block k w) (close_kind may_signal block k w) ks)) as H2.
    { destruct H1 as (H1 & C1 & _). apply IH; [done|]. intros j Hj. specialize (Hpos j ltac:(by right)).
      assert (is_pipe j = true) as Hp by (destruct (recorded_pipe j w Hpos) as (? & ? & _ & [[-> _]|[-> _]]); done).
      rewrite H1 by done. rewrite same_kind_ne by (intros ->; done). lia. }
    eapply shifts_ext; [|eapply shifts_trans; [exact H1|exact H2]]. intros j Hj. cbn beta. unfold same_kind.
    destruct (decide (k = j)) as [<-|Hne].
    + rewrite (decide_False (P := k ∈ ks)) by done. rewrite decide_True by (by left). lia.
    + destruct (decide (j ∈ ks)) as [Hin|Hin]; [rewrite decide_True by (by right)|rewrite decide_False; [|rewrite elem_of_cons; naive_solver]]; lia.
Qed.

(** Each end the process has is closed once, however many descriptors it has
    on it. *)
Lemma close_ends_shifts w p :
  refs_ok w → alive w p →
  shifts (λ k, - Z.min 1 (fd_count k (p_fds p))) w (close_ends may_signal block (p_fds p) w).
Proof.
  intros Hok Ha. unfold close_ends. rewrite <-foldl_app. destruct (unique_ends_spec (fd_values (p_fds p)) []) as [Hnd Hin].
  set (ends := unique_ends [] (fd_values (p_fds p))) in *. set (ks := _ ++ _).
  assert (∀ k, is_pipe k = true → k ∈ ks ↔ 0 < fd_count k (p_fds p)) as Hks.
  { intros k Hk. unfold ks. rewrite elem_of_app, !list_elem_of_filter. rewrite Hin, fd_count_pos.
    setoid_rewrite fd_values_perm. setoid_rewrite list_elem_of_fmap. unfold is_pipe in *. split.
    - intros [(_ & _ & _ & f & ([n g] & -> & Hg) & He)|(_ & _ & _ & f & ([n g] & -> & Hg) & He)]; apply elem_of_map_to_list in Hg; eauto.
    - intros (n & f & Hn & He). apply elem_of_map_to_list in Hn. pose proof (not_elem_of_nil k).
      apply orb_prop in Hk as [Hk|Hk]; [left|right]; split_and!; rewrite ?Hk, ?orb_true_r; try done; exists f; (split; [by exists (n, f)|done]). }
  eapply shifts_ext; [|apply close_all_shifts; [apply Hok| |]].
  - intros k Hk. cbn beta. pose proof (fd_count_nonneg k (p_fds p)). case_decide as Hd; rewrite (Hks k Hk) in Hd; lia.
  - apply NoDup_app. split_and!; [by apply NoDup_filter| |by apply NoDup_filter].
    intros k H1 H2. apply list_elem_of_filter in H1 as [H1 _]. apply list_elem_of_filter in H2 as [H2 _]. by destruct k.
  - intros k H. assert (is_pipe k = true) as Hk.
    { unfold ks in H. apply elem_of_app in H as [H|H]; apply list_elem_of_filter in H as [_ H]; apply Hin in H as [H _]; exact H. }
    apply (Hks k Hk) in H. apply fd_count_pos in H as (n & f & Hn & <-). by apply (live_recorded w p n).
Qed.

Lemma live_update_zombie k pid g :
  (∀ p, is_zombie (g p) = true) → live_of (k_table (update_proc pid g k)) = delete pid (live_of (k_table k)).
Proof.
  intros Hg. apply map_eq. intros q. rewrite live_of_lookup. fold (proc (update_proc pid g k) q). rewrite proc_update.
  case_decide as Hq; [subst q|].
  - rewrite lookup_delete_eq. destruct (proc k pid); [|done]. cbn. by rewrite Hg.
  - rewrite lookup_delete_ne by done. by rewrite live_of_lookup.
Qed.

(** [exit_current] of a live process: the ends are closed, the process is a
    zombie with the exit code, nothing else changes for descriptors. *)
Lemma exit_spec code w p w' :
  refs_ok w → alive w p → exit_current may_signal block code w = Some w' →
  closed_ok w' ∧ (∀ k, is_pipe k = true → recorded k w' = recorded k w - Z.min 1 (fd_count k (p_fds p))) ∧
  live_fds w' = delete (cur w) (live_fds w) ∧ cur w' = cur w ∧
  (∀ q, q ≠ cur w → view <$> proc (w_kernel w') q = view <$> proc (w_kernel w) q) ∧
  ∃ p', proc (w_kernel w') (cur w) = Some p' ∧ view p' = view (set_exit_code code (set_state (Zombie code) p)).
Proof.
  intros Hok Ha. unfold exit_current. rewrite (proj1 Ha). pose proof (close_ends_shifts w p Hok Ha) as (HS & HC & HP).
  set (w1 := close_ends _ _ _ w) in *. destruct (alive_same w w1 p Ha HP) as (p1 & [Hp1 Hz1] & Hv1 & Hc1). rewrite Hp1.
  set (g := λ p, set_exit_code code (set_state (Zombie code) p)). set (w2 := update_cur g w1).
  assert (view (g p1) = view (g p)) as Hvg by (unfold view, ended in *; cbn; by injection Hv1 as -> -> -> -> -> _ _).
  assert (∀ k', same_procs (w_kernel w2) k' → let w' := set_kernel k' w2 in
    closed_ok w' ∧ (∀ k, is_pipe k = true → recorded k w' = recorded k w - Z.min 1 (fd_count k (p_fds p))) ∧
    live_fds w' = delete (cur w) (live_fds w) ∧ cur w' = cur w ∧
    (∀ q, q ≠ cur w → view <$> proc (w_kernel w') q = view <$> proc (w_kernel w) q) ∧
    ∃ p', proc (w_kernel w') (cur w) = Some p' ∧ view p' = view (g p)) as Hend.
  { intros k' Hs. cbn zeta. assert (∀ q, proc (w_kernel w2) q = if decide (q = cur w) then g <$> proc (w_kernel w1) (cur w) else proc (w_kernel w1) q) as Hpq.
    { intros q. rewrite <-Hc1. unfold w2, update_cur. cbn [on_kernel set_kernel w_kernel]. apply proc_update. }
    split_and!; [done|intros k Hk; rewrite <-(Z.add_opp_r (recorded k w)), <-HS by done; by destruct k| | | |].
    - unfold live_fds. cbn [set_kernel w_kernel]. rewrite (same_procs_live _ _ Hs), <-Hc1, <-(same_procs_live _ _ HP).
      by apply live_update_zombie.
    - unfold cur. cbn [set_kernel w_kernel]. destruct Hs as [-> _]. exact Hc1.
    - intros q Hq. cbn [set_kernel w_kernel]. destruct Hs as [_ Hs]. rewrite Hs, Hpq, decide_False by done. by destruct HP as [_ ->].
    - cbn [set_kernel w_kernel]. destruct Hs as [_ Hs]. specialize (Hs (cur w)). rewrite Hpq, decide_True in Hs by done.
      unfold cur_proc in Hp1. rewrite Hc1 in Hp1. rewrite Hp1 in Hs. destruct (proc k' (cur w)) as [p'|]; [|done]. apply (inj Some) in Hs.
      exists p'. split; [done|]. by rewrite Hs. }
  destruct (p_ppid p1 =? 0).
  - intros [= <-]. apply (Hend (w_kernel w2)). done.
  - destruct (wake_process _ _) as [k'|] eqn:E; [|done]. intros [= <-]. apply Hend. etrans; [|by apply (wake_same _ _ _ E)]. apply sigchld_same.
Qed.
End Exit.

(** ** Wait and switch *)
Lemma reap_child_live t c : live_of (reap_child t c).1 = live_of t.
Proof.
  unfold reap_child. destruct (procs t !! c) as [p|] eqn:Ep; [|done]. destruct (p_state p) eqn:Es; try done. cbn [fst].
  apply map_eq. intros q. rewrite !live_of_lookup. cbn [with_process_mut procs].
  destruct (decide (q = c)) as [->|Hqc].
  - rewrite Ep. cbn. unfold is_zombie. rewrite Es. destruct (decide (c = p_ppid p)) as [<-|Hne].
    + by rewrite lookup_alter_eq, lookup_delete_eq.
    + by rewrite lookup_alter_ne, lookup_delete_eq by done.
  - destruct (decide (q = p_ppid p)) as [->|Hne].
    + rewrite lookup_alter_eq, lookup_delete_ne by done. by destruct (procs t !! p_ppid p).
    + by rewrite lookup_alter_ne, lookup_delete_ne by done.
Qed.

Lemma wait_reap_live pid k k' r : wait_reap pid k = Some (k', r) → live_of (k_table k') = live_of (k_table k).
Proof.
  unfold wait_reap. destruct (find_zombie pid k) as [c|]; [|done]. cbn [mbind option_bind].
  pose proof (reap_child_live (k_table k) c) as H. destruct (reap_child (k_table k) c) as [t code]. intros [= <- _]. exact H.
Qed.

Lemma switch_to_live from to k p :
  proc k to = Some p → is_zombie p = false → live_of (k_table (switch_to from to k)) = live_of (k_table k).
Proof.
  intros Hp Hz. set (g := λ p, if decide (p_state p = Running) then set_state Runnable p else p).
  assert (same_procs k (update_proc from g k)) as Hs.
  { apply same_procs_update. intros x. unfold g. case_decide as Hx; [|done]. unfold view, ended. cbn. by rewrite Hx. }
  rewrite <-(same_procs_live _ _ Hs). apply map_eq. intros q. rewrite !live_of_lookup.
  change (procs (k_table (switch_to from to k)) !! q) with (proc (update_proc to (set_state Running) (update_proc from g k)) q).
  fold (proc (update_proc from g k) q). rewrite (proc_update (update_proc from g k)). case_decide as Hq; [subst q|done].
  destruct Hs as [_ Hs]. specialize (Hs to). rewrite Hp in Hs. destruct (proc (update_proc from g k) to) as [x|]; [|done].
  apply (inj Some) in Hs. cbn. rewrite !is_zombie_ended in *. assert (ended x = ended p) as -> by (by injection Hs).
  by rewrite Hz.
Qed.

(** ** Runs *)
Inductive FOp :=
  | FClose (fd : Z)
  | FDup (fd : Z)
  | FDup2 (old new : Z)
  | FDup3 (old new flags : Z)
  | FFcntl (fd cmd arg : Z)
  | FPipe (key ino ptr : Z)
  | FPipe2 (key ino ptr flags : Z)
  | FFork (as_ok : bool)
  | FExit (code : Z)
  | FWait (pid : Z)
  | FSwitch (pid : Z).

Definition is_i32 (z : Z) : Prop := - 2 ^ 31 ≤ z < 2 ^ 31.
Lemma wrap_i32_inj a b : is_i32 a → is_i32 b → a = b ∨ wrap 32 a ≠ wrap 32 b.
Proof.
  unfold is_i32, wrap. intros Ha Hb. destruct (decide (a = b)) as [|Hne]; [by left|right]. intros He.
  pose proof (Z.div_mod a (2 ^ 32) ltac:(lia)). pose proof (Z.div_mod b (2 ^ 32) ltac:(lia)). nia.
Qed.

Section Runs.
Variable may_signal : Z → Z → Z → bool.
Variable block : Kernel → Kernel.
Variable ncpus : Z.

(** One call by the current process; a wait that finds a zombie, or changes
    nothing; a switch to another process. *)
Definition fexec (o : FOp) (w : World Kernel) : option (World Kernel) :=
  match o with
  | FClose fd => Some (sys_close may_signal block fd w).1
  | FDup fd => fst <$> sys_dup fd w
  | FDup2 old new => Some (sys_dup2 may_signal block old new w).1
  | FDup3 old new flags => Some (sys_dup3 may_signal block old new flags w).1
  | FFcntl fd cmd arg => fst <$> sys_fcntl fd cmd arg w
  | FPipe key ino ptr => (λ r, r.1.1) <$> sys_pipe key ino ptr w
  | FPipe2 key ino ptr flags => (λ r, r.1.1) <$> sys_pipe2 key ino ptr flags w
  | FFork as_ok => fst <$> sys_fork ncpus as_ok w
  | FExit code => sys_exit may_signal block code w
  | FWait pid => Some (on_kernel (λ k, match wait_reap pid k with Some (k', _) => k' | None => k end) w)
  | FSwitch pid => Some (on_kernel (switch_to (cur w) pid) w)
  end.

Definition ends_distinct (fds : gmap Z FileDescriptor) : Prop := ∀ k, is_pipe k = true → fd_count k fds ≤ 1.

(** When the call may happen: its arguments have their types, a new pipe is at
    an address no live descriptor names, a switch goes to a live process, and
    a process that exits has no pipe end twice. *)
Definition fpre (o : FOp) (w : World Kernel) : Prop :=
  match o with
  | FSwitch pid => ∃ p, proc (w_kernel w) pid = Some p ∧ is_zombie p = false
  | _ => ∃ p, alive w p ∧ refs_room w ∧
      match o with
      | FDup2 old new | FDup3 old new _ => is_i32 old ∧ is_i32 new
      | FPipe key _ _ | FPipe2 key _ _ _ => unused key w
      | FExit _ => ends_distinct (p_fds p)
      | _ => True
      end
  end.

Inductive files_run : World Kernel → list FOp → World Kernel → Prop :=
  | frun_nil w : files_run w [] w
  | frun_cons w w1 w2 o os : fpre o w → fexec o w = Some w1 → files_run w1 os w2 → files_run w (o :: os) w2.

Lemma refs_ok_live w w' : refs_ok w → w_pipes w' = w_pipes w → live_fds w' = live_fds w → refs_ok w'.
Proof.
  intros [H C] Hp Hl. split; [|intros key p; rewrite Hp; apply C]. intros k Hk. rewrite Hl, <-H by done.
  destruct k; try done; unfold recorded; by rewrite Hp.
Qed.

Lemma sys_exit_refs code w p w' :
  refs_ok w → alive w p → ends_distinct (p_fds p) → sys_exit may_signal block code w = Some w' → refs_ok w'.
Proof.
  intros Hok Ha Hd. unfold sys_exit. destruct (exit_current _ _ code w) as [w1|] eqn:E; [|done]. cbn [mbind option_bind].
  destruct (remove_task _ _) as [k1|] eqn:Er; [|done]. intros [= <-].
  destruct (exit_spec may_signal block code w p w1 Hok Ha E) as (HC & HR & HL & _). apply remove_task_table in Er.
  apply (refs_ok_live w1); [|done|unfold live_fds; cbn; by rewrite Er]. split; [|done]. intros k Hk. rewrite HR, HL by done.
  rewrite (total_delete k _ _ _ (live_lookup w _ p (proj1 Ha) (proj2 Ha))), (refs_count w Hok) by done.
  specialize (Hd k Hk). pose proof (fd_count_nonneg k (p_fds p)). lia.
Qed.

Lemma sys_fork_refs as_ok w p w' r :
  refs_ok w → refs_room w → alive w p → sys_fork ncpus as_ok w = Some (w', r) → refs_ok w'.
Proof.
  intros Hok Hroom Ha. unfold sys_fork. pose proof (fork_spec as_ok w p Hok Hroom Ha) as H.
  destruct (fork_current as_ok w) as [w1 [c|]]; [|intros [= <- _]; apply H]. destruct H as [H _].
  destruct (add_task _ _ _ _ _) as [k|] eqn:E; [|done]. cbn [mbind option_bind]. intros [= <- _]. apply add_task_table in E.
  apply (refs_ok_live w1); [done|done|]. unfold live_fds. cbn. by rewrite E.
Qed.

Lemma sys_pipe2_refs key ino ptr flags w p w' n fds :
  refs_ok w → alive w p → unused key w → sys_pipe2 key ino ptr flags w = Some (w', n, fds) → refs_ok w'.
Proof.
  intros Hok Ha Hu. unfold sys_pipe2. destruct (bad_ptr ptr); [by intros [= <- _ _]|].
  destruct (new_pipe2_kinds key ino flags) as [H1 H2]. destruct (new_pipe2 key ino flags) as [rf wf]. intros E.
  by destruct (install_pipe_refs key rf wf w p w' n fds Hok Ha Hu H1 H2 E).
Qed.

Lemma sys_pipe_refs key ino ptr w p w' n fds :
  refs_ok w → alive w p → unused key w → sys_pipe key ino ptr w = Some (w', n, fds) → refs_ok w'.
Proof.
  intros Hok Ha Hu. unfold sys_pipe. destruct (bad_ptr ptr); [by intros [= <- _ _]|]. cbn [new_pipe]. intros E.
  apply install_pipe_refs with (p := p) in E; [by destruct E|done..].
Qed.

Lemma fexec_refs o w w' : refs_ok w → fpre o w → fexec o w = Some w' → refs_ok w'.
Proof.
  intros Hok. destruct o as [fd|fd|old new|old new flags|fd cmd arg|key ino ptr|key ino ptr flags|as_ok|code|pid|pid];
    cbn [fpre fexec]; intros (p & Hpre).
  1-10: destruct Hpre as (Ha & Hroom & Hpre).
  - intros [= <-]. by apply (sys_close_refs may_signal block fd w p).
  - unfold sys_dup. destruct (dup_fd fd w) as [[w1 r]|] eqn:E; [|done]. intros [= <-].
    by destruct (dup_fd_refs fd w p w1 r Hok Hroom Ha E).
  - destruct Hpre as [Ho Hn]. intros [= <-]. destruct (wrap_i32_inj old new Ho Hn);
      by apply (sys_dup2_refs may_signal block old new w p); auto.
  - destruct Hpre as [Ho Hn]. intros [= <-]. destruct (wrap_i32_inj old new Ho Hn);
      by apply (sys_dup3_refs may_signal block old new flags w p); auto.
  - destruct (sys_fcntl fd cmd arg w) as [[w1 r]|] eqn:E; [|done]. intros [= <-].
    by apply (sys_fcntl_refs fd cmd arg w p w1 r).
  - destruct (sys_pipe key ino ptr w) as [[[w1 n] fds]|] eqn:E; [|done]. intros [= <-]. by apply (sys_pipe_refs key ino ptr w p w1 n fds).
  - destruct (sys_pipe2 key ino ptr flags w) as [[[w1 n] fds]|] eqn:E; [|done]. intros [= <-].
    by apply (sys_pipe2_refs key ino ptr flags w p w1 n fds).
  - destruct (sys_fork ncpus as_ok w) as [[w1 r]|] eqn:E; [|done]. intros [= <-]. by apply (sys_fork_refs as_ok w p w1 r).
  - by apply (sys_exit_refs code w p).
  - intros [= <-]. apply (refs_ok_live w); [done|done|]. unfold live_fds. cbn [on_kernel set_kernel w_kernel].
    destruct (wait_reap pid (w_kernel w)) as [[k' r]|] eqn:E; [by apply (wait_reap_live pid _ _ r)|done].
  - destruct Hpre as [Hp Hz]. intros [= <-]. apply (refs_ok_live w); [done|done|]. by apply (switch_to_live _ _ _ p).
Qed.

Lemma files_run_ok w os w' : refs_ok w → files_run w os w' → refs_ok w'.
Proof. intros Hok Hrun. revert Hok. induction Hrun; [done|]. intros Hok. apply IHHrun. by eapply fexec_refs. Qed.
End Runs.

(** ** Theorems *)
Section Theorems.
Variable may_signal : Z → Z → Z → bool.
Variable block : Kernel → Kernel.
Variable ncpus : Z.

(** C3. Pipes count their descriptors: after any run of closes, duplications,
    [fcntl]s, new pipes, forks, waits, exits and switches from a state without
    pipes, [writers] and [readers] of every pipe are the numbers of
    descriptors live processes have on its ends, and an end is marked closed
    exactly when nobody has it.  (Exits of processes that have an end on
    several descriptors are excluded: see [exit_keeps_duplicates].) *)
Theorem pipe_refs_exact w os w' key p :
  w_pipes w = ∅ → (∀ k, is_pipe k = true → total_fds k (live_fds w) = 0) →
  files_run may_signal block ncpus w os w' → w_pipes w' !! key = Some p →
  writers p = total_fds (PipeWrite key) (live_fds w') ∧ readers p = total_fds (PipeRead key) (live_fds w') ∧
  write_closed p = (writers p =? 0) ∧ read_closed p = (readers p =? 0).
Proof.
  intros Hp Ht Hrun Hk. assert (refs_ok w) as Hok.
  { split; [|intros j q; by rewrite Hp, lookup_empty]. intros k Hpk. rewrite Ht by done. by destruct k; try done; unfold recorded; rewrite Hp, lookup_empty. }
  pose proof (files_run_ok may_signal block ncpus w os w' Hok Hrun) as Hok'. pose proof (refs_closed w' Hok' key p Hk) as [Hcw Hcr].
  pose proof (refs_count w' Hok' (PipeWrite key) eq_refl) as Hw. pose proof (refs_count w' Hok' (PipeRead key) eq_refl) as Hr.
  unfold recorded in Hw, Hr. rewrite Hk in Hw, Hr. done.
Qed.

(** C19. What a reader sees: an empty pipe whose ends are counted right reports
    end of file exactly when no live process has a descriptor that could write
    to it; otherwise the read has to wait. *)
Theorem eof_iff_no_writer w key p count :
  refs_ok w → w_pipes w !! key = Some p → len p = 0 →
  ((try_read p count).2 = Ok [] ↔
    ∀ pid q fd f, proc (w_kernel w) pid = Some q → is_zombie q = false → p_fds q !! fd = Some f → fd_kind f ≠ PipeWrite key) ∧
  ((try_read p count).2 = Ok [] ∨ (try_read p count).2 = Err EAGAIN).
Proof.
  intros Hok Hp Hl. unfold try_read. rewrite Hl. cbn [Z.eqb snd]. destruct (refs_closed w Hok key p Hp) as [Hcw _].
  pose proof (refs_count w Hok (PipeWrite key) eq_refl) as Hw. unfold recorded in Hw. rewrite Hp in Hw.
  assert (write_closed p = true ↔ ∀ pid q fd f, proc (w_kernel w) pid = Some q → is_zombie q = false → p_fds q !! fd = Some f →
    fd_kind f ≠ PipeWrite key) as Hiff; [|destruct (write_closed p); split; [|by left| |by right]; rewrite <-Hiff; done].
  rewrite Hcw, Z.eqb_eq, Hw, total_zero. split.
  - intros Hall pid q fd f Hq Hz Hf Hk. specialize (Hall pid _ (live_lookup w pid q Hq Hz)).
    assert (0 < fd_count (PipeWrite key) (p_fds q)); [|lia]. apply fd_count_pos. eauto.
  - intros Hall pid fds Hpf. unfold live_fds in Hpf. rewrite live_of_lookup in Hpf. fold (proc (w_kernel w) pid) in Hpf.
    destruct (proc (w_kernel w) pid) as [q|] eqn:Eq; [|done]. cbn in Hpf. destruct (is_zombie q) eqn:Ez; [done|]. injection Hpf as <-.
    destruct (Z.lt_ge_cases 0 (fd_count (PipeWrite key) (p_fds q))) as [Hc|Hc].
    + apply fd_count_pos in Hc as (n & f & Hn & Hf). by destruct (Hall pid q n f Eq Ez Hn).
    + pose proof (fd_count_nonneg (PipeWrite key) (p_fds q)). lia.
Qed.

(** An exit closes each pipe end once, although every descriptor was counted:
    when a process that has the only write descriptors of a pipe, two or more
    of them, exits, no writer is left and the pipe still counts one, so that
    its reader waits for ever instead of seeing end of file. *)
Theorem exit_keeps_duplicates code w p w' key count :
  refs_ok w → alive w p → 2 ≤ fd_count (PipeWrite key) (p_fds p) →
  total_fds (PipeWrite key) (live_fds w) = fd_count (PipeWrite key) (p_fds p) →
  exit_current may_signal block code w = Some w' →
  total_fds (PipeWrite key) (live_fds w') = 0 ∧
  ∃ q, w_pipes w' !! key = Some q ∧ writers q = fd_count (PipeWrite key) (p_fds p) - 1 ∧ write_closed q = false ∧
    (len q = 0 → (try_read q count).2 = Err EAGAIN).
Proof.
  intros Hok Ha H2 Ht E. destruct (exit_spec may_signal block code w p w' Hok Ha E) as (HC & HR & HL & _).
  split; [rewrite HL, (total_delete _ _ _ _ (live_lookup w _ p (proj1 Ha) (proj2 Ha))); lia|].
  pose proof (HR (PipeWrite key) eq_refl) as Hr. rewrite (refs_count w Hok) in Hr by done. unfold recorded in Hr.
  destruct (w_pipes w' !! key) as [q|] eqn:Eq; [|lia]. exists q. assert (writers q = fd_count (PipeWrite key) (p_fds p) - 1) as Hwq by lia.
  assert (write_closed q = false) as Hcl by (destruct (HC key q Eq) as [-> _]; lia). split_and!; try done.
  intros Hl. unfold try_read. by rewrite Hl, Hcl.
Qed.

Lemma exec_reset_state null p : p_state (exec_reset null p) = p_state p.
Proof.
  assert (∀ n x, p_state (ensure_std_fd null n x) = p_state x) as H by (intros; unfold ensure_std_fd; by destruct (get_fd _ _), null).
  unfold exec_reset. cbn [set_sig p_state]. by rewrite !H.
Qed.

(** [execve] drops descriptors without telling the pipe: when the only write
    descriptors of a pipe are close-on-exec descriptors of the caller, after
    the exec nobody has one, and the pipe still counts them. *)
Theorem exec_keeps_ends null w p key q :
  refs_ok w → alive w p → w_pipes w !! key = Some q → 0 < fd_count (PipeWrite key) (p_fds p) →
  total_fds (PipeWrite key) (live_fds w) = fd_count (PipeWrite key) (p_fds p) →
  (∀ n f, p_fds p !! n = Some f → fd_kind f = PipeWrite key → has_flag O_CLOEXEC f = true) →
  (∀ f, null = Some f → fd_kind f ≠ PipeWrite key) →
  let w' := update_cur (exec_reset null) w in
  total_fds (PipeWrite key) (live_fds w') = 0 ∧ w_pipes w' !! key = Some q ∧ write_closed q = false.
Proof.
  intros Hok [Hp Hz] Hq Hpos Ht Hclo Hnull w'. destruct (refs_closed w Hok key q Hq) as [Hcw _].
  pose proof (refs_count w Hok (PipeWrite key) eq_refl) as Hw. unfold recorded in Hw. rewrite Hq in Hw.
  split_and!; [|done|rewrite Hcw; lia]. unfold w', update_cur.
  assert (is_zombie (exec_reset null p) = false) as Hz' by (rewrite <-Hz; apply is_zombie_state, exec_reset_state).
  rewrite (live_update w (cur w) p _ Hp Hz Hz'), (total_update _ _ _ _ _ (live_lookup w _ p Hp Hz)).
  assert (fd_count (PipeWrite key) (p_fds (exec_reset null p)) = 0) as H0; [|lia].
  assert (∀ n x, fd_count (PipeWrite key) (p_fds x) = 0 → fd_count (PipeWrite key) (p_fds (ensure_std_fd null n x)) = 0) as Hstep.
  { intros n x Hx. unfold ensure_std_fd, get_fd. destruct (p_fds x !! n) eqn:En; [done|]. destruct null as [f|] eqn:Ef; [|done].
    cbn. rewrite fd_count_insert, same_kind_ne by eauto. lia. }
  unfold exec_reset. cbn [set_sig p_fds]. do 3 apply Hstep. cbn [set_fds p_fds].
  pose proof (fd_count_nonneg (PipeWrite key) (filter (λ e, has_flag O_CLOEXEC e.2 = false) (p_fds p))) as Hn.
  destruct (Z.lt_ge_cases 0 (fd_count (PipeWrite key) (filter (λ e, has_flag O_CLOEXEC e.2 = false) (p_fds p)))) as [Hc|]; [|lia].
  apply fd_count_pos in Hc as (n & f & Hf & Hk). apply map_lookup_filter_Some in Hf as [Hf Hfl]. cbn in Hfl.
  rewrite (Hclo n f Hf Hk) in Hfl. done.
Qed.

(** Nor does a process killed by a signal tell its pipes: after the default
    action has ended the process with the only write descriptors of a pipe,
    nobody has one, and the pipe still counts them. *)
Theorem killed_keeps_ends resched pid sig w p k' key q :
  refs_ok w → proc (w_kernel w) pid = Some p → is_zombie p = false → default_action sig = ActTerminate → pid ≠ cur w →
  w_pipes w !! key = Some q → 0 < fd_count (PipeWrite key) (p_fds p) →
  total_fds (PipeWrite key) (live_fds w) = fd_count (PipeWrite key) (p_fds p) →
  apply_default may_signal resched ncpus pid sig (w_kernel w) = Some k' →
  let w' := set_kernel k' w in
  total_fds (PipeWrite key) (live_fds w') = 0 ∧ w_pipes w' !! key = Some q ∧ write_closed q = false.
Proof.
  intros Hok Hp Hz Hact Hne Hq Hpos Ht E w'. destruct (refs_closed w Hok key q Hq) as [Hcw _].
  pose proof (refs_count w Hok (PipeWrite key) eq_refl) as Hw. unfold recorded in Hw. rewrite Hq in Hw.
  split_and!; [|done|rewrite Hcw; lia]. unfold apply_default in E. rewrite Hact in E. set (g := λ p, set_exit_code _ _) in E.
  destruct (remove_task _ _) as [k2|] eqn:E2; [|done]. apply remove_task_table in E2. cbn [mbind option_bind] in E. rewrite Hp in E.
  set (o := if negb (p_ppid p =? 0) then _ else _) in E. destruct o as [k3|] eqn:E3; [|done]. cbn [mbind option_bind] in E.
  assert (same_procs k2 k3) as Hs.
  { unfold o in E3. destruct (negb _); [|by injection E3 as <-]. etrans; [apply sigchld_same|by apply (wake_same _ _ _ E3)]. }
  assert (k' = k3) as ->.
  { injection E as <-. destruct Hs as [-> _]. rewrite E2. cbn. destruct (Z.eqb_spec pid (current (k_table (w_kernel w)))); [done|done]. }
  assert (live_fds w' = delete pid (live_fds w)) as ->.
  { unfold live_fds, w'. cbn [set_kernel w_kernel]. rewrite (same_procs_live _ _ Hs), E2. by apply live_update_zombie. }
  rewrite (total_delete _ _ _ _ (live_lookup w pid p Hp Hz)). lia.
Qed.

(** A fork that succeeds gives the child all descriptors of its parent,
    counted; a fork that fails leaves every descriptor and every count as it
    was. *)
Theorem fork_inherits as_ok w p :
  refs_ok w → refs_room w → alive w p →
  let '(w', r) := fork_current as_ok w in
  refs_ok w' ∧
  match r with
  | Some c => proc (w_kernel w) c = None ∧ proc (w_kernel w') c = Some (child_of p c (cur w)) ∧
      proc (w_kernel w') (cur w) = Some (set_children (p_children p ++ [c]) p) ∧
      (∀ k, is_pipe k = true → recorded k w' = recorded k w + fd_count k (p_fds p))
  | None => ∀ k, is_pipe k = true → recorded k w' = recorded k w
  end.
Proof.
  intros Hok Hroom Ha. pose proof (fork_spec as_ok w p Hok Hroom Ha) as H. destruct (fork_current as_ok w) as [w' [c|]].
  - destruct H as (Hok' & _ & _ & Hn & Hl & Hc & Hpar). split_and!; try done. intros k Hk.
    rewrite (refs_count w' Hok'), (refs_count w Hok), Hl, total_insert by (try done; unfold live_fds; rewrite live_of_lookup;
      unfold proc in Hn; by rewrite Hn). lia.
  - destruct H as (Hok' & _ & _ & Hl). split; [done|]. intros k Hk. by rewrite (refs_count w' Hok'), (refs_count w Hok), Hl.
Qed.

Lemma sys_close_live fd w p f :
  refs_ok w → alive w p → p_fds p !! wrap 32 fd = Some f →
  (sys_close may_signal block fd w).2 = 0 ∧
  live_fds (sys_close may_signal block fd w).1 = <[cur w := delete (wrap 32 fd) (p_fds p)]> (live_fds w).
Proof.
  intros Hok Ha Hf. unfold sys_close. rewrite (cur_fd_alive fd w p Ha), (proj1 Ha). unfold get_fd. rewrite Hf.
  cbn [close_fd snd fst]. rewrite Hf. cbn [negb fmap option_fmap option_map fst snd]. split; [done|].
  set (g := λ p, (close_fd (wrap 32 fd) p).1). assert (live_fds (update_cur g w) = <[cur w := p_fds (g p)]> (live_fds w)) as Hl
    by (apply live_update; apply Ha).
  destruct (close_kind_shifts may_signal block (fd_kind f) (update_cur g w)) as (_ & _ & HP);
    [apply (refs_closed w Hok)|intros Hk; by apply (live_recorded w p (wrap 32 fd))|].
  transitivity (live_fds (update_cur g w)); [exact (same_procs_live _ _ HP)|exact Hl].
Qed.

(** [close] undoes [dup]: closing the descriptor that [dup] returned gives
    back the descriptor table and every count. *)
Theorem dup_close fd w p w1 n f :
  refs_ok w → refs_room w → alive w p → get_fd p (wrap 32 fd) = Some f →
  sys_dup fd w = Some (w1, n) → is_u32 n →
  let '(w2, r) := sys_close may_signal block n w1 in
  r = 0 ∧ live_fds w2 = live_fds w ∧ ∀ k, is_pipe k = true → recorded k w2 = recorded k w.
Proof.
  intros Hok Hroom Ha Hf E Hn. unfold sys_dup in E. destruct (dup_fd fd w) as [[w1' r]|] eqn:Ed; [|done]. injection E as -> <-.
  destruct (dup_fd_refs fd w p w1 r Hok Hroom Ha Ed) as [Hok1 Hr]. destruct r as [n|e]; [|by destruct Hr as (_ & _ & ?); congruence].
  destruct Hr as (f' & p' & Hf' & Ha' & Hfree & Hfds & Hcu & Hli). cbn [to_ret] in *. assert (f' = f) as -> by congruence.
  pose proof (sys_close_refs may_signal block n w1 p' Hok1 Ha') as Hok2.
  destruct (sys_close_live n w1 p' f Hok1 Ha') as [Hret Hl2]; [rewrite wrap_small, Hfds by done; apply lookup_insert_eq|].
  destruct (sys_close may_signal block n w1) as [w2 r]. cbn [fst snd] in *.
  assert (live_fds w2 = live_fds w) as Hl.
  { rewrite Hl2, Hcu, Hli, Hfds, wrap_small by done. rewrite insert_insert_eq, delete_insert_id by done. apply insert_id.
    by apply live_lookup; apply Ha. }
  split_and!; [done|done|]. intros k Hk. by rewrite (refs_count w2 Hok2), (refs_count w Hok), Hl.
Qed.

(** [F_SETFL] cannot make a descriptor non-blocking, nor blocking again: its
    mask does not contain [O_NONBLOCK], whatever the argument. *)
Theorem setfl_ignores_nonblock fd arg w p f :
  alive w p → get_fd p (wrap 32 fd) = Some f →
  ∃ w' f', sys_fcntl fd 4 arg w = Some (w', 0) ∧ cur_fd fd w' = Some f' ∧
    has_flag O_NONBLOCK f' = has_flag O_NONBLOCK f.
Proof.
  intros Ha Hf. eexists _, _. split; [reflexivity|]. set (g := get_fd_mut_op _ _).
  pose proof (alive_update w p g Ha (proj2 Ha)) as Ha'. rewrite (cur_fd_alive fd _ _ Ha'). unfold g, get_fd, get_fd_mut_op in *.
  cbn [set_fds p_fds]. rewrite lookup_alter_eq, Hf. split; [reflexivity|]. unfold has_flag, O_NONBLOCK. cbn [fd_flags set_flags].
  change 0x800 with (Z.shiftl 1 11). rewrite !word_test by lia. rewrite Z.lor_spec, !Z.land_spec, Z.lnot_spec by lia.
  change (Z.testbit FCNTL_SETFL_MASK 11) with false. cbn. by rewrite andb_true_r, andb_false_r, orb_false_r.
Qed.

(** C35. Exit and wait: after a process exits, the [wait4] of its parent for it
    returns its identifier and its exit code in the second byte of the status
    word, without blocking; the zombie is gone, and gone from the children of
    its parent. *)
Theorem exit_wait fuel code w p w' :
  refs_ok w → alive w p → 0 ≤ cur w < 2 ^ 31 → p_ppid p ≠ cur w →
  exit_current may_signal block code w = Some w' →
  let k := switch_to (cur w) (p_ppid p) (w_kernel w') in
  ∃ k', sys_wait4 block fuel (cur w) 0 k = inr (k', Ok (cur w, Z.shiftl (Z.land code 0xFF) 8)) ∧
    proc k' (cur w) = None ∧ ∀ q, proc k' (p_ppid p) = Some q → cur w ∉ p_children q.
Proof.
  intros Hok Ha Hr Hpp E k. destruct (exit_spec may_signal block code w p w' Hok Ha E) as (_ & _ & _ & _ & _ & p' & Hp' & Hv').
  set (c := cur w) in *. assert (p_state p' = Zombie code) as Hst.
  { assert (ended p' = Some code) as He by (by injection Hv'). unfold ended in He. destruct (p_state p'); try done. congruence. }
  assert (p_ppid p' = p_ppid p) as Hpp' by (by injection Hv').
  assert (procs (k_table k) !! c = Some p') as Hpk.
  { set (g := λ p, if decide (p_state p = Running) then set_state Runnable p else p).
    change (procs (k_table k) !! c) with (proc (update_proc (p_ppid p) (set_state Running) (update_proc c g (w_kernel w'))) c).
    rewrite !proc_update, (decide_False (P := c = p_ppid p)), decide_True, Hp' by done. cbn. unfold g. by rewrite Hst. }
  assert (wrap 32 c = c) as Hwc by (apply wrap_small; unfold in_range; lia).
  assert (wait_reap c k = Some (set_table (reap_child (k_table k) c).1 k, (c, Z.shiftl (Z.land code 0xFF) 8))) as Hreap.
  { unfold wait_reap, find_zombie. replace (c =? -1) with false by lia. replace (c <? -1) with false by lia. rewrite Hwc.
    unfold proc at 1. rewrite Hpk. unfold is_zombie at 1. rewrite Hst. cbn [mbind option_bind]. unfold reap_child. by rewrite Hpk, Hst. }
  eexists. split; [unfold sys_wait4; by rewrite Hreap|]. unfold proc. cbn [set_table k_table]. unfold reap_child. rewrite Hpk, Hst, Hpp'.
  cbn [fst with_process_mut procs]. split; [by rewrite lookup_alter_ne, lookup_delete_eq|]. intros q. rewrite lookup_alter_eq, lookup_delete_ne by done.
  destruct (procs (k_table k) !! p_ppid p) as [x|]; [|done]. intros [= <-]. cbn. rewrite list_elem_of_filter. tauto.
Qed.
End Theorems.

(** ** Executable runs *)

(** The number of all descriptors bounds each count. *)
Definition all_fds (V : gmap Z (gmap Z FileDescriptor)) : Z := map_fold (λ _ fds n, Z.of_nat (size fds) + n) 0 V.

Lemma total_le_all k V : total_fds k V ≤ all_fds V.
Proof.
  unfold all_fds. induction V as [|i fds V Hi IH] using map_ind; [done|]. rewrite total_insert by done.
  rewrite map_fold_insert_L; [|intros; lia|done]. assert (fd_count k fds ≤ Z.of_nat (size fds)); [|lia].
  unfold fd_count. apply inj_le, map_subseteq_size, map_filter_subseteq.
Qed.

Section Checked.
Variable may_signal : Z → Z → Z → bool.
Variable block : Kernel → Kernel.
Variable ncpus : Z.

Definition i32b (z : Z) : bool := (- 2 ^ 31 <=? z) && (z <? 2 ^ 31).
Definition fpreb (o : FOp) (w : World Kernel) : bool :=
  match o with
  | FSwitch pid => match proc (w_kernel w) pid with Some p => negb (is_zombie p) | None => false end
  | _ =>
      match cur_proc w with
      | None => false
      | Some p => negb (is_zombie p) && (2 * all_fds (live_fds w) <? 2 ^ 64 - 1) &&
          match o with
          | FDup2 old new | FDup3 old new _ => i32b old && i32b new
          | FPipe key _ _ | FPipe2 key _ _ _ =>
              (total_fds (PipeRead key) (live_fds w) =? 0) && (total_fds (PipeWrite key) (live_fds w) =? 0)
          | FExit _ => forallb (λ f, fd_count (fd_kind f) (p_fds p) <=? 1) (fd_values (p_fds p))
          | _ => true
          end
      end
  end.

Lemma fpreb_ok o w : fpreb o w = true → fpre o w.
Proof.
  assert (∀ a b, i32b a && i32b b = true → is_i32 a ∧ is_i32 b) as Hi.
  { unfold i32b, is_i32. intros a b H. repeat (apply andb_prop in H as [H ?]). lia. }
  assert (∀ (c : bool) (P : Process → Prop), (∀ p, cur_proc w = Some p → c = true → P p) →
    match cur_proc w with Some p => negb (is_zombie p) && (2 * all_fds (live_fds w) <? 2 ^ 64 - 1) && c | None => false end = true →
    ∃ p, alive w p ∧ refs_room w ∧ P p) as Hcur.
  { intros c P HP. destruct (cur_proc w) as [p|] eqn:Ep; [|done]. intros [[Hz Hr]%andb_prop Hc]%andb_prop. exists p.
    split; [split; [done|by apply negb_true_iff]|]. split; [|eauto]. intros k. pose proof (total_le_all k (live_fds w)). lia. }
  destruct o; cbn [fpreb fpre]; try (by apply Hcur).
  - apply Hcur. intros p _. apply Hi.
  - apply Hcur. intros p _. apply Hi.
  - apply Hcur. intros p _ H. apply andb_prop in H. unfold unused. lia.
  - apply Hcur. intros p _ H. apply andb_prop in H. unfold unused. lia.
  - destruct (cur_proc w) as [p|] eqn:Ep; [|done]. intros H. apply (Hcur _ (λ p, ends_distinct (p_fds p))) in H; [done|].
    intros q [= <-] Hall k Hk. destruct (Z.lt_ge_cases 0 (fd_count k (p_fds p))) as [Hc|]; [|lia].
    apply fd_count_pos in Hc as (n & f & Hn & <-). rewrite forallb_forall in Hall. specialize (Hall f).
    apply Z.leb_le, Hall, list_elem_of_In. rewrite fd_values_perm. apply list_elem_of_fmap. exists (n, f). by rewrite elem_of_map_to_list.
  - destruct (proc (w_kernel w) pid) as [p|]; [|done]. intros Hz. exists p. split; [done|by apply negb_true_iff].
Qed.

Fixpoint frun (os : list FOp) (w : World Kernel) : option (World Kernel) :=
  match os with
  | [] => Some w
  | o :: os => if fpreb o w then w1 ← fexec may_signal block ncpus o w; frun os w1 else None
  end.

Lemma frun_ok os w w' : frun os w = Some w' → files_run may_signal block ncpus w os w'.
Proof.
  revert w. induction os as [|o os IH]; intros w; cbn [frun]; [intros [= ->]; constructor|].
  destruct (fpreb o w) eqn:Ep; [|done]. destruct (fexec _ _ _ o w) as [w1|] eqn:E; [|done]. cbn [mbind option_bind]. intros H.
  econstructor; [by apply fpreb_ok|done|by apply IH].
Qed.
End Checked.

(** ** Witnesses *)
Definition demo_files : World Kernel := mkWorld ∅ ∅ demo_kernel.
Definition demo_run (os : list FOp) : option (World Kernel) := frun allow_all keep 2 os demo_files.

Lemma demo_files_refs : refs_ok demo_files.
Proof.
  split; [|intros k p H; cbn [demo_files w_pipes] in H; by rewrite lookup_empty in H]. intros k Hk.
  assert (total_fds k (live_fds demo_files) = 0) as ->; [|by destruct k].
  pose proof (total_le_all k (live_fds demo_files)). pose proof (total_nonneg k (live_fds demo_files)).
  assert (all_fds (live_fds demo_files) = 0) by (vm_compute; reflexivity). lia.
Qed.
Lemma demo_run_refs os w : demo_run os = Some w → refs_ok w.
Proof. intros H. apply frun_ok in H. exact (files_run_ok _ _ _ _ _ _ demo_files_refs H). Qed.

Definition is_some {A} (o : option A) : bool := match o with Some _ => true | None => false end.
Lemma is_some_default {A} (d : A) (o : option A) : is_some o = true → o = Some (default d o).
Proof. by destruct o. Qed.

(** Process 2 with a pipe, its write end on descriptors 4 and 5. *)
Definition demo_dup_ops : list FOp := [FPipe 4096 0x80000000 64; FDup 4].
Definition demo_dup : World Kernel := default demo_files (demo_run demo_dup_ops).
Lemma demo_dup_run : demo_run demo_dup_ops = Some demo_dup.
Proof. apply is_some_default. vm_compute. reflexivity. Qed.
Lemma demo_dup_refs : refs_ok demo_dup.
Proof. exact (demo_run_refs _ _ demo_dup_run). Qed.
Definition demo_dup_proc : Process := default (demo_process 2 1 Running) (cur_proc demo_dup).
Lemma demo_dup_alive : alive demo_dup demo_dup_proc.
Proof. split; vm_compute; reflexivity. Qed.
Lemma demo_dup_room : refs_room demo_dup.
Proof.
  intros k. pose proof (total_le_all k (live_fds demo_dup)).
  assert (all_fds (live_fds demo_dup) = 3) by (vm_compute; reflexivity). lia.
Qed.

(** A pipe whose life ends: made, inherited, closed by the parent and left by
    the exit of the child. *)
Definition demo_life_ops : list FOp :=
  [FPipe 4096 0x80000000 64; FDup 4; FFork true; FDup2 5 9; FClose 4; FClose 5; FClose 9; FSwitch 6; FClose 5; FFcntl 4 1030 0; FClose 4; FExit 7;
   FSwitch 2; FWait 6].
Definition demo_life : World Kernel := default demo_files (demo_run demo_life_ops).
Lemma demo_life_run : demo_run demo_life_ops = Some demo_life.
Proof. apply is_some_default. vm_compute. reflexivity. Qed.
Definition demo_life_pipe : PipeBuf := default pipe_new (w_pipes demo_life !! 4096).

Lemma pipe_refs_exact_witness :
  writers demo_life_pipe = total_fds (PipeWrite 4096) (live_fds demo_life) ∧ writers demo_life_pipe = 0 ∧
  readers demo_life_pipe = total_fds (PipeRead 4096) (live_fds demo_life) ∧ readers demo_life_pipe = 1.
Proof.
  destruct (pipe_refs_exact allow_all keep 2 demo_files demo_life_ops demo_life 4096 demo_life_pipe) as (Hw & Hr & _).
  - reflexivity.
  - intros k Hk. rewrite <-(refs_count _ demo_files_refs) by exact Hk. by destruct k.
  - apply frun_ok. exact demo_life_run.
  - apply is_some_default. vm_compute. reflexivity.
  - split; [exact Hw|]. split; [vm_compute; reflexivity|]. split; [exact Hr|vm_compute; reflexivity].
Defined.

Definition demo_dup_pipe : PipeBuf := default pipe_new (w_pipes demo_dup !! 4096).
Lemma eof_iff_no_writer_witness : (try_read demo_dup_pipe 8).2 ≠ Ok [].
Proof.
  destruct (eof_iff_no_writer demo_dup 4096 demo_dup_pipe 8) as [[H _] _].
  - exact demo_dup_refs.
  - apply is_some_default. vm_compute. reflexivity.
  - vm_compute. reflexivity.
  - intros He. apply (H He 2 demo_dup_proc 4 (mkFd 0x80000001 0 0 (PipeWrite 4096))); vm_compute; reflexivity.
Defined.

Definition demo_dup_exit : World Kernel := default demo_files (exit_current allow_all keep 7 demo_dup).
Lemma demo_dup_exit_run : exit_current allow_all keep 7 demo_dup = Some demo_dup_exit.
Proof. apply is_some_default. vm_compute. reflexivity. Qed.

Lemma exit_keeps_duplicates_witness :
  total_fds (PipeWrite 4096) (live_fds demo_dup_exit) = 0 ∧
  ∃ q, w_pipes demo_dup_exit !! 4096 = Some q ∧ write_closed q = false.
Proof.
  destruct (exit_keeps_duplicates allow_all keep 7 demo_dup demo_dup_proc demo_dup_exit 4096 8) as (H0 & q & Hq & _ & Hc & _).
  - exact demo_dup_refs.
  - exact demo_dup_alive.
  - vm_compute. discriminate.
  - vm_compute. reflexivity.
  - exact demo_dup_exit_run.
  - split; [exact H0|]. exists q. split; [exact Hq|exact Hc].
Defined.

(** A pipe with close-on-exec ends. *)
Definition demo_clo_ops : list FOp := [FPipe2 4096 0x80000000 64 O_CLOEXEC].
Definition demo_clo : World Kernel := default demo_files (demo_run demo_clo_ops).
Lemma demo_clo_refs : refs_ok demo_clo.
Proof. apply (demo_run_refs demo_clo_ops), is_some_default. vm_compute. reflexivity. Qed.
Definition demo_clo_proc : Process := default (demo_process 2 1 Running) (cur_proc demo_clo).
Definition demo_clo_pipe : PipeBuf := default pipe_new (w_pipes demo_clo !! 4096).

Lemma exec_keeps_ends_witness :
  total_fds (PipeWrite 4096) (live_fds (update_cur (exec_reset None) demo_clo)) = 0 ∧ write_closed demo_clo_pipe = false.
Proof.
  destruct (exec_keeps_ends None demo_clo demo_clo_proc 4096 demo_clo_pipe) as (H0 & _ & Hc).
  - exact demo_clo_refs.
  - split; vm_compute; reflexivity.
  - apply is_some_default. vm_compute. reflexivity.
  - vm_compute. reflexivity.
  - vm_compute. reflexivity.
  - intros n f Hf Hk. assert (p_fds demo_clo_proc = {[3 := mkFd 0x80000000 0 O_CLOEXEC (PipeRead 4096);
      4 := mkFd 0x80000001 0 O_CLOEXEC (PipeWrite 4096)]}) as He by (vm_compute; reflexivity). rewrite He in Hf.
    apply lookup_insert_Some in Hf as [[_ <-]|[_ Hf]]; [reflexivity|]. apply lookup_singleton_Some in Hf as [_ <-]. reflexivity.
  - discriminate.
  - split; [exact H0|exact Hc].
Defined.

(** Only the child, process 6, has the write end. *)
Definition demo_child_ops : list FOp := [FPipe 4096 0x80000000 64; FFork true; FClose 4].
Definition demo_child : World Kernel := default demo_files (demo_run demo_child_ops).
Lemma demo_child_refs : refs_ok demo_child.
Proof. apply (demo_run_refs demo_child_ops), is_some_default. vm_compute. reflexivity. Qed.
Definition demo_child_proc : Process := default (demo_process 6 2 Runnable) (proc (w_kernel demo_child) 6).
Definition demo_child_pipe : PipeBuf := default pipe_new (w_pipes demo_child !! 4096).
Definition demo_killed : Kernel := default demo_kernel (apply_default allow_all keep 2 6 15 (w_kernel demo_child)).

Lemma killed_keeps_ends_witness :
  total_fds (PipeWrite 4096) (live_fds (set_kernel demo_killed demo_child)) = 0 ∧ write_closed demo_child_pipe = false.
Proof.
  destruct (killed_keeps_ends allow_all 2 keep 6 15 demo_child demo_child_proc demo_killed 4096 demo_child_pipe) as (H0 & _ & Hc).
  - exact demo_child_refs.
  - vm_compute. reflexivity.
  - vm_compute. reflexivity.
  - reflexivity.
  - vm_compute. discriminate.
  - apply is_some_default. vm_compute. reflexivity.
  - vm_compute. reflexivity.
  - vm_compute. reflexivity.
  - apply is_some_default. vm_compute. reflexivity.
  - split; [exact H0|exact Hc].
Defined.

Lemma fork_inherits_witness :
  proc (w_kernel (fork_current true demo_dup).1) 6 = Some (child_of demo_dup_proc 6 2).
Proof.
  pose proof (fork_inherits true demo_dup demo_dup_proc demo_dup_refs demo_dup_room demo_dup_alive) as H.
  assert ((fork_current true demo_dup).2 = Some 6) as Hr by (vm_compute; reflexivity).
  destruct (fork_current true demo_dup) as [w' r]. cbn [snd fst] in *. subst r. destruct H as (_ & _ & H & _).
  assert (cur demo_dup = 2) as Hc by (vm_compute; reflexivity). rewrite Hc in H. exact H.
Defined.

Definition demo_dup3 : World Kernel := default demo_files (fst <$> sys_dup 3 demo_dup).
Lemma dup_close_witness :
  (sys_close allow_all keep 6 demo_dup3).2 = 0 ∧ live_fds (sys_close allow_all keep 6 demo_dup3).1 = live_fds demo_dup.
Proof.
  pose proof (dup_close allow_all keep 3 demo_dup demo_dup_proc demo_dup3 6 (mkFd 0x80000000 0 0 (PipeRead 4096)) demo_dup_refs demo_dup_room
    demo_dup_alive ltac:(vm_compute; reflexivity)) as H.
  assert (snd <$> sys_dup 3 demo_dup = Some 6) as Hn by (vm_compute; reflexivity). unfold demo_dup3 in *.
  destruct (sys_dup 3 demo_dup) as [[w1 n]|]; [|discriminate]. injection Hn as ->. cbn [fmap option_fmap option_map fst default id] in *.
  specialize (H eq_refl ltac:(clear; done)). destruct (sys_close allow_all keep 6 w1) as [w2 r]. destruct H as (H1 & H2 & _).
  split; [exact H1|exact H2].
Defined.

Lemma setfl_ignores_nonblock_witness :
  ∃ w' f', sys_fcntl 3 4 O_NONBLOCK demo_dup = Some (w', 0) ∧ cur_fd 3 w' = Some f' ∧ has_flag O_NONBLOCK f' = false.
Proof.
  destruct (setfl_ignores_nonblock 3 O_NONBLOCK demo_dup demo_dup_proc (mkFd 0x80000000 0 0 (PipeRead 4096)) demo_dup_alive) as (w' & f' & H1 & H2 & H3).
  - vm_compute. reflexivity.
  - exists w', f'. split; [exact H1|]. split; [exact H2|exact H3].
Defined.

Lemma exit_wait_witness :
  ∃ k', sys_wait4 keep 0 2 0 (switch_to 2 1 (w_kernel demo_dup_exit)) = inr (k', Ok (2, 0x700)) ∧ proc k' 2 = None.
Proof.
  destruct (exit_wait allow_all keep 0 7 demo_dup demo_dup_proc demo_dup_exit demo_dup_refs demo_dup_alive) as (k' & H1 & H2 & _).
  - vm_compute. split; [discriminate|reflexivity].
  - vm_compute. discriminate.
  - exact demo_dup_exit_run.
  - exists k'. split; [exact H1|exact H2].
Defined.
