(* ===== verification/Gate.v ===== *)
(** * The system-call gate: filters, their installation, dispatch

    Models the bitmap filter and its profiles of kernel/src/security/mod.rs
    ([SyscallFilter], [profiles], [current_filter_check]), the calls that
    install seccomp programs ([load_user_prog], [sys_seccomp_real],
    [sys_prctl_seccomp], [notif_fd_ioctl] of security/seccomp.rs) and the
    checks of [dispatch] in kernel/src/syscall/mod.rs before a handler runs.
    User memory is a function from addresses to bytes. *)
From S2P Require Import Prelude Bpf Seccomp Process.

(** ** Bitmap filters *)
Record SyscallFilter := mkSysFilter { bitmap : list Z; active : bool; kill_on_violation : bool }.

Definition allow_all_filter : SyscallFilter := mkSysFilter (replicate 8 (2 ^ 64 - 1)) false false.
Definition deny_all : SyscallFilter := mkSysFilter (replicate 8 0) true true.

Definition allow (nr : Z) (f : SyscallFilter) : SyscallFilter :=
  if nr <? 512 then
    mkSysFilter (alter (λ w, word_set w (nr mod 64)) (Z.to_nat (nr / 64)) (bitmap f)) (active f) (kill_on_violation f)
  else f.
Definition deny (nr : Z) (f : SyscallFilter) : SyscallFilter :=
  if nr <? 512 then
    mkSysFilter (alter (λ w, word_clr w (nr mod 64)) (Z.to_nat (nr / 64)) (bitmap f)) (active f) (kill_on_violation f)
  else f.
Definition is_allowed (f : SyscallFilter) (nr : Z) : bool :=
  if negb (active f) || (512 <=? nr) then true
  else negb (Z.land (default 0 (bitmap f !! Z.to_nat (nr / 64))) (Z.shiftl 1 (nr mod 64)) =? 0).

Definition allow_list (nrs : list Z) (f : SyscallFilter) : SyscallFilter := foldl (λ f nr, allow nr f) f nrs.

Definition shell : SyscallFilter :=
  let f := deny_all in
  let f := allow_list [0;1;2;3;4;5;6;8;9;10;11;12;17;18;19;20;21;22;32;33;72;74;75;76;77;
                       78;79;80;82;83;84;85;86;87;88;89;90;91;92;94;95;133;161;162;217;
                       257;258;259;260;261;262;263;264;265;266;267;268;269;280] f in
  let f := allow_list [13;14;15;24;34;35;39;56;57;58;59;60;61;62;63;101;102;104;107;108;
                       109;110;111;112;113;114;115;116;158;186;200;204;218;231] f in
  let f := allow_list [9;10;11;12;25;26;27;28] f in
  let f := allow_list [96;97;98;100;201;202;203;228] f in
  let f := allow_list [16;63;99;103;125;126;127;130;131;157;160;302;318;435] f in
  mkSysFilter (bitmap f) true (kill_on_violation f).
Definition network_service : SyscallFilter :=
  allow_list [41;42;43;44;45;46;47;48;49;50;51;52;53;54;55;
              213;214;215;233;281;282;283;284;285;286;287;288;290;291;292;293] shell.
Definition minimal : SyscallFilter := allow_list [0; 1; 60; 231; 35; 39] deny_all.

(** [current_filter_check] on the filter of the current process, if any. *)
Definition current_filter_check (cur : option SyscallFilter) (nr : Z) : QsfResult :=
  let '(filter_active, allowed, kill) :=
    match cur with Some f => (active f, is_allowed f nr, kill_on_violation f) | None => (false, true, false) end in
  if negb filter_active || allowed then Allow else if kill then Kill else Deny.

(** ** Programs in user memory *)
Definition read_le (mem : Z → Z) (a : Z) (n : nat) : Z := le_value (mem <$> seqZ a (Z.of_nat n)).

Definition read_insn (mem : Z → Z) (a : Z) : BpfInsn :=
  mkInsn (read_le mem a 2) (read_le mem (a + 2) 1) (read_le mem (a + 3) 1) (read_le mem (a + 4) 4).

Definition load_user_prog (mem : Z → Z) (prog_ptr : Z) : result Z (list BpfInsn) :=
  if prog_ptr =? 0 then Err (-22)
  else
    let len := read_le mem prog_ptr 2 in
    if (len =? 0) || (4096 <? len) then Err (-22)
    else
      let insn_ptr := read_le mem (wadd 64 prog_ptr 8) 8 in
      if insn_ptr =? 0 then Err (-22)
      else Ok ((λ i, read_insn mem (wadd 64 insn_ptr (i * 8))) <$> seqZ 0 len).

(** ** seccomp(2) and prctl(PR_SET_SECCOMP) *)
Definition SECCOMP_SET_MODE_STRICT : Z := 0.
Definition SECCOMP_SET_MODE_FILTER : Z := 1.
Definition SECCOMP_GET_ACTION_AVAIL : Z := 2.
Definition SECCOMP_FILTER_FLAG_LOG : Z := 2.
Definition SECCOMP_FILTER_FLAG_NEW_LISTENER : Z := 8.

Record ScWorld := mkSc { sc_table : Table; sc_notifs : NotifTable }.
Definition sc_update (f : Process → Process) (w : ScWorld) : ScWorld :=
  mkSc (with_current_mut (sc_table w) f) (sc_notifs w).
Definition set_notif_fd (id : Z) (c : FilterChain) : FilterChain := mkChain (filters c) (chain_mode c) (Some id).

(** The listener of a new filter: a notification queue and a descriptor for
    it; [None] when the search for a free descriptor does not end. *)
Definition add_listener (w : ScWorld) : option (ScWorld * Z) :=
  let '(nt, id) := create_notif_fd (sc_notifs w) in
  let w1 := mkSc (sc_table w) nt in
  match procs (sc_table w1) !! current (sc_table w1) with
  | None => Some (w1, -1)
  | Some p =>
      '(p', n) ← alloc_fd (Z.to_nat 1021) (mkFd id 0 0 (Process.SeccompNotif id)) p;
      Some (sc_update (λ p, set_seccomp (set_notif_fd id (p_seccomp p)) p) (sc_update (λ _, p') w1), to_signed 32 n)
  end.

Definition sys_seccomp_real (mem : Z → Z) (op flags args : Z) (w : ScWorld) : option (ScWorld * Z) :=
  if op =? SECCOMP_SET_MODE_STRICT then Some (sc_update (λ p, set_seccomp (set_strict (p_seccomp p)) p) w, 0)
  else if op =? SECCOMP_SET_MODE_FILTER then
    match load_user_prog mem args with
    | Err e => Some (w, e)
    | Ok prog =>
        match validate prog with
        | Err _ => Some (w, -22)
        | Ok _ =>
            let log := negb (Z.land flags SECCOMP_FILTER_FLAG_LOG =? 0) in
            let listener := negb (Z.land flags SECCOMP_FILTER_FLAG_NEW_LISTENER =? 0) in
            let w1 := sc_update (λ p, set_seccomp (install (p_seccomp p) (mkFilter prog log)) p) w in
            if listener then add_listener w1 else Some (w1, 0)
        end
    end
  else if op =? SECCOMP_GET_ACTION_AVAIL then
    Some (w, if negb (args =? 0) && existsb (Z.eqb (wrap 32 args))
                  [SECCOMP_RET_KILL; SECCOMP_RET_KILL_PROCESS; SECCOMP_RET_TRAP; SECCOMP_RET_ERRNO;
                   SECCOMP_RET_TRACE; SECCOMP_RET_LOG; SECCOMP_RET_ALLOW] then 0 else -22)
  else Some (w, -22).

Definition sys_prctl_seccomp (mem : Z → Z) (mode prog_ptr : Z) (w : ScWorld) : option (ScWorld * Z) :=
  if mode =? SECCOMP_MODE_STRICT then Some (sc_update (λ p, set_seccomp (set_strict (p_seccomp p)) p) w, 0)
  else if mode =? SECCOMP_MODE_FILTER then sys_seccomp_real mem SECCOMP_SET_MODE_FILTER 0 prog_ptr w
  else Some (w, -22).

(** [notif_fd_ioctl]: the user buffer is [None] for a null pointer, else what
    it holds when read at each type; the notification copied out, if any. *)
Record NotifArg := mkNotifArg { at_resp : SeccompNotifResp; at_id : Z }.
Definition notif_fd_ioctl (fd_id request : Z) (arg : option NotifArg) (t : NotifTable)
    : NotifTable * Z * option Seccomp.SeccompNotif :=
  if request =? 0xC0500000 then
    match states t !! fd_id ≫= recv_notif with
    | Some n => (t, 0, match arg with Some _ => Some n | None => None end)
    | None => (t, -11, None)
    end
  else if request =? 0xC0180001 then
    match arg with
    | None => (t, -22, None)
    | Some a =>
        match states t !! fd_id with
        | Some ns =>
            let '(ns', ok) := send_response ns (at_resp a) in
            (mkNotifTable (<[fd_id := ns']> (states t)) (next_notif_fd t), if ok then 0 else -22, None)
        | None => (t, -9, None)
        end
    end
  else if request =? 0x40080002 then
    match arg with
    | None => (t, -22, None)
    | Some a =>
        match states t !! fd_id with
        | Some ns => (t, if id_valid ns (at_id a) then 0 else -22, None)
        | None => (t, -9, None)
        end
    end
  else (t, -22, None).

(** ** Dispatch *)
Definition NR_SYSCALLS : Z := 512.

(** What [dispatch] decides before a handler of the table runs: [Unchecked]
    for the calls it serves itself, a return value, the signal SIGSYS with
    result -1, or the handler. *)
Inductive Gate :=
  | Unchecked
  | Return (v : Z)
  | Sigsys
  | Handler.
#[export] Instance Gate_eq_dec : EqDecision Gate.
Proof. solve_decision. Defined.

Definition dispatch_gate (pid : Z) (chain : option FilterChain) (filter : option SyscallFilter)
    (nr ip : Z) (args : list Z) : Gate :=
  if (nr =? 217) || (nr =? 72) || (nr =? 240) then Unchecked
  else if NR_SYSCALLS <=? nr then Return (-38)
  else
    let '(sc_result, sc_errno) := (check_seccomp pid chain nr ip args).1 in
    match sc_result with
    | Deny => Return (- Z.max (Z.abs sc_errno) 1)
    | Kill => Sigsys
    | Allow =>
        match current_filter_check filter nr with
        | Allow => Handler
        | Deny => Return (-1)
        | Kill => Sigsys
        end
    end.

(** ** Lemmas *)
Record filter_wf (f : SyscallFilter) : Prop := {
  filter_words : length (bitmap f) = 8%nat;
  filter_u64 : Forall is_u64 (bitmap f);
}.

Definition word_at (f : SyscallFilter) (i : Z) : Z := default 0 (bitmap f !! Z.to_nat i).

Lemma is_allowed_bit f nr :
  active f = true → 0 ≤ nr < 512 → is_allowed f nr = Z.testbit (word_at f (nr / 64)) (nr mod 64).
Proof.
  intros Ha Hn. unfold is_allowed. rewrite Ha. replace (512 <=? nr) with false by lia. cbn [negb orb].
  apply word_test, Z.mod_pos_bound. lia.
Qed.

Lemma index_split a b : 0 ≤ a → 0 ≤ b → (a / 64 = b / 64 ∧ a mod 64 = b mod 64) ↔ a = b.
Proof. intros. pose proof (Z.div_mod a 64). pose proof (Z.div_mod b 64). split; [|by intros ->]. lia. Qed.

(** Changing one word of the bitmap. *)
Lemma word_at_alter f g n m a k :
  length (bitmap f) = 8%nat → 0 ≤ n < 512 → 0 ≤ m < 512 →
  word_at (mkSysFilter (alter g (Z.to_nat (n / 64)) (bitmap f)) a k) (m / 64) =
    if decide (m / 64 = n / 64) then g (word_at f (m / 64)) else word_at f (m / 64).
Proof.
  intros Hl Hn Hm. unfold word_at. cbn [bitmap].
  assert (0 ≤ n / 64 < 8) as Hn8 by (split; [apply Z.div_pos; lia|apply Z.div_lt_upper_bound; lia]).
  assert (0 ≤ m / 64 < 8) as Hm8 by (split; [apply Z.div_pos; lia|apply Z.div_lt_upper_bound; lia]).
  case_decide as He.
  - rewrite He, list_lookup_alter_eq. destruct (bitmap f !! Z.to_nat (n / 64)) eqn:E; [done|].
    apply lookup_ge_None in E. lia.
  - rewrite list_lookup_alter_ne by lia. done.
Qed.

Lemma allow_bit f n m :
  filter_wf f → active f = true → 0 ≤ n < 512 → 0 ≤ m < 512 →
  is_allowed (allow n f) m = bool_decide (m = n) || is_allowed f m.
Proof.
  intros [Hl _] Ha Hn Hm. assert (active (allow n f) = true) as Ha' by (unfold allow; by case_match).
  rewrite !is_allowed_bit by done. unfold allow. replace (n <? 512) with true by lia. rewrite word_at_alter by done.
  pose proof (index_split m n ltac:(lia) ltac:(lia)) as Hi. pose proof (Z.mod_pos_bound m 64). pose proof (Z.mod_pos_bound n 64).
  case_decide as He.
  - rewrite word_set_testbit by lia. repeat case_bool_decide; try done; tauto.
  - case_bool_decide; [tauto|done].
Qed.

Lemma deny_bit f n m :
  filter_wf f → active f = true → 0 ≤ n < 512 → 0 ≤ m < 512 →
  is_allowed (deny n f) m = negb (bool_decide (m = n)) && is_allowed f m.
Proof.
  intros [Hl _] Ha Hn Hm. assert (active (deny n f) = true) as Ha' by (unfold deny; by case_match).
  rewrite !is_allowed_bit by done. unfold deny. replace (n <? 512) with true by lia. rewrite word_at_alter by done.
  pose proof (index_split m n ltac:(lia) ltac:(lia)) as Hi. pose proof (Z.mod_pos_bound m 64). pose proof (Z.mod_pos_bound n 64).
  case_decide as He.
  - rewrite word_clr_testbit by lia. destruct (Z.testbit _ _); repeat case_bool_decide; try done; tauto.
  - case_bool_decide; [tauto|done].
Qed.

(** A statement on all system-call numbers by computation. *)
Lemma all_nrs (P : Z → bool) nr : forallb P (seqZ 0 512) = true → 0 ≤ nr < 512 → P nr = true.
Proof. intros H Hn. rewrite forallb_forall in H. apply H, list_elem_of_In, elem_of_seqZ. lia. Qed.

(** Bytes in memory. *)
Definition stores (mem : Z → Z) (a : Z) (bs : list Z) : Prop := mem <$> seqZ a (Z.of_nat (length bs)) = bs.

Lemma stores_app mem a bs bs' :
  stores mem a (bs ++ bs') ↔ stores mem a bs ∧ stores mem (a + Z.of_nat (length bs)) bs'.
Proof.
  unfold stores. rewrite length_app, Nat2Z.inj_add, seqZ_app, fmap_app by lia. split.
  - intros H. apply app_inj_1 in H; [done|]. rewrite length_fmap, length_seqZ. lia.
  - by intros [-> ->].
Qed.

Lemma read_le_stores mem a n v : stores mem a (le_bytes n v) → in_range (8 * Z.of_nat n) v → read_le mem a n = v.
Proof. unfold stores, read_le. rewrite length_le_bytes. intros -> Hv. rewrite le_value_bytes. by apply wrap_small. Qed.

Definition encode_insn (i : BpfInsn) : list Z :=
  le_bytes 2 (code i) ++ le_bytes 1 (jt i) ++ le_bytes 1 (jf i) ++ le_bytes 4 (k i).

Lemma read_insn_stores mem a i : insn_wf i → stores mem a (encode_insn i) → read_insn mem a = i.
Proof.
  intros (H1 & H2 & H3 & H4). unfold encode_insn. rewrite !stores_app, !length_le_bytes. intros (S1 & S2 & S3 & S4).
  unfold read_insn. rewrite (read_le_stores _ _ _ _ S1) by done.
  change (a + 2) with (a + Z.of_nat 2). rewrite (read_le_stores _ _ _ _ S2) by done.
  replace (a + 3) with (a + Z.of_nat 2 + Z.of_nat 1) by lia. rewrite (read_le_stores _ _ _ _ S3) by done.
  replace (a + 4) with (a + Z.of_nat 2 + Z.of_nat 1 + Z.of_nat 1) by lia. rewrite (read_le_stores _ _ _ _ S4) by done.
  by destruct i.
Qed.

Lemma read_prog_stores mem prog a :
  Forall insn_wf prog → stores mem a (prog ≫= encode_insn) →
  (λ i, read_insn mem (a + i * 8)) <$> seqZ 0 (Z.of_nat (length prog)) = prog.
Proof.
  intros Hwf. revert a. induction Hwf as [|i prog Hi Hwf IH]; intros a Hs; [done|].
  change ((i :: prog) ≫= encode_insn) with (encode_insn i ++ (prog ≫= encode_insn)) in Hs.
  apply stores_app in Hs as [S1 S2]. change (length (encode_insn i)) with 8%nat in S2. cbn [length].
  rewrite seqZ_cons by lia. rewrite fmap_cons. f_equal; [rewrite Z.add_0_r; by apply read_insn_stores|].
  rewrite <-(IH _ S2) at 2. replace (Z.pred (Z.of_nat (S (length prog)))) with (Z.of_nat (length prog)) by lia.
  change (Z.succ 0) with (1 + 0). rewrite <-fmap_add_seqZ, <-list_fmap_compose. apply list_fmap_ext. intros _ j _. cbn. f_equal. lia.
Qed.

(** Every filter of every process has passed the validator. *)
Definition chains_ok (w : ScWorld) : Prop :=
  ∀ pid p, procs (sc_table w) !! pid = Some p → Forall (λ f, validate (insns f) = Ok tt) (filters (p_seccomp p)).

Lemma sc_update_ok f w :
  (∀ p, Forall (λ f, validate (insns f) = Ok tt) (filters (p_seccomp p)) →
        Forall (λ f, validate (insns f) = Ok tt) (filters (p_seccomp (f p)))) →
  chains_ok w → chains_ok (sc_update f w).
Proof.
  intros Hf Hok pid p. cbn [sc_update sc_table with_current_mut with_process_mut procs].
  destruct (decide (pid = current (sc_table w))) as [->|Hne].
  - rewrite lookup_alter_eq. intros (q & Hq & ->)%fmap_Some. eauto.
  - rewrite lookup_alter_ne by done. apply Hok.
Qed.

Lemma alloc_fd_seccomp fuel f p p' n : alloc_fd fuel f p = Some (p', n) → p_seccomp p' = p_seccomp p.
Proof. unfold alloc_fd. destruct (loop_nat _ _ _); [done|]. by intros [= <- _]. Qed.

Lemma add_listener_ok w w' r : chains_ok w → add_listener w = Some (w', r) → chains_ok w'.
Proof.
  intros Hok. unfold add_listener. destruct (create_notif_fd (sc_notifs w)) as [nt id]. cbn [sc_table].
  destruct (procs (sc_table w) !! current (sc_table w)) as [p|] eqn:Ep; [|by intros [= <- _]].
  destruct (alloc_fd _ _ p) as [[p' n]|] eqn:E; [|done]. cbn [mbind option_bind]. intros [= <- _]. apply alloc_fd_seccomp in E.
  apply sc_update_ok; [done|]. intros pid q. cbn [sc_update sc_table with_current_mut with_process_mut procs].
  destruct (decide (pid = current (sc_table w))) as [->|Hne].
  - rewrite lookup_alter_eq, Ep. intros [= <-]. rewrite E. by apply (Hok (current (sc_table w)) p).
  - rewrite lookup_alter_ne by done. apply Hok.
Qed.

Lemma seccomp_ok mem op flags args w w' r :
  chains_ok w → sys_seccomp_real mem op flags args w = Some (w', r) → chains_ok w'.
Proof.
  intros Hok. unfold sys_seccomp_real. destruct (op =? _); [intros [= <- _]; by apply sc_update_ok|].
  destruct (op =? SECCOMP_SET_MODE_FILTER); [|destruct (op =? SECCOMP_GET_ACTION_AVAIL); by intros [= <- _]].
  destruct (load_user_prog mem args) as [prog|e]; [|by intros [= <- _]].
  destruct (validate prog) as [[]|e] eqn:Ev; [|by intros [= <- _]].
  set (w1 := sc_update _ w). assert (chains_ok w1) as Hok1.
  { apply sc_update_ok; [|done]. intros p Hp. cbn [set_seccomp p_seccomp install filters]. apply Forall_app. split; [done|].
    by constructor. }
  destruct (Z.land flags SECCOMP_FILTER_FLAG_NEW_LISTENER =? 0); cbn [negb]; [by intros [= <- _]|by apply add_listener_ok].
Qed.

(** ** Theorems *)

(** The bitmap is a set of system-call numbers: [allow] adds one number,
    [deny] removes one, and no other number is affected; numbers past the
    bitmap are always allowed. *)
Theorem filter_bitmap f n m :
  filter_wf f → active f = true → 0 ≤ n < 512 → 0 ≤ m →
  is_allowed (allow n f) m = (bool_decide (m = n) || is_allowed f m) ∧
  is_allowed (deny n f) m = (negb (bool_decide (m = n)) && is_allowed f m).
Proof.
  intros Hwf Ha Hn Hm. destruct (Z.lt_ge_cases m 512); [split; [by apply allow_bit|by apply deny_bit]|].
  rewrite bool_decide_eq_false_2 by lia. unfold is_allowed, allow, deny. replace (n <? 512) with true by lia. cbn [active].
  replace (512 <=? m) with true by lia. by rewrite !orb_true_r.
Qed.

(** The profiles: [minimal] lets exactly its six calls pass,
    [network_service] lets everything pass that [shell] does, and [shell]
    none of the socket calls 41 to 55. *)
Theorem profiles_spec nr :
  0 ≤ nr < 512 →
  is_allowed minimal nr = existsb (Z.eqb nr) [0; 1; 60; 231; 35; 39] ∧
  (is_allowed shell nr = true → is_allowed network_service nr = true) ∧
  (41 ≤ nr ≤ 55 → is_allowed shell nr = false ∧ is_allowed network_service nr = true).
Proof.
  intros Hn.
  pose proof (all_nrs (λ nr, eqb (is_allowed minimal nr) (existsb (Z.eqb nr) [0; 1; 60; 231; 35; 39])) nr ltac:(vm_compute; reflexivity) Hn) as H1.
  pose proof (all_nrs (λ nr, implb (is_allowed shell nr) (is_allowed network_service nr)) nr ltac:(vm_compute; reflexivity) Hn) as H2.
  pose proof (all_nrs (λ nr, implb ((41 <=? nr) && (nr <=? 55)) (negb (is_allowed shell nr) && is_allowed network_service nr)) nr
    ltac:(vm_compute; reflexivity) Hn) as H3. cbv beta in *.
  split_and!; [by apply eqb_prop|by intros Hs; rewrite Hs in H2|].
  intros H. replace ((41 <=? nr) && (nr <=? 55)) with true in H3 by lia. cbn [implb] in H3. apply andb_prop in H3 as [H3 ?].
  split; [by apply negb_true_iff|done].
Qed.

(** A program laid out in user memory the way [sock_fprog] describes is the
    program that is loaded. *)
Theorem load_user_prog_roundtrip mem prog ptr insn_ptr :
  Forall insn_wf prog → 0 < Z.of_nat (length prog) ≤ 4096 → 0 < ptr < 2 ^ 63 → 0 < insn_ptr < 2 ^ 63 →
  stores mem ptr (le_bytes 2 (Z.of_nat (length prog))) → stores mem (ptr + 8) (le_bytes 8 insn_ptr) →
  stores mem insn_ptr (prog ≫= encode_insn) →
  load_user_prog mem ptr = Ok prog.
Proof.
  intros Hwf Hl Hp Hi S1 S2 S3. unfold load_user_prog. replace (ptr =? 0) with false by lia.
  rewrite (read_le_stores _ _ _ _ S1) by (unfold in_range; lia).
  replace (_ || _) with false by (symmetry; apply orb_false_iff; lia).
  rewrite wadd_small by lia. rewrite (read_le_stores _ _ _ _ S2) by (unfold in_range; lia). replace (insn_ptr =? 0) with false by lia.
  f_equal. rewrite <-(read_prog_stores mem prog insn_ptr Hwf S3) at 2. apply list_fmap_ext. intros i j Hj.
  apply lookup_seqZ in Hj as [-> Hj]. by rewrite wadd_small by lia.
Qed.

(** C32. Only validated programs are ever installed: whatever user memory holds
    and whatever the arguments are, [seccomp] and [prctl] keep the invariant
    that every filter of every process passes the validator; a failing
    [SECCOMP_SET_MODE_FILTER] without a listener leaves the state as it was, a
    successful one adds the program it loaded to the caller's chain. *)
Theorem seccomp_installs_validated mem flags args w w' r :
  chains_ok w →
  (∀ op, sys_seccomp_real mem op flags args w = Some (w', r) → chains_ok w') ∧
  (∀ mode, sys_prctl_seccomp mem mode args w = Some (w', r) → chains_ok w') ∧
  (Z.land flags SECCOMP_FILTER_FLAG_NEW_LISTENER = 0 →
   sys_seccomp_real mem SECCOMP_SET_MODE_FILTER flags args w = Some (w', r) →
   (r = -22 ∧ w' = w) ∨
   (r = 0 ∧ ∃ prog log, load_user_prog mem args = Ok prog ∧ validate prog = Ok tt ∧
      w' = sc_update (λ p, set_seccomp (install (p_seccomp p) (mkFilter prog log)) p) w)).
Proof.
  intros Hok. split; [intros op; by apply seccomp_ok|]. split.
  - intros mode. unfold sys_prctl_seccomp. destruct (mode =? _); [intros [= <- _]; by apply sc_update_ok|].
    destruct (mode =? _); [by apply seccomp_ok|by intros [= <- _]].
  - intros Hl. unfold sys_seccomp_real. cbn [Z.eqb SECCOMP_SET_MODE_FILTER SECCOMP_SET_MODE_STRICT Pos.eqb]. rewrite Hl. cbn [Z.eqb negb].
    destruct (load_user_prog mem args) as [prog|e] eqn:El.
    + destruct (validate prog) as [[]|e] eqn:Ev; intros [= <- <-]; [right|by left]. split; [done|]. eauto 10.
    + intros [= <- <-]. left. split; [|done]. unfold load_user_prog in El. repeat case_match; congruence.
Qed.

(** What runs: past its special cases, [dispatch] reaches the handler of a
    call exactly when the number is in the table and both the seccomp chain
    and the bitmap filter allow it. *)
Theorem gate_handler pid chain filter nr ip args :
  dispatch_gate pid chain filter nr ip args = Handler ↔
  nr ∉ [217; 72; 240] ∧ nr < NR_SYSCALLS ∧ (check_seccomp pid chain nr ip args).1.1 = Allow ∧
  current_filter_check filter nr = Allow.
Proof.
  unfold dispatch_gate, NR_SYSCALLS. rewrite !not_elem_of_cons. pose proof (not_elem_of_nil nr).
  destruct (Z.eqb_spec nr 217), (Z.eqb_spec nr 72), (Z.eqb_spec nr 240); cbn [orb]; try (split; [done|]; by intros ((? & ? & ? & _) & _)).
  destruct (Z.leb_spec 512 nr); [split; [done|lia]|].
  destruct (check_seccomp pid chain nr ip args).1 as [[] e]; cbn [fst]; destruct (current_filter_check filter nr);
    split; try done; intros (_ & _ & ? & ?); done.
Qed.

(** No sandbox confines three calls: [getdents64], [fcntl] and call 240 are
    served before the checks, for a process in strict mode with a bitmap that
    denies everything too, although both layers forbid them. *)
Theorem gate_unchecked pid c nr ip args :
  nr ∈ [217; 72; 240] →
  (check_seccomp pid (Some (set_strict c)) nr ip args).1 = (Kill, 0) ∧ current_filter_check (Some deny_all) nr = Kill ∧
  dispatch_gate pid (Some (set_strict c)) (Some deny_all) nr ip args = Unchecked.
Proof. intros Hn. repeat (apply elem_of_cons in Hn as [->|Hn]; [done|]). by apply elem_of_nil in Hn. Qed.

(** Strict mode relaxes: a process whose filters kill a call that strict
    mode knows can switch to strict mode, after which its filters are no
    longer consulted and the call is allowed. *)
Theorem strict_relaxes pid c d :
  (run_chain pid c d).1 = (Kill, 0) → strict_allows (nr d) = true →
  severity (run_chain pid (set_strict c) d).1.1 < severity (run_chain pid c d).1.1 ∧
  (run_chain pid (set_strict c) d).1 = (Allow, 0).
Proof.
  intros -> Hs. assert ((run_chain pid (set_strict c) d).1 = (Allow, 0)) as ->; [|done].
  unfold run_chain. cbn [set_strict chain_mode]. by rewrite Z.eqb_refl, Hs.
Qed.

(** ** Witnesses *)
Lemma filter_bitmap_witness : is_allowed (allow 59 deny_all) 59 = true ∧ is_allowed (deny 59 deny_all) 60 = false.
Proof.
  assert (filter_wf deny_all) as Hwf by (split; [done|by apply Forall_replicate]).
  split; [exact (proj1 (filter_bitmap deny_all 59 59 Hwf eq_refl ltac:(lia) ltac:(lia)))|].
  exact (proj2 (filter_bitmap deny_all 59 60 Hwf eq_refl ltac:(lia) ltac:(lia))).
Defined.

Lemma profiles_spec_witness : is_allowed minimal 60 = true ∧ is_allowed shell 41 = false.
Proof.
  destruct (profiles_spec 60 ltac:(lia)) as [H _]. destruct (profiles_spec 41 ltac:(lia)) as (_ & _ & H').
  split; [exact H|exact (proj1 (H' ltac:(lia)))].
Defined.

(** Memory with [demo_filter] at 0x2000 and its descriptor at 0x1000. *)
Definition demo_mem (a : Z) : Z :=
  let bytes := demo_filter ≫= encode_insn in
  if (0x1000 <=? a) && (a <? 0x1002) then default 0 (le_bytes 2 (Z.of_nat (length demo_filter)) !! Z.to_nat (a - 0x1000))
  else if (0x1008 <=? a) && (a <? 0x1010) then default 0 (le_bytes 8 0x2000 !! Z.to_nat (a - 0x1008))
  else default 0 (bytes !! Z.to_nat (a - 0x2000)).

Lemma load_user_prog_roundtrip_witness : load_user_prog demo_mem 0x1000 = Ok demo_filter.
Proof.
  apply (load_user_prog_roundtrip demo_mem demo_filter 0x1000 0x2000); [exact demo_filter_wf| | | | | |];
    try (vm_compute; reflexivity); vm_compute; split; reflexivity || discriminate.
Defined.

Definition demo_sc : ScWorld := mkSc demo_table (mkNotifTable ∅ 300).
Lemma seccomp_installs_validated_witness :
  ∃ w', sys_seccomp_real demo_mem SECCOMP_SET_MODE_FILTER 0 0x1000 demo_sc = Some (w', 0) ∧ chains_ok w'.
Proof.
  assert (chains_ok demo_sc) as Hok.
  { intros pid p Hp. cbn [demo_sc sc_table demo_table procs] in Hp.
    apply lookup_insert_Some in Hp as [[_ <-]|[_ Hp]]; [constructor|]. apply lookup_singleton_Some in Hp as [_ <-]. constructor. }
  destruct (sys_seccomp_real demo_mem SECCOMP_SET_MODE_FILTER 0 0x1000 demo_sc) as [[w' r]|] eqn:E; [|by vm_compute in E].
  destruct (seccomp_installs_validated demo_mem 0 0x1000 demo_sc w' r Hok) as (H1 & _ & _). pose proof (H1 _ E) as Hw.
  assert (snd <$> sys_seccomp_real demo_mem SECCOMP_SET_MODE_FILTER 0 0x1000 demo_sc = Some 0) as Hr by (vm_compute; reflexivity).
  rewrite E in Hr. injection Hr as ->. exists w'. split; [reflexivity|exact Hw].
Defined.

Lemma gate_unchecked_witness : dispatch_gate 2 (Some (set_strict chain_new)) (Some deny_all) 72 0 [] = Unchecked.
Proof. apply (gate_unchecked 2 chain_new 72 0 []). apply elem_of_cons. right. apply elem_of_cons. by left. Defined.

(** A filter that kills every call, [write] included. *)
Definition kill_all : FilterChain := install chain_new (mkFilter [mkInsn 0x06 0 0 0] false).
Lemma strict_relaxes_witness : (run_chain 2 (set_strict kill_all) (demo_data 1)).1 = (Allow, 0).
Proof. apply (strict_relaxes 2 kill_all (demo_data 1)); vm_compute; reflexivity. Defined.
