(* ===== verification/Zswap.v ===== *)
(** * Compressed swap

    Models kernel/src/memory/zswap.rs: the LZ4 block codec, the checksum, the
    compressed page pool and the compressed block device.  Buffer positions
    and lengths are [nat] (Rust slices are shorter than 2^63); bytes are [Z].
    The outer option of an operation is a panic (slice out of range).  The
    hash table, an array of 65536 [u16] that starts as zeros, is a map with
    default 0.

    The codec is exact on every input of at least four bytes and its output
    is never much longer than its input; pool and block device inherit this:
    a page is read back as it was stored, and the device behaves as an array
    of sectors. *)
From S2P Require Import Prelude.

(** ** The LZ4 codec *)
Definition LZ4_MIN_MATCH : nat := 4.
Definition LZ4_HASH_BITS : Z := 16.
Definition LZ4_MAX_DISTANCE : Z := 65535.
Definition LZ4_SKIP_TRIGGER : nat := 6.

Definition lz4_hash (val : Z) : Z :=
  Z.shiftr (wmul 64 val 0x9E3779B97F4A7C15) (64 - LZ4_HASH_BITS).

(** [src[a..b]], for [a ≤ b ≤ src.len()]. *)
Definition slice (src : list Z) (a b : nat) : list Z := take (b - a) (drop a src).

Definition write_varint (out : list Z) (n : nat) : list Z :=
  match
    loop_nat (λ '(out, n),
      if (255 <=? n)%nat then inl (out ++ [255], (n - 255)%nat)
      else inr (out ++ [wrap 8 (Z.of_nat n)])) (S n) (out, n)
  with
  | inl (out, _) => out
  | inr out => out
  end.

(** The macro [read4!]. *)
Definition read4 (src : list Z) (p : nat) : Z :=
  if (p + 4 <=? length src)%nat then le_value (slice src p (p + 4)) else 0.

Record Lz4State := mkLz4 {
  hash_table : gmap Z Z;
  out : list Z;
  ip : nat;
  anchor : nat;
  step : nat;
  skip : nat;
}.

(** The length of the match of [ip] with [ref_pos], at least four. *)
Definition match_length (src : list Z) (ip ref_pos : nat) : nat :=
  match
    loop_nat (λ mat_len,
      if (ip + mat_len <? length src)%nat && (ref_pos + mat_len <? ip)%nat &&
         (src !!! (ip + mat_len)%nat =? src !!! (ref_pos + mat_len)%nat)
      then inl (S mat_len) else inr mat_len) (S (length src)) LZ4_MIN_MATCH
  with
  | inl m => m
  | inr m => m
  end.

(** The token and the literals of a sequence, as both branches write them. *)
Definition put_literals (out lits : list Z) (tok_mat : Z) : list Z :=
  let lit_len := length lits in
  let tok_lit := Z.of_nat (lit_len `min` 15) in
  let out := out ++ [Z.lor (wrap 8 (Z.shiftl tok_lit 4)) tok_mat] in
  let out := if (15 <=? lit_len)%nat then write_varint out (lit_len - 15) else out in
  out ++ lits.

(** One round of the search; [inr] when the condition of the loop fails. *)
Definition lz4_round (src : list Z) (s : Lz4State) : Lz4State + Lz4State :=
  let n := length src in
  if negb (ip s + LZ4_MIN_MATCH + 1 <? n)%nat then inr s
  else
    let seq := read4 src (ip s) in
    let h := lz4_hash seq in
    let ref_pos := Z.to_nat (default 0 (hash_table s !! h)) in
    let ht := <[h := wrap 16 (Z.of_nat (ip s))]> (hash_table s) in
    let dist := wsub 64 (Z.of_nat (ip s)) (Z.of_nat ref_pos) in
    if (dist <? LZ4_MAX_DISTANCE) && (0 <? dist) && (ref_pos + LZ4_MIN_MATCH <=? n)%nat &&
       (read4 src ref_pos =? seq)
    then
      let mat_len := match_length src (ip s) ref_pos in
      let enc_mat := (mat_len - LZ4_MIN_MATCH)%nat in
      let tok_mat := Z.of_nat (enc_mat `min` 15) in
      let o := put_literals (out s) (slice src (anchor s) (ip s)) tok_mat in
      let o := o ++ [wrap 8 dist; wrap 8 (Z.shiftr dist 8)] in
      let o := if (15 <=? enc_mat)%nat then write_varint o (enc_mat - 15) else o in
      inl (mkLz4 ht o (ip s + mat_len) (ip s + mat_len) 1 LZ4_SKIP_TRIGGER)
    else
      let skip' := (skip s - 1)%nat in
      inl (mkLz4 ht (out s) (ip s + step s) (anchor s)
             (if (skip' =? 0)%nat then S (step s) else step s)
             (if (skip' =? 0)%nat then LZ4_SKIP_TRIGGER else skip')).

Definition lz4_init : Lz4State := mkLz4 ∅ [] 0 0 1 LZ4_SKIP_TRIGGER.

(** The vector [out] at the end of [lz4_compress]; every round advances [ip],
    so as many rounds as there are bytes are enough. *)
Definition lz4_encode (src : list Z) : list Z :=
  let s := match loop_nat (lz4_round src) (S (length src)) lz4_init with inl s => s | inr s => s end in
  put_literals (out s) (drop (anchor s) src) 0.

(** [dst[..data.len()].copy_from_slice(data)]: panics when [dst] is shorter. *)
Definition copy_prefix (dst data : list Z) : option (list Z) :=
  if (length data <=? length dst)%nat then Some (data ++ drop (length data) dst) else None.

(** The result of the source and the buffer [dst] afterwards. *)
Definition lz4_compress (src dst : list Z) : option (option nat * list Z) :=
  if (length src <? LZ4_MIN_MATCH)%nat then
    dst ← copy_prefix dst src; Some (Some (length src), dst)
  else
    let out := lz4_encode src in
    if (length dst <=? length out)%nat then Some (None, dst)
    else dst ← copy_prefix dst out; Some (Some (length out), dst).

(** The loops that read an extended length: position and length, or the end
    of the input. *)
Definition read_length (src : list Z) (ip len : nat) : option (nat * nat) :=
  match
    loop_nat (λ '(ip, len),
      match src !! ip with
      | None => inr None
      | Some b =>
          let len := (len + Z.to_nat b)%nat in
          if b =? 255 then inl (S ip, len) else inr (Some (S ip, len))
      end) (S (length src)) (ip, len)
  with
  | inl _ => None
  | inr r => r
  end.

(** [for i in 0..n { dst[op + i] = dst[from + i] }]. *)
Fixpoint copy_match (n op from : nat) (dst : list Z) : list Z :=
  match n with
  | O => dst
  | S n => copy_match n (S op) (S from) (<[op := dst !!! from]> dst)
  end.

(** One round of the decoder over source position, output position and
    output; [inr] is a return. *)
Definition lz4_decode_round (src : list Z) (st : nat * nat * list Z) : nat * nat * list Z + bool * list Z :=
  let '(ip, op, dst) := st in
  let slen := length src in
  let dlen := length dst in
  match src !! ip with
  | None => inr (false, dst)
  | Some token =>
      let ip := S ip in
      let lit := Z.to_nat (Z.shiftr token 4) in
      match (if (lit =? 15)%nat then read_length src ip lit else Some (ip, lit)) with
      | None => inr (false, dst)
      | Some (ip, lit_len) =>
          if (slen <? ip + lit_len)%nat || (dlen <? op + lit_len)%nat then inr (false, dst)
          else
            let dst := list_inserts op (slice src ip (ip + lit_len)) dst in
            let ip := (ip + lit_len)%nat in
            let op := (op + lit_len)%nat in
            if (slen <=? ip)%nat then inr ((op =? dlen)%nat, dst)
            else if (slen <? ip + 2)%nat then inr (false, dst)
            else
              let offset := Z.to_nat (Z.lor (src !!! ip) (Z.shiftl (src !!! S ip) 8)) in
              let ip := (ip + 2)%nat in
              if (offset =? 0)%nat || (op <? offset)%nat then inr (false, dst)
              else
                let mat := (Z.to_nat (Z.land token 0xF) + LZ4_MIN_MATCH)%nat in
                match (if Z.land token 0xF =? 15 then read_length src ip mat else Some (ip, mat)) with
                | None => inr (false, dst)
                | Some (ip, mat_len) =>
                    if (dlen <? op + mat_len)%nat then inr (false, dst)
                    else inl (ip, (op + mat_len)%nat, copy_match mat_len op (op - offset) dst)
                end
      end
  end.

(** Every round reads a token, so the input's length bounds the rounds. *)
Definition lz4_decompress (src dst : list Z) : bool * list Z :=
  match loop_nat (lz4_decode_round src) (S (length src)) (0%nat, 0%nat, dst) with
  | inl (_, _, dst) => (false, dst)
  | inr r => r
  end.

Example lz4_example :
  let src := [1; 2; 3; 4; 1; 2; 3; 4; 1; 2; 3; 4; 9; 9; 9; 9; 9; 9; 9; 9; 9] in
  lz4_encode src =
    [0x40; 1; 2; 3; 4; 4; 0; 0; 4; 0; 0x10; 9; 1; 0; 0x40; 9; 9; 9; 9] ∧
  lz4_decompress (lz4_encode src) (replicate 21 0) = (true, src).
Proof. vm_compute. auto. Qed.

(** *** Lengths *)

(** What [write_varint] appends. *)
Definition varint (n : nat) : list Z := replicate (n / 255) 255 ++ [Z.of_nat (n mod 255)].

Lemma write_varint_eq o n : write_varint o n = o ++ varint n.
Proof.
  unfold write_varint.
  set (f := λ '(out, n), if (255 <=? n)%nat then _ else _).
  enough (∀ fuel n o, (n < fuel)%nat → loop_nat f fuel (o, n) = inr (o ++ varint n)) as -> by (done || lia).
  clear o n. induction fuel as [|fuel IH]; intros n o Hn; [lia|].
  rewrite loop_nat_S. subst f. cbn beta iota. destruct (Nat.leb_spec 255 n) as [Hge|Hlt].
  - rewrite IH by lia. f_equal. rewrite <- (assoc_L (++)). f_equal. unfold varint.
    assert (n / 255 = S ((n - 255) / 255))%nat as ->.
    { replace n with ((n - 255) + 1 * 255)%nat at 1 by lia. rewrite Nat.div_add by lia. lia. }
    assert (n mod 255 = (n - 255) mod 255)%nat as ->; [|done].
    replace n with ((n - 255) + 1 * 255)%nat at 1 by lia. by rewrite Nat.Div0.mod_add.
  - f_equal. unfold varint. rewrite Nat.div_small, Nat.mod_small by done. cbn [replicate app].
    rewrite wrap_small; [done|unfold in_range; lia].
Qed.

Lemma length_varint n : length (varint n) = S (n / 255).
Proof. unfold varint. rewrite length_app, length_replicate. simpl. lia. Qed.

(** Reading the head of a suffix. *)
Lemma drop_cons_inv {A} (l : list A) i x r : drop i l = x :: r → l !! i = Some x ∧ drop (S i) l = r.
Proof.
  intros H. split.
  - rewrite <- (Nat.add_0_r i), <- lookup_drop, H. done.
  - rewrite <- (Nat.add_1_r i), <- drop_drop, H. done.
Qed.

Lemma drop_app_inv {A} (l : list A) i x r :
  drop i l = x ++ r → drop (i + length x) l = r ∧ take (length x) (drop i l) = x.
Proof.
  intros H. split; [rewrite <- drop_drop, H; apply drop_app_length|rewrite H; apply take_app_length].
Qed.

Lemma read_length_varint src ip len n rest :
  drop ip src = varint n ++ rest →
  read_length src ip len = Some (ip + length (varint n), len + n)%nat.
Proof.
  intros Hd. unfold read_length.
  set (f := λ '(ip, len), match src !! ip with None => _ | Some b => _ end).
  assert (∀ k b ip len fuel, (k < fuel)%nat → 0 ≤ b < 255 →
    drop ip src = replicate k 255 ++ b :: rest →
    loop_nat f fuel (ip, len) = inr (Some (ip + S k, len + (k * 255 + Z.to_nat b))%nat)) as Hloop.
  { clear. induction k as [|k IH]; intros b ip len [|fuel] Hf Hb Hd; try lia;
      rewrite loop_nat_S; subst f; cbn beta iota; cbn [replicate app] in Hd;
      apply drop_cons_inv in Hd as [-> Hd]; cbn zeta.
    - destruct (Z.eqb_spec b 255); [lia|]. do 3 f_equal; lia.
    - change (255 =? 255) with true. cbn iota. rewrite (IH b) by (done || lia).
      do 3 f_equal; lia. }
  pose proof (Nat.mod_upper_bound n 255 ltac:(lia)) as Hm.
  pose proof (Nat.div_mod_eq n 255) as Hdm.
  unfold varint in Hd. rewrite <- (assoc_L (++)) in Hd. cbn [app] in Hd.
  rewrite (Hloop (n / 255)%nat (Z.of_nat (n mod 255))); [|..|exact Hd]; [|apply (f_equal length) in Hd|lia].
  - rewrite length_varint. do 2 f_equal; lia.
  - rewrite length_drop, length_app, length_replicate in Hd. cbn [length] in Hd. lia.
Qed.

(** What [put_literals] appends. *)
Definition ext_length (n : nat) : list Z := if (15 <=? n)%nat then varint (n - 15) else [].
Definition lit_bytes (lits : list Z) (tok_mat : Z) : list Z :=
  (Z.of_nat (length lits `min` 15) * 16 + tok_mat) :: ext_length (length lits) ++ lits.

Lemma token_fields l t :
  0 ≤ l < 16 → 0 ≤ t < 16 →
  Z.lor (wrap 8 (Z.shiftl l 4)) t = l * 16 + t ∧
  Z.shiftr (l * 16 + t) 4 = l ∧ Z.land (l * 16 + t) 0xF = t.
Proof.
  intros Hl Ht. rewrite Z.shiftl_mul_pow2 by lia. change (2 ^ 4) with 16.
  rewrite wrap_small by (unfold in_range; lia). split_and!.
  - rewrite <- Z.add_lor_land, Z.add_comm. cut (Z.land (l * 16) t = 0); [lia|].
    change 16 with (2 ^ 4). rewrite <- Z.shiftl_mul_pow2 by lia.
    apply Z.bits_inj'. intros i Hi. rewrite Z.land_spec, Z.bits_0.
    destruct (Z.lt_ge_cases i 4); [by rewrite Z.shiftl_spec_low|].
    rewrite (testbit_above 4 t); [apply andb_false_r|unfold in_range; lia|lia].
  - rewrite Z.shiftr_div_pow2 by lia. change (2 ^ 4) with 16. rewrite Z.div_add_l by lia.
    rewrite Z.div_small by lia. lia.
  - change 0xF with (Z.ones 4). rewrite Z.land_ones by lia. change (2 ^ 4) with 16.
    rewrite Z.add_comm, Z.mod_add by lia. by apply Z.mod_small.
Qed.

Lemma put_literals_eq o lits t :
  0 ≤ t < 16 → put_literals o lits t = o ++ lit_bytes lits t.
Proof.
  intros Ht. unfold put_literals, lit_bytes, ext_length. cbn zeta.
  destruct (token_fields (Z.of_nat (length lits `min` 15)) t) as [-> _]; [lia|done|].
  destruct (Nat.leb_spec 15 (length lits)); [rewrite write_varint_eq|];
    rewrite <- ?(assoc_L (++)); done.
Qed.

Lemma ext_length_read src ip n k rest :
  drop ip src = ext_length n ++ rest →
  (if (n `min` 15 =? 15)%nat then read_length src ip (n `min` 15 + k) else Some (ip, n `min` 15 + k)%nat)
  = Some (ip + length (ext_length n), n + k)%nat.
Proof.
  unfold ext_length. destruct (Nat.leb_spec 15 n) as [Hn|Hn]; intros Hd.
  - rewrite Nat.min_r, Nat.eqb_refl, (read_length_varint _ _ _ _ _ Hd) by done. do 2 f_equal. lia.
  - rewrite Nat.min_l by lia. destruct (Nat.eqb_spec n 15); [lia|]. cbn [length]. do 2 f_equal. lia.
Qed.

(** *** The decoder undoes one sequence *)
Definition seq_bytes (lits : list Z) (dist : Z) (mat_len : nat) : list Z :=
  lit_bytes lits (Z.of_nat ((mat_len - LZ4_MIN_MATCH) `min` 15)) ++
  [wrap 8 dist; wrap 8 (Z.shiftr dist 8)] ++ ext_length (mat_len - LZ4_MIN_MATCH).

Lemma offset_bytes dist :
  in_range 16 dist → Z.lor (wrap 8 dist) (Z.shiftl (wrap 8 (Z.shiftr dist 8)) 8) = dist.
Proof.
  intros Hd. apply Z.bits_inj'. intros i Hi. unfold wrap. rewrite Z.lor_spec.
  destruct (Z.lt_ge_cases i 8).
  - rewrite Z.mod_pow2_bits_low, Z.shiftl_spec_low by lia. apply orb_false_r.
  - rewrite Z.mod_pow2_bits_high, Z.shiftl_spec by lia.
    destruct (Z.lt_ge_cases i 16).
    + rewrite Z.mod_pow2_bits_low, Z.shiftr_spec by lia. cbn [orb]. f_equal. lia.
    + rewrite Z.mod_pow2_bits_high by lia. symmetry. by apply (testbit_above 16).
Qed.

(** Token and literals, at the start of both kinds of sequence. *)
Lemma decode_literals comp ip lits t rest :
  0 ≤ t < 16 → drop ip comp = lit_bytes lits t ++ rest →
  ∃ token ip', comp !! ip = Some token ∧ Z.land token 0xF = t ∧
    (let lit := Z.to_nat (Z.shiftr token 4) in
     if (lit =? 15)%nat then read_length comp (S ip) lit else Some (S ip, lit)) = Some (ip', length lits) ∧
    (ip' + length lits = ip + length (lit_bytes lits t))%nat ∧
    slice comp ip' (ip' + length lits) = lits ∧
    drop (ip' + length lits) comp = rest ∧ (ip' + length lits + length rest = length comp)%nat.
Proof.
  intros Ht Hd. unfold lit_bytes in Hd. cbn [app] in Hd. rewrite <- (assoc_L (++)) in Hd.
  pose proof Hd as Hlen. apply (f_equal length) in Hlen. rewrite length_drop in Hlen.
  cbn [length] in Hlen. rewrite !length_app in Hlen.
  apply drop_cons_inv in Hd as [Htok Hd].
  pose proof (ext_length_read _ _ _ 0 _ Hd) as Hext.
  apply drop_app_inv in Hd as [Hlits _]. destruct (drop_app_inv _ _ _ _ Hlits) as [Hrest Htake].
  destruct (token_fields (Z.of_nat (length lits `min` 15)) t) as (_ & Hhi & Hlo); [lia|done|].
  eexists _, _. split_and!; [exact Htok|exact Hlo| | | |exact Hrest|]; cbn zeta.
  - rewrite Hhi, Nat2Z.id. rewrite !Nat.add_0_r in Hext. exact Hext.
  - unfold lit_bytes. cbn [length]. rewrite length_app. lia.
  - unfold slice. replace (_ + length lits - _)%nat with (length lits) by lia. exact Htake.
  - lia.
Qed.

Lemma lz4_decode_seq comp ip op dst lits dist mat rest :
  drop ip comp = seq_bytes lits dist mat ++ rest →
  (LZ4_MIN_MATCH ≤ mat)%nat → 0 < dist < 65536 → (Z.to_nat dist ≤ op + length lits)%nat →
  (op + length lits + mat ≤ length dst)%nat →
  lz4_decode_round comp (ip, op, dst) =
    inl (ip + length (seq_bytes lits dist mat), op + length lits + mat,
         copy_match mat (op + length lits) (op + length lits - Z.to_nat dist) (list_inserts op lits dst))%nat.
Proof.
  intros Hd Hmat Hdist Hback Hfit. unfold LZ4_MIN_MATCH in *.
  unfold seq_bytes, LZ4_MIN_MATCH in Hd. rewrite <- !(assoc_L (++)) in Hd.
  apply decode_literals in Hd as (token & ip' & Htok & Hlo & Hlen & Hip & Hsl & Hrest & Hcl); [|lia].
  cbn zeta in Hlen. cbn [app] in Hrest.
  apply drop_cons_inv in Hrest as [Hb0 Hrest]. apply drop_cons_inv in Hrest as [Hb1 Hrest].
  rewrite length_app in Hcl. cbn [length] in Hcl.
  pose proof (ext_length_read _ _ _ 4 _ Hrest) as Hext.
  unfold lz4_decode_round. cbn zeta. rewrite Htok, Hlen, Hsl.
  rewrite (proj2 (Nat.ltb_ge _ _)) by lia. rewrite (proj2 (Nat.ltb_ge (length dst) _)) by lia. cbn [orb].
  rewrite (proj2 (Nat.leb_gt _ _)) by lia. rewrite (proj2 (Nat.ltb_ge _ (_ + 2))) by lia.
  rewrite (list_lookup_total_correct _ _ _ Hb0), (list_lookup_total_correct _ _ _ Hb1).
  rewrite offset_bytes by (unfold in_range; lia).
  rewrite (proj2 (Nat.eqb_neq _ _)) by lia. rewrite (proj2 (Nat.ltb_ge _ (Z.to_nat dist))) by lia. cbn [orb].
  rewrite Hlo, Nat2Z.id. replace (ip' + length lits + 2)%nat with (S (S (ip' + length lits))) by lia.
  replace (Z.of_nat ((mat - 4) `min` 15) =? 15) with ((mat - 4) `min` 15 =? 15)%nat
    by (destruct (Nat.eqb_spec ((mat - 4) `min` 15) 15), (Z.eqb_spec (Z.of_nat ((mat - 4) `min` 15)) 15); lia).
  unfold LZ4_MIN_MATCH. rewrite Hext. rewrite (proj2 (Nat.ltb_ge _ _)) by lia.
  do 2 f_equal; [f_equal|f_equal; lia].
  - unfold seq_bytes. rewrite !length_app. cbn [length]. unfold LZ4_MIN_MATCH. lia.
  - lia.
Qed.

Lemma lz4_decode_last comp ip op dst lits :
  drop ip comp = lit_bytes lits 0 → (op + length lits = length dst)%nat →
  lz4_decode_round comp (ip, op, dst) = inr (true, list_inserts op lits dst).
Proof.
  intros Hd Hfit. rewrite <- (app_nil_r (lit_bytes _ _)) in Hd.
  apply decode_literals in Hd as (token & ip' & Htok & _ & Hlen & _ & Hsl & _ & Hcl); [|lia].
  cbn [length] in Hcl. cbn zeta in Hlen.
  unfold lz4_decode_round. cbn zeta. rewrite Htok, Hlen, Hsl.
  rewrite (proj2 (Nat.ltb_ge _ _)) by lia. rewrite (proj2 (Nat.ltb_ge (length dst) _)) by lia. cbn [orb].
  rewrite (proj2 (Nat.leb_le _ _)) by lia. by rewrite (proj2 (Nat.eqb_eq _ _)) by lia.
Qed.

(** The first [op] bytes of the output are those of [src]. *)
Definition agrees (src dst : list Z) (op : nat) : Prop :=
  length dst = length src ∧ ∀ i, (i < op)%nat → dst !! i = src !! i.

Lemma agrees_all src dst : agrees src dst (length src) → dst = src.
Proof.
  intros [Hl Ha]. apply list_eq. intros i. destruct (decide (i < length src)%nat); [by apply Ha|].
  rewrite !lookup_ge_None_2; [done|lia|lia].
Qed.

Lemma lookup_slice src a b i :
  (b ≤ length src)%nat → (i < b - a)%nat → slice src a b !! i = src !! (a + i)%nat.
Proof. intros. unfold slice. rewrite lookup_take_lt by done. apply lookup_drop. Qed.

Lemma length_slice src a b : (b ≤ length src)%nat → length (slice src a b) = (b - a)%nat.
Proof. intros. unfold slice. rewrite length_take, length_drop. lia. Qed.

Lemma agrees_literals src dst op b :
  agrees src dst op → (op ≤ b ≤ length src)%nat → agrees src (list_inserts op (slice src op b) dst) b.
Proof.
  intros [Hl Ha] Hb. split; [by rewrite length_inserts|]. intros i Hi.
  destruct (decide (i < op)%nat).
  - rewrite list_lookup_inserts_lt by done. by apply Ha.
  - rewrite list_lookup_inserts by (rewrite ?length_slice; lia).
    rewrite lookup_slice by lia. f_equal. lia.
Qed.

(** Copying a repeated run byte by byte, also when the ranges overlap. *)
Lemma agrees_match src n dst op from :
  agrees src dst op → (from < op)%nat → (op + n ≤ length src)%nat →
  (∀ i, (i < n)%nat → src !! (op + i)%nat = src !! (from + i)%nat) →
  agrees src (copy_match n op from dst) (op + n).
Proof.
  revert dst op from. induction n as [|n IH]; intros dst op from [Hl Ha] Hf Hop Heq; cbn [copy_match].
  { rewrite Nat.add_0_r. by split. }
  replace (op + S n)%nat with (S op + n)%nat by lia. apply IH; [|lia|lia|].
  - split; [by rewrite length_insert|]. intros i Hi. destruct (decide (i = op)) as [->|].
    + rewrite list_lookup_insert_eq by lia. specialize (Heq 0%nat ltac:(lia)).
      rewrite !Nat.add_0_r in Heq. rewrite Heq, <- Ha by done. symmetry.
      apply list_lookup_lookup_total_lt. lia.
    + rewrite list_lookup_insert_ne by done. apply Ha. lia.
  - intros i Hi. specialize (Heq (S i) ltac:(lia)). by rewrite !Nat.add_succ_r in Heq.
Qed.

(** *** The encoder *)
Abbreviation bytes := (Forall is_u8).

Lemma le_value_inj l k : length l = length k → bytes l → bytes k → le_value l = le_value k → l = k.
Proof.
  revert k. induction l as [|b l IH]; intros [|c k] Hlen Hl Hk Heq; try done.
  inversion Hl as [|? ? Hb]; inversion Hk as [|? ? Hc]; subst. unfold in_range in Hb, Hc.
  cbn [le_value] in Heq. simplify_eq/=. f_equal; [lia|apply IH; [done..|lia]].
Qed.

Lemma bytes_slice src a b : bytes src → bytes (slice src a b).
Proof. intros. apply Forall_take, Forall_drop. done. Qed.

Lemma read4_match src p q :
  bytes src → (p + 4 ≤ length src)%nat → (q + 4 ≤ length src)%nat → read4 src p = read4 src q →
  ∀ i, (i < 4)%nat → src !! (p + i)%nat = src !! (q + i)%nat.
Proof.
  intros Hb Hp Hq. unfold read4. rewrite !(proj2 (Nat.leb_le _ _)) by done. intros Heq i Hi.
  apply le_value_inj in Heq; [|by rewrite !length_slice by done; lia|by apply bytes_slice..].
  rewrite <- (lookup_slice src p (p + 4)), <- (lookup_slice src q (q + 4)) by lia. by rewrite Heq.
Qed.

Lemma match_length_spec src p q :
  bytes src → (p + 4 ≤ length src)%nat → (q + 4 ≤ length src)%nat → read4 src q = read4 src p →
  let m := match_length src p q in
  (4 ≤ m)%nat ∧ (p + m ≤ length src)%nat ∧
  ∀ i, (i < m)%nat → src !! (p + i)%nat = src !! (q + i)%nat.
Proof.
  intros Hb Hp Hq Heq m.
  set (I := λ m, (4 ≤ m)%nat ∧ (p + m ≤ length src)%nat ∧
    ∀ i, (i < m)%nat → src !! (p + i)%nat = src !! (q + i)%nat).
  change (I m). subst m. unfold match_length.
  match goal with |- context [loop_nat ?f ?n ?s] =>
    enough (match loop_nat f n s with inl m => I m | inr m => I m end) as Hr by (by destruct (loop_nat f n s)) end.
  apply loop_nat_inv; [| |unfold I, LZ4_MIN_MATCH; split_and!; [lia|lia|by apply read4_match]].
  - intros m m' (H4 & Hle & Hi) E. case_match eqn:Hc; simplify_eq.
    apply andb_prop in Hc as [Hc He]. apply andb_prop in Hc as [H1%Nat.ltb_lt H2%Nat.ltb_lt].
    apply Z.eqb_eq in He. split_and!; [lia|lia|].
    intros i Hlt. destruct (decide (i = m)) as [->|]; [|apply Hi; lia].
    rewrite !list_lookup_lookup_total_lt by lia. by f_equal.
  - intros m m' HI E. by case_match; simplify_eq.
Qed.

(** A distance that passes the test is the distance of an earlier position. *)
Lemma distance_earlier p r :
  Z.of_nat p < 2 ^ 64 → Z.of_nat r < 2 ^ 16 →
  0 < wsub 64 (Z.of_nat p) (Z.of_nat r) < LZ4_MAX_DISTANCE →
  (r < p)%nat ∧ wsub 64 (Z.of_nat p) (Z.of_nat r) = Z.of_nat (p - r).
Proof.
  unfold wsub, wrap, LZ4_MAX_DISTANCE. intros Hp Hr Hd.
  destruct (decide (r ≤ p)%nat).
  - rewrite Z.mod_small in * by lia. lia.
  - rewrite <- (Z.mod_add _ 1), Z.mod_small in Hd by lia. lia.
Qed.

Lemma length_ext_length n : length (ext_length n) = if (15 <=? n)%nat then S ((n - 15) / 255) else 0%nat.
Proof. unfold ext_length. case_match; [apply length_varint|done]. Qed.

Lemma length_lit_bytes lits t : length (lit_bytes lits t) = S (length (ext_length (length lits)) + length lits).
Proof. unfold lit_bytes. cbn [length]. by rewrite length_app. Qed.

(** The bytes of a sequence against the bytes it stands for. *)
Lemma length_seq_bytes lits dist mat a :
  (LZ4_MIN_MATCH ≤ mat)%nat →
  (length (seq_bytes lits dist mat) + a + a / 255 ≤
   a + length lits + mat + (a + length lits + mat) / 255)%nat.
Proof.
  unfold seq_bytes, LZ4_MIN_MATCH. intros Hm. rewrite !length_app, length_lit_bytes, !length_ext_length.
  cbn [length]. destruct (Nat.leb_spec 15 (length lits)), (Nat.leb_spec 15 (mat - 4));
    nat_div_lia.
Qed.

(** The decoder turns [o], whatever follows it, into the first [a] bytes of
    [src]. *)
Definition decodes (src o : list Z) (a : nat) : Prop :=
  ∀ dst rest, length dst = length src →
    ∃ k dst', (k ≤ length o)%nat ∧ agrees src dst' a ∧
      loop_nat (lz4_decode_round (o ++ rest)) k (0%nat, 0%nat, dst) = inl (length o, a, dst').

Lemma decodes_seq src o a p r m :
  decodes src o a → (a ≤ p)%nat → (r < p)%nat → Z.of_nat (p - r) < 65536 →
  (4 ≤ m)%nat → (p + m ≤ length src)%nat →
  (∀ i, (i < m)%nat → src !! (p + i)%nat = src !! (r + i)%nat) →
  decodes src (o ++ seq_bytes (slice src a p) (Z.of_nat (p - r)) m) (p + m).
Proof.
  intros Ho Hap Hrp Hd Hm Hlen Heq dst rest Hdl.
  set (lits := slice src a p). set (sq := seq_bytes _ _ _).
  assert (length lits = p - a)%nat as Hll by (apply length_slice; lia).
  destruct (Ho dst (sq ++ rest) Hdl) as (k & dst' & Hk & Hag & Hrun).
  exists (k + 1)%nat, (copy_match m p r (list_inserts a lits dst')). rewrite length_app. split_and!.
  - enough (1 ≤ length sq)%nat by lia. unfold sq, seq_bytes. rewrite length_app, length_lit_bytes. lia.
  - apply agrees_match; [apply agrees_literals; [done|lia]|lia|lia|done].
  - rewrite <- (assoc_L (++)), loop_nat_add, Hrun, loop_nat_S.
    rewrite (lz4_decode_seq _ _ _ _ lits (Z.of_nat (p - r)) m rest);
      [|apply drop_app_length|done|lia|lia|destruct Hag; lia].
    rewrite Nat2Z.id. replace (a + length lits)%nat with p by lia.
    by replace (p - (p - r))%nat with r by lia.
Qed.

Record lz4_inv (src : list Z) (s : Lz4State) : Prop := {
  inv_table : ∀ h v, hash_table s !! h = Some v → is_u16 v;
  inv_anchor : (anchor s ≤ ip s)%nat ∧ (anchor s ≤ length src)%nat;
  inv_step : (1 ≤ step s)%nat;
  inv_size : (length (out s) ≤ anchor s + anchor s / 255)%nat;
  inv_decodes : decodes src (out s) (anchor s);
}.

Lemma lz4_init_inv src : lz4_inv src lz4_init.
Proof.
  split; cbn; [by intros ? ?; rewrite lookup_empty|lia|lia|lia|].
  intros dst rest Hl. exists 0%nat, dst. split_and!; [lia| |done]. split; [done|lia].
Qed.

Lemma lz4_round_inv src s s' :
  bytes src → Z.of_nat (length src) < 2 ^ 64 →
  lz4_inv src s → lz4_round src s = inl s' →
  lz4_inv src s' ∧ (length src - ip s' < length src - ip s)%nat.
Proof.
  intros Hb Hn Hinv E. unfold lz4_round in E.
  case_match eqn:Hg; [done|]. apply negb_false_iff, Nat.ltb_lt in Hg. unfold LZ4_MIN_MATCH in Hg.
  set (h := lz4_hash _) in E. set (r := Z.to_nat _) in E. set (ht := <[h := _]> _) in E.
  assert (Z.of_nat r < 2 ^ 16) as Hr.
  { unfold r. destruct (hash_table s !! h) as [v|] eqn:Hv; [|done].
    apply (inv_table _ _ Hinv) in Hv. unfold in_range in Hv. simpl. lia. }
  assert (∀ h v, ht !! h = Some v → is_u16 v) as Hht.
  { intros h' v. unfold ht. rewrite lookup_insert_Some.
    intros [[_ <-]|[_ Hv]]; [by apply wrap_range|by eapply inv_table]. }
  destruct (inv_anchor _ _ Hinv) as [Ha1 Ha2]. pose proof (inv_size _ _ Hinv) as Hsz.
  pose proof (inv_step _ _ Hinv) as Hst.
  cbn zeta in E. case_match eqn:Hm; simplify_eq.
  2: { split; [|cbn; lia]. destruct Hinv. split; cbn; try done; [lia|by case_match; lia]. }
  rewrite !andb_true_iff, !Z.ltb_lt, Nat.leb_le, Z.eqb_eq in Hm. destruct Hm as [[[Hd1 Hd2] Hr4] Hseq].
  destruct (distance_earlier (ip s) r ltac:(lia) Hr ltac:(lia)) as [Hlt Hdist].
  unfold LZ4_MIN_MATCH in Hr4.
  destruct (match_length_spec src (ip s) r Hb ltac:(lia) Hr4 Hseq) as (Hm4 & Hmn & Hmeq).
  rewrite !put_literals_eq by lia.
  set (d := wsub _ _ _) in *. set (m := match_length _ _ _) in *. set (lits := slice src _ _).
  set (o := if (15 <=? m - _)%nat then _ else _).
  assert (o = out s ++ seq_bytes lits d m) as Ho.
  { unfold o, seq_bytes, ext_length. case_match; rewrite ?write_varint_eq, ?app_nil_r, <- ?(assoc_L (++)); done. }
  assert (length lits = ip s - anchor s)%nat as Hll by (apply length_slice; lia).
  pose proof (length_seq_bytes lits d m (anchor s) Hm4) as Hgrow.
  split; [|cbn; lia]. split; cbn [hash_table ip anchor step out]; [done|lia|lia| |].
  - rewrite Ho, length_app. replace (ip s + m)%nat with (anchor s + length lits + m)%nat by lia. lia.
  - rewrite Ho, Hdist. apply decodes_seq; [apply Hinv|done..| |done|done|done].
    unfold LZ4_MAX_DISTANCE in Hd1. lia.
Qed.

Lemma lz4_encode_inv src :
  bytes src → Z.of_nat (length src) < 2 ^ 64 →
  ∃ s, lz4_inv src s ∧ lz4_encode src = out s ++ lit_bytes (drop (anchor s) src) 0.
Proof.
  intros Hb Hn. unfold lz4_encode.
  destruct (loop_nat_terminates (lz4_round src) (lz4_inv src) (λ s, length src - ip s)%nat) with
    (n := S (length src)) (s := lz4_init) as [s Hs].
  - intros s s' Hi E. by apply lz4_round_inv.
  - apply lz4_init_inv.
  - cbn. lia.
  - exists s. rewrite Hs, put_literals_eq by lia. split; [|done].
    pose proof (loop_nat_inv (lz4_round src) (lz4_inv src) (lz4_inv src)) as Hl.
    specialize (Hl ltac:(intros ? ? H1 H2; by destruct (lz4_round_inv _ _ _ Hb Hn H1 H2))).
    specialize (Hl ltac:(intros ? ? H1 H2; unfold lz4_round in H2; cbn zeta in H2; repeat case_match; by simplify_eq)).
    specialize (Hl (S (length src)) lz4_init (lz4_init_inv src)). by rewrite Hs in Hl.
Qed.

Lemma lz4_encode_size src :
  bytes src → Z.of_nat (length src) < 2 ^ 64 →
  (length (lz4_encode src) ≤ length src + length src / 255 + 2)%nat.
Proof.
  intros Hb Hn. destruct (lz4_encode_inv src Hb Hn) as (s & Hi & ->).
  pose proof (inv_size _ _ Hi). destruct (inv_anchor _ _ Hi) as [_ Ha].
  rewrite length_app, length_lit_bytes, length_ext_length, length_drop.
  destruct (Nat.leb_spec 15 (length src - anchor s)); nat_div_lia.
Qed.

Lemma lz4_encode_decodes src dst :
  bytes src → Z.of_nat (length src) < 2 ^ 64 → length dst = length src →
  lz4_decompress (lz4_encode src) dst = (true, src).
Proof.
  intros Hb Hn Hd. destruct (lz4_encode_inv src Hb Hn) as (s & Hi & ->).
  destruct (inv_anchor _ _ Hi) as [_ Ha].
  destruct (inv_decodes _ _ Hi dst (lit_bytes (drop (anchor s) src) 0) Hd) as (k & dst' & Hk & Hag & Hrun).
  unfold lz4_decompress.
  assert (loop_nat (lz4_decode_round (out s ++ lit_bytes (drop (anchor s) src) 0)) (k + 1) (0%nat, 0%nat, dst) =
          inr (true, list_inserts (anchor s) (drop (anchor s) src) dst')) as Hr.
  { rewrite loop_nat_add, Hrun, loop_nat_S, (lz4_decode_last _ _ _ _ (drop (anchor s) src)); [done|..].
    - apply drop_app_length.
    - rewrite length_drop. destruct Hag. lia. }
  rewrite (loop_nat_more _ _ _ _ _ Hr) by (rewrite length_app, length_lit_bytes; lia).
  f_equal. apply agrees_all.
  replace (drop (anchor s) src) with (slice src (anchor s) (length src))
    by (apply take_ge; rewrite length_drop; lia).
  apply agrees_literals; [done|lia].
Qed.

(** C2. The codec is exact: on every input of at least four bytes and every
    buffer with room for the longest encoding, [lz4_compress] succeeds
    without a panic, and [lz4_decompress] of the bytes it wrote fills any
    buffer of the original length with the original bytes. *)
Theorem lz4_roundtrip src buf dst :
  bytes src → (4 ≤ length src)%nat → Z.of_nat (length src) < 2 ^ 63 →
  (length src + length src / 255 + 2 < length buf)%nat → length dst = length src →
  ∃ len buf', lz4_compress src buf = Some (Some len, buf') ∧
    lz4_decompress (take len buf') dst = (true, src).
Proof.
  intros Hb H4 Hn Hbuf Hd. pose proof (lz4_encode_size src Hb ltac:(lia)) as Hsz.
  unfold lz4_compress, copy_prefix, LZ4_MIN_MATCH. rewrite (proj2 (Nat.ltb_ge _ _)) by done. cbn zeta.
  rewrite (proj2 (Nat.leb_gt _ _)), (proj2 (Nat.leb_le _ _)) by lia. cbn.
  eexists _, _. split; [done|]. rewrite take_app_length. apply lz4_encode_decodes; [done|lia|done].
Qed.

Lemma lz4_roundtrip_witness :
  ∃ len buf', lz4_compress [1; 2; 3; 1; 2; 3; 1; 2; 3; 7; 8; 9] (replicate 76 0) = Some (Some len, buf') ∧
    lz4_decompress (take len buf') (replicate 12 0) = (true, [1; 2; 3; 1; 2; 3; 1; 2; 3; 7; 8; 9]).
Proof.
  apply (lz4_roundtrip [1; 2; 3; 1; 2; 3; 1; 2; 3; 7; 8; 9] (replicate 76 0) (replicate 12 0));
    [|first [done|simpl; lia]..|done].
  repeat constructor; vm_compute; done.
Defined.

(** What the callers rely on: with 64 spare bytes, no input of up to 15809
    bytes is incompressible. *)
Lemma lz4_compress_page src buf :
  bytes src → (4 ≤ length src)%nat → Z.of_nat (length src) < 15810 → (length buf = length src + 64)%nat →
  ∃ buf', lz4_compress src buf = Some (Some (length (lz4_encode src)), buf') ∧
    take (length (lz4_encode src)) buf' = lz4_encode src.
Proof.
  intros Hb H4 Hmax Hbuf. pose proof (lz4_encode_size src Hb ltac:(lia)) as Hsz.
  assert (length (lz4_encode src) < length buf)%nat as Hl by nat_div_lia.
  unfold lz4_compress, copy_prefix, LZ4_MIN_MATCH. rewrite (proj2 (Nat.ltb_ge _ _)) by lia. cbn zeta.
  rewrite (proj2 (Nat.leb_gt _ _)), (proj2 (Nat.leb_le _ _)) by lia. cbn.
  eexists. split; [done|]. apply take_app_length.
Qed.

(** Expansion is bounded: the encoding of [n] bytes has at most
    [n + n / 255 + 2] bytes, so the 64 bytes that [store] and [write_sectors]
    add to a page are enough and a page never counts as incompressible. *)
Theorem lz4_size_bound src buf :
  bytes src → (4 ≤ length src)%nat → Z.of_nat (length src) < 2 ^ 63 →
  (length (lz4_encode src) ≤ length src + length src / 255 + 2)%nat ∧
  (length src = 4096%nat → length buf = (4096 + 64)%nat →
   ∃ len buf', lz4_compress src buf = Some (Some len, buf') ∧ (len ≤ 4096 + 18)%nat).
Proof.
  intros Hb H4 Hn. pose proof (lz4_encode_size src Hb ltac:(lia)) as Hsz. split; [done|].
  intros Hs Hbuf. destruct (lz4_compress_page src buf Hb) as (buf' & Hc & _); [lia..|].
  eexists _, _. split; [exact Hc|]. rewrite Hs in Hsz. change (4096 / 255)%nat with 16%nat in Hsz. lia.
Qed.

Lemma lz4_size_bound_witness :
  (length (lz4_encode [7%Z; 7%Z; 7%Z; 7%Z; 7%Z; 7%Z]) ≤ 6 + 6 / 255 + 2)%nat.
Proof.
  apply (lz4_size_bound [7; 7; 7; 7; 7; 7] []); [|first [done|simpl; lia]..].
  repeat constructor; vm_compute; done.
Defined.

(** Inputs below four bytes are copied as they are, which is not an LZ4 block:
    the decoder refuses them. *)
Lemma lz4_short_not_decoded :
  lz4_compress [5; 6; 7] (replicate 67 0) = Some (Some 3%nat, [5; 6; 7] ++ replicate 64 0) ∧
  (lz4_decompress [5; 6; 7] (replicate 3 0)).1 = false.
Proof. vm_compute. auto. Qed.

(** ** The checksum *)
Definition crc32_bit (crc : Z) : Z :=
  if negb (Z.land crc 1 =? 0) then Z.lxor (Z.shiftr crc 1) 0xEDB88320 else Z.shiftr crc 1.
Definition crc32_byte (crc b : Z) : Z := Nat.iter 8 crc32_bit (Z.lxor crc b).
Definition crc32_simple (data : list Z) : Z := wnot 32 (foldl crc32_byte 0xFFFFFFFF data).

(** The check value of the CRC-32 standard, of the digits 1 to 9. *)
Example crc32_check : crc32_simple [49; 50; 51; 52; 53; 54; 55; 56; 57] = 0xCBF43926.
Proof. vm_compute. done. Qed.

(** ** The page pool *)
Record ZswapEntry := mkZentry {
  e_pid : Z;
  e_vaddr : Z;
  compressed : list Z;
  orig_checksum : Z;
}.

Record CompressedPool := mkPool {
  entries : gmap Z ZswapEntry;
  next_handle : Z;
  max_entries : Z;
  total_orig : Z;
  total_comp : Z;
}.

Definition pool_new (max : Z) : CompressedPool := mkPool ∅ 1 max 0 0.
Definition is_full (p : CompressedPool) : bool := max_entries p <=? Z.of_nat (size (entries p)).

Definition pool_store (p : CompressedPool) (pid vaddr : Z) (data : list Z) : option (CompressedPool * option Z) :=
  if is_full p then Some (p, None)
  else
    let crc := crc32_simple data in
    let buf := replicate (length data + 64) 0 in
    '(res, buf) ← lz4_compress data buf;
    match res with
    | None => Some (p, None)
    | Some comp_len =>
        let handle := next_handle p in
        Some (mkPool (<[handle := mkZentry pid vaddr (take comp_len buf) crc]> (entries p))
                (wadd 64 handle 1) (max_entries p)
                (wadd 64 (total_orig p) (Z.of_nat (length data)))
                (wadd 64 (total_comp p) (Z.of_nat comp_len)), Some handle)
    end.

Definition pool_load (p : CompressedPool) (handle : Z) (out : list Z) : bool * list Z :=
  match entries p !! handle with
  | None => (false, out)
  | Some e =>
      let '(ok, out) := lz4_decompress (compressed e) out in
      if ok then (crc32_simple out =? orig_checksum e, out) else (false, out)
  end.

Definition pool_remove (p : CompressedPool) (handle : Z) : CompressedPool * bool :=
  match entries p !! handle with
  | None => (p, false)
  | Some e =>
      (mkPool (delete handle (entries p)) (next_handle p) (max_entries p)
         (wsub 64 (total_orig p) 4096)
         (wsub 64 (total_comp p) (Z.of_nat (length (compressed e)))), true)
  end.

(** The first key of the ordered map. *)
Definition first_key {A} (m : gmap Z A) : option Z :=
  match (map_to_list m).*1 with
  | [] => None
  | k :: ks => Some (foldr Z.min k ks)
  end.

Definition evict_oldest (p : CompressedPool) : CompressedPool * option Z :=
  match first_key (entries p) with
  | None => (p, None)
  | Some h => ((pool_remove p h).1, Some h)
  end.

(** The statics of the module. *)
Record Zswap := mkZswap {
  POOL : option CompressedPool;
  STORED_PAGES : Z;
  LOADED_PAGES : Z;
  EVICTED_PAGES : Z;
}.

Definition ZSWAP_MAX_PERCENT : Z := 20.
Definition zswap_init (total_frames : Z) (z : Zswap) : Zswap :=
  mkZswap (Some (pool_new (Z.max (wmul 64 total_frames ZSWAP_MAX_PERCENT / 100) 256)))
    (STORED_PAGES z) (LOADED_PAGES z) (EVICTED_PAGES z).
Definition is_enabled (z : Zswap) : bool := bool_decide (is_Some (POOL z)).

Definition store_page (z : Zswap) (pid vaddr : Z) (data : list Z) : option (Zswap * option Z) :=
  match POOL z with
  | None => Some (z, None)
  | Some p =>
      '(p, r) ← pool_store p pid vaddr data;
      Some (mkZswap (Some p)
              (match r with Some _ => wadd 64 (STORED_PAGES z) 1 | None => STORED_PAGES z end)
              (LOADED_PAGES z) (EVICTED_PAGES z), r)
  end.

Definition load_page (z : Zswap) (handle : Z) (out : list Z) : Zswap * (bool * list Z) :=
  match POOL z with
  | None => (z, (false, out))
  | Some p =>
      let '(ok, out) := pool_load p handle out in
      if ok then
        (mkZswap (Some (pool_remove p handle).1) (STORED_PAGES z) (wadd 64 (LOADED_PAGES z) 1) (EVICTED_PAGES z),
         (true, out))
      else (z, (false, out))
  end.

Definition evict_one (z : Zswap) : Zswap * bool :=
  match POOL z with
  | None => (z, false)
  | Some p =>
      let '(p, r) := evict_oldest p in
      let evicted := bool_decide (is_Some r) in
      (mkZswap (Some p) (STORED_PAGES z) (LOADED_PAGES z)
         (if evicted then wadd 64 (EVICTED_PAGES z) 1 else EVICTED_PAGES z), evicted)
  end.

(** *** The pool is a map from handles to pages *)
Definition PAGE_BYTES : nat := 4096.
Definition is_page (data : list Z) : Prop := length data = PAGE_BYTES ∧ bytes data.

Definition page_of (c : list Z) : list Z := (lz4_decompress c (replicate PAGE_BYTES 0)).2.
Definition comp_total (m : gmap Z ZswapEntry) : Z :=
  map_fold (λ _ e acc, Z.of_nat (length (compressed e)) + acc) 0 m.

Definition holds (e : ZswapEntry) (data : list Z) : Prop :=
  is_page data ∧ compressed e = lz4_encode data ∧ orig_checksum e = crc32_simple data.

Record pool_wf (p : CompressedPool) : Prop := {
  pool_handles : ∀ h e, entries p !! h = Some e → 0 < h < next_handle p ∧ ∃ data, holds e data;
  pool_next : 0 < next_handle p;
  pool_orig : total_orig p = wrap 64 (4096 * Z.of_nat (size (entries p)));
  pool_comp : total_comp p = wrap 64 (comp_total (entries p));
}.

Lemma is_page_length data : is_page data → Z.of_nat (length data) = 4096.
Proof. intros [-> _]. done. Qed.

Lemma page_decodes data dst :
  is_page data → length dst = PAGE_BYTES → lz4_decompress (lz4_encode data) dst = (true, data).
Proof.
  intros Hp Hd. pose proof (is_page_length _ Hp). destruct Hp as [Hl Hb].
  apply lz4_encode_decodes; [done|lia|congruence].
Qed.

Lemma page_of_encode data : is_page data → page_of (lz4_encode data) = data.
Proof. intros Hp. unfold page_of. by rewrite page_decodes by (done || apply length_replicate). Qed.

Lemma page_compresses data :
  is_page data →
  ∃ buf, lz4_compress data (replicate (length data + 64) 0) = Some (Some (length (lz4_encode data)), buf) ∧
    take (length (lz4_encode data)) buf = lz4_encode data.
Proof.
  intros Hp. pose proof (is_page_length _ Hp). destruct Hp as [Hl Hb].
  apply lz4_compress_page; [done|lia|lia|apply length_replicate].
Qed.

Lemma comp_total_insert m h e :
  m !! h = None → comp_total (<[h := e]> m) = Z.of_nat (length (compressed e)) + comp_total m.
Proof. intros Hh. unfold comp_total. rewrite map_fold_insert_L; [done|intros; lia|done]. Qed.

Lemma comp_total_delete m h e :
  m !! h = Some e → comp_total m = Z.of_nat (length (compressed e)) + comp_total (delete h m).
Proof. intros Hh. unfold comp_total. rewrite (map_fold_delete_L _ _ h e m); [done|intros; lia|done]. Qed.

Lemma wadd_wrap_l w a b : wadd w (wrap w a) b = wrap w (a + b).
Proof. unfold wadd, wrap. by rewrite Zplus_mod_idemp_l. Qed.
Lemma wsub_wrap_l w a b : wsub w (wrap w a) b = wrap w (a - b).
Proof. unfold wsub, wrap. by rewrite Zminus_mod_idemp_l. Qed.

(** Pages by handle, the next handle and the capacity. *)
Record ZSpec := mkZspec { sp_pages : gmap Z (list Z); sp_next : Z; sp_max : Z }.

Definition pool_abs (p : CompressedPool) : ZSpec :=
  mkZspec ((λ e, page_of (compressed e)) <$> entries p) (next_handle p) (max_entries p).

Inductive ZOp :=
| ZStore (pid vaddr : Z) (data : list Z)
| ZLoad (handle : Z) (buf : list Z)
| ZEvict.

Inductive ZRes :=
| RHandle (h : option Z)
| RPage (r : bool * list Z)
| REvicted (b : bool).

Definition zswap_step (z : Zswap) (op : ZOp) : option (Zswap * ZRes) :=
  match op with
  | ZStore pid vaddr data => '(z, h) ← store_page z pid vaddr data; Some (z, RHandle h)
  | ZLoad h buf => let '(z, r) := load_page z h buf in Some (z, RPage r)
  | ZEvict => let '(z, b) := evict_one z in Some (z, REvicted b)
  end.

Definition zspec_step (m : ZSpec) (op : ZOp) : ZSpec * ZRes :=
  match op with
  | ZStore _ _ data =>
      if sp_max m <=? Z.of_nat (size (sp_pages m)) then (m, RHandle None)
      else (mkZspec (<[sp_next m := data]> (sp_pages m)) (sp_next m + 1) (sp_max m), RHandle (Some (sp_next m)))
  | ZLoad h buf =>
      match sp_pages m !! h with
      | Some data => (mkZspec (delete h (sp_pages m)) (sp_next m) (sp_max m), RPage (true, data))
      | None => (m, RPage (false, buf))
      end
  | ZEvict =>
      match first_key (sp_pages m) with
      | Some h => (mkZspec (delete h (sp_pages m)) (sp_next m) (sp_max m), REvicted true)
      | None => (m, REvicted false)
      end
  end.

Definition zop_ok (op : ZOp) : Prop :=
  match op with
  | ZStore _ _ data => is_page data
  | ZLoad _ buf => length buf = PAGE_BYTES
  | ZEvict => True
  end.

Lemma pool_next_free p : pool_wf p → entries p !! next_handle p = None.
Proof.
  intros Hp. destruct (entries p !! next_handle p) as [e|] eqn:E; [|done].
  apply (pool_handles _ Hp) in E. lia.
Qed.

Lemma pool_remove_wf p h :
  pool_wf p → is_Some (entries p !! h) →
  pool_wf (pool_remove p h).1 ∧
  pool_abs (pool_remove p h).1 = mkZspec (delete h (sp_pages (pool_abs p))) (next_handle p) (max_entries p).
Proof.
  intros Hp [e He]. unfold pool_remove. rewrite He. cbn. split.
  - destruct Hp as [Hh Hn Ho Hc]. split; cbn; [|done|..].
    + intros h' e'. rewrite lookup_delete_Some. intros [_ He']. by apply Hh.
    + rewrite Ho, wsub_wrap_l, map_size_delete_Some by eauto.
      assert (size (entries p) ≠ 0%nat) by (intros Hz%map_size_empty_inv; by rewrite Hz, lookup_empty in He).
      f_equal. lia.
    + rewrite Hc, wsub_wrap_l, (comp_total_delete _ _ _ He). f_equal. lia.
  - unfold pool_abs. cbn. by rewrite fmap_delete.
Qed.

Lemma pool_store_page p pid vaddr data :
  pool_wf p → is_page data → next_handle p < 2 ^ 64 - 1 →
  ∃ p' r, pool_store p pid vaddr data = Some (p', r) ∧ pool_wf p' ∧
    zspec_step (pool_abs p) (ZStore pid vaddr data) = (pool_abs p', RHandle r).
Proof.
  intros Hp Hd Hn. pose proof (is_page_length _ Hd) as Hl. pose proof (pool_next_free _ Hp) as Hfree.
  unfold pool_store, is_full. cbn [zspec_step pool_abs sp_max sp_pages sp_next]. rewrite map_size_fmap.
  case_match; [by eexists _, _|]. cbn zeta.
  destruct (page_compresses _ Hd) as (buf & -> & Hbuf). cbn [mbind option_bind]. rewrite Hbuf.
  eexists _, _. split; [done|]. destruct Hp as [Hh Hpos Ho Hc].
  assert (wadd 64 (next_handle p) 1 = next_handle p + 1) as Hw by (apply wadd_small; lia).
  split; [split; cbn|].
  - intros h e. rewrite lookup_insert_Some, Hw. intros [[<- <-]|[Hne He]].
    + split; [lia|]. by exists data.
    + destruct (Hh _ _ He). split; [lia|done].
  - lia.
  - rewrite Ho, wadd_wrap_l, Hl, map_size_insert_None by done. f_equal. lia.
  - rewrite Hc, wadd_wrap_l, comp_total_insert by done. f_equal. cbn. lia.
  - unfold pool_abs. cbn [entries next_handle max_entries]. rewrite fmap_insert, Hw. cbn [compressed]. by rewrite page_of_encode.
Qed.

Lemma pool_load_page p h out :
  pool_wf p → length out = PAGE_BYTES →
  pool_load p h out =
    match sp_pages (pool_abs p) !! h with Some data => (true, data) | None => (false, out) end.
Proof.
  intros Hp Ho. unfold pool_load. cbn. rewrite lookup_fmap.
  destruct (entries p !! h) as [e|] eqn:He; [|done]. cbn.
  destruct (pool_handles _ Hp _ _ He) as [_ (data & Hd & Hc & Hs)].
  rewrite Hc, page_decodes, page_of_encode by done. by rewrite Hs, Z.eqb_refl.
Qed.

Lemma first_key_fmap {A B} (f : A → B) (m : gmap Z A) : first_key (f <$> m) = first_key m.
Proof. unfold first_key. rewrite map_to_list_fmap. by rewrite <- list_fmap_compose. Qed.

Lemma foldr_min_elem k ks : foldr Z.min k ks ∈ k :: ks.
Proof.
  induction ks as [|k' ks IH]; cbn; [by left|].
  destruct (Z.min_spec k' (foldr Z.min k ks)) as [[_ ->]|[_ ->]]; [right; left|].
  rewrite elem_of_cons in IH |- *. destruct IH; [by left|by do 2 right].
Qed.

Lemma first_key_Some {A} (m : gmap Z A) h : first_key m = Some h → is_Some (m !! h).
Proof.
  unfold first_key. intros E. enough (h ∈ (map_to_list m).*1) as Hin.
  { apply list_elem_of_fmap in Hin as ([h' x] & -> & Hx). apply elem_of_map_to_list in Hx. by exists x. }
  destruct ((map_to_list m).*1) as [|k ks]; simplify_eq. apply foldr_min_elem.
Qed.

Lemma zswap_step_refines z p op :
  POOL z = Some p → pool_wf p → next_handle p < 2 ^ 64 - 1 → zop_ok op →
  ∃ z' p' r, zswap_step z op = Some (z', r) ∧ POOL z' = Some p' ∧ pool_wf p' ∧
    zspec_step (pool_abs p) op = (pool_abs p', r).
Proof.
  intros Hz Hp Hn Hop. destruct op as [pid vaddr data|h buf|]; cbn [zswap_step zop_ok] in *.
  - unfold store_page. rewrite Hz.
    destruct (pool_store_page p pid vaddr data Hp Hop Hn) as (p' & r & -> & Hp' & Hs). cbn.
    by eexists _, _, _.
  - unfold load_page. rewrite Hz, pool_load_page by done. cbn [zspec_step].
    destruct (sp_pages (pool_abs p) !! h) as [data|] eqn:Hl; [|by eexists _, _, _].
    eexists _, _, _. split; [done|]. split; [done|].
    destruct (pool_remove_wf p h Hp) as [Hp' ->]; [|done].
    cbn in Hl. rewrite lookup_fmap in Hl. by apply fmap_Some in Hl as (e & -> & _).
  - unfold evict_one, evict_oldest. rewrite Hz. cbn [zspec_step]. unfold pool_abs at 1. cbn [sp_pages].
    rewrite first_key_fmap. destruct (first_key (entries p)) as [h|] eqn:Hk; [|by eexists _, _, _].
    cbn. eexists _, _, _. split; [done|]. split; [done|].
    destruct (pool_remove_wf p h Hp) as [Hp' ->]; [by apply first_key_Some|done].
Qed.

Lemma zspec_step_next m op :
  sp_next (zspec_step m op).1 ≤ sp_next m + 1.
Proof. destruct op; cbn; repeat case_match; cbn; lia. Qed.

Fixpoint zswap_run (z : Zswap) (ops : list ZOp) : option (Zswap * list ZRes) :=
  match ops with
  | [] => Some (z, [])
  | op :: ops => '(z, r) ← zswap_step z op; '(z, rs) ← zswap_run z ops; Some (z, r :: rs)
  end.

Fixpoint zspec_run (m : ZSpec) (ops : list ZOp) : ZSpec * list ZRes :=
  match ops with
  | [] => (m, [])
  | op :: ops =>
      let '(m, r) := zspec_step m op in
      let '(m, rs) := zspec_run m ops in (m, r :: rs)
  end.

Lemma zswap_run_refines z p ops :
  POOL z = Some p → pool_wf p → next_handle p + Z.of_nat (length ops) < 2 ^ 64 → Forall zop_ok ops →
  ∃ z' p' rs, zswap_run z ops = Some (z', rs) ∧ POOL z' = Some p' ∧ pool_wf p' ∧
    zspec_run (pool_abs p) ops = (pool_abs p', rs).
Proof.
  intros Hz Hp Hn Hops. revert z p Hz Hp Hn.
  induction Hops as [|op ops Hop Hops IH]; intros z p Hz Hp Hn; cbn [zswap_run zspec_run length] in *.
  { by eexists _, _, _. }
  destruct (zswap_step_refines z p op Hz Hp ltac:(lia) Hop) as (z1 & p1 & r & -> & Hz1 & Hp1 & Hs).
  pose proof (zspec_step_next (pool_abs p) op) as Hnext. rewrite Hs in *. cbn [fst] in Hnext.
  cbn [pool_abs sp_next] in Hnext.
  destruct (IH z1 p1 Hz1 Hp1 ltac:(lia)) as (z2 & p2 & rs & Hrun & Hz2 & Hp2 & Hs2).
  cbn [mbind option_bind]. rewrite Hrun, Hs2. cbn [mbind option_bind]. by eexists _, _, _.
Qed.

Lemma pool_new_wf max : pool_wf (pool_new max).
Proof. split; cbn; [by intros ? ?; rewrite lookup_empty|lia|done|done]. Qed.

(** C17. The compressed pool is a bounded map from handles to pages: from its
    initialisation on, any sequence of stores, loads and evictions runs
    without a panic, keeps the pool consistent (its totals too) and returns
    what the map says: a new handle, or none when the pool is full; the very
    page that was stored under a handle, which then leaves the pool; the
    eviction of the smallest handle. *)
Theorem zswap_refines z frames ops :
  Z.of_nat (length ops) < 2 ^ 64 - 1 → Forall zop_ok ops →
  ∃ z' p rs, zswap_run (zswap_init frames z) ops = Some (z', rs) ∧ POOL z' = Some p ∧ pool_wf p ∧
    zspec_run (mkZspec ∅ 1 (Z.max (wmul 64 frames 20 / 100) 256)) ops = (pool_abs p, rs).
Proof.
  intros Hn Hops.
  destruct (zswap_run_refines (zswap_init frames z) _ ops eq_refl (pool_new_wf _)) as (z' & p & rs & H);
    [cbn [next_handle pool_new]; lia|done|]. exists z', p, rs.
  unfold pool_abs in H. cbn [entries pool_new next_handle max_entries] in H. by rewrite fmap_empty in H.
Qed.

Lemma replicate_page b : is_u8 b → is_page (replicate PAGE_BYTES b).
Proof. intros Hb. split; [apply length_replicate|by apply Forall_replicate]. Qed.

Lemma zswap_refines_witness :
  let ops := [ZStore 2 0x1000 (replicate PAGE_BYTES 7); ZStore 2 0x2000 (replicate PAGE_BYTES 0);
              ZLoad 1 (replicate PAGE_BYTES 0); ZEvict; ZLoad 2 (replicate PAGE_BYTES 0)] in
  Forall zop_ok ops ∧
  ∃ z' p rs, zswap_run (zswap_init 1000 (mkZswap None 0 0 0)) ops = Some (z', rs) ∧ POOL z' = Some p ∧ pool_wf p ∧
    zspec_run (mkZspec ∅ 1 (Z.max (wmul 64 1000 20 / 100) 256)) ops = (pool_abs p, rs).
Proof.
  intros ops. assert (Forall zop_ok ops) as Hok.
  { do 2 (apply Forall_cons; split; [by apply replicate_page|]).
    apply Forall_cons; split; [apply length_replicate|]. apply Forall_cons; split; [exact I|].
    apply Forall_cons; split; [apply length_replicate|apply Forall_nil_2]. }
  split; [exact Hok|]. apply (zswap_refines (mkZswap None 0 0 0) 1000 ops); [reflexivity|exact Hok].
Defined.

(** ** The compressed block device *)
Definition ZRAM_SECTOR_SIZE : nat := 512.

Record ZramDevice := mkZram {
  blocks : gmap Z (list Z);
  total_sectors : Z;
  orig_bytes : Z;
  comp_bytes : Z;
}.

Definition zram_new (size_mb : Z) : ZramDevice :=
  mkZram ∅ (wmul 64 (wmul 64 size_mb 1024) 1024 / 512) 0 0.

Definition sector_off (sector : Z) : nat := Z.to_nat (sector mod 8) * ZRAM_SECTOR_SIZE.

(** The loop over the sectors of [read_sectors], [k] of which are left. *)
Fixpoint read_loop (d : ZramDevice) (lba : Z) (k s : nat) (buf : list Z) : bool * list Z :=
  match k with
  | O => (true, buf)
  | S k =>
      let sector := wadd 64 lba (Z.of_nat s) in
      let s_off := sector_off sector in
      let b_off := (s * ZRAM_SECTOR_SIZE)%nat in
      match blocks d !! (sector / 8) with
      | Some compressed =>
          let '(ok, page) := lz4_decompress compressed (replicate PAGE_BYTES 0) in
          if ok then
            read_loop d lba k (S s) (list_inserts b_off (slice page s_off (s_off + ZRAM_SECTOR_SIZE)) buf)
          else (false, buf)
      | None => read_loop d lba k (S s) (list_inserts b_off (replicate ZRAM_SECTOR_SIZE 0) buf)
      end
  end.

Definition read_sectors (d : ZramDevice) (lba : Z) (buf : list Z) : bool * list Z :=
  read_loop d lba (length buf / ZRAM_SECTOR_SIZE) 0 buf.

(** [for i in 0..can_fill]: [k] sectors from sector [s] of [buf] to sector
    [j] of the page. *)
Fixpoint fill_page (k j s : nat) (buf page : list Z) : list Z :=
  match k with
  | O => page
  | S k =>
      let off := (j * ZRAM_SECTOR_SIZE)%nat in
      let src_off := (s * ZRAM_SECTOR_SIZE)%nat in
      fill_page k (S j) (S s) buf (list_inserts off (slice buf src_off (src_off + ZRAM_SECTOR_SIZE)) page)
  end.

(** The end of a round: compress and store; the outer option is a panic. *)
Definition put_block (d : ZramDevice) (block : Z) (page : list Z) : option ZramDevice :=
  '(res, comp) ← lz4_compress page (replicate (PAGE_BYTES + 64) 0);
  match res with
  | Some comp_len =>
      let old_size := match blocks d !! block with Some b => Z.of_nat (length b) | None => 0 end in
      Some (mkZram (<[block := take comp_len comp]> (blocks d)) (total_sectors d)
              (wadd 64 (orig_bytes d) 4096)
              (wsub 64 (wadd 64 (comp_bytes d) (Z.of_nat comp_len)) old_size))
  | None =>
      Some (mkZram (<[block := page]> (blocks d)) (total_sectors d)
              (wadd 64 (orig_bytes d) 4096) (wadd 64 (comp_bytes d) 4096))
  end.

(** One round of the loop of [write_sectors]: [inr] is a return, of [None]
    when it panics. *)
Definition zram_write_round (lba : Z) (buf : list Z) (st : ZramDevice * nat) :
    ZramDevice * nat + option (ZramDevice * bool) :=
  let '(d, s) := st in
  let n_sectors := (length buf / ZRAM_SECTOR_SIZE)%nat in
  if negb (s <? n_sectors)%nat then inr (Some (d, true))
  else
    let sector := wadd 64 lba (Z.of_nat s) in
    let block := sector / 8 in
    let '(ok, page) :=
      match blocks d !! block with
      | Some existing => lz4_decompress existing (replicate PAGE_BYTES 0)
      | None => (true, replicate PAGE_BYTES 0)
      end in
    if negb ok then inr (Some (d, false))
    else
      let first_s_in_block := Z.to_nat (sector - block * 8) in
      let can_fill := ((8 - first_s_in_block) `min` (n_sectors - s))%nat in
      match put_block d block (fill_page can_fill first_s_in_block s buf page) with
      | None => inr None
      | Some d => inl (d, (s + can_fill)%nat)
      end.

Definition write_sectors (d : ZramDevice) (lba : Z) (buf : list Z) : option (ZramDevice * bool) :=
  match loop_nat (zram_write_round lba buf) (S (length buf / ZRAM_SECTOR_SIZE)) (d, 0%nat) with
  | inl (d, _) => Some (d, false)
  | inr r => r
  end.

(** The size of [/dev/zram0], from the memory of the machine. *)
Definition zram_init_default (total_frames : Z) (zram0 : option ZramDevice) : option ZramDevice :=
  let total_mb := wmul 64 total_frames 4096 / 1048576 in
  if 2048 <=? total_mb then Some (zram_new 512)
  else if 512 <=? total_mb then Some (zram_new 128) else zram0.

Definition zram_read (zram0 : option ZramDevice) (lba : Z) (buf : list Z) : bool * list Z :=
  match zram0 with Some z => read_sectors z lba buf | None => (false, buf) end.
Definition zram_write (zram0 : option ZramDevice) (lba : Z) (buf : list Z) : option (option ZramDevice * bool) :=
  match zram0 with
  | Some z => '(z, b) ← write_sectors z lba buf; Some (Some z, b)
  | None => Some (None, false)
  end.
Definition zram_sectors (zram0 : option ZramDevice) : Z :=
  match zram0 with Some z => total_sectors z | None => 0 end.

(** *** The device is an array of sectors *)
Record zram_wf (d : ZramDevice) : Prop := {
  zram_blocks : ∀ b c, blocks d !! b = Some c → ∃ page, is_page page ∧ c = lz4_encode page;
  zram_comp : comp_bytes d = wrap 64 (map_fold (λ _ c acc, Z.of_nat (length c) + acc) 0 (blocks d));
}.

Definition block_page (d : ZramDevice) (b : Z) : list Z :=
  match blocks d !! b with Some c => page_of c | None => replicate PAGE_BYTES 0 end.

Definition sector_of (page : list Z) (j : nat) : list Z :=
  slice page (j * ZRAM_SECTOR_SIZE) (j * ZRAM_SECTOR_SIZE + ZRAM_SECTOR_SIZE).
Definition sector (d : ZramDevice) (x : Z) : list Z := sector_of (block_page d (x / 8)) (Z.to_nat (x mod 8)).

Lemma zero_page : is_page (replicate PAGE_BYTES 0).
Proof. by apply replicate_page. Qed.

Lemma block_page_ok d b : zram_wf d → is_page (block_page d b).
Proof.
  intros Hd. unfold block_page. destruct (blocks d !! b) as [c|] eqn:E; [|apply zero_page].
  destruct (zram_blocks _ Hd _ _ E) as (page & Hp & ->). by rewrite page_of_encode.
Qed.

Lemma block_decodes d b :
  zram_wf d →
  match blocks d !! b with
  | Some c => lz4_decompress c (replicate PAGE_BYTES 0)
  | None => (true, replicate PAGE_BYTES 0)
  end = (true, block_page d b).
Proof.
  intros Hd. unfold block_page. destruct (blocks d !! b) as [c|] eqn:E; [|done].
  destruct (zram_blocks _ Hd _ _ E) as (page & Hp & ->).
  by rewrite page_of_encode, page_decodes by (done || apply length_replicate).
Qed.

Lemma put_block_ok d b page :
  zram_wf d → is_page page →
  ∃ d', put_block d b page = Some d' ∧ zram_wf d' ∧ total_sectors d' = total_sectors d ∧
    ∀ b', block_page d' b' = if decide (b' = b) then page else block_page d b'.
Proof.
  intros Hd Hp. unfold put_block. destruct (page_compresses _ Hp) as (buf & Hc & Hbuf).
  replace (length page) with PAGE_BYTES in Hc by (symmetry; apply Hp).
  rewrite Hc. cbn [mbind option_bind]. rewrite Hbuf. eexists. split; [done|]. split_and!; [|done|].
  - destruct Hd as [Hb Ht]. split; cbn [blocks comp_bytes].
    + intros b' c. rewrite lookup_insert_Some. intros [[_ <-]|[_ Hc']]; [by exists page|by eapply Hb].
    + rewrite Ht, wadd_wrap_l, wsub_wrap_l. f_equal.
      set (f := λ _ c acc, _). rewrite <- (insert_delete_eq (blocks d) b (lz4_encode page)).
      rewrite (map_fold_insert_L f); [|intros; unfold f; lia|apply lookup_delete_eq].
      destruct (blocks d !! b) as [c|] eqn:E.
      * rewrite (map_fold_delete_L f _ b c (blocks d)); [unfold f; lia|intros; unfold f; lia|done].
      * rewrite delete_id by done. unfold f. lia.
  - intros b'. unfold block_page. cbn [blocks]. case_decide as Hb; [subst|].
    + rewrite lookup_insert_eq. by apply page_of_encode.
    + by rewrite lookup_insert_ne.
Qed.

Lemma length_sector_of page j :
  (S j * ZRAM_SECTOR_SIZE ≤ length page)%nat → length (sector_of page j) = ZRAM_SECTOR_SIZE.
Proof. intros. unfold sector_of. rewrite length_slice; unfold ZRAM_SECTOR_SIZE in *; lia. Qed.

Lemma lookup_sector_of page j i :
  (S j * ZRAM_SECTOR_SIZE ≤ length page)%nat → (i < ZRAM_SECTOR_SIZE)%nat →
  sector_of page j !! i = page !! (j * ZRAM_SECTOR_SIZE + i)%nat.
Proof. intros. unfold sector_of. rewrite lookup_slice; unfold ZRAM_SECTOR_SIZE in *; (done || lia). Qed.

Lemma sector_of_inserts page data j j' :
  length data = ZRAM_SECTOR_SIZE → (S j * ZRAM_SECTOR_SIZE ≤ length page)%nat →
  (S j' * ZRAM_SECTOR_SIZE ≤ length page)%nat →
  sector_of (list_inserts (j * ZRAM_SECTOR_SIZE) data page) j' =
    if decide (j' = j) then data else sector_of page j'.
Proof.
  intros Hd Hj Hj'. set (p' := list_inserts _ _ _).
  assert (length p' = length page) as Hl by apply length_inserts.
  apply list_eq_same_length with ZRAM_SECTOR_SIZE.
  - by case_decide; [|rewrite length_sector_of].
  - rewrite length_sector_of; [done|by rewrite Hl].
  - intros i x y Hi Hx Hy. enough (Some x = Some y) by congruence. rewrite <- Hx, <- Hy.
    rewrite lookup_sector_of by (done || by rewrite Hl). unfold p', ZRAM_SECTOR_SIZE in *. case_decide; subst.
    + rewrite list_lookup_inserts by lia. f_equal. lia.
    + rewrite lookup_sector_of by (done || unfold ZRAM_SECTOR_SIZE; lia). unfold ZRAM_SECTOR_SIZE.
      destruct (decide (j' < j)%nat); [by rewrite list_lookup_inserts_lt by lia|].
      by rewrite list_lookup_inserts_ge by lia.
Qed.

Lemma bytes_inserts i k l : bytes k → bytes l → bytes (list_inserts i k l).
Proof.
  intros Hk Hl. revert i. induction Hk as [|b k Hb Hk IH]; intros i; cbn; [done|].
  by apply Forall_insert.
Qed.

Lemma fill_page_spec k j s buf page :
  ((s + k) * ZRAM_SECTOR_SIZE ≤ length buf)%nat → ((j + k) * ZRAM_SECTOR_SIZE ≤ length page)%nat →
  let page' := fill_page k j s buf page in
  length page' = length page ∧ (bytes buf → bytes page → bytes page') ∧
  ∀ j', (S j' * ZRAM_SECTOR_SIZE ≤ length page)%nat →
    sector_of page' j' =
      if decide (j ≤ j' < j + k)%nat then sector_of buf (s + (j' - j)) else sector_of page j'.
Proof.
  revert j s page. induction k as [|k IH]; intros j s page Hb Hp page'.
  { subst page'. cbn [fill_page]. split_and!; [done|done|]. intros j' _. case_decide; [lia|done]. }
  subst page'. cbn [fill_page]. fold (sector_of buf s). set (p1 := list_inserts _ _ _).
  assert (length p1 = length page) as Hl1 by apply length_inserts.
  destruct (IH (S j) (S s) p1) as (Hl & Hby & Hs); [lia|rewrite Hl1; lia|]. split_and!.
  - by rewrite Hl.
  - intros Hbb Hbp. apply Hby; [done|]. apply bytes_inserts; [by apply bytes_slice|done].
  - intros j' Hj'. rewrite Hs by (rewrite Hl1; done).
    unfold p1. rewrite sector_of_inserts; [|apply length_sector_of; unfold ZRAM_SECTOR_SIZE in *; lia
      |unfold ZRAM_SECTOR_SIZE in *; lia|done].
    repeat case_decide; try lia; try done; [f_equal; lia|subst; f_equal; lia].
Qed.

(** The device after the first [k] sectors of a write. *)
Definition written (d d' : ZramDevice) (lba : Z) (k : nat) (buf : list Z) : Prop :=
  zram_wf d' ∧ total_sectors d' = total_sectors d ∧
  ∀ x, 0 ≤ x → sector d' x =
    if decide (lba ≤ x < lba + Z.of_nat k) then sector_of buf (Z.to_nat (x - lba)) else sector d x.

Lemma zram_write_round_ok lba buf d d0 s :
  bytes buf → 0 ≤ lba → lba + Z.of_nat (length buf / ZRAM_SECTOR_SIZE) ≤ 2 ^ 64 →
  written d0 d lba s buf → (s < length buf / ZRAM_SECTOR_SIZE)%nat →
  ∃ d' c, zram_write_round lba buf (d, s) = inl (d', (s + c)%nat) ∧ (0 < c)%nat ∧
    (s + c ≤ length buf / ZRAM_SECTOR_SIZE)%nat ∧ written d0 d' lba (s + c) buf.
Proof.
  intros Hbuf Hlba Hfit (Hwf & Ht & Hsec) Hs. set (n := (length buf / ZRAM_SECTOR_SIZE)%nat) in *.
  assert (n * ZRAM_SECTOR_SIZE ≤ length buf)%nat as Hn by (unfold n, ZRAM_SECTOR_SIZE; nat_div_lia).
  unfold zram_write_round. fold n. rewrite (proj2 (Nat.ltb_lt _ _)) by done. cbn [negb].
  rewrite wadd_small by lia. cbn zeta.
  set (x0 := lba + Z.of_nat s). rewrite block_decodes by done. cbn [negb].
  pose proof (block_page_ok d (x0 / 8) Hwf) as [Hpl Hpb].
  pose proof (Z.mod_pos_bound x0 8 ltac:(lia)) as Hm. pose proof (Z.div_mod x0 8 ltac:(lia)) as Hdm.
  replace (x0 - x0 / 8 * 8) with (x0 mod 8) by lia.
  set (j := Z.to_nat (x0 mod 8)). set (c := ((8 - j) `min` (n - s))%nat).
  destruct (fill_page_spec c j s buf (block_page d (x0 / 8))) as (Hl & Hb & Hf).
  { unfold c, ZRAM_SECTOR_SIZE in *. lia. }
  { rewrite Hpl. unfold c, j, ZRAM_SECTOR_SIZE, PAGE_BYTES. lia. }
  set (page := fill_page _ _ _ _ _) in *.
  destruct (put_block_ok d (x0 / 8) page Hwf) as (d' & -> & Hwf' & Ht' & Hbp); [split; [by rewrite Hl|by apply Hb]|].
  exists d', c. split; [done|]. split; [unfold c, j; lia|]. split; [unfold c; lia|].
  split; [done|]. split; [congruence|]. intros x Hx. unfold sector at 1. rewrite Hbp.
  pose proof (Z.mod_pos_bound x 8 ltac:(lia)). pose proof (Z.div_mod x 8 ltac:(lia)).
  case_decide as Hblk.
  - rewrite Hf by (rewrite Hpl; unfold ZRAM_SECTOR_SIZE, PAGE_BYTES; lia). rewrite <- Hblk.
    fold (sector d x). rewrite Hsec by done. rewrite Hblk in *.
    repeat case_decide; unfold c, j in *; try done; try lia. f_equal. lia.
  - fold (sector d x). rewrite Hsec by done. repeat case_decide; try done; unfold c, j in *; nia.
Qed.

Lemma write_sectors_ok d lba buf :
  zram_wf d → bytes buf → 0 ≤ lba → lba + Z.of_nat (length buf / ZRAM_SECTOR_SIZE) ≤ 2 ^ 64 →
  ∃ d', write_sectors d lba buf = Some (d', true) ∧ written d d' lba (length buf / ZRAM_SECTOR_SIZE) buf.
Proof.
  intros Hd Hb Hl Hfit. set (n := (length buf / ZRAM_SECTOR_SIZE)%nat) in *.
  enough (∀ fuel s d1, (n - s < fuel)%nat → (s ≤ n)%nat → written d d1 lba s buf →
    ∃ d', loop_nat (zram_write_round lba buf) fuel (d1, s) = inr (Some (d', true)) ∧ written d d' lba n buf) as Hloop.
  { destruct (Hloop (S n) 0%nat d) as (d' & Hr & Hw); [lia|lia| |].
    - split_and!; [done|done|]. intros x Hx. case_decide; [lia|done].
    - exists d'. unfold write_sectors. fold n. by rewrite Hr. }
  induction fuel as [|fuel IH]; intros s d1 Hf Hs Hw; [lia|]. rewrite loop_nat_S.
  destruct (decide (s = n)) as [->|].
  - exists d1. unfold zram_write_round. fold n. by rewrite Nat.ltb_irrefl.
  - destruct (zram_write_round_ok lba buf d1 d s Hb Hl Hfit Hw) as (d2 & c & -> & Hc & Hle & Hw2); [fold n; lia|].
    apply IH; [lia|done|done].
Qed.

Lemma length_block_page d b : zram_wf d → length (block_page d b) = PAGE_BYTES.
Proof. intros Hd. apply (block_page_ok d b Hd). Qed.

Lemma read_loop_step d lba k s buf :
  zram_wf d → 0 ≤ lba → lba + Z.of_nat s < 2 ^ 64 →
  read_loop d lba (S k) s buf =
    read_loop d lba k (S s) (list_inserts (s * ZRAM_SECTOR_SIZE) (sector d (lba + Z.of_nat s)) buf).
Proof.
  intros Hd Hl Hs. cbn [read_loop]. rewrite wadd_small by lia. set (x := lba + Z.of_nat s).
  pose proof (block_decodes d (x / 8) Hd) as Hb. unfold sector, sector_of, sector_off.
  unfold block_page in *. destruct (blocks d !! (x / 8)) as [c|] eqn:E; [by rewrite Hb|].
  do 2 f_equal. unfold slice. rewrite drop_replicate, take_replicate. f_equal.
  pose proof (Z.mod_pos_bound x 8 ltac:(lia)). unfold ZRAM_SECTOR_SIZE, PAGE_BYTES. lia.
Qed.

Lemma length_sector d x : zram_wf d → length (sector d x) = ZRAM_SECTOR_SIZE.
Proof.
  intros Hd. apply length_sector_of. rewrite length_block_page by done.
  pose proof (Z.mod_pos_bound x 8 ltac:(lia)). unfold ZRAM_SECTOR_SIZE, PAGE_BYTES. lia.
Qed.

Lemma read_sectors_ok d lba buf :
  zram_wf d → 0 ≤ lba → lba + Z.of_nat (length buf / ZRAM_SECTOR_SIZE) ≤ 2 ^ 64 →
  ∃ buf', read_sectors d lba buf = (true, buf') ∧ length buf' = length buf ∧
    ∀ i, (i < length buf / ZRAM_SECTOR_SIZE)%nat → sector_of buf' i = sector d (lba + Z.of_nat i).
Proof.
  intros Hd Hl Hfit. unfold read_sectors. set (n := (length buf / ZRAM_SECTOR_SIZE)%nat) in *.
  assert (n * ZRAM_SECTOR_SIZE ≤ length buf)%nat as Hn by (unfold n, ZRAM_SECTOR_SIZE; nat_div_lia).
  enough (∀ k s b, (s + k = n)%nat → length b = length buf →
    (∀ i, (i < s)%nat → sector_of b i = sector d (lba + Z.of_nat i)) →
    ∃ b', read_loop d lba k s b = (true, b') ∧ length b' = length buf ∧
      ∀ i, (i < n)%nat → sector_of b' i = sector d (lba + Z.of_nat i)) as Hloop.
  { destruct (Hloop n 0%nat buf) as (b' & ? & ? & ?); [lia|done|lia|]. by exists b'. }
  induction k as [|k IH]; intros s b Hk Hb Hdone.
  { exists b. split_and!; [done|done|]. intros i Hi. apply Hdone. lia. }
  rewrite read_loop_step by (done || lia). apply IH; [lia|by rewrite length_inserts|].
  intros i Hi. rewrite sector_of_inserts; [|by apply length_sector|unfold ZRAM_SECTOR_SIZE in *; lia..].
  case_decide; [by subst|]. apply Hdone. lia.
Qed.

Lemma sectors_eq n l k :
  length l = (n * ZRAM_SECTOR_SIZE)%nat → length k = (n * ZRAM_SECTOR_SIZE)%nat →
  (∀ i, (i < n)%nat → sector_of l i = sector_of k i) → l = k.
Proof.
  intros Hl Hk Hs. apply list_eq_same_length with (n * ZRAM_SECTOR_SIZE)%nat; [done..|].
  intros i x y Hi Hx Hy. enough (Some x = Some y) by congruence. rewrite <- Hx, <- Hy.
  assert (i = i / ZRAM_SECTOR_SIZE * ZRAM_SECTOR_SIZE + i mod ZRAM_SECTOR_SIZE)%nat as Hi'
    by (unfold ZRAM_SECTOR_SIZE; nat_div_lia).
  assert (i / ZRAM_SECTOR_SIZE < n)%nat as Hin by (unfold ZRAM_SECTOR_SIZE in *; nat_div_lia).
  pose proof (Nat.mod_upper_bound i ZRAM_SECTOR_SIZE ltac:(unfold ZRAM_SECTOR_SIZE; lia)).
  rewrite Hi', <- !lookup_sector_of by (done || unfold ZRAM_SECTOR_SIZE in *; lia). by rewrite Hs.
Qed.

(** The block device is an array of sectors: a write of whole sectors at
    any address succeeds, changes exactly the sectors it covers, keeps the
    device consistent (each block stays compressed, [comp_bytes] is the space
    used), and a later read returns what was written. *)
Theorem zram_roundtrip d lba buf n :
  zram_wf d → bytes buf → length buf = (n * ZRAM_SECTOR_SIZE)%nat →
  0 ≤ lba → lba + Z.of_nat n ≤ 2 ^ 64 →
  ∃ d', write_sectors d lba buf = Some (d', true) ∧ zram_wf d' ∧ total_sectors d' = total_sectors d ∧
    (∀ x, 0 ≤ x → x < lba ∨ lba + Z.of_nat n ≤ x → sector d' x = sector d x) ∧
    ∀ out, length out = length buf → read_sectors d' lba out = (true, buf).
Proof.
  intros Hd Hb Hlen Hl Hfit.
  assert (length buf / ZRAM_SECTOR_SIZE = n)%nat as Hn by (rewrite Hlen; by apply Nat.div_mul).
  destruct (write_sectors_ok d lba buf Hd Hb Hl) as (d' & Hw & Hd' & Ht & Hs); [by rewrite Hn|].
  rewrite Hn in Hs. exists d'. split_and!; [done..| |].
  - intros x Hx Hout. rewrite Hs by done. case_decide; [lia|done].
  - intros out Ho.
    destruct (read_sectors_ok d' lba out Hd' Hl) as (out' & -> & Hlo & Hso); [by rewrite Ho, Hn|].
    rewrite Ho, Hn in Hso. f_equal. apply (sectors_eq n); [congruence|done|]. intros i Hi. rewrite Hso, Hs by lia.
    case_decide; [f_equal; lia|lia].
Qed.

Lemma zram_new_wf size : zram_wf (zram_new size).
Proof. split; cbn; [by intros ? ?; rewrite lookup_empty|done]. Qed.

Lemma zram_roundtrip_witness :
  ∃ d', write_sectors (zram_new 128) 7 (replicate 1024 9) = Some (d', true) ∧ zram_wf d' ∧
    total_sectors d' = total_sectors (zram_new 128) ∧
    (∀ x, 0 ≤ x → x < 7 ∨ 9 ≤ x → sector d' x = sector (zram_new 128) x) ∧
    ∀ out, length out = length (replicate 1024 9) → read_sectors d' 7 out = (true, replicate 1024 9).
Proof.
  apply (zram_roundtrip (zram_new 128) 7 (replicate 1024 9) 2);
    [apply zram_new_wf|by apply Forall_replicate|apply length_replicate|done|done].
Defined.

(** The size of the device is not a bound: a write beyond [total_sectors]
    succeeds like any other. *)
Lemma zram_size_unchecked :
  total_sectors (zram_new 128) = 262144 ∧
  ∃ d', write_sectors (zram_new 128) 262144 (replicate 512 9) = Some (d', true).
Proof.
  split; [done|]. destruct (write_sectors_ok (zram_new 128) 262144 (replicate 512 9)) as (d' & Hw & _);
    [apply zram_new_wf|by apply Forall_replicate|done|done|by exists d'].
Qed.
