(* ===== verification/Paging.v ===== *)
(** * Page tables

    Models kernel/src/arch/x86_64/paging.rs: page-table entries, the walk
    through the four levels, [map_page] with the tables it allocates, and
    [unmap_page].  Physical memory is a map from frames to their 512 words
    (an absent word is zero); a table is the frame its parent's entry names.
    The frame allocator is seen through the interface [FrameAlloc], which
    kernel/src/memory/phys.rs implements (VmmIface.v).  [None] is a panic: the
    [expect] of [ensure_table] when no frame is left.

    The tables of all address spaces form trees that share only the kernel
    half (entries 256 to 511 of the root, copied by [new_user]).  [pt_inv]
    states that, and the theorems say that the tables behave as a map from
    pages to entries. *)
From S2P Require Import Prelude.

(** ** The frame allocator, as paging sees it

    Frames are named by their physical address.  [fa_rep a F] says that [F]
    is the set of free frame numbers; [fa_avail a] is a number of allocations
    that are certain to succeed. *)
Class FrameAlloc (A : Type) := {
  fa_alloc : A → option (A * option Z);
  fa_free : Z → A → option A;
  fa_rep : A → gset Z → Prop;
  fa_avail : A → nat;
  fa_frame a F f : fa_rep a F → f ∈ F → 0 < f < 2 ^ 20;
  fa_alloc_spec a F : fa_rep a F →
    ∃ a' r, fa_alloc a = Some (a', r) ∧
      match r with
      | Some p => ∃ f, p = f * 4096 ∧ f ∈ F ∧ fa_rep a' (F ∖ {[f]}) ∧ (fa_avail a ≤ S (fa_avail a'))%nat
      | None => fa_rep a' F ∧ fa_avail a = 0%nat
      end;
  fa_free_spec a F f : fa_rep a F → 0 < f < 2 ^ 20 → f ∉ F →
    ∃ a', fa_free (f * 4096) a = Some a' ∧ fa_rep a' (F ∪ {[f]});
}.

(** ** Entries *)
Definition PRESENT : Z := 0x1.
Definition WRITABLE : Z := 0x2.
Definition USER : Z := 0x4.
Definition COW : Z := 0x200.
Definition NO_EXECUTE : Z := 0x8000000000000000.
(** All flags the source names: bits 0 to 9 and 63. *)
Definition ALL_FLAGS : Z := 0x80000000000003FF.
Definition FRAME_MASK : Z := 0x000FFFFFFFFFF000.

Definition make_entry (phys flags : Z) : Z := Z.lor (Z.land phys FRAME_MASK) flags.
Definition entry_frame (e : Z) : Z := Z.land e FRAME_MASK.
(** [from_bits_truncate]. *)
Definition entry_flags (e : Z) : Z := Z.land e ALL_FLAGS.
Definition has (flags bit : Z) : bool := negb (Z.land flags bit =? 0).
Definition is_present (e : Z) : bool := has (entry_flags e) PRESENT.

Definition pml4_idx (virt : Z) : Z := Z.land (Z.shiftr virt 39) 0x1FF.
Definition pdpt_idx (virt : Z) : Z := Z.land (Z.shiftr virt 30) 0x1FF.
Definition pd_idx (virt : Z) : Z := Z.land (Z.shiftr virt 21) 0x1FF.
Definition pt_idx (virt : Z) : Z := Z.land (Z.shiftr virt 12) 0x1FF.
Definition table_path (virt : Z) : list Z := [pml4_idx virt; pdpt_idx virt; pd_idx virt].

(** ** Memory *)
Record Memory (A : Type) := mkMem { frames : A; ram : gmap Z (gmap Z Z) }.
Arguments mkMem {_} _ _.
Arguments frames {_} _.
Arguments ram {_} _.

Definition rd {A} (m : Memory A) (f i : Z) : Z := default 0 (default ∅ (ram m !! f) !! i).
Definition wr {A} (f i w : Z) (m : Memory A) : Memory A :=
  mkMem (frames m) (<[f := <[i := w]> (default ∅ (ram m !! f))]> (ram m)).
(** [write_bytes(frame, 0, PAGE_SIZE)]. *)
Definition zero_frame {A} (f : Z) (m : Memory A) : Memory A := mkMem (frames m) (delete f (ram m)).
Definition copy_frame {A} (src dst : Z) (m : Memory A) : Memory A :=
  mkMem (frames m) (<[dst := default ∅ (ram m !! src)]> (ram m)).

Section Mapper.
Context {A : Type} `{FA : FrameAlloc A}.
Implicit Types m : Memory A.

Definition frame_alloc (m : Memory A) : option (Memory A * option Z) :=
  '(a, r) ← fa_alloc (frames m); Some (mkMem a (ram m), r).
Definition frame_free (f : Z) (m : Memory A) : option (Memory A) :=
  a ← fa_free f (frames m); Some (mkMem a (ram m)).

(** The table named by entry [i] of table [t], allocated when absent. *)
Definition ensure_table (t i flags : Z) (m : Memory A) : option (Memory A * Z) :=
  let e := rd m t i in
  if is_present e then Some (m, entry_frame e)
  else
    '(m, r) ← frame_alloc m;
    frame ← r;
    let m := zero_frame frame m in
    let e := make_entry frame (Z.lor (Z.lor flags PRESENT) WRITABLE) in
    Some (wr t i e m, entry_frame e).

(** [invalidate_tlb] has no effect on memory. *)
Definition map_page (pml4 virt phys flags : Z) (m : Memory A) : option (Memory A) :=
  '(m, pdpt) ← ensure_table pml4 (pml4_idx virt) flags m;
  '(m, pd) ← ensure_table pdpt (pdpt_idx virt) flags m;
  '(m, pt) ← ensure_table pd (pd_idx virt) flags m;
  Some (wr pt (pt_idx virt) (make_entry phys (Z.lor flags PRESENT)) m).

(** The table and index of the last level. *)
Definition get_entry (m : Memory A) (pml4 virt : Z) : option (Z * Z) :=
  let e4 := rd m pml4 (pml4_idx virt) in
  if negb (is_present e4) then None
  else
    let e3 := rd m (entry_frame e4) (pdpt_idx virt) in
    if negb (is_present e3) then None
    else
      let e2 := rd m (entry_frame e3) (pd_idx virt) in
      if negb (is_present e2) then None else Some (entry_frame e2, pt_idx virt).

Definition unmap_page (pml4 virt : Z) (m : Memory A) : Memory A :=
  match get_entry m pml4 virt with
  | Some (t, i) => wr t i 0 m
  | None => m
  end.

Definition get_flags (m : Memory A) (pml4 virt : Z) : option Z :=
  '(t, i) ← get_entry m pml4 virt;
  let e := rd m t i in
  if is_present e then Some (entry_flags e) else None.

Definition translate (m : Memory A) (pml4 virt : Z) : option Z :=
  '(t, i) ← get_entry m pml4 virt;
  let e := rd m t i in
  if is_present e then Some (Z.lor (entry_frame e) (Z.land virt 0xFFF)) else None.

(** *** Entries, bit by bit *)
Definition flags_ok (fl : Z) : Prop := Z.land fl ALL_FLAGS = fl.

Lemma flags_ok_lor a b : flags_ok a → flags_ok b → flags_ok (Z.lor a b).
Proof. unfold flags_ok. intros Ha Hb. by rewrite Z.land_lor_distr_l, Ha, Hb. Qed.

Lemma make_entry_frame phys fl : flags_ok fl → entry_frame (make_entry phys fl) = Z.land phys FRAME_MASK.
Proof.
  intros Hf. unfold entry_frame, make_entry. rewrite Z.land_lor_distr_l, <- Z.land_assoc, Z.land_diag.
  rewrite <- Hf, <- Z.land_assoc. change (Z.land ALL_FLAGS FRAME_MASK) with 0.
  by rewrite Z.land_0_r, Z.lor_0_r.
Qed.

Lemma make_entry_flags phys fl : flags_ok fl → entry_flags (make_entry phys fl) = fl.
Proof.
  intros Hf. unfold entry_flags, make_entry. rewrite Z.land_lor_distr_l, Hf, <- Z.land_assoc.
  change (Z.land FRAME_MASK ALL_FLAGS) with 0. by rewrite Z.land_0_r.
Qed.

Lemma has_present fl : has fl PRESENT = Z.testbit fl 0.
Proof. apply (word_test fl 0). lia. Qed.

Lemma make_entry_present phys fl : flags_ok fl → is_present (make_entry phys (Z.lor fl PRESENT)) = true.
Proof.
  intros Hf. unfold is_present. rewrite make_entry_flags by (by apply flags_ok_lor).
  rewrite has_present, Z.lor_spec. apply orb_true_r.
Qed.

Lemma table_entry_present p fl : flags_ok fl → is_present (make_entry p (Z.lor (Z.lor fl PRESENT) WRITABLE)) = true.
Proof.
  intros Hfl. rewrite <- Z.lor_assoc, (Z.lor_comm PRESENT), Z.lor_assoc. apply make_entry_present. by apply flags_ok_lor.
Qed.

Lemma zero_not_present : is_present 0 = false.
Proof. done. Qed.

(** Page-aligned addresses below 4 GB are frames of entries. *)
Lemma frame_masked f : 0 ≤ f < 2 ^ 20 → Z.land (f * 4096) FRAME_MASK = f * 4096.
Proof.
  intros Hf. change 4096 with (2 ^ 12). rewrite <- Z.shiftl_mul_pow2 by lia.
  change FRAME_MASK with (Z.shiftl (Z.ones 40) 12). rewrite <- Z.shiftl_land. f_equal.
  rewrite Z.land_ones by lia. apply Z.mod_small. lia.
Qed.

(** *** Virtual page numbers *)
Definition vpn (virt : Z) : Z := (virt / 4096) mod 2 ^ 36.

Lemma idx_div virt k : 0 ≤ k → Z.land (Z.shiftr virt k) 0x1FF = (virt / 2 ^ k) mod 512.
Proof. intros. rewrite Z.shiftr_div_pow2 by done. change 0x1FF with (Z.ones 9). by rewrite Z.land_ones. Qed.

Lemma vpn_idx virt :
  vpn virt = pt_idx virt + 512 * (pd_idx virt + 512 * (pdpt_idx virt + 512 * pml4_idx virt)).
Proof.
  unfold vpn, pt_idx, pd_idx, pdpt_idx, pml4_idx. rewrite !idx_div by lia.
  change (2 ^ 36) with (512 * (512 * (512 * 512))). change (2 ^ 12) with 4096.
  change (2 ^ 21) with (4096 * 512). change (2 ^ 30) with (4096 * 512 * 512).
  change (2 ^ 39) with (4096 * 512 * 512 * 512).
  rewrite !Z.rem_mul_r, !Z.div_div by lia. lia.
Qed.

Lemma idx_range virt k : 0 ≤ k → 0 ≤ Z.land (Z.shiftr virt k) 0x1FF < 512.
Proof. intros. rewrite idx_div by done. apply Z.mod_pos_bound. lia. Qed.

(** Two addresses use the same entry exactly when they are in one page. *)
Lemma vpn_eq v v' : vpn v' = vpn v ↔ table_path v' = table_path v ∧ pt_idx v' = pt_idx v.
Proof.
  rewrite !vpn_idx. unfold table_path.
  pose proof (idx_range v 12 ltac:(lia)). pose proof (idx_range v' 12 ltac:(lia)).
  pose proof (idx_range v 21 ltac:(lia)). pose proof (idx_range v' 21 ltac:(lia)).
  pose proof (idx_range v 30 ltac:(lia)). pose proof (idx_range v' 30 ltac:(lia)).
  fold (pt_idx v) (pt_idx v') (pd_idx v) (pd_idx v') (pdpt_idx v) (pdpt_idx v') in *. split.
  - intros. assert (pml4_idx v' = pml4_idx v) by lia. assert (pdpt_idx v' = pdpt_idx v) by lia.
    assert (pd_idx v' = pd_idx v) by lia. split; [congruence|lia].
  - intros [Hp ->]. by injection Hp as -> -> ->.
Qed.

Lemma path_length v : (length (table_path v) ≤ 3)%nat.
Proof. cbn. lia. Qed.

(** ** The trees of tables *)
Fixpoint walk m (t : Z) (p : list Z) : option Z :=
  match p with
  | [] => Some t
  | i :: p => if is_present (rd m t i) then walk m (entry_frame (rd m t i)) p else None
  end.

Definition kernel_path (p : list Z) : Prop := match p with i :: _ => 256 ≤ i | [] => False end.

Record pt_inv m (R F : gset Z) : Prop := {
  pi_rep : fa_rep (frames m) F;
  pi_share : ∀ r1 r2 p1 p2 t, r1 ∈ R → r2 ∈ R → (length p1 ≤ 3)%nat → (length p2 ≤ 3)%nat →
    walk m r1 p1 = Some t → walk m r2 p2 = Some t → p1 = p2 ∧ (r1 = r2 ∨ kernel_path p1);
  pi_used : ∀ r p t f, r ∈ R → (length p ≤ 3)%nat → walk m r p = Some t → f ∈ F → t ≠ f * 4096;
}.

(** What the last level holds for an address: frame and flags. *)
Definition mapping m (r virt : Z) : option (Z * Z) :=
  t ← walk m r (table_path virt);
  let e := rd m t (pt_idx virt) in
  if is_present e then Some (entry_frame e, entry_flags e) else None.

Lemma get_entry_walk m r virt : get_entry m r virt = (λ t, (t, pt_idx virt)) <$> walk m r (table_path virt).
Proof. unfold get_entry. cbn [walk table_path]. by repeat (case_match; cbn [negb fmap option_fmap option_map]). Qed.

Lemma translate_mapping m r virt :
  translate m r virt = (λ e, Z.lor e.1 (Z.land virt 0xFFF)) <$> mapping m r virt.
Proof.
  unfold translate, mapping. rewrite get_entry_walk. destruct (walk _ _ _); [|done]. cbn. by case_match.
Qed.

Lemma get_flags_mapping m r virt : get_flags m r virt = snd <$> mapping m r virt.
Proof. unfold get_flags, mapping. rewrite get_entry_walk. destruct (walk _ _ _); [|done]. cbn. by case_match. Qed.

Lemma walk_app m t p q : walk m t (p ++ q) = (u ← walk m t p; walk m u q).
Proof. revert t. induction p as [|i p IH]; intros t; [done|]. cbn. case_match; [apply IH|done]. Qed.

Lemma rd_wr m t i w u j : rd (wr t i w m) u j = if decide (u = t ∧ j = i) then w else rd m u j.
Proof.
  unfold rd, wr. cbn [ram]. destruct (decide (u = t)) as [->|Hu].
  - rewrite lookup_insert_eq. cbn [from_option id]. destruct (decide (j = i)) as [->|Hj].
    + rewrite lookup_insert_eq. by case_decide; [|tauto].
    + rewrite lookup_insert_ne by done. by case_decide; [tauto|].
  - rewrite lookup_insert_ne by done. by case_decide; [tauto|].
Qed.

Lemma rd_zero m f u j : rd (zero_frame f m) u j = if decide (u = f) then 0 else rd m u j.
Proof.
  unfold rd, zero_frame. cbn [ram]. case_decide as Hu; [subst; by rewrite lookup_delete_eq|by rewrite lookup_delete_ne].
Qed.

(** Walks only read tables of depth at most two. *)
Lemma walk_ext m m' (R : gset Z) r q :
  (∀ p t j, (length p < 3)%nat → walk m r p = Some t → rd m' t j = rd m t j) →
  (length q ≤ 3)%nat → walk m' r q = walk m r q.
Proof.
  intros Hrd. enough (∀ q2 q1 u, walk m r q1 = Some u → (length q1 + length q2 ≤ 3)%nat → walk m' u q2 = walk m u q2) as He.
  { intros Hq. apply (He q []); [done|cbn; lia]. }
  induction q2 as [|j q2 IH]; intros q1 u Hu Hl; [done|]. cbn [walk length] in *.
  rewrite (Hrd q1 u j) by (done || lia). destruct (is_present (rd m u j)) eqn:Ep; [|done].
  apply (IH (q1 ++ [j])); [|rewrite length_app; cbn; lia].
  rewrite walk_app, Hu. cbn. by rewrite Ep.
Qed.

(** The effect of one write on the walks: only those that go through the
    written entry. *)
Lemma walk_wr m (R F : gset Z) r t i w p0 r' q :
  pt_inv m R F → r ∈ R → r' ∈ R → (length p0 ≤ 3)%nat → walk m r p0 = Some t → (length q ≤ 3)%nat →
  ¬ (∃ s, q = p0 ++ i :: s ∧ walk m r' p0 = Some t) →
  walk (wr t i w m) r' q = walk m r' q.
Proof.
  intros Hi Hr Hr' Hp0 Ht Hq Hno.
  enough (∀ q2 q1 u, walk m r' q1 = Some u → q = q1 ++ q2 → walk (wr t i w m) u q2 = walk m u q2) as He
    by (by apply (He q [])).
  induction q2 as [|j q2 IH]; intros q1 u Hu ->; [done|]. cbn [walk]. rewrite length_app in Hq. cbn [length] in Hq.
  rewrite rd_wr. case_decide as Hd.
  - destruct Hd as [-> ->]. destruct (pi_share _ _ _ Hi r' r q1 p0 t) as [-> _]; [done..|lia|done|done|done|].
    exfalso. apply Hno. by exists q2.
  - destruct (is_present (rd m u j)) eqn:Ep; [|done]. apply (IH (q1 ++ [j])).
    + rewrite walk_app, Hu. cbn. by rewrite Ep.
    + by rewrite <- (assoc_L (++)).
Qed.

Lemma walk_wr_through m r t i w p0 s :
  walk (wr t i w m) r p0 = Some t →
  walk (wr t i w m) r (p0 ++ i :: s) = if is_present w then walk (wr t i w m) (entry_frame w) s else None.
Proof. intros Hp. rewrite walk_app, Hp. cbn. rewrite rd_wr. by case_decide; [|tauto]. Qed.

(** A frame that was free is in no table: zeroing it changes no walk. *)
Lemma pt_inv_alloc m R F a f :
  pt_inv m R F → f ∈ F → fa_rep a (F ∖ {[f]}) →
  let m' := zero_frame (f * 4096) (mkMem a (ram m)) in
  pt_inv m' R (F ∖ {[f]}) ∧
  (∀ r q, r ∈ R → (length q ≤ 3)%nat → walk m' r q = walk m r q) ∧
  (∀ r q t j, r ∈ R → (length q ≤ 3)%nat → walk m r q = Some t → rd m' t j = rd m t j).
Proof.
  intros Hi Hf Ha m'.
  assert (∀ r q t j, r ∈ R → (length q ≤ 3)%nat → walk m r q = Some t → rd m' t j = rd m t j) as Hrd.
  { intros r q t j Hr Hq Ht. unfold m'. rewrite rd_zero. case_decide as Heq; [|done].
    by apply (pi_used _ _ _ Hi r q t f) in Ht. }
  assert (∀ r q, r ∈ R → (length q ≤ 3)%nat → walk m' r q = walk m r q) as Hw.
  { intros r q Hr Hq. apply (walk_ext _ _ R); [|done]. intros p t j Hp Ht. apply (Hrd r p); [done|lia|done]. }
  split_and!; [|done|done]. split; [done|..].
  - intros r1 r2 p1 p2 t Hr1 Hr2 H1 H2. rewrite !Hw by done. by apply Hi.
  - intros r p t g Hr Hp. rewrite Hw by done. intros Ht Hg. apply (pi_used _ _ _ Hi r p); [done..|set_solver].
Qed.

(** The memory of frames that are neither tables nor free. *)
Definition keeps_data m m' (R F : gset Z) : Prop :=
  ∀ g, (∀ f, f ∈ F → g ≠ f * 4096) → (∀ r p, r ∈ R → (length p ≤ 3)%nat → walk m r p ≠ Some g) →
    ram m' !! g = ram m !! g.

(** A table is linked into the tree: its own path leads to it, every other
    walk is as before. *)
Section Link.
Context m (R F : gset Z) (r t i g e : Z) (p0 : list Z).
Hypothesis Hi : pt_inv m R F.
Hypothesis Hr : r ∈ R.
Hypothesis Hp0 : (length p0 ≤ 2)%nat.
Hypothesis Ht : walk m r p0 = Some t.
Hypothesis Habs : is_present (rd m t i) = false.
Hypothesis Hnew : ∀ r p, r ∈ R → (length p ≤ 3)%nat → walk m r p ≠ Some g.
Hypothesis Hfree : ∀ f, f ∈ F → g ≠ f * 4096.
Hypothesis Hz : ∀ j, rd m g j = 0.
Hypothesis He : is_present e = true.
Hypothesis Hg : entry_frame e = g.

Lemma link_through r' s :
  r' ∈ R → (length (p0 ++ i :: s) ≤ 3)%nat → walk m r' p0 = Some t →
  walk (wr t i e m) r' (p0 ++ i :: s) = (if s then Some g else None) ∧ walk m r' (p0 ++ i :: s) = None.
Proof.
  intros Hr' Hl Hw. split.
  - rewrite walk_wr_through, He, Hg.
    + destruct s as [|j s]; [done|]. cbn. rewrite rd_wr, Hz.
      case_decide as Hd; [|by rewrite zero_not_present]. exfalso. apply (Hnew r' p0); [done|lia|]. destruct Hd. congruence.
    + rewrite (walk_wr m R F r t i e p0); try done; [lia|lia|]. intros (s' & Hs & _).
      apply (f_equal length) in Hs. rewrite length_app in Hs. cbn in Hs. lia.
  - rewrite walk_app, Hw. cbn. by rewrite Habs.
Qed.

Lemma link_cases r' q :
  (∃ s, q = p0 ++ i :: s ∧ walk m r' p0 = Some t) ∨ ¬ (∃ s, q = p0 ++ i :: s ∧ walk m r' p0 = Some t).
Proof.
  destruct (decide (walk m r' p0 = Some t)); [|right; by intros (? & _ & ?)].
  destruct (decide ((p0 ++ [i]) `prefix_of` q)) as [[s ->]|Hn].
  - left. exists s. by rewrite <- (assoc_L (++)).
  - right. intros (s & -> & _). apply Hn. exists s. by rewrite <- (assoc_L (++)).
Qed.

Lemma link_inv r' q u :
  r' ∈ R → (length q ≤ 3)%nat → walk (wr t i e m) r' q = Some u →
  (walk m r' p0 = Some t ∧ q = p0 ++ [i] ∧ u = g) ∨ walk m r' q = Some u.
Proof.
  intros Hr' Hq Hu. destruct (link_cases r' q) as [(s & -> & Hw)|Hno].
  - left. split; [done|]. rewrite (proj1 (link_through r' s Hr' Hq Hw)) in Hu. destruct s; by simplify_eq.
  - right. rewrite <- Hu. symmetry. apply (walk_wr m R F r t i e p0); try done. lia.
Qed.

Lemma link_grow r' q u :
  r' ∈ R → (length q ≤ 3)%nat → walk m r' q = Some u → walk (wr t i e m) r' q = Some u.
Proof.
  intros Hr' Hq Hu. destruct (link_cases r' q) as [(s & -> & Hw)|Hno].
  - by rewrite (proj2 (link_through r' s Hr' Hq Hw)) in Hu.
  - rewrite <- Hu. apply (walk_wr m R F r t i e p0); try done. lia.
Qed.

Lemma link_pt_inv : pt_inv (wr t i e m) R F.
Proof.
  split; [apply Hi|..].
  - intros r1 r2 p1 p2 u Hr1 Hr2 H1 H2 Hu1 Hu2.
    destruct (link_inv _ _ _ Hr1 H1 Hu1) as [(Hw1 & -> & ->)|Hm1],
      (link_inv _ _ _ Hr2 H2 Hu2) as [(Hw2 & -> & Hu)|Hm2].
    + split; [done|]. destruct (pi_share _ _ _ Hi r1 r2 p0 p0 t) as [_ [->|Hk]]; try done; [lia|lia|by left|right].
      by destruct p0.
    + by apply Hnew in Hm2.
    + subst u. by apply Hnew in Hm1.
    + by apply (pi_share _ _ _ Hi r1 r2 p1 p2 u).
  - intros r' p u f Hr' Hp Hu Hf.
    destruct (link_inv _ _ _ Hr' Hp Hu) as [(_ & _ & ->)|Hm]; [by apply Hfree|by apply (pi_used _ _ _ Hi r' p)].
Qed.

Lemma link_mapping r' v : r' ∈ R → mapping (wr t i e m) r' v = mapping m r' v.
Proof.
  intros Hr'. unfold mapping. destruct (walk m r' (table_path v)) as [u|] eqn:Hu.
  - rewrite (link_grow _ _ _ Hr' (path_length v) Hu). cbn. rewrite rd_wr. case_decide as Hd; [|done].
    destruct Hd as [-> _]. destruct (pi_share _ _ _ Hi r r' p0 (table_path v) t) as [-> _]; try done; [lia|]. cbn in Hp0. lia.
  - destruct (walk (wr t i e m) r' (table_path v)) as [u|] eqn:Hu'; [|done].
    destruct (link_inv r' (table_path v) u Hr' (path_length v) Hu') as [(_ & _ & ->)|Hm]; [|congruence].
    cbn. rewrite rd_wr, Hz. case_decide as Hd; [|done]. exfalso. apply (Hnew r p0); [done|lia|]. destruct Hd. congruence.
Qed.
End Link.

(** Memory [m'] has the tables of [m] and at most [n] new ones, made of free
    frames, and the same mappings. *)
Record extends (n : nat) m m' (R F F' : gset Z) : Prop := {
  ex_inv : pt_inv m' R F';
  ex_sub : F' ⊆ F;
  ex_grow : ∀ r q u, r ∈ R → (length q ≤ 3)%nat → walk m r q = Some u → walk m' r q = Some u;
  ex_new : ∀ r q u, r ∈ R → (length q ≤ 3)%nat → walk m' r q = Some u →
    walk m r q = Some u ∨ ∃ f, f ∈ F ∧ f ∉ F' ∧ u = f * 4096;
  ex_map : ∀ r v, r ∈ R → mapping m' r v = mapping m r v;
  ex_data : keeps_data m m' R F;
  ex_avail : (fa_avail (frames m) ≤ n + fa_avail (frames m'))%nat;
}.

Lemma extends_refl m R F : pt_inv m R F → extends 0 m m R F F.
Proof. intros Hi. split; try done. by left. Qed.

Lemma extends_trans n1 n2 m1 m2 m3 R F1 F2 F3 :
  extends n1 m1 m2 R F1 F2 → extends n2 m2 m3 R F2 F3 → extends (n1 + n2) m1 m3 R F1 F3.
Proof.
  intros H1 H2. pose proof (ex_sub _ _ _ _ _ _ H1) as Hs1. pose proof (ex_sub _ _ _ _ _ _ H2) as Hs2. split.
  - apply H2.
  - set_solver.
  - intros r q u Hr Hq Hu. by apply H2, H1.
  - intros r q u Hr Hq Hu. apply (ex_new _ _ _ _ _ _ H2) in Hu as [Hu|(f & ? & ? & ->)]; [|right; set_solver|done..].
    apply (ex_new _ _ _ _ _ _ H1) in Hu as [Hu|(f & ? & ? & ->)]; [by left|right; set_solver|done..].
  - intros r v Hr. by rewrite (ex_map _ _ _ _ _ _ H2), (ex_map _ _ _ _ _ _ H1).
  - intros g Hf Hw. rewrite (ex_data _ _ _ _ _ _ H2); [by apply H1|intros f ?; apply Hf; set_solver|].
    intros r p Hr Hp Hg. apply (ex_new _ _ _ _ _ _ H1) in Hg as [Hg|(f & Hff & _ & ->)]; [by apply Hw in Hg|by apply (Hf f)|done..].
  - pose proof (ex_avail _ _ _ _ _ _ H1). pose proof (ex_avail _ _ _ _ _ _ H2). lia.
Qed.

Lemma ensure_table_spec m R F r p0 t i fl :
  pt_inv m R F → r ∈ R → (length p0 ≤ 2)%nat → walk m r p0 = Some t → flags_ok fl →
  (ensure_table t i fl m = None ∧ fa_avail (frames m) = 0%nat) ∨
  ∃ m' t' F', ensure_table t i fl m = Some (m', t') ∧ extends 1 m m' R F F' ∧ walk m' r (p0 ++ [i]) = Some t'.
Proof.
  intros Hi Hr Hp Ht Hfl. unfold ensure_table. cbn zeta. destruct (is_present (rd m t i)) eqn:Hpres.
  { right. exists m, (entry_frame (rd m t i)), F. split; [done|]. split.
    - pose proof (extends_refl _ _ _ Hi) as []. split; try done. lia.
    - rewrite walk_app, Ht. cbn. by rewrite Hpres. }
  unfold frame_alloc. destruct (fa_alloc_spec _ _ (pi_rep _ _ _ Hi)) as (a & [p|] & -> & Ha); cbn [mbind option_bind].
  2: { left. by destruct Ha. }
  right. destruct Ha as (f & -> & Hf & Ha & Hav).
  pose proof (fa_frame _ _ _ (pi_rep _ _ _ Hi) Hf) as Hrange.
  destruct (pt_inv_alloc m R F a f Hi Hf Ha) as (Hi0 & Hw0 & Hrd0). cbn zeta in *.
  set (m0 := zero_frame (f * 4096) (mkMem a (ram m))) in *.
  set (e := make_entry _ _). assert (flags_ok (Z.lor (Z.lor fl PRESENT) WRITABLE)) as Hfo by (by repeat apply flags_ok_lor).
  assert (entry_frame e = f * 4096) as Hef by (unfold e; rewrite make_entry_frame by done; apply frame_masked; lia).
  assert (is_present e = true) as Hep by (by apply table_entry_present).
  assert (∀ r p, r ∈ R → (length p ≤ 3)%nat → walk m0 r p ≠ Some (f * 4096)) as Hnew.
  { intros r' p Hr' Hp'. rewrite Hw0 by done. intros Hu. by apply (pi_used _ _ _ Hi r' p _ f) in Hu. }
  assert (∀ g, g ∈ F ∖ {[f]} → f * 4096 ≠ g * 4096) as Hfr.
  { intros g Hg Heq. assert (g = f) as -> by lia. set_solver. }
  assert (∀ j, rd m0 (f * 4096) j = 0) as Hz0 by (intros j; unfold m0; rewrite rd_zero; by case_decide).
  assert (walk m0 r p0 = Some t) as Ht0 by (rewrite Hw0 by (done || lia); done).
  assert (is_present (rd m0 t i) = false) as Habs by (rewrite (Hrd0 r p0) by (done || lia); done).
  eexists _, _, (F ∖ {[f]}). split; [done|]. rewrite Hef. split; [split|].
  - by apply (link_pt_inv m0 R (F ∖ {[f]}) r t i (f * 4096) e p0).
  - set_solver.
  - intros r' q u Hr' Hq Hu. apply (link_grow m0 R (F ∖ {[f]}) r t i (f * 4096) e p0); try done. by rewrite Hw0.
  - intros r' q u Hr' Hq Hu.
    apply (link_inv m0 R (F ∖ {[f]}) r t i (f * 4096) e p0) in Hu as [(_ & _ & ->)|Hu]; try done.
    + right. exists f. set_solver.
    + left. by rewrite <- Hw0.
  - intros r' v Hr'. rewrite (link_mapping m0 R (F ∖ {[f]}) r t i (f * 4096) e p0) by done.
    unfold mapping. rewrite Hw0 by (done || apply path_length).
    destruct (walk m r' (table_path v)) as [u|] eqn:Hu; [|done]. cbn. rewrite (Hrd0 r' (table_path v)); done || apply path_length.
  - intros g Hg Hnt. cbn [wr ram m0 zero_frame].
    rewrite lookup_insert_ne by (intros <-; by apply (Hnt r p0); [|lia|]). rewrite lookup_delete_ne; [done|].
    intros <-. by apply (Hg f).
  - cbn. lia.
  - apply (proj1 (link_through m0 R (F ∖ {[f]}) r t i (f * 4096) e p0 Hi0 Hr Hp Ht0 Habs Hnew Hz0 Hep Hef r [] Hr
      ltac:(rewrite length_app; cbn; lia) Ht0)).
Qed.

(** Writing an entry of the last level. *)
Lemma set_leaf m R F r v t w :
  pt_inv m R F → r ∈ R → walk m r (table_path v) = Some t →
  let m' := wr t (pt_idx v) w m in
  pt_inv m' R F ∧
  (∀ r' q, r' ∈ R → (length q ≤ 3)%nat → walk m' r' q = walk m r' q) ∧
  (∀ r' v', r' ∈ R → mapping m' r' v' =
    if decide (vpn v' = vpn v ∧ walk m r' (table_path v) = Some t)
    then (if is_present w then Some (entry_frame w, entry_flags w) else None) else mapping m r' v').
Proof.
  intros Hi Hr Ht m'.
  assert (∀ r' q, r' ∈ R → (length q ≤ 3)%nat → walk m' r' q = walk m r' q) as Hw.
  { intros r' q Hr' Hq. apply (walk_wr m R F r t (pt_idx v) w (table_path v)); try done.
    intros (s & -> & _). cbn in Hq. lia. }
  split_and!; [|done|].
  - split; [apply Hi|..].
    + intros r1 r2 p1 p2 u Hr1 Hr2 H1 H2. rewrite !Hw by done. by apply Hi.
    + intros r' p u f Hr' Hp. rewrite Hw by done. by apply Hi.
  - intros r' v' Hr'. unfold mapping. rewrite Hw by (done || apply path_length).
    destruct (walk m r' (table_path v')) as [u|] eqn:Hu; cbn [mbind option_bind].
    + unfold m'. rewrite rd_wr. case_decide as Hd.
      * destruct Hd as [-> Hidx]. destruct (pi_share _ _ _ Hi r r' (table_path v) (table_path v') t) as [Hp _]; try done.
        rewrite decide_True; [done|]. rewrite vpn_eq. by rewrite Hp.
      * rewrite decide_False; [done|]. rewrite vpn_eq. intros [[Hp Hidx] Hwt]. apply Hd. split; congruence.
    + rewrite decide_False; [done|]. rewrite vpn_eq. intros [[Hp _] Hwt]. congruence.
Qed.

(** The three steps of [map_page] before its write. *)
Lemma ensure_path_spec m R F r v fl :
  pt_inv m R F → r ∈ R → flags_ok fl →
  let k := '(m, pdpt) ← ensure_table r (pml4_idx v) fl m;
           '(m, pd) ← ensure_table pdpt (pdpt_idx v) fl m; ensure_table pd (pd_idx v) fl m in
  (k = None ∧ (fa_avail (frames m) < 3)%nat) ∨
  ∃ m' t F', k = Some (m', t) ∧ extends 3 m m' R F F' ∧ walk m' r (table_path v) = Some t.
Proof.
  intros Hi Hr Hfl k. unfold k.
  destruct (ensure_table_spec m R F r [] r (pml4_idx v) fl) as [[-> Ha]|(m1 & t1 & F1 & -> & He1 & Hw1)];
    [done..|cbn; lia|done|done|left; split; [done|lia]|]. cbn [mbind option_bind].
  pose proof (ex_avail _ _ _ _ _ _ He1).
  destruct (ensure_table_spec m1 R F1 r [pml4_idx v] t1 (pdpt_idx v) fl) as [[-> Ha]|(m2 & t2 & F2 & -> & He2 & Hw2)];
    [apply He1|done|cbn; lia|done|done|left; split; [done|lia]|]. cbn [mbind option_bind].
  pose proof (ex_avail _ _ _ _ _ _ He2).
  destruct (ensure_table_spec m2 R F2 r [pml4_idx v; pdpt_idx v] t2 (pd_idx v) fl) as [[-> Ha]|(m3 & t3 & F3 & -> & He3 & Hw3)];
    [apply He2|done|cbn; lia|done|done|left; split; [done|lia]|].
  right. exists m3, t3, F3. split; [done|]. split; [|done].
  apply (extends_trans 1 2 _ m1 _ _ _ F1); [done|]. by apply (extends_trans 1 1 _ m2 _ _ _ F2).
Qed.

(** What [map_page] does, for its callers. *)
Record mapped m m' (R F F' : gset Z) (r v frame fl : Z) : Prop := {
  mp_inv : pt_inv m' R F';
  mp_sub : F' ⊆ F;
  mp_own : ∀ v', mapping m' r v' = if decide (vpn v' = vpn v) then Some (frame, fl) else mapping m r v';
  mp_other : ∀ r' v', r' ∈ R → r' ≠ r → pml4_idx v < 256 ∨ vpn v' ≠ vpn v → mapping m' r' v' = mapping m r' v';
  mp_new : ∀ r q u, r ∈ R → (length q ≤ 3)%nat → walk m' r q = Some u →
    walk m r q = Some u ∨ ∃ f, f ∈ F ∧ f ∉ F' ∧ u = f * 4096;
  mp_grow : ∀ r q u, r ∈ R → (length q ≤ 3)%nat → walk m r q = Some u → walk m' r q = Some u;
  mp_data : keeps_data m m' R F;
  mp_avail : (fa_avail (frames m) ≤ 3 + fa_avail (frames m'))%nat;
}.

Lemma map_page_mapped m R F r v phys fl :
  pt_inv m R F → r ∈ R → flags_ok fl →
  (map_page r v phys fl m = None ∧ (fa_avail (frames m) < 3)%nat) ∨
  ∃ m' F', map_page r v phys fl m = Some m' ∧
    mapped m m' R F F' r v (Z.land phys FRAME_MASK) (Z.lor fl PRESENT).
Proof.
  intros Hi Hr Hfl. unfold map_page.
  destruct (ensure_path_spec m R F r v fl Hi Hr Hfl) as [[Hn Ha]|(m1 & t & F1 & Hs & Hex & Hw)].
  { left. split; [|done]. destruct (ensure_table r _ _ _) as [[m1 t1]|]; [|done]. cbn [mbind option_bind] in *.
    destruct (ensure_table t1 _ _ _) as [[m2 t2]|]; [|done]. cbn [mbind option_bind] in *. by rewrite Hn. }
  right. set (e := make_entry phys (Z.lor fl PRESENT)).
  destruct (set_leaf m1 R F1 r v t e (ex_inv _ _ _ _ _ _ Hex) Hr Hw) as (Hi' & Hwalk & Hmap).
  exists (wr t (pt_idx v) e m1), F1. split.
  { destruct (ensure_table r _ _ _) as [[m2 t2]|]; [|done]. cbn [mbind option_bind] in *.
    destruct (ensure_table t2 _ _ _) as [[m3 t3]|]; [|done]. cbn [mbind option_bind] in *. by rewrite Hs. }
  assert (flags_ok (Z.lor fl PRESENT)) as Hfo by (by apply flags_ok_lor).
  split; [done|apply Hex|..].
  - intros v'. rewrite Hmap, (ex_map _ _ _ _ _ _ Hex) by done. unfold e.
    rewrite make_entry_present, make_entry_frame, make_entry_flags by done. repeat case_decide; tauto.
  - intros r' v' Hr' Hne Hcase. rewrite Hmap, (ex_map _ _ _ _ _ _ Hex) by done. case_decide as Hd; [|done].
    destruct Hd as [Hv Hw']. exfalso. destruct Hcase as [Hu|]; [|done].
    destruct (pi_share _ _ _ (ex_inv _ _ _ _ _ _ Hex) r' r _ _ t Hr' Hr (path_length v) (path_length v) Hw' Hw)
      as [_ [->|Hk]]; [done|]. cbn in Hk. lia.
  - intros r' q u Hr' Hq. rewrite Hwalk by done. by apply Hex.
  - intros r' q u Hr' Hq. rewrite Hwalk by done. by apply Hex.
  - intros g Hg Hnt. cbn [wr ram]. rewrite lookup_insert_ne; [by apply (ex_data _ _ _ _ _ _ Hex)|].
    intros <-. apply (ex_new _ _ _ _ _ _ Hex) in Hw as [Hw|(f & Hf & _ & ->)];
      [by apply Hnt in Hw|by apply (Hg f)|done|done].
  - apply Hex.
Qed.

Lemma unmap_page_spec m R F r v :
  pt_inv m R F → r ∈ R →
  let m' := unmap_page r v m in
  pt_inv m' R F ∧ frames m' = frames m ∧
  (∀ v', mapping m' r v' = if decide (vpn v' = vpn v) then None else mapping m r v') ∧
  (∀ r' v', r' ∈ R → r' ≠ r → pml4_idx v < 256 ∨ vpn v' ≠ vpn v → mapping m' r' v' = mapping m r' v') ∧
  (∀ r' q, r' ∈ R → (length q ≤ 3)%nat → walk m' r' q = walk m r' q) ∧ keeps_data m m' R F.
Proof.
  intros Hi Hr m'. unfold m', unmap_page. rewrite get_entry_walk.
  destruct (walk m r (table_path v)) as [t|] eqn:Hw; cbn [fmap option_fmap option_map].
  - destruct (set_leaf m R F r v t 0 Hi Hr Hw) as (Hi' & Hwalk & Hmap). split_and!; [done|done|..|done|].
    + intros v'. rewrite Hmap by done. rewrite zero_not_present. repeat case_decide; tauto.
    + intros r' v' Hr' Hne Hcase. rewrite Hmap by done. case_decide as Hd; [|done].
      destruct Hd as [Hv Hw']. exfalso. destruct Hcase as [Hu|]; [|done].
      destruct (pi_share _ _ _ Hi r' r _ _ t Hr' Hr (path_length v) (path_length v) Hw' Hw) as [_ [->|Hk]]; [done|].
      cbn in Hk. lia.
    + intros g Hg Hnt. cbn [wr ram]. rewrite lookup_insert_ne; [done|]. intros <-. by apply Hnt in Hw.
  - split_and!; [done|done|..|done|done|done]. intros v'. case_decide as Hv; [|done].
    apply vpn_eq in Hv as [Hp _]. unfold mapping. by rewrite Hp, Hw.
Qed.

(** ** Execute permission

    The processor fetches instructions from a page only if the no-execute bit
    is clear in the entries of all four levels. *)
Fixpoint path_executable m (t : Z) (p : list Z) : bool :=
  match p with
  | [] => true
  | i :: p =>
      is_present (rd m t i) && negb (has (rd m t i) NO_EXECUTE) && path_executable m (entry_frame (rd m t i)) p
  end.
Definition executable m (r virt : Z) : bool := path_executable m r (table_path virt ++ [pt_idx virt]).

Lemma ensure_table_keeps m R F r p0 t i fl m' t' r' q u j :
  pt_inv m R F → r ∈ R → (length p0 ≤ 2)%nat → walk m r p0 = Some t →
  ensure_table t i fl m = Some (m', t') → r' ∈ R → (length q ≤ 3)%nat → walk m r' q = Some u →
  is_present (rd m u j) = true → rd m' u j = rd m u j.
Proof.
  intros Hi Hr Hp Ht Hen Hr' Hq Hu Hpres. unfold ensure_table in Hen. cbn zeta in Hen.
  destruct (is_present (rd m t i)) eqn:Hti; simplify_eq; [done|]. unfold frame_alloc in Hen.
  destruct (fa_alloc_spec _ _ (pi_rep _ _ _ Hi)) as (a & [p|] & Ha & Hspec); rewrite Ha in Hen;
    cbn [mbind option_bind] in Hen; [|done]. simplify_eq.
  destruct Hspec as (f & -> & Hf & _). rewrite rd_wr. case_decide as Hd; [destruct Hd; congruence|].
  rewrite rd_zero. case_decide; [|done]. by apply (pi_used _ _ _ Hi r' q u f) in Hu.
Qed.

Lemma map_page_keeps_root m R F r v phys fl m' j :
  pt_inv m R F → r ∈ R → flags_ok fl → map_page r v phys fl m = Some m' →
  is_present (rd m r j) = true → rd m' r j = rd m r j.
Proof.
  intros Hi Hr Hfl Hmap Hpres. unfold map_page in Hmap.
  destruct (ensure_table_spec m R F r [] r (pml4_idx v) fl Hi Hr) as [[E1 _]|(m1 & t1 & F1 & E1 & X1 & W1)];
    [cbn; lia|done|done|by rewrite E1 in Hmap|]. rewrite E1 in Hmap. cbn [mbind option_bind] in Hmap.
  assert (rd m1 r j = rd m r j) as R1
    by (apply (ensure_table_keeps m R F r [] r (pml4_idx v) fl m1 t1 r []); try done; cbn; lia).
  destruct (ensure_table_spec m1 R F1 r [pml4_idx v] t1 (pdpt_idx v) fl (ex_inv _ _ _ _ _ _ X1) Hr)
    as [[E2 _]|(m2 & t2 & F2 & E2 & X2 & W2)]; [cbn; lia|done|done|by rewrite E2 in Hmap|].
  rewrite E2 in Hmap. cbn [mbind option_bind] in Hmap.
  assert (rd m2 r j = rd m1 r j) as R2
    by (apply (ensure_table_keeps m1 R F1 r [pml4_idx v] t1 (pdpt_idx v) fl m2 t2 r []);
        try done; try apply X1; try congruence; cbn; lia).
  destruct (ensure_table_spec m2 R F2 r [pml4_idx v; pdpt_idx v] t2 (pd_idx v) fl (ex_inv _ _ _ _ _ _ X2) Hr)
    as [[E3 _]|(m3 & t3 & F3 & E3 & X3 & W3)]; [cbn; lia|done|done|by rewrite E3 in Hmap|].
  rewrite E3 in Hmap. cbn [mbind option_bind] in Hmap. apply (inj Some) in Hmap. subst m'.
  assert (rd m3 r j = rd m2 r j) as R3
    by (apply (ensure_table_keeps m2 R F2 r [pml4_idx v; pdpt_idx v] t2 (pd_idx v) fl m3 t3 r []);
        try done; try apply X2; try congruence; cbn; lia).
  rewrite rd_wr. case_decide as Hd; [|congruence]. destruct Hd as [<- _]. exfalso.
  destruct (pi_share _ _ _ (ex_inv _ _ _ _ _ _ X3) r r [] ([pml4_idx v; pdpt_idx v] ++ [pd_idx v]) r)
    as [Hp _]; try done; cbn; lia.
Qed.

(** The root entry that [map_page] creates. *)
Lemma root_entry_new m R F r v phys fl m' :
  pt_inv m R F → r ∈ R → flags_ok fl → is_present (rd m r (pml4_idx v)) = false →
  map_page r v phys fl m = Some m' →
  ∃ p, rd m' r (pml4_idx v) = make_entry p (Z.lor (Z.lor fl PRESENT) WRITABLE).
Proof.
  intros Hi Hr Hfl Habs Hmap.
  destruct (ensure_table_spec m R F r [] r (pml4_idx v) fl Hi Hr) as [[E1 _]|(m1 & t1 & F1 & E1 & X1 & W1)];
    [cbn; lia|done|done|unfold map_page in Hmap; by rewrite E1 in Hmap|].
  assert (∃ p, rd m1 r (pml4_idx v) = make_entry p (Z.lor (Z.lor fl PRESENT) WRITABLE)) as [p Hp].
  { unfold ensure_table in E1. cbn zeta in E1. rewrite Habs in E1.
    destruct (frame_alloc m) as [[m0 [p|]]|]; cbn [mbind option_bind] in E1; simplify_eq.
    exists p. by rewrite rd_wr, decide_True. }
  assert (is_present (rd m1 r (pml4_idx v)) = true) as Hpr by (rewrite Hp; by apply table_entry_present).
  exists p. rewrite <- Hp. apply (map_page_keeps_root m1 R F1 r v phys fl); [apply X1|done|done| |done].
  assert (ensure_table r (pml4_idx v) fl m1 = Some (m1, t1)) as E1'.
  { cbn [walk app] in W1. unfold ensure_table. cbn zeta. rewrite Hpr in *. by simplify_eq. }
  unfold map_page in *. rewrite E1 in Hmap. by rewrite E1'.
Qed.

Lemma executable_root m r v : has (rd m r (pml4_idx v)) NO_EXECUTE = true → executable m r v = false.
Proof. intros Hnx. unfold executable. cbn. by rewrite Hnx, andb_false_r. Qed.

(** C10. Page tables are a map from pages to frames: with three frames left,
    [map_page] of a user page succeeds; afterwards exactly the addresses of
    that page of that address space translate differently, to the frame and
    their own offset; no other address space changes, no data frame is
    touched, and the trees of tables stay disjoint; [unmap_page] removes the
    page and nothing else. *)
Theorem page_table_map m R F r v f fl :
  pt_inv m R F → r ∈ R → flags_ok fl → (3 ≤ fa_avail (frames m))%nat →
  0 ≤ f < 2 ^ 20 → pml4_idx v < 256 →
  ∃ m' F', map_page r v (f * 4096) fl m = Some m' ∧ pt_inv m' R F' ∧ F' ⊆ F ∧ keeps_data m m' R F ∧
    (∀ v', translate m' r v' =
      if decide (vpn v' = vpn v) then Some (Z.lor (f * 4096) (Z.land v' 0xFFF)) else translate m r v') ∧
    get_flags m' r v = Some (Z.lor fl PRESENT) ∧
    (∀ r' v', r' ∈ R → r' ≠ r → translate m' r' v' = translate m r' v') ∧
    (∀ v', translate (unmap_page r v m') r v' = if decide (vpn v' = vpn v) then None else translate m r v').
Proof.
  intros Hi Hr Hfl Hav Hf Hu.
  destruct (map_page_mapped m R F r v (f * 4096) fl Hi Hr Hfl) as [[_ Hno]|(m' & F' & Hm & Hmp)]; [lia|].
  rewrite frame_masked in Hmp by done. exists m', F'.
  destruct (unmap_page_spec m' R F' r v (mp_inv _ _ _ _ _ _ _ _ _ Hmp) Hr) as (_ & _ & Hun & _).
  split_and!; [done|apply Hmp|apply Hmp|apply Hmp|..].
  - intros v'. rewrite !translate_mapping, (mp_own _ _ _ _ _ _ _ _ _ Hmp). by case_decide.
  - by rewrite get_flags_mapping, (mp_own _ _ _ _ _ _ _ _ _ Hmp), decide_True.
  - intros r' v' Hr' Hne. rewrite !translate_mapping, (mp_other _ _ _ _ _ _ _ _ _ Hmp r' v') by (done || by left). done.
  - intros v'. rewrite !translate_mapping, Hun, (mp_own _ _ _ _ _ _ _ _ _ Hmp). by repeat case_decide.
Qed.

(** The flags of the first page mapped in a region become those of the
    tables above it: when the root entry was absent and that page is not
    executable, a page mapped executable later in the same 512 GB cannot be
    executed, since its path has the no-execute bit. *)
Theorem first_page_decides_nx m R F r v1 p1 fl1 m1 v2 p2 fl2 m2 :
  pt_inv m R F → r ∈ R → flags_ok fl1 → flags_ok fl2 →
  is_present (rd m r (pml4_idx v1)) = false → has fl1 NO_EXECUTE = true →
  map_page r v1 p1 fl1 m = Some m1 → pml4_idx v2 = pml4_idx v1 →
  map_page r v2 p2 fl2 m1 = Some m2 →
  mapping m2 r v2 = Some (Z.land p2 FRAME_MASK, Z.lor fl2 PRESENT) ∧ executable m2 r v2 = false.
Proof.
  intros Hi Hr Hf1 Hf2 Habs Hnx Hm1 Hidx Hm2.
  destruct (map_page_mapped m R F r v1 p1 fl1 Hi Hr Hf1) as [[? _]|(m1' & F1 & E1 & Hmp1)]; [congruence|].
  rewrite Hm1 in E1. apply (inj Some) in E1. subst m1'. pose proof (mp_inv _ _ _ _ _ _ _ _ _ Hmp1) as Hi1.
  destruct (map_page_mapped m1 R F1 r v2 p2 fl2 Hi1 Hr Hf2) as [[? _]|(m2' & F2 & E2 & Hmp2)]; [congruence|].
  rewrite Hm2 in E2. apply (inj Some) in E2. subst m2'.
  split; [by rewrite (mp_own _ _ _ _ _ _ _ _ _ Hmp2), decide_True|].
  destruct (root_entry_new m R F r v1 p1 fl1 m1 Hi Hr Hf1 Habs Hm1) as (f & He).
  assert (is_present (rd m1 r (pml4_idx v1)) = true) as Hp1 by (rewrite He; apply table_entry_present; done).
  apply executable_root. rewrite Hidx, (map_page_keeps_root m1 R F1 r v2 p2 fl2 m2) by done.
  rewrite He. unfold has, make_entry in *. rewrite !Z.land_lor_distr_l.
  apply negb_true_iff, Z.eqb_neq in Hnx. apply negb_true_iff, Z.eqb_neq.
  rewrite <- Z.land_assoc. change (Z.land FRAME_MASK NO_EXECUTE) with 0. rewrite Z.land_0_r, Z.lor_0_l.
  change (Z.land PRESENT NO_EXECUTE) with 0. change (Z.land WRITABLE NO_EXECUTE) with 0. by rewrite !Z.lor_0_r.
Qed.
End Mapper.

(** ** A small allocator, for concrete runs *)
Definition list_rep (a : list Z) (F : gset Z) : Prop :=
  NoDup a ∧ F = list_to_set a ∧ Forall (λ f, 0 < f < 2 ^ 20) a.

#[export] Program Instance list_frames : FrameAlloc (list Z) := {
  fa_alloc a := Some (match a with [] => ([], None) | f :: a => (a, Some (f * 4096)) end);
  fa_free p a := Some (p / 4096 :: a);
  fa_rep := list_rep;
  fa_avail := length;
}.
Next Obligation. intros a F f (_ & -> & Hall) Hf. apply elem_of_list_to_set in Hf. by eapply Forall_forall in Hall. Qed.
Next Obligation.
  intros [|f a] F (Hn & -> & Hall); eexists _, _; (split; [done|]); [done|]. cbn.
  exists f. apply NoDup_cons in Hn as [Hf Hn]. apply Forall_cons in Hall as [Hr Hall].
  split_and!; [done|set_solver| |cbn; lia]. split_and!; [done|set_solver|done].
Qed.
Next Obligation.
  intros a F f (Hn & -> & Hall) Hf Hno. rewrite Z.div_mul by lia. eexists. split; [done|].
  split_and!; [constructor; set_solver|set_solver|by constructor].
Qed.

(** One empty root at frame 16, eight free frames. *)
Definition demo_mem : Memory (list Z) := mkMem [17; 18; 19; 20; 21; 22; 23; 24] ∅.

Lemma demo_mem_inv : pt_inv demo_mem {[16 * 4096]} (list_to_set [17; 18; 19; 20; 21; 22; 23; 24]).
Proof.
  assert (∀ r p t, walk demo_mem r p = Some t → p = [] ∧ t = r) as Hw.
  { intros r [|i p] t; [by intros [= ->]|done]. }
  split.
  - split_and!; [|done|]; [apply (bool_decide_unpack _); vm_compute; done|repeat constructor; lia].
  - intros r1 r2 p1 p2 t Hr1 Hr2 _ _ [-> ->]%Hw [-> ->]%Hw. split; [done|by left].
  - intros r p t f Hr _ [-> ->]%Hw Hf. set_solver.
Qed.

Lemma page_table_map_witness :
  ∃ m' F', map_page (16 * 4096) 0x400000 (100 * 4096) 7 demo_mem = Some m' ∧
    pt_inv m' {[16 * 4096]} F' ∧ translate m' (16 * 4096) 0x400123 = Some 0x64123.
Proof.
  destruct (page_table_map demo_mem {[16 * 4096]} _ (16 * 4096) 0x400000 100 7 demo_mem_inv)
    as (m' & F' & Hm & Hi & _ & _ & Ht & _); [set_solver|done|cbn; lia|lia|done|].
  exists m', F'. split; [exact Hm|]. split; [exact Hi|]. by rewrite Ht.
Defined.

Lemma first_page_decides_nx_witness :
  ∃ m1 m2, map_page (16 * 4096) 0x400000000000 (100 * 4096) (Z.lor 7 NO_EXECUTE) demo_mem = Some m1 ∧
    map_page (16 * 4096) 0x400000200000 (101 * 4096) 5 m1 = Some m2 ∧
    executable m2 (16 * 4096) 0x400000200000 = false.
Proof.
  eexists _, _. split; [vm_compute; reflexivity|]. split; [vm_compute; reflexivity|].
  by eapply (first_page_decides_nx demo_mem {[16 * 4096]} _ (16 * 4096) 0x400000000000 (100 * 4096)
    (Z.lor 7 NO_EXECUTE) _ 0x400000200000 (101 * 4096) 5 _ demo_mem_inv); first [set_solver|vm_compute; reflexivity].
Defined.
