(* ===== verification/Vmm.v ===== *)
(** * Address spaces

    Models kernel/src/memory/vmm.rs: the copy-on-write counts, the regions of
    an address space and its operations (mmap, munmap, mprotect, mremap, brk,
    fork, write fault, release), on the page tables of Paging.v.  Addresses
    are 64-bit words; sums and products wrap as in the source.  The outer
    option of an operation is a panic (a page table that cannot be
    allocated, an index out of range in the allocator). *)
From stdpp Require Import strings.
From S2P Require Import Prelude Paging.

Definition PAGE : Z := 4096.
Definition COW_FRAMES : Z := 1048576.
Definition page_down (a : Z) : Z := Z.land a (wnot 64 (PAGE - 1)).
Definition page_up (a : Z) : Z := page_down (wsub 64 (wadd 64 a PAGE) 1).

Inductive RegionKind :=
| Anonymous | Stack | Heap | FileMap (dev ino offset : Z) | Shared | Device | Vdso.
#[export] Instance RegionKind_eq_dec : EqDecision RegionKind.
Proof. solve_decision. Defined.

(** The bits of [Prot]. *)
Definition PROT_READ : Z := 1.
Definition PROT_WRITE : Z := 2.
Definition PROT_EXEC : Z := 4.

Record VmaRegion := mkVma {
  start : Z;
  end_ : Z;
  prot : Z;
  kind : RegionKind;
  vflags : Z;
  name : string;
  cow : bool;
}.
Definition set_end (e : Z) (r : VmaRegion) : VmaRegion :=
  mkVma (start r) e (prot r) (kind r) (vflags r) (name r) (cow r).
Definition set_start (a : Z) (r : VmaRegion) : VmaRegion :=
  mkVma a (end_ r) (prot r) (kind r) (vflags r) (name r) (cow r).
Definition set_prot (p : Z) (r : VmaRegion) : VmaRegion :=
  mkVma (start r) (end_ r) p (kind r) (vflags r) (name r) (cow r).
Definition set_cow (r : VmaRegion) : VmaRegion :=
  mkVma (start r) (end_ r) (prot r) (kind r) (vflags r) (name r) true.

Definition contains (r : VmaRegion) (addr : Z) : bool := (start r <=? addr) && (addr <? end_ r).

Record AddressSpace := mkAs {
  pml4_phys : Z;
  regions : list VmaRegion;
  brk : Z;
  brk_start : Z;
  mmap_base : Z;
  stack_start : Z;
  stack_end : Z;
  is_shared : bool;
}.
Definition set_regions (rs : list VmaRegion) (a : AddressSpace) : AddressSpace :=
  mkAs (pml4_phys a) rs (brk a) (brk_start a) (mmap_base a) (stack_start a) (stack_end a) (is_shared a).
Definition set_brk_field (b : Z) (a : AddressSpace) : AddressSpace :=
  mkAs (pml4_phys a) (regions a) b (brk_start a) (mmap_base a) (stack_start a) (stack_end a) (is_shared a).
Definition set_mmap_base (b : Z) (a : AddressSpace) : AddressSpace :=
  mkAs (pml4_phys a) (regions a) (brk a) (brk_start a) b (stack_start a) (stack_end a) (is_shared a).

Definition MMAP_BASE : Z := 0x400000000000.
Definition BRK_START : Z := 0x100000000.
Definition STACK_TOP : Z := 0x7FFFFFFF0000.
Definition MAP_SHARED : Z := 0x01.
Definition MAP_PRIVATE : Z := 0x02.
Definition MAP_FIXED : Z := 0x10.
Definition MAP_ANONYMOUS : Z := 0x20.
Definition MREMAP_MAYMOVE : Z := 1.
Definition MREMAP_FIXED : Z := 2.

Definition prot_to_flags (p : Z) : Z :=
  let f := Z.lor PRESENT USER in
  let f := if has p PROT_WRITE then Z.lor f WRITABLE else f in
  if has p PROT_EXEC then f else Z.lor f NO_EXECUTE.

(** Memory, the counts by frame number, and the root of the running address
    space. *)
Record Vm (A : Type) := mkVm { vmem : Memory A; refcounts : gmap Z Z; cr3 : Z }.
Arguments mkVm {_} _ _ _.
Arguments vmem {_} _.
Arguments refcounts {_} _.
Arguments cr3 {_} _.

Section Vmm.
Context {A : Type} `{FA : FrameAlloc A}.
Implicit Types s : Vm A.

Definition set_mem (m : Memory A) s : Vm A := mkVm m (refcounts s) (cr3 s).

(** ** Copy-on-write counts *)
Definition rc s (phys : Z) : Z := default 0 (refcounts s !! (phys / PAGE)).
Definition set_rc (phys n : Z) s : Vm A := mkVm (vmem s) (<[phys / PAGE := n]> (refcounts s)) (cr3 s).

Definition cow_inc (phys : Z) s : Vm A :=
  if phys / PAGE <? COW_FRAMES then (if rc s phys <? 65535 then set_rc phys (rc s phys + 1) s else s) else s.
Definition cow_share (phys : Z) s : Vm A :=
  if phys / PAGE <? COW_FRAMES then
    set_rc phys (if rc s phys =? 0 then 2 else if rc s phys <? 65535 then rc s phys + 1 else rc s phys) s
  else s.
Definition cow_dec (phys : Z) s : Vm A * Z :=
  if phys / PAGE <? COW_FRAMES then
    let n := if 0 <? rc s phys then rc s phys - 1 else rc s phys in (set_rc phys n s, n)
  else (s, 0).
Definition cow_refcount (phys : Z) s : Z := if phys / PAGE <? COW_FRAMES then rc s phys else 0.

(** ** Pages *)
Definition vm_alloc s : option (Vm A * option Z) :=
  '(m, r) ← frame_alloc (vmem s); Some (set_mem m s, r).
Definition vm_free (f : Z) s : option (Vm A) := m ← frame_free f (vmem s); Some (set_mem m s).
Definition vm_map (pml4 virt phys flags : Z) s : option (Vm A) :=
  m ← map_page pml4 virt phys flags (vmem s); Some (set_mem m s).

(** [for i in 0..n], with [virt = base + i * PAGE_SIZE]. *)
Fixpoint for_pages {S} (n : nat) (virt : Z) (f : Z → S → option S) (x : S) : option S :=
  match n with
  | O => Some x
  | Datatypes.S n => x ← f virt x; for_pages n (wadd 64 virt PAGE) f x
  end.

(** Unmap a page and release its frame when nobody else has it. *)
Definition unmap_release (pml4 : Z) (v : Z) s : option (Vm A) :=
  match translate (vmem s) pml4 v with
  | None => Some s
  | Some p =>
      let s := set_mem (unmap_page pml4 v (vmem s)) s in
      let frame := page_down p in
      let '(s, n) := cow_dec frame s in
      if n =? 0 then vm_free frame s else Some s
  end.

(** [for i in 256..512 { dst.entries[i] = src.entries[i] }]. *)
Definition copy_kernel_half (c src : Z) (m : Memory A) : Memory A :=
  foldl (λ m i, wr c i (rd m src i) m) m (seqZ 256 256).

Definition new_user s : option (Vm A * option AddressSpace) :=
  '(s, r) ← vm_alloc s;
  match r with
  | None => Some (s, None)
  | Some pml4 =>
      let m := zero_frame pml4 (vmem s) in
      let m := copy_kernel_half pml4 (cr3 s) m in
      Some (set_mem m s, Some (mkAs pml4 [] BRK_START BRK_START MMAP_BASE 0 STACK_TOP false))
  end.

Definition as_shared (pml4 : Z) : AddressSpace := mkAs pml4 [] BRK_START BRK_START MMAP_BASE 0 STACK_TOP true.
Definition activate (a : AddressSpace) s : Vm A := mkVm (vmem s) (refcounts s) (pml4_phys a).

(** ** Fork *)
Definition can_cow (r : VmaRegion) : bool :=
  has (prot r) PROT_WRITE && negb (bool_decide (kind r = Device)) && (Z.land (vflags r) 1 =? 0).

(** One page of [copy_on_fork]. *)
Definition fork_page (parent child : Z) (r : VmaRegion) (virt : Z) s : option (Vm A) :=
  match translate (vmem s) parent virt with
  | None => Some s
  | Some sp =>
      let frame := page_down sp in
      if can_cow r then
        let ro_flags := Z.lor (prot_to_flags (Z.land (prot r) (wnot 32 PROT_WRITE))) COW in
        s ← vm_map parent virt frame ro_flags s;
        s ← vm_map child virt frame ro_flags s;
        Some (cow_share frame s)
      else
        s ← vm_map child virt frame (prot_to_flags (prot r)) s;
        Some (cow_share frame s)
  end.

Definition region_pages (r : VmaRegion) : nat := Z.to_nat (wsub 64 (end_ r) (start r) / PAGE).

Fixpoint fork_regions (parent child : Z) (rs : list VmaRegion) s : option (Vm A) :=
  match rs with
  | [] => Some s
  | r :: rs => s ← for_pages (region_pages r) (start r) (fork_page parent child r) s; fork_regions parent child rs s
  end.

Definition mark_cow (rs : list VmaRegion) : list VmaRegion := map (λ r, if can_cow r then set_cow r else r) rs.

(** State, parent and child; [None] inside when no frame is left. *)
Definition copy_on_fork (a : AddressSpace) s : option (Vm A * AddressSpace * option AddressSpace) :=
  '(s, r) ← new_user s;
  match r with
  | None => Some (s, a, None)
  | Some c =>
      let child := mkAs (pml4_phys c) (mark_cow (regions a)) (brk a) (brk_start a) (mmap_base a)
                     (stack_start a) (stack_end a) (is_shared c) in
      s ← fork_regions (pml4_phys a) (pml4_phys c) (regions a) s;
      Some (s, set_regions (mark_cow (regions a)) a, Some child)
  end.

(** ** Write fault *)
Definition find_in (rs : list VmaRegion) (addr : Z) : option VmaRegion := head (filter (λ r, contains r addr = true) rs).
Definition find_region (a : AddressSpace) (addr : Z) : option VmaRegion := find_in (regions a) addr.

Definition handle_cow_fault (a : AddressSpace) (fault_addr : Z) s : option (Vm A * bool) :=
  let virt_page := page_down fault_addr in
  match translate (vmem s) (pml4_phys a) virt_page with
  | None => Some (s, false)
  | Some p =>
      let phys := page_down p in
      let page_flags := default 0 (get_flags (vmem s) (pml4_phys a) virt_page) in
      let is_pte_cow := has page_flags COW in
      let is_region_cow := match find_region a fault_addr with Some r => cow r | None => false end in
      if negb is_pte_cow && negb is_region_cow then Some (s, false)
      else
        let '(s, n) := cow_dec phys s in
        '(s, new_frame) ←
          (if n =? 0 then Some (s, Some phys)
           else
             '(s, r) ← vm_alloc s;
             match r with
             | None => Some (s, None)
             | Some nf => Some (set_mem (copy_frame phys nf (vmem s)) s, Some nf)
             end);
        match new_frame with
        | None => Some (s, false)
        | Some nf =>
            let base_prot := match find_region a fault_addr with Some r => prot r | None => Z.lor PROT_READ PROT_WRITE end in
            let new_flags := prot_to_flags (Z.lor base_prot PROT_WRITE) in
            s ← vm_map (pml4_phys a) virt_page nf new_flags s;
            Some (s, true)
        end
  end.

(** ** Mapping and unmapping *)

(** Undo of [map_range]: the pages mapped so far go back to the allocator. *)
Definition unmap_free (pml4 : Z) (v : Z) s : option (Vm A) :=
  match translate (vmem s) pml4 v with
  | None => Some s
  | Some p => s ← vm_free (page_down p) s; Some (set_mem (unmap_page pml4 v (vmem s)) s)
  end.

(** The common loop of [map_range] and [mmap_full]: [k] pages to go, page
    [i] at [virt]; [fill] writes the content of page [i], [undo] releases a
    page when an allocation fails. *)
Fixpoint map_pages (pml4 base flags : Z) (fill : Z → Z → Memory A → Memory A)
    (undo : Z → Vm A → option (Vm A)) (k : nat) (i : nat) (virt : Z) s : option (Vm A * bool) :=
  match k with
  | O => Some (s, true)
  | S k =>
      '(s, r) ← vm_alloc s;
      match r with
      | None => s ← for_pages i base undo s; Some (s, false)
      | Some frame =>
          let s := set_mem (fill (Z.of_nat i) frame (zero_frame frame (vmem s))) s in
          s ← vm_map pml4 virt frame flags s;
          map_pages pml4 base flags fill undo k (S i) (wadd 64 virt PAGE) s
      end
  end.

Definition map_range (a : AddressSpace) (virt pages flags : Z) s : option (Vm A * bool) :=
  map_pages (pml4_phys a) virt flags (λ _ _ m, m) (unmap_free (pml4_phys a)) (Z.to_nat pages) 0 virt s.

Definition map_physical (a : AddressSpace) (virt phys flags : Z) s : option (Vm A) :=
  vm_map (pml4_phys a) virt phys flags s.

(** [copy_nonoverlapping(data, frame, bytes)] into a zeroed frame, word by
    word; a last word that is not full keeps its zeros. *)
Definition store_bytes (frame : Z) (data : list Z) (m : Memory A) : Memory A :=
  foldl (λ m k, wr frame k (le_value (take 8 (drop (Z.to_nat (8 * k)) data))) m) m
    (seqZ 0 (Z.of_nat ((length data + 7) / 8))).

(** The content of page [i] of a file mapping. *)
Definition fill_file (file_data : option (list Z)) (i frame : Z) (m : Memory A) : Memory A :=
  match file_data with
  | None => m
  | Some data =>
      let page_offset := i * PAGE in
      if page_offset <? Z.of_nat (length data) then
        store_bytes frame (take (Z.to_nat PAGE) (drop (Z.to_nat page_offset) data)) m
      else m
  end.

(** What [munmap] leaves of a region. *)
Definition cut_region (lo hi : Z) (r : VmaRegion) : list VmaRegion :=
  if (end_ r <=? lo) || (hi <=? start r) then [r]
  else
    (if start r <? lo then [set_end lo r] else []) ++ (if hi <? end_ r then [set_start hi r] else []).

Definition munmap (a : AddressSpace) (addr len : Z) s : option (Vm A * AddressSpace) :=
  if len =? 0 then Some (s, a)
  else
    let aligned_addr := page_down addr in
    let aligned_end := page_up (wadd 64 addr len) in
    let pages := wsub 64 aligned_end aligned_addr / PAGE in
    s ← for_pages (Z.to_nat pages) aligned_addr (unmap_release (pml4_phys a)) s;
    Some (s, set_regions (concat (map (cut_region aligned_addr aligned_end) (regions a))) a).

Definition overlaps (lo hi : Z) (r : VmaRegion) : bool := (start r <? hi) && (lo <? end_ r).

Definition pick_addr (a : AddressSpace) (hint : option Z) (size : Z) : AddressSpace * Z :=
  let base := (set_mmap_base (wadd 64 (mmap_base a) (wadd 64 size PAGE)) a, mmap_base a) in
  match hint with
  | None => base
  | Some h =>
      let aligned := page_down h in
      let e := wadd 64 aligned size in
      if (0 <? aligned) && (e <? STACK_TOP) && negb (existsb (overlaps aligned e) (regions a)) then (a, aligned)
      else base
  end.

(** State, address space and the address chosen. *)
Definition mmap_full (a : AddressSpace) (hint : option Z) (len prot map_flags : Z) (file_data : option (list Z)) s
    : option (Vm A * AddressSpace * option Z) :=
  let pages := wsub 64 (wadd 64 len PAGE) 1 / PAGE in
  let map_len := wmul 64 pages PAGE in
  let is_fixed := has map_flags MAP_FIXED in
  let is_shared := has map_flags MAP_SHARED in
  '(s, a, addr) ←
    (if is_fixed then
       match hint with
       | None => Some (s, a, None)
       | Some h =>
           let aligned := page_down h in
           if (aligned =? 0) || (STACK_TOP <? wadd 64 aligned map_len) then Some (s, a, None)
           else '(s, a) ← munmap a aligned map_len s; Some (s, a, Some aligned)
       end
     else let '(a, addr) := pick_addr a hint map_len in Some (s, a, Some addr));
  match addr with
  | None => Some (s, a, None)
  | Some addr =>
      '(s, ok) ← map_pages (pml4_phys a) addr (prot_to_flags prot) (fill_file file_data)
                   (unmap_release (pml4_phys a)) (Z.to_nat pages) 0 addr s;
      if negb ok then Some (s, a, None)
      else
        let kind := if bool_decide (is_Some file_data) && is_shared then Shared else Anonymous in
        Some (s, set_regions (regions a ++ [mkVma addr (wadd 64 addr map_len) prot kind map_flags "" false]) a, Some addr)
  end.

Definition mmap (a : AddressSpace) (hint : option Z) (len prot : Z) s :=
  mmap_full a hint len prot (Z.lor MAP_PRIVATE MAP_ANONYMOUS) None s.

(** [if let Some(r) = regions.iter_mut().find(p) { r.end = e }]: whether one
    was found, and the list. *)
Fixpoint update_first (p : VmaRegion → bool) (f : VmaRegion → VmaRegion) (rs : list VmaRegion) : bool * list VmaRegion :=
  match rs with
  | [] => (false, [])
  | r :: rs => if p r then (true, f r :: rs) else let '(b, rs) := update_first p f rs in (b, r :: rs)
  end.
Definition is_heap (r : VmaRegion) : bool := bool_decide (kind r = Heap).

Definition heap_flags : Z := Z.lor (Z.lor (Z.lor PRESENT WRITABLE) USER) NO_EXECUTE.

Definition set_brk (a : AddressSpace) (new_brk : Z) s : option (Vm A * AddressSpace * Z) :=
  if new_brk <? brk_start a then Some (s, a, brk a)
  else
    let old_brk := brk a in
    let old_end := page_up old_brk in
    let new_end := page_up new_brk in
    let brk_start_aligned := page_up (brk_start a) in
    if new_brk <? old_brk then
      '(s, a) ← (if new_end <? old_end then munmap a new_end (wsub 64 old_end new_end) s else Some (s, a));
      let rs := (update_first is_heap (set_end (Z.max new_end brk_start_aligned)) (regions a)).2 in
      Some (s, set_brk_field new_brk (set_regions rs a), new_brk)
    else if new_brk =? old_brk then Some (s, a, old_brk)
    else
      '(s, ok) ← (if old_end <? new_end then map_range a old_end (wsub 64 new_end old_end / PAGE) heap_flags s
                  else Some (s, true));
      if negb ok then Some (s, a, old_brk)
      else
        let '(found, rs) := update_first is_heap (set_end new_end) (regions a) in
        let rs := if found then rs
          else rs ++ [mkVma brk_start_aligned new_end (Z.lor PROT_READ PROT_WRITE) Heap MAP_PRIVATE "[heap]" false] in
        Some (s, set_brk_field new_brk (set_regions rs a), new_brk).

(** One page of [mprotect]. *)
Definition protect_page (pml4 flags v : Z) s : option (Vm A) :=
  match translate (vmem s) pml4 v with
  | None => Some s
  | Some p => vm_map pml4 v (page_down p) flags s
  end.

Definition mprotect (a : AddressSpace) (addr len prot : Z) s : option (Vm A * AddressSpace) :=
  let e := wadd 64 addr len in
  let flags := prot_to_flags prot in
  let pages := wsub 64 (wadd 64 len PAGE) 1 / PAGE in
  s ← for_pages (Z.to_nat pages) addr (protect_page (pml4_phys a) flags) s;
  Some (s, set_regions (map (λ r, if (addr <=? start r) && (end_ r <=? e) then set_prot prot r else r) (regions a)) a).

Fixpoint release_regions (pml4 : Z) (rs : list VmaRegion) s : option (Vm A) :=
  match rs with
  | [] => Some s
  | r :: rs => s ← for_pages (region_pages r) (start r) (unmap_release pml4) s; release_regions pml4 rs s
  end.

Definition release (a : AddressSpace) s : option (Vm A * AddressSpace) :=
  if is_shared a then Some (s, a)
  else
    s ← release_regions (pml4_phys a) (regions a) s;
    let a := set_regions [] a in
    if pml4_phys a =? 0 then Some (s, a)
    else
      s ← vm_free (pml4_phys a) s;
      Some (s, mkAs 0 [] (brk a) (brk_start a) (mmap_base a) (stack_start a) (stack_end a) (is_shared a)).

(** The copying loop of [mremap]: page [i] of [new_pages] is at [dst], its
    source at [src]; an allocation that fails leaves the loop. *)
Fixpoint move_pages (pml4 flags : Z) (old_pages : Z) (k : nat) (i src dst : Z) s : option (Vm A * bool) :=
  match k with
  | O => Some (s, true)
  | S k =>
      '(s, r) ← vm_alloc s;
      match r with
      | None => Some (s, false)
      | Some nf =>
          let m := zero_frame nf (vmem s) in
          let m := if i <? old_pages then
                     match translate m pml4 src with
                     | Some sp => copy_frame (page_down sp) nf m
                     | None => m
                     end
                   else m in
          s ← vm_map pml4 dst nf flags (set_mem m s);
          move_pages pml4 flags old_pages k (i + 1) (wadd 64 src PAGE) (wadd 64 dst PAGE) s
      end
  end.

(** The last part: move the mapping to a new place. *)
Definition mremap_move (a : AddressSpace) (old_aligned old_pages new_pages prot : Z) (kind : RegionKind)
    (map_flags flags new_addr : Z) s : option (Vm A * AddressSpace * option Z) :=
  let new_map_len := wmul 64 new_pages PAGE in
  '(s, a, dest) ←
    (if has flags MREMAP_FIXED && negb (new_addr =? 0) then
       let aligned := page_down new_addr in
       '(s, a) ← munmap a aligned new_map_len s; Some (s, a, aligned)
     else let '(a, dest) := pick_addr a None new_map_len in Some (s, a, dest));
  '(s, ok) ← move_pages (pml4_phys a) (prot_to_flags prot) old_pages (Z.to_nat new_pages) 0 old_aligned dest s;
  if negb ok then Some (s, a, None)
  else
    '(s, a) ← munmap a old_aligned (wmul 64 old_pages PAGE) s;
    Some (s, set_regions (regions a ++ [mkVma dest (wadd 64 dest new_map_len) prot kind map_flags "" false]) a, Some dest).

Definition mremap (a : AddressSpace) (old_addr old_len new_len flags new_addr : Z) s
    : option (Vm A * AddressSpace * option Z) :=
  let old_aligned := page_down old_addr in
  let old_pages := wsub 64 (wadd 64 old_len PAGE) 1 / PAGE in
  let new_pages := wsub 64 (wadd 64 new_len PAGE) 1 / PAGE in
  let old_map_len := wmul 64 old_pages PAGE in
  let new_map_len := wmul 64 new_pages PAGE in
  let old_end := wadd 64 old_aligned old_map_len in
  if (old_aligned =? 0) || (STACK_TOP <? old_end) then Some (s, a, None)
  else
    let region := match filter (λ r : VmaRegion, (start r <=? old_aligned) && (old_end <=? end_ r) = true) (regions a) with
                  | [] => None | r :: _ => Some r end in
    let prot := match region with Some r => prot r | None => Z.lor PROT_READ PROT_WRITE end in
    let kind := match region with Some r => kind r | None => Anonymous end in
    let map_flags := match region with Some r => vflags r | None => MAP_PRIVATE end in
    if new_len =? 0 then '(s, a) ← munmap a old_aligned old_map_len s; Some (s, a, Some old_aligned)
    else if new_pages <=? old_pages then
      '(s, a) ← (if new_pages <? old_pages
                 then munmap a (wadd 64 old_aligned new_map_len) (wsub 64 old_map_len new_map_len) s
                 else Some (s, a));
      let rs := (update_first (λ r : VmaRegion, start r =? old_aligned) (set_end (wadd 64 old_aligned new_map_len)) (regions a)).2 in
      Some (s, set_regions rs a, Some old_aligned)
    else
      let ext_start := old_end in
      let ext_pages := new_pages - old_pages in
      let ext_len := wmul 64 ext_pages PAGE in
      let space_free := negb (existsb (overlaps ext_start (wadd 64 ext_start ext_len)) (regions a)) in
      '(s, grown) ← (if space_free then map_range a ext_start ext_pages (prot_to_flags prot) s else Some (s, false));
      if (grown : bool) then
        let '(extended, rs) := update_first (λ r : VmaRegion, (start r =? old_aligned) && (end_ r =? old_end))
                                 (set_end (wadd 64 old_aligned new_map_len)) (regions a) in
        let rs := if extended then rs
                  else rs ++ [mkVma old_aligned (wadd 64 old_aligned new_map_len) prot kind map_flags "" false] in
        Some (s, set_regions rs a, Some old_aligned)
      else if negb (has flags MREMAP_MAYMOVE) then Some (s, a, None)
      else mremap_move a old_aligned old_pages new_pages prot kind map_flags flags new_addr s.

(** ** System calls, on the address space of the current process *)
Definition sys_munmap (a : AddressSpace) (addr len : Z) s : option (Vm A * AddressSpace * Z) :=
  '(s, a) ← munmap a addr len s; Some (s, a, 0).
(** [Prot::from_bits_truncate(prot as u32)]. *)
Definition prot_of (prot : Z) : Z := Z.land prot 7.
Definition sys_mprotect (a : AddressSpace) (addr len prot : Z) s : option (Vm A * AddressSpace * Z) :=
  '(s, a) ← mprotect a addr len (prot_of prot) s; Some (s, a, 0).
Definition sys_brk (a : AddressSpace) (new_brk : Z) s : option (Vm A * AddressSpace * Z) :=
  if new_brk =? 0 then Some (s, a, to_signed 64 (brk a))
  else '(s, a, r) ← set_brk a new_brk s; Some (s, a, to_signed 64 r).
Definition VM_EINVAL : Z := -22.
Definition VM_ENOMEM : Z := -12.
Definition sys_mremap (a : AddressSpace) (old_addr old_len new_len flags new_addr : Z) s
    : option (Vm A * AddressSpace * Z) :=
  if (old_len =? 0) && negb (has flags MREMAP_MAYMOVE) then Some (s, a, VM_EINVAL)
  else if new_len =? 0 then Some (s, a, VM_EINVAL)
  else if negb (Z.land old_addr 0xFFF =? 0) || (0x800000000000 <=? old_addr) then Some (s, a, VM_EINVAL)
  else
    '(s, a, r) ← mremap a old_addr old_len new_len flags new_addr s;
    Some (s, a, match r with Some addr => to_signed 64 addr | None => VM_ENOMEM end).
(** Entry 25 of the system call table, with the first argument of the call. *)
Definition mremap_entry (a : AddressSpace) (arg : Z) s : option (Vm A * AddressSpace * Z) :=
  sys_mremap a arg 0 0 0 0 s.

(** ** What the pages of all address spaces are *)
Definition user (v : Z) : Prop := 0 ≤ v < 2 ^ 47.

Lemma user_vpn v : user v → vpn v = v / 4096 ∧ pml4_idx v < 256.
Proof.
  intros [H0 H1]. split.
  - unfold vpn. apply Z.mod_small. split; [apply Z.div_pos; lia|]. apply Z.div_lt_upper_bound; lia.
  - unfold pml4_idx. rewrite idx_div by lia. rewrite Z.mod_small.
    + apply Z.div_lt_upper_bound; lia.
    + split; [apply Z.div_pos; lia|]. apply Z.div_lt_upper_bound; lia.
Qed.

Lemma page_down_mask a : page_down a = Z.land a (2 ^ 64 - 4096).
Proof. done. Qed.

Lemma page_down_mul a : is_u64 a → page_down a = a / 4096 * 4096.
Proof.
  intros Ha. rewrite page_down_mask. change (2 ^ 64 - 4096) with (Z.shiftl (Z.ones 52) 12).
  apply Z.bits_inj'. intros i Hi. rewrite Z.land_spec. change 4096 with (2 ^ 12).
  rewrite <- Z.shiftr_div_pow2, <- Z.shiftl_mul_pow2 by lia.
  destruct (Z.lt_ge_cases i 12).
  - rewrite !Z.shiftl_spec_low by lia. apply andb_false_r.
  - rewrite !Z.shiftl_spec, Z.shiftr_spec by lia. replace (i - 12 + 12) with i by lia.
    destruct (Z.lt_ge_cases i 64).
    + rewrite Z.ones_spec_low by lia. apply andb_true_r.
    + rewrite (testbit_above 64 a) by done. done.
Qed.

Lemma translate_frame m r v :
  match mapping m r v with
  | None => translate (A := A) m r v = None
  | Some (p, _) => ∃ q, translate m r v = Some q ∧ page_down q = p
  end.
Proof.
  rewrite translate_mapping. unfold mapping. destruct (walk m r (table_path v)) as [t|]; [|done].
  cbn [mbind option_bind]. case_match; [|done]. case_match; simplify_eq. eexists. split; [done|].
  rewrite page_down_mask. cbn [fst]. unfold entry_frame. rewrite Z.land_lor_distr_l, <- !Z.land_assoc.
  change (Z.land 0xFFF (2 ^ 64 - 4096)) with 0. change (Z.land FRAME_MASK (2 ^ 64 - 4096)) with FRAME_MASK.
  by rewrite Z.land_0_r, Z.lor_0_r.
Qed.

(** [E] has the user pages of the address spaces with roots [R]: frame and
    flags by root and page number; [F] has the free frames.  The frames of
    pages are neither free nor page tables. *)
Definition not_table (m : Memory A) (R : gset Z) (p : Z) : Prop :=
  ∀ r q, r ∈ R → (length q ≤ 3)%nat → walk m r q ≠ Some p.

Record mem_rep (m : Memory A) (R : gset Z) (E : gmap (Z * Z) (Z * Z)) (F : gset Z) : Prop := {
  mr_inv : pt_inv m R F;
  mr_map : ∀ r v, r ∈ R → user v → mapping m r v = E !! (r, v / 4096);
  mr_dom : ∀ r n x, E !! (r, n) = Some x → r ∈ R ∧ 0 ≤ n < 2 ^ 35;
  mr_frame : ∀ k p fl, E !! k = Some (p, fl) → ∃ f, p = f * 4096 ∧ 0 < f < 2 ^ 20 ∧ f ∉ F ∧ not_table m R p;
}.

Lemma translate_rep m R E F r v :
  mem_rep m R E F → r ∈ R → user v →
  match E !! (r, v / 4096) with
  | None => translate m r v = None
  | Some (p, _) => ∃ q, translate m r v = Some q ∧ page_down q = p
  end.
Proof. intros Hm Hr Hv. rewrite <- (mr_map _ _ _ _ Hm r v Hr Hv). apply translate_frame. Qed.

Lemma free_not_table m R E F f : mem_rep m R E F → f ∈ F → not_table m R (f * 4096).
Proof. intros Hm Hf r q Hr Hq Hw. by apply (pi_used _ _ _ (mr_inv _ _ _ _ Hm) r q _ f) in Hw. Qed.

(** Changes of the allocator or of memory that is not in tables. *)
Lemma mem_rep_ram m m' R E F F' :
  mem_rep m R E F → fa_rep (frames m') F' →
  (∀ r q u j, r ∈ R → (length q ≤ 3)%nat → walk m r q = Some u → rd m' u j = rd m u j) →
  (∀ f, f ∈ F' → f ∉ F → not_table m R (f * 4096) ∧ ∀ k fl, E !! k ≠ Some (f * 4096, fl)) →
  mem_rep m' R E F'.
Proof.
  intros Hm Hrep Hrd Hnew.
  assert (∀ r q, r ∈ R → (length q ≤ 3)%nat → walk m' r q = walk m r q) as Hw.
  { intros r q Hr Hq. apply (walk_ext _ _ R); [|done]. intros p t j Hp Ht. apply (Hrd r p); [done|lia|done]. }
  split.
  - destruct (mr_inv _ _ _ _ Hm) as [_ Hsh Hus]. split; [done|..].
    + intros r1 r2 p1 p2 t H1 H2 H3 H4. rewrite !Hw by done. by apply Hsh.
    + intros r p t f Hr Hp. rewrite Hw by done. intros Ht Hf ->. destruct (decide (f ∈ F)) as [Hin|Hout].
      * by apply (Hus r p _ f) in Ht.
      * by apply (proj1 (Hnew f Hf Hout) r p) in Ht.
  - intros r v Hr Hv. rewrite <- (mr_map _ _ _ _ Hm r v Hr Hv). unfold mapping. rewrite Hw by done.
    destruct (walk m r (table_path v)) as [t|] eqn:Ht; [|done]. cbn. by rewrite (Hrd r (table_path v) t).
  - apply Hm.
  - intros k p fl Hk. destruct (mr_frame _ _ _ _ Hm k p fl Hk) as (f & -> & Hf & HfF & Hnt).
    exists f. split_and!; [done|lia|lia| |].
    + intros Hin. by apply (proj2 (Hnew f Hin HfF) k fl).
    + intros r q Hr Hq. rewrite Hw by done. by apply Hnt.
Qed.

Lemma mem_rep_alloc m R E F :
  mem_rep m R E F →
  ∃ m' r, frame_alloc m = Some (m', r) ∧ ram m' = ram m ∧
    match r with
    | Some p => ∃ f, p = f * 4096 ∧ f ∈ F ∧ 0 < f < 2 ^ 20 ∧ mem_rep m' R E (F ∖ {[f]}) ∧
        not_table m' R p ∧ (∀ k fl, E !! k ≠ Some (p, fl)) ∧
        (fa_avail (frames m) ≤ S (fa_avail (frames m')))%nat
    | None => mem_rep m' R E F ∧ fa_avail (frames m) = 0%nat
    end.
Proof.
  intros Hm. unfold frame_alloc. destruct (fa_alloc_spec _ _ (pi_rep _ _ _ (mr_inv _ _ _ _ Hm))) as (a & r & -> & Hr).
  eexists _, _. split; [done|]. split; [done|]. destruct r as [p|].
  - destruct Hr as (f & -> & Hf & Ha & Hav). exists f. pose proof (fa_frame _ _ _ (pi_rep _ _ _ (mr_inv _ _ _ _ Hm)) Hf).
    split_and!; try done; try lia.
    + apply (mem_rep_ram m _ R E F); [done|done|done|set_solver].
    + intros r q Hr Hq Hw. apply (free_not_table m R E F f Hm Hf r q Hr Hq). rewrite <- Hw. symmetry.
      by apply (walk_ext _ _ R).
    + intros k fl Hk. destruct (mr_frame _ _ _ _ Hm k _ fl Hk) as (g & Heq & _ & Hg & _).
      assert (f = g) by lia. by subst.
  - destruct Hr as [Ha Hav]. split; [|done]. apply (mem_rep_ram m _ R E F); [done..|set_solver].
Qed.

Lemma mem_rep_free m R E F f :
  mem_rep m R E F → 0 < f < 2 ^ 20 → f ∉ F → not_table m R (f * 4096) → (∀ k fl, E !! k ≠ Some (f * 4096, fl)) →
  ∃ m', frame_free (f * 4096) m = Some m' ∧ ram m' = ram m ∧ mem_rep m' R E (F ∪ {[f]}).
Proof.
  intros Hm Hf HfF Hnt HE. unfold frame_free.
  destruct (fa_free_spec _ _ f (pi_rep _ _ _ (mr_inv _ _ _ _ Hm)) Hf HfF) as (a & -> & Ha).
  eexists. split; [done|]. split; [done|]. apply (mem_rep_ram m _ R E F); [done|done|done|].
  intros g Hg Hng. assert (g = f) as -> by set_solver. done.
Qed.

(** Writing to a frame that is not a table. *)
Lemma mem_rep_write m m' R E F p :
  mem_rep m R E F → frames m' = frames m → (∀ g, g ≠ p → ram m' !! g = ram m !! g) → not_table m R p →
  mem_rep m' R E F ∧ not_table m' R p.
Proof.
  intros Hm Hf Hram Hnt.
  assert (∀ r q u j, r ∈ R → (length q ≤ 3)%nat → walk m r q = Some u → rd m' u j = rd m u j) as Hrd.
  { intros r q u j Hr Hq Hw. unfold rd. rewrite Hram; [done|]. intros ->. by apply (Hnt r q). }
  split.
  - apply (mem_rep_ram m m' R E F F); [done|rewrite Hf; apply Hm|done|done].
  - intros r q Hr Hq Hw. apply (Hnt r q Hr Hq). rewrite <- Hw. symmetry. apply (walk_ext _ _ R); [|done].
    intros p' t j Hp' Ht. apply (Hrd r p'); [done|lia|done].
Qed.

Lemma user_page v v' : user v → user v' → vpn v' = vpn v ↔ v' / 4096 = v / 4096.
Proof. intros Hv Hv'. by rewrite (proj1 (user_vpn v Hv)), (proj1 (user_vpn v' Hv')). Qed.

Lemma user_page_number v : user v → 0 ≤ v / 4096 < 2 ^ 35.
Proof. intros [H0 H1]. split; [apply Z.div_pos; lia|]. apply Z.div_lt_upper_bound; lia. Qed.

(** Mapping one page. *)
Lemma mem_rep_mapped m m' R E F F' r v f fl :
  mem_rep m R E F → r ∈ R → user v → 0 < f < 2 ^ 20 → f ∉ F → not_table m R (f * 4096) →
  mapped m m' R F F' r v (f * 4096) fl →
  mem_rep m' R (<[(r, v / 4096) := (f * 4096, fl)]> E) F'.
Proof.
  intros Hm Hr Hv Hf HfF Hnt Hmp. pose proof (mp_sub _ _ _ _ _ _ _ _ _ Hmp) as Hsub.
  assert (∀ p g, p = g * 4096 → g ∉ F → not_table m R p → not_table m' R p) as Hkeep.
  { intros p g -> Hg Hn r' q Hr' Hq Hw. apply (mp_new _ _ _ _ _ _ _ _ _ Hmp) in Hw as [Hw|(h & Hh & _ & Heq)]; try done.
    - by apply (Hn r' q).
    - assert (g = h) by lia. by subst. }
  split.
  - apply Hmp.
  - intros r' v' Hr' Hv'. destruct (decide (r' = r)) as [->|Hne].
    + rewrite (mp_own _ _ _ _ _ _ _ _ _ Hmp). case_decide as Hd; rewrite user_page in Hd by done.
      * by rewrite Hd, lookup_insert_eq.
      * rewrite lookup_insert_ne by congruence. by apply Hm.
    + rewrite (mp_other _ _ _ _ _ _ _ _ _ Hmp) by (done || left; by apply user_vpn).
      rewrite lookup_insert_ne by congruence. by apply Hm.
  - intros r' n x. rewrite lookup_insert_Some. intros [[Heq _]|[_ Hx]]; [|by eapply mr_dom].
    simplify_eq. split; [done|by apply user_page_number].
  - intros k p fl'. rewrite lookup_insert_Some. intros [[<- Heq]|[_ Hk]].
    + simplify_eq. exists f. split_and!; [done|lia|lia|set_solver|by apply (Hkeep _ f)].
    + destruct (mr_frame _ _ _ _ Hm k p fl' Hk) as (g & -> & Hg & HgF & Hgn).
      exists g. split_and!; [done|lia|lia|set_solver|by apply (Hkeep _ g)].
Qed.

Lemma mem_rep_unmap m R E F r v :
  mem_rep m R E F → r ∈ R → user v →
  mem_rep (unmap_page r v m) R (delete (r, v / 4096) E) F ∧
  (∀ p, not_table m R p → not_table (unmap_page r v m) R p ∧ ∀ f, p = f * 4096 → f ∉ F → ram (unmap_page r v m) !! p = ram m !! p).
Proof.
  intros Hm Hr Hv.
  destruct (unmap_page_spec m R F r v (mr_inv _ _ _ _ Hm) Hr) as (Hi & Hf & Hown & Hoth & Hw & Hd).
  assert (∀ p, not_table m R p → not_table (unmap_page r v m) R p) as Hnt.
  { intros p Hn r' q Hr' Hq. rewrite Hw by done. by apply Hn. }
  split.
  - split; [done|..].
    + intros r' v' Hr' Hv'. destruct (decide (r' = r)) as [->|Hne].
      * rewrite Hown. case_decide as Hd'; rewrite user_page in Hd' by done.
        -- by rewrite Hd', lookup_delete_eq.
        -- rewrite lookup_delete_ne by congruence. by apply Hm.
      * rewrite Hoth by (done || left; by apply user_vpn). rewrite lookup_delete_ne by congruence. by apply Hm.
    + intros r' n x. rewrite lookup_delete_Some. intros [_ Hx]. by eapply mr_dom.
    + intros k p fl. rewrite lookup_delete_Some. intros [_ Hk].
      destruct (mr_frame _ _ _ _ Hm k p fl Hk) as (g & -> & Hg & HgF & Hgn). exists g. split_and!; try done; try lia. by apply Hnt.
  - intros p Hn. split; [by apply Hnt|]. intros f -> HfF. apply Hd; [|done]. intros g Hg Heq. assert (f = g) by lia. by subst.
Qed.

(** Mapping a page that is mapped already allocates nothing. *)
Lemma map_page_present (m : Memory A) r v p fl t :
  walk m r (table_path v) = Some t →
  map_page r v p fl m = Some (wr t (pt_idx v) (make_entry p (Z.lor fl PRESENT)) m).
Proof.
  unfold map_page, ensure_table. cbn [walk table_path]. cbn zeta. intros Hw.
  do 3 (match goal with Hw : (if is_present ?e then _ else _) = _ |- _ =>
    destruct (is_present e) eqn:?; [|done] end; cbn [mbind option_bind]).
  by simplify_eq.
Qed.

Lemma mapping_walk (m : Memory A) r v x : mapping m r v = Some x → ∃ t, walk m r (table_path v) = Some t.
Proof. unfold mapping. destruct (walk m r (table_path v)) as [t|]; [by exists t|done]. Qed.

(** ** Copy-on-write counts are right

    [count E p] is the number of pages with frame [p].  A count of zero
    stands for one owner or none; any other count is the number of pages. *)
Definition count (E : gmap (Z * Z) (Z * Z)) (p : Z) : Z :=
  Z.of_nat (size (filter (λ kx, kx.2.1 = p) E)).

Lemma count_nonneg E p : 0 ≤ count E p.
Proof. unfold count. lia. Qed.

Lemma count_zero E p : count E p = 0 ↔ ∀ k fl, E !! k ≠ Some (p, fl).
Proof.
  unfold count. rewrite <- Nat2Z.inj_0, Nat2Z.inj_iff, map_size_empty_iff. split.
  - intros H k fl Hk. by apply (map_filter_empty_not_lookup _ _ k (p, fl)) in H.
  - intros H. apply map_eq. intros k. rewrite lookup_empty, map_lookup_filter_None. right.
    intros [q fl] Hk. cbn. intros ->. by apply (H k fl).
Qed.

Lemma count_delete E k p fl q :
  E !! k = Some (p, fl) → count E q = count (delete k E) q + (if decide (p = q) then 1 else 0).
Proof.
  intros Hk. unfold count. rewrite <- (insert_delete_id E k (p, fl)) at 1 by done. case_decide as Hp.
  - rewrite map_filter_insert_True by done. rewrite map_size_insert_None; [lia|].
    rewrite map_lookup_filter_None. left. apply lookup_delete_eq.
  - rewrite map_filter_insert_False by done. rewrite delete_delete_eq. lia.
Qed.

Lemma count_insert E k p fl q :
  count (<[k := (p, fl)]> E) q = count (delete k E) q + (if decide (p = q) then 1 else 0).
Proof.
  rewrite <- (insert_delete_eq E k (p, fl)).
  rewrite (count_delete (<[k := (p, fl)]> (delete k E)) k p fl q) by apply lookup_insert_eq.
  rewrite delete_insert_id by apply lookup_delete_eq. done.
Qed.

Lemma count_new E k p fl q :
  E !! k = None → count (<[k := (p, fl)]> E) q = count E q + (if decide (p = q) then 1 else 0).
Proof. intros Hk. rewrite count_insert, delete_id by done. done. Qed.

Lemma count_same E k p fl fl' q :
  E !! k = Some (p, fl) → count (<[k := (p, fl')]> E) q = count E q.
Proof. intros Hk. by rewrite count_insert, (count_delete E k p fl q). Qed.

Definition ref_ok s (E : gmap (Z * Z) (Z * Z)) : Prop :=
  ∀ f, 0 ≤ f < 2 ^ 20 → rc s (f * 4096) = count E (f * 4096) ∨ rc s (f * 4096) = 0 ∧ count E (f * 4096) = 1.

Lemma rc_set s f g n : rc (set_rc (f * 4096) n s) (g * 4096) = if decide (g = f) then n else rc s (g * 4096).
Proof.
  unfold rc, set_rc, PAGE. cbn [refcounts]. rewrite !Z.div_mul by lia.
  case_decide; [subst; by rewrite lookup_insert_eq|by rewrite lookup_insert_ne].
Qed.

Lemma cow_dec_frame s f :
  0 ≤ f < 2 ^ 20 →
  cow_dec (f * 4096) s =
    (let n := if 0 <? rc s (f * 4096) then rc s (f * 4096) - 1 else rc s (f * 4096) in (set_rc (f * 4096) n s, n)).
Proof.
  intros Hf. unfold cow_dec, COW_FRAMES. unfold PAGE at 1. rewrite Z.div_mul by lia.
  destruct (Z.ltb_spec f 1048576); [done|lia].
Qed.

Record vm_rep s (R : gset Z) (E : gmap (Z * Z) (Z * Z)) (F : gset Z) : Prop := {
  vr_mem : mem_rep (vmem s) R E F;
  vr_ref : ref_ok s E;
}.

(** The pages of [E] keep their content. *)
Definition keeps_pages s s' (E : gmap (Z * Z) (Z * Z)) : Prop :=
  ∀ k p fl, E !! k = Some (p, fl) → ram (vmem s') !! p = ram (vmem s) !! p.

(** One page of [munmap] and [release]: the page is gone, its frame is free
    exactly when this was its last page. *)
Lemma unmap_release_ok s R E F r v :
  vm_rep s R E F → r ∈ R → user v →
  ∃ s' F', unmap_release r v s = Some s' ∧ vm_rep s' R (delete (r, v / 4096) E) F' ∧ F ⊆ F' ∧
    (∀ f, f ∈ F' → f ∈ F ∨ ∃ fl, E !! (r, v / 4096) = Some (f * 4096, fl) ∧ count E (f * 4096) = 1) ∧
    (∀ f fl, E !! (r, v / 4096) = Some (f * 4096, fl) → count E (f * 4096) = 1 → f ∈ F') ∧
    keeps_pages s s' (delete (r, v / 4096) E) ∧ cr3 s' = cr3 s.
Proof.
  intros [Hm Href] Hr Hv. unfold unmap_release.
  pose proof (translate_rep _ _ _ _ r v Hm Hr Hv) as Ht.
  destruct (E !! (r, v / 4096)) as [[p fl]|] eqn:Hk.
  2: { rewrite Ht, delete_id by done. exists s, F. split_and!; try done. by left. }
  destruct Ht as (q & -> & Hq). destruct (mr_frame _ _ _ _ Hm _ _ _ Hk) as (f & -> & Hf & HfF & Hnt).
  rewrite Hq, cow_dec_frame by lia. cbn zeta.
  destruct (mem_rep_unmap _ _ _ _ r v Hm Hr Hv) as [Hm1 Hdata].
  assert (∀ k p fl', delete (r, v / 4096) E !! k = Some (p, fl') → ram (unmap_page r v (vmem s)) !! p = ram (vmem s) !! p) as Hkeep.
  { intros k p fl' [_ Hk']%lookup_delete_Some. destruct (mr_frame _ _ _ _ Hm _ _ _ Hk') as (g & -> & _ & Hg & Hgn).
    by apply (proj2 (Hdata _ Hgn) g). }
  set (m1 := unmap_page r v (vmem s)) in *. set (E' := delete (r, v / 4096) E) in *.
  change (rc (set_mem m1 s) (f * 4096)) with (rc s (f * 4096)).
  set (n := if 0 <? rc s (f * 4096) then _ else _).
  pose proof (count_delete E _ _ fl (f * 4096) Hk) as Hc. fold E' in Hc. rewrite decide_True in Hc by done.
  pose proof (count_nonneg E' (f * 4096)).
  assert (n = 0 ↔ count E' (f * 4096) = 0) as Hn0.
  { unfold n. destruct (Href f ltac:(lia)) as [Hr1|[Hr0 Hc1]], (Z.ltb_spec 0 (rc s (f * 4096))); lia. }
  set (s1 := set_rc (f * 4096) n (set_mem m1 s)).
  assert (ref_ok s1 E') as Href1.
  { intros g Hg. unfold s1. rewrite rc_set. case_decide as Hgf; [subst g|].
    - destruct (Href f ltac:(lia)) as [Hr1|[Hr0 Hc1]]; unfold n in *;
        destruct (Z.ltb_spec 0 (rc s (f * 4096))); lia.
    - change (rc (set_mem m1 s) (g * 4096)) with (rc s (g * 4096)).
      rewrite <- (Z.add_0_r (count E' (g * 4096))). specialize (Href g Hg).
      rewrite (count_delete E _ _ fl (g * 4096) Hk) in Href. fold E' in Href. rewrite decide_False in Href by lia.
      exact Href. }
  destruct (Z.eqb_spec n 0) as [Hz|Hnz].
  - destruct (mem_rep_free m1 R E' F f Hm1 Hf HfF) as (m2 & Hfree & Hram & Hm2);
      [by apply Hdata|by apply count_zero, Hn0|].
    unfold vm_free, s1. cbn [vmem set_rc set_mem]. rewrite Hfree. cbn [mbind option_bind].
    eexists _, _. split; [done|]. unfold keeps_pages. split_and!; [by split|by apply union_subseteq_l| | | |done].
    + intros g [Hg|Hg%elem_of_singleton]%elem_of_union; [by left|]. subst g. right. exists fl. split; [done|].
      apply Hn0 in Hz. lia.
    + intros g fl' [= Heq _] _. assert (g = f) as -> by lia. by apply elem_of_union_r, elem_of_singleton.
    + cbn. by rewrite Hram.
  - eexists _, _. split; [done|]. split_and!; [by split|done|by left| |done|done].
    + intros g fl' [= Heq _] Hc1. rewrite <- Heq in Hc1. exfalso. apply Hnz, Hn0. lia.
Qed.

(** [for_pages] over a range of user addresses, by an invariant. *)
Lemma for_pages_inv {S} (P : nat → S → Prop) (f : Z → S → option S) n v x :
  0 ≤ v → v + Z.of_nat n * 4096 ≤ 2 ^ 47 → P 0%nat x →
  (∀ i x, (i < n)%nat → P i x → ∃ x', f (v + Z.of_nat i * 4096) x = Some x' ∧ P (Datatypes.S i) x') →
  ∃ x', for_pages n v f x = Some x' ∧ P n x'.
Proof.
  revert P v x. induction n as [|n IH]; intros P v x Hv Hn H0 Hstep; [by exists x|]. cbn [for_pages].
  destruct (Hstep 0%nat x ltac:(lia) H0) as (x1 & Hf & H1). rewrite Z.mul_0_l, Z.add_0_r in Hf. rewrite Hf.
  cbn [mbind option_bind]. unfold PAGE. rewrite wadd_small by lia.
  apply (IH (λ i, P (Datatypes.S i))); [lia|lia|done|]. intros i x2 Hi H2.
  destruct (Hstep (Datatypes.S i) x2 ltac:(lia) H2) as (x3 & Hf3 & H3). exists x3. split; [|done]. rewrite <- Hf3. f_equal. lia.
Qed.

(** The pages of [E] without [n] pages of [r] from page number [lo]. *)
Definition drop_pages (E : gmap (Z * Z) (Z * Z)) (r lo n : Z) : gmap (Z * Z) (Z * Z) :=
  filter (λ kx, ¬ (kx.1.1 = r ∧ lo ≤ kx.1.2 < lo + n)) E.

Lemma lookup_drop_pages E r lo n r' m :
  drop_pages E r lo n !! (r', m) = if decide (r' = r ∧ lo ≤ m < lo + n) then None else E !! (r', m).
Proof.
  unfold drop_pages. rewrite map_lookup_filter. destruct (E !! (r', m)) as [x|]; cbn; [|by case_decide].
  case_decide as H1; [rewrite option_guard_False|rewrite option_guard_True]; done || tauto.
Qed.

Lemma drop_pages_S E r lo n :
  0 ≤ n → delete (r, lo + n) (drop_pages E r lo n) = drop_pages E r lo (n + 1).
Proof.
  intros Hn. apply map_eq. intros [r' m]. rewrite lookup_drop_pages. destruct (decide ((r', m) = (r, lo + n))) as [Heq|Hne].
  - injection Heq as -> ->. rewrite lookup_delete_eq, decide_True by lia. done.
  - rewrite lookup_delete_ne, lookup_drop_pages by done.
    repeat case_decide; try done; [lia|]. exfalso. apply Hne. f_equal; [tauto|lia].
Qed.

Lemma drop_pages_0 E r lo : drop_pages E r lo 0 = E.
Proof. apply map_eq. intros [r' m]. rewrite lookup_drop_pages. case_decide; [lia|done]. Qed.

(** Frames with no page left are free. *)
Definition no_leak (E E' : gmap (Z * Z) (Z * Z)) (F' : gset Z) : Prop :=
  ∀ f, 0 < count E (f * 4096) → count E' (f * 4096) = 0 → f ∈ F'.

Lemma unmap_pages_ok s R E F r v n :
  vm_rep s R E F → r ∈ R → 0 ≤ v → v mod 4096 = 0 → v + Z.of_nat n * 4096 ≤ 2 ^ 47 →
  ∃ s', for_pages n v (unmap_release r) s = Some s' ∧
    ∃ F', let E' := drop_pages E r (v / 4096) (Z.of_nat n) in
      vm_rep s' R E' F' ∧ F ⊆ F' ∧ no_leak E E' F' ∧ keeps_pages s s' E' ∧ cr3 s' = cr3 s.
Proof.
  intros Hs Hr Hv Hal Hn.
  apply (for_pages_inv (λ i s', ∃ F', let E' := drop_pages E r (v / 4096) (Z.of_nat i) in
    vm_rep s' R E' F' ∧ F ⊆ F' ∧ no_leak E E' F' ∧ keeps_pages s s' E' ∧ cr3 s' = cr3 s)); [done|done|..].
  { exists F. rewrite drop_pages_0. split_and!; try done. intros f H1 H2. lia. }
  intros i s1 Hi (F1 & H1 & Hsub & Hleak & Hkeep & Hcr).
  set (vi := v + Z.of_nat i * 4096). assert (vi / 4096 = v / 4096 + Z.of_nat i) as Hvi by (unfold vi; rewrite Z.div_add; lia).
  destruct (unmap_release_ok s1 R _ F1 r vi H1 Hr) as (s2 & F2 & -> & H2 & Hsub2 & Hnew & Hfree & Hkeep2 & Hcr2);
    [unfold user, vi; lia|].
  rewrite Hvi, drop_pages_S in * by lia. replace (Z.of_nat i + 1) with (Z.of_nat (S i)) in * by lia.
  exists s2. split; [done|]. exists F2. split_and!; [done|by etrans| | |congruence].
  - intros f Hpos Hzero. destruct (decide (count (drop_pages E r (v / 4096) (Z.of_nat i)) (f * 4096) = 0)) as [Hz|Hnz].
    { apply Hsub2. by apply Hleak. }
    set (Ei := drop_pages E r (v / 4096) (Z.of_nat i)) in *.
    replace (drop_pages E r (v / 4096) (Z.of_nat (S i))) with (delete (r, v / 4096 + Z.of_nat i) Ei) in *
      by (unfold Ei; rewrite drop_pages_S by lia; f_equal; lia).
    destruct (Ei !! (r, v / 4096 + Z.of_nat i)) as [[p fl]|] eqn:Hk; [|by rewrite delete_id in Hzero].
    pose proof (count_delete Ei _ p fl (f * 4096) Hk) as Hc. rewrite Hzero in Hc. case_decide as Hp; [subst p|lia].
    by apply (Hfree f fl).
  - intros k p fl Hk. rewrite (Hkeep2 k p fl Hk). apply (Hkeep k p fl). destruct k as [r' m].
    rewrite lookup_drop_pages in Hk |- *. repeat case_decide; try done. lia.
Qed.

(** ** Regions after [munmap] *)
Definition attrs (r : VmaRegion) := (prot r, kind r, vflags r, name r, cow r).

Lemma cut_region_find lo hi r v :
  lo ≤ hi →
  attrs <$> filter (λ r, contains r v = true) (cut_region lo hi r) =
  if decide (lo ≤ v < hi) then [] else attrs <$> filter (λ r, contains r v = true) [r].
Proof.
  intros Hlh. unfold cut_region, contains. destruct r as [st e p k vf nm c]. cbn.
  repeat match goal with
  | |- context [?x <=? ?y] => destruct (Z.leb_spec x y); cbn
  | |- context [?x <? ?y] => destruct (Z.ltb_spec x y); cbn
  | _ => case_decide; cbn
  end; try lia; done.
Qed.

Lemma find_in_attrs rs v : attrs <$> find_in rs v = head (attrs <$> filter (λ r, contains r v = true) rs).
Proof. unfold find_in. by destruct (filter _ rs). Qed.

Lemma cut_regions_find lo hi rs v :
  lo ≤ hi →
  attrs <$> find_in (concat (map (cut_region lo hi) rs)) v =
  if decide (lo ≤ v < hi) then None else attrs <$> find_in rs v.
Proof.
  intros Hlh. rewrite !find_in_attrs.
  assert (attrs <$> filter (λ r, contains r v = true) (concat (map (cut_region lo hi) rs)) =
    if decide (lo ≤ v < hi) then [] else attrs <$> filter (λ r, contains r v = true) rs) as ->.
  { induction rs as [|r rs IH]; [by case_decide|]. cbn [map concat].
    rewrite filter_app, fmap_app, IH, cut_region_find by done. case_decide; [done|].
    change (r :: rs) with ([r] ++ rs). by rewrite filter_app, fmap_app. }
  by case_decide.
Qed.

Lemma page_up_mul a : 0 ≤ a → a + 4095 < 2 ^ 64 → page_up a = (a + 4095) / 4096 * 4096.
Proof.
  intros H0 H1. unfold page_up, PAGE. unfold wsub, wadd, wrap. rewrite Zminus_mod_idemp_l. replace (a + 4096 - 1) with (a + 4095) by lia.
  rewrite Z.mod_small by lia. apply page_down_mul. unfold in_range. lia.
Qed.

Lemma munmap_ok s R E F a addr len :
  vm_rep s R E F → pml4_phys a ∈ R → 0 ≤ addr → 0 < len → addr + len ≤ 2 ^ 47 →
  let lo := addr / 4096 in
  let hi := (addr + len + 4095) / 4096 in
  let E' := drop_pages E (pml4_phys a) lo (hi - lo) in
  ∃ s' F', munmap a addr len s =
      Some (s', set_regions (concat (map (cut_region (lo * 4096) (hi * 4096)) (regions a))) a) ∧
    vm_rep s' R E' F' ∧ F ⊆ F' ∧ no_leak E E' F' ∧ keeps_pages s s' E' ∧ lo < hi ∧ cr3 s' = cr3 s.
Proof.
  intros Hs Hr Ha Hl Hmax lo hi E'. unfold munmap. destruct (Z.eqb_spec len 0); [lia|].
  rewrite (wadd_small 64 addr len) by lia. rewrite page_down_mul, page_up_mul by (unfold in_range; lia).
  fold lo. fold hi.
  pose proof (Z.div_mod addr 4096 ltac:(lia)) as H1. pose proof (Z.mod_pos_bound addr 4096 ltac:(lia)) as H2.
  pose proof (Z.div_mod (addr + len + 4095) 4096 ltac:(lia)) as H3.
  pose proof (Z.mod_pos_bound (addr + len + 4095) 4096 ltac:(lia)) as H4. fold lo hi in H1, H3.
  assert (0 ≤ lo < hi ∧ hi ≤ 2 ^ 35) as [Hlh Hhi] by lia.
  rewrite wsub_small by lia. unfold PAGE. replace (hi * 4096 - lo * 4096) with ((hi - lo) * 4096) by lia.
  rewrite Z.div_mul by lia.
  destruct (unmap_pages_ok s R E F (pml4_phys a) (lo * 4096) (Z.to_nat (hi - lo)) Hs Hr)
    as (s' & -> & F' & Hs' & Hsub & Hleak & Hkeep & Hcr); [lia|apply Z.mod_mul; lia|lia|].
  rewrite Z.div_mul, Z2Nat.id in * by lia. exists s', F'. cbn [mbind option_bind]. split_and!; try done; lia.
Qed.

(** C14. [munmap] of a range of user addresses removes exactly the pages that
    touch it, and only from its own address space; the frames whose last page
    this was are free again, those still shared keep their count and their
    content; the region list loses the range and nothing else, splitting
    regions that reach over its ends. *)
Theorem munmap_exact s R E F a addr len :
  vm_rep s R E F → pml4_phys a ∈ R → 0 ≤ addr → 0 < len → addr + len ≤ 2 ^ 47 →
  let lo := addr / 4096 in
  let hi := (addr + len + 4095) / 4096 in
  let E' := drop_pages E (pml4_phys a) lo (hi - lo) in
  ∃ s' a' F', munmap a addr len s = Some (s', a') ∧ vm_rep s' R E' F' ∧
    F ⊆ F' ∧ no_leak E E' F' ∧ keeps_pages s s' E' ∧
    ∀ v, attrs <$> find_region a' v =
      if decide (lo * 4096 ≤ v < hi * 4096) then None else attrs <$> find_region a v.
Proof.
  intros Hs Hr Ha Hl Hmax lo hi E'.
  destruct (munmap_ok s R E F a addr len Hs Hr Ha Hl Hmax) as (s' & F' & Hm & Hs' & Hsub & Hleak & Hkeep & Hlh & _).
  eexists s', _, F'. split; [exact Hm|]. split_and!; [done..|].
  intros v. unfold find_region. cbn [regions set_regions]. apply cut_regions_find. unfold lo, hi. lia.
Qed.

(** ** Mapping, as the operations use it *)
Lemma prot_flags_ok p : flags_ok (prot_to_flags p) ∧ Z.lor (prot_to_flags p) PRESENT = prot_to_flags p.
Proof. unfold prot_to_flags. by repeat case_match. Qed.

(** The state after a page is mapped. *)
Record page_mapped s s' (R : gset Z) (E : gmap (Z * Z) (Z * Z)) (F F' : gset Z) (r n p fl : Z) : Prop := {
  pm_rep : mem_rep (vmem s') R (<[(r, n) := (p, fl)]> E) F';
  pm_sub : F' ⊆ F;
  pm_refs : refcounts s' = refcounts s;
  pm_cr3 : cr3 s' = cr3 s;
  pm_data : ∀ g, g ∉ F → not_table (vmem s) R (g * 4096) →
    ram (vmem s') !! (g * 4096) = ram (vmem s) !! (g * 4096) ∧ not_table (vmem s') R (g * 4096);
  pm_avail : (fa_avail (frames (vmem s)) ≤ (if E !! (r, n) then 0 else 3) + fa_avail (frames (vmem s')))%nat;
}.

Lemma vm_map_cases s R E F r v f fl :
  mem_rep (vmem s) R E F → r ∈ R → user v → flags_ok fl → Z.lor fl PRESENT = fl →
  0 < f < 2 ^ 20 → f ∉ F → not_table (vmem s) R (f * 4096) →
  (vm_map r v (f * 4096) fl s = None ∧ (fa_avail (frames (vmem s)) < 3)%nat ∧ E !! (r, v / 4096) = None) ∨
  ∃ s' F', vm_map r v (f * 4096) fl s = Some s' ∧ page_mapped s s' R E F F' r (v / 4096) (f * 4096) fl.
Proof.
  intros Hm Hr Hv Hfl Hp Hf HfF Hnt. unfold vm_map.
  assert (∀ x, E !! (r, v / 4096) = Some x → ∃ m', map_page r v (f * 4096) fl (vmem s) = Some m' ∧ frames m' = frames (vmem s)) as Hpres.
  { intros x Hx. rewrite <- (mr_map _ _ _ _ Hm r v Hr Hv) in Hx. apply mapping_walk in Hx as [t Ht].
    rewrite (map_page_present _ _ _ _ _ _ Ht). by eexists. }
  destruct (map_page_mapped (vmem s) R F r v (f * 4096) fl (mr_inv _ _ _ _ Hm) Hr Hfl)
    as [[Hno Hlt]|(m' & F' & Hmap & Hmp)].
  { left. rewrite Hno. split_and!; [done|done|]. destruct (E !! (r, v / 4096)) as [x|]; [|done].
    destruct (Hpres x eq_refl) as (? & ? & _). congruence. }
  right. rewrite Hp, frame_masked in Hmp by lia. rewrite Hmap. cbn [mbind option_bind].
  eexists _, F'. split; [done|]. cbn [vmem set_mem refcounts cr3].
  split; cbn [vmem set_mem refcounts cr3]; [by eapply mem_rep_mapped|apply Hmp|done|done| |].
  2: { destruct (E !! (r, v / 4096)) as [x|]; [|apply Hmp]. destruct (Hpres x eq_refl) as (m1 & Hm1 & <-).
       rewrite Hm1 in Hmap. by simplify_eq. }
  intros g Hg Hgn. split.
  - apply (mp_data _ _ _ _ _ _ _ _ _ Hmp); [|done]. intros h Hh Heq. assert (g = h) by lia. by subst.
  - intros r' q Hr' Hq Hw. apply (mp_new _ _ _ _ _ _ _ _ _ Hmp) in Hw as [Hw|(h & Hh & _ & Heq)]; try done.
    + by apply (Hgn r' q).
    + assert (g = h) by lia. by subst.
Qed.

Lemma vm_map_ok s R E F r v f fl :
  mem_rep (vmem s) R E F → r ∈ R → user v → flags_ok fl → Z.lor fl PRESENT = fl →
  0 < f < 2 ^ 20 → f ∉ F → not_table (vmem s) R (f * 4096) →
  (3 ≤ fa_avail (frames (vmem s)))%nat ∨ is_Some (E !! (r, v / 4096)) →
  ∃ s' F', vm_map r v (f * 4096) fl s = Some s' ∧
    mem_rep (vmem s') R (<[(r, v / 4096) := (f * 4096, fl)]> E) F' ∧ F' ⊆ F ∧
    refcounts s' = refcounts s ∧ cr3 s' = cr3 s ∧
    (∀ g, g ∉ F → not_table (vmem s) R (g * 4096) →
       ram (vmem s') !! (g * 4096) = ram (vmem s) !! (g * 4096) ∧ not_table (vmem s') R (g * 4096)) ∧
    (fa_avail (frames (vmem s)) ≤
       (if E !! (r, (v / 4096)%Z) then 0 else 3) + fa_avail (frames (vmem s')))%nat.
Proof.
  intros Hm Hr Hv Hfl Hp Hf HfF Hnt Hav.
  destruct (vm_map_cases s R E F r v f fl Hm Hr Hv Hfl Hp Hf HfF Hnt) as [(_ & Hlt & Hno)|(s' & F' & Hs' & [])].
  - exfalso. rewrite Hno in Hav. destruct Hav as [?|[x ?]]; [lia|done].
  - by exists s', F'.
Qed.

(** Pages keep their content while a page is mapped. *)
Lemma vm_map_keeps s s' R E F :
  mem_rep (vmem s) R E F →
  (∀ g, g ∉ F → not_table (vmem s) R (g * 4096) →
     ram (vmem s') !! (g * 4096) = ram (vmem s) !! (g * 4096) ∧ not_table (vmem s') R (g * 4096)) →
  keeps_pages s s' E.
Proof.
  intros Hm Hd k p fl Hk. destruct (mr_frame _ _ _ _ Hm _ _ _ Hk) as (g & -> & _ & Hg & Hgn). by apply Hd.
Qed.

Lemma keeps_pages_trans s1 s2 s3 E1 E2 :
  keeps_pages s1 s2 E1 → keeps_pages s2 s3 E2 → (∀ k p fl, E1 !! k = Some (p, fl) → ∃ k' fl', E2 !! k' = Some (p, fl')) →
  keeps_pages s1 s3 E1.
Proof.
  intros H1 H2 Hsub k p fl Hk. destruct (Hsub _ _ _ Hk) as (k' & fl' & Hk'). by rewrite (H2 _ _ _ Hk'), (H1 _ _ _ Hk).
Qed.

Definition page_at s (p : Z) : gmap Z Z := default ∅ (ram (vmem s) !! p).

Lemma count_pos E k p fl : E !! k = Some (p, fl) → 1 ≤ count E p.
Proof. intros Hk. rewrite (count_delete E k p fl p Hk), decide_True by done. pose proof (count_nonneg (delete k E) p). lia. Qed.
End Vmm.

(** ** A small machine, for concrete runs

    One address space with root 16, whose page 0x400 is frame 100, in a
    private writable region; five frames are free. *)
Definition demo_root : Z := 16 * 4096.
Definition demo_region : VmaRegion := mkVma 0x400000 0x401000 3 Anonymous MAP_PRIVATE ""%string false.
Definition demo_as : AddressSpace := mkAs demo_root [demo_region] BRK_START BRK_START 0x600000 0 STACK_TOP false.
Definition demo_flags : Z := prot_to_flags 3.
Definition demo_vm0 : Vm (list Z) := mkVm (mkMem [17; 18; 19; 20; 21; 22; 23; 24; 25; 26; 27; 28; 29; 30] ∅) ∅ demo_root.
Definition demo_vm : Vm (list Z) := default demo_vm0 (vm_map demo_root 0x400000 (100 * 4096) demo_flags demo_vm0).
Definition demo_pages : gmap (Z * Z) (Z * Z) := {[ (demo_root, 0x400) := (100 * 4096, demo_flags) ]}.

Lemma demo_vm_rep : ∃ F, vm_rep demo_vm {[demo_root]} demo_pages F.
Proof.
  set (l := [17; 18; 19; 20; 21; 22; 23; 24; 25; 26; 27; 28; 29; 30]).
  assert (∀ r p t, walk (vmem demo_vm0) r p = Some t → p = [] ∧ t = r) as Hw.
  { intros r [|i p] t; [by intros [= ->]|done]. }
  assert (∀ f, f ∈ l → 0 < f < 40) as Hl by (apply Forall_forall; repeat constructor; lia).
  assert (mem_rep (vmem demo_vm0) {[demo_root]} ∅ (list_to_set l)) as Hm0.
  { split; [split|..].
    - split_and!; [|done|repeat constructor; lia]. apply (bool_decide_unpack _). vm_compute. done.
    - intros r1 r2 p1 p2 t Hr1 Hr2 _ _ [-> ->]%Hw [-> ->]%Hw. split; [done|by left].
    - intros r p t f Hr _ [-> ->]%Hw Hf. apply elem_of_singleton in Hr as ->. apply elem_of_list_to_set in Hf.
      unfold demo_root. intros Heq. assert (f = 16) as -> by lia. by apply (bool_decide_unpack (16 ∉ l)).
    - intros r v _ _. by rewrite lookup_empty.
    - intros r n x. by rewrite lookup_empty.
    - intros k p fl. by rewrite lookup_empty. }
  destruct (vm_map_ok demo_vm0 {[demo_root]} ∅ (list_to_set l) demo_root 0x400000 100 demo_flags Hm0)
    as (s' & F' & Hmap & Hm & _ & Hrc & _); [by apply elem_of_singleton|done|apply prot_flags_ok|done|done|..].
  { rewrite elem_of_list_to_set. intros Hin. specialize (Hl _ Hin). lia. }
  { intros r q Hr _ [-> Heq]%Hw. apply elem_of_singleton in Hr. subst r. unfold demo_root in Heq. lia. }
  { left. cbn. lia. }
  exists F'. unfold demo_vm. rewrite Hmap. cbn [from_option id]. split.
  - unfold demo_pages. rewrite <- insert_empty. done.
  - intros f Hf. unfold rc. rewrite Hrc. unfold demo_pages. cbn [refcounts demo_vm0]. rewrite lookup_empty. cbn [from_option id].
    rewrite <- insert_empty, count_new by apply lookup_empty. unfold count. rewrite map_filter_empty, map_size_empty.
    case_decide; [by right|by left].
Qed.

Lemma munmap_exact_witness :
  ∃ s' a' F', munmap demo_as 0x400123 1 demo_vm = Some (s', a') ∧ vm_rep s' {[demo_root]} ∅ F' ∧ 100 ∈ F' ∧
    find_region a' 0x400000 = None.
Proof.
  destruct demo_vm_rep as [F HF].
  destruct (munmap_exact demo_vm {[demo_root]} demo_pages F demo_as 0x400123 1 HF)
    as (s' & a' & F' & Hm & Hr & _ & Hleak & _ & Hreg);
    [by apply elem_of_singleton|lia|lia|lia|]. exists s', a', F'.
  assert (drop_pages demo_pages (pml4_phys demo_as) (0x400123 / 4096) ((0x400123 + 1 + 4095) / 4096 - 0x400123 / 4096) = ∅) as HE
    by (vm_compute; reflexivity).
  rewrite HE in *. split; [exact Hm|]. split; [exact Hr|]. split; [apply Hleak; vm_compute; reflexivity|].
  specialize (Hreg 0x400000). rewrite decide_True in Hreg by (vm_compute; split; congruence).
  destruct (find_region a' 0x400000); [discriminate Hreg|reflexivity].
Defined.
