(* ===== verification/VmmFork.v ===== *)
(** * Fork and write faults

    Theorems on [copy_on_fork], [new_user] and [handle_cow_fault] of
    kernel/src/memory/vmm.rs (Vmm.v): a fork shares the frames of the parent
    with right counts, and a write fault gives the writer a private copy. *)
From S2P Require Import Prelude Paging Vmm.

Section Fork.
Context {A : Type} `{FA : FrameAlloc A}.
Implicit Types s : Vm A.

(** *** The write fault *)
Definition fault_prot (a : AddressSpace) (addr : Z) : Z :=
  match find_region a addr with Some r => prot r | None => Z.lor PROT_READ PROT_WRITE end.
Definition region_cow (a : AddressSpace) (addr : Z) : bool :=
  match find_region a addr with Some r => cow r | None => false end.

Lemma get_flags_rep s R E F r v p fl :
  mem_rep (vmem s) R E F → r ∈ R → user v → E !! (r, v / 4096) = Some (p, fl) →
  get_flags (vmem s) r v = Some fl ∧ ∃ q, translate (vmem s) r v = Some q ∧ page_down q = p.
Proof.
  intros Hm Hr Hv Hk. split; [by rewrite get_flags_mapping, (mr_map _ _ _ _ Hm) , Hk by done|].
  pose proof (translate_rep _ _ _ _ r v Hm Hr Hv) as Ht. by rewrite Hk in Ht.
Qed.

Lemma user_page_down v : user v → page_down v = v / 4096 * 4096 ∧ user (page_down v) ∧ page_down v / 4096 = v / 4096.
Proof.
  intros Hv. unfold user in *. rewrite page_down_mul by (unfold in_range; lia).
  rewrite Z.div_mul by lia. pose proof (Z.mul_div_le v 4096 ltac:(lia)).
  assert (0 ≤ v / 4096) by (apply Z.div_pos; lia). lia.
Qed.

Lemma cow_sole_ref s E k f fl fl' :
  ref_ok s E → E !! k = Some (f * 4096, fl) → 0 < f < 2 ^ 20 →
  (if 0 <? rc s (f * 4096) then rc s (f * 4096) - 1 else rc s (f * 4096)) = 0 →
  count E (f * 4096) = 1 ∧ ref_ok (set_rc (f * 4096) 0 s) (<[k := (f * 4096, fl')]> E).
Proof.
  intros Href Hk Hf Hn. pose proof (count_pos _ _ _ _ Hk).
  assert (count E (f * 4096) = 1) as Hc.
  { destruct (Href f ltac:(lia)), (Z.ltb_spec 0 (rc s (f * 4096))); lia. }
  split; [done|]. intros g Hg. rewrite rc_set, (count_same _ _ _ _ _ _ Hk). case_decide; [subst; lia|by apply Href].
Qed.

Lemma cow_copy_ref s E k f fl g fl' n :
  ref_ok s E → E !! k = Some (f * 4096, fl) → 0 < f < 2 ^ 20 → 0 < g < 2 ^ 20 →
  (∀ k fl, E !! k ≠ Some (g * 4096, fl)) →
  n = (if 0 <? rc s (f * 4096) then rc s (f * 4096) - 1 else rc s (f * 4096)) → n ≠ 0 →
  let E' := <[k := (g * 4096, fl')]> E in
  count E' (g * 4096) = 1 ∧ ref_ok (set_rc (f * 4096) n s) E'.
Proof.
  intros Href Hk Hf Hg Hnew Hn Hnz E'. apply count_zero in Hnew.
  assert (f ≠ g) as Hfg by (intros ->; pose proof (count_pos _ _ _ _ Hk); lia).
  assert (∀ q, count E' q = count E q - (if decide (f * 4096 = q) then 1 else 0) + (if decide (g * 4096 = q) then 1 else 0)) as Hc.
  { intros q. unfold E'. rewrite count_insert, (count_delete E _ _ _ q Hk). lia. }
  split.
  - rewrite Hc, decide_False, decide_True by (done || lia). lia.
  - intros h Hh. pose proof (count_pos _ _ _ _ Hk). rewrite rc_set, Hc.
    destruct (Href h Hh) as [Hr|[Hr0 Hr1]], (decide (h = f)) as [->|]; repeat case_decide; try lia;
      first [assert (h = g) as -> by lia; lia|destruct (Z.ltb_spec 0 (rc s (f * 4096))); lia].
Qed.

Lemma handle_cow_fault_ok s R E F a addr p fl :
  vm_rep s R E F → pml4_phys a ∈ R → user addr → E !! (pml4_phys a, addr / 4096) = Some (p, fl) →
  has fl COW = true ∨ region_cow a addr = true → (1 ≤ fa_avail (frames (vmem s)))%nat →
  ∃ s' p' F', handle_cow_fault a addr s = Some (s', true) ∧
    let E' := <[(pml4_phys a, addr / 4096) := (p', prot_to_flags (Z.lor (fault_prot a addr) PROT_WRITE))]> E in
    vm_rep s' R E' F' ∧ F' ⊆ F ∧ count E' p' = 1 ∧ page_at s' p' = page_at s p ∧ keeps_pages s s' E.
Proof.
  intros [Hm Href] Hr Hv Hk Hcow Hav. unfold handle_cow_fault.
  destruct (user_page_down addr Hv) as (_ & Hvp & Hpn). rewrite <- Hpn in Hk |- *.
  destruct (get_flags_rep _ _ _ _ _ _ _ _ Hm Hr Hvp Hk) as (Hfl & q & Ht & Hq).
  rewrite Ht, Hfl, Hq. cbn [from_option id]. fold (region_cow a addr). fold (fault_prot a addr).
  assert (negb (has fl COW) && negb (region_cow a addr) = false) as -> by (destruct Hcow as [-> | ->]; [done|apply andb_false_r]).
  destruct (mr_frame _ _ _ _ Hm _ _ _ Hk) as (f & -> & Hf & HfF & Hnt).
  rewrite cow_dec_frame by lia. cbn zeta. set (n := if 0 <? rc s (f * 4096) then _ else _).
  destruct (prot_flags_ok (Z.lor (fault_prot a addr) PROT_WRITE)) as [Hok Hpres].
  set (s1 := set_rc (f * 4096) n s). destruct (Z.eqb_spec n 0) as [Hz|Hnz].
  - cbn [mbind option_bind].
    destruct (vm_map_ok s1 R E F (pml4_phys a) (page_down addr) f _ Hm Hr Hvp Hok Hpres Hf HfF Hnt)
      as (s2 & F2 & -> & Hm2 & Hsub & Hrc & _ & Hd & _); [by right; eexists|].
    destruct (cow_sole_ref s E _ f fl (prot_to_flags (Z.lor (fault_prot a addr) PROT_WRITE)) Href Hk Hf Hz) as [Hc1 Href2].
    eexists s2, (f * 4096), F2. split; [done|]. split_and!; [split; [done|]|done| | |by apply (vm_map_keeps s1 s2 R E F)].
    + intros g Hg. unfold rc. rewrite Hrc. unfold s1. rewrite Hz. by apply Href2.
    + rewrite (count_same _ _ _ _ _ _ Hk). done.
    + unfold page_at. by rewrite (proj1 (Hd f HfF Hnt)).
  - destruct (mem_rep_alloc _ _ _ _ Hm) as (m1 & [p1|] & Ha & Hram & Hcase); [|destruct Hcase; lia].
    destruct Hcase as (g & -> & HgF & Hg & Hm1 & Hgt & HgE & _).
    unfold vm_alloc. change (vmem s1) with (vmem s). rewrite Ha. cbn [mbind option_bind].
    set (s2 := set_mem (copy_frame (f * 4096) (g * 4096) m1) (set_mem m1 s1)).
    assert (f ≠ g) as Hfg by (intros ->; by apply (HgE _ _ Hk)).
    destruct (mem_rep_write m1 (copy_frame (f * 4096) (g * 4096) m1) R E (F ∖ {[g]}) (g * 4096) Hm1) as [Hm2 Hgt2];
      [done|intros h Hh; cbn; by rewrite lookup_insert_ne|done|].
    destruct (vm_map_ok s2 R E (F ∖ {[g]}) (pml4_phys a) (page_down addr) g _ Hm2 Hr Hvp Hok Hpres Hg)
      as (s3 & F3 & Hmap & Hm3 & Hsub & Hrc & _ & Hd & _); [set_solver|done|by right; eexists|].
    change (set_mem (copy_frame (f * 4096) (g * 4096) (vmem (set_mem m1 s1))) (set_mem m1 s1)) with s2.
    rewrite Hmap. cbn [mbind option_bind].
    destruct (cow_copy_ref s E _ f fl g (prot_to_flags (Z.lor (fault_prot a addr) PROT_WRITE)) n Href Hk Hf Hg HgE eq_refl Hnz)
      as [Hc1 Href2].
    eexists s3, (g * 4096), F3. split; [done|]. split_and!; [split; [done|]|set_solver|done| |].
    + intros h Hh. unfold rc. rewrite Hrc. by apply Href2.
    + unfold page_at. rewrite (proj1 (Hd g ltac:(set_solver) Hgt2)). cbn. rewrite lookup_insert_eq. cbn. by rewrite Hram.
    + intros k' p' fl'' Hk'. destruct (mr_frame _ _ _ _ Hm2 _ _ _ Hk') as (h & -> & _ & HhF & Hht).
      rewrite (proj1 (Hd h HhF Hht)). cbn. rewrite lookup_insert_ne; [by rewrite Hram|].
      intros Heq. assert (h = g) as -> by lia. by apply (HgE _ _ Hk').
Qed.

(** *** A new address space *)
Lemma copy_kernel_half_rd c src (m : Memory A) u j :
  src ≠ c → rd (copy_kernel_half c src m) u j = if decide (u = c ∧ 256 ≤ j < 512) then rd m src j else rd m u j.
Proof.
  intros Hne. unfold copy_kernel_half.
  enough (∀ l m, rd (foldl (λ m i, wr c i (rd m src i) m) m l) u j =
    if decide (u = c ∧ j ∈ l) then rd m src j else rd m u j) as ->.
  { repeat case_decide; try done; exfalso; rewrite elem_of_seqZ in *; lia. }
  induction l as [|i l IH]; intros m'; cbn [foldl].
  { case_decide as H; [|done]. destruct H as [_ H]. by apply not_elem_of_nil in H. }
  rewrite IH, !rd_wr. destruct (decide (u = c)) as [->|Hu].
  - destruct (decide (j = i)) as [->|Hji].
    + rewrite (decide_True (P := c = c ∧ i ∈ i :: l)) by (split; [done|by left]).
      repeat case_decide; try done; tauto.
    + rewrite (decide_False (P := src = c ∧ j = i)) by tauto. rewrite (decide_False (P := c = c ∧ j = i)) by tauto.
      rewrite (decide_ext (c = c ∧ j ∈ l) (c = c ∧ j ∈ i :: l)); [done|]. rewrite elem_of_cons. tauto.
  - rewrite !decide_False by tauto. done.
Qed.

Lemma copy_kernel_half_ram c src (m : Memory A) g : g ≠ c → ram (copy_kernel_half c src m) !! g = ram m !! g.
Proof.
  intros Hg. unfold copy_kernel_half. generalize (seqZ 256 256). intros l. revert m.
  induction l as [|i l IH]; intros m; cbn [foldl]; [done|]. rewrite IH. cbn. by rewrite lookup_insert_ne.
Qed.

Lemma copy_kernel_half_frames c src (m : Memory A) : frames (copy_kernel_half c src m) = frames m.
Proof.
  unfold copy_kernel_half. generalize (seqZ 256 256). intros l. revert m.
  induction l as [|i l IH]; intros m; cbn [foldl]; [done|]. by rewrite IH.
Qed.

Lemma elem_of_new (R : gset Z) c r : r ∈ R ∪ {[c]} → r ∉ R → r = c.
Proof. set_solver. Qed.

(** The tree of the new root: itself and the kernel half of the running one. *)
Lemma new_root_inv (m m' : Memory A) R F c src :
  frames m' = frames m →
  (∀ u j, rd m' u j = if decide (u = c ∧ 256 ≤ j < 512) then rd m src j else rd m u j) →
  pt_inv m R F → src ∈ R → (∀ r q, r ∈ R → (length q ≤ 3)%nat → walk m r q ≠ Some c) →
  (∀ f, f ∈ F → c ≠ f * 4096) → (∀ j, rd m c j = 0) →
  (∀ r q, r ∈ R → (length q ≤ 3)%nat → walk m' r q = walk m r q) ∧
  (∀ i q, (length q ≤ 2)%nat → walk m' c (i :: q) = if decide (256 ≤ i < 512) then walk m src (i :: q) else None) ∧
  pt_inv m' (R ∪ {[c]}) F.
Proof.
  intros Hfr Hcopy Hi Hsrc Hnew Hfree Hz.
  assert (src ≠ c) as Hne by (intros ->; by apply (Hnew c []); [|cbn; lia|]).
  assert (∀ u j, u ≠ c → rd m' u j = rd m u j) as Hrd.
  { intros u j Hu. rewrite Hcopy. case_decide; [tauto|done]. }
  assert (∀ r q, r ∈ R → (length q ≤ 3)%nat → walk m' r q = walk m r q) as Hw.
  { intros r q Hr Hq. apply (walk_ext _ _ R); [|done]. intros p t j Hp Ht. apply Hrd. intros ->. by apply (Hnew r p); [|lia|]. }
  assert (∀ i q, (length q ≤ 2)%nat → walk m' c (i :: q) = if decide (256 ≤ i < 512) then walk m src (i :: q) else None) as Hc.
  { intros i q Hq. assert (rd m' c i = if decide (256 ≤ i < 512) then rd m src i else 0) as Hrc.
    { rewrite Hcopy, Hz. repeat case_decide; tauto. }
    cbn [walk]. rewrite Hrc. case_decide as Hd; [|done]. destruct (is_present (rd m src i)) eqn:Hp; [|done].
    pose proof (Hw src (i :: q) Hsrc ltac:(cbn; lia)) as Hws. cbn [walk] in Hws. by rewrite (Hrd src i Hne), Hp in Hws. }
  split_and!; [done|done|].
  assert (∀ r p t, r ∈ R ∪ {[c]} → (length p ≤ 3)%nat → walk m' r p = Some t →
    (r = c ∧ p = [] ∧ t = c) ∨ (∃ r', r' ∈ R ∧ walk m r' p = Some t ∧ (r' = r ∨ kernel_path p))) as Hall.
  { intros r p t Hr Hp Ht. destruct (decide (r ∈ R)) as [HrR|HrR].
    - right. exists r. rewrite <- Hw by done. split_and!; [done|done|by left].
    - pose proof (elem_of_new R c r Hr ltac:(assumption)) as ->. destruct p as [|i p]; [left; cbn [walk] in Ht; by injection Ht as <-|].
      cbn in Hp. rewrite Hc in Ht by lia. case_decide; [|done]. right. exists src. split_and!; [done|done|]. right. cbn. lia. }
  split.
  - rewrite Hfr. apply Hi.
  - intros r1 r2 p1 p2 t Hr1 Hr2 H1 H2 Ht1 Ht2.
    destruct (Hall _ _ _ Hr1 H1 Ht1) as [(-> & -> & ->)|(r1' & Hr1' & Hw1 & Hk1)],
      (Hall _ _ _ Hr2 H2 Ht2) as [(-> & -> & ?)|(r2' & Hr2' & Hw2 & Hk2)]; subst; try done.
    + split; [done|by left].
    + by apply Hnew in Hw2.
    + by apply Hnew in Hw1.
    + destruct (pi_share _ _ _ Hi r1' r2' p1 p2 t) as [-> Hs]; try done. split; [done|].
      destruct Hk1 as [->|?]; [|by right]. destruct Hk2 as [->|?]; [|by right]. done.
  - intros r p t f Hr Hp Ht Hf. destruct (Hall _ _ _ Hr Hp Ht) as [(_ & _ & ->)|(r' & Hr' & Hw' & _)]; [by apply Hfree|].
    by apply (pi_used _ _ _ Hi r' p).
Qed.

Lemma new_user_ok s R E F :
  vm_rep s R E F → cr3 s ∈ R → (1 ≤ fa_avail (frames (vmem s)))%nat →
  ∃ s' c F', new_user s = Some (s', Some (mkAs c [] BRK_START BRK_START MMAP_BASE 0 STACK_TOP false)) ∧
    c ∉ R ∧ vm_rep s' (R ∪ {[c]}) E F' ∧ F' ⊆ F ∧ keeps_pages s s' E ∧ cr3 s' = cr3 s ∧
    (fa_avail (frames (vmem s)) ≤ S (fa_avail (frames (vmem s'))))%nat.
Proof.
  intros [Hm Href] Hcr Hav. unfold new_user, vm_alloc.
  destruct (mem_rep_alloc _ _ _ _ Hm) as (m1 & [p|] & -> & Hram & Hcase); [|destruct Hcase; lia].
  destruct Hcase as (f & -> & HfF & Hf & Hm1 & Hnt & HfE & Hav1). cbn [mbind option_bind].
  cbn [vmem set_mem cr3]. set (c := f * 4096) in *. set (m2 := zero_frame c m1).
  destruct (mem_rep_write m1 m2 R E (F ∖ {[f]}) c Hm1) as [Hm2 Hnt2];
    [done|intros g Hg; cbn; by rewrite lookup_delete_ne|done|].
  assert (c ∉ R) as HcR by (intros HcR; by apply (Hnt c []); [|cbn; lia|]).
  assert (cr3 s ≠ c) as Hsrc by (intros Heq; by rewrite Heq in Hcr).
  pose proof (copy_kernel_half_frames c (cr3 s) m2) as Hfr.
  pose proof (λ u j, copy_kernel_half_rd c (cr3 s) m2 u j Hsrc) as Hcopy.
  pose proof (copy_kernel_half_ram c (cr3 s) m2) as Hcram.
  generalize dependent (copy_kernel_half c (cr3 s) m2). intros m3 Hfr Hcopy Hcram.
  destruct (new_root_inv m2 m3 R (F ∖ {[f]}) c (cr3 s) Hfr Hcopy) as (Hw & Hwc & Hi').
  { apply Hm2. } { done. } { done. } { unfold c. intros g Hg Heq. assert (f = g) by lia. set_solver. }
  { intros j. unfold m2. rewrite rd_zero. by case_decide. }
  eexists _, c, (F ∖ {[f]}). split; [done|].
  split_and!; [done| |set_solver| |done|].
  - split; [|done]. cbn [vmem set_mem]. split; [done|..].
    + intros r v Hr Hv. destruct (decide (r ∈ R)) as [HrR|HrR].
      * rewrite <- (mr_map _ _ _ _ Hm2 r v HrR Hv). unfold mapping. rewrite Hw by done.
        destruct (walk m2 r (table_path v)) as [t|] eqn:Ht; [|done]. cbn. rewrite Hcopy. case_decide as Hd; [|done]. destruct Hd as [-> _].
        by apply (Hnt2 r (table_path v)) in Ht.
      * pose proof (elem_of_new R c r Hr ltac:(assumption)) as ->. destruct (E !! (c, v / 4096)) as [x|] eqn:Hx;
          [by apply (mr_dom _ _ _ _ Hm2) in Hx as [? _]|].
        unfold mapping. unfold table_path. rewrite Hwc by (cbn; lia). rewrite decide_False; [done|].
        pose proof (proj2 (user_vpn v Hv)). lia.
    + intros r n x Hx. apply (mr_dom _ _ _ _ Hm2) in Hx as [? ?]. split; [set_solver|done].
    + intros k p fl Hk. destruct (mr_frame _ _ _ _ Hm2 _ _ _ Hk) as (g & -> & Hg & HgF & Hgt).
      exists g. split_and!; [done|lia|lia|done|]. intros r q Hr Hq. destruct (decide (r ∈ R)); [rewrite Hw by done; by apply Hgt|].
      pose proof (elem_of_new R c r Hr ltac:(assumption)) as ->. destruct q as [|i q].
      * cbn. intros [= Heq]. apply (HfE k fl). by rewrite Hk, <- Heq.
      * cbn in Hq. rewrite Hwc by lia. case_decide; [|done]. apply Hgt; [done|cbn; lia].
  - intros k p fl Hk. cbn [vmem set_mem]. rewrite Hcram; [cbn; rewrite lookup_delete_ne|];
      [by rewrite Hram|intros <-; by apply (HfE k fl)|intros ->; by apply (HfE k fl)].
  - cbn [vmem set_mem]. rewrite Hfr. done.
Qed.

(** *** Fork *)
Definition ro_flags (g : VmaRegion) : Z := Z.lor (prot_to_flags (Z.land (prot g) (wnot 32 PROT_WRITE))) COW.
Definition child_flags (g : VmaRegion) : Z := if can_cow g then ro_flags g else prot_to_flags (prot g).
Definition parent_flags (g : VmaRegion) (fl : Z) : Z := if can_cow g then ro_flags g else fl.

Lemma ro_flags_ok g : flags_ok (ro_flags g) ∧ Z.lor (ro_flags g) PRESENT = ro_flags g ∧
  has (ro_flags g) COW = true ∧ has (ro_flags g) WRITABLE = false.
Proof.
  unfold ro_flags, prot_to_flags. assert (has (Z.land (prot g) (wnot 32 PROT_WRITE)) PROT_WRITE = false) as ->.
  { unfold has. rewrite <- Z.land_assoc. change (Z.land (wnot 32 PROT_WRITE) PROT_WRITE) with 0. by rewrite Z.land_0_r. }
  by case_match.
Qed.

(** The pages after page [n] of region [g] is shared with the child. *)
Definition fork_entry (r c : Z) (g : VmaRegion) (n : Z) (E : gmap (Z * Z) (Z * Z)) : gmap (Z * Z) (Z * Z) :=
  match E !! (r, n) with
  | None => E
  | Some (p, fl) => <[(c, n) := (p, child_flags g)]> (<[(r, n) := (p, parent_flags g fl)]> E)
  end.

Lemma cow_share_ok s E E' f :
  ref_ok s E → 0 < f < 2 ^ 20 → 1 ≤ count E (f * 4096) < 65535 →
  (∀ q, count E' q = count E q + (if decide (f * 4096 = q) then 1 else 0)) →
  ref_ok (cow_share (f * 4096) s) E'.
Proof.
  intros Href Hf Hc HE g Hg.
  assert (f * 4096 / PAGE <? COW_FRAMES = true) as Hfr by (unfold PAGE, COW_FRAMES; rewrite Z.div_mul by lia; lia).
  unfold cow_share. rewrite Hfr, rc_set, HE. destruct (decide (g = f)) as [->|Hne].
  - rewrite decide_True by done.
    destruct (Href f ltac:(lia)), (Z.eqb_spec (rc s (f * 4096)) 0), (Z.ltb_spec (rc s (f * 4096)) 65535); lia.
  - rewrite decide_False by lia. destruct (Href g Hg); lia.
Qed.

Lemma fork_page_ok s R E F r c g v :
  vm_rep s R E F → r ∈ R → c ∈ R → r ≠ c → user v → E !! (c, v / 4096) = None →
  (∀ p, count E p < 65535) → (3 ≤ fa_avail (frames (vmem s)))%nat →
  ∃ s' F', fork_page r c g v s = Some s' ∧ vm_rep s' R (fork_entry r c g (v / 4096) E) F' ∧ F' ⊆ F ∧
    keeps_pages s s' E ∧ cr3 s' = cr3 s ∧ (fa_avail (frames (vmem s)) ≤ 3 + fa_avail (frames (vmem s')))%nat.
Proof.
  intros [Hm Href] Hr Hc Hrc Hv Hno Hcnt Hav. unfold fork_page, fork_entry.
  pose proof (translate_rep _ _ _ _ r v Hm Hr Hv) as Ht. destruct (E !! (r, v / 4096)) as [[p fl]|] eqn:Hk.
  2: { rewrite Ht. exists s, F. split_and!; try done. lia. }
  destruct Ht as (q & -> & Hq). cbn zeta. rewrite Hq.
  destruct (mr_frame _ _ _ _ Hm _ _ _ Hk) as (f & -> & Hf & HfF & Hnt).
  pose proof (count_pos _ _ _ _ Hk) as Hpos. specialize (Hcnt (f * 4096)) as Hlt.
  unfold child_flags, parent_flags. destruct (can_cow g); fold (ro_flags g).
  - destruct (ro_flags_ok g) as (Hok & Hpr & _ & _).
    destruct (vm_map_ok s R E F r v f (ro_flags g) Hm Hr Hv Hok Hpr Hf HfF Hnt)
      as (s1 & F1 & -> & Hm1 & Hs1 & Hrc1 & Hcr1 & Hd1 & Ha1); [by left|]. rewrite Hk in Ha1.
    cbn [mbind option_bind].
    destruct (vm_map_ok s1 R _ F1 c v f (ro_flags g) Hm1 Hc Hv Hok Hpr Hf)
      as (s2 & F2 & -> & Hm2 & Hs2 & Hrc2 & Hcr2 & Hd2 & Ha2); [set_solver|by apply Hd1|left; lia|].
    rewrite lookup_insert_ne, Hno in Ha2 by congruence.
    cbn [mbind option_bind]. eexists _, F2. split; [done|].
    assert (vmem (cow_share (f * 4096) s2) = vmem s2 ∧ cr3 (cow_share (f * 4096) s2) = cr3 s2) as [Hv2 Hc2]
      by (unfold cow_share; by case_match).
    split_and!; [split; rewrite ?Hv2; [done|]|set_solver| |congruence|rewrite Hv2; lia].
    + apply (cow_share_ok s2 E); [|done|lia|].
      * intros h Hh. unfold rc. rewrite Hrc2, Hrc1. by apply Href.
      * intros q'. rewrite count_new by (rewrite lookup_insert_ne by congruence; done).
        by rewrite (count_same _ _ _ _ _ _ Hk).
    + intros k p fl' Hk'. rewrite Hv2.
      destruct (mr_frame _ _ _ _ Hm _ _ _ Hk') as (h & -> & _ & HhF & Hht).
      rewrite (proj1 (Hd2 h ltac:(set_solver) (proj2 (Hd1 h HhF Hht)))). by apply Hd1.
  - destruct (prot_flags_ok (prot g)) as [Hok Hpr]. rewrite (insert_id E (r, v / 4096)) by done.
    destruct (vm_map_ok s R E F c v f (prot_to_flags (prot g)) Hm Hc Hv Hok Hpr Hf HfF Hnt)
      as (s2 & F2 & -> & Hm2 & Hs2 & Hrc2 & Hcr2 & Hd2 & Ha2); [by left|]. rewrite Hno in Ha2.
    cbn [mbind option_bind]. eexists _, F2. split; [done|].
    assert (vmem (cow_share (f * 4096) s2) = vmem s2 ∧ cr3 (cow_share (f * 4096) s2) = cr3 s2) as [Hv2 Hc2]
      by (unfold cow_share; by case_match).
    split_and!; [split; rewrite ?Hv2; [done|]|done| |congruence|rewrite Hv2; lia].
    + apply (cow_share_ok s2 E); [|done|lia|].
      * intros h Hh. unfold rc. rewrite Hrc2. by apply Href.
      * intros q'. by rewrite count_new.
    + intros k p fl' Hk'. rewrite Hv2. by apply (vm_map_keeps s s2 R E F Hm Hd2 k p fl').
Qed.

(** The pages after regions [rs] are shared: the child has the parent's
    frames, the private writable pages of both are read-only. *)
Definition child_entry (g : VmaRegion) (x : Z * Z) : Z * Z := (x.1, child_flags g).
Definition parent_entry (g : VmaRegion) (x : Z * Z) : Z * Z := (x.1, parent_flags g x.2).
Definition forked (r c : Z) (rs : list VmaRegion) (E E' : gmap (Z * Z) (Z * Z)) : Prop :=
  ∀ r' n, E' !! (r', n) =
    if decide (r' = c) then
      match find_in rs (n * 4096) with
      | Some g => option_map (child_entry g) (E !! (r, n))
      | None => None
      end
    else if decide (r' = r) then
      match find_in rs (n * 4096) with
      | Some g => option_map (parent_entry g) (E !! (r, n))
      | None => E !! (r, n)
      end
    else E !! (r', n).

Lemma size_list_to_set_le {B} `{Countable B} (l : list B) : (size (list_to_set (C := gset B) l) ≤ length l)%nat.
Proof.
  induction l as [|x l IH]; [done|]. cbn [list_to_set length]. rewrite size_union_alt, size_singleton.
  pose proof (subseteq_size (list_to_set (C := gset B) l ∖ {[x]}) (list_to_set l) ltac:(set_solver)). lia.
Qed.

Lemma forked_frames r c rs E E' k p fl :
  forked r c rs E E' → E' !! k = Some (p, fl) →
  ∃ r' fl', E !! (r', k.2) = Some (p, fl') ∧ (r' = k.1 ∨ k.1 = c).
Proof.
  intros HE. destruct k as [r' n]. rewrite HE. cbn [fst snd]. repeat case_decide; subst.
  - case_match; [|done]. destruct (E !! (r, n)) as [[p' fl']|] eqn:Hk; [|done]. intros [= <- <-]. exists r, fl'; split; [done|auto].
  - case_match; [|by eauto]. destruct (E !! (r, n)) as [[p' fl']|] eqn:Hk; [|done]. intros [= <- <-]. exists r, fl'; split; [done|auto].
  - by eauto.
Qed.

Lemma forked_count r c rs E E' p :
  forked r c rs E E' → (∀ n, E !! (c, n) = None) → count E' p ≤ 2 * count E p.
Proof.
  intros HE Hc. unfold count. rewrite <- !size_dom. set (P := λ kx : Z * Z * (Z * Z), kx.2.1 = p).
  set (X := dom (filter P E)).
  assert (∀ k, k ∈ X ↔ ∃ fl, E !! k = Some (p, fl)) as HX.
  { intros k. unfold X. rewrite elem_of_dom. split.
    - intros [[q fl] [Hk Hp]%map_lookup_filter_Some]. exists fl. unfold P in Hp. cbn in Hp. by rewrite Hk, Hp.
    - intros [fl Hk]. exists (p, fl). by rewrite map_lookup_filter_Some. }
  assert (dom (filter P E') ⊆ X ∪ list_to_set ((λ k : Z * Z, (c, k.2)) <$> elements X)) as Hsub.
  { intros k Hk. apply elem_of_dom in Hk as [[q fl] [Hk Hp]%map_lookup_filter_Some]. unfold P in Hp. cbn in Hp. rewrite Hp in Hk.
    destruct (forked_frames _ _ _ _ _ _ _ _ HE Hk) as (r' & fl' & Hr' & [->| <-]).
    - apply elem_of_union_l, HX. exists fl'. by destruct k.
    - apply elem_of_union_r, elem_of_list_to_set, list_elem_of_fmap. exists (r', k.2). split; [by destruct k|].
      apply elem_of_elements, HX. by exists fl'. }
  set (Y := list_to_set (C := gset (Z * Z)) ((λ k : Z * Z, (c, k.2)) <$> elements X)) in *.
  assert (size Y ≤ size X)%nat as Hle.
  { unfold Y. etrans; [apply size_list_to_set_le|]. by rewrite length_fmap. }
  apply subseteq_size in Hsub. rewrite size_union_alt in Hsub.
  assert (size (Y ∖ X) ≤ size Y)%nat by (apply subseteq_size; set_solver).
  fold X. lia.
Qed.

Lemma find_in_app rs g v :
  find_in (rs ++ [g]) v = match find_in rs v with Some x => Some x | None => if contains g v then Some g else None end.
Proof.
  unfold find_in. rewrite filter_app. destruct (filter _ rs); [|done]. cbn [app].
  destruct (contains g v) eqn:Hc.
  - by rewrite filter_cons_True.
  - by rewrite filter_cons_False by congruence.
Qed.

(** The first [i] pages of a region. *)
Definition part (g : VmaRegion) (i : Z) : VmaRegion := set_end (start g + i * 4096) g.

Lemma contains_part g i n :
  start g mod 4096 = 0 →
  contains (part g i) (n * 4096) = bool_decide (start g / 4096 ≤ n < start g / 4096 + i).
Proof.
  intros Hal. unfold contains, part. cbn [start end_ set_end].
  pose proof (Z.div_mod (start g) 4096 ltac:(lia)) as Hd. rewrite Hal in Hd.
  case_bool_decide; destruct (Z.leb_spec (start g) (n * 4096)), (Z.ltb_spec (n * 4096) (start g + i * 4096)); cbn; done || lia.
Qed.

Lemma forked_step r c rs g i E E1 :
  r ≠ c → start g mod 4096 = 0 → 0 ≤ i → (∀ n, E !! (c, n) = None) →
  let n := start g / 4096 + i in
  find_in rs (n * 4096) = None →
  forked r c (rs ++ [part g i]) E E1 →
  E1 !! (c, n) = None ∧ forked r c (rs ++ [part g (i + 1)]) E (fork_entry r c g n E1).
Proof.
  intros Hrc Hal Hi Hc n Hno HE.
  assert (find_in (rs ++ [part g i]) (n * 4096) = None) as Hf0.
  { rewrite find_in_app, Hno, contains_part by done. by rewrite bool_decide_false by lia. }
  assert (find_in (rs ++ [part g (i + 1)]) (n * 4096) = Some (part g (i + 1))) as Hf1.
  { rewrite find_in_app, Hno, contains_part by done. by rewrite bool_decide_true by lia. }
  assert (∀ m, m ≠ n → find_in (rs ++ [part g (i + 1)]) (m * 4096) = find_in (rs ++ [part g i]) (m * 4096) ∨
    find_in (rs ++ [part g (i + 1)]) (m * 4096) = Some (part g (i + 1)) ∧
    find_in (rs ++ [part g i]) (m * 4096) = Some (part g i)) as Hf.
  { intros m Hm. rewrite !find_in_app, !contains_part by done. destruct (find_in rs (m * 4096)); [by left|].
    repeat case_bool_decide; try lia; [by right|by left]. }
  assert (E1 !! (c, n) = None) as H1c by (rewrite HE, decide_True, Hf0 by done; done).
  assert (E1 !! (r, n) = E !! (r, n)) as H1r by (rewrite HE, decide_False, decide_True, Hf0 by done; done).
  split; [done|]. intros r' m.
  assert (m = n ∨ m ≠ n) as [->|Hm] by lia.
  - rewrite Hf1. unfold fork_entry. rewrite H1r. destruct (E !! (r, n)) as [[p fl]|] eqn:Hk; cbn.
    + repeat case_decide; subst.
      * by rewrite lookup_insert_eq.
      * by rewrite lookup_insert_ne, lookup_insert_eq by congruence.
      * rewrite !lookup_insert_ne by congruence. by rewrite HE, !decide_False.
    + rewrite HE, Hf0. repeat case_decide; done.
  - assert (fork_entry r c g n E1 !! (r', m) = E1 !! (r', m)) as ->.
    { unfold fork_entry. repeat case_match; [|done]. by rewrite !lookup_insert_ne by congruence. }
    rewrite HE. destruct (Hf m Hm) as [->|[-> ->]]; done.
Qed.

Definition region_ok (g : VmaRegion) : Prop :=
  start g mod 4096 = 0 ∧ end_ g mod 4096 = 0 ∧ 0 ≤ start g ≤ end_ g ∧ end_ g ≤ 2 ^ 47.

(** Aligned user regions that do not overlap. *)
Definition regions_ok (gs : list VmaRegion) : Prop :=
  ∀ gs1 g gs2, gs = gs1 ++ g :: gs2 → region_ok g ∧ ∀ v, contains g v = true → find_in gs1 v = None.

Lemma region_pages_ok g : region_ok g → Z.of_nat (region_pages g) * 4096 = end_ g - start g.
Proof.
  intros (Hs & He & Hle & Hmax). unfold region_pages, PAGE. rewrite wsub_small by lia.
  pose proof (Z.div_mod (start g) 4096 ltac:(lia)). pose proof (Z.div_mod (end_ g) 4096 ltac:(lia)).
  rewrite Hs, He in *. replace (end_ g - start g) with ((end_ g / 4096 - start g / 4096) * 4096) by lia.
  rewrite Z.div_mul by lia. lia.
Qed.

Lemma forked_ext r c rs rs' E E' :
  (∀ n, find_in rs (n * 4096) = find_in rs' (n * 4096)) → forked r c rs E E' → forked r c rs' E E'.
Proof. intros Hf HE r' n. by rewrite HE, Hf. Qed.

(** The state of a fork when regions [rs] are done. *)
Record fork_state (r c : Z) (rs : list VmaRegion) (R : gset Z) (E : gmap (Z * Z) (Z * Z)) (F : gset Z)
    (s0 : Vm A) (k : nat) s : Prop := {
  fs_rep : ∃ E1 F1, vm_rep s R E1 F1 ∧ forked r c rs E E1 ∧ F1 ⊆ F;
  fs_keep : keeps_pages s0 s E;
  fs_cr3 : cr3 s = cr3 s0;
  fs_avail : (fa_avail (frames (vmem s0)) ≤ 3 * k + fa_avail (frames (vmem s)))%nat;
}.

Lemma fork_region_ok r c rs g R E F s0 k s :
  r ∈ R → c ∈ R → r ≠ c → (∀ n, E !! (c, n) = None) → (∀ p, count E p ≤ 32767) →
  region_ok g → (∀ v, contains g v = true → find_in rs v = None) →
  fork_state r c rs R E F s0 k s → (3 * (k + region_pages g) ≤ fa_avail (frames (vmem s0)))%nat →
  ∃ s', for_pages (region_pages g) (start g) (fork_page r c g) s = Some s' ∧
    fork_state r c (rs ++ [g]) R E F s0 (k + region_pages g) s'.
Proof.
  intros Hr Hc Hrc HEc Hcnt Hg Hdis Hs0 Hav. pose proof (region_pages_ok g Hg) as Hpages.
  destruct Hg as (Hal & Hae & Hle & Hmax).
  assert (part g (Z.of_nat (region_pages g)) = g) as Hpart
    by (unfold part; rewrite Hpages; replace (start g + (end_ g - start g)) with (end_ g) by lia; by destruct g).
  destruct (for_pages_inv (λ i s', fork_state r c (rs ++ [part g (Z.of_nat i)]) R E F s0 (k + i) s')
    (fork_page r c g) (region_pages g) (start g) s) as (s' & Hrun & Hst);
    [lia|lia|..|exists s'; split; [done|by rewrite Hpart in Hst]].
  - destruct Hs0 as [(E1 & F1 & H1 & HE1 & HF1) Hk Hcr Ha]. split; [|done|done|lia]. exists E1, F1.
    split_and!; [done| |done]. apply (forked_ext r c rs); [|done]. intros n. rewrite find_in_app.
    destruct (find_in rs (n * 4096)); [done|]. rewrite contains_part by done. by rewrite bool_decide_false by lia.
  - intros i s1 Hi [(E1 & F1 & H1 & HE1 & HF1) Hk Hcr Ha].
    set (n := start g / 4096 + Z.of_nat i). pose proof (Z.div_mod (start g) 4096 ltac:(lia)) as Hd. rewrite Hal in Hd.
    assert (start g + Z.of_nat i * 4096 = n * 4096) as Hv by (unfold n; lia). rewrite Hv.
    assert (find_in rs (n * 4096) = None) as Hno.
    { apply Hdis. unfold contains. destruct (Z.leb_spec (start g) (n * 4096)), (Z.ltb_spec (n * 4096) (end_ g)); done || lia. }
    destruct (forked_step r c rs g (Z.of_nat i) E E1) as [H1c HE2]; [done..|lia|done|done|done|]. fold n in H1c, HE2.
    assert (∀ p, count E1 p < 65535) as Hcnt1.
    { intros p. pose proof (forked_count _ _ _ _ _ p HE1 HEc). specialize (Hcnt p). lia. }
    assert (n * 4096 / 4096 = n) as Hn by (apply Z.div_mul; lia).
    destruct (fork_page_ok s1 R E1 F1 r c g (n * 4096)) as (s2 & F2 & -> & H2 & HF2 & Hk2 & Hcr2 & Ha2);
      [done..|unfold user; lia|by rewrite Hn|done|lia|].
    rewrite Hn in H2. exists s2. split; [done|]. replace (Z.of_nat (S i)) with (Z.of_nat i + 1) by lia.
    split; [|..|congruence|lia].
    + eexists _, F2. split_and!; [done|done|by etrans].
    + apply (keeps_pages_trans s0 s1 s2 E E1 Hk Hk2). intros [r' m] p fl Hkp.
      assert (r' ≠ c) as Hne by (intros ->; by rewrite HEc in Hkp).
      exists (r', m). rewrite HE1, decide_False by done. case_decide; [subst|by eauto].
      rewrite Hkp. case_match; cbn; by eauto.
Qed.

Lemma fork_regions_ok r c gs R E F s0 : ∀ rs k s,
  r ∈ R → c ∈ R → r ≠ c → (∀ n, E !! (c, n) = None) → (∀ p, count E p ≤ 32767) →
  (∀ gs1 g gs2, gs = gs1 ++ g :: gs2 → region_ok g ∧ ∀ v, contains g v = true → find_in (rs ++ gs1) v = None) →
  fork_state r c rs R E F s0 k s → (3 * (k + sum_list_with region_pages gs) ≤ fa_avail (frames (vmem s0)))%nat →
  ∃ s', fork_regions r c gs s = Some s' ∧ fork_state r c (rs ++ gs) R E F s0 (k + sum_list_with region_pages gs) s'.
Proof.
  induction gs as [|g gs IH]; intros rs k s Hr Hc Hrc HEc Hcnt Hgs Hs Hav; cbn [sum_list_with fork_regions] in *.
  { exists s. by rewrite app_nil_r, Nat.add_0_r. }
  destruct (Hgs [] g gs eq_refl) as [Hg Hdis]. rewrite app_nil_r in Hdis.
  destruct (fork_region_ok r c rs g R E F s0 k s) as (s1 & -> & Hs1); [done..|lia|]. cbn [mbind option_bind].
  destruct (IH (rs ++ [g]) (k + region_pages g)%nat s1) as (s2 & Hrun & Hs2); [done..| |done|lia|].
  - intros gs1 g' gs2 ->. destruct (Hgs (g :: gs1) g' gs2 eq_refl) as [Hg' Hd']. split; [done|].
    intros v Hv. rewrite <- (assoc_L (++)). by apply Hd'.
  - exists s2. split; [done|]. rewrite <- (assoc_L (++)) in Hs2. cbn [app] in Hs2. by rewrite Nat.add_assoc.
Qed.

Lemma fork_ok s R E F a :
  vm_rep s R E F → pml4_phys a ∈ R → cr3 s ∈ R → regions_ok (regions a) → (∀ p, count E p ≤ 32767) →
  (1 + 3 * sum_list_with region_pages (regions a) ≤ fa_avail (frames (vmem s)))%nat →
  ∃ s' a' c E' F', copy_on_fork a s = Some (s', a', Some c) ∧
    pml4_phys c ∉ R ∧ vm_rep s' (R ∪ {[pml4_phys c]}) E' F' ∧
    forked (pml4_phys a) (pml4_phys c) (regions a) E E' ∧ keeps_pages s s' E ∧
    (fa_avail (frames (vmem s)) ≤ 1 + 3 * sum_list_with region_pages (regions a) + fa_avail (frames (vmem s')))%nat ∧
    regions c = mark_cow (regions a) ∧ regions a' = regions c ∧ brk c = brk a ∧ pml4_phys a' = pml4_phys a.
Proof.
  intros Hs Hr Hcr Hrs Hcnt Hav. unfold copy_on_fork.
  destruct (new_user_ok s R E F Hs Hcr) as (s1 & c & F1 & -> & HcR & Hs1 & HF1 & Hk1 & Hcr1 & Ha1); [lia|].
  cbn [mbind option_bind pml4_phys].
  assert (∀ n, E !! (c, n) = None) as HEc.
  { intros n. destruct (E !! (c, n)) as [x|] eqn:Hx; [|done]. by apply (mr_dom _ _ _ _ (vr_mem _ _ _ _ Hs)) in Hx as [? _]. }
  assert (pml4_phys a ≠ c) as Hrc by (intros Heq; by rewrite Heq in Hr).
  destruct (fork_regions_ok (pml4_phys a) c (regions a) (R ∪ {[c]}) E F1 s1 [] 0 s1) as (s2 & -> & [(E2 & F2 & Hs2 & HE2 & HF2) Hk2 _ Ha2]);
    [by apply elem_of_union_l|by apply elem_of_union_r, elem_of_singleton|done|done|done|exact Hrs| |lia|].
  { split; [|by intros ?|done|lia]. exists E, F1. split_and!; [done| |done]. intros r' n. cbn.
    repeat case_decide; subst; done. }
  cbn [mbind option_bind app] in *. eexists s2, _, _, E2, F2. split; [done|]. cbn [pml4_phys regions brk set_regions].
  split_and!; try done; [|lia]. intros k p fl Hk. by rewrite (Hk2 _ _ _ Hk), (Hk1 _ _ _ Hk).
Qed.

(** Fork: with enough free frames, [copy_on_fork] succeeds and gives the
    child a root of its own and every page of the parent's regions, on the
    same frames; pages of private writable regions become read-only in both
    and are marked copy-on-write, the other pages of the parent stay as they
    were.  The counts are right afterwards (so a frame is released exactly
    when its last page goes), and no page changes its content. *)
Theorem fork_shares s R E F a :
  vm_rep s R E F → pml4_phys a ∈ R → cr3 s ∈ R → regions_ok (regions a) → (∀ p, count E p ≤ 32767) →
  (1 + 3 * sum_list_with region_pages (regions a) ≤ fa_avail (frames (vmem s)))%nat →
  ∃ s' a' c E' F', copy_on_fork a s = Some (s', a', Some c) ∧
    pml4_phys c ∉ R ∧ vm_rep s' (R ∪ {[pml4_phys c]}) E' F' ∧
    forked (pml4_phys a) (pml4_phys c) (regions a) E E' ∧ keeps_pages s s' E ∧
    regions c = mark_cow (regions a) ∧ regions a' = regions c ∧ brk c = brk a ∧ pml4_phys a' = pml4_phys a.
Proof.
  intros Hs Hr Hcr Hrs Hcnt Hav.
  destruct (fork_ok s R E F a Hs Hr Hcr Hrs Hcnt Hav) as (s' & a' & c & E' & F' & H1 & H2 & H3 & H4 & H5 & _ & H6).
  by exists s', a', c, E', F'.
Qed.

Lemma count_two E k k' p fl fl' : k ≠ k' → E !! k = Some (p, fl) → E !! k' = Some (p, fl') → 2 ≤ count E p.
Proof.
  intros Hne Hk Hk'. rewrite (count_delete E k p fl p Hk), decide_True by done.
  pose proof (count_pos (delete k E) k' p fl'). rewrite lookup_delete_ne in * by done. specialize (H Hk'). lia.
Qed.

Lemma writable_flags p : has (prot_to_flags (Z.lor p PROT_WRITE)) WRITABLE = true.
Proof.
  unfold prot_to_flags. assert (has (Z.lor p PROT_WRITE) PROT_WRITE = true) as ->.
  { etrans; [apply (word_test (Z.lor p PROT_WRITE) 1); lia|]. rewrite Z.lor_spec. apply orb_true_r. }
  by case_match.
Qed.

(** C1. Isolation after a fork, where memory does not run out: with at least
    two free frames and three more per page of the parent's regions, and with
    no frame shared more than 32,767 times, the fork succeeds and a write fault
    of the child on a page of a private writable region succeeds too.  It
    leaves the child with a frame of its own, writable, that holds what the
    page held before the fork, while the parent still has the old frame with
    the old content; so what the child writes is not seen by the parent.  The
    free frames are needed: a fault that finds none fails, but only after it has
    lowered the count of the shared frame. *)
Theorem fork_isolates s R E F a addr p fl g :
  vm_rep s R E F → pml4_phys a ∈ R → cr3 s ∈ R → regions_ok (regions a) → (∀ p, count E p ≤ 32767) →
  (2 + 3 * sum_list_with region_pages (regions a) ≤ fa_avail (frames (vmem s)))%nat →
  user addr → E !! (pml4_phys a, addr / 4096) = Some (p, fl) →
  find_in (regions a) (addr / 4096 * 4096) = Some g → can_cow g = true →
  ∃ s1 a1 c s2 p' fl', copy_on_fork a s = Some (s1, a1, Some c) ∧
    mapping (vmem s1) (pml4_phys a) addr = Some (p, ro_flags g) ∧
    mapping (vmem s1) (pml4_phys c) addr = Some (p, ro_flags g) ∧
    handle_cow_fault c addr s1 = Some (s2, true) ∧
    mapping (vmem s2) (pml4_phys c) addr = Some (p', fl') ∧ has fl' WRITABLE = true ∧ p' ≠ p ∧
    mapping (vmem s2) (pml4_phys a) addr = Some (p, ro_flags g) ∧
    page_at s2 p' = page_at s p ∧ page_at s2 p = page_at s p.
Proof.
  intros Hs Hr Hcr Hrs Hcnt Hav Hv Hk Hg Hcow.
  destruct (fork_ok s R E F a Hs Hr Hcr Hrs Hcnt ltac:(lia))
    as (s1 & a1 & c & E1 & F1 & Hfork & HcR & Hs1 & HE1 & Hkeep & Ha1 & _).
  set (r := pml4_phys a) in *. set (cc := pml4_phys c) in *. set (n := addr / 4096) in *.
  assert (r ≠ cc) as Hne by (intros Heq; apply HcR; by rewrite <- Heq).
  assert (r ∈ R ∪ {[cc]}) as HrR by (by apply elem_of_union_l).
  assert (cc ∈ R ∪ {[cc]}) as HcR' by (by apply elem_of_union_r, elem_of_singleton).
  assert (E1 !! (r, n) = Some (p, ro_flags g)) as H1r.
  { rewrite HE1, decide_False, decide_True, Hg, Hk by done. cbn. unfold parent_entry, parent_flags. by rewrite Hcow. }
  assert (E1 !! (cc, n) = Some (p, ro_flags g)) as H1c.
  { rewrite HE1, decide_True, Hg, Hk by done. cbn. unfold child_entry, child_flags. by rewrite Hcow. }
  destruct (handle_cow_fault_ok s1 _ E1 F1 c addr p (ro_flags g) Hs1 HcR' Hv H1c)
    as (s2 & p' & F2 & Hfault & Hs2 & _ & Hone & Hsame & Hk2); [left; apply ro_flags_ok|lia|].
  fold cc n in Hs2, Hone. set (fl' := prot_to_flags _) in *.
  assert (∀ r v, r ∈ R ∪ {[cc]} → user v → mapping (vmem s2) r v = <[(cc, n) := (p', fl')]> E1 !! (r, v / 4096)) as Hmap2
    by (intros; by apply Hs2).
  eexists s1, a1, c, s2, p', fl'. split; [done|]. split_and!.
  - by rewrite (mr_map _ _ _ _ (vr_mem _ _ _ _ Hs1)).
  - by rewrite (mr_map _ _ _ _ (vr_mem _ _ _ _ Hs1)).
  - done.
  - rewrite Hmap2 by done. fold n. by rewrite lookup_insert_eq.
  - apply writable_flags.
  - intros ->. enough (2 ≤ count (<[(cc, n) := (p, fl')]> E1) p) by lia.
    apply (count_two _ (cc, n) (r, n) _ fl' (ro_flags g)); [congruence|by rewrite lookup_insert_eq|].
    by rewrite lookup_insert_ne by congruence.
  - rewrite Hmap2 by done. fold n. by rewrite lookup_insert_ne by congruence.
  - rewrite Hsame. unfold page_at. by rewrite (Hkeep _ _ _ Hk).
  - unfold page_at. by rewrite (Hk2 _ _ _ H1r), (Hkeep _ _ _ Hk).
Qed.
End Fork.

Lemma demo_regions_ok : regions_ok (regions demo_as).
Proof.
  intros [|g1 gs1] g gs2 Heq; cbn in Heq; [|by destruct gs1].
  injection Heq as <- _. split; [|done]. by repeat split.
Qed.

Lemma demo_count p : count demo_pages p ≤ 32767.
Proof.
  unfold demo_pages. rewrite <- insert_empty, count_new by apply lookup_empty.
  unfold count. rewrite map_filter_empty, map_size_empty. case_decide; lia.
Qed.

Lemma fork_shares_witness :
  ∃ s' a' c E' F', copy_on_fork demo_as demo_vm = Some (s', a', Some c) ∧ vm_rep s' ({[demo_root]} ∪ {[pml4_phys c]}) E' F' ∧
    forked demo_root (pml4_phys c) [demo_region] demo_pages E'.
Proof.
  destruct demo_vm_rep as [F HF].
  destruct (fork_shares demo_vm {[demo_root]} demo_pages F demo_as HF)
    as (s' & a' & c & E' & F' & H1 & _ & H2 & H3 & _);
    [by apply elem_of_singleton|by apply elem_of_singleton|apply demo_regions_ok|apply demo_count|vm_compute; lia|].
  exists s', a', c, E', F'. split; [exact H1|]. split; [exact H2|exact H3].
Defined.

Lemma fork_isolates_witness :
  ∃ s1 a1 c s2 p' fl', copy_on_fork demo_as demo_vm = Some (s1, a1, Some c) ∧
    handle_cow_fault c 0x400123 s1 = Some (s2, true) ∧
    mapping (vmem s2) (pml4_phys c) 0x400123 = Some (p', fl') ∧ p' ≠ 100 * 4096.
Proof.
  destruct demo_vm_rep as [F HF].
  destruct (fork_isolates demo_vm {[demo_root]} demo_pages F demo_as 0x400123 (100 * 4096) demo_flags demo_region HF)
    as (s1 & a1 & c & s2 & p' & fl' & H1 & _ & _ & H2 & H3 & _ & H4 & _);
    [by apply elem_of_singleton|by apply elem_of_singleton|apply demo_regions_ok|apply demo_count|vm_compute; lia
    |by split|reflexivity|reflexivity|reflexivity|].
  exists s1, a1, c, s2, p', fl'. split; [exact H1|]. split; [exact H2|]. split; [exact H3|exact H4].
Defined.
