(* ===== verification/VmmMap.v ===== *)
(** * Mapping memory

    Theorems on [mmap_full], [map_range], [set_brk] and [mprotect] of
    kernel/src/memory/vmm.rs (Vmm.v): new pages are private, hold zeros or
    the file's bytes, and disturb no other page; when memory runs out, what
    was mapped is taken back. *)
From S2P Require Import Prelude Paging Vmm VmmFork.

Section Map.
Context {A : Type} `{FA : FrameAlloc A}.
Implicit Types s : Vm A.

(** A page content that depends on the page number only. *)
Record fills (fill : Z → Z → Memory A → Memory A) (content : Z → gmap Z Z) : Prop := {
  fill_frames : ∀ i p m, frames (fill i p m) = frames m;
  fill_other : ∀ i p m g, g ≠ p → ram (fill i p m) !! g = ram m !! g;
  fill_content : ∀ i p m, ram m !! p = None → default ∅ (ram (fill i p m) !! p) = content i;
}.

Lemma fills_zero : fills (λ _ _ m, m) (λ _, ∅).
Proof. split; try done. intros i p m ->. done. Qed.

(** *** The bytes of a file, as words *)
Definition file_page (data : list Z) (i : Z) : list Z := take (Z.to_nat PAGE) (drop (Z.to_nat (i * PAGE)) data).
Definition word_of (bs : list Z) (k : Z) : Z := le_value (take 8 (drop (Z.to_nat (8 * k)) bs)).
Definition page_words (bs : list Z) : gmap Z Z :=
  foldl (λ w k, <[k := word_of bs k]> w) ∅ (seqZ 0 (Z.of_nat ((length bs + 7) / 8))).
Definition file_content (file_data : option (list Z)) (i : Z) : gmap Z Z :=
  match file_data with
  | None => ∅
  | Some data => if i * PAGE <? Z.of_nat (length data) then page_words (file_page data i) else ∅
  end.

Lemma store_bytes_ok p bs (m : Memory A) :
  frames (store_bytes p bs m) = frames m ∧ (∀ g, g ≠ p → ram (store_bytes p bs m) !! g = ram m !! g) ∧
  (ram m !! p = None → default ∅ (ram (store_bytes p bs m) !! p) = page_words bs).
Proof.
  unfold store_bytes, page_words. generalize (seqZ 0 (Z.of_nat ((length bs + 7) / 8))). intros l.
  set (f := λ m k, wr p k _ m). set (w := λ w k, <[k := word_of bs k]> w).
  enough (∀ m, frames (foldl f m l) = frames m ∧ (∀ g, g ≠ p → ram (foldl f m l) !! g = ram m !! g) ∧
    default ∅ (ram (foldl f m l) !! p) = foldl w (default ∅ (ram m !! p)) l) as H.
  { destruct (H m) as (H1 & H2 & H3). split_and!; [done|done|]. intros Hn. by rewrite H3, Hn. }
  clear m. induction l as [|k l IH]; intros m; [done|]. cbn [foldl]. destruct (IH (f m k)) as (-> & H2 & ->).
  split_and!; [done| |].
  - intros g Hg. rewrite H2 by done. unfold f, wr. cbn [ram]. by rewrite lookup_insert_ne.
  - f_equal. unfold f, wr, w. cbn [ram]. by rewrite lookup_insert_eq.
Qed.

Lemma fills_file file_data : fills (fill_file file_data) (file_content file_data).
Proof.
  unfold fill_file, file_content. destruct file_data as [data|]; [|apply fills_zero].
  split; intros i p m; cbn zeta; fold (file_page data i); case_match; try done.
  - apply store_bytes_ok.
  - intros g. apply store_bytes_ok.
  - apply store_bytes_ok.
  - by intros ->.
Qed.

(** *** One new page *)
Record page_added s s1 (R : gset Z) (E : gmap (Z * Z) (Z * Z)) (F F1 : gset Z) (r n f fl : Z) (content : gmap Z Z) : Prop := {
  pa_rep : vm_rep s1 R (<[(r, n) := (f * 4096, fl)]> E) F1;
  pa_fresh : count E (f * 4096) = 0;
  pa_content : page_at s1 (f * 4096) = content;
  pa_keep : keeps_pages s s1 E;
  pa_avail : (fa_avail (frames (vmem s)) ≤ 4 + fa_avail (frames (vmem s1)))%nat;
}.

(** Allocation of the frame fails, or a table cannot be allocated, or the
    page is added. *)
Lemma new_page_cases fill content s R E F r v fl i :
  fills fill content → vm_rep s R E F → r ∈ R → user v → flags_ok fl → Z.lor fl PRESENT = fl →
  E !! (r, v / 4096) = None →
  ∃ s0 o, vm_alloc s = Some (s0, o) ∧
    match o with
    | None => vm_rep s0 R E F ∧ ram (vmem s0) = ram (vmem s) ∧ fa_avail (frames (vmem s)) = 0%nat
    | Some p =>
        let s0 := set_mem (fill i p (zero_frame p (vmem s0))) s0 in
        (vm_map r v p fl s0 = None ∧ (fa_avail (frames (vmem s)) < 4)%nat) ∨
        ∃ s1 f F1, p = f * 4096 ∧ vm_map r v p fl s0 = Some s1 ∧
          page_added s s1 R E F F1 r (v / 4096) f fl (content i)
    end.
Proof.
  intros Hfill [Hm Href] Hr Hv Hok Hpr Hno. unfold vm_alloc.
  destruct (mem_rep_alloc _ _ _ _ Hm) as (m1 & [p|] & -> & Hram & Hcase); cbn [mbind option_bind];
    eexists _, _; (split; [done|]); [|by destruct Hcase].
  destruct Hcase as (f & -> & HfF & Hf & Hm1 & Hnt & HfE & Ha1). cbn [vmem set_mem].
  set (m2 := fill i (f * 4096) (zero_frame (f * 4096) m1)). set (s2 := set_mem m2 _).
  assert (frames m2 = frames m1) as Hfr by (unfold m2; by rewrite (fill_frames _ _ Hfill)).
  destruct (mem_rep_write m1 m2 R E (F ∖ {[f]}) (f * 4096) Hm1) as [Hm2 Hnt2]; [done|..|done|].
  { intros g Hg. unfold m2. rewrite (fill_other _ _ Hfill) by done. cbn. by rewrite lookup_delete_ne. }
  assert (f ∉ F ∖ {[f]}) as HfF' by set_solver.
  destruct (vm_map_cases s2 R E (F ∖ {[f]}) r v f fl Hm2 Hr Hv Hok Hpr Hf HfF' Hnt2)
    as [(Hnone & Hlt & _)|(s1 & F1 & Hs1 & Hpm)].
  { left. split; [done|]. change (frames (vmem s2)) with (frames m2) in Hlt. rewrite Hfr in Hlt. lia. }
  right. exists s1, f, F1. split; [done|]. split; [done|].
  assert (count E (f * 4096) = 0) as Hc0 by (by apply count_zero).
  split; [split; [apply Hpm|]|done|..].
  - intros g Hg. unfold rc. rewrite (pm_refs _ _ _ _ _ _ _ _ _ _ Hpm). specialize (Href g Hg).
    rewrite count_new by done. unfold rc in Href. cbn [refcounts set_mem s2].
    case_decide; [assert (g = f) as -> by lia; lia|]. rewrite Z.add_0_r. done.
  - unfold page_at. rewrite (proj1 (pm_data _ _ _ _ _ _ _ _ _ _ Hpm f HfF' Hnt2)). cbn [vmem set_mem s2]. unfold m2.
    apply (fill_content _ _ Hfill). cbn. apply lookup_delete_eq.
  - intros k p fl' Hk. destruct (mr_frame _ _ _ _ Hm2 _ _ _ Hk) as (g & -> & _ & HgF & Hgt).
    rewrite (proj1 (pm_data _ _ _ _ _ _ _ _ _ _ Hpm g HgF Hgt)). cbn [vmem set_mem s2]. unfold m2.
    assert (g * 4096 ≠ f * 4096) by (intros Heq; apply (HfE k fl'); by rewrite <- Heq).
    rewrite (fill_other _ _ Hfill) by done. cbn. rewrite lookup_delete_ne by done. by rewrite Hram.
  - pose proof (pm_avail _ _ _ _ _ _ _ _ _ _ Hpm) as Ha2. rewrite Hno in Ha2.
    change (frames (vmem s2)) with (frames m2) in Ha2. rewrite Hfr in Ha2. lia.
Qed.

(** *** A run of new pages

    [E'] is [E] with [k] new pages of [r] from page number [lo], each on a
    frame of its own with the content of its position (from [i] on). *)
Record new_pages s s' (R : gset Z) (E E' : gmap (Z * Z) (Z * Z)) (r lo : Z) (k : nat) (fl i : Z) (content : Z → gmap Z Z)
    : Prop := {
  np_rep : ∃ F', vm_rep s' R E' F';
  np_out : ∀ r' n, r' ≠ r ∨ n < lo ∨ lo + Z.of_nat k ≤ n → E' !! (r', n) = E !! (r', n);
  np_in : ∀ j, 0 ≤ j < Z.of_nat k → ∃ p, E' !! (r, lo + j) = Some (p, fl) ∧ count E' p = 1 ∧
    page_at s' p = content (i + j);
  np_count : ∀ key p fl, E !! key = Some (p, fl) → count E' p = count E p;
  np_keep : keeps_pages s s' E;
  np_avail : (fa_avail (frames (vmem s)) ≤ 4 * k + fa_avail (frames (vmem s')))%nat;
}.

Lemma new_pages_0 s R E F r lo fl i content : vm_rep s R E F → new_pages s s R E E r lo 0 fl i content.
Proof. intros Hs. split; try done; [by exists F|lia]. Qed.

(** One more page in front. *)
Lemma new_pages_S s s1 s2 R E F F1 E2 r n k f fl i content :
  E !! (r, n) = None → page_added s s1 R E F F1 r n f fl (content i) →
  new_pages s1 s2 R (<[(r, n) := (f * 4096, fl)]> E) E2 r (n + 1) k fl (i + 1) content →
  new_pages s s2 R E E2 r n (S k) fl i content.
Proof.
  intros H0 [Hs1 Hc0 Hcont Hkeep Ha] [Hrep Hout Hin Hcnt Hk2 Ha2]. set (E1 := <[(r, n) := _]> E) in *.
  assert (E1 !! (r, n) = Some (f * 4096, fl)) as Hf1 by apply lookup_insert_eq.
  assert (∀ key p fl', E !! key = Some (p, fl') → p ≠ f * 4096 ∧ E1 !! key = Some (p, fl')) as Hfresh.
  { intros key p fl' Hkey. split.
    - intros ->. by apply (proj1 (count_zero E (f * 4096)) Hc0 key fl').
    - unfold E1. rewrite lookup_insert_ne; [done|congruence]. }
  split; [done|..].
  - intros r' m Hm. rewrite Hout by lia. unfold E1. apply lookup_insert_ne. intros [=]; lia.
  - intros j Hj. destruct (decide (j = 0)) as [->|Hj0].
    + exists (f * 4096). rewrite !Z.add_0_r. rewrite Hout by lia. split; [done|]. split.
      * rewrite (Hcnt _ _ _ Hf1). unfold E1. rewrite count_new, decide_True by done. lia.
      * unfold page_at. rewrite (Hk2 _ _ _ Hf1). exact Hcont.
    + destruct (Hin (j - 1)) as (p & Hp & Hcp & Hpc); [lia|]. exists p.
      replace (n + 1 + (j - 1)) with (n + j) in Hp by lia. by replace (i + 1 + (j - 1)) with (i + j) in Hpc by lia.
  - intros key p fl' Hkey. destruct (Hfresh _ _ _ Hkey) as [Hne Hkey1]. rewrite (Hcnt key p fl') by done.
    unfold E1. rewrite count_new, decide_False by done. lia.
  - intros key p fl' Hkey. destruct (Hfresh _ _ _ Hkey) as [Hne Hkey1].
    rewrite (Hk2 key p fl') by done. by apply (Hkeep key p fl').
  - lia.
Qed.

Lemma page_step v : v mod 4096 = 0 → (v + 4096) / 4096 = v / 4096 + 1 ∧ (v + 4096) mod 4096 = 0.
Proof.
  intros Hv. replace (v + 4096) with (v + 1 * 4096) by lia. by rewrite Z.div_add, Z.mod_add.
Qed.

Lemma map_pages_ok fill content r base fl undo R :
  fills fill content → r ∈ R → flags_ok fl → Z.lor fl PRESENT = fl →
  ∀ k s E F i v, vm_rep s R E F → 0 ≤ v → v mod 4096 = 0 → v + Z.of_nat k * 4096 ≤ 2 ^ 47 →
  (∀ j, 0 ≤ j < Z.of_nat k → E !! (r, v / 4096 + j) = None) → (4 * k ≤ fa_avail (frames (vmem s)))%nat →
  ∃ s' E', map_pages r base fl fill undo k i v s = Some (s', true) ∧
    new_pages s s' R E E' r (v / 4096) k fl (Z.of_nat i) content.
Proof.
  intros Hfill Hr Hok Hpr. induction k as [|k IH]; intros s E F i v Hs Hv Hal Hmax Hnone Hav; cbn [map_pages].
  { exists s, E. split; [done|]. by eapply new_pages_0. }
  assert (E !! (r, v / 4096) = None) as H0 by (rewrite <- (Z.add_0_r (v / 4096)); apply Hnone; lia).
  destruct (new_page_cases fill content s R E F r v fl (Z.of_nat i) Hfill Hs Hr) as (s0 & [p|] & -> & Hcase);
    [unfold user; lia|done..| |destruct Hcase as (_ & _ & ?); lia].
  destruct Hcase as [[_ ?]|(s1 & f & F1 & -> & Hmap & Hadd)]; [lia|].
  cbn [mbind option_bind]. rewrite Hmap. cbn [mbind option_bind]. unfold PAGE. rewrite wadd_small by lia.
  destruct (page_step v Hal) as [Hdiv Hal']. pose proof (pa_avail _ _ _ _ _ _ _ _ _ _ _ Hadd).
  destruct (IH s1 _ F1 (S i) (v + 4096) (pa_rep _ _ _ _ _ _ _ _ _ _ _ Hadd)) as (s2 & E2 & Hrun & Hnp); [lia|done|lia| |lia|].
  { intros j Hj. rewrite lookup_insert_ne by (intros [=]; lia). rewrite Hdiv.
    replace (v / 4096 + 1 + j) with (v / 4096 + (j + 1)) by lia. apply Hnone. lia. }
  exists s2, E2. split; [exact Hrun|]. rewrite Hdiv in Hnp. replace (Z.of_nat (S i)) with (Z.of_nat i + 1) in Hnp by lia.
  by eapply new_pages_S.
Qed.

(** *** mmap *)
Lemma page_count len : 0 < len → len ≤ 2 ^ 47 →
  wsub 64 (wadd 64 len PAGE) 1 / PAGE = (len + 4095) / 4096 ∧
  0 < (len + 4095) / 4096 ∧ (len + 4095) / 4096 ≤ 2 ^ 35 ∧
  wmul 64 ((len + 4095) / 4096) PAGE = (len + 4095) / 4096 * 4096.
Proof.
  intros H0 H1. unfold PAGE. rewrite (wadd_small 64 len) by lia. rewrite wsub_small by lia.
  replace (len + 4096 - 1) with (len + 4095) by lia.
  pose proof (Z.div_mod (len + 4095) 4096 ltac:(lia)). pose proof (Z.mod_pos_bound (len + 4095) 4096 ltac:(lia)).
  split_and!; [done|lia|lia|]. unfold wmul. apply wrap_small. unfold in_range. lia.
Qed.

(** C15. [mmap] without [MAP_FIXED] and without a hint, at a place where
    nothing is mapped and with enough free frames: it returns the current
    base, moves the base behind the mapping and a guard page, and maps each
    page on a frame that nobody else has, with the protection asked for,
    holding zeros or the file's bytes (and zeros behind the end of the file);
    no other page changes, and the region list gets the new region. *)
Theorem mmap_fresh s R E F a len prot map_flags file_data :
  let base := mmap_base a in
  let pages := (len + 4095) / 4096 in
  vm_rep s R E F → pml4_phys a ∈ R → has map_flags MAP_FIXED = false →
  0 < len → 0 ≤ base → base mod 4096 = 0 → base + pages * 4096 ≤ 2 ^ 47 →
  (∀ j, 0 ≤ j < pages → E !! (pml4_phys a, base / 4096 + j) = None) →
  4 * pages ≤ Z.of_nat (fa_avail (frames (vmem s))) →
  ∃ s' a' E', mmap_full a None len prot map_flags file_data s = Some (s', a', Some base) ∧
    new_pages s s' R E E' (pml4_phys a) (base / 4096) (Z.to_nat pages) (prot_to_flags prot) 0 (file_content file_data) ∧
    mmap_base a' = base + pages * 4096 + 4096 ∧
    ∃ kind, regions a' = regions a ++ [mkVma base (base + pages * 4096) prot kind map_flags ""%string false].
Proof.
  intros base pages Hs Hr Hfix Hlen Hb Hal Hmax Hnone Hav.
  destruct (page_count len Hlen) as (Hpg & Hp0 & Hpm & Hml).
  { assert (len ≤ pages * 4096); [|lia]. unfold pages. pose proof (Z.div_mod (len + 4095) 4096 ltac:(lia)).
    pose proof (Z.mod_pos_bound (len + 4095) 4096 ltac:(lia)). lia. }
  unfold mmap_full, pick_addr. rewrite Hfix, Hpg, Hml. fold pages base. cbn zeta. cbn [mbind option_bind pml4_phys set_mmap_base].
  destruct (prot_flags_ok prot) as [Hok Hpr].
  destruct (map_pages_ok (fill_file file_data) (file_content file_data) (pml4_phys a) base (prot_to_flags prot)
    (unmap_release (pml4_phys a)) R (fills_file file_data) Hr Hok Hpr (Z.to_nat pages) s E F 0 base Hs Hb Hal)
    as (s' & E' & -> & Hnp); [lia|intros j Hj; apply Hnone; lia|lia|].
  cbn [mbind option_bind negb]. eexists s', _, E'. split; [done|]. split; [done|]. cbn [mmap_base set_regions set_mmap_base regions].
  unfold PAGE. rewrite (wadd_small 64 (pages * 4096) 4096), !wadd_small by lia. split; [lia|]. by eexists.
Qed.

(** *** Running out of memory *)
Lemma drop_pages_insert E r lo i x :
  0 ≤ i → drop_pages (<[(r, lo + i) := x]> E) r lo (i + 1) = drop_pages (delete (r, lo + i) E) r lo i.
Proof.
  intros Hi. apply map_eq. intros [r' m]. rewrite !lookup_drop_pages.
  destruct (decide ((r', m) = (r, lo + i))) as [Heq|Hne].
  - injection Heq as -> ->. rewrite lookup_delete_eq, decide_True by lia. by case_decide.
  - rewrite lookup_insert_ne, lookup_delete_ne by congruence.
    repeat case_decide; try done; [|lia]. exfalso. apply Hne. f_equal; [tauto|lia].
Qed.

Lemma keeps_pages_sub s s' E E' : keeps_pages s s' E → E' ⊆ E → keeps_pages s s' E'.
Proof. intros Hk Hsub k p fl Hp. apply (Hk k p fl). by eapply lookup_weaken. Qed.

Lemma drop_pages_sub E r lo n : drop_pages E r lo n ⊆ E.
Proof. apply map_filter_subseteq. Qed.

Lemma map_pages_undo fill content r base fl R :
  fills fill content → r ∈ R → flags_ok fl → Z.lor fl PRESENT = fl → 0 ≤ base → base mod 4096 = 0 →
  ∀ k s E F i s', vm_rep s R E F →
  base + (Z.of_nat i + Z.of_nat k) * 4096 ≤ 2 ^ 47 →
  (∀ j, 0 ≤ j < Z.of_nat k → E !! (r, base / 4096 + Z.of_nat i + j) = None) →
  map_pages r base fl fill (unmap_release r) k i (base + Z.of_nat i * 4096) s = Some (s', false) →
  let E0 := drop_pages E r (base / 4096) (Z.of_nat i) in
  (∃ F', vm_rep s' R E0 F') ∧ keeps_pages s s' E0.
Proof.
  intros Hfill Hr Hok Hpr Hb Hal. induction k as [|k IH]; intros s E F i s' Hs Hmax Hnone Hrun; cbn [map_pages] in Hrun; [done|].
  set (v := base + Z.of_nat i * 4096) in *.
  assert (v / 4096 = base / 4096 + Z.of_nat i) as Hv by (unfold v; rewrite Z.div_add; lia).
  assert (E !! (r, v / 4096) = None) as H0 by (rewrite Hv, <- (Z.add_0_r (_ + _)); apply Hnone; lia).
  destruct (new_page_cases fill content s R E F r v fl (Z.of_nat i) Hfill Hs Hr) as (s0 & [p|] & Ha & Hcase);
    [unfold user, v; lia|done..| |]; rewrite Ha in Hrun; cbn [mbind option_bind] in Hrun.
  - destruct Hcase as [[Hp _]|(s1 & f & F1 & -> & Hmap & Hadd)]; [by rewrite Hp in Hrun|].
    rewrite Hmap in Hrun. cbn [mbind option_bind] in Hrun. unfold PAGE in Hrun. rewrite wadd_small in Hrun by (unfold v; lia).
    replace (v + 4096) with (base + Z.of_nat (S i) * 4096) in Hrun by (unfold v; lia).
    destruct (IH s1 _ F1 (S i) s' (pa_rep _ _ _ _ _ _ _ _ _ _ _ Hadd)) as [Hrep Hk]; [lia| |done|].
    { intros j Hj. rewrite lookup_insert_ne by (intros [=]; lia).
      replace (base / 4096 + Z.of_nat (S i) + j) with (base / 4096 + Z.of_nat i + (j + 1)) by lia. apply Hnone. lia. }
    rewrite Hv in H0, Hrep, Hk. replace (Z.of_nat (S i)) with (Z.of_nat i + 1) in Hrep, Hk by lia.
    rewrite drop_pages_insert, delete_id in Hrep, Hk by (done || lia). split; [done|].
    intros key q fl' Hkey. rewrite (Hk key q fl' Hkey).
    apply (keeps_pages_sub _ _ _ _ (pa_keep _ _ _ _ _ _ _ _ _ _ _ Hadd) (drop_pages_sub _ _ _ _) key q fl' Hkey).
  - destruct Hcase as (Hs0 & Hram & _).
    destruct (unmap_pages_ok s0 R E F r base i Hs0 Hr Hb Hal) as (s1 & Hun & F' & Hs1 & _ & _ & Hk & _); [lia|].
    rewrite Hun in Hrun. cbn [mbind option_bind] in Hrun. simplify_eq. split; [by exists F'|].
    intros key q fl' Hkey. rewrite (Hk key q fl' Hkey). by rewrite Hram.
Qed.

(** [mmap] that runs out of frames takes back what it mapped: when it
    returns [ENOMEM] (no address), every page, its count and its content are
    as before, no frame is lost, and no region is added. *)
Theorem mmap_no_memory s R E F a len prot map_flags file_data s' a' :
  let base := mmap_base a in
  let pages := (len + 4095) / 4096 in
  vm_rep s R E F → pml4_phys a ∈ R → has map_flags MAP_FIXED = false →
  0 < len → 0 ≤ base → base mod 4096 = 0 → base + pages * 4096 ≤ 2 ^ 47 →
  (∀ j, 0 ≤ j < pages → E !! (pml4_phys a, base / 4096 + j) = None) →
  mmap_full a None len prot map_flags file_data s = Some (s', a', None) →
  (∃ F', vm_rep s' R E F') ∧ keeps_pages s s' E ∧ regions a' = regions a.
Proof.
  intros base pages Hs Hr Hfix Hlen Hb Hal Hmax Hnone Hrun.
  destruct (page_count len Hlen) as (Hpg & Hp0 & Hpm & Hml).
  { assert (len ≤ pages * 4096); [|lia]. unfold pages. pose proof (Z.div_mod (len + 4095) 4096 ltac:(lia)).
    pose proof (Z.mod_pos_bound (len + 4095) 4096 ltac:(lia)). lia. }
  unfold mmap_full, pick_addr in Hrun. rewrite Hfix, Hpg, Hml in Hrun. fold pages base in Hrun. cbn zeta in Hrun.
  cbn [mbind option_bind pml4_phys set_mmap_base] in Hrun. destruct (prot_flags_ok prot) as [Hok Hpr].
  destruct (map_pages _ _ _ _ _ _ _ _ _) as [[s1 ok]|] eqn:Hmp; cbn [mbind option_bind] in Hrun; [|done].
  destruct ok; cbn [negb] in Hrun; [done|]. injection Hrun as <- <-.
  destruct (map_pages_undo (fill_file file_data) (file_content file_data) (pml4_phys a) base (prot_to_flags prot) R
    (fills_file file_data) Hr Hok Hpr Hb Hal (Z.to_nat pages) s E F 0 s1 Hs) as [Hrep Hk];
    [lia|intros j Hj; cbn; rewrite Z.add_0_r; apply Hnone; lia|by rewrite Z.add_0_r|].
  cbn in Hrep, Hk. rewrite drop_pages_0 in Hrep, Hk. done.
Qed.

(** *** mprotect *)

(** The pages after [mprotect]. *)
Definition protected (r lo n fl : Z) (E E' : gmap (Z * Z) (Z * Z)) : Prop :=
  ∀ r' m, E' !! (r', m) =
    if decide (r' = r ∧ lo ≤ m < lo + n) then option_map (λ x, (x.1, fl)) (E !! (r', m)) else E !! (r', m).

Definition protect_entry (r n fl : Z) (E : gmap (Z * Z) (Z * Z)) : gmap (Z * Z) (Z * Z) :=
  match E !! (r, n) with Some (p, _) => <[(r, n) := (p, fl)]> E | None => E end.

Lemma protected_step r lo i fl E E1 :
  0 ≤ i → protected r lo i fl E E1 → protected r lo (i + 1) fl E (protect_entry r (lo + i) fl E1).
Proof.
  intros Hi HE r' m. unfold protect_entry.
  assert (E1 !! (r, lo + i) = E !! (r, lo + i)) as Hsame by (rewrite HE; case_decide; [lia|done]).
  rewrite Hsame. destruct (decide ((r', m) = (r, lo + i))) as [Heq|Hne].
  - injection Heq as -> ->. rewrite (decide_True (P := r = r ∧ _)) by lia.
    destruct (E !! (r, lo + i)) as [[p fl0]|] eqn:Hk; [by rewrite lookup_insert_eq|by rewrite Hsame].
  - assert ((if E !! (r, lo + i) is Some (p, _) then <[(r, lo + i) := (p, fl)]> E1 else E1) !! (r', m) = E1 !! (r', m)) as ->.
    { repeat case_match; [|done]. by rewrite lookup_insert_ne by congruence. }
    rewrite HE. repeat case_decide; try done; [lia|]. exfalso. apply Hne. f_equal; [tauto|lia].
Qed.

Lemma protect_page_ok s R E F r v prot :
  vm_rep s R E F → r ∈ R → user v →
  ∃ s' F', protect_page r (prot_to_flags prot) v s = Some s' ∧
    vm_rep s' R (protect_entry r (v / 4096) (prot_to_flags prot) E) F' ∧ F' ⊆ F ∧ keeps_pages s s' E.
Proof.
  intros [Hm Href] Hr Hv. unfold protect_page, protect_entry.
  pose proof (translate_rep _ _ _ _ r v Hm Hr Hv) as Ht. destruct (E !! (r, v / 4096)) as [[p fl0]|] eqn:Hp.
  2: { rewrite Ht. exists s, F. done. }
  destruct Ht as (q & -> & Hq). rewrite Hq. destruct (mr_frame _ _ _ _ Hm _ _ _ Hp) as (g & -> & Hg & HgF & Hgt).
  destruct (prot_flags_ok prot) as [Hok Hpr].
  destruct (vm_map_ok s R E F r v g (prot_to_flags prot) Hm Hr Hv Hok Hpr Hg HgF Hgt)
    as (s2 & F2 & -> & Hm2 & HF2 & Hrc & _ & Hd & _); [right; by eexists|].
  exists s2, F2. split_and!; [done|split; [done|]|done|by apply (vm_map_keeps s s2 R E F)].
  intros h Hh. unfold rc. rewrite Hrc, (count_same _ _ _ _ _ _ Hp). by apply Href.
Qed.

Lemma mprotect_ok s R E F a addr len prot :
  vm_rep s R E F → pml4_phys a ∈ R → 0 ≤ addr → addr mod 4096 = 0 → 0 < len → addr + len ≤ 2 ^ 47 →
  ∃ s' a' E' F', mprotect a addr len prot s = Some (s', a') ∧ vm_rep s' R E' F' ∧ F' ⊆ F ∧
    protected (pml4_phys a) (addr / 4096) ((len + 4095) / 4096) (prot_to_flags prot) E E' ∧ keeps_pages s s' E.
Proof.
  intros Hs Hr Ha Hal Hlen Hmax. destruct (page_count len Hlen ltac:(lia)) as (Hpg & Hp0 & Hpm & _).
  unfold mprotect. rewrite Hpg. set (pages := (len + 4095) / 4096) in *. cbn zeta.
  assert (addr + pages * 4096 ≤ 2 ^ 47) as Hend.
  { pose proof (Z.div_mod addr 4096 ltac:(lia)) as Hd. rewrite Hal in Hd.
    pose proof (Z.div_mod (len + 4095) 4096 ltac:(lia)) as Hd2. pose proof (Z.mod_pos_bound (len + 4095) 4096 ltac:(lia)).
    fold pages in Hd2. lia. }
  destruct (for_pages_inv (λ i s', ∃ E' F', vm_rep s' R E' F' ∧ F' ⊆ F ∧
    protected (pml4_phys a) (addr / 4096) (Z.of_nat i) (prot_to_flags prot) E E' ∧ keeps_pages s s' E)
    (protect_page (pml4_phys a) (prot_to_flags prot)) (Z.to_nat pages) addr s)
    as (s' & Hrun & E' & F' & Hs' & HF & HE & Hk); [lia|lia|..].
  - exists E, F. split_and!; try done. intros r' m. case_decide; [lia|done].
  - intros i s1 Hi (E1 & F1 & Hs1 & HF1 & HE1 & Hk1). set (v := addr + Z.of_nat i * 4096).
    assert (v / 4096 = addr / 4096 + Z.of_nat i) as Hv by (unfold v; rewrite Z.div_add; lia).
    destruct (protect_page_ok s1 R E1 F1 (pml4_phys a) v prot Hs1 Hr) as (s2 & F2 & -> & Hs2 & HF2 & Hk2); [unfold user, v; lia|].
    exists s2. split; [done|]. eexists _, F2. split_and!; [exact Hs2|by etrans|..].
    + rewrite Hv. replace (Z.of_nat (S i)) with (Z.of_nat i + 1) by lia. apply protected_step; [lia|done].
    + apply (keeps_pages_trans s s1 s2 E E1 Hk1 Hk2). intros [r' m] p fl Hkey. exists (r', m).
      rewrite HE1, Hkey. case_decide; cbn; by eauto.
  - rewrite Hrun. cbn [mbind option_bind]. rewrite Z2Nat.id in HE by lia. by eexists _, _, E', F'.
Qed.

(** [mprotect] ignores copy-on-write: making a range writable maps its
    pages writable on the frames they have, also when those are shared since
    a fork.  If another address space maps one of the frames, both see what
    this one writes, without a fault. *)
Theorem mprotect_shares_writes s R E F a addr len r' v p fl fl' :
  vm_rep s R E F → pml4_phys a ∈ R → r' ∈ R → r' ≠ pml4_phys a → 0 ≤ addr → addr mod 4096 = 0 → addr + len ≤ 2 ^ 47 →
  addr ≤ v < addr + len → mapping (vmem s) (pml4_phys a) v = Some (p, fl) → mapping (vmem s) r' v = Some (p, fl') →
  ∃ s' a' fl2, mprotect a addr len (Z.lor PROT_READ PROT_WRITE) s = Some (s', a') ∧
    mapping (vmem s') (pml4_phys a) v = Some (p, fl2) ∧ has fl2 WRITABLE = true ∧ has fl2 COW = false ∧
    mapping (vmem s') r' v = Some (p, fl').
Proof.
  intros Hs Hr Hr' Hne Ha Hal Hmax Hv Hmv Hmv'.
  destruct (mprotect_ok s R E F a addr len (Z.lor PROT_READ PROT_WRITE) Hs Hr Ha Hal) as (s' & a' & E' & F' & Hrun & Hs' & _ & HE & _); [lia|lia|].
  assert (user v) as Huv by (unfold user; lia).
  rewrite (mr_map _ _ _ _ (vr_mem _ _ _ _ Hs)) in Hmv, Hmv' by done.
  eexists s', a', _. split; [done|]. rewrite !(mr_map _ _ _ _ (vr_mem _ _ _ _ Hs')) by done.
  rewrite !HE. rewrite decide_True.
  - rewrite decide_False by tauto. rewrite Hmv. cbn [option_map fst]. split; [done|]. done.
  - split; [done|]. split; [apply Z.div_le_mono; lia|].
    rewrite <- Z.div_add_l by lia. pose proof (Z.div_mod addr 4096 ltac:(lia)) as Hd. rewrite Hal in Hd.
    replace (addr / 4096 * 4096) with addr by lia.
    pose proof (Z.div_mod v 4096 ltac:(lia)). pose proof (Z.mod_pos_bound v 4096 ltac:(lia)).
    pose proof (Z.div_mod (addr + (len + 4095)) 4096 ltac:(lia)). pose proof (Z.mod_pos_bound (addr + (len + 4095)) 4096 ltac:(lia)).
    lia.
Qed.

(** Kernel pages are not protected from [mprotect]: neither [sys_mprotect]
    nor [mprotect] checks that the range is in the user half, so a process can
    make a mapped kernel page accessible and writable for user mode in the
    last level of the shared kernel tables. *)
Theorem mprotect_kernel_page s R F a v p fl :
  pt_inv (vmem s) R F → pml4_phys a ∈ R → 0xFFFF800000000000 ≤ v → v + 4096 < 2 ^ 64 →
  mapping (vmem s) (pml4_phys a) v = Some (p, fl) →
  ∃ s' a' fl', sys_mprotect a v 4096 3 s = Some (s', a', 0) ∧
    mapping (vmem s') (pml4_phys a) v = Some (p, fl') ∧ has fl' USER = true ∧ has fl' WRITABLE = true.
Proof.
  intros Hi Hr Hlo Hhi Hmap. unfold sys_mprotect, mprotect. change (prot_of 3) with 3.
  change (Z.to_nat (wsub 64 (wadd 64 4096 PAGE) 1 / PAGE)) with 1%nat. cbn [for_pages]. unfold protect_page.
  pose proof (translate_frame (vmem s) (pml4_phys a) v) as Ht. rewrite Hmap in Ht. destruct Ht as (q & -> & ->).
  destruct (mapping_walk _ _ _ _ Hmap) as [t Hw]. unfold vm_map.
  destruct (map_page_mapped (vmem s) R F (pml4_phys a) v p (prot_to_flags 3) Hi Hr) as [[Hno _]|(m' & F' & Hm & Hmp)];
    [apply prot_flags_ok|by rewrite (map_page_present _ _ _ _ _ _ Hw) in Hno|].
  rewrite Hm. cbn [mbind option_bind]. eexists _, _, _. split; [done|]. cbn [vmem set_mem].
  rewrite (mp_own _ _ _ _ _ _ _ _ _ Hmp), decide_True by done.
  assert (Z.land p FRAME_MASK = p) as ->.
  { unfold mapping in Hmap. rewrite Hw in Hmap. cbn [mbind option_bind] in Hmap. case_match; simplify_eq.
    unfold entry_frame. by rewrite <- Z.land_assoc, Z.land_diag. }
  done.
Qed.
End Map.

(** [mremap] cannot be reached: the entry of the system call table passes
    zeros for all arguments but the first, which [sys_mremap] refuses. *)
Theorem mremap_entry_refuses {A} `{FrameAlloc A} (s : Vm A) a arg :
  mremap_entry a arg s = Some (s, a, VM_EINVAL).
Proof. done. Qed.

(** ** Concrete runs *)
Lemma demo_base_free j : demo_pages !! (pml4_phys demo_as, mmap_base demo_as / 4096 + j) = None ∨ j < 0.
Proof.
  destruct (Z.lt_ge_cases j 0); [by right|left]. unfold demo_pages. apply lookup_singleton_ne.
  change (mmap_base demo_as / 4096) with 0x600. intros [=]. lia.
Qed.

Lemma mmap_fresh_witness :
  ∃ s' a' E', mmap_full demo_as None 5000 3 MAP_PRIVATE (Some [1; 2; 3]) demo_vm = Some (s', a', Some 0x600000) ∧
    new_pages demo_vm s' {[demo_root]} demo_pages E' demo_root 0x600 2 (prot_to_flags 3) 0 (file_content (Some [1; 2; 3])).
Proof.
  destruct demo_vm_rep as [F HF].
  destruct (mmap_fresh demo_vm {[demo_root]} demo_pages F demo_as 5000 3 MAP_PRIVATE (Some [1; 2; 3]) HF)
    as (s' & a' & E' & H1 & H2 & _);
    [by apply elem_of_singleton|reflexivity|lia|vm_compute; congruence|reflexivity|vm_compute; congruence| |vm_compute; congruence|].
  { intros j Hj. destruct (demo_base_free j); [done|lia]. }
  exists s', a', E'. split; [exact H1|exact H2].
Defined.

Lemma mmap_no_memory_witness :
  ∃ s' a', mmap_full demo_as None 0xC000 3 MAP_PRIVATE None demo_vm = Some (s', a', None) ∧
    (∃ F', vm_rep s' {[demo_root]} demo_pages F') ∧ regions a' = regions demo_as.
Proof.
  destruct demo_vm_rep as [F HF].
  assert (∃ s' a', mmap_full demo_as None 0xC000 3 MAP_PRIVATE None demo_vm = Some (s', a', None)) as (s' & a' & Hrun)
    by (eexists _, _; vm_compute; reflexivity).
  exists s', a'. split; [exact Hrun|].
  destruct (mmap_no_memory demo_vm {[demo_root]} demo_pages F demo_as 0xC000 3 MAP_PRIVATE None s' a' HF)
    as (H1 & _ & H2);
    [by apply elem_of_singleton|reflexivity|lia|vm_compute; congruence|reflexivity|vm_compute; congruence| |exact Hrun|].
  { intros j Hj. destruct (demo_base_free j); [done|lia]. }
  split; [exact H1|exact H2].
Defined.

Lemma mprotect_shares_writes_witness :
  ∃ s1 a1 c s2 a2 fl2, copy_on_fork demo_as demo_vm = Some (s1, a1, Some c) ∧
    mprotect c 0x400000 4096 3 s1 = Some (s2, a2) ∧
    mapping (vmem s2) (pml4_phys c) 0x400000 = Some (100 * 4096, fl2) ∧ has fl2 WRITABLE = true ∧
    mapping (vmem s2) demo_root 0x400000 = Some (100 * 4096, ro_flags demo_region).
Proof.
  destruct demo_vm_rep as [F HF].
  destruct (fork_ok demo_vm {[demo_root]} demo_pages F demo_as HF) as (s1 & a1 & c & E1 & F1 & Hf & Hc & Hs1 & HE1 & _);
    [by apply elem_of_singleton|by apply elem_of_singleton|apply demo_regions_ok|apply demo_count|vm_compute; lia|].
  assert (demo_root ≠ pml4_phys c) as Hne by (intros Heq; apply Hc; rewrite <- Heq; by apply elem_of_singleton).
  assert (demo_root ∈ ({[demo_root]} ∪ {[pml4_phys c]} : gset Z)) as Hr1 by (by apply elem_of_union_l, elem_of_singleton).
  assert (pml4_phys c ∈ ({[demo_root]} ∪ {[pml4_phys c]} : gset Z)) as Hr2 by (by apply elem_of_union_r, elem_of_singleton).
  assert (user 0x400000) as Hu by (by split).
  assert (mapping (vmem s1) (pml4_phys c) 0x400000 = Some (100 * 4096, ro_flags demo_region)) as M1.
  { rewrite (mr_map _ _ _ _ (vr_mem _ _ _ _ Hs1)), HE1, decide_True by done. reflexivity. }
  assert (mapping (vmem s1) demo_root 0x400000 = Some (100 * 4096, ro_flags demo_region)) as M2.
  { rewrite (mr_map _ _ _ _ (vr_mem _ _ _ _ Hs1)), HE1, decide_False, decide_True by done. reflexivity. }
  destruct (mprotect_shares_writes s1 _ E1 F1 c 0x400000 4096 demo_root 0x400000 (100 * 4096) (ro_flags demo_region)
    (ro_flags demo_region) Hs1 Hr2 Hr1 Hne) as (s2 & a2 & fl2 & H1 & H2 & H3 & _ & H4);
    [lia|reflexivity|lia|lia|exact M1|exact M2|].
  exists s1, a1, c, s2, a2, fl2. split; [exact Hf|]. split; [exact H1|]. split; [exact H2|]. split; [exact H3|exact H4].
Defined.

(** The root of the demonstration machine with a kernel page at frame 200. *)
Definition demo_kernel : Vm (list Z) :=
  default demo_vm (vm_map demo_root 0xFFFF800000000000 (200 * 4096) (Z.lor PRESENT WRITABLE) demo_vm).

Lemma mprotect_kernel_page_witness :
  ∃ s' a' fl', sys_mprotect demo_as 0xFFFF800000000000 4096 3 demo_kernel = Some (s', a', 0) ∧
    mapping (vmem s') demo_root 0xFFFF800000000000 = Some (200 * 4096, fl') ∧ has fl' USER = true.
Proof.
  destruct demo_vm_rep as [F [Hm _]].
  destruct (map_page_mapped (vmem demo_vm) {[demo_root]} F demo_root 0xFFFF800000000000 (200 * 4096) (Z.lor PRESENT WRITABLE)
    (mr_inv _ _ _ _ Hm)) as [[_ Hno]|(m' & F' & Hmap & Hmp)]; [by apply elem_of_singleton|reflexivity|vm_compute in Hno; lia|].
  assert (demo_kernel = set_mem m' demo_vm) as Hk by (unfold demo_kernel, vm_map; rewrite Hmap; reflexivity).
  rewrite Hk.
  destruct (mprotect_kernel_page (set_mem m' demo_vm) {[demo_root]} F' demo_as 0xFFFF800000000000 (200 * 4096) (Z.lor PRESENT WRITABLE))
    as (s' & a' & fl' & H1 & H2 & H3 & _);
    [apply Hmp|by apply elem_of_singleton|lia|lia| |].
  { cbn [vmem set_mem pml4_phys demo_as]. rewrite (mp_own _ _ _ _ _ _ _ _ _ Hmp), decide_True by done. reflexivity. }
  exists s', a', fl'. split; [exact H1|]. split; [exact H2|exact H3].
Defined.
