(* ===== verification/VmmIface.v ===== *)
(** * The kernel's own frame allocator behind paging

    Instance of [FrameAlloc] (Paging.v) for the physical allocator of
    Phys.v on a given processor, so that the theorems on page tables and
    address spaces hold of the two together.  The allocations that are
    certain to succeed are those of the frames in the processor's magazine
    and in the buddy allocator; frames in the magazines of other processors
    do not count. *)
From S2P Require Import Prelude Phys Paging.

Definition phys_avail (cpu : Z) (s : Phys) : nat :=
  (length (mag s (cpu_slot cpu)) + Z.to_nat (free_frames (buddy s)))%nat.

(** The frames a processor can get, as a set. *)
Lemma phys_local cpu s F :
  phys_rep s F →
  ∃ L : gset Z, size L = phys_avail cpu s ∧
    ∀ f, f ∈ L ↔ f ∈ F ∧ ∀ k, k ≠ cpu_slot cpu → f * PAGE_SIZE ∉ mag s k.
Proof.
  intros [(B & Hb & Hp) _]. set (c := cpu_slot cpu).
  set (L := list_to_set ((λ p, p / PAGE_SIZE) <$> mag s c) : gset Z). exists (B ∪ L).
  assert (∀ f, f ∈ L ↔ f * PAGE_SIZE ∈ mag s c) as HL.
  { intros f. unfold L. rewrite elem_of_list_to_set, list_elem_of_fmap. split.
    - intros (p & -> & Hin). destruct (pt_frame _ _ _ Hp c p Hin) as (g & -> & _). by rewrite Z.div_mul.
    - intros Hin. exists (f * PAGE_SIZE). by rewrite Z.div_mul. }
  split.
  - rewrite size_union.
    + destruct Hb as [_ Hc]. unfold phys_avail. rewrite Hc, Nat2Z.id. unfold L. rewrite size_list_to_set.
      * rewrite length_fmap. fold c. lia.
      * apply NoDup_fmap_2_strong; [|apply (pt_nodup _ _ _ Hp c)].
        intros x y Hx Hy Heq. destruct (pt_frame _ _ _ Hp c x Hx) as (f & -> & _), (pt_frame _ _ _ Hp c y Hy) as (g & -> & _).
        rewrite !Z.div_mul in Heq by done. by subst.
    + intros f HfB HfL. apply HL in HfL. destruct (pt_frame _ _ _ Hp c _ HfL) as (g & ->%page_inj & _ & ?). done.
  - intros f. rewrite elem_of_union, HL, (pt_all _ _ _ Hp f). split.
    + intros [HfB|Hfc]; (split; [by eauto|]); intros k Hk Hin.
      * destruct (pt_frame _ _ _ Hp k _ Hin) as (g & ->%page_inj & _ & ?). done.
      * by apply Hk, (pt_owner _ _ _ Hp k c (f * PAGE_SIZE)).
    + intros [[?|[k Hk]] Hno]; [by left|]. destruct (decide (k = c)) as [->|Hne]; [by right|]. by destruct (Hno k Hne).
Qed.

Lemma alloc_frame_others cpu s s' r k :
  alloc_frame cpu s = Some (s', r) → k ≠ cpu_slot cpu → mag s' k = mag s k.
Proof.
  unfold alloc_frame. intros E Hk. repeat case_match; simplify_eq; unfold mag; cbn; by rewrite lookup_insert_ne.
Qed.

(** Paging and address spaces run on the kernel's own allocator: the
    allocator of Phys.v, on any processor, is one that page tables can use. *)
#[export] Program Instance phys_frames (cpu : Z) : FrameAlloc Phys := {
  fa_alloc := alloc_frame cpu;
  fa_free := free_frame cpu;
  fa_rep := phys_rep;
  fa_avail := phys_avail cpu;
}.
Next Obligation. intros cpu s F f [(B & _ & Hp) _] Hf. exact (parts_below _ _ _ _ Hp Hf). Qed.
Next Obligation.
  intros cpu s F Hs. destruct (alloc_frame_spec cpu s F Hs) as (s' & r & Ha & Hr). exists s', r. split; [done|].
  destruct (phys_local cpu s F Hs) as (L & <- & HL). destruct r as [p|].
  - destruct Hr as (f & -> & Hf & Hs'). exists f. split_and!; [done|done|done|].
    destruct (phys_local cpu s' _ Hs') as (L' & <- & HL').
    assert (L ⊆ {[f]} ∪ L') as Hsub.
    { intros g [Hg Hno]%HL. destruct (decide (g = f)) as [->|Hne]; [by apply elem_of_union_l, elem_of_singleton|].
      apply elem_of_union_r, HL'. split; [apply elem_of_difference; by rewrite elem_of_singleton|].
      intros k Hk. rewrite (alloc_frame_others _ _ _ _ _ Ha Hk). by apply Hno. }
    apply subseteq_size in Hsub. rewrite size_union_alt, size_singleton in Hsub.
    pose proof (subseteq_size (L' ∖ {[f]}) L' ltac:(set_solver)). lia.
  - destruct Hr as (Hs' & _ & Hall). split; [done|]. apply size_empty_iff. intros g. split; [|set_solver].
    intros [Hg Hno]%HL. destruct (Hall g Hg) as (k & Hk & Hin). by destruct (Hno k Hk).
Qed.
Next Obligation. intros cpu s F f Hs Hf Hno. by apply free_frame_spec. Qed.
