(* ===== verification/Inet.v ===== *)
(** * Internet headers, checksums and routes

    Models the pure part of kernel/src/net/ip/mod.rs ([IpHeader],
    [ip_checksum], [icmp_checksum], [route_lookup]), the headers of
    kernel/src/net/udp/mod.rs and kernel/src/net/tcp/mod.rs and the checksum
    of the latter.  A packet is a list of bytes.  A header is a record of its
    fields as they lie in memory, on a little-endian machine: a field [v] of
    [n] bytes occupies [le_bytes n v], and [to_be], [from_be] reverse bytes. *)
From S2P Require Import Prelude.

Definition packet := list Z.

(** [v.to_be()] and [from_be(v)] of an integer of [n] bytes. *)
Definition to_be (n : nat) (v : Z) : Z := le_value (rev (le_bytes n v)).

(** A field of [n] bytes at offset [off] of a packed struct. *)
Definition field (bs : packet) (off n : nat) : Z := le_value (take n (drop off bs)).

(** ** IP *)
Definition PROTO_ICMP : Z := 1.
Definition PROTO_TCP : Z := 6.
Definition PROTO_UDP : Z := 17.

Record IpHeader := mkIp {
  version_ihl : Z;
  dscp_ecn : Z;
  total_len : Z;
  ip_id : Z;
  frag_off : Z;
  ttl : Z;
  protocol : Z;
  ip_csum : Z;
  ip_src : Z;
  ip_dst : Z;
}.

Definition ip_bytes (h : IpHeader) : packet :=
  le_bytes 1 (version_ihl h) ++ le_bytes 1 (dscp_ecn h) ++ le_bytes 2 (total_len h) ++
  le_bytes 2 (ip_id h) ++ le_bytes 2 (frag_off h) ++ le_bytes 1 (ttl h) ++ le_bytes 1 (protocol h) ++
  le_bytes 2 (ip_csum h) ++ le_bytes 4 (ip_src h) ++ le_bytes 4 (ip_dst h).

Definition ip_cast (bs : packet) : IpHeader :=
  mkIp (field bs 0 1) (field bs 1 1) (field bs 2 2) (field bs 4 2) (field bs 6 2) (field bs 8 1)
    (field bs 9 1) (field bs 10 2) (field bs 12 4) (field bs 16 4).

Definition version (h : IpHeader) : Z := Z.shiftr (version_ihl h) 4.
(** The product is of type u8. *)
Definition ihl (h : IpHeader) : Z := wmul 8 (Z.land (version_ihl h) 15) 4.

(** ** Checksums

    The loop [while sum >> 16 != 0]; three rounds are enough for 32 bits. *)
Definition fold_round (s : Z) : Z + Z :=
  if Z.shiftr s 16 =? 0 then inr s else inl (wadd 32 (Z.land s 65535) (Z.shiftr s 16)).
Definition fold_carry (s : Z) : Z :=
  match loop_nat fold_round 3 s with inr r => r | inl s => s end.

(** [!(sum as u16)]. *)
Definition complement (s : Z) : Z := wnot 16 (wrap 16 s).

(** The [n] 16-bit words of a header in memory, in network order. *)
Fixpoint words_be (n : nat) (bs : packet) : list Z :=
  match n with
  | O => []
  | S n => to_be 2 (field bs 0 2) :: words_be n (drop 2 bs)
  end.

Definition ip_checksum (h : IpHeader) : Z :=
  complement (fold_carry (fold_left (wadd 32) (words_be 10 (ip_bytes h)) 0)).

(** [u16::from_be_bytes([a, b])] *)
Definition be16 (a b : Z) : Z := a * 256 + b.

(** The loop over pairs of bytes, with the odd byte at the end. *)
Fixpoint sum_pairs (data : packet) (s : Z) : Z :=
  match data with
  | a :: b :: data => sum_pairs data (wadd 32 s (be16 a b))
  | [a] => wadd 32 s (Z.shiftl a 8)
  | [] => s
  end.

Definition icmp_checksum (data : packet) : Z := complement (fold_carry (sum_pairs data 0)).

Definition ip_new (src dst proto payload_len : Z) : IpHeader :=
  let total := wadd 16 payload_len 20 in
  let h := mkIp 69 0 (to_be 2 total) 0 0 64 proto 0 (to_be 4 src) (to_be 4 dst) in
  mkIp 69 0 (to_be 2 total) 0 0 64 proto (ip_checksum h) (to_be 4 src) (to_be 4 dst).

(** ** Routes *)
Record Route := mkRoute { network : Z; netmask : Z; route_gw : Z; iface : Z }.

(** The loop of [route_lookup]. *)
Definition better_route (dst : Z) (best : option (Z * Z)) (r : Route) : option (Z * Z) :=
  if Z.land dst (netmask r) =? network r then
    match best with
    | None => Some (netmask r, route_gw r)
    | Some (m, _) => if m <? netmask r then Some (netmask r, route_gw r) else best
    end
  else best.

Definition route_in (routes : list Route) (gateway dst : Z) : option Z :=
  match snd <$> fold_left (better_route dst) routes None with
  | Some gw => Some gw
  | None => Some gateway
  end.

(** ** UDP *)
Record UdpHeader := mkUdp { u_src : Z; u_dst : Z; u_len : Z; u_csum : Z }.

Definition udp_bytes (h : UdpHeader) : packet :=
  le_bytes 2 (u_src h) ++ le_bytes 2 (u_dst h) ++ le_bytes 2 (u_len h) ++ le_bytes 2 (u_csum h).
Definition udp_cast (bs : packet) : UdpHeader :=
  mkUdp (field bs 0 2) (field bs 2 2) (field bs 4 2) (field bs 6 2).

(** ** TCP *)
Definition TCP_FIN : Z := 1.
Definition TCP_SYN : Z := 2.
Definition TCP_RST : Z := 4.
Definition TCP_PSH : Z := 8.
Definition TCP_ACK : Z := 16.
Definition TCP_MSS : nat := 1460.
Definition TCP_WINDOW : Z := 65535.

Record TcpHeader := mkTcp {
  t_src : Z;
  t_dst : Z;
  t_seq : Z;
  t_ack : Z;
  data_offset_flags : Z;
  t_window : Z;
  t_csum : Z;
  t_urgent : Z;
}.

Definition tcp_bytes (h : TcpHeader) : packet :=
  le_bytes 2 (t_src h) ++ le_bytes 2 (t_dst h) ++ le_bytes 4 (t_seq h) ++ le_bytes 4 (t_ack h) ++
  le_bytes 2 (data_offset_flags h) ++ le_bytes 2 (t_window h) ++ le_bytes 2 (t_csum h) ++ le_bytes 2 (t_urgent h).
Definition tcp_cast (bs : packet) : TcpHeader :=
  mkTcp (field bs 0 2) (field bs 2 2) (field bs 4 4) (field bs 8 4) (field bs 12 2) (field bs 14 2)
    (field bs 16 2) (field bs 18 2).

Definition data_offset (h : TcpHeader) : Z := Z.land (Z.shiftr (to_be 2 (data_offset_flags h)) 12) 15 * 4.
Definition flags (h : TcpHeader) : Z := Z.land (to_be 2 (data_offset_flags h)) 511.
Definition has (h : TcpHeader) (f : Z) : bool := negb (Z.land (flags h) f =? 0).
Definition tcp_new (sp dp seq ack fl wnd : Z) : TcpHeader :=
  mkTcp (to_be 2 sp) (to_be 2 dp) (to_be 4 seq) (to_be 4 ack) (to_be 2 (Z.lor (Z.shiftl 5 12) fl))
    (to_be 2 wnd) 0 0.

Definition tcp_checksum (src dst : Z) (seg : packet) : Z :=
  let s := 0 in
  let s := wadd 32 s (Z.land (Z.shiftr src 16) 65535) in let s := wadd 32 s (Z.land src 65535) in
  let s := wadd 32 s (Z.land (Z.shiftr dst 16) 65535) in let s := wadd 32 s (Z.land dst 65535) in
  let s := wadd 32 s 6 in let s := wadd 32 s (wrap 32 (Z.of_nat (length seg))) in
  complement (fold_carry (sum_pairs seg s)).

(** ** Layout *)
Lemma le_bytes_to_be n v : le_bytes n (to_be n v) = rev (le_bytes n v).
Proof.
  unfold to_be. rewrite <- (length_le_bytes n v) at 1. rewrite <- length_rev.
  apply le_bytes_value. apply Forall_rev, le_bytes_u8.
Qed.

Lemma to_be_range n v : in_range (8 * Z.of_nat n) (to_be n v).
Proof.
  unfold to_be. rewrite <- (length_le_bytes n v) at 1. rewrite <- length_rev.
  rewrite <- (le_bytes_value (rev (le_bytes n v))) at 2 by apply Forall_rev, le_bytes_u8.
  rewrite le_value_bytes. apply wrap_range. lia.
Qed.

Lemma to_be_invol n v : in_range (8 * Z.of_nat n) v → to_be n (to_be n v) = v.
Proof.
  intros Hv. unfold to_be at 1. rewrite le_bytes_to_be, rev_involutive, le_value_bytes. by apply wrap_small.
Qed.

Lemma to_be_16_range v : is_u16 (to_be 2 v).
Proof. apply (to_be_range 2). Qed.
Lemma to_be_32_range v : is_u32 (to_be 4 v).
Proof. apply (to_be_range 4). Qed.
#[export] Hint Resolve to_be_16_range to_be_32_range : words.
Lemma to_be_16 v : is_u16 v → to_be 2 (to_be 2 v) = v.
Proof. apply (to_be_invol 2). Qed.
Lemma to_be_32 v : is_u32 v → to_be 4 (to_be 4 v) = v.
Proof. apply (to_be_invol 4). Qed.

Lemma field_app n v rest k : k = n → in_range (8 * Z.of_nat n) v → field (le_bytes n v ++ rest) 0 k = v.
Proof.
  intros -> Hv. unfold field. rewrite drop_0, take_app_length' by (by rewrite length_le_bytes).
  rewrite le_value_bytes. by apply wrap_small.
Qed.

Lemma field_skip n v rest off k :
  (n ≤ off)%nat → field (le_bytes n v ++ rest) off k = field rest (off - n) k.
Proof. intros. unfold field. by rewrite drop_app_ge, length_le_bytes by (rewrite length_le_bytes; lia). Qed.

(** Reads a field out of a header written field by field. *)
Ltac solve_field :=
  rewrite <- ?app_assoc; repeat (rewrite field_skip by lia; cbn [Nat.sub]);
  apply field_app; [done|]; unfold in_range in *; cbn [Z.of_nat Pos.of_succ_nat Pos.succ Z.mul Pos.mul Pos.add] in *; lia.

Definition ip_wf (h : IpHeader) : Prop :=
  is_u8 (version_ihl h) ∧ is_u8 (dscp_ecn h) ∧ is_u16 (total_len h) ∧ is_u16 (ip_id h) ∧ is_u16 (frag_off h) ∧
  is_u8 (ttl h) ∧ is_u8 (protocol h) ∧ is_u16 (ip_csum h) ∧ is_u32 (ip_src h) ∧ is_u32 (ip_dst h).

Lemma length_ip_bytes h : length (ip_bytes h) = 20%nat.
Proof. done. Qed.

Lemma ip_cast_bytes h rest : ip_wf h → ip_cast (ip_bytes h ++ rest) = h.
Proof.
  destruct h. unfold ip_wf. cbn [version_ihl dscp_ecn total_len ip_id frag_off ttl protocol ip_csum ip_src ip_dst].
  intros (? & ? & ? & ? & ? & ? & ? & ? & ? & ?). unfold ip_cast, ip_bytes.
  cbn [version_ihl dscp_ecn total_len ip_id frag_off ttl protocol ip_csum ip_src ip_dst].
  f_equal; solve_field.
Qed.

Definition udp_wf (h : UdpHeader) : Prop := is_u16 (u_src h) ∧ is_u16 (u_dst h) ∧ is_u16 (u_len h) ∧ is_u16 (u_csum h).

Lemma udp_cast_bytes h rest : udp_wf h → udp_cast (udp_bytes h ++ rest) = h.
Proof.
  destruct h. unfold udp_wf. cbn [u_src u_dst u_len u_csum]. intros (? & ? & ? & ?).
  unfold udp_cast, udp_bytes. cbn [u_src u_dst u_len u_csum]. f_equal; solve_field.
Qed.

Definition tcp_wf (h : TcpHeader) : Prop :=
  is_u16 (t_src h) ∧ is_u16 (t_dst h) ∧ is_u32 (t_seq h) ∧ is_u32 (t_ack h) ∧ is_u16 (data_offset_flags h) ∧
  is_u16 (t_window h) ∧ is_u16 (t_csum h) ∧ is_u16 (t_urgent h).

Lemma tcp_cast_bytes h rest : tcp_wf h → tcp_cast (tcp_bytes h ++ rest) = h.
Proof.
  destruct h. unfold tcp_wf. cbn [t_src t_dst t_seq t_ack data_offset_flags t_window t_csum t_urgent].
  intros (? & ? & ? & ? & ? & ? & ? & ?). unfold tcp_cast, tcp_bytes.
  cbn [t_src t_dst t_seq t_ack data_offset_flags t_window t_csum t_urgent]. f_equal; solve_field.
Qed.

(** ** One's complement sums *)
Lemma fold_round_spec s :
  is_u32 s →
  fold_round s = if s <? 65536 then inr s else inl (s mod 65536 + s / 65536).
Proof.
  unfold in_range. intros Hs. unfold fold_round. rewrite Z.shiftr_div_pow2 by done.
  change 65535 with (Z.ones 16). rewrite Z.land_ones by done. change (2 ^ 16) with 65536.
  pose proof (Z.mod_pos_bound s 65536 eq_refl).
  assert (0 ≤ s / 65536 < 65536) by (split; [apply Z.div_pos; lia|apply Z.div_lt_upper_bound; lia]).
  rewrite wadd_small by lia.
  destruct (Z.ltb_spec s 65536).
  - by rewrite Z.div_small by lia.
  - destruct (Z.eqb_spec (s / 65536) 0) as [E|]; [|done]. apply Z.div_small_iff in E; lia.
Qed.

(** The folded sum is the residue of the sum modulo 65535, written in
    [1, 65535] unless the sum is zero. *)
Definition ones_sum (s : Z) : Z := if s =? 0 then 0 else 1 + (s - 1) mod 65535.

Lemma ones_sum_small s : 0 ≤ s < 65536 → ones_sum s = s.
Proof.
  unfold ones_sum. intros. destruct (Z.eqb_spec s 0); [lia|]. rewrite Z.mod_small by lia. lia.
Qed.

Lemma ones_sum_step s : 65536 ≤ s → ones_sum s = ones_sum (s mod 65536 + s / 65536).
Proof.
  intros Hs. unfold ones_sum.
  pose proof (Z.mod_pos_bound s 65536 eq_refl). pose proof (Z.div_mod s 65536 ltac:(lia)) as Hd.
  assert (1 ≤ s / 65536) by (apply Z.div_le_lower_bound; lia).
  destruct (Z.eqb_spec s 0); [lia|]. destruct (Z.eqb_spec (s mod 65536 + s / 65536) 0); [lia|]. f_equal.
  replace (s - 1) with (s mod 65536 + s / 65536 - 1 + (s / 65536) * 65535) by lia.
  by rewrite Z.mod_add.
Qed.

Lemma ones_sum_range s : 0 ≤ s → 0 ≤ ones_sum s < 65536 ∧ (ones_sum s = 0 ↔ s = 0).
Proof.
  intros. unfold ones_sum. pose proof (Z.mod_pos_bound (s - 1) 65535 eq_refl).
  destruct (Z.eqb_spec s 0); lia.
Qed.

Lemma fold_carry_spec s : is_u32 s → fold_carry s = ones_sum s.
Proof.
  intros Hs. unfold fold_carry. rewrite loop_nat_S, fold_round_spec by done.
  destruct (Z.ltb_spec s 65536) as [|H1]; [by rewrite ones_sum_small by (unfold in_range in *; lia)|].
  unfold in_range in Hs. rewrite ones_sum_step by done.
  pose proof (Z.mod_pos_bound s 65536 eq_refl).
  assert (1 ≤ s / 65536 < 65536) by (split; [apply Z.div_le_lower_bound; lia|apply Z.div_lt_upper_bound; lia]).
  set (s1 := s mod 65536 + s / 65536) in *.
  rewrite loop_nat_S, fold_round_spec by (unfold in_range, s1; lia).
  destruct (Z.ltb_spec s1 65536) as [|H2]; [by rewrite ones_sum_small by (unfold s1 in *; lia)|].
  rewrite ones_sum_step by done.
  assert (s1 / 65536 = 1) as E by (symmetry; apply Z.div_unique with (s1 - 65536); unfold s1 in *; lia).
  pose proof (Z.div_mod s1 65536 ltac:(lia)). rewrite E in *.
  rewrite loop_nat_S, fold_round_spec by (unfold in_range, s1 in *; lia).
  destruct (Z.ltb_spec (s1 mod 65536 + 1) 65536); [|unfold s1 in *; lia].
  by rewrite ones_sum_small by (unfold s1 in *; lia).
Qed.

(** Adding the complement of a sum makes the folded sum 65535. *)
Lemma ones_sum_complement s : 0 ≤ s → ones_sum (s + (65535 - ones_sum s)) = 65535.
Proof.
  intros Hs. unfold ones_sum at 2. destruct (Z.eqb_spec s 0) as [->|]; [done|].
  unfold ones_sum. pose proof (Z.mod_pos_bound (s - 1) 65535 eq_refl).
  pose proof (Z.div_mod (s - 1) 65535 ltac:(lia)) as Hd.
  assert (0 ≤ (s - 1) / 65535) by (apply Z.div_pos; lia).
  destruct (Z.eqb_spec (s + (65535 - (1 + (s - 1) mod 65535))) 0); [lia|].
  replace (s + (65535 - (1 + (s - 1) mod 65535)) - 1) with (65534 + (s - 1) / 65535 * 65535) by lia.
  by rewrite Z.mod_add.
Qed.

(** The sum of the big-endian words of a byte string. *)
Fixpoint word_sum (data : packet) : Z :=
  match data with
  | a :: b :: data => be16 a b + word_sum data
  | [a] => a * 256
  | [] => 0
  end.

(** Induction on byte strings by pairs. *)
Lemma pairs_ind (P : list Z → Prop) :
  P [] → (∀ a, P [a]) → (∀ a b l, P l → P (a :: b :: l)) → ∀ l, P l.
Proof.
  intros H0 H1 H2 l. enough (P l ∧ ∀ a, P (a :: l)) by tauto.
  induction l as [|b l [IH1 IH2]]; [auto|]. split; [apply IH2|]. intros a. by apply H2.
Qed.

Lemma word_sum_bound l : Forall is_u8 l → 0 ≤ word_sum l ≤ 65535 * ((Z.of_nat (length l) + 1) / 2).
Proof.
  induction l as [|a|a b l IH] using pairs_ind; [done| |].
  - intros [[? ?] _]%Forall_cons. change (2 ^ 8) with 256 in *.
    change (0 ≤ a * 256 ≤ 65535 * 1). lia.
  - intros [[? ?] [[? ?] Hl]%Forall_cons]%Forall_cons. specialize (IH Hl). cbn [word_sum length].
    replace (Z.of_nat (S (S (length l))) + 1) with (Z.of_nat (length l) + 1 + 1 * 2) by lia.
    rewrite Z.div_add by lia. change (2 ^ 8) with 256 in *. unfold be16. lia.
Qed.

Lemma sum_pairs_spec l s :
  Forall is_u8 l → 0 ≤ s → s + word_sum l < 2 ^ 32 → sum_pairs l s = s + word_sum l.
Proof.
  revert s. induction l as [|a|a b l IH] using pairs_ind; intros s Hl Hs Hlt; cbn [sum_pairs word_sum] in *.
  - lia.
  - apply Forall_cons in Hl as [[? ?] _]. rewrite Z.shiftl_mul_pow2 by done. change (2 ^ 8) with 256.
    by rewrite wadd_small by lia.
  - apply Forall_cons in Hl as [[? ?] Hl]. apply Forall_cons in Hl as [[? ?] Hl].
    pose proof (word_sum_bound l Hl). assert (0 ≤ be16 a b) by (unfold be16; lia).
    rewrite wadd_small by lia. rewrite IH; [lia|done|lia|lia].
Qed.

Lemma word_sum_app l1 l2 : Nat.even (length l1) = true → word_sum (l1 ++ l2) = word_sum l1 + word_sum l2.
Proof.
  induction l1 as [|a|a b l1 IH] using pairs_ind; intros He; [done|done|].
  cbn [app word_sum]. rewrite IH by done. lia.
Qed.

Lemma complement_ones s : is_u16 s → complement s = 65535 - s.
Proof. intros. unfold complement, wnot. rewrite wrap_small by done. lia. Qed.

(** The checksum function on a byte string of a packet's size. *)
Lemma icmp_checksum_spec l :
  Forall is_u8 l → Z.of_nat (length l) < 65536 → icmp_checksum l = 65535 - ones_sum (word_sum l).
Proof.
  intros Hl Hlen. pose proof (word_sum_bound l Hl) as Hb.
  assert ((Z.of_nat (length l) + 1) / 2 ≤ 32768) by (apply Z.div_le_upper_bound; lia).
  unfold icmp_checksum. rewrite sum_pairs_spec by (done || lia).
  rewrite Z.add_0_l, fold_carry_spec by (unfold in_range; lia).
  apply complement_ones. destruct (ones_sum_range (word_sum l)) as [? _]; [lia|done].
Qed.

Lemma to_be_pair a b : is_u8 a → is_u8 b → to_be 2 (field [a; b] 0 2) = be16 a b.
Proof.
  intros Ha Hb. unfold field, to_be. cbn [drop take].
  pose proof (le_bytes_value [a; b] ltac:(apply Forall_cons_2, Forall_cons_2, Forall_nil_2; done)) as E. cbn [length] in E. rewrite E.
  cbn. unfold be16. lia.
Qed.

Lemma words_be_sum n bs s :
  length bs = (n * 2)%nat → Forall is_u8 bs → 0 ≤ s → s + word_sum bs < 2 ^ 32 →
  fold_left (wadd 32) (words_be n bs) s = s + word_sum bs.
Proof.
  revert bs s. induction n as [|n IH]; intros bs s Hlen Hb Hs Hlt; [destruct bs; simplify_eq; cbn; lia|].
  destruct bs as [|a [|b bs]]; [done|cbn in Hlen; lia|].
  apply Forall_cons in Hb as [Ha Hb]. apply Forall_cons in Hb as [Hb Hbs].
  cbn [words_be fold_left drop word_sum] in *.
  change (field (a :: b :: bs) 0 2) with (field [a; b] 0 2). rewrite to_be_pair by done.
  pose proof (word_sum_bound bs Hbs). assert (0 ≤ be16 a b) by (unfold be16, in_range in *; lia).
  rewrite wadd_small, drop_0 by lia. rewrite IH; [lia|cbn in Hlen; lia|done|lia|lia].
Qed.

Lemma ip_bytes_u8 h : Forall is_u8 (ip_bytes h).
Proof. unfold ip_bytes. rewrite !Forall_app. split_and!; apply le_bytes_u8. Qed.

Lemma ip_checksum_spec h : ip_checksum h = 65535 - ones_sum (word_sum (ip_bytes h)).
Proof.
  unfold ip_checksum. pose proof (word_sum_bound _ (ip_bytes_u8 h)) as Hb.
  change ((Z.of_nat (length (ip_bytes h)) + 1) / 2) with 10 in Hb.
  rewrite words_be_sum by (done || apply ip_bytes_u8 || lia).
  rewrite Z.add_0_l, fold_carry_spec by (unfold in_range; lia). apply complement_ones.
  destruct (ones_sum_range (word_sum (ip_bytes h))) as [? _]; [lia|done].
Qed.

Lemma ip_new_wf src dst proto len :
  is_u8 proto → ip_wf (ip_new src dst proto len).
Proof.
  intros Hp. unfold ip_wf, ip_new. cbn [version_ihl dscp_ecn total_len ip_id frag_off ttl protocol ip_csum ip_src ip_dst].
  split_and!; auto with words; try done.
  rewrite ip_checksum_spec. unfold in_range.
  match goal with |- context [ones_sum ?s] => destruct (ones_sum_range s) as [? _] end; [|lia].
  apply word_sum_bound, ip_bytes_u8.
Qed.

Lemma ip_csum_sum h c :
  word_sum (ip_bytes (mkIp (version_ihl h) (dscp_ecn h) (total_len h) (ip_id h) (frag_off h) (ttl h) (protocol h)
    c (ip_src h) (ip_dst h))) + to_be 2 (ip_csum h) = word_sum (ip_bytes h) + to_be 2 c.
Proof.
  destruct h. cbn -[Z.add Z.mul Z.modulo Z.shiftr]. unfold be16, to_be. cbn -[Z.add Z.mul Z.modulo Z.shiftr]. lia.
Qed.

(** ** Theorems *)

(** The checksum of the headers [send] builds is computed over words in
    network order and stored in machine order.  A receiver, who adds up the
    words of the header, therefore accepts it exactly when the two bytes of
    the checksum are equal. *)
Theorem ip_checksum_order src dst proto len :
  icmp_checksum (ip_bytes (ip_new src dst proto len)) = 0 ↔
  to_be 2 (ip_csum (ip_new src dst proto len)) = ip_csum (ip_new src dst proto len).
Proof.
  rewrite icmp_checksum_spec by (apply ip_bytes_u8 || done). unfold ip_new. cbn [ip_csum].
  set (h := mkIp _ _ _ _ _ _ _ 0 _ _). set (c := ip_checksum h).
  pose proof (ip_csum_sum h c) as Hsum. cbn [version_ihl dscp_ecn total_len ip_id frag_off ttl protocol ip_csum ip_src ip_dst h] in Hsum.
  change (to_be 2 0) with 0 in Hsum. rewrite Z.add_0_r in Hsum. rewrite Hsum.
  pose proof (ip_checksum_spec h) as Hc. fold c in Hc.
  assert (69 * 256 ≤ word_sum (ip_bytes h)) as Hpos.
  { change (ip_bytes h) with ([69; 0] ++ drop 2 (ip_bytes h)). rewrite word_sum_app by done.
    pose proof (word_sum_bound (drop 2 (ip_bytes h)) ltac:(apply Forall_drop, ip_bytes_u8)). cbn [word_sum]. unfold be16. lia. }
  set (s := word_sum (ip_bytes h)) in *. destruct (ones_sum_range s) as [Hr Hz]; [lia|].
  pose proof (to_be_16_range c) as Ht. unfold in_range in Ht.
  assert (c = 65535 - (1 + (s - 1) mod 65535)) as Hc'.
  { rewrite Hc. unfold ones_sum. destruct (Z.eqb_spec s 0); lia. }
  pose proof (Z.mod_pos_bound (s - 1) 65535 eq_refl). pose proof (Z.div_mod (s - 1) 65535 ltac:(lia)) as Hd.
  assert (to_be 2 c = 65535 → c = 65535) as Hff.
  { intros E. rewrite <- (to_be_16 c) by (unfold in_range; lia). by rewrite E. }
  unfold ones_sum. destruct (Z.eqb_spec (s + to_be 2 c) 0); [lia|].
  pose proof (Z.div_mod (s + to_be 2 c - 1) 65535 ltac:(lia)).
  pose proof (Z.mod_pos_bound (s + to_be 2 c - 1) 65535 eq_refl). split; [|].
  - intros E. assert (65534 = (s + to_be 2 c - 1) mod 65535) as E' by lia.
    assert (to_be 2 c - c = 65535 * ((s + to_be 2 c - 1) / 65535 - (s - 1) / 65535)) by lia.
    assert (-65535 < to_be 2 c - c < 65535) by lia. lia.
  - intros E. rewrite E in *. replace (s + c - 1) with (65534 + (s - 1) / 65535 * 65535) by lia.
    by rewrite Z.mod_add.
Qed.

Definition matches (dst : Z) (r : Route) : bool := Z.land dst (netmask r) =? network r.

(** The state of the search after a prefix of the table. *)
Definition best_of (dst : Z) (rs : list Route) (best : option (Z * Z)) : Prop :=
  match best with
  | None => ∀ r, r ∈ rs → matches dst r = false
  | Some (m, gw) =>
      ∃ i r, rs !! i = Some r ∧ matches dst r = true ∧ netmask r = m ∧ route_gw r = gw ∧
        ∀ j r', rs !! j = Some r' → matches dst r' = true → netmask r' < m ∨ netmask r' = m ∧ (i ≤ j)%nat
  end.

Lemma better_route_best dst rs best r :
  best_of dst rs best → best_of dst (rs ++ [r]) (better_route dst best r).
Proof.
  intros Hb. unfold better_route. fold (matches dst r).
  assert (∀ j r', (rs ++ [r]) !! j = Some r' → (j < length rs)%nat ∧ rs !! j = Some r' ∨ j = length rs ∧ r' = r) as Hl.
  { intros j r' [E|[? E]]%lookup_app_Some; [left; split; [by eapply lookup_lt_Some|done]|right].
    apply list_lookup_singleton_Some in E as [? ->]. split; [lia|done]. }
  destruct (matches dst r) eqn:Em; destruct best as [[m gw]|]; cbn [best_of] in *.
  - destruct Hb as (i & r0 & Hi & Hm & <- & <- & Hmax). destruct (Z.ltb_spec (netmask r0) (netmask r)).
    + exists (length rs), r. rewrite list_lookup_middle by done. split_and!; try done.
      intros j r' [[Hlt Hj]|[-> ->]]%Hl Hr'; [|right; lia]. specialize (Hmax _ _ Hj Hr'). left. lia.
    + exists i, r0. rewrite lookup_app_l by (by eapply lookup_lt_Some). split_and!; try done.
      intros j r' [[Hlt Hj]|[-> ->]]%Hl Hr'; [by apply Hmax|]. apply lookup_lt_Some in Hi. lia.
  - exists (length rs), r. rewrite list_lookup_middle by done. split_and!; try done.
    intros j r' [[Hlt Hj]|[-> ->]]%Hl Hr'; [|right; lia].
    apply list_elem_of_lookup_2 in Hj. by rewrite Hb in Hr'.
  - destruct Hb as (i & r0 & Hi & Hm & <- & <- & Hmax). exists i, r0.
    rewrite lookup_app_l by (by eapply lookup_lt_Some). split_and!; try done.
    intros j r' [[Hlt Hj]|[-> ->]]%Hl Hr'; [by apply Hmax|congruence].
  - intros r' [Hr'|Hr']%elem_of_app; [by apply Hb|]. by apply list_elem_of_singleton in Hr' as ->.
Qed.

Lemma fold_better_route dst rs : best_of dst rs (fold_left (better_route dst) rs None).
Proof.
  induction rs as [|r rs IH] using rev_ind; [by intros r ?%elem_of_nil|].
  rewrite fold_left_app. by apply better_route_best.
Qed.

(** The route of an address is the gateway of the matching entry with the
    longest mask, the first of them when several have it; without a matching
    entry it is the default gateway. *)
Theorem route_longest_prefix routes gateway dst :
  (∀ r, r ∈ routes → matches dst r = false) ∧ route_in routes gateway dst = Some gateway ∨
  ∃ i r, routes !! i = Some r ∧ matches dst r = true ∧ route_in routes gateway dst = Some (route_gw r) ∧
    ∀ j r', routes !! j = Some r' → matches dst r' = true →
      netmask r' < netmask r ∨ netmask r' = netmask r ∧ (i ≤ j)%nat.
Proof.
  unfold route_in. pose proof (fold_better_route dst routes) as Hb.
  destruct (fold_left (better_route dst) routes None) as [[m gw]|]; cbn [best_of] in Hb; [right|by left].
  destruct Hb as (i & r & Hi & Hm & <- & <- & Hmax). exists i, r. by split_and!.
Qed.
