(* ===== verification/Net.v ===== *)
(** * The network stack

    Models kernel/src/net/ip/mod.rs ([send], [receive], [icmp_receive]),
    kernel/src/net/udp/mod.rs, kernel/src/net/tcp/mod.rs, the data and
    [udp_deliver] of kernel/src/net/socket/mod.rs and the software part of
    kernel/src/drivers/net.rs ([transmit], [receive_poll], the loop-back
    queue).  The operations live in a state and error monad over the statics
    of these modules.  A call that does not return stops with [halt]: an
    attempt to take a spin lock that is held, a panic, or fuel that ran out.

    The stack is recursive: sending may deliver on the loop-back queue, which
    may answer.  Operations therefore take the function that transmits as an
    argument [tx]; [transmit] ties the knot with fuel for the nesting depth.
    The card itself is a parameter, a predicate that says whether its ring
    takes a frame. *)
From S2P Require Import Prelude Process Inet.

(** ** State *)
Inductive TcpState :=
| Closed | Listen | SynSent | SynReceived | Established | FinWait1 | FinWait2 | TimeWait | CloseWait | LastAck.
#[export] Instance TcpState_eq_dec : EqDecision TcpState.
Proof. solve_decision. Defined.

Record ConnKey := mkKey { k_lip : Z; k_lport : Z; k_rip : Z; k_rport : Z }.
#[export] Instance ConnKey_eq_dec : EqDecision ConnKey.
Proof. solve_decision. Defined.
#[export] Instance ConnKey_countable : Countable ConnKey.
Proof.
  apply (inj_countable' (λ k, (k_lip k, k_lport k, k_rip k, k_rport k)) (λ '(a, b, c, d), mkKey a b c d)).
  by intros [].
Defined.

(** The derived order, field by field. *)
Definition key_ltb (a b : ConnKey) : bool :=
  (k_lip a <? k_lip b) || ((k_lip a =? k_lip b) && ((k_lport a <? k_lport b) ||
  ((k_lport a =? k_lport b) && ((k_rip a <? k_rip b) || ((k_rip a =? k_rip b) && (k_rport a <? k_rport b)))))).

Record TcpSocket := mkTs {
  ts_key : ConnKey;
  ts_state : TcpState;
  snd_una : Z;
  snd_nxt : Z;
  rcv_nxt : Z;
  rcv_wnd : Z;
  send_buf : list Z;
  recv_buf : list Z;
  backlog : list ConnKey;
}.

Definition tcp_socket_new (lip lport rip rport : Z) : TcpSocket :=
  mkTs (mkKey lip lport rip rport) Closed 0 0x12340000 0 TCP_WINDOW [] [] [].

Definition set_tstate (st : TcpState) (s : TcpSocket) : TcpSocket :=
  mkTs (ts_key s) st (snd_una s) (snd_nxt s) (rcv_nxt s) (rcv_wnd s) (send_buf s) (recv_buf s) (backlog s).
Definition set_snd (una nxt : Z) (s : TcpSocket) : TcpSocket :=
  mkTs (ts_key s) (ts_state s) una nxt (rcv_nxt s) (rcv_wnd s) (send_buf s) (recv_buf s) (backlog s).
Definition set_rcv (nxt : Z) (buf : list Z) (s : TcpSocket) : TcpSocket :=
  mkTs (ts_key s) (ts_state s) (snd_una s) (snd_nxt s) nxt (rcv_wnd s) (send_buf s) buf (backlog s).

(** [recv_queue] holds (source address, source port, data). *)
Record UdpSocket := mkUs { local_port : Z; recv_queue : list (Z * Z * list Z) }.

Record SockAddrIn := mkSin { sin_family : Z; sin_port : Z; sin_addr : Z; sin_pad : list Z }.
Inductive SockState := SockCreated | SockBound | SockListening | SockConnecting | SockConnected | SockCloseWait | SockClosed.
#[export] Instance SockState_eq_dec : EqDecision SockState.
Proof. solve_decision. Defined.

Record Socket := mkSock {
  s_id : Z;
  s_family : Z;
  s_type : Z;
  s_protocol : Z;
  s_state : SockState;
  local_addr : option SockAddrIn;
  remote_addr : option SockAddrIn;
  nonblocking : bool;
  opts_reuse : bool;
  udp_recv_q : list (SockAddrIn * list Z);
  unix_path : list Z;
}.

(** The statics of the modules, the process table (for descriptors), user
    memory, and the frames the card took.  [tcp_held], [nic_held]: the locks
    that are held across a call. *)
Record Net := mkNet {
  local_ip : Z;
  gateway : Z;
  routes : list Route;
  usocks : gmap Z UdpSocket;
  tsocks : gmap ConnKey TcpSocket;
  tcp_held : bool;
  delivered : gset ConnKey;
  socks : gmap Z Socket;
  next_ephemeral : Z;
  ptab : Table;
  umem : Z → Z;
  clock : Z;
  nic : option (list packet → packet → bool);
  nic_held : bool;
  loopback : list packet;
  sent : list packet;
}.

Definition set_ip ip gw rs w := mkNet ip gw rs (usocks w) (tsocks w) (tcp_held w) (delivered w) (socks w)
  (next_ephemeral w) (ptab w) (umem w) (clock w) (nic w) (nic_held w) (loopback w) (sent w).
Definition set_usocks m w := mkNet (local_ip w) (gateway w) (routes w) m (tsocks w) (tcp_held w) (delivered w) (socks w)
  (next_ephemeral w) (ptab w) (umem w) (clock w) (nic w) (nic_held w) (loopback w) (sent w).
Definition set_tsocks m w := mkNet (local_ip w) (gateway w) (routes w) (usocks w) m (tcp_held w) (delivered w) (socks w)
  (next_ephemeral w) (ptab w) (umem w) (clock w) (nic w) (nic_held w) (loopback w) (sent w).
Definition set_tcp_held b w := mkNet (local_ip w) (gateway w) (routes w) (usocks w) (tsocks w) b (delivered w) (socks w)
  (next_ephemeral w) (ptab w) (umem w) (clock w) (nic w) (nic_held w) (loopback w) (sent w).
Definition set_delivered d w := mkNet (local_ip w) (gateway w) (routes w) (usocks w) (tsocks w) (tcp_held w) d (socks w)
  (next_ephemeral w) (ptab w) (umem w) (clock w) (nic w) (nic_held w) (loopback w) (sent w).
Definition set_socks m w := mkNet (local_ip w) (gateway w) (routes w) (usocks w) (tsocks w) (tcp_held w) (delivered w) m
  (next_ephemeral w) (ptab w) (umem w) (clock w) (nic w) (nic_held w) (loopback w) (sent w).
Definition set_ephemeral n w := mkNet (local_ip w) (gateway w) (routes w) (usocks w) (tsocks w) (tcp_held w) (delivered w)
  (socks w) n (ptab w) (umem w) (clock w) (nic w) (nic_held w) (loopback w) (sent w).
Definition set_ptab t w := mkNet (local_ip w) (gateway w) (routes w) (usocks w) (tsocks w) (tcp_held w) (delivered w)
  (socks w) (next_ephemeral w) t (umem w) (clock w) (nic w) (nic_held w) (loopback w) (sent w).
Definition set_umem m w := mkNet (local_ip w) (gateway w) (routes w) (usocks w) (tsocks w) (tcp_held w) (delivered w)
  (socks w) (next_ephemeral w) (ptab w) m (clock w) (nic w) (nic_held w) (loopback w) (sent w).
Definition set_nic_held b w := mkNet (local_ip w) (gateway w) (routes w) (usocks w) (tsocks w) (tcp_held w) (delivered w)
  (socks w) (next_ephemeral w) (ptab w) (umem w) (clock w) (nic w) b (loopback w) (sent w).
Definition set_frames lo se w := mkNet (local_ip w) (gateway w) (routes w) (usocks w) (tsocks w) (tcp_held w) (delivered w)
  (socks w) (next_ephemeral w) (ptab w) (umem w) (clock w) (nic w) (nic_held w) lo se.

(** ** The monad *)
Inductive halt := Deadlock | Panic | OutOfFuel.
Definition NetM (A : Type) : Type := Net → result halt (A * Net).
#[export] Instance NetM_ret : MRet NetM := λ A a w, Ok (a, w).
#[export] Instance NetM_bind : MBind NetM := λ A B k m w,
  match m w with Ok (a, w) => k a w | Err e => Err e end.
Definition stop {A} (e : halt) : NetM A := λ _, Err e.
Definition gets {A} (f : Net → A) : NetM A := λ w, Ok (f w, w).
Definition modify (f : Net → Net) : NetM unit := λ w, Ok (tt, f w).
Definition skip : NetM unit := mret tt.

(** [SOCKETS.lock()] of tcp/mod.rs, a spin lock. *)
Definition lock_tcp : NetM unit := λ w, if tcp_held w then Err Deadlock else Ok (tt, set_tcp_held true w).
Definition unlock_tcp : NetM unit := modify (set_tcp_held false).

(** ** Ordered maps: the first entry in key order that satisfies a test *)
Definition first_where {K A} `{Countable K} (ltb : K → K → bool) (P : K → A → bool) (m : gmap K A) : option K :=
  foldr (λ '(k, a) best,
    if P k a then match best with Some k' => if ltb k k' then Some k else best | None => Some k end else best)
    None (map_to_list m).

(** ** IP *)
Definition set_local_ip (ip : Z) : NetM unit := modify (λ w, set_ip ip (gateway w) (routes w) w).
Definition set_gateway (gw : Z) : NetM unit := modify (λ w, set_ip (local_ip w) gw (routes w) w).
Definition add_route (network netmask gw iface : Z) : NetM unit :=
  modify (λ w, set_ip (local_ip w) (gateway w) (routes w ++ [mkRoute network netmask gw iface]) w).
Definition route_lookup (dst : Z) : NetM (option Z) := gets (λ w, route_in (routes w) (gateway w) dst).

(** [init] of net/mod.rs. *)
Definition LOCALHOST : Z := 0x7F000001.
Definition net_init : NetM unit :=
  set_local_ip LOCALHOST;; add_route 0x7F000000 0xFF000000 0 0.

Section Stack.
Context (tx : packet → NetM unit).

Definition ip_send (dst_ip proto : Z) (payload : packet) : NetM unit :=
  src_ip ← gets local_ip;
  let hdr := ip_new src_ip dst_ip proto (wrap 16 (Z.of_nat (length payload))) in
  tx (ip_bytes hdr ++ payload).

Definition icmp_reply (payload : packet) : packet :=
  let reply := <[0%nat := 0]> payload in
  let reply := <[3%nat := 0]> (<[2%nat := 0]> reply) in
  let csum := icmp_checksum reply in
  <[3%nat := Z.land csum 255]> (<[2%nat := wrap 8 (Z.shiftr csum 8)]> reply).

Definition icmp_receive (ip_hdr : IpHeader) (payload : packet) : NetM unit :=
  match payload with
  | icmp_type :: _ =>
      if (length payload <? 8)%nat then skip
      else if icmp_type =? 8 then ip_send (to_be 4 (ip_src ip_hdr)) PROTO_ICMP (icmp_reply payload)
      else skip
  | [] => skip
  end.

(** ** UDP *)
Definition udp_bind (port : Z) : NetM unit := modify (λ w, set_usocks (<[port := mkUs port []]> (usocks w)) w).

(** [pkt] has [length] bytes: when the length does not fit in 16 bits the
    copy of the data panics. *)
Definition udp_send (src_ip src_port dst_ip dst_port : Z) (data : packet) : NetM unit :=
  let len := wrap 16 (8 + Z.of_nat (length data)) in
  let hdr := mkUdp (to_be 2 src_port) (to_be 2 dst_port) (to_be 2 len) 0 in
  if len =? 8 + Z.of_nat (length data) then ip_send dst_ip PROTO_UDP (udp_bytes hdr ++ data) else stop Panic.

Definition SOCK_STREAM : Z := 1.
Definition SOCK_DGRAM : Z := 2.
Definition AF_UNIX : Z := 1.
Definition AF_INET : Z := 2.

Definition set_queue (q : list (SockAddrIn * list Z)) (s : Socket) : Socket :=
  mkSock (s_id s) (s_family s) (s_type s) (s_protocol s) (s_state s) (local_addr s) (remote_addr s)
    (nonblocking s) (opts_reuse s) q (unix_path s).

Definition sin_new (ip port : Z) : SockAddrIn := mkSin AF_INET (to_be 2 port) (to_be 4 ip) (replicate 8 0).

(** The socket the loop of [udp_deliver] stops at. *)
Definition udp_target (dst_ip dst_port : Z) (sock : Socket) : bool :=
  let bound_port := default 0 (to_be 2 ∘ sin_port <$> local_addr sock) in
  let bound_ip := default 0 (to_be 4 ∘ sin_addr <$> local_addr sock) in
  (s_type sock =? SOCK_DGRAM) && (bound_port =? dst_port) && ((bound_ip =? 0) || (bound_ip =? dst_ip)).

Definition udp_deliver (dst_ip dst_port src_ip src_port : Z) (data : packet) : NetM unit :=
  modify (λ w,
    match first_where Z.ltb (λ _, udp_target dst_ip dst_port) (socks w) with
    | None => w
    | Some fd =>
        set_socks (alter (λ s,
          if (length (udp_recv_q s) <? 64)%nat then set_queue (udp_recv_q s ++ [(sin_new src_ip src_port, data)]) s
          else s) fd (socks w)) w
    end).

Definition udp_receive (ip_hdr : IpHeader) (datagram : packet) : NetM unit :=
  if (length datagram <? 8)%nat then skip
  else
    let hdr := udp_cast datagram in
    let src_ip := to_be 4 (ip_src ip_hdr) in
    let src_port := to_be 2 (u_src hdr) in
    let dst_port := to_be 2 (u_dst hdr) in
    let payload := drop 8 datagram in
    modify (λ w, set_usocks (alter (λ s, mkUs (local_port s) (recv_queue s ++ [(src_ip, src_port, payload)])) dst_port (usocks w)) w);;
    udp_deliver (to_be 4 (ip_dst ip_hdr)) dst_port src_ip src_port payload.

(** [recv] into a buffer: the source, and the new content of the buffer. *)
Definition udp_recv (port : Z) (buf : list Z) : NetM (option (Z * Z * nat) * list Z) :=
  s ← gets (λ w, usocks w !! port);
  match s with
  | Some (mkUs lp ((src_ip, src_port, data) :: rest)) =>
      let n := Nat.min (length data) (length buf) in
      modify (λ w, set_usocks (<[port := mkUs lp rest]> (usocks w)) w);;
      mret (Some (src_ip, src_port, n), take n data ++ drop n buf)
  | _ => mret (None, buf)
  end.

(** ** TCP *)
Definition send_raw (dst_ip : Z) (hdr : TcpHeader) (payload : packet) : NetM unit :=
  let pkt := tcp_bytes hdr ++ payload in
  let csum := tcp_checksum 0 dst_ip pkt in
  ip_send dst_ip PROTO_TCP (take 16 pkt ++ le_bytes 2 csum ++ drop 18 pkt).

(** An acknowledgement of what has been received. *)
Definition send_ack (dst_ip : Z) (s : TcpSocket) : NetM unit :=
  send_raw dst_ip (tcp_new (k_lport (ts_key s)) (k_rport (ts_key s)) (snd_nxt s) (rcv_nxt s) TCP_ACK TCP_WINDOW) [].

Definition handle_segment (sock : TcpSocket) (hdr : TcpHeader) (seq ack : Z) (payload : packet) (src_ip : Z) :
  NetM TcpSocket :=
  if has hdr TCP_RST then mret (set_tstate Closed sock)
  else match ts_state sock with
  | SynSent =>
      if has hdr (Z.lor TCP_SYN TCP_ACK) then
        let sock := set_tstate Established (set_snd ack (snd_nxt sock) (set_rcv (wadd 32 seq 1) (recv_buf sock) sock)) in
        send_ack src_ip sock;; mret sock
      else mret sock
  | SynReceived => mret (if has hdr TCP_ACK then set_tstate Established sock else sock)
  | Established =>
      if has hdr TCP_FIN then
        let sock := set_tstate CloseWait (set_rcv (wadd 32 seq 1) (recv_buf sock) sock) in
        send_ack src_ip sock;; mret sock
      else
        sock ← (if negb (bool_decide (payload = [])) && (seq =? rcv_nxt sock) then
                  let sock := set_rcv (wadd 32 (rcv_nxt sock) (wrap 32 (Z.of_nat (length payload))))
                                (recv_buf sock ++ payload) sock in
                  send_ack src_ip sock;; mret sock
                else mret sock);
        mret (if has hdr TCP_ACK then set_snd ack (snd_nxt sock) sock else sock)
  | FinWait1 => mret (if has hdr TCP_ACK then set_tstate FinWait2 sock else sock)
  | FinWait2 =>
      if has hdr TCP_FIN then
        let sock := set_tstate TimeWait (set_rcv (wadd 32 seq 1) (recv_buf sock) sock) in
        send_ack src_ip sock;; mret sock
      else mret sock
  | LastAck => mret (if has hdr TCP_ACK then set_tstate Closed sock else sock)
  | _ => mret sock
  end.

Definition put_tsock (key : ConnKey) (s : TcpSocket) : NetM unit := modify (λ w, set_tsocks (<[key := s]> (tsocks w)) w).

Definition ISN : Z := 0xDEADC0DE.

Definition tcp_receive (ip_hdr : IpHeader) (seg : packet) : NetM unit :=
  if (length seg <? 20)%nat then skip
  else
    let hdr := tcp_cast seg in
    let src_ip := to_be 4 (ip_src ip_hdr) in
    let dst_ip := to_be 4 (ip_dst ip_hdr) in
    let src_port := to_be 2 (t_src hdr) in
    let dst_port := to_be 2 (t_dst hdr) in
    let seq := to_be 4 (t_seq hdr) in
    let ack := to_be 4 (t_ack hdr) in
    let off := Z.to_nat (data_offset hdr) in
    let payload := if (off <=? length seg)%nat then drop off seg else [] in
    let conn_key := mkKey dst_ip dst_port src_ip src_port in
    let listen_key := mkKey dst_ip dst_port 0 0 in
    lock_tcp;;
    sockets ← gets tsocks;
    match sockets !! conn_key with
    | Some sock =>
        sock ← handle_segment sock hdr seq ack payload src_ip;
        put_tsock conn_key sock;; unlock_tcp
    | None =>
        if has hdr TCP_SYN && negb (has hdr TCP_ACK) && bool_decide (is_Some (sockets !! listen_key)) then
          let sock := set_tstate SynReceived (set_snd ISN (wadd 32 ISN 1)
                        (set_rcv (wadd 32 seq 1) [] (tcp_socket_new dst_ip dst_port src_ip src_port))) in
          unlock_tcp;;
          send_raw src_ip (tcp_new dst_port src_port ISN (wadd 32 seq 1) (Z.lor TCP_SYN TCP_ACK) TCP_WINDOW) [];;
          lock_tcp;; put_tsock conn_key sock;; unlock_tcp
        else unlock_tcp
    end.

(** [data.chunks(TCP_MSS).enumerate()], from the chunk number [i] on; fuel:
    one round per chunk. *)
Fixpoint send_chunks (fuel : nat) (key : ConnKey) (seq rcv : Z) (i : Z) (data : packet) : NetM unit :=
  match fuel, data with
  | _, [] => skip
  | O, _ => stop OutOfFuel
  | S fuel, _ =>
      let chunk_seq := wadd 32 seq (wrap 32 (wmul 64 i (Z.of_nat TCP_MSS))) in
      send_raw (k_rip key) (tcp_new (k_lport key) (k_rport key) chunk_seq rcv (Z.lor TCP_PSH TCP_ACK) TCP_WINDOW)
        (take TCP_MSS data);;
      send_chunks fuel key seq rcv (i + 1) (drop TCP_MSS data)
  end.

Definition send_data (key : ConnKey) (data : packet) : NetM Z :=
  lock_tcp;;
  sockets ← gets tsocks;
  match sockets !! key with
  | Some s =>
      if decide (ts_state s = Established) then
        let seq := snd_nxt s in
        let rcv := rcv_nxt s in
        put_tsock key (set_snd (snd_una s) (wadd 32 (snd_nxt s) (wrap 32 (Z.of_nat (length data)))) s);;
        unlock_tcp;;
        send_chunks (length data) key seq rcv 0 data;;
        mret (Z.of_nat (length data))
      else unlock_tcp;; mret 0
  | None => unlock_tcp;; mret 0
  end.

Definition tcp_listen (lip lport : Z) : NetM unit :=
  lock_tcp;; put_tsock (mkKey lip lport 0 0) (set_tstate Listen (tcp_socket_new lip lport 0 0));; unlock_tcp.

Definition tcp_connect (key : ConnKey) : NetM unit :=
  let sock := set_tstate SynSent (tcp_socket_new (k_lip key) (k_lport key) (k_rip key) (k_rport key)) in
  let seq := snd_nxt sock in
  lock_tcp;; put_tsock key (set_snd (snd_una sock) (wadd 32 seq 1) sock);; unlock_tcp;;
  send_raw (k_rip key) (tcp_new (k_lport key) (k_rport key) seq 0 TCP_SYN TCP_WINDOW) [].

Definition tcp_close (key : ConnKey) : NetM unit :=
  lock_tcp;;
  sockets ← gets tsocks;
  let remove := modify (λ w, set_tsocks (delete key (tsocks w)) w);; unlock_tcp in
  match sockets !! key with
  | Some s =>
      if decide (ts_state s = Established) then
        let fin := tcp_new (k_lport key) (k_rport key) (snd_nxt s) (rcv_nxt s) (Z.lor TCP_FIN TCP_ACK) TCP_WINDOW in
        put_tsock key (set_tstate FinWait1 (set_snd (snd_una s) (wadd 32 (snd_nxt s) 1) s));;
        unlock_tcp;;
        send_raw (k_rip key) fin []
      else remove
  | None => remove
  end.

Definition connection_state (key : ConnKey) : NetM TcpState :=
  lock_tcp;; s ← gets (λ w, default Closed (ts_state <$> tsocks w !! key)); unlock_tcp;; mret s.

(** Bytes written to user memory. *)
Definition user_write (addr : Z) (bs : list Z) : NetM unit :=
  modify (λ w, set_umem (λ a, if (addr <=? a) && (a <? addr + Z.of_nat (length bs)) then bs !!! Z.to_nat (a - addr) else umem w a) w).

Definition drain_recv (key : ConnKey) (buf_ptr : Z) (len : nat) (peek : bool) : NetM Z :=
  lock_tcp;;
  sockets ← gets tsocks;
  match sockets !! key with
  | None => unlock_tcp;; mret 0
  | Some s =>
      if bool_decide (recv_buf s = []) then unlock_tcp;; mret 0
      else
        let n := Nat.min (length (recv_buf s)) len in
        user_write buf_ptr (take n (recv_buf s));;
        (if peek then skip else put_tsock key (set_rcv (rcv_nxt s) (drop n (recv_buf s)) s));;
        unlock_tcp;;
        mret (Z.of_nat n)
  end.

Definition pop_accepted (lip lport : Z) : NetM (option (Z * Z)) :=
  lock_tcp;;
  w ← gets (λ w, w);
  match first_where key_ltb (λ k s,
          (k_lport k =? lport) && negb (k_rip k =? 0) && bool_decide (ts_state s = Established)
          && bool_decide (k ∉ delivered w)) (tsocks w) with
  | Some k => modify (λ w, set_delivered ({[k]} ∪ delivered w) w);; unlock_tcp;; mret (Some (k_rip k, k_rport k))
  | None => unlock_tcp;; mret None
  end.

(** ** Dispatch on the protocol *)
Definition ip_receive (pkt : packet) : NetM unit :=
  if (length pkt <? 20)%nat then skip
  else
    let hdr := ip_cast pkt in
    if negb (version hdr =? 4) then skip
    else if Z.of_nat (length pkt) <? ihl hdr then skip
    else
      let payload := drop (Z.to_nat (ihl hdr)) pkt in
      if protocol hdr =? PROTO_TCP then tcp_receive hdr payload
      else if protocol hdr =? PROTO_UDP then udp_receive hdr payload
      else if protocol hdr =? PROTO_ICMP then icmp_receive hdr payload
      else skip.

Definition pop_loopback : NetM (option packet) := λ w,
  match loopback w with
  | [] => Ok (None, w)
  | p :: ps => Ok (Some p, set_frames ps (sent w) w)
  end.

(** The loop of [drain_loopback]; fuel: the number of rounds. *)
Fixpoint drain_loopback (fuel : nat) : NetM unit :=
  match fuel with
  | O => stop OutOfFuel
  | S fuel =>
      p ← pop_loopback;
      match p with
      | Some p => ip_receive p;; drain_loopback fuel
      | None => skip
      end
  end.
End Stack.

(** ** The driver *)
Definition lock_nic : NetM unit := λ w, if nic_held w then Err Deadlock else Ok (tt, w).

(** [VirtioNic::transmit]: a frame the card takes is sent. *)
Definition nic_transmit (dev : list packet → packet → bool) (frame : packet) : NetM unit :=
  modify (λ w, if (length frame <=? 1514)%nat && dev (sent w) frame
               then set_frames (loopback w) (sent w ++ [frame]) w else w).

(** The address [u32::from_be_bytes(frame[16..20])]. *)
Definition frame_dst (frame : packet) : Z := to_be 4 (field frame 16 4).

Fixpoint transmit (fuel : nat) (frame : packet) : NetM unit :=
  match fuel with
  | O => stop OutOfFuel
  | S fuel =>
      lock_nic;;
      n ← gets nic;
      match n with
      | Some dev => nic_transmit dev frame
      | None =>
          local ← gets local_ip;
          (if (20 <=? length frame)%nat && ((frame_dst frame =? local) || (frame_dst frame =? LOCALHOST))
           then modify (λ w, set_frames (loopback w ++ [frame]) (sent w) w) else skip);;
          drain_loopback (transmit fuel) (S fuel)
      end
  end.

(** [poll_rx] hands the packets in the card's ring to the stack; the lock of
    the card is held. *)
Definition receive_poll (fuel : nat) (rx : list packet) : NetM unit :=
  lock_nic;;
  n ← gets nic;
  (match n with
   | Some _ =>
       modify (set_nic_held true);;
       foldr (λ p k, ip_receive (transmit fuel) p;; k) skip rx;;
       modify (set_nic_held false)
   | None => skip
   end);;
  drain_loopback (transmit fuel) (S fuel).
