(* ===== verification/NetFacts.v ===== *)
(** * Lemmas on the network stack, and what it does with a card

    The frames the operations of Net build and take apart; a machine with a
    network card ([online]); [icmp_echo], the answer to an echo request. *)
From S2P Require Import Prelude Process Inet Net.

(** ** The monad *)
Lemma bind_ok {A B} (m : NetM A) (k : A → NetM B) w a w' : m w = Ok (a, w') → mbind k m w = k a w'.
Proof. intros E. unfold mbind, NetM_bind. by rewrite E. Qed.

Lemma bind_err {A B} (m : NetM A) (k : A → NetM B) w e : m w = Err e → mbind k m w = Err e.
Proof. intros E. unfold mbind, NetM_bind. by rewrite E. Qed.

Lemma bind_gets {A B} (f : Net → A) (k : A → NetM B) w : mbind k (gets f) w = k (f w) w.
Proof. done. Qed.
Lemma bind_modify {B} (f : Net → Net) (k : unit → NetM B) w : mbind k (modify f) w = k tt (f w).
Proof. done. Qed.
Lemma bind_skip {B} (k : unit → NetM B) w : mbind k skip w = k tt w.
Proof. done. Qed.
Lemma bind_ret {A B} (a : A) (k : A → NetM B) w : mbind k (mret a) w = k a w.
Proof. done. Qed.
Lemma bind_assoc {A B C} (m : NetM A) (f : A → NetM B) (g : B → NetM C) w :
  mbind g (mbind f m) w = mbind (λ a, mbind g (f a)) m w.
Proof. unfold mbind, NetM_bind. by destruct (m w) as [[a w']|]. Qed.
Lemma bind_lock {B} (k : unit → NetM B) w : tcp_held w = false → mbind k lock_tcp w = k tt (set_tcp_held true w).
Proof. intros E. apply bind_ok. unfold lock_tcp. by rewrite E. Qed.

Lemma bind_unlock {B} (k : unit → NetM B) w : mbind k unlock_tcp w = k tt (set_tcp_held false w).
Proof. done. Qed.

(** Runs the straight-line part of an operation. *)
Ltac net_step :=
  first [rewrite bind_assoc | rewrite bind_gets | rewrite bind_modify | rewrite bind_skip | rewrite bind_ret
        | rewrite bind_lock by done | rewrite bind_unlock].
Ltac net_run := repeat net_step.

Lemma held_id w : tcp_held w = false → set_tcp_held false (set_tcp_held true w) = w.
Proof. destruct w. cbn. by intros ->. Qed.

(** ** A machine with a card

    The state in which the calls of the sockets run: there is a card and its
    lock is free.  What sending does: the frame is appended to [sent] when the
    card takes it.  (The driver holds the lock while it hands packets to the
    stack, see [receive_poll_deadlocks].) *)
Definition online (dev : list packet → packet → bool) (w : Net) : Prop := nic w = Some dev ∧ nic_held w = false.

Definition push_sent (dev : list packet → packet → bool) (w : Net) (f : packet) : list packet :=
  if (length f <=? 1514)%nat && dev (sent w) f then sent w ++ [f] else sent w.

Definition sent_as (fs : list packet) (w : Net) : Net := set_frames (loopback w) fs w.

Lemma sent_as_id w : sent_as (sent w) w = w.
Proof. by destruct w. Qed.

Lemma transmit_online dev w n f : online dev w → transmit (S n) f w = Ok (tt, sent_as (push_sent dev w f) w).
Proof.
  intros [Hn Hh]. cbn [transmit]. rewrite (bind_ok _ _ w tt w) by (unfold lock_nic; by rewrite Hh).
  rewrite bind_gets, Hn. unfold nic_transmit, modify, push_sent, sent_as.
  destruct (_ && _); [done|]. by destruct w.
Qed.

Definition ip_frame (src dst proto : Z) (payload : packet) : packet :=
  ip_bytes (ip_new src dst proto (wrap 16 (Z.of_nat (length payload)))) ++ payload.

Lemma ip_send_frame tx dst proto payload w : ip_send tx dst proto payload w = tx (ip_frame (local_ip w) dst proto payload) w.
Proof. done. Qed.

Definition with_csum (c : Z) (h : TcpHeader) : TcpHeader :=
  mkTcp (t_src h) (t_dst h) (t_seq h) (t_ack h) (data_offset_flags h) (t_window h) c (t_urgent h).

(** The segment [send_raw] builds. *)
Definition tcp_segment (dst : Z) (h : TcpHeader) (payload : packet) : packet :=
  tcp_bytes (with_csum (tcp_checksum 0 dst (tcp_bytes h ++ payload)) h) ++ payload.

Definition tcp_frame (src dst : Z) (h : TcpHeader) (payload : packet) : packet :=
  ip_frame src dst PROTO_TCP (tcp_segment dst h payload).

Lemma send_raw_frame tx dst h payload w : send_raw tx dst h payload w = tx (tcp_frame (local_ip w) dst h payload) w.
Proof. done. Qed.

Lemma send_raw_online dev w n dst h payload :
  online dev w →
  send_raw (transmit (S n)) dst h payload w = Ok (tt, sent_as (push_sent dev w (tcp_frame (local_ip w) dst h payload)) w).
Proof. intros. rewrite send_raw_frame. by apply transmit_online. Qed.

(** ** Taking frames apart *)
Lemma length_ip_frame src dst proto payload : length (ip_frame src dst proto payload) = (20 + length payload)%nat.
Proof. unfold ip_frame. by rewrite length_app. Qed.

Lemma ip_receive_frame tx src dst proto payload w :
  is_u8 proto →
  ip_receive tx (ip_frame src dst proto payload) w =
  let hdr := ip_new src dst proto (wrap 16 (Z.of_nat (length payload))) in
  (if proto =? PROTO_TCP then tcp_receive tx hdr payload
   else if proto =? PROTO_UDP then udp_receive hdr payload
   else if proto =? PROTO_ICMP then icmp_receive tx hdr payload else skip) w.
Proof.
  intros Hp. unfold ip_receive. rewrite length_ip_frame. cbn [Nat.add Nat.ltb Nat.leb].
  unfold ip_frame. rewrite ip_cast_bytes by (by apply ip_new_wf).
  set (hdr := ip_new _ _ _ _). change (version hdr) with 4. change (ihl hdr) with 20. change (protocol hdr) with proto.
  change (Z.to_nat 20) with 20%nat.
  match goal with |- context [?a <? 20] => destruct (Z.ltb_spec a 20); [lia|] end. cbn [negb Z.eqb Pos.eqb].
  by rewrite (drop_app_length' (ip_bytes hdr)) by done.
Qed.

Lemma ip_new_addrs src dst proto len :
  is_u32 src → is_u32 dst →
  to_be 4 (ip_src (ip_new src dst proto len)) = src ∧ to_be 4 (ip_dst (ip_new src dst proto len)) = dst.
Proof. intros. cbn. split; by apply to_be_32. Qed.

Lemma complement_range s : is_u16 (complement s).
Proof. unfold complement. apply wnot_range. by apply wrap_range. Qed.
#[export] Hint Resolve complement_range : words.

Lemma tcp_new_wf sp dp seq ack fl wnd : tcp_wf (tcp_new sp dp seq ack fl wnd).
Proof. unfold tcp_wf, tcp_new. cbn [t_src t_dst t_seq t_ack data_offset_flags t_window t_csum t_urgent]. split_and!; auto with words; unfold in_range; lia. Qed.

Lemma tcp_segment_cast dst h payload : tcp_wf h → tcp_cast (tcp_segment dst h payload) = with_csum (tcp_checksum 0 dst (tcp_bytes h ++ payload)) h.
Proof.
  intros (? & ? & ? & ? & ? & ? & ? & ?). apply tcp_cast_bytes. unfold tcp_wf, with_csum.
  cbn [t_src t_dst t_seq t_ack data_offset_flags t_window t_csum t_urgent]. split_and!; auto. apply complement_range.
Qed.

(** Flags of a header built with [TcpHeader::new]. *)
Definition plain_flags (fl : Z) : Prop := 0 ≤ fl < 512.

Lemma offset_flags fl : plain_flags fl → Z.lor (Z.shiftl 5 12) fl = 20480 + fl.
Proof.
  unfold plain_flags. intros Hf. change (Z.shiftl 5 12) with (Z.shiftl 40 9). rewrite Z.lor_comm.
  assert (fl + 20480 = Z.lor fl (Z.shiftl 40 9) + Z.land fl (Z.shiftl 40 9)) as E
    by (symmetry; apply (Z.add_lor_land fl (Z.shiftl 40 9))).
  enough (Z.land fl (Z.shiftl 40 9) = 0) as E' by (rewrite E', Z.add_0_r in E; rewrite <- E; apply Z.add_comm).
  apply Z.bits_inj'. intros i Hi. rewrite Z.land_spec, Z.bits_0, Z.shiftl_spec by done.
  destruct (Z.lt_ge_cases i 9).
  - rewrite (Z.testbit_neg_r 40) by lia. by rewrite andb_false_r.
  - by rewrite (testbit_above 9 fl) by (unfold in_range; lia).
Qed.

Lemma tcp_new_flags sp dp seq ack fl wnd c f :
  plain_flags fl → has (with_csum c (tcp_new sp dp seq ack fl wnd)) f = negb (Z.land fl f =? 0).
Proof.
  intros Hf. unfold has, flags. cbn [with_csum tcp_new data_offset_flags].
  rewrite to_be_16, offset_flags by (rewrite ?offset_flags by done; unfold in_range, plain_flags in *; lia || done).
  change 511 with (Z.ones 9). rewrite Z.land_ones by done. change (2 ^ 9) with 512.
  replace (20480 + fl) with (fl + 40 * 512) by lia. rewrite Z.mod_add by done.
  by rewrite Z.mod_small by (unfold plain_flags in *; lia).
Qed.

Lemma tcp_new_offset sp dp seq ack fl wnd c :
  plain_flags fl → data_offset (with_csum c (tcp_new sp dp seq ack fl wnd)) = 20.
Proof.
  intros Hf. unfold data_offset. cbn [with_csum tcp_new data_offset_flags].
  rewrite to_be_16, offset_flags by (rewrite ?offset_flags by done; unfold in_range, plain_flags in *; lia || done).
  rewrite Z.shiftr_div_pow2 by done. change (2 ^ 12) with 4096.
  replace (20480 + fl) with (fl + 5 * 4096) by lia. rewrite Z.div_add by done.
  by rewrite Z.div_small by (unfold plain_flags in *; lia).
Qed.

(** ** Echo requests *)
Lemma icmp_reply_shape a b c d rest :
  Forall is_u8 (a :: b :: c :: d :: rest) → Z.of_nat (length (a :: b :: c :: d :: rest)) < 65536 →
  ∃ hi lo, icmp_reply (a :: b :: c :: d :: rest) = 0 :: b :: hi :: lo :: rest ∧
    is_u8 hi ∧ is_u8 lo ∧ be16 hi lo = icmp_checksum (0 :: b :: 0 :: 0 :: rest).
Proof.
  intros Hb Hlen. apply Forall_cons in Hb as [Ha Hb].
  assert (Forall is_u8 (0 :: b :: 0 :: 0 :: rest)) as Hz.
  { apply Forall_cons in Hb as [? Hb]. apply Forall_cons in Hb as [_ Hb]. apply Forall_cons in Hb as [_ Hb].
    do 4 (apply Forall_cons_2; [done|]). done. }
  unfold icmp_reply. cbn [insert list_insert].
  assert (is_u16 (icmp_checksum (0 :: b :: 0 :: 0 :: rest))) as Hc by apply complement_range.
  set (cs := icmp_checksum _) in *. eexists _, _. split; [done|].
  rewrite Z.shiftr_div_pow2 by done. change 255 with (Z.ones 8). rewrite Z.land_ones by done. change (2 ^ 8) with 256.
  unfold in_range in Hc. change (2 ^ 16) with 65536 in Hc.
  pose proof (Z.mod_pos_bound cs 256 eq_refl). pose proof (Z.div_mod cs 256 ltac:(lia)).
  assert (0 ≤ cs / 256 < 256) by (split; [apply Z.div_pos; lia|apply Z.div_lt_upper_bound; lia]).
  rewrite wrap_small by (unfold in_range; lia). unfold be16, in_range. change (2 ^ 8) with 256. lia.
Qed.

Lemma icmp_reply_valid a b c d rest :
  Forall is_u8 (a :: b :: c :: d :: rest) → Z.of_nat (length (a :: b :: c :: d :: rest)) < 65536 →
  icmp_checksum (icmp_reply (a :: b :: c :: d :: rest)) = 0.
Proof.
  intros Hb Hlen. destruct (icmp_reply_shape _ _ _ _ _ Hb Hlen) as (hi & lo & -> & Hhi & Hlo & Hsum).
  apply Forall_cons in Hb as [_ Hb]. apply Forall_cons in Hb as [Hb0 Hb].
  apply Forall_cons in Hb as [_ Hb]. apply Forall_cons in Hb as [_ Hb].
  assert (∀ x y, is_u8 x → is_u8 y → Forall is_u8 (0 :: b :: x :: y :: rest)) as Hf by (intros; do 4 (apply Forall_cons_2; [done|]); done).
  rewrite icmp_checksum_spec in Hsum by first [exact Hlen | apply Hf; done].
  rewrite icmp_checksum_spec by first [exact Hlen | apply Hf; done].
  set (z := 0 :: b :: 0 :: 0 :: rest) in *.
  replace (word_sum (0 :: b :: hi :: lo :: rest)) with (word_sum z + (65535 - ones_sum (word_sum z))).
  - rewrite ones_sum_complement; [done|]. apply word_sum_bound, Hf; done.
  - rewrite <- Hsum. unfold z. cbn [word_sum]. unfold be16. lia.
Qed.

(** The answer to an echo request, if it is handled with the lock of the card
    free ([receive_poll_deadlocks] is what the driver does): one frame,
    to the sender: an echo reply with a correct checksum that repeats code,
    identifier, sequence number and data of the request. *)
Theorem icmp_echo dev w n src request :
  online dev w → is_u32 src → is_u32 (local_ip w) →
  Forall is_u8 request → (8 ≤ length request)%nat → Z.of_nat (length request) < 65536 → request !! 0%nat = Some 8 →
  ∃ reply,
    ip_receive (transmit (S n)) (ip_frame src (local_ip w) PROTO_ICMP request) w =
      Ok (tt, sent_as (push_sent dev w (ip_frame (local_ip w) src PROTO_ICMP reply)) w) ∧
    icmp_checksum reply = 0 ∧ reply !! 0%nat = Some 0 ∧ reply !! 1%nat = request !! 1%nat ∧ drop 4 reply = drop 4 request.
Proof.
  intros Hon Hs Hl Hb Hmin Hmax Htype. exists (icmp_reply request).
  rewrite ip_receive_frame by done. cbn [Z.eqb Pos.eqb PROTO_ICMP PROTO_TCP PROTO_UDP].
  destruct request as [|a [|b [|c [|d rest]]]]; cbn [length] in Hmin; try lia. injection Htype as ->.
  split.
  - unfold icmp_receive. destruct (Nat.ltb_spec (length (8 :: b :: c :: d :: rest)) 8); [cbn [length] in *; lia|].
    cbn [Z.eqb Pos.eqb]. rewrite (proj1 (ip_new_addrs _ _ _ _ Hs Hl)), ip_send_frame. by apply transmit_online.
  - split; [by apply icmp_reply_valid|].
    destruct (icmp_reply_shape 8 b c d rest Hb Hmax) as (hi & lo & -> & _ & _). done.
Qed.

(** [receive_poll] holds the lock of the card while the stack handles the
    packets, and answering takes that lock: an echo request stops the kernel. *)
Theorem receive_poll_deadlocks dev w fuel src request :
  online dev w → is_u32 src → is_u32 (local_ip w) →
  (8 ≤ length request)%nat → request !! 0%nat = Some 8 →
  receive_poll (S fuel) [ip_frame src (local_ip w) PROTO_ICMP request] w = Err Deadlock.
Proof.
  intros [Hn Hh] Hs Hl Hmin Htype. unfold receive_poll.
  rewrite (bind_ok _ _ w tt w) by (unfold lock_nic; by rewrite Hh). rewrite bind_gets, Hn.
  apply bind_err. net_run. apply bind_err. cbn [foldr]. apply bind_err.
  rewrite ip_receive_frame by done. cbn [Z.eqb Pos.eqb PROTO_ICMP PROTO_TCP PROTO_UDP].
  destruct request as [|a rest]; cbn [length] in Hmin; [lia|]. injection Htype as ->.
  unfold icmp_receive. destruct (Nat.ltb_spec (length (8 :: rest)) 8); [cbn [length] in *; lia|].
  cbn [Z.eqb Pos.eqb]. rewrite ip_send_frame. cbn [transmit]. apply bind_err. done.
Qed.

(** ** Witnesses *)
Definition any_card : list packet → packet → bool := λ _ _, true.
Definition demo_table : Table := mkTable ∅ 2 1.
(** A machine with address 10.0.0.[n]. *)
Definition demo_net (n : Z) : Net :=
  mkNet (0x0A000000 + n) 0 [] ∅ ∅ false ∅ ∅ 49152 demo_table (λ _, 0) 0 (Some any_card) false [] [].

Lemma icmp_echo_witness :
  ∃ reply,
    ip_receive (transmit 1) (ip_frame 0x0A000002 0x0A000001 PROTO_ICMP [8; 0; 0; 0; 1; 2; 3; 4; 5]) (demo_net 1) =
      Ok (tt, sent_as (push_sent any_card (demo_net 1) (ip_frame 0x0A000001 0x0A000002 PROTO_ICMP reply)) (demo_net 1)) ∧
    icmp_checksum reply = 0 ∧ reply !! 0%nat = Some 0 ∧ reply !! 1%nat = Some 0 ∧ drop 4 reply = [1; 2; 3; 4; 5].
Proof.
  apply (icmp_echo any_card (demo_net 1) 0 0x0A000002 [8; 0; 0; 0; 1; 2; 3; 4; 5]);
    [done|done|done|repeat (constructor; [done|]); constructor|cbn; lia|done|done].
Defined.

Lemma receive_poll_deadlocks_witness :
  receive_poll 1 [ip_frame 0x0A000002 0x0A000001 PROTO_ICMP [8; 0; 0; 0; 1; 2; 3; 4]] (demo_net 1) = Err Deadlock.
Proof.
  apply (receive_poll_deadlocks any_card (demo_net 1) 0 0x0A000002 [8; 0; 0; 0; 1; 2; 3; 4]); [done|done|done|cbn; lia|done].
Defined.
