(* ===== verification/NetTcp.v ===== *)
(** * TCP between two machines

    Theorems on kernel/src/net/tcp/mod.rs: what polling the card does with
    data segments, that no operation and no packet makes the stack panic, and
    what happens without a card.  The handshake and the stream a connection
    delivers are shown of the protocol code on its own, called with the lock
    of the card free; the driver holds that lock while it hands over packets,
    so that the kernel stops where this code answers ([poll_data_segment]). *)
From S2P Require Import Prelude Process Inet Net NetFacts.

Definition receive_all (tx : packet → NetM unit) (frames : list packet) : NetM unit :=
  foldr (λ p k, ip_receive tx p;; k) skip frames.

(** A key whose fields fit their types, and the key of the other side. *)
Definition key_ok (k : ConnKey) : Prop := is_u32 (k_lip k) ∧ is_u16 (k_lport k) ∧ is_u32 (k_rip k) ∧ is_u16 (k_rport k).
Definition flip_key (k : ConnKey) : ConnKey := mkKey (k_rip k) (k_rport k) (k_lip k) (k_lport k).

(** The frame the owner of [k] sends with this header and payload. *)
Definition key_frame (k : ConnKey) (seq ack fl : Z) (payload : packet) : packet :=
  tcp_frame (k_lip k) (k_rip k) (tcp_new (k_lport k) (k_rport k) seq ack fl TCP_WINDOW) payload.

Definition key_header (k : ConnKey) (seq ack fl : Z) (payload : packet) : TcpHeader :=
  let h := tcp_new (k_lport k) (k_rport k) seq ack fl TCP_WINDOW in
  with_csum (tcp_checksum 0 (k_rip k) (tcp_bytes h ++ payload)) h.

(** ** Receiving a frame *)
Lemma receive_frame tx k seq ack fl payload w :
  key_ok k → is_u32 seq → is_u32 ack → plain_flags fl → tcp_held w = false →
  ip_receive tx (key_frame k seq ack fl payload) w =
  match tsocks w !! flip_key k with
  | Some sock =>
      (sock ← handle_segment tx sock (key_header k seq ack fl payload) seq ack payload (k_lip k);
       put_tsock (flip_key k) sock;; unlock_tcp) (set_tcp_held true w)
  | None =>
      (if negb (Z.land fl TCP_SYN =? 0) && negb (negb (Z.land fl TCP_ACK =? 0)) &&
          bool_decide (is_Some (tsocks w !! mkKey (k_rip k) (k_rport k) 0 0)) then
         let sock := set_tstate SynReceived (set_snd ISN (wadd 32 ISN 1)
                       (set_rcv (wadd 32 seq 1) [] (tcp_socket_new (k_rip k) (k_rport k) (k_lip k) (k_lport k)))) in
         unlock_tcp;;
         send_raw tx (k_lip k) (tcp_new (k_rport k) (k_lport k) ISN (wadd 32 seq 1) (Z.lor TCP_SYN TCP_ACK) TCP_WINDOW) [];;
         lock_tcp;; put_tsock (flip_key k) sock;; unlock_tcp
       else unlock_tcp) (set_tcp_held true w)
  end.
Proof.
  intros (Hlip & Hlp & Hrip & Hrp) Hseq Hack Hfl Hheld. unfold key_frame, tcp_frame.
  rewrite ip_receive_frame by done. cbn [Z.eqb Pos.eqb PROTO_TCP]. unfold tcp_receive.
  rewrite tcp_segment_cast by apply tcp_new_wf. fold (key_header k seq ack fl payload).
  set (hdr := key_header k seq ack fl payload).
  assert (to_be 2 (t_src hdr) = k_lport k ∧ to_be 2 (t_dst hdr) = k_rport k ∧ to_be 4 (t_seq hdr) = seq ∧ to_be 4 (t_ack hdr) = ack)
    as (-> & -> & -> & ->) by (unfold hdr, key_header; cbn [with_csum tcp_new t_src t_dst t_seq t_ack]; by rewrite !to_be_16, !to_be_32).
  rewrite (proj1 (ip_new_addrs _ _ _ _ Hlip Hrip)), (proj2 (ip_new_addrs _ _ _ _ Hlip Hrip)).
  assert (data_offset hdr = 20) as -> by (by apply tcp_new_offset). change (Z.to_nat 20) with 20%nat.
  unfold tcp_segment. set (h := with_csum _ _). rewrite length_app. change (length (tcp_bytes h)) with 20%nat.
  cbn [Nat.add Nat.ltb Nat.leb]. rewrite (drop_app_length' (tcp_bytes h)) by done.
  assert (has hdr TCP_SYN = negb (Z.land fl TCP_SYN =? 0) ∧ has hdr TCP_ACK = negb (Z.land fl TCP_ACK =? 0))
    as [-> ->] by (split; by apply tcp_new_flags).
  rewrite bind_lock by done. rewrite bind_gets. cbn [tsocks set_tcp_held]. unfold flip_key.
  destruct (tsocks w !! _); [done|]. by destruct (_ && _ && _).
Qed.

(** What a data segment does to an established connection. *)
Definition accept_segment (seq ack : Z) (payload : packet) (s : TcpSocket) : TcpSocket :=
  let s := if negb (bool_decide (payload = [])) && (seq =? rcv_nxt s) then
             set_rcv (wadd 32 (rcv_nxt s) (wrap 32 (Z.of_nat (length payload)))) (recv_buf s ++ payload) s else s in
  set_snd ack (snd_nxt s) s.

(** The world after the socket of [k] changed and perhaps a frame left. *)
Definition net_update (k : ConnKey) (s : TcpSocket) (fs : list packet) (w : Net) : Net :=
  sent_as fs (set_tsocks (<[k := s]> (tsocks w)) w).

Lemma online_update dev k s fs w : online dev w → online dev (net_update k s fs w).
Proof. done. Qed.

Lemma finish_segment dev w k s fs :
  online dev w → tcp_held w = false →
  (put_tsock k s;; unlock_tcp) (sent_as fs (set_tcp_held true w)) = Ok (tt, net_update k s fs w).
Proof.
  intros _ Hh. unfold put_tsock. rewrite bind_modify. unfold unlock_tcp, modify, net_update, sent_as. do 2 f_equal.
  destruct w. cbn in *. by rewrite Hh.
Qed.

Lemma send_ack_online dev w n dst s :
  online dev w → ∃ fs, send_ack (transmit (S n)) dst s (set_tcp_held true w) = Ok (tt, sent_as fs (set_tcp_held true w)).
Proof. intros Hon. eexists. unfold send_ack. by apply (send_raw_online dev). Qed.

Lemma receive_data dev w n k seq ack payload s :
  online dev w → tcp_held w = false → key_ok k → is_u32 seq → is_u32 ack →
  tsocks w !! flip_key k = Some s → ts_state s = Established →
  ∃ fs, ip_receive (transmit (S n)) (key_frame k seq ack (Z.lor TCP_PSH TCP_ACK) payload) w =
    Ok (tt, net_update (flip_key k) (accept_segment seq ack payload s) fs w).
Proof.
  intros Hon Hh Hk Hseq Hack Hs Hst. rewrite receive_frame by (done || (unfold plain_flags; cbn; lia)). rewrite Hs.
  set (hdr := key_header _ _ _ _ _).
  assert (∀ f, has hdr f = negb (Z.land 24 f =? 0)) as Hhas by (intros f; apply tcp_new_flags; unfold plain_flags; lia).
  unfold handle_segment. rewrite !Hhas, Hst.
  change (negb (Z.land 24 TCP_RST =? 0)) with false. change (negb (Z.land 24 TCP_FIN =? 0)) with false.
  change (negb (Z.land 24 TCP_ACK =? 0)) with true. cbv iota.
  unfold accept_segment. destruct (negb (bool_decide (payload = [])) && (seq =? rcv_nxt s)).
  - set (s' := set_rcv _ _ _). destruct (send_ack_online dev w n (k_lip k) s' Hon) as [fs Hsend]. exists fs.
    rewrite !bind_assoc. rewrite (bind_ok _ _ _ _ _ Hsend). net_run. by apply (finish_segment dev).
  - exists (sent w). net_run. exact (finish_segment dev w _ _ (sent w) Hon Hh).
Qed.

(** ** Sending *)
Definition mss : Z := Z.of_nat TCP_MSS.

(** The frame of chunk [i] of [data]. *)
Definition chunk_frame (k : ConnKey) (seq rcv : Z) (data : packet) (i : nat) : packet :=
  key_frame k (wadd 32 seq (mss * Z.of_nat i)) rcv (Z.lor TCP_PSH TCP_ACK) (take TCP_MSS (drop (TCP_MSS * i) data)).

(** The number of chunks. *)
Definition chunks (n : nat) : nat := ((n + 1459) / 1460)%nat.

Lemma chunk_index n i : (i < chunks n ↔ TCP_MSS * i < n)%nat.
Proof. unfold chunks, TCP_MSS. split; intros; nat_div_lia. Qed.

Lemma send_chunks_online dev w n k seq rcv data fuel i :
  online dev w → local_ip w = k_lip k → Z.of_nat (length data) < 2 ^ 32 →
  (chunks (length data) - i ≤ fuel)%nat → (i ≤ chunks (length data))%nat →
  ∃ fs, send_chunks (transmit (S n)) fuel k seq rcv (Z.of_nat i) (drop (TCP_MSS * i) data) w = Ok (tt, sent_as (sent w ++ fs) w) ∧
    fs `sublist_of` map (chunk_frame k seq rcv data) (List.seq i (chunks (length data) - i)) ∧
    ((∀ l f, dev l f = true) → fs = map (chunk_frame k seq rcv data) (List.seq i (chunks (length data) - i))).
Proof.
  intros Hon Hip Hlen. revert w i Hon Hip. induction fuel as [|fuel IH]; intros w i Hon Hip Hf Hi.
  - exists []. replace (chunks (length data) - i)%nat with 0%nat by lia.
    assert (drop (TCP_MSS * i) data = []) as ->.
    { apply drop_ge. pose proof (chunk_index (length data) i). lia. }
    cbn [send_chunks]. rewrite app_nil_r, sent_as_id. by split_and!.
  - destruct (decide (i < chunks (length data))%nat) as [Hlt|Hge].
    2:{ exists []. replace (chunks (length data) - i)%nat with 0%nat by lia.
        assert (drop (TCP_MSS * i) data = []) as ->.
        { apply drop_ge. pose proof (chunk_index (length data) i). lia. }
        cbn [send_chunks]. rewrite app_nil_r, sent_as_id. by split_and!. }
    pose proof (proj1 (chunk_index _ _) Hlt) as Hb.
    destruct (drop (TCP_MSS * i) data) as [|x rest] eqn:Hd.
    { apply (f_equal length) in Hd. rewrite length_drop in Hd. cbn [length] in Hd. lia. }
    rewrite <- Hd. clear x rest Hd.
    assert (∀ rest, (match drop (TCP_MSS * i) data with [] => skip | _ => rest end : NetM unit) = rest) as Hm.
    { intros. destruct (drop (TCP_MSS * i) data) eqn:Hd; [|done].
      apply (f_equal length) in Hd. rewrite length_drop in Hd. cbn [length] in Hd. lia. }
    cbn [send_chunks]. rewrite Hm. clear Hm.
    replace (wadd 32 seq (wrap 32 (wmul 64 (Z.of_nat i) (Z.of_nat TCP_MSS)))) with (wadd 32 seq (mss * Z.of_nat i)).
    2:{ assert (0 ≤ Z.of_nat i * mss < 2 ^ 32).
        { unfold mss. rewrite <- Nat2Z.inj_mul. rewrite Nat.mul_comm. lia. }
        unfold wmul. fold mss. rewrite (wrap_small 64) by (unfold in_range; lia). rewrite wrap_small by done.
        by rewrite Z.mul_comm. }
    rewrite (bind_ok _ _ _ _ _ (send_raw_online dev w n _ _ _ Hon)).
    rewrite drop_drop. replace (TCP_MSS * i + TCP_MSS)%nat with (TCP_MSS * S i)%nat by lia.
    replace (Z.of_nat i + 1) with (Z.of_nat (S i)) by lia.
    rewrite Hip. fold (key_frame k (wadd 32 seq (mss * Z.of_nat i)) rcv (Z.lor TCP_PSH TCP_ACK) (take TCP_MSS (drop (TCP_MSS * i) data))).
    fold (chunk_frame k seq rcv data i).
    set (w1 := sent_as (push_sent dev w (chunk_frame k seq rcv data i)) w).
    destruct (IH w1 (S i)) as (fs & Hrun & Hsub & Hall); [done|done|lia|lia|].
    rewrite Hrun. change (sent w1) with (push_sent dev w (chunk_frame k seq rcv data i)).
    assert ((length (chunk_frame k seq rcv data i) <=? 1514)%nat = true) as Hfl.
    { unfold chunk_frame, key_frame, tcp_frame. rewrite length_ip_frame. unfold tcp_segment. rewrite length_app, length_take.
      change (length (tcp_bytes _)) with 20%nat. apply Nat.leb_le. unfold TCP_MSS. lia. }
    replace (chunks (length data) - i)%nat with (S (chunks (length data) - S i)) by lia. cbn [List.seq map].
    unfold push_sent. rewrite Hfl. cbn [andb]. destruct (dev (sent w) (chunk_frame k seq rcv data i)) eqn:Hdev.
    + exists (chunk_frame k seq rcv data i :: fs). rewrite <- app_assoc. split; [done|].
      split; [by constructor|]. intros Hd. by rewrite Hall.
    + exists fs. split; [done|]. split; [by constructor|]. intros Hd. by rewrite Hd in Hdev.
Qed.

(** ** The receiver's progress

    [c] chunks have been taken; the next one in order is taken, any other is
    ignored. *)
Definition advance (idx : list nat) (c : nat) : nat := foldl (λ c i, if decide (i = c) then S c else c) c idx.

Lemma advance_cons i idx c : advance (i :: idx) c = advance idx (if decide (i = c) then S c else c).
Proof. done. Qed.

Lemma advance_bound idx c n : Forall (λ i, i < n)%nat idx → (c ≤ n)%nat → (advance idx c ≤ n)%nat.
Proof.
  intros Hi. revert c. induction Hi as [|i idx Hi His IH]; intros c Hc; [done|].
  rewrite advance_cons. apply IH. case_decide; lia.
Qed.

Lemma advance_complete idx c m cur :
  List.seq c m `sublist_of` idx → (c ≤ cur)%nat → (c + m ≤ advance idx cur)%nat.
Proof.
  revert c m cur. induction idx as [|i idx IH]; intros c m cur Hsub Hc.
  - apply sublist_nil_r in Hsub. destruct m; [cbn; lia|done].
  - rewrite advance_cons. apply sublist_cons_r in Hsub as [Hsub|(l' & Hl' & Hsub)].
    + apply IH; [done|]. case_decide; lia.
    + destruct m as [|m]; [done|]. cbn [List.seq] in Hl'. injection Hl' as <- <-.
      specialize (IH (S c) m (if decide (c = cur) then S cur else cur) Hsub).
      case_decide; lia.
Qed.

Section Progress.
Context (dev : list packet → packet → bool) (n : nat) (k : ConnKey) (seq rcv : Z) (data buf : packet).
Hypothesis Hk : key_ok k.
Hypothesis Hrcv : is_u32 rcv.
Hypothesis Hlen : Z.of_nat (length data) < 2 ^ 32.

(** The receiver of the stream after [c] chunks. *)
Definition receiver (c : nat) (w : Net) : Prop :=
  online dev w ∧ tcp_held w = false ∧
  ∃ s, tsocks w !! flip_key k = Some s ∧ ts_state s = Established ∧
    recv_buf s = buf ++ take (TCP_MSS * c) data ∧
    rcv_nxt s = wadd 32 seq (Z.min (mss * Z.of_nat c) (Z.of_nat (length data))).

Lemma wadd_inj a b : 0 ≤ a < 2 ^ 32 → 0 ≤ b < 2 ^ 32 → wadd 32 seq a = wadd 32 seq b → a = b.
Proof.
  unfold wadd, wrap. intros Ha Hb E. apply (f_equal (λ x, (x - seq) mod 2 ^ 32)) in E.
  rewrite !Zminus_mod_idemp_l in E. replace (seq + a - seq) with a in E by lia.
  replace (seq + b - seq) with b in E by lia. by rewrite !Z.mod_small in E.
Qed.

Lemma mss_index i : mss * Z.of_nat i = Z.of_nat (TCP_MSS * i).
Proof. unfold mss. lia. Qed.

Lemma receive_chunk w c i :
  receiver c w → (i < chunks (length data))%nat →
  ∃ w', ip_receive (transmit (S n)) (chunk_frame k seq rcv data i) w = Ok (tt, w') ∧
    receiver (if decide (i = c) then S c else c) w'.
Proof.
  intros (Hon & Hh & s & Hs & Hst & Hbuf & Hnxt) Hi. apply chunk_index in Hi.
  destruct (receive_data dev w n k (wadd 32 seq (mss * Z.of_nat i)) rcv (take TCP_MSS (drop (TCP_MSS * i) data)) s)
    as [fs Hrun]; [done|done|done|by apply wrap_range|done|done|done|].
  fold (chunk_frame k seq rcv data i) in Hrun. eexists. split; [exact Hrun|].
  split; [done|]. split; [done|]. eexists. split; [apply lookup_insert_eq|].
  unfold accept_segment.
  assert (take TCP_MSS (drop (TCP_MSS * i) data) ≠ []) as Hne.
  { intros E. apply (f_equal length) in E.
    rewrite length_take, length_drop in E. cbn [length] in E. unfold TCP_MSS in *. lia. }
  rewrite (bool_decide_eq_false_2 _ Hne), Hnxt. cbn [negb andb]. clear Hne.
  destruct (Z.eqb_spec (wadd 32 seq (mss * Z.of_nat i)) (wadd 32 seq (Z.min (mss * Z.of_nat c) (Z.of_nat (length data))))) as [E|Hne].
  - apply wadd_inj in E; [|rewrite mss_index; lia|rewrite mss_index; lia].
    assert (i = c) as -> by (rewrite !mss_index in E; unfold TCP_MSS in *; lia).
    rewrite decide_True by done. cbn [ts_state set_snd set_rcv recv_buf rcv_nxt]. split; [done|].
    rewrite Hbuf, <- app_assoc. split.
    + f_equal. replace (TCP_MSS * S c)%nat with (TCP_MSS * c + TCP_MSS)%nat by lia. by rewrite take_take_drop.
    + rewrite length_take, length_drop. rewrite (wrap_small 32) by (unfold in_range; lia).
      unfold wadd, wrap. rewrite Zplus_mod_idemp_l. f_equal. rewrite !mss_index. unfold TCP_MSS in *. lia.
  - rewrite decide_False by (intros ->; apply Hne; f_equal; rewrite mss_index; unfold TCP_MSS in *; lia).
    by split_and!.
Qed.

Lemma receive_chunks idx w c :
  receiver c w → Forall (λ i, i < chunks (length data))%nat idx →
  ∃ w', receive_all (transmit (S n)) (map (chunk_frame k seq rcv data) idx) w = Ok (tt, w') ∧ receiver (advance idx c) w'.
Proof.
  intros Hw His. revert w c Hw. induction His as [|i idx Hi His IH]; intros w c Hw; [by exists w|].
  destruct (receive_chunk w c i Hw Hi) as (w1 & Hrun & Hw1).
  destruct (IH w1 _ Hw1) as (w2 & Hrun2 & Hw2). exists w2. split; [|done].
  cbn [map receive_all foldr]. by rewrite (bind_ok _ _ _ _ _ Hrun).
Qed.

Lemma chunk_frame_inj i j :
  (i < chunks (length data))%nat → (j < chunks (length data))%nat →
  chunk_frame k seq rcv data i = chunk_frame k seq rcv data j → i = j.
Proof.
  intros Hi%chunk_index Hj%chunk_index E. apply (f_equal (λ f, to_be 4 (t_seq (tcp_cast (drop 20 f))))) in E.
  unfold chunk_frame, key_frame, tcp_frame, ip_frame in E.
  do 2 (rewrite (drop_app_length' (ip_bytes _)) in E by done; rewrite tcp_segment_cast in E by apply tcp_new_wf).
  cbn [with_csum tcp_new t_seq] in E. rewrite !to_be_32 in E by (by apply wrap_range).
  apply wadd_inj in E; [|rewrite mss_index; lia|rewrite mss_index; lia]. unfold mss, TCP_MSS in E. lia.
Qed.
End Progress.

(** ** Two connected machines *)
Definition seq_ok (s : TcpSocket) : Prop := is_u32 (snd_nxt s) ∧ is_u32 (rcv_nxt s).

Record connected (devA devB : list packet → packet → bool) (k : ConnKey) (wA wB : Net) (a b : TcpSocket) : Prop := {
  conn_key : key_ok k;
  conn_online : online devA wA ∧ online devB wB;
  conn_free : tcp_held wA = false ∧ tcp_held wB = false;
  conn_ips : local_ip wA = k_lip k ∧ local_ip wB = k_rip k;
  conn_socks : tsocks wA !! k = Some a ∧ tsocks wB !! flip_key k = Some b;
  conn_states : ts_state a = Established ∧ ts_state b = Established;
  conn_seqs : rcv_nxt b = snd_nxt a ∧ rcv_nxt a = snd_nxt b;
  conn_ranges : seq_ok a ∧ seq_ok b;
}.

Lemma send_data_online dev w n k s data :
  online dev w → tcp_held w = false → local_ip w = k_lip k → tsocks w !! k = Some s → ts_state s = Established →
  Z.of_nat (length data) < 2 ^ 32 →
  ∃ fs, send_data (transmit (S n)) k data w =
      Ok (Z.of_nat (length data), net_update k (set_snd (snd_una s) (wadd 32 (snd_nxt s) (Z.of_nat (length data))) s) (sent w ++ fs) w) ∧
    fs `sublist_of` map (chunk_frame k (snd_nxt s) (rcv_nxt s) data) (List.seq 0 (chunks (length data))) ∧
    ((∀ l f, dev l f = true) → fs = map (chunk_frame k (snd_nxt s) (rcv_nxt s) data) (List.seq 0 (chunks (length data)))).
Proof.
  intros Hon Hh Hip Hs Hst Hlen. unfold send_data. rewrite bind_lock by done. rewrite bind_gets. cbn [tsocks set_tcp_held].
  rewrite Hs, decide_True by done. unfold put_tsock, unlock_tcp. rewrite !bind_modify.
  rewrite (wrap_small 32 (Z.of_nat (length data))) by (unfold in_range; lia).
  set (s' := set_snd _ _ _). set (w1 := set_tcp_held _ _).
  destruct (send_chunks_online dev w1 n k (snd_nxt s) (rcv_nxt s) data (length data) 0) as (fs & Hrun & Hsub & Hall);
    [done|done|done|unfold chunks; nat_div_lia|lia|].
  rewrite Nat.sub_0_r in Hsub, Hall. exists fs. split; [|done].
  change (drop (TCP_MSS * 0) data) with (drop 0 data) in Hrun. rewrite drop_0 in Hrun.
  rewrite (bind_ok _ _ _ _ _ Hrun). unfold mret, NetM_ret. do 2 f_equal.
  unfold net_update, w1. destruct w. cbn in Hh |- *. by rewrite Hh.
Qed.

Lemma sublist_map_inv {A B} (f : A → B) (P : A → Prop) l1 l2 :
  (∀ x y, P x → P y → f x = f y → x = y) → Forall P l1 → Forall P l2 →
  map f l1 `sublist_of` map f l2 → l1 `sublist_of` l2.
Proof.
  intros Hinj H1 H2. revert l1 H1. induction H2 as [|y l2 Hy H2 IH]; intros l1 H1 Hsub.
  - apply sublist_nil_r in Hsub. by destruct l1.
  - cbn [map] in Hsub. apply sublist_cons_r in Hsub as [Hsub|(l & E & Hsub)]; [by apply sublist_cons, IH|].
    destruct l1 as [|x l1]; [done|]. injection E as Exy <-. apply Forall_cons in H1 as [Hx H1].
    rewrite (Hinj x y) by done. apply sublist_skip. by apply IH.
Qed.

Lemma frames_indices {A} (f : nat → A) m frames :
  (∀ x, x ∈ frames → x ∈ map f (List.seq 0 m)) → ∃ idx, frames = map f idx ∧ Forall (λ i, i < m)%nat idx.
Proof.
  induction frames as [|x frames IH]; intros Hin; [by exists []|].
  destruct IH as (idx & -> & Hidx); [intros; apply Hin; by right|].
  destruct (proj1 (list_elem_of_fmap _ _ _) (Hin x ltac:(by left))) as (i & -> & Hi).
  exists (i :: idx). split; [done|]. constructor; [|done]. apply elem_of_seq in Hi. lia.
Qed.

(** The protocol code on its own, if packets were handed to it with the lock of
    the card free: between two connected machines the bytes received are a prefix of the
    bytes sent, whatever the network loses, repeats or reorders of the frames
    of a [send_data]; they are all of the bytes when the card takes every
    frame and the frames arrive in order at least once, among others. *)
Theorem tcp_stream devA devB k wA wB a b n data :
  connected devA devB k wA wB a b → Z.of_nat (length data) < 2 ^ 32 →
  ∃ wA' fs, send_data (transmit (S n)) k data wA = Ok (Z.of_nat (length data), wA') ∧ sent wA' = sent wA ++ fs ∧
    ∀ frames, (∀ f, f ∈ frames → f ∈ fs) →
    ∃ wB' b' c, receive_all (transmit (S n)) frames wB = Ok (tt, wB') ∧
      tsocks wB' !! flip_key k = Some b' ∧ ts_state b' = Established ∧ recv_buf b' = recv_buf b ++ take c data ∧
      rcv_nxt b' = wadd 32 (rcv_nxt b) (Z.min (Z.of_nat c) (Z.of_nat (length data))) ∧
      ((∀ l f, devA l f = true) → fs `sublist_of` frames → (length data ≤ c)%nat).
Proof.
  intros [Hk [HonA HonB] [HhA HhB] [HipA HipB] [HsA HsB] [HstA HstB] [Hseq Hseq'] [[Ha1 Ha2] [Hb1 Hb2]]] Hlen.
  destruct (send_data_online devA wA n k a data) as (fs & Hrun & Hsub & Hall); try done.
  eexists _, fs. split; [exact Hrun|]. split; [done|]. intros frames Hin.
  destruct (frames_indices (chunk_frame k (snd_nxt a) (rcv_nxt a) data) (chunks (length data)) frames) as (idx & -> & Hidx).
  { intros f Hf. eapply elem_of_submseteq; [by apply Hin|]. by apply sublist_submseteq. }
  destruct (receive_chunks devB n k (snd_nxt a) (rcv_nxt a) data (recv_buf b) Hk Ha2 Hlen idx wB 0)
    as (wB' & HrunB & HonB' & HhB' & b' & Hb' & Hst' & Hbuf & Hnxt); [|done|].
  { split; [done|]. split; [done|]. exists b. split_and!; [done|done|by rewrite Nat.mul_0_r, app_nil_r|].
    rewrite Hseq. unfold wadd. rewrite Z.min_l by (unfold mss; lia). rewrite Z.mul_0_r, Z.add_0_r. by rewrite wrap_small. }
  exists wB', b', (TCP_MSS * advance idx 0)%nat. split; [done|]. split; [done|]. split; [done|]. split; [done|].
  split; [by rewrite Hseq, Hnxt, mss_index|].
  intros Hdev Hsub'. rewrite (Hall Hdev) in Hsub'.
  apply (sublist_map_inv _ (λ i, i < chunks (length data))%nat) in Hsub'; [|by eapply chunk_frame_inj| |done].
  2:{ apply Forall_forall. intros i Hi%elem_of_seq. lia. }
  apply (advance_complete idx 0 _ 0) in Hsub'; [|done].
  destruct (decide (TCP_MSS * advance idx 0 < length data)%nat) as [H%chunk_index|]; lia.
Qed.

(** ** The handshake *)
Lemma flip_flip k : flip_key (flip_key k) = k.
Proof. by destruct k. Qed.

Lemma key_ok_flip k : key_ok k → key_ok (flip_key k).
Proof. intros (? & ? & ? & ?). by split_and!. Qed.

(** A card that takes every frame. *)
Definition takes_all (dev : list packet → packet → bool) : Prop := ∀ l f, dev l f = true.

Lemma push_control dev w k seq ack fl :
  takes_all dev → push_sent dev w (key_frame k seq ack fl []) = sent w ++ [key_frame k seq ack fl []].
Proof. intros Hd. unfold push_sent. by rewrite Hd. Qed.

Lemma send_key_frame dev w n k seq ack fl :
  online dev w → takes_all dev → local_ip w = k_lip k →
  send_raw (transmit (S n)) (k_rip k) (tcp_new (k_lport k) (k_rport k) seq ack fl TCP_WINDOW) [] w =
  Ok (tt, sent_as (sent w ++ [key_frame k seq ack fl []]) w).
Proof.
  intros Hon Hd Hip. rewrite (send_raw_online dev) by done. rewrite Hip. by rewrite <- push_control with (dev := dev).
Qed.

Definition CLIENT_ISN : Z := 0x12340000.

Lemma connect_online dev w n k :
  online dev w → takes_all dev → tcp_held w = false → local_ip w = k_lip k →
  tcp_connect (transmit (S n)) k w =
  Ok (tt, net_update k (set_snd 0 (CLIENT_ISN + 1) (set_tstate SynSent (tcp_socket_new (k_lip k) (k_lport k) (k_rip k) (k_rport k))))
            (sent w ++ [key_frame k CLIENT_ISN 0 TCP_SYN []]) w).
Proof.
  intros Hon Hd Hh Hip. unfold tcp_connect. rewrite bind_lock by done. unfold put_tsock, unlock_tcp. rewrite !bind_modify.
  rewrite (send_key_frame dev) by done. do 2 f_equal. unfold net_update. destruct w. cbn in Hh |- *. by rewrite Hh.
Qed.

Lemma syn_at_listener dev w n k :
  online dev w → takes_all dev → tcp_held w = false → local_ip w = k_rip k → key_ok k →
  is_Some (tsocks w !! mkKey (k_rip k) (k_rport k) 0 0) → tsocks w !! flip_key k = None →
  ip_receive (transmit (S n)) (key_frame k CLIENT_ISN 0 TCP_SYN []) w =
  Ok (tt, net_update (flip_key k)
            (set_tstate SynReceived (set_snd ISN (ISN + 1) (set_rcv (CLIENT_ISN + 1) [] (tcp_socket_new (k_rip k) (k_rport k) (k_lip k) (k_lport k)))))
            (sent w ++ [key_frame (flip_key k) ISN (CLIENT_ISN + 1) (Z.lor TCP_SYN TCP_ACK) []]) w).
Proof.
  intros Hon Hd Hh Hip Hk Hl Hn. rewrite receive_frame by (done || (unfold plain_flags; cbn; lia)).
  rewrite Hn, bool_decide_true by done.
  change (negb (Z.land TCP_SYN TCP_SYN =? 0)) with true. change (negb (Z.land TCP_SYN TCP_ACK =? 0)) with false.
  cbn [negb andb]. cbv zeta.
  change (wadd 32 CLIENT_ISN 1) with (CLIENT_ISN + 1). change (wadd 32 ISN 1) with (ISN + 1).
  rewrite bind_unlock, held_id by done.
  rewrite (bind_ok _ _ _ _ _ (send_key_frame dev w n (flip_key k) ISN (CLIENT_ISN + 1) (Z.lor TCP_SYN TCP_ACK) Hon Hd Hip)).
  rewrite bind_lock by done. unfold put_tsock. rewrite bind_modify. unfold unlock_tcp, modify. do 2 f_equal.
  unfold net_update. destruct w. cbn in Hh |- *. by rewrite Hh.
Qed.

Lemma synack_at_client dev w n k s :
  online dev w → takes_all dev → tcp_held w = false → local_ip w = k_lip k → key_ok k →
  tsocks w !! k = Some s → ts_key s = k → ts_state s = SynSent →
  let s' := set_tstate Established (set_snd (CLIENT_ISN + 1) (snd_nxt s) (set_rcv (ISN + 1) (recv_buf s) s)) in
  ip_receive (transmit (S n)) (key_frame (flip_key k) ISN (CLIENT_ISN + 1) (Z.lor TCP_SYN TCP_ACK) []) w =
  Ok (tt, net_update k s' (sent w ++ [key_frame k (snd_nxt s) (ISN + 1) TCP_ACK []]) w).
Proof.
  intros Hon Hd Hh Hip Hk Hs Hkey Hst s'.
  rewrite receive_frame by (by apply key_ok_flip || done || (unfold plain_flags; cbn; lia)).
  rewrite flip_flip, Hs. set (hdr := key_header _ _ _ _ _).
  assert (∀ f, has hdr f = negb (Z.land 18 f =? 0)) as Hhas by (intros f; apply tcp_new_flags; unfold plain_flags; lia).
  unfold handle_segment. rewrite !Hhas, Hst. change (negb (Z.land 18 TCP_RST =? 0)) with false.
  change (negb (Z.land 18 (Z.lor TCP_SYN TCP_ACK) =? 0)) with true. cbv iota.
  change (wadd 32 ISN 1) with (ISN + 1). fold s'. rewrite bind_assoc.
  unfold send_ack. change (ts_key s') with (ts_key s). rewrite Hkey. change (k_lip (flip_key k)) with (k_rip k).
  rewrite (bind_ok _ _ _ _ _ (send_key_frame dev (set_tcp_held true w) n k (snd_nxt s') (rcv_nxt s') TCP_ACK Hon Hd Hip)).
  net_run. by apply (finish_segment dev).
Qed.

Lemma ack_at_server dev w n k seq ack s :
  online dev w → tcp_held w = false → key_ok k → is_u32 seq → is_u32 ack →
  tsocks w !! flip_key k = Some s → ts_state s = SynReceived →
  ip_receive (transmit (S n)) (key_frame k seq ack TCP_ACK []) w =
  Ok (tt, net_update (flip_key k) (set_tstate Established s) (sent w) w).
Proof.
  intros Hon Hh Hk Hseq Hack Hs Hst. rewrite receive_frame by (done || (unfold plain_flags; cbn; lia)). rewrite Hs.
  set (hdr := key_header _ _ _ _ _).
  assert (∀ f, has hdr f = negb (Z.land 16 f =? 0)) as Hhas by (intros f; apply tcp_new_flags; unfold plain_flags; lia).
  unfold handle_segment. rewrite !Hhas, Hst. change (negb (Z.land 16 TCP_RST =? 0)) with false.
  change (negb (Z.land 16 TCP_ACK =? 0)) with true. cbv iota. net_run.
  exact (finish_segment dev w _ _ (sent w) Hon Hh).
Qed.

(** The protocol code on its own, with the lock of the card free when packets
    are handed over: the handshake between two machines, the second
    of which listens: [connect] sends a SYN; each of the three frames, when
    it arrives, causes exactly the next one; then both ends are established
    and agree on the sequence numbers of both directions. *)
Theorem tcp_handshake devA devB k wA wB n :
  key_ok k → online devA wA → online devB wB → takes_all devA → takes_all devB →
  tcp_held wA = false → tcp_held wB = false → local_ip wA = k_lip k → local_ip wB = k_rip k →
  is_Some (tsocks wB !! mkKey (k_rip k) (k_rport k) 0 0) → tsocks wB !! flip_key k = None →
  ∃ wA1 syn wB1 synack wA2 ack wB2 a b,
    tcp_connect (transmit (S n)) k wA = Ok (tt, wA1) ∧ sent wA1 = sent wA ++ [syn] ∧
    ip_receive (transmit (S n)) syn wB = Ok (tt, wB1) ∧ sent wB1 = sent wB ++ [synack] ∧
    ip_receive (transmit (S n)) synack wA1 = Ok (tt, wA2) ∧ sent wA2 = sent wA1 ++ [ack] ∧
    ip_receive (transmit (S n)) ack wB1 = Ok (tt, wB2) ∧
    connected devA devB k wA2 wB2 a b ∧ recv_buf a = [] ∧ recv_buf b = [].
Proof.
  intros Hk HonA HonB HdA HdB HhA HhB HipA HipB Hl Hn.
  pose proof (connect_online devA wA n k HonA HdA HhA HipA) as H1.
  pose proof (syn_at_listener devB wB n k HonB HdB HhB HipB Hk Hl Hn) as H2.
  match type of H1 with _ = Ok (tt, net_update _ ?s _ _) => set (sA := s) in * end.
  match type of H2 with _ = Ok (tt, net_update _ ?s _ _) => set (sB := s) in * end.
  match type of H1 with _ = Ok (tt, ?w) => set (wA1 := w) in * end.
  match type of H2 with _ = Ok (tt, ?w) => set (wB1 := w) in * end.
  pose proof (synack_at_client devA wA1 n k sA HonA HdA HhA HipA Hk (lookup_insert_eq _ _ _) ltac:(by destruct k) eq_refl) as H3.
  pose proof (ack_at_server devB wB1 n k (snd_nxt sA) (ISN + 1) sB HonB HhB Hk ltac:(done) ltac:(done) (lookup_insert_eq _ _ _) eq_refl) as H4.
  eexists wA1, _, wB1, _, _, _, _,
    (set_tstate Established (set_snd (CLIENT_ISN + 1) (snd_nxt sA) (set_rcv (ISN + 1) (recv_buf sA) sA))), (set_tstate Established sB).
  split; [exact H1|]. split; [reflexivity|]. split; [exact H2|]. split; [reflexivity|].
  split; [exact H3|]. split; [reflexivity|]. split; [exact H4|].
  split; [|done]. split; try done. split; apply lookup_insert_eq.
Qed.

(** ** Every operation, on any input *)

(** What every connection satisfies: it is stored under its key, its counters
    are 32-bit numbers, it has not received data before it is established,
    and it is never in state [LastAck]. *)
Definition ts_wf (k : ConnKey) (s : TcpSocket) : Prop :=
  ts_key s = k ∧ is_u32 (snd_una s) ∧ is_u32 (snd_nxt s) ∧ is_u32 (rcv_nxt s) ∧ ts_state s ≠ LastAck ∧
  (ts_state s ∈ [Listen; SynSent; SynReceived] → recv_buf s = []).

Definition net_wf (w : Net) : Prop := map_Forall ts_wf (tsocks w).

Section Total.
Context (dev : list packet → packet → bool) (n : nat) (nh : bool).

(** A machine with a card; [nh] says whether the lock of the card is held. *)
Definition good (held : bool) (w : Net) : Prop := nic w = Some dev ∧ nic_held w = nh ∧ loopback w = [] ∧ tcp_held w = held ∧ net_wf w.

(** From a good state, with the lock of the table as [h], [m] returns a value
    that satisfies [Q], in a good state with the lock as [h']; if the lock of
    the card is held it may instead wait for that lock for ever. *)
Definition total {A} (h : bool) (m : NetM A) (Q : A → Prop) (h' : bool) : Prop :=
  ∀ w, good h w → match m w with Ok (a, w') => Q a ∧ good h' w' | Err e => nh = true ∧ e = Deadlock end.

Lemma total_bind {A B} h h' h'' (m : NetM A) (f : A → NetM B) Q R :
  total h m Q h' → (∀ a, Q a → total h' (f a) R h'') → total h (mbind f m) R h''.
Proof.
  intros Hm Hf w Hw. specialize (Hm w Hw). destruct (m w) as [[a w']|e] eqn:E; [|by rewrite (bind_err _ _ _ _ E)]. rewrite (bind_ok _ _ _ _ _ E). destruct Hm as [Ha Hw']. by apply (Hf a Ha).
Qed.

Lemma total_ret {A} h (a : A) (Q : A → Prop) : Q a → total h (mret a) Q h.
Proof. intros Ha w Hw. by split. Qed.

Lemma total_skip h : total h skip (λ _, True) h.
Proof. by apply total_ret. Qed.

Lemma total_lock : total false lock_tcp (λ _, True) true.
Proof. intros w (Hn & Hnh & Hl & Hh & Hw). unfold lock_tcp. rewrite Hh. by split. Qed.

Lemma total_unlock h : total h unlock_tcp (λ _, True) false.
Proof. intros w (Hn & Hnh & Hl & Hh & Hw). by split. Qed.

Lemma total_tsocks h : total h (gets tsocks) (map_Forall ts_wf) h.
Proof. intros w (Hn & Hnh & Hl & Hh & Hw). by split. Qed.

Lemma total_put h k s : ts_wf k s → total h (put_tsock k s) (λ _, True) h.
Proof.
  intros Hs w (Hn & Hnh & Hl & Hh & Hw). split; [done|]. split_and!; [done..|]. by apply map_Forall_insert_2.
Qed.

(** A change of anything but the connections, the lock and the card. *)
Lemma total_modify h f :
  (∀ w, nic (f w) = nic w ∧ nic_held (f w) = nic_held w ∧ loopback (f w) = loopback w ∧ tcp_held (f w) = tcp_held w ∧ tsocks (f w) = tsocks w) →
  total h (modify f) (λ _, True) h.
Proof.
  intros Hf w (Hn & Hnh & Hl & Hh & Hw). destruct (Hf w) as (H1 & H2 & H3 & H4 & H5). split; [done|]. unfold good, net_wf. by rewrite H1, H2, H3, H4, H5.
Qed.

Lemma total_transmit h f : total h (transmit (S n) f) (λ _, True) h.
Proof.
  intros w (Hn & Hnh & Hl & Hh & Hw). destruct (nic_held w) eqn:E.
  - cbn [transmit]. rewrite (bind_err _ _ w Deadlock); [done|]. unfold lock_nic. by rewrite E.
  - rewrite (transmit_online dev w n f (conj Hn E)). split; [done|]. split_and!; try done. cbn. by rewrite E.
Qed.
Lemma total_send_raw h dst hdr payload : total h (send_raw (transmit (S n)) dst hdr payload) (λ _, True) h.
Proof. intros w Hw. rewrite send_raw_frame. by apply total_transmit. Qed.
#[local] Hint Resolve total_ret total_skip total_lock total_unlock total_tsocks total_put total_send_raw : core.

(** Goes through a body statement by statement. *)
Ltac total := repeat (eapply total_bind; [solve [eauto]|]; intros).

Lemma total_handle_segment k s hdr seq ack payload src :
  ts_wf k s → is_u32 seq → is_u32 ack → total true (handle_segment (transmit (S n)) s hdr seq ack payload src) (ts_wf k) true.
Proof.
  intros Hs Hseq Hack. unfold handle_segment. destruct (has hdr TCP_RST).
  { apply total_ret. destruct Hs as (? & ? & ? & ? & ? & ?). split_and!; try done. by intros ?%elem_of_cons; set_solver. }
  assert (∀ st buf, st ∉ [Listen; SynSent; SynReceived; LastAck] → ts_wf k (set_tstate st (set_rcv (wadd 32 seq 1) buf s))) as Hnew.
  { intros st buf Hst. destruct Hs as (? & ? & ? & ? & ? & ?). unfold ts_wf. cbn [set_tstate set_rcv ts_key snd_una snd_nxt rcv_nxt ts_state recv_buf].
    split_and!; try done; [by apply wrap_range| |]; set_solver. }
  assert (∀ st, st ∉ [Listen; SynSent; SynReceived; LastAck] → ts_wf k (set_tstate st s)) as Hset.
  { intros st Hst. destruct Hs as (? & ? & ? & ? & ? & ?). unfold ts_wf. cbn [set_tstate ts_key snd_una snd_nxt rcv_nxt ts_state recv_buf].
    split_and!; try done; set_solver. }
  destruct (ts_state s) eqn:Hst; try (by apply total_ret); try (by apply total_ret; destruct (has hdr TCP_ACK); [apply Hset; set_solver|]).
  - destruct (has hdr _); [|by apply total_ret]. unfold send_ack. total. apply total_ret.
    destruct (Hnew Established (recv_buf s)) as (? & ? & ? & ? & ? & ?); [set_solver|].
    unfold ts_wf in *. cbn in *. by split_and!.
  - destruct (has hdr TCP_FIN); [unfold send_ack; total; apply total_ret, Hnew; set_solver|].
    destruct Hs as (? & ? & ? & ? & ? & ?).
    apply (total_bind _ true _ _ _ (λ s', ts_wf k s' ∧ ts_state s' = Established)).
    + destruct (_ && _); [|by apply total_ret]. unfold send_ack. total. apply total_ret.
      unfold ts_wf. cbn [set_rcv ts_key snd_una snd_nxt rcv_nxt ts_state recv_buf].
      split; [|done]. split_and!; try done; [by apply wrap_range|]. rewrite Hst. set_solver.
    + intros s' [(? & ? & ? & ? & ? & ?) Hst']. apply total_ret. destruct (has hdr TCP_ACK); [|by unfold ts_wf; split_and!].
      unfold ts_wf. cbn [set_snd ts_key snd_una snd_nxt rcv_nxt ts_state recv_buf]. by split_and!.
  - destruct (has hdr TCP_FIN); [unfold send_ack; total; apply total_ret, Hnew; set_solver|by apply total_ret].
Qed.

Lemma ts_wf_new st k una nxt rcv :
  st ≠ LastAck → is_u32 una → is_u32 nxt → is_u32 rcv →
  ts_wf k (set_tstate st (set_snd una nxt (set_rcv rcv [] (tcp_socket_new (k_lip k) (k_lport k) (k_rip k) (k_rport k))))).
Proof. intros. unfold ts_wf. cbn [set_tstate set_snd set_rcv tcp_socket_new ts_key snd_una snd_nxt rcv_nxt ts_state recv_buf]. by destruct k. Qed.

Lemma total_tcp_receive ip_hdr seg : total false (tcp_receive (transmit (S n)) ip_hdr seg) (λ _, True) false.
Proof.
  unfold tcp_receive. destruct (_ <? _)%nat; [apply total_skip|]. set (hdr := tcp_cast seg). total.
  match goal with H : map_Forall ts_wf ?m |- context [?m !! ?k] => destruct (m !! k) as [s|] eqn:Hs; [specialize (H _ _ Hs)|] end.
  - eapply total_bind; [eapply total_handle_segment; [eassumption|auto with words..]|]. intros. total. apply total_unlock.
  - destruct (_ && _ && _); [|apply total_unlock]. total.
    eapply total_bind; [apply total_put; apply (ts_wf_new SynReceived (mkKey _ _ _ _)); [done|done|done|by apply wrap_range]|].
    intros. apply total_unlock.
Qed.

Lemma total_udp_receive ip_hdr d : total false (udp_receive ip_hdr d) (λ _, True) false.
Proof.
  unfold udp_receive. destruct (_ <? _)%nat; [apply total_skip|].
  eapply total_bind; [by apply total_modify|]. intros. apply total_modify. intros w. by destruct (first_where _ _ _).
Qed.

Lemma total_icmp_receive ip_hdr d : total false (icmp_receive (transmit (S n)) ip_hdr d) (λ _, True) false.
Proof.
  unfold icmp_receive. destruct d as [|t d]; [apply total_skip|]. destruct (_ <? _)%nat; [apply total_skip|].
  destruct (_ =? _); [|apply total_skip]. intros w Hw. rewrite ip_send_frame. by apply total_transmit.
Qed.

Lemma total_ip_receive pkt : total false (ip_receive (transmit (S n)) pkt) (λ _, True) false.
Proof.
  unfold ip_receive. destruct (_ <? _)%nat; [apply total_skip|]. destruct (negb _); [apply total_skip|].
  destruct (_ <? _); [apply total_skip|]. destruct (_ =? PROTO_TCP); [apply total_tcp_receive|].
  destruct (_ =? PROTO_UDP); [apply total_udp_receive|]. destruct (_ =? PROTO_ICMP); [apply total_icmp_receive|apply total_skip].
Qed.

Lemma total_send_chunks fuel k seq rcv i data :
  (length data ≤ fuel)%nat → total false (send_chunks (transmit (S n)) fuel k seq rcv i data) (λ _, True) false.
Proof.
  revert i data. induction fuel as [|fuel IH]; intros i data Hf; (destruct data as [|x data]; [apply total_skip|]); [cbn in Hf; lia|].
  cbn [send_chunks]. total. apply IH. unfold TCP_MSS. rewrite length_drop. cbn [length] in *. lia.
Qed.

Lemma total_send_data k data : total false (send_data (transmit (S n)) k data) (λ _, True) false.
Proof.
  unfold send_data. total.
  match goal with H : map_Forall ts_wf ?m |- context [?m !! ?k] => destruct (m !! k) as [s|] eqn:Hs; [specialize (H _ _ Hs)|] end;
    [|total; by apply total_ret]. case_decide; [|total; by apply total_ret].
  eapply total_bind; [apply total_put|].
  { unfold ts_wf in *. cbn [set_snd ts_key snd_una snd_nxt rcv_nxt ts_state recv_buf]. split_and!; try tauto. by apply wrap_range. }
  intros. total. eapply total_bind; [by apply total_send_chunks|]. intros. by apply total_ret.
Qed.

Lemma total_listen lip lport : total false (tcp_listen lip lport) (λ _, True) false.
Proof. unfold tcp_listen. total. eapply total_bind; [by apply total_put, (ts_wf_new Listen (mkKey lip lport 0 0) 0 0x12340000 0)|auto]. Qed.

Lemma total_connect k : total false (tcp_connect (transmit (S n)) k) (λ _, True) false.
Proof.
  unfold tcp_connect. total. eapply total_bind; [by apply total_put, (ts_wf_new SynSent k 0 0x12340001 0)|]. intros. total. apply total_send_raw.
Qed.

Lemma total_close k : total false (tcp_close (transmit (S n)) k) (λ _, True) false.
Proof.
  unfold tcp_close. total.
  assert (total true (modify (λ w, set_tsocks (delete k (tsocks w)) w);; unlock_tcp) (λ _, True) false) as Hrm.
  { apply (total_bind _ true _ _ _ (λ _, True)); [|auto]. intros w (Hn & Hnh & Hl & Hh & Hw). split; [done|]. split_and!; [done..|]. by apply map_Forall_delete. }
  match goal with H : map_Forall ts_wf ?m |- context [?m !! ?k] => destruct (m !! k) as [s|] eqn:Hs; [specialize (H _ _ Hs)|] end;
    [|done]. case_decide; [|done].
  eapply total_bind; [apply total_put|].
  { unfold ts_wf in *. cbn [set_tstate set_snd ts_key snd_una snd_nxt rcv_nxt ts_state recv_buf]. split_and!; try tauto; [by apply wrap_range|done|set_solver]. }
  intros. total. apply total_send_raw.
Qed.

Lemma total_drain_recv k buf len peek : total false (drain_recv k buf len peek) (λ _, True) false.
Proof.
  unfold drain_recv. total.
  match goal with H : map_Forall ts_wf ?m |- context [?m !! ?k] => destruct (m !! k) as [s|] eqn:Hs; [specialize (H _ _ Hs)|] end;
    [|total; by apply total_ret]. case_bool_decide; [total; by apply total_ret|].
  eapply total_bind; [by apply total_modify|]. intros.
  apply (total_bind _ true _ _ _ (λ _, True)); [|intros; total; by apply total_ret].
  destruct peek; [apply total_skip|]. apply total_put.
  unfold ts_wf in *. cbn [set_rcv ts_key snd_una snd_nxt rcv_nxt ts_state recv_buf]. split_and!; tauto.
Qed.

Lemma total_pop_accepted lip lport : total false (pop_accepted lip lport) (λ _, True) false.
Proof.
  unfold pop_accepted. total. intros w Hw. rewrite bind_gets. destruct (first_where _ _ _).
  - revert w Hw. eapply total_bind; [by apply total_modify|]. intros. total. by apply total_ret.
  - revert w Hw. total. by apply total_ret.
Qed.
End Total.

(** The operations of a machine; packets arrive when the card is polled. *)
Inductive tcp_op :=
| OpListen (lip lport : Z)
| OpConnect (k : ConnKey)
| OpSend (k : ConnKey) (data : packet)
| OpClose (k : ConnKey)
| OpRead (k : ConnKey) (buf : Z) (len : nat) (peek : bool)
| OpAccept (lip lport : Z)
| OpPoll (rx : list packet).

Definition run_op (fuel : nat) (op : tcp_op) : NetM unit :=
  match op with
  | OpListen lip lport => tcp_listen lip lport
  | OpConnect k => tcp_connect (transmit fuel) k
  | OpSend k data => send_data (transmit fuel) k data;; skip
  | OpClose k => tcp_close (transmit fuel) k
  | OpRead k buf len peek => drain_recv k buf len peek;; skip
  | OpAccept lip lport => pop_accepted lip lport;; skip
  | OpPoll rx => receive_poll fuel rx
  end.
Definition is_poll (op : tcp_op) : bool := match op with OpPoll _ => true | _ => false end.
Definition run_ops (fuel : nat) (ops : list tcp_op) : NetM unit := foldr (λ op k, run_op fuel op;; k) skip ops.

Lemma total_op dev n op : is_poll op = false → total dev false false (run_op (S n) op) (λ _, True) false.
Proof.
  destruct op; cbn [run_op is_poll]; intros Hp; try done.
  - apply total_listen.
  - apply total_connect.
  - eapply total_bind; [apply total_send_data|intros; apply total_skip].
  - apply total_close.
  - eapply total_bind; [apply total_drain_recv|intros; apply total_skip].
  - eapply total_bind; [apply total_pop_accepted|intros; apply total_skip].
Qed.
Lemma total_packets dev n rx : total dev true false (receive_all (transmit (S n)) rx) (λ _, True) false.
Proof. unfold receive_all. induction rx as [|p rx IH]; [apply total_skip|]. cbn [foldr]. eapply total_bind; [apply total_ip_receive|intros; apply IH]. Qed.
(** A poll takes the lock of the card, hands over the packets and gives the
    lock back, unless a packet needs an answer. *)
Lemma poll_online dev n rx w : good dev false false w →
  receive_poll (S n) rx w =
  match receive_all (transmit (S n)) rx (set_nic_held true w) with Ok (_, w') => Ok (tt, set_nic_held false w') | Err e => Err e end.
Proof.
  intros (Hn & Hnh & Hl & Hh & Hw). unfold receive_poll. fold (receive_all (transmit (S n)) rx). rewrite (bind_ok _ _ w tt w) by (unfold lock_nic; by rewrite Hnh). rewrite bind_gets, Hn, !bind_assoc, bind_modify.
  pose proof (total_packets dev n rx (set_nic_held true w)) as Ht. destruct (receive_all (transmit (S n)) rx (set_nic_held true w)) as [[[] w']|e] eqn:E; [|rewrite bind_assoc; by apply bind_err].
  destruct Ht as [_ (Hn' & Hnh' & Hl' & Hh' & Hw')]; [done|]. rewrite bind_assoc, (bind_ok _ _ _ _ _ E), bind_modify. cbn [drain_loopback]. rewrite (bind_ok pop_loopback _ _ None (set_nic_held false w')); [done|]. unfold pop_loopback. cbn [set_nic_held loopback]. by rewrite Hl'.
Qed.

(** C16. A machine with a card that runs TCP and UDP: after every sequence of
    listen, connect, send, close, read and accept, and of polls of the card
    that deliver any packets whatever their bytes, the connections are
    well-formed (stored under their key, counters within 32 bits, no data
    before they are established, never in state [LastAck]) and no lock is left
    held; nothing panics.  The sequence returns, except that a poll may stop
    for ever waiting for the lock of the card that it holds itself; without
    polls every sequence returns. *)
Theorem tcp_ops_wf dev w n ops :
  online dev w → loopback w = [] → tcp_held w = false → net_wf w →
  match run_ops (S n) ops w with
  | Ok (_, w') => online dev w' ∧ tcp_held w' = false ∧ net_wf w'
  | Err e => e = Deadlock ∧ existsb is_poll ops = true
  end.
Proof.
  intros [Hn Hnh] Hl Hh Hw. assert (good dev false false w) as Hg by (by split_and!). clear Hn Hnh Hl Hh Hw. revert w Hg. induction ops as [|op ops IH]; intros w Hg; cbn [run_ops foldr existsb].
  - destruct Hg as (? & ? & ? & ? & ?). by split_and!.
  - assert (match run_op (S n) op w with Ok (_, w') => good dev false false w' | Err e => e = Deadlock ∧ is_poll op = true end) as Hop.
    { destruct (is_poll op) eqn:Ep; [|pose proof (total_op dev n op Ep w Hg) as Ht; destruct (run_op (S n) op w) as [[a w']|e]; [by destruct Ht|by destruct Ht]].
      destruct op; try done. cbn [run_op]. rewrite (poll_online dev) by done. destruct Hg as (Hn & Hnh & Hl & Hh & Hw). pose proof (total_packets dev n rx (set_nic_held true w)) as Ht.
      destruct (receive_all (transmit (S n)) rx (set_nic_held true w)) as [[a w']|e]; destruct Ht as [H1 H2]; try done. destruct H2 as (? & ? & ? & ? & ?). by split_and!. }
    destruct (run_op (S n) op w) as [[[] w']|e] eqn:E.
    + rewrite (bind_ok _ _ _ _ _ E). specialize (IH w' Hop). fold (run_ops (S n) ops). destruct (run_ops (S n) ops w') as [[? ?]|]; [done|]. destruct IH as [-> ->]. by rewrite orb_true_r.
    + rewrite (bind_err _ _ _ _ E). destruct Hop as [-> ->]. done.
Qed.

(** C12. What polling the card ([receive_poll]) does with a segment with the
    flags PSH and ACK for an established connection, no lock being held and
    nothing waiting on the loop-back interface.  If it carries data and is the
    next in sequence, the poll never returns: the acknowledgement needs the
    lock of the card, which the poll holds.  Otherwise it returns, sends
    nothing, takes no data and records the number that was acknowledged. *)
Theorem poll_data_segment dev w n k seq ack payload s :
  online dev w → loopback w = [] → tcp_held w = false → net_wf w → key_ok k → is_u32 seq → is_u32 ack →
  tsocks w !! flip_key k = Some s → ts_state s = Established →
  receive_poll (S n) [key_frame k seq ack (Z.lor TCP_PSH TCP_ACK) payload] w =
  if negb (bool_decide (payload = [])) && (seq =? rcv_nxt s) then Err Deadlock
  else Ok (tt, set_tsocks (<[flip_key k := set_snd ack (snd_nxt s) s]> (tsocks w)) w).
Proof.
  intros [Hn Hnh] Hl Hh Hw Hk Hseq Hack Hs Hst. rewrite (poll_online dev) by (by split_and!). cbn [receive_all foldr]. set (w1 := set_nic_held true w).
  assert (ip_receive (transmit (S n)) (key_frame k seq ack (Z.lor TCP_PSH TCP_ACK) payload) w1 =
    if negb (bool_decide (payload = [])) && (seq =? rcv_nxt s) then Err Deadlock else Ok (tt, set_tsocks (<[flip_key k := set_snd ack (snd_nxt s) s]> (tsocks w)) w1)) as E.
  { rewrite receive_frame by (done || (unfold plain_flags; cbn; lia)). change (tsocks w1) with (tsocks w). rewrite Hs. set (hdr := key_header _ _ _ _ _).
    assert (∀ f, has hdr f = negb (Z.land 24 f =? 0)) as Hhas by (intros f; apply tcp_new_flags; unfold plain_flags; lia).
    unfold handle_segment. rewrite !Hhas, Hst. change (negb (Z.land 24 TCP_RST =? 0)) with false. change (negb (Z.land 24 TCP_FIN =? 0)) with false. change (negb (Z.land 24 TCP_ACK =? 0)) with true. cbv iota.
    destruct (_ && _); [|net_run; unfold put_tsock; rewrite bind_modify; unfold unlock_tcp, modify; do 2 f_equal; unfold w1; destruct w; cbn in *; by rewrite Hh].
    rewrite !bind_assoc. apply bind_err. unfold send_ack. rewrite send_raw_frame. cbn [transmit]. by apply bind_err. }
  destruct (_ && _); [by rewrite (bind_err _ _ _ _ E)|]. rewrite (bind_ok _ _ _ _ _ E). unfold skip. cbn. do 2 f_equal. destruct w. cbn in *. by rewrite Hnh.
Qed.

(** ** Without a card *)
Definition offline (w : Net) : Prop := nic w = None ∧ nic_held w = false ∧ loopback w = [].

Lemma frame_dst_ip src dst proto payload : is_u32 dst → frame_dst (ip_frame src dst proto payload) = dst.
Proof.
  intros Hd. unfold frame_dst, ip_frame. rewrite <- (to_be_32 dst) at 2 by done. f_equal.
  unfold ip_bytes. rewrite <- ?app_assoc. repeat (rewrite field_skip by lia; cbn [Nat.sub]).
  apply field_app; [done|]. apply to_be_32_range.
Qed.

Lemma transmit_local w n src proto payload :
  offline w → is_u32 (local_ip w) →
  transmit (S n) (ip_frame src (local_ip w) proto payload) w =
  (ip_receive (transmit n) (ip_frame src (local_ip w) proto payload);; drain_loopback (transmit n) n) w.
Proof.
  intros (Hn & Hh & Hl) Hip. set (f := ip_frame _ _ _ _). cbn [transmit].
  rewrite (bind_ok _ _ w tt w) by (unfold lock_nic; by rewrite Hh). rewrite !bind_gets, Hn, bind_gets.
  unfold f at 1 2. rewrite length_ip_frame, frame_dst_ip, Z.eqb_refl by done. cbn [Nat.add Nat.leb orb andb]. rewrite bind_modify.
  cbn [drain_loopback]. rewrite (bind_ok _ _ _ (Some f) w); [done|].
  unfold pop_loopback. cbn [loopback set_frames]. rewrite Hl. cbn [app]. destruct w. cbn in *. by subst.
Qed.

(** C40. Without a card, connecting to a listener on the same machine never
    returns: the SYN is delivered while it is sent, so is the answer, and the
    acknowledgement of the answer is sent, and delivered, with the table of
    connections locked. *)
Theorem loopback_connect_deadlocks w n lport rport :
  let k := mkKey (local_ip w) lport (local_ip w) rport in
  offline w → tcp_held w = false → key_ok k → lport ≠ rport →
  is_Some (tsocks w !! mkKey (local_ip w) rport 0 0) → tsocks w !! flip_key k = None →
  tcp_connect (transmit (3 + n)) k w = Err Deadlock.
Proof.
  intros k Hoff Hh Hk Hne Hl Hnone. pose proof (key_ok_flip k Hk) as Hk'. pose proof (proj1 Hk) as Hip. cbn in Hip.
  assert (k ≠ flip_key k) as Hkf by (unfold k, flip_key; cbn; congruence).
  unfold tcp_connect. rewrite bind_lock by done. unfold put_tsock. rewrite bind_modify, bind_unlock.
  set (w1 := set_tcp_held false _). cbn [Nat.add]. rewrite send_raw_frame. unfold tcp_frame.
  change (k_rip k) with (local_ip w1). rewrite transmit_local by done. apply bind_err.
  change (ip_frame (local_ip w1) (local_ip w1) PROTO_TCP _) with (key_frame k CLIENT_ISN 0 TCP_SYN []).
  rewrite receive_frame by (done || (unfold plain_flags; cbn; lia)).
  assert (tsocks w1 !! flip_key k = None) as ->
    by (unfold w1; cbn [tsocks set_tcp_held set_tsocks]; by rewrite lookup_insert_ne).
  rewrite bool_decide_true by (unfold w1; cbn [tsocks set_tcp_held set_tsocks k_rip k_rport k];
    destruct (decide (k = mkKey (local_ip w) rport 0 0)) as [<-|]; [rewrite lookup_insert_eq; eauto|by rewrite lookup_insert_ne]).
  change (negb (Z.land TCP_SYN TCP_SYN =? 0)) with true. change (negb (Z.land TCP_SYN TCP_ACK =? 0)) with false.
  cbn [negb andb]. cbv zeta. rewrite bind_unlock, held_id by done. apply bind_err.
  rewrite send_raw_frame. unfold tcp_frame. change (k_lip k) with (local_ip w1). rewrite transmit_local by done. apply bind_err.
  change (ip_frame (local_ip w1) (local_ip w1) PROTO_TCP _)
    with (key_frame (flip_key k) ISN (wadd 32 CLIENT_ISN 1) (Z.lor TCP_SYN TCP_ACK) []).
  rewrite receive_frame by (done || (unfold plain_flags; cbn; lia)). rewrite flip_flip.
  assert (tsocks w1 !! k = Some (set_snd 0 (wadd 32 CLIENT_ISN 1) (set_tstate SynSent (tcp_socket_new (local_ip w) lport (local_ip w) rport)))) as ->
    by apply lookup_insert_eq.
  apply bind_err. set (hdr := key_header _ _ _ _ _).
  assert (∀ f, has hdr f = negb (Z.land 18 f =? 0)) as Hhas by (intros f; apply tcp_new_flags; unfold plain_flags; lia).
  unfold handle_segment. rewrite !Hhas. change (negb (Z.land 18 TCP_RST =? 0)) with false.
  change (negb (Z.land 18 (Z.lor TCP_SYN TCP_ACK) =? 0)) with true.
  cbn [set_snd set_tstate tcp_socket_new ts_state]. apply bind_err. unfold send_ack.
  rewrite send_raw_frame. unfold tcp_frame. change (k_lip (flip_key k)) with (local_ip (set_tcp_held true w1)).
  rewrite transmit_local by done. apply bind_err. rewrite ip_receive_frame by done. cbn [Z.eqb Pos.eqb PROTO_TCP].
  unfold tcp_receive, tcp_segment. rewrite length_app. set (h := with_csum _ _). change (length (tcp_bytes h)) with 20%nat.
  cbn [Nat.add Nat.ltb Nat.leb length]. by apply bind_err.
Qed.

(** ** Closing *)

(** A segment with FIN, handled with the lock of the card free, ends the
    connection whatever its sequence number, and the data it carries is
    dropped. *)
Theorem fin_drops_data dev w n k seq ack payload s :
  online dev w → tcp_held w = false → key_ok k → is_u32 seq → is_u32 ack →
  tsocks w !! flip_key k = Some s → ts_state s = Established →
  ∃ fs, ip_receive (transmit (S n)) (key_frame k seq ack (Z.lor TCP_FIN TCP_ACK) payload) w =
    Ok (tt, net_update (flip_key k) (set_tstate CloseWait (set_rcv (wadd 32 seq 1) (recv_buf s) s)) fs w).
Proof.
  intros Hon Hh Hk Hseq Hack Hs Hst. rewrite receive_frame by (done || (unfold plain_flags; cbn; lia)). rewrite Hs.
  set (hdr := key_header _ _ _ _ _).
  assert (∀ f, has hdr f = negb (Z.land 17 f =? 0)) as Hhas by (intros f; apply tcp_new_flags; unfold plain_flags; lia).
  unfold handle_segment. rewrite !Hhas, Hst. change (negb (Z.land 17 TCP_RST =? 0)) with false.
  change (negb (Z.land 17 TCP_FIN =? 0)) with true. cbv iota.
  set (s' := set_tstate CloseWait _). destruct (send_ack_online dev w n (k_lip k) s' Hon) as [fs Hsend]. exists fs.
  rewrite bind_assoc, (bind_ok _ _ _ _ _ Hsend). net_run. by apply (finish_segment dev).
Qed.

(** Closing a connection whose peer has closed removes it without telling the
    peer: nothing is sent. *)
Theorem passive_close_silent tx w k s :
  tcp_held w = false → tsocks w !! k = Some s → ts_state s = CloseWait →
  tcp_close tx k w = Ok (tt, set_tsocks (delete k (tsocks w)) w).
Proof.
  intros Hh Hs Hst. unfold tcp_close. rewrite bind_lock by done. rewrite bind_gets. cbn [tsocks set_tcp_held].
  rewrite Hs, decide_False by congruence. rewrite bind_modify. unfold unlock_tcp, modify. do 2 f_equal.
  destruct w. cbn in Hh |- *. by rewrite Hh.
Qed.

(** A client that waits for SYN and ACK takes an ACK alone, handled with the
    lock of the card free: [has] tests whether one of the flags is set. *)
Theorem bare_ack_establishes dev w n k seq ack s :
  online dev w → tcp_held w = false → key_ok k → is_u32 seq → is_u32 ack →
  tsocks w !! flip_key k = Some s → ts_state s = SynSent →
  ∃ fs, ip_receive (transmit (S n)) (key_frame k seq ack TCP_ACK []) w =
    Ok (tt, net_update (flip_key k) (set_tstate Established (set_snd ack (snd_nxt s) (set_rcv (wadd 32 seq 1) (recv_buf s) s))) fs w).
Proof.
  intros Hon Hh Hk Hseq Hack Hs Hst. rewrite receive_frame by (done || (unfold plain_flags; cbn; lia)). rewrite Hs.
  set (hdr := key_header _ _ _ _ _).
  assert (∀ f, has hdr f = negb (Z.land 16 f =? 0)) as Hhas by (intros f; apply tcp_new_flags; unfold plain_flags; lia).
  unfold handle_segment. rewrite !Hhas, Hst. change (negb (Z.land 16 TCP_RST =? 0)) with false.
  change (negb (Z.land 16 (Z.lor TCP_SYN TCP_ACK) =? 0)) with true. cbv iota.
  set (s' := set_tstate Established _). destruct (send_ack_online dev w n (k_lip k) s' Hon) as [fs Hsend]. exists fs.
  rewrite bind_assoc, (bind_ok _ _ _ _ _ Hsend). net_run. by apply (finish_segment dev).
Qed.

(** ** Witnesses *)
Definition demo_key : ConnKey := mkKey 0x0A000001 49152 0x0A000002 80.
Definition demo_server : Net := set_tsocks {[mkKey 0x0A000002 80 0 0 := set_tstate Listen (tcp_socket_new 0x0A000002 80 0 0)]} (demo_net 2).
Definition demo_end (nxt rcv : Z) (k : ConnKey) : TcpSocket :=
  set_tstate Established (set_snd 0 nxt (set_rcv rcv [] (tcp_socket_new (k_lip k) (k_lport k) (k_rip k) (k_rport k)))).
Definition demo_a : TcpSocket := demo_end 4294967290 7 demo_key.
Definition demo_b : TcpSocket := demo_end 7 4294967290 (flip_key demo_key).
Definition demo_wa : Net := set_tsocks {[demo_key := demo_a]} (demo_net 1).
Definition demo_wb : Net := set_tsocks {[flip_key demo_key := demo_b]} (demo_net 2).

Lemma tcp_handshake_witness :
  ∃ wA1 syn wB1 synack wA2 ack wB2 a b,
    tcp_connect (transmit 1) demo_key (demo_net 1) = Ok (tt, wA1) ∧ sent wA1 = sent (demo_net 1) ++ [syn] ∧
    ip_receive (transmit 1) syn demo_server = Ok (tt, wB1) ∧ sent wB1 = sent demo_server ++ [synack] ∧
    ip_receive (transmit 1) synack wA1 = Ok (tt, wA2) ∧ sent wA2 = sent wA1 ++ [ack] ∧
    ip_receive (transmit 1) ack wB1 = Ok (tt, wB2) ∧
    connected any_card any_card demo_key wA2 wB2 a b ∧ recv_buf a = [] ∧ recv_buf b = [].
Proof.
  apply (tcp_handshake any_card any_card demo_key (demo_net 1) demo_server 0); done.
Defined.

Lemma tcp_stream_witness :
  ∃ wA' fs, send_data (transmit 1) demo_key [10; 20; 30] demo_wa = Ok (3, wA') ∧ sent wA' = sent demo_wa ++ fs ∧
    ∀ frames, (∀ f, f ∈ frames → f ∈ fs) →
    ∃ wB' b' c, receive_all (transmit 1) frames demo_wb = Ok (tt, wB') ∧
      tsocks wB' !! flip_key demo_key = Some b' ∧ ts_state b' = Established ∧ recv_buf b' = [] ++ take c [10; 20; 30] ∧
      rcv_nxt b' = wadd 32 4294967290 (Z.min (Z.of_nat c) 3) ∧
      ((∀ l f, any_card l f = true) → fs `sublist_of` frames → (3 ≤ c)%nat).
Proof.
  apply (tcp_stream any_card any_card demo_key demo_wa demo_wb demo_a demo_b 0 [10; 20; 30]); [|done].
  by split.
Defined.

Lemma tcp_ops_wf_witness :
  let ops := [OpListen 0x0A000001 80; OpPoll [[1; 2; 3]]; OpConnect demo_key; OpSend demo_key [1]; OpClose demo_key] in
  match run_ops 1 ops (demo_net 1) with Ok (_, w') => net_wf w' | Err e => e = Deadlock end.
Proof.
  intros ops. pose proof (tcp_ops_wf any_card (demo_net 1) 0 ops ltac:(done) eq_refl eq_refl ltac:(apply map_Forall_empty)) as H. destruct (run_ops 1 ops (demo_net 1)) as [[? w']|e]; [apply H|apply H].
Defined.
Lemma poll_data_segment_witness : receive_poll 1 [key_frame demo_key 4294967290 7 (Z.lor TCP_PSH TCP_ACK) [10; 20]] demo_wb = Err Deadlock.
Proof.
  apply (poll_data_segment any_card demo_wb 0 demo_key 4294967290 7 [10; 20] demo_b); try done. apply map_Forall_singleton. by split_and!.
Defined.

(** The server of [demo_server], without a card. *)
Definition demo_offline : Net :=
  mkNet LOCALHOST 0 [] ∅ {[mkKey LOCALHOST 80 0 0 := set_tstate Listen (tcp_socket_new LOCALHOST 80 0 0)]} false ∅ ∅ 49152
    demo_table (λ _, 0) 0 None false [] [].

Lemma loopback_connect_deadlocks_witness :
  tcp_connect (transmit 3) (mkKey LOCALHOST 49152 LOCALHOST 80) demo_offline = Err Deadlock.
Proof.
  apply (loopback_connect_deadlocks demo_offline 0 49152 80); [done|done|by split_and!|done|done|done].
Defined.
