(* ===== verification/Socket.v ===== *)
(** * POSIX sockets

    Models kernel/src/net/socket/mod.rs on top of Net: creation, binding,
    listening, connecting, accepting, sending, receiving, options, shutdown.
    Addresses and buffers are read from and written to user memory ([umem] of
    the state).  A loop that polls until a deadline runs with fuel; [spin] is
    what happens while it spins (interrupts: packets and the clock), and
    [may_connect] the answer of the network policy of security/mod.rs. *)
From S2P Require Import Prelude Process Inet Net NetFacts.

Definition SOCK_NONBLOCK : Z := 0x800.
Definition O_NONBLOCK_FLAG : Z := 0x800.
Definition SOL_SOCKET : Z := 1.
Definition SO_REUSEADDR : Z := 2.
Definition SO_TYPE : Z := 3.
Definition SO_ERROR : Z := 4.
Definition MSG_PEEK : Z := 2.
Definition MSG_DONTWAIT : Z := 0x40.
Definition SHUT_WR : Z := 1.
Definition SHUT_RDWR : Z := 2.

(** ** Structs in user memory *)
Definition user_read (addr : Z) (len : nat) : NetM (list Z) :=
  gets (λ w, map (λ i, umem w (addr + Z.of_nat i)) (List.seq 0 len)).

Definition sin_bytes (a : SockAddrIn) : packet :=
  le_bytes 2 (sin_family a) ++ le_bytes 2 (sin_port a) ++ le_bytes 4 (sin_addr a) ++ sin_pad a.
Definition sin_cast (bs : packet) : SockAddrIn :=
  mkSin (field bs 0 2) (field bs 2 2) (field bs 4 4) (drop 8 bs).
Definition read_sin (addr : Z) : NetM SockAddrIn := bs ← user_read addr 16; mret (sin_cast bs).
Definition write_sin (addr : Z) (a : SockAddrIn) : NetM unit := user_write addr (sin_bytes a).

Definition sin_ip (a : SockAddrIn) : Z := to_be 4 (sin_addr a).
Definition sin_portno (a : SockAddrIn) : Z := to_be 2 (sin_port a).

(** ** Updates of a socket *)
Definition socket_new (id family sock_type proto : Z) (nb : bool) : Socket :=
  mkSock id family sock_type proto SockCreated None None nb false [] (replicate 108 0).
Definition set_sstate (st : SockState) (s : Socket) : Socket :=
  mkSock (s_id s) (s_family s) (s_type s) (s_protocol s) st (local_addr s) (remote_addr s) (nonblocking s) (opts_reuse s)
    (udp_recv_q s) (unix_path s).
Definition set_addrs (l r : option SockAddrIn) (s : Socket) : Socket :=
  mkSock (s_id s) (s_family s) (s_type s) (s_protocol s) (s_state s) l r (nonblocking s) (opts_reuse s) (udp_recv_q s) (unix_path s).
Definition set_path (p : list Z) (s : Socket) : Socket :=
  mkSock (s_id s) (s_family s) (s_type s) (s_protocol s) (s_state s) (local_addr s) (remote_addr s) (nonblocking s) (opts_reuse s)
    (udp_recv_q s) p.
Definition set_reuse (b : bool) (s : Socket) : Socket :=
  mkSock (s_id s) (s_family s) (s_type s) (s_protocol s) (s_state s) (local_addr s) (remote_addr s) (nonblocking s) b
    (udp_recv_q s) (unix_path s).

Definition get_sock (fd : Z) : NetM (option Socket) := gets (λ w, socks w !! fd).
(** [SOCKETS.lock().get_mut(&fd).map(f)] *)
Definition alter_sock (fd : Z) (f : Socket → Socket) : NetM unit := modify (λ w, set_socks (alter f fd (socks w)) w).

Definition alloc_ephemeral_port : NetM Z :=
  p ← gets next_ephemeral;
  modify (set_ephemeral (wadd 16 p 1));;
  if (p =? 0) || (65535 <=? p) then modify (set_ephemeral 49152);; mret 49152 else mret p.

(** ** Creation *)
Definition sys_socket (family sock_type_raw proto : Z) : NetM Z :=
  let sock_type := Z.land sock_type_raw 15 in
  let nonblock := negb (Z.land sock_type_raw SOCK_NONBLOCK =? 0) in
  if negb (family =? AF_INET) && negb (family =? AF_UNIX) then mret (-22)
  else
    t ← gets ptab;
    fd ← (match procs t !! current t with
          | None => mret (-1)
          | Some p =>
              match alloc_fd 1021 (mkFd 0 0 (if nonblock then O_NONBLOCK_FLAG else 0) (FdSocket 0)) p with
              | Some (p', n) =>
                  modify (set_ptab (with_current_mut t (λ _, get_fd_mut_op n (λ f, mkFd (fd_ino f) (fd_offset f) (fd_flags f) (FdSocket n)) p')));;
                  mret n
              | None => stop OutOfFuel
              end
          end);
    modify (λ w, set_socks (<[fd := socket_new fd family sock_type proto nonblock]> (socks w)) w);;
    mret fd.

(** ** Naming *)
Definition port_in_use (port : Z) (m : gmap Z Socket) : bool :=
  existsb (λ '(_, s), default false ((λ la, sin_portno la =? port) <$> local_addr s)) (map_to_list m).

Definition sys_bind (sockfd addr : Z) : NetM Z :=
  if addr =? 0 then mret (-22)
  else
    m ← gets socks;
    match m !! sockfd with
    | None => mret (-9)
    | Some sock =>
        if s_family sock =? AF_UNIX then
          path ← user_read (addr + 2) 108;
          alter_sock sockfd (λ s, set_sstate SockBound (set_path path s));; mret 0
        else
          sa ← read_sin addr;
          let port := sin_portno sa in
          if negb (port =? 0) && port_in_use port m then mret (-98)
          else
            sport ← (if port =? 0 then p ← alloc_ephemeral_port; mret (to_be 2 p) else mret (sin_port sa));
            alter_sock sockfd (λ s, set_sstate SockBound (set_addrs (Some (mkSin AF_INET sport (sin_addr sa) (replicate 8 0))) (remote_addr s) s));;
            mret 0
    end.

Definition sys_listen (sockfd : Z) : NetM Z :=
  so ← get_sock sockfd;
  match so with
  | None => mret (-9)
  | Some sock =>
      if (s_family sock =? AF_INET) && (s_type sock =? SOCK_STREAM) then
        match local_addr sock with
        | None => mret (-22)
        | Some la => tcp_listen (sin_ip la) (sin_portno la);; alter_sock sockfd (set_sstate SockListening);; mret 0
        end
      else alter_sock sockfd (set_sstate SockListening);; mret 0
  end.

Section Calls.
Context (tx : packet → NetM unit) (spin : NetM unit) (may_connect : Z → Z → bool).

(** ** Connecting *)
Fixpoint connect_wait (fuel : nat) (sockfd : Z) (key : ConnKey) (deadline : Z) : NetM Z :=
  match fuel with
  | O => stop OutOfFuel
  | S fuel =>
      st ← connection_state key;
      if decide (st = Established) then alter_sock sockfd (set_sstate SockConnected);; mret 0
      else
        st ← connection_state key;
        if decide (st = Closed) then mret (-111)
        else
          now ← gets clock;
          if deadline <=? now then mret (-110) else spin;; connect_wait fuel sockfd key deadline
  end.

Definition sys_connect (fuel : nat) (sockfd addr : Z) : NetM Z :=
  if addr =? 0 then mret (-22)
  else
    sa ← read_sin addr;
    let remote_ip := sin_ip sa in
    let remote_port := sin_portno sa in
    if (remote_ip =? 0) || (remote_port =? 0) then mret (-22)
    else if negb (may_connect remote_ip remote_port) then mret (-1)
    else
      so ← get_sock sockfd;
      match so with
      | None => mret (-9)
      | Some sock =>
          if decide (s_state sock = SockConnected) then mret (-106)
          else
            lip ← gets local_ip;
            lport ← (match local_addr sock with
                     | Some la => mret (sin_portno la)
                     | None =>
                         p ← alloc_ephemeral_port;
                         alter_sock sockfd (λ s, set_addrs (Some (sin_new lip p)) (remote_addr s) s);; mret p
                     end);
            alter_sock sockfd (λ s, set_sstate SockConnecting (set_addrs (local_addr s) (Some sa) s));;
            if s_type sock =? SOCK_STREAM then
              let key := mkKey lip lport remote_ip remote_port in
              tcp_connect tx key;;
              now ← gets clock;
              connect_wait fuel sockfd key (wadd 64 now 5000)
            else alter_sock sockfd (set_sstate SockConnected);; mret 0
      end.

(** ** Accepting *)
Fixpoint accept_wait (fuel : nat) (lip lport deadline addr addrlen : Z) : NetM Z :=
  match fuel with
  | O => stop OutOfFuel
  | S fuel =>
      r ← pop_accepted lip lport;
      match r with
      | Some (rip, rport) =>
          new_fd ← sys_socket AF_INET SOCK_STREAM 0;
          if new_fd <? 0 then mret (-12)
          else
            alter_sock new_fd (λ s, set_sstate SockConnected (set_addrs (Some (sin_new lip lport)) (Some (sin_new rip rport)) s));;
            (if negb (addr =? 0) && negb (addrlen =? 0) then
               write_sin addr (sin_new rip rport);;
               (if 8 <=? addrlen then user_write addrlen (le_bytes 4 16) else skip)
             else skip);;
            mret new_fd
      | None =>
          now ← gets clock;
          if deadline <=? now then mret (-11) else spin;; accept_wait fuel lip lport deadline addr addrlen
      end
  end.

Definition sys_accept (fuel : nat) (sockfd addr addrlen : Z) : NetM Z :=
  so ← get_sock sockfd;
  match so with
  | None => mret (-9)
  | Some sock =>
      if decide (s_state sock = SockListening) then
        match local_addr sock with
        | None => mret (-22)
        | Some la =>
            now ← gets clock;
            accept_wait fuel (sin_ip la) (sin_portno la) (if nonblocking sock then now else wadd 64 now 30000) addr addrlen
        end
      else mret (-22)
  end.

(** ** Sending *)
Definition sys_sendto (sockfd buf : Z) (len : nat) (addr addrlen : Z) : NetM Z :=
  if (buf =? 0) || (Z.of_nat len =? 0) then mret 0
  else
    data ← user_read buf len;
    so ← get_sock sockfd;
    match so with
    | None => mret (-9)
    | Some sock =>
        if s_family sock =? AF_INET then
          if s_type sock =? SOCK_STREAM then
            match local_addr sock, remote_addr sock with
            | Some la, Some ra =>
                if decide (s_state sock = SockConnected)
                then send_data tx (mkKey (sin_ip la) (sin_portno la) (sin_ip ra) (sin_portno ra)) data
                else mret (-107)
            | _, _ => mret (-107)
            end
          else if s_type sock =? SOCK_DGRAM then
            if negb (addr =? 0) && (8 <=? addrlen) then
              sa ← read_sin addr;
              lip ← gets local_ip;
              lport ← (match local_addr sock with Some la => mret (sin_portno la) | None => alloc_ephemeral_port end);
              udp_send tx lip lport (sin_ip sa) (sin_portno sa) data;; mret (Z.of_nat len)
            else
              match local_addr sock, remote_addr sock with
              | Some la, Some ra => udp_send tx (sin_ip la) (sin_portno la) (sin_ip ra) (sin_portno ra) data;; mret (Z.of_nat len)
              | _, _ => mret (-107)
              end
          else mret (-22)
        else mret (-22)
    end.
Definition sys_send (sockfd buf : Z) (len : nat) : NetM Z := sys_sendto sockfd buf len 0 0.

(** ** Receiving

    One attempt; [None] when there is nothing yet. *)
Definition recv_once (sockfd buf : Z) (len : nat) (fl addr addrlen : Z) (sock : Socket) : NetM (option Z) :=
  if s_family sock =? AF_INET then
    if s_type sock =? SOCK_STREAM then
      match local_addr sock, remote_addr sock with
      | Some la, Some ra =>
          let key := mkKey (sin_ip la) (sin_portno la) (sin_ip ra) (sin_portno ra) in
          tcp_st ← connection_state key;
          if decide (tcp_st = Closed ∧ s_state sock = SockConnected) then mret (Some 0)
          else
            n ← drain_recv key buf len (negb (Z.land fl MSG_PEEK =? 0));
            if 0 <? n then mret (Some n)
            else if decide (tcp_st = CloseWait ∨ tcp_st = Closed) then mret (Some 0) else mret None
      | _, _ => mret (Some (if nonblocking sock then -11 else -107))
      end
    else if s_type sock =? SOCK_DGRAM then
      so ← get_sock sockfd;
      match so with
      | Some s =>
          match udp_recv_q s with
          | (src, data) :: rest =>
              alter_sock sockfd (set_queue rest);;
              let copy := Nat.min (length data) len in
              user_write buf (take copy data);;
              (if negb (addr =? 0) then write_sin addr src else skip);;
              (if negb (addrlen =? 0) then user_write addrlen (le_bytes 4 16) else skip);;
              mret (Some (Z.of_nat copy))
          | [] => mret None
          end
      | None => mret None
      end
    else mret (Some (-22))
  else mret None.

Fixpoint recv_wait (fuel : nat) (sockfd buf : Z) (len : nat) (fl addr addrlen : Z) (sock : Socket) (deadline : Z) : NetM Z :=
  match fuel with
  | O => stop OutOfFuel
  | S fuel =>
      r ← recv_once sockfd buf len fl addr addrlen sock;
      match r with
      | Some n => mret n
      | None =>
          now ← gets clock;
          if deadline <=? now then mret (-11) else spin;; recv_wait fuel sockfd buf len fl addr addrlen sock deadline
      end
  end.

Definition sys_recvfrom (fuel : nat) (sockfd buf : Z) (len : nat) (fl addr addrlen : Z) : NetM Z :=
  if (buf =? 0) || (Z.of_nat len =? 0) then mret 0
  else
    so ← get_sock sockfd;
    match so with
    | None => mret (-9)
    | Some sock =>
        now ← gets clock;
        recv_wait fuel sockfd buf len fl addr addrlen sock
          (if nonblocking sock || negb (Z.land fl MSG_DONTWAIT =? 0) then now else wadd 64 now 30000)
    end.
Definition sys_recv (fuel : nat) (sockfd buf : Z) (len : nat) (fl : Z) : NetM Z := sys_recvfrom fuel sockfd buf len fl 0 0.

(** ** Options, names, shutdown *)
Definition sys_setsockopt (sockfd level optname optval : Z) : NetM Z :=
  so ← get_sock sockfd;
  match so with
  | None => mret (-9)
  | Some _ =>
      if (level =? SOL_SOCKET) && ((optname =? SO_REUSEADDR) || (optname =? 15)) && negb (optval =? 0) then
        v ← user_read optval 4;
        alter_sock sockfd (set_reuse (negb (le_value v =? 0)));; mret 0
      else mret 0
  end.

Definition sys_getsockopt (sockfd level optname optval optlen : Z) : NetM Z :=
  so ← get_sock sockfd;
  match so with
  | None => mret (-9)
  | Some sock =>
      if optval =? 0 then mret (-22)
      else if (level =? SOL_SOCKET) && ((optname =? SO_TYPE) || (optname =? SO_ERROR)) then
        user_write optval (le_bytes 4 (if optname =? SO_TYPE then s_type sock else 0));;
        (if negb (optlen =? 0) then user_write optlen (le_bytes 4 4) else skip);; mret 0
      else user_write optval (le_bytes 4 0);; mret 0
  end.

Definition sys_getsockname (sockfd addr addrlen : Z) : NetM Z :=
  if addr =? 0 then mret (-22)
  else
    so ← get_sock sockfd;
    match so with
    | None => mret (-9)
    | Some sock =>
        write_sin addr (default (mkSin (s_family sock) 0 0 (replicate 8 0)) (local_addr sock));;
        (if negb (addrlen =? 0) then user_write addrlen (le_bytes 4 16) else skip);; mret 0
    end.

Definition sys_getpeername (sockfd addr addrlen : Z) : NetM Z :=
  if addr =? 0 then mret (-22)
  else
    so ← get_sock sockfd;
    match so with
    | None => mret (-9)
    | Some sock =>
        match remote_addr sock with
        | None => mret (-107)
        | Some sa => write_sin addr sa;; (if negb (addrlen =? 0) then user_write addrlen (le_bytes 4 16) else skip);; mret 0
        end
    end.

(** The connection of a stream socket, when it has both addresses. *)
Definition sock_conn (s : Socket) : option ConnKey :=
  if (s_family s =? AF_INET) && (s_type s =? SOCK_STREAM) then
    match local_addr s, remote_addr s with
    | Some la, Some ra => Some (mkKey (sin_ip la) (sin_portno la) (sin_ip ra) (sin_portno ra))
    | _, _ => None
    end
  else None.

Definition sys_shutdown (sockfd how : Z) : NetM Z :=
  so ← get_sock sockfd;
  match so with
  | None => mret (-9)
  | Some s =>
      match sock_conn s with
      | Some key => (if (how =? SHUT_WR) || (how =? SHUT_RDWR) then tcp_close tx key else skip);; mret 0
      | None => mret 0
      end
  end.

Definition socket_close (sockfd : Z) : NetM unit :=
  so ← get_sock sockfd;
  modify (λ w, set_socks (delete sockfd (socks w)) w);;
  match so ≫= sock_conn with Some key => tcp_close tx key | None => skip end.

(** A pipe is made and dropped; the descriptors written are zeros. *)
Definition sys_socketpair (sv : Z) : NetM Z :=
  if sv =? 0 then mret (-22) else user_write sv (le_bytes 4 0 ++ le_bytes 4 0);; mret 0.
End Calls.
