(* ===== verification/SocketFacts.v ===== *)
(** * Theorems on sockets

    Datagrams on one machine, accepted connections, ports, and the numbers
    sockets are known by (kernel/src/net/socket/mod.rs). *)
From S2P Require Import Prelude Seccomp Process Inet Net NetFacts NetTcp Socket.

(** ** The first entry of an ordered map *)
Section FirstWhere.
Context {K A : Type} `{Countable K} (ltb : K → K → bool).
Hypothesis ltb_irrefl : ∀ a, ltb a a = false.
Hypothesis ltb_trans : ∀ a b c, ltb a b = true → ltb c b = false → ltb c a = false.

Lemma first_where_spec (P : K → A → bool) (m : gmap K A) :
  match first_where ltb P m with
  | None => ∀ k a, m !! k = Some a → P k a = false
  | Some k => ∃ a, m !! k = Some a ∧ P k a = true ∧ ∀ k' a', m !! k' = Some a' → P k' a' = true → ltb k' k = false
  end.
Proof.
  unfold first_where. enough (∀ l, match foldr (λ '(k, a) best, if P k a then match best with Some k' => if ltb k k' then Some k else best | None => Some k end else best) None l with
    | None => ∀ k a, (k, a) ∈ l → P k a = false
    | Some k => ∃ a, (k, a) ∈ l ∧ P k a = true ∧ ∀ k' a', (k', a') ∈ l → P k' a' = true → ltb k' k = false end) as Hl.
  { specialize (Hl (map_to_list m)). destruct (foldr _ _ _) as [k|].
    - destruct Hl as (a & Hin & Hp & Hmin). exists a. apply elem_of_map_to_list in Hin. split_and!; [done|done|].
      intros k' a' Hk'. by apply Hmin, elem_of_map_to_list.
    - intros k a Hk. by apply Hl, elem_of_map_to_list. }
  clear m. induction l as [|[k a] l IH]; cbn [foldr]; [by intros k a ?%elem_of_nil|].
  set (best := foldr _ None l) in *. destruct (P k a) eqn:Hp.
  - assert (∀ k' a', (k', a') ∈ (k, a) :: l → k' = k ∧ a' = a ∨ (k', a') ∈ l) as Hc
      by (intros k' a' [E|E]%elem_of_cons; [left; by injection E as -> ->|by right]).
    destruct best as [k0|].
    + destruct IH as (a0 & Hin & Hp0 & Hmin). destruct (ltb k k0) eqn:E.
      * exists a. split_and!; [by left|done|]. intros k' a' [[-> ->]|Hk']%Hc Hp'; [done|]. by eapply ltb_trans, Hmin.
      * exists a0. split_and!; [by right|done|]. intros k' a' [[-> ->]|Hk']%Hc Hp'; [done|]. by eapply Hmin.
    + exists a. split_and!; [by left|done|]. intros k' a' [[-> ->]|Hk']%Hc Hp'; [done|]. by rewrite IH in Hp'.
  - destruct best as [k0|].
    + destruct IH as (a0 & Hin & Hp0 & Hmin). exists a0. split_and!; [by right|done|].
      intros k' a' [E|E]%elem_of_cons Hp'; [injection E as -> ->; congruence|by eapply Hmin].
    + intros k' a' [E|E]%elem_of_cons; [by injection E as -> ->|by apply IH].
Qed.
End FirstWhere.

Lemma first_where_Z {A} (P : Z → A → bool) (m : gmap Z A) k a :
  m !! k = Some a → P k a = true → (∀ k' a', k' < k → m !! k' = Some a' → P k' a' = false) → first_where Z.ltb P m = Some k.
Proof.
  intros Hk Hp Hmin. pose proof (first_where_spec Z.ltb Z.ltb_irrefl ltac:(lia) P m) as Hf.
  destruct (first_where Z.ltb P m) as [k0|]; [|by rewrite (Hf _ _ Hk) in Hp].
  destruct Hf as (a0 & Hk0 & Hp0 & Hleast). f_equal. specialize (Hleast _ _ Hk Hp).
  destruct (Z.lt_trichotomy k0 k) as [|[|]]; [|done|lia]. by rewrite (Hmin _ _ H Hk0) in Hp0.
Qed.

Lemma key_ltb_irrefl a : key_ltb a a = false.
Proof. unfold key_ltb. lia. Qed.
Lemma key_ltb_trans a b c : key_ltb a b = true → key_ltb c b = false → key_ltb c a = false.
Proof. unfold key_ltb. lia. Qed.

(** ** Accepting *)

(** [pop_accepted] returns the peer of an established connection to the
    port that has not been handed out, the least in the order of keys, and
    records it, so that no connection is accepted twice; it returns nothing
    exactly when there is none. *)
Lemma pop_accepted_spec w lip lport :
  tcp_held w = false →
  let ready k s := k_lport k = lport ∧ k_rip k ≠ 0 ∧ ts_state s = Established ∧ k ∉ delivered w in
  (∃ k s, tsocks w !! k = Some s ∧ ready k s ∧ (∀ k' s', tsocks w !! k' = Some s' → ready k' s' → key_ltb k' k = false) ∧
     pop_accepted lip lport w = Ok (Some (k_rip k, k_rport k), set_delivered ({[k]} ∪ delivered w) w)) ∨
  (∀ k s, tsocks w !! k = Some s → ¬ ready k s) ∧ pop_accepted lip lport w = Ok (None, w).
Proof.
  intros Hh ready. unfold pop_accepted. rewrite bind_lock by done. rewrite bind_gets. cbn [tsocks delivered set_tcp_held].
  set (P := λ (k : ConnKey) (s : TcpSocket), (k_lport k =? lport) && negb (k_rip k =? 0) && bool_decide (ts_state s = Established) && bool_decide (k ∉ delivered w)).
  assert (∀ k s, P k s = true ↔ ready k s) as HP.
  { intros k s. unfold P, ready. rewrite !andb_true_iff, !bool_decide_eq_true, negb_true_iff, Z.eqb_neq, Z.eqb_eq. tauto. }
  pose proof (first_where_spec key_ltb key_ltb_irrefl key_ltb_trans P (tsocks w)) as Hf.
  destruct (first_where key_ltb P (tsocks w)) as [k|].
  - left. destruct Hf as (s & Hk & Hp & Hmin). exists k, s. split; [done|]. split; [by apply HP|].
    split; [intros k' s' Hk' Hr; eapply Hmin; [done|by apply HP]|].
    rewrite bind_modify, bind_unlock. unfold mret, NetM_ret. do 2 f_equal. destruct w. cbn in Hh |- *. by rewrite Hh.
  - right. split; [intros k s Hk Hr; apply HP in Hr; by rewrite (Hf _ _ Hk) in Hr|].
    rewrite bind_unlock, held_id by done. done.
Qed.

(** A connection that was accepted is never accepted again, also when its
    addresses are used by a new one: nothing is removed from [delivered]. *)
Theorem reaccept_blocked w lip k r w' :
  tcp_held w = false → k ∈ delivered w → pop_accepted lip (k_lport k) w = Ok (r, w') →
  k ∈ delivered w' ∧ (r = Some (k_rip k, k_rport k) → ∃ k', k' ≠ k ∧ k_rip k' = k_rip k ∧ k_rport k' = k_rport k).
Proof.
  intros Hh Hk Hrun. destruct (pop_accepted_spec w lip (k_lport k) Hh) as [(k' & s & Hk' & (_ & _ & _ & Hnd) & _ & E)|[_ E]];
    rewrite E in Hrun; injection Hrun as <- <-; [|done].
  split; [cbn; set_solver|]. intros Er. injection Er as E1 E2. exists k'. split; [by intros ->|]. by rewrite E1, E2.
Qed.

(** ** Ports *)

(** Ports from the dynamic range: the counter stays in [49152, 65535] and
    every port handed out is in [49152, 65534]. *)
Theorem ephemeral_range w :
  49152 ≤ next_ephemeral w ≤ 65535 →
  ∃ p w', alloc_ephemeral_port w = Ok (p, w') ∧ 49152 ≤ p ≤ 65534 ∧ 49152 ≤ next_ephemeral w' ≤ 65535.
Proof.
  intros Hn. unfold alloc_ephemeral_port. rewrite bind_gets, bind_modify.
  destruct (Z.eqb_spec (next_ephemeral w) 0); [lia|]. destruct (Z.leb_spec 65535 (next_ephemeral w)); cbn [orb].
  - rewrite bind_modify. eexists _, _. split; [done|]. cbn. lia.
  - eexists _, _. split; [done|]. cbn [next_ephemeral set_ephemeral]. rewrite wadd_small by lia. lia.
Qed.

(** At the end of the range the first port is handed out twice in a row. *)
Theorem ephemeral_repeats w :
  next_ephemeral w = 65535 →
  ∃ w1 w2, alloc_ephemeral_port w = Ok (49152, w1) ∧ alloc_ephemeral_port w1 = Ok (49152, w2).
Proof.
  intros Hn. unfold alloc_ephemeral_port. rewrite bind_gets, bind_modify, Hn. eexists _, _. split; done.
Qed.

Lemma port_in_use_spec port m :
  port_in_use port m = true ↔ ∃ fd s la, m !! fd = Some s ∧ local_addr s = Some la ∧ sin_portno la = port.
Proof.
  unfold port_in_use. rewrite existsb_exists. split.
  - intros ([fd s] & Hin%list_elem_of_In & Hp). apply elem_of_map_to_list in Hin.
    destruct (local_addr s) as [la|] eqn:E; [|done]. exists fd, s, la. split_and!; [done|done|by apply Z.eqb_eq].
  - intros (fd & s & la & Hfd & Hla & Hp). exists (fd, s). split; [by apply list_elem_of_In, elem_of_map_to_list|].
    rewrite Hla. by apply Z.eqb_eq.
Qed.

Definition user_sin (w : Net) (addr : Z) : SockAddrIn := sin_cast (map (λ i, umem w (addr + Z.of_nat i)) (List.seq 0 16)).

(** Binding an internet socket to a port: refused, without an effect,
    when any socket has that port; otherwise the socket gets the address and
    nothing else changes. *)
Theorem bind_exclusive w fd s addr :
  socks w !! fd = Some s → s_family s ≠ AF_UNIX → addr ≠ 0 → sin_portno (user_sin w addr) ≠ 0 →
  let sa := user_sin w addr in
  ((∃ fd' s' la, socks w !! fd' = Some s' ∧ local_addr s' = Some la ∧ sin_portno la = sin_portno sa) ∧
   sys_bind fd addr w = Ok (-98, w)) ∨
  ((∀ fd' s' la, socks w !! fd' = Some s' → local_addr s' = Some la → sin_portno la ≠ sin_portno sa) ∧
   sys_bind fd addr w =
     Ok (0, set_socks (<[fd := set_sstate SockBound (set_addrs (Some (mkSin AF_INET (sin_port sa) (sin_addr sa) (replicate 8 0))) (remote_addr s) s)]> (socks w)) w)).
Proof.
  intros Hfd Hfam Haddr Hport sa. unfold sys_bind. destruct (Z.eqb_spec addr 0); [done|]. rewrite bind_gets, Hfd.
  destruct (Z.eqb_spec (s_family s) AF_UNIX); [done|].
  rewrite (bind_ok _ _ w sa w) by done. destruct (Z.eqb_spec (sin_portno sa) 0); [done|]. cbn [negb andb].
  destruct (port_in_use (sin_portno sa) (socks w)) eqn:E.
  - left. split; [by apply port_in_use_spec|done].
  - right. split.
    + intros fd' s' la H1 H2 H3. assert (port_in_use (sin_portno sa) (socks w) = true) by (apply port_in_use_spec; eauto 6). congruence.
    + rewrite bind_ret. unfold alter_sock. rewrite bind_modify. unfold mret, NetM_ret. do 3 f_equal.
      apply map_eq. intros i. destruct (decide (i = fd)) as [->|].
      * by rewrite lookup_alter_eq, Hfd, lookup_insert_eq.
      * by rewrite lookup_alter_ne, lookup_insert_ne.
Qed.

(** ** Descriptors *)

(** Sockets are known by descriptor number alone, whichever process has
    the descriptor: a new socket whose number a socket of another process has
    takes its place, address, connection and queue included. *)
Theorem socket_clobbers w p s raw :
  procs (ptab w) !! current (ptab w) = Some p → p_fds p !! p_next_fd p = None → socks w !! p_next_fd p = Some s →
  ∃ w', sys_socket AF_INET raw 0 w = Ok (p_next_fd p, w') ∧
    socks w' !! p_next_fd p = Some (socket_new (p_next_fd p) AF_INET (Z.land raw 15) 0 (negb (Z.land raw SOCK_NONBLOCK =? 0))).
Proof.
  intros Hp Hfree Hs. unfold sys_socket. rewrite Z.eqb_refl. cbn [negb andb]. rewrite bind_gets, Hp.
  unfold alloc_fd. replace 1021%nat with (S 1020) by done. rewrite loop_nat_S. unfold alloc_fd_round at 1.
  rewrite decide_False by (rewrite Hfree; by intros [? ?]).
  rewrite bind_assoc, bind_modify, bind_ret, bind_modify. eexists. split; [done|]. apply lookup_insert_eq.
Qed.

(** The type is a byte when it arrives, so that the flag for non-blocking
    sockets (bit 11) is never seen. *)
Theorem socket_always_blocks w p raw :
  is_u8 raw → procs (ptab w) !! current (ptab w) = Some p → p_fds p !! p_next_fd p = None →
  ∃ w' s, sys_socket AF_INET raw 0 w = Ok (p_next_fd p, w') ∧ socks w' !! p_next_fd p = Some s ∧ nonblocking s = false.
Proof.
  intros Hraw Hp Hfree. unfold sys_socket. rewrite Z.eqb_refl. cbn [negb andb]. rewrite bind_gets, Hp.
  unfold alloc_fd. replace 1021%nat with (S 1020) by done. rewrite loop_nat_S. unfold alloc_fd_round at 1.
  rewrite decide_False by (rewrite Hfree; by intros [? ?]).
  rewrite bind_assoc, bind_modify, bind_ret, bind_modify. eexists _, _. split; [done|]. split; [apply lookup_insert_eq|].
  cbn [nonblocking socket_new]. apply negb_false_iff, Z.eqb_eq. apply Z.bits_inj'. intros i Hi.
  rewrite Z.land_spec, Z.bits_0. change SOCK_NONBLOCK with (2 ^ 11). rewrite Z.pow2_bits_eqb by done.
  destruct (Z.eqb_spec 11 i) as [<-|]; [|by rewrite andb_false_r]. by rewrite (testbit_above 8 raw).
Qed.

(** ** Datagrams on one machine *)
Lemma udp_frame_received tx w src dst sp dp data :
  is_u32 src → is_u32 dst → is_u16 sp → is_u16 dp →
  ip_receive tx (ip_frame src dst PROTO_UDP (udp_bytes (mkUdp (to_be 2 sp) (to_be 2 dp) (to_be 2 (wrap 16 (8 + Z.of_nat (length data)))) 0) ++ data)) w =
  (modify (λ w, set_usocks (alter (λ s, mkUs (local_port s) (recv_queue s ++ [(src, sp, data)])) dp (usocks w)) w);;
   udp_deliver dst dp src sp data) w.
Proof.
  intros Hsrc Hdst Hsp Hdp. rewrite ip_receive_frame by done. cbn [Z.eqb Pos.eqb PROTO_TCP PROTO_UDP].
  unfold udp_receive. set (h := mkUdp _ _ _ 0). rewrite length_app. change (length (udp_bytes h)) with 8%nat.
  cbn [Nat.add Nat.ltb Nat.leb]. rewrite udp_cast_bytes by (unfold udp_wf, h; cbn [u_src u_dst u_len u_csum]; split_and!; auto with words; done).
  rewrite (drop_app_length' (udp_bytes h)) by done. unfold h. cbn [u_src u_dst].
  by rewrite !to_be_16, (proj1 (ip_new_addrs _ _ _ _ Hsrc Hdst)), (proj2 (ip_new_addrs _ _ _ _ Hsrc Hdst)) by done.
Qed.

Definition user_bytes (w : Net) (addr : Z) (len : nat) : list Z := map (λ i, umem w (addr + Z.of_nat i)) (List.seq 0 len).

(** The state after a datagram for the socket [fb] was delivered. *)
Definition datagram_queued (w w' : Net) (fb : Z) (b : Socket) (src : SockAddrIn) (data : list Z) : Prop :=
  socks w' = <[fb := set_queue (udp_recv_q b ++ [(src, data)]) b]> (socks w) ∧
  umem w' = umem w ∧ clock w' = clock w ∧ offline w' ∧ tsocks w' = tsocks w.

Lemma sendto_local w n fa fb a b la buf len addr :
  offline w → is_u32 (local_ip w) →
  socks w !! fa = Some a → s_family a = AF_INET → s_type a = SOCK_DGRAM → local_addr a = Some la →
  buf ≠ 0 → (0 < len)%nat → Z.of_nat len < 65528 → addr ≠ 0 →
  sin_ip (user_sin w addr) = local_ip w →
  socks w !! fb = Some b → udp_target (local_ip w) (sin_portno (user_sin w addr)) b = true →
  (∀ fd s, fd < fb → socks w !! fd = Some s → udp_target (local_ip w) (sin_portno (user_sin w addr)) s = false) →
  (length (udp_recv_q b) < 64)%nat →
  ∃ w', sys_sendto (transmit (2 + n)) fa buf len addr 16 w = Ok (Z.of_nat len, w') ∧
    datagram_queued w w' fb b (sin_new (local_ip w) (sin_portno la)) (user_bytes w buf len).
Proof.
  intros Hoff Hip Ha Hfam Hty Hla Hbuf Hlen Hmax Haddr Hdst Hb Htgt Hfirst Hq. unfold sys_sendto.
  destruct (Z.eqb_spec buf 0); [done|]. destruct (Z.eqb_spec (Z.of_nat len) 0); [lia|]. cbn [orb].
  rewrite (bind_ok _ _ w (user_bytes w buf len) w) by done. unfold get_sock. rewrite bind_gets, Ha.
  rewrite Hfam, Hty. cbn [Z.eqb Pos.eqb AF_INET SOCK_DGRAM SOCK_STREAM]. destruct (Z.eqb_spec addr 0); [done|]. cbn [negb andb Z.leb Z.compare Pos.compare Pos.compare_cont].
  rewrite (bind_ok _ _ w (user_sin w addr) w) by done. rewrite bind_gets, Hla, bind_ret.
  assert (length (user_bytes w buf len) = len) as Hl by (unfold user_bytes; by rewrite length_map, length_seq).
  assert (wrap 16 (8 + Z.of_nat len) = 8 + Z.of_nat len) as Hw by (apply wrap_small; unfold in_range; lia).
  set (dp := sin_portno (user_sin w addr)) in *. set (sp := sin_portno la).
  assert (is_u16 dp ∧ is_u16 sp) as [Hdp Hsp] by (unfold dp, sp, sin_portno; auto with words).
  set (data := user_bytes w buf len) in *.
  pose proof (udp_frame_received (transmit (S n)) w (local_ip w) (local_ip w) sp dp data Hip Hip Hsp Hdp) as Hrecv.
  unfold udp_send. rewrite Hl, Hw in Hrecv |- *. rewrite Z.eqb_refl, Hdst.
  unfold udp_deliver in Hrecv. rewrite bind_modify in Hrecv. unfold modify in Hrecv. cbn [socks set_usocks] in Hrecv.
  rewrite (first_where_Z _ _ fb b) in Hrecv by done.
  set (w1 := set_socks _ _) in Hrecv.
  assert (offline w1) as Hoff1 by done.
  rewrite (bind_ok _ _ w tt w1).
  - exists w1. split; [done|]. unfold datagram_queued. split; [|done].
    unfold w1. cbn [socks set_socks set_usocks]. apply map_eq. intros i. destruct (decide (i = fb)) as [->|].
    + rewrite lookup_alter_eq, Hb, lookup_insert_eq. cbn [fmap option_fmap option_map].
      by destruct (Nat.ltb_spec (length (udp_recv_q b)) 64); [|lia].
    + by rewrite lookup_alter_ne, lookup_insert_ne.
  - rewrite ip_send_frame. cbn [Nat.add]. rewrite transmit_local by done. rewrite (bind_ok _ _ _ _ _ Hrecv).
    cbn [drain_loopback]. rewrite (bind_ok _ _ w1 None w1); [done|]. destruct Hoff1 as (_ & _ & E).
    unfold pop_loopback. by rewrite E.
Qed.

Lemma user_write_read w addr bs len :
  (len ≤ length bs)%nat →
  ∃ w', user_write addr bs w = Ok (tt, w') ∧ user_bytes w' addr len = take len bs ∧ socks w' = socks w.
Proof.
  intros Hlen. eexists. split; [done|]. split; [|done]. unfold user_bytes. apply list_eq_same_length with len; [by rewrite length_take; lia|by rewrite length_map, length_seq|].
  intros i x y Hi Hx Hy. rewrite list_lookup_fmap in Hx. rewrite lookup_seq_lt in Hx by done. cbn [fmap option_fmap option_map] in Hx. injection Hx as <-.
  cbn [umem set_umem]. rewrite lookup_take_lt in Hy by done. apply lookup_lt_Some in Hy as Hlt.
  rewrite (proj2 (Z.leb_le addr (addr + Z.of_nat i))) by lia.
  rewrite (proj2 (Z.ltb_lt (addr + Z.of_nat i) (addr + Z.of_nat (length bs)))) by lia. cbn [andb].
  replace (Z.to_nat (addr + Z.of_nat i - addr)) with i by lia. by apply list_lookup_total_correct.
Qed.

(** C33. On a machine without a card and with nothing waiting on the loop-back
    interface, a datagram of 1 to 65,527 bytes that a bound socket sends to
    the machine's own address is queued whole, after those that wait and with
    the sender's address, at the lowest-numbered socket that is bound to the
    port, provided that fewer than 64 datagrams wait there; and a receiver
    whose queue was empty gets it: as many bytes as fit, at the address of its
    buffer. *)
Theorem udp_loopback w n fa fb a b la buf len addr :
  offline w → is_u32 (local_ip w) →
  socks w !! fa = Some a → s_family a = AF_INET → s_type a = SOCK_DGRAM → local_addr a = Some la →
  buf ≠ 0 → (0 < len)%nat → Z.of_nat len < 65528 → addr ≠ 0 →
  sin_ip (user_sin w addr) = local_ip w →
  socks w !! fb = Some b → s_family b = AF_INET → udp_target (local_ip w) (sin_portno (user_sin w addr)) b = true →
  (∀ fd s, fd < fb → socks w !! fd = Some s → udp_target (local_ip w) (sin_portno (user_sin w addr)) s = false) →
  (length (udp_recv_q b) < 64)%nat →
  ∃ w1, sys_sendto (transmit (2 + n)) fa buf len addr 16 w = Ok (Z.of_nat len, w1) ∧
    datagram_queued w w1 fb b (sin_new (local_ip w) (sin_portno la)) (user_bytes w buf len) ∧
    (udp_recv_q b = [] → ∀ spin fuel rbuf rlen fl, rbuf ≠ 0 → (0 < rlen)%nat →
     ∃ w2, sys_recv spin (S fuel) fb rbuf rlen fl w1 = Ok (Z.of_nat (Nat.min len rlen), w2) ∧
       user_bytes w2 rbuf (Nat.min len rlen) = take rlen (user_bytes w buf len) ∧
       ∃ b', socks w2 !! fb = Some b' ∧ udp_recv_q b' = []).
Proof.
  intros Hoff Hip Ha Hfam Hty Hla Hbuf Hlen Hmax Haddr Hdst Hb Hfamb Htgt Hfirst Hq.
  destruct (sendto_local w n fa fb a b la buf len addr) as (w1 & Hsend & Hw1); try done.
  exists w1. split; [done|]. split; [done|]. intros Hempty spin fuel rbuf rlen fl Hrbuf Hrlen.
  destruct Hw1 as (Hsocks & _). rewrite Hempty in Hsocks. cbn [app] in Hsocks.
  unfold udp_target in Htgt. apply andb_prop in Htgt as [Htgt _]. apply andb_prop in Htgt as [Htyb _]. apply Z.eqb_eq in Htyb.
  unfold sys_recv, sys_recvfrom. destruct (Z.eqb_spec rbuf 0); [done|]. destruct (Z.eqb_spec (Z.of_nat rlen) 0); [lia|]. cbn [orb].
  unfold get_sock. rewrite bind_gets, Hsocks, lookup_insert_eq, bind_gets. cbn [recv_wait].
  unfold recv_once at 1. cbn [s_family s_type set_queue]. rewrite Hfamb, Htyb. cbn [Z.eqb Pos.eqb AF_INET SOCK_DGRAM SOCK_STREAM].
  unfold get_sock. rewrite bind_assoc, bind_gets, Hsocks, lookup_insert_eq. cbn [udp_recv_q set_queue].
  unfold alter_sock. rewrite bind_assoc, bind_modify. set (w1' := set_socks _ w1). cbn [negb Z.eqb].
  assert (length (user_bytes w buf len) = len) as Hl by (unfold user_bytes; by rewrite length_map, length_seq).
  rewrite Hl. destruct (user_write_read w1' rbuf (take (Nat.min len rlen) (user_bytes w buf len)) (Nat.min len rlen))
    as (w2 & Hrun & Hmem & Hsk); [rewrite length_take; lia|].
  rewrite bind_assoc, (bind_ok _ _ _ _ _ Hrun). rewrite !bind_assoc, !bind_skip, bind_assoc, bind_skip, bind_ret.
  exists w2. split; [done|]. split.
  - rewrite Hmem, take_take, Nat.min_id. destruct (Nat.min_spec len rlen) as [[? ->]|[? ->]]; [|done].
    by rewrite !take_ge by lia.
  - eexists. rewrite Hsk. unfold w1'. cbn [socks set_socks]. rewrite Hsocks, lookup_alter_eq, lookup_insert_eq. by split.
Qed.

(** ** Witnesses *)
Definition demo_dgram (fd port : Z) : Socket := set_addrs (Some (sin_new 0 port)) None (socket_new fd AF_INET SOCK_DGRAM 0 false).
(** Two sockets, on ports 1000 and 2000; the address of the second and some
    data in user memory. *)
Definition demo_sockets : Net :=
  mkNet LOCALHOST 0 [] ∅ ∅ false ∅ {[3 := demo_dgram 3 1000; 4 := demo_dgram 4 2000]} 49152 demo_table
    (λ a, if (4096 <=? a) && (a <? 4112) then sin_bytes (sin_new LOCALHOST 2000) !!! Z.to_nat (a - 4096) else a mod 256) 0 None false [] [].

Lemma udp_loopback_witness :
  ∃ w1, sys_sendto (transmit 2) 3 8192 5 4096 16 demo_sockets = Ok (5, w1) ∧
    datagram_queued demo_sockets w1 4 (demo_dgram 4 2000) (sin_new LOCALHOST 1000) (user_bytes demo_sockets 8192 5) ∧
    (udp_recv_q (demo_dgram 4 2000) = [] → ∀ spin fuel rbuf rlen fl, rbuf ≠ 0 → (0 < rlen)%nat →
     ∃ w2, sys_recv spin (S fuel) 4 rbuf rlen fl w1 = Ok (Z.of_nat (Nat.min 5 rlen), w2) ∧
       user_bytes w2 rbuf (Nat.min 5 rlen) = take rlen (user_bytes demo_sockets 8192 5) ∧
       ∃ b', socks w2 !! 4 = Some b' ∧ udp_recv_q b' = []).
Proof.
  apply (udp_loopback demo_sockets 0 3 4 (demo_dgram 3 1000) (demo_dgram 4 2000) (sin_new 0 1000) 8192 5 4096);
    try done; try (cbn; lia).
  intros fd s Hfd. change (socks demo_sockets) with ({[3 := demo_dgram 3 1000; 4 := demo_dgram 4 2000]} : gmap Z Socket).
  rewrite lookup_insert_Some, lookup_singleton_Some. intros [[<- <-]|[? [? ?]]]; [done|lia].
Defined.

Definition demo_process : Process := mkProcess 1 0 1 Running 0 ∅ 3 0 0 [] 0 [] chain_new.
Definition demo_two : Net := set_ptab (mkTable {[1 := demo_process]} 2 1) demo_sockets.

Lemma socket_clobbers_witness :
  ∃ w', sys_socket AF_INET SOCK_STREAM 0 demo_two = Ok (3, w') ∧
    socks w' !! 3 = Some (socket_new 3 AF_INET (Z.land SOCK_STREAM 15) 0 (negb (Z.land SOCK_STREAM SOCK_NONBLOCK =? 0))).
Proof. by apply (socket_clobbers demo_two demo_process (demo_dgram 3 1000) SOCK_STREAM). Defined.

Lemma ephemeral_range_witness :
  ∃ p w', alloc_ephemeral_port demo_sockets = Ok (p, w') ∧ 49152 ≤ p ≤ 65534 ∧ 49152 ≤ next_ephemeral w' ≤ 65535.
Proof. apply (ephemeral_range demo_sockets). cbn. lia. Defined.

Lemma bind_exclusive_witness :
  let sa := user_sin demo_sockets 4096 in
  ((∃ fd' s' la, socks demo_sockets !! fd' = Some s' ∧ local_addr s' = Some la ∧ sin_portno la = sin_portno sa) ∧
   sys_bind 3 4096 demo_sockets = Ok (-98, demo_sockets)) ∨
  ((∀ fd' s' la, socks demo_sockets !! fd' = Some s' → local_addr s' = Some la → sin_portno la ≠ sin_portno sa) ∧
   sys_bind 3 4096 demo_sockets =
     Ok (0, set_socks (<[3 := set_sstate SockBound (set_addrs (Some (mkSin AF_INET (sin_port sa) (sin_addr sa) (replicate 8 0))) (remote_addr (demo_dgram 3 1000)) (demo_dgram 3 1000))]> (socks demo_sockets)) demo_sockets)).
Proof. by apply (bind_exclusive demo_sockets 3 (demo_dgram 3 1000) 4096). Defined.
