(* ===== verification/Bytes.v ===== *)
(** * Bytes in place

    Reading and overwriting a range of a list of bytes ([d[off..off + len]] and
    [copy_from_slice]), as files in frames, disk images and directory blocks
    use it. *)
From S2P Require Import Prelude.

Definition slice (d : list Z) (off len : nat) : list Z := take len (drop off d).
(** A little-endian field. *)
Definition word (raw : list Z) (off len : nat) : Z := le_value (slice raw off len).
(** [v[off .. off + length data].copy_from_slice(data)] *)
Definition splice (l : list Z) (off : nat) (data : list Z) : list Z := take off l ++ data ++ drop (off + length data) l.

Lemma length_splice l off data : (off + length data ≤ length l)%nat → length (splice l off data) = length l.
Proof. intros. unfold splice. rewrite !length_app, length_take, length_drop. lia. Qed.

Lemma splice_middle x y z off d :
  (off + length d ≤ length y)%nat → splice (x ++ y ++ z) (length x + off) d = x ++ splice y off d ++ z.
Proof.
  intros Hd. unfold splice. rewrite take_app_add, take_app_le by lia.
  replace (length x + off + length d)%nat with (length x + (off + length d))%nat by lia.
  rewrite drop_app_add, drop_app_le by lia. by rewrite <- !app_assoc.
Qed.

Lemma splice_splice l pos d1 d2 :
  (pos + length d1 + length d2 ≤ length l)%nat →
  splice (splice l pos d1) (pos + length d1) d2 = splice l pos (d1 ++ d2).
Proof.
  intros Hd. unfold splice. rewrite length_app.
  assert (length (take pos l) = pos) as Hp by (rewrite length_take; lia).
  rewrite (app_assoc (take pos l)). rewrite take_app_length' by (rewrite length_app; lia).
  rewrite drop_app_ge by (rewrite length_app; lia). rewrite length_app, Hp, drop_drop, <- !app_assoc.
  do 4 f_equal. lia.
Qed.

Lemma splice_nil l pos : splice l pos [] = l.
Proof. unfold splice. cbn. rewrite Nat.add_0_r. apply take_drop. Qed.

Lemma slice_same d a bs : (a + length bs ≤ length d)%nat → slice (splice d a bs) a (length bs) = bs.
Proof.
  intros H. unfold slice, splice. rewrite drop_app_length' by (rewrite length_take; lia). by rewrite take_app_length.
Qed.

Lemma slice_other d a bs b n :
  (a + length bs ≤ length d)%nat → (b + n ≤ a ∨ a + length bs ≤ b)%nat → slice (splice d a bs) b n = slice d b n.
Proof.
  intros Ha Hd. apply list_eq. intros i. unfold slice. rewrite !lookup_take. case_decide as Hi; [|done]. rewrite !lookup_drop.
  unfold splice. destruct Hd as [Hd|Hd].
  - rewrite lookup_app_l by (rewrite length_take; lia). rewrite lookup_take. by rewrite decide_True by lia.
  - rewrite lookup_app_r by (rewrite length_take; lia). rewrite lookup_app_r by (rewrite length_take; lia).
    rewrite lookup_drop. f_equal. rewrite length_take. lia.
Qed.

Lemma length_disk_slice d a n : (a + n ≤ length d)%nat → length (slice d a n) = n.
Proof. intros H. unfold slice. rewrite length_take, length_drop. lia. Qed.
