(* ===== verification/Tmpfs.v ===== *)
(** * tmpfs, the file system in memory

    Models kernel/src/fs/tmpfs/mod.rs: files as lists of frames, the node
    table, and the operations on inodes.  Frames come from an allocator that
    satisfies [FrameAlloc] (Paging); their bytes are kept per frame, an absent
    frame is zero.  A write that does not fit leaves pages behind and reports
    ENOMEM, as the code does.  [None] is a panic. *)
From stdpp Require Import sorting.
From S2P Require Import Prelude Bytes Paging.

(** ** Errors and modes (vfs/mod.rs) *)
Definition ENOENT : Z := 2.
Definition ENOMEM : Z := 12.
Definition EACCES : Z := 13.
Definition EEXIST : Z := 17.
Definition EXDEV : Z := 18.
Definition ENOTDIR : Z := 20.
Definition EISDIR : Z := 21.
Definition EINVAL : Z := 22.
Definition ENOTEMPTY : Z := 39.
Definition ELOOP : Z := 40.
Definition S_IFMT : Z := 0xF000.
Definition S_IFLNK : Z := 0xA000.
Definition S_IFREG : Z := 0x8000.
Definition S_IFDIR : Z := 0x4000.

Definition TMPFS_PAGE_SIZE : nat := 4096.
#[local] Abbreviation P := TMPFS_PAGE_SIZE.

(** ** Frames with their bytes *)
Record Store (A : Type) := mkStore { sframes : A; sbytes : gmap Z (list Z) }.
Arguments mkStore {_} _ _.
Arguments sframes {_} _.
Arguments sbytes {_} _.

Definition get_page {A} (m : Store A) (frame : Z) : list Z := default (replicate P 0) (sbytes m !! frame).
Definition set_page {A} (frame : Z) (pg : list Z) (m : Store A) : Store A :=
  mkStore (sframes m) (<[frame := pg]> (sbytes m)).

Record TmpFileData := mkFile { f_len : nat; f_pages : list Z }.
Definition file_new : TmpFileData := mkFile 0 [].

(** In 64-bit arithmetic: the sum wraps for a length in the last page of the
    address space. *)
Definition required_pages (len : nat) : nat :=
  if decide (len = 0%nat) then 0%nat else Z.to_nat (wrap 64 (Z.of_nat len + Z.of_nat P - 1) `div` Z.of_nat P).

Section Files.
Context {A : Type} `{FA : FrameAlloc A}.
Implicit Types (m : Store A) (f : TmpFileData).

(** The loop of [ensure_len], [k] pages to go; the flag says whether there
    was memory. *)
Fixpoint add_pages (k : nat) f m : option (Store A * TmpFileData * bool) :=
  match k with
  | O => Some (m, f, true)
  | S k =>
      '(a, r) ← fa_alloc (sframes m);
      match r with
      | None => Some (mkStore a (sbytes m), f, false)
      | Some frame =>
          add_pages k (mkFile (f_len f) (f_pages f ++ [frame])) (mkStore a (<[frame := replicate P 0]> (sbytes m)))
      end
  end.

Definition ensure_len (len : nat) f m : option (Store A * TmpFileData * bool) :=
  add_pages (required_pages len - length (f_pages f)) f m.

(** The loops over pages; fuel: a byte per round is enough. *)
Fixpoint zero_loop (fuel : nat) (pages : list Z) (pos end_ : nat) m : option (Store A) :=
  if decide (end_ ≤ pos)%nat then Some m
  else match fuel with
  | O => None
  | S fuel =>
      let page_idx := (pos / P)%nat in
      let page_off := (pos mod P)%nat in
      let next := Nat.min end_ ((page_idx + 1) * P) in
      frame ← pages !! page_idx;
      zero_loop fuel pages next end_ (set_page frame (splice (get_page m frame) page_off (replicate (next - pos) 0)) m)
  end.

Definition zero_range (start end_ : nat) f m : option (Store A * TmpFileData * bool) :=
  if decide (end_ ≤ start)%nat then Some (m, f, true)
  else
    '(m, f, ok) ← ensure_len end_ f m;
    if (ok : bool) then m ← zero_loop (end_ - start) (f_pages f) start end_ m; Some (m, f, true) else Some (m, f, false).

Fixpoint read_loop (fuel : nat) (pages : list Z) (pos total : nat) m : option (list Z) :=
  match total with
  | O => Some []
  | _ =>
      match fuel with
      | O => None
      | S fuel =>
          let page_idx := (pos / P)%nat in
          let page_off := (pos mod P)%nat in
          let chunk := Nat.min total (P - page_off) in
          frame ← pages !! page_idx;
          rest ← read_loop fuel pages (pos + chunk) (total - chunk) m;
          Some (take chunk (drop page_off (get_page m frame)) ++ rest)
      end
  end.

(** [read] into a buffer of [n] bytes: the bytes read. *)
Definition file_read f (offset n : nat) m : option (list Z) :=
  if decide (f_len f ≤ offset)%nat then Some []
  else let total := Nat.min n (f_len f - offset) in read_loop total (f_pages f) offset total m.

Fixpoint write_loop (fuel : nat) (pages : list Z) (pos : nat) (data : list Z) m : option (Store A) :=
  match data with
  | [] => Some m
  | _ =>
      match fuel with
      | O => None
      | S fuel =>
          let page_idx := (pos / P)%nat in
          let page_off := (pos mod P)%nat in
          let chunk := Nat.min (length data) (P - page_off) in
          frame ← pages !! page_idx;
          write_loop fuel pages (pos + chunk) (drop chunk data)
            (set_page frame (splice (get_page m frame) page_off (take chunk data)) m)
      end
  end.

Definition file_write (offset : nat) (data : list Z) f m : option (Store A * TmpFileData * result Z nat) :=
  if bool_decide (data = []) then Some (m, f, Ok 0%nat)
  else
    let end_ := (offset + length data)%nat in
    '(m, f, ok) ← (if decide (f_len f < offset)%nat then zero_range (f_len f) offset f m else Some (m, f, true));
    if negb ok then Some (m, f, Err ENOMEM)
    else
      '(m, f, ok) ← ensure_len end_ f m;
      if negb ok then Some (m, f, Err ENOMEM)
      else
        m ← write_loop (length data) (f_pages f) offset data m;
        Some (m, mkFile (Nat.max (f_len f) end_) (f_pages f), Ok (length data)).

(** [while pages.len() > needed], from the last page on. *)
Fixpoint free_pages (frames : list Z) m : option (Store A) :=
  match frames with
  | [] => Some m
  | frame :: frames => a ← fa_free frame (sframes m); free_pages frames (mkStore a (sbytes m))
  end.

Definition file_truncate (len : nat) f m : option (Store A * TmpFileData * result Z unit) :=
  if decide (f_len f < len)%nat then
    '(m, f, ok) ← zero_range (f_len f) len f m;
    if (ok : bool) then Some (m, mkFile len (f_pages f), Ok tt) else Some (m, f, Err ENOMEM)
  else
    let needed := required_pages len in
    m ← free_pages (rev (drop needed (f_pages f))) m;
    let pages := take needed (f_pages f) in
    let tail := (len mod P)%nat in
    if decide (0 < needed)%nat then
      if decide (tail = 0%nat) then Some (m, mkFile len pages, Ok tt)
      else
        frame ← pages !! (needed - 1)%nat;
        Some (set_page frame (take tail (get_page m frame) ++ replicate (P - tail) 0) m, mkFile len pages, Ok tt)
    else Some (m, mkFile len pages, Ok tt).

(** [Drop]: the frames go back, the last one first. *)
Definition file_drop f m : option (Store A) := free_pages (rev (f_pages f)) m.
End Files.

(** ** Nodes *)
Inductive NodeData :=
| NFile (d : TmpFileData)
| NDir (children : gmap string Z)
| NSymlink (target : string).

Record TmpNode := mkNode {
  n_ino : Z;
  n_mode : Z;
  n_uid : Z;
  n_gid : Z;
  n_data : NodeData;
  n_atime : Z;
  n_mtime : Z;
  n_ctime : Z;
  n_nlink : Z;
}.

Definition set_data (d : NodeData) (n : TmpNode) : TmpNode :=
  mkNode (n_ino n) (n_mode n) (n_uid n) (n_gid n) d (n_atime n) (n_mtime n) (n_ctime n) (n_nlink n).
Definition set_times (t : Z) (n : TmpNode) : TmpNode :=
  mkNode (n_ino n) (n_mode n) (n_uid n) (n_gid n) (n_data n) (n_atime n) t t (n_nlink n).
Definition set_nlink (k : Z) (n : TmpNode) : TmpNode :=
  mkNode (n_ino n) (n_mode n) (n_uid n) (n_gid n) (n_data n) (n_atime n) (n_mtime n) (n_ctime n) k.

Definition node_size (n : TmpNode) : Z :=
  match n_data n with
  | NFile f => Z.of_nat (f_len f)
  | NSymlink s => Z.of_nat (String.length s)
  | NDir d => wmul 64 (Z.of_nat (size d)) 64
  end.

(** A copy of a node's attributes, as the VFS keeps it. *)
Record Inode := mkInode {
  i_ino : Z;
  i_mode : Z;
  i_uid : Z;
  i_gid : Z;
  i_size : Z;
  i_atime : Z;
  i_mtime : Z;
  i_ctime : Z;
  i_dev : Z;
}.

Record TmpState (A : Type) := mkTmp { nodes : gmap Z TmpNode; next_ino : Z; store : Store A }.
Arguments mkTmp {_} _ _ _.
Arguments nodes {_} _.
Arguments next_ino {_} _.
Arguments store {_} _.

Definition tmp_new {A} (st : Store A) : TmpState A :=
  mkTmp {[1 := mkNode 1 (Z.lor S_IFDIR 493) 0 0 (NDir ∅) 0 0 0 2]} 2 st.

Definition DirEntry : Type := string * Z * Z.
(** The order of the keys of a directory. *)
Definition name_le (a b : string * Z) : Prop := Is_true (String.leb a.1 b.1).
#[export] Instance name_le_dec : RelDecision name_le.
Proof. intros a b. unfold name_le. apply _. Defined.

Section Ops.
Context {A : Type} `{FA : FrameAlloc A}.
Implicit Types (s : TmpState A).

Definition set_nodes (ns : gmap Z TmpNode) s : TmpState A := mkTmp ns (next_ino s) (store s).

(** [alloc_ino] and the insertion of [make_file], [make_dir], [make_symlink]:
    type and permission bits (0o777 is 511), data, links. *)
Definition make_node (mode uid gid now : Z) (d : NodeData) (links : Z) s : TmpState A * Z :=
  let ino := next_ino s in
  (mkTmp (<[ino := mkNode ino mode uid gid d now now now links]> (nodes s)) (wadd 64 ino 1) (store s), ino).
Definition make_file (mode uid gid now : Z) := make_node (Z.lor S_IFREG (Z.land mode 511)) uid gid now (NFile file_new) 1.
Definition make_dir (mode uid gid now : Z) := make_node (Z.lor S_IFDIR (Z.land mode 511)) uid gid now (NDir ∅) 2.
Definition make_symlink (target : string) (uid gid now : Z) := make_node (Z.lor S_IFLNK 511) uid gid now (NSymlink target) 1.

Definition make_inode (ino : Z) s : result Z Inode :=
  match nodes s !! ino with
  | None => Err ENOENT
  | Some n => Ok (mkInode ino (n_mode n) (n_uid n) (n_gid n) (node_size n) (n_atime n) (n_mtime n) (n_ctime n) 1)
  end.
Definition tmp_root s : result Z Inode := make_inode 1 s.

Definition tmp_read (ino : Z) (n offset : nat) s : option (result Z (list Z)) :=
  match nodes s !! ino with
  | None => Some (Err ENOENT)
  | Some node =>
      match n_data node with
      | NFile f => bs ← file_read f offset n (store s); Some (Ok bs)
      | NSymlink t => Some (Ok (take n (map (λ c, Z.of_nat (Ascii.nat_of_ascii c)) (String.list_ascii_of_string t))))
      | NDir _ => Some (Err EISDIR)
      end
  end.

Definition tmp_write (ino now : Z) (data : list Z) (offset : nat) s : option (TmpState A * result Z nat) :=
  if 2 ^ 64 <=? Z.of_nat offset + Z.of_nat (length data) then Some (s, Err EINVAL)
  else match nodes s !! ino with
  | None => Some (s, Err ENOENT)
  | Some node =>
      match n_data node with
      | NFile f =>
          '(m, f, r) ← file_write offset data f (store s);
          let node := set_data (NFile f) node in
          Some (mkTmp (<[ino := if is_ok r then set_times now node else node]> (nodes s)) (next_ino s) m, r)
      | NDir _ => Some (s, Err EISDIR)
      | NSymlink _ => Some (s, Err EINVAL)
      end
  end.

Definition tmp_truncate (ino now : Z) (size : nat) s : option (TmpState A * result Z unit) :=
  match nodes s !! ino with
  | None => Some (s, Err EINVAL)
  | Some node =>
      match n_data node with
      | NFile f =>
          '(m, f, r) ← file_truncate size f (store s);
          let node := set_data (NFile f) node in
          Some (mkTmp (<[ino := if is_ok r then set_times now node else node]> (nodes s)) (next_ino s) m, r)
      | _ => Some (s, Err EINVAL)
      end
  end.

(** The entries of a directory in the order of the map; the file type of a
    child that does not exist is that of a file. *)
Definition entry_type (ino : Z) s : Z :=
  match n_data <$> nodes s !! ino with
  | Some (NDir _) => 4
  | Some (NSymlink _) => 10
  | _ => 8
  end.
Definition tmp_readdir (ino : Z) s : result Z (list DirEntry) :=
  match n_data <$> nodes s !! ino with
  | None => Err ENOENT
  | Some (NDir d) =>
      Ok ((".", ino, 4) :: ("..", ino, 4) ::
          map (λ '(name, c), (name, c, entry_type c s)) (merge_sort name_le (map_to_list d)))%string
  | Some _ => Err ENOTDIR
  end.

(** The child of a directory with this name. *)
Definition child (ino : Z) (name : string) s : result Z Z :=
  match n_data <$> nodes s !! ino with
  | None => Err ENOENT
  | Some (NDir d) => match d !! name with Some c => Ok c | None => Err ENOENT end
  | Some _ => Err ENOTDIR
  end.

Definition tmp_lookup (ino : Z) (name : string) s : result Z Inode := c ← child ino name s; make_inode c s.

(** [d.insert(name, c)] in the directory [ino]. *)
Definition add_entry (ino : Z) (name : string) (c : Z) s : TmpState A * result Z unit :=
  match nodes s !! ino with
  | None => (s, Err ENOENT)
  | Some node =>
      match n_data node with
      | NDir d => (set_nodes (<[ino := set_data (NDir (<[name := c]> d)) node]> (nodes s)) s, Ok tt)
      | _ => (s, Err ENOTDIR)
      end
  end.

(** The common part of [create], [mkdir] and [symlink]: the node is made, then
    entered, also when the directory is not one. *)
Definition enter_new (dir : Z) (name : string) (made : TmpState A * Z) : TmpState A * result Z Inode :=
  let '(s, ino) := made in
  match add_entry dir name ino s with
  | (s, Ok _) => (s, make_inode ino s)
  | (s, Err e) => (s, Err e)
  end.

Definition tmp_create (dir : Z) (name : string) (mode uid gid now : Z) s := enter_new dir name (make_file mode uid gid now s).
Definition tmp_mkdir (dir : Z) (name : string) (mode uid gid now : Z) s := enter_new dir name (make_dir mode uid gid now s).
Definition tmp_symlink (dir : Z) (name target : string) (uid gid now : Z) s := enter_new dir name (make_symlink target uid gid now s).

Definition del_entry (ino : Z) (name : string) s : TmpState A :=
  set_nodes (alter (λ n, match n_data n with NDir d => set_data (NDir (delete name d)) n | _ => n end) ino (nodes s)) s.

(** [state.nodes.remove(&ino)]: a file that goes gives its frames back. *)
Definition remove_node (ino : Z) s : option (TmpState A) :=
  match n_data <$> nodes s !! ino with
  | Some (NFile f) => m ← file_drop f (store s); Some (mkTmp (delete ino (nodes s)) (next_ino s) m)
  | _ => Some (set_nodes (delete ino (nodes s)) s)
  end.

Definition tmp_unlink (dir : Z) (name : string) s : option (TmpState A * result Z unit) :=
  match child dir name s with
  | Err e => Some (s, Err e)
  | Ok c =>
      match nodes s !! c with
      | None => Some (s, Err ENOENT)
      | Some node =>
          match n_data node with
          | NDir _ => Some (s, Err EISDIR)
          | _ =>
              let s := del_entry dir name s in
              let links := if 0 <? n_nlink node then n_nlink node - 1 else n_nlink node in
              if links =? 0 then s ← remove_node c s; Some (s, Ok tt)
              else Some (set_nodes (<[c := set_nlink links node]> (nodes s)) s, Ok tt)
          end
      end
  end.

Definition tmp_rmdir (dir : Z) (name : string) s : option (TmpState A * result Z unit) :=
  match child dir name s with
  | Err e => Some (s, Err e)
  | Ok c =>
      match n_data <$> nodes s !! c with
      | None => Some (s, Err ENOENT)
      | Some (NDir d) =>
          if bool_decide (d = ∅) then s ← remove_node c (del_entry dir name s); Some (s, Ok tt)
          else Some (s, Err ENOTEMPTY)
      | Some _ => Some (s, Err ENOTDIR)
      end
  end.

Definition tmp_rename (dir : Z) (old : string) (new_parent : Z) (new : string) s : TmpState A * result Z unit :=
  match child dir old s with
  | Err e => (s, Err e)
  | Ok c => add_entry new_parent new c (del_entry dir old s)
  end.

Definition tmp_readlink (ino : Z) s : result Z string :=
  match n_data <$> nodes s !! ino with
  | None => Err ENOENT
  | Some (NSymlink t) => Ok t
  | Some _ => Err EINVAL
  end.
End Ops.
