(* ===== verification/TmpfsFile.v ===== *)
(** * Files of tmpfs are byte strings

    The paged representation of Tmpfs refines a byte string: reading,
    writing at any offset, growing and shrinking do to the pages what
    [overwrite] and [resize] do to the string, and pages of other files are
    not touched. *)
From S2P Require Import Prelude Bytes Paging Tmpfs.

#[local] Abbreviation P := TMPFS_PAGE_SIZE.
Lemma P_pos : (0 < P)%nat.
Proof. unfold P. lia. Qed.
Lemma P_val : Z.of_nat P = 4096.
Proof. done. Qed.
#[local] Opaque TMPFS_PAGE_SIZE.

(** ** Byte strings *)

(** What writing [data] at [off] makes of a string: a gap is filled with
    zeros. *)
Definition overwrite (l : list Z) (off : nat) (data : list Z) : list Z :=
  if bool_decide (data = []) then l
  else take off (l ++ replicate (off - length l) 0) ++ data ++ drop (off + length data) l.
Definition resize (l : list Z) (len : nat) : list Z := take len (l ++ replicate (len - length l) 0).

Lemma in_rev_elem (x : Z) l : x ∈ l ↔ x ∈ rev l.
Proof. rewrite !list_elem_of_In. apply in_rev. Qed.

Section Refine.
Context {A : Type} `{FA : FrameAlloc A}.
Implicit Types (m : Store A) (f : TmpFileData) (F : gset Z).

(** ** The pages of a file as one string *)
Definition store_wf m : Prop := ∀ frame pg, sbytes m !! frame = Some pg → length pg = P.
Definition flat m (pages : list Z) : list Z := concat (map (get_page m) pages).
Definition contents m f : list Z := take (f_len f) (flat m (f_pages f)).

Lemma length_get_page m frame : store_wf m → length (get_page m frame) = P.
Proof. intros Hm. unfold get_page. destruct (sbytes m !! frame) eqn:E; cbn; [by eapply Hm|apply length_replicate]. Qed.

Lemma length_flat m pages : store_wf m → length (flat m pages) = (P * length pages)%nat.
Proof.
  intros Hm. unfold flat. induction pages as [|p pages IH]; cbn; [lia|].
  rewrite length_app, IH, length_get_page by done. lia.
Qed.

Lemma set_page_wf m frame pg : store_wf m → length pg = P → store_wf (set_page frame pg m).
Proof.
  intros Hm Hpg fr q. unfold set_page. cbn [sbytes]. rewrite lookup_insert_Some. intros [[_ <-]|[_ H]]; [done|by eapply Hm].
Qed.

Lemma get_set_page m frame pg fr : get_page (set_page frame pg m) fr = if decide (fr = frame) then pg else get_page m fr.
Proof.
  unfold get_page, set_page. cbn [sbytes]. case_decide; [subst; by rewrite lookup_insert_eq|by rewrite lookup_insert_ne].
Qed.

Lemma flat_set_other m frame pg pages : frame ∉ pages → flat (set_page frame pg m) pages = flat m pages.
Proof.
  intros Hn. unfold flat. f_equal. apply list_fmap_ext. intros i p Hp. rewrite get_set_page, decide_False; [done|].
  intros ->. by apply Hn, list_elem_of_lookup_2 with i.
Qed.

Lemma flat_app m p1 p2 : flat m (p1 ++ p2) = flat m p1 ++ flat m p2.
Proof. unfold flat. by rewrite map_app, concat_app. Qed.

(** Writing inside one page. *)
Lemma flat_splice m pages i off frame d :
  store_wf m → NoDup pages → pages !! i = Some frame → (off + length d ≤ P)%nat →
  flat (set_page frame (splice (get_page m frame) off d) m) pages = splice (flat m pages) (P * i + off) d.
Proof.
  intros Hm Hnd Hi Hd. rewrite <- (take_drop_middle pages i frame Hi) in Hnd |- *.
  apply NoDup_app in Hnd as (_ & Hn1 & [Hn2 _]%NoDup_cons).
  set (p1 := take i pages) in *. set (p2 := drop (S i) pages) in *.
  assert (frame ∉ p1) by (intros Hin; apply (Hn1 frame Hin); by left).
  change (frame :: p2) with ([frame] ++ p2). rewrite !flat_app, !flat_set_other by done.
  assert (∀ m', flat m' [frame] = get_page m' frame) as Hone by (intros; unfold flat; cbn; apply app_nil_r).
  rewrite !Hone, get_set_page, decide_True by done.
  assert (P * i = length (flat m p1))%nat as ->.
  { rewrite length_flat by done. unfold p1. rewrite length_take, Nat.min_l; [done|]. apply lookup_lt_Some in Hi. lia. }
  rewrite splice_middle by (by rewrite length_get_page). by rewrite (flat_set_other _ _ _ p2).
Qed.

Lemma page_split pos : (pos = P * (pos / P) + pos mod P ∧ pos mod P < P)%nat.
Proof. pose proof P_pos. split; [apply Nat.div_mod_eq|apply Nat.mod_upper_bound; lia]. Qed.

Lemma page_exists (pages : list Z) pos : (pos < P * length pages)%nat → ∃ frame, pages !! (pos / P)%nat = Some frame.
Proof.
  intros Hpos. apply lookup_lt_is_Some. pose proof P_pos. apply Nat.Div0.div_lt_upper_bound. lia.
Qed.

(** ** The loops *)
Lemma write_loop_spec fuel pages pos data m :
  store_wf m → NoDup pages → (pos + length data ≤ P * length pages)%nat → (length data ≤ fuel)%nat →
  ∃ m', write_loop fuel pages pos data m = Some m' ∧ store_wf m' ∧ sframes m' = sframes m ∧
    flat m' pages = splice (flat m pages) pos data ∧ ∀ fr, fr ∉ pages → get_page m' fr = get_page m fr.
Proof.
  intros Hm Hnd. revert pos data m Hm. induction fuel as [|fuel IH]; intros pos data m Hm Hpos Hf.
  - destruct data; [|cbn in Hf; lia]. exists m. split_and!; try done. by rewrite splice_nil.
  - destruct data as [|x data]; [exists m; split_and!; try done; by rewrite splice_nil|].
    set (d := x :: data) in *. assert (0 < length d)%nat as Hd by (cbn; lia).
    assert (write_loop (S fuel) pages pos d m =
      frame ← pages !! (pos / P)%nat;
      write_loop fuel pages (pos + Nat.min (length d) (P - pos mod P)) (drop (Nat.min (length d) (P - pos mod P)) d)
        (set_page frame (splice (get_page m frame) (pos mod P) (take (Nat.min (length d) (P - pos mod P)) d)) m)) as -> by done.
    destruct (page_split pos) as [Hsplit Hmod]. set (chunk := Nat.min (length d) (P - pos mod P)) in *.
    destruct (page_exists pages pos) as [frame Hfr]; [lia|]. rewrite Hfr. cbn [mbind option_bind].
    assert (length (take chunk d) = chunk) as Hc by (rewrite length_take; lia).
    set (m1 := set_page frame _ m).
    assert (store_wf m1) as Hm1.
    { apply set_page_wf; [done|]. rewrite length_splice; rewrite length_get_page by done; lia. }
    destruct (IH (pos + chunk)%nat (drop chunk d) m1 Hm1) as (m' & Hrun & Hm' & Hfr' & Hflat & Hoth);
      [rewrite length_drop; lia|rewrite length_drop; cbn [d length] in *; lia|].
    exists m'. split; [done|]. split; [done|]. split; [done|]. split.
    + rewrite Hflat. unfold m1. rewrite (flat_splice m pages (pos / P)) by (done || lia). rewrite <- Hsplit.
      pose proof (splice_splice (flat m pages) pos (take chunk d) (drop chunk d)) as Hss. rewrite Hc, take_drop in Hss.
      apply Hss. rewrite length_drop, length_flat by done. lia.
    + intros fr Hn. rewrite Hoth by done. unfold m1. rewrite get_set_page, decide_False; [done|].
      intros ->. by apply Hn, list_elem_of_lookup_2 with (pos / P)%nat.
Qed.

Lemma zero_loop_write fuel pages pos end_ m :
  zero_loop fuel pages pos end_ m = write_loop fuel pages pos (replicate (end_ - pos) 0) m.
Proof.
  revert pos m. induction fuel as [|fuel IH]; intros pos m; cbn [zero_loop].
  - case_decide as H; [by replace (end_ - pos)%nat with 0%nat by lia|].
    destruct (end_ - pos)%nat eqn:E; [lia|done].
  - case_decide as H; [by replace (end_ - pos)%nat with 0%nat by lia|].
    destruct (end_ - pos)%nat as [|k] eqn:E; [lia|]. cbn [replicate write_loop]. change (0 :: replicate k 0) with (replicate (S k) 0).
    rewrite length_replicate. destruct (page_split pos) as [Hs Hm].
    assert (Nat.min end_ ((pos / P + 1) * P) = pos + Nat.min (S k) (P - pos mod P))%nat as Hn by lia.
    rewrite Hn. destruct (pages !! (pos / P)%nat); [|done]. cbn [mbind option_bind]. rewrite IH, drop_replicate, take_replicate.
    f_equal; [f_equal; lia|]. do 2 f_equal. f_equal. lia.
Qed.

Lemma read_loop_spec fuel pages pos total m :
  store_wf m → (pos + total ≤ P * length pages)%nat → (total ≤ fuel)%nat →
  read_loop fuel pages pos total m = Some (take total (drop pos (flat m pages))).
Proof.
  intros Hm. revert pos total. induction fuel as [|fuel IH]; intros pos total Hpos Hf.
  - destruct total; [by rewrite take_0|lia].
  - destruct total as [|k]; [by rewrite take_0|]. cbn [read_loop]. set (total := S k) in *.
    destruct (page_split pos) as [Hsplit Hmod]. set (chunk := Nat.min total (P - pos mod P)).
    destruct (page_exists pages pos) as [frame Hfr]; [lia|]. rewrite Hfr. cbn [mbind option_bind].
    rewrite IH by lia. cbn [mbind option_bind]. f_equal.
    assert (take chunk (drop (pos mod P) (get_page m frame)) = take chunk (drop pos (flat m pages))) as ->.
    { rewrite <- (take_drop_middle pages _ frame Hfr), flat_app. change (frame :: ?p) with ([frame] ++ p). rewrite flat_app.
      assert (flat m [frame] = get_page m frame) as -> by (unfold flat; cbn; apply app_nil_r).
      apply lookup_lt_Some in Hfr.
      rewrite (drop_app_ge (flat m (take (pos / P) pages))) by (rewrite length_flat, length_take by done; lia).
      rewrite length_flat, length_take by done. rewrite Nat.min_l by lia.
      replace (pos - P * (pos / P))%nat with (pos mod P)%nat by lia.
      rewrite drop_app_le by (rewrite length_get_page by done; lia).
      rewrite take_app_le; [done|]. rewrite length_drop, length_get_page by done. lia. }
    rewrite <- drop_drop. rewrite take_take_drop. f_equal. lia.
Qed.

(** ** The representation

    The allocator's free frames are [F]; the pages of the file are distinct
    frames that are not free, enough for its length. *)
Record file_rep m F f : Prop := {
  fr_alloc : fa_rep (sframes m) F;
  fr_store : store_wf m;
  fr_nodup : NoDup (f_pages f);
  fr_pages : Forall (λ p, ∃ g, p = g * 4096 ∧ 0 < g < 2 ^ 20 ∧ g ∉ F) (f_pages f);
  fr_len : (f_len f ≤ P * length (f_pages f))%nat;
}.

(** Frames that are neither free nor of this file keep their bytes. *)
Definition keeps F (pages : list Z) m m' : Prop :=
  ∀ g, g ∉ F → g * 4096 ∉ pages → get_page m' (g * 4096) = get_page m (g * 4096).

(** No frame is lost or made: the free ones and those of the file are the
    same together. *)
Definition conserves F f F' f' : Prop :=
  ∀ g, g ∈ F' ∨ g * 4096 ∈ f_pages f' ↔ g ∈ F ∨ g * 4096 ∈ f_pages f.

Lemma conserves_trans F f F' f' F'' f'' : conserves F f F' f' → conserves F' f' F'' f'' → conserves F f F'' f''.
Proof. intros H1 H2 g. specialize (H1 g). specialize (H2 g). tauto. Qed.

Lemma keeps_trans F F' pages pages' m m' m'' :
  keeps F pages m m' → keeps F' pages' m' m'' → F' ⊆ F →
  (∀ p, p ∈ pages' → p ∈ pages ∨ ∃ g, p = g * 4096 ∧ g ∈ F) → keeps F pages m m''.
Proof.
  intros H1 H2 HF Hp g Hg Hn. rewrite H2; [by apply H1|set_solver|].
  intros [?|(g' & E & Hg')]%Hp; [done|]. assert (g' = g) as -> by lia. done.
Qed.

Lemma length_file_contents m F f : file_rep m F f → length (contents m f) = f_len f.
Proof. intros [_ Hm _ _ Hl]. unfold contents. rewrite length_take, length_flat by done. lia. Qed.

Lemma add_pages_spec k f m F :
  file_rep m F f →
  ∃ m' f' ok F', add_pages k f m = Some (m', f', ok) ∧ file_rep m' F' f' ∧ F' ⊆ F ∧ f_len f' = f_len f ∧
    (∃ new, f_pages f' = f_pages f ++ new ∧ (ok = true → length new = k) ∧ ∀ p, p ∈ new → ∃ g, p = g * 4096 ∧ g ∈ F) ∧
    (∃ z, flat m' (f_pages f') = flat m (f_pages f) ++ replicate z 0) ∧ keeps F (f_pages f) m m' ∧
    (fa_avail (sframes m) + length (f_pages f) ≤ fa_avail (sframes m') + length (f_pages f'))%nat ∧
    conserves F f F' f' ∧
    (ok = false → (fa_avail (sframes m) < k)%nat).
Proof.
  revert f m F. induction k as [|k IH]; intros f m F Hf.
  - exists m, f, true, F. split_and!; try done; [exists []; rewrite app_nil_r; split_and!; try done; by intros ? ?%elem_of_nil|].
    exists 0%nat. by rewrite app_nil_r.
  - destruct Hf as [Ha Hm Hnd Hp Hl]. cbn [add_pages].
    destruct (fa_alloc_spec _ _ Ha) as (a & r & -> & Hr). cbn [mbind option_bind]. destruct r as [frame|].
    + destruct Hr as (g & -> & Hg & Ha' & Hav).
      assert (g * 4096 ∉ f_pages f) as Hnew.
      { intros Hin. rewrite Forall_forall in Hp. destruct (Hp _ Hin) as (g' & E & _ & Hg'). assert (g' = g) as -> by lia. done. }
      set (f1 := mkFile (f_len f) (f_pages f ++ [g * 4096])). set (m1 := mkStore a (<[g * 4096 := replicate P 0]> (sbytes m))).
      assert (∀ fr, get_page m1 fr = if decide (fr = g * 4096) then replicate P 0 else get_page m fr) as Hget.
      { intros fr. unfold get_page, m1. cbn [sbytes]. case_decide; [subst; by rewrite lookup_insert_eq|by rewrite lookup_insert_ne]. }
      assert (file_rep m1 (F ∖ {[g]}) f1) as Hf1.
      { split; cbn [f1 m1 f_pages f_len sframes]; [done| | | |].
        - intros fr pg. cbn [sbytes m1]. rewrite lookup_insert_Some. intros [[_ <-]|[_ H]]; [apply length_replicate|by eapply Hm].
        - apply NoDup_app. split_and!; [done| |apply NoDup_singleton]. intros x Hx Hy. apply list_elem_of_singleton in Hy as ->. done.
        - apply Forall_app. split.
          + eapply Forall_impl; [done|]. intros p (g' & E & Hb & Hg'). exists g'. split_and!; [done|lia|lia|set_solver].
          + apply Forall_singleton. exists g. split_and!; [done|by apply (fa_frame _ _ _ Ha)|by apply (fa_frame _ _ _ Ha)|set_solver].
        - rewrite length_app. cbn. lia. }
      destruct (IH f1 m1 _ Hf1) as (m' & f' & ok & F' & Hrun & Hf' & HF & Hlen & (new & Hpg & Hnl & Hnew') & (z & Hz) & Hk & Hcnt & Hcons & Hok).
      exists m', f', ok, F'. split; [done|]. split; [done|]. split; [set_solver|]. split; [done|]. split_and!.
      * exists (g * 4096 :: new). split; [rewrite Hpg; cbn [f1 f_pages]; by rewrite <- app_assoc|].
        split; [intros E; cbn; by rewrite Hnl|]. intros p [->|Hin]%elem_of_cons; [by exists g|].
        destruct (Hnew' p Hin) as (g' & -> & ?). exists g'. split; [done|set_solver].
      * exists (P + z)%nat. rewrite Hz. cbn [f1 f_pages]. rewrite flat_app, <- app_assoc, replicate_add. f_equal.
        -- unfold flat. f_equal. apply list_fmap_ext. intros i p Hi. rewrite Hget, decide_False; [done|].
           intros ->. by apply Hnew, list_elem_of_lookup_2 with i.
        -- unfold flat. cbn. by rewrite app_nil_r, Hget, decide_True by done.
      * eapply (keeps_trans _ (F ∖ {[g]}) _ (f_pages f1)); [|done|set_solver|].
        -- intros g' Hg' _. rewrite Hget, decide_False; [done|]. intros E. assert (g' = g) by lia. by subst.
        -- intros p [?|Hx]%elem_of_app; [by left|right]. apply list_elem_of_singleton in Hx as ->. by exists g.
      * cbn [m1 f1 sframes f_pages] in Hcnt. rewrite length_app in Hcnt. cbn [length] in Hcnt. lia.
      * intros g'. rewrite (Hcons g'). cbn [f1 f_pages]. rewrite elem_of_app, list_elem_of_singleton, elem_of_difference, elem_of_singleton.
        destruct (decide (g' = g)) as [->|Hne]; [by split; [left|right; right]|].
        assert (g' * 4096 ≠ g * 4096) by lia. tauto.
      * intros E. specialize (Hok E). cbn [m1 sframes] in Hok. lia.
    + destruct Hr as [Ha' Hav]. exists (mkStore a (sbytes m)), f, false, F. split; [done|]. split; [by split|].
      split; [done|]. split; [done|]. split_and!; try done; [|exists 0%nat; by rewrite app_nil_r|cbn [sframes]; lia|lia].
      exists []. rewrite app_nil_r. split_and!; try done. by intros ? ?%elem_of_nil.
Qed.

(** A length for which the sum in [required_pages] does not wrap. *)
Definition size_fits (len : nat) : Prop := Z.of_nat len ≤ 2 ^ 64 - 4096.
Lemma required_pages_spec len : size_fits len → (len ≤ P * required_pages len)%nat ∧ ∀ k, (len ≤ P * k)%nat → (required_pages len ≤ k)%nat.
Proof.
  intros Hfit. pose proof P_val as HP. unfold size_fits in Hfit. unfold required_pages. case_decide as E; [split; intros; lia|]. rewrite HP, wrap_small by (unfold in_range; lia).
  set (q := (Z.of_nat len + 4096 - 1) `div` 4096). assert (0 ≤ q) by (apply Z.div_pos; lia). pose proof (Z_div_mod_eq_full (Z.of_nat len + 4096 - 1) 4096) as Hd. pose proof (Z.mod_pos_bound (Z.of_nat len + 4096 - 1) 4096 ltac:(lia)). fold q in Hd.
  assert (Z.of_nat (P * Z.to_nat q) = 4096 * q) as Hq by (rewrite Nat2Z.inj_mul, HP, Z2Nat.id; lia). split; [lia|].
  intros k Hk. assert (Z.of_nat (P * k) = 4096 * Z.of_nat k) as Hk' by (rewrite Nat2Z.inj_mul, HP; lia). lia.
Qed.
(** A file has at most one page for each frame there is. *)
Lemma file_pages_bound m F f : file_rep m F f → Z.of_nat (length (f_pages f)) ≤ 2 ^ 20.
Proof.
  intros [_ _ Hnd Hp _]. assert (f_pages f ⊆+ (λ g, g * 4096) <$> seqZ 0 (2 ^ 20)) as Hs.
  { apply NoDup_submseteq; [done|]. intros p Hin. rewrite Forall_forall in Hp. destruct (Hp p Hin) as (g & -> & Hg & _). apply (list_elem_of_fmap_2 (λ g, g * 4096)), elem_of_seqZ. lia. }
  apply submseteq_length in Hs. rewrite length_fmap, length_seqZ in Hs. lia.
Qed.
(** Writing past the pages of a file is a panic. *)
Lemma write_loop_panics fuel pages pos data m : data ≠ [] → (P * length pages < pos + length data)%nat → write_loop fuel pages pos data m = None.
Proof.
  revert pos data m. induction fuel as [|fuel IH]; intros pos data m Hne Hb; [by destruct data|]. destruct data as [|x data]; [done|]. cbn [write_loop]. set (d := x :: data) in *.
  destruct (page_split pos) as [Hs Hm]. destruct (pages !! (pos / P)%nat) as [frame|] eqn:Hf; [|done]. cbn [mbind option_bind]. apply lookup_lt_Some in Hf.
  assert (P - pos mod P < length d)%nat as Hlt by nia. rewrite Nat.min_r by lia. apply IH; [|rewrite length_drop; lia]. intros E. apply (f_equal length) in E. rewrite length_drop in E. cbn [length] in E. lia.
Qed.

(** Growing the page list to a length. *)
Lemma ensure_len_spec len f m F :
  file_rep m F f → size_fits len →
  ∃ m' f' ok F', ensure_len len f m = Some (m', f', ok) ∧ file_rep m' F' f' ∧ F' ⊆ F ∧ f_len f' = f_len f ∧
    (ok = true → len ≤ P * length (f_pages f'))%nat ∧
    (∀ p, p ∈ f_pages f' → p ∈ f_pages f ∨ ∃ g, p = g * 4096 ∧ g ∈ F) ∧ f_pages f `prefix_of` f_pages f' ∧
    (∃ z, flat m' (f_pages f') = flat m (f_pages f) ++ replicate z 0) ∧ keeps F (f_pages f) m m' ∧
    (fa_avail (sframes m) + length (f_pages f) ≤ fa_avail (sframes m') + length (f_pages f'))%nat ∧
    conserves F f F' f' ∧
    (ok = false → (fa_avail (sframes m) < required_pages len - length (f_pages f))%nat).
Proof.
  intros Hf Hfit. destruct (add_pages_spec (required_pages len - length (f_pages f)) f m F Hf)
    as (m' & f' & ok & F' & Hrun & Hf' & HF & Hlen & (new & Hpg & Hnl & Hnew) & Hz & Hk & Hcnt & Hcons & Hok).
  exists m', f', ok, F'. split_and!; try done.
  - intros E. rewrite Hpg, length_app, (Hnl E). destruct (required_pages_spec len Hfit) as [H _]. nia.
  - intros p. rewrite Hpg. intros [?|?]%elem_of_app; [by left|right; by apply Hnew].
  - rewrite Hpg. by apply prefix_app_r.
Qed.

(** Writes inside the pages. *)
Lemma write_pages_spec m F f pos data :
  file_rep m F f → (pos + length data ≤ P * length (f_pages f))%nat →
  ∃ m', write_loop (length data) (f_pages f) pos data m = Some m' ∧ file_rep m' F f ∧
    flat m' (f_pages f) = splice (flat m (f_pages f)) pos data ∧ keeps F (f_pages f) m m' ∧ sframes m' = sframes m.
Proof.
  intros [Ha Hm Hnd Hp Hl] Hpos.
  destruct (write_loop_spec (length data) (f_pages f) pos data m) as (m' & Hrun & Hm' & Hfr & Hflat & Hoth); try done.
  exists m'. split; [done|]. split; [split; try done; by rewrite Hfr|]. split; [done|]. split; [|done]. intros g _ Hn. by apply Hoth.
Qed.

(** [zero_range] from the end of the file: the file reads the same, and it
    can be extended with zeros. *)
Lemma zero_range_spec end_ f m F :
  file_rep m F f → size_fits end_ → (f_len f < end_)%nat →
  ∃ m' f' ok F', zero_range (f_len f) end_ f m = Some (m', f', ok) ∧ file_rep m' F' f' ∧ F' ⊆ F ∧ f_len f' = f_len f ∧
    contents m' f' = contents m f ∧
    (ok = true → (end_ ≤ P * length (f_pages f'))%nat ∧
      take end_ (flat m' (f_pages f')) = contents m f ++ replicate (end_ - f_len f) 0) ∧
    (∀ p, p ∈ f_pages f' → p ∈ f_pages f ∨ ∃ g, p = g * 4096 ∧ g ∈ F) ∧ f_pages f `prefix_of` f_pages f' ∧ keeps F (f_pages f) m m' ∧
    (fa_avail (sframes m) + length (f_pages f) ≤ fa_avail (sframes m') + length (f_pages f'))%nat ∧
    conserves F f F' f' ∧
    (ok = false → (fa_avail (sframes m) < required_pages end_ - length (f_pages f))%nat).
Proof.
  intros Hf Hfit Hlt. unfold zero_range. rewrite decide_False by lia.
  destruct (ensure_len_spec end_ f m F Hf Hfit) as (m1 & f1 & ok & F1 & -> & Hf1 & HF & Hlen & Hok & Hin & Hpre & (z & Hz) & Hk & Hcnt & Hcons & Hav).
  cbn [mbind option_bind].
  assert (contents m1 f1 = contents m f) as Hc1.
  { unfold contents. rewrite Hlen, Hz. rewrite take_app_le; [done|]. rewrite length_flat by apply Hf. apply Hf. }
  destruct ok.
  - rewrite zero_loop_write. specialize (Hok eq_refl).
    assert (length (replicate (end_ - f_len f) 0%Z) = end_ - f_len f)%nat as Hr by apply length_replicate.
    destruct (write_pages_spec m1 F1 f1 (f_len f) (replicate (end_ - f_len f) 0)) as (m2 & Hrun & Hf2 & Hflat & Hk2 & Hfr2); [done|rewrite Hr; lia|].
    rewrite Hr in Hrun. rewrite Hrun. cbn [mbind option_bind].
    assert (length (take (f_len f) (flat m1 (f_pages f1))) = f_len f) as Ht.
    { rewrite length_take, length_flat by apply Hf1. pose proof (fr_len _ _ _ Hf1). lia. }
    exists m2, f1, true, F1. split_and!; try done.
    + unfold contents at 1. rewrite Hflat, Hlen. unfold splice. rewrite take_app_length' by done.
      unfold contents in Hc1. by rewrite Hlen in Hc1.
    + intros _. split; [done|]. rewrite Hflat. unfold splice. rewrite app_assoc, take_app_length' by (rewrite length_app, Ht, Hr; lia).
      f_equal. unfold contents in Hc1. by rewrite Hlen in Hc1.
    + by apply (keeps_trans F F1 (f_pages f) (f_pages f1) m m1).
    + by rewrite Hfr2.
  - exists m1, f1, false, F1. split_and!; try done.
Qed.

Lemma overwrite_flat (l fl : list Z) len off (data : list Z) :
  data ≠ [] → (len ≤ length fl)%nat → (off + length data ≤ length fl)%nat → take len fl = l →
  take off fl = take off (l ++ replicate (off - len) 0) →
  take (Nat.max len (off + length data)) (splice fl off data) = overwrite l off data.
Proof.
  intros Hd Hlen Hoff <- Htake. unfold overwrite. rewrite bool_decide_false by done. unfold splice.
  assert (length (take len fl) = len) as Hl by (rewrite length_take; lia). rewrite Hl, <- Htake.
  assert (length (take off fl) = off) as Ho by (rewrite length_take; lia).
  rewrite take_app_ge by lia. rewrite Ho. f_equal.
  rewrite take_app_ge by lia. f_equal. rewrite skipn_firstn_comm. f_equal. lia.
Qed.

(** Writing, as an operation on the byte string. *)
Lemma file_write_spec off data f m F :
  file_rep m F f → data = [] ∨ size_fits (off + length data) →
  ∃ m' f' r F', file_write off data f m = Some (m', f', r) ∧ file_rep m' F' f' ∧ F' ⊆ F ∧ keeps F (f_pages f) m m' ∧
    conserves F f F' f' ∧
    match r with
    | Ok n => n = length data ∧ contents m' f' = overwrite (contents m f) off data
    | Err e => e = ENOMEM ∧ contents m' f' = contents m f ∧
        (fa_avail (sframes m) < required_pages (off + length data) - length (f_pages f))%nat
    end.
Proof.
  intros Hf Hfit. unfold file_write. case_bool_decide as Hd.
  { exists m, f, (Ok 0%nat), F. subst. by split_and!. }
  destruct Hfit as [Hfit|Hfit]; [done|]. assert (size_fits off) as Hoff by (unfold size_fits in *; lia).
  assert (0 < length data)%nat as Hdl by (destruct data; [done|cbn; lia]).
  assert (∃ m1 f1 ok F1, (if decide (f_len f < off)%nat then zero_range (f_len f) off f m else Some (m, f, true)) = Some (m1, f1, ok) ∧
    file_rep m1 F1 f1 ∧ F1 ⊆ F ∧ f_len f1 = f_len f ∧ contents m1 f1 = contents m f ∧
    (ok = true → (off ≤ P * length (f_pages f1))%nat ∧ take off (flat m1 (f_pages f1)) = take off (contents m f ++ replicate (off - f_len f) 0)) ∧
    (∀ p, p ∈ f_pages f1 → p ∈ f_pages f ∨ ∃ g, p = g * 4096 ∧ g ∈ F) ∧ f_pages f `prefix_of` f_pages f1 ∧ keeps F (f_pages f) m m1 ∧
    (fa_avail (sframes m) + length (f_pages f) ≤ fa_avail (sframes m1) + length (f_pages f1))%nat ∧ conserves F f F1 f1 ∧
    (ok = false → (fa_avail (sframes m) < required_pages off - length (f_pages f))%nat)) as
    (m1 & f1 & ok1 & F1 & -> & Hf1 & HF1 & Hlen1 & Hc1 & Hok1 & Hin1 & Hpre1 & Hk1 & Hcnt1 & Hcons1 & Hav1).
  { case_decide as Hgap.
    - destruct (zero_range_spec off f m F Hf Hoff Hgap) as (m1 & f1 & ok & F1 & Hrun & H1 & H2 & H3 & H4 & H5 & H6 & H7 & H8 & H9 & H10 & H11).
      exists m1, f1, ok, F1. split_and!; try done. intros E. destruct (H5 E) as [? ->]. split; [done|]. rewrite take_ge; [done|].
      rewrite length_app, length_replicate, (length_file_contents m F f Hf). lia.
    - exists m, f, true, F. split_and!; try done; [|by left]. intros _. pose proof (fr_len _ _ _ Hf). split; [lia|].
      replace (off - f_len f)%nat with 0%nat by lia.
      rewrite app_nil_r. unfold contents. rewrite take_take. f_equal. lia. }
  cbn [mbind option_bind]. destruct (required_pages_spec (off + length data) Hfit) as [Hreq _].
  destruct ok1; cbn [negb].
  2:{ exists m1, f1, (Err ENOMEM), F1. split_and!; try done. specialize (Hav1 eq_refl).
      destruct (required_pages_spec off Hoff) as [_ Hmin]. specialize (Hmin (required_pages (off + length data)) ltac:(lia)). lia. }
  destruct (ensure_len_spec (off + length data) f1 m1 F1 Hf1 Hfit)
    as (m2 & f2 & ok2 & F2 & -> & Hf2 & HF2 & Hlen2 & Hok2 & Hin2 & Hpre2 & (z & Hz) & Hk2 & Hcnt2 & Hcons2 & Hav2).
  cbn [mbind option_bind].
  assert (∀ p, p ∈ f_pages f2 → p ∈ f_pages f ∨ ∃ g, p = g * 4096 ∧ g ∈ F) as Hin.
  { intros p [?|(g & -> & Hg)]%Hin2; [by apply Hin1|right; exists g; split; [done|set_solver]]. }
  assert (length (flat m1 (f_pages f1)) = P * length (f_pages f1))%nat as Hfl1 by (apply length_flat, Hf1).
  pose proof (fr_len _ _ _ Hf1) as Hl1.
  assert (contents m2 f2 = contents m f) as Hc2.
  { rewrite <- Hc1. unfold contents. rewrite Hlen2, Hz. rewrite take_app_le; [done|lia]. }
  assert (keeps F (f_pages f) m m2) as Hk by (by apply (keeps_trans F F1 _ (f_pages f1) m m1)).
  assert (conserves F f F2 f2) as Hcons by (by eapply conserves_trans).
  destruct ok2; cbn [negb].
  2:{ exists m2, f2, (Err ENOMEM), F2. split_and!; try done; [by etrans|]. specialize (Hav2 eq_refl). lia. }
  specialize (Hok2 eq_refl). destruct (Hok1 eq_refl) as [Hoff1 Htake1].
  destruct (write_pages_spec m2 F2 f2 off data Hf2 Hok2) as (m3 & -> & Hf3 & Hflat & Hk3 & Hfr3). cbn [mbind option_bind].
  exists m3, (mkFile (Nat.max (f_len f2) (off + length data)) (f_pages f2)), (Ok (length data)), F2.
  split; [done|]. split.
  { destruct Hf3 as [? ? ? ? ?]. split; try done. cbn [f_len f_pages]. lia. }
  split; [by etrans|]. split; [by apply (keeps_trans F F2 _ (f_pages f2) m m2); [..|set_solver|]|]. split; [done|]. split; [done|].
  unfold contents at 1. cbn [f_len f_pages]. rewrite Hflat. apply overwrite_flat; [done| | | |].
  - rewrite length_flat by apply Hf2. apply Hf2.
  - rewrite length_flat by apply Hf2. done.
  - exact Hc2.
  - rewrite Hz, Hlen2, Hlen1, take_app_le by lia. done.
Qed.

(** A write that returns a count has its bytes in the pages, so that its length
    was one that fits. *)
Lemma ensure_len_rep len f m F m' f' ok : file_rep m F f → ensure_len len f m = Some (m', f', ok) → ∃ F', file_rep m' F' f'.
Proof.
  intros Hf Hr. unfold ensure_len in Hr. destruct (add_pages_spec (required_pages len - length (f_pages f)) f m F Hf) as (? & ? & ? & F' & E & H' & _). rewrite E in Hr. simplify_eq. eauto.
Qed.
Lemma write_loop_fits m F f fuel pos data m' : file_rep m F f → data ≠ [] → write_loop fuel (f_pages f) pos data m = Some m' → size_fits (pos + length data).
Proof.
  intros Hf Hne Hw. pose proof (file_pages_bound m F f Hf) as Hb. destruct (decide (P * length (f_pages f) < pos + length data)%nat) as [Hlt|Hle]; [by rewrite write_loop_panics in Hw|].
  unfold size_fits. assert (Z.of_nat (P * length (f_pages f)) = 4096 * Z.of_nat (length (f_pages f))) by (rewrite Nat2Z.inj_mul, P_val; done). lia.
Qed.
Lemma zero_range_fits end_ f m F m' f' : file_rep m F f → (f_len f < end_)%nat → zero_range (f_len f) end_ f m = Some (m', f', true) → size_fits end_.
Proof.
  intros Hf Hlt. unfold zero_range. rewrite decide_False by lia. destruct (ensure_len end_ f m) as [[[m0 f0] [|]]|] eqn:E; try done. cbn [mbind option_bind]. destruct (ensure_len_rep _ _ _ _ _ _ _ Hf E) as [F0 H0]. rewrite zero_loop_write.
  destruct (write_loop _ _ _ _ m0) as [m2|] eqn:Ew; [|done]. intros _. apply (write_loop_fits m0 F0 f0) in Ew; [|done|intros Hn; apply (f_equal length) in Hn; rewrite length_replicate in Hn; cbn in Hn; lia].
  rewrite length_replicate in Ew. by replace (f_len f + (end_ - f_len f))%nat with end_ in Ew by lia.
Qed.
Lemma file_write_fits off data f m F m' f' k : file_rep m F f → file_write off data f m = Some (m', f', Ok k) → data = [] ∨ size_fits (off + length data).
Proof.
  intros Hf. unfold file_write. case_bool_decide as Hd; [by left|]. intros Hw. right. revert Hw.
  assert (∀ m1 f1, (if decide (f_len f < off)%nat then zero_range (f_len f) off f m else Some (m, f, true)) = Some (m1, f1, true) → ∃ F1, file_rep m1 F1 f1) as Hz.
  { intros m1 f1. case_decide as Hlt; [|intros; simplify_eq; eauto]. intros Hr. pose proof (zero_range_fits _ _ _ _ _ _ Hf Hlt Hr) as Hfit. destruct (zero_range_spec off f m F Hf Hfit Hlt) as (? & ? & ? & F1 & E & H1 & _). rewrite E in Hr. simplify_eq. eauto. }
  destruct (if decide (f_len f < off)%nat then _ else _) as [[[m1 f1] [|]]|]; try done. cbn [mbind option_bind negb]. destruct (Hz m1 f1 eq_refl) as [F1 H1].
  destruct (ensure_len _ f1 m1) as [[[m2 f2] [|]]|] eqn:E; try done. cbn [mbind option_bind negb]. destruct (ensure_len_rep _ _ _ _ _ _ _ H1 E) as [F2 H2].
  destruct (write_loop _ _ _ _ m2) as [m3|] eqn:Ew; [|done]. intros _. by apply (write_loop_fits m2 F2 f2) in Ew.
Qed.

(** Reading. *)
Lemma file_read_spec off n f m F : file_rep m F f → file_read f off n m = Some (take n (drop off (contents m f))).
Proof.
  intros Hf. pose proof (fr_len _ _ _ Hf) as Hl. unfold file_read, contents. case_decide as Hoff.
  - rewrite drop_ge; [by rewrite take_nil|]. rewrite length_take. lia.
  - rewrite read_loop_spec by (done || apply Hf || lia). by rewrite skipn_firstn_comm, take_take.
Qed.

(** Giving frames back. *)
Lemma free_pages_spec l m F :
  fa_rep (sframes m) F → NoDup l → Forall (λ p, ∃ g, p = g * 4096 ∧ 0 < g < 2 ^ 20 ∧ g ∉ F) l →
  ∃ m' F', free_pages l m = Some m' ∧ sbytes m' = sbytes m ∧ fa_rep (sframes m') F' ∧ ∀ g, g ∈ F' ↔ g ∈ F ∨ g * 4096 ∈ l.
Proof.
  revert m F. induction l as [|p l IH]; intros m F Ha Hnd Hp; cbn [free_pages].
  - exists m, F. split_and!; try done. intros g. rewrite elem_of_nil. tauto.
  - apply NoDup_cons in Hnd as [Hn Hnd]. apply Forall_cons in Hp as [(g & -> & Hg & HgF) Hp].
    destruct (fa_free_spec _ _ _ Ha Hg HgF) as (a & -> & Ha'). cbn [mbind option_bind].
    destruct (IH (mkStore a (sbytes m)) (F ∪ {[g]})) as (m' & F' & Hrun & Hb & Hr & HF'); [done|done| |].
    { apply Forall_forall. intros q Hq. rewrite Forall_forall in Hp. destruct (Hp q Hq) as (g' & -> & ? & ?). exists g'. split; [done|].
      split; [done|]. rewrite elem_of_union, elem_of_singleton. intros [?| ->]; done. }
    exists m', F'. split_and!; try done. intros g'. rewrite HF', elem_of_union, elem_of_singleton, elem_of_cons.
    assert (g' * 4096 = g * 4096 ↔ g' = g) as -> by lia. tauto.
Qed.

Lemma take_resize (l : list Z) len : (len ≤ length l)%nat → resize l len = take len l.
Proof. intros. unfold resize. replace (len - length l)%nat with 0%nat by lia. by rewrite app_nil_r. Qed.

Lemma get_page_bytes m m' fr : sbytes m' = sbytes m → get_page m' fr = get_page m fr.
Proof. unfold get_page. by intros ->. Qed.

(** The pages beyond a length are freed and its last page is cleared from
    there on. *)
Lemma shrink_spec len f m F :
  file_rep m F f → size_fits len → (len ≤ f_len f)%nat →
  ∃ m' f' F', file_truncate len f m = Some (m', f', Ok tt) ∧ file_rep m' F' f' ∧ conserves F f F' f' ∧ keeps F (f_pages f) m m' ∧
    contents m' f' = take len (contents m f).
Proof.
  intros [Ha Hm Hnd Hp Hl] Hfit Hle. unfold file_truncate. rewrite decide_False by lia.
  set (needed := required_pages len). destruct (required_pages_spec len Hfit) as [Hreq Hmin]. fold needed in Hreq, Hmin.
  assert (needed ≤ length (f_pages f))%nat as Hneed by (apply Hmin; lia).
  rewrite <- (take_drop needed (f_pages f)) in Hnd, Hp. apply NoDup_app in Hnd as (Hnd1 & Hdisj & Hnd2). apply Forall_app in Hp as [Hp1 Hp2].
  destruct (free_pages_spec (rev (drop needed (f_pages f))) m F) as (m1 & F1 & -> & Hb & Ha1 & HF1); [done|by apply NoDup_ListNoDup, NoDup_rev, NoDup_ListNoDup|by apply Forall_rev|].
  cbn [mbind option_bind]. set (pages := take needed (f_pages f)) in *.
  assert (length pages = needed) as Hpl by (unfold pages; rewrite length_take; lia).
  assert (∀ g, g ∈ F1 ↔ g ∈ F ∨ g * 4096 ∈ drop needed (f_pages f)) as HF1'.
  { intros g. rewrite HF1. by rewrite <- in_rev_elem. }
  assert (store_wf m1) as Hm1 by (intros fr pg; rewrite Hb; apply Hm).
  assert (flat m1 pages = take (P * needed) (flat m (f_pages f))) as Hflat1.
  { rewrite <- (take_drop needed (f_pages f)), flat_app. fold pages.
    rewrite take_app_length' by (rewrite length_flat, Hpl by done; done). unfold flat. f_equal. apply map_ext. intros. by apply get_page_bytes. }
  assert (∀ m2, store_wf m2 → sframes m2 = sframes m1 → file_rep m2 F1 (mkFile len pages)) as Hrep.
  { intros m2 Hw Hfr. split; cbn [f_pages f_len]; [by rewrite Hfr|done|done| |by rewrite Hpl].
    apply Forall_forall. intros p Hin. rewrite Forall_forall in Hp1. destruct (Hp1 p Hin) as (g & -> & Hg & HgF). exists g. split; [done|].
    split; [done|]. rewrite HF1'. intros [?|?]; [done|]. by apply (Hdisj (g * 4096)). }
  assert (conserves F f F1 (mkFile len pages)) as Hcons.
  { intros g. cbn [f_pages]. rewrite HF1'. rewrite <- (take_drop needed (f_pages f)) at 2. rewrite elem_of_app. fold pages. tauto. }
  assert (contents m1 (mkFile len pages) = take len (contents m f)) as Hc1.
  { unfold contents. cbn [f_len f_pages]. rewrite Hflat1, !take_take. f_equal. lia. }
  assert (keeps F (f_pages f) m m1) as Hk1 by (intros g _ _; by apply get_page_bytes).
  case_decide as Hpos; [|exists m1, (mkFile len pages), F1; split_and!; try done; by apply Hrep].
  case_decide as Htail; [exists m1, (mkFile len pages), F1; split_and!; try done; by apply Hrep|].
  destruct (lookup_lt_is_Some_2 pages (needed - 1)) as [frame Hfr]; [lia|]. rewrite Hfr. cbn [mbind option_bind].
  set (tail := (len mod P)%nat) in *. destruct (page_split len) as [Hsplit Htl]. fold tail in Hsplit, Htl.
  assert (len / P = needed - 1)%nat as Hidx.
  { pose proof P_pos. assert (P * (len / P) < P * needed)%nat as H1 by lia. apply Nat.mul_lt_mono_pos_l in H1; [|lia].
    specialize (Hmin (S (len / P)) ltac:(lia)). lia. }
  assert (take tail (get_page m1 frame) ++ replicate (P - tail) 0 = splice (get_page m1 frame) tail (replicate (P - tail) 0)) as ->.
  { unfold splice. rewrite length_replicate, (drop_ge (get_page m1 frame)) by (rewrite length_get_page by done; lia). by rewrite app_nil_r. }
  set (m2 := set_page _ _ m1).
  assert (store_wf m2) as Hm2.
  { apply set_page_wf; [done|]. rewrite length_splice; rewrite length_get_page by done; [done|]. rewrite length_replicate. lia. }
  exists m2, (mkFile len pages), F1. split; [done|]. split; [by apply Hrep|]. split; [done|]. split.
  - intros g Hg Hn. unfold m2. rewrite get_set_page, decide_False; [by apply Hk1|]. intros <-. apply Hn.
    apply list_elem_of_lookup_2 in Hfr. unfold pages in Hfr. by apply elem_of_take in Hfr as (i & ? & _); eapply list_elem_of_lookup_2.
  - rewrite <- Hc1. unfold contents. cbn [f_len f_pages]. unfold m2.
    rewrite (flat_splice m1 pages (needed - 1)) by (done || rewrite length_replicate; lia).
    rewrite <- Hidx, <- Hsplit. unfold splice. rewrite take_app_length'; [done|].
    rewrite length_take, length_flat by done. rewrite Hpl. lia.
Qed.

(** Truncating and extending. *)
Lemma file_truncate_spec len f m F :
  file_rep m F f → size_fits len →
  ∃ m' f' r F', file_truncate len f m = Some (m', f', r) ∧ file_rep m' F' f' ∧ conserves F f F' f' ∧ keeps F (f_pages f) m m' ∧
    match r with
    | Ok _ => contents m' f' = resize (contents m f) len
    | Err e => e = ENOMEM ∧ contents m' f' = contents m f ∧ (fa_avail (sframes m) < required_pages len - length (f_pages f))%nat
    end.
Proof.
  intros Hf Hfit. pose proof (length_file_contents m F f Hf) as Hlc. destruct (decide (f_len f < len)%nat) as [Hlt|Hge].
  - unfold file_truncate. rewrite decide_True by done.
    destruct (zero_range_spec len f m F Hf Hfit Hlt) as (m1 & f1 & ok & F1 & -> & H1 & H2 & H3 & H4 & H5 & H6 & H7 & H8 & H9 & H10 & H11).
    cbn [mbind option_bind]. destruct ok.
    + destruct (H5 eq_refl) as [Hlen Htake]. exists m1, (mkFile len (f_pages f1)), (Ok tt), F1. split; [done|]. split.
      { destruct H1 as [? ? ? ? ?]. by split. }
      split; [done|]. split; [done|]. unfold contents at 1. cbn [f_len f_pages]. rewrite Htake. unfold resize. rewrite Hlc.
      rewrite take_ge; [done|]. rewrite length_app, length_replicate. lia.
    + exists m1, f1, (Err ENOMEM), F1. by split_and!; try apply H11.
  - destruct (shrink_spec len f m F Hf Hfit) as (m' & f' & F' & -> & H1 & H2 & H3 & H4); [lia|].
    exists m', f', (Ok tt), F'. split_and!; try done. rewrite H4, take_resize by lia. done.
Qed.

(** Dropping a file: all its frames are free again. *)
Lemma file_drop_spec f m F :
  file_rep m F f →
  ∃ m' F', file_drop f m = Some m' ∧ sbytes m' = sbytes m ∧ fa_rep (sframes m') F' ∧ ∀ g, g ∈ F' ↔ g ∈ F ∨ g * 4096 ∈ f_pages f.
Proof.
  intros [Ha Hm Hnd Hp Hl]. destruct (free_pages_spec (rev (f_pages f)) m F) as (m' & F' & Hrun & Hb & Ha' & HF');
    [done|by apply NoDup_ListNoDup, NoDup_rev, NoDup_ListNoDup|by apply Forall_rev|].
  exists m', F'. split_and!; try done. intros g. rewrite HF'. by rewrite <- in_rev_elem.
Qed.
End Refine.
