(* ===== verification/TmpfsFacts.v ===== *)
(** * tmpfs refines a tree of byte strings

    The specification is a table of nodes whose files are byte strings
    ([tree_step]).  Every operation of Tmpfs on pages and frames does what the
    specification does, or reports ENOMEM and changes nothing that can be
    read.  The tree stays well formed: entries lead to nodes, a node has one
    entry at most, the root stays. *)
From S2P Require Import Prelude Paging Tmpfs TmpfsFile.

(** ** The specification *)
Inductive anode := AFile (bytes : list Z) | ADir (children : gmap string Z) | ALink (target : string).
Record tree := mkTree { anodes : gmap Z anode; anext : Z }.

(** An operation on inodes, and its result: bytes written, the number of the
    inode it returns, or 0. *)
Inductive fs_op :=
| OWrite (ino : Z) (off : nat) (data : list Z)
| OTruncate (ino : Z) (len : nat)
| OCreate (dir : Z) (name : string)
| OMkdir (dir : Z) (name : string)
| OSymlink (dir : Z) (name target : string)
| OUnlink (dir : Z) (name : string)
| ORmdir (dir : Z) (name : string)
| ORename (dir : Z) (old : string) (new_parent : Z) (new : string).

Definition a_child (dir : Z) (name : string) (t : tree) : result Z Z :=
  match anodes t !! dir with
  | None => Err ENOENT
  | Some (ADir d) => match d !! name with Some c => Ok c | None => Err ENOENT end
  | Some _ => Err ENOTDIR
  end.
Definition a_add (dir : Z) (name : string) (c : Z) (t : tree) : tree * result Z Z :=
  match anodes t !! dir with
  | None => (t, Err ENOENT)
  | Some (ADir d) => (mkTree (<[dir := ADir (<[name := c]> d)]> (anodes t)) (anext t), Ok 0)
  | Some _ => (t, Err ENOTDIR)
  end.
Definition a_make (dir : Z) (name : string) (n : anode) (t : tree) : tree * result Z Z :=
  let '(t', r) := a_add dir name (anext t) (mkTree (<[anext t := n]> (anodes t)) (anext t + 1)) in
  (t', match r with Ok _ => Ok (anext t) | Err e => Err e end).
Definition a_del (dir : Z) (name : string) (t : tree) : tree :=
  mkTree (alter (λ n, match n with ADir d => ADir (delete name d) | _ => n end) dir (anodes t)) (anext t).
Definition a_remove (dir : Z) (name : string) (c : Z) (t : tree) : tree * result Z Z :=
  (mkTree (delete c (anodes (a_del dir name t))) (anext t), Ok 0).

Definition tree_step (op : fs_op) (t : tree) : tree * result Z Z :=
  match op with
  | OWrite ino off data =>
      if 2 ^ 64 <=? Z.of_nat off + Z.of_nat (length data) then (t, Err EINVAL)
      else match anodes t !! ino with
      | None => (t, Err ENOENT)
      | Some (AFile l) => (mkTree (<[ino := AFile (overwrite l off data)]> (anodes t)) (anext t), Ok (Z.of_nat (length data)))
      | Some (ADir _) => (t, Err EISDIR)
      | Some (ALink _) => (t, Err EINVAL)
      end
  | OTruncate ino len =>
      match anodes t !! ino with
      | Some (AFile l) => (mkTree (<[ino := AFile (resize l len)]> (anodes t)) (anext t), Ok 0)
      | _ => (t, Err EINVAL)
      end
  | OCreate dir name => a_make dir name (AFile []) t
  | OMkdir dir name => a_make dir name (ADir ∅) t
  | OSymlink dir name target => a_make dir name (ALink target) t
  | OUnlink dir name =>
      match a_child dir name t with
      | Err e => (t, Err e)
      | Ok c =>
          match anodes t !! c with
          | None => (t, Err ENOENT)
          | Some (ADir _) => (t, Err EISDIR)
          | Some _ => a_remove dir name c t
          end
      end
  | ORmdir dir name =>
      match a_child dir name t with
      | Err e => (t, Err e)
      | Ok c =>
          match anodes t !! c with
          | None => (t, Err ENOENT)
          | Some (ADir d) => if bool_decide (d = ∅) then a_remove dir name c t else (t, Err ENOTEMPTY)
          | Some _ => (t, Err ENOTDIR)
          end
      end
  | ORename dir old new_parent new =>
      match a_child dir old t with
      | Err e => (t, Err e)
      | Ok c => a_add new_parent new c (a_del dir old t)
      end
  end.

(** ** The tree stays well formed *)
Definition entry (t : tree) (dir : Z) (name : string) (c : Z) : Prop := ∃ d, anodes t !! dir = Some (ADir d) ∧ d !! name = Some c.

Record tree_wf (t : tree) : Prop := {
  tw_root : ∃ d, anodes t !! 1 = Some (ADir d);
  tw_exists dir name c : entry t dir name c → is_Some (anodes t !! c);
  tw_unique d1 n1 d2 n2 c : entry t d1 n1 c → entry t d2 n2 c → d1 = d2 ∧ n1 = n2;
  tw_not_root dir name : ¬ entry t dir name 1;
  tw_next ino : is_Some (anodes t !! ino) → 1 ≤ ino < anext t;
}.

Lemma a_del_lookup dir name t i :
  anodes (a_del dir name t) !! i =
  if decide (i = dir) then (λ n, match n with ADir d => ADir (delete name d) | _ => n end) <$> anodes t !! i else anodes t !! i.
Proof. unfold a_del. cbn [anodes]. rewrite lookup_alter. repeat case_decide; by subst. Qed.

Lemma entry_del dir name t d n c : entry (a_del dir name t) d n c ↔ entry t d n c ∧ ¬ (d = dir ∧ n = name).
Proof.
  unfold entry. rewrite a_del_lookup. case_decide as Hd.
  - subst d. split.
    + intros (ch & Hn & Hc). destruct (anodes t !! dir) as [[|ch0|]|]; simplify_eq/=.
      apply lookup_delete_Some in Hc as [Hne Hc]. split; [by exists ch0|]. naive_solver.
    + intros [(ch & -> & Hc) Hne]. cbn. exists (delete name ch). split; [done|]. rewrite lookup_delete_ne; [done|naive_solver].
  - split; [intros H; split; [done|naive_solver]|by intros [? _]].
Qed.

(** Entering a node that has no entry. *)
Lemma a_add_wf dir name c t t' r :
  tree_wf t → is_Some (anodes t !! c) → c ≠ 1 → (∀ d n, ¬ entry t d n c) → a_add dir name c t = (t', r) → tree_wf t'.
Proof.
  intros Ht Hc H1 Hno Hrun. unfold a_add in Hrun. destruct (anodes t !! dir) as [[|ch|]|] eqn:Hd; simplify_eq; try done.
  assert (∀ d n x, entry (mkTree (<[dir := ADir (<[name := c]> ch)]> (anodes t)) (anext t)) d n x ↔
    d = dir ∧ n = name ∧ x = c ∨ entry t d n x ∧ ¬ (d = dir ∧ n = name)) as He.
  { intros d n x. unfold entry. cbn [anodes]. destruct (decide (d = dir)) as [->|Hne].
    - rewrite lookup_insert_eq. split.
      + intros (ch' & E & Hx). simplify_eq. apply lookup_insert_Some in Hx as [[-> ->]|[? Hx]]; [by left|]. right. split; [by exists ch|naive_solver].
      + intros [(_ & -> & ->)|[(ch' & E & Hx) Hn]]; (eexists; split; [done|]); [apply lookup_insert_eq|]. simplify_eq.
        rewrite lookup_insert_ne; [done|naive_solver].
    - rewrite lookup_insert_ne by done. naive_solver. }
  assert (∀ i, is_Some (<[dir := ADir (<[name := c]> ch)]> (anodes t) !! i) ↔ is_Some (anodes t !! i)) as Hs.
  { intros i. destruct (decide (i = dir)) as [->|]; [rewrite lookup_insert_eq, Hd; split; eauto|by rewrite lookup_insert_ne]. }
  split; cbn [anodes anext].
  - destruct (tw_root _ Ht) as [d Hr]. destruct (decide (1 = dir)) as [<-|]; [rewrite lookup_insert_eq; eauto|rewrite lookup_insert_ne by done; eauto].
  - intros d n x [(-> & -> & ->)|[Hx _]]%He; apply Hs; [done|by eapply tw_exists].
  - intros d1 n1 d2 n2 x [(-> & -> & ->)|[Hx1 _]]%He [(-> & -> & ?)|[Hx2 _]]%He; subst; try done; try (by exfalso; eapply Hno). by eapply tw_unique.
  - intros d n [(-> & -> & ?)|[Hx _]]%He; [done|]. by eapply tw_not_root.
  - intros i Hi%Hs. by apply tw_next.
Qed.

Lemma a_make_wf dir name n t t' r :
  tree_wf t → (∀ d, n = ADir d → d = ∅) → a_make dir name n t = (t', r) → tree_wf t'.
Proof.
  intros Ht Hn. unfold a_make. set (t1 := mkTree _ _).
  assert (1 ≤ 1 < anext t) as Hroot by (apply (tw_next _ Ht); destruct (tw_root _ Ht) as [d ->]; eauto).
  assert (anodes t !! anext t = None) as Hfresh.
  { apply eq_None_not_Some. intros Hs%(tw_next _ Ht). lia. }
  assert (∀ d m c, entry t1 d m c → entry t d m c) as He.
  { intros d m c (ch & Hl & Hc). unfold t1 in Hl. cbn [anodes] in Hl. apply lookup_insert_Some in Hl as [[<- ->]|[? Hl]]; [|by exists ch].
    by rewrite (Hn _ eq_refl), lookup_empty in Hc. }
  destruct (a_add dir name (anext t) t1) as [t2 r2] eqn:Hrun. intros [= <- <-]. eapply a_add_wf in Hrun; [done| | | |].
  - split; unfold t1; cbn [anodes anext].
    + destruct (tw_root _ Ht) as [d Hd]. exists d. rewrite lookup_insert_ne by lia. done.
    + intros d m c Hc%He%(tw_exists _ Ht). destruct (decide (c = anext t)) as [->|]; [by rewrite Hfresh in Hc; destruct Hc|by rewrite lookup_insert_ne].
    + intros d1 m1 d2 m2 c H1%He H2%He. by eapply tw_unique.
    + intros d m Hc%He. by eapply tw_not_root.
    + intros i. destruct (decide (i = anext t)) as [->|]; [lia|]. rewrite lookup_insert_ne by done. intros Hi%(tw_next _ Ht). lia.
  - unfold t1. cbn [anodes]. rewrite lookup_insert_eq. eauto.
  - lia.
  - intros d m Hc%He%(tw_exists _ Ht). rewrite Hfresh in Hc. by destruct Hc.
Qed.

Lemma a_del_wf dir name t : tree_wf t → tree_wf (a_del dir name t).
Proof.
  intros Ht. assert (∀ i, is_Some (anodes (a_del dir name t) !! i) ↔ is_Some (anodes t !! i)) as Hs.
  { intros i. rewrite a_del_lookup. case_decide; [|done]. by rewrite fmap_is_Some. }
  split.
  - destruct (tw_root _ Ht) as [d Hd]. rewrite a_del_lookup, Hd. case_decide; cbn; eauto.
  - intros d n c [Hc _]%entry_del. apply Hs. by eapply tw_exists.
  - intros d1 n1 d2 n2 c [H1 _]%entry_del [H2 _]%entry_del. by eapply tw_unique.
  - intros d n [H _]%entry_del. by eapply tw_not_root.
  - intros i Hi%Hs. by apply (tw_next _ Ht).
Qed.

Lemma a_remove_wf dir name c t :
  tree_wf t → entry t dir name c → (∀ d, anodes t !! c = Some (ADir d) → d = ∅) → tree_wf (a_remove dir name c t).1.
Proof.
  intros Ht Hc Hempty. pose proof (a_del_wf dir name t Ht) as Ht1. unfold a_remove. cbn [fst].
  set (t1 := a_del dir name t) in *.
  assert (∀ d n x, entry (mkTree (delete c (anodes t1)) (anext t)) d n x → entry t1 d n x ∧ d ≠ c ∧ x ≠ c) as He.
  { intros d n x (ch & Hl & Hx). cbn [anodes] in Hl. apply lookup_delete_Some in Hl as [Hne Hl].
    assert (entry t1 d n x) as Hex by (by exists ch). split_and!; [done|done|]. intros ->. apply entry_del in Hex as [Hex Hn].
    apply Hn. by eapply (tw_unique _ Ht). }
  assert (c ≠ 1) as H1 by (intros ->; by eapply (tw_not_root _ Ht)).
  split; cbn [anodes anext].
  - destruct (tw_root _ Ht1) as [d Hd]. exists d. by rewrite lookup_delete_ne.
  - intros d n x (Hx & _ & Hne)%He. rewrite lookup_delete_ne by done. by eapply (tw_exists _ Ht1).
  - intros d1 n1 d2 n2 x (Hx1 & _ & _)%He (Hx2 & _ & _)%He. by eapply (tw_unique _ Ht1).
  - intros d n (Hx & _ & _)%He. by eapply (tw_not_root _ Ht1).
  - intros i Hi. apply (tw_next _ Ht1). destruct Hi as [n [_ Hi]%lookup_delete_Some]. eauto.
Qed.

Lemma a_child_entry dir name t c : a_child dir name t = Ok c ↔ entry t dir name c.
Proof.
  unfold a_child, entry. destruct (anodes t !! dir) as [[|d|]|]; try naive_solver.
  destruct (d !! name) eqn:E; naive_solver.
Qed.

Lemma update_node_wf ino l l' t : tree_wf t → anodes t !! ino = Some (AFile l) → tree_wf (mkTree (<[ino := AFile l']> (anodes t)) (anext t)).
Proof.
  intros Ht Hi. assert (∀ d n c, entry (mkTree (<[ino := AFile l']> (anodes t)) (anext t)) d n c → entry t d n c) as He.
  { intros d n c (ch & Hl & Hc). cbn [anodes] in Hl. apply lookup_insert_Some in Hl as [[_ ?]|[_ Hl]]; [done|by exists ch]. }
  assert (∀ i, is_Some (<[ino := AFile l']> (anodes t) !! i) ↔ is_Some (anodes t !! i)) as Hs.
  { intros i. destruct (decide (i = ino)) as [->|]; [rewrite lookup_insert_eq, Hi; split; eauto|by rewrite lookup_insert_ne]. }
  split; cbn [anodes anext].
  - destruct (tw_root _ Ht) as [d Hd]. exists d. rewrite lookup_insert_ne; [done|]. intros ->. congruence.
  - intros d n c Hc%He. apply Hs. by eapply tw_exists.
  - intros d1 n1 d2 n2 c H1%He H2%He. by eapply tw_unique.
  - intros d n Hc%He. by eapply tw_not_root.
  - intros i Hi'%Hs. by apply (tw_next _ Ht).
Qed.

Lemma tree_step_wf op t : tree_wf t → tree_wf (tree_step op t).1.
Proof.
  intros Ht. destruct op as [ino off data|ino len|dir name|dir name|dir name target|dir name|dir name|dir old np new]; cbn [tree_step].
  - case_match; [done|]. destruct (anodes t !! ino) as [[l| |]|] eqn:E; try done. by eapply update_node_wf.
  - destruct (anodes t !! ino) as [[l| |]|] eqn:E; try done. by eapply update_node_wf.
  - destruct (a_make dir name (AFile []) t) as [t' r] eqn:E. by eapply a_make_wf in E.
  - destruct (a_make dir name (ADir ∅) t) as [t' r] eqn:E. eapply a_make_wf in E; [done|done|]. by intros d [= ->].
  - destruct (a_make dir name (ALink target) t) as [t' r] eqn:E. by eapply a_make_wf in E.
  - destruct (a_child dir name t) as [c|] eqn:Hc; [|done]. apply a_child_entry in Hc.
    destruct (anodes t !! c) as [[l| |]|] eqn:E; try done; apply a_remove_wf; try done; intros d Hd; congruence.
  - destruct (a_child dir name t) as [c|] eqn:Hc; [|done]. apply a_child_entry in Hc.
    destruct (anodes t !! c) as [[|d|]|] eqn:E; try done. case_bool_decide; [|done]. apply a_remove_wf; try done. intros d' Hd'. by simplify_eq.
  - destruct (a_child dir old t) as [c|] eqn:Hc; [|done]. apply a_child_entry in Hc.
    destruct (a_add np new c (a_del dir old t)) as [t' r] eqn:E. eapply a_add_wf in E; [done|by apply a_del_wf| | |].
    + rewrite a_del_lookup. destruct (tw_exists _ Ht _ _ _ Hc) as [n ->]. case_decide; cbn; eauto.
    + intros ->. by eapply tw_not_root.
    + intros d n [Hx Hne]%entry_del. apply Hne. by eapply tw_unique.
Qed.

(** A name that is made again: the old node keeps existing, without a name. *)
Lemma a_make_over dir name n t c :
  tree_wf t → (∀ d, n = ADir d → d = ∅) → entry t dir name c →
  (a_make dir name n t).2 = Ok (anext t) ∧ entry (a_make dir name n t).1 dir name (anext t) ∧
  is_Some (anodes (a_make dir name n t).1 !! c) ∧ ∀ d m, ¬ entry (a_make dir name n t).1 d m c.
Proof.
  intros Ht Hn Hent. destruct (tw_exists _ Ht _ _ _ Hent) as [k Hk]. pose proof (tw_next _ Ht c (ex_intro _ k Hk)) as Hcn.
  pose proof Hent as (ch & Hd & Hch). pose proof (tw_next _ Ht dir (ex_intro _ _ Hd)) as Hdn.
  unfold a_make, a_add. cbn [anodes anext]. rewrite (lookup_insert_ne _ (anext t) dir) by lia. rewrite Hd. cbn [fst snd anodes].
  split_and!; [done| | |].
  - exists (<[name := anext t]> ch). cbn [anodes]. by rewrite !lookup_insert_eq.
  - destruct (decide (c = dir)) as [->|]; [rewrite lookup_insert_eq; eauto|]. rewrite !lookup_insert_ne by lia. eauto.
  - intros d m (ch' & Hl & Hc). cbn [anodes] in Hl. apply lookup_insert_Some in Hl as [[<- [= <-]]|[Hne Hl]].
    + apply lookup_insert_Some in Hc as [[_ ?]|[Hm Hc]]; [lia|]. apply Hm. by destruct (tw_unique _ Ht dir name dir m c); [|exists ch|].
    + apply lookup_insert_Some in Hl as [[_ ->]|[_ Hl]]; [by rewrite (Hn _ eq_refl), lookup_empty in Hc|].
      apply Hne. by destruct (tw_unique _ Ht dir name d m c); [|exists ch'|].
Qed.

(** ** The implementation *)
Section Refinement.
Context {A : Type} `{FA : FrameAlloc A}.
Implicit Types (s : TmpState A) (m : Store A) (F : gset Z).

Definition view m (n : TmpNode) : anode :=
  match n_data n with
  | NFile f => AFile (contents m f)
  | NDir d => ADir d
  | NSymlink t => ALink t
  end.
Definition abs s : tree := mkTree (view (store s) <$> nodes s) (next_ino s).

Definition file_at s (ino : Z) (f : TmpFileData) : Prop := ∃ n, nodes s !! ino = Some n ∧ n_data n = NFile f.

(** The allocator's free frames are [F]; every file is in order and shares no
    page with another; a node that is not a directory has one link. *)
Record fs_rep s F : Prop := {
  fs_alloc : fa_rep (sframes (store s)) F;
  fs_store : store_wf (store s);
  fs_file ino f : file_at s ino f → file_rep (store s) F f;
  fs_disjoint i j f g p : file_at s i f → file_at s j g → p ∈ f_pages f → p ∈ f_pages g → i = j;
  fs_links ino n : nodes s !! ino = Some n → (∀ d, n_data n ≠ NDir d) → n_nlink n = 1;
}.

(** A frame that belongs to a file. *)
Definition owned s (g : Z) : Prop := ∃ ino f, file_at s ino f ∧ g * 4096 ∈ f_pages f.
Definition fs_conserves s F s' F' : Prop := ∀ g, g ∈ F' ∨ owned s' g ↔ g ∈ F ∨ owned s g.

Lemma contents_keeps m m' F f pages :
  file_rep m F f → keeps F pages m m' → (∀ p, p ∈ f_pages f → p ∉ pages) → contents m' f = contents m f.
Proof.
  intros Hf Hk Hd. unfold contents, flat. do 2 f_equal. apply map_ext_in. intros p Hp%list_elem_of_In.
  pose proof (fr_pages _ _ _ Hf) as Hpg. rewrite Forall_forall in Hpg. destruct (Hpg p Hp) as (g & -> & _ & Hg).
  apply Hk; [done|]. by apply Hd.
Qed.

(** An operation on one file, seen from the file system. *)
Lemma update_file s F ino n f n' m' f' F' :
  fs_rep s F → nodes s !! ino = Some n → n_data n = NFile f → n_data n' = NFile f' → n_nlink n' = n_nlink n →
  file_rep m' F' f' → conserves F f F' f' → keeps F (f_pages f) (store s) m' →
  let s' := mkTmp (<[ino := n']> (nodes s)) (next_ino s) m' in
  fs_rep s' F' ∧ fs_conserves s F s' F' ∧ abs s' = mkTree (<[ino := AFile (contents m' f')]> (anodes (abs s))) (anext (abs s)).
Proof.
  intros Hs Hn Hd Hd' Hnl Hf' Hc Hk s'.
  assert (file_at s ino f) as Hat by (by exists n).
  assert (∀ i g, file_at s' i g ↔ (i = ino ∧ g = f') ∨ (i ≠ ino ∧ file_at s i g)) as Hfa.
  { intros i g. unfold file_at, s'. cbn [nodes]. destruct (decide (i = ino)) as [->|].
    - rewrite lookup_insert_eq. split; [intros (k & [= <-] & Hk'); left; split; [done|congruence]|].
      intros [[_ ->]|[? _]]; [by exists n'|done].
    - rewrite lookup_insert_ne by done. split; [by right|]. by intros [[? _]|[_ ?]]. }
  assert (∀ i g p, i ≠ ino → file_at s i g → p ∈ f_pages g → p ∉ f_pages f) as Hdis.
  { intros i g p Hi Hg Hp Hp'. by apply Hi, (fs_disjoint _ _ Hs i ino g f p). }
  assert (∀ i g p, i ≠ ino → file_at s i g → p ∈ f_pages g → ∃ q, p = q * 4096 ∧ 0 < q < 2 ^ 20 ∧ q ∉ F') as Hother.
  { intros i g p Hi Hg Hp. pose proof (fr_pages _ _ _ (fs_file _ _ Hs _ _ Hg)) as Hpg. rewrite Forall_forall in Hpg.
    destruct (Hpg p Hp) as (q & -> & Hq & HqF). exists q. split_and!; try done; try lia. intros HF'.
    destruct (proj1 (Hc q) (or_introl HF')) as [?|?]; [done|]. by eapply Hdis. }
  split_and!.
  - split; cbn [store s' nodes].
    + apply Hf'.
    + apply Hf'.
    + intros i g [[-> ->]|[Hi Hg]]%Hfa; [done|]. destruct (fs_file _ _ Hs _ _ Hg) as [Ha Hm Hnd _ Hl].
      split; [apply Hf'|apply Hf'|done| |done]. apply Forall_forall. intros p Hp. by eapply Hother.
    + intros i j g h p Hi Hj Hp Hq. apply Hfa in Hi, Hj. destruct Hi as [[-> ->]|[Hi Hg]], Hj as [[-> ->]|[Hj Hh]]; [done| | |by eapply (fs_disjoint _ _ Hs)].
      * exfalso. destruct (Hother j h p) as (q & -> & _ & HqF); [done..|]. destruct (proj1 (Hc q) (or_intror Hp)) as [HF|HF].
        -- pose proof (fr_pages _ _ _ (fs_file _ _ Hs _ _ Hh)) as Hpg. rewrite Forall_forall in Hpg. destruct (Hpg _ Hq) as (q' & E & _ & ?).
           assert (q' = q) as -> by lia. done.
        -- by eapply (Hdis j h).
      * exfalso. destruct (Hother i g p) as (q & -> & _ & HqF); [done..|]. destruct (proj1 (Hc q) (or_intror Hq)) as [HF|HF].
        -- pose proof (fr_pages _ _ _ (fs_file _ _ Hs _ _ Hg)) as Hpg. rewrite Forall_forall in Hpg. destruct (Hpg _ Hp) as (q' & E & _ & ?).
           assert (q' = q) as -> by lia. done.
        -- by eapply (Hdis i g).
    + intros i k Hi Hnd. apply lookup_insert_Some in Hi as [[_ <-]|[_ Hi]]; [|by eapply (fs_links _ _ Hs)].
      rewrite Hnl. apply (fs_links _ _ Hs ino n Hn). by rewrite Hd.
  - intros g. unfold owned. split.
    + intros [HF|(i & h & [[-> ->]|[Hi Hh]]%Hfa & Hp)]; [|destruct (proj1 (Hc g) (or_intror Hp)); [by left|right; by exists ino, f]|right; by exists i, h].
      destruct (proj1 (Hc g) (or_introl HF)); [by left|right; by exists ino, f].
    + intros [HF|(i & h & Hh & Hp)].
      * destruct (proj2 (Hc g) (or_introl HF)); [by left|right; exists ino, f'; split; [apply Hfa; by left|done]].
      * destruct (decide (i = ino)) as [->|Hi]; [|right; exists i, h; split; [apply Hfa; by right|done]].
        assert (h = f) as -> by (destruct Hh as (? & ? & ?); simplify_eq; congruence).
        destruct (proj2 (Hc g) (or_intror Hp)); [by left|right; exists ino, f'; split; [apply Hfa; by left|done]].
  - unfold abs, s'. cbn [store nodes next_ino anodes anext]. f_equal. apply map_eq. intros i. rewrite lookup_fmap.
    destruct (decide (i = ino)) as [->|Hi].
    + rewrite !lookup_insert_eq. cbn. unfold view. by rewrite Hd'.
    + rewrite !lookup_insert_ne, lookup_fmap by done. destruct (nodes s !! i) as [k|] eqn:Hki; [|done]. cbn. f_equal.
      unfold view. destruct (n_data k) as [h| |] eqn:Hkd; [|done|done]. f_equal.
      assert (file_at s i h) as Hh by (by exists k). eapply contents_keeps; [by eapply (fs_file _ _ Hs)|done|]. intros p Hp. by eapply Hdis.
Qed.

(** Nodes that are no files come and go without an effect on frames. *)
Lemma rep_same_files s F s' :
  fs_rep s F → store s' = store s → (∀ i f, f_pages f ≠ [] → file_at s' i f ↔ file_at s i f) →
  (∀ i f, file_at s' i f → file_rep (store s) F f) →
  (∀ ino n, nodes s' !! ino = Some n → (∀ d, n_data n ≠ NDir d) → n_nlink n = 1) →
  fs_rep s' F ∧ fs_conserves s F s' F.
Proof.
  intros Hs Hst Hfa Hrep Hl.
  assert (∀ (p : Z) l, p ∈ l → l ≠ []) as Hne by (intros p l Hp ->; by apply elem_of_nil in Hp).
  split.
  - split; try (rewrite Hst; apply Hs); [intros i f Hi; rewrite Hst; by eapply Hrep| |done].
    intros i j f g p Hi Hj Hp Hq. apply Hfa in Hi; [|by eapply Hne]. apply Hfa in Hj; [|by eapply Hne]. by eapply (fs_disjoint _ _ Hs).
  - intros g. unfold owned. split; (intros [?|(i & f & Hi & Hp)]; [by left|right]); exists i, f; (split; [|done]); apply Hfa; try done; by eapply Hne.
Qed.

(** Operations on directories leave files and frames alone. *)
Definition same_files s s' : Prop :=
  store s' = store s ∧ (∀ i f, file_at s' i f ↔ file_at s i f) ∧
  ∀ i n', nodes s' !! i = Some n' → (∀ d, n_data n' ≠ NDir d) → nodes s !! i = Some n'.

Lemma same_files_rep s F s' : fs_rep s F → same_files s s' → fs_rep s' F ∧ fs_conserves s F s' F.
Proof.
  intros Hs (Hst & Hfa & Hl). apply rep_same_files; try done.
  - intros i f Hi%Hfa. by eapply fs_file.
  - intros i n Hi Hd. eapply fs_links; [done| |done]. by apply Hl.
Qed.

(** A directory whose entries change. *)
Lemma set_dir_spec s ino n d d' :
  nodes s !! ino = Some n → n_data n = NDir d →
  let s' := set_nodes (<[ino := set_data (NDir d') n]> (nodes s)) s in
  same_files s s' ∧ abs s' = mkTree (<[ino := ADir d']> (anodes (abs s))) (anext (abs s)).
Proof.
  intros Hn Hd s'. split; [split_and!; [done| |]|].
  - intros i f. unfold file_at, s'. cbn [nodes set_nodes]. destruct (decide (i = ino)) as [->|]; [|by rewrite lookup_insert_ne].
    rewrite lookup_insert_eq, Hn. split; intros (k & [= <-] & Hk); cbn in Hk; congruence.
  - intros i k Hk Hnd. cbn [s' nodes set_nodes] in Hk. apply lookup_insert_Some in Hk as [[_ <-]|[_ ?]]; [|done]. by destruct (Hnd d').
  - unfold abs, s'. cbn [nodes set_nodes store next_ino anodes anext]. by rewrite fmap_insert.
Qed.

Lemma abs_child dir name s : child dir name s = a_child dir name (abs s).
Proof.
  unfold child, a_child, abs. cbn [anodes]. rewrite lookup_fmap. destruct (nodes s !! dir) as [n|]; [|done]. cbn. unfold view.
  by destruct (n_data n).
Qed.

Lemma add_entry_spec dir name c s :
  same_files s (add_entry dir name c s).1 ∧
  a_add dir name c (abs s) =
    (abs (add_entry dir name c s).1, match (add_entry dir name c s).2 with Ok _ => Ok 0 | Err e => Err e end).
Proof.
  unfold add_entry, a_add. cbn [abs anodes]. rewrite lookup_fmap.
  destruct (nodes s !! dir) as [n|] eqn:Hn; [|done]. cbn. unfold view at 1.
  destruct (n_data n) as [f|d|t] eqn:Hd; [done| |done]. cbn.
  destruct (set_dir_spec s dir n d (<[name := c]> d) Hn Hd) as [Hsf ->]. done.
Qed.

Lemma dir_or_not s i :
  (∃ n d, nodes s !! i = Some n ∧ n_data n = NDir d) ∨ (∀ n d, nodes s !! i = Some n → n_data n ≠ NDir d).
Proof. destruct (nodes s !! i) as [n|]; [|by right]. destruct (n_data n) as [|d|] eqn:E; [right|left; by exists n, d|right]; intros ? ? [= <-]; by rewrite E. Qed.
Lemma file_or_not s i : (∃ f, file_at s i f) ∨ (∀ f, ¬ file_at s i f).
Proof.
  unfold file_at. destruct (nodes s !! i) as [n|]; [|right; by intros f (? & ? & _)].
  destruct (n_data n) as [f| |] eqn:E; [left; by exists f, n|right|right]; intros ? (? & [= <-] & Hd); congruence.
Qed.

Lemma del_entry_spec dir name s : same_files s (del_entry dir name s) ∧ abs (del_entry dir name s) = a_del dir name (abs s).
Proof.
  destruct (dir_or_not s dir) as [(n & d & Hn & Hd)|Hno].
  - destruct (set_dir_spec s dir n d (delete name d) Hn Hd) as [Hsf Ha]. unfold del_entry, a_del.
    rewrite (alter_alt_Some _ _ _ _ Hn), Hd. rewrite Ha. split; [done|]. f_equal. symmetry. rewrite (alter_alt_Some _ _ _ (ADir d)); [done|].
    cbn [abs anodes]. rewrite lookup_fmap, Hn. cbn. unfold view. by rewrite Hd.
  - assert (del_entry dir name s = s) as ->.
    { unfold del_entry. rewrite alter_id; [by destruct s|]. intros n Hn. destruct (n_data n) eqn:Hd; try done. by destruct (Hno n children). }
    split; [done|]. unfold a_del. rewrite alter_id; [done|]. intros x. cbn [abs anodes]. rewrite lookup_fmap.
    destruct (nodes s !! dir) as [n|] eqn:Hn; [|done]. intros [= <-]. unfold view. destruct (n_data n) eqn:Hd; try done.
    by destruct (Hno n children).
Qed.

(** A node that goes. *)
Lemma remove_node_spec c s F :
  fs_rep s F →
  ∃ s' F', remove_node c s = Some s' ∧ fs_rep s' F' ∧ fs_conserves s F s' F' ∧ abs s' = mkTree (delete c (anodes (abs s))) (anext (abs s)).
Proof.
  intros Hs. unfold remove_node. destruct (file_or_not s c) as [[f Hf]|Hno].
  - destruct (file_drop_spec f (store s) F) as (m' & F' & Hrun & Hb & Ha & HF'); [by apply (fs_file _ _ Hs c)|].
    pose proof Hf as (n & Hn & Hd). rewrite Hn. cbn. rewrite Hd, Hrun. cbn.
    exists (mkTmp (delete c (nodes s)) (next_ino s) m'), F'.
    assert (∀ i g, file_at (mkTmp (delete c (nodes s)) (next_ino s) m') i g ↔ i ≠ c ∧ file_at s i g) as Hfa.
    { intros i g. unfold file_at. cbn [nodes]. setoid_rewrite lookup_delete_Some. split; [intros (? & [? ?] & ?)|intros (? & ? & ? & ?)]; eauto. }
    assert (∀ i g p, i ≠ c → file_at s i g → p ∈ f_pages g → p ∉ f_pages f) as Hdis.
    { intros i g p Hi Hg Hp Hp'. by apply Hi, (fs_disjoint _ _ Hs i c g f p). }
    assert (∀ p, get_page m' p = get_page (store s) p) as Hgp by (intros p; unfold get_page; by rewrite Hb).
    assert (store_wf m') as Hwf by (unfold store_wf; rewrite Hb; apply Hs).
    split_and!; [done|split|..]; cbn [store nodes]; try done.
    + intros i g [Hi Hg]%Hfa. destruct (fs_file _ _ Hs _ _ Hg) as [_ _ Hnd Hp Hl]. split; try done.
      rewrite !Forall_forall in Hp |- *. intros p Hpg. destruct (Hp p Hpg) as (q & -> & Hq & HqF). exists q. split_and!; try done; try lia.
      intros [?|?]%HF'; [done|]. by eapply Hdis.
    + intros i j g h p [Hi Hg]%Hfa [Hj Hh]%Hfa. by eapply (fs_disjoint _ _ Hs).
    + intros i k Hk Hnd. apply lookup_delete_Some in Hk as [_ Hk]. by eapply (fs_links _ _ Hs).
    + intros g. rewrite HF'. unfold owned. split.
      * intros [[?|?]|(i & h & [Hi Hh]%Hfa & Hp)]; [by left|right; by exists c, f|right; by exists i, h].
      * intros [?|(i & h & Hh & Hp)]; [by left; left|]. destruct (decide (i = c)) as [->|Hi].
        -- left. right. assert (h = f) as -> by (destruct Hh as (? & ? & ?); simplify_eq; congruence). done.
        -- right. exists i, h. split; [by apply Hfa|done].
    + unfold abs. cbn [store nodes next_ino anodes anext]. f_equal. rewrite <- fmap_delete. apply map_fmap_ext. intros i k _.
      unfold view, contents, flat. destruct (n_data k); [|done|done]. do 3 f_equal. by apply map_ext.
  - exists (set_nodes (delete c (nodes s)) s), F.
    assert (∀ i g, file_at (set_nodes (delete c (nodes s)) s) i g ↔ file_at s i g) as Hfa.
    { intros i g. unfold file_at. cbn [nodes set_nodes]. setoid_rewrite lookup_delete_Some. split; [intros (k & [_ ?] & ?); by exists k|].
      intros (k & Hk & Hd). exists k. split_and!; try done. intros ->. apply (Hno g). by exists k. }
    destruct (same_files_rep s F (set_nodes (delete c (nodes s)) s) Hs) as [Hr Hc].
    { split_and!; [done|done|]. cbn [nodes set_nodes]. by intros i k [_ ?]%lookup_delete_Some. }
    split_and!; [|done|done|unfold abs; cbn [nodes set_nodes store next_ino anodes anext]; by rewrite fmap_delete].
    destruct (nodes s !! c) as [n|] eqn:Hn; [|done]. cbn. destruct (n_data n) eqn:Hd; [|done|done]. destruct (Hno d). by exists n.
Qed.

Lemma fs_conserves_trans s1 F1 s2 F2 s3 F3 : fs_conserves s1 F1 s2 F2 → fs_conserves s2 F2 s3 F3 → fs_conserves s1 F1 s3 F3.
Proof. intros H1 H2 g. specialize (H1 g). specialize (H2 g). tauto. Qed.
Lemma fs_conserves_refl s F : fs_conserves s F s F.
Proof. by intros g. Qed.

(** The data and links of the nodes that [create], [mkdir] and [symlink] make. *)
Definition fresh_data (d : NodeData) (links : Z) : Prop :=
  match d with
  | NFile f => f = file_new ∧ links = 1
  | NDir c => c = ∅
  | NSymlink _ => links = 1
  end.

Lemma make_node_spec mode uid gid now d links s F n :
  fs_rep s F → tree_wf (abs s) → next_ino s < 2 ^ 64 - 1 → fresh_data d links →
  (∀ m, view m (mkNode (next_ino s) mode uid gid d now now now links) = n) →
  ∃ s', make_node mode uid gid now d links s = (s', next_ino s) ∧ fs_rep s' F ∧ fs_conserves s F s' F ∧
    abs s' = mkTree (<[anext (abs s) := n]> (anodes (abs s))) (anext (abs s) + 1).
Proof.
  intros Hs Ht Hnx Hfd Hv. unfold make_node. eexists. split; [done|].
  assert (1 ≤ 1 < next_ino s) as H1 by (apply (tw_next _ Ht); destruct (tw_root _ Ht) as [? ->]; eauto).
  assert (nodes s !! next_ino s = None) as Hfresh.
  { apply eq_None_not_Some. intros [k Hk]. assert (1 ≤ next_ino s < next_ino s); [|lia].
    apply (tw_next _ Ht). cbn [abs anodes]. rewrite lookup_fmap, Hk. eauto. }
  set (k := mkNode _ _ _ _ _ _ _ _ _) in *.
  assert (∀ i f, file_at (mkTmp (<[next_ino s:=k]> (nodes s)) (wadd 64 (next_ino s) 1) (store s)) i f →
    file_at s i f ∨ f = file_new) as Hfa.
  { intros i f (k' & Hk & Hd). cbn [nodes] in Hk. apply lookup_insert_Some in Hk as [[_ <-]|[_ Hk]]; [right|left; by exists k'].
    unfold k in Hd. cbn in Hd. subst d. apply Hfd. }
  apply and_assoc. split; [|unfold abs; cbn [store nodes next_ino anodes anext]; rewrite fmap_insert, Hv, wadd_small by lia; done].
  apply (rep_same_files s F _ Hs); [done|..]; cbn [nodes].
  - intros i f Hf. split; [intros [?| ->]%Hfa; done|]. intros (k' & Hk & Hd). exists k'. cbn [nodes]. rewrite lookup_insert_ne; [done|congruence].
  - intros i f [Hi| ->]%Hfa; [by eapply (fs_file _ _ Hs)|]. split; try apply Hs; cbn; [apply NoDup_nil_2|apply Forall_nil_2|lia].
  - intros i k' Hk Hnd. apply lookup_insert_Some in Hk as [[_ <-]|[_ Hk]]; [|by eapply (fs_links _ _ Hs)].
    cbn. unfold k in Hnd. cbn in Hnd. destruct d as [f|c|t]; [by destruct Hfd|by destruct (Hnd c)|done].
Qed.

Definition ret_ino (r : result Z Inode) : result Z Z := i ← r; Ok (i_ino i).
Definition ret_unit (r : result Z unit) : result Z Z := _ ← r; Ok 0.
Definition ret_len (r : result Z nat) : result Z Z := n ← r; Ok (Z.of_nat n).

(** An operation, called by a process with these ids at this time. *)
Definition fs_step (op : fs_op) (mode uid gid now : Z) s : option (TmpState A * result Z Z) :=
  match op with
  | OWrite ino off data => '(s, r) ← tmp_write ino now data off s; Some (s, ret_len r)
  | OTruncate ino len => '(s, r) ← tmp_truncate ino now len s; Some (s, ret_unit r)
  | OCreate dir name => let '(s, r) := tmp_create dir name mode uid gid now s in Some (s, ret_ino r)
  | OMkdir dir name => let '(s, r) := tmp_mkdir dir name mode uid gid now s in Some (s, ret_ino r)
  | OSymlink dir name target => let '(s, r) := tmp_symlink dir name target uid gid now s in Some (s, ret_ino r)
  | OUnlink dir name => '(s, r) ← tmp_unlink dir name s; Some (s, ret_unit r)
  | ORmdir dir name => '(s, r) ← tmp_rmdir dir name s; Some (s, ret_unit r)
  | ORename dir old np new => let '(s, r) := tmp_rename dir old np new s in Some (s, ret_unit r)
  end.

(** The pages an operation may have to ask for. *)
Definition pages_wanted (op : fs_op) : nat :=
  match op with
  | OWrite _ off data => required_pages (off + length data)
  | OTruncate _ len => required_pages len
  | _ => 0%nat
  end.

(** The new size of the file does not lie in the last page of the address
    space, where [required_pages] wraps. *)
Definition op_fits (op : fs_op) : Prop :=
  match op with
  | OWrite _ off data => data = [] ∨ size_fits (off + length data) ∨ 2 ^ 64 ≤ Z.of_nat off + Z.of_nat (length data)
  | OTruncate _ len => size_fits len
  | _ => True
  end.

(** What an operation owes: it returns, files stay apart, no frame is lost,
    and the tree is as specified, or unchanged when there is no memory. *)
Definition refines_at (op : fs_op) s F (out : option (TmpState A * result Z Z)) : Prop :=
  ∃ s' r F', out = Some (s', r) ∧ fs_rep s' F' ∧ fs_conserves s F s' F' ∧
    ((abs s', r) = tree_step op (abs s) ∨
     r = Err ENOMEM ∧ abs s' = abs s ∧ (fa_avail (sframes (store s)) < pages_wanted op)%nat).

Lemma refines_same op s F r : fs_rep s F → tree_step op (abs s) = (abs s, r) → refines_at op s F (Some (s, r)).
Proof. intros Hs Ht. exists s, r, F. split_and!; try done. left. done. Qed.

Lemma abs_lookup s i : anodes (abs s) !! i = view (store s) <$> nodes s !! i.
Proof. apply lookup_fmap. Qed.

Lemma a_add_keeps dir name c t i : is_Some (anodes t !! i) → is_Some (anodes (a_add dir name c t).1 !! i).
Proof.
  unfold a_add. destruct (anodes t !! dir) as [[]|] eqn:E; try done. cbn [fst anodes]. intros Hi.
  destruct (decide (i = dir)) as [->|]; [rewrite lookup_insert_eq; eauto|by rewrite lookup_insert_ne].
Qed.

Lemma enter_new_refines op dir name n s F mode uid gid now d links :
  fs_rep s F → tree_wf (abs s) → next_ino s < 2 ^ 64 - 1 → fresh_data d links →
  (∀ m, view m (mkNode (next_ino s) mode uid gid d now now now links) = n) →
  tree_step op (abs s) = a_make dir name n (abs s) →
  refines_at op s F (let '(s, r) := enter_new dir name (make_node mode uid gid now d links s) in Some (s, ret_ino r)).
Proof.
  intros Hs Ht Hnx Hfd Hv Hstep. destruct (make_node_spec mode uid gid now d links s F n Hs Ht Hnx Hfd Hv) as (s1 & Hmk & Hs1 & Hc1 & Ha1).
  rewrite Hmk. unfold enter_new. destruct (add_entry_spec dir name (next_ino s) s1) as [Hsf Hadd].
  destruct (same_files_rep s1 F _ Hs1 Hsf) as [Hs2 Hc2].
  unfold refines_at. rewrite Hstep. unfold a_make. rewrite <- Ha1. change (anext (abs s)) with (next_ino s). rewrite Hadd.
  pose proof (a_add_keeps dir name (next_ino s) (abs s1) (next_ino s)) as Hin. rewrite Hadd in Hin. cbn [fst] in Hin.
  destruct (add_entry dir name (next_ino s) s1) as [s2 [[]|e]]; cbn [fst snd] in *;
    (eexists s2, _, F; split_and!; [done|done|by eapply fs_conserves_trans|]); left; [|done]. f_equal.
  destruct Hin as [k Hk]; [rewrite Ha1; cbn [anodes]; change (anext (abs s)) with (next_ino s); rewrite lookup_insert_eq; eauto|].
  rewrite abs_lookup in Hk. unfold make_inode. by destruct (nodes s2 !! next_ino s).
Qed.

Lemma write_refines ino off data mode uid gid now s F :
  fs_rep s F → op_fits (OWrite ino off data) → refines_at (OWrite ino off data) s F (fs_step (OWrite ino off data) mode uid gid now s).
Proof.
  intros Hs Hfit. cbn [op_fits] in Hfit. unfold fs_step, tmp_write. destruct (2 ^ 64 <=? _) eqn:Hov; [apply refines_same; [done|]; cbn [tree_step]; by rewrite Hov|].
  destruct (nodes s !! ino) as [n|] eqn:Hn; [destruct (n_data n) as [f|d|t] eqn:Hd|].
  2-4: apply refines_same; [done|]; cbn [tree_step]; rewrite Hov, abs_lookup, Hn; cbn; unfold view; by rewrite ?Hd.
  destruct (file_write_spec off data f (store s) F) as (m' & f' & r & F' & -> & Hf' & _ & Hk & Hc & Hr); [apply (fs_file _ _ Hs ino); by exists n|destruct Hfit as [?|[?|?]]; [by left|by right|lia]|].
  cbn [mbind option_bind].
  destruct (update_file s F ino n f (if is_ok r then set_times now (set_data (NFile f') n) else set_data (NFile f') n) m' f' F') as (Hs' & Hc' & Ha');
    try done; try (by destruct r).
  eexists _, _, F'. split_and!; [done|done|done|]. rewrite Ha'. cbn [tree_step]. rewrite Hov, abs_lookup, Hn. cbn [fmap option_fmap option_map].
  unfold view at 1. rewrite Hd. destruct r as [k|e].
  - left. destruct Hr as [-> ->]. done.
  - right. destruct Hr as (-> & -> & Hav). split_and!; [done| |cbn; lia].
    rewrite insert_id; [done|]. rewrite abs_lookup, Hn. cbn. unfold view. by rewrite Hd.
Qed.

Lemma truncate_refines ino len mode uid gid now s F :
  fs_rep s F → size_fits len → refines_at (OTruncate ino len) s F (fs_step (OTruncate ino len) mode uid gid now s).
Proof.
  intros Hs Hfit. unfold fs_step, tmp_truncate.
  destruct (nodes s !! ino) as [n|] eqn:Hn; [destruct (n_data n) as [f|d|t] eqn:Hd|].
  2-4: apply refines_same; [done|]; cbn [tree_step]; rewrite abs_lookup, Hn; cbn; unfold view; by rewrite ?Hd.
  destruct (file_truncate_spec len f (store s) F) as (m' & f' & r & F' & -> & Hf' & Hc & Hk & Hr); [apply (fs_file _ _ Hs ino); by exists n|done|].
  cbn [mbind option_bind].
  destruct (update_file s F ino n f (if is_ok r then set_times now (set_data (NFile f') n) else set_data (NFile f') n) m' f' F') as (Hs' & Hc' & Ha');
    try done; try (by destruct r).
  eexists _, _, F'. split_and!; [done|done|done|]. rewrite Ha'. cbn [tree_step]. rewrite abs_lookup, Hn. cbn [fmap option_fmap option_map].
  unfold view at 1. rewrite Hd. destruct r as [k|e].
  - left. by rewrite Hr.
  - right. destruct Hr as (-> & -> & Hav). split_and!; [done| |cbn; lia].
    rewrite insert_id; [done|]. rewrite abs_lookup, Hn. cbn. unfold view. by rewrite Hd.
Qed.

(** Deleting an entry, then the node it leads to. *)
Lemma remove_refines op dir name c s F :
  fs_rep s F → tree_step op (abs s) = a_remove dir name c (abs s) →
  refines_at op s F (s ← remove_node c (del_entry dir name s); Some (s, Ok 0)).
Proof.
  intros Hs Hstep. destruct (del_entry_spec dir name s) as [Hsf Ha]. destruct (same_files_rep s F _ Hs Hsf) as [Hs1 Hc1].
  destruct (remove_node_spec c _ F Hs1) as (s' & F' & -> & Hs' & Hc' & Ha'). cbn.
  exists s', (Ok 0), F'. split_and!; [done|done|by eapply fs_conserves_trans|]. left. rewrite Hstep, Ha', Ha. done.
Qed.

Lemma unlink_refines dir name mode uid gid now s F :
  fs_rep s F → refines_at (OUnlink dir name) s F (fs_step (OUnlink dir name) mode uid gid now s).
Proof.
  intros Hs. unfold fs_step, tmp_unlink. pose proof (abs_child dir name s) as Hch.
  destruct (child dir name s) as [c|e]; [|apply refines_same; [done|]; cbn [tree_step]; by rewrite <- Hch].
  destruct (nodes s !! c) as [n|] eqn:Hn; [|apply refines_same; [done|]; cbn [tree_step]; by rewrite <- Hch, abs_lookup, Hn].
  assert ((∀ d, n_data n ≠ NDir d) → tree_step (OUnlink dir name) (abs s) = a_remove dir name c (abs s)) as Hstep.
  { intros Hnd. cbn [tree_step]. rewrite <- Hch, abs_lookup, Hn. cbn. unfold view. destruct (n_data n); try done. by destruct (Hnd children). }
  pose proof (fs_links _ _ Hs c n Hn) as Hl.
  destruct (n_data n) as [f|d|t] eqn:Hd; [|apply refines_same; [done|]; cbn [tree_step]; rewrite <- Hch, abs_lookup, Hn; cbn; unfold view; by rewrite Hd|];
    rewrite Hl by done; cbn [Z.ltb Z.compare Z.eqb Z.sub Z.add Z.opp Z.pos_sub];
    (destruct (remove_refines (OUnlink dir name) dir name c s F Hs) as (s' & r & F' & Hrun & Hrest); [by apply Hstep|]);
    exists s', r, F'; (split; [|done]); by destruct (remove_node c (del_entry dir name s)); simplify_eq/=.
Qed.

Lemma rmdir_refines dir name mode uid gid now s F :
  fs_rep s F → refines_at (ORmdir dir name) s F (fs_step (ORmdir dir name) mode uid gid now s).
Proof.
  intros Hs. unfold fs_step, tmp_rmdir. pose proof (abs_child dir name s) as Hch.
  assert (tree_step (ORmdir dir name) (abs s) = match child dir name s with Err e => (abs s, Err e) | Ok c =>
    match view (store s) <$> nodes s !! c with
    | None => (abs s, Err ENOENT)
    | Some (ADir d) => if bool_decide (d = ∅) then a_remove dir name c (abs s) else (abs s, Err ENOTEMPTY)
    | Some _ => (abs s, Err ENOTDIR)
    end end) as Hstep by (cbn [tree_step]; rewrite Hch; destruct (a_child dir name (abs s)); [by rewrite abs_lookup|done]).
  destruct (child dir name s) as [c|e]; [|by apply refines_same].
  destruct (nodes s !! c) as [n|] eqn:Hn; [|by apply refines_same]. cbn in Hstep |- *. unfold view in Hstep.
  destruct (n_data n) as [f|d|t] eqn:Hd; [by apply refines_same| |by apply refines_same].
  case_bool_decide; [|by apply refines_same].
  destruct (remove_refines (ORmdir dir name) dir name c s F Hs Hstep) as (s' & r & F' & Hrun & Hrest).
  exists s', r, F'. split; [|done]. by destruct (remove_node c (del_entry dir name s)); simplify_eq/=.
Qed.

Lemma rename_refines dir old np new mode uid gid now s F :
  fs_rep s F → refines_at (ORename dir old np new) s F (fs_step (ORename dir old np new) mode uid gid now s).
Proof.
  intros Hs. unfold fs_step, tmp_rename. pose proof (abs_child dir old s) as Hch.
  destruct (child dir old s) as [c|e]; [|apply refines_same; [done|]; cbn [tree_step]; by rewrite <- Hch].
  destruct (del_entry_spec dir old s) as [Hsf Ha]. destruct (same_files_rep s F _ Hs Hsf) as [Hs1 Hc1].
  destruct (add_entry_spec np new c (del_entry dir old s)) as [Hsf2 Hadd]. destruct (same_files_rep _ F _ Hs1 Hsf2) as [Hs2 Hc2].
  destruct (add_entry np new c (del_entry dir old s)) as [s2 r2]. cbn [fst snd] in *.
  exists s2, (ret_unit r2), F. split_and!; [done|done|by eapply fs_conserves_trans|]. left. cbn [tree_step].
  rewrite <- Hch, <- Ha, Hadd. by destruct r2.
Qed.

Lemma step_refines op mode uid gid now s F :
  fs_rep s F → tree_wf (abs s) → next_ino s < 2 ^ 64 - 1 → op_fits op → refines_at op s F (fs_step op mode uid gid now s).
Proof.
  intros Hs Ht Hnx Hfit. destruct op; [by apply write_refines|by apply truncate_refines|..|by apply unlink_refines|by apply rmdir_refines|by apply rename_refines];
    (eapply enter_new_refines; [done|done|done|cbn; done| |reflexivity]); done.
Qed.

(** *** Sequences of operations *)
Record call := mkCall { c_op : fs_op; c_mode : Z; c_uid : Z; c_gid : Z; c_now : Z }.
Fixpoint fs_run (cs : list call) s : option (TmpState A * list (result Z Z)) :=
  match cs with
  | [] => Some (s, [])
  | c :: cs =>
      '(s, r) ← fs_step (c_op c) (c_mode c) (c_uid c) (c_gid c) (c_now c) s;
      '(s, rs) ← fs_run cs s;
      Some (s, r :: rs)
  end.
End Refinement.

(** The specification, with memory that may run out. *)
Inductive tree_run : list call → list (result Z Z) → tree → tree → Prop :=
| run_nil t : tree_run [] [] t t
| run_step c cs r rs t t1 t' : tree_step (c_op c) t = (t1, r) → tree_run cs rs t1 t' → tree_run (c :: cs) (r :: rs) t t'
| run_nomem c cs rs t t' : (0 < pages_wanted (c_op c))%nat → tree_run cs rs t t' → tree_run (c :: cs) (Err ENOMEM :: rs) t t'.

Lemma tree_step_next op t : anext t ≤ anext (tree_step op t).1 ≤ anext t + 1.
Proof.
  assert (∀ dir name c t, anext (a_add dir name c t).1 = anext t) as Hadd.
  { intros dir name c t0. unfold a_add. by destruct (anodes t0 !! dir) as [[]|]. }
  assert (∀ dir name n t, anext (a_make dir name n t).1 = anext t + 1) as Hmk.
  { intros dir name n t0. unfold a_make. set (t1 := mkTree _ _). pose proof (Hadd dir name (anext t0) t1) as H.
    by destruct (a_add dir name (anext t0) t1). }
  destruct op; cbn [tree_step]; rewrite ?Hmk; unfold a_remove; repeat (case_match; simplify_eq/=); rewrite ?Hadd; cbn [a_del anext]; lia.
Qed.

Section Theorems.
Context {A : Type} `{FA : FrameAlloc A}.
Implicit Types (s : TmpState A) (F : gset Z).

Lemma abs_new (st : Store A) F : fa_rep (sframes st) F → store_wf st → fs_rep (tmp_new st) F ∧ tree_wf (abs (tmp_new st)).
Proof.
  intros Ha Hst. assert (∀ i n, nodes (tmp_new st) !! i = Some n → i = 1 ∧ n_data n = NDir ∅) as Hn.
  { intros i n Hi. cbn [nodes tmp_new] in Hi. apply lookup_singleton_Some in Hi as [<- <-]. done. }
  assert (∀ i f, ¬ file_at (tmp_new st) i f) as Hf by (intros i f (n & [_ Hd]%Hn & ?); congruence).
  assert (∀ d n c, ¬ entry (abs (tmp_new st)) d n c) as He.
  { intros d n c (ch & Hl & Hc). rewrite abs_lookup in Hl. destruct (nodes (tmp_new st) !! d) as [k|] eqn:Hk; [|done].
    apply Hn in Hk as [_ Hd]. cbn in Hl. unfold view in Hl. rewrite Hd in Hl. by simplify_eq. }
  split; split; try done.
  - intros i f Hi. by destruct (Hf i f).
  - intros i j f g p Hi. by destruct (Hf i f).
  - intros i n [_ Hd]%Hn Hnd. by destruct (Hnd ∅).
  - exists ∅. done.
  - intros d n c Hc. by destruct (He d n c).
  - intros d1 n1 d2 n2 c Hc. by destruct (He d1 n1 c).
  - intros i [x Hx]. rewrite abs_lookup in Hx. destruct (nodes (tmp_new st) !! i) as [k|] eqn:Hk; [|done]. apply Hn in Hk as [-> _]. done.
Qed.

Lemma run_refines cs s F :
  fs_rep s F → tree_wf (abs s) → next_ino s + Z.of_nat (length cs) < 2 ^ 64 → Forall (λ c, op_fits (c_op c)) cs →
  ∃ s' rs F', fs_run cs s = Some (s', rs) ∧ tree_run cs rs (abs s) (abs s') ∧ fs_rep s' F' ∧ tree_wf (abs s') ∧ fs_conserves s F s' F'.
Proof.
  revert s F. induction cs as [|c cs IH]; intros s F Hs Ht Hnx Hfit.
  { exists s, [], F. split_and!; try done. constructor. }
  cbn [length] in Hnx. apply Forall_cons in Hfit as [Hfit Hfits]. cbn [fs_run].
  destruct (step_refines (c_op c) (c_mode c) (c_uid c) (c_gid c) (c_now c) s F Hs Ht) as (s1 & r & F1 & -> & Hs1 & Hc1 & Hr); [lia|done|].
  assert (tree_wf (abs s1) ∧ next_ino s1 ≤ next_ino s + 1) as [Ht1 Hn1].
  { change (next_ino s1) with (anext (abs s1)). change (next_ino s) with (anext (abs s)). destruct Hr as [Hr|(_ & -> & _)]; [|split; [done|lia]].
    pose proof (tree_step_wf (c_op c) _ Ht) as Hw. pose proof (tree_step_next (c_op c) (abs s)) as Hx. rewrite <- Hr in Hw, Hx. cbn [fst] in *. split; [done|lia]. }
  destruct (IH s1 F1 Hs1 Ht1) as (s' & rs & F' & Hrun & Htr & Hs' & Ht' & Hc'); [lia|done|]. cbn. rewrite Hrun. cbn.
  exists s', (r :: rs), F'. split_and!; try done; [|by eapply fs_conserves_trans].
  destruct Hr as [Hr|(-> & Ha & Hav)]; [by eapply run_step|]. rewrite Ha in Htr. apply run_nomem; [lia|done].
Qed.

(** What [read] returns, on the specification. *)
Definition a_read (ino : Z) (n off : nat) (t : tree) : result Z (list Z) :=
  match anodes t !! ino with
  | None => Err ENOENT
  | Some (AFile l) => Ok (take n (drop off l))
  | Some (ALink t) => Ok (take n (map (λ c, Z.of_nat (Ascii.nat_of_ascii c)) (String.list_ascii_of_string t)))
  | Some (ADir _) => Err EISDIR
  end.

Lemma read_refines ino n off s F : fs_rep s F → tmp_read ino n off s = Some (a_read ino n off (abs s)).
Proof.
  intros Hs. unfold tmp_read, a_read. rewrite abs_lookup. destruct (nodes s !! ino) as [k|] eqn:Hk; [|done]. cbn. unfold view.
  destruct (n_data k) as [f|d|t] eqn:Hd; [|done|done]. by rewrite (file_read_spec off n f (store s) F) by (apply (fs_file _ _ Hs ino); by exists k).
Qed.

Lemma read_overwrite (l : list Z) off (data : list Z) : take (length data) (drop off (overwrite l off data)) = data.
Proof.
  unfold overwrite. case_bool_decide as Hd; [by subst data|].
  rewrite drop_app_length' by (rewrite length_take, length_app, length_replicate; lia). by rewrite take_app_length.
Qed.


(** Outside that bound the code panics: to extend a file into the last page of
    the address space, as ftruncate with the length -1 does, [required_pages]
    asks for no page at all, and the zeros are written past the pages. *)
Theorem truncate_top_panics ino now len n f s F :
  fs_rep s F → nodes s !! ino = Some n → n_data n = NFile f → 2 ^ 64 - 4096 < Z.of_nat len < 2 ^ 64 → tmp_truncate ino now len s = None.
Proof.
  intros Hs Hn Hd Hlen. pose proof (fs_file _ _ Hs ino f ltac:(by exists n)) as Hf. pose proof (file_pages_bound _ _ _ Hf) as Hb. pose proof (fr_len _ _ _ Hf) as Hl. pose proof P_val as HP.
  assert (Z.of_nat (TMPFS_PAGE_SIZE * length (f_pages f)) = 4096 * Z.of_nat (length (f_pages f))) as Hpl by (rewrite Nat2Z.inj_mul, HP; done).
  assert (required_pages len = 0%nat) as Hreq.
  { unfold required_pages. rewrite decide_False by lia. rewrite HP. replace (Z.of_nat len + 4096 - 1) with (Z.of_nat len + 4095 - 2 ^ 64 + 1 * 2 ^ 64) by lia. unfold wrap. rewrite Z.mod_add, Z.mod_small by lia. rewrite Z.div_small by lia. done. }
  unfold tmp_truncate. rewrite Hn, Hd. unfold file_truncate. rewrite decide_True by lia. unfold zero_range. rewrite decide_False by lia. unfold ensure_len. rewrite Hreq, Nat.sub_0_l. cbn [add_pages mbind option_bind].
  rewrite zero_loop_write, write_loop_panics; [done|intros E; apply (f_equal length) in E; rewrite length_replicate in E; cbn [length] in E; lia|rewrite length_replicate; lia].
Qed.

(** While the allocator has the pages the operation may need, the result
    and the tree after it are exactly those of the specification. *)
Theorem tmpfs_enough_memory op mode uid gid now s F :
  fs_rep s F → tree_wf (abs s) → next_ino s < 2 ^ 64 - 1 → op_fits op → (pages_wanted op ≤ fa_avail (sframes (store s)))%nat →
  ∃ s', fs_step op mode uid gid now s = Some (s', (tree_step op (abs s)).2) ∧ abs s' = (tree_step op (abs s)).1.
Proof.
  intros Hs Ht Hnx Hfit Hav. destruct (step_refines op mode uid gid now s F Hs Ht Hnx Hfit) as (s' & r & F' & -> & _ & _ & [Hr|(_ & _ & ?)]); [|lia].
  exists s'. by rewrite <- Hr.
Qed.

Lemma write_then_read ino now data off s s' F k :
  fs_rep s F → tmp_write ino now data off s = Some (s', Ok k) →
  k = length data ∧ tmp_read ino k off s' = Some (Ok data) ∧
  (∃ l, anodes (abs s) !! ino = Some (AFile l) ∧ ∀ n o, tmp_read ino n o s' = Some (Ok (take n (drop o (overwrite l off data))))) ∧
  (∀ j n o, j ≠ ino → tmp_read j n o s' = tmp_read j n o s) ∧
  (∃ F', fs_rep s' F') ∧ (abs s', Ok (Z.of_nat k)) = tree_step (OWrite ino off data) (abs s).
Proof.
  intros Hs Hrun. assert (op_fits (OWrite ino off data)) as Hfit.
  { cbn [op_fits]. unfold tmp_write in Hrun. destruct (2 ^ 64 <=? _); [done|]. destruct (nodes s !! ino) as [n|] eqn:Hn; [|done]. destruct (n_data n) as [f| |] eqn:Hd; [|done..].
    destruct (file_write off data f (store s)) as [[[m f'] r]|] eqn:Hw; [|done]. cbn in Hrun. simplify_eq. destruct (file_write_fits off data f (store s) F m f' k) as [?|?]; [apply (fs_file _ _ Hs ino); by exists n|done|by left|by right; left]. }
  destruct (write_refines ino off data 0 0 0 now s F Hs Hfit) as (s1 & r & F' & Hstep & Hs' & _ & Hr).
  unfold fs_step in Hstep. rewrite Hrun in Hstep. cbn in Hstep. simplify_eq. destruct Hr as [Hr|[? _]]; [|done]. pose proof Hr as Hstep'.
  cbn [tree_step] in Hr. destruct (2 ^ 64 <=? _); [simplify_eq|]. destruct (anodes (abs s) !! ino) as [[l| |]|] eqn:Hl; try by simplify_eq.
  apply pair_eq in Hr as [Ha Hk]. simplify_eq/=.
  assert (∀ j n o, tmp_read j n o s1 = Some (a_read j n o (abs s1))) as Hrd by (intros; by eapply read_refines).
  assert (∀ n o, tmp_read ino n o s1 = Some (Ok (take n (drop o (overwrite l off data))))) as Hin.
  { intros n o. rewrite Hrd. unfold a_read. rewrite Ha. cbn [anodes]. by rewrite lookup_insert_eq. }
  split_and!; [done| |by exists l| |by exists F'|].
  - by rewrite Hin, read_overwrite.
  - intros j n o Hj. rewrite Hrd, (read_refines j n o s F Hs). unfold a_read. rewrite Ha. cbn [anodes]. by rewrite lookup_insert_ne.
  - exact Hstep'.
Qed.

(** A write that returns a count wrote all bytes: reading as many bytes
    at the same offset returns them, every byte of the file outside the range
    is as before (zero in a gap past the old end), and no other inode reads
    differently. *)
Theorem tmpfs_read_write ino now data off s s' F k :
  fs_rep s F → tmp_write ino now data off s = Some (s', Ok k) →
  k = length data ∧ tmp_read ino k off s' = Some (Ok data) ∧
  (∃ l, anodes (abs s) !! ino = Some (AFile l) ∧ ∀ n o, tmp_read ino n o s' = Some (Ok (take n (drop o (overwrite l off data))))) ∧
  ∀ j n o, j ≠ ino → tmp_read j n o s' = tmp_read j n o s.
Proof. intros Hs Hrun. by destruct (write_then_read ino now data off s s' F k Hs Hrun) as (H1 & H2 & H3 & H4 & _). Qed.

(** Creating a directory over a name that exists succeeds: the name leads
    to the new, empty directory, and what it led to stays in memory with no
    name that leads to it, so nothing can remove it. *)
Theorem mkdir_orphans dir name c mode uid gid now s F :
  fs_rep s F → tree_wf (abs s) → next_ino s < 2 ^ 64 - 1 → child dir name s = Ok c →
  ∃ s', fs_step (OMkdir dir name) mode uid gid now s = Some (s', Ok (next_ino s)) ∧ child dir name s' = Ok (next_ino s) ∧
    is_Some (nodes s' !! c) ∧ ∀ d n, child d n s' ≠ Ok c.
Proof.
  intros Hs Ht Hnx Hc. destruct (step_refines (OMkdir dir name) mode uid gid now s F Hs Ht Hnx I) as (s' & r & F' & -> & _ & _ & [Hr|(_ & _ & Hw)]);
    [|cbn in Hw; lia].
  rewrite abs_child in Hc. apply a_child_entry in Hc.
  destruct (a_make_over dir name (ADir ∅) (abs s) c Ht) as (Hok & Hnew & [x Hx] & Hno); [by intros d [= ->]|done|].
  cbn [tree_step] in Hr. rewrite <- Hr in Hok, Hnew, Hx, Hno. cbn [fst snd] in *. exists s'. rewrite abs_child, a_child_entry. split_and!.
  - by rewrite Hok.
  - done.
  - rewrite abs_lookup in Hx. destruct (nodes s' !! c); [eauto|done].
  - intros d n. rewrite abs_child, a_child_entry. apply Hno.
Qed.
End Theorems.

(** ** Concrete runs *)
Definition demo_store : Store (list Z) := mkStore [17; 18; 19] ∅.
Definition demo_create (name : string) : call := mkCall (OCreate 1 name) 420 0 0 7.
Definition demo_tmp : TmpState (list Z) := from_option fst (tmp_new demo_store) (fs_run [demo_create "f"] (tmp_new demo_store)).

Lemma demo_store_ok : fa_rep (sframes demo_store) (list_to_set [17; 18; 19]) ∧ store_wf demo_store.
Proof.
  split; [|intros f pg; cbn; by rewrite lookup_empty]. split_and!; [apply (bool_decide_unpack _); vm_compute; done|done|repeat constructor; lia].
Qed.

Lemma demo_tmp_rep : ∃ F, fs_rep demo_tmp F ∧ tree_wf (abs demo_tmp).
Proof.
  destruct demo_store_ok as [Ha Hst]. destruct (abs_new demo_store _ Ha Hst) as [Hs Ht].
  destruct (run_refines [demo_create "f"] (tmp_new demo_store) _ Hs Ht) as (s & rs & F & Hrun & _ & Hs' & Ht' & _); [cbn; lia|by repeat constructor|].
  exists F. unfold demo_tmp. by rewrite Hrun.
Qed.


Lemma tmpfs_enough_memory_witness :
  ∃ s', fs_step (OWrite 2 5 [1; 2]) 0 0 0 8 demo_tmp = Some (s', Ok 2) ∧ anodes (abs s') !! 2 = Some (AFile [0; 0; 0; 0; 0; 1; 2]).
Proof.
  destruct demo_tmp_rep as (F & Hs & Ht).
  destruct (tmpfs_enough_memory (OWrite 2 5 [1; 2]) 0 0 0 8 demo_tmp F Hs Ht) as (s' & Hrun & Ha); [vm_compute; done|right; left; unfold size_fits; cbn; lia|vm_compute; lia|].
  exists s'. split; [rewrite Hrun; vm_compute; reflexivity|rewrite Ha; vm_compute; reflexivity].
Defined.

Lemma tmpfs_read_write_witness : ∃ s', tmp_write 2 8 [1; 2] 4095 demo_tmp = Some (s', Ok 2%nat) ∧ tmp_read 2 2 4095 s' = Some (Ok [1; 2]).
Proof.
  destruct demo_tmp_rep as (F & Hs & Ht).
  destruct (tmp_write 2 8 [1; 2] 4095 demo_tmp) as [[s' [k|e]]|] eqn:Hrun.
  2-3: exfalso; assert (option_map snd (tmp_write 2 8 [1; 2] 4095 demo_tmp) = Some (Ok 2%nat)) as Hx by (vm_compute; reflexivity); by rewrite Hrun in Hx.
  destruct (tmpfs_read_write 2 8 [1; 2] 4095 demo_tmp s' F k Hs Hrun) as (-> & Hrd & _). exists s'. split; [reflexivity|exact Hrd].
Defined.

Lemma mkdir_orphans_witness :
  ∃ s', fs_step (OMkdir 1 "f") 511 0 0 9 demo_tmp = Some (s', Ok 3) ∧ is_Some (nodes s' !! 2) ∧ ∀ d n, child d n s' ≠ Ok 2.
Proof.
  destruct demo_tmp_rep as (F & Hs & Ht).
  destruct (mkdir_orphans 1 "f" 2 511 0 0 9 demo_tmp F Hs Ht) as (s' & Hrun & _ & Hn & Hno); [vm_compute; done|vm_compute; done|].
  exists s'. split_and!; [exact Hrun|exact Hn|exact Hno].
Defined.

Lemma truncate_top_panics_witness : tmp_truncate 2 9 (Z.to_nat (2 ^ 64 - 1)) demo_tmp = None.
Proof.
  destruct demo_tmp_rep as (F & Hs & _). assert (is_Some (nodes demo_tmp !! 2)) as [n Hn] by (vm_compute; eauto). assert ((n_data <$> nodes demo_tmp !! 2) = Some (NFile file_new)) as Hd by (vm_compute; reflexivity). rewrite Hn in Hd. injection Hd as Hd.
  apply (truncate_top_panics 2 9 (Z.to_nat (2 ^ 64 - 1)) n file_new demo_tmp F Hs Hn Hd). lia.
Defined.
