(* ===== verification/Vfs.v ===== *)
(** * The virtual file system

    Models kernel/src/vfs/mod.rs: paths, the mount table, resolution with
    symbolic links, and the operations on paths and open files.  The file
    systems behind the mount table are an interface ([VfsOps], the trait
    objects [SuperblockOps] and [InodeOps]); VfsTmpfs gives the instance for
    tmpfs.  A call runs in [VfsM]: it may change the state also when it fails,
    and [None] is a call that does not return (a panic, or a lock taken
    twice). *)
From S2P Require Import Prelude Process Bytes Tmpfs.
From Stdlib Require Import Ascii.

Abbreviation path := (list ascii).
Definition of_string : string → path := String.list_ascii_of_string.
Definition to_string : path → string := String.string_of_list_ascii.
Definition SLASH : ascii := "/"%char.

(** ** Strings as Rust has them *)
Fixpoint split (p : path) : list path :=
  match p with
  | [] => [[]]
  | c :: p =>
      if decide (c = SLASH) then [] :: split p
      else match split p with w :: ws => (c :: w) :: ws | [] => [[c]] end
  end.
Definition starts_with (p prefix : path) : bool := bool_decide (prefix `prefix_of` p).
Definition ends_slash (p : path) : bool := bool_decide (last p = Some SLASH).
Fixpoint trim_start (p : path) : path :=
  match p with c :: q => if decide (c = SLASH) then trim_start q else p | [] => [] end.
Definition trim_end (p : path) : path := reverse (trim_start (reverse p)).
(** [rfind('/')] *)
Fixpoint rfind (p : path) : option nat :=
  match p with
  | [] => None
  | c :: p => match rfind p with Some n => Some (S n) | None => if decide (c = SLASH) then Some 0%nat else None end
  end.
Definition nonempty (ws : list path) : list path := List.filter (λ w, negb (bool_decide (w = []))) ws.
Definition root_path : path := [SLASH].

(** ** Paths *)
Definition canon_step (parts : list path) (component : path) : list path :=
  if bool_decide (component = [] ∨ component = of_string ".") then parts
  else if bool_decide (component = of_string "..") then removelast parts
  else parts ++ [component].
Definition canonicalize (p : path) : path :=
  let parts := fold_left canon_step (split p) [] in
  if bool_decide (parts = []) then root_path else concat (map (cons SLASH) parts).

(** What a call sees of the process: the root of its mount namespace, its own
    root, its ids, the time, and whether it already holds the lock of the
    process table. *)
Record Env := mkEnv { ns_root : path; chroot_root : path; e_uid : Z; e_gid : Z; e_now : Z; table_held : bool }.
Definition effective_root (e : Env) : path := if bool_decide (chroot_root e = root_path) then ns_root e else chroot_root e.

Definition abs_in (root cwd p : path) : path :=
  let raw :=
    if starts_with p root_path then
      if bool_decide (root = root_path) then canonicalize p
      else
        let stripped := trim_start p in
        if bool_decide (stripped = []) then root else canonicalize (trim_end root ++ SLASH :: stripped)
    else canonicalize (if ends_slash cwd then cwd ++ p else cwd ++ SLASH :: p) in
  if negb (bool_decide (root = root_path)) && negb (starts_with raw root) then root else raw.

Definition split_path (p : path) : path * path :=
  match rfind p with
  | Some 0%nat => (root_path, drop 1 p)
  | Some pos => (take pos p, drop (S pos) p)
  | None => (of_string ".", p)
  end.

(** ** Inodes, descriptors, mounts *)
Inductive InodeOps := FsOps (sb : Z) | MemOps (data : list Z).
Record VInode := mkV { v_ops : InodeOps; v_attr : Inode }.
Record MountPoint := mkMount { m_path : path; m_sb : Z }.
Record OpenFile := mkOpen { o_inode : VInode; o_offset : Z; o_flags : Z; o_kind : FdKind; o_path : path }.

Definition S_IFCHR : Z := 0x2000.
Definition s_isreg (m : Z) : bool := Z.land m S_IFMT =? S_IFREG.
Definition s_isdir (m : Z) : bool := Z.land m S_IFMT =? S_IFDIR.
Definition s_islnk (m : Z) : bool := Z.land m S_IFMT =? S_IFLNK.
(** The open flags (octal in the source). *)
Definition O_RDWR : Z := 2.
Definition O_CREAT : Z := 64.
Definition O_EXCL : Z := 128.
Definition O_TRUNC : Z := 512.
Definition O_APPEND : Z := 1024.
Definition EBADF : Z := 9.
Definition has_flag (flags bit : Z) : bool := negb (Z.land flags bit =? 0).

Record Stat := mkStat {
  st_dev : Z;
  st_ino : Z;
  st_nlink : Z;
  st_mode : Z;
  st_uid : Z;
  st_gid : Z;
  st_size : Z;
  st_blksize : Z;
  st_blocks : Z;
  st_atime : Z;
  st_mtime : Z;
  st_ctime : Z;
}.
Definition to_stat (v : VInode) : Stat :=
  let i := v_attr v in
  mkStat (i_dev i) (i_ino i) 1 (i_mode i) (i_uid i) (i_gid i) (to_signed 64 (i_size i)) 4096
    (wadd 64 (i_size i) 511 / 512) (i_atime i) (i_mtime i) (i_ctime i).

Definition mount (p : path) (sb : Z) (m : list MountPoint) : list MountPoint :=
  List.filter (λ mp, negb (bool_decide (m_path mp = p))) m ++ [mkMount p sb].
Definition umount (p : path) (m : list MountPoint) : list MountPoint * bool :=
  let m' := List.filter (λ mp, negb (bool_decide (m_path mp = p))) m in (m', (length m' <? length m)%nat).

(** The mount that a path lies below. *)
Definition applies (abs : path) (mp : MountPoint) : bool :=
  let rest := drop (length (m_path mp)) abs in
  starts_with abs (m_path mp) && (bool_decide (rest = []) || starts_with rest root_path || bool_decide (m_path mp = root_path)).
Definition better_mount (abs : path) (best : option MountPoint) (mp : MountPoint) : option MountPoint :=
  if applies abs mp then
    match best with
    | None => Some mp
    | Some b => if (length (m_path b) <? length (m_path mp))%nat then Some mp else best
    end
  else best.
Definition find_mount (m : list MountPoint) (abs : path) : option (Z * path) :=
  mp ← fold_left (better_mount abs) m None;
  let len := length (m_path mp) in
  let rel := if (len <? length abs)%nat then trim_start (drop len abs) else [] in
  Some (m_sb mp, if bool_decide (rel = []) then root_path else rel).

(** ** The file systems *)
Record Vfs (F : Type) := mkVfs { mounts : list MountPoint; fsys : F }.
Arguments mkVfs {_} _ _.
Arguments mounts {_} _.
Arguments fsys {_} _.

Definition FsM (F A : Type) : Type := F → option (F * result Z A).
Class VfsOps (F : Type) := {
  op_root : Z → FsM F VInode;
  op_read : Z → Inode → nat → Z → FsM F (list Z);
  op_write : Env → Z → Inode → list Z → Z → FsM F nat;
  op_readdir : Z → Inode → FsM F (list DirEntry);
  op_lookup : Z → Inode → string → FsM F VInode;
  op_create : Env → Z → Inode → string → Z → FsM F VInode;
  op_mkdir : Env → Z → Inode → string → Z → FsM F VInode;
  op_rmdir : Z → Inode → string → FsM F unit;
  op_unlink : Z → Inode → string → FsM F unit;
  op_symlink : Env → Z → Inode → string → string → FsM F VInode;
  op_readlink : Z → Inode → FsM F string;
  op_truncate : Env → Z → Inode → Z → FsM F unit;
  op_rename : Z → Inode → string → Z → string → FsM F unit;
  op_minor : Z → Inode → option Z;
}.

Definition VfsM (F A : Type) : Type := Vfs F → option (Vfs F * result Z A).

Section Vfs.
Context {F : Type} `{VO : VfsOps F}.
Abbreviation M := (VfsM F).

#[export] Instance vfs_ret : MRet M := λ A a s, Some (s, Ok a).
#[export] Instance vfs_bind : MBind M := λ A B k m s,
  match m s with
  | Some (s, Ok a) => k a s
  | Some (s, Err e) => Some (s, Err e)
  | None => None
  end.
Definition fail {A} (e : Z) : M A := λ s, Some (s, Err e).
Definition get_mounts : M (list MountPoint) := λ s, Some (s, Ok (mounts s)).
Definition on_fs {A} (m : FsM F A) : M A := λ s,
  match m (fsys s) with
  | Some (f, r) => Some (mkVfs (mounts s) f, r)
  | None => None
  end.
(** [match m with Ok a => k (Ok a) | Err e => k (Err e)] *)
Definition attempt {A} (m : M A) : M (result Z A) := λ s,
  match m s with Some (s, r) => Some (s, Ok r) | None => None end.

(** The calls through [inode.ops]; those that [MemOps] does not have are the
    defaults of the trait. *)
Definition i_read (v : VInode) (n : nat) (off : Z) : M (list Z) :=
  match v_ops v with
  | FsOps sb => on_fs (op_read sb (v_attr v) n off)
  | MemOps data => mret (take n (drop (Z.to_nat off) data))
  end.
Definition i_write (e : Env) (v : VInode) (data : list Z) (off : Z) : M nat :=
  match v_ops v with
  | FsOps sb => on_fs (op_write e sb (v_attr v) data off)
  | MemOps _ => fail EACCES
  end.
Definition i_readdir (v : VInode) : M (list DirEntry) :=
  match v_ops v with
  | FsOps sb => on_fs (op_readdir sb (v_attr v))
  | MemOps _ => fail ENOTDIR
  end.
Definition i_lookup (v : VInode) (name : path) : M VInode :=
  match v_ops v with
  | FsOps sb => on_fs (op_lookup sb (v_attr v) (to_string name))
  | MemOps _ => fail ENOENT
  end.
Definition i_create (e : Env) (v : VInode) (name : path) (mode : Z) : M VInode :=
  match v_ops v with
  | FsOps sb => on_fs (op_create e sb (v_attr v) (to_string name) mode)
  | MemOps _ => fail EACCES
  end.
Definition i_mkdir (e : Env) (v : VInode) (name : path) (mode : Z) : M VInode :=
  match v_ops v with
  | FsOps sb => on_fs (op_mkdir e sb (v_attr v) (to_string name) mode)
  | MemOps _ => fail EACCES
  end.
Definition i_rmdir (v : VInode) (name : path) : M unit :=
  match v_ops v with
  | FsOps sb => on_fs (op_rmdir sb (v_attr v) (to_string name))
  | MemOps _ => fail EACCES
  end.
Definition i_unlink (v : VInode) (name : path) : M unit :=
  match v_ops v with
  | FsOps sb => on_fs (op_unlink sb (v_attr v) (to_string name))
  | MemOps _ => fail EACCES
  end.
Definition i_symlink (e : Env) (v : VInode) (name target : path) : M VInode :=
  match v_ops v with
  | FsOps sb => on_fs (op_symlink e sb (v_attr v) (to_string name) (to_string target))
  | MemOps _ => fail EACCES
  end.
Definition i_readlink (v : VInode) : M path :=
  match v_ops v with
  | FsOps sb => t ← on_fs (op_readlink sb (v_attr v)); mret (of_string t)
  | MemOps _ => fail EINVAL
  end.
Definition i_truncate (e : Env) (v : VInode) (size : Z) : M unit :=
  match v_ops v with
  | FsOps sb => on_fs (op_truncate e sb (v_attr v) size)
  | MemOps _ => fail EACCES
  end.
Definition i_rename (v : VInode) (old : path) (new_parent : Z) (new : path) : M unit :=
  match v_ops v with
  | FsOps sb => on_fs (op_rename sb (v_attr v) (to_string old) new_parent (to_string new))
  | MemOps _ => fail EACCES
  end.

(** ** Resolution *)

(** [abs_path] takes the lock of the process table. *)
Definition abs_path (e : Env) (cwd p : path) : M path :=
  if table_held e then λ _, None else mret (abs_in (effective_root e) cwd p).

(** [find_mount], then the root of the file system. *)
Definition mount_root (abs : path) : M (VInode * path) :=
  m ← get_mounts;
  match find_mount m abs with
  | None => fail ENOENT
  | Some (sb, rel) => cur ← on_fs (op_root sb); mret (cur, rel)
  end.

(** [for _ in 0..n { p.rfind('/').map(|pos| p.truncate(pos)) }] *)
Fixpoint up (n : nat) (p : path) : path :=
  match n with O => p | S n => up n (match rfind p with Some pos => take pos p | None => p end) end.

(** The loop over the parts of a path; it ends at an inode, or at a link that
    leads to another path. *)
Fixpoint walk_links (e : Env) (follow_last : bool) (abs : path) (cur : VInode) (parts : list path) : M (VInode + path) :=
  match parts with
  | [] => mret (inl cur)
  | part :: rest =>
      child ← i_lookup cur part;
      if s_islnk (i_mode (v_attr child)) && (follow_last || negb (bool_decide (rest = []))) then
        target ← i_readlink child;
        next ← (if starts_with target root_path then mret (canonicalize target)
                else abs_path e root_path (up (length parts) abs ++ SLASH :: target));
        mret (inr next)
      else walk_links e follow_last abs child rest
  end.

(** [n] more links may be followed, plus the path itself; [MAX_SYMLINK_DEPTH]
    is 40. *)
Definition MAX_SYMLINK_DEPTH : nat := 40.
Fixpoint resolve_inode_inner (n : nat) (e : Env) (follow_last : bool) (abs : path) : M VInode :=
  match n with
  | O => fail ELOOP
  | S n =>
      '(cur, rel) ← mount_root abs;
      r ← walk_links e follow_last abs cur (nonempty (split rel));
      match r with
      | inl v => mret v
      | inr next => resolve_inode_inner n e follow_last next
      end
  end.
Definition resolve_inode (e : Env) (cwd p : path) : M VInode :=
  abs ← abs_path e cwd p; resolve_inode_inner (S MAX_SYMLINK_DEPTH) e true abs.
Definition resolve_inode_nofollow (e : Env) (cwd p : path) : M VInode :=
  abs ← abs_path e cwd p; resolve_inode_inner (S MAX_SYMLINK_DEPTH) e false abs.

(** The directory that [create_file_at], [mkdir], [unlink], [rmdir],
    [symlink] and [rename] work in: no link is followed. *)
Fixpoint walk (cur : VInode) (parts : list path) : M VInode :=
  match parts with
  | [] => mret cur
  | part :: rest => cur ← i_lookup cur part; walk cur rest
  end.
Definition parent_inode (abs : path) : M VInode :=
  '(cur, rel) ← mount_root abs; walk cur (nonempty (split rel)).

(** ** Operations on paths *)

(** [rsplit('/').next()] *)
Definition last_part (p : path) : path := default [] (last (split p)).
Definition fd_kind_for (v : VInode) (abs : path) : FdKind :=
  let name := last_part abs in
  let t := Z.land (i_mode (v_attr v)) S_IFMT in
  if t =? S_IFDIR then FdDirectory
  else if t =? S_IFCHR then
    if starts_with name (of_string "card") || starts_with name (of_string "renderD") then FdDrm
    else match v_ops v with
    | FsOps sb => match op_minor sb (v_attr v) with Some m => FdDevice m | None => FdRegular end
    | MemOps _ => FdRegular
    end
  else FdRegular.

Definition create_file_at (e : Env) (cwd p : path) (mode : Z) : M OpenFile :=
  let '(parent_path, name) := split_path p in
  parent_abs ← abs_path e cwd parent_path;
  parent_ino ← parent_inode parent_abs;
  new_ino ← i_create e parent_ino name mode;
  created_abs ← abs_path e cwd p;
  mret (mkOpen new_ino 0 O_RDWR FdRegular created_abs).

(** S_IFREG and 0o444. *)
Definition make_mem_fd (data : list Z) (flags : Z) : OpenFile :=
  mkOpen (mkV (MemOps data) (mkInode 0 (Z.lor S_IFREG 292) 0 0 (Z.of_nat (length data)) 0 0 0 99)) 0 flags FdRegular [].

(** The texts of the paths that are no files; [build] makes the five that
    depend on the machine and the process. *)
Definition text (s : string) : list Z := map (λ c, Z.of_nat (nat_of_ascii c)) (of_string s).
Definition line (s : string) : list Z := text s ++ [10].
Definition OS_RELEASE : list Z :=
  concat [line "NAME='Qunix'"; line "VERSION='0.2.0'"; line "ID=qunix"; line "ID_LIKE=linux";
          line "PRETTY_NAME='Qunix 0.2.0'"; line "VERSION_ID='0.2'"; line "HOME_URL='https://qunix.dev'"].
(** The source has double quotes. *)
Definition quoted (l : list Z) : list Z := map (λ c, if c =? 39 then 34 else c) l.
Definition fixed_texts : list (string * list Z) :=
  [("/proc/sys/kernel/pid_max", line "4194304"); ("/proc/sys/kernel/hostname", line "qunix");
   ("/proc/sys/kernel/ostype", line "Linux"); ("/proc/sys/kernel/osrelease", line "6.1.0-qunix");
   ("/proc/sys/kernel/version", line "#1 SMP PREEMPT Qunix"); ("/proc/sys/kernel/ngroups_max", line "65536");
   ("/proc/sys/vm/overcommit_memory", line "0"); ("/proc/sys/vm/max_map_count", line "65530");
   ("/proc/filesystems", concat [text "nodev"; [9]; line "tmpfs"; [9]; line "ext2"; [9]; line "fat"]);
   ("/etc/hostname", line "qunix"); ("/etc/os-release", quoted OS_RELEASE); ("/etc/localtime", line "UTC")]%string.
Definition built_paths : list string :=
  ["/proc/cpuinfo"; "/proc/meminfo"; "/proc/self/maps"; "/proc/self/status"; "/proc/self/stat"]%string.
Definition handle_virtual_fs_path (build : string → list Z) (p : path) : option (list Z) :=
  let s := to_string p in
  match List.find (λ '(n, _), bool_decide (n = s)) fixed_texts with
  | Some (_, data) => Some data
  | None => if existsb (λ n, bool_decide (n = s)) built_paths then Some (build s) else None
  end.

Definition open (build : string → list Z) (e : Env) (cwd p : path) (flags mode : Z) : M OpenFile :=
  abs ← abs_path e cwd p;
  match handle_virtual_fs_path build abs with
  | Some data => mret (make_mem_fd data flags)
  | None =>
      r ← attempt (resolve_inode e cwd p);
      match r with
      | Err err => if (err =? ENOENT) && has_flag flags O_CREAT then create_file_at e cwd p mode else fail err
      | Ok v =>
          if has_flag flags O_CREAT && has_flag flags O_EXCL then fail EEXIST
          else
            _ ← (if has_flag flags O_TRUNC && s_isreg (i_mode (v_attr v)) then i_truncate e v 0 else mret tt);
            mret (mkOpen v (if has_flag flags O_APPEND then i_size (v_attr v) else 0) flags (fd_kind_for v abs) abs)
      end
  end.

Definition stat (e : Env) (cwd p : path) : M Stat := v ← resolve_inode e cwd p; mret (to_stat v).
Definition lstat (e : Env) (cwd p : path) : M Stat := v ← resolve_inode_nofollow e cwd p; mret (to_stat v).
Definition readlink (e : Env) (cwd p : path) : M path :=
  v ← resolve_inode_nofollow e cwd p;
  if negb (s_islnk (i_mode (v_attr v))) then fail EINVAL else i_readlink v.
Definition resolve_dir (e : Env) (cwd p : path) : M path :=
  v ← resolve_inode e cwd p;
  if negb (s_isdir (i_mode (v_attr v))) then fail ENOTDIR else abs_path e cwd p.

Definition at_parent {A} (e : Env) (cwd p : path) (k : VInode → path → M A) : M A :=
  let '(parent, name) := split_path p in
  p_abs ← abs_path e cwd parent;
  parent_ino ← parent_inode p_abs;
  k parent_ino name.
Definition mkdir (e : Env) (cwd p : path) (mode : Z) : M unit :=
  at_parent e cwd p (λ d name, _ ← i_mkdir e d name mode; mret tt).
Definition unlink (e : Env) (cwd p : path) : M unit := at_parent e cwd p i_unlink.
Definition rmdir (e : Env) (cwd p : path) : M unit := at_parent e cwd p i_rmdir.
Definition symlink (e : Env) (cwd target link : path) : M unit :=
  at_parent e cwd link (λ d name, _ ← i_symlink e d name target; mret tt).
Definition rename (e : Env) (cwd old new : path) : M unit :=
  let '(old_parent, old_name) := split_path old in
  let '(new_parent, new_name) := split_path new in
  old_abs ← abs_path e cwd old_parent;
  new_abs ← abs_path e cwd new_parent;
  if negb (bool_decide (old_abs = new_abs)) then fail EXDEV
  else
    d ← parent_inode old_abs;
    i_rename d old_name (i_ino (v_attr d)) new_name.

(** ** Operations on open files *)

(** Devices and pipes have their own reads and writes. *)
Record Devices := mkDevices {
  read_device : Z → nat → Z → M (list Z);
  write_device : Z → list Z → Z → M nat;
  pipe_read : Z → nat → bool → M (list Z);
  pipe_write : Z → list Z → bool → M nat;
}.

(** The bytes that [read] puts into the buffer. *)
Definition read_fd (D : Devices) (fd : OpenFile) (count : nat) : M (list Z) :=
  match o_kind fd with
  | FdDirectory => fail EISDIR
  | FdRegular => i_read (o_inode fd) count (o_offset fd)
  | PipeRead p => pipe_read D p count (has_flag (o_flags fd) 2048)
  | FdDevice m => read_device D m count (o_offset fd)
  | FdDrm => mret []
  | _ => fail EBADF
  end.
Definition write_fd (D : Devices) (e : Env) (fd : OpenFile) (data : list Z) : M nat :=
  match o_kind fd with
  | FdDirectory => fail EISDIR
  | FdRegular => i_write e (o_inode fd) data (o_offset fd)
  | PipeWrite p => pipe_write D p data (has_flag (o_flags fd) 2048)
  | FdDevice m => write_device D m data (o_offset fd)
  | FdDrm => mret (length data)
  | _ => fail EBADF
  end.

Definition lseek (offset whence : Z) (fd : OpenFile) : OpenFile * result Z Z :=
  let set o := (mkOpen (o_inode fd) o (o_flags fd) (o_kind fd) (o_path fd), Ok o) in
  if whence =? 0 then set (wrap 64 offset)
  else if whence =? 1 then set (wadd 64 (o_offset fd) offset)
  else if whence =? 2 then set (wadd 64 (i_size (v_attr (o_inode fd))) offset)
  else (fd, Err EINVAL).

(** [linux_dirent64] records: the length of a record, its bytes up to the
    NUL, and the loop that puts them into the buffer. *)
Definition reclen (name : string) : nat := Nat.max (8 * ((19 + String.length name + 1 + 7) / 8)) 24.
Definition dirent (off : Z) (entry : DirEntry) : list Z :=
  let '(name, ino, file_type) := entry in
  le_bytes 8 ino ++ le_bytes 8 off ++ le_bytes 2 (Z.of_nat (reclen name)) ++ [file_type] ++ text name ++ [0].
Fixpoint put_entries (skip : Z) (entries : list DirEntry) (buf : list Z) (written n_consumed : nat) : list Z * nat * nat :=
  match entries with
  | [] => (buf, written, n_consumed)
  | entry :: rest =>
      let reclen := reclen entry.1.1 in
      if (length buf <? written + reclen)%nat then (buf, written, n_consumed)
      else
        put_entries skip rest (splice buf written (dirent (skip + Z.of_nat n_consumed + 1) entry)) (written + reclen) (S n_consumed)
  end.
Definition getdents (fd : OpenFile) (buf : list Z) : M (list Z * nat * nat) :=
  if negb (s_isdir (i_mode (v_attr (o_inode fd)))) then fail ENOTDIR
  else
    entries ← i_readdir (o_inode fd);
    mret (put_entries (o_offset fd) (drop (Z.to_nat (o_offset fd)) entries) buf 0 0).

(** [read_all_fd], [rounds] reads at most: 256 MiB are 65536 chunks, and the
    loop is left above. *)
Definition CHUNK : nat := 4096.
Fixpoint read_chunks (rounds : nat) (v : VInode) (offset : Z) (out : list Z) : M (list Z) :=
  match rounds with
  | O => mret out
  | S rounds =>
      r ← attempt (i_read v CHUNK offset);
      match r with
      | Err _ | Ok [] => mret out
      | Ok bytes =>
          let out := out ++ bytes in
          if (length bytes <? CHUNK)%nat then mret out
          else if 268435456 <? Z.of_nat (length out) then mret out
          else read_chunks rounds v (wadd 64 offset (Z.of_nat (length bytes))) out
      end
  end.
Definition READ_ALL_ROUNDS : nat := Z.to_nat 65537.
Definition read_all_fd (fd : OpenFile) : M (list Z) :=
  let hint := i_size (v_attr (o_inode fd)) in
  if 0 <? hint then
    r ← attempt (i_read (o_inode fd) (Z.to_nat hint) 0);
    mret (match r with Ok bytes => bytes | Err _ => [] end)
  else read_chunks READ_ALL_ROUNDS (o_inode fd) 0 [].
End Vfs.
