(* ===== verification/VfsPath.v ===== *)
(** * Paths and mounts

    The paths that [canonicalize] makes are the renderings of lists of normal
    components, [abs_path] is lexical resolution on such lists, and
    [find_mount] finds the longest mount that is a prefix of the list. *)
From S2P Require Import Prelude Process Tmpfs Vfs.
From Stdlib Require Import Ascii.

Definition no_slash (w : path) : Prop := SLASH ∉ w.
Record normal (w : path) : Prop := {
  nm_nil : w ≠ [];
  nm_dot : w ≠ of_string ".";
  nm_dots : w ≠ of_string "..";
  nm_slash : no_slash w;
}.
Definition tail (parts : list path) : path := concat (map (cons SLASH) parts).
Definition render (parts : list path) : path := if bool_decide (parts = []) then root_path else tail parts.
Definition parts_of (p : path) : list path := nonempty (split p).

(** The components of a canonical path in a working directory. *)
Definition resolve_dots (base : list path) (p : path) : list path := fold_left canon_step (split p) base.

(** ** Splitting *)
Lemma split_nonnil p : split p ≠ [].
Proof. destruct p as [|c p]; cbn; [done|]. case_decide; [done|]. by destruct (split p). Qed.

Lemma split_no_slash p : Forall no_slash (split p).
Proof.
  unfold no_slash. induction p as [|c p IH]; cbn; [repeat constructor; apply not_elem_of_nil|]. case_decide as Hc.
  - constructor; [apply not_elem_of_nil|done].
  - destruct (split p) as [|w ws]; [constructor; [set_solver|constructor]|]. apply Forall_cons in IH as [Hw IH]. constructor; [set_solver|done].
Qed.

Lemma split_app p q : split (p ++ SLASH :: q) = split p ++ split q.
Proof.
  induction p as [|c p IH]; cbn; [done|]. rewrite IH. case_decide; [done|].
  pose proof (split_nonnil p). by destruct (split p).
Qed.

Lemma split_word w : no_slash w → split w = [w].
Proof.
  unfold no_slash. induction w as [|c w IH]; intros Hw; cbn; [done|]. apply not_elem_of_cons in Hw as [Hc Hw].
  rewrite decide_False by done. by rewrite IH.
Qed.

Lemma split_tail parts : Forall no_slash parts → split (tail parts) = [] :: parts.
Proof.
  unfold tail. induction parts as [|w parts IH] using rev_ind; intros Hp; [done|].
  apply Forall_app in Hp as [Hp Hw]. rewrite map_app, concat_app. cbn. rewrite app_nil_r, split_app, IH by done.
  rewrite (split_word w) by (by apply Forall_inv in Hw). done.
Qed.

Lemma normal_no_slash parts : Forall normal parts → Forall no_slash parts.
Proof. intros H. eapply Forall_impl; [exact H|apply nm_slash]. Qed.

Lemma nonempty_normal parts : Forall normal parts → nonempty parts = parts.
Proof.
  induction 1 as [|w parts Hw _ IH]; [done|]. unfold nonempty in *. cbn. rewrite bool_decide_false by apply Hw. cbn. by rewrite IH.
Qed.

Lemma parts_tail parts : Forall normal parts → parts_of (tail parts) = parts.
Proof. intros Hp. unfold parts_of. rewrite split_tail by by apply normal_no_slash. cbn. by apply nonempty_normal. Qed.

Lemma parts_render parts : Forall normal parts → parts_of (render parts) = parts.
Proof. intros Hp. unfold render. case_bool_decide; [by subst parts|by apply parts_tail]. Qed.

Lemma render_inj p q : Forall normal p → Forall normal q → render p = render q → p = q.
Proof. intros Hp Hq E. by rewrite <- (parts_render p), E, parts_render. Qed.

Lemma render_slash parts : root_path `prefix_of` render parts.
Proof. unfold render. case_bool_decide; [done|]. destruct parts as [|w parts]; [done|]. by eexists. Qed.

(** ** Canonical paths *)
Lemma canon_step_normal parts w : Forall normal parts → no_slash w → Forall normal (canon_step parts w).
Proof.
  intros Hp Hw. unfold canon_step. case_bool_decide as H1; [done|]. case_bool_decide as H2.
  - destruct parts as [|x parts _] using rev_ind; [done|]. rewrite removelast_last. by apply Forall_app in Hp as [? _].
  - apply Forall_app. split; [done|]. repeat constructor; try done; intros ->; tauto.
Qed.

Lemma resolve_dots_normal base p : Forall normal base → Forall normal (resolve_dots base p).
Proof.
  unfold resolve_dots. pose proof (split_no_slash p) as Hs. revert base. induction Hs as [|w ws Hw _ IH]; intros base Hb; [done|].
  apply IH. by apply canon_step_normal.
Qed.

Lemma fold_normal parts base : Forall normal parts → fold_left canon_step parts base = base ++ parts.
Proof.
  intros Hp. revert base. induction Hp as [|w parts Hw _ IH]; intros base; [by rewrite app_nil_r|]. cbn. rewrite IH.
  unfold canon_step. destruct Hw as [H1 H2 H3 _]. rewrite bool_decide_false by tauto. rewrite bool_decide_false by done. by rewrite <- app_assoc.
Qed.

Lemma resolve_tail base parts : Forall normal parts → resolve_dots base (tail parts) = base ++ parts.
Proof. intros Hp. unfold resolve_dots. rewrite split_tail by by apply normal_no_slash. cbn. by rewrite fold_normal. Qed.

Lemma resolve_render base parts : Forall normal parts → resolve_dots base (render parts) = base ++ parts.
Proof. intros Hp. unfold render. case_bool_decide; [|by apply resolve_tail]. subst. cbn. by rewrite app_nil_r. Qed.

Lemma resolve_app base p q : resolve_dots base (p ++ SLASH :: q) = resolve_dots (resolve_dots base p) q.
Proof. unfold resolve_dots. by rewrite split_app, fold_left_app. Qed.

Lemma canonicalize_resolve p : canonicalize p = render (resolve_dots [] p).
Proof. done. Qed.

Lemma last_tail_normal parts : Forall normal parts → parts ≠ [] → ends_slash (tail parts) = false.
Proof.
  intros Hp Hn. destruct parts as [|w parts _] using rev_ind; [done|]. apply Forall_app in Hp as [_ Hw]. apply Forall_inv in Hw.
  unfold ends_slash, tail. rewrite map_app, concat_app. cbn. rewrite app_nil_r. apply bool_decide_false.
  destruct w as [|c w _] using rev_ind; [by destruct (nm_nil _ Hw)|]. rewrite app_comm_cons, app_assoc, last_snoc.
  intros [= ->]. apply (nm_slash _ Hw). set_solver.
Qed.

(** In the root directory and below. *)
Lemma join_cwd cwd p : Forall normal cwd →
  resolve_dots [] (if ends_slash (render cwd) then render cwd ++ p else render cwd ++ SLASH :: p) = resolve_dots cwd p.
Proof.
  intros Hc. unfold render. case_bool_decide as Hn; [by subst|]. rewrite last_tail_normal by done.
  by rewrite resolve_app, resolve_tail.
Qed.

Lemma root_render cwd : Forall normal cwd → render cwd = root_path ↔ cwd = [].
Proof. intros Hc. split; [|by intros ->]. intros E. by apply (render_inj cwd []). Qed.

Lemma canon_absolute p base : starts_with p root_path = true → ∃ q, p = SLASH :: q ∧ resolve_dots base p = resolve_dots base q.
Proof. intros Hs%bool_decide_eq_true. destruct Hs as [q ->]. by exists q. Qed.

Lemma resolve_trim base p : resolve_dots base (trim_start p) = resolve_dots base p.
Proof. induction p as [|c p IH]; [done|]. cbn [trim_start]. case_decide as Hc; [|done]. subst c. by rewrite IH. Qed.

Lemma resolve_slashes base p : trim_start p = [] → resolve_dots base p = base.
Proof. intros E. by rewrite <- resolve_trim, E. Qed.

Lemma trim_start_idem p : ends_slash (reverse p) = false → trim_start p = p.
Proof. unfold ends_slash. rewrite last_reverse. intros H%bool_decide_eq_false. destruct p as [|c p]; [done|]. cbn. rewrite decide_False; [done|naive_solver]. Qed.
Lemma trim_end_tail parts : Forall normal parts → parts ≠ [] → trim_end (tail parts) = tail parts.
Proof. intros Hp Hn. unfold trim_end. rewrite trim_start_idem, reverse_involutive; [done|]. by rewrite reverse_involutive, last_tail_normal. Qed.

(** In the root directory. *)
Lemma abs_in_root cwd p : Forall normal cwd →
  abs_in root_path (render cwd) p = render (resolve_dots (if starts_with p root_path then [] else cwd) p).
Proof.
  intros Hc. unfold abs_in. rewrite !bool_decide_true by done. cbn [negb andb]. destruct (starts_with p root_path); [done|].
  by rewrite canonicalize_resolve, join_cwd.
Qed.

(** Below another root: the string of the result has the root as a prefix, or
    is the root. *)
Lemma abs_in_jail root cwd p : Forall normal root → root ≠ [] → Forall normal cwd →
  abs_in (render root) (render cwd) p =
    let q := resolve_dots (if starts_with p root_path then root else cwd) p in
    if starts_with (render q) (render root) then render q else render root.
Proof.
  intros Hr Hn Hc. unfold abs_in. rewrite (bool_decide_false (render root = root_path)) by (by rewrite root_render). cbn [negb andb].
  destruct (starts_with p root_path) eqn:Hp.
  - case_bool_decide as Ht.
    + rewrite resolve_slashes by done. cbn zeta. by destruct (starts_with (render root) (render root)).
    + assert (canonicalize (trim_end (render root) ++ SLASH :: trim_start p) = render (resolve_dots root p)) as ->.
      { unfold render at 1. rewrite bool_decide_false by done. rewrite trim_end_tail by done.
        by rewrite canonicalize_resolve, resolve_app, resolve_tail, resolve_trim by done. }
      cbn zeta. by destruct (starts_with (render (resolve_dots root p)) (render root)).
  - rewrite canonicalize_resolve, join_cwd by done. cbn zeta. by destruct (starts_with (render (resolve_dots cwd p)) (render root)).
Qed.

(** ** Mounts *)
Lemma tail_app p q : tail (p ++ q) = tail p ++ tail q.
Proof. unfold tail. by rewrite map_app, concat_app. Qed.

Lemma tail_rest parts : tail parts = [] ∨ starts_with (tail parts) root_path = true.
Proof. destruct parts as [|w parts]; [by left|right]. apply bool_decide_true. by eexists. Qed.

(** A mount applies when its components are a prefix. *)
Lemma applies_prefix ps ms sb : Forall normal ps → Forall normal ms →
  applies (render ps) (mkMount (render ms) sb) = true ↔ ms `prefix_of` ps.
Proof.
  intros Hp Hm. unfold applies. cbn [m_path]. destruct (decide (ms = [])) as [->|Hne].
  { rewrite (bool_decide_true (render [] = root_path)) by done. rewrite orb_true_r, andb_true_r. unfold starts_with.
    rewrite bool_decide_eq_true. split; [intros _; apply prefix_nil|intros _; apply render_slash]. }
  rewrite (bool_decide_false (render ms = root_path)) by (by rewrite root_render). rewrite orb_false_r, andb_true_iff, orb_true_iff.
  unfold starts_with. rewrite !bool_decide_eq_true. assert (render ms = tail ms) as -> by (unfold render; by rewrite bool_decide_false).
  split.
  - intros [[rest E] Hrest]. assert (render ps = tail ps) as Hps.
    { unfold render. case_bool_decide; [|done]. subst ps. destruct ms as [|w ms]; [done|]. apply Forall_inv in Hm. destruct Hm as [Hw _ _ _].
      destruct w; [done|]. discriminate E. }
    rewrite Hps in E, Hrest. rewrite E, drop_app_length in Hrest. destruct Hrest as [->|[r ->]].
    + rewrite app_nil_r in E. exists []. rewrite app_nil_r. by rewrite <- (parts_tail ps), E, parts_tail.
    + pose proof (split_tail ps (normal_no_slash _ Hp)) as Hs. cbn [app] in E. change (root_path ++ r) with (SLASH :: r) in E. rewrite E, split_app in Hs.
      rewrite (split_tail ms (normal_no_slash _ Hm)) in Hs. injection Hs as Hs. by exists (split r).
  - intros [k ->]. unfold render. rewrite bool_decide_false by (by destruct ms). rewrite tail_app, drop_app_length. split; [by eexists|].
    destruct (tail_rest k) as [->|Hk]; [by left|right]. by apply bool_decide_eq_true in Hk.
Qed.

(** The loop of [find_mount]. *)
Lemma better_mount_cases abs best x :
  (applies abs x = false ∧ better_mount abs best x = best) ∨
  (applies abs x = true ∧ better_mount abs best x = Some x ∧ ∀ b, best = Some b → (length (m_path b) < length (m_path x))%nat) ∨
  (∃ b, applies abs x = true ∧ best = Some b ∧ better_mount abs best x = best ∧ (length (m_path x) ≤ length (m_path b))%nat).
Proof.
  unfold better_mount. destruct (applies abs x); [right|by left]. destruct best as [b|]; [|by left].
  destruct (Nat.ltb_spec (length (m_path b)) (length (m_path x))); [left|right; by exists b]. split_and!; [done|done|]. by intros ? [= <-].
Qed.

Lemma best_mount abs m best :
  match fold_left (better_mount abs) m best with
  | Some mp => (best = Some mp ∨ mp ∈ m ∧ applies abs mp = true) ∧
      (∀ b, best = Some b → (length (m_path b) ≤ length (m_path mp))%nat) ∧
      (∀ b, b ∈ m → applies abs b = true → (length (m_path b) ≤ length (m_path mp))%nat)
  | None => best = None ∧ ∀ b, b ∈ m → applies abs b = false
  end.
Proof.
  revert best. induction m as [|x m IH]; intros best; cbn [fold_left].
  { destruct best as [b|]; [split_and!; [by left|by intros ? [= <-]|by intros ? ?%elem_of_nil]|split; [done|by intros ? ?%elem_of_nil]]. }
  specialize (IH (better_mount abs best x)).
  destruct (better_mount_cases abs best x) as [[Hx E]|[(Hx & E & Hb)|(b & Hx & -> & E & Hb)]]; rewrite E in *;
    (destruct (fold_left (better_mount abs) m _) as [mp|]; [destruct IH as (H1 & H2 & H3)|destruct IH as [H1 H2]]); try done.
  - split_and!; [set_solver|done|]. intros b [->|Hm]%elem_of_cons Hap; [congruence|by apply H3].
  - split; [done|]. intros b [->|Hm]%elem_of_cons; [done|by apply H2].
  - pose proof (H2 x eq_refl). split_and!; [set_solver| |].
    + intros b Hbest. specialize (Hb b Hbest). lia.
    + intros b [->|Hm]%elem_of_cons Hap; [done|by apply H3].
  - pose proof (H2 b eq_refl). split_and!; [set_solver|done|]. intros c [->|Hm]%elem_of_cons Hap; [lia|by apply H3].
Qed.

Lemma tail_length_mono p q : p `prefix_of` q → (length (tail p) ≤ length (tail q))%nat.
Proof. intros [k ->]. rewrite tail_app, length_app. lia. Qed.

Lemma render_length_strict p q : Forall normal q → p `prefix_of` q → p ≠ q → (length (render p) < length (render q))%nat.
Proof.
  intros Hq [k ->] Hne. destruct k as [|w k]; [by rewrite app_nil_r in Hne|]. apply Forall_app in Hq as [_ Hk]. apply Forall_inv in Hk as [Hw _ _ _].
  unfold render. rewrite (bool_decide_false (p ++ w :: k = [])) by (by destruct p). rewrite tail_app, length_app.
  assert (2 ≤ length (tail (w :: k)))%nat by (destruct w; [done|cbn; lia]). case_bool_decide; [change (length root_path) with 1%nat|]; lia.
Qed.

Lemma parts_slash p : parts_of (SLASH :: p) = parts_of p.
Proof. done. Qed.
Lemma parts_trim p : parts_of (trim_start p) = parts_of p.
Proof. induction p as [|c p IH]; [done|]. cbn [trim_start]. case_decide; [subst c; by rewrite IH|done]. Qed.
Lemma parts_or_root p : parts_of (if bool_decide (p = []) then root_path else p) = parts_of p.
Proof. case_bool_decide; [by subst p|done]. Qed.

Lemma rel_parts ms k : Forall normal (ms ++ k) →
  let len := length (render ms) in let abs := render (ms ++ k) in
  let rel := if (len <? length abs)%nat then trim_start (drop len abs) else [] in
  parts_of (if bool_decide (rel = []) then root_path else rel) = k.
Proof.
  intros Hn len abs rel. rewrite parts_or_root. unfold rel, len, abs. destruct k as [|w k].
  { rewrite app_nil_r, Nat.ltb_irrefl. done. }
  assert (Forall normal (w :: k)) as Hk by (by apply Forall_app in Hn as [_ ?]).
  rewrite (proj2 (Nat.ltb_lt _ _)) by (apply render_length_strict; [done|by eexists|intros E%(f_equal length); rewrite length_app in E; cbn in E; lia]).
  rewrite parts_trim. unfold render. rewrite (bool_decide_false (ms ++ w :: k = [])) by (by destruct ms). case_bool_decide.
  - subst ms. cbn [app]. rewrite <- (parts_tail (w :: k) Hk) at 2. done.
  - by rewrite tail_app, drop_app_length, parts_tail.
Qed.

Definition mounts_ok (m : list MountPoint) : Prop := Forall (λ mp, ∃ ms, m_path mp = render ms ∧ Forall normal ms) m.

(** A canonical path is served by the mount with the most components
    among those whose components begin it, and what is left are the other
    components: the string comparison of the code ("/dev" against "/device")
    does not confuse components.  It is served by none only if no mount
    begins it. *)
Theorem find_mount_longest m ps :
  mounts_ok m → Forall normal ps →
  match find_mount m (render ps) with
  | Some (sb, rel) =>
      ∃ ms, mkMount (render ms) sb ∈ m ∧ ps = ms ++ parts_of rel ∧
        ∀ ms' sb', mkMount (render ms') sb' ∈ m → Forall normal ms' → ms' `prefix_of` ps → (length ms' ≤ length ms)%nat
  | None => ∀ ms' sb', mkMount (render ms') sb' ∈ m → Forall normal ms' → ¬ ms' `prefix_of` ps
  end.
Proof.
  intros Hm Hp. unfold find_mount. pose proof (best_mount (render ps) m None) as Hb.
  destruct (fold_left _ m None) as [[mpath sb]|]; cbn [mbind option_bind m_path m_sb] in *.
  - destruct Hb as ([?|[Hin Hap]] & _ & Hmax); [done|]. unfold mounts_ok in Hm. rewrite Forall_forall in Hm. destruct (Hm _ Hin) as (ms & Hmp & Hms).
    cbn in Hmp. subst mpath. apply applies_prefix in Hap as [k Hk]; [|done..]. exists ms. split_and!; [done| |].
    + by rewrite Hk, rel_parts by (by rewrite <- Hk).
    + intros ms' sb' Hin' Hms' Hpre. specialize (Hmax _ Hin'). rewrite applies_prefix in Hmax by done. specialize (Hmax Hpre). cbn [m_path] in Hmax.
      destruct (prefix_weak_total ms' ms ps) as [Hx|Hx]; [done|by exists k|by apply prefix_length|].
      destruct (decide (ms = ms')) as [->|Hne]; [done|]. pose proof (render_length_strict ms ms' Hms' Hx Hne). lia.
  - destruct Hb as [_ Hnone]. intros ms' sb' Hin' Hms' Hpre. specialize (Hnone _ Hin').
    apply (applies_prefix ps ms' sb' Hp Hms') in Hpre. congruence.
Qed.

Lemma find_mount_longest_witness :
  find_mount [mkMount (of_string "/") 1; mkMount (of_string "/dev") 2] (of_string "/device/a") = Some (1, of_string "device/a") ∧
  ∀ ms' sb', mkMount (render ms') sb' ∈ [mkMount (of_string "/") 1; mkMount (of_string "/dev") 2] → Forall normal ms' →
    ms' `prefix_of` [of_string "device"; of_string "a"] → ms' = [].
Proof.
  pose proof (find_mount_longest [mkMount (of_string "/") 1; mkMount (of_string "/dev") 2] [of_string "device"; of_string "a"]) as H.
  assert (find_mount [mkMount (of_string "/") 1; mkMount (of_string "/dev") 2] (render [of_string "device"; of_string "a"]) = Some (1, of_string "device/a"))
    as E by reflexivity.
  rewrite E in H. destruct H as (ms & _ & Hms & Hmax).
  - repeat constructor; [exists []; done|exists [of_string "dev"]; split; [done|]]. repeat constructor; try done. by apply (bool_decide_unpack _).
  - repeat constructor; try done; by apply (bool_decide_unpack _).
  - split; [reflexivity|]. intros ms' sb' Hin Hn Hpre. specialize (Hmax ms' sb' Hin Hn Hpre). change (parts_of (of_string "device/a")) with [of_string "device"; of_string "a"] in Hms.
    apply (f_equal length) in Hms. rewrite length_app in Hms. cbn in Hms. destruct ms'; [done|cbn in Hmax; lia].
Defined.

(** ** What [abs_path] returns *)
Section Abs.
Context {F : Type}.
Implicit Types (s : Vfs F) (e : Env).

(** C30. In a process whose root is "/", every path, relative or absolute,
    resolves to a normal one: a slash before each of a list of components
    none of which is empty, "." or ".." (or "/" alone).  The list is the
    working directory (nothing, for an absolute path) with the components of
    the path applied in order, where ".." drops the last component and stays
    in the root; and [canonicalize] changes a normal path no more. *)
Theorem abs_path_normal e cwd p s :
  table_held e = false → effective_root e = root_path → Forall normal cwd →
  ∃ q, abs_path e (render cwd) p s = Some (s, Ok (render q)) ∧ Forall normal q ∧
    q = fold_left canon_step (split p) (if starts_with p root_path then [] else cwd) ∧ canonicalize (render q) = render q.
Proof.
  intros Hh Hr Hc. eexists. unfold abs_path. rewrite Hh, Hr, abs_in_root by done. split_and!; [done| |done|].
  - apply resolve_dots_normal. by destruct (starts_with p root_path).
  - rewrite canonicalize_resolve, resolve_render; [done|]. apply resolve_dots_normal. by destruct (starts_with p root_path).
Qed.

(** The check that keeps a process below its root compares strings, so a
    process whose root is /n reaches every sibling whose name begins with n:
    "../nx" resolves to /nx, which is not below /n. *)
Theorem chroot_sibling_escape n x e s :
  normal n → no_slash x → x ≠ [] → table_held e = false → effective_root e = render [n] →
  abs_path e (render [n]) (of_string "../" ++ n ++ x) s = Some (s, Ok (render [n ++ x])) ∧ ¬ [n] `prefix_of` [n ++ x].
Proof.
  intros Hn Hx Hne Hh Hr. assert (normal (n ++ x)) as Hnx.
  { destruct Hn as [H1 H2 H3 H4]. split; [by destruct n| | |unfold no_slash in *; set_solver]; destruct n as [|a [|b n]]; try done; destruct x; try done; intros [= -> ?]; try done.
    destruct n; simplify_eq. }
  split.
  - unfold abs_path. rewrite Hh, Hr. rewrite abs_in_jail by (done || by apply Forall_singleton).
    change (of_string "../" ++ n ++ x) with (of_string ".." ++ SLASH :: (n ++ x)).
    change (starts_with (of_string ".." ++ SLASH :: n ++ x) root_path) with false.
    rewrite resolve_app. change (resolve_dots [n] (of_string "..")) with (@nil path).
    assert (resolve_dots [] (n ++ x) = [n ++ x]) as ->.
    { unfold resolve_dots. rewrite split_word by apply Hnx. rewrite fold_normal; [done|by apply Forall_singleton]. }
    cbn zeta. unfold starts_with. rewrite bool_decide_true; [done|]. exists x. unfold render, tail. cbn. by rewrite !app_nil_r.
  - intros [k [= E _]]. apply (f_equal length) in E. rewrite length_app in E. destruct x; [done|cbn in E; lia].
Qed.
End Abs.

Lemma abs_path_normal_witness :
  let e := mkEnv root_path root_path 0 0 0 false in
  ∃ q, abs_path (F := unit) e (of_string "/home/me") (of_string "../.././../etc//passwd") (mkVfs [] tt) =
    Some (mkVfs [] tt, Ok (render q)) ∧ q = [of_string "etc"; of_string "passwd"].
Proof.
  intros e. destruct (abs_path_normal e [of_string "home"; of_string "me"] (of_string "../.././../etc//passwd") (mkVfs [] tt)) as (q & Hq & _ & E & _);
    [done|done|repeat constructor; try done; by apply (bool_decide_unpack _)|].
  exists q. split; [exact Hq|exact E].
Defined.

Lemma chroot_sibling_escape_witness :
  let e := mkEnv root_path (of_string "/jail") 0 0 0 false in
  abs_path (F := unit) e (of_string "/jail") (of_string "../jail-of-root") (mkVfs [] tt) = Some (mkVfs [] tt, Ok (of_string "/jail-of-root")).
Proof.
  intros e. apply (chroot_sibling_escape (of_string "jail") (of_string "-of-root") e (mkVfs [] tt)); try done;
    [repeat constructor; try done; by apply (bool_decide_unpack _)|by apply (bool_decide_unpack _)].
Defined.

(** ** Parent and name *)
Lemma rfind_spec p :
  match rfind p with
  | Some n => p = take n p ++ SLASH :: drop (S n) p ∧ no_slash (drop (S n) p)
  | None => no_slash p
  end.
Proof.
  unfold no_slash. induction p as [|c p IH]; cbn [rfind]; [apply not_elem_of_nil|].
  destruct (rfind p) as [n|]; [destruct IH as [E Hn]; split; [change (c :: p = c :: (take n p ++ SLASH :: drop (S n) p)); by rewrite <- E|done]|].
  case_decide as Hc; [by subst c|]. intros [?|?]%elem_of_cons; [congruence|done].
Qed.

Lemma resolve_word base w : normal w → resolve_dots base w = base ++ [w].
Proof. intros Hw. unfold resolve_dots. rewrite split_word by apply Hw. by apply fold_normal, Forall_singleton. Qed.

(** The directory and the name that a path leads to. *)
Lemma split_path_spec cwd p parent name : Forall normal cwd → split_path p = (parent, name) → normal name →
  resolve_dots (if starts_with p root_path then [] else cwd) p =
  resolve_dots (if starts_with parent root_path then [] else cwd) parent ++ [name].
Proof.
  intros Hc Hsp Hn. pose proof (rfind_spec p) as Hr. unfold split_path in Hsp. destruct (rfind p) as [[|k]|].
  - destruct Hr as [E _]. rewrite take_0 in E. cbn [app] in E. destruct p as [|c p]; [done|]. injection E as ->. simplify_eq.
    change (resolve_dots [] (SLASH :: p) = resolve_dots [] root_path ++ [p]).
    change (resolve_dots [] (SLASH :: p)) with (resolve_dots [] p). by rewrite resolve_word.
  - destruct Hr as [E _]. simplify_eq. assert (starts_with p root_path = starts_with (take (S k) p) root_path) as ->.
    { unfold starts_with. apply bool_decide_ext. destruct p as [|c p]; [done|]. cbn. split; intros [r [= -> _]]; by eexists. }
    set (b := if starts_with _ _ then _ else _). transitivity (resolve_dots b (take (S k) p ++ SLASH :: drop (S (S k)) p)); [by rewrite <- E|].
    by rewrite resolve_app, resolve_word.
  - simplify_eq. assert (starts_with name root_path = false) as ->.
    { apply bool_decide_false. intros [r ->]. apply (nm_slash _ Hn). set_solver. }
    by rewrite resolve_word.
Qed.
