(* ===== verification/VfsTmpfs.v ===== *)
(** * The virtual file system over tmpfs

    The interface of Vfs implemented by the operations of Tmpfs, and what
    paths then mean: a file that is created under a path is the one that
    opening the path finds, however the directories around it look. *)
From S2P Require Import Prelude Process Paging Tmpfs TmpfsFile TmpfsFacts Vfs VfsPath.
From Stdlib Require Import Ascii.

Section Instance_.
Context {A : Type} `{FA : FrameAlloc A}.
Implicit Types (s : TmpState A).

Definition with_ops (sb : Z) (r : result Z Inode) : result Z VInode := i ← r; Ok (mkV (FsOps sb) i).
Definition pure {B} (r : result Z B) : FsM (TmpState A) B := λ s, Some (s, r).
(** The calls that read the ids of the process take the lock of its table. *)
Definition guarded {B} (e : Env) (m : FsM (TmpState A) B) : FsM (TmpState A) B := if table_held e then λ _, None else m.

(** One tmpfs, whatever the superblock it is reached through. *)
#[export] Instance tmpfs_ops : VfsOps (TmpState A) := {
  op_root sb := λ s, Some (s, with_ops sb (tmp_root s));
  op_read sb i n off := λ s, r ← tmp_read (i_ino i) n (Z.to_nat off) s; Some (s, r);
  op_write e sb i data off := tmp_write (i_ino i) (e_now e) data (Z.to_nat off);
  op_readdir sb i := λ s, Some (s, tmp_readdir (i_ino i) s);
  op_lookup sb i name := λ s, Some (s, with_ops sb (tmp_lookup (i_ino i) name s));
  op_create e sb i name mode := guarded e (λ s,
    let '(s, r) := tmp_create (i_ino i) name mode (e_uid e) (e_gid e) (e_now e) s in Some (s, with_ops sb r));
  op_mkdir e sb i name mode := guarded e (λ s,
    let '(s, r) := tmp_mkdir (i_ino i) name mode (e_uid e) (e_gid e) (e_now e) s in Some (s, with_ops sb r));
  op_rmdir sb i name := tmp_rmdir (i_ino i) name;
  op_unlink sb i name := tmp_unlink (i_ino i) name;
  op_symlink e sb i name target := guarded e (λ s,
    let '(s, r) := tmp_symlink (i_ino i) name target (e_uid e) (e_gid e) (e_now e) s in Some (s, with_ops sb r));
  op_readlink sb i := λ s, Some (s, tmp_readlink (i_ino i) s);
  op_truncate e sb i size := tmp_truncate (i_ino i) (e_now e) (Z.to_nat size);
  op_rename sb i old new_parent new := λ s, let '(s, r) := tmp_rename (i_ino i) old new_parent new s in Some (s, r);
  op_minor sb i := None;
}.

End Instance_.

(** ** Walks *)
Fixpoint a_walk (ino : Z) (parts : list path) (t : tree) : result Z Z :=
  match parts with
  | [] => Ok ino
  | w :: parts => match a_child ino (to_string w) t with Ok c => a_walk c parts t | Err e => Err e end
  end.

Lemma a_walk_app ino p q t : a_walk ino (p ++ q) t = match a_walk ino p t with Ok c => a_walk c q t | Err e => Err e end.
Proof. revert ino. induction p as [|w p IH]; intros ino; cbn; [done|]. destruct (a_child ino (to_string w) t); [apply IH|done]. Qed.

Lemma a_walk_snoc ino p w t c : a_walk ino (p ++ [w]) t = Ok c ↔ ∃ d, a_walk ino p t = Ok d ∧ entry t d (to_string w) c.
Proof.
  rewrite a_walk_app. setoid_rewrite <- a_child_entry. split.
  - destruct (a_walk ino p t) as [d|]; [|done]. cbn. intros H. exists d. split; [done|]. by destruct (a_child d (to_string w) t).
  - intros (d & -> & H). cbn. by rewrite H.
Qed.

Lemma to_string_inj p q : to_string p = to_string q → p = q.
Proof. intros E%(f_equal of_string). unfold of_string, to_string in E. by rewrite !String.list_ascii_of_string_of_list_ascii in E. Qed.

(** A node of a tree is reached on one way only. *)
Lemma a_walk_unique t p q c : tree_wf t → a_walk 1 p t = Ok c → a_walk 1 q t = Ok c → p = q.
Proof.
  intros Ht. revert q c. induction p as [|w p IH] using rev_ind; intros q c; destruct q as [|v q _] using rev_ind; [done|..].
  - intros [= <-] (d & _ & He)%a_walk_snoc. by destruct (tw_not_root _ Ht d (to_string v)).
  - intros (d & _ & He)%a_walk_snoc [= <-]. by destruct (tw_not_root _ Ht d (to_string w)).
  - intros (d & Hd & He)%a_walk_snoc (d' & Hd' & He')%a_walk_snoc. destruct (tw_unique _ Ht _ _ _ _ _ He He') as [-> Hn].
    apply to_string_inj in Hn as ->. f_equal. by eapply IH.
Qed.

(** A walk is kept where the entries on it are kept. *)
Lemma a_walk_keep t t' p c : a_walk 1 p t = Ok c →
  (∀ q w d x, p = q ++ w :: d → a_walk 1 q t = Ok x → ∀ y, entry t x (to_string w) y → entry t' x (to_string w) y) →
  a_walk 1 p t' = Ok c.
Proof.
  revert c. induction p as [|w p IH] using rev_ind; intros c; [done|]. rewrite !a_walk_snoc. intros (d & Hd & He) Hkeep.
  exists d. split; [|by eapply Hkeep]. apply IH; [done|]. intros q v k x -> Hq y. apply (Hkeep q v (k ++ [w]) x); [|done].
  by rewrite <- app_assoc.
Qed.

(** Making a node: the way to its directory stays, and leads on to it. *)
Lemma a_make_entries t d name n ch :
  tree_wf t → anodes t !! d = Some (ADir ch) →
  let t' := (a_make d name n t).1 in
  entry t' d name (anext t) ∧ ∀ x m y, entry t x m y → ¬ (x = d ∧ m = name) → entry t' x m y.
Proof.
  intros Ht Hd. pose proof (tw_next _ Ht d (ex_intro _ _ Hd)) as Hdn. unfold a_make, a_add. cbn [anodes anext].
  rewrite (lookup_insert_ne _ (anext t) d) by lia. rewrite Hd. cbn [fst]. split.
  - exists (<[name := anext t]> ch). cbn [anodes]. by rewrite !lookup_insert_eq.
  - intros x m y (k & Hk & Hy) Hne. pose proof (tw_next _ Ht x (ex_intro _ _ Hk)) as Hxn. unfold entry. cbn [anodes].
    destruct (decide (x = d)) as [->|Hx].
    + rewrite Hd in Hk. simplify_eq. eexists. rewrite lookup_insert_eq. split; [done|]. rewrite lookup_insert_ne; [done|]. intros <-. by apply Hne.
    + exists k. rewrite !lookup_insert_ne by lia. done.
Qed.

Lemma a_make_ok t d name n t' c : tree_wf t → is_Some (anodes t !! d) → (t', Ok c) = a_make d name n t →
  ∃ ch, anodes t !! d = Some (ADir ch) ∧ c = anext t ∧ (n ≠ ADir ∅ → anodes t' !! c = Some n).
Proof.
  intros Ht [x Hx]. pose proof (tw_next _ Ht d (ex_intro _ _ Hx)) as Hdn. unfold a_make, a_add. cbn [anodes anext].
  rewrite (lookup_insert_ne _ (anext t) d) by lia. rewrite Hx. destruct x as [l|ch|l]; [done| |done]. intros [= -> ->].
  exists ch. split_and!; [done|done|]. intros _. cbn [anodes]. rewrite lookup_insert_ne by lia. apply lookup_insert_eq.
Qed.

Lemma a_walk_make t p d w n ch :
  tree_wf t → a_walk 1 p t = Ok d → anodes t !! d = Some (ADir ch) → a_walk 1 (p ++ [w]) (a_make d (to_string w) n t).1 = Ok (anext t).
Proof.
  intros Ht Hp Hd. destruct (a_make_entries t d (to_string w) n ch Ht Hd) as [Hnew Hkeep]. rewrite a_walk_snoc. exists d. split; [|done].
  eapply a_walk_keep; [done|]. intros q v k x -> Hq y Hy. apply Hkeep; [done|]. intros [-> _].
  pose proof (a_walk_unique t _ _ _ Ht Hp Hq) as E. apply (f_equal length) in E. rewrite length_app in E. cbn in E. lia.
Qed.

Lemma a_walk_ext t t' p ino : (∀ x m, a_child x m t' = a_child x m t) → a_walk ino p t' = a_walk ino p t.
Proof. intros He. revert ino. induction p as [|w p IH]; intros ino; cbn; [done|]. rewrite He. destruct (a_child ino _ t); [apply IH|done]. Qed.

(** ** Inodes *)
Definition mode_fits (n : TmpNode) : Prop :=
  match n_data n with
  | NFile _ => Z.land (n_mode n) S_IFMT = S_IFREG
  | NDir _ => Z.land (n_mode n) S_IFMT = S_IFDIR
  | NSymlink _ => Z.land (n_mode n) S_IFMT = S_IFLNK
  end.

Lemma type_bits t m : Z.land t S_IFMT = t → Z.land (Z.lor t (Z.land m 511)) S_IFMT = t.
Proof. intros Ht. rewrite Z.land_lor_distr_l, Ht, <- Z.land_assoc. change (Z.land 511 S_IFMT) with 0. by rewrite Z.land_0_r, Z.lor_0_r. Qed.

Section Walks.
Context {A : Type} `{FA : FrameAlloc A}.
Implicit Types (s : TmpState A) (sb : Z).

Definition modes_ok s : Prop := ∀ ino n, nodes s !! ino = Some n → mode_fits n.
Definition inode_at sb (c : Z) s (v : VInode) : Prop := ∃ i, make_inode c s = Ok i ∧ v = mkV (FsOps sb) i.
(** The state of the VFS: one tmpfs, mounted at the root. *)
Definition rooted sb s : Vfs (TmpState A) := mkVfs [mkMount root_path sb] s.

Lemma inode_at_node sb c s v : inode_at sb c s v →
  ∃ n, nodes s !! c = Some n ∧ v_ops v = FsOps sb ∧ i_ino (v_attr v) = c ∧ i_mode (v_attr v) = n_mode n.
Proof. intros (i & Hi & ->). unfold make_inode in Hi. destruct (nodes s !! c) as [n|]; simplify_eq. by exists n. Qed.

Lemma inode_at_exists sb c s : is_Some (anodes (abs s) !! c) → ∃ v, inode_at sb c s v.
Proof. rewrite abs_lookup. intros [x Hx]. unfold inode_at, make_inode. destruct (nodes s !! c); [eauto|done]. Qed.

Lemma lookup_child sb c s v w :
  inode_at sb c s v → i_lookup v w (rooted sb s) =
    Some (rooted sb s, match a_child c (to_string w) (abs s) with Ok x => with_ops sb (make_inode x s) | Err e => Err e end).
Proof.
  intros (n & _ & Hops & Hino & _)%inode_at_node. unfold i_lookup. rewrite Hops. unfold on_fs. cbn. rewrite Hino.
  unfold tmp_lookup. rewrite abs_child. by destruct (a_child c (to_string w) (abs s)).
Qed.

Lemma find_mount_rooted sb ps : Forall normal ps →
  ∃ rel, find_mount [mkMount root_path sb] (render ps) = Some (sb, rel) ∧ nonempty (split rel) = ps.
Proof.
  intros Hp. unfold find_mount. cbn [fold_left]. unfold better_mount.
  pose proof (proj2 (applies_prefix ps [] sb Hp (Forall_nil_2 _)) (prefix_nil _)) as Ha. change (render []) with root_path in Ha. rewrite Ha. cbn [mbind option_bind m_path m_sb]. eexists. split; [done|].
  apply (rel_parts [] ps Hp).
Qed.

Lemma mount_root_rooted sb s ps : Forall normal ps → tree_wf (abs s) →
  ∃ v rel, mount_root (render ps) (rooted sb s) = Some (rooted sb s, Ok (v, rel)) ∧ nonempty (split rel) = ps ∧ inode_at sb 1 s v.
Proof.
  intros Hp Ht. destruct (find_mount_rooted sb ps Hp) as (rel & Hm & Hrel). destruct (tw_root _ Ht) as [d Hd].
  destruct (inode_at_exists sb 1 s) as [v Hv]; [eauto|]. exists v, rel. split_and!; [|done|done].
  destruct Hv as (i & Hi & ->). unfold mount_root, mbind, vfs_bind, get_mounts. cbn [mounts rooted]. rewrite Hm.
  unfold on_fs. cbn [fsys rooted op_root tmpfs_ops]. unfold tmp_root. rewrite Hi. done.
Qed.

(** The walk of [create_file_at] and its like. *)
Lemma walk_ok sb s parts c v : tree_wf (abs s) → inode_at sb c s v →
  ∃ r, walk v parts (rooted sb s) = Some (rooted sb s, r) ∧
    match r, a_walk c parts (abs s) with Ok v', Ok c' => inode_at sb c' s v' | Err e, Err e' => e = e' | _, _ => False end.
Proof.
  intros Ht. revert c v. induction parts as [|w parts IH]; intros c v Hv; [by exists (Ok v)|]. cbn [walk a_walk].
  unfold mbind, vfs_bind. rewrite (lookup_child sb c s v w Hv). destruct (a_child c (to_string w) (abs s)) as [x|e] eqn:Hc; [|by exists (Err e)].
  apply a_child_entry in Hc. destruct (inode_at_exists sb x s (tw_exists _ Ht _ _ _ Hc)) as (v' & i & Hi & ->). rewrite Hi. cbn.
  destruct (IH x (mkV (FsOps sb) i)) as (r & -> & Hr); [by exists i|]. by exists r.
Qed.

Lemma parent_rooted sb s ps : Forall normal ps → tree_wf (abs s) →
  ∃ r, parent_inode (render ps) (rooted sb s) = Some (rooted sb s, r) ∧
    match r, a_walk 1 ps (abs s) with Ok v', Ok c' => inode_at sb c' s v' | Err e, Err e' => e = e' | _, _ => False end.
Proof.
  intros Hp Ht. destruct (mount_root_rooted sb s ps Hp Ht) as (v & rel & Hm & Hrel & Hv). unfold parent_inode, mbind, vfs_bind. rewrite Hm.
  cbn. rewrite Hrel. by apply walk_ok.
Qed.

(** The kinds of the nodes on a way: directories, and at the end what is
    there. *)
Lemma mode_of sb c s v : modes_ok s → inode_at sb c s v →
  match anodes (abs s) !! c with
  | Some (AFile _) => Z.land (i_mode (v_attr v)) S_IFMT = S_IFREG
  | Some (ADir _) => Z.land (i_mode (v_attr v)) S_IFMT = S_IFDIR
  | Some (ALink _) => Z.land (i_mode (v_attr v)) S_IFMT = S_IFLNK
  | None => False
  end.
Proof.
  intros Hm (n & Hn & _ & _ & ->)%inode_at_node. rewrite abs_lookup, Hn. cbn. unfold view. specialize (Hm c n Hn). unfold mode_fits in Hm.
  by destruct (n_data n).
Qed.

Definition is_link (t : tree) (c : Z) : bool := match anodes t !! c with Some (ALink _) => true | _ => false end.

Lemma link_mode sb c s v : modes_ok s → inode_at sb c s v → s_islnk (i_mode (v_attr v)) = is_link (abs s) c.
Proof.
  intros Hm Hv. pose proof (mode_of sb c s v Hm Hv) as H. unfold is_link, s_islnk. destruct (anodes (abs s) !! c) as [[]|]; [..|done]; by rewrite H.
Qed.

(** A way without a link at its end resolves to its end. *)
Lemma walk_links_ok e fl abs_ sb s parts c v c' : tree_wf (abs s) → modes_ok s → inode_at sb c s v →
  a_walk c parts (abs s) = Ok c' → is_link (abs s) c' && fl = false →
  ∃ v', walk_links e fl abs_ v parts (rooted sb s) = Some (rooted sb s, Ok (inl v')) ∧ inode_at sb c' s v'.
Proof.
  intros Ht Hm. revert c v. induction parts as [|w parts IH]; intros c v Hv Hw Hl.
  { injection Hw as <-. by exists v. }
  cbn [walk_links a_walk] in *. unfold mbind, vfs_bind. rewrite (lookup_child sb c s v w Hv).
  destruct (a_child c (to_string w) (abs s)) as [x|] eqn:Hc; [|done]. apply a_child_entry in Hc.
  destruct (inode_at_exists sb x s (tw_exists _ Ht _ _ _ Hc)) as (v' & i & Hi & ->). rewrite Hi. cbn [with_ops mbind result_bind].
  assert (inode_at sb x s (mkV (FsOps sb) i)) as Hx by (by exists i). rewrite (link_mode sb x s _ Hm Hx).
  assert (is_link (abs s) x && (fl || negb (bool_decide (parts = []))) = false) as ->.
  { destruct parts as [|w' parts]; [cbn in Hw; injection Hw as ->; rewrite bool_decide_true by done; by rewrite orb_false_r|].
    cbn in Hw. unfold is_link. unfold a_child in Hw. by destruct (anodes (abs s) !! x) as [[]|]. }
  by apply IH with x.
Qed.

Lemma resolve_rooted e fl sb s ps c n : Forall normal ps → tree_wf (abs s) → modes_ok s →
  a_walk 1 ps (abs s) = Ok c → is_link (abs s) c && fl = false →
  ∃ v, resolve_inode_inner (S n) e fl (render ps) (rooted sb s) = Some (rooted sb s, Ok v) ∧ inode_at sb c s v.
Proof.
  intros Hp Ht Hm Hw Hl. destruct (mount_root_rooted sb s ps Hp Ht) as (v & rel & Hmr & Hrel & Hv).
  cbn [resolve_inode_inner]. unfold mbind, vfs_bind. rewrite Hmr. cbn. rewrite Hrel.
  destruct (walk_links_ok e fl (render ps) sb s ps 1 v c Ht Hm Hv Hw Hl) as (v' & -> & Hv'). by exists v'.
Qed.
End Walks.

(** ** Modes stay those of the data *)
Section Modes.
Context {A : Type} `{FA : FrameAlloc A}.
Implicit Types (s : TmpState A) (sb : Z).

Lemma modes_insert s ino n m nx : modes_ok s → mode_fits n → modes_ok (mkTmp (A := A) (<[ino := n]> (nodes s)) nx m).
Proof. intros Hs Hn i k. cbn [nodes]. intros [[_ <-]|[_ Hk]]%lookup_insert_Some; [done|by eapply Hs]. Qed.

Lemma add_entry_modes dir name c s : modes_ok s → modes_ok (add_entry dir name c s).1.
Proof.
  intros Hs. unfold add_entry. destruct (nodes s !! dir) as [n|] eqn:Hn; [|done]. destruct (n_data n) eqn:Hd; [done| |done].
  cbn [fst]. apply modes_insert; [done|]. specialize (Hs dir n Hn). unfold mode_fits in *. by rewrite Hd in Hs.
Qed.

Lemma enter_modes dir name mode uid gid now d links s t :
  modes_ok s → Z.land t S_IFMT = t → (∀ n, n_data n = d → Z.land (n_mode n) S_IFMT = t → mode_fits n) →
  modes_ok (enter_new dir name (make_node (Z.lor t (Z.land mode 511)) uid gid now d links s)).1.
Proof.
  intros Hs Ht Hd. unfold make_node, enter_new.
  set (s1 := mkTmp _ _ _). assert (modes_ok s1) as H1.
  { apply modes_insert; [done|]. apply Hd; [done|]. cbn. by apply type_bits. }
  pose proof (add_entry_modes dir name (next_ino s) s1 H1) as H2. destruct (add_entry dir name (next_ino s) s1) as [s2 [?|?]]; exact H2.
Qed.

Lemma write_modes ino now data off s s' r : modes_ok s → tmp_write ino now data off s = Some (s', r) → modes_ok s'.
Proof.
  intros Hs. unfold tmp_write. case_match; [by intros [= <- _]|]. destruct (nodes s !! ino) as [n|] eqn:Hn; [|by intros [= <- _]].
  destruct (n_data n) as [f| |] eqn:Hd; [|by intros [= <- _]|by intros [= <- _]].
  destruct (file_write off data f (store s)) as [[[m f'] r']|]; [|done]. cbn. intros [= <- _]. apply modes_insert; [done|].
  specialize (Hs ino n Hn). unfold mode_fits in *. rewrite Hd in Hs. by destruct (is_ok r').
Qed.

Lemma truncate_modes ino now len s s' r : modes_ok s → tmp_truncate ino now len s = Some (s', r) → modes_ok s'.
Proof.
  intros Hs. unfold tmp_truncate. destruct (nodes s !! ino) as [n|] eqn:Hn; [|by intros [= <- _]].
  destruct (n_data n) as [f| |] eqn:Hd; [|by intros [= <- _]|by intros [= <- _]].
  destruct (file_truncate len f (store s)) as [[[m f'] r']|]; [|done]. cbn. intros [= <- _]. apply modes_insert; [done|].
  specialize (Hs ino n Hn). unfold mode_fits in *. rewrite Hd in Hs. by destruct (is_ok r').
Qed.

Lemma del_entry_modes dir name s : modes_ok s → modes_ok (del_entry dir name s).
Proof.
  intros Hs i k. unfold del_entry. cbn [nodes set_nodes]. intros Hk. apply lookup_alter_Some in Hk as [(-> & n & Hn & ->)|[_ Hk]]; [|by eapply Hs].
  specialize (Hs i n Hn). unfold mode_fits in *. by destruct (n_data n) eqn:Hd; rewrite ?Hd.
Qed.

Lemma remove_node_modes c s s' : modes_ok s → remove_node c s = Some s' → modes_ok s'.
Proof.
  intros Hs Hrun. assert (nodes s' = delete c (nodes s)) as E.
  { unfold remove_node in Hrun. destruct (n_data <$> nodes s !! c) as [[f| |]|]; [|by simplify_eq..].
    destruct (file_drop f (store s)); [|done]. by simplify_eq/=. }
  intros i k. rewrite E. intros [_ Hk]%lookup_delete_Some. by eapply Hs.
Qed.

Lemma step_modes op mode uid gid now s s' r : modes_ok s → fs_step op mode uid gid now s = Some (s', r) → modes_ok s'.
Proof.
  intros Hs. assert (∀ d name, modes_ok (del_entry d name s)) as Hdel by (intros; by apply del_entry_modes).
  destruct op as [ino off data|ino len|dir name|dir name|dir name target|dir name|dir name|dir old np new]; unfold fs_step.
  - destruct (tmp_write ino now data off s) as [[s1 r1]|] eqn:E; [|done]. intros [= <- _]. by eapply write_modes.
  - destruct (tmp_truncate ino now len s) as [[s1 r1]|] eqn:E; [|done]. intros [= <- _]. by eapply truncate_modes.
  - pose proof (enter_modes dir name mode uid gid now (NFile file_new) 1 s S_IFREG Hs eq_refl) as H. unfold tmp_create, make_file.
    destruct (enter_new _ _ _). intros [= <- _]. apply H. intros n Hd Hm. unfold mode_fits. by rewrite Hd.
  - pose proof (enter_modes dir name mode uid gid now (NDir ∅) 2 s S_IFDIR Hs eq_refl) as H. unfold tmp_mkdir, make_dir.
    destruct (enter_new _ _ _). intros [= <- _]. apply H. intros n Hd Hm. unfold mode_fits. by rewrite Hd.
  - pose proof (enter_modes dir name 511 uid gid now (NSymlink target) 1 s S_IFLNK Hs eq_refl) as H. unfold tmp_symlink, make_symlink.
    change (Z.land 511 511) with 511 in H. destruct (enter_new _ _ _). intros [= <- _]. apply H. intros n Hd Hm. unfold mode_fits. by rewrite Hd.
  - unfold tmp_unlink. destruct (child dir name s) as [c|]; [|by intros [= <- _]]. destruct (nodes s !! c) as [n|] eqn:Hn; [|by intros [= <- _]].
    assert (∀ o : option (TmpState A), (s ← o; Some (s, Ok tt)) = (match o with Some s => Some (s, Ok tt) | None => None end : option (TmpState A * result Z unit))) as Ho by (by intros []).
    destruct (n_data n) as [f|d|t] eqn:Hd; [|by intros [= <- _]|]; (case_match; [|intros [= <- _]; unfold set_nodes; apply (modes_insert (del_entry dir name s)); [by apply Hdel|];
      specialize (Hs c n Hn); unfold mode_fits in *; cbn; by rewrite Hd in *]);
      rewrite Ho; (destruct (remove_node c _) as [s1|] eqn:E; [|done]); intros [= <- _]; by eapply remove_node_modes, E.
  - unfold tmp_rmdir. destruct (child dir name s) as [c|]; [|by intros [= <- _]].
    destruct (n_data <$> nodes s !! c) as [[f|d|t]|]; [by intros [= <- _]| |by intros [= <- _]|by intros [= <- _]].
    case_bool_decide; [|by intros [= <- _]]. destruct (remove_node c _) as [s1|] eqn:E; [|done]. intros [= <- _]. by eapply remove_node_modes, E.
  - unfold tmp_rename. destruct (child dir old s) as [c|]; [|by intros [= <- _]].
    pose proof (add_entry_modes np new c _ (Hdel dir old)) as H. destruct (add_entry np new c _). by intros [= <- _].
Qed.

Lemma run_modes cs s s' rs : modes_ok s → fs_run cs s = Some (s', rs) → modes_ok s'.
Proof.
  revert s rs. induction cs as [|c cs IH]; intros s rs Hs; cbn [fs_run]; [by intros [= <- _]|].
  destruct (fs_step _ _ _ _ _ s) as [[s1 r]|] eqn:E; [|done]. cbn. destruct (fs_run cs s1) as [[s2 rs']|] eqn:E2; [|done].
  cbn. intros [= <- _]. eapply IH; [|done]. by eapply step_modes.
Qed.

Lemma modes_new (st : Store A) : modes_ok (tmp_new st).
Proof. intros i n. cbn [nodes tmp_new]. intros [_ <-]%lookup_singleton_Some. done. Qed.
End Modes.

(** ** Creating, writing and opening again *)
Section Paths.
Context {A : Type} `{FA : FrameAlloc A}.
Implicit Types (s : TmpState A) (sb : Z) (e : Env).

(** A process at the root of the file system, outside of the table's lock. *)
Definition plain e : Prop := table_held e = false ∧ effective_root e = root_path.

Lemma abs_plain {F} e cwd p (w : Vfs F) : plain e → Forall normal cwd →
  abs_path e (render cwd) p w = Some (w, Ok (render (resolve_dots (if starts_with p root_path then [] else cwd) p))).
Proof. intros [Hh Hr] Hc. unfold abs_path. by rewrite Hh, Hr, abs_in_root. Qed.

Lemma plain_normal cwd p : Forall normal cwd → Forall normal (resolve_dots (if starts_with p root_path then [] else cwd) p).
Proof. intros Hc. apply resolve_dots_normal. by destruct (starts_with p root_path). Qed.

(** What [create_file_at] does when it succeeds. *)
Lemma create_at_spec e cwd p parent name mode sb s F w fd :
  plain e → Forall normal cwd → split_path p = (parent, name) → normal name →
  fs_rep s F → tree_wf (abs s) → modes_ok s → next_ino s < 2 ^ 64 - 1 →
  create_file_at e (render cwd) p mode (rooted sb s) = Some (w, Ok fd) →
  ∃ s1 ps, w = rooted sb s1 ∧ o_kind fd = FdRegular ∧ o_offset fd = 0 ∧ v_ops (o_inode fd) = FsOps sb ∧
    i_ino (v_attr (o_inode fd)) = next_ino s ∧
    ps = resolve_dots (if starts_with p root_path then [] else cwd) p ∧ a_walk 1 ps (abs s1) = Ok (next_ino s) ∧
    anodes (abs s1) !! next_ino s = Some (AFile []) ∧ (∃ F', fs_rep s1 F') ∧ tree_wf (abs s1) ∧ modes_ok s1.
Proof.
  intros He Hc Hsp Hn Hs Ht Hm Hnx. unfold create_file_at. rewrite Hsp. unfold mbind, vfs_bind. rewrite abs_plain by done.
  destruct (parent_rooted sb s _ (plain_normal cwd parent Hc) Ht) as (r & -> & Hr). destruct r as [v|?]; [|done].
  destruct (a_walk 1 _ (abs s)) as [d|] eqn:Hwalk; [|done]. pose proof (inode_at_node _ _ _ _ Hr) as (n & Hnode & Hops & Hino & _).
  unfold i_create. rewrite Hops. unfold on_fs. cbn [fsys rooted op_create tmpfs_ops]. unfold guarded. rewrite (proj1 He), Hino.
  pose proof (step_refines (OCreate d (to_string name)) mode (e_uid e) (e_gid e) (e_now e) s F Hs Ht Hnx I) as (s1 & r1 & F1 & Hstep & Hs1 & _ & Href).
  destruct Href as [Href|(_ & _ & Hlow)]; [|cbn in Hlow; lia].
  pose proof (enter_modes d (to_string name) mode (e_uid e) (e_gid e) (e_now e) (NFile file_new) 1 s S_IFREG Hm eq_refl) as Hmodes.
  unfold fs_step in Hstep. unfold tmp_create, make_file in *. destruct (enter_new d (to_string name) _) as [s1' ri] eqn:Hnew. simplify_eq.
  destruct ri as [i|?]; [|done]. cbn [ret_ino mbind result_bind] in Href.
  cbn [tree_step] in Href. apply a_make_ok in Href as Hok; [|done|rewrite abs_lookup, Hnode; eauto]. destruct Hok as (ch & Hch & Hi & Hfile).
  cbn [with_ops mbind result_bind mret vfs_ret]. rewrite abs_plain by done. intros [= <- <-]. cbn [o_kind o_offset o_inode v_ops v_attr].
  change (anext (abs s)) with (next_ino s) in *.
  exists s1, (resolve_dots (if starts_with p root_path then [] else cwd) p). split_and!; try done.
  - rewrite (split_path_spec cwd p parent name) by done.
    pose proof (a_walk_make (abs s) _ _ name (AFile []) ch Ht Hwalk Hch) as Hway. by rewrite <- Href in Hway.
  - rewrite <- Hi. by apply Hfile.
  - by exists F1.
  - pose proof (tree_step_wf (OCreate (i_ino (v_attr v)) (to_string name)) (abs s) Ht) as Hwf. cbn [tree_step] in Hwf. by rewrite <- Href in Hwf.
  - apply Hmodes. intros k Hk Hmode. unfold mode_fits. by rewrite Hk.
Qed.

(** Opening a path that leads to a file. *)
Lemma open_file build e cwd p mode sb s c l :
  plain e → Forall normal cwd →
  handle_virtual_fs_path build (render (resolve_dots (if starts_with p root_path then [] else cwd) p)) = None →
  tree_wf (abs s) → modes_ok s → a_walk 1 (resolve_dots (if starts_with p root_path then [] else cwd) p) (abs s) = Ok c →
  anodes (abs s) !! c = Some (AFile l) →
  ∃ fd, open build e (render cwd) p 0 mode (rooted sb s) = Some (rooted sb s, Ok fd) ∧ o_kind fd = FdRegular ∧ o_offset fd = 0 ∧
    v_ops (o_inode fd) = FsOps sb ∧ i_ino (v_attr (o_inode fd)) = c.
Proof.
  intros He Hc Hv Ht Hm Hw Hf. unfold open, attempt, resolve_inode, mbind, vfs_bind. rewrite abs_plain by done. cbn beta iota.
  rewrite Hv. cbn beta iota. rewrite abs_plain by done. cbn beta iota.
  destruct (resolve_rooted e true sb s _ c MAX_SYMLINK_DEPTH (plain_normal cwd p Hc) Ht Hm Hw) as (v & -> & Hvi);
    [unfold is_link; by rewrite Hf|].
  cbn [has_flag]. pose proof (mode_of sb c s v Hm Hvi) as Hmode. rewrite Hf in Hmode.
  destruct (inode_at_node sb c s v Hvi) as (n & _ & Hops & Hino & _).
  eexists. split; [done|]. cbn [o_kind o_offset o_inode]. split_and!; try done. unfold fd_kind_for. by rewrite Hmode.
Qed.

(** C11. Over a tmpfs mounted at "/": when creating a file under a path
    succeeds, and writing to the descriptor that was returned does, then
    opening the path again, from the same working directory, succeeds and
    reads back the bytes written, whatever "." and ".." the path has,
    whatever was under the name before, and whoever opens it. *)
Theorem create_write_open_read build D e e' cwd p parent name mode data sb s F w1 fd w2 k :
  plain e → plain e' → Forall normal cwd → split_path p = (parent, name) → normal name →
  handle_virtual_fs_path build (render (resolve_dots (if starts_with p root_path then [] else cwd) p)) = None →
  fs_rep s F → tree_wf (abs s) → modes_ok s → next_ino s < 2 ^ 64 - 1 →
  create_file_at e (render cwd) p mode (rooted sb s) = Some (w1, Ok fd) →
  write_fd D e fd data w1 = Some (w2, Ok k) →
  ∃ fd', open build e' (render cwd) p 0 0 w2 = Some (w2, Ok fd') ∧ read_fd D fd' k w2 = Some (w2, Ok data).
Proof.
  intros He He' Hc Hsp Hn Hv Hs Ht Hm Hnx Hcr Hwr.
  destruct (create_at_spec e cwd p parent name mode sb s F w1 fd He Hc Hsp Hn Hs Ht Hm Hnx Hcr)
    as (s1 & ps & -> & Hkind & Hoff & Hops & Hino & -> & Hwalk & Hfile & (F1 & Hs1) & Ht1 & Hm1).
  unfold write_fd in Hwr. rewrite Hkind in Hwr. unfold i_write in Hwr. rewrite Hops, Hoff in Hwr. unfold on_fs in Hwr.
  cbn [fsys rooted mounts op_write tmpfs_ops] in Hwr. rewrite Hino in Hwr.
  destruct (tmp_write (next_ino s) (e_now e) data (Z.to_nat 0) s1) as [[s2 r]|] eqn:Hw; [|done]. simplify_eq.
  destruct (write_then_read (next_ino s) (e_now e) data (Z.to_nat 0) s1 s2 F1 k Hs1 Hw) as (-> & Hrd & _ & _ & (F2 & Hs2) & Hstep).
  pose proof (write_modes _ _ _ _ _ _ _ Hm1 Hw) as Hm2.
  pose proof (tree_step_wf (OWrite (next_ino s) (Z.to_nat 0) data) (abs s1) Ht1) as Ht2. rewrite <- Hstep in Ht2. cbn [fst] in Ht2.
  cbn [tree_step] in Hstep. destruct (2 ^ 64 <=? _); [done|]. rewrite Hfile in Hstep. apply pair_eq in Hstep as [Ha _].
  assert (∀ x m, a_child x m (abs s2) = a_child x m (abs s1)) as Hch.
  { intros x m. unfold a_child. rewrite Ha. cbn [anodes]. destruct (decide (x = next_ino s)) as [->|]; [by rewrite lookup_insert_eq, Hfile|by rewrite lookup_insert_ne]. }
  rewrite <- (a_walk_ext _ _ _ _ Hch) in Hwalk.
  assert (anodes (abs s2) !! next_ino s = Some (AFile (overwrite [] (Z.to_nat 0) data))) as Hf2 by (rewrite Ha; apply lookup_insert_eq).
  destruct (open_file build e' cwd p 0 sb s2 (next_ino s) _ He' Hc Hv Ht2 Hm2 Hwalk Hf2) as (fd' & Hopen & Hk' & Ho' & Hops' & Hi').
  exists fd'. change (mkVfs [mkMount root_path sb] s2) with (rooted sb s2). split; [exact Hopen|].
  unfold read_fd. rewrite Hk'. unfold i_read. rewrite Hops', Ho'. unfold on_fs. cbn [fsys rooted op_read tmpfs_ops]. rewrite Hi', Hrd. done.
Qed.
End Paths.

(** ** Names that no path has *)
Section Dots.
Context {A : Type} `{FA : FrameAlloc A}.
Implicit Types (s : TmpState A) (sb : Z) (e : Env).

(** [mkdir] takes the last part of the path as the name, also when it is
    empty, "." or "..": mkdir("d/..") succeeds and makes an entry ".." in d
    (mkdir("d/") one with the empty name), and no path leads to the new
    directory. *)
Theorem mkdir_dots_unreachable e cwd p parent name mode sb s F w :
  plain e → Forall normal cwd → split_path p = (parent, name) → name = [] ∨ name = of_string "." ∨ name = of_string ".." →
  fs_rep s F → tree_wf (abs s) → next_ino s < 2 ^ 64 - 1 →
  mkdir e (render cwd) p mode (rooted sb s) = Some (w, Ok tt) →
  ∃ s', w = rooted sb s' ∧ is_Some (nodes s' !! next_ino s) ∧
    ∀ ps, Forall normal ps → a_walk 1 ps (abs s') ≠ Ok (next_ino s).
Proof.
  intros He Hc Hsp Hdots Hs Ht Hnx. unfold mkdir, at_parent. rewrite Hsp. unfold mbind, vfs_bind. rewrite abs_plain by done.
  destruct (parent_rooted sb s _ (plain_normal cwd parent Hc) Ht) as (r & -> & Hr). destruct r as [v|?]; [|done].
  destruct (a_walk 1 _ (abs s)) as [d|] eqn:Hwalk; [|done]. pose proof (inode_at_node _ _ _ _ Hr) as (n & Hnode & Hops & Hino & _).
  unfold i_mkdir. rewrite Hops. unfold on_fs. cbn [fsys rooted op_mkdir tmpfs_ops]. unfold guarded. rewrite (proj1 He), Hino.
  pose proof (step_refines (OMkdir d (to_string name)) mode (e_uid e) (e_gid e) (e_now e) s F Hs Ht Hnx I) as (s1 & r1 & F1 & Hstep & Hs1 & _ & Href).
  destruct Href as [Href|(_ & _ & Hlow)]; [|cbn in Hlow; lia]. unfold fs_step in Hstep.
  destruct (tmp_mkdir d (to_string name) mode (e_uid e) (e_gid e) (e_now e) s) as [s1' ri]. simplify_eq. destruct ri as [i|?]; [|done].
  cbn [ret_ino mbind result_bind tree_step] in Href. apply a_make_ok in Href as Hok; [|done|rewrite abs_lookup, Hnode; eauto].
  destruct Hok as (ch & Hch & Hi & _). destruct (a_make_entries (abs s) _ (to_string name) (ADir ∅) ch Ht Hch) as [Hnew _].
  pose proof (tree_step_wf (OMkdir (i_ino (v_attr v)) (to_string name)) (abs s) Ht) as Hwf. cbn [tree_step] in Hwf.
  rewrite <- Href in Hnew, Hwf. cbn [fst] in Hnew, Hwf. change (anext (abs s)) with (next_ino s) in *.
  cbn [with_ops mbind result_bind mret vfs_ret]. intros [= <-]. exists s1. split_and!; [done| |].
  - destruct (tw_exists _ Hwf _ _ _ Hnew) as [x Hx]. rewrite abs_lookup in Hx. destruct (nodes s1 !! next_ino s); [eauto|done].
  - intros ps Hps Hw. destruct ps as [|x ps _] using rev_ind.
    + injection Hw as Hw. rewrite <- Hw in Hnew. by destruct (tw_not_root _ Hwf _ _ Hnew).
    + apply a_walk_snoc in Hw as (d' & _ & Hent). destruct (tw_unique _ Hwf _ _ _ _ _ Hnew Hent) as [_ E%to_string_inj]. subst x.
      apply Forall_app in Hps as [_ [H1 H2 H3 _]%Forall_singleton]. by destruct Hdots as [?|[?|?]].
Qed.
End Dots.

(** ** Symbolic links *)
Section Links.
Context {A : Type} `{FA : FrameAlloc A}.
Implicit Types (s : TmpState A) (sb : Z) (e : Env).

(** A link with an absolute target, at the end of a way: resolution goes on
    at the target. *)
Lemma walk_links_follow e abs_ sb s ps w d c v t : tree_wf (abs s) → modes_ok s → inode_at sb 1 s v →
  a_walk 1 ps (abs s) = Ok d → entry (abs s) d (to_string w) c → anodes (abs s) !! c = Some (ALink (to_string t)) →
  starts_with t root_path = true →
  walk_links e true abs_ v (ps ++ [w]) (rooted sb s) = Some (rooted sb s, Ok (inr (canonicalize t))).
Proof.
  intros Ht Hm. generalize 1. intros r Hv Hps He Hc Hab. revert r v Hv Hps.
  induction ps as [|x ps IH]; intros r v Hv Hps; cbn [app walk_links a_walk] in *; unfold mbind, vfs_bind; rewrite (lookup_child sb r s v _ Hv).
  - injection Hps as ->. rewrite (proj2 (a_child_entry _ _ _ _) He).
    destruct (inode_at_exists sb c s (ex_intro _ _ Hc)) as (v' & i & Hi & ->). rewrite Hi. cbn [with_ops mbind result_bind].
    assert (inode_at sb c s (mkV (FsOps sb) i)) as Hx by (by exists i). rewrite (link_mode sb c s _ Hm Hx). unfold is_link. rewrite Hc. cbn [andb orb].
    destruct (inode_at_node sb c s _ Hx) as (n & Hn & _ & Hino & _). cbn [v_attr] in Hino.
    unfold i_readlink, on_fs, mbind, vfs_bind. cbn [v_ops v_attr fsys rooted op_readlink tmpfs_ops]. rewrite Hino. unfold tmp_readlink. rewrite Hn. cbn.
    rewrite abs_lookup, Hn in Hc. cbn in Hc. unfold view in Hc. destruct (n_data n) eqn:Hd; try done. injection Hc as ->. cbn.
    unfold of_string, to_string. rewrite String.list_ascii_of_string_of_list_ascii. rewrite Hab. done.
  - destruct (a_child r (to_string x) (abs s)) as [y|] eqn:Hy; [|done]. apply a_child_entry in Hy.
    destruct (inode_at_exists sb y s (tw_exists _ Ht _ _ _ Hy)) as (v' & i & Hi & ->). rewrite Hi. cbn [with_ops mbind result_bind].
    assert (inode_at sb y s (mkV (FsOps sb) i)) as Hx by (by exists i). rewrite (link_mode sb y s _ Hm Hx).
    assert (is_link (abs s) y = false) as ->.
    { unfold is_link. destruct ps as [|x' ps]; cbn in Hps; [injection Hps as ->; by destruct He as (ch & -> & _)|].
      unfold a_child in Hps. by destruct (anodes (abs s) !! y) as [[]|]. }
    cbn [andb]. by apply IH with y.
Qed.

Lemma resolve_follow n e sb s ps w d c t : Forall normal (ps ++ [w]) → tree_wf (abs s) → modes_ok s →
  a_walk 1 ps (abs s) = Ok d → entry (abs s) d (to_string w) c → anodes (abs s) !! c = Some (ALink (to_string t)) →
  starts_with t root_path = true →
  resolve_inode_inner (S n) e true (render (ps ++ [w])) (rooted sb s) = resolve_inode_inner n e true (canonicalize t) (rooted sb s).
Proof.
  intros Hp Ht Hm Hw He Hc Hab. destruct (mount_root_rooted sb s _ Hp Ht) as (v & rel & Hmr & Hrel & Hv).
  cbn [resolve_inode_inner]. unfold mbind at 1, vfs_bind at 1. rewrite Hmr. cbn beta iota. rewrite Hrel.
  unfold mbind, vfs_bind. by rewrite (walk_links_follow e _ sb s ps w d c v t Ht Hm Hv Hw He Hc Hab).
Qed.

(** C34. A chain of links in the root directory, each with the absolute path of
    the next as its target: resolving the first one leads to the end of the
    chain if there are 40 links at most, and is ELOOP if there are more, so
    every circle of links ends with ELOOP. *)
Theorem symlink_chain e cwd sb s (name : nat → path) (ino : nat → Z) k :
  plain e → Forall normal cwd → tree_wf (abs s) → modes_ok s →
  (∀ i, (i ≤ k)%nat → normal (name i) ∧ entry (abs s) 1 (to_string (name i)) (ino i)) →
  (∀ i, (i < k)%nat → anodes (abs s) !! ino i = Some (ALink (to_string (SLASH :: name (S i))))) →
  ((k ≤ 40)%nat → is_link (abs s) (ino k) = false →
     ∃ v, resolve_inode e (render cwd) (SLASH :: name 0%nat) (rooted sb s) = Some (rooted sb s, Ok v) ∧ inode_at sb (ino k) s v) ∧
  ((40 < k)%nat → resolve_inode e (render cwd) (SLASH :: name 0%nat) (rooted sb s) = Some (rooted sb s, Err ELOOP)).
Proof.
  intros He Hc Ht Hm Hent Hlink.
  assert (∀ n i, (i + n ≤ k)%nat → ∀ m, resolve_inode_inner (n + m) e true (render [name i]) (rooted sb s) =
    resolve_inode_inner m e true (render [name (i + n)%nat]) (rooted sb s)) as Hchain.
  { induction n as [|n IH]; intros i Hi m; [by rewrite Nat.add_0_r|]. cbn [Nat.add].
    destruct (Hent i) as [Hn Hen]; [lia|]. destruct (Hent (S i)) as [Hn' _]; [lia|].
    change [name i] with ([] ++ [name i]). rewrite (resolve_follow (n + m) e sb s [] (name i) 1 (ino i) (SLASH :: name (S i))); try done;
      [|by apply Forall_singleton|apply Hlink; lia].
    rewrite canonicalize_resolve. change (resolve_dots [] (SLASH :: name (S i))) with (resolve_dots [] (name (S i))). rewrite resolve_word by done.
    cbn [app]. rewrite IH by lia. by rewrite Nat.add_succ_r. }
  destruct (Hent 0%nat) as [Hn0 _]; [lia|]. unfold resolve_inode, mbind, vfs_bind. rewrite abs_plain by done. cbn beta iota. change (starts_with (SLASH :: name 0%nat) root_path) with true. cbn iota.

  change (resolve_dots [] (SLASH :: name 0%nat)) with (resolve_dots [] (name 0%nat)). rewrite (resolve_word [] (name 0%nat)) by exact Hn0. cbn [app]. split.
  - intros Hk Hlast. destruct (Hent k) as [Hnk Hek]; [lia|]. replace (S MAX_SYMLINK_DEPTH) with (k + S (40 - k))%nat by (unfold MAX_SYMLINK_DEPTH; lia).
    rewrite Hchain by lia. apply resolve_rooted; [by apply Forall_singleton|done|done| |by rewrite Hlast].
    apply (proj2 (a_walk_snoc 1 [] (name (0 + k)%nat) (abs s) (ino k))). by exists 1.
  - intros Hk. replace (S MAX_SYMLINK_DEPTH) with (41 + 0)%nat by done. rewrite Hchain by lia. done.
Qed.

(** The target of an absolute link is not taken below the root of the
    process: with the root /j, a link /j/l to "/t" leads to /t outside. *)
Theorem symlink_escapes_root e sb s j l t d c x :
  table_held e = false → effective_root e = render [j] → normal j → normal l → normal t → tree_wf (abs s) → modes_ok s →
  entry (abs s) 1 (to_string j) d → entry (abs s) d (to_string l) c → anodes (abs s) !! c = Some (ALink (to_string (SLASH :: t))) →
  entry (abs s) 1 (to_string t) x → is_link (abs s) x = false →
  ∃ v, resolve_inode e (render [j]) (SLASH :: l) (rooted sb s) = Some (rooted sb s, Ok v) ∧ inode_at sb x s v.
Proof.
  intros Hh Hr Hj Hl Ht Hwf Hm Hjd Hlc Hc Htx Hx. unfold resolve_inode, abs_path, mbind, vfs_bind. rewrite Hh, Hr.
  rewrite abs_in_jail by (done || by apply Forall_singleton). change (starts_with (SLASH :: l) root_path) with true. cbn zeta iota.
  change (resolve_dots [j] (SLASH :: l)) with (resolve_dots [j] l). rewrite (resolve_word [j] l) by exact Hl. cbn [app].
  assert (starts_with (render [j; l]) (render [j]) = true) as ->.
  { apply bool_decide_true. exists (SLASH :: l). unfold render, tail. cbn. by rewrite !app_nil_r. }
  cbn [mret vfs_ret]. change [j; l] with ([j] ++ [l]). rewrite (resolve_follow MAX_SYMLINK_DEPTH e sb s [j] l d c (SLASH :: t)); try done.
  - rewrite canonicalize_resolve. change (resolve_dots [] (SLASH :: t)) with (resolve_dots [] t). rewrite resolve_word by done. cbn [app].
    apply (resolve_rooted e true sb s [t] x 39); [by apply Forall_singleton|done|done| |by rewrite Hx].
    apply (proj2 (a_walk_snoc 1 [] t (abs s) x)). by exists 1.
  - apply Forall_cons. split; [done|by apply Forall_singleton].
  - apply (proj2 (a_walk_snoc 1 [] j (abs s) d)). by exists 1.
Qed.
End Links.

(** ** Concrete runs *)
Definition demo_env : Env := mkEnv root_path root_path 0 0 7 false.
Definition no_devices {F} : Devices (F := F) :=
  mkDevices (λ _ _ _, fail EBADF) (λ _ _ _, fail EBADF) (λ _ _ _, fail EBADF) (λ _ _ _, fail EBADF).
Definition is_fine {S B} (r : option (S * result Z B)) : bool := match r with Some (_, Ok _) => true | _ => false end.
Lemma is_fine_inv {S B} (r : option (S * result Z B)) : is_fine r = true → ∃ w b, r = Some (w, Ok b).
Proof. destruct r as [[w [b|]]|]; [eauto|done|done]. Qed.

Definition demo_links : TmpState (list Z) :=
  from_option fst (tmp_new demo_store)
    (fs_run [mkCall (OMkdir 1 "j") 511 0 0 7; mkCall (OSymlink 2 "l" "/t") 0 0 0 7; demo_create "t"; mkCall (OSymlink 1 "m" "/t") 0 0 0 7] (tmp_new demo_store)).

Lemma demo_fs_ok cs s rs : (length cs < 10)%nat → Forall (λ c, op_fits (c_op c)) cs → fs_run cs (tmp_new demo_store) = Some (s, rs) →
  ∃ F, fs_rep s F ∧ tree_wf (abs s) ∧ modes_ok s.
Proof.
  intros Hl Hfit Hrun. destruct demo_store_ok as [Ha Hst]. destruct (abs_new demo_store _ Ha Hst) as [Hs Ht].
  destruct (run_refines cs (tmp_new demo_store) _ Hs Ht) as (s' & rs' & F & Hrun' & _ & Hs' & Ht' & _); [cbn; lia|done|].
  rewrite Hrun in Hrun'. simplify_eq. exists F. split_and!; [done|done|]. eapply run_modes; [|done]. apply modes_new.
Qed.

Lemma demo_links_ok : ∃ F, fs_rep demo_links F ∧ tree_wf (abs demo_links) ∧ modes_ok demo_links.
Proof.
  unfold demo_links. destruct (fs_run _ _) as [[s rs]|] eqn:E; [by eapply demo_fs_ok in E; [|cbn; lia|by repeat constructor]|].
  destruct (demo_fs_ok [] (tmp_new demo_store) []) as (F & HF); [cbn; lia|done|done|by exists F].
Qed.

Lemma word_normal (w : path) : bool_decide (w ≠ [] ∧ w ≠ of_string "." ∧ w ≠ of_string ".." ∧ SLASH ∉ w) = true → normal w.
Proof. intros (?&?&?&?)%bool_decide_eq_true. by split. Qed.

Lemma demo_entry d name c : child d name demo_links = Ok c → entry (abs demo_links) d name c.
Proof. rewrite abs_child. apply a_child_entry. Qed.

Lemma create_write_open_read_witness :
  ∃ w1 fd w2 k fd', create_file_at demo_env root_path (of_string "x/../f") 420 (rooted 1 (tmp_new demo_store)) = Some (w1, Ok fd) ∧
    write_fd no_devices demo_env fd [72; 105] w1 = Some (w2, Ok k) ∧
    open (λ _, []) demo_env root_path (of_string "x/../f") 0 0 w2 = Some (w2, Ok fd') ∧ read_fd no_devices fd' k w2 = Some (w2, Ok [72; 105]).
Proof.
  set (c := create_file_at demo_env root_path (of_string "x/../f") 420 (rooted 1 (tmp_new demo_store))).
  destruct (is_fine_inv c) as (w1 & fd & H1); [vm_compute; reflexivity|].
  destruct (is_fine_inv (match c with Some (w, Ok fd) => write_fd no_devices demo_env fd [72; 105] w | _ => None end)) as (w2 & k & H2);
    [vm_compute; reflexivity|]. rewrite H1 in H2.
  destruct (demo_fs_ok [] (tmp_new demo_store) []) as (F & Hs & Ht & Hm); [cbn; lia|done|done|].
  destruct (create_write_open_read (λ _, []) no_devices demo_env demo_env [] (of_string "x/../f") (of_string "x/..") (of_string "f") 420 [72; 105] 1
    (tmp_new demo_store) F w1 fd w2 k) as (fd' & H3 & H4);
    [done|done|by apply Forall_nil_2|done|by apply word_normal|reflexivity|exact Hs|exact Ht|exact Hm|cbn; lia|exact H1|exact H2|].
  exists w1, fd, w2, k, fd'. split_and!; [exact H1|exact H2|exact H3|exact H4].
Defined.

Lemma mkdir_dots_unreachable_witness :
  ∃ s', mkdir demo_env root_path (of_string "/j/..") 511 (rooted 1 demo_links) = Some (rooted 1 s', Ok tt) ∧
    ∀ ps, Forall normal ps → a_walk 1 ps (abs s') ≠ Ok 6.
Proof.
  destruct demo_links_ok as (F & Hs & Ht & _). set (c := mkdir demo_env root_path (of_string "/j/..") 511 (rooted 1 demo_links)).
  destruct (is_fine_inv c) as (w & [] & H1); [vm_compute; reflexivity|].
  destruct (mkdir_dots_unreachable demo_env [] (of_string "/j/..") (of_string "/j") (of_string "..") 511 1 demo_links F w) as (s' & -> & _ & Hno);
    [done|by apply Forall_nil_2|done|by right; right|exact Hs|exact Ht|vm_compute; done|exact H1|].
  exists s'. split; [exact H1|exact Hno].
Defined.

Lemma symlink_chain_witness :
  ∃ v, resolve_inode demo_env root_path (of_string "/m") (rooted 1 demo_links) = Some (rooted 1 demo_links, Ok v) ∧ inode_at 1 4 demo_links v.
Proof.
  destruct demo_links_ok as (F & Hs & Ht & Hm).
  destruct (symlink_chain demo_env [] 1 demo_links (λ i, match i with O => of_string "m" | _ => of_string "t" end)
    (λ i, match i with O => 5 | _ => 4 end) 1) as [Hok _]; [done|by apply Forall_nil_2|exact Ht|exact Hm| | |].
  - intros [|i] _; (split; [by apply word_normal|apply demo_entry; vm_compute; reflexivity]).
  - intros [|i] Hi; [vm_compute; reflexivity|lia].
  - apply Hok; [lia|vm_compute; reflexivity].
Defined.

Lemma symlink_escapes_root_witness :
  ∃ v, resolve_inode (mkEnv root_path (of_string "/j") 0 0 7 false) (of_string "/j") (of_string "/l") (rooted 1 demo_links) =
    Some (rooted 1 demo_links, Ok v) ∧ inode_at 1 4 demo_links v.
Proof.
  destruct demo_links_ok as (F & Hs & Ht & Hm).
  apply (symlink_escapes_root (mkEnv root_path (of_string "/j") 0 0 7 false) 1 demo_links (of_string "j") (of_string "l") (of_string "t") 2 3 4);
    [done|done|by apply word_normal..|exact Ht|exact Hm| | | | |];
    first [apply demo_entry; vm_compute; reflexivity|vm_compute; reflexivity].
Defined.
