(* ===== verification/VfsCalls.v ===== *)
(** * The system calls on files

    Models the file calls of kernel/src/syscall/handlers.rs ([sys_read] to
    [sys_renameat2], [sys_creat], [sys_chroot]) with [read_cstr] and the
    pointer check of kernel/src/security/mod.rs, over Vfs.  The state is the
    task that calls (its directories and open files; a task has its own
    descriptor table), the file systems, and memory as one function from
    addresses to bytes: a call that does not check its pointer writes where
    it points.  [None] is a call that does not return. *)
From S2P Require Import Prelude Process Tmpfs Vfs.
From Stdlib Require Import Ascii.

Definition E_FAULT : Z := -14.
Definition E_BADF : Z := -9.
Definition AT_FDCWD : Z := -100.
Definition O_WRONLY : Z := 1.
Definition ENAMETOOLONG : Z := 36.
Definition vfs_err (e : Z) : Z := - e.

(** ** Memory *)
Definition mem_read (m : Z → Z) (a : Z) (n : nat) : list Z := map (λ i, m (a + Z.of_nat i)) (List.seq 0 n).
Definition mem_write (m : Z → Z) (a : Z) (bs : list Z) : Z → Z :=
  λ x, if decide (a ≤ x < a + Z.of_nat (length bs)) then nth (Z.to_nat (x - a)) bs 0 else m x.

Definition USER_END : Z := 0x800000000000.
Definition verify_user_ptr (asi : bool) (regions : list (Z * Z)) (ptr : Z) (len : Z) : bool :=
  if ptr =? 0 then len =? 0
  else if USER_END <=? ptr then false
  else if len =? 0 then true
  else
    let end_ := ptr + len in
    if 2 ^ 64 <=? end_ then false
    else if USER_END <? end_ then false
    else if negb asi then true
    else existsb (λ '(start, stop), (start <=? ptr) && (end_ <=? stop)) regions.

(** [s.push(c as char)]: a byte above 127 becomes two. *)
Definition push_char (c : Z) : list Z := if c <? 128 then [c] else [Z.lor 192 (Z.shiftr c 6); Z.lor 128 (Z.land c 63)].
Definition byte_char (z : Z) : ascii := ascii_of_nat (Z.to_nat z).
(** The loop of [read_cstr] pushes at least a byte per round and gives up
    above 4096. *)
Fixpoint cstr_loop (fuel : nat) (m : Z → Z) (p : Z) (s : list Z) : option (list Z) :=
  match fuel with
  | O => None
  | S fuel =>
      let c := m p in
      if c =? 0 then Some s
      else
        let s := s ++ push_char c in
        if (4096 <? length s)%nat then None else cstr_loop fuel m (p + 1) s
  end.
Definition read_cstr (asi : bool) (regions : list (Z * Z)) (m : Z → Z) (ptr : Z) : option path :=
  if ptr =? 0 then None
  else if negb (verify_user_ptr asi regions ptr 1) then None
  else s ← cstr_loop (Z.to_nat 4098) m ptr []; Some (map byte_char s).

(** ** The task *)
Record Task := mkTask {
  t_cwd : path;
  t_root : path;
  t_mnt_root : path;
  t_uid : Z;
  t_gid : Z;
  t_fds : gmap Z OpenFile;
  t_next_fd : Z;
  t_regions : list (Z * Z);
}.
Record Sys (F : Type) := mkSys { s_vfs : Vfs F; s_task : Task; s_mem : Z → Z; s_now : Z; s_asi : bool }.
Arguments mkSys {_} _ _ _ _ _.
Arguments s_vfs {_} _.
Arguments s_task {_} _.
Arguments s_mem {_} _.
Arguments s_now {_} _.
Arguments s_asi {_} _.

Definition task_fds (fds : gmap Z OpenFile) (next : Z) (t : Task) : Task :=
  mkTask (t_cwd t) (t_root t) (t_mnt_root t) (t_uid t) (t_gid t) fds next (t_regions t).
Definition task_cwd (cwd : path) (t : Task) : Task :=
  mkTask cwd (t_root t) (t_mnt_root t) (t_uid t) (t_gid t) (t_fds t) (t_next_fd t) (t_regions t).
Definition task_root (root : path) (t : Task) : Task :=
  mkTask (t_cwd t) root (t_mnt_root t) (t_uid t) (t_gid t) (t_fds t) (t_next_fd t) (t_regions t).

(** One round of the scan of [alloc_fd]; the scan is cut after the 1021 rounds
    that are enough when it ends. *)
Definition scan_fd (fds : gmap Z OpenFile) (next : Z) : Z + Z :=
  if decide (is_Some (fds !! next)) then inl (if MAX_FDS <=? next + 1 then 3 else next + 1) else inr next.
Definition task_alloc_fd (f : OpenFile) (t : Task) : option (Task * Z) :=
  match loop_nat (scan_fd (t_fds t)) (Z.to_nat 1021) (t_next_fd t) with
  | inr n => Some (task_fds (<[n := f]> (t_fds t)) (n + 1) t, n)
  | inl _ => None
  end.

Section Calls.
Context {F : Type} `{VO : VfsOps F} (D : Devices (F := F)) (build : string → list Z).
Implicit Types (s : Sys F).
Abbreviation call := (Sys F → option (Sys F * Z)).

Definition ret (n : Z) : call := λ s, Some (s, n).
Definition set_vfs (v : Vfs F) s : Sys F := mkSys v (s_task s) (s_mem s) (s_now s) (s_asi s).
Definition set_task (t : Task) s : Sys F := mkSys (s_vfs s) t (s_mem s) (s_now s) (s_asi s).
Definition put (a : Z) (bs : list Z) s : Sys F := mkSys (s_vfs s) (s_task s) (mem_write (s_mem s) a bs) (s_now s) (s_asi s).
Definition env (held : bool) s : Env :=
  let t := s_task s in mkEnv (t_mnt_root t) (t_root t) (t_uid t) (t_gid t) (s_now s) held.

(** An operation of the VFS, and what the call does with its result. *)
Definition vfs {B} (m : Env → VfsM F B) (k : result Z B → call) : call := λ s,
  match m (env false s) (s_vfs s) with
  | Some (v, r) => k r (set_vfs v s)
  | None => None
  end.
(** [Ok(_) => 0, Err(e) => vfs_err(e)] *)
Definition zero_or_err {B} (r : result Z B) : call := ret (match r with Ok _ => 0 | Err e => vfs_err e end).

Definition fd_key (fd : Z) : Z := wrap 32 fd.
Definition get_fd (fd : Z) s : option OpenFile := t_fds (s_task s) !! fd_key fd.
Definition update_fd (fd : Z) (f : OpenFile → OpenFile) s : Sys F :=
  set_task (task_fds (alter f (fd_key fd) (t_fds (s_task s))) (t_next_fd (s_task s)) (s_task s)) s.
Definition set_offset (o : Z) (f : OpenFile) : OpenFile := mkOpen (o_inode f) o (o_flags f) (o_kind f) (o_path f).
Definition advance (n : Z) (f : OpenFile) : OpenFile := set_offset (wadd 64 (o_offset f) n) f.
Definition with_fd (fd : Z) (k : OpenFile → call) : call := λ s, match get_fd fd s with Some f => k f s | None => ret E_BADF s end.
Definition with_path (ptr : Z) (k : path → call) : call := λ s,
  match read_cstr (s_asi s) (t_regions (s_task s)) (s_mem s) ptr with Some p => k p s | None => ret E_FAULT s end.
Definition cwd_of s : path := t_cwd (s_task s).
Definition user_ok (ptr len : Z) s : bool := verify_user_ptr (s_asi s) (t_regions (s_task s)) ptr len.

(** ** Reading and writing *)
Definition sys_read (fd buf : Z) (count : nat) : call := λ s,
  if (count =? 0)%nat then ret 0 s
  else if (buf =? 0) || negb (user_ok buf (Z.of_nat count) s) then ret E_FAULT s
  else with_fd fd (λ f, vfs (λ _, read_fd D f count) (λ r s,
    match r with
    | Err e => ret (vfs_err e) s
    | Ok bytes =>
        let n := Z.of_nat (length bytes) in
        ret n (update_fd fd (λ g, match o_kind g with FdRegular | FdDirectory => advance n g | _ => g end) (put buf bytes s))
    end)) s.

Definition sys_write (fd buf : Z) (count : nat) : call := λ s,
  if (count =? 0)%nat then ret 0 s
  else if (buf =? 0) || negb (user_ok buf (Z.of_nat count) s) then ret E_FAULT s
  else with_fd fd (λ f s, vfs (λ e, write_fd D e f (mem_read (s_mem s) buf count)) (λ r s,
    match r with
    | Err e => ret (vfs_err e) s
    | Ok n => ret (Z.of_nat n) (update_fd fd (λ g, match o_kind g with FdRegular => advance (Z.of_nat n) g | _ => g end) s)
    end) s) s.

Definition sys_pread64 (fd buf : Z) (count : nat) (offset : Z) : call :=
  with_fd fd (λ f, vfs (λ _, read_fd D (set_offset (wrap 64 offset) f) count) (λ r s,
    match r with
    | Err e => ret (vfs_err e) s
    | Ok bytes => ret (Z.of_nat (length bytes)) (put buf bytes s)
    end)).
Definition sys_pwrite64 (fd buf : Z) (count : nat) (offset : Z) : call :=
  with_fd fd (λ f s, vfs (λ e, write_fd D e (set_offset (wrap 64 offset) f) (mem_read (s_mem s) buf count)) (λ r,
    ret (match r with Ok n => Z.of_nat n | Err e => vfs_err e end)) s).

(** The vectors [iov .. iov + 16 * iovcnt]: base and length, 8 bytes each. *)
Fixpoint vector (op : Z → nat → call) (iov : Z) (iovcnt : nat) (total : Z) : call := λ s,
  match iovcnt with
  | O => ret total s
  | S iovcnt =>
      let base := le_value (mem_read (s_mem s) iov 8) in
      let len := le_value (mem_read (s_mem s) (iov + 8) 8) in
      if len =? 0 then vector op (wadd 64 iov 16) iovcnt total s
      else match op base (Z.to_nat len) s with
      | None => None
      | Some (s, r) => if r <? 0 then ret (if total =? 0 then r else total) s else vector op (wadd 64 iov 16) iovcnt (total + r) s
      end
  end.
Definition sys_readv (fd iov : Z) (iovcnt : nat) : call := vector (sys_read fd) iov iovcnt 0.
Definition sys_writev (fd iov : Z) (iovcnt : nat) : call := vector (sys_write fd) iov iovcnt 0.

(** ** Opening *)
Definition install (r : result Z OpenFile) : call := λ s,
  match r with
  | Err e => ret (vfs_err e) s
  | Ok f => match task_alloc_fd f (s_task s) with Some (t, n) => ret n (set_task t s) | None => None end
  end.
Definition open_in (cwd p : path) (flags mode : Z) : call := vfs (λ e, open build e cwd p flags mode) install.
Definition sys_open (ptr flags mode : Z) : call := with_path ptr (λ p s, open_in (cwd_of s) p flags mode s).
Definition sys_creat (ptr mode : Z) : call := sys_open ptr (Z.lor O_WRONLY (Z.lor O_CREAT O_TRUNC)) mode.
Definition sys_openat (dirfd ptr flags mode : Z) : call := with_path ptr (λ p s,
  if starts_with p root_path || (dirfd =? AT_FDCWD) then open_in (cwd_of s) p flags mode s
  else match get_fd dirfd s with
  | Some f =>
      if s_isdir (i_mode (v_attr (o_inode f))) && negb (bool_decide (o_path f = [])) then open_in (o_path f) p flags mode s
      else ret E_BADF s
  | None => ret E_BADF s
  end).

(** The probe of SEEK_END reads no byte and keeps the size it finds in the
    descriptor. *)
Definition sys_lseek (fd offset whence : Z) : call := λ s,
  let seek s := with_fd fd (λ f s,
    let '(f, r) := lseek offset whence f in
    ret (match r with Ok pos => to_signed 64 pos | Err e => vfs_err e end) (update_fd fd (λ _, f) s)) s in
  if whence =? 2 then with_fd fd (λ f, vfs (λ _, attempt (i_read (o_inode f) 0 0)) (λ _ s, seek s)) s
  else seek s.

(** ** Attributes *)
Definition stat_bytes (st : Stat) : list Z :=
  le_bytes 8 (st_dev st) ++ le_bytes 8 (st_ino st) ++ le_bytes 8 (st_nlink st) ++ le_bytes 4 (st_mode st) ++
  le_bytes 4 (st_uid st) ++ le_bytes 4 (st_gid st) ++ le_bytes 4 0 ++ le_bytes 8 0 ++ le_bytes 8 (st_size st) ++
  le_bytes 8 (st_blksize st) ++ le_bytes 8 (st_blocks st) ++ le_bytes 8 (st_atime st) ++ le_bytes 8 0 ++
  le_bytes 8 (st_mtime st) ++ le_bytes 8 0 ++ le_bytes 8 (st_ctime st) ++ le_bytes 8 0 ++ le_bytes 24 0.
Definition put_stat (buf : Z) (r : result Z Stat) : call := λ s,
  match r with Ok st => ret 0 (put buf (stat_bytes st) s) | Err e => ret (vfs_err e) s end.
Definition sys_stat (ptr buf : Z) : call := with_path ptr (λ p s, vfs (λ e, stat e (cwd_of s) p) (put_stat buf) s).
Definition sys_lstat (ptr buf : Z) : call := with_path ptr (λ p s, vfs (λ e, lstat e (cwd_of s) p) (put_stat buf) s).
Definition sys_fstat (fd buf : Z) : call := with_fd fd (λ f, put_stat buf (Ok (to_stat (o_inode f)))).
Definition sys_newfstatat (dirfd ptr buf flags : Z) : call :=
  if negb (Z.land flags 256 =? 0) then sys_lstat ptr buf else sys_stat ptr buf.
Definition sys_access (ptr mode : Z) : call := with_path ptr (λ p s, vfs (λ e, stat e (cwd_of s) p) zero_or_err s).
Definition sys_faccessat (dirfd ptr mode flags : Z) : call := sys_access ptr mode.

Definition sys_truncate (ptr len : Z) : call := with_path ptr (λ p s,
  vfs (λ e, f ← open build e (cwd_of s) p O_WRONLY 0; i_truncate e (o_inode f) (wrap 64 len)) zero_or_err s).
(** The file system is called inside [with_current]. *)
Definition sys_ftruncate (fd len : Z) : call := with_fd fd (λ f s,
  match i_truncate (env true s) (o_inode f) (wrap 64 len) (s_vfs s) with
  | Some (v, r) => zero_or_err r (set_vfs v s)
  | None => None
  end).

(** ** Directories *)
Definition sys_getdents64 (fd buf : Z) (count : nat) : call := with_fd fd (λ f s,
  vfs (λ _, getdents f (mem_read (s_mem s) buf count)) (λ r s,
    match r with
    | Err e => ret (vfs_err e) s
    | Ok (bytes, written, entries) =>
        let s := put buf bytes s in
        ret (Z.of_nat written) (if (0 <? entries)%nat then update_fd fd (advance (Z.of_nat entries)) s else s)
    end) s).

Definition bytes_of (p : path) : list Z := map (λ c, Z.of_nat (nat_of_ascii c)) p.
Definition sys_getcwd (buf : Z) (size : nat) : call := λ s,
  let b := bytes_of (cwd_of s) in
  if (size <? length b + 1)%nat then ret (vfs_err ENAMETOOLONG) s
  else ret (to_signed 64 buf) (put buf (b ++ [0]) s).
Definition sys_chdir (ptr : Z) : call := with_path ptr (λ p s,
  vfs (λ e, resolve_dir e (cwd_of s) p) (λ r s,
    match r with
    | Ok cwd => ret 0 (set_task (task_cwd cwd (s_task s)) s)
    | Err e => ret (vfs_err e) s
    end) s).
Definition sys_fchdir (fd : Z) : call := with_fd fd (λ f s,
  if negb (s_isdir (i_mode (v_attr (o_inode f)))) then ret (vfs_err ENOTDIR) s
  else if bool_decide (o_path f = []) then ret (vfs_err ENOENT) s
  else ret 0 (set_task (task_cwd (o_path f) (s_task s)) s)).

(** Errors are returned with the wrong sign, and both lookups run inside
    [with_current], which holds the lock that [abs_path] takes. *)
Definition sys_chroot (ptr : Z) : call := with_path ptr (λ p s,
  match resolve_inode (env true s) (cwd_of s) p (s_vfs s) with
  | None => None
  | Some (v, Err e) => ret e (set_vfs v s)
  | Some (v, Ok i) =>
      let s := set_vfs v s in
      if negb (s_isdir (i_mode (v_attr i))) then ret ENOTDIR s
      else match abs_path (env true s) (cwd_of s) p (s_vfs s) with
      | Some (v, Ok abs) => ret 0 (set_task (task_root abs (s_task s)) (set_vfs v s))
      | _ => None
      end
  end).

(** ** Names *)
Definition sys_mkdir (ptr mode : Z) : call := with_path ptr (λ p s, vfs (λ e, mkdir e (cwd_of s) p mode) zero_or_err s).
Definition sys_mkdirat (dirfd ptr mode : Z) : call := sys_mkdir ptr mode.
Definition sys_rmdir (ptr : Z) : call := with_path ptr (λ p s, vfs (λ e, rmdir e (cwd_of s) p) zero_or_err s).
Definition sys_unlink (ptr : Z) : call := with_path ptr (λ p s, vfs (λ e, unlink e (cwd_of s) p) zero_or_err s).
Definition sys_unlinkat (dirfd ptr flags : Z) : call :=
  if negb (Z.land flags 512 =? 0) then sys_rmdir ptr else sys_unlink ptr.
Definition sys_symlink (target link : Z) : call :=
  with_path target (λ t, with_path link (λ l s, vfs (λ e, symlink e (cwd_of s) t l) zero_or_err s)).
Definition sys_symlinkat (target dirfd link : Z) : call := sys_symlink target link.
Definition sys_readlink (ptr buf : Z) (size : nat) : call := with_path ptr (λ p s,
  vfs (λ e, readlink e (cwd_of s) p) (λ r s,
    match r with
    | Ok target => let b := take size (bytes_of target) in ret (Z.of_nat (length b)) (put buf b s)
    | Err e => ret (vfs_err e) s
    end) s).
Definition sys_rename (old new : Z) : call :=
  with_path old (λ o, with_path new (λ n s, vfs (λ e, rename e (cwd_of s) o n) zero_or_err s)).
Definition sys_renameat (od old nd new : Z) : call := sys_rename old new.
Definition sys_renameat2 (od old nd new flags : Z) : call := sys_rename old new.
End Calls.
