(* ===== verification/VfsCallsFacts.v ===== *)
(** * What the file calls do

    A directory is listed entry by entry, each once; the pointer checks that
    are there, and those that are not; calls that do not return. *)
From S2P Require Import Prelude Process Paging Bytes Tmpfs TmpfsFile TmpfsFacts Vfs VfsPath VfsTmpfs VfsCalls.
From Stdlib Require Import Ascii.

(** ** Directory records *)

(** A reader of [linux_dirent64]: inode, next offset, type and name up to the
    NUL, and the length of the record. *)
Record Dirent := mkDirent { d_ino : Z; d_off : Z; d_type : Z; d_name : list Z }.
Fixpoint upto_nul (b : list Z) : list Z := match b with c :: b => if c =? 0 then [] else c :: upto_nul b | [] => [] end.
Definition parse_one (b : list Z) : Dirent * nat :=
  (mkDirent (le_value (take 8 b)) (le_value (take 8 (drop 8 b))) (nth 18 b 0) (upto_nul (drop 19 b)), Z.to_nat (le_value (take 2 (drop 16 b)))).
(** The loop of a program over the [nread] bytes that a call returned, a round
    per byte at most. *)
Fixpoint parse (fuel nread : nat) (b : list Z) : list Dirent :=
  match fuel, nread with
  | S fuel, S _ => let '(d, len) := parse_one b in d :: parse fuel (nread - len) (drop len b)
  | _, _ => []
  end.

Record entry_ok (e : DirEntry) : Prop := {
  eo_ino : 0 ≤ e.1.2 < 2 ^ 64;
  eo_len : Z.of_nat (reclen e.1.1) < 2 ^ 16;
  eo_nul : Forall (λ c, c ≠ 0) (text e.1.1);
}.
(** The records of entries from the [k]-th on. *)
Fixpoint records (k : Z) (entries : list DirEntry) : list Dirent :=
  match entries with
  | [] => []
  | (name, ino, ty) :: rest => mkDirent ino (k + 1) ty (text name) :: records (k + 1) rest
  end.

Lemma upto_nul_text l rest : Forall (λ c, c ≠ 0) l → upto_nul (l ++ 0 :: rest) = l.
Proof. induction 1 as [|c l Hc _ IH]; [done|]. cbn. rewrite (proj2 (Z.eqb_neq _ _)) by done. by rewrite IH. Qed.

Lemma length_text name : length (text name) = String.length name.
Proof. unfold text, of_string. rewrite length_map. induction name as [|c name IH]; cbn; [done|]. by rewrite IH. Qed.

Lemma length_dirent off e : length (dirent off e) = (20 + String.length e.1.1)%nat.
Proof. destruct e as [[name ino] ty]. unfold dirent. rewrite !length_app, !length_le_bytes, length_text. cbn. lia. Qed.

Lemma reclen_room name : (20 + String.length name ≤ reclen name)%nat.
Proof. unfold reclen. pose proof (Nat.div_mod_eq (19 + String.length name + 1 + 7) 8). pose proof (Nat.mod_upper_bound (19 + String.length name + 1 + 7) 8). lia. Qed.

Lemma parse_one_dirent off e rest : entry_ok e → 0 ≤ off < 2 ^ 64 →
  parse_one (dirent off e ++ rest) = (mkDirent e.1.2 off e.2 (text e.1.1), reclen e.1.1).
Proof.
  destruct e as [[name ino] ty]. intros [Hi Hl Hz] Hoff. cbn [fst snd] in *. unfold parse_one, dirent. rewrite <- !app_assoc.
  set (L := text name ++ [0] ++ rest). assert (∀ n v (k : list Z), take n (le_bytes n v ++ k) = le_bytes n v) as Ht
    by (intros; by rewrite take_app_length' by (by rewrite length_le_bytes)).
  assert (∀ n v (k : list Z), drop n (le_bytes n v ++ k) = k) as Hd by (intros; by rewrite drop_app_length' by (by rewrite length_le_bytes)).
  assert (∀ a b (l : list Z), drop (a + b) l = drop b (drop a l)) as Hdd by (intros; by rewrite drop_drop).
  set (B := le_bytes 8 ino ++ le_bytes 8 off ++ le_bytes 2 (Z.of_nat (reclen name)) ++ [ty] ++ L).
  assert (drop 18 B = ty :: L) as H18 by (unfold B; rewrite (Hdd 16%nat 2%nat), (Hdd 8%nat 8%nat), !Hd; done).
  f_equal; [f_equal|].
  - unfold B. rewrite Ht, le_value_bytes. by apply wrap_small.
  - unfold B. rewrite Hd, Ht, le_value_bytes. by apply wrap_small.
  - rewrite (Hdd 18%nat 1%nat), H18. unfold L. cbn. by apply upto_nul_text.
  - unfold B. rewrite (Hdd 8%nat 8%nat), !Hd, Ht, le_value_bytes. rewrite wrap_small by (split; [apply Nat2Z.is_nonneg|exact Hl]). apply Nat2Z.id.
Qed.

(** The loop: records are put one behind the other, and the next one would
    not fit. *)
Lemma put_entries_spec skip entries buf w c buf' w' c' :
  put_entries skip entries buf w c = (buf', w', c') → (w ≤ length buf)%nat → Forall entry_ok entries →
  0 ≤ skip → skip + Z.of_nat c + Z.of_nat (length entries) < 2 ^ 64 →
  ∃ n, c' = (c + n)%nat ∧ (n ≤ length entries)%nat ∧ length buf' = length buf ∧ (w ≤ w' ≤ length buf)%nat ∧
    take w buf' = take w buf ∧ drop w' buf' = drop w' buf ∧ (n ≤ w' - w)%nat ∧
    (∀ fuel, (n ≤ fuel)%nat → parse fuel (w' - w) (drop w buf') = records (skip + Z.of_nat c) (take n entries)) ∧
    (∀ e, entries !! n = Some e → (length buf < w' + reclen e.1.1)%nat) ∧ (n = 0%nat → w' = w).
Proof.
  revert buf w c. induction entries as [|e entries IH]; intros buf w c Hrun Hw He Hs Hc; cbn [put_entries] in Hrun.
  { simplify_eq. exists 0%nat. split_and!; try done; try lia. intros fuel _. rewrite Nat.sub_diag. by destruct fuel. }
  apply Forall_cons in He as [Heo He]. cbn [length] in Hc. destruct (Nat.ltb_spec (length buf) (w + reclen e.1.1)) as [Hfull|Hroom].
  { simplify_eq. exists 0%nat. split_and!; try done; try lia; [|by intros ? [= <-]]. intros fuel _. rewrite Nat.sub_diag. by destruct fuel. }
  set (rec := dirent (skip + Z.of_nat c + 1) e) in *. pose proof (reclen_room e.1.1) as Hrl.
  assert (length rec ≤ reclen e.1.1)%nat as Hlr by (unfold rec; rewrite length_dirent; lia).
  pose proof (length_splice buf w rec ltac:(lia)) as Hls.
  destruct (IH _ _ _ Hrun) as (n & -> & Hn & Hlen & Hw' & Htk & Hdr & Hnw & Hp & Hnext & _); [lia|done|done|lia|].
  assert (take (w + reclen e.1.1) buf' = take (w + reclen e.1.1) (splice buf w rec)) as Htake by done.
  exists (S n). split_and!; try lia; try (cbn [length]; lia).
  - apply (f_equal (take w)) in Htake. rewrite !take_take, Nat.min_l in Htake by lia. rewrite Htake. unfold splice.
    rewrite take_app_le by (rewrite length_take; lia). rewrite take_take. f_equal. lia.
  - rewrite Hdr. unfold splice. rewrite !app_assoc. rewrite drop_app_ge by (rewrite !length_app, length_take; lia).
    rewrite drop_drop. f_equal. rewrite !length_app, length_take. lia.
  - intros [|fuel] Hfuel; [lia|]. cbn [parse take records]. destruct e as [[name ino] ty]. cbn [fst snd] in *.
    destruct (w' - w)%nat as [|nread] eqn:Hnr; [lia|]. rewrite <- Hnr.
    assert (∃ rest, drop w buf' = rec ++ rest) as [rest Hrest].
    { exists (drop (w + length rec) buf'). rewrite <- (take_drop (length rec) (drop w buf')), drop_drop. f_equal.
      rewrite take_drop_commute. replace (take (w + length rec) buf') with (take (w + length rec) (splice buf w rec)).
      - unfold splice. rewrite app_assoc, take_app_length' by (rewrite length_app, length_take; lia). rewrite drop_app_length'; [done|rewrite length_take; lia].
      - apply (f_equal (take (w + length rec))) in Htake. rewrite !take_take, Nat.min_l in Htake by lia. done. }
    rewrite Hrest. unfold rec at 1. rewrite (parse_one_dirent _ (name, ino, ty)) by (done || lia). cbn [fst snd]. f_equal.
    rewrite <- Hrest, drop_drop. replace (w' - w - reclen name)%nat with (w' - (w + reclen name))%nat by lia. rewrite Hp by lia. f_equal. lia.
  - intros e' He'. specialize (Hnext e' He'). lia.
Qed.

(** ** Memory *)
Lemma length_mem_read m a n : length (mem_read m a n) = n.
Proof. unfold mem_read. by rewrite length_map, length_seq. Qed.

Lemma mem_read_write m a bs n : (n ≤ length bs)%nat → mem_read (mem_write m a bs) a n = take n bs.
Proof.
  intros Hn. apply (list_eq_same_length _ _ n); [by rewrite length_take, Nat.min_l|apply length_mem_read|]. intros i x y Hi Hx Hy.
  rewrite lookup_take in Hy. rewrite decide_True in Hy by done. unfold mem_read in Hx. rewrite list_lookup_fmap in Hx.
  rewrite lookup_seq_lt in Hx by done. injection Hx as <-. unfold mem_write. rewrite decide_True by lia.
  replace (Z.to_nat (_ - a)) with i by lia. by apply nth_lookup_Some with (d := 0) in Hy.
Qed.

Section Facts.
Context {F : Type} `{VO : VfsOps F} (D : Devices (F := F)) (build : string → list Z).
Implicit Types (s : Sys F).

(** The program that lists a directory: it calls until no byte comes. *)
Fixpoint list_dir (fuel : nat) (fd buf : Z) (count : nat) s : option (Sys F * list Dirent) :=
  match fuel with
  | O => None
  | S fuel =>
      '(s, n) ← sys_getdents64 fd buf count s;
      if n <=? 0 then Some (s, [])
      else
        let nread := Z.to_nat n in
        '(s', ds) ← list_dir fuel fd buf count s;
        Some (s', parse nread nread (mem_read (s_mem s) buf count) ++ ds)
  end.

Lemma get_update fd g s f : get_fd fd s = Some f → get_fd fd (update_fd fd g s) = Some (g f).
Proof. intros Hf. unfold get_fd, update_fd in *. cbn. by rewrite lookup_alter_eq, Hf. Qed.

(** One call, [k] entries having been returned before. *)
Lemma getdents_step fd buf count s f k entries :
  get_fd fd s = Some f → o_offset f = Z.of_nat k → s_isdir (i_mode (v_attr (o_inode f))) = true →
  i_readdir (o_inode f) (s_vfs s) = Some (s_vfs s, Ok entries) →
  Forall entry_ok entries → Forall (λ e, (reclen e.1.1 ≤ count)%nat) entries → Z.of_nat (length entries) < 2 ^ 63 → (k ≤ length entries)%nat →
  ∃ s' n r, sys_getdents64 fd buf count s = Some (s', r) ∧ s_vfs s' = s_vfs s ∧ (k + n ≤ length entries)%nat ∧
    get_fd fd s' = Some (set_offset (Z.of_nat (k + n)) f) ∧
    (n = 0%nat → k = length entries ∧ r = 0) ∧ ((0 < n)%nat → 0 < r) ∧
    (let nread := Z.to_nat r in parse nread nread (mem_read (s_mem s') buf count) = records (Z.of_nat k) (take n (drop k entries))).
Proof.
  intros Hf Ho Hdir Hrd Hok Hfit Hlen Hk. unfold sys_getdents64, with_fd. rewrite Hf. unfold vfs, getdents. rewrite Hdir. cbn [negb].
  unfold mbind, vfs_bind. rewrite Hrd. cbn [mret vfs_ret]. rewrite Ho, Nat2Z.id. set (m := mem_read (s_mem s) buf count).
  destruct (put_entries (Z.of_nat k) (drop k entries) m 0 0) as [[bytes w'] c'] eqn:Hput.
  destruct (put_entries_spec _ _ _ _ _ _ _ _ Hput) as (n & -> & Hn & Hl & Hw & _ & _ & Hnw & Hp & Hnext & Hzero);
    [lia|by apply Forall_drop|lia|rewrite length_drop; lia|].
  rewrite length_drop in Hn. rewrite Nat.sub_0_r in *. cbn [Nat.add] in *. unfold m in Hl, Hw. rewrite length_mem_read in Hl, Hw.
  set (s1 := put buf bytes (set_vfs (s_vfs s) s)). assert (get_fd fd s1 = Some f) as Hf1 by done.
  assert (mem_read (mem_write (s_mem s) buf bytes) buf count = bytes) as Hmem.
  { rewrite mem_read_write by lia. by rewrite take_ge by lia. }
  eexists _, n, _. split; [done|]. split_and!.
  - by destruct (0 <? n)%nat.
  - lia.
  - destruct (Nat.ltb_spec 0 n) as [H0|H0].
    + rewrite (get_update _ _ _ f Hf1). unfold advance. rewrite Ho, wadd_small by lia. f_equal. f_equal. lia.
    + replace (k + n)%nat with k by lia. rewrite <- Ho. rewrite Hf1. by destruct f.
  - intros ->. destruct (drop k entries !! 0%nat) as [e|] eqn:He.
    + exfalso. specialize (Hnext e eq_refl). rewrite lookup_drop in He. rewrite Forall_lookup in Hfit. specialize (Hfit _ _ He).
      unfold m in Hnext. rewrite length_mem_read, Hzero in Hnext by done. cbn beta in Hfit. lia.
    + apply lookup_ge_None in He. rewrite length_drop in He. rewrite Hzero by done. split; [unfold DirEntry in *; lia|done].
  - lia.
  - cbn zeta. replace (s_mem _) with (mem_write (s_mem s) buf bytes) by (by destruct (0 <? n)%nat). rewrite Hmem, Nat2Z.id.
    pose proof (Hp w' Hnw) as Hq. rewrite drop_0, Z.add_0_r in Hq. exact Hq.
Qed.

Lemma records_app k l1 l2 : records k (l1 ++ l2) = records k l1 ++ records (k + Z.of_nat (length l1)) l2.
Proof.
  revert k. induction l1 as [|[[name ino] ty] l1 IH]; intros k; cbn [app records length]; [by rewrite Z.add_0_r|]. rewrite IH. cbn [app].
  do 3 f_equal. lia.
Qed.

Lemma list_dir_from fuel fd buf count s f k entries :
  get_fd fd s = Some f → o_offset f = Z.of_nat k → s_isdir (i_mode (v_attr (o_inode f))) = true →
  i_readdir (o_inode f) (s_vfs s) = Some (s_vfs s, Ok entries) →
  Forall entry_ok entries → Forall (λ e, (reclen e.1.1 ≤ count)%nat) entries → Z.of_nat (length entries) < 2 ^ 63 →
  (k ≤ length entries)%nat → (length entries - k < fuel)%nat →
  ∃ s', list_dir fuel fd buf count s = Some (s', records (Z.of_nat k) (drop k entries)) ∧
    get_fd fd s' = Some (set_offset (Z.of_nat (length entries)) f).
Proof.
  revert s f k. induction fuel as [|fuel IH]; intros s f k Hf Ho Hdir Hrd Hok Hfit Hlen Hk Hfuel; [lia|]. cbn [list_dir].
  destruct (getdents_step fd buf count s f k entries) as (s1 & n & r & -> & Hv & Hkn & Hf1 & H0 & Hpos & Hparse); try done. cbn [mbind option_bind].
  destruct (Nat.eq_dec n 0) as [->|Hn].
  - destruct (H0 eq_refl) as [-> ->]. exists s1. rewrite drop_all. split; [done|]. by rewrite Nat.add_0_r in Hf1.
  - rewrite (proj2 (Z.leb_gt _ _)) by lia.
    destruct (IH s1 _ (k + n)%nat Hf1) as (s2 & Hrest & Hf2); try done; [by rewrite Hv|lia|].
    cbn zeta in Hparse. rewrite Hrest, Hparse. cbn. exists s2. split; [|exact Hf2]. do 2 f_equal.
    rewrite <- (take_drop n (drop k entries)) at 2. rewrite records_app, drop_drop, length_take, length_drop, Nat.min_l by lia. do 2 f_equal. lia.
Qed.

(** C31. Listing a directory by calling [sys_getdents64] again and again, with
    a buffer that holds the longest record: the calls end, and the records
    read from the buffers are exactly the entries of the directory, each once
    and in order, with their inode numbers, types and names, and the offset
    after each. *)
Theorem getdents_lists_all fd buf count s f entries :
  get_fd fd s = Some f → o_offset f = 0 → s_isdir (i_mode (v_attr (o_inode f))) = true →
  i_readdir (o_inode f) (s_vfs s) = Some (s_vfs s, Ok entries) →
  Forall entry_ok entries → Forall (λ e, (reclen e.1.1 ≤ count)%nat) entries → Z.of_nat (length entries) < 2 ^ 63 →
  ∃ s', list_dir (S (length entries)) fd buf count s = Some (s', records 0 entries) ∧
    get_fd fd s' = Some (set_offset (Z.of_nat (length entries)) f).
Proof. intros Hf Ho Hd Hr Hok Hfit Hlen. apply (list_dir_from _ fd buf count s f 0 entries); try done; lia. Qed.

(** [sys_read] refuses a buffer in kernel space and changes nothing;
    [sys_pread64] has no such check: whatever the address, the bytes of the
    file are written there. *)
Theorem pread_writes_anywhere fd buf count offset s f v bytes :
  get_fd fd s = Some f → read_fd D (set_offset (wrap 64 offset) f) count (s_vfs s) = Some (v, Ok bytes) → bytes ≠ [] →
  USER_END ≤ buf →
  sys_read D fd buf (S count) s = Some (s, E_FAULT) ∧
  ∃ s', sys_pread64 D fd buf count offset s = Some (s', Z.of_nat (length bytes)) ∧ mem_read (s_mem s') buf (length bytes) = bytes.
Proof.
  intros Hf Hr Hb Hbuf. split.
  - unfold sys_read. cbn [Nat.eqb]. unfold user_ok, verify_user_ptr. rewrite (proj2 (Z.eqb_neq buf 0)) by (unfold USER_END in *; lia).
    by rewrite (proj2 (Z.leb_le USER_END buf)).
  - unfold sys_pread64, with_fd, vfs. rewrite Hf, Hr. eexists. split; [done|]. cbn. rewrite mem_read_write by lia. by rewrite take_ge.
Qed.

(** [sys_chroot] never changes the root: it returns EFAULT for a path
    that cannot be read, and otherwise does not return, since it asks for the
    lock of the process table while it holds it. *)
Theorem chroot_deadlocks ptr s : sys_chroot ptr s = Some (s, E_FAULT) ∨ sys_chroot ptr s = None.
Proof. unfold sys_chroot, with_path. destruct (read_cstr _ _ _ ptr) as [p|]; [by right|by left]. Qed.

(** The end of a file, for SEEK_END, is the size it had when it was
    opened: however much has been written through the descriptor, seeking to
    the end returns to the old end, so the next write overwrites. *)
Theorem lseek_end_stale fd buf count s s1 n f v r :
  get_fd fd s = Some f → o_kind f = FdRegular → 0 ≤ i_size (v_attr (o_inode f)) < 2 ^ 63 →
  sys_write D fd buf count s = Some (s1, n) → i_read (o_inode f) 0 0 (s_vfs s1) = Some (v, r) →
  ∃ s2, sys_lseek fd 0 2 s1 = Some (s2, i_size (v_attr (o_inode f))) ∧
    get_fd fd s2 = Some (set_offset (i_size (v_attr (o_inode f))) f).
Proof.
  intros Hf Hk Hsz Hw Hr.
  assert (∃ o, get_fd fd s1 = Some (set_offset o f)) as [o Hf1].
  { assert (∃ o, get_fd fd s = Some (set_offset o f)) as Hsame by (exists (o_offset f); rewrite Hf; by destruct f).
    unfold sys_write in Hw. destruct (count =? 0)%nat; [by injection Hw as <- _|]. destruct (_ || _); [by injection Hw as <- _|].
    unfold with_fd in Hw. rewrite Hf in Hw. unfold vfs in Hw. destruct (write_fd _ _ _ _ _) as [[v' [k|e]]|]; simplify_eq.
    - cbn in Hw. injection Hw as <- _. exists (wadd 64 (o_offset f) (Z.of_nat k)). rewrite (get_update fd _ _ f) by done. by rewrite Hk.
    - cbn in Hw. injection Hw as <- _. exact Hsame. }
  unfold sys_lseek. cbn [Z.eqb Pos.eqb]. unfold with_fd at 1. rewrite Hf1. unfold vfs, attempt. cbn [o_inode set_offset]. rewrite Hr.
  unfold with_fd. change (get_fd fd (set_vfs v s1)) with (get_fd fd s1). rewrite Hf1. unfold lseek. cbn [Z.eqb Pos.eqb o_inode set_offset].
  rewrite wadd_small by lia. rewrite Z.add_0_r. rewrite to_signed_small by lia. eexists. split; [done|].
  by rewrite (get_update fd _ _ (set_offset o f)).
Qed.
End Facts.

(** ** Concrete runs *)
Definition demo_inode (ino mode : Z) : VInode := mkV (FsOps 1) (mkInode ino mode 0 0 0 0 0 0 1).
Definition demo_sys (fs : TmpState (list Z)) (f : OpenFile) : Sys (TmpState (list Z)) :=
  mkSys (rooted 1 fs) (mkTask root_path root_path root_path 0 0 {[3 := f]} 4 []) (λ _, 65) 7 false.
Definition demo_dir : OpenFile := mkOpen (demo_inode 1 S_IFDIR) 0 0 FdDirectory root_path.
Definition demo_file : OpenFile := mkOpen (demo_inode 2 S_IFREG) 0 2 FdRegular (of_string "/f").
Definition demo_entries : list DirEntry := [(".", 1, 4); ("..", 1, 4); ("j", 2, 4); ("m", 5, 10); ("t", 4, 8)]%string.

Lemma getdents_lists_all_witness :
  ∃ s', list_dir 6 3 4096 30 (demo_sys demo_links demo_dir) = Some (s', records 0 demo_entries) ∧ get_fd 3 s' = Some (set_offset 5 demo_dir).
Proof.
  apply (getdents_lists_all 3 4096 30 (demo_sys demo_links demo_dir) demo_dir demo_entries); try reflexivity.
  - repeat constructor; cbn; try lia; done.
  - repeat constructor.
Defined.

Lemma pread_writes_anywhere_witness :
  let s := demo_sys (tmp_new demo_store) (make_mem_fd [1; 2; 3] 0) in
  sys_read no_devices 3 0xffff800000000000 3 s = Some (s, E_FAULT) ∧
  ∃ s', sys_pread64 no_devices 3 0xffff800000000000 2 1 s = Some (s', 2) ∧ mem_read (s_mem s') 0xffff800000000000 2 = [2; 3].
Proof.
  intros s. apply (pread_writes_anywhere no_devices 3 0xffff800000000000 2 1 s (make_mem_fd [1; 2; 3] 0) (s_vfs s) [2; 3]); [reflexivity|reflexivity|done|].
  unfold USER_END. lia.
Defined.

Lemma lseek_end_stale_witness :
  ∃ s1 s2, sys_write no_devices 3 4096 2 (demo_sys demo_tmp demo_file) = Some (s1, 2) ∧ sys_lseek 3 0 2 s1 = Some (s2, 0).
Proof.
  set (s := demo_sys demo_tmp demo_file).
  assert (match sys_write no_devices 3 4096 2 s with
    | Some (s1, n) => bool_decide (n = 2) && (match i_read (o_inode demo_file) 0 0 (s_vfs s1) with Some _ => true | None => false end)
    | None => false end = true) as H by (vm_compute; reflexivity).
  destruct (sys_write no_devices 3 4096 2 s) as [[s1 n]|] eqn:Hw; [|discriminate]. apply andb_true_iff in H as [Hn H].
  apply bool_decide_eq_true in Hn. subst n. destruct (i_read (o_inode demo_file) 0 0 (s_vfs s1)) as [[v r]|] eqn:Hr; [|discriminate].
  destruct (lseek_end_stale no_devices 3 4096 2 s s1 2 demo_file v r) as (s2 & H2 & _); [reflexivity|reflexivity|cbn; lia|exact Hw|exact Hr|].
  exists s1, s2. split; [reflexivity|exact H2].
Defined.
