(* ===== verification/Utf8.v ===== *)
(** * Text

    UTF-8 in the Rust library: [String::from_utf8_lossy], on bytes (what is not
    well-formed becomes U+FFFD), [str::from_utf8], and the bytes of a string
    given as a list of characters. *)
From S2P Require Import Prelude.

(** The length of the sequence at the head, and
    whether it is complete; what is not becomes U+FFFD. *)
Definition between (a b x : Z) : bool := (a <=? x) && (x <=? b).
Definition cont (x : Z) : bool := between 128 191 x.
Definition utf8_second (b x : Z) : bool :=
  if b =? 224 then between 160 191 x
  else if b =? 237 then between 128 159 x
  else if b =? 240 then between 144 191 x
  else if b =? 244 then between 128 143 x
  else cont x.
Definition utf8_head (bs : list Z) : nat * bool :=
  match bs with
  | [] => (0%nat, true)
  | b :: r =>
      if b <? 128 then (1%nat, true)
      else if between 194 223 b then match r with x :: _ => if cont x then (2%nat, true) else (1%nat, false) | [] => (1%nat, false) end
      else if between 224 239 b then
        match r with
        | x :: r =>
            if utf8_second b x then match r with y :: _ => if cont y then (3%nat, true) else (2%nat, false) | [] => (2%nat, false) end
            else (1%nat, false)
        | [] => (1%nat, false)
        end
      else if between 240 244 b then
        match r with
        | x :: r =>
            if utf8_second b x then
              match r with
              | y :: r => if cont y then match r with z :: _ => if cont z then (4%nat, true) else (3%nat, false) | [] => (3%nat, false) end else (2%nat, false)
              | [] => (2%nat, false)
              end
            else (1%nat, false)
        | [] => (1%nat, false)
        end
      else (1%nat, false)
  end.
Fixpoint lossy (fuel : nat) (bs : list Z) : list Z :=
  match fuel, bs with
  | S fuel, _ :: _ =>
      let '(n, ok) := utf8_head bs in
      (if (ok : bool) then take n bs else [239; 191; 189]) ++ lossy fuel (drop n bs)
  | _, _ => []
  end.
Definition from_utf8_lossy (bs : list Z) : list Z := lossy (length bs) bs.

Lemma lossy_ascii bs : Forall (λ b, b < 128) bs → from_utf8_lossy bs = bs.
Proof.
  intros H. unfold from_utf8_lossy. induction bs as [|b bs IH]; [done|]. apply Forall_cons in H as [Hb H]. cbn [length lossy utf8_head].
  rewrite (proj2 (Z.ltb_lt _ _)) by done. cbn [take drop app]. rewrite take_0, drop_0, IH by done. done.
Qed.

(** ** Characters *)
Definition is_char (c : Z) : Prop := 0 ≤ c < 0xD800 ∨ 0xE000 ≤ c < 0x110000.
Definition encode_char (c : Z) : list Z :=
  if c <? 0x80 then [c]
  else if c <? 0x800 then [192 + c / 64; 128 + c mod 64]
  else if c <? 0x10000 then [224 + c / 4096; 128 + c / 64 mod 64; 128 + c mod 64]
  else [240 + c / 262144; 128 + c / 4096 mod 64; 128 + c / 64 mod 64; 128 + c mod 64].
Definition encode (s : list Z) : list Z := concat (map encode_char s).
(** The character of a complete sequence. *)
Definition decode_char (bs : list Z) : Z :=
  match bs with
  | [b] => b
  | [b; x] => (b - 192) * 64 + (x - 128)
  | [b; x; y] => (b - 224) * 4096 + (x - 128) * 64 + (y - 128)
  | [b; x; y; z] => (b - 240) * 262144 + (x - 128) * 4096 + (y - 128) * 64 + (z - 128)
  | _ => 0
  end.
Fixpoint decode (fuel : nat) (bs : list Z) : option (list Z) :=
  match fuel, bs with
  | _, [] => Some []
  | O, _ => None
  | S fuel, _ =>
      let '(n, ok) := utf8_head bs in
      if (ok : bool) then s ← decode fuel (drop n bs); Some (decode_char (take n bs) :: s) else None
  end.
Definition from_utf8 (bs : list Z) : option (list Z) := decode (length bs) bs.

Lemma cont_low n : cont (128 + n mod 64) = true.
Proof. unfold cont, between. pose proof (Z.mod_pos_bound n 64). lia. Qed.
Lemma decode_encode_char c : is_char c → decode_char (encode_char c) = c.
Proof.
  intros Hc. unfold encode_char, is_char in *.
  destruct (Z.ltb_spec c 0x80); [done|]. destruct (Z.ltb_spec c 0x800); [|destruct (Z.ltb_spec c 0x10000)]; cbn [decode_char].
  - pose proof (Z.div_mod c 64). lia.
  - pose proof (Z.div_mod c 64). pose proof (Z.div_mod (c / 64) 64). rewrite Z.div_div in * by lia. change (64 * 64) with 4096 in *. lia.
  - pose proof (Z.div_mod c 64). pose proof (Z.div_mod (c / 64) 64). pose proof (Z.div_mod (c / 4096) 64). rewrite !Z.div_div in * by lia. change (64 * 64) with 4096 in *. change (4096 * 64) with 262144 in *. lia.
Qed.
Lemma head_encode c r : is_char c → utf8_head (encode_char c ++ r) = (length (encode_char c), true).
Proof.
  intros Hc. unfold encode_char, is_char in *.
  destruct (Z.ltb_spec c 0x80) as [H|H]; [cbn; by rewrite (proj2 (Z.ltb_lt _ _))|].
  destruct (Z.ltb_spec c 0x800) as [H2|H2]; [|destruct (Z.ltb_spec c 0x10000) as [H3|H3]]; cbn [app utf8_head length].
  - assert (2 ≤ c / 64 < 32) by (split; [apply Z.div_le_lower_bound|apply Z.div_lt_upper_bound]; lia).
    rewrite (proj2 (Z.ltb_ge _ _)) by lia. assert (between 194 223 (192 + c / 64) = true) as -> by (unfold between; lia). by rewrite cont_low.
  - assert (0 ≤ c / 4096 < 16) by (split; [apply Z.div_le_lower_bound|apply Z.div_lt_upper_bound]; lia).
    rewrite (proj2 (Z.ltb_ge _ _)) by lia. assert (between 194 223 (224 + c / 4096) = false) as -> by (unfold between; lia).
    assert (between 224 239 (224 + c / 4096) = true) as -> by (unfold between; lia). rewrite cont_low.
    assert (utf8_second (224 + c / 4096) (128 + c / 64 mod 64) = true) as ->; [|done].
    pose proof (Z.div_mod c 64). pose proof (Z.div_mod (c / 64) 64). pose proof (Z.mod_pos_bound c 64). pose proof (Z.mod_pos_bound (c / 64) 64). rewrite Z.div_div in * by lia. change (64 * 64) with 4096 in *.
    unfold utf8_second, cont, between. repeat case_match; lia.
  - assert (0 ≤ c / 262144 < 5) by (split; [apply Z.div_le_lower_bound|apply Z.div_lt_upper_bound]; lia).
    rewrite (proj2 (Z.ltb_ge _ _)) by lia. assert (between 194 223 (240 + c / 262144) = false) as -> by (unfold between; lia). assert (between 224 239 (240 + c / 262144) = false) as -> by (unfold between; lia).
    assert (between 240 244 (240 + c / 262144) = true) as -> by (unfold between; lia). rewrite !cont_low.
    assert (utf8_second (240 + c / 262144) (128 + c / 4096 mod 64) = true) as ->; [|done].
    pose proof (Z.div_mod c 4096). pose proof (Z.div_mod (c / 4096) 64). pose proof (Z.mod_pos_bound c 4096). pose proof (Z.mod_pos_bound (c / 4096) 64). rewrite Z.div_div in * by lia. change (4096 * 64) with 262144 in *.
    unfold utf8_second, cont, between. repeat case_match; lia.
Qed.
Lemma encode_char_pos c : (1 ≤ length (encode_char c))%nat.
Proof. unfold encode_char. repeat case_match; cbn; lia. Qed.
Lemma decode_encode s fuel : Forall is_char s → (length (encode s) ≤ fuel)%nat → decode fuel (encode s) = Some s.
Proof.
  intros Hs. revert fuel. induction Hs as [|c s Hc Hs IH]; intros fuel Hf; [by destruct fuel|]. unfold encode in *. cbn [map concat] in *. rewrite length_app in Hf. pose proof (encode_char_pos c).
  destruct fuel as [|fuel]; [lia|]. assert (∃ x y, encode_char c ++ concat (map encode_char s) = x :: y) as (x & y & E) by (destruct (encode_char c); [cbn in *; lia|eauto]).
  rewrite E. cbn [decode]. rewrite <- E, head_encode by done. rewrite drop_app_length, take_app_length, IH by lia. cbn [mbind option_bind]. by rewrite decode_encode_char.
Qed.
Lemma from_utf8_encode s : Forall is_char s → from_utf8 (encode s) = Some s.
Proof. intros Hs. by apply decode_encode. Qed.
