(* ===== verification/Fat.v ===== *)
(** * FAT32 with writing

    Models kernel/src/fs/fat32_rw/mod.rs: the allocation table in the bytes of
    the disk image, cluster chains, directory entries with long names, and the
    operations on inodes.  The image is a list of bytes; [None] is a panic or
    a loop that does not end.  Loops over chains are bounded by the number of
    words of the image: an entry outside of it reads as an end, so no chain
    without a circle is longer. *)
From S2P Require Import Prelude Bytes Utf8 Tmpfs.
From Stdlib Require Import Ascii.

Definition FAT_EOC : Z := 0x0FFFFFF8.
Definition FAT_FREE : Z := 0.
Definition ATTR_DIR : Z := 0x10.
Definition ATTR_ARCH : Z := 0x20.
Definition ATTR_LFN : Z := 0x0F.
Definition ENOSPC : Z := 28.

Record Fat32Inner := mkFat {
  disk : list Z;
  bps : Z;
  spc : Z;
  reserved : Z;
  num_fats : Z;
  fat_size : Z;
  root_clus : Z;
  data_start : Z;
  dirty : bool;
}.
Definition set_disk (d : list Z) (f : Fat32Inner) : Fat32Inner :=
  mkFat d (bps f) (spc f) (reserved f) (num_fats f) (fat_size f) (root_clus f) (data_start f) true.

Definition disk_len (f : Fat32Inner) : Z := Z.of_nat (length (disk f)).
(** [disk[off..off + bs.len()].copy_from_slice(bs)], where it fits. *)
Definition put_bytes (off : Z) (bs : list Z) (f : Fat32Inner) : Fat32Inner := set_disk (splice (disk f) (Z.to_nat off) bs) f.

(** ** The table *)
Definition cluster_to_offset (f : Fat32Inner) (cluster : Z) : Z :=
  wmul 32 (wadd 32 (data_start f) (wmul 32 (wsub 32 cluster 2) (spc f))) (bps f).
Definition cluster_size (f : Fat32Inner) : Z := wmul 32 (spc f) (bps f).
Definition fat_offset (f : Fat32Inner) (cluster : Z) : Z := wmul 32 (reserved f) (bps f) + cluster * 4.
Definition fat_get (f : Fat32Inner) (cluster : Z) : Z :=
  let off := fat_offset f cluster in
  if disk_len f <? off + 4 then FAT_EOC
  else Z.land (le_value (slice (disk f) (Z.to_nat off) 4)) 0x0FFFFFFF.

Definition fat_set_one (cluster val : Z) (f : Fat32Inner) (fat : nat) : Fat32Inner :=
  let fat_start := wmul 32 (wadd 32 (reserved f) (wmul 32 (Z.of_nat fat) (fat_size f))) (bps f) in
  let off := fat_start + cluster * 4 in
  if off + 4 <=? disk_len f then put_bytes off (le_bytes 4 val) f else f.
Definition fat_set (cluster val : Z) (f : Fat32Inner) : Fat32Inner :=
  let f := fold_left (fat_set_one cluster val) (List.seq 0 (Z.to_nat (num_fats f))) f in set_disk (disk f) f.

Definition total (f : Fat32Inner) : Z := wmul 32 (fat_size f) (bps f) / 4.

(** The scan of [alloc_cluster], [n] clusters to go. *)
Fixpoint find_free (n : nat) (c : Z) (f : Fat32Inner) : option Z :=
  match n with
  | O => None
  | S n => if fat_get f c =? FAT_FREE then Some c else find_free n (c + 1) f
  end.
Definition zero_cluster (c : Z) (f : Fat32Inner) : Fat32Inner :=
  let off := cluster_to_offset f c in
  if off + cluster_size f <=? disk_len f then put_bytes off (replicate (Z.to_nat (cluster_size f)) 0) f else f.
Definition alloc_cluster (f : Fat32Inner) : Fat32Inner * option Z :=
  match find_free (Z.to_nat (total f - 2)) 2 f with
  | Some c => (zero_cluster c (fat_set c FAT_EOC f), Some c)
  | None => (f, None)
  end.

(** ** Chains *)
Definition in_chain (c : Z) : bool := (c <? FAT_EOC) && (2 <=? c).
Definition rounds (f : Fat32Inner) : nat := S (Z.to_nat (disk_len f / 4)).

Fixpoint free_loop (fuel : nat) (c : Z) (f : Fat32Inner) : option Fat32Inner :=
  if in_chain c then
    match fuel with
    | O => None
    | S fuel => let next := fat_get f c in free_loop fuel next (fat_set c FAT_FREE f)
    end
  else Some f.
Definition free_chain (start : Z) (f : Fat32Inner) : option Fat32Inner := free_loop (rounds f) start f.

(** The clusters from [c] on. *)
Fixpoint chain_from (fuel : nat) (c : Z) (f : Fat32Inner) : option (list Z) :=
  if in_chain c then
    match fuel with
    | O => None
    | S fuel => cs ← chain_from fuel (fat_get f c) f; Some (c :: cs)
    end
  else Some [].
Definition chain_of (start : Z) (f : Fat32Inner) : option (list Z) := chain_from (rounds f) start f.
Definition chain_len (start : Z) (f : Fat32Inner) : option nat := length <$> chain_of start f.

Definition cluster_data (f : Fat32Inner) (c : Z) : list Z :=
  let off := cluster_to_offset f c in
  if off + cluster_size f <=? disk_len f then slice (disk f) (Z.to_nat off) (Z.to_nat (cluster_size f)) else [].
Definition read_chain (start : Z) (f : Fat32Inner) : option (list Z) :=
  cs ← chain_of start f; Some (concat (map (cluster_data f) cs)).

(** [while chain.len() < needed], [n] clusters to go; [None] in the second
    place when the disk is full. *)
Fixpoint extend (n : nat) (chain : list Z) (f : Fat32Inner) : Fat32Inner * option (list Z) :=
  match n with
  | O => (f, Some chain)
  | S n =>
      match alloc_cluster f with
      | (f, None) => (f, None)
      | (f, Some c) =>
          let f := match last chain with Some l => fat_set l c f | None => f end in
          extend n (chain ++ [c]) f
      end
  end.
Definition write_cluster (pad : bool) (clus : Z) (chunk : list Z) (f : Fat32Inner) : Fat32Inner :=
  let csz := cluster_size f in
  let off := cluster_to_offset f clus in
  if off + csz <=? disk_len f then
    put_bytes off (if pad then chunk ++ replicate (Z.to_nat csz - length chunk) 0 else chunk) f
  else f.
(** [for (i, &clus) in chain.iter().enumerate()]: a chunk of the data each. *)
Fixpoint write_clusters (pad : bool) (csz : nat) (chain data : list Z) (f : Fat32Inner) : Fat32Inner :=
  match chain with
  | [] => f
  | clus :: chain => write_clusters pad csz chain (drop csz data) (write_cluster pad clus (take csz data) f)
  end.
(** [needed > 0 && chain.len() > needed] *)
Definition cut_chain (needed : nat) (chain : list Z) (f : Fat32Inner) : Fat32Inner :=
  if (needed <? length chain)%nat && (0 <? needed)%nat then
    let f := fat_set (nth (needed - 1) chain 0) FAT_EOC f in
    fold_left (λ f c, fat_set c FAT_FREE f) (drop needed chain) f
  else f.
Definition clusters_for (csz len : nat) : nat := (len + csz - 1) / csz.

(** A cluster size of 0 is a division by zero. *)
Definition write_chain (start : Z) (data : list Z) (f : Fat32Inner) : option (Fat32Inner * option Z) :=
  let csz := Z.to_nat (cluster_size f) in
  if (csz =? 0)%nat then None
  else
    let needed := clusters_for csz (length data) in
    chain ← chain_of start f;
    match extend (needed - length chain) chain f with
    | (f, None) => Some (f, None)
    | (f, Some chain) =>
        let f := cut_chain needed chain f in
        let f := write_clusters true csz (take needed chain) data f in
        Some (set_disk (disk f) f, Some (default 0 (head chain)))
    end.

Definition alloc_chain (data : list Z) (f : Fat32Inner) : option (Fat32Inner * option Z) :=
  match alloc_cluster f with
  | (f, None) => Some (f, None)
  | (f, Some first) =>
      let csz := Z.to_nat (cluster_size f) in
      if (csz =? 0)%nat then None
      else
        let needed := (Nat.max (length data + csz - 1) 1 / csz)%nat in
        match extend (needed - 1) [first] f with
        | (f, None) => Some (f, None)
        | (f, Some chain) => let f := write_clusters false csz chain data f in Some (set_disk (disk f) f, Some first)
        end
  end.

(** ** Names *)

Definition lower (c : Z) : Z := if between 65 90 c then c + 32 else c.
Definition upper (c : Z) : Z := if between 97 122 c then c - 32 else c.
Definition eq_ignore_case (a b : list Z) : bool := bool_decide (map lower a = map lower b).

(** The part up to the last byte that is no blank. *)
Fixpoint trim_blanks (bs : list Z) : list Z :=
  match bs with
  | [] => []
  | b :: r => match trim_blanks r with [] => if b =? 32 then [] else [b] | t => b :: t end
  end.
Definition decode_83 (raw : list Z) : list Z :=
  let name := trim_blanks (take 8 raw) in
  let ext := trim_blanks (take 3 (drop 8 raw)) in
  map lower (from_utf8_lossy name) ++ (if bool_decide (ext = []) then [] else 46 :: map lower (from_utf8_lossy ext)).

(** [rsplit_once('.')] *)
Fixpoint rsplit_dot (bs : list Z) : option (list Z * list Z) :=
  match bs with
  | [] => None
  | b :: r =>
      match rsplit_dot r with
      | Some (base, ext) => Some (b :: base, ext)
      | None => if b =? 46 then Some ([], r) else None
      end
  end.
Definition blanks (n : nat) (bs : list Z) : list Z := take n bs ++ replicate (n - length bs) 32.
Definition encode_83 (name : list Z) : list Z :=
  let '(base, ext) := default (name, []) (rsplit_dot name) in
  blanks 8 (map upper base) ++ blanks 3 (map upper ext).

(** ** Directory entries *)
Record RawDirent := mkRaw { r_name : list Z; r_attr : Z; r_clus : Z; r_size : Z }.
Definition raw_of (raw : list Z) : RawDirent :=
  mkRaw (take 11 raw) (nth 11 raw 0) (Z.lor (Z.shiftl (word raw 20 2) 16) (word raw 26 2)) (word raw 28 4).
(** The entry that [write_dirent_to_dir] writes, 2016-01-01 as its date. *)
Definition dirent_bytes (name : list Z) (attr clus size : Z) : list Z :=
  name ++ [attr; 0; 0] ++ le_bytes 2 0 ++ le_bytes 2 0x4A21 ++ le_bytes 2 0x4A21 ++ le_bytes 2 (Z.shiftr clus 16) ++
  le_bytes 2 0 ++ le_bytes 2 0x4A21 ++ le_bytes 2 clus ++ le_bytes 4 size.

Definition Entry : Type := list Z * Z * Z * bool.
Definition entry_of (name : list Z) (d : RawDirent) : Entry := (name, r_clus d, r_size d, negb (Z.land (r_attr d) ATTR_DIR =? 0)).

(** The slots of a directory. *)
Fixpoint parse_entries (n : nat) (dir : list Z) : list Entry :=
  match n with
  | O => []
  | S n =>
      let raw := take 32 dir in
      let first := nth 0 raw 0 in
      if first =? 0 then []
      else if (first =? 0xE5) || (nth 11 raw 0 =? ATTR_LFN) then parse_entries n (drop 32 dir)
      else entry_of (decode_83 (take 11 raw)) (raw_of raw) :: parse_entries n (drop 32 dir)
  end.

(** A long-name slot: its order and 13 UCS-2 characters. *)
Definition lfn_chars (raw : list Z) : list Z :=
  let chars off cnt := map (λ k, word raw (off + 2 * k) 2) (List.seq 0 cnt) in
  chars 1%nat 5%nat ++ chars 14%nat 6%nat ++ chars 28%nat 2%nat.
Fixpoint insert_part (p : Z * list Z) (l : list (Z * list Z)) : list (Z * list Z) :=
  match l with
  | [] => [p]
  | q :: l => if p.1 <? q.1 then p :: q :: l else q :: insert_part p l
  end.
Definition sort_parts (l : list (Z * list Z)) : list (Z * list Z) := fold_left (λ acc p, insert_part p acc) l [].
Fixpoint upto_end (l : list Z) : list Z :=
  match l with [] => [] | c :: l => if (c =? 0) || (c =? 0xFFFF) then [] else c :: upto_end l end.
(** [char::from_u32], a surrogate is none, and its bytes in UTF-8. *)
Definition char_bytes (c : Z) : list Z :=
  if between 0xD800 0xDFFF c then []
  else if c <? 0x80 then [c]
  else if c <? 0x800 then [Z.lor 192 (Z.shiftr c 6); Z.lor 128 (Z.land c 63)]
  else [Z.lor 224 (Z.shiftr c 12); Z.lor 128 (Z.land (Z.shiftr c 6) 63); Z.lor 128 (Z.land c 63)].
Definition lfn_name (parts : list (Z * list Z)) : list Z :=
  concat (map char_bytes (concat (map (λ p, upto_end p.2) (sort_parts parts)))).
Fixpoint parse_lfn (n : nat) (dir : list Z) (parts : list (Z * list Z)) : list Entry :=
  match n with
  | O => []
  | S n =>
      let raw := take 32 dir in
      let first := nth 0 raw 0 in
      if first =? 0 then []
      else if first =? 0xE5 then parse_lfn n (drop 32 dir) []
      else if nth 11 raw 0 =? ATTR_LFN then parse_lfn n (drop 32 dir) (parts ++ [(Z.land first 31, lfn_chars raw)])
      else
        let short := decode_83 (take 11 raw) in
        let long := lfn_name parts in
        let name := if bool_decide (parts = []) || bool_decide (long = []) then short else long in
        entry_of name (raw_of raw) :: parse_lfn n (drop 32 dir) []
  end.
Definition slots (dir : list Z) : nat := (length dir / 32)%nat.
Definition entries (dir : list Z) : list Entry := parse_entries (slots dir) dir.
Definition entries_lfn (dir : list Z) : list Entry := parse_lfn (slots dir) dir [].

(** The first slot from [i] on, [n] to go, that [p] holds of. *)
Fixpoint find_slot (n : nat) (i : Z) (p : list Z → bool) (f : Fat32Inner) : option Z :=
  match n with
  | O => None
  | S n =>
      if disk_len f <? i + 32 then None
      else if p (slice (disk f) (Z.to_nat i) 32) then Some i
      else find_slot n (i + 32) p f
  end.
Definition slot_in (c : Z) (p : list Z → bool) (f : Fat32Inner) : option Z :=
  find_slot (Z.to_nat (cluster_size f / 32)) (cluster_to_offset f c) p f.
Definition unused (raw : list Z) : bool := (nth 0 raw 0 =? 0xE5) || (nth 0 raw 0 =? 0).
Definition named (name : list Z) (raw : list Z) : bool := bool_decide (take 11 raw = name).

(** [write_dirent_to_dir]: the loop extends the directory when it is full. *)
Fixpoint add_dirent (fuel : nat) (c : Z) (name : list Z) (clus size : Z) (is_dir : bool) (f : Fat32Inner) : option (Fat32Inner * bool) :=
  match slot_in c unused f with
  | Some i => Some (put_bytes i (dirent_bytes name (if is_dir then ATTR_DIR else ATTR_ARCH) clus size) f, true)
  | None =>
      match fuel with
      | O => None
      | S fuel =>
          let next := fat_get f c in
          if FAT_EOC <=? next then
            match alloc_cluster f with
            | (f, Some new_c) => add_dirent fuel new_c name clus size is_dir (fat_set c new_c f)
            | (f, None) => Some (f, false)
            end
          else add_dirent fuel next name clus size is_dir f
      end
  end.
Definition write_dirent_to_dir (c : Z) (name : list Z) (clus size : Z) (is_dir : bool) (f : Fat32Inner) : option (Fat32Inner * bool) :=
  add_dirent (S (rounds f)) c name clus size is_dir f.

(** The slot of a name in the clusters from [c] on. *)
Fixpoint find_dirent (fuel : nat) (c : Z) (name : list Z) (f : Fat32Inner) : option (option Z) :=
  if in_chain c then
    match slot_in c (named name) f with
    | Some i => Some (Some i)
    | None => match fuel with O => None | S fuel => find_dirent fuel (fat_get f c) name f end
    end
  else Some None.
Definition remove_dirent_from_dir (c : Z) (name : list Z) (f : Fat32Inner) : option (Fat32Inner * bool) :=
  r ← find_dirent (rounds f) c name f;
  match r with
  | Some i => Some (put_bytes i [0xE5] f, true)
  | None => Some (f, false)
  end.
Definition update_dirent_size (c : Z) (name : list Z) (clus size : Z) (f : Fat32Inner) : option Fat32Inner :=
  r ← find_dirent (rounds f) c name f;
  match r with
  | Some i => Some (put_bytes (i + 26) (le_bytes 2 clus ++ le_bytes 4 size) (put_bytes (i + 20) (le_bytes 2 (Z.shiftr clus 16)) f))
  | None => Some f
  end.

(** ** Operations on inodes *)
Record FatInode := mkFi { fi_ino : Z; fi_mode : Z; fi_size : Z; fi_cluster : Z; fi_is_dir : bool; fi_parent : Z; fi_name83 : list Z }.

Definition fat_new (d : list Z) : option Fat32Inner :=
  if (length d <? 512)%nat then None
  else
    let reserved := word d 14 2 in
    let num_fats := nth 16 d 0 in
    let fat_size := word d 36 4 in
    Some (mkFat d (word d 11 2) (nth 13 d 0) reserved num_fats fat_size (word d 44 4) (wadd 32 reserved (wmul 32 num_fats fat_size)) false).

(** 0o755 is 493, 0o644 is 420. *)
Definition fat_root (f : Fat32Inner) : FatInode :=
  mkFi 1 (Z.lor S_IFDIR 493) 0 (root_clus f) true (root_clus f) (replicate 11 32).

Definition fat_read (v : FatInode) (n : nat) (offset : Z) (f : Fat32Inner) : option (result Z (list Z)) :=
  if fi_is_dir v then Some (Err EISDIR)
  else
    data ← read_chain (fi_cluster v) f;
    let start := Z.to_nat offset in
    let end_ := Nat.min (Nat.min (start + n) (Z.to_nat (fi_size v))) (length data) in
    Some (Ok (slice data start (end_ - start))).

(** The data with [buf] at [offset], the gap filled with zeros. *)
Definition overlay (data buf : list Z) (offset : nat) : list Z :=
  splice (data ++ replicate (offset + length buf - length data) 0) offset buf.
Definition store (v : FatInode) (data : list Z) (size : Z) (f : Fat32Inner) : option Fat32Inner :=
  '(f, r) ← (if 2 <=? fi_cluster v then write_chain (fi_cluster v) data f else alloc_chain data f);
  let new_clus := default (if 2 <=? fi_cluster v then fi_cluster v else 0) r in
  update_dirent_size (fi_parent v) (fi_name83 v) new_clus (wrap 32 size) f.
Definition fat_write (v : FatInode) (buf : list Z) (offset : Z) (f : Fat32Inner) : option (Fat32Inner * result Z nat) :=
  if fi_is_dir v then Some (f, Err EISDIR)
  else
    data ← (if 2 <=? fi_cluster v then read_chain (fi_cluster v) f else Some []);
    let data := overlay data buf (Z.to_nat offset) in
    f ← store v data (Z.of_nat (length data)) f;
    Some (f, Ok (length buf)).

Definition fat_truncate (v : FatInode) (size : Z) (f : Fat32Inner) : option (Fat32Inner * result Z unit) :=
  if fi_is_dir v then Some (f, Err EISDIR)
  else if size =? 0 then
    f ← (if 2 <=? fi_cluster v then free_chain (fi_cluster v) f else Some f);
    f ← update_dirent_size (fi_parent v) (fi_name83 v) 0 0 f;
    Some (f, Ok tt)
  else
    data ← read_chain (fi_cluster v) f;
    let len := Z.to_nat size in
    f ← store v (take len (data ++ replicate (len - length data) 0)) size f;
    Some (f, Ok tt).

Definition fat_readdir (v : FatInode) (f : Fat32Inner) : option (result Z (list (list Z * Z * Z))) :=
  if negb (fi_is_dir v) then Some (Err ENOTDIR)
  else
    data ← read_chain (fi_cluster v) f;
    Some (Ok (([46], fi_cluster v, 4) :: ([46; 46], fi_parent v, 4) ::
      map (λ '(name, clus, _, is_dir), (name, clus, if (is_dir : bool) then 4 else 8)) (entries_lfn data))).

(** The first entry with the name, and its number. *)
Fixpoint find_entry (name : list Z) (k : nat) (es : list Entry) : option (nat * Entry) :=
  match es with
  | [] => None
  | e :: es => if eq_ignore_case e.1.1.1 name then Some (k, e) else find_entry name (S k) es
  end.
Definition fat_lookup (v : FatInode) (name : list Z) (f : Fat32Inner) : option (result Z FatInode) :=
  if negb (fi_is_dir v) then Some (Err ENOTDIR)
  else
    data ← read_chain (fi_cluster v) f;
    match find_entry name 0 (entries_lfn data) with
    | None => Some (Err ENOENT)
    | Some (i, (ename, clus, size, is_dir)) =>
        let name83 := match entries data !! i with Some (n, _, _, _) => encode_83 n | None => encode_83 ename end in
        Some (Ok (mkFi clus (if (is_dir : bool) then Z.lor S_IFDIR 493 else Z.lor S_IFREG 420) size clus is_dir (fi_cluster v) name83))
    end.

Definition fat_create (v : FatInode) (name : list Z) (mode : Z) (f : Fat32Inner) : option (Fat32Inner * result Z FatInode) :=
  let name83 := encode_83 name in
  match alloc_cluster f with
  | (f, None) => Some (f, Err ENOSPC)
  | (f, Some new_clus) =>
      '(f, _) ← write_dirent_to_dir (fi_cluster v) name83 new_clus 0 false f;
      Some (f, Ok (mkFi new_clus (Z.lor S_IFREG (Z.land mode 511)) 0 new_clus false (fi_cluster v) name83))
  end.

(** The entry for "." or ".." in a new directory: only some fields are set. *)
Definition dot_entry (off : Z) (name : list Z) (clus : Z) (f : Fat32Inner) : Fat32Inner :=
  put_bytes (off + 26) (le_bytes 2 clus ++ le_bytes 4 0)
    (put_bytes (off + 20) (le_bytes 2 (Z.shiftr clus 16)) (put_bytes off (blanks 11 name ++ [ATTR_DIR]) f)).
Definition fat_mkdir (v : FatInode) (name : list Z) (mode : Z) (f : Fat32Inner) : option (Fat32Inner * result Z FatInode) :=
  let name83 := encode_83 name in
  match alloc_cluster f with
  | (f, None) => Some (f, Err ENOSPC)
  | (f, Some new_clus) =>
      let off := cluster_to_offset f new_clus in
      let f := if off + 64 <=? disk_len f then dot_entry (off + 32) [46; 46] (fi_cluster v) (dot_entry off [46] new_clus f) else f in
      '(f, _) ← write_dirent_to_dir (fi_cluster v) name83 new_clus 0 true f;
      Some (f, Ok (mkFi new_clus (Z.lor S_IFDIR (Z.land mode 511)) 0 new_clus true (fi_cluster v) name83))
  end.

Definition fat_unlink (v : FatInode) (name : list Z) (f : Fat32Inner) : option (Fat32Inner * result Z unit) :=
  data ← read_chain (fi_cluster v) f;
  match find_entry name 0 (entries_lfn data) with
  | None => Some (f, Err ENOENT)
  | Some (_, (_, clus, _, is_dir)) =>
      if (is_dir : bool) then Some (f, Err EISDIR)
      else
        f ← (if 2 <=? clus then free_chain clus f else Some f);
        '(f, _) ← remove_dirent_from_dir (fi_cluster v) (encode_83 name) f;
        Some (f, Ok tt)
  end.

Definition fat_rmdir (v : FatInode) (name : list Z) (f : Fat32Inner) : option (Fat32Inner * result Z unit) :=
  data ← read_chain (fi_cluster v) f;
  match find_entry name 0 (entries_lfn data) with
  | None => Some (f, Err ENOENT)
  | Some (_, (_, clus, _, is_dir)) =>
      if negb is_dir then Some (f, Err ENOTDIR)
      else
        let drop_entry f := '(f, _) ← remove_dirent_from_dir (fi_cluster v) (encode_83 name) f; Some (f, Ok tt) in
        if 2 <=? clus then
          dir ← read_chain clus f;
          if existsb (λ '(n, _, _, _), negb (bool_decide (n = [46] ∨ n = [46; 46]))) (entries dir) then Some (f, Err ENOTEMPTY)
          else f ← free_chain clus f; drop_entry f
        else drop_entry f
  end.
