(* ===== verification/FatFacts.v ===== *)
(** * Cluster chains

    On a disk whose geometry is consistent ([geo]), the table is a function
    from clusters to clusters and every cluster has its own bytes, so the
    operations on chains are described by what they do to the two functions.
    Writing a chain then reads back the data, frees what is left over, and
    leaves every other chain alone. *)
From S2P Require Import Prelude Bytes Utf8 Tmpfs TmpfsFile Fat.

(** ** Geometry *)
Definition entries_of (f : Fat32Inner) : Z := fat_size f * bps f / 4.
Record geo (f : Fat32Inner) : Prop := {
  g_bps : 0 < bps f;
  g_words : bps f mod 4 = 0;
  g_spc : 0 < spc f;
  g_reserved : 0 ≤ reserved f;
  g_fats : 1 ≤ num_fats f;
  g_size : 0 < fat_size f;
  g_start : data_start f = reserved f + num_fats f * fat_size f;
  g_fit : (data_start f + (entries_of f - 2) * spc f) * bps f ≤ disk_len f;
  g_u32 : (data_start f + entries_of f * spc f) * bps f < 2 ^ 32;
  g_entries : 2 ≤ entries_of f < FAT_EOC;
}.
Definition valid (f : Fat32Inner) (c : Z) : Prop := 2 ≤ c < entries_of f.
Definition csize (f : Fat32Inner) : Z := spc f * bps f.

(** Only bytes have changed. *)
Record same_geo (f f' : Fat32Inner) : Prop := {
  sg_bps : bps f' = bps f;
  sg_spc : spc f' = spc f;
  sg_reserved : reserved f' = reserved f;
  sg_fats : num_fats f' = num_fats f;
  sg_size : fat_size f' = fat_size f;
  sg_start : data_start f' = data_start f;
  sg_len : length (disk f') = length (disk f);
}.
Lemma same_geo_refl f : same_geo f f.
Proof. done. Qed.
Lemma same_geo_trans f g h : same_geo f g → same_geo g h → same_geo f h.
Proof. intros [] []. split; congruence. Qed.
Lemma same_geo_geo f f' : same_geo f f' → geo f → geo f'.
Proof.
  intros [H1 H2 H3 H4 H5 H6 H7] []. unfold entries_of, disk_len in *.
  split; unfold entries_of, disk_len; rewrite ?H1, ?H2, ?H3, ?H4, ?H5, ?H6, ?H7; try done; lia.
Qed.
Lemma same_geo_valid f f' c : same_geo f f' → valid f' c ↔ valid f c.
Proof. intros [H1 H2 H3 H4 H5 H6 H7]. unfold valid, entries_of. by rewrite H1, H5. Qed.
Lemma same_geo_csize f f' : same_geo f f' → csize f' = csize f.
Proof. intros [H1 H2 H3 H4 H5 H6 H7]. unfold csize. by rewrite H1, H2. Qed.

Section Geo.
Context (f : Fat32Inner) (G : geo f).

(** The table ends before the clusters; [B] is the size of one table. *)
Lemma geo_table : 4 * entries_of f = fat_size f * bps f.
Proof.
  destruct G. unfold entries_of. pose proof (Z.div_mod (fat_size f * bps f) 4).
  assert ((fat_size f * bps f) mod 4 = 0) by (rewrite <- Z.mul_mod_idemp_r, g_words0, Z.mul_0_r by lia; done). lia.
Qed.
Lemma csize_pos : 0 < csize f.
Proof. destruct G. unfold csize. nia. Qed.
Lemma wmul_small a b : 0 ≤ a * b < 2 ^ 32 → wmul 32 a b = a * b.
Proof. intros H. by apply wrap_small. Qed.

Lemma total_entries : total f = entries_of f.
Proof. unfold total. rewrite wmul_small; [done|]. pose proof geo_table. destruct G. unfold FAT_EOC in *. lia. Qed.

Lemma cluster_offset c : valid f c → cluster_to_offset f c = data_start f * bps f + (c - 2) * csize f.
Proof.
  intros Hc. destruct G. unfold valid in Hc. unfold cluster_to_offset, csize in *.
  assert (0 ≤ (c - 2) * spc f ≤ (entries_of f) * spc f) by nia.
  assert (0 ≤ num_fats f * fat_size f) by nia. assert (data_start f + (c - 2) * spc f ≤ (data_start f + entries_of f * spc f)) by lia.
  assert ((data_start f + (c - 2) * spc f) * bps f ≤ (data_start f + entries_of f * spc f) * bps f) by nia.
  assert ((data_start f + entries_of f * spc f) * 1 ≤ (data_start f + entries_of f * spc f) * bps f) by nia.
  unfold FAT_EOC in *. rewrite wsub_small by lia. rewrite (wmul_small (c - 2)) by lia. rewrite wadd_small by lia.
  assert (0 ≤ (data_start f + (c - 2) * spc f) * bps f) by nia. rewrite wmul_small by lia. lia.
Qed.

Lemma cluster_size_csize : cluster_size f = csize f.
Proof.
  destruct G. unfold cluster_size, csize. apply wmul_small. assert (0 ≤ num_fats f * fat_size f) by nia.
  assert (spc f * bps f ≤ (data_start f + entries_of f * spc f) * bps f) by nia. nia.
Qed.

(** The last cluster ends on the disk. *)
Lemma cluster_fits c : valid f c → cluster_to_offset f c + csize f ≤ disk_len f.
Proof.
  intros Hc. rewrite cluster_offset by done. destruct G. unfold valid in Hc.
  assert ((data_start f + (entries_of f - 2) * spc f) * bps f = data_start f * bps f + (entries_of f - 2) * csize f) as E by (unfold csize; ring).
  assert ((c - 2) * csize f + csize f ≤ (entries_of f - 2) * csize f) by (pose proof csize_pos; nia). lia.
Qed.

(** Where the entry of a cluster is in a copy of the table. *)
Definition entry_off (k c : Z) : Z := reserved f * bps f + k * (fat_size f * bps f) + 4 * c.
Lemma entry_before k c : 0 ≤ k < num_fats f → valid f c → 0 ≤ entry_off k c ∧ entry_off k c + 4 ≤ data_start f * bps f.
Proof.
  intros Hk Hc. unfold entry_off, valid in *. pose proof geo_table as Ht. destruct G. rewrite g_start0.
  assert ((reserved f + num_fats f * fat_size f) * bps f = reserved f * bps f + num_fats f * (fat_size f * bps f)) as -> by ring.
  assert (0 ≤ reserved f * bps f) by nia. assert (k * (fat_size f * bps f) + fat_size f * bps f ≤ num_fats f * (fat_size f * bps f)) by nia.
  assert (0 ≤ k * (fat_size f * bps f)) by nia. lia.
Qed.
Lemma data_fits : data_start f * bps f ≤ disk_len f.
Proof. destruct G. assert (0 ≤ (entries_of f - 2) * spc f * bps f) by nia. nia. Qed.
Lemma entry_fits k c : 0 ≤ k < num_fats f → valid f c → entry_off k c + 4 ≤ disk_len f.
Proof. intros Hk Hc. pose proof (entry_before k c Hk Hc). pose proof data_fits. lia. Qed.
Lemma data_u32 : data_start f * bps f < 2 ^ 32.
Proof. destruct G. assert (0 ≤ entries_of f * spc f * bps f) by nia. nia. Qed.

Lemma fat_offset_entry c : valid f c → fat_offset f c = entry_off 0 c.
Proof.
  intros Hc. unfold fat_offset, entry_off. pose proof (entry_before 0 c ltac:(destruct G; lia) Hc) as H. pose proof data_u32. unfold entry_off, valid in *.
  rewrite wmul_small; [lia|]. destruct G. nia.
Qed.
Lemma fat_copy_offset k c : 0 ≤ k < num_fats f → valid f c →
  wmul 32 (wadd 32 (reserved f) (wmul 32 k (fat_size f))) (bps f) + c * 4 = entry_off k c.
Proof.
  intros Hk Hc. pose proof (entry_before k c Hk Hc) as H. pose proof data_u32 as Hu. unfold entry_off, valid in *. destruct G.
  assert (0 ≤ k * fat_size f ≤ k * fat_size f * bps f) by nia. assert (0 ≤ reserved f ≤ reserved f * bps f) by nia.
  assert (k * fat_size f * bps f = k * (fat_size f * bps f)) by ring.
  rewrite (wmul_small k) by lia. rewrite wadd_small by lia. rewrite wmul_small by (rewrite Z.mul_add_distr_r; lia). ring.
Qed.
End Geo.

(** ** Writing bytes *)
Lemma put_same_geo off bs f : 0 ≤ off → off + Z.of_nat (length bs) ≤ disk_len f → same_geo f (put_bytes off bs f).
Proof. intros H1 H2. unfold disk_len in H2. split; try done. cbn. apply length_splice. lia. Qed.

(** What a slice reads when it does not touch the bytes written. *)
Lemma put_slice off bs f a n : 0 ≤ off → off + Z.of_nat (length bs) ≤ disk_len f → 0 ≤ a →
  a + Z.of_nat n ≤ off ∨ off + Z.of_nat (length bs) ≤ a →
  slice (disk (put_bytes off bs f)) (Z.to_nat a) n = slice (disk f) (Z.to_nat a) n.
Proof. intros H1 H2 H3 H4. unfold disk_len in H2. cbn. apply slice_other; lia. Qed.

Lemma get_entry f c : geo f → valid f c →
  fat_get f c = Z.land (le_value (slice (disk f) (Z.to_nat (entry_off f 0 c)) 4)) 0x0FFFFFFF.
Proof.
  intros G Hc. unfold fat_get. rewrite fat_offset_entry by done. pose proof (entry_fits f G 0 c ltac:(destruct G; lia) Hc) as Hf.
  by rewrite (proj2 (Z.ltb_ge _ _)) by lia.
Qed.
Lemma get_data f c : geo f → valid f c → cluster_data f c = slice (disk f) (Z.to_nat (cluster_to_offset f c)) (Z.to_nat (csize f)).
Proof.
  intros G Hc. unfold cluster_data. rewrite cluster_size_csize by done. pose proof (cluster_fits f G c Hc) as Hf.
  by rewrite (proj2 (Z.leb_le _ _)) by lia.
Qed.
Lemma same_entry_off f f' k c : same_geo f f' → entry_off f' k c = entry_off f k c.
Proof. intros [H1 H2 H3 H4 H5 H6 H7]. unfold entry_off. by rewrite H1, H3, H5. Qed.
Lemma same_cluster_off f f' c : same_geo f f' → cluster_to_offset f' c = cluster_to_offset f c.
Proof. intros [H1 H2 H3 H4 H5 H6 H7]. unfold cluster_to_offset. by rewrite H1, H2, H6. Qed.

Lemma put_get f off bs c : geo f → valid f c → 0 ≤ off → off + Z.of_nat (length bs) ≤ disk_len f →
  entry_off f 0 c + 4 ≤ off ∨ off + Z.of_nat (length bs) ≤ entry_off f 0 c → fat_get (put_bytes off bs f) c = fat_get f c.
Proof.
  intros G Hc H1 H2 H3. pose proof (put_same_geo off bs f H1 H2) as Hs. pose proof (entry_before f G 0 c ltac:(destruct G; lia) Hc) as [H0 _].
  rewrite (get_entry f c G Hc), (get_entry (put_bytes off bs f) c) by (by eapply same_geo_geo || by apply (same_geo_valid _ _ _ Hs)). rewrite (same_entry_off _ _ _ _ Hs), put_slice by (done || lia). done.
Qed.
Lemma put_data f off bs c : geo f → valid f c → 0 ≤ off → off + Z.of_nat (length bs) ≤ disk_len f →
  cluster_to_offset f c + csize f ≤ off ∨ off + Z.of_nat (length bs) ≤ cluster_to_offset f c →
  cluster_data (put_bytes off bs f) c = cluster_data f c.
Proof.
  intros G Hc H1 H2 H3. pose proof (put_same_geo off bs f H1 H2) as Hs. pose proof (csize_pos f G) as Hcs.
  assert (0 ≤ cluster_to_offset f c).
  { rewrite cluster_offset by done. pose proof (entry_before f G 0 c ltac:(destruct G; lia) Hc). unfold valid in Hc. nia. }
  rewrite (get_data f c G Hc), (get_data (put_bytes off bs f) c) by (by eapply same_geo_geo || by apply (same_geo_valid _ _ _ Hs)).
  rewrite (same_cluster_off _ _ _ Hs), (same_geo_csize _ _ Hs), put_slice by (done || lia). done.
Qed.

(** An effect on the table and on the clusters. *)
Record effect (f f' : Fat32Inner) (table : Z → Z) (data : Z → list Z) : Prop := {
  ef_geo : same_geo f f';
  ef_table c : valid f c → fat_get f' c = table c;
  ef_data c : valid f c → cluster_data f' c = data c;
}.
Definition upd {A} (c : Z) (v : A) (g : Z → A) : Z → A := λ x, if decide (x = c) then v else g x.

Lemma effect_trans f f1 f2 t1 d1 t2 d2 :
  effect f f1 t1 d1 → effect f1 f2 t2 d2 → effect f f2 t2 d2.
Proof.
  intros [G1 T1 D1] [G2 T2 D2]. split; [by eapply same_geo_trans|..]; intros c Hc; [apply T2|apply D2]; by apply (same_geo_valid f f1).
Qed.
Lemma effect_ext f f' t d t' d' : effect f f' t d → (∀ c, valid f c → t c = t' c) → (∀ c, valid f c → d c = d' c) → effect f f' t' d'.
Proof. intros [G T D] Ht Hd. split; [done|..]; intros c Hc; [by rewrite T, Ht|by rewrite D, Hd]. Qed.

Lemma effect_dirty f f' t d : effect f f' t d → effect f (set_disk (disk f') f') t d.
Proof. intros [[] T D]. split; [done|..]; intros c Hc; [by rewrite <- T|by rewrite <- D]. Qed.

(** ** The table *)
Lemma entry_disjoint f k c c' : geo f → 0 ≤ k < num_fats f → valid f c → valid f c' → (k ≠ 0 ∨ c' ≠ c) →
  entry_off f 0 c' + 4 ≤ entry_off f k c ∨ entry_off f k c + 4 ≤ entry_off f 0 c'.
Proof.
  intros G Hk Hc Hc' Hne. pose proof (geo_table f G) as Ht. unfold entry_off, valid in *. destruct (decide (k = 0)) as [->|Hk0]; [lia|].
  left. assert (fat_size f * bps f ≤ k * (fat_size f * bps f)) by (destruct G; nia). lia.
Qed.

Lemma fat_set_one_effect f k c v : geo f → 0 ≤ Z.of_nat k < num_fats f → valid f c → 0 ≤ v < 2 ^ 28 →
  effect f (fat_set_one c v f k) (λ x, if decide (k = 0%nat ∧ x = c) then v else fat_get f x) (cluster_data f).
Proof.
  intros G Hk Hc Hv. unfold fat_set_one. rewrite fat_copy_offset by done. pose proof (entry_fits f G (Z.of_nat k) c Hk Hc) as Hfit.
  pose proof (entry_before f G (Z.of_nat k) c Hk Hc) as [H0 Hbefore]. rewrite (proj2 (Z.leb_le _ _)) by lia.
  assert (same_geo f (put_bytes (entry_off f (Z.of_nat k) c) (le_bytes 4 v) f)) as Hs by (apply put_same_geo; [lia|rewrite length_le_bytes; lia]).
  split; [done|..]; intros x Hx.
  - case_decide as Hcase.
    + destruct Hcase as [-> ->]. rewrite get_entry by (by eapply same_geo_geo || by apply (same_geo_valid _ _ _ Hs)). rewrite (same_entry_off _ _ _ _ Hs). cbn [disk put_bytes set_disk].
      change (Z.of_nat 0) with 0 in *. replace 4%nat with (length (le_bytes 4 v)) at 2 by apply length_le_bytes.
      rewrite slice_same by (rewrite length_le_bytes; unfold disk_len in Hfit; lia). rewrite le_value_bytes. change (8 * Z.of_nat 4) with 32.
      rewrite wrap_small by (split; lia). change 0x0FFFFFFF with (Z.ones 28). rewrite Z.land_ones by lia. apply Z.mod_small. lia.
    + apply put_get; try done. rewrite length_le_bytes. apply entry_disjoint; try done.
      destruct (decide (k = 0%nat)); [right; intros ->; by apply Hcase|left; lia].
  - apply put_data; try done. right. rewrite length_le_bytes, cluster_offset by done.
    pose proof (csize_pos f G). unfold valid in Hx. nia.
Qed.

Lemma fat_set_effect f c v : geo f → valid f c → 0 ≤ v < 2 ^ 28 → effect f (fat_set c v f) (upd c v (fat_get f)) (cluster_data f).
Proof.
  intros G Hc Hv. unfold fat_set. apply effect_dirty.
  assert (∀ ks g, same_geo f g → Forall (λ k, 1 ≤ Z.of_nat k < num_fats f) ks → effect g (fold_left (fat_set_one c v) ks g) (fat_get g) (cluster_data g)) as Hrest.
  { induction ks as [|k ks IH]; intros g Hg Hks; [by split|]. apply Forall_cons in Hks as [Hk Hks]. cbn [fold_left].
    pose proof (fat_set_one_effect g k c v (same_geo_geo _ _ Hg G)) as H1. destruct H1 as [E1 T1 D1]; [rewrite (sg_fats _ _ Hg); lia|by apply (same_geo_valid f g)|done|].
    eapply effect_ext; [eapply effect_trans; [by split|apply IH; [by eapply same_geo_trans|done]]|..]; intros x Hx.
    - rewrite T1 by done. rewrite decide_False by lia. done.
    - by rewrite D1. }
  destruct (Z.to_nat (num_fats f)) as [|n] eqn:Hn; [destruct G; lia|]. cbn [List.seq fold_left].
  pose proof (fat_set_one_effect f 0 c v G ltac:(destruct G; lia) Hc Hv) as H0.
  eapply effect_ext; [eapply effect_trans; [exact H0|apply Hrest; [apply H0|]]|..]; try (intros x Hx).
  - apply Forall_forall. intros k Hk. apply elem_of_seq in Hk. lia.
  - rewrite (ef_table _ _ _ _ H0) by done. unfold upd. destruct (decide (x = c)) as [->|]; [by rewrite decide_True|by rewrite decide_False by tauto].
  - by rewrite (ef_data _ _ _ _ H0).
Qed.

(** ** Clusters *)
Lemma cluster_disjoint f c c' : geo f → valid f c → valid f c' → c ≠ c' →
  cluster_to_offset f c' + csize f ≤ cluster_to_offset f c ∨ cluster_to_offset f c + csize f ≤ cluster_to_offset f c'.
Proof. intros G Hc Hc' Hne. rewrite !cluster_offset by done. pose proof (csize_pos f G). destruct (Z.lt_total c c') as [?|[?|?]]; [right|done|left]; nia. Qed.

(** Bytes put into a cluster. *)
Lemma put_cluster_effect f c bs : geo f → valid f c → Z.of_nat (length bs) = csize f →
  effect f (put_bytes (cluster_to_offset f c) bs f) (fat_get f) (upd c bs (cluster_data f)).
Proof.
  intros G Hc Hl. pose proof (cluster_fits f G c Hc) as Hfit.
  assert (0 ≤ cluster_to_offset f c) as H0.
  { rewrite cluster_offset by done. pose proof (entry_before f G 0 c ltac:(destruct G; lia) Hc). pose proof (csize_pos f G). unfold valid in Hc. nia. }
  assert (same_geo f (put_bytes (cluster_to_offset f c) bs f)) as Hs by (apply put_same_geo; lia).
  split; [done|..]; intros x Hx.
  - apply put_get; try done; [lia|]. left. pose proof (entry_before f G 0 x ltac:(destruct G; lia) Hx). rewrite cluster_offset by done.
    pose proof (csize_pos f G). unfold valid in Hc. nia.
  - unfold upd. case_decide as Hxc.
    + subst x. rewrite get_data by (by eapply same_geo_geo || by apply (same_geo_valid _ _ _ Hs)). rewrite (same_cluster_off _ _ _ Hs), (same_geo_csize _ _ Hs).
      rewrite <- Hl, Nat2Z.id. apply slice_same. unfold disk_len in Hfit. lia.
    + apply put_data; try done; [lia|]. rewrite Hl. by apply cluster_disjoint.
Qed.

Definition zeros (f : Fat32Inner) : list Z := replicate (Z.to_nat (csize f)) 0.

Lemma zero_cluster_effect f c : geo f → valid f c → effect f (zero_cluster c f) (fat_get f) (upd c (zeros f) (cluster_data f)).
Proof.
  intros G Hc. unfold zero_cluster. rewrite cluster_size_csize by done. pose proof (cluster_fits f G c Hc). rewrite (proj2 (Z.leb_le _ _)) by lia.
  apply put_cluster_effect; try done. unfold zeros. rewrite length_replicate. pose proof (csize_pos f G). lia.
Qed.

Lemma write_cluster_effect f c chunk : geo f → valid f c → (length chunk ≤ Z.to_nat (csize f))%nat →
  effect f (write_cluster true c chunk f) (fat_get f) (upd c (chunk ++ replicate (Z.to_nat (csize f) - length chunk) 0) (cluster_data f)).
Proof.
  intros G Hc Hl. unfold write_cluster. rewrite cluster_size_csize by done. pose proof (cluster_fits f G c Hc). rewrite (proj2 (Z.leb_le _ _)) by lia.
  apply put_cluster_effect; try done. rewrite length_app, length_replicate. pose proof (csize_pos f G). lia.
Qed.

(** ** Allocation *)
Lemma scan_free_spec n c f :
  match find_free n c f with
  | Some x => c ≤ x < c + Z.of_nat n ∧ fat_get f x = FAT_FREE ∧ ∀ y, c ≤ y < x → fat_get f y ≠ FAT_FREE
  | None => ∀ y, c ≤ y < c + Z.of_nat n → fat_get f y ≠ FAT_FREE
  end.
Proof.
  revert c. induction n as [|n IH]; intros c; cbn [find_free]; [intros y ?; lia|]. destruct (Z.eqb_spec (fat_get f c) FAT_FREE) as [E|E].
  - split_and!; [lia|lia|done|]. intros y ?. lia.
  - specialize (IH (c + 1)). destruct (find_free n (c + 1) f) as [x|].
    + destruct IH as (Hx & Hf & Hb). split_and!; [lia|lia|done|]. intros y Hy. destruct (decide (y = c)) as [->|]; [done|apply Hb; lia].
    + intros y Hy. destruct (decide (y = c)) as [->|]; [done|apply IH; lia].
Qed.

(** The lowest free cluster, marked and zeroed. *)
Lemma alloc_cluster_spec f : geo f →
  match alloc_cluster f with
  | (f', Some c) => valid f c ∧ fat_get f c = FAT_FREE ∧ (∀ y, 2 ≤ y < c → fat_get f y ≠ FAT_FREE) ∧
      effect f f' (upd c FAT_EOC (fat_get f)) (upd c (zeros f) (cluster_data f))
  | (f', None) => f' = f ∧ ∀ c, valid f c → fat_get f c ≠ FAT_FREE
  end.
Proof.
  intros G. unfold alloc_cluster. rewrite total_entries by done. pose proof (scan_free_spec (Z.to_nat (entries_of f - 2)) 2 f) as Hf.
  assert (2 ≤ entries_of f) as H2 by (destruct G; lia).
  destruct (find_free _ 2 f) as [c|].
  - destruct Hf as (Hc & Hfree & Hlow). assert (valid f c) as Hv by (unfold valid; lia). split_and!; try done.
    pose proof (fat_set_effect f c FAT_EOC G Hv ltac:(unfold FAT_EOC; lia)) as H1. pose proof (ef_geo _ _ _ _ H1) as Hs.
    pose proof (zero_cluster_effect (fat_set c FAT_EOC f) c (same_geo_geo _ _ Hs G) (proj2 (same_geo_valid _ _ c Hs) Hv)) as Hz.
    eapply effect_ext; [by eapply effect_trans|..]; intros x Hx; [by apply H1|]. unfold upd, zeros. rewrite (same_geo_csize _ _ Hs).
    case_decide; [done|]. by apply H1.
  - split; [done|]. intros c Hc. apply Hf. unfold valid in Hc. lia.
Qed.

(** ** Chains *)
Fixpoint linked (t : Z → Z) (cs : list Z) : Prop :=
  match cs with
  | [] => True
  | c :: r => match r with [] => FAT_EOC ≤ t c | d :: _ => t c = d end ∧ linked t r
  end.
Record chain (f : Fat32Inner) (cs : list Z) : Prop := {
  ch_valid : Forall (valid f) cs;
  ch_nodup : NoDup cs;
  ch_linked : linked (fat_get f) cs;
}.

Lemma linked_ext t t' cs : (∀ c, c ∈ cs → t c = t' c) → linked t cs → linked t' cs.
Proof.
  induction cs as [|c [|d r] IH]; intros He; cbn; [done|intros [H _]; split; [rewrite <- He by set_solver; done|done]|].
  intros [H Hl]. split; [rewrite <- He by set_solver; done|]. apply IH; [|done]. intros x Hx. apply He. set_solver.
Qed.

Lemma linked_snoc t cs l c : linked t (cs ++ [l]) → c ∉ cs ++ [l] → NoDup (cs ++ [l]) →
  linked (upd l c (upd c FAT_EOC t)) ((cs ++ [l]) ++ [c]).
Proof.
  induction cs as [|x cs IH]; intros Hl Hc Hn.
  - cbn in *. split_and!; [unfold upd; by rewrite decide_True| |done]. unfold upd. rewrite decide_False by set_solver. by rewrite decide_True.
  - cbn [app] in *. apply NoDup_cons in Hn as [Hx Hn]. destruct Hl as [H0 Hl]. split.
    + assert (upd l c (upd c FAT_EOC t) x = t x) as E by (unfold upd; rewrite !decide_False by set_solver; done).
      destruct (cs ++ [l]) as [|y r] eqn:Ey; [by destruct cs|]. cbn. by rewrite E.
    + apply IH; [done|set_solver|done].
Qed.

Lemma linked_take t cs n : linked t cs → (0 < n)%nat → (n ≤ length cs)%nat → NoDup cs →
  linked (upd (nth (n - 1) cs 0) FAT_EOC t) (take n cs).
Proof.
  revert n. induction cs as [|c cs IH]; intros n Hl H0 Hn Hnd; [cbn in Hn; lia|]. apply NoDup_cons in Hnd as [Hc Hnd].
  destruct Hl as [H1 Hl]. destruct n as [|[|n]]; [lia| |].
  - cbn. split; [|done]. unfold upd. by rewrite decide_True.
  - change (take (S (S n)) (c :: cs)) with (c :: take (S n) cs). replace (nth (S (S n) - 1) (c :: cs) 0) with (nth (S n - 1) cs 0) by (cbn; by rewrite Nat.sub_0_r).
    cbn [length] in Hn. split; [|apply IH; [done|lia|lia|done]].
    destruct cs as [|d cs]; [cbn in Hn; lia|]. cbn [take]. unfold upd. rewrite decide_False; [done|].
    intros ->. apply Hc. apply list_elem_of_In, nth_In. cbn [length] in *. lia.
Qed.

Lemma linked_head t c cs d r : linked t (c :: cs) → cs = d :: r → t c = d.
Proof. intros [H _] ->. done. Qed.

(** A chain is short, and [chain_of] finds it. *)
Lemma valid_length f cs : Forall (valid f) cs → NoDup cs → Z.of_nat (length cs) ≤ Z.max 0 (entries_of f - 2).
Proof.
  intros Hv Hn. assert (length cs ≤ length (seqZ 2 (entries_of f - 2)))%nat as H.
  { apply submseteq_length, NoDup_submseteq; [done|]. intros c Hc. rewrite Forall_forall in Hv. specialize (Hv c Hc). unfold valid in Hv.
    apply elem_of_seqZ. lia. }
  rewrite length_seqZ in H. lia.
Qed.

Lemma chain_from_spec f cs fuel : geo f → Forall (valid f) cs → linked (fat_get f) cs → (length cs ≤ fuel)%nat →
  ∀ c, head cs = Some c → chain_from fuel c f = Some cs.
Proof.
  intros G. revert fuel. induction cs as [|c cs IH]; intros fuel Hv Hl Hf x; [done|]. intros [= <-]. apply Forall_cons in Hv as [Hc Hv].
  destruct fuel as [|fuel]; [cbn in Hf; lia|]. cbn [chain_from length] in *.
  assert (in_chain c = true) as ->.
  { unfold in_chain, valid in *. destruct G. rewrite (proj2 (Z.ltb_lt _ _)) by lia. by rewrite (proj2 (Z.leb_le _ _)) by lia. }
  destruct Hl as [H0 Hl]. destruct cs as [|d cs].
  - assert (chain_from fuel (fat_get f c) f = Some []) as ->; [|done]. unfold chain_from. destruct fuel.
    all: assert (in_chain (fat_get f c) = false) as -> by (unfold in_chain; by rewrite (proj2 (Z.ltb_ge _ _))); done.
  - rewrite H0. by rewrite (IH fuel) by (done || lia).
Qed.

Lemma entries_words f : geo f → entries_of f ≤ disk_len f / 4.
Proof.
  intros G. apply Z.div_le_lower_bound; [lia|]. rewrite (geo_table f G). pose proof (data_fits f G) as Hd. destruct G. rewrite g_start0 in Hd.
  assert ((reserved f + num_fats f * fat_size f) * bps f = reserved f * bps f + num_fats f * (fat_size f * bps f)) by ring. nia.
Qed.

Lemma chain_of_spec f cs c : geo f → chain f cs → head cs = Some c → chain_of c f = Some cs.
Proof.
  intros G [Hv Hn Hl] Hh. apply chain_from_spec; try done. unfold rounds. pose proof (valid_length f cs Hv Hn). pose proof (entries_words f G).
  assert (2 ≤ entries_of f) by (destruct G; lia). lia.
Qed.

Lemma chain_same f f' cs : same_geo f f' → (∀ c, c ∈ cs → fat_get f' c = fat_get f c) → chain f cs → chain f' cs.
Proof.
  intros Hs He [Hv Hn Hl]. split; [|done|].
  - eapply Forall_impl; [done|]. intros c. by apply (same_geo_valid f f').
  - eapply linked_ext; [|done]. intros c Hc. by rewrite He.
Qed.

(** No cluster of a chain is free. *)
Lemma chain_not_free f cs c : geo f → chain f cs → c ∈ cs → fat_get f c ≠ FAT_FREE.
Proof.
  intros G [Hv _ Hl]. revert Hv Hl. induction cs as [|x cs IH]; intros Hv Hl Hc; [set_solver|]. apply Forall_cons in Hv as [_ Hv].
  destruct Hl as [H0 Hl]. apply elem_of_cons in Hc as [->|Hc]; [|by apply IH].
  destruct cs as [|d cs]; [unfold FAT_EOC, FAT_FREE in *; lia|]. apply Forall_cons in Hv as [Hd _]. unfold valid, FAT_FREE in *. lia.
Qed.
Lemma chain_nil f : chain f [].
Proof. by split; [|apply NoDup_nil_2|]. Qed.

(** ** Growing a chain *)
Record grown (f f' : Fat32Inner) (cs new : list Z) : Prop := {
  gr_geo : same_geo f f';
  gr_chain : chain f' (cs ++ new);
  gr_free c : c ∈ new → fat_get f c = FAT_FREE;
  gr_table c : valid f c → c ∉ cs ++ new → fat_get f' c = fat_get f c;
  gr_data c : valid f c → cluster_data f' c = if decide (c ∈ new) then zeros f else cluster_data f c;
}.

Lemma grow_one f f1 cs c : geo f → chain f cs → alloc_cluster f = (f1, Some c) →
  grown f (match last cs with Some l => fat_set l c f1 | None => f1 end) cs [c].
Proof.
  intros G Hch Ha. pose proof (alloc_cluster_spec f G) as Hs. rewrite Ha in Hs. destruct Hs as (Hv & Hfree & _ & He).
  assert (c ∉ cs) as Hnew by (intros Hc; by eapply chain_not_free).
  assert (∀ t, t c = FAT_FREE → linked (upd c FAT_EOC t) [c]) as Hone by (intros t _; cbn; unfold upd; by rewrite decide_True).
  destruct Hch as [Hval Hnd Hl]. destruct (last cs) as [l|] eqn:Hlast.
  - apply last_Some in Hlast as [r ->]. assert (valid f l) as Hvl by (rewrite Forall_app, Forall_singleton in Hval; tauto).
    pose proof (ef_geo _ _ _ _ He) as Hg. assert (valid f1 l) as Hvl1 by by apply (same_geo_valid f f1).
    pose proof (fat_set_effect f1 l c (same_geo_geo _ _ Hg G) Hvl1 ltac:(destruct G; unfold valid, FAT_EOC in *; lia)) as H1.
    pose proof (effect_trans _ _ _ _ _ _ _ He H1) as H2. split.
    + apply H2.
    + assert (NoDup ((r ++ [l]) ++ [c])) as Hnd' by (apply NoDup_app; split_and!; [done|set_solver|apply NoDup_singleton]).
      assert (Forall (valid f) ((r ++ [l]) ++ [c])) as Hval' by (rewrite Forall_app, Forall_singleton; done).
      split; [|done|].
      * eapply Forall_impl; [done|]. intros x. apply (same_geo_valid f). apply H2.
      * eapply linked_ext; [|by apply linked_snoc]. intros x Hx. rewrite Forall_forall in Hval'. pose proof (Hval' x Hx) as Hvx.
        rewrite (ef_table _ _ _ _ H2) by done. unfold upd. case_decide; [done|]. rewrite (ef_table _ _ _ _ He) by done. done.
    + set_solver.
    + intros x Hx Hni. rewrite (ef_table _ _ _ _ H2) by done. unfold upd. rewrite decide_False by set_solver.
      rewrite (ef_table _ _ _ _ He) by done. unfold upd. by rewrite decide_False by set_solver.
    + intros x Hx. rewrite (ef_data _ _ _ _ H2), (ef_data _ _ _ _ He) by done. unfold upd. destruct (decide (x = c)) as [->|]; [by rewrite decide_True by set_solver|].
      by rewrite decide_False by set_solver.
  - apply last_None in Hlast as ->. split.
    + apply He.
    + split; [|apply NoDup_singleton|].
      * apply Forall_singleton. apply (same_geo_valid f); [apply He|done].
      * eapply linked_ext; [|by apply (Hone (fat_get f))]. intros x Hx. symmetry. apply He. set_solver.
    + set_solver.
    + intros x Hx Hni. rewrite (ef_table _ _ _ _ He) by done. unfold upd. by rewrite decide_False by set_solver.
    + intros x Hx. rewrite (ef_data _ _ _ _ He) by done. unfold upd. destruct (decide (x = c)) as [->|]; [by rewrite decide_True by set_solver|].
      by rewrite decide_False by set_solver.
Qed.

Lemma grown_nil f cs : chain f cs → grown f f cs [].
Proof.
  intros Hc. split; [done|by rewrite app_nil_r|set_solver|done|]. intros c Hv. by rewrite decide_False by set_solver.
Qed.
Lemma grown_trans f f1 f2 cs a b : grown f f1 cs a → grown f1 f2 (cs ++ a) b → grown f f2 cs (a ++ b).
Proof.
  intros [G1 C1 F1 T1 D1] [G2 C2 F2 T2 D2]. rewrite <- app_assoc in C2, T2. pose proof (same_geo_valid f f1) as Hv.
  assert (NoDup (cs ++ a ++ b)) as Hnd by apply C2. assert (Forall (valid f2) (cs ++ a ++ b)) as Hval by apply C2.
  assert (∀ c, c ∈ b → valid f c) as Hvb.
  { intros c Hc. rewrite Forall_forall in Hval. specialize (Hval c ltac:(set_solver)). apply (same_geo_valid f f1), (same_geo_valid f1 f2); done. }
  split; [by eapply same_geo_trans|done|..].
  - intros c [Hc|Hc]%elem_of_app; [by apply F1|]. rewrite <- T1; [by apply F2|by apply Hvb|].
    rewrite app_assoc in Hnd. apply NoDup_app in Hnd as (_ & Hd & _). intros Hin. by apply (Hd c).
  - intros c Hc Hni. rewrite T2; [apply T1; set_solver|by apply Hv|done].
  - intros c Hc. rewrite D2 by by apply Hv. unfold zeros. rewrite (same_geo_csize _ _ G1). destruct (decide (c ∈ b)).
    + by rewrite decide_True by set_solver.
    + rewrite D1 by done. destruct (decide (c ∈ a)); [by rewrite decide_True by set_solver|by rewrite decide_False by set_solver].
Qed.

Lemma extend_spec n cs f : geo f → chain f cs →
  ∃ new f' r, extend n cs f = (f', r) ∧ grown f f' cs new ∧
    match r with
    | Some cs' => cs' = cs ++ new ∧ length new = n
    | None => (length new < n)%nat ∧ ∀ c, valid f c → fat_get f' c ≠ FAT_FREE
    end.
Proof.
  revert cs f. induction n as [|n IH]; intros cs f G Hc; cbn [extend].
  - exists [], f, (Some cs). split_and!; [done|by apply grown_nil|by rewrite app_nil_r|done].
  - destruct (alloc_cluster f) as [f1 [c|]] eqn:Ha.
    + pose proof (grow_one f f1 cs c G Hc Ha) as H1. set (f2 := match last cs with Some l => fat_set l c f1 | None => f1 end) in *.
      destruct (IH (cs ++ [c]) f2) as (new & f' & r & -> & H2 & Hr); [eapply same_geo_geo; [apply H1|done]|apply H1|].
      exists (c :: new), f', r. split_and!; [done|by apply (grown_trans f f2 f' cs [c] new)|].
      destruct r as [cs'|]; cbn [length]; [destruct Hr as [-> <-]; by rewrite <- app_assoc|].
      destruct Hr as [Hlt Hr]. split; [lia|]. intros x Hx. apply Hr. apply (same_geo_valid f); [apply H1|done].
    + pose proof (alloc_cluster_spec f G) as Hs. rewrite Ha in Hs. destruct Hs as [-> Hs].
      exists [], f, None. split_and!; [done|by apply grown_nil|cbn; lia|done].
Qed.

(** ** Freeing *)
Definition free_clusters (cs : list Z) (f : Fat32Inner) : Fat32Inner := fold_left (λ f c, fat_set c FAT_FREE f) cs f.

Lemma free_clusters_effect cs f : geo f → Forall (valid f) cs →
  effect f (free_clusters cs f) (λ c, if decide (c ∈ cs) then FAT_FREE else fat_get f c) (cluster_data f).
Proof.
  revert f. induction cs as [|c cs IH]; intros f G Hv; [by split|]. apply Forall_cons in Hv as [Hc Hv]. cbn [free_clusters fold_left].
  pose proof (fat_set_effect f c FAT_FREE G Hc ltac:(unfold FAT_FREE; lia)) as H1. pose proof (ef_geo _ _ _ _ H1) as Hg.
  eapply effect_ext; [eapply effect_trans; [exact H1|apply IH]|..]; try (intros x Hx; cbn beta).
  - by eapply same_geo_geo.
  - eapply Forall_impl; [done|]. intros x. by apply (same_geo_valid f).
  - rewrite (ef_table _ _ _ _ H1) by done. unfold upd. destruct (decide (x = c)) as [->|]; [rewrite (decide_True (P := c ∈ c :: cs)) by set_solver; by case_decide|].
    destruct (decide (x ∈ cs)); [by rewrite decide_True by set_solver|by rewrite decide_False by set_solver].
  - by rewrite (ef_data _ _ _ _ H1).
Qed.

Lemma valid_in_chain f c : geo f → valid f c → in_chain c = true.
Proof. intros G Hc. destruct G. unfold in_chain, valid in *. by rewrite (proj2 (Z.ltb_lt _ _)), (proj2 (Z.leb_le _ _)) by lia. Qed.
Lemma eoc_not_in_chain c : FAT_EOC ≤ c → in_chain c = false.
Proof. intros H. unfold in_chain. by rewrite (proj2 (Z.ltb_ge _ _)). Qed.

Lemma free_chain_loop cs f fuel c : geo f → chain f cs → head cs = Some c → (length cs ≤ fuel)%nat →
  free_loop fuel c f = Some (free_clusters cs f).
Proof.
  revert f fuel c. induction cs as [|x cs IH]; intros f fuel c G Hch [= <-] Hf. destruct fuel as [|fuel]; [cbn in Hf; lia|].
  destruct Hch as [Hv Hnd Hl]. apply Forall_cons in Hv as [Hx Hv]. apply NoDup_cons in Hnd as [Hni Hnd]. destruct Hl as [H0 Hl].
  cbn [free_loop length] in *. rewrite (valid_in_chain f) by done.
  pose proof (fat_set_effect f x FAT_FREE G Hx ltac:(unfold FAT_FREE; lia)) as H1. pose proof (ef_geo _ _ _ _ H1) as Hg.
  destruct cs as [|d cs].
  - destruct fuel; cbn [free_loop]; rewrite eoc_not_in_chain by done; reflexivity.
  - rewrite H0. apply (IH (fat_set x FAT_FREE f)); [by eapply same_geo_geo| |done|lia].
    eapply (chain_same f); [done| |by split]. intros y Hy. rewrite (ef_table _ _ _ _ H1); [|by rewrite Forall_forall in Hv; apply Hv].
    unfold upd. by rewrite decide_False by set_solver.
Qed.

Lemma chain_rounds f cs : geo f → chain f cs → (length cs ≤ rounds f)%nat.
Proof.
  intros G [Hv Hn _]. unfold rounds. pose proof (valid_length f cs Hv Hn). pose proof (entries_words f G).
  assert (2 ≤ entries_of f) by (destruct G; lia). lia.
Qed.

(** ** Cutting *)
Lemma cut_chain_effect n cs f : geo f → chain f cs → (0 < n < length cs)%nat →
  effect f (cut_chain n cs f)
    (λ c, if decide (c ∈ drop n cs) then FAT_FREE else upd (nth (n - 1) cs 0) FAT_EOC (fat_get f) c) (cluster_data f).
Proof.
  intros G Hch Hn. unfold cut_chain. rewrite (proj2 (Nat.ltb_lt n (length cs))), (proj2 (Nat.ltb_lt 0 n)) by lia. cbn [andb].
  assert (Forall (valid f) cs) as Hv by apply Hch. assert (valid f (nth (n - 1) cs 0)) as Hl.
  { rewrite Forall_forall in Hv. apply Hv. apply list_elem_of_In, nth_In. lia. }
  pose proof (fat_set_effect f _ FAT_EOC G Hl ltac:(unfold FAT_EOC; lia)) as H1. pose proof (ef_geo _ _ _ _ H1) as Hg.
  eapply effect_ext; [eapply effect_trans; [exact H1|apply free_clusters_effect]|..]; try (intros x Hx; cbn beta).
  - by eapply same_geo_geo.
  - apply Forall_drop. eapply Forall_impl; [done|]. intros x. by apply (same_geo_valid f).
  - case_decide; [done|]. by rewrite (ef_table _ _ _ _ H1).
  - by rewrite (ef_data _ _ _ _ H1).
Qed.

Lemma cut_chain_same n cs f : (length cs ≤ n)%nat ∨ n = 0%nat → cut_chain n cs f = f.
Proof.
  intros H. unfold cut_chain. destruct (Nat.ltb_spec n (length cs)); cbn [andb]; [|done]. by destruct (Nat.ltb_spec 0 n); [lia|].
Qed.

(** The chain keeps its first clusters, the others are free. *)
Lemma cut_chain_spec n cs f : geo f → chain f cs → (0 < n ≤ length cs)%nat →
  same_geo f (cut_chain n cs f) ∧ chain (cut_chain n cs f) (take n cs) ∧
  (∀ c, c ∈ drop n cs → fat_get (cut_chain n cs f) c = FAT_FREE) ∧
  (∀ c, valid f c → c ∉ cs → fat_get (cut_chain n cs f) c = fat_get f c) ∧
  (∀ c, valid f c → cluster_data (cut_chain n cs f) c = cluster_data f c).
Proof.
  intros G Hch [H0 Hle]. assert (n = length cs ∨ n < length cs)%nat as [->|Hlt] by lia.
  { rewrite cut_chain_same, firstn_all, drop_all by lia. split_and!; [done|done|set_solver|done|done]. }
  pose proof (cut_chain_effect n cs f G Hch ltac:(lia)) as [Hg Ht Hd]. destruct Hch as [Hv Hn Hl].
  assert (∀ x, x ∈ cs → valid f x) as Hv' by by apply Forall_forall.
  assert (nth (n - 1) cs 0 ∈ cs) as Hlast by (apply list_elem_of_In, nth_In; lia).
  rewrite <- (take_drop n cs) in Hn. apply NoDup_app in Hn as (Hn1 & Hdis & Hn2). split_and!; [done|split|..].
  - apply Forall_take. eapply Forall_impl; [done|]. intros x. by apply (same_geo_valid f).
  - done.
  - eapply linked_ext; [|apply (linked_take (fat_get f) cs n); [done|lia|lia|]].
    + intros x Hx. rewrite Ht by (apply Hv'; by eapply subseteq_take). rewrite decide_False; [done|]. intros Hx'. by eapply Hdis.
    + rewrite <- (take_drop n cs). apply NoDup_app. done.
  - intros x Hx. rewrite Ht by (apply Hv'; by eapply subseteq_drop). by rewrite decide_True.
  - intros x Hx Hni. rewrite Ht by done. rewrite decide_False by (intros Hx'; apply Hni; by eapply subseteq_drop).
    unfold upd. by rewrite decide_False by (intros ->; done).
  - done.
Qed.

(** ** Writing *)
Definition contents_of (f : Fat32Inner) (cs : list Z) : list Z := concat (map (cluster_data f) cs).

Lemma read_chain_spec f cs c : geo f → chain f cs → head cs = Some c → read_chain c f = Some (contents_of f cs).
Proof. intros G Hc Hh. unfold read_chain. by rewrite (chain_of_spec f cs c G Hc Hh). Qed.

Lemma contents_same f f' cs : (∀ c, c ∈ cs → cluster_data f' c = cluster_data f c) → contents_of f' cs = contents_of f cs.
Proof. intros H. unfold contents_of. f_equal. apply map_ext_in. intros c Hc. by apply H, list_elem_of_In. Qed.

Lemma chunk_pad (csz n : nat) (data : list Z) : (length data ≤ csz * S n)%nat →
  (take csz data ++ replicate (csz - length (take csz data)) 0) ++ drop csz data ++ replicate (csz * n - length (drop csz data)) 0 =
  data ++ replicate (csz * S n - length data) 0.
Proof.
  intros H. rewrite length_take, length_drop. destruct (decide (csz ≤ length data)%nat).
  - rewrite Nat.min_l, Nat.sub_diag by lia. cbn [replicate]. rewrite app_nil_r, app_assoc, take_drop. do 2 f_equal. lia.
  - rewrite Nat.min_r, take_ge, drop_ge by lia. cbn [app]. rewrite <- app_assoc, <- replicate_add. do 2 f_equal. lia.
Qed.

Lemma write_clusters_spec cs data f : geo f → Forall (valid f) cs → NoDup cs → (length data ≤ Z.to_nat (csize f) * length cs)%nat →
  let f' := write_clusters true (Z.to_nat (csize f)) cs data f in
  same_geo f f' ∧ (∀ c, valid f c → fat_get f' c = fat_get f c) ∧ (∀ c, valid f c → c ∉ cs → cluster_data f' c = cluster_data f c) ∧
  contents_of f' cs = data ++ replicate (Z.to_nat (csize f) * length cs - length data) 0.
Proof.
  revert data f. induction cs as [|c cs IH]; intros data f G Hv Hn Hl; cbn [write_clusters length] in *.
  { destruct data; [|cbn in Hl; lia]. by rewrite Nat.mul_0_r. }
  apply Forall_cons in Hv as [Hc Hv]. apply NoDup_cons in Hn as [Hni Hn].
  pose proof (write_cluster_effect f c (take (Z.to_nat (csize f)) data) G Hc ltac:(rewrite length_take; lia)) as [Hg Ht Hd].
  set (f1 := write_cluster true c _ f) in *. rewrite <- (same_geo_csize _ _ Hg).
  assert (∀ x, valid f x → valid f1 x) as Hv1 by (intros x; by apply (same_geo_valid f)).
  destruct (IH (drop (Z.to_nat (csize f1)) data) f1) as (Hg2 & Ht2 & Hd2 & Hc2);
    [by eapply same_geo_geo|by eapply Forall_impl|done|rewrite length_drop, (same_geo_csize _ _ Hg); lia|].
  set (f2 := write_clusters _ _ cs _ f1) in *. rewrite (same_geo_csize _ _ Hg) in *. split_and!.
  - by eapply same_geo_trans.
  - intros x Hx. rewrite Ht2 by auto. by apply Ht.
  - intros x Hx Hxn. rewrite Hd2, Hd by (auto || set_solver). unfold upd. by rewrite decide_False by set_solver.
  - change (contents_of f2 (c :: cs)) with (cluster_data f2 c ++ contents_of f2 cs). rewrite Hc2, Hd2, Hd by auto.
    unfold upd. rewrite decide_True by done. by apply chunk_pad.
Qed.

Lemma clusters_for_spec (csz len : nat) : (0 < csz)%nat → (len ≤ csz * clusters_for csz len)%nat ∧ (0 < len → 0 < clusters_for csz len)%nat.
Proof.
  intros H. unfold clusters_for. pose proof (Nat.div_mod (len + csz - 1) csz ltac:(lia)). pose proof (Nat.mod_upper_bound (len + csz - 1) csz ltac:(lia)). split; nia.
Qed.

Lemma disjoint_grown f f' cs new ds : geo f → grown f f' cs new → chain f ds → ds ## cs → ds ## cs ++ new.
Proof.
  intros G Hg Hd Hdis x Hx [Hc|Hc]%elem_of_app; [by eapply Hdis|]. eapply (chain_not_free f); [done|exact Hd|done|]. by eapply gr_free.
Qed.
Lemma grown_other f f' cs new ds : geo f → grown f f' cs new → chain f ds → ds ## cs → chain f' ds ∧ contents_of f' ds = contents_of f ds.
Proof.
  intros G Hg Hd Hdis. pose proof (disjoint_grown _ _ _ _ _ G Hg Hd Hdis) as Hdis'. assert (∀ c, c ∈ ds → valid f c) as Hv by (apply Forall_forall, Hd).
  split.
  - eapply chain_same; [apply Hg| |done]. intros c Hc. apply Hg; [by apply Hv|]. intros ?. by eapply Hdis'.
  - apply contents_same. intros c Hc. rewrite (gr_data _ _ _ _ Hg) by auto. rewrite decide_False; [done|]. intros ?. eapply Hdis'; [done|set_solver].
Qed.
Lemma contents_zeros f f' cs : (∀ c, c ∈ cs → cluster_data f' c = zeros f) → contents_of f' cs = replicate (length cs * Z.to_nat (csize f)) 0.
Proof.
  induction cs as [|c cs IH]; intros H; [done|]. change (contents_of f' (c :: cs)) with (cluster_data f' c ++ contents_of f' cs).
  rewrite H, IH by set_solver. unfold zeros. cbn [length]. rewrite <- replicate_add. done.
Qed.
Lemma contents_app f a b : contents_of f (a ++ b) = contents_of f a ++ contents_of f b.
Proof. unfold contents_of. by rewrite map_app, concat_app. Qed.
Lemma grown_contents f f' cs new : geo f → grown f f' cs new → chain f cs →
  contents_of f' (cs ++ new) = contents_of f cs ++ replicate (length new * Z.to_nat (csize f)) 0.
Proof.
  intros G Hg Hc. rewrite contents_app. assert (∀ c, c ∈ cs ++ new → valid f c) as Hv.
  { intros c Hin. assert (Forall (valid f') (cs ++ new)) as H by apply Hg. rewrite Forall_forall in H. apply (same_geo_valid f f'); [apply Hg|auto]. }
  f_equal.
  - apply contents_same. intros c Hin. rewrite (gr_data _ _ _ _ Hg) by (apply Hv; set_solver). rewrite decide_False; [done|].
    intros Hn. eapply (chain_not_free f); [done|exact Hc|done|]. by eapply gr_free.
  - apply contents_zeros. intros c Hin. rewrite (gr_data _ _ _ _ Hg) by (apply Hv; set_solver). by rewrite decide_True.
Qed.

(** Cutting the chain to [n] clusters and writing the data into them. *)
Lemma cut_write_spec f all n data : geo f → chain f all → (0 < n ≤ length all)%nat → (length data ≤ Z.to_nat (csize f) * n)%nat →
  let g := write_clusters true (Z.to_nat (csize f)) (take n all) data (cut_chain n all f) in
  let f' := set_disk (disk g) g in
  same_geo f f' ∧ chain f' (take n all) ∧ contents_of f' (take n all) = data ++ replicate (Z.to_nat (csize f) * n - length data) 0 ∧
  (∀ c, c ∈ drop n all → fat_get f' c = FAT_FREE) ∧
  (∀ ds, chain f ds → ds ## all → chain f' ds ∧ contents_of f' ds = contents_of f ds).
Proof.
  intros G Hch Hn Hl g f'. destruct (cut_chain_spec n all f G Hch Hn) as (Hg1 & Hc1 & Hfree & Ht1 & Hd1). set (f1 := cut_chain n all f) in *.
  pose proof (write_clusters_spec (take n all) data f1 (same_geo_geo _ _ Hg1 G) (ch_valid _ _ Hc1) (ch_nodup _ _ Hc1)) as Hw. cbv zeta in Hw.
  rewrite (same_geo_csize _ _ Hg1), length_take, Nat.min_l in Hw by lia. destruct (Hw Hl) as (Hg2 & Ht2 & Hd2 & Hc2). fold g in Hg2, Ht2, Hd2, Hc2.
  assert (same_geo f f') as Hgf by (eapply same_geo_trans; [exact Hg1|destruct Hg2; by split]).
  assert (∀ c, valid f c → valid f1 c) as Hv1 by (intros c; by apply (same_geo_valid f)).
  assert (∀ c, c ∈ all → valid f c) as Hva by (apply Forall_forall, Hch).
  assert (∀ c, valid f c → fat_get f' c = fat_get f1 c) as Ht by (intros c Hc; exact (Ht2 c (Hv1 c Hc))).
  split_and!; [done| |exact Hc2|..].
  - eapply (chain_same f1); [destruct Hg2; by split| |done]. intros c Hc. apply Ht, Hva. by eapply subseteq_take.
  - intros c Hc. rewrite Ht by (apply Hva; by eapply subseteq_drop). by apply Hfree.
  - intros ds Hds Hdis. assert (∀ c, c ∈ ds → valid f c) as Hvd by (apply Forall_forall, Hds). split.
    + eapply (chain_same f); [done| |done]. intros c Hc. rewrite Ht, Ht1; [done|auto|intros ?; by eapply Hdis|auto].
    + apply contents_same. intros c Hc. etrans; [apply (Hd2 c); [by auto|]|by apply Hd1; auto].
      intros Hin. eapply Hdis; [done|]. by eapply subseteq_take.
Qed.

(** C8. On a volume smaller than 4 GiB on which every entry of the table has
    its cluster on the disk, writing data, at least one byte, to a file whose
    clusters are a chain of the table returns, and leaves every chain that
    shares no cluster with the file as it is, links and bytes.  When the disk
    has room, the file keeps its first cluster, reads as the data followed by
    zeros up to a whole number of clusters, no more than the data need, and
    every cluster it gave up is free.  When it has not, no cluster is free any
    more and the file reads as before, followed by zeros.  On a volume whose
    table is longer than the disk none of this holds: the allocation does not
    look where the disk ends and what is written past it is dropped. *)
Theorem write_chain_roundtrip f cs start data : geo f → chain f cs → head cs = Some start → data ≠ [] →
  ∃ f' r, write_chain start data f = Some (f', r) ∧ same_geo f f' ∧
    (∀ ds, chain f ds → ds ## cs → chain f' ds ∧ contents_of f' ds = contents_of f ds) ∧
    let n := clusters_for (Z.to_nat (csize f)) (length data) in
    match r with
    | Some c => c = start ∧ read_chain start f' = Some (data ++ replicate (Z.to_nat (csize f) * n - length data) 0) ∧
        ∃ cs', chain f' cs' ∧ chain_of start f' = Some cs' ∧ length cs' = n ∧ ∀ c, c ∈ cs → c ∉ cs' → fat_get f' c = FAT_FREE
    | None => (∀ c, valid f c → fat_get f' c ≠ FAT_FREE) ∧ ∃ k, read_chain start f' = Some (contents_of f cs ++ replicate k 0)
    end.
Proof.
  intros G Hch Hh Hne. pose proof (csize_pos f G) as Hcs. unfold write_chain. rewrite cluster_size_csize by done.
  destruct (Nat.eqb_spec (Z.to_nat (csize f)) 0) as [|_]; [lia|]. rewrite (chain_of_spec f cs start G Hch Hh). cbn [mbind option_bind].
  set (n := clusters_for (Z.to_nat (csize f)) (length data)).
  destruct (clusters_for_spec (Z.to_nat (csize f)) (length data) ltac:(lia)) as [Hlen Hpos]. fold n in Hlen, Hpos.
  assert (0 < length data)%nat as Hd0 by (destruct data; [done|cbn; lia]). specialize (Hpos Hd0).
  destruct (extend_spec (n - length cs) cs f G Hch) as (new & f1 & r & -> & Hg & Hr).
  assert (geo f1) as G1 by (eapply same_geo_geo; [apply Hg|done]). pose proof (same_geo_csize _ _ (gr_geo _ _ _ _ Hg)) as Hcsz.
  assert (head (cs ++ new) = Some start) as Hh' by (destruct cs; [done|exact Hh]).
  destruct r as [all|].
  - destruct Hr as [-> Hnew]. pose proof (cut_write_spec f1 (cs ++ new) n data G1 (gr_chain _ _ _ _ Hg)) as Hw. rewrite Hcsz in Hw.
    destruct Hw as (Hg2 & Hc2 & Hct & Hfree & Hoth); [rewrite length_app; lia|done|].
    set (f2 := set_disk _ _) in *. exists f2, (Some (default 0 (head (cs ++ new)))). rewrite Hh'. cbn [default from_option id].
    pose proof (same_geo_trans _ _ _ (gr_geo _ _ _ _ Hg) Hg2) as Hgf. pose proof (same_geo_geo _ _ Hgf G) as G2.
    assert (head (take n (cs ++ new)) = Some start) as Hh2 by (clear -Hh' Hpos; destruct n; [lia|]; by destruct (cs ++ new)).
    split_and!; [done|done| |done|by rewrite (read_chain_spec f2 _ start G2 Hc2 Hh2), Hct|].
    + intros ds Hds Hdis. destruct (grown_other _ _ _ _ _ G Hg Hds Hdis) as [Hc1 He1].
      destruct (Hoth ds Hc1) as [? ->]; [exact (disjoint_grown _ _ _ _ _ G Hg Hds Hdis)|done].
    + exists (take n (cs ++ new)). split_and!; [done|by apply chain_of_spec|rewrite length_take, length_app; lia|].
      intros c Hc Hni. apply Hfree. assert (c ∈ take n (cs ++ new) ++ drop n (cs ++ new)) as [?|?]%elem_of_app by (rewrite take_drop; set_solver); done.
  - destruct Hr as [_ Hfull]. exists f1, None. split_and!; [done|apply Hg|intros ds; by eapply grown_other|done|].
    exists (length new * Z.to_nat (csize f))%nat. rewrite (read_chain_spec f1 _ start G1 (gr_chain _ _ _ _ Hg) Hh'). by rewrite (grown_contents f).
Qed.

(** Freeing a chain returns, makes exactly its clusters free, and changes
    no byte of any cluster. *)
Theorem free_chain_exact f cs start : geo f → chain f cs → head cs = Some start →
  ∃ f', free_chain start f = Some f' ∧ same_geo f f' ∧
    ∀ c, valid f c → fat_get f' c = (if decide (c ∈ cs) then FAT_FREE else fat_get f c) ∧ cluster_data f' c = cluster_data f c.
Proof.
  intros G Hch Hh. exists (free_clusters cs f). unfold free_chain. rewrite (free_chain_loop cs) by (done || by apply chain_rounds).
  destruct (free_clusters_effect cs f G (ch_valid _ _ Hch)) as [Hg Ht Hd]. split_and!; [done|done|]. intros c Hc. by rewrite Ht, Hd.
Qed.

(** ** Directory entries *)
Lemma find_slot_bounds n i p f x : find_slot n i p f = Some x → i ≤ x ∧ x + 32 ≤ i + 32 * Z.of_nat n.
Proof.
  revert i. induction n as [|n IH]; intros i; cbn [find_slot]; [done|]. destruct (disk_len f <? i + 32); [done|].
  destruct (p _); [intros [= <-]; lia|]. intros H%IH. lia.
Qed.
Lemma slot_in_bounds c p f x : geo f → slot_in c p f = Some x → cluster_to_offset f c ≤ x ∧ x + 32 ≤ cluster_to_offset f c + csize f.
Proof.
  intros G H%find_slot_bounds. rewrite cluster_size_csize in H by done. pose proof (csize_pos f G). pose proof (Z.div_mod (csize f) 32 ltac:(lia)).
  pose proof (Z.mod_pos_bound (csize f) 32 ltac:(lia)). pose proof (Z.div_pos (csize f) 32 ltac:(lia) ltac:(lia)). lia.
Qed.

(** Bytes inside a cluster: the table and the other clusters stay. *)
Lemma put_inside f c off bs : geo f → valid f c → cluster_to_offset f c ≤ off → off + Z.of_nat (length bs) ≤ cluster_to_offset f c + csize f →
  same_geo f (put_bytes off bs f) ∧ (∀ x, valid f x → fat_get (put_bytes off bs f) x = fat_get f x) ∧
  (∀ x, valid f x → x ≠ c → cluster_data (put_bytes off bs f) x = cluster_data f x).
Proof.
  intros G Hc H1 H2. pose proof (cluster_fits f G c Hc) as Hfit.
  assert (∀ x, valid f x → entry_off f 0 x + 4 ≤ cluster_to_offset f c) as Hb.
  { intros x Hx. pose proof (entry_before f G 0 x ltac:(destruct G; lia) Hx). rewrite cluster_offset by done.
    pose proof (csize_pos f G). unfold valid in Hc. nia. }
  assert (0 ≤ off). { specialize (Hb c Hc). pose proof (entry_before f G 0 c ltac:(destruct G; lia) Hc). lia. }
  split_and!; [apply put_same_geo; lia|..]; intros x Hx.
  - specialize (Hb x Hx). apply put_get; try done; lia.
  - intros Hne. apply put_data; try done; [lia|]. destruct (cluster_disjoint f c x G Hc Hx ltac:(done)); lia.
Qed.

(** A name is found in a cluster of the directory. *)
Lemma find_dirent_spec ds f fuel c name : geo f → chain f ds → head ds = Some c → (length ds ≤ fuel)%nat →
  ∃ r, find_dirent fuel c name f = Some r ∧
    match r with Some i => ∃ x, x ∈ ds ∧ cluster_to_offset f x ≤ i ∧ i + 32 ≤ cluster_to_offset f x + csize f | None => True end.
Proof.
  intros G. revert fuel c. induction ds as [|x ds IH]; intros fuel c Hch [= <-] Hf. destruct fuel as [|fuel]; [cbn in Hf; lia|].
  destruct Hch as [Hv Hnd Hl]. apply Forall_cons in Hv as [Hx Hv]. apply NoDup_cons in Hnd as [Hni Hnd]. destruct Hl as [H0 Hl]. cbn [find_dirent length] in *.
  rewrite (valid_in_chain f) by done. destruct (slot_in x (named name) f) as [i|] eqn:Hs.
  - apply slot_in_bounds in Hs as [??]; [|done]. exists (Some i). split; [done|]. exists x. set_solver.
  - destruct ds as [|d ds].
    + exists None. split; [|done]. destruct fuel; cbn [find_dirent]; by rewrite eoc_not_in_chain.
    + rewrite H0. destruct (IH fuel d) as (r & -> & Hr); [by split|done|lia|]. exists r. split; [done|]. destruct r as [i|]; [|done].
      destruct Hr as (y & ? & ?). exists y. set_solver.
Qed.

(** Changing an entry of a directory does not touch the table. *)
Lemma update_dirent_spec f ds c name clus size : geo f → chain f ds → head ds = Some c →
  ∃ f', update_dirent_size c name clus size f = Some f' ∧ same_geo f f' ∧ (∀ x, valid f x → fat_get f' x = fat_get f x) ∧
    (∀ x, valid f x → x ∉ ds → cluster_data f' x = cluster_data f x).
Proof.
  intros G Hch Hh. unfold update_dirent_size.
  destruct (find_dirent_spec ds f (rounds f) c name G Hch Hh (chain_rounds f ds G Hch)) as (r & -> & Hr). cbn [mbind option_bind].
  destruct r as [i|]; [|by exists f]. destruct Hr as (x & Hx & H1 & H2). assert (valid f x) as Hv by (pose proof (ch_valid _ _ Hch) as H; rewrite Forall_forall in H; auto).
  assert (∀ k v, length (le_bytes k v) = k) as Hlb by (intros; apply length_le_bytes).
  destruct (put_inside f x (i + 20) (le_bytes 2 (Z.shiftr clus 16)) G Hv) as (Hg1 & Ht1 & Hd1); [lia|rewrite Hlb; lia|]. set (f1 := put_bytes (i + 20) _ f) in *.
  assert (∀ y, valid f y → valid f1 y) as Hv1 by (intros y; by apply (same_geo_valid f)).
  destruct (put_inside f1 x (i + 26) (le_bytes 2 clus ++ le_bytes 4 size) (same_geo_geo _ _ Hg1 G) (Hv1 x Hv)) as (Hg2 & Ht2 & Hd2);
    [rewrite (same_cluster_off _ _ _ Hg1); lia|rewrite (same_cluster_off _ _ _ Hg1), (same_geo_csize _ _ Hg1), length_app, !Hlb; lia|].
  eexists. split; [done|]. split_and!; [by eapply same_geo_trans|..]; intros y Hy; [by rewrite Ht2, Ht1 by auto|].
  intros Hni. rewrite Hd2, Hd1 by (auto; intros ->; done). done.
Qed.

(** ** Truncation *)

(** A cluster marked free is a chain of its own, to the loops. *)
Lemma chain_of_free f c : valid f c → geo f → fat_get f c = FAT_FREE → chain_of c f = Some [c].
Proof.
  intros Hc G Hf. unfold chain_of, rounds. cbn [chain_from]. rewrite (valid_in_chain f) by done. rewrite Hf.
  assert (∀ n, chain_from n FAT_FREE f = Some []) as H by (by intros []). by rewrite H.
Qed.

Lemma length_cluster f c : geo f → valid f c → length (cluster_data f c) = Z.to_nat (csize f).
Proof.
  intros G Hc. rewrite get_data by done. pose proof (cluster_fits f G c Hc) as Hf. pose proof (csize_pos f G). unfold disk_len in Hf.
  assert (0 ≤ cluster_to_offset f c) by (rewrite cluster_offset by done; pose proof (entry_before f G 0 c ltac:(destruct G; lia) Hc); unfold valid in Hc; nia).
  apply length_disk_slice. lia.
Qed.
Lemma clusters_for_one (csz : nat) : (0 < csz)%nat → clusters_for csz csz = 1%nat.
Proof. intros H. unfold clusters_for. symmetry. apply (Nat.div_unique _ _ 1 (csz - 1)); lia. Qed.

(** Rewriting one cluster that is marked free does not mark it used. *)
Lemma write_free_cluster f c data : geo f → valid f c → fat_get f c = FAT_FREE → length data = Z.to_nat (csize f) →
  ∃ f', write_chain c data f = Some (f', Some c) ∧ same_geo f f' ∧ (∀ x, valid f x → fat_get f' x = fat_get f x).
Proof.
  intros G Hc Hf Hl. pose proof (csize_pos f G). unfold write_chain. rewrite cluster_size_csize, Hl, clusters_for_one by (done || lia).
  destruct (Nat.eqb_spec (Z.to_nat (csize f)) 0) as [|_]; [lia|]. rewrite chain_of_free by done. cbn [mbind option_bind length Nat.sub extend].
  rewrite cut_chain_same by (cbn; lia). cbn [take write_clusters head default from_option id].
  pose proof (write_cluster_effect f c (take (Z.to_nat (csize f)) data) G Hc ltac:(rewrite length_take; lia)) as He.
  apply effect_dirty in He as [Hg Ht _]. eexists. split_and!; [done|done|]. intros x Hx. by apply Ht.
Qed.

(** Truncating a file to nothing and writing into it again through the
    same inode, as open with O_TRUNC does, puts the bytes into the file's old
    first cluster, which stays marked free: the next allocation hands it to
    another file. *)
Theorem truncate_write_free f v cs ds buf : geo f → fi_is_dir v = false → chain f cs → head cs = Some (fi_cluster v) →
  chain f ds → head ds = Some (fi_parent v) → ds ## cs → (length buf ≤ Z.to_nat (csize f))%nat →
  ∃ f1 f2, fat_truncate v 0 f = Some (f1, Ok tt) ∧ fat_write v buf 0 f1 = Some (f2, Ok (length buf)) ∧
    fat_get f2 (fi_cluster v) = FAT_FREE.
Proof.
  intros G Hdir Hcs Hh Hds Hp Hdis Hlen. assert (valid f (fi_cluster v)) as Hv.
  { pose proof (ch_valid _ _ Hcs) as H. rewrite Forall_forall in H. apply H. destruct cs; [done|]. injection Hh as <-. set_solver. }
  assert ((2 <=? fi_cluster v) = true) as H2 by (apply Z.leb_le; unfold valid in Hv; lia).
  unfold fat_truncate, fat_write, store, free_chain. rewrite Hdir, H2. change (0 =? 0) with true. cbv iota.
  rewrite (free_chain_loop cs) by (done || by apply chain_rounds). cbn [mbind option_bind].
  destruct (free_clusters_effect cs f G (ch_valid _ _ Hcs)) as [Hg1 Ht1 _]. set (f1 := free_clusters cs f) in *. pose proof (same_geo_geo _ _ Hg1 G) as G1.
  assert (∀ g, same_geo f g → (∀ x, x ∈ ds → fat_get g x = fat_get f x) → chain g ds) as Hchain by (intros g Hg He; by eapply (chain_same f)).
  assert (∀ x, x ∈ ds → valid f x) as Hvd by (apply Forall_forall, Hds).
  assert (∀ x, x ∈ ds → fat_get f1 x = fat_get f x) as He1 by (intros x Hx; rewrite Ht1 by auto; rewrite decide_False; [done|intros ?; by eapply Hdis]).
  assert (fat_get f1 (fi_cluster v) = FAT_FREE) as Hf1.
  { rewrite Ht1 by done. rewrite decide_True; [done|]. destruct cs; [done|]. injection Hh as <-. set_solver. }
  destruct (update_dirent_spec f1 ds (fi_parent v) (fi_name83 v) 0 0 G1 (Hchain f1 Hg1 He1) Hp) as (f2 & -> & Hg2 & Ht2 & _).
  cbn [mbind option_bind]. exists f2. pose proof (same_geo_trans _ _ _ Hg1 Hg2) as Hg2'. pose proof (same_geo_geo _ _ Hg2' G) as G2.
  assert (∀ x, valid f x → valid f1 x) as Hv1 by (intros x; by apply (same_geo_valid f)). assert (∀ x, valid f x → valid f2 x) as Hv2 by (intros x; by apply (same_geo_valid f)).
  assert (fat_get f2 (fi_cluster v) = FAT_FREE) as Hf2 by (rewrite Ht2; auto).
  unfold read_chain. rewrite (chain_of_free f2) by auto. cbn [mbind option_bind map concat]. rewrite app_nil_r. change (Z.to_nat 0) with 0%nat.
  set (data := overlay (cluster_data f2 (fi_cluster v)) buf 0). assert (length data = Z.to_nat (csize f2)) as Hd.
  { unfold data, overlay. pose proof (length_cluster f2 (fi_cluster v) G2 (Hv2 _ Hv)) as Hc. rewrite (same_geo_csize _ _ Hg2') in *.
    rewrite length_splice by (rewrite length_app, length_replicate; lia). rewrite length_app, length_replicate. lia. }
  destruct (write_free_cluster f2 (fi_cluster v) data G2 (Hv2 _ Hv) Hf2 Hd) as (f3 & -> & Hg3 & Ht3). cbn [mbind option_bind default from_option id].
  pose proof (same_geo_trans _ _ _ Hg2' Hg3) as Hg3'. assert (chain f3 ds) as Hc3 by (apply Hchain; [done|]; intros x Hx; rewrite Ht3, Ht2 by auto; auto).
  destruct (update_dirent_spec f3 ds (fi_parent v) (fi_name83 v) (fi_cluster v) (wrap 32 (Z.of_nat (length data))) (same_geo_geo _ _ Hg3' G) Hc3 Hp) as (f4 & -> & Hg4 & Ht4 & _).
  cbn [mbind option_bind]. exists f4. split_and!; [done|done|]. rewrite Ht4 by (apply (same_geo_valid f); done). by rewrite Ht3 by auto.
Qed.

(** ** Names *)

(** A printable character, no blank, no dot, no capital. *)
Definition plain (c : Z) : bool := between 33 126 c && negb (c =? 46) && negb (between 65 90 c).
Definition dotted (base ext : list Z) : list Z := base ++ (if bool_decide (ext = []) then [] else 46 :: ext).

Lemma plain_spec c : plain c = true ↔ 33 ≤ c ≤ 126 ∧ c ≠ 46 ∧ ¬ (65 ≤ c ≤ 90).
Proof. unfold plain, between. rewrite !andb_true_iff, !negb_true_iff, !Z.leb_le, Z.eqb_neq, andb_false_iff, !Z.leb_gt. lia. Qed.

Lemma trim_blanks_pad bs n : Forall (λ b, b ≠ 32) bs → trim_blanks (bs ++ replicate n 32) = bs.
Proof.
  intros H. induction bs as [|b bs IH]; cbn [app trim_blanks].
  - induction n as [|n IH]; [done|]. cbn [replicate trim_blanks]. by rewrite IH.
  - apply Forall_cons in H as [Hb H]. rewrite IH by done. destruct bs; [|done]. by rewrite (proj2 (Z.eqb_neq _ _)).
Qed.
Lemma rsplit_none bs : Forall (λ b, b ≠ 46) bs → rsplit_dot bs = None.
Proof. induction 1 as [|b bs Hb H IH]; [done|]. cbn [rsplit_dot]. rewrite IH. by rewrite (proj2 (Z.eqb_neq _ _)). Qed.
Lemma rsplit_last base ext : Forall (λ b, b ≠ 46) ext → rsplit_dot (base ++ 46 :: ext) = Some (base, ext).
Proof. intros H. induction base as [|b base IH]; cbn [app rsplit_dot]; [by rewrite rsplit_none|by rewrite IH]. Qed.
Lemma upper_plain c : plain c = true → lower (upper c) = c ∧ upper c ≠ 32 ∧ upper c < 128.
Proof.
  intros H%plain_spec. unfold lower, upper, between. destruct ((97 <=? c) && (c <=? 122)) eqn:E.
  - apply andb_true_iff in E as [E1 E2]. apply Z.leb_le in E1, E2. rewrite (proj2 (Z.leb_le 65 _)), (proj2 (Z.leb_le _ 90)) by lia. cbn [andb]. lia.
  - assert ((65 <=? c) && (c <=? 90) = false) as -> by (apply andb_false_iff; rewrite !Z.leb_gt; lia). lia.
Qed.

Lemma field_roundtrip n bs : Forall (λ c, plain c = true) bs → (length bs ≤ n)%nat →
  length (blanks n (map upper bs)) = n ∧ trim_blanks (blanks n (map upper bs)) = map upper bs ∧
  map lower (from_utf8_lossy (map upper bs)) = bs.
Proof.
  intros H Hl. unfold blanks. rewrite take_ge by (by rewrite length_map). split_and!.
  - rewrite length_app, length_replicate, length_map. lia.
  - apply trim_blanks_pad, Forall_map. eapply Forall_impl; [done|]. intros c Hc. by apply upper_plain.
  - rewrite lossy_ascii by (apply Forall_map; eapply Forall_impl; [done|]; intros c Hc; by apply upper_plain).
    rewrite map_map. induction H as [|c bs Hc H IH]; [done|]. cbn [map length] in *. rewrite IH by lia. f_equal. by apply upper_plain.
Qed.

(** A name of at most eight characters with an extension of at most three,
    in lower case, is read back from its entry as it was written. *)
Theorem name_roundtrip base ext : Forall (λ c, plain c = true) base → Forall (λ c, plain c = true) ext →
  (length base ≤ 8)%nat → (length ext ≤ 3)%nat → decode_83 (encode_83 (dotted base ext)) = dotted base ext.
Proof.
  intros Hb He Hlb Hle. assert (default (dotted base ext, []) (rsplit_dot (dotted base ext)) = (base, ext)) as Hs.
  { unfold dotted. assert (∀ l, Forall (λ c, plain c = true) l → Forall (λ c, c ≠ 46) l) as Hd.
    { intros l H. eapply Forall_impl; [done|]. intros c Hc%plain_spec. lia. }
    case_bool_decide as Hx; [subst ext; rewrite app_nil_r, rsplit_none by auto; done|by rewrite rsplit_last by auto]. }
  unfold encode_83. rewrite Hs. destruct (field_roundtrip 8 base Hb Hlb) as (L1 & T1 & R1). destruct (field_roundtrip 3 ext He Hle) as (L2 & T2 & R2).
  unfold decode_83. rewrite take_app_length', drop_app_length', (take_ge (blanks 3 _)) by lia. rewrite T1, T2, R1.
  unfold dotted. f_equal. case_bool_decide as H1; case_bool_decide as H2; try done; [by destruct ext|subst ext; done|by rewrite R2].
Qed.

(** ** A small disk: 64-byte sectors, two tables of 16 entries, 14 clusters,
    the root directory in cluster 2 and one file in clusters 3 and 4. *)
Definition boot_sector : list Z :=
  fold_left (λ d '(off, bs), splice d off bs)
    [(11%nat, le_bytes 2 64); (13%nat, [1]); (14%nat, le_bytes 2 8); (16%nat, [2]); (36%nat, le_bytes 4 1); (44%nat, le_bytes 4 2)] (replicate 512 0).
Definition empty_disk : option Fat32Inner := fat_set 2 FAT_EOC <$> fat_new (boot_sector ++ replicate 1024 0).
(** "a.txt" *)
Definition demo_name : list Z := [97; 46; 116; 120; 116].
Definition demo_bytes : list Z := map Z.of_nat (List.seq 1 100).
Definition demo_made : option (Fat32Inner * FatInode) :=
  f ← empty_disk;
  '(f, r) ← fat_create (fat_root f) demo_name 420 f;
  match r with
  | Ok v => '(f, _) ← fat_write v demo_bytes 0 f; Some (f, v)
  | Err _ => None
  end.
Definition demo_fat : Fat32Inner := default (mkFat [] 0 0 0 0 0 0 0 false) (fst <$> demo_made).
Definition demo_file : FatInode := default (mkFi 0 0 0 0 false 0 []) (snd <$> demo_made).

Lemma demo_geo : geo demo_fat.
Proof. split; vm_compute; (done || split; done || congruence). Qed.
Lemma demo_chain : chain demo_fat [3; 4].
Proof.
  split; [|apply (bool_decide_unpack _); vm_compute; exact I|].
  - repeat constructor; vm_compute; congruence.
  - vm_compute. repeat split; congruence.
Qed.
Lemma demo_root_chain : chain demo_fat [2].
Proof.
  split; [|apply NoDup_singleton|].
  - repeat constructor; vm_compute; congruence.
  - vm_compute. repeat split; congruence.
Qed.

(** The file of the small disk written with 30 bytes: the second cluster is
    given back. *)
Lemma write_chain_roundtrip_witness : ∃ f', write_chain 3 (replicate 30 7) demo_fat = Some (f', Some 3) ∧
  read_chain 3 f' = Some (replicate 30 7 ++ replicate 34 0) ∧ fat_get f' 4 = FAT_FREE ∧ read_chain 2 f' = read_chain 2 demo_fat.
Proof.
  destruct (write_chain_roundtrip demo_fat [3; 4] 3 (replicate 30 7) demo_geo demo_chain eq_refl ltac:(done)) as (f' & r & Hw & Hg & Hoth & Hr).
  assert (Z.to_nat (csize demo_fat) = 64%nat) as E by (vm_compute; reflexivity). cbv zeta in Hr. rewrite E in Hr.
  destruct r as [c|]; [|exfalso; revert Hw; vm_compute; congruence]. destruct Hr as (-> & Hrd & cs' & Hc & Hof & Hl & Hfree).
  exists f'. split_and!; [done|exact Hrd| |].
  - apply Hfree; [clear; set_solver|]. change (clusters_for 64 (length (replicate 30 7))) with 1%nat in Hl. destruct cs' as [|x [|y l]]; [discriminate Hl| |discriminate Hl].
    assert (x = 3) as -> by (clear -Hof; revert Hof; unfold chain_of, rounds; cbn [chain_from]; change (in_chain 3) with true; cbv iota; destruct (chain_from _ _ f'); cbn; congruence).
    clear. set_solver.
  - destruct (Hoth [2] demo_root_chain ltac:(clear; set_solver)) as [H2 He]. rewrite (read_chain_spec f' [2] 2 (same_geo_geo _ _ Hg demo_geo) H2 eq_refl).
    rewrite He. by rewrite (read_chain_spec demo_fat [2] 2 demo_geo demo_root_chain eq_refl).
Defined.

Lemma free_chain_exact_witness : ∃ f', free_chain 3 demo_fat = Some f' ∧ fat_get f' 3 = FAT_FREE ∧ fat_get f' 4 = FAT_FREE ∧ fat_get f' 2 ≠ FAT_FREE.
Proof.
  destruct (free_chain_exact demo_fat [3; 4] 3 demo_geo demo_chain eq_refl) as (f' & -> & _ & H). exists f'. split; [done|].
  destruct (H 3) as [-> _]; [vm_compute; split; congruence|]. destruct (H 4) as [-> _]; [vm_compute; split; congruence|].
  destruct (H 2) as [-> _]; [vm_compute; split; congruence|]. split_and!; [done|done|]. vm_compute. congruence.
Defined.

(** After the truncation a new file is given the cluster of the old one, and
    writing the new file changes the old. *)
Lemma truncate_write_free_witness : ∃ f1 f2, fat_truncate demo_file 0 demo_fat = Some (f1, Ok tt) ∧
  fat_write demo_file [1; 2; 3] 0 f1 = Some (f2, Ok 3%nat) ∧ fat_get f2 3 = FAT_FREE.
Proof.
  apply (truncate_write_free demo_fat demo_file [3; 4] [2] [1; 2; 3]); try reflexivity; [exact demo_geo|exact demo_chain|exact demo_root_chain|set_solver|].
  apply Nat.leb_le. vm_compute. reflexivity.
Defined.
Example cross_link : (
  '(f, _) ← fat_truncate demo_file 0 demo_fat;
  '(f, _) ← fat_write demo_file [1; 2; 3] 0 f;
  '(f, r) ← fat_create (fat_root f) [98] 420 f;
  match r with Ok v => Some (fi_cluster v, fi_cluster demo_file) | Err _ => None end) = Some (3, 3).
Proof. vm_compute. reflexivity. Qed.

Lemma name_roundtrip_witness : decode_83 (encode_83 demo_name) = demo_name.
Proof. apply (name_roundtrip [97] [116; 120; 116]); repeat constructor. Defined.

(** The size in the entry is that of the clusters, not of the bytes written. *)
Example write_rounds_size : (
  f ← empty_disk;
  '(f, r) ← fat_create (fat_root f) demo_name 420 f;
  match r with
  | Ok v => '(f, _) ← fat_write v [1] 0 f; r ← fat_lookup (fat_root f) demo_name f; match r with Ok v => Some (fi_size v) | Err _ => None end
  | Err _ => None
  end) = Some 64.
Proof. vm_compute. reflexivity. Qed.
