(* ===== verification/Elf.v ===== *)
(** * Executables

    Models kernel/src/elf/mod.rs: reading the header and the program headers
    of an ELF file, mapping its segments into a new address space (Vmm.v) and
    building the first stack of the process.  Bytes go to physical memory, as
    in the source.  The outer option of an operation is a panic (an index out
    of range, a page table that cannot be allocated); sums wrap. *)
From stdpp Require Import strings.
From S2P Require Import Prelude Paging Vmm Utf8.

Definition EINVAL : Z := 22.
Definition ENOENT : Z := 2.
Definition EIO : Z := 5.
Definition ENOMEM : Z := 12.

Definition ELFMAG : list Z := [127; 69; 76; 70].
Definition ELFCLASS64 : Z := 2.
Definition ELFDATA2LSB : Z := 1.
Definition ET_EXEC : Z := 2.
Definition ET_DYN : Z := 3.
Definition EM_X86_64 : Z := 62.
Definition PT_LOAD : Z := 1.
Definition PT_INTERP : Z := 3.
Definition PT_PHDR : Z := 6.
Definition PT_TLS : Z := 7.
Definition PF_X : Z := 1.
Definition PF_W : Z := 2.
Definition PF_R : Z := 4.
Definition USER_STACK_SIZE : Z := 8 * 1024 * 1024.
Definition USER_STACK_TOP : Z := 0x7FFFFFFF0000.
Definition INTERP_BASE : Z := 0x7FFF00000000.

(** ** The file *)
Class ElfSource (S : Type) := {
  src_len : S → Z;
  read_exact : S → Z → nat → result Z (list Z);
}.

(** A file in memory. *)
Record SliceSource := mkSlice { sl_data : list Z }.
#[export] Instance slice_source : ElfSource SliceSource := {
  src_len s := Z.of_nat (length (sl_data s));
  read_exact s offset n :=
    if 2 ^ 64 <=? offset + Z.of_nat n then Err EINVAL
    else if Z.of_nat (length (sl_data s)) <? offset + Z.of_nat n then Err EINVAL
    else Ok (take n (drop (Z.to_nat offset) (sl_data s)));
}.

(** An open file: its size, and the result of [inode.ops.read] for a buffer
    of so many bytes at an offset. *)
Record FdSource := mkFdSource { fd_size : Z; fd_read : nat → Z → result Z (list Z) }.
#[export] Instance fd_source : ElfSource FdSource := {
  src_len s := fd_size s;
  read_exact s offset n :=
    match fd_read s n offset with
    | Ok bs => if (length bs =? n)%nat then Ok bs else Err EIO
    | Err e => Err e
    end;
}.

(** ** Headers *)
Definition field (data : list Z) (a b : nat) : Z := le_value (take (b - a) (drop a data)).
Definition byte_of (data : list Z) (i : nat) : Z := nth i data 0.

Record Header := mkHeader { e_type : Z; e_entry : Z; e_phoff : Z; e_phentsize : Z; e_phnum : Z; e_shoff : Z }.
Definition parse_elf64_header (data : list Z) : option Header :=
  if (length data <? 64)%nat then None
  else if negb (bool_decide (take 4 data = ELFMAG)) then None
  else if negb (byte_of data 4 =? ELFCLASS64) then None
  else if negb (byte_of data 5 =? ELFDATA2LSB) then None
  else if negb (byte_of data 6 =? 1) then None
  else if negb (field data 18 20 =? EM_X86_64) then None
  else if negb (field data 20 24 =? 1) then None
  else
    let h := mkHeader (field data 16 18) (field data 24 32) (field data 32 40) (field data 54 56) (field data 56 58) (field data 40 48) in
    if (0 <? e_phnum h) && (e_phentsize h <? 56) then None else Some h.

Record PhSegment := mkPh {
  p_type : Z; p_flags : Z; p_offset : Z; p_vaddr : Z; p_paddr : Z; p_filesz : Z; p_memsz : Z; p_align : Z;
}.
Definition parse_phdr (data : list Z) (off : nat) : option PhSegment :=
  if (length data <? off + 56)%nat then None
  else
    let p := drop off data in
    Some (mkPh (field p 0 4) (field p 4 8) (field p 8 16) (field p 16 24) (field p 24 32) (field p 32 40) (field p 40 48) (field p 48 56)).

Section Source.
Context {S : Type} `{ES : ElfSource S}.
Implicit Types src : S.

Definition read_small_vec src (offset : Z) (len : Z) : result Z (list Z) :=
  if 2 ^ 64 <=? offset + len then Err EINVAL
  else if src_len src <? offset + len then Err EINVAL
  else read_exact src offset (Z.to_nat len).

(** [n] headers from number [i] on. *)
Fixpoint parse_phdrs (raw : list Z) (entsize : nat) (n i : nat) : option (list PhSegment) :=
  match n with
  | O => Some []
  | Datatypes.S n => ph ← parse_phdr raw (i * entsize); phs ← parse_phdrs raw entsize n (Datatypes.S i); Some (ph :: phs)
  end.
Definition load_phdrs src (phoff phentsize phnum : Z) : result Z (list PhSegment) :=
  let table_bytes := phentsize * phnum in
  if 2 ^ 64 <=? phoff + table_bytes then Err EINVAL
  else if src_len src <? phoff + table_bytes then Err EINVAL
  else
    raw ← read_small_vec src phoff table_bytes;
    match parse_phdrs raw (Z.to_nat phentsize) (Z.to_nat phnum) 0 with
    | Some phs => Ok phs
    | None => Err EINVAL
    end.
End Source.

Definition flags_to_prot (flags : Z) : Z :=
  let p := if has flags PF_R then PROT_READ else 0 in
  let p := if has flags PF_W then Z.lor p PROT_WRITE else p in
  if has flags PF_X then Z.lor p PROT_EXEC else p.
Definition prot_to_page_flags (p : Z) : Z := prot_to_flags p.

(** ** Bytes of physical memory *)
Section Bytes.
Context {A : Type}.
Implicit Types m : Memory A.

Definition rd_byte m (a : Z) : Z := nth (Z.to_nat (a mod 8)) (le_bytes 8 (rd m (a / 4096 * 4096) (a mod 4096 / 8))) 0.
Definition wr_byte (a b : Z) m : Memory A :=
  let f := a / 4096 * 4096 in
  let i := a mod 4096 / 8 in
  wr f i (le_value (<[Z.to_nat (a mod 8) := b]> (le_bytes 8 (rd m f i)))) m.
Fixpoint put_phys (a : Z) (bs : list Z) m : Memory A :=
  match bs with
  | [] => m
  | b :: bs => put_phys (a + 1) bs (wr_byte a b m)
  end.
End Bytes.

(** ** Segments *)
Record Loaded := mkLoaded {
  max_load_end : Z; phdr_user : Z; tls_addr : Z; tls_filesz : Z; tls_memsz : Z; tls_align : Z;
}.
Definition set_load_end (e : Z) (l : Loaded) : Loaded :=
  mkLoaded e (phdr_user l) (tls_addr l) (tls_filesz l) (tls_memsz l) (tls_align l).

Section Load.
Context {A : Type} `{FA : FrameAlloc A}.
Context {S : Type} `{ES : ElfSource S}.
Implicit Types (s : Vm A) (src : S).

(** A zeroed frame for each of [k] pages from [virt] on; [None] inside when
    memory runs out, and what was mapped stays. *)
Fixpoint map_frames (pml4 flags : Z) (k : nat) (virt : Z) (acc : list Z) s : option (Vm A * option (list Z)) :=
  match k with
  | O => Some (s, Some acc)
  | Datatypes.S k =>
      '(s, r) ← vm_alloc s;
      match r with
      | None => Some (s, None)
      | Some frame =>
          let s := set_mem (zero_frame frame (vmem s)) s in
          s ← vm_map pml4 virt frame flags s;
          map_frames pml4 flags k (wadd 64 virt PAGE) (acc ++ [frame]) s
      end
  end.

(** [while copied < to_copy] *)
Fixpoint copy_segment (fuel : nat) src (offset : Z) (frames : list Z) (vaddr_page virt_cursor copied to_copy : Z) (m : Memory A)
    : option (Memory A * result Z unit) :=
  if copied <? to_copy then
    match fuel with
    | O => None
    | Datatypes.S fuel =>
        let pg_idx := wsub 64 virt_cursor vaddr_page / PAGE in
        let pg_off := Z.land virt_cursor (PAGE - 1) in
        let can := Z.min (PAGE - pg_off) (to_copy - copied) in
        match read_exact src (wadd 64 offset copied) (Z.to_nat can) with
        | Err e => Some (m, Err e)
        | Ok bs =>
            frame ← frames !! Z.to_nat pg_idx;
            copy_segment fuel src offset frames vaddr_page (wadd 64 virt_cursor can) (copied + can) to_copy
              (put_phys (frame + pg_off) bs m)
        end
    end
  else Some (m, Ok tt).
Definition copy_rounds (to_copy : Z) : nat := Z.to_nat (to_copy / PAGE + 2).

(** [0x0000_7FFF_FFFF_FFFF] *)
Definition USER_MAX : Z := 0x7FFFFFFFFFFF.

(** The bytes of the file go to the frames. *)
Definition fill_segment src (ph : PhSegment) (frames : list Z) (vaddr_page vaddr : Z) s : option (Vm A * result Z unit) :=
  if 0 <? p_filesz ph then
    if 2 ^ 64 <=? p_offset ph + p_filesz ph then Some (s, Err EINVAL)
    else if src_len src <? p_offset ph + p_filesz ph then Some (s, Err EINVAL)
    else
      '(m, r) ← copy_segment (copy_rounds (p_filesz ph)) src (p_offset ph) frames vaddr_page vaddr 0 (p_filesz ph) (vmem s);
      Some (set_mem m s, r)
  else Some (s, Ok tt).

(** A PT_LOAD header. *)
Definition load_segment src (bias : Z) (ph : PhSegment) s (a : AddressSpace) (l : Loaded)
    : option (Vm A * AddressSpace * result Z Loaded) :=
  if p_memsz ph =? 0 then Some (s, a, Ok l)
  else if USER_MAX <? wadd 64 (wadd 64 (p_vaddr ph) (p_memsz ph)) bias then Some (s, a, Err EINVAL)
  else
    let vaddr := wadd 64 (p_vaddr ph) bias in
    let vaddr_page := page_down vaddr in
    let page_offset := wsub 64 vaddr vaddr_page in
    let total_size := wadd 64 page_offset (p_memsz ph) in
    let num_pages := wsub 64 (wadd 64 total_size PAGE) 1 / PAGE in
    let prot := flags_to_prot (p_flags ph) in
    '(s, r) ← map_frames (pml4_phys a) (prot_to_page_flags prot) (Z.to_nat num_pages) vaddr_page [] s;
    match r with
    | None => Some (s, a, Err ENOMEM)
    | Some frames =>
        '(s, r) ← fill_segment src ph frames vaddr_page vaddr s;
        match r with
        | Err e => Some (s, a, Err e)
        | Ok _ =>
            let seg_end := wadd 64 vaddr_page (wmul 64 num_pages PAGE) in
            let l := if max_load_end l <? seg_end then set_load_end seg_end l else l in
            Some (s, set_regions (regions a ++ [mkVma vaddr_page seg_end prot Anonymous 2 "" false]) a, Ok l)
        end
    end.

Definition load_ph src (bias : Z) (ph : PhSegment) s (a : AddressSpace) (l : Loaded) : option (Vm A * AddressSpace * result Z Loaded) :=
  if p_type ph =? PT_PHDR then
    Some (s, a, Ok (mkLoaded (max_load_end l) (wadd 64 (p_vaddr ph) bias) (tls_addr l) (tls_filesz l) (tls_memsz l) (tls_align l)))
  else if p_type ph =? PT_TLS then
    Some (s, a, Ok (mkLoaded (max_load_end l) (phdr_user l) (wadd 64 (p_vaddr ph) bias) (p_filesz ph) (p_memsz ph) (p_align ph)))
  else if p_type ph =? PT_LOAD then load_segment src bias ph s a l
  else Some (s, a, Ok l).

Fixpoint load_phs src (bias : Z) (phs : list PhSegment) s (a : AddressSpace) (l : Loaded) : option (Vm A * AddressSpace * result Z Loaded) :=
  match phs with
  | [] => Some (s, a, Ok l)
  | ph :: phs =>
      '(s, a, r) ← load_ph src bias ph s a l;
      match r with
      | Ok l => load_phs src bias phs s a l
      | Err e => Some (s, a, Err e)
      end
  end.

Definition load_segments src (bias phoff phentsize phnum entry : Z) s (a : AddressSpace) : option (Vm A * AddressSpace * result Z (Z * Loaded)) :=
  match load_phdrs src phoff phentsize phnum with
  | Err e => Some (s, a, Err e)
  | Ok phs =>
      '(s, a, r) ← load_phs src bias phs s a (mkLoaded 0 0 0 0 0 0);
      Some (s, a, l ← r; Ok (wadd 64 entry bias, l))
  end.
End Load.

(** ** The first stack *)
Definition AT_NULL : Z := 0.
Definition AT_PHDR : Z := 3.
Definition AT_PHENT : Z := 4.
Definition AT_PHNUM : Z := 5.
Definition AT_PAGESZ : Z := 6.
Definition AT_BASE : Z := 7.
Definition AT_FLAGS : Z := 8.
Definition AT_ENTRY : Z := 9.
Definition AT_UID : Z := 11.
Definition AT_EUID : Z := 12.
Definition AT_GID : Z := 13.
Definition AT_EGID : Z := 14.
Definition AT_PLATFORM : Z := 15.
Definition AT_HWCAP : Z := 16.
Definition AT_CLKTCK : Z := 17.
Definition AT_SECURE : Z := 23.
Definition AT_RANDOM : Z := 25.
Definition AT_HWCAP2 : Z := 26.
Definition AT_EXECFN : Z := 31.

(** "/init" and "x86_64" with its NUL. *)
Definition INIT_NAME : list Z := [47; 105; 110; 105; 116].
Definition PLATFORM : list Z := [120; 56; 54; 95; 54; 52; 0].
Definition align16 (a : Z) : Z := Z.land a (wnot 64 15).

Section Stack.
Context {A : Type}.
Implicit Types m : Memory A.

Definition write_phys (frames : list Z) (stack_base vaddr val : Z) m : Memory A :=
  match frames !! Z.to_nat (wsub 64 vaddr stack_base / PAGE) with
  | Some f => put_phys (f + Z.land vaddr (PAGE - 1)) (le_bytes 8 val) m
  | None => m
  end.
Fixpoint write_bytes_phys (frames : list Z) (stack_base vaddr : Z) (data : list Z) m : Memory A :=
  match data with
  | [] => m
  | b :: data =>
      let m := match frames !! Z.to_nat (wsub 64 vaddr stack_base / PAGE) with
               | Some f => wr_byte (f + Z.land vaddr (PAGE - 1)) b m
               | None => m
               end in
      write_bytes_phys frames stack_base (wadd 64 vaddr 1) data m
  end.

(** The stack pointer and memory. *)
Definition Stk : Type := Z * Memory A.
Section Push.
Context (frames : list Z) (stack_base : Z).
Implicit Types st : Stk.

Definition push_str (s : list Z) st : Stk :=
  let sp := wsub 64 st.1 (Z.of_nat (length s) + 1) in
  let m := write_bytes_phys frames stack_base sp s st.2 in
  (sp, write_bytes_phys frames stack_base (wadd 64 sp (Z.of_nat (length s))) [0] m).
Definition push_u64 (v : Z) st : Stk :=
  let sp := wsub 64 st.1 8 in (sp, write_phys frames stack_base sp v st.2).
Definition align_sp st : Stk := (align16 st.1, st.2).

(** The strings in the order given, with their addresses. *)
Fixpoint push_strs (l : list (list Z)) st : Stk * list Z :=
  match l with
  | [] => (st, [])
  | s :: l => let st := push_str s st in let '(st', ps) := push_strs l st in (st', st.1 :: ps)
  end.
(** [l.iter().rev().map(push_str)], the addresses in the order of [l]. *)
Definition push_rev (l : list (list Z)) st : Stk * list Z := let '(st, ps) := push_strs (rev l) st in (st, rev ps).
Definition push_words (l : list Z) st : Stk := fold_left (λ st v, push_u64 v st) l st.
Definition aux (kv : Z * Z) st : Stk := push_u64 kv.1 (push_u64 kv.2 st).
Definition push_aux (l : list (Z * Z)) st : Stk := fold_left (λ st kv, aux kv st) l st.
End Push.

Definition auxv (execfn_addr platform_addr rand_addr at_entry at_base phnum phent phdr_addr : Z) : list (Z * Z) :=
  [(AT_EXECFN, execfn_addr); (AT_PLATFORM, platform_addr); (AT_RANDOM, rand_addr); (AT_SECURE, 0); (AT_EGID, 0); (AT_GID, 0);
   (AT_EUID, 0); (AT_UID, 0); (AT_ENTRY, at_entry); (AT_FLAGS, 0); (AT_BASE, at_base); (AT_PHNUM, phnum); (AT_PHENT, phent);
   (AT_PHDR, phdr_addr); (AT_CLKTCK, 100); (AT_PAGESZ, 4096); (AT_HWCAP, 0x078bfbfd); (AT_HWCAP2, 0)].

(** The name of the program, the platform and the random bytes, with their
    addresses; [tsc] is what the time stamp counter reads. *)
Definition setup_head (tsc stack_top stack_base : Z) (frames : list Z) (execfn : list Z) m : Stk * (Z * Z * Z) :=
  let st := push_str frames stack_base execfn (stack_top, m) in
  let execfn_addr := st.1 in
  let platform_addr := align16 (wsub 64 st.1 7) in
  let m := write_bytes_phys frames stack_base platform_addr PLATFORM st.2 in
  let rand_addr := align16 (wsub 64 platform_addr 16) in
  let m := write_phys frames stack_base rand_addr (Z.lxor tsc 0xDEADBEEF01020304) m in
  let m := write_phys frames stack_base (wadd 64 rand_addr 8) (Z.lxor tsc 0xBEEFCAFE05060708) m in
  ((rand_addr, m), (execfn_addr, platform_addr, rand_addr)).

(** The vectors, from the auxiliary one down to argc. *)
Definition pad_parity (frames : list Z) (stack_base : Z) (words_to_push : nat) (st : Stk) : Stk :=
  if Nat.even words_to_push then push_u64 frames stack_base 0 st else st.
Definition setup_vectors (stack_base : Z) (frames : list Z) (auxl : list (Z * Z)) (arg_ptrs env_ptrs : list Z) (st : Stk) : Stk :=
  let push := push_u64 frames stack_base in
  let st := push_aux frames stack_base auxl (align_sp st) in
  let st := push AT_NULL (push 0 st) in
  let st := pad_parity frames stack_base (1 + length arg_ptrs + 1 + length env_ptrs + 1) (align_sp st) in
  let st := push_words frames stack_base (rev env_ptrs) (push 0 st) in
  let st := push_words frames stack_base (rev arg_ptrs) (push 0 st) in
  push (Z.of_nat (length arg_ptrs)) st.

Definition setup_stack (tsc stack_top stack_base : Z) (frames : list Z) (argv envp : list (list Z))
    (at_entry phdr_addr phent phnum at_base : Z) m : Stk :=
  let '(st, (execfn_addr, platform_addr, rand_addr)) := setup_head tsc stack_top stack_base frames (default INIT_NAME (head argv)) m in
  let '(st, env_ptrs) := push_rev frames stack_base envp st in
  let '(st, arg_ptrs) := push_rev frames stack_base argv st in
  setup_vectors stack_base frames (auxv execfn_addr platform_addr rand_addr at_entry at_base phnum phent phdr_addr) arg_ptrs env_ptrs st.
End Stack.

(** ** Execution *)
Record ExecResult := mkExec {
  x_entry : Z; x_stack_top : Z; x_argc : Z; x_argv_ptr : Z; x_envp_ptr : Z; x_space : AddressSpace;
  x_phdr_addr : Z; x_phdr_count : Z; x_phdr_entsize : Z; x_at_base : Z; x_loaded : Loaded;
}.

Section Exec.
Context {A : Type} `{FA : FrameAlloc A}.
Context {S : Type} `{ES : ElfSource S}.
Implicit Types (s : Vm A) (src : S).

(** The first PT_INTERP header gives the path, less its NUL. *)
Fixpoint interp_path src (phs : list PhSegment) : result Z (option (list Z)) :=
  match phs with
  | [] => Ok None
  | ph :: phs =>
      if (p_type ph =? PT_INTERP) && (1 <? p_filesz ph) then
        interp ← read_small_vec src (p_offset ph) (p_filesz ph);
        Ok (Some (from_utf8_lossy (take (length interp - 1) interp)))
      else interp_path src phs
  end.

Definition load_bias (ty : Z) (interp : option (list Z)) : Z :=
  if (ty =? ET_DYN) && bool_decide (interp = None) then 0x400000000000
  else if ty =? ET_DYN then 0x500000000000
  else 0.

(** [open] opens the interpreter from the working directory. *)
Definition load_interp (open : list Z → option FdSource) (entry : Z) (interp : option (list Z)) s (a : AddressSpace)
    : option (Vm A * AddressSpace * result Z (Z * Z)) :=
  match interp with
  | None => Some (s, a, Ok (0, entry))
  | Some path =>
      match open path with
      | None => Some (s, a, Err ENOENT)
      | Some fd =>
          if src_len fd <? 64 then Some (s, a, Err ENOENT)
          else
            match read_small_vec fd 0 64 with
            | Err e => Some (s, a, Err e)
            | Ok header =>
                match parse_elf64_header header with
                | None => Some (s, a, Err EINVAL)
                | Some h =>
                    '(s, a, r) ← load_segments fd INTERP_BASE (e_phoff h) (e_phentsize h) (e_phnum h) (e_entry h) s a;
                    Some (s, a, '(ie, _) ← r; Ok (INTERP_BASE, ie))
                end
            end
      end
  end.

Definition STACK_BOTTOM : Z := USER_STACK_TOP - USER_STACK_SIZE.
Definition STACK_FLAGS : Z := Z.lor (Z.lor (Z.lor PRESENT USER) WRITABLE) NO_EXECUTE.
Definition stack_region : VmaRegion := mkVma STACK_BOTTOM USER_STACK_TOP (Z.lor PROT_READ PROT_WRITE) Stack 2 "[stack]" false.

(** The break and the base of new mappings, above the segments. *)
Definition set_layout (load_end : Z) (a : AddressSpace) : AddressSpace :=
  let above_segs := page_down (wsub 64 (wadd 64 (wadd 64 load_end PAGE) PAGE) 1) in
  mkAs (pml4_phys a) (regions a) load_end load_end (Z.max above_segs MMAP_BASE) (stack_start a) (stack_end a) (is_shared a).

(** The stack, after the images are loaded. *)
Definition finish (tsc : Z) (argv envp : list (list Z)) (h : Header) (entry at_base final_entry : Z) (l : Loaded) s (a : AddressSpace)
    : option (Vm A * result Z ExecResult) :=
  '(s, r) ← map_frames (pml4_phys a) STACK_FLAGS (Z.to_nat (USER_STACK_SIZE / PAGE)) STACK_BOTTOM [] s;
  match r with
  | None => Some (s, Err ENOMEM)
  | Some stack_frames =>
      let a := set_regions (regions a ++ [stack_region]) a in
      let '(sp, m) := setup_stack tsc USER_STACK_TOP STACK_BOTTOM stack_frames argv envp entry (phdr_user l) (e_phentsize h) (e_phnum h) at_base (vmem s) in
      let argc := Z.of_nat (length argv) in
      let argv_ptr := wadd 64 sp 8 in
      Some (set_mem m s,
        Ok (mkExec final_entry sp argc argv_ptr (wadd 64 argv_ptr (wmul 64 (argc + 1) 8)) (set_layout (max_load_end l) a)
             (phdr_user l) (e_phnum h) (e_phentsize h) at_base l))
  end.

Definition exec_inner (tsc : Z) (open : list Z → option FdSource) src (argv envp : list (list Z)) s : option (Vm A * result Z ExecResult) :=
  match
    header ← read_small_vec src 0 64;
    match parse_elf64_header header with
    | None => Err EINVAL
    | Some h =>
        if negb (e_type h =? ET_EXEC) && negb (e_type h =? ET_DYN) then Err EINVAL
        else if e_phentsize h <? 56 then Err EINVAL
        else
          phs ← load_phdrs src (e_phoff h) (e_phentsize h) (e_phnum h);
          interp ← interp_path src phs;
          Ok (h, interp)
    end
  with
  | Err e => Some (s, Err e)
  | Ok (h, interp) =>
      '(s, r) ← new_user s;
      match r with
      | None => Some (s, Err ENOMEM)
      | Some a =>
          let bias := load_bias (e_type h) interp in
          '(s, a, r) ← load_segments src bias (e_phoff h) (e_phentsize h) (e_phnum h) (e_entry h) s a;
          match r with
          | Err e => Some (s, Err e)
          | Ok (entry, l) =>
              '(s, a, r) ← load_interp open entry interp s a;
              match r with
              | Err e => Some (s, Err e)
              | Ok (at_base, final_entry) => finish tsc argv envp h entry at_base final_entry l s a
              end
          end
      end
  end.
End Exec.

Definition exec {A} `{FA : FrameAlloc A} (tsc : Z) (open : list Z → option FdSource) (data : list Z) (argv envp : list (list Z)) (s : Vm A)
    : option (Vm A * result Z ExecResult) :=
  exec_inner tsc open (mkSlice data) argv envp s.
Definition exec_fd {A} `{FA : FrameAlloc A} (tsc : Z) (open : list Z → option FdSource) (fd : FdSource) (argv envp : list (list Z)) (s : Vm A)
    : option (Vm A * result Z ExecResult) :=
  exec_inner tsc open fd argv envp s.
