(* ===== verification/ElfFacts.v ===== *)
(** * The first stack of a process

    Bytes of physical memory behave as bytes; the frames of the stack, taken
    by their addresses in the new address space, are one array of bytes; and
    what [setup_stack] leaves there is the block that the System V ABI asks
    for: argc, the pointers of argv and envp with their NULLs, and the strings
    they point to. *)
From S2P Require Import Prelude Paging Vmm Elf.

(** ** Bytes of physical memory *)
Section Bytes.
Context {A : Type}.
Implicit Types m : Memory A.

Lemma rd_wr_same m f i w : rd (wr f i w m) f i = w.
Proof. rewrite rd_wr. by rewrite decide_True. Qed.
Lemma rd_wr_other m f i w f' i' : f' ≠ f ∨ i' ≠ i → rd (wr f i w m) f' i' = rd m f' i'.
Proof. intros H. rewrite rd_wr. by rewrite decide_False by tauto. Qed.

(** An address is a frame, a word and a byte of the word. *)
Lemma address_parts a : 0 ≤ a → a = a / 4096 * 4096 + 8 * (a mod 4096 / 8) + a mod 8.
Proof.
  intros H. pose proof (Z.div_mod a 4096 ltac:(lia)). pose proof (Z.div_mod (a mod 4096) 8 ltac:(lia)) as H1.
  assert ((a mod 4096) mod 8 = a mod 8) as E by (symmetry; apply Znumtheory.Zmod_div_mod; [lia|lia|by exists 512]). lia.
Qed.

Lemma rd_byte_same m a b : 0 ≤ a → is_u8 b → rd_byte (wr_byte a b m) a = b.
Proof.
  intros Ha Hb. unfold rd_byte, wr_byte. rewrite rd_wr_same. set (l := <[_ := b]> _).
  assert (length l = 8%nat) as Hl by (unfold l; by rewrite length_insert, length_le_bytes).
  assert (Forall is_u8 l) as Hf by (apply Forall_insert; [apply le_bytes_u8|done]).
  rewrite <- Hl, (le_bytes_value l Hf). unfold l. rewrite nth_lookup, list_lookup_insert_eq; [done|].
  rewrite length_le_bytes. pose proof (Z.mod_pos_bound a 8 ltac:(lia)). lia.
Qed.
Lemma rd_byte_other m a b a' : 0 ≤ a → 0 ≤ a' → is_u8 b → a' ≠ a → rd_byte (wr_byte a b m) a' = rd_byte m a'.
Proof.
  intros Ha Ha' Hb Hne. unfold rd_byte, wr_byte. pose proof (address_parts a Ha). pose proof (address_parts a' Ha').
  destruct (decide (a' / 4096 * 4096 = a / 4096 * 4096 ∧ a' mod 4096 / 8 = a mod 4096 / 8)) as [[E1 E2]|Hd].
  - rewrite E1, E2 in *. rewrite rd_wr_same. set (l := <[_ := b]> _).
    assert (length l = 8%nat) as Hl by (unfold l; by rewrite length_insert, length_le_bytes).
    assert (Forall is_u8 l) as Hf by (apply Forall_insert; [apply le_bytes_u8|done]).
    rewrite <- Hl at 1. rewrite (le_bytes_value l Hf). unfold l. rewrite !nth_lookup, list_lookup_insert_ne; [done|].
    pose proof (Z.mod_pos_bound a 8 ltac:(lia)). pose proof (Z.mod_pos_bound a' 8 ltac:(lia)). lia.
  - rewrite rd_wr_other; [done|]. destruct (decide (a' / 4096 * 4096 = a / 4096 * 4096)); [right|left]; tauto.
Qed.
End Bytes.

(** ** The stack as one array *)
Record stack_ok (frames : list Z) (base top : Z) : Prop := {
  so_top : top = base + 4096 * Z.of_nat (length frames);
  so_base : 0 ≤ base ∧ base mod 4096 = 0;
  so_max : top < 2 ^ 63;
  so_nodup : NoDup frames;
  so_frames : Forall (λ f, 0 ≤ f ∧ f mod 4096 = 0) frames;
}.

Section Stack.
Context {A : Type} (fr : list Z) (base top : Z) (K : stack_ok fr base top).
Implicit Types (m : Memory A) (st : Stk (A := A)).

(** The byte at an address of the stack. *)
Definition vphys (v : Z) : option Z := f ← fr !! Z.to_nat ((v - base) / 4096); Some (f + v mod 4096).
Definition vbyte m (v : Z) : Z := match vphys v with Some a => rd_byte m a | None => 0 end.
Definition in_stack (v : Z) : Prop := base ≤ v < top.

Lemma page_of v : in_stack v → ∃ f, fr !! Z.to_nat ((v - base) / 4096) = Some f ∧ 0 ≤ f ∧ f mod 4096 = 0.
Proof.
  intros [H1 H2]. destruct K. destruct (fr !! Z.to_nat ((v - base) / 4096)) as [f|] eqn:Hf.
  - exists f. split; [done|]. rewrite Forall_forall in so_frames0. apply so_frames0. by eapply list_elem_of_lookup_2.
  - apply lookup_ge_None in Hf. pose proof (Z.div_pos (v - base) 4096 ltac:(lia) ltac:(lia)).
    pose proof (Z.div_lt_upper_bound (v - base) 4096 (Z.of_nat (length fr)) ltac:(lia) ltac:(lia)). lia.
Qed.
Lemma vphys_Some v : in_stack v → ∃ a, vphys v = Some a ∧ 0 ≤ a.
Proof.
  intros H. destruct (page_of v H) as (f & Hf & H0 & _). unfold vphys. rewrite Hf. eexists. split; [done|].
  pose proof (Z.mod_pos_bound v 4096 ltac:(lia)). lia.
Qed.
Lemma vphys_inj v v' a : in_stack v → in_stack v' → vphys v = Some a → vphys v' = Some a → v = v'.
Proof.
  intros H H'. destruct (page_of v H) as (f & Hf & H0 & H1). destruct (page_of v' H') as (f' & Hf' & H0' & H1').
  unfold vphys. rewrite Hf, Hf'. cbn [mbind option_bind]. intros [= <-] [= E]. destruct K as [Kt [Kb0 Kb] Km Kn _].
  pose proof (Z.mod_pos_bound v 4096 ltac:(lia)). pose proof (Z.mod_pos_bound v' 4096 ltac:(lia)).
  assert (f = f') as <-.
  { apply Z.mod_divide in H1 as [k ->], H1' as [k' ->]; lia. }
  pose proof (NoDup_lookup _ _ _ _ Kn Hf Hf') as Ei. unfold in_stack in *.
  pose proof (Z.div_pos (v - base) 4096 ltac:(lia) ltac:(lia)). pose proof (Z.div_pos (v' - base) 4096 ltac:(lia) ltac:(lia)).
  apply Z.mod_divide in Kb as [k ->]; [|lia]. rewrite Z.add_comm in *.
  pose proof (Z.div_mod (v - k * 4096) 4096 ltac:(lia)) as D. pose proof (Z.div_mod (v' - k * 4096) 4096 ltac:(lia)) as D'.
  assert (∀ x, (x - k * 4096) mod 4096 = x mod 4096) as Em.
  { intros x. replace (x - k * 4096) with (x + (- k) * 4096) by lia. by rewrite Z.mod_add. }
  rewrite Em in D, D'. lia.
Qed.

(** The page and the offset that the code computes. *)
Lemma code_page v : in_stack v → wsub 64 v base / PAGE = (v - base) / 4096 ∧ Z.land v (PAGE - 1) = v mod 4096.
Proof.
  intros [H1 H2]. destruct K. split.
  - unfold PAGE. rewrite wsub_small by lia. done.
  - change (PAGE - 1) with (Z.ones 12). rewrite Z.land_ones by lia. done.
Qed.

Definition write1 (v b : Z) m : Memory A :=
  match fr !! Z.to_nat (wsub 64 v base / PAGE) with Some f => wr_byte (f + Z.land v (PAGE - 1)) b m | None => m end.
Lemma write1_spec v b m : in_stack v → is_u8 b →
  vbyte (write1 v b m) v = b ∧ ∀ x, in_stack x → x ≠ v → vbyte (write1 v b m) x = vbyte m x.
Proof.
  intros Hv Hb. destruct (vphys_Some v Hv) as (a & Ha & Ha0). assert (write1 v b m = wr_byte a b m) as E.
  { unfold write1. destruct (code_page v Hv) as [-> ->]. unfold vphys in Ha. destruct (fr !! _); [|done]. by injection Ha as <-. }
  rewrite E. split.
  - unfold vbyte. rewrite Ha. by apply rd_byte_same.
  - intros x Hx Hne. destruct (vphys_Some x Hx) as (a' & Ha' & Ha0'). unfold vbyte. rewrite Ha'. apply rd_byte_other; try done.
    intros ->. apply Hne. by eapply vphys_inj.
Qed.

(** The bytes [bs] are at [v]. *)
Definition holds m (v : Z) (bs : list Z) : Prop := ∀ i b, bs !! i = Some b → vbyte m (v + Z.of_nat i) = b.

Lemma holds_nil m v : holds m v [].
Proof. intros i b. by rewrite lookup_nil. Qed.
Lemma holds_app m v a b : holds m v (a ++ b) ↔ holds m v a ∧ holds m (v + Z.of_nat (length a)) b.
Proof.
  split.
  - intros H. split; intros i x Hi.
    + apply H. by apply lookup_app_l_Some.
    + rewrite <- Z.add_assoc, <- Nat2Z.inj_add. apply H. rewrite lookup_app_r by lia. rewrite <- Hi. f_equal. lia.
  - intros [Ha Hb] i x Hi. apply lookup_app_Some in Hi as [Hi|[Hl Hi]]; [by apply Ha|]. rewrite <- (Hb _ _ Hi). f_equal. lia.
Qed.

Lemma write_bytes_cons v b bs m : write_bytes_phys fr base v (b :: bs) m = write_bytes_phys fr base (wadd 64 v 1) bs (write1 v b m).
Proof. done. Qed.
Lemma write_bytes_spec bs : ∀ v m, base ≤ v → v + Z.of_nat (length bs) ≤ top → Forall is_u8 bs →
  holds (write_bytes_phys fr base v bs m) v bs ∧
  ∀ x, in_stack x → x < v ∨ v + Z.of_nat (length bs) ≤ x → vbyte (write_bytes_phys fr base v bs m) x = vbyte m x.
Proof.
  induction bs as [|b bs IH]; intros v m H1 H2 Hbs; [split; [apply holds_nil|done]|]. apply Forall_cons in Hbs as [Hb Hbs]. cbn [length] in H2.
  rewrite write_bytes_cons, wadd_small by (destruct K; lia). destruct (write1_spec v b m ltac:(unfold in_stack; lia) Hb) as [Hs Ho].
  destruct (IH (v + 1) (write1 v b m) ltac:(lia) ltac:(lia) Hbs) as [Hh Hx]. split.
  - intros [|i] x Hi; cbn in Hi.
    + injection Hi as <-. change (Z.of_nat 0) with 0. rewrite Z.add_0_r, Hx by (unfold in_stack; lia). done.
    + rewrite <- (Hh i x Hi). f_equal. lia.
  - intros x Hin Hor. cbn [length] in Hor. rewrite Hx by (done || lia). apply Ho; [done|lia].
Qed.

(** A word that does not cross a page is written like its bytes. *)
Lemma put_phys_write v f bs m : in_stack v → fr !! Z.to_nat ((v - base) / 4096) = Some f → v mod 4096 + Z.of_nat (length bs) ≤ 4096 →
  put_phys (f + v mod 4096) bs m = write_bytes_phys fr base v bs m.
Proof.
  revert v m. induction bs as [|b bs IH]; intros v m Hv Hf Hl; [done|]. cbn [put_phys length] in *. rewrite write_bytes_cons.
  destruct (code_page v Hv) as [E1 E2]. unfold write1. rewrite E1, Hf, E2. destruct bs as [|c bs]; [done|].
  cbn [length] in Hl. assert (v mod 4096 + 1 < 4096) as Hlt by lia. destruct K as [Kt [Kb0 Kb] Km _ _]. unfold in_stack in Hv.
  rewrite wadd_small by lia.
  assert ((v + 1) mod 4096 = v mod 4096 + 1) as Em.
  { rewrite <- Z.add_mod_idemp_l by lia. apply Z.mod_small. pose proof (Z.mod_pos_bound v 4096 ltac:(lia)). lia. }
  assert ((v + 1 - base) / 4096 = (v - base) / 4096) as Ed.
  { apply Z.mod_divide in Kb as [k ->]; [|lia]. pose proof (Z.div_mod v 4096 ltac:(lia)).
    replace (v + 1 - k * 4096) with (v mod 4096 + 1 + (v / 4096 - k) * 4096) by lia. replace (v - k * 4096) with (v mod 4096 + (v / 4096 - k) * 4096) by lia.
    pose proof (Z.mod_pos_bound v 4096 ltac:(lia)). rewrite !Z.div_add, (Z.div_small (v mod 4096)), (Z.div_small (v mod 4096 + 1)) by lia. done. }
  replace (f + v mod 4096 + 1) with (f + (v + 1) mod 4096) by lia. apply IH.
  - unfold in_stack. split; [lia|]. pose proof (Z.div_mod v 4096 ltac:(lia)). apply Z.mod_divide in Kb as [k Ek]; [|lia]. pose proof (Z.mod_pos_bound v 4096 ltac:(lia)). lia.
  - by rewrite Ed.
  - cbn [length]. lia.
Qed.
Lemma write_phys_spec v val m : in_stack v → v mod 8 = 0 → write_phys fr base v val m = write_bytes_phys fr base v (le_bytes 8 val) m.
Proof.
  intros Hv H8. unfold write_phys. destruct (code_page v Hv) as [-> ->]. destruct (page_of v Hv) as (f & Hf & _). rewrite Hf.
  apply put_phys_write; [done|done|]. rewrite length_le_bytes. pose proof (Z.mod_pos_bound v 4096 ltac:(lia)).
  assert ((v mod 4096) mod 8 = 0) as E by (rewrite <- H8; symmetry; apply Znumtheory.Zmod_div_mod; [lia|lia|by exists 512]).
  apply Z.mod_divide in E as [k E]; lia.
Qed.

(** *** Pushing *)

(** What is above the stack pointer stays when more is pushed. *)
Definition below st st' : Prop := base ≤ st'.1 ≤ st.1 ∧ ∀ x, st.1 ≤ x < top → vbyte st'.2 x = vbyte st.2 x.
Lemma below_trans st1 st2 st3 : below st1 st2 → below st2 st3 → below st1 st3.
Proof.
  intros [H1 E1] [H2 E2]. split; [lia|]. intros x Hx. rewrite E2 by lia. by apply E1.
Qed.
Lemma below_holds st st' v bs : below st st' → st.1 ≤ v → v + Z.of_nat (length bs) ≤ top → holds st.2 v bs → holds st'.2 v bs.
Proof.
  intros [_ E] H1 H2 H i b Hi. rewrite E; [by apply H|]. apply lookup_lt_Some in Hi. lia.
Qed.
Definition words (ws : list Z) : list Z := concat (map (le_bytes 8) ws).
Lemma length_words ws : length (words ws) = (8 * length ws)%nat.
Proof. induction ws as [|w ws IH]; [done|]. cbn [words map concat]. rewrite length_app, length_le_bytes. fold (words ws). rewrite IH. cbn [length]. lia. Qed.
Lemma words_app a b : words (a ++ b) = words a ++ words b.
Proof. unfold words. by rewrite map_app, concat_app. Qed.

Lemma below_write st v bs : base ≤ v → v + Z.of_nat (length bs) ≤ st.1 → st.1 ≤ top → Forall is_u8 bs →
  below st (v, write_bytes_phys fr base v bs st.2) ∧ holds (write_bytes_phys fr base v bs st.2) v bs.
Proof.
  intros H1 H2 H3 Hb. destruct (write_bytes_spec bs v st.2 H1 ltac:(lia) Hb) as [Hh Ho]. split; [|done]. split; [cbn [fst]; lia|].
  intros x Hx. apply Ho; [unfold in_stack; lia|lia].
Qed.

Lemma push_u64_spec v st : st.1 mod 8 = 0 → base + 8 ≤ st.1 ≤ top →
  (push_u64 fr base v st).1 = st.1 - 8 ∧ below st (push_u64 fr base v st) ∧ holds (push_u64 fr base v st).2 (st.1 - 8) (words [v]).
Proof.
  intros H8 Hs. pose proof (so_max _ _ _ K) as Hm. pose proof (so_base _ _ _ K) as Hb0. unfold push_u64. cbn [fst snd].
  rewrite wsub_small by lia. rewrite write_phys_spec.
  - destruct (below_write st (st.1 - 8) (le_bytes 8 v) ltac:(lia) ltac:(rewrite length_le_bytes; lia) ltac:(lia) (le_bytes_u8 8 v)) as [Hb Hh].
    split_and!; [done|done|]. cbn [words map concat]. by rewrite app_nil_r.
  - unfold in_stack. lia.
  - replace (st.1 - 8) with (st.1 + (-1) * 8) by lia. by rewrite Z.mod_add.
Qed.

Lemma push_words_spec l : ∀ st, st.1 mod 8 = 0 → base + 8 * Z.of_nat (length l) ≤ st.1 ≤ top →
  let st' := push_words fr base l st in
  st'.1 = st.1 - 8 * Z.of_nat (length l) ∧ below st st' ∧ holds st'.2 st'.1 (words (rev l)).
Proof.
  induction l as [|v l IH]; intros st H8 Hs; cbn [push_words fold_left length rev] in *.
  { split_and!; [lia|split; [lia|done]|apply holds_nil]. }
  destruct (push_u64_spec v st H8 ltac:(lia)) as (E & Hb & Hh). set (st1 := push_u64 fr base v st) in *.
  destruct (IH st1) as (E' & Hb' & Hh').
  { rewrite E. replace (st.1 - 8) with (st.1 + (-1) * 8) by lia. by rewrite Z.mod_add. }
  { lia. }
  fold (push_words fr base l st1). split_and!; [lia|by eapply below_trans|]. rewrite words_app. apply holds_app. split; [done|].
  rewrite length_words, length_rev. replace (_ + _) with (st.1 - 8) by lia. eapply below_holds; [exact Hb'|lia| |exact Hh]. rewrite length_words. cbn [length]. lia.
Qed.

(** A list of words pushed in reverse lies in order. *)
Lemma push_rev_words ws st rest : st.1 mod 8 = 0 → base + 8 * Z.of_nat (length ws) ≤ st.1 → st.1 + Z.of_nat (length rest) ≤ top →
  holds st.2 st.1 rest →
  let st' := push_words fr base (rev ws) st in
  st'.1 = st.1 - 8 * Z.of_nat (length ws) ∧ below st st' ∧ holds st'.2 st'.1 (words ws ++ rest).
Proof.
  intros H8 Hs Ht Hr. destruct (push_words_spec (rev ws) st H8) as (E & Hb & Hh); [rewrite length_rev; lia|].
  rewrite length_rev, rev_involutive in *. split_and!; [done|done|]. apply holds_app. split; [done|].
  rewrite length_words. replace (_ + _) with st.1 by lia. by eapply below_holds.
Qed.

Lemma push_str_spec s st : base + Z.of_nat (length s) + 1 ≤ st.1 ≤ top → Forall is_u8 s →
  (push_str fr base s st).1 = st.1 - (Z.of_nat (length s) + 1) ∧ below st (push_str fr base s st) ∧
  holds (push_str fr base s st).2 (push_str fr base s st).1 (s ++ [0]).
Proof.
  intros Hs Hu. pose proof (so_max _ _ _ K) as Hm. pose proof (so_base _ _ _ K) as Hb0. unfold push_str. cbn [fst snd]. rewrite wsub_small by lia.
  set (sp := st.1 - _). rewrite wadd_small by lia.
  destruct (below_write st sp s ltac:(lia) ltac:(lia) ltac:(lia) Hu) as [Hb Hh]. set (m := write_bytes_phys fr base sp s st.2) in *.
  destruct (write_bytes_spec [0] (sp + Z.of_nat (length s)) m ltac:(lia) ltac:(cbn [length]; lia)) as [Hh0 Ho]; [by repeat constructor|].
  split_and!; [done|split; [cbn [fst]; lia|]|].
  - intros x Hx. cbn [fst snd] in *. rewrite Ho by (unfold in_stack; cbn [length]; lia). by apply Hb.
  - apply holds_app. split; [|done]. intros i b Hi. pose proof (lookup_lt_Some _ _ _ Hi).
    rewrite Ho by (unfold in_stack; lia). by apply Hh.
Qed.

Definition strings_size (l : list (list Z)) : Z := foldr (λ s n, Z.of_nat (length s) + 1 + n) 0 l.
Lemma strings_size_cons s l : strings_size (s :: l) = Z.of_nat (length s) + 1 + strings_size l.
Proof. done. Qed.
Lemma strings_size_pos l : 0 ≤ strings_size l.
Proof. induction l as [|s l IH]; [done|]. rewrite strings_size_cons. lia. Qed.
Lemma strings_size_app a b : strings_size (a ++ b) = strings_size a + strings_size b.
Proof. induction a as [|s a IH]; [done|]. cbn [app]. rewrite !strings_size_cons, IH. lia. Qed.
Lemma strings_size_rev l : strings_size (rev l) = strings_size l.
Proof. induction l as [|s l IH]; [done|]. cbn [rev]. rewrite strings_size_app, IH, !strings_size_cons. cbn. lia. Qed.

(** Each string, with its NUL, at its address, between two bounds. *)
Definition strings_at m (lo hi : Z) (l : list (list Z)) (ps : list Z) : Prop :=
  Forall2 (λ s p, holds m p (s ++ [0]) ∧ lo ≤ p ∧ p + Z.of_nat (length s) + 1 ≤ hi) l ps.
Lemma below_strings st st' hi l ps : below st st' → hi ≤ top → strings_at st.2 st.1 hi l ps → strings_at st'.2 st'.1 hi l ps.
Proof.
  intros Hb Hhi H. eapply Forall2_impl; [exact H|]. intros s p (Hh & H1 & H2). split_and!; [|destruct Hb; lia|done].
  eapply below_holds; [exact Hb|done| |done]. rewrite length_app. cbn [length]. lia.
Qed.

Lemma push_strs_spec l : ∀ st, base + strings_size l ≤ st.1 ≤ top → Forall (Forall is_u8) l →
  let '(st', ps) := push_strs fr base l st in
  st'.1 = st.1 - strings_size l ∧ below st st' ∧ strings_at st'.2 st'.1 st.1 l ps.
Proof.
  induction l as [|s l IH]; intros st Hs Hu; cbn [push_strs strings_size foldr] in *.
  { split_and!; [lia|split; [lia|done]|constructor]. }
  fold (strings_size l) in *. apply Forall_cons in Hu as [Hu Hul]. pose proof (strings_size_pos l).
  destruct (push_str_spec s st ltac:(lia) Hu) as (E & Hb & Hh). set (st1 := push_str fr base s st) in *.
  specialize (IH st1 ltac:(lia) Hul). destruct (push_strs fr base l st1) as [st2 ps]. destruct IH as (E2 & Hb2 & Hs2).
  split_and!; [lia|by eapply below_trans|]. constructor.
  - split_and!; [|destruct Hb2; lia|lia]. eapply below_holds; [exact Hb2|lia| |done]. rewrite length_app. cbn [length]. lia.
  - eapply Forall2_impl; [exact Hs2|]. intros s' p (Hh' & H1 & H2). split_and!; [done|done|lia].
Qed.
Lemma push_rev_spec l st : base + strings_size l ≤ st.1 ≤ top → Forall (Forall is_u8) l →
  let '(st', ps) := push_rev fr base l st in
  st'.1 = st.1 - strings_size l ∧ below st st' ∧ strings_at st'.2 st'.1 st.1 l ps.
Proof.
  intros Hs Hu. unfold push_rev. pose proof (push_strs_spec (rev l) st) as H. rewrite strings_size_rev in H.
  specialize (H Hs ltac:(by apply Forall_rev)). destruct (push_strs fr base (rev l) st) as [st' ps]. destruct H as (E & Hb & Hst).
  split_and!; [done|done|]. unfold strings_at in *. rewrite <- (rev_involutive l). induction Hst; [done|]. cbn [rev]. apply Forall2_app; [done|]. by constructor.
Qed.

(** The auxiliary vector, pairs pushed from the first to the last. *)
Definition pair_words (l : list (Z * Z)) : list Z := concat (map (λ kv, [kv.1; kv.2]) l).
Lemma push_aux_words l st : push_aux fr base l st = push_words fr base (rev (pair_words (rev l))) st.
Proof.
  revert st. induction l as [|[k v] l IH]; intros st; [done|]. cbn [push_aux fold_left]. fold (push_aux fr base l (aux fr base (k, v) st)). rewrite IH.
  cbn [rev]. unfold pair_words. rewrite map_app, concat_app, rev_app_distr. unfold push_words. rewrite fold_left_app. done.
Qed.

Lemma align16_spec a : 0 ≤ a < 2 ^ 63 → align16 a mod 16 = 0 ∧ a - 15 ≤ align16 a ≤ a.
Proof.
  intros H. unfold align16. assert (Z.land a (wnot 64 15) = a - a mod 16) as E.
  { replace (wnot 64 15) with (Z.ldiff (Z.ones 64) (Z.ones 4)) by reflexivity.
    rewrite Z.ldiff_land, Z.land_assoc, Z.land_ones, (Z.mod_small a) by lia. fold (Z.ldiff a (Z.ones 4)). rewrite <- Z.ldiff_land, Z.ldiff_ones_r by lia.
    rewrite Z.shiftr_div_pow2, Z.shiftl_mul_pow2 by lia. change (2 ^ 4) with 16. pose proof (Z.div_mod a 16 ltac:(lia)). lia. }
  rewrite E. pose proof (Z.mod_pos_bound a 16 ltac:(lia)). split; [|lia]. rewrite Zminus_mod_idemp_r, Z.sub_diag. done.
Qed.
Lemma below_align st : base + 15 ≤ st.1 ≤ top → below st (align_sp st) ∧ (align_sp st).1 mod 16 = 0 ∧ st.1 - 15 ≤ (align_sp st).1 ≤ st.1.
Proof.
  intros Hs. pose proof (so_max _ _ _ K) as Hm. pose proof (so_base _ _ _ K) as Hb0. destruct (align16_spec st.1 ltac:(lia)) as [H1 H2].
  split_and!; [split; [cbn [align_sp fst]; lia|done]|done|cbn [align_sp fst]; lia|cbn [align_sp fst]; lia].
Qed.

(** *** The whole stack *)

(** The words [ws] from the stack pointer on. *)
Definition block st (ws : list Z) : Prop :=
  st.1 mod 8 = 0 ∧ base ≤ st.1 ∧ st.1 + 8 * Z.of_nat (length ws) ≤ top ∧ holds st.2 st.1 (words ws).
Lemma block_push l ws st : block st ws → base + 8 * Z.of_nat (length l) ≤ st.1 →
  let st' := push_words fr base (rev l) st in
  st'.1 = st.1 - 8 * Z.of_nat (length l) ∧ below st st' ∧ block st' (l ++ ws).
Proof.
  intros (H8 & Hb & Ht & Hh) Hs. destruct (push_rev_words l st (words ws) H8 Hs) as (E & Hbl & Hw); [rewrite length_words; lia|done|].
  split_and!; [done|done|]. split_and!; [rewrite E|rewrite E; lia|rewrite E, length_app; lia|by rewrite words_app].
  replace (st.1 - 8 * Z.of_nat (length l)) with (st.1 + (- Z.of_nat (length l)) * 8) by lia. by rewrite Z.mod_add.
Qed.

Definition stack_need (argv envp : list (list Z)) : Z :=
  Z.of_nat (length (default INIT_NAME (head argv))) + strings_size argv + strings_size envp + 8 * Z.of_nat (length argv + length envp) + 433.

(** The strings: the name of the program, the platform, the random bytes. *)
Lemma setup_head_spec tsc name m : Forall is_u8 name → base + Z.of_nat (length name) + 54 ≤ top →
  let st := (setup_head tsc top base fr name m).1 in
  below (top, m) st ∧ top - Z.of_nat (length name) - 54 ≤ st.1.
Proof.
  intros Hu Hs. pose proof (so_max _ _ _ K) as Hm. pose proof (so_base _ _ _ K) as Hb0. unfold setup_head. cbn [fst snd].
  destruct (push_str_spec name (top, m)) as (E & Hb & _); [cbn [fst]; lia|done|]. set (st1 := push_str fr base name (top, m)) in *. cbn [fst] in E.
  rewrite (wsub_small 64 st1.1 7) by lia. destruct (align16_spec (st1.1 - 7) ltac:(lia)) as [_ H2]. set (sp2 := align16 (st1.1 - 7)) in *.
  destruct (below_write st1 sp2 PLATFORM) as [Hb2 _]; [lia|change (length PLATFORM) with 7%nat; lia|lia|by repeat constructor|].
  set (m2 := write_bytes_phys fr base sp2 PLATFORM st1.2) in *. rewrite wsub_small by lia.
  destruct (align16_spec (sp2 - 16) ltac:(lia)) as [H16 H3]. set (sp3 := align16 (sp2 - 16)) in *. rewrite wadd_small by lia.
  assert (sp3 mod 8 = 0) as H8 by (apply Z.mod_divide in H16 as [k ->]; [|lia]; replace (k * 16) with ((k * 2) * 8) by lia; by rewrite Z.mod_mul).
  rewrite !write_phys_spec; [|unfold in_stack; lia|done|unfold in_stack; lia|replace (sp3 + 8) with (sp3 + 1 * 8) by lia; by rewrite Z.mod_add].
  split; [|lia]. eapply below_trans; [exact Hb|]. eapply below_trans; [exact Hb2|]. split; [cbn [fst]; lia|]. intros x Hx. cbn [fst snd] in *.
  destruct (write_bytes_spec (le_bytes 8 (Z.lxor tsc 0xDEADBEEF01020304)) sp3 m2) as [_ Ho]; [lia|rewrite length_le_bytes; lia|apply le_bytes_u8|].
  destruct (write_bytes_spec (le_bytes 8 (Z.lxor tsc 0xBEEFCAFE05060708)) (sp3 + 8) (write_bytes_phys fr base sp3 (le_bytes 8 (Z.lxor tsc 0xDEADBEEF01020304)) m2))
    as [_ Ho']; [lia|rewrite length_le_bytes; lia|apply le_bytes_u8|].
  rewrite Ho', Ho; [done|unfold in_stack; lia|rewrite length_le_bytes; lia|unfold in_stack; lia|rewrite length_le_bytes; lia].
Qed.

Definition pad_words (n : nat) : list Z := if Nat.even (n + 3) then [0] else [].
Definition aux_words (l : list (Z * Z)) : list Z := AT_NULL :: 0 :: pair_words (rev l).

Lemma mult16_8 a : a mod 16 = 0 → a mod 8 = 0.
Proof. intros [k ->]%Z.mod_divide; [|lia]. replace (k * 16) with ((k * 2) * 8) by lia. by rewrite Z.mod_mul. Qed.

(** The auxiliary vector, down to its end. *)
Lemma push_auxv_spec auxl st : base + 31 + 16 * Z.of_nat (length auxl) ≤ st.1 ≤ top →
  let st' := push_words fr base (rev [AT_NULL; 0]) (push_aux fr base auxl (align_sp st)) in
  below st st' ∧ block st' (aux_words auxl) ∧ st'.1 mod 16 = 0 ∧ st.1 - 31 - 16 * Z.of_nat (length auxl) ≤ st'.1.
Proof.
  intros Hs. destruct (below_align st ltac:(lia)) as (Hb6 & Hal6 & Hr6). set (st6 := align_sp st) in *. rewrite push_aux_words.
  set (W := pair_words (rev auxl)). assert (length W = 2 * length auxl)%nat as HW.
  { unfold W, pair_words. rewrite <- (length_rev auxl). generalize (rev auxl). intros l. induction l as [|x l IH]; [done|]. cbn [map concat app length] in *. lia. }
  destruct (block_push W [] st6) as (E7 & Hb7 & Hk7); [split_and!; [by apply mult16_8|lia|cbn [length]; lia|apply holds_nil]|rewrite HW; lia|].
  set (st7 := push_words fr base (rev W) st6) in *. rewrite HW in E7. rewrite app_nil_r in Hk7.
  destruct (block_push [AT_NULL; 0] W st7 Hk7) as (E8 & Hb8 & Hk8); [cbn [length]; lia|]. cbn zeta.
  set (st8 := push_words fr base (rev [AT_NULL; 0]) st7) in *. cbn [length] in E8.
  split_and!; [by eapply below_trans; [|eapply below_trans]|exact Hk8| |lia].
  rewrite E8, E7. apply Z.mod_divide in Hal6 as [k Hk]; [|lia]. rewrite Hk. replace (_ - _) with ((k - Z.of_nat (length auxl) - 1) * 16) by lia. by rewrite Z.mod_mul.
Qed.

Lemma align_sp_same st : 0 ≤ st.1 < 2 ^ 63 → st.1 mod 16 = 0 → align_sp st = st.
Proof.
  intros Hr H. destruct (align16_spec st.1 Hr) as [Hal H1]. unfold align_sp. destruct st as [sp m]. cbn [fst snd] in *.
  apply Z.mod_divide in H as [k ->], Hal as [k' Ek]; try lia. f_equal. lia.
Qed.

(** One word of padding, if it is needed for the alignment of argc. *)
Lemma pad_parity_spec n ws st : block st ws → st.1 mod 16 = 0 → base + 8 ≤ st.1 →
  let st' := pad_parity fr base (n + 3) st in
  below st st' ∧ block st' (pad_words n ++ ws) ∧ (st'.1 - 8 * Z.of_nat (n + 3)) mod 16 = 8 ∧ st.1 - 8 ≤ st'.1.
Proof.
  intros Hk H Hb. apply Z.mod_divide in H as [k Ek]; [|lia]. unfold pad_parity, pad_words. destruct (Nat.even (n + 3)) eqn:Ev; cbn zeta.
  - destruct (block_push [0] ws st Hk) as (E & Hbl & Hk'); [cbn [length]; lia|]. change (push_u64 fr base 0 st) with (push_words fr base (rev [0]) st).
    set (st' := push_words fr base (rev [0]) st) in *. cbn [length] in E. split_and!; [done|exact Hk'| |lia]. rewrite E, Ek. apply Nat.even_spec in Ev as [j Hj]. rewrite Hj.
    replace (_ - _) with (8 + (k - Z.of_nat j - 1) * 16) by lia. by rewrite Z.mod_add.
  - split_and!; [split; [lia|done]|done| |lia]. rewrite Ek. rewrite <- Nat.negb_odd in Ev. apply negb_false_iff, Nat.odd_spec in Ev as [j Hj].
    rewrite Hj. replace (_ - _) with (8 + (k - Z.of_nat j - 1) * 16) by lia. by rewrite Z.mod_add.
Qed.

Lemma setup_vectors_spec auxl arg_ptrs env_ptrs st :
  base + 31 + 16 * Z.of_nat (length auxl) + 8 * Z.of_nat (length arg_ptrs + length env_ptrs + 4) ≤ st.1 ≤ top →
  let st' := setup_vectors base fr auxl arg_ptrs env_ptrs st in
  below st st' ∧ st'.1 mod 16 = 8 ∧
  block st' (Z.of_nat (length arg_ptrs) :: arg_ptrs ++ 0 :: env_ptrs ++ 0 :: pad_words (length arg_ptrs + length env_ptrs) ++ aux_words auxl).
Proof.
  intros Hs. pose proof (so_max _ _ _ K) as Hm. pose proof (so_base _ _ _ K) as Hb0. unfold setup_vectors. set (n := (length arg_ptrs + length env_ptrs)%nat) in *.
  destruct (push_auxv_spec auxl st ltac:(lia)) as (Hb8 & Hk8 & H8 & Hr8). cbn zeta in *.
  change (push_u64 fr base AT_NULL (push_u64 fr base 0 (push_aux fr base auxl (align_sp st)))) with (push_words fr base (rev [AT_NULL; 0]) (push_aux fr base auxl (align_sp st))).
  set (st8 := push_words fr base (rev [AT_NULL; 0]) _) in *. pose proof Hk8 as (_ & _ & Ht8 & _). rewrite align_sp_same by (done || lia).
  replace (1 + length arg_ptrs + 1 + length env_ptrs + 1)%nat with (n + 3)%nat by lia.
  destruct (pad_parity_spec n (aux_words auxl) st8 Hk8 H8 ltac:(lia)) as (Hb9 & Hk9 & H9 & Hr9). set (st9 := pad_parity fr base (n + 3) st8) in *.
  change (push_u64 fr base 0 st9) with (push_words fr base (rev [0]) st9).
  destruct (block_push [0] _ st9 Hk9) as (E10 & Hb10 & Hk10); [cbn [length]; lia|]. set (st10 := push_words fr base (rev [0]) st9) in *. cbn [length] in E10.
  destruct (block_push env_ptrs _ st10 Hk10) as (E11 & Hb11 & Hk11); [lia|]. set (st11 := push_words fr base (rev env_ptrs) st10) in *.
  change (push_u64 fr base 0 st11) with (push_words fr base (rev [0]) st11).
  destruct (block_push [0] _ st11 Hk11) as (E12 & Hb12 & Hk12); [cbn [length]; lia|]. set (st12 := push_words fr base (rev [0]) st11) in *. cbn [length] in E12.
  destruct (block_push arg_ptrs _ st12 Hk12) as (E13 & Hb13 & Hk13); [lia|]. set (st13 := push_words fr base (rev arg_ptrs) st12) in *.
  set (argc := Z.of_nat (length arg_ptrs)) in *. change (push_u64 fr base argc st13) with (push_words fr base (rev [argc]) st13).
  destruct (block_push [argc] _ st13 Hk13) as (E14 & Hb14 & Hk14); [cbn [length]; lia|]. set (st14 := push_words fr base (rev [argc]) st13) in *. cbn [length] in E14.
  split_and!; [|rewrite E14, E13, E12, E11, E10, <- H9; f_equal; lia|exact Hk14].
  repeat (eapply below_trans; [eassumption|]). split; [destruct Hk14 as (_ & ? & _); lia|done].
Qed.

Lemma setup_stack_layout tsc argv envp at_entry phdr phent phnum at_base m :
  Forall (Forall is_u8) argv → Forall (Forall is_u8) envp → base + stack_need argv envp ≤ top →
  let st := setup_stack tsc top base fr argv envp at_entry phdr phent phnum at_base m in
  ∃ arg_ptrs env_ptrs auxl, st.1 mod 16 = 8 ∧ length arg_ptrs = length argv ∧ length env_ptrs = length envp ∧
    block st (Z.of_nat (length argv) :: arg_ptrs ++ 0 :: env_ptrs ++ 0 :: pad_words (length argv + length envp) ++ aux_words auxl) ∧
    strings_at st.2 st.1 top argv arg_ptrs ∧ strings_at st.2 st.1 top envp env_ptrs.
Proof.
  intros Ha He Hn. pose proof (strings_size_pos argv). pose proof (strings_size_pos envp). unfold stack_need in Hn. unfold setup_stack.
  set (name := default INIT_NAME (head argv)) in *.
  assert (Forall is_u8 name) as Hname by (unfold name; destruct argv as [|a r]; [by repeat constructor|by apply Forall_cons in Ha as [? _]]).
  pose proof (setup_head_spec tsc name m Hname ltac:(lia)) as H1. destruct (setup_head tsc top base fr name m) as [st3 [[x1 x2] x3]]. cbn [fst] in H1.
  destruct H1 as [[Hr1 _] H1]. cbn [fst] in Hr1.
  pose proof (push_rev_spec envp st3 ltac:(lia) He) as H4. destruct (push_rev fr base envp st3) as [st4 eps]. destruct H4 as (E4 & Hb4 & Hs4).
  pose proof (push_rev_spec argv st4 ltac:(lia) Ha) as H5. destruct (push_rev fr base argv st4) as [st5 aps]. destruct H5 as (E5 & Hb5 & Hs5).
  pose proof (Forall2_length _ _ _ Hs4) as L4. pose proof (Forall2_length _ _ _ Hs5) as L5.
  destruct (setup_vectors_spec (auxv x1 x2 x3 at_entry at_base phnum phent phdr) aps eps st5) as (Hb & Hal & Hk); [change (length (auxv _ _ _ _ _ _ _ _)) with 18%nat; lia|].
  cbn zeta. set (st := setup_vectors _ _ _ _ _ _) in *. exists aps, eps, (auxv x1 x2 x3 at_entry at_base phnum phent phdr).
  rewrite L5, L4. split_and!; [done|done|done|done|..].
  - apply (below_strings st5); [done|lia|]. eapply Forall2_impl; [exact Hs5|]. intros s0 p (? & ? & ?). split_and!; [done|done|lia].
  - apply (below_strings st4); [by eapply below_trans|lia|]. eapply Forall2_impl; [exact Hs4|]. intros s0 p (? & ? & ?). split_and!; [done|done|lia].
Qed.

(** *** What the program reads *)
Definition read_word m (v : Z) : Z := le_value (map (λ i, vbyte m (v + Z.of_nat i)) (List.seq 0 8)).
(** The string at [v], up to its NUL, at most [n] bytes. *)
Fixpoint c_string (n : nat) m (v : Z) : list Z :=
  match n with
  | O => []
  | S n => if vbyte m v =? 0 then [] else vbyte m v :: c_string n m (v + 1)
  end.
(** The auxiliary vector from [v] on: pairs up to the key AT_NULL. *)
Fixpoint read_auxv (n : nat) m (v : Z) : list (Z * Z) :=
  match n with
  | O => []
  | S n => if read_word m v =? AT_NULL then [] else (read_word m v, read_word m (v + 8)) :: read_auxv n m (v + 16)
  end.

Lemma holds_word m v w : in_range 64 w → holds m v (words [w]) → read_word m v = w.
Proof.
  intros Hw Hh. unfold read_word. assert (map (λ i, vbyte m (v + Z.of_nat i)) (List.seq 0 8) = le_bytes 8 w) as ->.
  { apply list_eq. intros i. cbn [words map concat] in Hh. rewrite app_nil_r in Hh. destruct (le_bytes 8 w !! i) as [b|] eqn:Hb.
    - pose proof (lookup_lt_Some _ _ _ Hb) as Hl. rewrite length_le_bytes in Hl. change (map ?f ?l) with (f <$> l). rewrite list_lookup_fmap.
      rewrite lookup_seq_lt by done. cbn. f_equal. by apply Hh.
    - apply lookup_ge_None in Hb. apply lookup_ge_None. rewrite length_map, length_seq. by rewrite length_le_bytes in Hb. }
  rewrite le_value_bytes. by apply wrap_small.
Qed.
Lemma block_word st ws i w : block st ws → ws !! i = Some w → in_range 64 w → read_word st.2 (st.1 + 8 * Z.of_nat i) = w.
Proof.
  intros (_ & _ & _ & Hh) Hi Hw. apply holds_word; [done|]. apply list_elem_of_split_length in Hi as (l1 & l2 & -> & Hl).
  change (w :: l2) with ([w] ++ l2) in Hh. rewrite !words_app in Hh. apply holds_app in Hh as [_ Hh]. apply holds_app in Hh as [Hh _].
  rewrite length_words in Hh. by replace (st.1 + 8 * Z.of_nat i) with (st.1 + Z.of_nat (8 * length l1)) by lia.
Qed.
Lemma holds_string s : ∀ m v n, holds m v (s ++ [0]) → Forall (λ b, b ≠ 0) s → (length s < n)%nat → c_string n m v = s.
Proof.
  induction s as [|b s IH]; intros m v n Hh Hz Hn; (destruct n as [|n]; [lia|]); cbn [c_string length] in *.
  - specialize (Hh 0%nat 0 eq_refl). change (Z.of_nat 0) with 0 in Hh. rewrite Z.add_0_r in Hh. by rewrite Hh.
  - apply Forall_cons in Hz as [Hb Hz]. pose proof (Hh 0%nat b eq_refl) as H0. change (Z.of_nat 0) with 0 in H0. rewrite Z.add_0_r in H0. rewrite H0.
    rewrite (proj2 (Z.eqb_neq b 0)) by done. f_equal. apply IH; [|done|lia]. intros i x Hi. rewrite <- (Hh (S i) x Hi). f_equal. lia.
Qed.
End Stack.

Definition is_string (s : list Z) : Prop := Forall is_u8 s ∧ Forall (λ b, b ≠ 0) s.
Section Abi.
Context {A : Type} (fr : list Z) (base top : Z) (K : stack_ok fr base top).
Context (argv envp : list (list Z)) (Hargv : Forall is_string argv) (Henvp : Forall is_string envp) (Hfit : base + stack_need argv envp ≤ top).
Context (tsc at_entry phdr phent phnum at_base : Z) (m : Memory A).
Let st := setup_stack tsc top base fr argv envp at_entry phdr phent phnum at_base m.
Let argc : Z := Z.of_nat (length argv).
Let envc : Z := Z.of_nat (length envp).

Lemma string_u8 l : Forall is_string l → Forall (Forall is_u8) l.
Proof. intros H. eapply Forall_impl; [exact H|]. by intros s [??]. Qed.
Lemma strings_size_length l : Z.of_nat (length l) ≤ strings_size l.
Proof. induction l as [|s l IH]; [done|]. rewrite strings_size_cons. cbn [length]. lia. Qed.

(** The pointer to a string of a vector. *)
Lemma strings_pointer l ps i s : strings_at fr base st.2 st.1 top l ps → Forall is_string l → base ≤ st.1 → l !! i = Some s →
  ∃ p, ps !! i = Some p ∧ in_range 64 p ∧ c_string fr base (Z.to_nat (top - base)) st.2 p = s.
Proof.
  intros Hat Hl Hb Hi. destruct (Forall2_lookup_l _ _ _ _ _ Hat Hi) as (p & Hp & Hh & H1 & H2). exists p.
  pose proof (so_max _ _ _ K). pose proof (so_base _ _ _ K). rewrite Forall_forall in Hl. destruct (Hl s) as [_ Hz]; [by eapply list_elem_of_lookup_2|].
  split_and!; [done|unfold in_range; lia|]. apply holds_string; [done|done|lia].
Qed.

(** C22. The stack that a new program finds: the stack pointer is 8 above a
    multiple of 16; at it is argc, behind it the pointers to the arguments, a
    NULL, the pointers to the environment and a NULL; each pointer leads to
    its string, read up to the NUL, as it was given to exec. *)
Theorem first_stack_abi :
  st.1 mod 16 = 8 ∧ base ≤ st.1 ∧ read_word fr base st.2 st.1 = argc ∧
  (∀ i s, argv !! i = Some s → c_string fr base (Z.to_nat (top - base)) st.2 (read_word fr base st.2 (st.1 + 8 + 8 * Z.of_nat i)) = s) ∧
  read_word fr base st.2 (st.1 + 8 + 8 * argc) = 0 ∧
  (∀ i s, envp !! i = Some s → c_string fr base (Z.to_nat (top - base)) st.2 (read_word fr base st.2 (st.1 + 16 + 8 * (argc + Z.of_nat i))) = s) ∧
  read_word fr base st.2 (st.1 + 16 + 8 * (argc + envc)) = 0.
Proof.
  pose proof (setup_stack_layout fr base top K tsc argv envp at_entry phdr phent phnum at_base m (string_u8 _ Hargv) (string_u8 _ Henvp) Hfit) as H.
  fold st in H. cbn zeta in H. destruct H as (aps & eps & auxl & Hal & La & Le & Hk & Ha & He). fold argc in Hk.
  set (rest := pad_words _ ++ aux_words auxl) in *. pose proof Hk as (_ & Hb & Ht & _).
  pose proof (so_max _ _ _ K). pose proof (so_base _ _ _ K). pose proof (strings_size_length argv). pose proof (strings_size_pos envp). unfold stack_need in Hfit.
  assert (∀ i w, (argc :: aps ++ 0 :: eps ++ 0 :: rest) !! i = Some w → in_range 64 w → read_word fr base st.2 (st.1 + 8 * Z.of_nat i) = w) as Hw by (intros i w; by apply (block_word fr base top)).
  split_and!; [done|done|..].
  - replace st.1 with (st.1 + 8 * Z.of_nat 0) by lia. apply (Hw 0%nat argc eq_refl). unfold in_range, argc. lia.
  - intros i s Hi. destruct (strings_pointer argv aps i s Ha Hargv Hb Hi) as (p & Hp & Hr & Hs).
    assert (read_word fr base st.2 (st.1 + 8 + 8 * Z.of_nat i) = p) as ->; [|done]. rewrite <- (Hw (S i) p); [f_equal; lia| |done].
    simpl. by apply lookup_app_l_Some.
  - rewrite <- (Hw (S (length aps)) 0); [f_equal; lia| |unfold in_range; lia]. simpl. by rewrite lookup_app_r, Nat.sub_diag by lia.
  - intros i s Hi. destruct (strings_pointer envp eps i s He Henvp Hb Hi) as (p & Hp & Hr & Hs).
    assert (read_word fr base st.2 (st.1 + 16 + 8 * (argc + Z.of_nat i)) = p) as ->; [|done].
    rewrite <- (Hw (S (length aps + S i)) p); [f_equal; lia| |done]. simpl. rewrite lookup_app_r by lia. replace (_ - _)%nat with (S i) by lia. simpl.
    by apply lookup_app_l_Some.
  - rewrite <- (Hw (S (length aps + S (length eps))) 0); [f_equal; lia| |unfold in_range; lia]. simpl. rewrite lookup_app_r by lia.
    replace (_ - _)%nat with (S (length eps)) by lia. simpl. by rewrite lookup_app_r, Nat.sub_diag by lia.
Qed.

(** AT_NULL, which ends the auxiliary vector, is pushed last and so lies at
    its beginning, right behind the NULL of the environment: a program that
    reads the vector the way the ABI says finds it empty, whatever the kernel
    put there (no AT_PHDR, no AT_BASE, no AT_RANDOM). *)
Theorem auxv_is_empty n : read_auxv fr base n st.2 (st.1 + 8 * (argc + envc + 3)) = [].
Proof.
  pose proof (setup_stack_layout fr base top K tsc argv envp at_entry phdr phent phnum at_base m (string_u8 _ Hargv) (string_u8 _ Henvp) Hfit) as H.
  fold st in H. cbn zeta in H. destruct H as (aps & eps & auxl & _ & La & Le & Hk & _ & _). destruct n as [|n]; [done|]. cbn [read_auxv].
  assert (read_word fr base st.2 (st.1 + 8 * (argc + envc + 3)) = 0) as ->; [|done].
  replace (argc + envc + 3) with (Z.of_nat (S (length aps + S (length eps + 1)))) by lia.
  eapply block_word; [exact Hk| |unfold in_range; lia]. simpl. rewrite lookup_app_r by lia. replace (_ - _)%nat with (S (length eps + 1)) by lia. simpl.
  rewrite lookup_app_r by lia. replace (_ - _)%nat with 1%nat by lia. simpl. unfold pad_words. by destruct (Nat.even _).
Qed.
End Abi.

(** ** A small stack: two frames, the program "sh" with the argument "-c" and
    one variable. *)
Definition demo_frames : list Z := [100 * 4096; 99 * 4096].
Definition demo_args : list (list Z) := [[115; 104]; [45; 99]].
Definition demo_env : list (list Z) := [[65; 61; 49]].
Lemma demo_stack_ok : stack_ok demo_frames 0x10000 0x12000.
Proof. split; [done|done|done| |by repeat constructor]. apply (bool_decide_unpack _). vm_compute. done. Qed.
Definition demo_stack : Stk := setup_stack 5 0x12000 0x10000 demo_frames demo_args demo_env 0x400000 0 56 2 0 (mkMem tt ∅).

Lemma first_stack_abi_witness : demo_stack.1 mod 16 = 8 ∧ read_word demo_frames 0x10000 demo_stack.2 demo_stack.1 = 2 ∧
  c_string demo_frames 0x10000 0x2000 demo_stack.2 (read_word demo_frames 0x10000 demo_stack.2 (demo_stack.1 + 16)) = [45; 99].
Proof.
  destruct (first_stack_abi demo_frames 0x10000 0x12000 demo_stack_ok demo_args demo_env ltac:(by repeat constructor) ltac:(by repeat constructor) ltac:(vm_compute; congruence)
    5 0x400000 0 56 2 0 (mkMem tt ∅)) as (H1 & _ & H2 & H3 & _). split_and!; [exact H1|exact H2|]. exact (H3 1%nat [45; 99] eq_refl).
Defined.
Lemma auxv_is_empty_witness : read_auxv demo_frames 0x10000 20 demo_stack.2 (demo_stack.1 + 8 * (2 + 1 + 3)) = [].
Proof.
  apply (auxv_is_empty demo_frames 0x10000 0x12000 demo_stack_ok demo_args demo_env ltac:(by repeat constructor) ltac:(by repeat constructor) ltac:(vm_compute; congruence)
    5 0x400000 0 56 2 0 (mkMem tt ∅) 20).
Defined.
