(* ===== verification/ElfLoad.v ===== *)
(** * Loading segments

    A PT_LOAD segment that is consistent is mapped, holds the bytes of the
    file and zeros behind them, and disturbs no other page.  Two that are not
    consistent pass the checks of the code: one whose address wraps is mapped
    into the kernel's half, and one with more file than memory stops the
    kernel. *)
From stdpp Require Import strings.
From S2P Require Import Prelude Paging Vmm VmmFork VmmMap Elf ElfFacts.

Section Load.
Context {A : Type} `{FA : FrameAlloc A}.
Context {S : Type} `{ES : ElfSource S}.
Implicit Types (s : Vm A) (src : S) (m : Memory A).

(** A source that reads the bytes of a file. *)
Definition lawful src (data : list Z) : Prop :=
  src_len src = Z.of_nat (length data) ∧
  ∀ off n, 0 ≤ off → off + Z.of_nat n ≤ Z.of_nat (length data) → read_exact src off n = Ok (take n (drop (Z.to_nat off) data)).

(** ** Frames for a segment *)
Lemma map_frames_ok r fl R : r ∈ R → flags_ok fl → Z.lor fl PRESENT = fl →
  ∀ k s E F v acc, vm_rep s R E F → 0 ≤ v → v mod 4096 = 0 → v + Z.of_nat k * 4096 ≤ 2 ^ 47 →
  (∀ j, 0 ≤ j < Z.of_nat k → E !! (r, v / 4096 + j) = None) → (4 * k ≤ fa_avail (frames (vmem s)))%nat →
  ∃ s' E' fr, map_frames r fl k v acc s = Some (s', Some (acc ++ fr)) ∧ length fr = k ∧
    (∀ i, new_pages s s' R E E' r (v / 4096) k fl i (λ _, ∅)) ∧
    ∀ j p, fr !! j = Some p → E' !! (r, v / 4096 + Z.of_nat j) = Some (p, fl).
Proof.
  intros Hr Hok Hpr. induction k as [|k IH]; intros s E F v acc Hs Hv Hal Hmax Hnone Hav; cbn [map_frames].
  { exists s, E, []. rewrite app_nil_r. split_and!; [done|done|intros i; by eapply new_pages_0|]. intros j p. by rewrite lookup_nil. }
  assert (E !! (r, v / 4096) = None) as H0 by (rewrite <- (Z.add_0_r (v / 4096)); apply Hnone; lia).
  destruct (new_page_cases (λ _ _ m, m) (λ _, ∅) s R E F r v fl 0 fills_zero Hs Hr) as (s0 & [p|] & -> & Hcase);
    [unfold user; lia|done..| |destruct Hcase as (_ & _ & ?); lia].
  destruct Hcase as [[_ ?]|(s1 & f & F1 & -> & Hmap & Hadd)]; [lia|].
  cbn [mbind option_bind]. rewrite Hmap. cbn [mbind option_bind]. unfold PAGE. rewrite wadd_small by lia.
  destruct (page_step v Hal) as [Hdiv Hal']. pose proof (pa_avail _ _ _ _ _ _ _ _ _ _ _ Hadd).
  destruct (IH s1 _ F1 (v + 4096) (acc ++ [f * 4096]) (pa_rep _ _ _ _ _ _ _ _ _ _ _ Hadd)) as (s2 & E2 & fr & Hrun & Hl & Hnp & Hfr); [lia|done|lia| |lia|].
  { intros j Hj. rewrite lookup_insert_ne by (intros [=]; lia). rewrite Hdiv.
    replace (v / 4096 + 1 + j) with (v / 4096 + (j + 1)) by lia. apply Hnone. lia. }
  exists s2, E2, (f * 4096 :: fr). rewrite Hdiv in Hfr. setoid_rewrite Hdiv in Hnp. rewrite <- app_assoc in Hrun. cbn [app] in Hrun.
  split_and!; [exact Hrun|cbn; lia|intros i; by eapply (new_pages_S _ _ _ _ _ _ _ _ _ _ _ _ _ i)|].
  intros [|j] p Hp; cbn in Hp.
  - injection Hp as <-. change (Z.of_nat 0) with 0. rewrite Z.add_0_r. rewrite (np_out _ _ _ _ _ _ _ _ _ _ _ (Hnp 0)) by lia. by rewrite lookup_insert_eq.
  - rewrite <- (Hfr j p Hp). do 2 f_equal. lia.
Qed.

(** ** Copying the file *)
Lemma write_bytes_app fr base a b v m : 0 ≤ v → v + Z.of_nat (length a) < 2 ^ 64 →
  write_bytes_phys fr base v (a ++ b) m = write_bytes_phys fr base (v + Z.of_nat (length a)) b (write_bytes_phys (A := A) fr base v a m).
Proof.
  revert v m. induction a as [|x a IH]; intros v m Hv Hl; cbn [app length] in *; [by rewrite Z.add_0_r|].
  cbn [write_bytes_phys]. rewrite wadd_small by lia. rewrite IH by lia. f_equal. lia.
Qed.

Lemma copy_segment_ok fr base top src data off : stack_ok fr base top → lawful src data → 0 ≤ off →
  ∀ fuel v copied to_copy m, 0 ≤ copied ≤ to_copy → base ≤ v → v + (to_copy - copied) ≤ top → off + to_copy ≤ Z.of_nat (length data) →
  Z.of_nat (length data) < 2 ^ 64 → (copied < to_copy → (v mod 4096 + (to_copy - copied) + 4095) / 4096 ≤ Z.of_nat fuel) →
  copy_segment fuel src off fr base v copied to_copy m =
    Some (write_bytes_phys fr base v (take (Z.to_nat (to_copy - copied)) (drop (Z.to_nat (off + copied)) data)) m, Ok tt).
Proof.
  intros K [Hlen Hread] Hoff. pose proof (so_max _ _ _ K) as Hmax. pose proof (so_base _ _ _ K) as [Hb0 Hb1].
  induction fuel as [|fuel IH]; intros v copied to_copy m0 Hc Hv Ht Hd Hd64 Hf; cbn [copy_segment].
  all: pose proof (Z.mod_pos_bound v 4096 ltac:(lia)) as Hvm.
  all: destruct (Z.ltb_spec copied to_copy) as [Hlt|Hge]; [|replace (to_copy - copied) with 0 by lia; done].
  - exfalso. assert (1 ≤ (v mod 4096 + (to_copy - copied) + 4095) / 4096) by (apply Z.div_le_lower_bound; lia). lia.
  - assert (in_stack base top v) as Hin by (unfold in_stack; lia). destruct (code_page fr base top K v Hin) as [-> ->].
    destruct (page_of fr base top K v Hin) as (f & Hf1 & Hf2). unfold PAGE. set (o := v mod 4096) in *. set (can := Z.min (4096 - o) (to_copy - copied)) in *.
    rewrite wadd_small by lia. rewrite Hread by lia. rewrite Hf1. cbn [mbind option_bind]. rewrite wadd_small by lia.
    set (bs := take (Z.to_nat can) (drop (Z.to_nat (off + copied)) data)).
    assert (length bs = Z.to_nat can) as Hbs by (unfold bs; rewrite length_take, length_drop; lia).
    change (f + o) with (f + v mod 4096). rewrite (put_phys_write fr base top K) by (done || (fold o; rewrite Hbs; lia)).
    rewrite IH; [| lia | lia | lia | lia | lia |].
    + do 2 f_equal. rewrite <- (take_drop (Z.to_nat can) (take (Z.to_nat (to_copy - copied)) (drop (Z.to_nat (off + copied)) data))).
      rewrite take_take, Nat.min_l by lia. fold bs. rewrite write_bytes_app by (rewrite ?Hbs; lia). rewrite Hbs. f_equal; [lia|].
      rewrite skipn_firstn_comm, drop_drop. f_equal; [lia|f_equal; lia].
    + intros Hmore. specialize (Hf Hlt). assert (can = 4096 - o) as Hm by lia. rewrite Hm in *.
      assert ((v + (4096 - o)) mod 4096 = 0) as ->.
      { unfold o. replace (v + (4096 - v mod 4096)) with ((v / 4096 + 1) * 4096) by (pose proof (Z.div_mod v 4096 ltac:(lia)); lia). by rewrite Z.mod_mul. }
      replace (o + (to_copy - copied) + 4095) with (0 + (to_copy - (copied + (4096 - o))) + 4095 + 1 * 4096) in Hf by lia. rewrite Z.div_add in Hf by lia. lia.
Qed.

(** ** Memory around the copy *)
Lemma write1_ram fr base top v b m : stack_ok fr base top → in_stack base top v →
  frames (write1 fr base v b m) = frames m ∧ ∀ g, g ∉ fr → ram (write1 fr base v b m) !! g = ram m !! g.
Proof.
  intros K Hv. unfold write1. destruct (code_page fr base top K v Hv) as [-> ->]. destruct (page_of fr base top K v Hv) as (f & Hf & H0 & Hal). rewrite Hf.
  split; [done|]. intros g Hg. unfold wr_byte, wr. cbn [ram]. apply lookup_insert_ne. intros <-. apply Hg.
  pose proof (Z.mod_pos_bound v 4096 ltac:(lia)). apply Z.mod_divide in Hal as [k ->]; [|lia]. rewrite (Z.add_comm (k * 4096)), Z.div_add, Z.div_small by lia.
  by eapply list_elem_of_lookup_2.
Qed.
Lemma write_bytes_ram fr base top bs : stack_ok fr base top → ∀ v m, base ≤ v → v + Z.of_nat (length bs) ≤ top →
  frames (write_bytes_phys fr base v bs m) = frames m ∧ ∀ g, g ∉ fr → ram (write_bytes_phys fr base v bs m) !! g = ram m !! g.
Proof.
  intros K. induction bs as [|b bs IH]; intros v m H1 H2; [done|]. cbn [length] in H2. rewrite write_bytes_cons.
  pose proof (so_max _ _ _ K). pose proof (so_base _ _ _ K). rewrite wadd_small by lia.
  destruct (write1_ram fr base top v b m K ltac:(unfold in_stack; lia)) as [E1 E2]. destruct (IH (v + 1) (write1 fr base v b m)) as [-> E4]; [lia|lia|].
  split; [done|]. intros g Hg. by rewrite E4, E2.
Qed.

(** Writing to frames that are not tables. *)
Lemma mem_rep_write_frames m m' R E F (fr : list Z) :
  mem_rep m R E F → frames m' = frames m → (∀ g, g ∉ fr → ram m' !! g = ram m !! g) → (∀ p, p ∈ fr → not_table m R p) → mem_rep m' R E F.
Proof.
  intros Hm Hf Hram Hnt. apply (mem_rep_ram m m' R E F F); [done|rewrite Hf; apply Hm| |done].
  intros r q u j Hr Hq Hw. unfold rd. rewrite Hram; [done|]. intros Hu. by apply (Hnt u Hu r q).
Qed.

Lemma count_one (E : gmap (Z * Z) (Z * Z)) p k1 k2 fl1 fl2 : count E p = 1 → E !! k1 = Some (p, fl1) → E !! k2 = Some (p, fl2) → k1 = k2.
Proof.
  intros Hc H1 H2. destruct (decide (k1 = k2)) as [->|Hne]; [done|]. exfalso. rewrite (count_delete E k1 p fl1 p H1), decide_True in Hc by done.
  assert (delete k1 E !! k2 = Some (p, fl2)) as H3 by by rewrite lookup_delete_ne.
  pose proof (count_pos _ _ _ _ H3). lia.
Qed.

(** What a process reads at an address. *)
Definition user_byte s (r v : Z) : option Z := p ← translate (vmem s) r v; Some (rd_byte (vmem s) p).

Lemma translate_exact m R E F r v p fl : mem_rep m R E F → r ∈ R → user v → E !! (r, v / 4096) = Some (p, fl) → translate m r v = Some (p + v mod 4096).
Proof.
  intros Hm Hr Hv Hk. rewrite translate_mapping, (mr_map _ _ _ _ Hm r v Hr Hv), Hk. cbn. f_equal.
  destruct (mr_frame _ _ _ _ Hm _ _ _ Hk) as (f & -> & Hf & _). change 4095 with (Z.ones 12).
  pose proof (Z.add_lor_land (f * 4096) (Z.land v (Z.ones 12))) as Hl.
  assert (Z.land (f * 4096) (Z.land v (Z.ones 12)) = 0) as H0.
  { rewrite (Z.land_comm v), Z.land_assoc, Z.land_ones by lia. change (2 ^ 12) with 4096. by rewrite Z.mod_mul. }
  rewrite H0, Z.add_0_r in Hl. rewrite Hl. f_equal. by rewrite Z.land_ones by lia.
Qed.

(** A byte of a page of the segment, as a byte of the array of frames. *)
Lemma user_byte_array s R E F r fr base n fl x : vm_rep s R E F → r ∈ R → 0 ≤ base → base mod 4096 = 0 → base + 4096 * Z.of_nat n ≤ 2 ^ 47 → length fr = n →
  (∀ j p, fr !! j = Some p → E !! (r, base / 4096 + Z.of_nat j) = Some (p, fl)) → in_stack base (base + 4096 * Z.of_nat n) x →
  user_byte s r x = Some (vbyte fr base (vmem s) x).
Proof.
  intros [Hm _] Hr Hb0 Hb Hmax Hl Hfr [H1 H2]. unfold user_byte, vbyte, vphys.
  assert (0 ≤ (x - base) / 4096 < Z.of_nat n) as Hj by (split; [apply Z.div_pos; lia|apply Z.div_lt_upper_bound; lia]).
  destruct (fr !! Z.to_nat ((x - base) / 4096)) as [p|] eqn:Hp; [|apply lookup_ge_None in Hp; lia].
  specialize (Hfr _ _ Hp). rewrite Z2Nat.id in Hfr by lia. apply Z.mod_divide in Hb as [k ->]; [|lia]. rewrite Z.div_mul in Hfr by lia.
  replace (x - k * 4096) with (x + (- k) * 4096) in Hfr by lia. rewrite Z.div_add in Hfr by lia. replace (k + (x / 4096 + - k)) with (x / 4096) in Hfr by lia.
  cbn [mbind option_bind]. rewrite (translate_exact (vmem s) R E F r x p fl Hm Hr); [done|unfold user; lia|done].
Qed.

(** The frames of new pages are an array of their own, filled with zeros. *)
Lemma new_pages_array s s' R E E' r base n fl fr : 0 ≤ base → base mod 4096 = 0 → base + 4096 * Z.of_nat n ≤ 2 ^ 47 → length fr = n →
  (∀ j, 0 ≤ j < Z.of_nat n → E !! (r, base / 4096 + j) = None) → new_pages s s' R E E' r (base / 4096) n fl 0 (λ _, ∅) → (∀ j p, fr !! j = Some p → E' !! (r, base / 4096 + Z.of_nat j) = Some (p, fl)) →
  stack_ok fr base (base + 4096 * Z.of_nat n) ∧ (∀ p, p ∈ fr → not_table (vmem s') R p ∧ ∀ k fl', E !! k ≠ Some (p, fl')) ∧
  ∀ x, in_stack base (base + 4096 * Z.of_nat n) x → vbyte fr base (vmem s') x = 0.
Proof.
  intros Hb0 Hb Hmax Hl Hnone Hnp Hfr. destruct (np_rep _ _ _ _ _ _ _ _ _ _ _ Hnp) as [F' [Hm _]].
  assert (∀ j p, fr !! j = Some p → count E' p = 1 ∧ page_at s' p = ∅) as Hone.
  { intros j p Hj. destruct (np_in _ _ _ _ _ _ _ _ _ _ _ Hnp (Z.of_nat j)) as (q & Hq & Hc & Hpg); [apply lookup_lt_Some in Hj; lia|].
    rewrite (Hfr _ _ Hj) in Hq. by injection Hq as <-. }
  assert (stack_ok fr base (base + 4096 * Z.of_nat n)) as K.
  { split; [by rewrite Hl|done|lia|..].
    - apply NoDup_alt. intros i j p Hi Hj. destruct (Hone i p Hi) as [Hc _]. pose proof (count_one _ _ _ _ _ _ Hc (Hfr _ _ Hi) (Hfr _ _ Hj)) as [= E1]. lia.
    - apply Forall_lookup. intros j p Hj. destruct (mr_frame _ _ _ _ Hm _ _ _ (Hfr _ _ Hj)) as (f & -> & Hf & _). split; [lia|by apply Z.mod_mul]. }
  split_and!; [done|..].
  - intros p Hp. apply list_elem_of_lookup in Hp as [j Hj]. destruct (mr_frame _ _ _ _ Hm _ _ _ (Hfr _ _ Hj)) as (f & -> & Hf & _ & Hnt). split; [done|].
    intros [r' n'] fl' Hk. pose proof (lookup_lt_Some _ _ _ Hj) as Hjl.
    assert (r' ≠ r ∨ n' < base / 4096 ∨ base / 4096 + Z.of_nat n ≤ n') as Hout.
    { destruct (decide (r' = r)) as [->|]; [|by left]. right. destruct (decide (base / 4096 ≤ n' < base / 4096 + Z.of_nat n)); [|lia].
      exfalso. specialize (Hnone (n' - base / 4096) ltac:(lia)). replace (base / 4096 + (n' - base / 4096)) with n' in Hnone by lia. congruence. }
    rewrite <- (np_out _ _ _ _ _ _ _ _ _ _ _ Hnp r' n' Hout) in Hk. pose proof (count_one _ _ _ _ _ _ (proj1 (Hone _ _ Hj)) (Hfr _ _ Hj) Hk) as [= <- <-]. lia.
  - intros x Hx. destruct (page_of fr base _ K x Hx) as (p & Hp & H0 & Hal). unfold vbyte, vphys. rewrite Hp. cbn [mbind option_bind].
    unfold rd_byte. pose proof (Z.mod_pos_bound x 4096 ltac:(lia)). apply Z.mod_divide in Hal as [k ->]; [|lia].
    rewrite (Z.add_comm (k * 4096)), Z.div_add, Z.div_small by lia. destruct (Hone _ _ Hp) as [_ Hpg]. unfold page_at in Hpg. unfold rd. rewrite Z.add_0_l, Hpg.
    rewrite lookup_empty. cbn [default from_option id]. generalize (Z.to_nat ((x mod 4096 + k * 4096) mod 8)). intros i. by do 9 (destruct i; [done|]).
Qed.

(** ** A segment *)
Definition seg_pages (v memsz : Z) : Z := (v mod 4096 + memsz + 4095) / 4096.

Lemma segment_arith v memsz : 0 ≤ v → 0 < memsz → v + memsz ≤ USER_MAX →
  let base := v / 4096 * 4096 in let n := seg_pages v memsz in
  page_down v = base ∧ wsub 64 v base = v mod 4096 ∧ wsub 64 (wadd 64 (wadd 64 (v mod 4096) memsz) PAGE) 1 / PAGE = n ∧
  0 < n ∧ base + 4096 * n ≤ 2 ^ 47 ∧ v + memsz ≤ base + 4096 * n ∧ base ≤ v ∧ 0 ≤ base ∧ wadd 64 base (wmul 64 n PAGE) = base + 4096 * n.
Proof.
  intros Hv Hm Hu base n. unfold USER_MAX in Hu. pose proof (Z.div_mod v 4096 ltac:(lia)) as D. pose proof (Z.mod_pos_bound v 4096 ltac:(lia)).
  pose proof (Z.div_mod (v mod 4096 + memsz + 4095) 4096 ltac:(lia)) as D2. pose proof (Z.mod_pos_bound (v mod 4096 + memsz + 4095) 4096 ltac:(lia)). change ((v mod 4096 + memsz + 4095) / 4096) with n in D2.
  assert (base = v - v mod 4096) as Eb by (unfold base; lia).
  assert (base + 4096 * n ≤ 2 ^ 47) as Hmax by (change (2 ^ 47) with (2 ^ 35 * 4096); unfold base; lia).
  split_and!; [rewrite page_down_mul by (unfold in_range; lia); done|rewrite wsub_small by lia; lia|..|done|lia|lia|unfold base; lia|]; try lia.
  - unfold PAGE. rewrite (wadd_small 64 (v mod 4096)), wadd_small, wsub_small by lia. unfold n, seg_pages. f_equal. lia.
  - unfold PAGE, wmul. rewrite (wrap_small 64 (n * 4096)) by (unfold in_range; lia). rewrite wadd_small by lia. lia.
Qed.

Lemma copy_rounds_enough v filesz : 0 ≤ v → 0 < filesz → (v mod 4096 + filesz + 4095) / 4096 ≤ Z.of_nat (copy_rounds filesz).
Proof.
  intros Hv Hf. unfold copy_rounds, PAGE. pose proof (Z.mod_pos_bound v 4096 ltac:(lia)). pose proof (Z.div_mod filesz 4096 ltac:(lia)).
  pose proof (Z.mod_pos_bound filesz 4096 ltac:(lia)). pose proof (Z.div_pos filesz 4096 ltac:(lia) ltac:(lia)). rewrite Z2Nat.id by lia.
  assert ((v mod 4096 + filesz + 4095) / 4096 < filesz / 4096 + 3) by (apply Z.div_lt_upper_bound; lia). lia.
Qed.

(** Bytes written into the new pages, from both sides. *)
Lemma write_new_pages s s1 R E E1 r base n fl fr v bytes : 0 ≤ base → base mod 4096 = 0 → base + 4096 * Z.of_nat n ≤ 2 ^ 47 → length fr = n → r ∈ R →
  (∀ j, 0 ≤ j < Z.of_nat n → E !! (r, base / 4096 + j) = None) → new_pages s s1 R E E1 r (base / 4096) n fl 0 (λ _, ∅) →
  (∀ j p, fr !! j = Some p → E1 !! (r, base / 4096 + Z.of_nat j) = Some (p, fl)) → base ≤ v → v + Z.of_nat (length bytes) ≤ base + 4096 * Z.of_nat n → Forall is_u8 bytes →
  let s2 := set_mem (write_bytes_phys fr base v bytes (vmem s1)) s1 in
  (∃ F', vm_rep s2 R E1 F') ∧ (∀ x, v ≤ x < v + Z.of_nat (length bytes) → user_byte s2 r x = bytes !! Z.to_nat (x - v)) ∧
  (∀ x, base ≤ x < base + 4096 * Z.of_nat n → x < v ∨ v + Z.of_nat (length bytes) ≤ x → user_byte s2 r x = Some 0) ∧
  (∀ key p fl', E !! key = Some (p, fl') → E1 !! key = Some (p, fl') ∧ page_at s2 p = page_at s p).
Proof.
  intros Hb0 Hb Hmax Hl Hr Hnone Hnp Hfr Hv Hend Hu8 s2. destruct (new_pages_array s s1 R E E1 r base n fl fr Hb0 Hb Hmax Hl Hnone Hnp Hfr) as (K & Hown & Hzero).
  destruct (write_bytes_spec fr base _ K bytes v (vmem s1) Hv Hend Hu8) as [Hh Ho]. destruct (write_bytes_ram fr base _ bytes K v (vmem s1) Hv Hend) as [Hwf Hwr].
  destruct (np_rep _ _ _ _ _ _ _ _ _ _ _ Hnp) as [F1 [Hm1 Href1]].
  assert (vm_rep s2 R E1 F1) as Hs2 by (split; [apply (mem_rep_write_frames (vmem s1) _ R E1 F1 fr); [done..|intros p Hp; by apply Hown]|exact Href1]).
  pose proof (λ x, user_byte_array s2 R E1 F1 r fr base n fl x Hs2 Hr Hb0 Hb Hmax Hl Hfr) as Hub. split_and!.
  - by exists F1.
  - intros x Hx. rewrite Hub by (unfold in_stack; lia). destruct (lookup_lt_is_Some_2 bytes (Z.to_nat (x - v))) as [b Hbx]; [lia|].
    rewrite Hbx. f_equal. rewrite <- (Hh _ _ Hbx). cbn [vmem set_mem s2]. f_equal. lia.
  - intros x Hx Hor. rewrite Hub by done. cbn [vmem set_mem s2]. rewrite Ho by (unfold in_stack; lia). f_equal. by apply Hzero.
  - intros [r' n'] p fl' Hk. assert (p ∉ fr) as Hp by (intros Hp; by eapply (proj2 (Hown p Hp))). split.
    + rewrite (np_out _ _ _ _ _ _ _ _ _ _ _ Hnp); [done|]. destruct (decide (r' = r)) as [->|]; [|by left]. right.
      destruct (decide (base / 4096 ≤ n' < base / 4096 + Z.of_nat n)); [|lia]. exfalso. specialize (Hnone (n' - base / 4096) ltac:(lia)).
      replace (base / 4096 + (n' - base / 4096)) with n' in Hnone by lia. congruence.
    + unfold page_at. cbn [vmem set_mem s2]. rewrite Hwr by done. by rewrite (np_keep _ _ _ _ _ _ _ _ _ _ _ Hnp _ _ _ Hk).
Qed.

(** The checks pass and the frames are there; what is left is to fill them. *)
Lemma load_segment_frames src bias ph s a l R E F :
  let v := p_vaddr ph + bias in let base := v / 4096 * 4096 in let n := seg_pages v (p_memsz ph) in let r := pml4_phys a in
  let fl := prot_to_flags (flags_to_prot (p_flags ph)) in
  vm_rep s R E F → r ∈ R → 0 ≤ p_vaddr ph → 0 ≤ bias → 0 < p_memsz ph → v + p_memsz ph ≤ USER_MAX →
  (∀ j, 0 ≤ j < n → E !! (r, base / 4096 + j) = None) → 4 * n ≤ Z.of_nat (fa_avail (frames (vmem s))) →
  0 < n ∧ 0 ≤ base ≤ v ∧ base mod 4096 = 0 ∧ v + p_memsz ph ≤ base + 4096 * n ≤ 2 ^ 47 ∧
  ∃ s1 E1 fr, length fr = Z.to_nat n ∧ new_pages s s1 R E E1 r (base / 4096) (Z.to_nat n) fl 0 (λ _, ∅) ∧
    (∀ j p, fr !! j = Some p → E1 !! (r, base / 4096 + Z.of_nat j) = Some (p, fl)) ∧ stack_ok fr base (base + 4096 * Z.of_nat (Z.to_nat n)) ∧
    load_segment src bias ph s a l =
      '(s2, o) ← fill_segment src ph fr base v s1;
      match o with
      | Err e => Some (s2, a, Err e)
      | Ok _ => Some (s2, set_regions (regions a ++ [mkVma base (base + 4096 * n) (flags_to_prot (p_flags ph)) Anonymous 2 "" false]) a,
                  Ok (if max_load_end l <? base + 4096 * n then set_load_end (base + 4096 * n) l else l))
      end.
Proof.
  intros v base n r fl Hs Hr Hva Hbi Hms Hmax Hnone Hav. assert (USER_MAX < 2 ^ 47) as HUM by done.
  destruct (segment_arith v (p_memsz ph)) as (Hpd & Hoff & Hnp & Hn0 & Htop & Hend & Hbv & Hb0 & Hse); [lia|done|done|].
  fold base n in Hpd, Hoff, Hnp, Hn0, Htop, Hend, Hbv, Hb0, Hse. assert (base mod 4096 = 0) as Hbm by (unfold base; by apply Z.mod_mul).
  split_and!; try done. unfold load_segment. rewrite (proj2 (Z.eqb_neq (p_memsz ph) 0)) by lia.
  rewrite (wadd_small 64 (p_vaddr ph) bias), (wadd_small 64 (p_vaddr ph) (p_memsz ph)), wadd_small by (unfold v in *; lia).
  rewrite (proj2 (Z.ltb_ge _ _)) by (unfold v in *; lia). fold v. rewrite Hpd, Hoff, Hnp, Hse. fold r. destruct (prot_flags_ok (flags_to_prot (p_flags ph))) as [Hok Hpr].
  destruct (map_frames_ok r fl R Hr Hok Hpr (Z.to_nat n) s E F base [] Hs Hb0 Hbm) as (s1 & E1 & fr & Hrun & Hl & Hnpg & Hfr); [lia|intros j Hj; apply Hnone; lia|lia|].
  destruct (new_pages_array s s1 R E E1 r base (Z.to_nat n) fl fr Hb0 Hbm ltac:(lia) Hl ltac:(intros j Hj; apply Hnone; lia) (Hnpg 0) Hfr) as (K & _ & _).
  exists s1, E1, fr. split_and!; [done|done|done|done|]. unfold prot_to_page_flags. fold fl. rewrite Hrun. done.
Qed.

(** C23. A PT_LOAD segment below the end of user space, with no more file than
    memory, whose bytes are in the file and whose pages are not mapped yet,
    is loaded when there are frames: it gets a region; every byte of its
    pages reads as the byte of the file, or zero where the segment has none;
    its pages have the protection of its flags; and no page that was mapped
    before, in any address space, moves or changes. *)
Theorem load_segment_maps src data bias ph s a l R E F :
  let v := p_vaddr ph + bias in let base := v / 4096 * 4096 in let n := seg_pages v (p_memsz ph) in let r := pml4_phys a in
  let prot := flags_to_prot (p_flags ph) in
  lawful src data → Forall is_u8 data → Z.of_nat (length data) < 2 ^ 64 → vm_rep s R E F → r ∈ R →
  0 ≤ p_vaddr ph → 0 ≤ bias → 0 ≤ p_offset ph → 0 ≤ p_filesz ph ≤ p_memsz ph → 0 < p_memsz ph → v + p_memsz ph ≤ USER_MAX →
  p_offset ph + p_filesz ph ≤ Z.of_nat (length data) →
  (∀ j, 0 ≤ j < n → E !! (r, base / 4096 + j) = None) → 4 * n ≤ Z.of_nat (fa_avail (frames (vmem s))) →
  ∃ s' E' l', load_segment src bias ph s a l =
      Some (s', set_regions (regions a ++ [mkVma base (base + 4096 * n) prot Anonymous 2 "" false]) a, Ok l') ∧
    (∃ F', vm_rep s' R E' F') ∧
    (∀ x, v ≤ x < v + p_filesz ph → user_byte s' r x = data !! Z.to_nat (p_offset ph + (x - v))) ∧
    (∀ x, base ≤ x < base + 4096 * n → x < v ∨ v + p_filesz ph ≤ x → user_byte s' r x = Some 0) ∧
    (∀ j, 0 ≤ j < n → ∃ p, E' !! (r, base / 4096 + j) = Some (p, prot_to_flags prot)) ∧
    (∀ key p fl, E !! key = Some (p, fl) → E' !! key = Some (p, fl) ∧ page_at s' p = page_at s p).
Proof.
  intros v base n r prot Hsrc Hu8 Hd64 Hs Hr Hva Hbi Hof Hfs Hms Hmax Hdata Hnone Hav.
  destruct (load_segment_frames src bias ph s a l R E F Hs Hr Hva Hbi Hms Hmax Hnone Hav)
    as (Hn0 & [Hb0 Hbv] & Hbm & [Hend Htop] & s1 & E1 & fr & Hl & Hnpg & Hfr & K & ->). fold v in Hn0, Hb0, Hbv, Hbm, Hend, Htop, Hl, Hnpg, Hfr, K |- *.
  fold base n r prot in Hn0, Hb0, Hbv, Hbm, Hend, Htop, Hl, Hnpg, Hfr, K |- *.
  set (bytes := take (Z.to_nat (p_filesz ph)) (drop (Z.to_nat (p_offset ph)) data)).
  assert (length bytes = Z.to_nat (p_filesz ph)) as Hlb by (unfold bytes; rewrite length_take, length_drop; lia).
  set (m2 := write_bytes_phys fr base v bytes (vmem s1)).
  assert (fill_segment src ph fr base v s1 = Some (set_mem m2 s1, Ok tt)) as ->.
  { unfold fill_segment. destruct (Z.ltb_spec 0 (p_filesz ph)) as [Hf0|Hf0].
    - rewrite (proj2 (Z.leb_gt _ _)) by lia. rewrite (proj1 Hsrc), (proj2 (Z.ltb_ge _ _)) by lia.
      rewrite (copy_segment_ok fr base _ src data (p_offset ph) K Hsrc Hof) by (lia || (intros _; rewrite Z.sub_0_r; apply copy_rounds_enough; lia)).
      by rewrite Z.sub_0_r, Z.add_0_r.
    - unfold m2. assert (bytes = []) as -> by (apply nil_length_inv; lia). cbn. by destruct s1. }
  cbn [mbind option_bind]. eexists (set_mem m2 s1), E1, _. split; [reflexivity|].
  destruct (write_new_pages s s1 R E E1 r base (Z.to_nat n) (prot_to_flags prot) fr v bytes) as (Hrep & Hfile & Hz & Hkeep); try done;
    [lia|intros j Hj; apply Hnone; lia|lia|by apply Forall_take, Forall_drop|].
  fold m2 in Hrep, Hfile, Hz, Hkeep. split_and!; [done|..|done].
  - intros x Hx. rewrite Hfile by lia. unfold bytes. rewrite lookup_take_lt, lookup_drop by lia. f_equal. lia.
  - intros x Hx Hor. apply Hz; lia.
  - intros j Hj. destruct (np_in _ _ _ _ _ _ _ _ _ _ _ Hnpg j) as (p & Hp & _); [lia|]. by exists p.
Qed.

(** ** What the checks do not see *)

(** Behind the last frame the copy indexes out of range. *)
Lemma copy_segment_panics fr base top src data off : stack_ok fr base top → lawful src data → 0 ≤ off →
  ∀ fuel v copied to_copy m, 0 ≤ copied → base ≤ v ≤ top → top < v + (to_copy - copied) → off + to_copy ≤ Z.of_nat (length data) →
  Z.of_nat (length data) < 2 ^ 64 → copy_segment fuel src off fr base v copied to_copy m = None.
Proof.
  intros K [Hlen Hread] Hoff. pose proof (so_max _ _ _ K) as Hmax. pose proof (so_base _ _ _ K) as [Hb0 Hb1]. pose proof (so_top _ _ _ K) as Htop.
  induction fuel as [|fuel IH]; intros v copied to_copy m0 Hc Hv Ht Hd Hd64; cbn [copy_segment];
    destruct (Z.ltb_spec copied to_copy) as [Hlt|Hge]; try lia; [done|].
  change (PAGE - 1) with (Z.ones 12). rewrite Z.land_ones by lia. change (2 ^ 12) with 4096. unfold PAGE. pose proof (Z.mod_pos_bound v 4096 ltac:(lia)).
  set (can := Z.min _ _) in *. rewrite wadd_small by lia. rewrite Hread by lia. rewrite wsub_small by lia.
  destruct (decide (v = top)) as [->|Hne].
  - rewrite Htop at 1. replace (base + 4096 * Z.of_nat (length fr) - base) with (Z.of_nat (length fr) * 4096) by lia. rewrite Z.div_mul, Nat2Z.id by lia.
    rewrite (lookup_ge_None_2 fr (length fr)) by lia. done.
  - destruct (page_of fr base top K v ltac:(unfold in_stack; lia)) as (f & -> & _). cbn [mbind option_bind].
    assert (v + (4096 - v mod 4096) ≤ top) as Hnext.
    { apply Z.mod_divide in Hb1 as [k Hk]; [|lia]. pose proof (Z.div_mod v 4096 ltac:(lia)).
      assert (v / 4096 < k + Z.of_nat (length fr)) by lia. lia. }
    assert (can = 4096 - v mod 4096) as -> by lia. rewrite wadd_small by lia. apply IH; lia.
Qed.

(** A segment with more bytes in the file than in memory is not refused:
    once its pages are mapped, copying the file runs past the last of them and
    the kernel panics. *)
Theorem filesz_panics src data bias ph s a l R E F :
  let v := p_vaddr ph + bias in let base := v / 4096 * 4096 in let n := seg_pages v (p_memsz ph) in let r := pml4_phys a in
  lawful src data → Z.of_nat (length data) < 2 ^ 64 → vm_rep s R E F → r ∈ R →
  0 ≤ p_vaddr ph → 0 ≤ bias → 0 ≤ p_offset ph → 0 < p_memsz ph → v + p_memsz ph ≤ USER_MAX →
  base + 4096 * n < v + p_filesz ph → p_offset ph + p_filesz ph ≤ Z.of_nat (length data) →
  (∀ j, 0 ≤ j < n → E !! (r, base / 4096 + j) = None) → 4 * n ≤ Z.of_nat (fa_avail (frames (vmem s))) →
  load_segment src bias ph s a l = None.
Proof.
  intros v base n r Hsrc Hd64 Hs Hr Hva Hbi Hof Hms Hmax Hfs Hdata Hnone Hav.
  destruct (load_segment_frames src bias ph s a l R E F Hs Hr Hva Hbi Hms Hmax Hnone Hav)
    as (Hn0 & [Hb0 Hbv] & Hbm & [Hend Htop] & s1 & E1 & fr & Hl & Hnpg & Hfr & K & ->). fold v in Hn0, Hb0, Hbv, Hbm, Hend, Htop, Hl, Hnpg, Hfr, K |- *.
  fold base n r in Hn0, Hb0, Hbv, Hbm, Hend, Htop, Hl, Hnpg, Hfr, K |- *.
  unfold fill_segment. rewrite (proj2 (Z.ltb_lt 0 _)), (proj2 (Z.leb_gt _ _)) by lia. rewrite (proj1 Hsrc), (proj2 (Z.ltb_ge (Z.of_nat (length data)) (p_offset ph + p_filesz ph))) by lia.
  by rewrite (copy_segment_panics fr base _ src data (p_offset ph) K Hsrc Hof) by lia.
Qed.

(** The last page of the address space, where the kernel's half ends. *)
Definition LAST_PAGE : Z := 2 ^ 64 - 4096.
Definition kernel_ph : PhSegment := mkPh PT_LOAD (Z.lor (Z.lor PF_R PF_W) PF_X) 0 LAST_PAGE 0 0 4096 0.

(** The bound on the end of a segment is tested on a sum that wraps: a
    segment for the last page of the kernel's half ends at 0, passes, and is
    mapped there with write, execute and user permission. *)
Theorem kernel_segment_accepted src s a l s1 f m2 :
  vm_alloc s = Some (s1, Some f) → map_page (pml4_phys a) LAST_PAGE f (prot_to_flags 7) (zero_frame f (vmem s1)) = Some m2 →
  load_segment src 0 kernel_ph s a l =
    Some (set_mem m2 s1, set_regions (regions a ++ [mkVma LAST_PAGE 0 7 Anonymous 2 "" false]) a, Ok (if max_load_end l <? 0 then set_load_end 0 l else l)) ∧
  has (prot_to_flags 7) USER = true ∧ has (prot_to_flags 7) WRITABLE = true ∧ has (prot_to_flags 7) NO_EXECUTE = false.
Proof.
  intros Ha Hm. split; [|done]. unfold load_segment. change (p_memsz kernel_ph =? 0) with false.
  change (USER_MAX <? wadd 64 (wadd 64 (p_vaddr kernel_ph) (p_memsz kernel_ph)) 0) with false. change (wadd 64 (p_vaddr kernel_ph) 0) with LAST_PAGE.
  change (page_down LAST_PAGE) with LAST_PAGE. cbv iota zeta.
  change (Z.to_nat (wsub 64 (wadd 64 (wadd 64 (wsub 64 LAST_PAGE LAST_PAGE) (p_memsz kernel_ph)) PAGE) 1 / PAGE)) with 1%nat. cbn [map_frames].
  rewrite Ha. cbn [mbind option_bind]. unfold vm_map. change (prot_to_page_flags (flags_to_prot (p_flags kernel_ph))) with (prot_to_flags 7). cbn [vmem set_mem].
  rewrite Hm. cbn [mbind option_bind map_frames]. done.
Qed.
End Load.

(** ** Concrete runs *)
Lemma slice_lawful data : Z.of_nat (length data) < 2 ^ 64 → lawful (mkSlice data) data.
Proof.
  intros Hd. split; [done|]. intros off n H0 Hn. cbn. rewrite (proj2 (Z.leb_gt _ _)), (proj2 (Z.ltb_ge _ _)) by lia. done.
Qed.

(** 100 bytes at the beginning of a file, for 5000 bytes at 0x500010. *)
Definition demo_data : list Z := map Z.of_nat (List.seq 1 100).
Definition demo_ph (filesz : Z) : PhSegment := mkPh PT_LOAD (Z.lor PF_R PF_X) 0 0x500010 0 filesz 5000 0.

Lemma demo_seg_free j : 0 ≤ j < 2 → demo_pages !! (demo_root, 0x500 + j) = None.
Proof. intros Hj. unfold demo_pages. apply lookup_singleton_ne. intros [=]. lia. Qed.

Lemma load_segment_maps_witness : ∃ s' a' l', load_segment (mkSlice demo_data) 0 (demo_ph 100) demo_vm demo_as (mkLoaded 0 0 0 0 0 0) = Some (s', a', Ok l') ∧
  user_byte s' demo_root 0x500011 = Some 2 ∧ user_byte s' demo_root 0x501000 = Some 0.
Proof.
  destruct demo_vm_rep as [F HF].
  destruct (load_segment_maps (mkSlice demo_data) demo_data 0 (demo_ph 100) demo_vm demo_as (mkLoaded 0 0 0 0 0 0) {[demo_root]} demo_pages F) as (s' & E' & l' & H1 & _ & Hb & Hz & _ & _);
    [by apply slice_lawful| |reflexivity|exact HF|by apply elem_of_singleton|vm_compute; congruence|lia|vm_compute; congruence|vm_compute; split; congruence|reflexivity|
     vm_compute; congruence|vm_compute; congruence|intros j Hj; apply demo_seg_free; exact Hj|vm_compute; congruence|].
  - apply Forall_forall. intros b Hb. apply list_elem_of_fmap in Hb as (k & -> & Hk). apply elem_of_seq in Hk. unfold in_range. lia.
  - eexists s', _, l'. split; [exact H1|]. split; [apply (Hb 0x500011); vm_compute; split; congruence|].
    apply Hz; [vm_compute; split; congruence|right; vm_compute; congruence].
Defined.

Lemma filesz_panics_witness : load_segment (mkSlice (replicate 10000 7)) 0 (demo_ph 9000) demo_vm demo_as (mkLoaded 0 0 0 0 0 0) = None.
Proof.
  destruct demo_vm_rep as [F HF].
  apply (filesz_panics (mkSlice (replicate 10000 7)) (replicate 10000 7) 0 (demo_ph 9000) demo_vm demo_as (mkLoaded 0 0 0 0 0 0) {[demo_root]} demo_pages F);
    [by apply slice_lawful|reflexivity|exact HF|by apply elem_of_singleton|vm_compute; congruence|lia|vm_compute; congruence|reflexivity|
     vm_compute; congruence|reflexivity|vm_compute; congruence|intros j Hj; apply demo_seg_free; exact Hj|vm_compute; congruence].
Defined.

(** A kernel whose last page is frame 50: a new address space shares the
    table, so that after loading the segment the last page is another frame in
    the kernel's own address space too. *)
Definition kernel_vm : Vm (list Z) := default demo_vm0 (vm_map demo_root LAST_PAGE (50 * 4096) demo_flags demo_vm0).
Definition kernel_run : option (Vm (list Z) * AddressSpace) :=
  '(s, r) ← new_user kernel_vm;
  a ← r;
  Some (s, a).
Example kernel_page_replaced :
  (translate (vmem kernel_vm) demo_root LAST_PAGE,
   ('(s, a) ← kernel_run; '(s, _, _) ← load_segment (mkSlice []) 0 kernel_ph s a (mkLoaded 0 0 0 0 0 0); translate (vmem s) demo_root LAST_PAGE)) =
  (Some (50 * 4096), Some (21 * 4096)).
Proof. vm_compute. reflexivity. Qed.

Lemma kernel_segment_accepted_witness : ∃ s' a' l', load_segment (mkSlice []) 0 kernel_ph kernel_vm demo_as (mkLoaded 0 0 0 0 0 0) = Some (s', a', Ok l').
Proof.
  destruct (vm_alloc kernel_vm) as [[s1 [f|]]|] eqn:Ha; [|exfalso; revert Ha; vm_compute; congruence..].
  destruct (map_page (pml4_phys demo_as) LAST_PAGE f (prot_to_flags 7) (zero_frame f (vmem s1))) as [m2|] eqn:Hm.
  - destruct (kernel_segment_accepted (mkSlice []) kernel_vm demo_as (mkLoaded 0 0 0 0 0 0) s1 f m2 Ha Hm) as [-> _]. by eexists _, _, _.
  - exfalso. vm_compute in Ha. injection Ha as <- <-. revert Hm. vm_compute. congruence.
Defined.
