(* ===== verification/PiMutex.v ===== *)
(** * Priority-inheritance mutex

    Models kernel/src/sync/pi_mutex.rs: the table of mutexes, which task is
    blocked on which mutex, donation of priorities along chains of blocked
    tasks, and the spin lock that records its processor.  Of a task only what
    this code reads or writes is kept: its two priorities and its state.  The
    scheduler is given by what it does when a priority changes or a task is
    woken.  [None] is a panic.

    On one processor a task runs from one [yield_current] to the next without
    another one in between: a call of [lock] is a sequence of rounds
    ([lock_round]), and other tasks run between two of them. *)
From S2P Require Import Prelude Bpf Seccomp Process.

Definition PI_CHAIN_MAX_DEPTH : nat := 8.

Record PiMutexState := mkMutex {
  owner : Z;
  donated_prio : Z;
  waiters : list (Z * Z);
}.
Definition mutex_new : PiMutexState := mkMutex 0 255 [].

(** [partition_point] and [insert]: behind the waiters that are at least as
    urgent. *)
Fixpoint insert_waiter (prio pid : Z) (ws : list (Z * Z)) : list (Z * Z) :=
  match ws with
  | [] => [(prio, pid)]
  | w :: ws => if w.1 <=? prio then w :: insert_waiter prio pid ws else (prio, pid) :: w :: ws
  end.
Definition add_waiter (prio pid : Z) (s : PiMutexState) : PiMutexState :=
  mkMutex (owner s) (donated_prio s) (insert_waiter prio pid (waiters s)).
Definition remove_waiter (pid : Z) (s : PiMutexState) : PiMutexState :=
  mkMutex (owner s) (donated_prio s) (filter (λ w, w.2 ≠ pid) (waiters s)).
Definition highest_waiter (s : PiMutexState) : option (Z * Z) := head (waiters s).
Definition effective_donated_prio (s : PiMutexState) : Z := default 255 (fst <$> head (waiters s)).
Definition set_owner (o : Z) (s : PiMutexState) : PiMutexState := mkMutex o (donated_prio s) (waiters s).
Definition set_donated (d : Z) (s : PiMutexState) : PiMutexState := mkMutex (owner s) d (waiters s).

Record PiTask := mkPiTask { priority : Z; static_priority : Z; t_state : ProcessState }.

(** What the scheduler does with a new priority and with a wake-up. *)
Class PrioSched (K : Type) := {
  ps_set_priority : Z → Z → K → K;
  ps_wake : Z → K → K;
}.

Record Pi (K : Type) := mkPi {
  mutexes : gmap Z PiMutexState;
  blocked_on : gmap Z Z;
  next_id : Z;
  tasks : gmap Z PiTask;
  sched : K;
}.
Arguments mkPi {_} _ _ _ _ _.
Arguments mutexes {_} _.
Arguments blocked_on {_} _.
Arguments next_id {_} _.
Arguments tasks {_} _.
Arguments sched {_} _.

Section Pi.
Context {K : Type} `{PS : PrioSched K}.
Implicit Types s : Pi K.

Definition set_mutex (id : Z) (x : PiMutexState) s : Pi K := mkPi (<[id := x]> (mutexes s)) (blocked_on s) (next_id s) (tasks s) (sched s).
Definition set_blocked (b : gmap Z Z) s : Pi K := mkPi (mutexes s) b (next_id s) (tasks s) (sched s).
Definition update_task (pid : Z) (f : PiTask → PiTask) s : Pi K :=
  mkPi (mutexes s) (blocked_on s) (next_id s) (alter f pid (tasks s)) (sched s).
Definition set_task_state (st : ProcessState) (t : PiTask) : PiTask := mkPiTask (priority t) (static_priority t) st.
Definition set_task_prio (p : Z) (t : PiTask) : PiTask := mkPiTask p (static_priority t) (t_state t).
Definition on_sched (f : K → K) s : Pi K := mkPi (mutexes s) (blocked_on s) (next_id s) (tasks s) (f (sched s)).

(** [p.priority] of a task, or a default. *)
Definition prio_of (d pid : Z) s : Z := default d (priority <$> tasks s !! pid).

(** A 32-bit counter gives the numbers. *)
Definition pi_new s : Pi K * Z :=
  let id := next_id s in
  (mkPi (<[id := mutex_new]> (mutexes s)) (blocked_on s) (wadd 32 id 1) (tasks s) (sched s), id).
Definition pi_drop (id : Z) s : Pi K := mkPi (delete id (mutexes s)) (blocked_on s) (next_id s) (tasks s) (sched s).

(** [fuel] is the depth left of PI_CHAIN_MAX_DEPTH. *)
Definition boost_one (target prio : Z) s : Pi K := on_sched (ps_set_priority target prio) (update_task target (set_task_prio prio) s).
Fixpoint pi_boost_chain (fuel : nat) (target prio : Z) s : Pi K :=
  match fuel with
  | O => s
  | S fuel =>
      if target =? 0 then s
      else if prio <? prio_of 255 target s then
        let s := boost_one target prio s in
        match blocked_on s !! target with
        | None => s
        | Some id =>
            let o := default 0 (owner <$> mutexes s !! id) in
            if negb (o =? 0) && negb (o =? target) then pi_boost_chain fuel o prio s else s
        end
      else s
  end.

Definition pi_restore_prio (pid : Z) s : Pi K :=
  let static_prio := default 120 (static_priority <$> tasks s !! pid) in
  if prio_of 120 pid s =? static_prio then s else boost_one pid static_prio s.

(** One round of the loop of [lock]: [true] when the mutex was acquired,
    otherwise the task is asleep, at the call of [yield_current]. *)
Definition lock_round (cur current_prio id : Z) s : option (Pi K * bool) :=
  x ← mutexes s !! id;
  if owner x =? 0 then Some (set_mutex id (set_donated 255 (set_owner cur x)) s, true)
  else if owner x =? cur then None
  else
    let o := owner x in
    let x := add_waiter current_prio cur x in
    let eff := effective_donated_prio x in
    let x := if eff <? donated_prio x then set_donated eff x else x in
    let s := pi_boost_chain PI_CHAIN_MAX_DEPTH o current_prio (set_mutex id x s) in
    let s := set_blocked (<[cur := id]> (blocked_on s)) s in
    Some (update_task cur (set_task_state Sleeping) s, false).
(** [lock] reads the priority of its caller once, before the loop. *)
Definition lock (cur id : Z) s : option (Pi K * bool) := lock_round cur (prio_of 120 cur s) id s.

Definition try_lock (cur id : Z) s : option (Pi K * bool) :=
  x ← mutexes s !! id;
  if owner x =? 0 then Some (set_mutex id (set_owner cur x) s, true) else Some (s, false).

(** The state of the mutex after [unlock] and the task it goes to. *)
Definition hand_over (x : PiMutexState) : PiMutexState * option Z :=
  match highest_waiter x with
  | Some (_, pid) =>
      let x := set_owner pid (remove_waiter pid x) in
      (set_donated (effective_donated_prio x) x, Some pid)
  | None => (mkMutex 0 255 (waiters x), None)
  end.
Definition unlock (cur id : Z) s : option (Pi K) :=
  x ← mutexes s !! id;
  if negb (owner x =? cur) then Some s
  else
    let donated := donated_prio x in
    let '(x, next) := hand_over x in
    let s := set_mutex id x s in
    let s := match next with Some pid => set_blocked (delete pid (blocked_on s)) s | None => s end in
    let s := if donated <? 255 then pi_restore_prio cur s else s in
    Some (match next with
          | Some pid => on_sched (ps_wake pid) (update_task pid (set_task_state Runnable) s)
          | None => s
          end).

Definition is_locked (id : Z) s : bool := default false ((λ x, negb (owner x =? 0)) <$> mutexes s !! id).

(** ** The spin lock *)

(** [u32::MAX]: no processor. *)
Definition NO_CPU : Z := 2 ^ 32 - 1.
Definition spin_lock_enter (cpu cur held_by : Z) s : Pi K * Z :=
  (if negb (held_by =? NO_CPU) && negb (held_by =? cpu) && negb (cur =? 0)
   then pi_boost_chain PI_CHAIN_MAX_DEPTH cur (prio_of 120 cur s) s else s, cpu).

(** ** Tasks running

    A task is in a call of [lock] on a mutex ([Waiting], with the priority
    it read) or in none. *)
Inductive Pc := Outside | Waiting (id prio : Z).
Record Sys := mkSys { st : Pi K; pcs : gmap Z Pc }.
Definition pc_of (y : Sys) (pid : Z) : Pc := default Outside (pcs y !! pid).

(** [None]: the kernel has panicked.  A new mutex gets a number that is not in
    use, which holds for the first 2^32 of them. *)
Inductive step : Sys → option Sys → Prop :=
| step_lock y pid id s acq : 0 < pid → pc_of y pid = Outside → lock pid id (st y) = Some (s, acq) →
    step y (Some (mkSys s (if (acq : bool) then pcs y else <[pid := Waiting id (prio_of 120 pid (st y))]> (pcs y))))
| step_lock_panic y pid id : 0 < pid → pc_of y pid = Outside → lock pid id (st y) = None → step y None
| step_resume y pid id prio s acq : pc_of y pid = Waiting id prio → t_state <$> tasks (st y) !! pid ≠ Some Sleeping →
    lock_round pid prio id (st y) = Some (s, acq) → step y (Some (mkSys s (if (acq : bool) then <[pid := Outside]> (pcs y) else pcs y)))
| step_resume_panic y pid id prio : pc_of y pid = Waiting id prio → t_state <$> tasks (st y) !! pid ≠ Some Sleeping →
    lock_round pid prio id (st y) = None → step y None
| step_try y pid id s acq : 0 < pid → pc_of y pid = Outside → try_lock pid id (st y) = Some (s, acq) → step y (Some (mkSys s (pcs y)))
| step_unlock y pid id s : 0 < pid → pc_of y pid = Outside → unlock pid id (st y) = Some s → step y (Some (mkSys s (pcs y)))
| step_new y : mutexes (st y) !! next_id (st y) = None → step y (Some (mkSys (pi_new (st y)).1 (pcs y)))
| step_wake y pid : step y (Some (mkSys (update_task pid (set_task_state Runnable) (st y)) (pcs y))).

Inductive reachable : Sys → Prop :=
| reach_start t k : reachable (mkSys (mkPi ∅ ∅ 1 t k) ∅)
| reach_step y y' : reachable y → step y (Some y') → reachable y'.

(** ** Donation *)
Lemma boost_mutexes fuel t p s : mutexes (pi_boost_chain fuel t p s) = mutexes s ∧ blocked_on (pi_boost_chain fuel t p s) = blocked_on s.
Proof.
  revert t s. induction fuel as [|fuel IH]; intros t s; cbn [pi_boost_chain]; [done|]. repeat case_match; try done.
  all: destruct (IH (default 0 (owner <$> mutexes (boost_one t p s) !! z)) (boost_one t p s)) as [-> ->]; done.
Qed.

(** A boost makes a task more urgent, to the priority donated, or leaves it. *)
Lemma boost_task fuel t p s pid : match tasks s !! pid with
  | None => tasks (pi_boost_chain fuel t p s) !! pid = None
  | Some k => tasks (pi_boost_chain fuel t p s) !! pid = Some k ∨ p < priority k ∧ tasks (pi_boost_chain fuel t p s) !! pid = Some (set_task_prio p k)
  end.
Proof.
  revert t s. induction fuel as [|fuel IH]; intros t s; cbn [pi_boost_chain]; [case_match; [by left|done]|].
  destruct (t =? 0); [case_match; [by left|done]|]. destruct (Z.ltb_spec p (prio_of 255 t s)) as [Hlt|_]; [|case_match; [by left|done]].
  assert (match tasks s !! pid with None => tasks (boost_one t p s) !! pid = None
    | Some k => tasks (boost_one t p s) !! pid = Some k ∨ p < priority k ∧ tasks (boost_one t p s) !! pid = Some (set_task_prio p k) end) as H1.
  { unfold boost_one, on_sched, update_task. cbn [tasks]. destruct (decide (pid = t)) as [->|Hne]; [|rewrite lookup_alter_ne by done; case_match; [by left|done]].
    unfold prio_of in Hlt. rewrite lookup_alter_eq. destruct (tasks s !! t) as [k|]; [|done]. right. done. }
  assert (∀ u, match tasks s !! pid with None => tasks (pi_boost_chain fuel u p (boost_one t p s)) !! pid = None
    | Some k => tasks (pi_boost_chain fuel u p (boost_one t p s)) !! pid = Some k ∨ p < priority k ∧ tasks (pi_boost_chain fuel u p (boost_one t p s)) !! pid = Some (set_task_prio p k) end) as H2.
  { intros u. specialize (IH u (boost_one t p s)). destruct (tasks s !! pid) as [k|]; [|by rewrite H1 in IH].
    destruct H1 as [E|[Hp E]]; rewrite E in IH; [done|]. destruct IH as [->|[Hlt' _]]; [by right|cbn in Hlt'; lia]. }
  repeat case_match; auto.
Qed.

(** The tasks that wait for each other: each is blocked on a mutex that the
    next one owns; the last one is not blocked. *)
Definition next_link s (t : Z) (r : list Z) : Prop :=
  match r with
  | [] => blocked_on s !! t = None
  | u :: _ => u ≠ t ∧ ∃ id x, blocked_on s !! t = Some id ∧ mutexes s !! id = Some x ∧ owner x = u
  end.
Fixpoint blocked_chain s (ts : list Z) : Prop :=
  match ts with
  | [] => True
  | t :: r => 0 < t ∧ is_Some (tasks s !! t) ∧ next_link s t r ∧ blocked_chain s r
  end.
(** Each is at least as urgent as the one before it. *)
Fixpoint urgent_chain s (ts : list Z) : Prop :=
  match ts with
  | t :: ((u :: _) as r) => prio_of 255 u s ≤ prio_of 255 t s ∧ urgent_chain s r
  | _ => True
  end.

Lemma blocked_chain_impl s s' ts : (∀ t, is_Some (tasks s !! t) → is_Some (tasks s' !! t)) → (∀ t r, next_link s t r → next_link s' t r) →
  blocked_chain s ts → blocked_chain s' ts.
Proof.
  intros Ht Hn. induction ts as [|t r IH]; [done|]. cbn [blocked_chain]. intros (H0 & H1 & H2 & H3).
  split; [done|]. split; [by apply Ht|]. split; [by apply Hn|by apply IH].
Qed.
Lemma urgent_chain_same s s' ts : (∀ t, t ∈ ts → prio_of 255 t s' = prio_of 255 t s) → urgent_chain s ts → urgent_chain s' ts.
Proof.
  induction ts as [|t ts IH]; intros H; [done|]. destruct ts as [|u r]; [done|]. intros [H1 H2]. split.
  - rewrite (H u), (H t) by set_solver. done.
  - apply IH; [set_solver|done].
Qed.
Lemma urgent_head s t r p : urgent_chain s (t :: r) → prio_of 255 t s ≤ p → ∀ u, u ∈ t :: r → prio_of 255 u s ≤ p.
Proof.
  revert t. induction r as [|v r IH]; intros t Hu Hp u Hin; [by apply list_elem_of_singleton in Hin as ->|].
  destruct Hu as [H1 H2]. apply elem_of_cons in Hin as [->|Hin]; [done|]. apply (IH v); [done|lia|done].
Qed.
Lemma boost_prio_le fuel t p s u q : is_Some (tasks s !! u) → p ≤ q → prio_of 255 u s ≤ q → prio_of 255 u (pi_boost_chain fuel t p s) ≤ q.
Proof.
  intros [k Hk] Hpq Hu. pose proof (boost_task fuel t p s u) as H. unfold prio_of in *. rewrite Hk in H, Hu.
  destruct H as [->|[_ ->]]; [done|cbn; lia].
Qed.

Lemma boost_reaches ts : ∀ fuel t p s, (length ts ≤ fuel)%nat → NoDup ts → head ts = Some t → blocked_chain s ts → urgent_chain s ts →
  ∀ u, u ∈ ts → prio_of 255 u (pi_boost_chain fuel t p s) ≤ p.
Proof.
  induction ts as [|t ts IH]; intros fuel t' p s Hf Hn Hh Hb Hu u Hin; [done|]. injection Hh as <-. apply NoDup_cons in Hn as [Hni Hn].
  destruct fuel as [|fuel]; [cbn in Hf; lia|]. cbn [pi_boost_chain length] in *. pose proof Hb as (H0 & Ht & Hnext & Hrest).
  rewrite (proj2 (Z.eqb_neq t 0)) by lia. destruct (Z.ltb_spec p (prio_of 255 t s)) as [Hlt|Hle]; [|by eapply urgent_head].
  set (s1 := boost_one t p s). assert (∀ v, v ≠ t → prio_of 255 v s1 = prio_of 255 v s) as Hsame.
  { intros v Hv. unfold prio_of, s1, boost_one, on_sched, update_task. cbn [tasks]. by rewrite lookup_alter_ne by done. }
  assert (∀ v, is_Some (tasks s !! v) → is_Some (tasks s1 !! v)) as Htasks.
  { intros v Hv. unfold s1, boost_one, on_sched, update_task. cbn [tasks]. destruct (decide (v = t)) as [->|]; [rewrite lookup_alter_eq; by rewrite fmap_is_Some|by rewrite lookup_alter_ne]. }
  assert (prio_of 255 t s1 = p) as Hp1.
  { unfold prio_of, s1, boost_one, on_sched, update_task. cbn [tasks]. rewrite lookup_alter_eq. by destruct Ht as [k ->]. }
  destruct ts as [|v ts].
  - apply list_elem_of_singleton in Hin as ->. change (blocked_on s1) with (blocked_on s). rewrite Hnext. lia.
  - destruct Hnext as (Hvt & mid & x & Hbl & Hmx & Ho). change (blocked_on s1) with (blocked_on s). rewrite Hbl. change (mutexes s1) with (mutexes s). rewrite Hmx. cbn [fmap option_fmap option_map default from_option id].
    pose proof Hrest as (Hv0 & _). rewrite Ho, (proj2 (Z.eqb_neq v 0)), (proj2 (Z.eqb_neq v t)) by (lia || done). cbn [negb andb].
    apply elem_of_cons in Hin as [->|Hin].
    + apply boost_prio_le; [by apply Htasks|lia|lia].
    + apply IH; [lia|done|done|by eapply blocked_chain_impl|eapply urgent_chain_same; [|by apply Hu]|done]. intros w Hw. apply Hsame. set_solver.
Qed.

Lemma boost_static fuel t p s pid : static_priority <$> tasks (pi_boost_chain fuel t p s) !! pid = static_priority <$> tasks s !! pid.
Proof. pose proof (boost_task fuel t p s pid) as H. destruct (tasks s !! pid) as [k|]; [destruct H as [->|[_ ->]]; done|by rewrite H]. Qed.

Lemma prio_sleeping d q cur st b s : prio_of d q (update_task cur (set_task_state st) (set_blocked b s)) = prio_of d q s.
Proof.
  unfold prio_of, update_task. cbn [tasks set_blocked]. destruct (decide (q = cur)) as [->|]; [rewrite lookup_alter_eq|by rewrite lookup_alter_ne].
  by destruct (tasks s !! cur).
Qed.
#[local] Opaque pi_boost_chain.

(** A task that must wait for a mutex donates its priority: when the owner
    is at the head of a chain of at most eight tasks, each waiting for a mutex
    of the next one and none less urgent than the one before, then every task
    of the chain is at least as urgent as the caller afterwards, and the
    priorities of the others are not made worse. *)
Theorem lock_donates cur id s s' x ts : lock cur id s = Some (s', false) → mutexes s !! id = Some x → head ts = Some (owner x) →
  (length ts ≤ PI_CHAIN_MAX_DEPTH)%nat → NoDup ts → blocked_chain s ts → urgent_chain s ts →
  (∀ u, u ∈ ts → prio_of 255 u s' ≤ prio_of 120 cur s) ∧ (∀ u, is_Some (tasks s !! u) → prio_of 255 u s' ≤ prio_of 255 u s).
Proof.
  intros Hl Hx Hh Hlen Hn Hb Hu. unfold lock, lock_round in Hl. rewrite Hx in Hl. cbn [mbind option_bind] in Hl.
  destruct (owner x =? 0); [done|]. destruct (owner x =? cur); [done|]. injection Hl as <-. set (x1 := if effective_donated_prio _ <? _ then _ else _). set (s1 := set_mutex id x1 s).
  assert (owner x1 = owner x) as Ho by (unfold x1; by case_match).
  assert (blocked_chain s1 ts) as Hb1.
  { revert Hb. apply blocked_chain_impl; [done|]. intros t [|u r]; [done|]. intros (H2 & id' & x' & H3 & H4 & H5). split; [done|].
    unfold s1. cbn [set_mutex blocked_on mutexes]. destruct (decide (id' = id)) as [->|Hne].
    - exists id, x1. rewrite lookup_insert_eq. split; [done|]. split; [done|]. rewrite Ho. congruence.
    - exists id', x'. by rewrite lookup_insert_ne. }
  split.
  - intros u Hin. rewrite prio_sleeping. exact (boost_reaches ts PI_CHAIN_MAX_DEPTH (owner x) _ s1 Hlen Hn Hh Hb1 (urgent_chain_same s s1 ts (λ _ _, eq_refl) Hu) u Hin).
  - intros u Hin. rewrite prio_sleeping. pose proof (boost_task PI_CHAIN_MAX_DEPTH (owner x) (prio_of 120 cur s) s1 u) as H. unfold prio_of at 1 3.
    change (tasks s1) with (tasks s) in H. destruct Hin as [k Hk]. rewrite Hk in H |- *. destruct H as [->|[Hlt ->]]; cbn; lia.
Qed.

(** ** The wait queue *)
Fixpoint by_priority (ws : list (Z * Z)) : Prop :=
  match ws with
  | [] => True
  | w :: r => Forall (λ v, w.1 ≤ v.1) r ∧ by_priority r
  end.
Record mutex_ok (x : PiMutexState) : Prop := {
  mo_free : owner x = 0 → waiters x = [];
  mo_sorted : by_priority (waiters x);
  mo_pids : Forall (λ w, 0 < w.2) (waiters x);
}.

Lemma elem_insert_waiter prio pid ws w : w ∈ insert_waiter prio pid ws ↔ w = (prio, pid) ∨ w ∈ ws.
Proof. induction ws as [|v ws IH]; cbn [insert_waiter]; [set_solver|]. case_match; set_solver. Qed.
Lemma insert_waiter_sorted prio pid ws : by_priority ws → by_priority (insert_waiter prio pid ws).
Proof.
  induction ws as [|w ws IH]; cbn [insert_waiter by_priority]; [done|]. intros [H1 H2]. destruct (Z.leb_spec w.1 prio) as [Hle|Hgt]; cbn [by_priority].
  - split; [|by apply IH]. apply Forall_forall. intros v [->|Hv]%elem_insert_waiter; [done|]. rewrite Forall_forall in H1. auto.
  - split; [|done]. constructor; [cbn; lia|]. eapply Forall_impl; [exact H1|]. intros v Hv. cbn in *. lia.
Qed.
Lemma filter_sorted (P : Z * Z → Prop) `{∀ w, Decision (P w)} ws : by_priority ws → by_priority (filter P ws).
Proof.
  induction ws as [|w ws IH]; [done|]. intros [H1 H2]. rewrite filter_cons. case_decide; [|by apply IH]. split; [|by apply IH].
  rewrite Forall_forall in *. intros v [_ Hv]%list_elem_of_filter. auto.
Qed.

Lemma mutex_new_ok : mutex_ok mutex_new.
Proof. by split. Qed.
Lemma add_waiter_ok prio pid x : mutex_ok x → owner x ≠ 0 → 0 < pid → mutex_ok (add_waiter prio pid x).
Proof.
  intros [H1 H2 H3] Ho Hp. split; cbn; [done|by apply insert_waiter_sorted|]. rewrite Forall_forall in *. intros w [->|Hw]%elem_insert_waiter; auto.
Qed.

(** The mutex goes to the first of the most urgent waiters. *)
Lemma hand_over_spec x : mutex_ok x →
  match hand_over x with
  | (x', Some pid) => owner x' = pid ∧ 0 < pid ∧ (∃ p, head (waiters x) = Some (p, pid) ∧ Forall (λ w, p ≤ w.1) (waiters x)) ∧
      waiters x' = filter (λ w, w.2 ≠ pid) (waiters x) ∧ mutex_ok x'
  | (x', None) => waiters x = [] ∧ x' = mutex_new
  end.
Proof.
  intros [H1 H2 H3]. unfold hand_over, highest_waiter. destruct (waiters x) as [|[p pid] ws] eqn:Hw; cbn [head].
  - split; [done|]. unfold mutex_new. done.
  - apply Forall_cons in H3 as [Hp H3]. split_and!; try done.
    + exists p. split; [done|]. constructor; [cbn; lia|apply H2].
    + cbn [set_donated set_owner remove_waiter waiters]. by rewrite Hw.
    + split; cbn [set_donated set_owner remove_waiter waiters owner].
      * cbn in Hp. lia.
      * rewrite Hw. by apply filter_sorted.
      * rewrite Hw. apply Forall_forall. intros w [_ [->|Hin]%elem_of_cons]%list_elem_of_filter; [done|]. rewrite Forall_forall in H3. auto.
Qed.

(** What the operations do to the table of mutexes. *)
Lemma lock_round_mutexes cur prio id s s' acq : lock_round cur prio id s = Some (s', acq) →
  ∃ x x', mutexes s !! id = Some x ∧ mutexes s' = <[id := x']> (mutexes s) ∧
    if (acq : bool) then owner x = 0 ∧ owner x' = cur ∧ waiters x' = waiters x
    else owner x ≠ 0 ∧ owner x ≠ cur ∧ owner x' = owner x ∧ waiters x' = insert_waiter prio cur (waiters x).
Proof.
  unfold lock_round. intros H. destruct (mutexes s !! id) as [x|] eqn:Hx; [|done]. cbn [mbind option_bind] in H. exists x.
  destruct (Z.eqb_spec (owner x) 0) as [Ho|Ho]; [injection H as <- <-; by eexists|]. destruct (Z.eqb_spec (owner x) cur) as [Hc|Hc]; [done|].
  injection H as <- <-. eexists. split; [done|]. cbn [update_task set_blocked mutexes]. rewrite (proj1 (boost_mutexes _ _ _ _)). split; [reflexivity|].
  split_and!; [done|done|by case_match|by case_match].
Qed.
Lemma restore_mutexes pid s : mutexes (pi_restore_prio pid s) = mutexes s.
Proof. unfold pi_restore_prio. by case_match. Qed.
Lemma unlock_mutexes cur id s s' : unlock cur id s = Some s' →
  ∃ x, mutexes s !! id = Some x ∧ (owner x ≠ cur ∧ s' = s ∨ owner x = cur ∧ mutexes s' = <[id := (hand_over x).1]> (mutexes s)).
Proof.
  unfold unlock. intros H. destruct (mutexes s !! id) as [x|] eqn:Hx; [|done]. cbn [mbind option_bind] in H. exists x. split; [done|].
  destruct (Z.eqb_spec (owner x) cur) as [Ho|Ho]; cbn [negb] in H; [|injection H as <-; by left]. right. split; [done|].
  destruct (hand_over x) as [x' next]. injection H as <-. destruct next as [pid|], (donated_prio x <? 255); cbn; by rewrite ?restore_mutexes.
Qed.

(** ** Every run *)
Definition waits x (pid : Z) : Prop := owner x = pid ∨ pid ∈ (waiters x).*2.
Record sys_inv (y : Sys) : Prop := {
  si_mutex id x : mutexes (st y) !! id = Some x → mutex_ok x;
  si_wait pid id prio : pc_of y pid = Waiting id prio → 0 < pid ∧ ∃ x, mutexes (st y) !! id = Some x ∧ waits x pid;
}.

(** A change of one mutex after which nobody who waited is forgotten. *)
Lemma sys_inv_insert y s id x x' : sys_inv y → mutexes (st y) !! id = Some x → mutexes s = <[id := x']> (mutexes (st y)) → mutex_ok x' →
  (∀ pid prio, pc_of y pid = Waiting id prio → waits x pid → waits x' pid) → sys_inv (mkSys s (pcs y)).
Proof.
  intros [H1 H2] Hx Hs Hok Hw. split; cbn [st].
  - intros id' z. rewrite Hs. destruct (decide (id' = id)) as [->|]; [rewrite lookup_insert_eq; by intros [= <-]|rewrite lookup_insert_ne by done; apply H1].
  - intros pid id' prio Hpc. destruct (H2 pid id' prio Hpc) as (H0 & z & Hz & Hwz). split; [done|]. rewrite Hs. destruct (decide (id' = id)) as [->|].
    + exists x'. rewrite lookup_insert_eq. split; [done|]. apply (Hw pid prio); [done|]. by simplify_eq.
    + exists z. by rewrite lookup_insert_ne.
Qed.
Lemma waits_weaken y pid pc : sys_inv y → (∀ id prio, pc = Waiting id prio → 0 < pid ∧ ∃ x, mutexes (st y) !! id = Some x ∧ waits x pid) →
  sys_inv (mkSys (st y) (<[pid := pc]> (pcs y))).
Proof.
  intros [H1 H2] Hp. split; cbn [st]; [done|]. intros q id prio. unfold pc_of. cbn [pcs]. destruct (decide (q = pid)) as [->|].
  - rewrite lookup_insert_eq. cbn. apply Hp.
  - rewrite lookup_insert_ne by done. apply H2.
Qed.

Lemma lock_round_inv y cur prio id s acq : sys_inv y → 0 < cur → lock_round cur prio id (st y) = Some (s, acq) →
  sys_inv (mkSys s (pcs y)) ∧ ∃ x, mutexes s !! id = Some x ∧ waits x cur.
Proof.
  intros Hy Hc (x & x' & Hx & Hs & Hcase)%lock_round_mutexes. pose proof (si_mutex _ Hy _ _ Hx) as Hok.
  assert (mutex_ok x' ∧ waits x' cur ∧ ∀ pid q, pc_of y pid = Waiting id q → waits x pid → waits x' pid) as (H1 & H2 & H3).
  { destruct acq.
    - destruct Hcase as (Ho & Ho' & Hw). rewrite (mo_free _ Hok Ho) in Hw. split_and!; [split; rewrite Hw; [done|done|constructor]|by left|].
      intros pid q Hpc [Hp|Hp]; [exfalso; destruct (si_wait _ Hy _ _ _ Hpc); lia|]. rewrite (mo_free _ Hok Ho) in Hp. by apply elem_of_nil in Hp.
    - destruct Hcase as (Ho & Ho' & Hoo & Hw). pose proof (add_waiter_ok prio cur x Hok Ho Hc) as [A1 A2 A3]. cbn in *.
      split_and!; [split; rewrite ?Hoo, ?Hw; done|right; rewrite Hw; apply list_elem_of_fmap; eexists (_, cur); split; [done|]; apply elem_insert_waiter; by left|].
      intros pid q _ [Hp|Hp]; [left; congruence|right]. rewrite Hw. apply list_elem_of_fmap in Hp as (w & -> & Hin). apply list_elem_of_fmap. exists w. split; [done|].
      apply elem_insert_waiter. by right. }
  split; [by eapply sys_inv_insert|]. exists x'. rewrite Hs, lookup_insert_eq. done.
Qed.

Lemma unlock_inv y cur id s : sys_inv y → pc_of y cur = Outside → unlock cur id (st y) = Some s → sys_inv (mkSys s (pcs y)).
Proof.
  intros Hy Hout (x & Hx & [[_ ->]|[Ho Hs]])%unlock_mutexes; [by destruct y|]. pose proof (si_mutex _ Hy _ _ Hx) as Hok.
  pose proof (hand_over_spec x Hok) as Hh. destruct (hand_over x) as [x' [w|]]; cbn [fst] in Hs.
  - destruct Hh as (Hw & _ & _ & Hws & Hok'). eapply sys_inv_insert; try done. intros pid q Hpc [Hp|Hp]; [exfalso; congruence|].
    destruct (decide (pid = w)) as [->|Hne]; [by left|]. right. rewrite Hws. apply list_elem_of_fmap in Hp as (v & -> & Hin). apply list_elem_of_fmap. exists v.
    split; [done|]. by apply list_elem_of_filter.
  - destruct Hh as [Hws ->]. eapply sys_inv_insert; [done|done|done|apply mutex_new_ok|]. intros pid q Hpc [Hp|Hp]; [exfalso; congruence|].
    rewrite Hws in Hp. by apply elem_of_nil in Hp.
Qed.

Lemma step_inv y y' : sys_inv y → step y (Some y') → sys_inv y'.
Proof.
  intros Hy Hst. inversion Hst; subst.
  - destruct (lock_round_inv _ _ _ _ _ _ Hy ltac:(eassumption) ltac:(eassumption)) as [Ha Hb]. destruct acq; [done|].
    apply (waits_weaken (mkSys s (pcs y))); [done|]. intros i q [= <- <-]. done.
  - destruct (si_wait _ Hy pid id prio ltac:(eassumption)) as [Hp _]. destruct (lock_round_inv _ _ _ _ _ _ Hy Hp ltac:(eassumption)) as [Ha Hb]. destruct acq; [|done].
    by apply (waits_weaken (mkSys s (pcs y))).
  - match goal with H : try_lock _ _ _ = _ |- _ => unfold try_lock in H; destruct (mutexes (st y) !! id) as [x|] eqn:Hx; [|done]; cbn [mbind option_bind] in H end.
    pose proof (si_mutex _ Hy _ _ Hx) as Hok. destruct (Z.eqb_spec (owner x) 0) as [Ho|]; simplify_eq; [|by destruct y].
    eapply sys_inv_insert; [done|done|reflexivity| |].
    + pose proof (mo_free _ Hok Ho) as Hw. split; cbn; rewrite Hw; [done|done|constructor].
    + intros q prio Hpc [Hp|Hp]; [destruct (si_wait _ Hy _ _ _ Hpc); lia|by right].
  - by eapply unlock_inv.
  - destruct Hy as [Ha Hb]. split; cbn.
    + intros id x. destruct (decide (id = next_id (st y))) as [->|]; [rewrite lookup_insert_eq; intros [= <-]; apply mutex_new_ok|rewrite lookup_insert_ne by done; apply Ha].
    + intros pid id prio Hpc. destruct (Hb pid id prio Hpc) as (Hc & x & Hx & Hw). split; [done|]. exists x. rewrite lookup_insert_ne; [done|]. congruence.
  - by destruct Hy.
Qed.
Lemma reachable_inv y : reachable y → sys_inv y.
Proof.
  induction 1 as [t k|y y' Hr IH Hs]; [|by eapply step_inv]. split; cbn; [by intros id x; rewrite lookup_empty|].
  intros pid id prio. unfold pc_of. cbn. by rewrite lookup_empty.
Qed.

(** C26. In every run, a call of [lock] that once had to wait never returns: when
    its task runs again it waits again, or the kernel panics.  The panic is
    certain when the mutex is handed to the task: [unlock] makes the most
    urgent waiter the owner and wakes it, and [lock] then takes the waiter for
    a task that locks a mutex it already has. *)
Theorem contended_lock_never_returns y : reachable y →
  (∀ pid id prio s acq, pc_of y pid = Waiting id prio → lock_round pid prio id (st y) = Some (s, acq) → acq = false) ∧
  (∀ cur id x p pid ws s, mutexes (st y) !! id = Some x → owner x = cur → waiters x = (p, pid) :: ws → unlock cur id (st y) = Some s →
     Forall (λ w, p ≤ w.1) ws ∧ (∀ t, tasks s !! pid = Some t → t_state t = Runnable) ∧ ∀ prio, lock_round pid prio id s = None).
Proof.
  intros Hr%reachable_inv. split.
  - intros pid id prio s acq Hpc (x & x' & Hx & _ & Hcase)%lock_round_mutexes. destruct acq; [exfalso|done]. destruct Hcase as (Ho & _).
    destruct (si_wait _ Hr _ _ _ Hpc) as (H0 & z & Hz & Hw). simplify_eq. destruct Hw as [Hw|Hw]; [lia|].
    rewrite (mo_free _ (si_mutex _ Hr _ _ Hx) Ho) in Hw. by apply elem_of_nil in Hw.
  - intros cur id x p pid ws s Hx Ho Hws Hu. pose proof (si_mutex _ Hr _ _ Hx) as Hok. pose proof (hand_over_spec x Hok) as Hh.
    pose proof (mo_sorted _ Hok) as Hs. rewrite Hws in Hs. destruct Hs as [Hs _]. split; [done|].
    unfold unlock in Hu. rewrite Hx in Hu. cbn [mbind option_bind] in Hu. rewrite (proj2 (Z.eqb_eq _ _) Ho) in Hu. cbn [negb] in Hu.
    unfold hand_over, highest_waiter in Hu, Hh. rewrite Hws in Hu, Hh. cbn [head] in Hu, Hh. destruct Hh as (_ & H0 & _). set (x2 := set_donated _ _) in *.
    injection Hu as <-. split.
    + cbn [on_sched update_task tasks]. rewrite lookup_alter_eq. intros t Ht. apply fmap_Some in Ht as (u & _ & ->). done.
    + intros prio. unfold lock_round. cbn [on_sched update_task mutexes]. assert (∀ b s1, mutexes (if b : bool then pi_restore_prio cur s1 else s1) = mutexes s1) as Hm by (intros []; [apply restore_mutexes|done]).
      rewrite Hm. cbn [set_blocked set_mutex mutexes]. rewrite lookup_insert_eq. cbn [mbind option_bind]. change (owner x2) with pid.
      rewrite (proj2 (Z.eqb_neq pid 0)) by lia. by rewrite Z.eqb_refl.
Qed.

(** ** Donations of several mutexes *)
Lemma prio_state d q cur z s : prio_of d q (update_task cur (set_task_state z) s) = prio_of d q s.
Proof. exact (prio_sleeping d q cur z (blocked_on s) s). Qed.
Lemma prio_restored pid k s : tasks s !! pid = Some k → prio_of 255 pid (pi_restore_prio pid s) = static_priority k.
Proof.
  intros Hk. unfold pi_restore_prio. rewrite Hk. cbn [fmap option_fmap option_map default from_option id]. assert (prio_of 120 pid s = priority k) as -> by (unfold prio_of; by rewrite Hk).
  destruct (Z.eqb_spec (priority k) (static_priority k)) as [E|E].
  - unfold prio_of. rewrite Hk. done.
  - unfold boost_one, prio_of. cbn [on_sched update_task tasks]. rewrite lookup_alter_eq, Hk. done.
Qed.

(** Releasing a mutex to which somebody has donated sets the priority of the
    task back to its own, also when it still holds another mutex that a more
    urgent task waits for: that task is now blocked by a less urgent one. *)
Theorem nested_unlock_loses_donation cur mid mid2 s s' x x2 k p w ws :
  mutexes s !! mid = Some x → owner x = cur → donated_prio x < 255 → mid2 ≠ mid → mutexes s !! mid2 = Some x2 → owner x2 = cur → waiters x2 = (p, w) :: ws →
  tasks s !! cur = Some k → p < static_priority k → unlock cur mid s = Some s' →
  mutexes s' !! mid2 = Some x2 ∧ p < prio_of 255 cur s'.
Proof.
  intros Hx Ho Hd Hne Hx2 Ho2 Hw Hk Hp Hu. destruct (unlock_mutexes _ _ _ _ Hu) as (z & Hz & [[Hn _]|[_ Hm]]); [congruence|].
  split; [by rewrite Hm, lookup_insert_ne|]. unfold unlock in Hu. rewrite Hx in Hu. cbn [mbind option_bind] in Hu. rewrite (proj2 (Z.eqb_eq _ _) Ho) in Hu. cbn [negb] in Hu.
  destruct (hand_over x) as [x' next]. rewrite (proj2 (Z.ltb_lt _ _) Hd) in Hu. injection Hu as <-. destruct next as [pid|].
  - change (prio_of 255 cur (on_sched (ps_wake pid) ?a)) with (prio_of 255 cur a). rewrite prio_state, (prio_restored cur k); done.
  - rewrite (prio_restored cur k); done.
Qed.
End Pi.

(** ** Concrete runs: task 1 of priority 120, tasks 2 and 3 more urgent. *)
#[export] Instance no_sched : PrioSched unit := {| ps_set_priority _ _ k := k; ps_wake _ k := k |}.
Definition demo_tasks : gmap Z PiTask := {[ 1 := mkPiTask 120 120 Running; 2 := mkPiTask 50 50 Running; 3 := mkPiTask 60 60 Running ]}.
Definition demo_start : Sys := mkSys (mkPi ∅ ∅ 1 demo_tasks tt) ∅.
(** Two new mutexes, both taken by task 1; then task 2 waits for the first
    and task 3 for the second. *)
Definition demo_new : Pi unit := (pi_new (pi_new (st demo_start)).1).1.
Definition after_round (r : option (Pi unit * bool)) : Pi unit := default demo_new (fst <$> r).
Definition demo_one : Pi unit := after_round (lock 1 1 demo_new).
Definition demo_taken : Pi unit := after_round (lock 1 2 demo_one).
Definition demo_waiting : Pi unit := after_round (lock 2 1 demo_taken).
Definition demo_nested : Pi unit := after_round (lock 3 2 demo_waiting).
Definition demo_released (s : Pi unit) : Pi unit := default demo_new (unlock 1 1 s).
Definition demo_sys : Sys := mkSys demo_waiting {[ 2 := Waiting 1 50 ]}.

Lemma round_result r b : snd <$> r = Some b → r = Some (after_round r, b).
Proof. destruct r as [[s b']|]; [|done]. by intros [= ->]. Qed.
Lemma unlock_result (r : option (Pi unit)) : bool_decide (is_Some r) = true → r = Some (default demo_new r).
Proof. by destruct r. Qed.
Lemma demo_waits : lock 2 1 demo_taken = Some (demo_waiting, false).
Proof. apply round_result. vm_compute. reflexivity. Qed.

Lemma demo_reachable : reachable demo_sys.
Proof.
  apply (reach_step (mkSys demo_taken ∅)); [|apply (step_lock (mkSys demo_taken ∅) 2 1 demo_waiting false); [reflexivity|reflexivity|exact demo_waits]].
  apply (reach_step (mkSys demo_one ∅)); [|apply (step_lock (mkSys demo_one ∅) 1 2 demo_taken true); [reflexivity|reflexivity|apply round_result; vm_compute; reflexivity]].
  apply (reach_step (mkSys demo_new ∅)); [|apply (step_lock (mkSys demo_new ∅) 1 1 demo_one true); [reflexivity|reflexivity|apply round_result; vm_compute; reflexivity]].
  eapply reach_step; [eapply reach_step; [apply (reach_start demo_tasks tt)|]|]; [apply step_new; reflexivity|].
  apply (step_new (mkSys (pi_new (st demo_start)).1 ∅)). reflexivity.
Qed.

Lemma contended_lock_never_returns_witness : unlock 1 1 demo_waiting = Some (demo_released demo_waiting) ∧ lock_round 2 50 1 (demo_released demo_waiting) = None.
Proof.
  destruct (contended_lock_never_returns demo_sys demo_reachable) as [_ H].
  assert (unlock 1 1 demo_waiting = Some (demo_released demo_waiting)) as Hu by (apply unlock_result; vm_compute; reflexivity). split; [exact Hu|].
  destruct (H 1 1 (mkMutex 1 50 [(50, 2)]) 50 2 [] (demo_released demo_waiting)) as (_ & _ & Hn);
    [vm_compute; reflexivity|reflexivity|reflexivity|exact Hu|apply Hn].
Defined.

Lemma lock_donates_witness : prio_of 255 1 demo_taken = 120 ∧ prio_of 255 1 demo_waiting ≤ 50.
Proof.
  destruct (lock_donates 2 1 demo_taken demo_waiting (mkMutex 1 255 []) [1] demo_waits) as [H _];
    [vm_compute; reflexivity|reflexivity|vm_compute; lia|apply NoDup_singleton| |exact I|].
  - split; [reflexivity|]. split; [by exists (mkPiTask 120 120 Running)|]. split; [vm_compute; reflexivity|exact I].
  - split; [vm_compute; reflexivity|]. replace 50 with (prio_of 120 2 demo_taken) by (vm_compute; reflexivity). apply H. by left.
Defined.

Lemma nested_unlock_loses_donation_witness : prio_of 255 1 demo_nested = 50 ∧ 60 < prio_of 255 1 (demo_released demo_nested).
Proof.
  assert (unlock 1 1 demo_nested = Some (demo_released demo_nested)) as Hu by (apply unlock_result; vm_compute; reflexivity).
  destruct (nested_unlock_loses_donation 1 1 2 demo_nested (demo_released demo_nested) (mkMutex 1 50 [(50, 2)]) (mkMutex 1 60 [(60, 3)]) (mkPiTask 50 120 Running) 60 3 []) as [_ H];
    [vm_compute; reflexivity|reflexivity|reflexivity|done|vm_compute; reflexivity|reflexivity|reflexivity|vm_compute; reflexivity|reflexivity|exact Hu|].
  split; [vm_compute; reflexivity|exact H].
Defined.
