(* ===== verification/Disk.v ===== *)
(** * Disks and the journal

    Models the disk of kernel/src/fs/ext4/mod.rs ([MemDisk], the bytes of an
    image) and kernel/src/fs/ext4/journal.rs: transactions, the log with its
    descriptor, data, revoke and commit blocks, recovery, and the handle for
    writing through the journal.  [None] is a panic, or memory used beyond
    its end.  The rounds of [recover] are bounded by its fuel, as replayed
    blocks may change the log itself. *)
From S2P Require Import Prelude Bytes.

(** ** Numbers in network order *)
Definition be_bytes (n : nat) (v : Z) : list Z := rev (le_bytes n v).
Definition be_value (bs : list Z) : Z := le_value (rev bs).
Definition be_word (raw : list Z) (off len : nat) : Z := be_value (slice raw off len).

(** ** The image *)
Definition read_bytes (d : list Z) (offset : Z) (n : nat) : option (result unit (list Z)) :=
  let e := wadd 64 offset (Z.of_nat n) in
  if Z.of_nat (length d) <? e then Some (Err tt)
  else if e <? offset then None
  else Some (Ok (slice d (Z.to_nat offset) n)).
Definition write_bytes (offset : Z) (data : list Z) (d : list Z) : option (list Z * result unit unit) :=
  let e := wadd 64 offset (Z.of_nat (length data)) in
  if Z.of_nat (length d) <? e then Some (d, Err tt)
  else if e <? offset then None
  else Some (splice d (Z.to_nat offset) data, Ok tt).

(** ** The checksum: 32 entries, five bits at a time *)
Definition CRC_TABLE : list Z := [
  0x00000000; 0xF26B8303; 0xE13B70F7; 0x1350F3F4;
  0xC79A971F; 0x35F1141C; 0x26A1E7E8; 0xD4CA64EB;
  0x8AD958CF; 0x78B2DBCC; 0x6BE22838; 0x9989AB3B;
  0x4D43CFD0; 0xBF284CD3; 0xAC78BF27; 0x5E133C24;
  0x105EC76F; 0xE235446C; 0xF165B798; 0x030E349B;
  0xD7C45070; 0x25AFD373; 0x36FF2087; 0xC494A384;
  0x9A879FA0; 0x68EC1CA3; 0x7BBCEF57; 0x89D76C54;
  0x5D1D08BF; 0xAF768BBC; 0xBC267848; 0x4E4DFB4B ].
Definition crc_step (crc b : Z) : Z := Z.lxor (nth (Z.to_nat (Z.land (Z.lxor crc b) 0x1F)) CRC_TABLE 0) (Z.shiftr crc 5).
Definition crc32c (crc : Z) (data : list Z) : Z := wnot 32 (fold_left crc_step data (wnot 32 crc)).

(** ** Layout of the log *)
Definition JBD2_MAGIC : Z := 0xC03B3998.
Definition JBD2_SUPERBLOCK_V2 : Z := 4.
Definition JBD2_DESCRIPTOR_BLOCK : Z := 1.
Definition JBD2_COMMIT_BLOCK : Z := 2.
Definition JBD2_REVOKE_BLOCK : Z := 5.
Definition JBD2_FLAG_ESCAPE : Z := 1.
Definition JBD2_FLAG_SAME_UUID : Z := 2.
Definition JBD2_FLAG_LAST_TAG : Z := 8.

Definition j_magic (raw : list Z) : Z := be_word raw 0 4.
Definition j_maxlen (raw : list Z) : Z := be_word raw 16 4.
Definition j_start (raw : list Z) : Z := be_word raw 28 4.
Definition j_tail_sequence (raw : list Z) : Z := be_word raw 84 4.
Definition h_magic (raw : list Z) : Z := be_word raw 0 4.
Definition h_blocktype (raw : list Z) : Z := be_word raw 4 4.
Definition h_sequence (raw : list Z) : Z := be_word raw 8 4.
Definition block_header (blocktype sequence : Z) : list Z := be_bytes 4 JBD2_MAGIC ++ be_bytes 4 blocktype ++ be_bytes 4 sequence.
Definition block_tag (fs_block flags : Z) : list Z :=
  be_bytes 4 (wrap 32 fs_block) ++ be_bytes 2 flags ++ be_bytes 2 (wrap 16 (Z.shiftr fs_block 32)) ++ be_bytes 4 0.
Definition TAG_SZ : nat := 12.

(** ** State *)
Record Transaction := mkTxn {
  sequence : Z;
  blocks : list (Z * list Z);
  revoked : list Z;
  committed : bool;
}.
Definition txn_new (seq : Z) : Transaction := mkTxn seq [] [] false.
(** A BTreeMap: sorted by key, an old value is replaced. *)
Fixpoint add_sorted (k : Z) (v : list Z) (l : list (Z * list Z)) : list (Z * list Z) :=
  match l with
  | [] => [(k, v)]
  | (k', v') :: r => if k <? k' then (k, v) :: l else if k =? k' then (k, v) :: r else (k', v') :: add_sorted k v r
  end.
Definition add_block (fs_block : Z) (data : list Z) (t : Transaction) : Transaction :=
  mkTxn (sequence t) (add_sorted fs_block data (blocks t)) (revoked t) (committed t).
Definition revoke_block (fs_block : Z) (t : Transaction) : Transaction :=
  mkTxn (sequence t) (blocks t) (if bool_decide (fs_block ∈ revoked t) then revoked t else revoked t ++ [fs_block]) (committed t).

Record Journal := mkJournal {
  journal_start : Z;
  journal_len : Z;
  j_bs : Z;
  next_seq : Z;
  head : Z;
  tail_seq : Z;
  current : option Transaction;
  checkpoints : gmap Z (list (Z * Z));
}.
Definition set_current (t : option Transaction) (j : Journal) : Journal :=
  mkJournal (journal_start j) (journal_len j) (j_bs j) (next_seq j) (head j) (tail_seq j) t (checkpoints j).
Definition set_tail (t : Z) (j : Journal) : Journal :=
  mkJournal (journal_start j) (journal_len j) (j_bs j) (next_seq j) (head j) t (current j) (checkpoints j).
Definition set_log (h : Z) (c : gmap Z (list (Z * Z))) (j : Journal) : Journal :=
  mkJournal (journal_start j) (journal_len j) (j_bs j) (next_seq j) h (tail_seq j) (current j) c.

(** The journal's own fields end at byte 92 of a block. *)
Definition journal_new (d : list Z) (start bs : Z) : option (option Journal) :=
  match read_bytes d (wmul 64 start bs) (Z.to_nat bs) with
  | None => None
  | Some (Err _) => Some None
  | Some (Ok buf) =>
      if bs <? 92 then None
      else if negb (j_magic buf =? JBD2_MAGIC) then Some None
      else let tail := Z.max (j_tail_sequence buf) 1 in
           Some (Some (mkJournal start (j_maxlen buf) bs tail (j_start buf) tail None ∅))
  end.

(** ** Writing the log *)
Definition advance_pos (j : Journal) (pos : Z) : Z := let p := wadd 32 pos 1 in if journal_len j <=? p then 0 else p.
Definition write_journal_block (j : Journal) (pos : Z) (data d : list Z) : option (list Z * result unit unit) :=
  if Z.of_nat (length data) <? j_bs j then None
  else write_bytes (wmul 64 (wadd 64 (wadd 64 (journal_start j) 1) pos) (j_bs j)) (take (Z.to_nat (j_bs j)) data) d.
Definition journal_superblock (j : Journal) : list Z :=
  let raw := be_bytes 4 JBD2_MAGIC ++ be_bytes 4 JBD2_SUPERBLOCK_V2 ++ be_bytes 4 0 ++ be_bytes 4 (wrap 32 (j_bs j))
    ++ be_bytes 4 (journal_len j) ++ be_bytes 4 1 ++ be_bytes 4 (journal_len j) ++ be_bytes 4 (head j)
    ++ replicate 52 0 ++ be_bytes 4 (tail_seq j) in
  let buf := raw ++ replicate (Z.to_nat (j_bs j) - length raw) 0 in
  splice buf 88 (le_bytes 4 (crc32c 0xFFFFFFFF (take 1020 buf))).
(** Its result is ignored. *)
Definition flush_journal_superblock (j : Journal) (d : list Z) : option (list Z) :=
  if j_bs j <? 1020 then None else fst <$> write_bytes (wmul 64 (journal_start j) (j_bs j)) (journal_superblock j) d.

(** [begin]: a nested transaction panics. *)
Definition begin (j : Journal) : option Journal :=
  match current j with
  | Some _ => None
  | None => Some (mkJournal (journal_start j) (journal_len j) (j_bs j) (wadd 32 (next_seq j) 1) (head j) (tail_seq j) (Some (txn_new (next_seq j))) (checkpoints j))
  end.
Definition jwrite (fs_block : Z) (data : list Z) (j : Journal) (d : list Z) : option (Journal * list Z) :=
  match current j with
  | Some t => Some (set_current (Some (add_block fs_block data t)) j, d)
  | None => r ← write_bytes (wmul 64 fs_block (j_bs j)) data d; Some (j, fst r)
  end.
Definition jrevoke (fs_block : Z) (j : Journal) : Journal := set_current (revoke_block fs_block <$> current j) j.

(** The tags of a descriptor block, as far as they fit. *)
Fixpoint put_tags (bs off : nat) (first : bool) (fs_blocks : list Z) (buf : list Z) : list Z :=
  match fs_blocks with
  | [] => buf
  | b :: r =>
      if (bs <? off + TAG_SZ)%nat then buf
      else
        let flags := Z.lor (if first then 0 else JBD2_FLAG_SAME_UUID) (match r with [] => JBD2_FLAG_LAST_TAG | _ => 0 end) in
        put_tags bs (off + TAG_SZ + if first then 16 else 0)%nat false r (splice buf off (block_tag b flags))
  end.
Definition descriptor (bs : nat) (seq : Z) (fs_blocks : list Z) : list Z :=
  put_tags bs 12 true fs_blocks (block_header JBD2_DESCRIPTOR_BLOCK seq ++ replicate (bs - 12) 0).
Definition resize_block (bs : nat) (data : list Z) : list Z := take bs data ++ replicate (bs - length data) 0.
(** A block that starts with the magic number loses its first four bytes. *)
Definition escaped (bs : nat) (data : list Z) : list Z :=
  let data := resize_block bs data in
  if (4 <=? length data)%nat && (be_value (take 4 data) =? JBD2_MAGIC) then splice data 0 (replicate 4 0) else data.
Definition revoke_buf (bs : nat) (seq : Z) (revoked : list Z) : list Z :=
  let raw := block_header JBD2_REVOKE_BLOCK seq ++ be_bytes 4 (wrap 32 (Z.min (12 + Z.of_nat (length revoked) * 8) (Z.of_nat bs)))
    ++ concat (map (be_bytes 8) (take ((bs - 16) / 8) revoked)) in
  raw ++ replicate (bs - length raw) 0.
Definition commit_buf (bs : nat) (seq : Z) : list Z :=
  let hdr := block_header JBD2_COMMIT_BLOCK seq in
  hdr ++ le_bytes 4 (crc32c 0xFFFFFFFF hdr) ++ replicate (bs - 16) 0.

(** Blocks written one after the other; stops at the first failure. *)
Fixpoint write_log (j : Journal) (pos : Z) (bufs : list (list Z)) (d : list Z) : option (list Z * result unit Z) :=
  match bufs with
  | [] => Some (d, Ok pos)
  | b :: r =>
      match write_journal_block j pos b d with
      | None => None
      | Some (d, Err _) => Some (d, Err tt)
      | Some (d, Ok _) => write_log j (advance_pos j pos) r d
      end
  end.
(** The positions the data blocks get. *)
Fixpoint positions (j : Journal) (pos : Z) (fs_blocks : list Z) : list (Z * Z) :=
  match fs_blocks with
  | [] => []
  | b :: r => (b, wadd 64 pos (journal_start j)) :: positions j (advance_pos j pos) r
  end.

(** The blocks of a checkpointed transaction are not written anywhere. *)
Definition checkpoint_transaction (seq : Z) (j : Journal) (d : list Z) : option (Journal * list Z) :=
  match checkpoints j !! seq with
  | None => Some (j, d)
  | Some _ =>
      let j := set_log (head j) (delete seq (checkpoints j)) j in
      let j := if seq =? tail_seq j then set_tail (wadd 32 seq 1) j else j in
      d ← flush_journal_superblock j d; Some (j, d)
  end.

Definition txn_bufs (bs : nat) (t : Transaction) : list (list Z) :=
  descriptor bs (sequence t) (map fst (blocks t)) :: map (escaped bs) (map snd (blocks t))
  ++ (if bool_decide (revoked t = []) then [] else [revoke_buf bs (sequence t) (revoked t)]) ++ [commit_buf bs (sequence t)].
Definition commit (j : Journal) (d : list Z) : option (Journal * list Z * result unit unit) :=
  match current j with
  | None => Some (j, d, Ok tt)
  | Some t =>
      let j := set_current None j in
      if bool_decide (blocks t = []) && bool_decide (revoked t = []) then Some (j, d, Ok tt)
      else if j_bs j <? 16 then None
      else
        match write_log j (head j) (txn_bufs (Z.to_nat (j_bs j)) t) d with
        | None => None
        | Some (d, Err _) => Some (j, d, Err tt)
        | Some (d, Ok pos) =>
            let j' := set_log pos (<[sequence t := positions j (advance_pos j (head j)) (map fst (blocks t))]> (checkpoints j)) j in
            d ← flush_journal_superblock j' d;
            '(j', d) ← checkpoint_transaction (sequence t) j' d;
            Some (j', d, Ok tt)
        end
  end.
Definition sync (j : Journal) (d : list Z) : option (Journal * list Z) := fst <$> commit j d.
Definition in_transaction (j : Journal) : bool := match current j with Some _ => true | None => false end.

(** ** Recovery *)
Fixpoint tags_from (fuel off : nat) (buf : list Z) : list (Z * Z) :=
  match fuel with
  | O => []
  | S fuel =>
      if (length buf <? off + TAG_SZ)%nat then []
      else
        let fs_block := Z.lor (be_word buf off 4) (Z.shiftl (be_word buf (off + 6) 2) 32) in
        let flags := be_word buf (off + 4) 2 in
        (fs_block, flags) ::
          (if negb (Z.land flags JBD2_FLAG_LAST_TAG =? 0) then []
           else tags_from fuel (off + TAG_SZ + (if (Z.land flags JBD2_FLAG_SAME_UUID =? 0)%Z then 16 else 0))%nat buf)
  end.
Definition parse_descriptor (buf : list Z) : list (Z * Z) := tags_from (length buf) 12 buf.

(** The data blocks of a descriptor are copied; a failing read ends it. *)
Fixpoint replay (j : Journal) (data_pos n : Z) (tags : list (Z * Z)) (d : list Z) : option (list Z * Z * Z) :=
  match tags with
  | [] => Some (d, data_pos, n)
  | (fs_block, flags) :: r =>
      match read_bytes d (wmul 64 (wadd 64 (journal_start j) data_pos) (j_bs j)) (Z.to_nat (j_bs j)) with
      | None => None
      | Some (Err _) => Some (d, data_pos, n)
      | Some (Ok buf) =>
          let buf := if negb (Z.land flags JBD2_FLAG_ESCAPE =? 0) then splice buf 0 (be_bytes 4 JBD2_MAGIC) else buf in
          '(d, _) ← write_bytes (wmul 64 fs_block (j_bs j)) buf d;
          replay j (wadd 32 data_pos 1 mod journal_len j) (wadd 32 n 1) r d
      end
  end.

Record Scan := mkScan { s_pos : Z; s_disk : list Z; s_tail : Z; s_replayed : Z }.
(** One round: [inr] when the scan ends. *)
Definition recover_round (j : Journal) (s : Scan) : option (Scan + Scan) :=
  match read_bytes (s_disk s) (wmul 64 (wadd 64 (journal_start j) (s_pos s)) (j_bs j)) (Z.to_nat (j_bs j)) with
  | None => None
  | Some (Err _) => Some (inr s)
  | Some (Ok buf) =>
      let finish s := Some (if s_pos s =? head j then inr s else inl s) in
      if j_bs j <? 12 then None
      else if negb (h_magic buf =? JBD2_MAGIC) then Some (inr s)
      else if h_blocktype buf =? JBD2_DESCRIPTOR_BLOCK then
        if journal_len j =? 0 then None
        else
          '(d, pos, n) ← replay j (wadd 32 (s_pos s) 1 mod journal_len j) (s_replayed s) (parse_descriptor buf) (s_disk s);
          finish (mkScan pos d (s_tail s) n)
      else if (h_blocktype buf =? JBD2_COMMIT_BLOCK) || (h_blocktype buf =? JBD2_REVOKE_BLOCK) then
        let seq := h_sequence buf in
        let tail := if (h_blocktype buf =? JBD2_COMMIT_BLOCK) && (s_tail s <=? seq) then wadd 32 seq 1 else s_tail s in
        if journal_len j =? 0 then None else finish (mkScan (wadd 32 (s_pos s) 1 mod journal_len j) (s_disk s) tail (s_replayed s))
      else Some (inr s)
  end.
Fixpoint recover_loop (fuel : nat) (j : Journal) (s : Scan) : option Scan :=
  match fuel with
  | O => None
  | S fuel => r ← recover_round j s; match r with inl s => recover_loop fuel j s | inr s => Some s end
  end.
Definition recover (fuel : nat) (j : Journal) (d : list Z) : option (Journal * list Z) :=
  s ← recover_loop fuel j (mkScan (head j) d (tail_seq j) 0);
  let j := set_tail (s_tail s) j in
  if 0 <? s_replayed s then d ← flush_journal_superblock j (s_disk s); Some (j, d) else Some (j, s_disk s).

(** ** The handle: does nothing where there is no journal. *)
Definition handle_new (oj : option Journal) : option (option Journal) := match oj with None => Some None | Some j => Some <$> begin j end.
Definition handle_write_block (fs_block : Z) (data : list Z) (oj : option Journal) (d : list Z) : option (option Journal * list Z) :=
  match oj with None => Some (None, d) | Some j => '(j, d) ← jwrite fs_block data j d; Some (Some j, d) end.
Definition handle_revoke_block (fs_block : Z) (oj : option Journal) : option Journal := jrevoke fs_block <$> oj.
Definition handle_commit (oj : option Journal) (d : list Z) : option (option Journal * list Z) :=
  match oj with None => Some (None, d) | Some j => '(j, d, _) ← commit j d; Some (Some j, d) end.
