(* ===== verification/DiskFacts.v ===== *)
(** * What the journal does and does not

    A descriptor block lists the blocks of its transaction, as many as fit.
    Committing writes the log and nothing else: the blocks never reach their
    places, and recovery starts behind them.  Recovery of a log that starts
    at the head copies each block to its place, committed or not. *)
From S2P Require Import Prelude Bytes Disk.

(** ** Numbers in network order *)
Lemma length_be_bytes n v : length (be_bytes n v) = n.
Proof. unfold be_bytes. by rewrite length_rev, length_le_bytes. Qed.
Lemma be_value_bytes n v : be_value (be_bytes n v) = wrap (8 * Z.of_nat n) v.
Proof. unfold be_value, be_bytes. by rewrite rev_involutive, le_value_bytes. Qed.
Lemma be_value_small n v : in_range (8 * Z.of_nat n) v → be_value (be_bytes n v) = v.
Proof. intros. by rewrite be_value_bytes, wrap_small. Qed.

Lemma slice_app_at x y z n : length y = n → slice (x ++ y ++ z) (length x) n = y.
Proof. intros <-. unfold slice. by rewrite drop_app_length, take_app_length. Qed.
Lemma slice_slice d a n b m : (b + m ≤ n)%nat → slice (slice d a n) b m = slice d (a + b) m.
Proof.
  intros H. unfold slice. rewrite skipn_firstn_comm, firstn_firstn, drop_drop. f_equal. lia.
Qed.

(** ** Descriptors *)
Lemma length_block_tag b f : length (block_tag b f) = TAG_SZ.
Proof. unfold block_tag. by rewrite !length_app, !length_be_bytes. Qed.
Lemma block_tag_fields buf off b f : is_u16 f → in_range 48 b → slice buf off TAG_SZ = block_tag b f →
  Z.lor (be_word buf off 4) (Z.shiftl (be_word buf (off + 6) 2) 32) = b ∧ be_word buf (off + 4) 2 = f.
Proof.
  intros Hf Hb Hs. unfold be_word.
  assert (∀ k n, (k + n ≤ TAG_SZ)%nat → slice buf (off + k) n = slice (block_tag b f) k n) as H.
  { intros k n Hk. rewrite <- Hs. by rewrite slice_slice. }
  replace off with (off + 0)%nat at 1 by lia. rewrite !H by (unfold TAG_SZ; lia).
  unfold block_tag. assert (∀ v, length (be_bytes 4 v) = 4%nat) as L4 by (intros; apply length_be_bytes).
  assert (∀ v, length (be_bytes 2 v) = 2%nat) as L2 by (intros; apply length_be_bytes).
  pose proof (slice_app_at [] (be_bytes 4 (wrap 32 b)) (be_bytes 2 f ++ be_bytes 2 (wrap 16 (Z.shiftr b 32)) ++ be_bytes 4 0) 4 (L4 _)) as E0. cbn [app length] in E0.
  pose proof (slice_app_at (be_bytes 4 (wrap 32 b)) (be_bytes 2 f) (be_bytes 2 (wrap 16 (Z.shiftr b 32)) ++ be_bytes 4 0) 2 (L2 _)) as E1. rewrite L4 in E1.
  pose proof (slice_app_at (be_bytes 4 (wrap 32 b) ++ be_bytes 2 f) (be_bytes 2 (wrap 16 (Z.shiftr b 32))) (be_bytes 4 0) 2 (L2 _)) as E2.
  rewrite length_app, L4, L2, <- app_assoc in E2. cbn [Nat.add] in E2. rewrite E0, E1, E2.
  rewrite !be_value_small by (try done; by apply wrap_range). split; [|done].
  rewrite (wrap_small 16) by (split; [by apply Z.shiftr_nonneg, Hb|rewrite Z.shiftr_div_pow2 by done; apply Z.div_lt_upper_bound; [lia|]; apply Hb]).
  unfold wrap. apply Z.bits_inj'. intros i Hi. rewrite Z.lor_spec. destruct (Z.lt_ge_cases i 32).
  - rewrite Z.mod_pow2_bits_low, Z.shiftl_spec_low by lia. apply orb_false_r.
  - rewrite Z.mod_pow2_bits_high, Z.shiftl_spec, Z.shiftr_spec by lia. cbn. f_equal. lia.
Qed.

Lemma length_put_tags bs off first bl buf : length buf = bs → length (put_tags bs off first bl buf) = bs.
Proof.
  revert off first buf. induction bl as [|b bl IH]; intros off first buf Hl; [done|]. cbn [put_tags]. destruct (Nat.ltb_spec bs (off + TAG_SZ)); [done|].
  apply IH. rewrite length_splice; [done|]. rewrite length_block_tag. lia.
Qed.
Lemma put_tags_before bs off first bl buf a n : length buf = bs → (a + n ≤ off)%nat → slice (put_tags bs off first bl buf) a n = slice buf a n.
Proof.
  revert off first buf. induction bl as [|b bl IH]; intros off first buf Hl Ha; [done|]. cbn [put_tags]. destruct (Nat.ltb_spec bs (off + TAG_SZ)); [done|].
  rewrite IH; [apply slice_other; rewrite length_block_tag; lia|rewrite length_splice; [done|rewrite length_block_tag; lia]|lia].
Qed.
Definition tag_flags (first last : bool) : Z := Z.lor (if first then 0 else JBD2_FLAG_SAME_UUID) (if last then JBD2_FLAG_LAST_TAG else 0).
Lemma tag_flags_spec first last : is_u16 (tag_flags first last) ∧ negb (Z.land (tag_flags first last) JBD2_FLAG_LAST_TAG =? 0) = last ∧
  (Z.land (tag_flags first last) JBD2_FLAG_SAME_UUID =? 0) = first ∧ Z.land (tag_flags first last) JBD2_FLAG_ESCAPE = 0.
Proof. by destruct first, last. Qed.

(** The tags that fit. *)
Fixpoint fit_tags (bs off : nat) (first : bool) (bl : list Z) : list (Z * Z) :=
  match bl with
  | [] => []
  | b :: r => if (bs <? off + TAG_SZ)%nat then []
      else (b, tag_flags first (bool_decide (r = []))) :: fit_tags bs (off + TAG_SZ + if first then 16 else 0)%nat false r
  end.
Lemma tags_put bs fuel : ∀ off first bl buf, length buf = bs → (bs < off + fuel * TAG_SZ)%nat → bl ≠ [] → Forall (in_range 48) bl →
  tags_from fuel off (put_tags bs off first bl buf) = fit_tags bs off first bl.
Proof.
  induction fuel as [|fuel IH]; intros off first bl buf Hl Hf Hne Hb; destruct bl as [|b bl]; try done.
  - cbn [fit_tags tags_from]. rewrite (proj2 (Nat.ltb_lt _ _)); [done|unfold TAG_SZ in *; lia].
  - cbn [tags_from]. rewrite length_put_tags by done. cbn [fit_tags]. destruct (Nat.ltb_spec bs (off + TAG_SZ)) as [|Hfit]; [done|].
    cbn [put_tags]. rewrite (proj2 (Nat.ltb_ge _ _)) by done. apply Forall_cons in Hb as [Hb Hbl]. fold (tag_flags first (bool_decide (bl = []))).
    assert (Z.lor (if first then 0 else JBD2_FLAG_SAME_UUID) (match bl with [] => JBD2_FLAG_LAST_TAG | _ => 0 end) = tag_flags first (bool_decide (bl = []))) as -> by (by destruct bl).
    set (fl := tag_flags first _). destruct (tag_flags_spec first (bool_decide (bl = []))) as (F1 & F2 & F3 & _). fold fl in F1, F2, F3.
    set (buf1 := splice buf off (block_tag b fl)). assert (length buf1 = bs) as Hl1 by (unfold buf1; rewrite length_splice; [done|]; rewrite length_block_tag; lia).
    set (out := put_tags bs _ false bl buf1).
    assert (slice out off TAG_SZ = block_tag b fl) as Hs.
    { unfold out. rewrite put_tags_before by (done || lia). unfold buf1. rewrite <- (length_block_tag b fl) at 1. apply slice_same. rewrite length_block_tag. lia. }
    destruct (block_tag_fields out off b fl F1 Hb Hs) as [-> ->]. f_equal. rewrite F2, F3. case_bool_decide as Hbl0; [clear -Hbl0; by rewrite Hbl0|].
    apply IH; [done| |done|done]. clear -Hf. unfold TAG_SZ in *. destruct first; lia.
Qed.

Lemma fit_tags_rest bs off bl : map fst (fit_tags bs off false bl) = take ((bs - off) / TAG_SZ) bl.
Proof.
  revert off. induction bl as [|b bl IH]; intros off; [by rewrite take_nil|]. cbn [fit_tags]. destruct (Nat.ltb_spec bs (off + TAG_SZ)).
  - rewrite Nat.div_small by (unfold TAG_SZ in *; lia). done.
  - replace ((bs - off) / TAG_SZ)%nat with (S ((bs - (off + TAG_SZ + 0)) / TAG_SZ))%nat; [cbn [map take fst]; by rewrite IH|].
    replace (bs - off)%nat with (bs - (off + TAG_SZ + 0) + 1 * TAG_SZ)%nat by lia. rewrite Nat.div_add by done. lia.
Qed.

(** A descriptor block names the blocks of its transaction: parsing what
    [commit] has written gives their numbers back in order, as many as fit
    into the block after the identifier, which is all of a small transaction. *)
Theorem descriptor_roundtrip bs seq bl : (40 ≤ bs)%nat → bl ≠ [] → Forall (in_range 48) bl →
  map fst (parse_descriptor (descriptor bs seq bl)) = take ((bs - 28) / TAG_SZ) bl.
Proof.
  intros Hbs Hne Hb. unfold parse_descriptor, descriptor. set (buf := _ ++ replicate _ _).
  assert (length buf = bs) as Hl by (unfold buf, block_header; rewrite !length_app, !length_be_bytes, length_replicate; lia).
  rewrite length_put_tags, tags_put by (done || unfold TAG_SZ; lia). destruct bl as [|b bl]; [done|]. cbn [fit_tags].
  rewrite (proj2 (Nat.ltb_ge _ _)) by (unfold TAG_SZ; lia). cbn [map fst]. rewrite fit_tags_rest.
  replace ((bs - 28) / TAG_SZ)%nat with (S ((bs - (12 + TAG_SZ + 16)) / TAG_SZ))%nat; [done|].
  replace (bs - 28)%nat with (bs - (12 + TAG_SZ + 16) + 1 * TAG_SZ)%nat by (unfold TAG_SZ; lia). rewrite Nat.div_add by done. lia.
Qed.

(** ** The log *)
Lemma read_bytes_ok d off n : 0 ≤ off → off + Z.of_nat n ≤ Z.of_nat (length d) < 2 ^ 64 → read_bytes d off n = Some (Ok (slice d (Z.to_nat off) n)).
Proof.
  intros H0 H1. unfold read_bytes. rewrite wadd_small by lia. rewrite (proj2 (Z.ltb_ge _ _)) by lia. by rewrite (proj2 (Z.ltb_ge _ _)) by lia.
Qed.
Lemma write_bytes_ok off data d : 0 ≤ off → off + Z.of_nat (length data) ≤ Z.of_nat (length d) < 2 ^ 64 →
  write_bytes off data d = Some (splice d (Z.to_nat off) data, Ok tt).
Proof.
  intros H0 H1. unfold write_bytes. rewrite wadd_small by lia. rewrite (proj2 (Z.ltb_ge _ _)) by lia. by rewrite (proj2 (Z.ltb_ge _ _)) by lia.
Qed.

(** The block with number [k]. *)
Definition blk (d : list Z) (bs k : Z) : list Z := slice d (Z.to_nat (k * bs)) (Z.to_nat bs).
Record log_ok (j : Journal) (d : list Z) : Prop := {
  lo_start : 0 ≤ journal_start j;
  lo_len : 0 < journal_len j < 2 ^ 32;
  lo_bs : 1024 ≤ j_bs j < 2 ^ 32;
  lo_head : 0 ≤ head j < journal_len j;
  lo_tail : 1 ≤ tail_seq j < 2 ^ 32;
  lo_fit : (journal_start j + 1 + journal_len j) * j_bs j ≤ Z.of_nat (length d);
  lo_usize : Z.of_nat (length d) < 2 ^ 64;
}.
(** Bytes that are not of the journal, which ends a block past its length. *)
Definition outside (j : Journal) (a n : nat) : Prop :=
  Z.of_nat a + Z.of_nat n ≤ journal_start j * j_bs j ∨ (journal_start j + 1 + journal_len j) * j_bs j ≤ Z.of_nat a.

Lemma write_journal_block_ok j pos buf d : log_ok j d → 0 ≤ pos < journal_len j → length buf = Z.to_nat (j_bs j) →
  write_journal_block j pos buf d = Some (splice d (Z.to_nat ((journal_start j + 1 + pos) * j_bs j)) buf, Ok tt).
Proof.
  intros [] Hp Hb. unfold write_journal_block. rewrite (proj2 (Z.ltb_ge _ _)) by lia. rewrite take_ge by lia.
  assert ((journal_start j + 1 + pos) * j_bs j + j_bs j ≤ Z.of_nat (length d)) as Hfit by nia.
  rewrite (wadd_small 64 (journal_start j)) by nia. rewrite wadd_small by nia. unfold wmul. rewrite wrap_small by (unfold in_range; nia).
  rewrite write_bytes_ok by (rewrite ?Hb; nia). done.
Qed.
Lemma advance_small j pos : 0 ≤ pos → pos + 1 < journal_len j < 2 ^ 32 → advance_pos j pos = pos + 1.
Proof. intros. unfold advance_pos. rewrite wadd_small by lia. by rewrite (proj2 (Z.leb_gt _ _)) by lia. Qed.

Lemma write_log_spec j bufs : ∀ pos d, log_ok j d → 0 ≤ pos → pos + Z.of_nat (length bufs) < journal_len j → Forall (λ b, length b = Z.to_nat (j_bs j)) bufs →
  ∃ d', write_log j pos bufs d = Some (d', Ok (pos + Z.of_nat (length bufs))) ∧ length d' = length d ∧
    (∀ a n, (Z.of_nat a + Z.of_nat n ≤ (journal_start j + 1 + pos) * j_bs j ∨ (journal_start j + 1 + pos + Z.of_nat (length bufs)) * j_bs j ≤ Z.of_nat a) →
       slice d' a n = slice d a n) ∧
    (∀ i b, bufs !! i = Some b → blk d' (j_bs j) (journal_start j + 1 + pos + Z.of_nat i) = b).
Proof.
  induction bufs as [|b bufs IH]; intros pos d Hok H0 Hp Hl; cbn [write_log length] in *.
  - exists d. split; [by rewrite Z.add_0_r|]. done.
  - apply Forall_cons in Hl as [Hb Hl]. rewrite write_journal_block_ok by (done || lia). rewrite advance_small by (try lia; destruct Hok; lia).
    set (d1 := splice d _ b). pose proof Hok as [? ? ? ? ? Hfit Hus].
    assert ((journal_start j + 1 + pos) * j_bs j + j_bs j ≤ Z.of_nat (length d)) as Hin by nia.
    assert (length d1 = length d) as Hl1 by (unfold d1; rewrite length_splice; [done|]; nia).
    destruct (IH (pos + 1) d1) as (d' & -> & Hl' & Hfr & Hbl); [split; try done; by rewrite Hl1|lia|lia|done|].
    exists d'. split; [do 3 f_equal; lia|]. split; [by rewrite Hl'|]. split.
    + intros a n Ha. rewrite Hfr by nia. unfold d1. apply slice_other; [nia|]. rewrite Hb. nia.
    + intros [|i] b' Hi.
      * injection Hi as <-. unfold blk. rewrite Hfr by nia. unfold d1. rewrite Z.add_0_r. rewrite <- Hb. apply slice_same. nia.
      * cbn in Hi. rewrite <- (Hbl i b' Hi). f_equal. lia.
Qed.

Lemma length_block_header ty seq : length (block_header ty seq) = 12%nat.
Proof. unfold block_header. by rewrite !length_app, !length_be_bytes. Qed.
Lemma length_concat_be8 l : length (concat (map (be_bytes 8) l)) = (8 * length l)%nat.
Proof. induction l as [|x l IH]; [done|]. cbn [map concat length]. rewrite length_app, length_be_bytes, IH. lia. Qed.
Lemma length_txn_bufs bs t : (1024 ≤ bs)%nat → Forall (λ b, length b = bs) (txn_bufs bs t).
Proof.
  intros Hbs. unfold txn_bufs. constructor; [|apply Forall_app; split; [|apply Forall_app; split]].
  - unfold descriptor. apply length_put_tags. rewrite length_app, length_block_header, length_replicate. lia.
  - apply Forall_forall. intros b (x & -> & _)%list_elem_of_fmap. assert (length (resize_block bs x) = bs) as Hr.
    { unfold resize_block. rewrite length_app, length_take, length_replicate. lia. }
    unfold escaped. case_match; [rewrite length_splice by (cbn; lia)|]; done.
  - case_bool_decide; [done|]. constructor; [|done]. unfold revoke_buf. rewrite !length_app, length_block_header, length_be_bytes, length_concat_be8, length_take, length_replicate.
    pose proof (Nat.mul_div_le (bs - 16) 8). lia.
  - constructor; [|done]. unfold commit_buf. rewrite !length_app, length_block_header, length_le_bytes, length_replicate. lia.
Qed.

(** ** The superblock of the journal *)
Lemma length_journal_superblock j : 1024 ≤ j_bs j → length (journal_superblock j) = Z.to_nat (j_bs j).
Proof.
  intros Hb. unfold journal_superblock. rewrite length_splice; rewrite !length_app, !length_replicate, !length_be_bytes, ?length_le_bytes; lia.
Qed.
Lemma flush_ok j d : log_ok j d → flush_journal_superblock j d = Some (splice d (Z.to_nat (journal_start j * j_bs j)) (journal_superblock j)).
Proof.
  intros []. unfold flush_journal_superblock. rewrite (proj2 (Z.ltb_ge _ _)) by lia. unfold wmul. rewrite wrap_small by (unfold in_range; nia).
  rewrite write_bytes_ok; [done|nia|]. rewrite length_journal_superblock by lia. nia.
Qed.
Lemma superblock_fields j d : log_ok j d →
  let raw := journal_superblock j in j_magic raw = JBD2_MAGIC ∧ j_maxlen raw = journal_len j ∧ j_start raw = head j ∧ j_tail_sequence raw = tail_seq j.
Proof.
  intros []. cbn zeta. assert (∀ a, (a + 4 ≤ 88)%nat → be_word (journal_superblock j) a 4 = be_value (slice (be_bytes 4 JBD2_MAGIC ++ be_bytes 4 JBD2_SUPERBLOCK_V2 ++ be_bytes 4 0 ++ be_bytes 4 (wrap 32 (j_bs j))
    ++ be_bytes 4 (journal_len j) ++ be_bytes 4 1 ++ be_bytes 4 (journal_len j) ++ be_bytes 4 (head j) ++ replicate 52 0 ++ be_bytes 4 (tail_seq j)) a 4)) as H.
  { intros a Ha. unfold be_word, journal_superblock. rewrite slice_other; [|rewrite !length_app, !length_replicate, !length_be_bytes, length_le_bytes; lia|lia].
    unfold slice. rewrite drop_app_le by (rewrite !length_app, !length_replicate, !length_be_bytes; lia).
    rewrite take_app_le; [done|]. rewrite length_drop, !length_app, !length_replicate, !length_be_bytes. lia. }
  unfold j_magic, j_maxlen, j_start, j_tail_sequence. rewrite !H by lia. split_and!; reflexivity || (etransitivity; [apply (be_value_small 4); unfold in_range; lia|]; reflexivity).
Qed.

Lemma commit_buf_fields bs seq : is_u32 seq →
  h_magic (commit_buf bs seq) = JBD2_MAGIC ∧ h_blocktype (commit_buf bs seq) = JBD2_COMMIT_BLOCK ∧ h_sequence (commit_buf bs seq) = seq.
Proof.
  intros Hs. unfold h_magic, h_blocktype, h_sequence, be_word, commit_buf, block_header.
  split_and!; reflexivity || (etransitivity; [apply (be_value_small 4); exact Hs|]; reflexivity).
Qed.

Lemma read_blk d bs k : 0 ≤ k → 0 < bs → (k + 1) * bs ≤ Z.of_nat (length d) < 2 ^ 64 → read_bytes d (wmul 64 k bs) (Z.to_nat bs) = Some (Ok (blk d bs k)).
Proof. intros Hk Hbs Hd. unfold wmul. rewrite wrap_small by (unfold in_range; nia). rewrite read_bytes_ok by nia. done. Qed.

(** The rounds of a scan: a commit block is passed, a block of no kind ends it. *)
Lemma round_read j s : log_ok j (s_disk s) → 0 ≤ s_pos s ≤ journal_len j →
  read_bytes (s_disk s) (wmul 64 (wadd 64 (journal_start j) (s_pos s)) (j_bs j)) (Z.to_nat (j_bs j)) = Some (Ok (blk (s_disk s) (j_bs j) (journal_start j + s_pos s))).
Proof. intros [] Hp. rewrite (wadd_small 64) by nia. apply read_blk; nia. Qed.
Lemma round_end j s : log_ok j (s_disk s) → 0 ≤ s_pos s ≤ journal_len j → h_magic (blk (s_disk s) (j_bs j) (journal_start j + s_pos s)) ≠ JBD2_MAGIC →
  recover_round j s = Some (inr s).
Proof.
  intros Hok Hp Hn. unfold recover_round. rewrite round_read by done. rewrite (proj2 (Z.ltb_ge _ _)) by (destruct Hok; lia).
  by rewrite (proj2 (Z.eqb_neq _ _) Hn).
Qed.
Lemma round_commit j s seq : log_ok j (s_disk s) → is_u32 seq → 0 ≤ s_pos s → s_pos s + 1 < journal_len j → s_pos s + 1 ≠ head j →
  blk (s_disk s) (j_bs j) (journal_start j + s_pos s) = commit_buf (Z.to_nat (j_bs j)) seq →
  recover_round j s = Some (inl (mkScan (s_pos s + 1) (s_disk s) (if s_tail s <=? seq then wadd 32 seq 1 else s_tail s) (s_replayed s))).
Proof.
  intros Hok Hs Hp Hp1 Hh Hc. destruct (commit_buf_fields (Z.to_nat (j_bs j)) seq Hs) as (C1 & C2 & C3). unfold recover_round.
  rewrite round_read by (done || lia). rewrite Hc, C1, C2, C3. pose proof Hok as [? ? ? ? ? Hfit Hus]. rewrite (proj2 (Z.ltb_ge _ _)) by lia.
  change (JBD2_MAGIC =? JBD2_MAGIC) with true. change (JBD2_COMMIT_BLOCK =? JBD2_DESCRIPTOR_BLOCK) with false. change (JBD2_COMMIT_BLOCK =? JBD2_COMMIT_BLOCK) with true. cbn [negb orb andb].
  rewrite (proj2 (Z.eqb_neq (journal_len j) 0)) by lia. rewrite (wadd_small 32 (s_pos s)) by lia. rewrite Z.mod_small by lia. cbn [s_pos].
  by rewrite (proj2 (Z.eqb_neq _ _) Hh).
Qed.

(** A scan whose first block is a commit block and whose second one is of
    no kind ends without writing. *)
Lemma recover_commit_only j d seq fuel : log_ok j d → is_u32 seq → head j + 1 < journal_len j →
  blk d (j_bs j) (journal_start j + head j) = commit_buf (Z.to_nat (j_bs j)) seq → h_magic (blk d (j_bs j) (journal_start j + (head j + 1))) ≠ JBD2_MAGIC →
  (2 ≤ fuel)%nat → ∃ j', recover fuel j d = Some (j', d).
Proof.
  intros Hok Hs Hh Hc Hn Hf. destruct fuel as [|[|fuel]]; [lia|lia|]. unfold recover. cbn [recover_loop]. pose proof (lo_head _ _ Hok).
  rewrite (round_commit j (mkScan (head j) d (tail_seq j) 0) seq) by (done || (cbn; lia)). cbn [mbind option_bind s_pos s_disk s_replayed s_tail].
  rewrite round_end by (done || (cbn; lia)). cbn. eauto.
Qed.

Lemma splice_blk_other d k bs buf a n : 0 ≤ k → 0 < bs → length buf = Z.to_nat bs → (k + 1) * bs ≤ Z.of_nat (length d) →
  Z.of_nat a + Z.of_nat n ≤ k * bs ∨ (k + 1) * bs ≤ Z.of_nat a → slice (splice d (Z.to_nat (k * bs)) buf) a n = slice d a n.
Proof. intros Hk Hbs Hb Hd Ha. assert (0 ≤ k * bs) by nia. apply slice_other; rewrite Hb; lia. Qed.

(** The disk after [commit], and what a new mount finds. *)
Lemma commit_spec j d t : log_ok j d → current j = Some t → ¬ (blocks t = [] ∧ revoked t = []) → 1 ≤ sequence t < 2 ^ 32 - 1 →
  let bufs := txn_bufs (Z.to_nat (j_bs j)) t in let h := head j + Z.of_nat (length bufs) in h + 1 < journal_len j →
  ∃ j' d', commit j d = Some (j', d', Ok tt) ∧ log_ok j' d' ∧ journal_start j' = journal_start j ∧ journal_len j' = journal_len j ∧ j_bs j' = j_bs j ∧ head j' = h ∧
    length d' = length d ∧ blk d' (j_bs j) (journal_start j) = journal_superblock j' ∧ blk d' (j_bs j) (journal_start j + h) = commit_buf (Z.to_nat (j_bs j)) (sequence t) ∧
    (∀ a n, Z.of_nat a + Z.of_nat n ≤ journal_start j * j_bs j ∨ (journal_start j + 1 + h) * j_bs j ≤ Z.of_nat a → slice d' a n = slice d a n).
Proof.
  intros Hok Hcur Hne Hseq bufs h Hh. pose proof Hok as [? ? ? ? ? Hfit Hus]. set (jn := set_current None j).
  assert (log_ok jn d) as Hok1 by (by split).
  destruct (write_log_spec jn bufs (head j) d Hok1) as (d1 & Hw & Hl1 & Hfr & Hbl); [lia|change (journal_len jn) with (journal_len j); lia|apply length_txn_bufs; lia|].
  cbn [jn set_current journal_start journal_len j_bs] in Hfr, Hbl. fold h in Hw. set (c := <[sequence t := positions jn (advance_pos jn (head j)) (map fst (blocks t))]> (checkpoints j)).
  set (j1 := set_log h c jn). assert (log_ok j1 d1) as Hok2 by (split; cbn; rewrite ?Hl1; try done; unfold h; lia).
  set (sb1 := journal_superblock j1). set (d2 := splice d1 (Z.to_nat (journal_start j * j_bs j)) sb1).
  assert (length d2 = length d) as Hl2 by (unfold d2, sb1; rewrite length_splice; [done|]; rewrite length_journal_superblock by (cbn; lia); cbn; nia).
  set (j2 := set_log h (delete (sequence t) c) j1). set (j3 := if sequence t =? tail_seq j2 then set_tail (wadd 32 (sequence t) 1) j2 else j2).
  assert (log_ok j3 d2) as Hok3.
  { unfold j3. destruct (Z.eqb_spec (sequence t) (tail_seq j2)) as [E|]; [rewrite wadd_small by lia|]; split; cbn; rewrite ?Hl2; try done; unfold h in *; lia. }
  assert (journal_start j3 = journal_start j ∧ j_bs j3 = j_bs j ∧ journal_len j3 = journal_len j ∧ head j3 = h) as (E1 & E2 & E3 & E4) by (unfold j3; by case_match).
  set (d3 := splice d2 (Z.to_nat (journal_start j * j_bs j)) (journal_superblock j3)).
  assert (length (journal_superblock j3) = Z.to_nat (j_bs j)) as Ls by (rewrite length_journal_superblock; rewrite E2; lia).
  assert (∀ a n, Z.of_nat a + Z.of_nat n ≤ journal_start j * j_bs j ∨ (journal_start j + 1) * j_bs j ≤ Z.of_nat a → slice d3 a n = slice d1 a n) as Hsb.
  { intros a n Ha. unfold d3. rewrite splice_blk_other by (lia || done || (rewrite Hl2; nia)). unfold d2.
    apply splice_blk_other; [lia|lia|refine (length_journal_superblock j1 _); cbn; lia|rewrite Hl1; nia|done]. }
  exists j3, d3. split.
  { unfold commit. rewrite Hcur. fold jn. assert (bool_decide (blocks t = []) && bool_decide (revoked t = []) = false) as ->.
    { apply andb_false_iff. destruct (decide (blocks t = [])); [right|left]; rewrite bool_decide_eq_false; tauto. }
    change (j_bs jn) with (j_bs j). rewrite (proj2 (Z.ltb_ge _ _)) by lia. change (head jn) with (head j). fold bufs. rewrite Hw. change (checkpoints jn) with (checkpoints j). fold c j1.
    rewrite (flush_ok j1 d1 Hok2). cbn [mbind option_bind]. change (journal_start j1) with (journal_start j). change (j_bs j1) with (j_bs j). fold sb1 d2.
    unfold checkpoint_transaction. change (checkpoints j1) with c. unfold c at 1. rewrite lookup_insert_eq. change (head j1) with h. fold j2 j3.
    rewrite (flush_ok j3 d2 Hok3). cbn [mbind option_bind]. by rewrite E1, E2. }
  assert (length d3 = length d) as Hl3 by (unfold d3; rewrite length_splice; [done|]; rewrite Ls; nia).
  assert (1 ≤ h) as Hh1 by (unfold h, bufs, txn_bufs; rewrite length_cons; lia).
  split; [split; rewrite ?E1, ?E2, ?E3, ?E4, ?Hl3; try done; [lia|by destruct Hok3]|]. split_and!; try done.
  - unfold blk, d3. rewrite <- Ls. apply slice_same. rewrite Ls. nia.
  - unfold blk. rewrite Hsb by (right; rewrite Z2Nat.id; [apply Z.mul_le_mono_nonneg_r; lia|apply Z.mul_nonneg_nonneg; lia]). change (slice d1 (Z.to_nat ((journal_start j + h) * j_bs j)) (Z.to_nat (j_bs j))) with (blk d1 (j_bs j) (journal_start j + h)).
    rewrite <- (Hbl (length bufs - 1)%nat (commit_buf (Z.to_nat (j_bs j)) (sequence t))).
    + f_equal. unfold h, bufs, txn_bufs. rewrite length_cons, !length_app. cbn [length]. lia.
    + unfold bufs, txn_bufs. rewrite app_assoc, app_comm_cons, length_app. cbn [length]. rewrite Nat.add_sub. by rewrite lookup_app_r, Nat.sub_diag by done.
  - assert ((journal_start j + 1) * j_bs j ≤ (journal_start j + 1 + h) * j_bs j) as M1 by (apply Z.mul_le_mono_nonneg_r; lia).
    assert (journal_start j * j_bs j ≤ (journal_start j + 1 + head j) * j_bs j) as M2 by (apply Z.mul_le_mono_nonneg_r; lia).
    intros a n Ha. rewrite Hsb by lia. apply Hfr. unfold h in *. rewrite <- (Z.add_assoc _ (head j)). lia.
Qed.

(** C27. A committed transaction is lost: [commit] succeeds and writes the log,
    but no byte outside of the journal, and mounting the disk again after a
    crash finds the head behind the transaction, so that recovery copies
    nothing either (where the log goes on with a block of no kind). *)
Theorem commit_lost j d t fuel : log_ok j d → current j = Some t → ¬ (blocks t = [] ∧ revoked t = []) → 1 ≤ sequence t < 2 ^ 32 - 1 →
  let h := head j + Z.of_nat (length (txn_bufs (Z.to_nat (j_bs j)) t)) in h + 1 < journal_len j →
  h_magic (blk d (j_bs j) (journal_start j + (h + 1))) ≠ JBD2_MAGIC → (2 ≤ fuel)%nat →
  ∃ j' d', commit j d = Some (j', d', Ok tt) ∧ (∀ a n, outside j a n → slice d' a n = slice d a n) ∧
  ∃ j2 j3, journal_new d' (journal_start j) (j_bs j) = Some (Some j2) ∧ recover fuel j2 d' = Some (j3, d').
Proof.
  intros Hok Hcur Hne Hseq h Hh Hmag Hf. destruct (commit_spec j d t Hok Hcur Hne Hseq Hh) as (j' & d' & Hc & Hok' & E1 & E2 & E3 & E4 & Hl & Hsb & Hcb & Hfr). fold h in Hcb, Hfr, E4.
  pose proof Hok as [? ? ? ? ? Hfit Hus]. exists j', d'. split; [done|]. split.
  { assert ((journal_start j + 1 + h) * j_bs j ≤ (journal_start j + 1 + journal_len j) * j_bs j) by (apply Z.mul_le_mono_nonneg_r; lia).
    intros a n Ha. apply Hfr. unfold outside in Ha. lia. }
  destruct (superblock_fields j' d' Hok') as (F1 & F2 & F3 & F4). rewrite E2 in F2. rewrite E4 in F3.
  set (j2 := mkJournal (journal_start j) (journal_len j) (j_bs j) (tail_seq j') h (tail_seq j') None ∅).
  assert (log_ok j2 d') as Hok2 by (destruct Hok'; split; cbn; rewrite ?Hl; try done; unfold h in *; lia).
  destruct (recover_commit_only j2 d' (sequence t) fuel) as [j3 Hr]; try done; [unfold in_range; lia| |].
  { cbn [j2 j_bs journal_start head]. unfold blk. rewrite Hfr by (right; rewrite Z2Nat.id; [apply Z.mul_le_mono_nonneg_r; lia|apply Z.mul_nonneg_nonneg; unfold h; lia]). exact Hmag. }
  exists j2, j3. split; [|done]. unfold journal_new. rewrite read_blk by (rewrite ?Hl; nia). rewrite Hsb, F1, F2, F3, F4. rewrite (proj2 (Z.ltb_ge _ _)) by lia. cbn [negb Z.eqb].
  rewrite Z.eqb_refl. cbn [negb]. rewrite Z.max_l by (destruct Hok'; lia). done.
Qed.

(** ** Replaying *)
Definition fs_block_ok (j : Journal) (d : list Z) (b : Z) : Prop :=
  in_range 48 b ∧ (b + 1) * j_bs j ≤ Z.of_nat (length d) ∧ (b + 1 ≤ journal_start j ∨ journal_start j + 1 + journal_len j ≤ b).
(** Bytes of none of the blocks. *)
Definition apart (bs : Z) (bl : list Z) (a n : nat) : Prop := Forall (λ b, Z.of_nat a + Z.of_nat n ≤ b * bs ∨ (b + 1) * bs ≤ Z.of_nat a) bl.

Lemma splice_blk_same d k bs buf : 0 ≤ k → 0 < bs → length buf = Z.to_nat bs → (k + 1) * bs ≤ Z.of_nat (length d) → blk (splice d (Z.to_nat (k * bs)) buf) bs k = buf.
Proof. intros Hk Hbs Hb Hd. unfold blk. rewrite <- Hb. assert (0 ≤ k * bs) by nia. apply slice_same. rewrite Hb. lia. Qed.
Lemma blk_apart d d' bs bl k : 0 ≤ k → 0 < bs → (∀ a n, apart bs bl a n → slice d' a n = slice d a n) → k ∉ bl → blk d' bs k = blk d bs k.
Proof.
  intros Hk Hbs H Hin. apply H. apply Forall_forall. intros b Hb. assert (b ≠ k) as Hne by (intros ->; done). assert (0 ≤ k * bs) by nia.
  rewrite !Z2Nat.id by lia. assert (k + 1 ≤ b ∨ b + 1 ≤ k) as [|] by lia; [left|right]; nia.
Qed.
Lemma apart_weaken bs b bl a n : apart bs (b :: bl) a n → (Z.of_nat a + Z.of_nat n ≤ b * bs ∨ (b + 1) * bs ≤ Z.of_nat a) ∧ apart bs bl a n.
Proof. unfold apart. by intros ?%Forall_cons. Qed.

Lemma replay_spec j tags : ∀ pos n d, log_ok j d → Forall (λ t, fs_block_ok j d t.1 ∧ Z.land t.2 JBD2_FLAG_ESCAPE = 0) tags → NoDup (map fst tags) →
  0 ≤ pos → pos + Z.of_nat (length tags) < journal_len j → 0 ≤ n → n + Z.of_nat (length tags) < 2 ^ 32 →
  ∃ d', replay j pos n tags d = Some (d', pos + Z.of_nat (length tags), n + Z.of_nat (length tags)) ∧ length d' = length d ∧
    (∀ a m, apart (j_bs j) (map fst tags) a m → slice d' a m = slice d a m) ∧
    (∀ i t, tags !! i = Some t → blk d' (j_bs j) t.1 = blk d (j_bs j) (journal_start j + pos + Z.of_nat i)).
Proof.
  induction tags as [|[b f] tags IH]; intros pos n d Hok Ht Hnd H0 Hp Hn0 Hn; cbn [replay length map fst] in *.
  - exists d. rewrite !Z.add_0_r. done.
  - apply Forall_cons in Ht as [[(Hb48 & Hbd & Hbj) Hesc] Ht]. apply NoDup_cons in Hnd as [Hni Hnd]. cbn [fst snd] in *. pose proof Hok as [? ? ? ? ? Hfit Hus].
    assert (0 ≤ b) as Hb0 by apply Hb48. rewrite (wadd_small 64) by nia. rewrite read_blk by nia. rewrite Hesc. cbn [negb Z.eqb].
    set (buf := blk d (j_bs j) (journal_start j + pos)). assert (length buf = Z.to_nat (j_bs j)) as Hlb by (apply length_disk_slice; nia).
    unfold wmul. rewrite wrap_small by (unfold in_range; nia). rewrite write_bytes_ok by (rewrite ?Hlb; nia). cbn [mbind option_bind].
    rewrite (wadd_small 32 pos), (wadd_small 32 n), Z.mod_small by lia. set (d1 := splice d _ buf).
    assert (length d1 = length d) as Hl1 by (unfold d1; rewrite length_splice; [done|]; rewrite Hlb; nia).
    destruct (IH (pos + 1) (n + 1) d1) as (d' & -> & Hl & Hfr & Hbl); [split; try done; by rewrite Hl1| |done|lia|lia|lia|lia|].
    { eapply Forall_impl; [exact Ht|]. intros t [H1 H2]. split; [|done]. unfold fs_block_ok in *. by rewrite Hl1. }
    exists d'. split; [by rewrite Nat2Z.inj_succ, <- !Z.add_1_l, !Z.add_assoc|]. split; [by rewrite Hl|]. split.
    + intros a m [Ha1 Ha2]%apart_weaken. rewrite Hfr by done. apply splice_blk_other; first [done|lia].
    + intros [|i] t Hi.
      * injection Hi as <-. cbn [fst]. rewrite Z.add_0_r. rewrite (blk_apart d1 d' _ (map fst tags)) by (done || lia). apply splice_blk_same; first [done|lia].
      * cbn in Hi. rewrite (Hbl i t Hi). replace (journal_start j + pos + Z.of_nat (S i)) with (journal_start j + (pos + 1) + Z.of_nat i) by lia.
        apply lookup_lt_Some in Hi. apply (blk_apart d d1 _ [b]); [lia|lia| |rewrite list_elem_of_singleton; lia]. intros a m [Ha _]%apart_weaken. apply splice_blk_other; first [done|lia].
Qed.

Lemma fit_tags_all bs bl : ∀ off (first : bool), (off + TAG_SZ * length bl + (if first then 16 else 0) ≤ bs)%nat →
  length (fit_tags bs off first bl) = length bl ∧ map fst (fit_tags bs off first bl) = bl ∧ Forall (λ t, Z.land t.2 JBD2_FLAG_ESCAPE = 0) (fit_tags bs off first bl).
Proof.
  induction bl as [|b bl IH]; intros off first H; cbn [fit_tags length] in *; [done|]. rewrite (proj2 (Nat.ltb_ge _ _)) by lia.
  destruct (IH (off + TAG_SZ + if first then 16 else 0)%nat false) as (E1 & E2 & E3); [lia|]. cbn [length map fst]. rewrite E1, E2. split_and!; [done|done|].
  constructor; [apply (tag_flags_spec first)|done].
Qed.

Lemma descriptor_fields bs seq bl : (1024 ≤ bs)%nat →
  h_magic (descriptor bs seq bl) = JBD2_MAGIC ∧ h_blocktype (descriptor bs seq bl) = JBD2_DESCRIPTOR_BLOCK.
Proof.
  intros Hbs. unfold h_magic, h_blocktype, be_word, descriptor. rewrite !put_tags_before; [split; reflexivity|..]; try lia;
    rewrite length_app, length_block_header, length_replicate; lia.
Qed.

(** What may follow the data of the last transaction at position [p]: a block
    of no kind, where the crash has cut the log off before the commit block, or
    the commit block and a block of no kind. *)
Inductive log_end (j : Journal) (d : list Z) (p : Z) : Prop :=
  | log_cut : h_magic (blk d (j_bs j) (journal_start j + p)) ≠ JBD2_MAGIC → log_end j d p
  | log_committed seq : 0 ≤ seq < 2 ^ 32 - 1 → p + 1 < journal_len j →
      blk d (j_bs j) (journal_start j + p) = commit_buf (Z.to_nat (j_bs j)) seq →
      h_magic (blk d (j_bs j) (journal_start j + (p + 1))) ≠ JBD2_MAGIC → log_end j d p.
Lemma log_end_same j d d' p : (∀ k, p ≤ k < p + 2 → k ≤ journal_len j → blk d' (j_bs j) (journal_start j + k) = blk d (j_bs j) (journal_start j + k)) →
  p ≤ journal_len j → log_end j d p → log_end j d' p.
Proof.
  intros H Hp [Hm|seq Hs Hl Hc Hm]; [apply log_cut; by rewrite H by lia|]. apply (log_committed _ _ _ seq); rewrite ?H by lia; done.
Qed.
Lemma scan_end j d p tl n fuel : log_ok j d → head j < p < journal_len j → 1 ≤ tl < 2 ^ 32 → log_end j d p → (2 ≤ fuel)%nat →
  ∃ p' tl', recover_loop fuel j (mkScan p d tl n) = Some (mkScan p' d tl' n) ∧ 1 ≤ tl' < 2 ^ 32.
Proof.
  intros Hok Hp Ht He Hf. pose proof (lo_head _ _ Hok). destruct fuel as [|[|fuel]]; [lia|lia|]. cbn [recover_loop]. destruct He as [Hm|seq Hs Hl Hc Hm].
  - rewrite round_end by (done || (cbn; lia)). cbn. eauto.
  - rewrite (round_commit j (mkScan p d tl n) seq) by (done || (unfold in_range; cbn; lia)). cbn [mbind option_bind s_pos s_disk s_replayed s_tail].
    rewrite round_end by (done || (cbn; lia)). cbn [mbind option_bind]. do 2 eexists. split; [done|]. destruct (tl <=? seq); [rewrite (wadd_small 32)|]; lia.
Qed.

(** C28. Recovery of a log whose head is a descriptor copies the blocks that
    follow it to the places the descriptor names, and changes nothing else but
    the superblock of the journal.  It does so when the commit block follows
    the data and also when it does not: a transaction that the crash has cut
    off before its commit block is replayed like one that was committed.  The
    places are different blocks outside the journal, the log does not wrap, the
    transaction is the last one of the log and its commit block, if there is
    one, does not have the last sequence number. *)
Theorem recover_replays j d seq bl fuel : log_ok j d → bl ≠ [] → NoDup bl → Forall (fs_block_ok j d) bl →
  (28 + 12 * length bl ≤ Z.to_nat (j_bs j))%nat → head j + 1 + Z.of_nat (length bl) < journal_len j →
  blk d (j_bs j) (journal_start j + head j) = descriptor (Z.to_nat (j_bs j)) seq bl →
  log_end j d (head j + 1 + Z.of_nat (length bl)) → (3 ≤ fuel)%nat →
  ∃ j' d', recover fuel j d = Some (j', d') ∧
    (∀ i b, bl !! i = Some b → blk d' (j_bs j) b = blk d (j_bs j) (journal_start j + (head j + 1) + Z.of_nat i)) ∧
    (∀ a n, apart (j_bs j) (journal_start j :: bl) a n → slice d' a n = slice d a n).
Proof.
  intros Hok Hne Hnd Hbl Hfit Hlen Hdesc Hend Hf. pose proof Hok as [? ? ? ? ? Hfd Hus]. set (bs := Z.to_nat (j_bs j)) in *.
  destruct (fit_tags_all bs bl 12 true) as (T1 & T2 & T3); [unfold TAG_SZ; lia|]. set (tags := fit_tags bs 12 true bl) in *.
  assert (parse_descriptor (descriptor bs seq bl) = tags) as Hparse.
  { unfold parse_descriptor, descriptor. rewrite length_put_tags, tags_put; try done; rewrite ?length_app, ?length_block_header, ?length_replicate; try (unfold TAG_SZ; lia).
    eapply Forall_impl; [exact Hbl|]. by intros b (? & _). }
  destruct (replay_spec j tags (head j + 1) 0 d Hok) as (d1 & Hr & Hl & Hfr & Hb); try lia.
  { apply Forall_forall. intros t Hin. split; [|by rewrite Forall_forall in T3; apply T3]. rewrite Forall_forall in Hbl. apply Hbl. rewrite <- T2. by apply list_elem_of_fmap_2. }
  { by rewrite T2. }
  rewrite T1 in Hr. rewrite T2 in Hfr. assert (0 < length bl)%nat as Hn0 by (destruct bl; [done|cbn; lia]).
  assert (log_ok j d1) as Hok1 by (split; rewrite ?Hl; done).
  assert (∀ k, journal_start j ≤ k < journal_start j + 1 + journal_len j → k ∉ bl) as Hkbl.
  { intros k Hk Hin. rewrite Forall_forall in Hbl. destruct (Hbl _ Hin) as (_ & _ & Hj). lia. }
  set (s1 := mkScan (head j + 1 + Z.of_nat (length bl)) d1 (tail_seq j) (0 + Z.of_nat (length bl))).
  assert (recover_round j (mkScan (head j) d (tail_seq j) 0) = Some (inl s1)) as R1.
  { unfold recover_round. rewrite round_read by (done || (cbn; lia)). cbn [s_pos s_disk s_replayed s_tail]. rewrite Hdesc. destruct (descriptor_fields bs seq bl) as [-> ->]; [lia|].
    rewrite (proj2 (Z.ltb_ge _ _)) by lia. rewrite !Z.eqb_refl. cbn [negb]. rewrite (proj2 (Z.eqb_neq (journal_len j) 0)), Hparse by lia.
    rewrite (wadd_small 32), Z.mod_small, Hr by lia. cbn [mbind option_bind s_pos]. by rewrite (proj2 (Z.eqb_neq _ _)) by lia. }
  destruct fuel as [|fuel]; [lia|]. destruct (scan_end j d1 (head j + 1 + Z.of_nat (length bl)) (tail_seq j) (0 + Z.of_nat (length bl)) fuel) as (p' & tl & R2 & Htl); [done|lia|lia| |lia|].
  { apply (log_end_same j d); [|lia|done]. intros k Hk Hkl. apply (blk_apart d d1 _ bl); [lia|lia|done|]. apply Hkbl. lia. }
  set (j' := set_tail tl j). set (d' := splice d1 (Z.to_nat (journal_start j * j_bs j)) (journal_superblock j')).
  assert (∀ a n, Z.of_nat a + Z.of_nat n ≤ journal_start j * j_bs j ∨ (journal_start j + 1) * j_bs j ≤ Z.of_nat a → slice d' a n = slice d1 a n) as Hd'.
  { intros a n Ha. apply splice_blk_other; [done|lia|refine (length_journal_superblock j' _); cbn; lia|rewrite Hl; nia|done]. }
  exists j', d'. split; [|split].
  - unfold recover. cbn [recover_loop]. rewrite R1. cbn [mbind option_bind]. unfold s1. rewrite R2. cbn [mbind option_bind s_tail s_disk s_replayed].
    rewrite (proj2 (Z.ltb_lt _ _)) by lia. fold j'. rewrite (flush_ok j' d1); [done|]. by destruct Hok1; split.
  - intros i b Hi. assert (b ∈ bl) as Hin by (by eapply list_elem_of_lookup_2). rewrite Forall_forall in Hbl. destruct (Hbl _ Hin) as ([? ?] & _ & Hj).
    rewrite (blk_apart d1 d' _ [journal_start j]); [|lia|lia|intros a n [Ha _]%apart_weaken; by apply Hd'|rewrite list_elem_of_singleton; lia].
    assert (map fst tags !! i = Some b) as Hi' by (by rewrite T2). apply list_lookup_fmap_Some in Hi' as (t & -> & Hti). exact (Hb i _ Hti).
  - intros a n [Ha1 Ha2]%apart_weaken. rewrite Hd' by done. by apply Hfr.
Qed.

(** A transaction that only frees blocks has a descriptor without tags, which
    reads as 36 tags for block 0. *)
Example revoke_only_tags : parse_descriptor (descriptor 1024 1 []) = replicate 36 (0, 0).
Proof. vm_compute. reflexivity. Qed.
(** A block that starts with the magic number does not come back: the flag that
    would restore its first bytes is never set. *)
Example escape_not_restored : take 4 (escaped 1024 (be_bytes 4 JBD2_MAGIC)) = [0; 0; 0; 0] ∧
  Forall (λ t, Z.land t.2 JBD2_FLAG_ESCAPE = 0) (parse_descriptor (descriptor 1024 1 [7])).
Proof. split; [vm_compute; reflexivity|]. vm_compute. repeat constructor. Qed.

(** ** A disk of 16 blocks, the journal in the blocks from 4 on *)
Definition demo_disk : list Z := replicate 16384 0.
Definition demo_txn : Transaction := mkTxn 1 [(2, replicate 1024 7)] [] false.
Definition demo_journal (h : Z) (t : option Transaction) : Journal := mkJournal 4 6 1024 2 h 1 t ∅.
Definition demo_crashed : list Z := splice (splice demo_disk 5120 (descriptor 1024 1 [2])) 6144 (replicate 1024 7).
Definition demo_committed : list Z := splice demo_crashed 7168 (commit_buf 1024 1).
Lemma demo_log_ok h t d : Z.of_nat (length d) = 16384 → 0 ≤ h < 6 → log_ok (demo_journal h t) d.
Proof. intros Hd Hh. split; cbn [demo_journal journal_start journal_len j_bs head tail_seq]; rewrite ?Hd; lia. Qed.

Lemma descriptor_roundtrip_witness : map fst (parse_descriptor (descriptor 1024 1 [5; 9])) = [5; 9].
Proof.
  rewrite (descriptor_roundtrip 1024 1 [5; 9]); [reflexivity|lia|done|repeat constructor; vm_compute; lia || discriminate].
Defined.
Lemma commit_lost_witness : ∃ j' d', commit (demo_journal 0 (Some demo_txn)) demo_disk = Some (j', d', Ok tt) ∧ blk d' 1024 2 = replicate 1024 0.
Proof.
  destruct (commit_lost (demo_journal 0 (Some demo_txn)) demo_disk demo_txn 2) as (j' & d' & Hc & Hfr & _);
    [apply demo_log_ok; [vm_compute; reflexivity|lia]|reflexivity|by intros [? _]|cbn; lia|vm_compute; reflexivity|vm_compute; discriminate|lia|].
  exists j', d'. split; [exact Hc|]. unfold blk. rewrite Hfr by (left; vm_compute; discriminate). vm_compute. reflexivity.
Defined.
Lemma recover_replays_witness :
  (∃ j' d', recover 3 (demo_journal 1 None) demo_crashed = Some (j', d') ∧ blk d' 1024 2 = replicate 1024 7) ∧
  (∃ j' d', recover 3 (demo_journal 1 None) demo_committed = Some (j', d') ∧ blk d' 1024 2 = replicate 1024 7).
Proof.
  split.
  - destruct (recover_replays (demo_journal 1 None) demo_crashed 1 [2] 3) as (j' & d' & Hr & Hb & _);
      [apply demo_log_ok; [vm_compute; reflexivity|lia]|done|apply NoDup_singleton|repeat constructor; vm_compute; try discriminate; left; discriminate
      |vm_compute; lia|vm_compute; reflexivity|vm_compute; reflexivity|apply log_cut; vm_compute; discriminate|lia|].
    exists j', d'. split; [exact Hr|]. etransitivity; [exact (Hb 0%nat 2 eq_refl)|]. vm_compute. reflexivity.
  - destruct (recover_replays (demo_journal 1 None) demo_committed 1 [2] 3) as (j' & d' & Hr & Hb & _);
      [apply demo_log_ok; [vm_compute; reflexivity|lia]|done|apply NoDup_singleton|repeat constructor; vm_compute; try discriminate; left; discriminate
      |vm_compute; lia|vm_compute; reflexivity|vm_compute; reflexivity|apply (log_committed _ _ _ 1); [lia|reflexivity|vm_compute; reflexivity|vm_compute; discriminate]|lia|].
    exists j', d'. split; [exact Hr|]. etransitivity; [exact (Hb 0%nat 2 eq_refl)|]. vm_compute. reflexivity.
Defined.
