(* ===== verification/Ext4.v ===== *)
(** * ext4

    Models kernel/src/fs/ext4/mod.rs: the file system in the bytes of a disk
    image.  The on-disk structures are lists of bytes with their fields at
    the offsets of the source's structs; operations run in [Ext4M]: what was
    written stays written when a later step fails, and [None] is a panic,
    memory used beyond its end, or a call that does not return.  The journal is
    that of Disk.

    An extent tree is followed as often as the disk has bytes: a longer
    descent visits a block twice and never ends.  Loops over the bytes of a
    request or the blocks of a directory get a round for each. *)
From S2P Require Import Prelude Bytes Utf8 Tmpfs Disk.

Definition EIO : Z := 5.
Definition ENOSPC : Z := 28.
Definition EXT4_MAGIC : Z := 0xEF53.
Definition EXT4_FEATURE_INCOMPAT_EXTENTS : Z := 0x0040.
Definition EXT4_FEATURE_INCOMPAT_64BIT : Z := 0x0080.
Definition EXT4_FEATURE_RO_COMPAT_METADATA_CSUM : Z := 0x0400.
Definition EXT4_FEATURE_COMPAT_HAS_JOURNAL : Z := 0x0004.
Definition EXT4_INODE_FLAG_EXTENTS : Z := 0x00080000.
Definition EXT4_EXT_MAGIC : Z := 0xF30A.
Definition EXT4_FT_UNKNOWN : Z := 0.
Definition EXT4_FT_REG_FILE : Z := 1.
Definition EXT4_FT_DIR : Z := 2.
Definition EXT4_FT_CHRDEV : Z := 3.
Definition EXT4_FT_BLKDEV : Z := 4.
Definition EXT4_FT_FIFO : Z := 5.
Definition EXT4_FT_SOCK : Z := 6.
Definition EXT4_FT_SYMLINK : Z := 7.

(** ** The structures on disk *)
Definition put (raw : list Z) (off n : nat) (v : Z) : list Z := splice raw off (le_bytes n v).
Definition hilo (hi lo : Z) : Z := Z.lor (Z.shiftl hi 32) lo.

(** The superblock, 1024 bytes. *)
Definition s_inodes_count (s : list Z) : Z := word s 0 4.
Definition s_blocks_count_lo (s : list Z) : Z := word s 4 4.
Definition s_free_blocks_count_lo (s : list Z) : Z := word s 12 4.
Definition s_free_inodes_count (s : list Z) : Z := word s 16 4.
Definition s_first_data_block (s : list Z) : Z := word s 20 4.
Definition s_log_block_size (s : list Z) : Z := word s 24 4.
Definition s_blocks_per_group (s : list Z) : Z := word s 32 4.
Definition s_inodes_per_group (s : list Z) : Z := word s 40 4.
Definition s_magic (s : list Z) : Z := word s 56 2.
Definition s_rev_level (s : list Z) : Z := word s 76 4.
Definition s_inode_size (s : list Z) : Z := word s 88 2.
Definition s_feature_compat (s : list Z) : Z := word s 92 4.
Definition s_feature_incompat (s : list Z) : Z := word s 96 4.
Definition s_feature_ro_compat (s : list Z) : Z := word s 100 4.
Definition s_uuid (s : list Z) : list Z := slice s 104 16.
Definition s_journal_inum (s : list Z) : Z := word s 224 4.
Definition s_desc_size (s : list Z) : Z := word s 254 2.
Definition s_blocks_count_hi (s : list Z) : Z := word s 336 4.
Definition s_free_blocks_count_hi (s : list Z) : Z := word s 344 4.

(** A group descriptor, 64 bytes. *)
Definition bg_block_bitmap (g : list Z) : Z := hilo (word g 32 4) (word g 0 4).
Definition bg_inode_bitmap (g : list Z) : Z := hilo (word g 36 4) (word g 4 4).
Definition bg_inode_table (g : list Z) : Z := hilo (word g 40 4) (word g 8 4).
Definition bg_free_blocks_count_lo (g : list Z) : Z := word g 12 2.
Definition bg_free_inodes_count_lo (g : list Z) : Z := word g 14 2.
Definition bg_used_dirs_count_lo (g : list Z) : Z := word g 16 2.
Definition bg_free_blocks_count_hi (g : list Z) : Z := word g 44 2.

(** An inode, 160 bytes. *)
Definition INODE_SZ : nat := 160.
Definition x_mode (v : list Z) : Z := word v 0 2.
Definition x_uid (v : list Z) : Z := word v 2 2.
Definition x_size_lo (v : list Z) : Z := word v 4 4.
Definition x_atime (v : list Z) : Z := word v 8 4.
Definition x_ctime (v : list Z) : Z := word v 12 4.
Definition x_mtime (v : list Z) : Z := word v 16 4.
Definition x_gid (v : list Z) : Z := word v 24 2.
Definition x_links_count (v : list Z) : Z := word v 26 2.
Definition x_flags (v : list Z) : Z := word v 32 4.
Definition x_block (v : list Z) : list Z := slice v 40 60.
Definition x_size_hi (v : list Z) : Z := word v 108 4.
Definition x_size (v : list Z) : Z := hilo (x_size_hi v) (x_size_lo v).
Definition set_size (size : Z) (v : list Z) : list Z := put (put v 4 4 (wrap 32 size)) 108 4 (wrap 32 (Z.shiftr size 32)).
Definition set_mtime (now : Z) (v : list Z) : list Z := put v 16 4 (wrap 32 now).
Definition set_block (blk : list Z) (v : list Z) : list Z := splice v 40 blk.
Definition has_extent_tree (v : list Z) : bool := negb (Z.land (x_flags v) EXT4_INODE_FLAG_EXTENTS =? 0).
(** The fields of the literals in [create], [mkdir] and [symlink]. *)
Definition new_inode (mode uid gid size links flags now : Z) (blk : list Z) : list Z :=
  le_bytes 2 mode ++ le_bytes 2 (wrap 16 uid) ++ le_bytes 4 size ++ le_bytes 4 now ++ le_bytes 4 now ++ le_bytes 4 now ++ le_bytes 4 0
  ++ le_bytes 2 (wrap 16 gid) ++ le_bytes 2 links ++ le_bytes 4 0 ++ le_bytes 4 flags ++ le_bytes 4 1 ++ blk ++ le_bytes 4 1
  ++ replicate 24 0 ++ le_bytes 2 28 ++ replicate 14 0 ++ le_bytes 4 now ++ replicate 12 0.

(** The header and the entries of an extent node. *)
Definition eh_magic (n : list Z) : Z := word n 0 2.
Definition eh_entries (n : list Z) : Z := word n 2 2.
Definition eh_max (n : list Z) : Z := word n 4 2.
Definition eh_depth (n : list Z) : Z := word n 6 2.
Definition ext_off (i : nat) : nat := (12 + i * 12)%nat.
Definition ee_block (n : list Z) (i : nat) : Z := word n (ext_off i) 4.
Definition ee_len (n : list Z) (i : nat) : Z := word n (ext_off i + 4) 2.
Definition ee_length (n : list Z) (i : nat) : Z := Z.land (ee_len n i) 0x7FFF.
Definition ee_start (n : list Z) (i : nat) : Z := hilo (word n (ext_off i + 6) 2) (word n (ext_off i + 8) 4).
Definition ei_block (n : list Z) (i : nat) : Z := word n (ext_off i) 4.
Definition ei_leaf (n : list Z) (i : nat) : Z := hilo (word n (ext_off i + 8) 2) (word n (ext_off i + 4) 4).
Definition extent_header : list Z := le_bytes 2 EXT4_EXT_MAGIC ++ le_bytes 2 0 ++ le_bytes 2 4 ++ le_bytes 2 0 ++ le_bytes 4 0.
Definition empty_root : list Z := extent_header ++ replicate 48 0.

(** ** The file system *)
Record Ext4Fs := mkFs {
  disk : list Z;
  sb : list Z;
  block_size : Z;
  inodes_per_group : Z;
  blocks_per_group : Z;
  num_groups : Z;
  inode_size : Z;
  desc_size : Z;
  group_desc_off : Z;
  has_64bit : bool;
  has_extents : bool;
  has_journal : bool;
  has_meta_csum : bool;
  checksum_seed : Z;
  dev_id : Z;
  journal : option Journal;
}.
Definition on_disk (d : list Z) (j : option Journal) (f : Ext4Fs) : Ext4Fs :=
  mkFs d (sb f) (block_size f) (inodes_per_group f) (blocks_per_group f) (num_groups f) (inode_size f) (desc_size f) (group_desc_off f)
    (has_64bit f) (has_extents f) (has_journal f) (has_meta_csum f) (checksum_seed f) (dev_id f) j.

Definition test (flags bit : Z) : bool := negb (Z.land flags bit =? 0).
Definition ext4_new (d : list Z) (dev : Z) : option (option Ext4Fs) :=
  match read_bytes d 1024 (Z.to_nat 1024) with
  | None => None
  | Some (Err _) => Some None
  | Some (Ok s) =>
      if negb (s_magic s =? EXT4_MAGIC) then Some None
      else
        let bs := wrap 64 (Z.shiftl 1024 (Z.land (s_log_block_size s) 63)) in
        let is64 := test (s_feature_incompat s) EXT4_FEATURE_INCOMPAT_64BIT in
        let csum := test (s_feature_ro_compat s) EXT4_FEATURE_RO_COMPAT_METADATA_CSUM in
        let bpg := s_blocks_per_group s in
        if bpg =? 0 then None
        else
          Some (Some (mkFs d s bs (s_inodes_per_group s) bpg
            (wrap 32 (wadd 64 (hilo (s_blocks_count_hi s) (s_blocks_count_lo s)) (bpg - 1) / bpg))
            (if 1 <=? s_rev_level s then s_inode_size s else 128)
            (if is64 then Z.max (s_desc_size s) 64 else 32)
            (wmul 64 (if bs =? 1024 then 2 else 1) bs)
            is64 (test (s_feature_incompat s) EXT4_FEATURE_INCOMPAT_EXTENTS)
            (test (s_feature_compat s) EXT4_FEATURE_COMPAT_HAS_JOURNAL) csum
            (if csum then crc32c 0 (s_uuid s) else 0) dev None))
  end.

Definition Ext4M (A : Type) : Type := Ext4Fs → option (Ext4Fs * result Z A).
#[export] Instance ext4_ret : MRet Ext4M := λ A a f, Some (f, Ok a).
#[export] Instance ext4_bind : MBind Ext4M := λ A B k m f,
  match m f with
  | Some (f, Ok a) => k a f
  | Some (f, Err e) => Some (f, Err e)
  | None => None
  end.
Definition fail {A} (e : Z) : Ext4M A := λ f, Some (f, Err e).
Definition panic {A} : Ext4M A := λ _, None.
Definition get : Ext4M Ext4Fs := λ f, Some (f, Ok f).
(** The result of a call as a value. *)
Definition attempt {A} (m : Ext4M A) : Ext4M (result Z A) := λ f, match m f with Some (f, r) => Some (f, Ok r) | None => None end.
(** Division as the machine does it. *)
Definition udiv (a b : Z) : Ext4M Z := if b =? 0 then panic else mret (a / b).
Definition umod (a b : Z) : Ext4M Z := if b =? 0 then panic else mret (a mod b).

(** ** Reading and writing *)
Definition read_bytes_at (offset : Z) (n : nat) : Ext4M (list Z) := λ f,
  match read_bytes (disk f) offset n with
  | None => None
  | Some (Ok b) => Some (f, Ok b)
  | Some (Err _) => Some (f, Err EIO)
  end.
Definition write_bytes_at (offset : Z) (data : list Z) : Ext4M unit := λ f,
  match write_bytes offset data (disk f) with
  | None => None
  | Some (d, Ok _) => Some (on_disk d (journal f) f, Ok tt)
  | Some (d, Err _) => Some (on_disk d (journal f) f, Err EIO)
  end.
Definition bsz (f : Ext4Fs) : nat := Z.to_nat (block_size f).
Definition read_block (block : Z) : Ext4M (list Z) := λ f, read_bytes_at (wmul 64 block (block_size f)) (bsz f) f.
(** Through the journal while a transaction is open. *)
Definition write_block (block : Z) (data : list Z) : Ext4M unit := λ f,
  if (length data <? bsz f)%nat then None
  else
    let data := take (bsz f) data in
    match journal f with
    | Some j =>
        if in_transaction j then '(j, d) ← jwrite block data j (disk f); Some (on_disk d (Some j) f, Ok tt)
        else write_bytes_at (wmul 64 block (block_size f)) data f
    | None => write_bytes_at (wmul 64 block (block_size f)) data f
    end.
Definition zeros (f : Ext4Fs) : list Z := replicate (bsz f) 0.

Definition desc_off (f : Ext4Fs) (group : Z) : Z := wadd 64 (group_desc_off f) (group * desc_size f).
Definition read_group_desc (group : Z) : Ext4M (list Z) :=
  f ← get;
  if 64 <? desc_size f then panic
  else b ← read_bytes_at (desc_off f group) (Z.to_nat (desc_size f)); mret (b ++ replicate (64 - length b) 0).
Definition write_group_desc (group : Z) (desc : list Z) : Ext4M unit :=
  f ← get; write_bytes_at (desc_off f group) (take (Z.to_nat (desc_size f)) desc).
Definition group_block_bitmap (group : Z) : Ext4M Z := d ← read_group_desc group; mret (bg_block_bitmap d).
Definition group_inode_bitmap (group : Z) : Ext4M Z := d ← read_group_desc group; mret (bg_inode_bitmap d).
Definition group_inode_table (group : Z) : Ext4M Z := d ← read_group_desc group; mret (bg_inode_table d).

(** ** Inodes *)
Definition inode_location (ino : Z) : Ext4M Z :=
  if ino =? 0 then fail EINVAL
  else
    f ← get;
    group ← udiv (ino - 1) (inodes_per_group f);
    idx ← umod (ino - 1) (inodes_per_group f);
    table ← group_inode_table group;
    mret (wadd 64 (wmul 64 table (block_size f)) (idx * inode_size f)).
(** The struct has 160 bytes: of a shorter inode the rest is whatever follows
    the buffer.  The fields there are not used, and not written back. *)
Definition read_inode (ino : Z) : Ext4M (list Z) :=
  f ← get; off ← inode_location ino;
  b ← read_bytes_at off (Z.to_nat (inode_size f));
  if inode_size f <? 128 then panic else mret (take INODE_SZ (b ++ replicate (INODE_SZ - length b) 0)).
Definition write_inode (ino : Z) (v : list Z) : Ext4M unit :=
  f ← get; off ← inode_location ino;
  let sz := Z.to_nat (inode_size f) in
  write_bytes_at off (take sz (v ++ replicate (sz - length v) 0)).

(** ** Extent trees *)
Fixpoint scan_leaf (n i : nat) (data : list Z) (logical : Z) : option Z :=
  match n with
  | O => None
  | S n =>
      if (length data <? ext_off i + 12)%nat then None
      else if (ee_block data i <=? logical) && (logical <? ee_block data i + ee_length data i) then Some (ee_start data i + (logical - ee_block data i))
      else scan_leaf n (S i) data logical
  end.
Fixpoint scan_index (n i : nat) (data : list Z) (logical : Z) (best : option nat) : option nat :=
  match n with
  | O => best
  | S n =>
      if (length data <? ext_off i + 12)%nat then best
      else scan_index n (S i) data logical (if ei_block data i <=? logical then Some i else best)
  end.
Fixpoint extent_search (fuel : nat) (data : list Z) (logical : Z) : Ext4M (option Z) :=
  match fuel with
  | O => panic
  | S fuel =>
      if (length data <? 12)%nat then fail EIO
      else if negb (eh_magic data =? EXT4_EXT_MAGIC) then fail EIO
      else
        let n := Z.to_nat (eh_entries data) in
        if eh_depth data =? 0 then mret (scan_leaf n 0 data logical)
        else
          match scan_index n 0 data logical None with
          | None => mret None
          | Some i => buf ← read_block (ei_leaf data i); extent_search fuel buf logical
          end
  end.
Definition extent_get_block (v : list Z) (logical : Z) : Ext4M (option Z) := λ f, extent_search (S (length (disk f))) (x_block v) logical f.

(** The root of an inode with one more block; five entries and more lie
    beyond it. *)
Definition extend_last (root : list Z) (n : nat) (logical phys : Z) : option (list Z) :=
  match n with
  | O => None
  | S i =>
      if (ee_block root i + ee_length root i =? logical) && (ee_start root i + ee_length root i =? phys) && (ee_length root i <? 0x7FFF)
      then Some (put root (ext_off i + 4) 2 (wadd 16 (ee_len root i) 1)) else None
  end.
Definition new_extent (logical phys : Z) : list Z :=
  le_bytes 4 (wrap 32 logical) ++ le_bytes 2 1 ++ le_bytes 2 (wrap 16 (Z.shiftr phys 32)) ++ le_bytes 4 (wrap 32 phys).
Definition root_insert (root : list Z) (logical phys : Z) : option (result Z (list Z)) :=
  let root := if negb (eh_magic root =? EXT4_EXT_MAGIC) then splice root 0 extent_header else root in
  if negb (eh_depth root =? 0) then Some (Err ENOSPC)
  else
    let n := Z.to_nat (eh_entries root) in
    if (4 <? n)%nat then None
    else match extend_last root n logical phys with
    | Some root => Some (Ok root)
    | None =>
        if eh_max root <=? eh_entries root then Some (Err ENOSPC)
        else if (60 <? ext_off n + 12)%nat then Some (Err ENOSPC)
        else Some (Ok (put (splice root (ext_off n) (new_extent logical phys)) 2 2 (wadd 16 (eh_entries root) 1)))
    end.
Definition extent_insert (v : list Z) (logical phys : Z) : Ext4M (list Z) :=
  match root_insert (x_block v) logical phys with
  | None => panic
  | Some (Err e) => fail e
  | Some (Ok root) => mret (set_block root v)
  end.

(** ** Allocation *)

(** The first clear bit, among the first [limit] bits of the bitmap. *)
Fixpoint clear_bit (n : nat) (b : Z) (bit : Z) : option Z :=
  match n with
  | O => None
  | S n => if Z.land b (Z.shiftl 1 bit) =? 0 then Some bit else clear_bit n b (bit + 1)
  end.
Fixpoint find_zero (bitmap : list Z) (byte : nat) : option (nat * Z) :=
  match bitmap with
  | [] => None
  | b :: r => if b =? 0xFF then find_zero r (S byte) else match clear_bit 8 b 0 with Some bit => Some (byte, bit) | None => find_zero r (S byte) end
  end.
Definition set_bit (bitmap : list Z) (byte : nat) (bit : Z) : list Z :=
  <[byte := Z.lor (nth byte bitmap 0) (Z.shiftl 1 bit)]> bitmap.
Definition reset_bit (bitmap : list Z) (byte : nat) (bit : Z) : list Z :=
  <[byte := Z.land (nth byte bitmap 0) (wnot 8 (Z.shiftl 1 bit))]> bitmap.

(** The superblock in memory keeps the count of the mount. *)
Definition write_superblock : Ext4M unit := λ f,
  '(d, _) ← write_bytes 1024 (put (sb f) 12 4 (sat_sub (s_free_blocks_count_lo (sb f)) 1)) (disk f); Some (on_disk d (journal f) f, Ok tt).
Definition take_block (group bitmap_block free : Z) (desc bitmap : list Z) (byte : nat) (bit : Z) : Ext4M Z :=
  _ ← write_block bitmap_block (set_bit bitmap byte bit);
  _ ← write_group_desc group (put desc 12 2 (wrap 16 (free - 1)));
  _ ← write_superblock;
  f ← get;
  mret (wadd 64 (wadd 64 (group * blocks_per_group f) (Z.of_nat byte * 8 + bit)) (s_first_data_block (sb f))).
Fixpoint group_alloc (n : nat) (group : Z) : Ext4M Z :=
  match n with
  | O => fail ENOSPC
  | S n =>
      desc ← read_group_desc group;
      let free := Z.lor (bg_free_blocks_count_lo desc) (Z.shiftl (bg_free_blocks_count_hi desc) 16) in
      if free =? 0 then group_alloc n (group + 1)
      else
        bitmap_block ← group_block_bitmap group;
        bitmap ← read_block bitmap_block;
        match find_zero bitmap 0 with
        | None => group_alloc n (group + 1)
        | Some (byte, bit) => take_block group bitmap_block free desc bitmap byte bit
        end
  end.
Definition alloc_block : Ext4M Z := f ← get; group_alloc (Z.to_nat (num_groups f)) 0.
(** The counts are left as they are. *)
Definition free_block (block : Z) : Ext4M unit :=
  f ← get;
  let k := wsub 64 block (s_first_data_block (sb f)) in
  let bit := k mod blocks_per_group f in
  bitmap_block ← group_block_bitmap (wrap 32 (k / blocks_per_group f));
  bitmap ← read_block bitmap_block;
  let byte := Z.to_nat (bit / 8) in
  if (length bitmap <=? byte)%nat then panic else write_block bitmap_block (reset_bit bitmap byte (bit mod 8)).

Definition extent_alloc_block (v : list Z) (logical : Z) : Ext4M (list Z * Z) :=
  phys ← alloc_block;
  f ← get;
  _ ← write_block phys (zeros f);
  v ← extent_insert v logical phys;
  mret (v, phys).

(** The search for an inode reads [n] bytes; a bitmap that is shorter panics. *)
Fixpoint find_inode (n : nat) (bitmap : list Z) (byte max : nat) : option (option (nat * Z)) :=
  match n with
  | O => Some None
  | S n =>
      match bitmap with
      | [] => None
      | b :: r =>
          if b =? 0xFF then find_inode n r (S byte) max
          else match clear_bit (Nat.min 8 (max - byte * 8)) b 0 with Some bit => Some (Some (byte, bit)) | None => find_inode n r (S byte) max end
      end
  end.
Definition take_inode (is_dir : bool) (group bitmap_block : Z) (desc bitmap : list Z) (byte : nat) (bit : Z) : Ext4M Z :=
  _ ← write_block bitmap_block (set_bit bitmap byte bit);
  let desc := put desc 14 2 (sat_sub (bg_free_inodes_count_lo desc) 1) in
  let desc := if is_dir then put desc 16 2 (wadd 16 (bg_used_dirs_count_lo desc) 1) else desc in
  _ ← write_group_desc group desc;
  f ← get;
  mret (wrap 32 (group * inodes_per_group f + (Z.of_nat byte * 8 + bit) + 1)).
Fixpoint alloc_inode_from (n : nat) (group : Z) (is_dir : bool) : Ext4M Z :=
  match n with
  | O => fail ENOSPC
  | S n =>
      desc ← read_group_desc group;
      if bg_free_inodes_count_lo desc =? 0 then alloc_inode_from n (group + 1) is_dir
      else
        bitmap_block ← group_inode_bitmap group;
        bitmap ← read_block bitmap_block;
        f ← get;
        let max := Z.to_nat (inodes_per_group f) in
        match find_inode ((max + 7) / 8) bitmap 0 max with
        | None => panic
        | Some None => alloc_inode_from n (group + 1) is_dir
        | Some (Some (byte, bit)) => take_inode is_dir group bitmap_block desc bitmap byte bit
        end
  end.
Definition alloc_inode (is_dir : bool) : Ext4M Z := f ← get; alloc_inode_from (Z.to_nat (num_groups f)) 0 is_dir.
Definition free_inode (ino : Z) : Ext4M unit :=
  f ← get;
  let k := wsub 32 ino 1 in
  group ← udiv k (inodes_per_group f);
  idx ← umod k (inodes_per_group f);
  bitmap_block ← group_inode_bitmap group;
  bitmap ← read_block bitmap_block;
  let byte := Z.to_nat (idx / 8) in
  if (length bitmap <=? byte)%nat then panic
  else
    _ ← write_block bitmap_block (reset_bit bitmap byte (idx mod 8));
    desc ← read_group_desc group;
    write_group_desc group (put desc 14 2 (wadd 16 (bg_free_inodes_count_lo desc) 1)).

(** ** Block lists of the old kind *)
Definition i_ptr (v : list Z) (i : nat) : Z := word v (40 + 4 * i) 4.
Definition set_ptr (v : list Z) (i : nat) (p : Z) : list Z := put v (40 + 4 * i) 4 (wrap 32 p).
Definition nonzero (p : Z) : option Z := if p =? 0 then None else Some p.
Definition ptr_off (f : Ext4Fs) (block idx : Z) : Z := wadd 64 (wmul 64 block (block_size f)) (idx * 4).
Definition read_indirect_ptr (block idx : Z) : Ext4M (option Z) :=
  f ← get; b ← read_bytes_at (ptr_off f block idx) 4; mret (nonzero (le_value b)).
Definition write_indirect_ptr (block idx phys : Z) : Ext4M unit :=
  f ← get; write_bytes_at (ptr_off f block idx) (le_bytes 4 (wrap 32 phys)).
Definition indirect_get_block (v : list Z) (logical : Z) : Ext4M (option Z) :=
  f ← get;
  let ppb := block_size f / 4 in
  if logical <? 12 then mret (nonzero (i_ptr v (Z.to_nat logical)))
  else
    let logical := logical - 12 in
    if logical <? ppb then
      match nonzero (i_ptr v 12) with None => mret None | Some si => read_indirect_ptr si logical end
    else
      let logical := logical - ppb in
      if logical <? wmul 64 ppb ppb then
        match nonzero (i_ptr v 13) with
        | None => mret None
        | Some di =>
            first ← udiv logical ppb; second ← umod logical ppb;
            o ← read_indirect_ptr di first;
            match o with Some si => read_indirect_ptr si second | None => mret None end
        end
      else mret None.
Definition indirect_set_block (ino : Z) (v : list Z) (logical phys : Z) : Ext4M (list Z) :=
  f ← get;
  let ppb := block_size f / 4 in
  if logical <? 12 then
    let v := set_ptr v (Z.to_nat logical) phys in
    _ ← write_inode ino v; mret v
  else
    let logical := logical - 12 in
    if logical <? ppb then
      v ← (if i_ptr v 12 =? 0 then
             si ← alloc_block; _ ← write_block si (zeros f);
             let v := set_ptr v 12 si in
             _ ← write_inode ino v; mret v
           else mret v);
      _ ← write_indirect_ptr (i_ptr v 12) logical phys; mret v
    else fail ENOSPC.

Definition get_block (v : list Z) (logical : Z) : Ext4M (option Z) :=
  if has_extent_tree v then extent_get_block v logical else indirect_get_block v logical.
(** A new block for [logical]; the list is not zeroed on the old way. *)
Definition add_file_block (ino : Z) (v : list Z) (logical : Z) : Ext4M (list Z * Z) :=
  if has_extent_tree v then extent_alloc_block v logical
  else p ← alloc_block; v ← indirect_set_block ino v logical p; mret (v, p).

(** ** Contents of files *)
Fixpoint read_loop (fuel : nat) (v : list Z) (offset : Z) (to_read : nat) (acc : list Z) : Ext4M (list Z) :=
  match fuel with
  | O => panic
  | S fuel =>
      if (to_read <=? length acc)%nat then mret acc
      else
        f ← get;
        let abs := wadd 64 offset (Z.of_nat (length acc)) in
        log_blk ← udiv abs (block_size f);
        blk_off ← umod abs (block_size f);
        let n := Nat.min (bsz f - Z.to_nat blk_off) (to_read - length acc) in
        phys ← get_block v log_blk;
        part ← (match phys with
                | None => mret (replicate n 0)
                | Some pb => read_bytes_at (wadd 64 (wmul 64 pb (block_size f)) blk_off) n
                end);
        read_loop fuel v offset to_read (acc ++ part)
  end.
(** The bytes read, at most [len]. *)
Definition read_file (v : list Z) (len : nat) (offset : Z) : Ext4M (list Z) :=
  if x_size v <=? offset then mret []
  else let to_read := Z.to_nat (Z.min (Z.of_nat len) (x_size v - offset)) in read_loop (S to_read) v offset to_read [].

Fixpoint file_write_loop (fuel : nat) (ino : Z) (v : list Z) (offset : Z) (data : list Z) : Ext4M (list Z) :=
  match fuel with
  | O => panic
  | S fuel =>
      match data with
      | [] => mret v
      | _ =>
          f ← get;
          log_blk ← udiv offset (block_size f);
          blk_off ← umod offset (block_size f);
          let n := Nat.min (bsz f - Z.to_nat blk_off) (length data) in
          o ← get_block v log_blk;
          vp ← (match o with Some p => mret (v, p) | None => add_file_block ino v log_blk end);
          let '(v, phys) := vp in
          _ ← (if (blk_off =? 0) && (n =? bsz f)%nat then write_bytes_at (wadd 64 (wmul 64 phys (block_size f)) blk_off) (take n data)
               else b ← read_block phys; write_block phys (splice b (Z.to_nat blk_off) (take n data)));
          file_write_loop fuel ino v (wadd 64 offset (Z.of_nat n)) (drop n data)
      end
  end.
Definition write_file (now ino : Z) (v : list Z) (data : list Z) (offset : Z) : Ext4M (list Z * nat) :=
  v ← file_write_loop (S (length data)) ino v offset data;
  let v := set_mtime now (set_size (Z.max (wadd 64 offset (Z.of_nat (length data))) (x_size v)) v) in
  _ ← write_inode ino v; mret (v, length data).

(** Errors of single blocks are ignored. *)
Fixpoint free_blocks (n : nat) (v : list Z) (blk : Z) : Ext4M unit :=
  match n with
  | O => mret tt
  | S n =>
      r ← attempt (get_block v blk);
      _ ← (match r with Ok (Some phys) => _ ← attempt (free_block phys); mret tt | _ => mret tt end);
      free_blocks n v (blk + 1)
  end.
Definition blocks_for (size : Z) : Ext4M Z := f ← get; udiv (wsub 64 (wadd 64 size (block_size f)) 1) (block_size f).
(** The block list of the inode stays as it is. *)
Definition truncate_file (now ino : Z) (v : list Z) (size : Z) : Ext4M unit :=
  _ ← (if x_size v <? size then mret tt
       else new ← blocks_for size; old ← blocks_for (x_size v); free_blocks (Z.to_nat (old - new)) v new);
  write_inode ino (set_mtime now (set_size size v)).

(** ** Directories *)
Definition de_ino (b : list Z) (p : nat) : Z := word b p 4.
Definition de_rec_len (b : list Z) (p : nat) : nat := Z.to_nat (word b (p + 4) 2).
Definition de_name_len (b : list Z) (p : nat) : nat := Z.to_nat (nth (p + 6) b 0).
Definition de_type (b : list Z) (p : nat) : Z := nth (p + 7) b 0.
Definition round4 (n : nat) : nat := ((n + 3) / 4 * 4)%nat.
Definition RawEntry : Type := list Z * Z * Z.

Fixpoint block_entries (fuel : nat) (b : list Z) (p : nat) : list RawEntry :=
  match fuel with
  | O => []
  | S fuel =>
      if (length b <? p + 8)%nat then []
      else
        let r := de_rec_len b p in
        if (r <? 8)%nat || (length b <? p + r)%nat then []
        else
          let n := de_name_len b p in
          (if negb (de_ino b p =? 0) && (0 <? n)%nat && (p + 8 + n <=? length b)%nat then [(from_utf8_lossy (slice b (p + 8) n), de_ino b p, de_type b p)] else [])
          ++ block_entries fuel b (p + r)
  end.
(** Directories have a round for each of their blocks, and one at the end. *)
Fixpoint dir_loop (fuel : nat) (v : list Z) (pos : Z) : Ext4M (list RawEntry) :=
  match fuel with
  | O => panic
  | S fuel =>
      if x_size v <=? pos then mret []
      else
        f ← get;
        log_blk ← udiv pos (block_size f);
        blk_off ← umod pos (block_size f);
        o ← get_block v log_blk;
        match o with
        | None => dir_loop fuel v (wadd 64 pos (block_size f))
        | Some p =>
            b ← read_block p;
            rest ← dir_loop fuel v (wadd 64 pos (Z.min (block_size f - blk_off) (x_size v - pos)));
            mret (block_entries (length b) b (Z.to_nat blk_off) ++ rest)
        end
  end.
Definition dir_rounds (f : Ext4Fs) (v : list Z) : nat := (2 + Z.to_nat (x_size v / block_size f))%nat.
Definition dir_read_entries (v : list Z) : Ext4M (list RawEntry) := f ← get; dir_loop (dir_rounds f v) v 0.
Fixpoint find_raw (name : list Z) (l : list RawEntry) : option Z :=
  match l with
  | [] => None
  | (n, ino, _) :: r => if bool_decide (n = name) then Some ino else find_raw name r
  end.
Definition dir_lookup_ino (v : list Z) (name : list Z) : Ext4M Z :=
  l ← dir_read_entries v; match find_raw name l with Some ino => mret ino | None => fail ENOENT end.

(** An entry written at [p]; [None] where it does not fit into the block. *)
Definition put_entry (b : list Z) (p : nat) (ino rec : Z) (name : list Z) (ft : Z) : option (list Z) :=
  if (length b <? p + 8 + length name)%nat then None
  else Some (splice b p (le_bytes 4 ino ++ le_bytes 2 rec ++ [wrap 8 (Z.of_nat (length name)); ft] ++ name)).
(** The first record with enough space: its block with the entry added, which
    takes all the rest of the block. *)
Definition actual_len (b : list Z) (p : nat) : nat := if de_ino b p =? 0 then 0%nat else round4 (8 + de_name_len b p).
Fixpoint insert_entry (fuel : nat) (b : list Z) (p : nat) (ino : Z) (name : list Z) (ft : Z) : option (option (list Z)) :=
  match fuel with
  | O => Some None
  | S fuel =>
      if (length b <? p + 8)%nat then Some None
      else
        let r := de_rec_len b p in
        if (r <? 8)%nat then Some None
        else if Z.of_nat (round4 (8 + length name)) <=? wsub 64 (Z.of_nat r) (Z.of_nat (actual_len b p)) then
          let a := actual_len b p in
          let b := if (a =? 0)%nat then b else put b (p + 4) 2 (Z.of_nat a) in
          let p := (p + a)%nat in
          Some <$> put_entry b p ino (wrap 16 (Z.of_nat (length b) - Z.of_nat p)) name ft
        else insert_entry fuel b (p + r) ino name ft
  end.
Fixpoint dir_add_loop (fuel : nat) (v : list Z) (pos ino : Z) (name : list Z) (ft : Z) : Ext4M bool :=
  match fuel with
  | O => panic
  | S fuel =>
      if x_size v <=? pos then mret false
      else
        f ← get;
        log_blk ← udiv pos (block_size f);
        o ← get_block v log_blk;
        match o with
        | None => dir_add_loop fuel v (wadd 64 pos (block_size f)) ino name ft
        | Some p =>
            b ← read_block p;
            match insert_entry (length b) b 0 ino name ft with
            | None => panic
            | Some (Some b) => _ ← write_block p b; mret true
            | Some None => dir_add_loop fuel v (wadd 64 pos (block_size f)) ino name ft
            end
        end
  end.
Definition dir_add_entry (dir_ino : Z) (v : list Z) (ino : Z) (name : list Z) (ft : Z) : Ext4M unit :=
  f ← get;
  added ← dir_add_loop (dir_rounds f v) v 0 ino name ft;
  if added : bool then mret tt
  else
    log_blk ← udiv (x_size v) (block_size f);
    vp ← add_file_block dir_ino v log_blk;
    let '(v', new_blk) := vp in
    match put_entry (zeros f) 0 ino (wrap 16 (block_size f)) name ft with
    | None => panic
    | Some b =>
        _ ← write_block new_blk b;
        write_inode dir_ino (set_size (wadd 64 (x_size v) (block_size f)) v')
    end.

(** The record [p] without its inode; in front of it, the record that would
    begin at [p - rec_len] if it had the same length gets that length added
    (the source's [prev_end] is [p]; what else it computes is not used). *)
Definition clear_entry (b : list Z) (p : nat) : list Z :=
  let r := de_rec_len b p in
  let b := put b p 4 0 in
  if (0 <? p)%nat then
    let q := (p - r)%nat in
    put b (q + 4) 2 (wrap 16 (Z.of_nat (de_rec_len b q) + Z.of_nat r))
  else b.
Fixpoint remove_entry (fuel : nat) (b : list Z) (p : nat) (name : list Z) : option (option (list Z)) :=
  match fuel with
  | O => Some None
  | S fuel =>
      if (length b <? p + 8)%nat then Some None
      else
        let r := de_rec_len b p in
        if (r <? 8)%nat then Some None
        else if negb (de_ino b p =? 0) && (de_name_len b p =? length name)%nat then
          if (length b <? p + 8 + length name)%nat then None
          else if bool_decide (slice b (p + 8) (length name) = name) then Some (Some (clear_entry b p))
          else remove_entry fuel b (p + r) name
        else remove_entry fuel b (p + r) name
  end.
Fixpoint remove_loop (fuel : nat) (v : list Z) (pos : Z) (name : list Z) : Ext4M unit :=
  match fuel with
  | O => panic
  | S fuel =>
      if x_size v <=? pos then fail ENOENT
      else
        f ← get;
        log_blk ← udiv pos (block_size f);
        o ← get_block v log_blk;
        match o with
        | None => remove_loop fuel v (wadd 64 pos (block_size f)) name
        | Some p =>
            b ← read_block p;
            match remove_entry (length b) b 0 name with
            | None => panic
            | Some (Some b) => write_block p b
            | Some None => remove_loop fuel v (wadd 64 pos (block_size f)) name
            end
        end
  end.
Definition dir_remove_entry (v : list Z) (name : list Z) : Ext4M unit := f ← get; remove_loop (dir_rounds f v) v 0 name.

Definition inode_mode_to_file_type (mode : Z) : Z :=
  let t := Z.land mode 0xF000 in
  if t =? 0x8000 then EXT4_FT_REG_FILE else if t =? 0x4000 then EXT4_FT_DIR else if t =? 0xA000 then EXT4_FT_SYMLINK
  else if t =? 0x2000 then EXT4_FT_CHRDEV else if t =? 0x6000 then EXT4_FT_BLKDEV else if t =? 0x1000 then EXT4_FT_FIFO
  else if t =? 0xC000 then EXT4_FT_SOCK else EXT4_FT_UNKNOWN.
Definition file_type_to_vfs (ft : Z) : Z :=
  if ft =? EXT4_FT_REG_FILE then 8 else if ft =? EXT4_FT_DIR then 4 else if ft =? EXT4_FT_SYMLINK then 10 else if ft =? EXT4_FT_CHRDEV then 2
  else if ft =? EXT4_FT_BLKDEV then 6 else if ft =? EXT4_FT_FIFO then 1 else if ft =? EXT4_FT_SOCK then 12 else 0.

(** ** The operations of the virtual file system

    [ino] is the inode the operation is called on; the caller's identity and
    the time are arguments. *)
Record Caller := mkCaller { c_uid : Z; c_gid : Z; c_now : Z }.
Definition to_inode (ino : Z) (v : list Z) (f : Ext4Fs) : Inode :=
  mkInode ino (x_mode v) (x_uid v) (x_gid v) (x_size v) (x_atime v) (x_mtime v) (x_ctime v) (dev_id f).
Definition kind_of (v : list Z) : Z := Z.land (x_mode v) 0xF000.
Definition made (ino : Z) (v : list Z) : Ext4M Inode := f ← get; mret (to_inode ino v f).
Definition commit_journal : Ext4M unit := λ f,
  match journal f with
  | None => Some (f, Ok tt)
  | Some j => '(j, d, _) ← commit j (disk f); Some (on_disk d (Some j) f, Ok tt)
  end.

Definition ext4_get_root : Ext4M Inode := v ← read_inode 2; made 2 v.
Definition ext4_sync : Ext4M unit := commit_journal.
Record StatFs := mkStat { f_type : Z; f_bsize : Z; f_blocks : Z; f_bfree : Z; f_bavail : Z; f_files : Z; f_ffree : Z; f_namelen : Z; f_frsize : Z }.
Definition ext4_statfs (f : Ext4Fs) : StatFs :=
  let free := hilo (s_free_blocks_count_hi (sb f)) (s_free_blocks_count_lo (sb f)) in
  mkStat 0xEF53 (block_size f) (hilo (s_blocks_count_hi (sb f)) (s_blocks_count_lo (sb f))) free free
    (s_inodes_count (sb f)) (s_free_inodes_count (sb f)) 255 (block_size f).
Definition ext4_read (ino : Z) (len : nat) (offset : Z) : Ext4M (list Z) := v ← read_inode ino; read_file v len offset.
Definition ext4_write (now ino : Z) (data : list Z) (offset : Z) : Ext4M nat :=
  v ← read_inode ino; r ← write_file now ino v data offset; mret (snd r).
Definition ext4_truncate (now ino size : Z) : Ext4M unit := v ← read_inode ino; truncate_file now ino v size.

Definition DOT : list Z := [46].
Definition DOTDOT : list Z := [46; 46].
Definition dots (e : RawEntry) : Prop := e.1.1 = DOT ∨ e.1.1 = DOTDOT.
Definition ext4_readdir (ino : Z) : Ext4M (list RawEntry) :=
  v ← read_inode ino;
  if negb (kind_of v =? 0x4000) then fail ENOTDIR
  else
    raw ← dir_read_entries v;
    mret ((DOT, ino, 4) :: (DOTDOT, ino, 4) :: map (λ e, (e.1.1, e.1.2, file_type_to_vfs e.2)) (filter (λ e, ¬ dots e) raw)).
Definition ext4_lookup (ino : Z) (name : list Z) : Ext4M Inode :=
  v ← read_inode ino; child ← dir_lookup_ino v name; cv ← read_inode child; made child cv.

Definition ext4_create (c : Caller) (ino : Z) (name : list Z) (mode : Z) : Ext4M Inode :=
  new ← alloc_inode false;
  let v := new_inode (wrap 16 (Z.lor (Z.land mode 0x1FFF) 0x8000)) (c_uid c) (c_gid c) 0 1 EXT4_INODE_FLAG_EXTENTS (wrap 32 (c_now c)) empty_root in
  _ ← write_inode new v;
  dir ← read_inode ino;
  _ ← dir_add_entry ino dir new name EXT4_FT_REG_FILE;
  _ ← commit_journal;
  made new v.
Definition ext4_mkdir (c : Caller) (ino : Z) (name : list Z) (mode : Z) : Ext4M Inode :=
  new ← alloc_inode true;
  let v := new_inode (wrap 16 (Z.lor (Z.land mode 0x1FFF) 0x4000)) (c_uid c) (c_gid c) 0 2 EXT4_INODE_FLAG_EXTENTS (wrap 32 (c_now c)) empty_root in
  _ ← write_inode new v;
  _ ← dir_add_entry new v new DOT EXT4_FT_DIR;
  v2 ← read_inode new;
  _ ← dir_add_entry new v2 ino DOTDOT EXT4_FT_DIR;
  dir ← read_inode ino;
  _ ← dir_add_entry ino dir new name EXT4_FT_DIR;
  final ← read_inode new;
  made new final.
Definition ext4_unlink (now ino : Z) (name : list Z) : Ext4M unit :=
  dir ← read_inode ino;
  child ← dir_lookup_ino dir name;
  v ← read_inode child;
  if kind_of v =? 0x4000 then fail EISDIR
  else
    _ ← dir_remove_entry dir name;
    let links := sat_sub (x_links_count v) 1 in
    let v := put v 26 2 links in
    if links =? 0 then
      let v := put v 20 4 (wrap 32 now) in
      _ ← write_inode child v;
      n ← blocks_for (x_size v);
      _ ← free_blocks (Z.to_nat n) v 0;
      free_inode child
    else write_inode child v.
Definition ext4_rmdir (ino : Z) (name : list Z) : Ext4M unit :=
  dir ← read_inode ino;
  child ← dir_lookup_ino dir name;
  v ← read_inode child;
  if negb (kind_of v =? 0x4000) then fail ENOTDIR
  else
    l ← dir_read_entries v;
    if bool_decide (filter (λ e, ¬ dots e) l = []) then _ ← dir_remove_entry dir name; free_inode child else fail ENOTEMPTY.
Definition ext4_symlink (c : Caller) (ino : Z) (name target : list Z) : Ext4M Inode :=
  new ← alloc_inode false;
  let size := wrap 32 (Z.of_nat (length target)) in
  v ← (if (length target <=? 60)%nat then
         mret (new_inode 0xA1FF (c_uid c) (c_gid c) size 1 0 (wrap 32 (c_now c)) (target ++ replicate (60 - length target) 0))
       else
         _ ← write_inode new (new_inode 0xA1FF (c_uid c) (c_gid c) size 1 EXT4_INODE_FLAG_EXTENTS (wrap 32 (c_now c)) empty_root);
         mi ← read_inode new;
         _ ← write_file (c_now c) new mi target 0;
         read_inode new);
  _ ← write_inode new v;
  dir ← read_inode ino;
  _ ← dir_add_entry ino dir new name EXT4_FT_SYMLINK;
  made new v.
Definition ext4_readlink (ino : Z) : Ext4M (list Z) :=
  v ← read_inode ino;
  if negb (kind_of v =? 0xA000) then fail EINVAL
  else
    let size := Z.to_nat (x_size_lo v) in
    if (size <=? 60)%nat then mret (from_utf8_lossy (take size (x_block v)))
    else b ← read_file v size 0; mret (from_utf8_lossy (b ++ replicate (size - length b) 0)).
Definition ext4_rename (ino : Z) (old_name : list Z) (new_parent : Z) (new_name : list Z) : Ext4M unit :=
  dir ← read_inode ino;
  child ← dir_lookup_ino dir old_name;
  v ← read_inode child;
  _ ← dir_remove_entry dir old_name;
  let np := wrap 32 new_parent in
  new_dir ← read_inode np;
  dir_add_entry np new_dir child new_name (inode_mode_to_file_type (x_mode v)).
Definition ext4_link (ino : Z) (name : list Z) (target : Z) : Ext4M unit :=
  let t := wrap 32 target in
  v ← read_inode t;
  if kind_of v =? 0x4000 then fail EISDIR
  else
    let v := put v 26 2 (wadd 16 (x_links_count v) 1) in
    _ ← write_inode t v;
    dir ← read_inode ino;
    dir_add_entry ino dir t name (inode_mode_to_file_type (x_mode v)).
Definition ext4_chmod (ino mode : Z) : Ext4M unit :=
  v ← read_inode ino; write_inode ino (put v 0 2 (Z.lor (Z.land (x_mode v) 0xF000) (Z.land mode 0x0FFF))).
Definition ext4_chown (ino uid gid : Z) : Ext4M unit :=
  v ← read_inode ino;
  let v := if uid =? 2 ^ 32 - 1 then v else put v 2 2 (wrap 16 uid) in
  let v := if gid =? 2 ^ 32 - 1 then v else put v 24 2 (wrap 16 gid) in
  write_inode ino v.
Definition ext4_fsync : Ext4M unit := mret tt.

(** Mounting, with the fuel of the recovery of the journal. *)
Definition start_journal (fuel : nat) : Ext4M unit := λ f,
  match (v ← read_inode (s_journal_inum (sb f)); get_block v 0) f with
  | None => None
  | Some (f, Ok (Some start)) =>
      oj ← journal_new (disk f) start (block_size f);
      match oj with
      | None => Some (f, Ok tt)
      | Some j => '(j, d) ← recover fuel j (disk f); Some (on_disk d (Some j) f, Ok tt)
      end
  | Some (f, _) => Some (f, Ok tt)
  end.
Definition mount (fuel : nat) (d : list Z) (dev : Z) : option (option Ext4Fs) :=
  r ← ext4_new d dev;
  match r with
  | None => Some None
  | Some f => if has_journal f && negb (s_journal_inum (sb f) =? 0) then '(f, _) ← start_journal fuel f; Some (Some f) else Some (Some f)
  end.
Definition mount_from_bytes (fuel : nat) (d : list Z) : option (option Ext4Fs) := mount fuel d 10.
