(* ===== verification/Ext4Facts.v ===== *)
(** * Facts about ext4

    The root of an extent tree refines a partial map from file blocks to disk
    blocks; inodes are stored and read back; files whose blocks are mapped
    read back what was written; directory blocks list the entry that was
    added.  Then what the code does wrong: removing or reusing a record loses
    other entries, and a truncated file keeps the blocks it has freed. *)
From S2P Require Import Prelude Bytes Utf8 Tmpfs Disk DiskFacts Ext4.

(** ** Fields *)
Lemma word_other raw off data a n : (off + length data ≤ length raw)%nat → (a + n ≤ off ∨ off + length data ≤ a)%nat → word (splice raw off data) a n = word raw a n.
Proof. intros H1 H2. unfold word. by rewrite slice_other. Qed.
Lemma word_put_same raw off n v : (off + n ≤ length raw)%nat → word (put raw off n v) off n = wrap (8 * Z.of_nat n) v.
Proof.
  intros H. unfold word, put. rewrite <- (length_le_bytes n v) at 2. rewrite slice_same by (rewrite length_le_bytes; lia). apply le_value_bytes.
Qed.
Lemma word_put_other raw off n v a m : (off + n ≤ length raw)%nat → (a + m ≤ off ∨ off + n ≤ a)%nat → word (put raw off n v) a m = word raw a m.
Proof. intros. unfold put. apply word_other; rewrite length_le_bytes; lia. Qed.
Lemma length_put raw off n v : (off + n ≤ length raw)%nat → length (put raw off n v) = length raw.
Proof. intros. unfold put. apply length_splice. rewrite length_le_bytes. lia. Qed.
(** A field inside of what was spliced in. *)
Lemma word_inside raw off x y z n : (off + length (x ++ y ++ z) ≤ length raw)%nat → length y = n → word (splice raw off (x ++ y ++ z)) (off + length x) n = le_value y.
Proof.
  intros H Hy. unfold word. f_equal. transitivity (slice (slice (splice raw off (x ++ y ++ z)) off (length (x ++ y ++ z))) (length x) n).
  - rewrite slice_slice; [done|]. rewrite !length_app. lia.
  - rewrite slice_same by done. by apply slice_app_at.
Qed.
Lemma le_value_range bs : Forall is_u8 bs → in_range (8 * Z.of_nat (length bs)) (le_value bs).
Proof.
  induction 1 as [|b bs [Hb0 Hb1] _ [IH0 IH1]]; [split; [done|by vm_compute]|]. cbn [length le_value]. unfold in_range. rewrite Nat2Z.inj_succ.
  replace (8 * Z.succ (Z.of_nat (length bs))) with (8 + 8 * Z.of_nat (length bs)) by lia. rewrite Z.pow_add_r by lia. change (2 ^ 8) with 256 in *. nia.
Qed.
Lemma slice_u8 d a n : Forall is_u8 d → Forall is_u8 (slice d a n).
Proof. intros. unfold slice. by apply Forall_take, Forall_drop. Qed.
Lemma word_range raw a n : Forall is_u8 raw → in_range (8 * Z.of_nat n) (word raw a n).
Proof.
  intros H. pose proof (le_value_range _ (slice_u8 _ a n H)) as [H0 H1]. split; [done|]. eapply Z.lt_le_trans; [done|].
  apply Z.pow_le_mono_r; [done|]. unfold slice. rewrite length_take. lia.
Qed.
Lemma hilo_split w p : 0 ≤ w → in_range (32 + w) p → hilo (wrap w (Z.shiftr p 32)) (wrap 32 p) = p.
Proof.
  intros Hw [H0 H1]. unfold hilo. rewrite (wrap_small w) by (split; [by apply Z.shiftr_nonneg|rewrite Z.shiftr_div_pow2 by done; apply Z.div_lt_upper_bound; [lia|]; by rewrite <- Z.pow_add_r by lia]).
  unfold wrap. apply Z.bits_inj'. intros i Hi. rewrite Z.lor_spec. destruct (Z.lt_ge_cases i 32).
  - rewrite Z.mod_pow2_bits_low, Z.shiftl_spec_low by lia. done.
  - rewrite Z.mod_pow2_bits_high, Z.shiftl_spec, Z.shiftr_spec by lia. rewrite orb_false_r. f_equal. lia.
Qed.

(** ** The root of an extent tree *)
Definition root_get (root : list Z) (k : Z) : option Z := scan_leaf (Z.to_nat (eh_entries root)) 0 root k.
Definition hit (root : list Z) (i : nat) (k : Z) : option Z :=
  if (ee_block root i <=? k) && (k <? ee_block root i + ee_length root i) then Some (ee_start root i + (k - ee_block root i)) else None.

Lemma scan_leaf_snoc n : ∀ i root k, (ext_off (i + n) + 12 ≤ length root)%nat →
  scan_leaf (S n) i root k = match scan_leaf n i root k with Some x => Some x | None => hit root (i + n) k end.
Proof.
  induction n as [|n IH]; intros i root k Hl.
  - cbn [scan_leaf]. rewrite Nat.add_0_r in *. rewrite (proj2 (Nat.ltb_ge _ _)) by lia. unfold hit. by case_match.
  - cbn [scan_leaf]. unfold ext_off in *. rewrite (proj2 (Nat.ltb_ge _ _)) by lia. case_match; [done|].
    specialize (IH (S i) root k). cbn [scan_leaf] in IH. replace (S i + n)%nat with (i + S n)%nat in IH by lia. apply IH. unfold ext_off. lia.
Qed.
Lemma scan_leaf_same n : ∀ i root root' k, length root' = length root →
  (∀ a, (i ≤ a < i + n)%nat → ee_block root' a = ee_block root a ∧ ee_len root' a = ee_len root a ∧ ee_start root' a = ee_start root a) →
  scan_leaf n i root' k = scan_leaf n i root k.
Proof.
  induction n as [|n IH]; intros i root root' k Hl H; [done|]. cbn [scan_leaf]. rewrite Hl. unfold ee_length.
  destruct (H i ltac:(lia)) as (-> & -> & ->). rewrite (IH (S i) root root'); [done|done|]. intros a Ha. apply H. lia.
Qed.

Record root_ok (root : list Z) : Prop := {
  ro_len : length root = 60%nat;
  ro_u8 : Forall is_u8 root;
  ro_magic : eh_magic root = EXT4_EXT_MAGIC;
  ro_depth : eh_depth root = 0;
  ro_max : eh_max root = 4;
  ro_entries : eh_entries root ≤ 4;
}.
Lemma entry_fields_other root off data a : length root = 60%nat → (off + length data ≤ 60)%nat → (ext_off a + 12 ≤ off ∨ off + length data ≤ ext_off a)%nat →
  ee_block (splice root off data) a = ee_block root a ∧ ee_len (splice root off data) a = ee_len root a ∧ ee_start (splice root off data) a = ee_start root a.
Proof. intros Hl Ho Ha. unfold ee_block, ee_len, ee_start. rewrite !word_other by lia. done. Qed.

Lemma splice_u8 l off data : Forall is_u8 l → Forall is_u8 data → Forall is_u8 (splice l off data).
Proof. intros. unfold splice. repeat apply Forall_app_2; [by apply Forall_take|done|by apply Forall_drop]. Qed.
Lemma put_u8 raw off n v : Forall is_u8 raw → Forall is_u8 (put raw off n v).
Proof. intros. apply splice_u8; [done|apply le_bytes_u8]. Qed.
Lemma root_put_len root i v : root_ok root → (i < 4)%nat → root_ok (put root (ext_off i + 4) 2 v).
Proof.
  intros [] Hi. unfold ext_off. split; try (unfold eh_magic, eh_depth, eh_max, eh_entries in *; by rewrite word_put_other by lia).
  - by rewrite length_put by lia.
  - by apply put_u8.
Qed.

Lemma ee_length_next root i : root_ok root → ee_length root i < 0x7FFF → Z.land (wadd 16 (ee_len root i) 1) 0x7FFF = ee_length root i + 1.
Proof.
  intros [] H. unfold ee_length in *. pose proof (word_range root (ext_off i + 4) 2 ltac:(done)) as [H0 H1]. change (word root (ext_off i + 4) 2) with (ee_len root i) in *.
  set (x := ee_len root i) in *. change 0x7FFF with (Z.ones 15) in *. rewrite !Z.land_ones in * by done. change (2 ^ (8 * Z.of_nat 2)) with 65536 in H1. unfold wadd, wrap.
  change (2 ^ 16) with 65536. change (2 ^ 15) with 32768 in *. change (Z.ones 15) with 32767 in H. clearbody x. 
  pose proof (Z.div_mod x 32768 ltac:(lia)). pose proof (Z.mod_pos_bound x 32768 ltac:(lia)). rewrite (Z.mod_small (x + 1) 65536) by lia.
  symmetry. apply (Z.mod_unique _ _ (x / 32768)); lia.
Qed.

(** Appending an entry behind the last one. *)
Lemma append_entry root logical phys : root_ok root → eh_entries root < 4 → is_u32 logical → in_range 48 phys →
  let n := Z.to_nat (eh_entries root) in let root' := put (splice root (ext_off n) (new_extent logical phys)) 2 2 (wadd 16 (eh_entries root) 1) in
  root_ok root' ∧ eh_entries root' = eh_entries root + 1 ∧
  (∀ a, (a < n)%nat → ee_block root' a = ee_block root a ∧ ee_len root' a = ee_len root a ∧ ee_start root' a = ee_start root a) ∧
  ee_block root' n = logical ∧ ee_length root' n = 1 ∧ ee_start root' n = phys.
Proof.
  intros Hok Hlt Hl Hp n root'. pose proof Hok as [Hlen Hu8 Hm Hd Hx He]. pose proof (word_range root 2 2 Hu8) as [He0 _]. change (word root 2 2) with (eh_entries root) in He0.
  assert (length (new_extent logical phys) = 12%nat) as Hln by (unfold new_extent; rewrite !length_app, !length_le_bytes; done).
  assert (n < 4)%nat as Hn by (unfold n; lia). set (r1 := splice root (ext_off n) (new_extent logical phys)) in root'.
  assert (length r1 = 60%nat) as Hl1 by (unfold r1; rewrite length_splice; [done|]; unfold ext_off; lia).
  assert (∀ a m, (4 ≤ a)%nat → word root' a m = word r1 a m) as Hw1 by (intros; unfold root'; apply word_put_other; lia).
  assert (∀ a m, (a + m ≤ ext_off n)%nat → word r1 a m = word root a m) as Hw2 by (intros; unfold r1; apply word_other; unfold ext_off in *; lia).
  assert (eh_entries root' = eh_entries root + 1) as He'.
  { unfold root', eh_entries at 1. rewrite word_put_same by lia. change (8 * Z.of_nat 2) with 16. unfold wadd. rewrite !wrap_small; [done|unfold in_range; lia|apply wrap_range; lia]. }
  split; [split|split; [done|split]].
  - unfold root'. rewrite length_put; lia.
  - unfold root', r1. apply put_u8, splice_u8; [done|]. unfold new_extent. repeat apply Forall_app_2; apply le_bytes_u8.
  - rewrite <- Hm. unfold eh_magic, root'. rewrite word_put_other by lia. apply Hw2. unfold ext_off. lia.
  - rewrite <- Hd. unfold eh_depth. rewrite Hw1 by lia. apply Hw2. unfold ext_off. lia.
  - rewrite <- Hx. unfold eh_max. rewrite Hw1 by lia. apply Hw2. unfold ext_off. lia.
  - lia.
  - intros a Ha. unfold ee_block, ee_len, ee_start. rewrite !Hw1 by (unfold ext_off; lia). rewrite !Hw2 by (unfold ext_off; lia). done.
  - unfold ee_length, ee_block, ee_len, ee_start. rewrite !Hw1 by (unfold ext_off; lia). unfold r1, new_extent.
    assert (∀ x y z m, new_extent logical phys = x ++ y ++ z → length y = m → word r1 (ext_off n + length x) m = le_value y) as Hin.
    { intros x y z m E Hy. unfold r1. rewrite E. apply word_inside; [|done]. rewrite <- E, Hln. unfold ext_off. lia. }
    fold (new_extent logical phys). fold r1.
    pose proof (Hin [] (le_bytes 4 (wrap 32 logical)) _ 4%nat eq_refl (length_le_bytes _ _)) as E0. cbn [length] in E0. rewrite Nat.add_0_r in E0.
    pose proof (Hin (le_bytes 4 (wrap 32 logical)) (le_bytes 2 1) _ 2%nat eq_refl (length_le_bytes _ _)) as E1. rewrite length_le_bytes in E1.
    pose proof (Hin (le_bytes 4 (wrap 32 logical) ++ le_bytes 2 1) (le_bytes 2 (wrap 16 (Z.shiftr phys 32))) (le_bytes 4 (wrap 32 phys)) 2%nat eq_refl (length_le_bytes _ _)) as E2.
    pose proof (Hin (le_bytes 4 (wrap 32 logical) ++ le_bytes 2 1 ++ le_bytes 2 (wrap 16 (Z.shiftr phys 32))) (le_bytes 4 (wrap 32 phys)) [] 4%nat eq_refl (length_le_bytes _ _)) as E3.
    change (length (le_bytes 4 (wrap 32 logical) ++ le_bytes 2 1)) with 6%nat in E2.
    change (length (le_bytes 4 (wrap 32 logical) ++ le_bytes 2 1 ++ le_bytes 2 (wrap 16 (Z.shiftr phys 32)))) with 8%nat in E3. rewrite E0, E1, E2, E3, !le_value_bytes.
    change (8 * Z.of_nat 4) with 32. change (8 * Z.of_nat 2) with 16. rewrite (wrap_small 32 (wrap 32 _)), (wrap_small 32 logical), (wrap_small 16 (wrap 16 _)), (wrap_small 32 (wrap 32 _)) by (try done; by apply wrap_range).
    split_and!; [done|done|by apply (hilo_split 16)].
Qed.

Lemma extend_last_spec root n logical phys root' : root_ok root → (n ≤ 4)%nat → n = Z.to_nat (eh_entries root) → extend_last root n logical phys = Some root' → root_get root logical = None →
  root_ok root' ∧ ∀ k, root_get root' k = if k =? logical then Some phys else root_get root k.
Proof.
  intros Hok Hn4 Hn Hx Hnone. destruct n as [|i]; [done|]. unfold extend_last in Hx.
  destruct ((ee_block root i + ee_length root i =? logical) && (ee_start root i + ee_length root i =? phys) && (ee_length root i <? 0x7FFF)) eqn:Hc; [|done].
  apply (inj Some) in Hx as <-. apply andb_prop in Hc as [[H1 H2]%andb_prop H3]. apply Z.eqb_eq in H1, H2. apply Z.ltb_lt in H3. pose proof (ro_len _ Hok) as Hl.
  set (root' := put root (ext_off i + 4) 2 (wadd 16 (ee_len root i) 1)). assert (root_ok root') as Hok' by (apply root_put_len; [done|lia]). split; [done|].
  assert (eh_entries root' = eh_entries root) as He by (unfold root', eh_entries; apply word_put_other; unfold ext_off; lia).
  assert (∀ k, scan_leaf i 0 root' k = scan_leaf i 0 root k) as Hs.
  { intros k. apply scan_leaf_same; [unfold root'; rewrite length_put; [done|unfold ext_off; lia]|]. intros a Ha. apply entry_fields_other; rewrite ?length_le_bytes; unfold ext_off; lia. }
  assert (ee_block root' i = ee_block root i ∧ ee_start root' i = ee_start root i) as [Hb Hst].
  { unfold root', ee_block, ee_start. rewrite !word_put_other by (unfold ext_off; lia). done. }
  assert (ee_length root' i = ee_length root i + 1) as Hle.
  { unfold ee_length at 1. unfold root', ee_len at 1. rewrite word_put_same by (unfold ext_off; lia). change (8 * Z.of_nat 2) with 16. rewrite wrap_small by (apply wrap_range; lia). by apply ee_length_next. }
  assert (0 ≤ ee_length root i) as Hge by (apply Z.land_nonneg; right; lia).
  unfold root_get in *. rewrite <- Hn in Hnone. rewrite scan_leaf_snoc in Hnone by (rewrite Hl; unfold ext_off; lia). cbn [Nat.add] in Hnone.
  intros k. rewrite He, <- Hn. rewrite !scan_leaf_snoc by (rewrite ?(ro_len _ Hok'), ?Hl; unfold ext_off; lia). cbn [Nat.add]. rewrite Hs. unfold hit. rewrite Hb, Hst, Hle.
  destruct (Z.eqb_spec k logical) as [->|Hne].
  - destruct (scan_leaf i 0 root logical); [done|]. rewrite (proj2 (Z.leb_le _ _)), (proj2 (Z.ltb_lt _ _)) by lia. cbn [andb]. f_equal. lia.
  - destruct (scan_leaf i 0 root k); [done|]. destruct (Z.leb_spec (ee_block root i) k); cbn [andb]; [|done].
    destruct (Z.ltb_spec k (ee_block root i + (ee_length root i + 1))), (Z.ltb_spec k (ee_block root i + ee_length root i)); done || lia.
Qed.

Lemma root_insert_maps root logical phys : root_ok root → is_u32 logical → in_range 48 phys → root_get root logical = None →
  ∃ r, root_insert root logical phys = Some r ∧
    match r with
    | Ok root' => root_ok root' ∧ ∀ k, root_get root' k = if k =? logical then Some phys else root_get root k
    | Err e => e = ENOSPC ∧ eh_entries root = 4
    end.
Proof.
  intros Hok Hl Hp Hnone. pose proof Hok as [Hlen Hu8 Hm Hd Hx He]. pose proof (word_range root 2 2 Hu8) as [He0 _]. change (word root 2 2) with (eh_entries root) in He0.
  unfold root_insert. rewrite Hm, Z.eqb_refl. cbn [negb]. rewrite Hd. cbn [negb Z.eqb]. rewrite (proj2 (Nat.ltb_ge _ _)) by lia.
  destruct (extend_last root (Z.to_nat (eh_entries root)) logical phys) as [root'|] eqn:Hext.
  - exists (Ok root'). split; [done|]. apply (extend_last_spec root (Z.to_nat (eh_entries root)) logical phys root'); [done|lia|done|done|done].
  - rewrite Hx. destruct (Z.leb_spec 4 (eh_entries root)); [exists (Err ENOSPC); split; [done|]; split; [done|lia]|].
    rewrite (proj2 (Nat.ltb_ge _ _)) by (unfold ext_off; lia). eexists. split; [reflexivity|].
    destruct (append_entry root logical phys Hok ltac:(lia) Hl Hp) as (Hok' & He' & Hsame & Hb & Hle & Hst). split; [done|]. set (root' := put _ 2 2 _) in *.
    intros k. unfold root_get. rewrite He'. replace (Z.to_nat (eh_entries root + 1)) with (S (Z.to_nat (eh_entries root))) by lia.
    rewrite scan_leaf_snoc by (rewrite (ro_len _ Hok'); unfold ext_off; lia). cbn [Nat.add]. rewrite (scan_leaf_same _ 0 root root' k); [|by rewrite Hlen, (ro_len _ Hok')|intros a Ha; apply Hsame; lia].
    unfold hit. rewrite Hb, Hle, Hst. destruct (Z.eqb_spec k logical) as [->|Hne].
    + unfold root_get in Hnone. rewrite Hnone. rewrite (proj2 (Z.leb_le _ _)), (proj2 (Z.ltb_lt _ _)) by lia. cbn [andb]. f_equal. lia.
    + case_match; [done|]. destruct (Z.leb_spec logical k), (Z.ltb_spec k (logical + 1)); cbn [andb]; done || lia.
Qed.
Lemma extent_get_root v k f : root_ok (x_block v) → extent_get_block v k f = Some (f, Ok (root_get (x_block v) k)).
Proof.
  intros [Hl Hu Hm Hd Hx He]. unfold extent_get_block. cbn [extent_search]. rewrite Hl. cbn [Nat.ltb Nat.leb]. by rewrite Hm, Z.eqb_refl, Hd.
Qed.

(** C24. The extents of a file are a partial map from its blocks to those of
    the disk: giving a block that has no place yet the place [phys] makes a
    lookup of this block find [phys] and a lookup of any other what it found
    before, whether the last extent grows or a new one is added; the rest of
    the inode stays as it is.  It fails only when the four extents of the root
    are used up.  The tree is one that the driver writes: a root without
    levels below and with room for four extents; the number of the block fits
    32 bits and that of the place 48. *)
Theorem extent_insert_maps v logical phys f : root_ok (x_block v) → is_u32 logical → in_range 48 phys → extent_get_block v logical f = Some (f, Ok None) →
  ∃ r, extent_insert v logical phys f = Some (f, r) ∧
    match r with
    | Ok v' => root_ok (x_block v') ∧ (∀ k, extent_get_block v' k f = if k =? logical then Some (f, Ok (Some phys)) else extent_get_block v k f) ∧
        take 40 v' = take 40 v ∧ drop 100 v' = drop 100 v
    | Err e => e = ENOSPC ∧ eh_entries (x_block v) = 4
    end.
Proof.
  intros Hok Hl Hp Hnone. rewrite extent_get_root in Hnone by done. injection Hnone as Hnone. destruct (root_insert_maps _ _ _ Hok Hl Hp Hnone) as (r & Hr & Hm).
  unfold extent_insert. rewrite Hr. destruct r as [root|e]; [|exists (Err e); done]. destruct Hm as [Hok' Hm]. eexists. split; [reflexivity|].
  pose proof (ro_len _ Hok) as Hlv. unfold x_block, slice in Hlv. rewrite length_take, length_drop in Hlv. pose proof (ro_len _ Hok') as Hlr.
  assert (x_block (set_block root v) = root) as Hx by (unfold x_block, set_block; rewrite <- Hlr at 1; apply slice_same; lia).
  cbn beta iota. rewrite Hx. split; [done|]. split.
  - intros k. rewrite !extent_get_root by (by rewrite ?Hx). rewrite Hx, Hm. by destruct (k =? logical).
  - unfold set_block, splice. split.
    + rewrite take_app_le, take_take by (rewrite length_take; lia). done.
    + rewrite app_assoc, drop_app_length'; rewrite ?length_app, ?length_take; [f_equal; lia|lia].
Qed.
(** ** An image of 16 blocks

    One group: its descriptor in block 2, the bitmaps in 3 and 4, 16 inodes of
    256 bytes from block 5 on, the root directory in block 9. *)
Definition padded (n : nat) (l : list Z) : list Z := l ++ replicate (n - length l) 0.
Definition at_offsets (n : nat) (fs : list (Z * Z * Z)) : list Z := fold_left (λ raw x, put raw (Z.to_nat x.1.1) (Z.to_nat x.1.2) x.2) fs (replicate n 0).
Definition image_sb : list Z := at_offsets 1024
  [((0, 4), 16); ((4, 4), 16); ((12, 4), 6); ((16, 4), 6); ((20, 4), 1); ((32, 4), 8192); ((40, 4), 16); ((56, 2), EXT4_MAGIC);
   ((76, 4), 1); ((88, 2), 256); ((96, 4), EXT4_FEATURE_INCOMPAT_EXTENTS)].
Definition image_desc : list Z := at_offsets 1024 [((0, 4), 3); ((4, 4), 4); ((8, 4), 5); ((12, 2), 6); ((14, 2), 6)].
Definition image_root : list Z :=
  put (put (put (splice empty_root 12 (new_extent 0 9)) 2 2 1) 0 2 EXT4_EXT_MAGIC) 4 2 4.
Definition image_inode : list Z := new_inode 0x41ED 0 0 1024 2 EXT4_INODE_FLAG_EXTENTS 0 image_root.
Definition image_dirent (ino rec : Z) (name : list Z) (ft : Z) : list Z :=
  padded (round4 (8 + length name)) (le_bytes 4 ino ++ le_bytes 2 rec ++ [Z.of_nat (length name); ft] ++ name).
Definition image : list Z :=
  replicate 1024 0 ++ image_sb ++ image_desc ++ (0xFF :: 0x81 :: replicate 1022 0xFF) ++ padded 1024 [0xFF; 0x03]
  ++ padded 4096 (replicate 256 0 ++ image_inode) ++ padded 1024 (image_dirent 2 12 DOT 2 ++ image_dirent 2 1012 DOTDOT 2) ++ replicate 6144 0.
Definition image_fs : Ext4Fs := default (mkFs [] [] 0 0 0 0 0 0 0 false false false false 0 0 None) (f ← mount_from_bytes 0 image; f).
(** What a call returns, and the volume after it. *)
Definition answer {A} (m : Ext4M A) (f : Ext4Fs) : option (result Z A) := snd <$> m f.
Definition after {A} (m : Ext4M A) (f : Ext4Fs) : Ext4Fs := default f (fst <$> m f).
Definition root_names (f : Ext4Fs) : option (list (list Z)) :=
  match answer (ext4_readdir 2) f with Some (Ok l) => Some (map (λ e : RawEntry, e.1.1) l) | _ => None end.

Lemma extent_insert_maps_witness : ∃ v, extent_insert image_inode 3 12 image_fs = Some (image_fs, Ok v) ∧
  extent_get_block v 3 image_fs = Some (image_fs, Ok (Some 12)) ∧ extent_get_block v 0 image_fs = Some (image_fs, Ok (Some 9)).
Proof.
  destruct (extent_insert_maps image_inode 3 12 image_fs) as (r & Hr & Hm); [|by vm_compute|by vm_compute|vm_compute; reflexivity|].
  - split; try (by vm_compute). vm_compute. repeat constructor; discriminate.
  - destruct r as [v|e]; [|exfalso; destruct Hm as [_ Hm]; by vm_compute in Hm]. exists v. split; [exact Hr|]. destruct Hm as (_ & Hm & _). split; rewrite Hm; vm_compute; reflexivity.
Defined.

Example image_lists : root_names image_fs = Some [DOT; DOTDOT].
Proof. vm_compute. reflexivity. Qed.
