(* ===== verification/Ext4Files.v ===== *)
(** * Contents of ext4 files

    A byte of a file lives at an address of the disk, through the extents of
    its inode.  Where the blocks of a range are mapped, to different blocks
    that hold nothing else, writing the range and reading it gives the bytes
    back, and the inode too. *)
From S2P Require Import Prelude Bytes Utf8 Tmpfs Disk DiskFacts Ext4 Ext4Facts.

(** ** Steps of the monad *)
Lemma ext4_bind_ok {A B} (m : Ext4M A) (k : A → Ext4M B) f f' a : m f = Some (f', Ok a) → (m ≫= k) f = k a f'.
Proof. intros H. unfold mbind, ext4_bind. by rewrite H. Qed.
Lemma bind_get {B} (k : Ext4Fs → Ext4M B) f : (get ≫= k) f = k f f.
Proof. done. Qed.
Lemma udiv_ok a b f : b ≠ 0 → udiv a b f = Some (f, Ok (a / b)).
Proof. intros. unfold udiv. by rewrite (proj2 (Z.eqb_neq _ _)). Qed.
Lemma umod_ok a b f : b ≠ 0 → umod a b f = Some (f, Ok (a mod b)).
Proof. intros. unfold umod. by rewrite (proj2 (Z.eqb_neq _ _)). Qed.

(** With another disk, nothing else changed. *)
Definition with_disk (d : list Z) (f : Ext4Fs) : Ext4Fs := on_disk d (journal f) f.
Lemma with_disk_same f : with_disk (disk f) f = f.
Proof. by destruct f. Qed.

Record vol_ok (f : Ext4Fs) : Prop := {
  vo_bs : 1024 ≤ block_size f < 2 ^ 32;
  vo_inode : 160 ≤ inode_size f < 2 ^ 16;
  vo_desc : 0 < desc_size f ≤ 64;
  vo_ipg : 0 < inodes_per_group f;
  vo_journal : journal f = None;
  vo_usize : Z.of_nat (length (disk f)) < 2 ^ 64;
}.
Lemma vol_ok_disk d f : vol_ok f → length d = length (disk f) → vol_ok (with_disk d f).
Proof. intros [] Hl. split; cbn; rewrite ?Hl; done. Qed.

Lemma read_at_ok f off n : vol_ok f → 0 ≤ off → off + Z.of_nat n ≤ Z.of_nat (length (disk f)) →
  read_bytes_at off n f = Some (f, Ok (slice (disk f) (Z.to_nat off) n)).
Proof. intros [] H0 H1. unfold read_bytes_at. by rewrite read_bytes_ok by lia. Qed.
Lemma write_at_ok f off data : vol_ok f → 0 ≤ off → off + Z.of_nat (length data) ≤ Z.of_nat (length (disk f)) →
  write_bytes_at off data f = Some (with_disk (splice (disk f) (Z.to_nat off) data) f, Ok tt).
Proof. intros [] H0 H1. unfold write_bytes_at. by rewrite write_bytes_ok by lia. Qed.
Lemma block_off f p : vol_ok f → 0 ≤ p → (p + 1) * block_size f ≤ Z.of_nat (length (disk f)) → wmul 64 p (block_size f) = p * block_size f.
Proof. intros [] H0 H1. unfold wmul. rewrite wrap_small; [done|]. unfold in_range. nia. Qed.
Lemma read_block_ok f p : vol_ok f → 0 ≤ p → (p + 1) * block_size f ≤ Z.of_nat (length (disk f)) →
  read_block p f = Some (f, Ok (blk (disk f) (block_size f) p)).
Proof. intros Hv H0 H1. unfold read_block. rewrite block_off by done. pose proof (vo_bs _ Hv). rewrite read_at_ok; [done|done|nia|]. unfold bsz. nia. Qed.
Lemma write_block_ok f p data : vol_ok f → 0 ≤ p → (p + 1) * block_size f ≤ Z.of_nat (length (disk f)) → length data = bsz f →
  write_block p data f = Some (with_disk (splice (disk f) (Z.to_nat (p * block_size f)) data) f, Ok tt).
Proof.
  intros Hv H0 H1 Hl. unfold write_block. rewrite Hl, Nat.ltb_irrefl. rewrite (vo_journal _ Hv), take_ge by lia. rewrite block_off by done.
  pose proof (vo_bs _ Hv). rewrite write_at_ok; [done|done|nia|]. rewrite Hl. unfold bsz. nia.
Qed.

(** Changing a part of a block in a copy of it. *)
Lemma splice_in_slice d a m o x : (a + m ≤ length d)%nat → (o + length x ≤ m)%nat → splice d a (splice (slice d a m) o x) = splice d (a + o) x.
Proof.
  intros Ha Ho. assert (d = take a d ++ slice d a m ++ drop (a + m) d) as Hd.
  { unfold slice. rewrite <- (take_drop a d) at 1. f_equal. rewrite <- (take_drop m (drop a d)) at 1. f_equal. by rewrite drop_drop. }
  assert (length (slice d a m) = m) as Hm by (by apply length_disk_slice). assert (length (take a d) = a) as Hta by (rewrite length_take; lia).
  rewrite Hd at 3. replace (a + o)%nat with (length (take a d) + o)%nat by lia. rewrite splice_middle by lia.
  unfold splice at 1. rewrite length_splice by lia. by rewrite Hm.
Qed.

(** ** Addresses *)
Section File.
Variables (v : list Z) (bs : Z).
Definition addr (q : Z) : option Z := p ← root_get (x_block v) (q / bs); Some (p * bs + q mod bs).
(** The bytes from [q] on have addresses, all different, on a disk of [len] bytes. *)
Record mapped (len q : Z) (n : nat) : Prop := {
  mp_some i : (i < n)%nat → ∃ p, root_get (x_block v) ((q + Z.of_nat i) / bs) = Some p ∧ 0 ≤ p ∧ (p + 1) * bs ≤ len;
  mp_inj i j p : (i < n)%nat → (j < n)%nat → root_get (x_block v) ((q + Z.of_nat i) / bs) = Some p → root_get (x_block v) ((q + Z.of_nat j) / bs) = Some p →
    (q + Z.of_nat i) / bs = (q + Z.of_nat j) / bs;
}.
Lemma mapped_drop len q n k : (k ≤ n)%nat → mapped len q n → mapped len (q + Z.of_nat k) (n - k).
Proof.
  intros Hk [H1 H2]. split.
  - intros i Hi. rewrite <- Z.add_assoc, <- Nat2Z.inj_add. apply H1. lia.
  - intros i j p Hi Hj. rewrite <- !Z.add_assoc, <- !Nat2Z.inj_add. apply H2; lia.
Qed.
Lemma addr_step q j : 0 < bs → 0 ≤ j → q mod bs + j < bs → (q + j) / bs = q / bs ∧ (q + j) mod bs = q mod bs + j.
Proof.
  intros Hb Hj H. pose proof (Z.mod_pos_bound q bs Hb). pose proof (Z.div_mod q bs ltac:(lia)).
  split; [symmetry; apply (Z.div_unique _ _ _ (q mod bs + j)); lia|symmetry; apply (Z.mod_unique _ _ (q / bs)); lia].
Qed.
Lemma addr_inj len q n i j a : 0 < bs → mapped len q n → (i < n)%nat → (j < n)%nat → addr (q + Z.of_nat i) = Some a → addr (q + Z.of_nat j) = Some a → i = j.
Proof.
  intros Hb [H1 H2] Hi Hj Ha Ha'. destruct (H1 i Hi) as (p & Hp & Hp0 & _). destruct (H1 j Hj) as (p' & Hp' & Hp0' & _).
  unfold addr in Ha, Ha'. rewrite Hp in Ha. rewrite Hp' in Ha'. cbn in Ha, Ha'. apply (inj Some) in Ha, Ha'. subst a.
  pose proof (Z.mod_pos_bound (q + Z.of_nat i) bs Hb). pose proof (Z.mod_pos_bound (q + Z.of_nat j) bs Hb).
  assert (p' = p) as -> by nia. specialize (H2 i j p Hi Hj Hp Hp'). pose proof (Z.div_mod (q + Z.of_nat i) bs ltac:(lia)). pose proof (Z.div_mod (q + Z.of_nat j) bs ltac:(lia)). nia.
Qed.
Lemma addr_bound len q n i : 0 < bs → mapped len q n → (i < n)%nat → ∃ a, addr (q + Z.of_nat i) = Some a ∧ 0 ≤ a < len.
Proof.
  intros Hb [H1 _] Hi. destruct (H1 i Hi) as (p & Hp & Hp0 & Hp1). exists (p * bs + (q + Z.of_nat i) mod bs). unfold addr. rewrite Hp. split; [done|].
  pose proof (Z.mod_pos_bound (q + Z.of_nat i) bs Hb). nia.
Qed.
(** Within a block addresses follow each other. *)
Lemma addr_next q a j : 0 < bs → addr q = Some a → (Z.of_nat j < bs - q mod bs) → addr (q + Z.of_nat j) = Some (a + Z.of_nat j).
Proof.
  intros Hb Ha Hj. destruct (addr_step q (Z.of_nat j)) as [E1 E2]; [done|lia|lia|]. unfold addr in *. rewrite E1, E2.
  destruct (root_get (x_block v) (q / bs)) as [p|]; [|done]. cbn in *. apply (inj Some) in Ha. subst a. f_equal. lia.
Qed.
End File.

Lemma lookup_splice l o x k : (o + length x ≤ length l)%nat → splice l o x !! k = if decide (o ≤ k < o + length x)%nat then x !! (k - o)%nat else l !! k.
Proof.
  intros H. unfold splice. case_decide as Hk.
  - rewrite lookup_app_r by (rewrite length_take; lia). rewrite lookup_app_l; rewrite length_take, Nat.min_l by lia; [done|lia].
  - destruct (decide (k < o)%nat).
    + rewrite lookup_app_l by (rewrite length_take; lia). rewrite lookup_take. by rewrite decide_True by lia.
    + rewrite !lookup_app_r by (rewrite ?length_take; lia). rewrite lookup_drop, length_take. f_equal. lia.
Qed.

Section Loops.
Variable v : list Z.
Hypothesis Hext : has_extent_tree v = true.
Hypothesis Hroot : root_ok (x_block v).

Lemma get_block_root k f : get_block v k f = Some (f, Ok (root_get (x_block v) k)).
Proof. unfold get_block. rewrite Hext. by apply extent_get_root. Qed.

(** What one round of writing does to the disk. *)
Definition chunk (bs q : Z) (data : list Z) : nat := Nat.min (Z.to_nat bs - Z.to_nat (q mod bs)) (length data).
Lemma write_round fuel ino q data f a : vol_ok f → 0 ≤ q → q + Z.of_nat (length data) < 2 ^ 64 → data ≠ [] → mapped v (block_size f) (Z.of_nat (length (disk f))) q (length data) →
  addr v (block_size f) q = Some a →
  let n := chunk (block_size f) q data in
  file_write_loop (S fuel) ino v q data f =
  file_write_loop fuel ino v (q + Z.of_nat n) (drop n data) (with_disk (splice (disk f) (Z.to_nat a) (take n data)) f).
Proof.
  intros Hv Hq Hlen Hne Hm Ha. pose proof (vo_bs _ Hv) as Hbs. assert (0 < length data)%nat as Hpos by (destruct data; [done|cbn; lia]).
  cbn [file_write_loop]. destruct data as [|x data'] eqn:Hdata; [done|]. rewrite <- Hdata in *. clear Hne. set (n := chunk (block_size f) q data). rewrite bind_get.
  rewrite (ext4_bind_ok _ _ _ _ _ (udiv_ok q (block_size f) f ltac:(lia))), (ext4_bind_ok _ _ _ _ _ (umod_ok q (block_size f) f ltac:(lia))).
  pose proof (Z.mod_pos_bound q (block_size f) ltac:(lia)) as Hmod. set (o := q mod block_size f) in *.
  change (Nat.min (bsz f - Z.to_nat o) (length data)) with n. rewrite (ext4_bind_ok _ _ _ _ _ (get_block_root (q / block_size f) f)).
  destruct (mp_some _ _ _ _ _ Hm 0%nat Hpos) as (p & Hp & Hp0 & Hp1). rewrite Z.add_0_r in Hp. rewrite Hp. unfold addr in Ha. rewrite Hp in Ha. cbn [mbind option_bind] in Ha. apply (inj Some) in Ha. fold o in Ha.
  rewrite (ext4_bind_ok _ _ _ _ _ (eq_refl : (mret (v, p) : Ext4M (list Z * Z)) f = Some (f, Ok (v, p)))). cbn iota beta.
  assert (1 ≤ n ≤ length data)%nat as Hn by (unfold n, chunk; fold o; lia). assert (Z.of_nat n ≤ block_size f - o) as Hno by (unfold n, chunk; fold o; lia).
  assert (length (take n data) = n) as Htk by (rewrite length_take; lia).
  assert ((if (o =? 0) && (n =? bsz f)%nat then write_bytes_at (wadd 64 (wmul 64 p (block_size f)) o) (take n data)
           else b ← read_block p; write_block p (splice b (Z.to_nat o) (take n data))) f = Some (with_disk (splice (disk f) (Z.to_nat a) (take n data)) f, Ok tt)) as Hw.
  { pose proof (Z.mul_nonneg_nonneg p (block_size f) Hp0 ltac:(lia)) as Hpb. rewrite Z.mul_add_distr_r, Z.mul_1_l in Hp1. pose proof (vo_usize _ Hv) as Hus.
    rewrite <- Ha. destruct ((o =? 0) && (n =? bsz f)%nat).
    - rewrite block_off by (done || lia). rewrite (wadd_small 64) by lia. rewrite write_at_ok; [done|done|lia|]. rewrite Htk. lia.
    - rewrite (ext4_bind_ok _ _ _ _ _ (read_block_ok f p Hv Hp0 ltac:(lia))). assert (length (blk (disk f) (block_size f) p) = bsz f) as Hlb by (apply length_disk_slice; unfold bsz; lia).
      rewrite write_block_ok; [|done|done|lia|rewrite length_splice; [done|]; rewrite Htk, Hlb; unfold bsz; lia].
      unfold blk. rewrite splice_in_slice by (rewrite ?Htk; lia). do 3 f_equal. f_equal. lia. }
  rewrite (ext4_bind_ok _ _ _ _ _ Hw). by rewrite (wadd_small 64) by lia.
Qed.

Lemma file_write_loop_spec ino fuel : ∀ data q f, vol_ok f → 0 ≤ q → q + Z.of_nat (length data) < 2 ^ 64 → (length data < fuel)%nat →
  mapped v (block_size f) (Z.of_nat (length (disk f))) q (length data) →
  ∃ d', file_write_loop fuel ino v q data f = Some (with_disk d' f, Ok v) ∧ length d' = length (disk f) ∧
    (∀ i x, data !! i = Some x → ∃ a, addr v (block_size f) (q + Z.of_nat i) = Some a ∧ d' !! Z.to_nat a = Some x) ∧
    (∀ k, (∀ i a, (i < length data)%nat → addr v (block_size f) (q + Z.of_nat i) = Some a → k ≠ Z.to_nat a) → d' !! k = disk f !! k).
Proof.
  induction fuel as [|fuel IH]; intros data q f Hv Hq Hlen Hf Hm; [lia|]. destruct (decide (data = [])) as [->|Hne].
  { exists (disk f). rewrite with_disk_same. done. }
  pose proof (vo_bs _ Hv) as Hbs. assert (0 < length data)%nat as Hpos by (destruct data; [done|cbn; lia]).
  destruct (addr_bound v (block_size f) _ q _ 0 ltac:(lia) Hm Hpos) as (a & Ha & Ha0). rewrite Z.add_0_r in Ha.
  rewrite (write_round fuel ino q data f a) by done. set (n := chunk (block_size f) q data).
  pose proof (Z.mod_pos_bound q (block_size f) ltac:(lia)) as Hmod.
  assert (1 ≤ n ≤ length data)%nat as Hn by (unfold n, chunk; lia). assert (Z.of_nat n ≤ block_size f - q mod block_size f) as Hno by (unfold n, chunk; lia).
  assert (length (take n data) = n) as Htk by (rewrite length_take; lia).
  assert (∀ j, (j < n)%nat → addr v (block_size f) (q + Z.of_nat j) = Some (a + Z.of_nat j)) as Hadd by (intros j Hj; apply addr_next; [lia|done|lia]).
  assert (a + Z.of_nat n ≤ Z.of_nat (length (disk f))) as Hfit.
  { destruct (addr_bound v (block_size f) _ q _ (n - 1) ltac:(lia) Hm ltac:(lia)) as (a' & Ha' & Hb'). rewrite Hadd in Ha' by lia. apply (inj Some) in Ha'. lia. }
  set (d1 := splice (disk f) (Z.to_nat a) (take n data)). assert (length d1 = length (disk f)) as Hl1 by (apply length_splice; rewrite Htk; lia).
  destruct (IH (drop n data) (q + Z.of_nat n) (with_disk d1 f)) as (d' & Hw & Hl' & Hin & Hout).
  { by apply vol_ok_disk. } { lia. } { rewrite length_drop. lia. } { rewrite length_drop. lia. }
  { cbn [with_disk on_disk disk block_size]. rewrite Hl1, length_drop. apply mapped_drop; [lia|done]. }
  cbn [with_disk on_disk disk block_size] in Hin, Hout, Hl'. rewrite length_drop in Hout.
  exists d'. split; [exact Hw|]. split; [by rewrite Hl'|]. split.
  - intros i x Hi. destruct (decide (i < n)%nat) as [Hlt|Hge].
    + exists (a + Z.of_nat i). split; [by apply Hadd|]. rewrite Hout.
      * unfold d1. rewrite lookup_splice by (rewrite Htk; lia). rewrite decide_True by (rewrite Htk; lia). rewrite lookup_take, decide_True by lia. rewrite <- Hi. f_equal. lia.
      * intros j b Hj Hb Heq. rewrite <- Z.add_assoc, <- Nat2Z.inj_add in Hb. pose proof (lookup_lt_Some _ _ _ Hi).
        destruct (addr_bound v (block_size f) _ q _ (n + j) ltac:(lia) Hm ltac:(lia)) as (b' & Hb' & ?). rewrite Hb in Hb'. apply (inj Some) in Hb' as <-.
        assert (b = a + Z.of_nat i) as -> by lia. pose proof (addr_inj v (block_size f) _ q _ (n + j) i _ ltac:(lia) Hm ltac:(lia) ltac:(lia) Hb (Hadd i Hlt)). lia.
    + destruct (Hin (i - n)%nat x) as (b & Hb & Hb'); [rewrite lookup_drop, <- Hi; f_equal; lia|]. exists b. split; [|done].
      rewrite <- Hb. f_equal. lia.
  - intros k Hk. rewrite Hout.
    + unfold d1. rewrite lookup_splice by (rewrite Htk; lia). rewrite decide_False; [done|]. rewrite Htk. intros [H1 H2].
      apply (Hk (k - Z.to_nat a)%nat (a + Z.of_nat (k - Z.to_nat a)) ltac:(lia)); [apply Hadd; lia|lia].
    + intros i b Hi Hb. rewrite <- Z.add_assoc, <- Nat2Z.inj_add in Hb. apply (Hk (n + i)%nat b); [lia|done].
Qed.

(** Reading bytes whose addresses hold [bytes]. *)
Lemma file_read_loop_spec f q bytes fuel : vol_ok f → 0 ≤ q → q + Z.of_nat (length bytes) < 2 ^ 64 → mapped v (block_size f) (Z.of_nat (length (disk f))) q (length bytes) →
  (∀ i x, bytes !! i = Some x → ∃ a, addr v (block_size f) (q + Z.of_nat i) = Some a ∧ disk f !! Z.to_nat a = Some x) →
  ∀ m, (m ≤ length bytes)%nat → (length bytes - m < fuel)%nat → read_loop fuel v q (length bytes) (take m bytes) f = Some (f, Ok bytes).
Proof.
  intros Hv Hq Hlen Hm Hb. pose proof (vo_bs _ Hv) as Hbs. induction fuel as [|fuel IH]; intros m Hml Hf; [lia|]. cbn [read_loop].
  assert (length (take m bytes) = m) as Htk by (rewrite length_take; lia). rewrite Htk. destruct (Nat.leb_spec (length bytes) m) as [Hle|Hgt].
  { rewrite take_ge by lia. done. }
  rewrite bind_get, (wadd_small 64) by lia. set (q' := q + Z.of_nat m). rewrite (ext4_bind_ok _ _ _ _ _ (udiv_ok q' (block_size f) f ltac:(lia))), (ext4_bind_ok _ _ _ _ _ (umod_ok q' (block_size f) f ltac:(lia))).
  rewrite (ext4_bind_ok _ _ _ _ _ (get_block_root (q' / block_size f) f)). pose proof (Z.mod_pos_bound q' (block_size f) ltac:(lia)) as Hmod. set (o := q' mod block_size f) in *.
  destruct (mp_some _ _ _ _ _ Hm m Hgt) as (p & Hp & Hp0 & Hp1). fold q' in Hp. rewrite Hp. set (n := Nat.min (bsz f - Z.to_nat o) (length bytes - m)).
  assert (1 ≤ n ≤ length bytes - m)%nat as Hn by (unfold n, bsz; lia). assert (Z.of_nat n ≤ block_size f - o) as Hno by (unfold n, bsz; lia).
  pose proof (Z.mul_nonneg_nonneg p (block_size f) Hp0 ltac:(lia)) as Hpb. rewrite Z.mul_add_distr_r, Z.mul_1_l in Hp1. pose proof (vo_usize _ Hv) as Hus.
  assert (read_bytes_at (wadd 64 (wmul 64 p (block_size f)) o) n f = Some (f, Ok (slice bytes m n))) as Hr.
  { rewrite block_off by (done || lia). rewrite (wadd_small 64) by lia. rewrite read_at_ok by (done || lia). do 3 f_equal. apply list_eq. intros i. unfold slice. rewrite !lookup_take.
    case_decide as Hi; [|done]. rewrite !lookup_drop. destruct (lookup_lt_is_Some_2 bytes (m + i)%nat ltac:(lia)) as [x Hx]. rewrite Hx. destruct (Hb _ _ Hx) as (a & Ha & Hd).
    assert (addr v (block_size f) q' = Some (p * block_size f + o)) as Ha'. { unfold addr. by rewrite Hp. }
    pose proof (addr_next v (block_size f) q' _ i ltac:(lia) Ha' ltac:(lia)) as Hnx. unfold q' in Hnx. rewrite <- Z.add_assoc, <- Nat2Z.inj_add, Ha in Hnx. apply (inj Some) in Hnx.
    rewrite <- Hd. f_equal. lia. }
  rewrite (ext4_bind_ok _ _ _ _ _ Hr). replace (take m bytes ++ slice bytes m n) with (take (m + n) bytes); [apply IH; lia|].
  unfold slice. by rewrite <- take_take_drop.
Qed.
End Loops.

(** ** Inodes *)
Definition desc_start (f : Ext4Fs) (ino : Z) : Z := desc_off f ((ino - 1) / inodes_per_group f).
Lemma inode_location_disk f d ino off : vol_ok f → length d = length (disk f) →
  slice d (Z.to_nat (desc_start f ino)) (Z.to_nat (desc_size f)) = slice (disk f) (Z.to_nat (desc_start f ino)) (Z.to_nat (desc_size f)) →
  inode_location ino f = Some (f, Ok off) → inode_location ino (with_disk d f) = Some (with_disk d f, Ok off).
Proof.
  intros Hv Hl Hs. pose proof (vo_ipg _ Hv). unfold inode_location. destruct (ino =? 0); [done|]. rewrite !bind_get. cbn [with_disk on_disk inodes_per_group].
  unfold udiv, umod. rewrite !(proj2 (Z.eqb_neq (inodes_per_group f) 0)) by lia. unfold mret, ext4_ret.
  unfold mbind, ext4_bind, group_inode_table, read_group_desc, get, mbind, ext4_bind. cbn [with_disk on_disk desc_size].
  destruct (64 <? desc_size f); [done|]. unfold read_bytes_at.
  repeat change (desc_off ?g ((ino - 1) / inodes_per_group f)) with (desc_start f ino). change (disk (with_disk d f)) with d. change (desc_size (with_disk d f)) with (desc_size f).
  unfold read_bytes, mret, ext4_ret. rewrite Hl, Hs. repeat case_match; simplify_eq; (done || (intros [= <-]; done)).
Qed.

(** The inode is on the disk, apart from the descriptor of its group. *)
Record inode_at (f : Ext4Fs) (ino off : Z) : Prop := {
  ia_loc : inode_location ino f = Some (f, Ok off);
  ia_pos : 0 ≤ off;
  ia_fit : off + inode_size f ≤ Z.of_nat (length (disk f));
  ia_desc : 0 ≤ desc_start f ino;
  ia_apart : off + inode_size f ≤ desc_start f ino ∨ desc_start f ino + desc_size f ≤ off;
}.
Lemma inode_at_disk f d ino off : vol_ok f → length d = length (disk f) →
  (∀ k, desc_start f ino ≤ Z.of_nat k < desc_start f ino + desc_size f → d !! k = disk f !! k) → inode_at f ino off → inode_at (with_disk d f) ino off.
Proof.
  intros Hv Hl Hk []. split; cbn [with_disk on_disk inode_size disk]; rewrite ?Hl; try done. apply inode_location_disk; [done|done| |done].
  apply list_eq. intros i. unfold slice. rewrite !lookup_take. case_decide; [|done]. rewrite !lookup_drop. apply Hk. lia.
Qed.
Lemma write_inode_spec f ino off v : vol_ok f → inode_at f ino off → length v = INODE_SZ →
  ∃ d', write_inode ino v f = Some (with_disk d' f, Ok tt) ∧ length d' = length (disk f) ∧ inode_at (with_disk d' f) ino off ∧
    read_inode ino (with_disk d' f) = Some (with_disk d' f, Ok v) ∧ (∀ k, (Z.of_nat k < off ∨ off + inode_size f ≤ Z.of_nat k) → d' !! k = disk f !! k).
Proof.
  intros Hv Hat Hlv. pose proof Hat as [Hloc H0 Hfit Hd0 Hap]. pose proof (vo_inode _ Hv) as Hsz. unfold INODE_SZ in Hlv. unfold write_inode. rewrite bind_get, (ext4_bind_ok _ _ _ _ _ Hloc).
  set (sz := Z.to_nat (inode_size f)). set (w := take sz (v ++ replicate (sz - length v) 0)). assert (length w = sz) as Hw by (unfold w; rewrite length_take, length_app, length_replicate; lia).
  exists (splice (disk f) (Z.to_nat off) w). set (d' := splice _ _ _). assert (length d' = length (disk f)) as Hl by (apply length_splice; lia).
  assert (∀ k, (Z.of_nat k < off ∨ off + inode_size f ≤ Z.of_nat k) → d' !! k = disk f !! k) as Hout.
  { intros k Hk. unfold d'. rewrite lookup_splice by lia. by rewrite decide_False by lia. }
  assert (inode_at (with_disk d' f) ino off) as Hat' by (apply inode_at_disk; [done|done| |done]; intros k Hk; apply Hout; lia).
  split; [rewrite write_at_ok; [done|done|done|rewrite Hw; lia]|]. split_and!; [done|done| |done].
  assert (vol_ok (with_disk d' f)) as Hv' by (by apply vol_ok_disk).
  unfold read_inode. rewrite bind_get, (ext4_bind_ok _ _ _ _ _ (ia_loc _ _ _ Hat')). cbn [with_disk on_disk inode_size]. fold (with_disk d' f).
  rewrite (ext4_bind_ok _ _ _ _ _ (read_at_ok (with_disk d' f) off sz Hv' H0 ltac:(cbn; rewrite Hl; lia))). rewrite (proj2 (Z.ltb_ge _ _)) by lia. cbn [with_disk on_disk disk].
  assert (slice d' (Z.to_nat off) sz = w) as -> by (unfold d'; rewrite <- Hw; apply slice_same; lia).
  unfold mret, ext4_ret. do 3 f_equal. rewrite Hw. unfold INODE_SZ. rewrite (proj2 (Nat.sub_0_le 160 sz)) by lia. cbn [replicate]. rewrite app_nil_r. unfold w.
  rewrite take_take, Nat.min_l by lia. rewrite take_app_le by lia. by rewrite take_ge by lia.
Qed.

(** ** Writing and reading *)
Lemma mapped_ext v v' bs len q n : x_block v' = x_block v → mapped v bs len q n → mapped v' bs len q n.
Proof. intros E [H1 H2]. split; rewrite E; done. Qed.
Lemma addr_ext v v' bs q : x_block v' = x_block v → addr v' bs q = addr v bs q.
Proof. intros E. unfold addr. by rewrite E. Qed.

Lemma slice_put_other raw off n x a m : (off + n ≤ length raw)%nat → (a + m ≤ off ∨ off + n ≤ a)%nat → slice (put raw off n x) a m = slice raw a m.
Proof. intros. unfold put. apply slice_other; rewrite length_le_bytes; lia. Qed.
Lemma resized_inode now size v : length v = INODE_SZ → is_u64 size →
  let v' := set_mtime now (set_size size v) in length v' = INODE_SZ ∧ x_block v' = x_block v ∧ x_flags v' = x_flags v ∧ x_size v' = size.
Proof.
  unfold INODE_SZ. intros Hl Hs. cbn zeta. unfold set_mtime, set_size.
  assert (length (put v 4 4 (wrap 32 size)) = 160%nat) as L1 by (rewrite length_put; lia).
  assert (length (put (put v 4 4 (wrap 32 size)) 108 4 (wrap 32 (Z.shiftr size 32))) = 160%nat) as L2 by (rewrite length_put; lia). split_and!.
  - rewrite length_put; lia.
  - unfold x_block. by rewrite !slice_put_other by lia.
  - unfold x_flags. rewrite !word_put_other by lia. done.
  - unfold x_size, x_size_hi, x_size_lo. rewrite !(word_put_other _ 16) by lia. rewrite word_put_same by lia. rewrite word_put_other by lia. rewrite word_put_same by lia.
    change (8 * Z.of_nat 4) with 32. rewrite !(wrap_small 32 (wrap 32 _)) by (by apply wrap_range). by apply (hilo_split 32).
Qed.

(** Nothing of the range lies in the inode or in the descriptor of its group. *)
Definition clear_of (v : list Z) (f : Ext4Fs) (ino off q : Z) (n : nat) : Prop :=
  ∀ i a, (i < n)%nat → addr v (block_size f) (q + Z.of_nat i) = Some a →
    (a < off ∨ off + inode_size f ≤ a) ∧ (a < desc_start f ino ∨ desc_start f ino + desc_size f ≤ a).

(** C13. Writing to a file and reading it back: where the blocks of a range are
    mapped by the extents of the inode, to different blocks that hold neither
    the inode nor its descriptor, [write_file] writes all of the data at any
    offset, reading the range gives the data, the inode on disk is the new
    one, with the size grown where the range ends behind it, and no other
    byte of the disk has changed. *)
Theorem write_read_file now ino v off data q f : vol_ok f → inode_at f ino off → length v = INODE_SZ → has_extent_tree v = true → root_ok (x_block v) → is_u64 (x_size v) →
  0 ≤ q → q + Z.of_nat (length data) < 2 ^ 64 → mapped v (block_size f) (Z.of_nat (length (disk f))) q (length data) → clear_of v f ino off q (length data) →
  ∃ f' v', write_file now ino v data q f = Some (f', Ok (v', length data)) ∧ read_inode ino f' = Some (f', Ok v') ∧
    x_size v' = Z.max (q + Z.of_nat (length data)) (x_size v) ∧ read_file v' (length data) q f' = Some (f', Ok data) ∧
    (∀ k, (∀ i a, (i < length data)%nat → addr v (block_size f) (q + Z.of_nat i) = Some a → k ≠ Z.to_nat a) → (Z.of_nat k < off ∨ off + inode_size f ≤ Z.of_nat k) →
       disk f' !! k = disk f !! k).
Proof.
  intros Hv Hat Hlv Hext Hroot Hsz Hq Hlen Hm Hcl. pose proof (vo_bs _ Hv) as Hbs.
  destruct (file_write_loop_spec v Hext Hroot ino (S (length data)) data q f Hv Hq Hlen ltac:(lia) Hm) as (d1 & Hw & Hl1 & Hin & Hout).
  set (size := Z.max (q + Z.of_nat (length data)) (x_size v)). assert (is_u64 size) as Hsize by (unfold size; destruct Hsz; split; lia).
  destruct (resized_inode now size v Hlv Hsize) as (R1 & R2 & R3 & R4). set (v' := set_mtime now (set_size size v)) in *.
  assert (∀ i a, (i < length data)%nat → addr v (block_size f) (q + Z.of_nat i) = Some a → 0 ≤ a) as Hpos.
  { intros i a Hi Ha. destruct (addr_bound v (block_size f) _ q _ i ltac:(lia) Hm Hi) as (b & Hb & ?). rewrite Ha in Hb. apply (inj Some) in Hb. lia. }
  assert (inode_at (with_disk d1 f) ino off) as Hat1.
  { apply inode_at_disk; [done|done| |done]. intros k Hk. apply Hout. intros i a Hi Ha. destruct (Hcl i a Hi Ha) as [_ Hd]. specialize (Hpos i a Hi Ha). lia. }
  destruct (write_inode_spec (with_disk d1 f) ino off v') as (d2 & Hwi & Hl2 & _ & Hri & Hout2); [by apply vol_ok_disk|done|done|].
  change (with_disk d2 (with_disk d1 f)) with (with_disk d2 f) in Hwi, Hri. cbn [with_disk on_disk disk inode_size] in Hl2, Hout2.
  exists (with_disk d2 f), v'. split; [|split; [done|split; [done|split]]].
  - unfold write_file. rewrite (ext4_bind_ok _ _ _ _ _ Hw). rewrite (wadd_small 64) by lia. fold size v'. by rewrite (ext4_bind_ok _ _ _ _ _ Hwi).
  - unfold read_file. rewrite R4. unfold size. destruct (Z.leb_spec (Z.max (q + Z.of_nat (length data)) (x_size v)) q) as [Hle|Hgt].
    { assert (data = []) as -> by (destruct data; [done|cbn in Hle; lia]). done. }
    rewrite Z.min_l, Nat2Z.id by lia. assert (has_extent_tree v' = true) as Hext' by (unfold has_extent_tree; by rewrite R3).
    pose proof (file_read_loop_spec v' Hext' ltac:(by rewrite R2) (with_disk d2 f) q data (S (length data)) ltac:(apply vol_ok_disk; [done|congruence]) Hq Hlen) as Hr.
    cbn [with_disk on_disk disk block_size] in Hr. rewrite Hl2, Hl1 in Hr. specialize (Hr (mapped_ext v v' _ _ _ _ R2 Hm)).
    rewrite <- (take_0 data). apply Hr; [|lia|lia]. intros i x Hi. destruct (Hin i x Hi) as (a & Ha & Hx). exists a. rewrite (addr_ext v v') by done. split; [done|].
    pose proof (lookup_lt_Some _ _ _ Hi) as Hi'. rewrite Hout2; [done|]. destruct (Hcl i a Hi' Ha) as [Hd _]. specialize (Hpos i a Hi' Ha). lia.
  - intros k Hk Hko. cbn [with_disk on_disk disk]. rewrite Hout2 by lia. by apply Hout.
Qed.

(** ** On the image: a new file with three bytes in block 10 *)
Definition demo_caller : Caller := mkCaller 0 0 7.
Definition demo_created : Ext4Fs := after (ext4_create demo_caller 2 [97] 0x1A4) image_fs.
Definition demo_written : Ext4Fs := after (ext4_write 7 11 [1; 2; 3] 0) demo_created.
Definition demo_inode : list Z := match answer (read_inode 11) demo_written with Some (Ok v) => v | _ => [] end.
Lemma inode_location_pure ino f : match inode_location ino f with Some (f', _) => f' = f | None => True end.
Proof.
  unfold inode_location. destruct (ino =? 0); [done|]. rewrite bind_get. unfold udiv, umod, group_inode_table, read_group_desc, read_bytes_at, mbind, ext4_bind, mret, ext4_ret, panic, get.
  repeat case_match; simplify_eq; done.
Qed.
Lemma demo_inode_at : inode_at demo_written 11 7680.
Proof.
  split; [|lia|vm_compute; discriminate|vm_compute; discriminate|right; vm_compute; discriminate].
  assert (option_map snd (inode_location 11 demo_written) = Some (Ok 7680)) as H by (vm_compute; reflexivity).
  pose proof (inode_location_pure 11 demo_written) as Hf.
  destruct (inode_location 11 demo_written) as [[f' r]|]; [|done]. subst f'. cbn in H. by injection H as ->.
Qed.
(** Bytes 1 and 2 of a file whose first block is block 10. *)
Lemma block_ten v f : block_size f = 1024 → Z.of_nat (length (disk f)) = 16384 → inode_size f = 256 → desc_size f = 32 → desc_start f 11 = 2048 → root_get (x_block v) 0 = Some 10 →
  mapped v (block_size f) (Z.of_nat (length (disk f))) 1 2 ∧ clear_of v f 11 7680 1 2.
Proof.
  intros Hbs Hl Hsz Hds Hd H0. assert (∀ i, (i < 2)%nat → (1 + Z.of_nat i) / 1024 = 0) as Hi by (intros i H; apply Z.div_small; lia). split; [split|].
  - intros i H. rewrite Hbs, Hi, Hl by done. exists 10. split; [done|lia].
  - intros i j p H1 H2 _ _. by rewrite Hbs, !Hi.
  - intros i a H. unfold addr. rewrite Hbs, Hi, H0, Hsz, Hds, Hd by done. cbn [mbind option_bind]. intros Ha. apply (inj Some) in Ha. pose proof (Z.mod_pos_bound (1 + Z.of_nat i) 1024 ltac:(lia)). lia.
Qed.
Lemma demo_range : mapped demo_inode (block_size demo_written) (Z.of_nat (length (disk demo_written))) 1 2 ∧ clear_of demo_inode demo_written 11 7680 1 2.
Proof. apply block_ten; vm_compute; reflexivity. Qed.
Lemma vol_facts f : block_size f = 1024 → inode_size f = 256 → desc_size f = 32 → inodes_per_group f = 16 → journal f = None → Z.of_nat (length (disk f)) = 16384 → vol_ok f.
Proof. intros H1 H2 H3 H4 H5 H6. split; rewrite ?H1, ?H2, ?H3, ?H4, ?H6; done || lia. Qed.
Lemma demo_vol : vol_ok demo_written.
Proof. apply vol_facts; vm_compute; reflexivity. Qed.
Lemma root_facts root : length root = 60%nat → forallb (λ x, (0 <=? x) && (x <? 256)) root = true → eh_magic root = EXT4_EXT_MAGIC → eh_depth root = 0 → eh_max root = 4 → eh_entries root = 1 → root_ok root.
Proof.
  intros H1 H2 H3 H4 H5 H6. split; try done; [|rewrite H6; done]. apply Forall_forall. intros x Hx. rewrite forallb_forall in H2. apply list_elem_of_In in Hx.
  specialize (H2 _ Hx). apply andb_prop in H2 as [?%Z.leb_le ?%Z.ltb_lt]. done.
Qed.
Lemma demo_root : root_ok (x_block demo_inode).
Proof. apply root_facts; vm_compute; reflexivity. Qed.
Lemma demo_size : is_u64 (x_size demo_inode).
Proof. replace (x_size demo_inode) with 3 by (vm_compute; reflexivity). done. Qed.
Lemma write_read_file_witness : ∃ f' v', write_file 9 11 demo_inode [8; 9] 1 demo_written = Some (f', Ok (v', 2%nat)) ∧ read_file v' 2 1 f' = Some (f', Ok [8; 9]).
Proof.
  assert (length demo_inode = INODE_SZ) as Hl by (vm_compute; reflexivity). assert (has_extent_tree demo_inode = true) as He by (vm_compute; reflexivity).
  destruct (write_read_file 9 11 demo_inode 7680 [8; 9] 1 demo_written demo_vol demo_inode_at Hl He demo_root demo_size ltac:(lia) eq_refl (proj1 demo_range) (proj2 demo_range))
    as (f' & v' & Hw & _ & _ & Hr & _).
  exists f', v'. split; [exact Hw|exact Hr].
Defined.
