(* ===== verification/Ext4Dir.v ===== *)
(** * Directories of ext4

    Adding an entry behind the last record of a directory block lists it after
    the others.  Runs on a small image show that a file is found and read
    after it was created, and what goes wrong when a record in the middle is
    removed or filled again, and when a file is truncated. *)
From S2P Require Import Prelude Bytes Utf8 Tmpfs Disk DiskFacts Ext4 Ext4Facts Ext4Files.

(** ** One block *)

(** The records from [p] on fill the block, and each name fits its record. *)
Inductive records (b : list Z) : nat → Prop :=
| rec_end : records b (length b)
| rec_next p : (p + 8 ≤ length b)%nat → (8 ≤ de_rec_len b p)%nat → (p + de_rec_len b p ≤ length b)%nat →
    (de_ino b p ≠ 0 → (round4 (8 + de_name_len b p) ≤ de_rec_len b p)%nat) → records b (p + de_rec_len b p) → records b p.
(** The first record with room for [need] bytes is the last one of the block. *)
Inductive last_slot (b : list Z) (need : nat) : nat → Prop :=
| slot_here p : (need + actual_len b p ≤ de_rec_len b p)%nat → (p + de_rec_len b p = length b)%nat → last_slot b need p
| slot_later p : (p + 8 ≤ length b)%nat → (de_rec_len b p < need + actual_len b p)%nat → last_slot b need (p + de_rec_len b p) → last_slot b need p.

Lemma round4_ge n : (n ≤ round4 n < n + 4)%nat.
Proof. unfold round4. pose proof (Nat.div_mod_eq (n + 3) 4). pose proof (Nat.mod_upper_bound (n + 3) 4). lia. Qed.

(** Blocks with the same bytes in front of [m]. *)
Definition same_upto (m : nat) (b b' : list Z) : Prop := length b' = length b ∧ ∀ k, (k < m)%nat → b' !! k = b !! k.
Lemma same_slice m b b' a n : same_upto m b b' → (a + n ≤ m)%nat → slice b' a n = slice b a n.
Proof. intros [Hl H] Hm. apply list_eq. intros i. unfold slice. rewrite !lookup_take. case_decide; [|done]. rewrite !lookup_drop. apply H. lia. Qed.
Lemma same_nth m b b' k : same_upto m b b' → (k < m)%nat → nth k b' 0 = nth k b 0.
Proof. intros [Hl H] Hk. rewrite !nth_lookup. by rewrite H. Qed.
Lemma same_fields m b b' p : same_upto m b b' → (p + 8 ≤ m)%nat →
  de_ino b' p = de_ino b p ∧ de_rec_len b' p = de_rec_len b p ∧ de_name_len b' p = de_name_len b p ∧ de_type b' p = de_type b p.
Proof.
  intros H Hm. unfold de_ino, de_rec_len, de_name_len, de_type, word. rewrite !(same_slice m b b') by (done || lia). rewrite !(same_nth m b b') by (done || lia). done.
Qed.
Lemma same_splice b off data : (off + length data ≤ length b)%nat → same_upto off b (splice b off data).
Proof. intros H. split; [by apply length_splice|]. intros k Hk. rewrite lookup_splice by done. by rewrite decide_False by lia. Qed.
Lemma same_weaken m m' b b' : (m' ≤ m)%nat → same_upto m b b' → same_upto m' b b'.
Proof. intros Hm [H1 H2]. split; [done|]. intros k Hk. apply H2. lia. Qed.
Lemma same_trans m b b' b'' : same_upto m b b' → same_upto m b' b'' → same_upto m b b''.
Proof. intros [H1 H2] [H3 H4]. split; [congruence|]. intros k Hk. by rewrite H4, H2. Qed.

(** The entry written at [p]. *)
Lemma put_entry_fields b p ino rec name ft b' : put_entry b p ino rec name ft = Some b' → is_u32 ino → is_u16 rec → (length name ≤ 255)%nat →
  same_upto p b b' ∧ (p + 8 + length name ≤ length b)%nat ∧ de_ino b' p = ino ∧ de_rec_len b' p = Z.to_nat rec ∧ de_name_len b' p = length name ∧ de_type b' p = ft ∧
  slice b' (p + 8) (length name) = name.
Proof.
  unfold put_entry. destruct (Nat.ltb_spec (length b) (p + 8 + length name)) as [|Hfit]; [done|]. intros Hb Hi Hr Hn. apply (inj Some) in Hb.
  set (tail := [wrap 8 (Z.of_nat (length name)); ft] ++ name) in Hb. set (E := le_bytes 4 ino ++ le_bytes 2 rec ++ tail) in Hb.
  assert (length E = 8 + length name)%nat as HE by (unfold E, tail; rewrite !length_app, !length_le_bytes; cbn; lia).
  assert (wrap 8 (Z.of_nat (length name)) = Z.of_nat (length name)) as Hw by (apply wrap_small; split; lia).
  subst b'. split; [apply same_splice; lia|]. split; [lia|].
  assert (∀ k, (k < length E)%nat → nth (p + k) (splice b p E) 0 = nth k E 0) as Hnth.
  { intros k Hk. rewrite !nth_lookup, lookup_splice by lia. rewrite decide_True by lia. do 2 f_equal. lia. }
  split_and!.
  - unfold de_ino. pose proof (word_inside b p [] (le_bytes 4 ino) (le_bytes 2 rec ++ tail) 4) as H. cbn [app length] in H. rewrite Nat.add_0_r in H.
    unfold E. rewrite H; [|fold E; lia|apply length_le_bytes]. rewrite le_value_bytes. by apply wrap_small.
  - unfold de_rec_len. pose proof (word_inside b p (le_bytes 4 ino) (le_bytes 2 rec) tail 2) as H. rewrite (length_le_bytes 4 ino) in H.
    unfold E. rewrite H; [|fold E; lia|apply length_le_bytes]. rewrite le_value_bytes. f_equal. by apply wrap_small.
  - unfold de_name_len. rewrite Hnth by lia. cbn [E le_bytes app tail nth]. rewrite Hw. lia.
  - unfold de_type. rewrite Hnth by lia. done.
  - pose proof (slice_slice (splice b p E) p (length E) 8 (length name) ltac:(lia)) as H. rewrite <- H, slice_same by lia. unfold slice, E, tail. cbn [le_bytes app drop]. apply take_ge. lia.
Qed.

(** One record of a listing. *)
Definition listed (b : list Z) (p : nat) : list RawEntry :=
  let n := de_name_len b p in
  if negb (de_ino b p =? 0) && (0 <? n)%nat && (p + 8 + n <=? length b)%nat then [(from_utf8_lossy (slice b (p + 8) n), de_ino b p, de_type b p)] else [].
Lemma entries_step n b p : (p + 8 ≤ length b)%nat → (8 ≤ de_rec_len b p)%nat → (p + de_rec_len b p ≤ length b)%nat →
  block_entries (S n) b p = listed b p ++ block_entries n b (p + de_rec_len b p).
Proof.
  intros H1 H2 H3. cbn [block_entries]. rewrite (proj2 (Nat.ltb_ge (length b) (p + 8))), (proj2 (Nat.ltb_ge (de_rec_len b p) 8)), (proj2 (Nat.ltb_ge (length b) (p + de_rec_len b p))) by lia. done.
Qed.
Lemma entries_end n b p : (length b < p + 8)%nat → block_entries n b p = [].
Proof. intros H. destruct n; [done|]. cbn [block_entries]. by rewrite (proj2 (Nat.ltb_lt _ _)). Qed.

Section Insert.
Variables (b : list Z) (ino ft : Z) (name : list Z).
Hypothesis Hino : 0 < ino < 2 ^ 32.
Hypothesis Hname : (0 < length name ≤ 255)%nat.
Hypothesis Hascii : Forall (λ c, c < 128) name.
Hypothesis Hlen : Z.of_nat (length b) < 2 ^ 16.

Definition need : nat := round4 (8 + length name).

(** The record that is found: nothing in front of its length changes, it is
    listed as before, and the new entry follows. *)
Lemma insert_here p b' : (p + 8 ≤ length b)%nat → (8 ≤ de_rec_len b p)%nat → (p + de_rec_len b p = length b)%nat → (need + actual_len b p ≤ de_rec_len b p)%nat →
  (let a := actual_len b p in let b1 := if (a =? 0)%nat then b else put b (p + 4) 2 (Z.of_nat a) in
   put_entry b1 (p + a) ino (wrap 16 (Z.of_nat (length b1) - Z.of_nat (p + a))) name ft) = Some b' →
  same_upto p b b' ∧ ∀ fuel, (3 ≤ fuel)%nat → block_entries fuel b' p = block_entries fuel b p ++ [(name, ino, ft)].
Proof.
  intros Hp8 Hr8 Hend Hslack. set (a := actual_len b p) in *. cbv zeta. set (b1 := if (a =? 0)%nat then b else put b (p + 4) 2 (Z.of_nat a)).
  pose proof (round4_ge (8 + length name)) as Hneed. fold need in Hneed. assert (length b1 = length b) as Hl1 by (unfold b1; case_match; [done|]; rewrite length_put; lia).
  intros Hput. apply put_entry_fields in Hput as (Hsame & Hfit & F1 & F2 & F3 & F4 & F5); [|unfold in_range; lia|by apply wrap_range|lia].
  assert (same_upto p b b1) as Hs1. { unfold b1. case_match; [by split|]. eapply same_weaken; [|apply same_splice; rewrite length_le_bytes]; lia. }
  split; [eapply same_trans; [exact Hs1|]; eapply same_weaken; [|exact Hsame]; lia|]. destruct Hsame as [Hlb' Hb']. rewrite Hl1 in *.
  assert (Z.to_nat (wrap 16 (Z.of_nat (length b) - Z.of_nat (p + a))) = length b - (p + a))%nat as Hrec by (rewrite wrap_small; [lia|unfold in_range; lia]). rewrite Hrec in F2.
  assert (∀ n, block_entries (S n) b' (p + a) = [(name, ino, ft)]) as Hnew.
  { intros n. rewrite entries_step by (rewrite ?Hlb', ?F2; lia). rewrite entries_end by (rewrite Hlb', F2; lia). unfold listed. rewrite Hlb', F1, F3, F4, F5.
    rewrite (proj2 (Z.eqb_neq ino 0)), (proj2 (Nat.ltb_lt 0 (length name))), (proj2 (Nat.leb_le (p + a + 8 + length name) (length b))) by lia. cbn [negb andb app]. by rewrite lossy_ascii. }
  intros [|[|[|fuel]]] Hf; [lia|lia|lia|]. destruct (Nat.eqb_spec a 0) as [Ha|Ha].
  - rewrite Ha, Nat.add_0_r in Hnew. rewrite Hnew. unfold a, actual_len in Ha. destruct (Z.eqb_spec (de_ino b p) 0) as [Hz|Hz]; [|pose proof (round4_ge (8 + de_name_len b p)); lia].
    rewrite entries_step, (entries_end _ b) by lia. unfold listed. by rewrite Hz.
  - assert (de_ino b p ≠ 0) as Hz by (unfold a, actual_len in Ha; destruct (Z.eqb_spec (de_ino b p) 0); done). assert (a = round4 (8 + de_name_len b p)) as Ea by (unfold a, actual_len; by rewrite (proj2 (Z.eqb_neq _ _) Hz)).
    pose proof (round4_ge (8 + de_name_len b p)) as Hr4. assert (b1 = put b (p + 4) 2 (Z.of_nat a)) as Eb1 by (by unfold b1).
    assert (same_upto (p + a) b1 b') as Hs2 by (split; [by rewrite Hl1|done]).
    destruct (same_fields _ _ _ p Hs2 ltac:(lia)) as (G1 & G2 & G3 & G4).
    assert (de_ino b1 p = de_ino b p ∧ de_rec_len b1 p = a ∧ de_name_len b1 p = de_name_len b p ∧ de_type b1 p = de_type b p) as (K1 & K2 & K3 & K4).
    { rewrite Eb1. unfold de_ino, de_rec_len, de_name_len, de_type. rewrite word_put_other, word_put_same by lia. change (8 * Z.of_nat 2) with 16. rewrite wrap_small by (unfold in_range; lia).
      rewrite !nth_lookup. unfold put. rewrite !lookup_splice by (rewrite length_le_bytes; lia). rewrite length_le_bytes, !decide_False by lia. split_and!; [done|lia|done|done]. }
    rewrite K1 in G1. rewrite K2 in G2. rewrite K3 in G3. rewrite K4 in G4.
    assert (slice b' (p + 8) (de_name_len b p) = slice b (p + 8) (de_name_len b p)) as Hnm.
    { rewrite (same_slice _ _ _ _ _ Hs2) by lia. rewrite Eb1. apply slice_put_other; lia. }
    rewrite entries_step by (rewrite ?Hlb', ?G2; lia). rewrite G2, Hnew. rewrite entries_step, (entries_end _ b) by lia. rewrite app_nil_r. unfold listed. by rewrite Hlb', G1, G3, G4, Hnm.
Qed.

Lemma insert_walk fuel : ∀ p, records b p → last_slot b need p → (length b - p + 24 ≤ 8 * fuel)%nat →
  ∃ b', insert_entry fuel b p ino name ft = Some (Some b') ∧ same_upto p b b' ∧ block_entries fuel b' p = block_entries fuel b p ++ [(name, ino, ft)].
Proof.
  pose proof (round4_ge (8 + length name)) as Hneed. fold need in Hneed.
  induction fuel as [|fuel IH]; intros p Hrec Hslot Hf; [lia|]. assert (p + 8 ≤ length b)%nat as Hp8 by (inversion Hslot; subst; [inversion Hrec; subst; lia|done]).
  inversion Hrec as [Ep|p' _ Hr8 Hr Hn Hrest Ep]; subst; [lia|]. assert (actual_len b p ≤ de_rec_len b p)%nat as Hal by (unfold actual_len; destruct (Z.eqb_spec (de_ino b p) 0); [lia|auto]).
  cbn [insert_entry]. rewrite (proj2 (Nat.ltb_ge _ _)), (proj2 (Nat.ltb_ge _ _)) by lia. fold need. rewrite wsub_small by lia. inversion Hslot as [p' H1 H2 Ep|p' _ H1 H2 Ep]; subst.
  - rewrite (proj2 (Z.leb_le _ _)) by lia. cbv zeta. set (a := actual_len b p) in *. set (b1 := if (a =? 0)%nat then b else _).
    assert (length b1 = length b) as Hl1 by (unfold b1; case_match; [done|]; rewrite length_put; lia).
    assert (∃ b', put_entry b1 (p + a) ino (wrap 16 (Z.of_nat (length b1) - Z.of_nat (p + a))) name ft = Some b') as [b' Hb'].
    { unfold put_entry. rewrite (proj2 (Nat.ltb_ge _ _)) by lia. eauto. }
    rewrite Hb'. exists b'. split; [done|]. destruct (insert_here p b' Hp8 Hr8 H2 H1 Hb') as [Hsame Hent]. split; [done|]. apply Hent. lia.
  - rewrite (proj2 (Z.leb_gt _ _)) by lia. destruct (IH _ Hrest H2 ltac:(lia)) as (b' & -> & Hsame & Hent). exists b'. split; [done|]. split; [eapply same_weaken; [|exact Hsame]; lia|].
    destruct (same_fields _ _ _ p Hsame ltac:(lia)) as (G1 & G2 & G3 & G4). destruct Hsame as [Hl' Hs'].
    rewrite !entries_step by (rewrite ?Hl', ?G2; lia). rewrite G2, Hent, app_assoc. f_equal. f_equal. unfold listed. rewrite Hl', G1, G3, G4.
    destruct (Z.eqb_spec (de_ino b p) 0) as [|Hz]; [done|]. specialize (Hn Hz). pose proof (round4_ge (8 + de_name_len b p)). rewrite (same_slice (p + de_rec_len b p) b b') by (done || lia). done.
Qed.
End Insert.

(** Adding an entry to a directory block whose last record is the first one
    with room: the block then lists what it listed before and the new entry
    at the end. *)
Theorem insert_entry_lists b ino name ft : 0 < ino < 2 ^ 32 → (0 < length name ≤ 255)%nat → Forall (λ c, c < 128) name → (8 ≤ length b)%nat → Z.of_nat (length b) < 2 ^ 16 →
  records b 0 → last_slot b (round4 (8 + length name)) 0 →
  ∃ b', insert_entry (length b) b 0 ino name ft = Some (Some b') ∧ block_entries (length b) b' 0 = block_entries (length b) b 0 ++ [(name, ino, ft)].
Proof.
  intros Hi Hn Ha H8 Hl Hr Hs. destruct (insert_walk b ino ft name Hi Hn Ha Hl (length b) 0 Hr Hs ltac:(lia)) as (b' & H1 & _ & H2). eauto.
Qed.

(** ** Examples *)
Definition small_block : list Z := padded 64 (image_dirent 2 12 DOT 2 ++ image_dirent 2 52 DOTDOT 2).
Lemma insert_entry_lists_witness : ∃ b', insert_entry 64 small_block 0 11 [97] 1 = Some (Some b') ∧ block_entries 64 b' 0 = [(DOT, 2, 2); (DOTDOT, 2, 2); ([97], 11, 1)].
Proof.
  destruct (insert_entry_lists small_block 11 [97] 1) as (b' & H1 & H2); [lia|cbn; lia|repeat constructor|vm_compute; lia|vm_compute; reflexivity| | |].
  - apply rec_next; [vm_compute; lia|vm_compute; lia|vm_compute; lia|intros _; vm_compute; lia|]. apply rec_next; [vm_compute; lia|vm_compute; lia|vm_compute; lia|intros _; vm_compute; lia|]. apply rec_end.
  - apply slot_later; [vm_compute; lia|vm_compute; lia|]. apply slot_here; [vm_compute; lia|vm_compute; reflexivity].
  - exists b'. split; [exact H1|]. etransitivity; [exact H2|]. vm_compute. reflexivity.
Defined.

Definition make (name : list Z) : Ext4M Inode := ext4_create demo_caller 2 name 0x1A4.
(** A file that was created, written and looked up. *)
Example created_and_read : root_names demo_written = Some [DOT; DOTDOT; [97]] ∧ option_map (fmap i_ino) (answer (ext4_lookup 2 [97]) demo_written) = Some (Ok 11) ∧
  answer (ext4_read 11 10 0) demo_written = Some (Ok [1; 2; 3]).
Proof. vm_compute. done. Qed.
(** Removing the last file of the root directory loses the other one: the
    length of its long record is added to the record of the dot. *)
Example unlink_loses_entry : let f := after (make [98]) (after (make [97]) image_fs) in
  root_names f = Some [DOT; DOTDOT; [97]; [98]] ∧ root_names (after (ext4_unlink 7 2 [98]) f) = Some [DOT; DOTDOT] ∧
  answer (ext4_lookup 2 [97]) (after (ext4_unlink 7 2 [98]) f) = Some (Err ENOENT).
Proof. vm_compute. done. Qed.
(** A new entry in the place of a removed one takes the rest of the block: the
    files behind it are lost. *)
Example refill_swallows : let f := after (make [99]) (after (make [98]) (after (make [97]) image_fs)) in
  root_names (after (ext4_unlink 7 2 [97]) f) = Some [DOT; DOTDOT; [98]; [99]] ∧
  root_names (after (make [100]) (after (ext4_unlink 7 2 [97]) f)) = Some [DOT; DOTDOT; [100]].
Proof. vm_compute. done. Qed.
(** A truncated file keeps its block, which is given to the next file: writing
    the one changes the other. *)
Example truncate_cross_links :
  let f := after (ext4_write 7 12 [5] 0) (after (make [98]) (after (ext4_truncate 7 11 0) demo_written)) in
  answer (ext4_read 12 10 0) f = Some (Ok [5]) ∧ answer (ext4_read 12 10 0) (after (ext4_write 7 11 [9] 0) f) = Some (Ok [9]).
Proof. vm_compute. done. Qed.
(** Freed blocks are not counted: six writes of one block to new files, each
    removed again, use up the group although its blocks are free. *)
Definition make_and_remove (f : Ext4Fs) : Ext4Fs := after (ext4_unlink 7 2 [97]) (after (ext4_write 7 11 [1] 0) (after (make [97]) f)).
Example free_count_lost : let f := Nat.iter 6 make_and_remove image_fs in
  root_names f = Some [DOT; DOTDOT] ∧ answer (ext4_write 7 11 [1] 0) (after (make [97]) f) = Some (Err ENOSPC).
Proof. vm_compute. done. Qed.
