(* ===== verification/Text.v ===== *)
(** * Strings

    What the kernel uses of Rust's [str]: a string is the list of its
    characters (code points).  Splitting, trimming, numbers in decimal and
    hexadecimal, and that reading a printed number gives it back. *)
From S2P Require Import Prelude.
From Stdlib Require Import Ascii.

Abbreviation str := (list Z).
Definition lit (s : string) : str := map (λ c, Z.of_nat (nat_of_ascii c)) (String.list_ascii_of_string s).

(** [char::is_whitespace] *)
Definition is_ws (c : Z) : bool :=
  ((9 <=? c) && (c <=? 13)) || (c =? 32) || (c =? 0x85) || (c =? 0xA0) || (c =? 0x1680) || ((0x2000 <=? c) && (c <=? 0x200A))
  || (c =? 0x2028) || (c =? 0x2029) || (c =? 0x202F) || (c =? 0x205F) || (c =? 0x3000).
Fixpoint trim_start (s : str) : str := match s with c :: r => if is_ws c then trim_start r else s | [] => [] end.
Definition trim (s : str) : str := rev (trim_start (rev (trim_start s))).

(** Pieces between the characters that satisfy [p]. *)
Fixpoint split_by (p : Z → bool) (s : str) : list str :=
  match s with
  | [] => [[]]
  | c :: r => if p c then [] :: split_by p r else match split_by p r with w :: ws => (c :: w) :: ws | [] => [[c]] end
  end.
Definition split_whitespace (s : str) : list str := filter (λ w, w ≠ []) (split_by is_ws s).
(** [str::lines]: the line ends are removed; nothing follows the last one. *)
Definition strip_cr (s : str) : str := match rev s with 13 :: r => rev r | _ => s end.
Fixpoint line_list (ps : list str) : list str :=
  match ps with
  | [] => []
  | [l] => if bool_decide (l = []) then [] else [l]
  | l :: r => strip_cr l :: line_list r
  end.
Definition lines (s : str) : list str := line_list (split_by (Z.eqb 10) s).
Definition strip_prefix (p s : str) : option str := if bool_decide (take (length p) s = p) then Some (drop (length p) s) else None.
Fixpoint join (sep : str) (ws : list str) : str :=
  match ws with
  | [] => []
  | [w] => w
  | w :: r => w ++ sep ++ join sep r
  end.

(** ** Numbers *)

(** The value of a digit, if it is one of the radix. *)
Definition digit (radix c : Z) : option Z :=
  let d := if (48 <=? c) && (c <=? 57) then c - 48 else if (97 <=? c) && (c <=? 122) then c - 87 else if (65 <=? c) && (c <=? 90) then c - 55 else radix in
  if d <? radix then Some d else None.
Fixpoint digits_value (radix acc : Z) (s : str) : option Z :=
  match s with
  | [] => Some acc
  | c :: r => d ← digit radix c; digits_value radix (acc * radix + d) r
  end.
(** [from_str_radix] of an unsigned type of [w] bits: a plus sign is allowed;
    the value only grows from digit to digit, so that it is enough to look at
    the end whether it is too large. *)
Definition from_str_radix (w radix : Z) (s : str) : option Z :=
  let s := match s with 43 :: r => if bool_decide (r = []) then s else r | _ => s end in
  if bool_decide (s = []) then None
  else v ← digits_value radix 0 s; if v <? 2 ^ w then Some v else None.

Definition digit_char (d : Z) : Z := if d <? 10 then 48 + d else 87 + d.
(** [{}] and [{:x}]: without leading zeros. *)
Fixpoint to_digits (fuel : nat) (radix n : Z) : str :=
  match fuel with
  | O => []
  | S fuel => if n <? radix then [digit_char n] else to_digits fuel radix (n / radix) ++ [digit_char (n mod radix)]
  end.
Definition decimal (n : Z) : str := to_digits 20 10 n.
(** [{:016x}] *)
Definition hex16 (n : Z) : str := let s := to_digits 16 16 n in replicate (16 - length s) 48 ++ s.

Lemma digit_of_char radix d : 0 < radix ≤ 36 → 0 ≤ d < radix → digit radix (digit_char d) = Some d.
Proof.
  intros Hr Hd. unfold digit, digit_char. destruct (Z.ltb_spec d 10).
  - rewrite (proj2 (Z.leb_le 48 _)), (proj2 (Z.leb_le _ 57)) by lia. cbn [andb]. replace (48 + d - 48) with d by lia. by rewrite (proj2 (Z.ltb_lt _ _)) by lia.
  - rewrite (proj2 (Z.leb_gt _ 57)), andb_false_r by lia. rewrite (proj2 (Z.leb_le 97 _)), (proj2 (Z.leb_le _ 122)) by lia. cbn [andb]. replace (87 + d - 87) with d by lia. by rewrite (proj2 (Z.ltb_lt _ _)) by lia.
Qed.
Lemma digits_value_app radix a s t : digits_value radix a (s ++ t) = (v ← digits_value radix a s; digits_value radix v t).
Proof. revert a. induction s as [|c s IH]; intros a; [done|]. cbn [digits_value app]. destruct (digit radix c); [|done]. apply IH. Qed.
Lemma digits_value_digits radix fuel : 2 ≤ radix ≤ 36 → ∀ n, 0 ≤ n < radix ^ Z.of_nat fuel → digits_value radix 0 (to_digits fuel radix n) = Some n.
Proof.
  intros Hr. induction fuel as [|fuel IH]; intros n Hn; [change (radix ^ Z.of_nat 0) with 1 in Hn; cbn; f_equal; lia|]. cbn [to_digits].
  destruct (Z.ltb_spec n radix) as [Hlt|Hge].
  - cbn [digits_value]. rewrite digit_of_char by lia. done.
  - rewrite Nat2Z.inj_succ, Z.pow_succ_r in Hn by lia. rewrite digits_value_app, IH by (split; [apply Z.div_pos; lia|apply Z.div_lt_upper_bound; lia]). cbn [mbind option_bind digits_value].
    rewrite digit_of_char by (try lia; apply Z.mod_pos_bound; lia). cbn [mbind option_bind]. f_equal. pose proof (Z.div_mod n radix). lia.
Qed.
Lemma to_digits_chars radix fuel n : 2 ≤ radix ≤ 36 → 0 ≤ n → Forall (λ c, 48 ≤ c ≤ 57 ∨ 97 ≤ c ≤ 122) (to_digits fuel radix n).
Proof.
  intros Hr. assert (∀ d, 0 ≤ d < radix → 48 ≤ digit_char d ≤ 57 ∨ 97 ≤ digit_char d ≤ 122) as Hd by (intros d Hd; unfold digit_char; destruct (Z.ltb_spec d 10); lia).
  revert n. induction fuel as [|fuel IH]; intros n Hn; [constructor|]. cbn [to_digits]. destruct (Z.ltb_spec n radix); [by constructor; [apply Hd|]|].
  apply Forall_app_2; [apply IH, Z.div_pos; lia|]. constructor; [|done]. apply Hd, Z.mod_pos_bound. lia.
Qed.
Lemma to_digits_nonempty radix fuel n : to_digits (S fuel) radix n ≠ [].
Proof. cbn [to_digits]. case_match; [done|]. by destruct (to_digits fuel radix (n / radix)). Qed.

(** Reading back digits that are not a plus sign. *)
Lemma from_digits w radix s v : Forall (λ c, 48 ≤ c ≤ 57 ∨ 97 ≤ c ≤ 122) s → s ≠ [] → digits_value radix 0 s = Some v → v < 2 ^ w → from_str_radix w radix s = Some v.
Proof.
  intros Hc Hne Hv Hlt. unfold from_str_radix. destruct s as [|c s]; [done|]. apply Forall_cons in Hc as [Hc _].
  assert ((match c :: s with 43 :: r => if bool_decide (r = []) then c :: s else r | _ => c :: s end) = c :: s) as ->.
  { destruct c as [|p|p]; [lia| |lia]. repeat (destruct p as [p|p|]; try done; try lia). }
  rewrite bool_decide_eq_false_2 by done. rewrite Hv. cbn [mbind option_bind]. by rewrite (proj2 (Z.ltb_lt _ _)).
Qed.
Lemma decimal_roundtrip w n : 0 ≤ n < 2 ^ w → 2 ^ w ≤ 2 ^ 64 → from_str_radix w 10 (decimal n) = Some n.
Proof.
  intros Hn Hw. apply from_digits; [apply to_digits_chars; lia|apply to_digits_nonempty| |lia]. apply digits_value_digits; [lia|]. change (10 ^ Z.of_nat 20) with 100000000000000000000. lia.
Qed.
Lemma hex16_roundtrip n : is_u64 n → from_str_radix 64 16 (hex16 n) = Some n.
Proof.
  intros Hn. assert (∀ k, digits_value 16 0 (replicate k 48) = Some 0) as Hz by (intros k; induction k; [done|]; cbn [replicate digits_value]; done).
  apply from_digits; [| | |apply Hn].
  - apply Forall_app_2; [apply Forall_replicate; lia|apply to_digits_chars; [lia|apply Hn]].
  - unfold hex16. intros H. apply app_nil in H as [_ H]. by apply to_digits_nonempty in H.
  - unfold hex16. rewrite digits_value_app, Hz. cbn [mbind option_bind]. apply digits_value_digits; [lia|]. change (16 ^ Z.of_nat 16) with (2 ^ 64). exact Hn.
Qed.

(** ** Text that was put together from words and lines *)
Definition word (w : str) : Prop := w ≠ [] ∧ Forall (λ c, is_ws c = false) w.
Lemma split_by_end p w c r : Forall (λ x, p x = false) w → p c = true → split_by p (w ++ c :: r) = w :: split_by p r.
Proof. intros Hw Hc. induction Hw as [|x w Hx Hw IH]; cbn [app split_by]; [by rewrite Hc|]. by rewrite Hx, IH. Qed.
Lemma split_by_one p w : Forall (λ x, p x = false) w → split_by p w = [w].
Proof. intros Hw. induction Hw as [|x w Hx Hw IH]; [done|]. cbn [split_by]. by rewrite Hx, IH. Qed.
Lemma split_by_join p c ws : p c = true → ws ≠ [] → Forall (Forall (λ x, p x = false)) ws → split_by p (join [c] ws) = ws.
Proof.
  intros Hc Hne Hw. induction Hw as [|w ws H Hws IH]; [done|]. destruct ws as [|w' ws]; [by apply split_by_one|].
  change (join [c] (w :: w' :: ws)) with (w ++ c :: join [c] (w' :: ws)). rewrite split_by_end by done. by rewrite IH.
Qed.
Lemma split_whitespace_join ws : Forall word ws → split_whitespace (join [32] ws) = ws.
Proof.
  intros Hw. unfold split_whitespace. destruct ws as [|w ws]; [done|]. rewrite split_by_join; [|done|done|eapply Forall_impl; [exact Hw|by intros ? [_ ?]]].
  induction Hw as [|x xs [Hx _] Hxs IH]; [done|]. rewrite filter_cons, decide_True by done. by rewrite IH.
Qed.
Lemma trim_start_head c r : is_ws c = false → trim_start (c :: r) = c :: r.
Proof. intros H. cbn [trim_start]. by rewrite H. Qed.
Lemma trim_solid c m d : is_ws c = false → is_ws d = false → trim (c :: m ++ [d]) = c :: m ++ [d].
Proof.
  intros Hc Hd. unfold trim. rewrite trim_start_head by done. rewrite app_comm_cons, rev_app_distr. cbn [rev app]. rewrite trim_start_head by done. cbn [rev].
  by rewrite rev_app_distr, rev_involutive.
Qed.
Lemma trim_word_ends s : (∃ c r, s = c :: r ∧ is_ws c = false) → (∃ r d, s = r ++ [d] ∧ is_ws d = false) → trim s = s.
Proof.
  intros (c & r & -> & Hc) (r' & d & E & Hd). destruct r' as [|c' m]; cbn [app] in E; injection E as -> ->; [|by apply trim_solid].
  unfold trim. rewrite trim_start_head by done. cbn [rev app]. by rewrite trim_start_head.
Qed.
Lemma word_last w : word w → ∃ r d, w = r ++ [d] ∧ is_ws d = false.
Proof.
  intros [Hne Hw]. destruct w as [|d r _] using rev_ind; [done|]. exists r, d. split; [done|]. apply Forall_app in Hw as [_ Hw]. by apply Forall_cons in Hw as [Hw _].
Qed.
Lemma trim_word w : word w → trim w = w.
Proof. intros Hw. apply trim_word_ends; [|by apply word_last]. destruct Hw as [Hne Hw]. destruct w as [|c r]; [done|]. apply Forall_cons in Hw as [Hw _]. eauto. Qed.
Lemma trim_join ws : Forall word ws → ws ≠ [] → trim (join [32] ws) = join [32] ws.
Proof.
  intros Hw Hne. apply trim_word_ends.
  - destruct ws as [|w ws]; [done|]. apply Forall_cons in Hw as [[Hn Hw] _]. destruct w as [|c r]; [done|]. apply Forall_cons in Hw as [Hc _].
    destruct ws as [|w' ws]; [by exists c, r|]. exists c, (r ++ [32] ++ join [32] (w' :: ws)). done.
  - induction ws as [|w ws IH]; [done|]. apply Forall_cons in Hw as [H Hw]. destruct ws as [|w' ws]; [by apply word_last|].
    destruct (IH Hw ltac:(done)) as (r & d & E & Hd). exists (w ++ [32] ++ r), d. split; [|done]. change (join [32] (w :: w' :: ws)) with (w ++ [32] ++ join [32] (w' :: ws)). rewrite E. by rewrite <- !app_assoc.
Qed.

(** Lines that hold neither a line feed nor a carriage return. *)
Definition line (l : str) : Prop := Forall (λ c, c ≠ 10 ∧ c ≠ 13) l.
Lemma strip_cr_line l : line l → strip_cr l = l.
Proof.
  intros Hl. unfold strip_cr. destruct (rev l) as [|c r] eqn:E; [done|]. assert (c ≠ 13) as Hc.
  { apply (f_equal (@rev Z)) in E. rewrite rev_involutive in E. subst l. cbn [rev] in Hl. apply Forall_app in Hl as [_ Hl]. by apply Forall_cons in Hl as [[_ ?] _]. }
  destruct c as [|p|p]; try done. repeat (destruct p as [p|p|]; try done).
Qed.
Lemma lines_concat ls : Forall line ls → lines (concat (map (λ l, l ++ [10]) ls)) = ls.
Proof.
  intros Hl. unfold lines. induction Hl as [|l ls H Hls IH]; [done|]. cbn [map concat]. rewrite <- app_assoc. cbn [app].
  rewrite split_by_end; [|eapply Forall_impl; [exact H|intros c [? _]; apply Z.eqb_neq; congruence]|done].
  destruct (split_by _ _) as [|x xs] eqn:E; cycle 1.
  - cbn [line_list]. cbn [line_list] in IH. by rewrite IH, strip_cr_line.
  - exfalso. clear IH. destruct (concat _) as [|c r]; cbn [split_by] in E; [done|]. destruct (10 =? c); [done|]. by destruct (split_by _ r).
Qed.
Lemma word_line w : word w → line w.
Proof. intros [_ Hw]. eapply Forall_impl; [exact Hw|]. intros c Hc. split; intros ->; done. Qed.
Lemma join_line sep ws : line sep → Forall line ws → line (join sep ws).
Proof.
  intros Hs Hw. induction Hw as [|w ws H Hws IH]; [constructor|]. destruct ws as [|w' ws]; [done|].
  change (join sep (w :: w' :: ws)) with (w ++ sep ++ join sep (w' :: ws)). apply Forall_app_2; [done|]. by apply Forall_app_2.
Qed.
Lemma strip_prefix_app p s : strip_prefix p (p ++ s) = Some s.
Proof. unfold strip_prefix. rewrite take_app_length, drop_app_length. by rewrite bool_decide_eq_true_2. Qed.
Lemma digits_word radix fuel n : 2 ≤ radix ≤ 36 → 0 ≤ n → word (to_digits (S fuel) radix n).
Proof.
  intros Hr Hn. split; [apply to_digits_nonempty|]. eapply Forall_impl; [by apply to_digits_chars|]. intros c Hc. cbn beta in Hc. unfold is_ws. lia.
Qed.
