(* ===== verification/Access.v ===== *)
(** * Access control

    Models the layers of kernel/src/security/mod.rs that decide about files,
    labels and network connections: permission bits, credentials and
    capabilities, mandatory access control, the audit ring.  (The filters of
    system calls are in Gate, the pointer check in VfsCalls.)  The caller's
    identity and the clock are arguments. *)
From S2P Require Import Prelude Bpf Seccomp Text.

(** ** Capabilities and permission bits *)
Definition CAP_KILL : Z := 2 ^ 5.
Definition CAP_SETGID : Z := 2 ^ 6.
Definition CAP_SETUID : Z := 2 ^ 7.
Definition CAP_NET_ADMIN : Z := 2 ^ 12.
Definition CAPS_ALL : Z := 2 ^ 64 - 1.
Definition CAPS_NONE : Z := 0.
Definition CAPS_DEFAULT_USER : Z := Z.lor (Z.lor CAP_KILL CAP_SETUID) CAP_SETGID.
Definition MAY_READ : Z := 4.
Definition MAY_WRITE : Z := 2.
Definition MAY_EXEC : Z := 1.

Definition dac_check (uid gid file_uid file_gid mode access : Z) : bool :=
  if uid =? 0 then true
  else
    let shift := if uid =? file_uid then 6 else if gid =? file_gid then 3 else 0 in
    negb (Z.land (Z.shiftr mode shift) access =? 0).
(** The caller is a process, or (0, 0). *)
Definition current_dac_check (cur : option (Z * Z)) (file_uid file_gid mode access : Z) : bool :=
  let '(uid, gid) := default (0, 0) cur in dac_check uid gid file_uid file_gid mode access.

Inductive SandboxLevel := SbNone | SbUser | SbRestricted | SbIsolated.
Record Credentials := mkCred {
  c_uid : Z;
  c_gid : Z;
  c_euid : Z;
  c_egid : Z;
  cap_eff : Z;
  cap_per : Z;
  cap_inh : Z;
  sandbox : SandboxLevel;
}.
Definition cred_root : Credentials := mkCred 0 0 0 0 CAPS_ALL CAPS_ALL CAPS_ALL SbNone.
Definition cred_user (uid gid : Z) : Credentials := mkCred uid gid uid gid CAPS_DEFAULT_USER CAPS_DEFAULT_USER CAPS_NONE SbUser.
Definition has_cap (cap : Z) (c : Credentials) : bool := (c_uid c =? 0) || negb (Z.land (cap_eff c) cap =? 0).
Definition drop_cap (cap : Z) (c : Credentials) : Credentials :=
  mkCred (c_uid c) (c_gid c) (c_euid c) (c_egid c) (Z.land (cap_eff c) (wnot 64 cap)) (Z.land (cap_per c) (wnot 64 cap)) (cap_inh c) (sandbox c).
Definition exec_transition (file_uid file_mode : Z) (c : Credentials) : Credentials :=
  let euid := if negb (Z.land file_mode 0x800 =? 0) then file_uid else c_euid c in
  let eff := if euid =? 0 then cap_per c else Z.land (cap_per c) (cap_inh c) in
  mkCred (c_uid c) (c_gid c) euid (c_egid c) eff (cap_per c) (cap_inh c) (sandbox c).
(** The capability is not looked at. *)
Definition current_has_cap (cur_uid : option Z) (cap : Z) : bool := default false ((λ u, u =? 0) <$> cur_uid).

(** ** Labels *)
Definition LABEL_KERNEL : Z := 0.
Definition LABEL_SYSTEM : Z := 0x0100000000000000.
Definition LABEL_USER : Z := 0x0200000000000000.
Definition LABEL_UNTRUSTED : Z := 0x0300000000000000.
Definition LABEL_RESTRICTED : Z := 0x0400000000000000.
Definition level (l : Z) : Z := Z.land (Z.shiftr l 56) 0xFF.
Definition category (l : Z) : Z := Z.land (Z.shiftr l 32) 0x00FFFFFF.
Definition integrity (l : Z) : Z := Z.land (Z.shiftr l 24) 0xFF.
Definition can_flow (subject object : Z) : bool := (subject =? LABEL_KERNEL) || (level object <=? level subject).

Definition MAC_READ : Z := 1.
Definition MAC_WRITE : Z := 2.
Definition MAC_EXEC : Z := 4.
Definition MAC_NET : Z := 8.
Definition MAC_IPC : Z := 16.
Definition MAC_SIGNAL : Z := 32.
Definition MAC_PTRACE : Z := 64.
Definition MAC_ADMIN : Z := 128.
Definition MAC_ALL : Z := 0xFFFFFFFF.
Definition mac_allows (rights access : Z) : bool := Z.land rights access =? access.

Record MacRule := mkRule { r_subject : Z; r_object : Z; r_access : Z }.
Record MacPolicy := mkPolicy { rules : list MacRule; enabled : bool; default_deny : bool }.
Definition policy_new : MacPolicy := mkPolicy [] false false.
Definition rule_for (subject object : Z) (r : MacRule) : Prop := r_subject r = subject ∧ r_object r = object.
#[export] Instance rule_for_dec subject object r : Decision (rule_for subject object r).
Proof. unfold rule_for. apply _. Defined.
Fixpoint find_rule (subject object : Z) (rs : list MacRule) : option Z :=
  match rs with
  | [] => None
  | r :: rs => if decide (rule_for subject object r) then Some (r_access r) else find_rule subject object rs
  end.
Definition policy_check (p : MacPolicy) (subject object access : Z) : bool :=
  if negb (enabled p) then true
  else if subject =? LABEL_KERNEL then true
  else if negb (can_flow subject object) then false
  else match find_rule subject object (rules p) with Some a => mac_allows a access | None => negb (default_deny p) end.
Definition add_rule (subject object access : Z) (p : MacPolicy) : MacPolicy :=
  mkPolicy (filter (λ r, ¬ rule_for subject object r) (rules p) ++ [mkRule subject object access]) (enabled p) (default_deny p).

(** ** The audit ring *)
Definition AUDIT_RING_SIZE : nat := 256.
Inductive AuditEvent :=
| SyscallBlocked (pid nr : Z)
| CapDenied (pid cap : Z)
| MacDenied (subject object access : Z)
| ExecEvent (pid : Z) (path : list Z)
| SetuidEvent (pid old_uid new_uid : Z)
| NetworkConnect (pid dst_ip dst_port : Z)
| FileDenied (pid : Z) (path : list Z).
Record AuditEntry := mkEntry { a_tick : Z; a_pid : Z; a_kind : Z; a_detail : list Z }.
Record AuditRing := mkRing { r_entries : list AuditEntry; r_head : Z; r_total : Z }.
Definition ring_new : AuditRing := mkRing (replicate AUDIT_RING_SIZE (mkEntry 0 0 0 (replicate 48 0))) 0 0.
Definition ring_slot (k : Z) : nat := Z.to_nat (k mod 256).
Definition ring_push (tick pid kind : Z) (detail : list Z) (r : AuditRing) : AuditRing :=
  let slot := ring_slot (r_head r) in
  let old := default (mkEntry 0 0 0 (replicate 48 0)) (r_entries r !! slot) in
  let n := Nat.min (length detail) 48 in
  mkRing (<[slot := mkEntry tick pid kind (take n detail ++ drop n (a_detail old))]> (r_entries r)) (wadd 64 (r_head r) 1) (wadd 64 (r_total r) 1).
(** The entries in the order in which [read_text] prints them. *)
Definition ring_list (r : AuditRing) : list AuditEntry :=
  let start := if 256 <=? r_total r then r_head r mod 256 else 0 in
  let count := Z.to_nat (Z.min (r_total r) 256) in
  map (λ i, default (mkEntry 0 0 0 []) (r_entries r !! ring_slot (start + Z.of_nat i))) (seq 0 count).
Definition utf8_arrow : list Z := [0xE2; 0x86; 0x92].
Definition hexadecimal (n : Z) : str := lit "0x" ++ to_digits 16 16 n.
Definition pad48 (s : list Z) : list Z := take 48 s ++ replicate (48 - length s) 0.
Definition event_entry (e : AuditEvent) : Z * Z * list Z :=
  match e with
  | SyscallBlocked pid nr => (pid, 1, pad48 (lit "nr=" ++ decimal nr))
  | CapDenied pid cap => (pid, 2, pad48 (lit "cap=" ++ hexadecimal cap))
  | MacDenied s o a => (0, 3, pad48 (lit "s=" ++ hexadecimal s ++ lit " o=" ++ hexadecimal o ++ lit " a=" ++ hexadecimal a))
  | ExecEvent pid path => (pid, 4, take 48 path)
  | SetuidEvent pid old new => (pid, 5, pad48 (decimal old ++ utf8_arrow ++ decimal new))
  | NetworkConnect pid ip port =>
      (pid, 6, pad48 (decimal (Z.shiftr ip 24) ++ lit "." ++ decimal (Z.land (Z.shiftr ip 16) 0xFF) ++ lit "." ++ decimal (Z.land (Z.shiftr ip 8) 0xFF)
        ++ lit "." ++ decimal (Z.land ip 0xFF) ++ lit ":" ++ decimal port))
  | FileDenied pid path => (pid, 7, take 48 path)
  end.
Fixpoint upto_zero (s : list Z) : list Z := match s with c :: r => if c =? 0 then [] else c :: upto_zero r | [] => [] end.
Definition entry_text (e : AuditEntry) : str :=
  lit "tick=" ++ decimal (a_tick e) ++ lit " pid=" ++ decimal (a_pid e) ++ lit " kind=" ++ decimal (a_kind e)
  ++ lit " detail=[" ++ join (lit ", ") (map decimal (upto_zero (a_detail e))) ++ lit "]" ++ [10].
Definition read_text (r : AuditRing) : str := concat (map entry_text (ring_list r)).

(** ** The state of the module and its checks *)
Record Security := mkSec { mac_policy : MacPolicy; mac_enabled : bool; audit : option AuditRing; audit_enabled : bool }.
Definition security_start : Security := mkSec policy_new false None false.
Definition set_policy (p : MacPolicy) (s : Security) : Security := mkSec p (mac_enabled s) (audit s) (audit_enabled s).
Definition mac_switch (on : bool) (s : Security) : Security :=
  let p := mac_policy s in mkSec (mkPolicy (rules p) on (default_deny p)) on (audit s) (audit_enabled s).
Definition mac_add_rule (subject object access : Z) (s : Security) : Security := set_policy (add_rule subject object access (mac_policy s)) s.
Definition audit_enable (s : Security) : Security := mkSec (mac_policy s) (mac_enabled s) (Some ring_new) true.
Definition audit_log (tick : Z) (e : AuditEvent) (s : Security) : Security :=
  if negb (audit_enabled s) then s
  else match audit s with
  | None => s
  | Some r => let '(pid, kind, detail) := event_entry e in mkSec (mac_policy s) (mac_enabled s) (Some (ring_push tick pid kind detail r)) (audit_enabled s)
  end.
Definition audit_read (s : Security) : str := match audit s with Some r => read_text r | None => [] end.
Definition mac_check (tick subject object access : Z) (s : Security) : Security * bool :=
  if negb (mac_enabled s) then (s, true)
  else
    let ok := policy_check (mac_policy s) subject object access in
    (if ok then s else audit_log tick (MacDenied subject object access) s, ok).
Definition qsf_check_file (tick uid gid file_uid file_gid file_mode access subject_label object_label : Z) (s : Security) : Security * QsfResult :=
  if negb (dac_check uid gid file_uid file_gid file_mode access) then (s, Deny)
  else
    let mac_access :=
      if negb (Z.land access MAY_READ =? 0) then MAC_READ else if negb (Z.land access MAY_WRITE =? 0) then MAC_WRITE
      else if negb (Z.land access MAY_EXEC =? 0) then MAC_EXEC else MAC_READ in
    let '(s, ok) := mac_check tick subject_label object_label mac_access s in
    (s, if ok then Allow else Deny).
(** [cur_uid] is the caller's, where there is one. *)
Definition qsf_check_network (tick : Z) (cur_uid : option Z) (pid dst_ip dst_port : Z) (s : Security) : Security * QsfResult :=
  if negb (current_has_cap cur_uid CAP_NET_ADMIN) && negb (dst_port =? 0) && (dst_port <=? 1023) && negb (default 1 cur_uid =? 0) then (s, Deny)
  else (if audit_enabled s && negb (dst_ip =? 0x7F000001) then audit_log tick (NetworkConnect pid dst_ip dst_port) s else s, Allow).
Definition security_init (s : Security) : Security := audit_enable s.

(** ** Rules are a partial map *)
Lemma find_rule_app s o rs rs' : find_rule s o (rs ++ rs') = match find_rule s o rs with Some a => Some a | None => find_rule s o rs' end.
Proof. induction rs as [|r rs IH]; [done|]. cbn [app find_rule]. case_decide; [done|apply IH]. Qed.
Lemma find_rule_filter s o s' o' rs : find_rule s o (filter (λ r, ¬ rule_for s' o' r) rs) = if decide (s = s' ∧ o = o') then None else find_rule s o rs.
Proof.
  induction rs as [|r rs IH]; [by case_decide|]. cbn [find_rule]. rewrite filter_cons. destruct (decide (rule_for s' o' r)) as [Hr|Hr].
  - rewrite decide_False by tauto. rewrite IH. repeat case_decide; try done. exfalso. unfold rule_for in *. naive_solver.
  - rewrite decide_True by done. cbn [find_rule]. rewrite IH. repeat case_decide; try done. exfalso. unfold rule_for in *. naive_solver.
Qed.
Lemma find_add_rule s o a s' o' p : find_rule s' o' (rules (add_rule s o a p)) = if decide (s' = s ∧ o' = o) then Some a else find_rule s' o' (rules p).
Proof.
  cbn [add_rule rules]. rewrite find_rule_app, find_rule_filter. destruct (decide (s' = s ∧ o' = o)) as [[-> ->]|Hne].
  - cbn [find_rule r_access]. by rewrite decide_True by done.
  - destruct (find_rule s' o' (rules p)); [done|]. cbn [find_rule]. rewrite decide_False; [done|]. unfold rule_for. cbn. naive_solver.
Qed.

(** The policy is a map from pairs of labels to rights: a rule decides
    about its pair from then on, whatever was said before, and about no other
    pair.  A subject of a lower level than the object is refused all the same,
    and the kernel's label passes. *)
Theorem mac_rule_decides s o a access s' o' p : enabled p = true → s' ≠ LABEL_KERNEL →
  policy_check (add_rule s o a p) s' o' access =
    if decide (s' = s ∧ o' = o) then (level o' <=? level s') && mac_allows a access else policy_check p s' o' access.
Proof.
  intros He Hk. unfold policy_check. rewrite find_add_rule. cbn [add_rule enabled default_deny]. rewrite He. cbn [negb]. rewrite (proj2 (Z.eqb_neq _ _) Hk).
  unfold can_flow. rewrite (proj2 (Z.eqb_neq _ _) Hk). cbn [orb]. destruct (level o' <=? level s'); cbn [negb andb]; case_decide; done.
Qed.
Lemma mac_rule_decides_witness : policy_check (add_rule LABEL_USER LABEL_USER MAC_READ (mkPolicy [] true true)) LABEL_USER LABEL_USER MAC_READ = true.
Proof. rewrite (mac_rule_decides LABEL_USER LABEL_USER MAC_READ MAC_READ LABEL_USER LABEL_USER (mkPolicy [] true true) eq_refl ltac:(discriminate)). reflexivity. Defined.

(** ** A dropped capability *)
Inductive cred_step : Credentials → Credentials → Prop :=
| step_drop cap c : is_u64 cap → cred_step c (drop_cap cap c)
| step_exec file_uid file_mode c : cred_step c (exec_transition file_uid file_mode c).
Inductive cred_run : Credentials → Credentials → Prop :=
| run_here c : cred_run c c
| run_step c c' c'' : cred_step c c' → cred_run c' c'' → cred_run c c''.

Lemma land_zero_l a b c : Z.land a c = 0 → Z.land (Z.land a b) c = 0.
Proof. intros H. rewrite <- Z.land_assoc, (Z.land_comm b c), Z.land_assoc, H. done. Qed.
(** A capability that was dropped does not come back: not by executing a
    program, set-uid root or not, and not by dropping others.  Only the user
    with number 0 has it none the less. *)
Theorem dropped_cap_stays cap c c' : is_u64 cap → cred_run (drop_cap cap c) c' → c_uid c' = c_uid c ∧ has_cap cap c' = (c_uid c =? 0).
Proof.
  intros Hcap Hrun. assert (∀ x : Z, Z.land (Z.land x (wnot 64 cap)) cap = 0) as Hw.
  { intros x. apply Z.bits_inj'. intros i Hi. rewrite !Z.land_spec, Z.bits_0. destruct (Z.lt_ge_cases i 64); [rewrite wnot_testbit by (done || lia)|rewrite (testbit_above 64 cap i) by (done || lia)].
    - destruct (Z.testbit cap i); cbn; by rewrite ?andb_false_r.
    - apply andb_false_r. }
  assert (Z.land (cap_eff (drop_cap cap c)) cap = 0 ∧ Z.land (cap_per (drop_cap cap c)) cap = 0 ∧ c_uid (drop_cap cap c) = c_uid c) as Hinv by (split_and!; [apply Hw|apply Hw|done]).
  remember (drop_cap cap c) as d eqn:Hd. clear Hd. induction Hrun as [d|d d' d'' Hs Hr IH]; destruct Hinv as (H1 & H2 & H3).
  - split; [done|]. unfold has_cap. rewrite H1, H3. by destruct (c_uid c =? 0).
  - apply IH. destruct Hs as [k d Hk|fu fm d]; cbn [drop_cap exec_transition cap_eff cap_per c_uid]; split_and!; try done; try by apply land_zero_l.
    case_match; [exact H2|by apply land_zero_l].
Qed.
Lemma dropped_cap_stays_witness : has_cap CAP_KILL (exec_transition 0 0x800 (drop_cap CAP_KILL (cred_user 7 7))) = false.
Proof.
  destruct (dropped_cap_stays CAP_KILL (cred_user 7 7) (exec_transition 0 0x800 (drop_cap CAP_KILL (cred_user 7 7)))) as [_ H]; [done| |exact H].
  eapply run_step; [apply step_exec|apply run_here].
Defined.

(** ** The ring keeps the last entries *)
Definition log_entry : Type := Z * Z * Z * list Z.
Definition push_entry (r : AuditRing) (e : log_entry) : AuditRing := let '(t, p, k, d) := e in ring_push t p k d r.
Definition logged_entry (e : log_entry) : AuditEntry := let '(t, p, k, d) := e in mkEntry t p k d.
Record ring_holds (r : AuditRing) (es : list log_entry) : Prop := {
  rh_len : length (r_entries r) = AUDIT_RING_SIZE;
  rh_head : r_head r = Z.of_nat (length es);
  rh_total : r_total r = Z.of_nat (length es);
  rh_entries i e : es !! i = Some e → (length es ≤ i + 256)%nat → r_entries r !! ring_slot (Z.of_nat i) = Some (logged_entry e);
  rh_detail i e : r_entries r !! i = Some e → length (a_detail e) = 48%nat;
}.
Lemma ring_slot_bound k : (ring_slot k < 256)%nat.
Proof. unfold ring_slot. pose proof (Z.mod_pos_bound k 256). lia. Qed.
Lemma push_holds r es e : ring_holds r es → length e.2 = 48%nat → Z.of_nat (length es) + 1 < 2 ^ 64 → ring_holds (push_entry r e) (es ++ [e]).
Proof.
  intros [H1 H2 H3 H4 H5] Hd Hn. destruct e as [[[t p] k] d]. cbn [snd] in Hd. unfold push_entry, ring_push. rewrite Hd. cbn [Nat.min]. rewrite take_ge by lia.
  assert (∀ l : list Z, length l = 48%nat → drop 48 l = []) as Hdrop by (intros l Hl; apply drop_ge; lia).
  assert (length (a_detail (default (mkEntry 0 0 0 (replicate 48 0)) (r_entries r !! ring_slot (r_head r)))) = 48%nat) as Hold.
  { destruct (r_entries r !! ring_slot (r_head r)) as [x|] eqn:E; [by eapply H5|done]. }
  rewrite Hdrop, app_nil_r by done. split; cbn [r_entries r_head r_total].
  - by rewrite length_insert.
  - rewrite length_app, H2, wadd_small; cbn [length]; lia.
  - rewrite length_app, H3, wadd_small; cbn [length]; lia.
  - intros i e Hi Hle. rewrite length_app in Hle. cbn [length] in Hle. destruct (decide (i = length es)) as [->|Hne].
    + rewrite H2, list_lookup_insert_eq by (rewrite H1; apply ring_slot_bound). rewrite lookup_app_r, Nat.sub_diag in Hi by done. injection Hi as <-. done.
    + assert (i < length es)%nat as Hlt by (apply lookup_lt_Some in Hi; rewrite length_app in Hi; cbn in Hi; lia). rewrite list_lookup_insert_ne.
      * apply H4; [by rewrite lookup_app_l in Hi|lia].
      * rewrite H2. unfold ring_slot. intros E. pose proof (Z.mod_pos_bound (Z.of_nat i) 256 ltac:(lia)). pose proof (Z.mod_pos_bound (Z.of_nat (length es)) 256 ltac:(lia)).
        pose proof (Z.div_mod (Z.of_nat i) 256 ltac:(lia)). pose proof (Z.div_mod (Z.of_nat (length es)) 256 ltac:(lia)). lia.
  - intros i e Hi. destruct (decide (i = ring_slot (r_head r))) as [->|].
    + rewrite list_lookup_insert_eq in Hi by (rewrite H1; apply ring_slot_bound). by injection Hi as <-.
    + rewrite list_lookup_insert_ne in Hi by done. by eapply H5.
Qed.
Lemma ring_holds_all es : Forall (λ e : log_entry, length e.2 = 48%nat) es → Z.of_nat (length es) < 2 ^ 64 → ring_holds (fold_left push_entry es ring_new) es.
Proof.
  induction es as [|e es IH] using rev_ind; intros Hd Hn.
  - split; try done. intros i e Hi. cbn [fold_left ring_new r_entries] in Hi. apply lookup_replicate in Hi as [-> _]. done.
  - rewrite fold_left_app. cbn [fold_left]. apply Forall_app in Hd as [Hd He]. apply Forall_cons in He as [He _]. rewrite length_app in Hn. cbn [length] in Hn.
    apply push_holds; [apply IH; [done|lia]|done|lia].
Qed.

(** Reading the audit ring gives the last 256 events that were logged, or
    all of them if there were fewer, oldest first. *)
Theorem audit_ring_last es : Forall (λ e : log_entry, length e.2 = 48%nat) es → Z.of_nat (length es) < 2 ^ 64 →
  ring_list (fold_left push_entry es ring_new) = map logged_entry (drop (length es - 256) es).
Proof.
  intros Hd Hn. destruct (ring_holds_all es Hd Hn) as [H1 H2 H3 H4 _]. set (r := fold_left push_entry es ring_new) in *. unfold ring_list. rewrite H3, H2.
  apply list_eq. intros i. assert (Z.to_nat (Z.min (Z.of_nat (length es)) 256) = length es - (length es - 256))%nat as -> by lia.
  destruct (decide (i < length es - (length es - 256))%nat) as [Hi|Hi].
  - rewrite !list_lookup_fmap. rewrite lookup_seq_lt by done. rewrite lookup_drop. destruct (lookup_lt_is_Some_2 es (length es - 256 + i)%nat ltac:(lia)) as [e He]. rewrite He. cbn [fmap option_fmap option_map].
    f_equal. assert (ring_slot ((if 256 <=? Z.of_nat (length es) then Z.of_nat (length es) mod 256 else 0) + Z.of_nat (0 + i)) = ring_slot (Z.of_nat (length es - 256 + i))) as ->.
    { unfold ring_slot. f_equal. destruct (Z.leb_spec 256 (Z.of_nat (length es))) as [Hle|Hlt].
      - rewrite Z.add_mod_idemp_l by lia. replace (Z.of_nat (length es) + Z.of_nat (0 + i)) with (Z.of_nat (length es - 256 + i) + 1 * 256) by lia. by rewrite Z.mod_add by lia.
      - f_equal. lia. }
    by rewrite (H4 _ _ He) by lia.
  - rewrite !lookup_ge_None_2; [done|rewrite length_map, length_drop; lia|rewrite length_map, length_seq; lia].
Qed.
Lemma audit_ring_last_witness : ring_list (fold_left push_entry [(5, 1, 2, replicate 48 0); (6, 1, 3, replicate 48 0)] ring_new) = [mkEntry 5 1 2 (replicate 48 0); mkEntry 6 1 3 (replicate 48 0)].
Proof. rewrite (audit_ring_last [(5, 1, 2, replicate 48 0); (6, 1, 3, replicate 48 0)]); [reflexivity|repeat constructor|done]. Defined.

(** The bits asked for are tested together: one that is granted is enough. *)
Example dac_any_bit : dac_check 7 7 7 7 0x100 (Z.lor MAY_READ MAY_WRITE) = true.
Proof. reflexivity. Qed.
(** The labels count trust downwards, the flow check upwards. *)
Example restricted_reaches_system : let p := mkPolicy [] true false in policy_check p LABEL_RESTRICTED LABEL_SYSTEM MAC_WRITE = true ∧ policy_check p LABEL_SYSTEM LABEL_RESTRICTED MAC_READ = false.
Proof. vm_compute. done. Qed.
