(* ===== verification/MacPolicy.v ===== *)
(** * The policy file

    Models kernel/src/security/mac_policy.rs: the language in which the rules
    of mandatory access control are written to /proc/qsf/policy, and the dump
    that is read back.  The state is that of Access. *)
From S2P Require Import Prelude Utf8 Text Access.
From Stdlib Require Import Ascii.

(** ** Parser *)
Inductive ParseError :=
| UnknownCommand (x : str)
| MissingField (x : str)
| InvalidHex (x : str)
| InvalidAccess (x : str).
Definition parsed (A : Type) : Type := ParseError + A.
Definition parse_label (s : str) : parsed Z :=
  let s := trim s in
  let hex := match strip_prefix (lit "0x") s with Some h => h | None => default s (strip_prefix (lit "0X") s) end in
  match from_str_radix 64 16 hex with Some l => inr l | None => inl (InvalidHex s) end.

Definition one_of (t : str) (names : list string) : bool := existsb (λ n, bool_decide (t = lit n)) names.
Definition token_access (t : str) : option Z :=
  if one_of t ["read"; "r"] then Some MAC_READ
  else if one_of t ["write"; "w"] then Some MAC_WRITE
  else if one_of t ["exec"; "x"] then Some MAC_EXEC
  else if one_of t ["net"; "n"] then Some MAC_NET
  else if one_of t ["ipc"] then Some MAC_IPC
  else if one_of t ["signal"; "s"] then Some MAC_SIGNAL
  else if one_of t ["ptrace"] then Some MAC_PTRACE
  else if one_of t ["admin"; "a"] then Some MAC_ADMIN
  else if one_of t ["all"] then Some MAC_ALL
  else None.
Fixpoint access_tokens (bits : Z) (ts : list str) : parsed Z :=
  match ts with
  | [] => inr bits
  | t :: ts => match token_access (trim t) with Some b => access_tokens (Z.lor bits b) ts | None => inl (InvalidAccess (trim t)) end
  end.
Definition parse_access (s : str) : parsed Z :=
  let s := trim s in if bool_decide (s = lit "all") then inr MAC_ALL else access_tokens 0 (split_by (Z.eqb 44) s).
Fixpoint extract_kv (tokens : list str) (key : str) : option str :=
  match tokens with
  | [] => None
  | t :: ts => match strip_prefix (key ++ lit "=") t with Some v => Some v | None => extract_kv ts key end
  end.

Definition clear_rules (s : Security) : Security := set_policy (mkPolicy [] (enabled (mac_policy s)) (default_deny (mac_policy s))) s.
Definition apply_rule (allow : bool) (tokens : list str) (s : Security) : Security * option ParseError :=
  match extract_kv tokens (lit "subject") with
  | None => (s, Some (MissingField (lit "subject")))
  | Some subj_str =>
      match extract_kv tokens (lit "object") with
      | None => (s, Some (MissingField (lit "object")))
      | Some obj_str =>
          match extract_kv tokens (lit "access") with
          | None => (s, Some (MissingField (lit "access")))
          | Some acc_str =>
              match parse_label subj_str, parse_label obj_str, parse_access acc_str with
              | inr subject, inr object, inr access =>
                  let s := mac_add_rule subject object (if allow then access else 0) s in
                  (if allow then s else mac_add_rule subject object (Z.land MAC_ALL (wnot 32 access)) s, None)
              | inl e, _, _ | _, inl e, _ | _, _, inl e => (s, Some e)
              end
          end
      end
  end.
Definition apply_line (l : str) (s : Security) : Security * option ParseError :=
  let l := trim l in
  if bool_decide (l = []) || bool_decide (take 1 l = lit "#") then (s, None)
  else match split_whitespace l with
  | [] => (s, None)
  | (cmd :: _) as tokens =>
      if bool_decide (cmd = lit "mac") then
        let what := default [] (tokens !! 1%nat) in
        if bool_decide (what = lit "enable") then (mac_switch true s, None)
        else if bool_decide (what = lit "disable") then (mac_switch false s, None)
        else if bool_decide (what = lit "default") then
          let action := default (lit "allow") (tokens !! 2%nat) in
          (set_policy (mkPolicy (rules (mac_policy s)) (enabled (mac_policy s)) (bool_decide (action = lit "deny"))) s, None)
        else if bool_decide (what = lit "flush") then (clear_rules s, None)
        else (s, Some (UnknownCommand what))
      else if bool_decide (cmd = lit "flush") then (clear_rules s, None)
      else if one_of cmd ["allow"; "deny"] then apply_rule (bool_decide (cmd = lit "allow")) tokens s
      else (s, Some (UnknownCommand cmd))
  end.
(** The lines are applied one by one; a line that is wrong is counted and
    skipped. *)
Definition apply_counted (acc : Security * (Z * Z)) (l : str) : Security * (Z * Z) :=
  let '(s, (ok, err)) := acc in
  match apply_line l s with
  | (s, None) => (s, (wadd 64 ok 1, err))
  | (s, Some _) => (s, (ok, wadd 64 err 1))
  end.
Definition apply_policy_text (text : str) (s : Security) : Security * (Z * Z) := fold_left apply_counted (lines text) (s, (0, 0)).

(** ** Dump *)
Definition access_bits : list (Z * string) :=
  [(MAC_READ, "read"); (MAC_WRITE, "write"); (MAC_EXEC, "exec"); (MAC_NET, "net"); (MAC_IPC, "ipc"); (MAC_SIGNAL, "signal"); (MAC_PTRACE, "ptrace"); (MAC_ADMIN, "admin")]%string.
Definition access_to_str (bits : Z) : str :=
  if bits =? MAC_ALL then lit "all"
  else match map (λ '(_, n), lit n) (filter (λ '(b, _), Z.land bits b ≠ 0) access_bits) with [] => lit "none" | parts => join (lit ",") parts end.
Definition rule_text (r : MacRule) : str :=
  lit "allow subject=0x" ++ hex16 (r_subject r) ++ lit " object=0x" ++ hex16 (r_object r) ++ lit " access=" ++ access_to_str (r_access r) ++ [10].
(** The dash of the first line is U+2014. *)
Definition dump_text (p : MacPolicy) : str :=
  lit "# Qunix Security Foundation " ++ [0x2014] ++ lit " MAC Policy Dump" ++ [10]
  ++ lit "mac " ++ (if enabled p then lit "enable" else lit "disable") ++ [10]
  ++ lit "mac default " ++ (if default_deny p then lit "deny" else lit "allow") ++ [10]
  ++ concat (map rule_text (rules p)).
Definition dump_policy (s : Security) : list Z := encode (dump_text (mac_policy s)).
Definition EINVAL_VFS : Z := 22.
Definition handle_policy_write (data : list Z) (s : Security) : Security * (Z + Z) :=
  match from_utf8 data with
  | None => (s, inl EINVAL_VFS)
  | Some text => let '(s, _) := apply_policy_text text s in (s, inr (Z.of_nat (length data)))
  end.

(** ** The dump is read back *)
Record rule_ok (r : MacRule) : Prop := {
  ro_subject : is_u64 (r_subject r);
  ro_object : is_u64 (r_object r);
  ro_access : r_access r = MAC_ALL ∨ 0 < r_access r < 256;
}.
Lemma byte_cases (P : Z → bool) : forallb (λ n, P (Z.of_nat n)) (seq 1 255) = true → ∀ a, 0 < a < 256 → P a = true.
Proof. intros H a Ha. rewrite forallb_forall in H. rewrite <- (Z2Nat.id a) by lia. apply H, in_seq. lia. Qed.
Lemma access_roundtrip a : a = MAC_ALL ∨ 0 < a < 256 → parse_access (access_to_str a) = inr a ∧ word (access_to_str a) ∧ Forall is_char (access_to_str a).
Proof.
  set (P := λ a, (match parse_access (access_to_str a) with inr b => b =? a | inl _ => false end) && negb (bool_decide (access_to_str a = [])) && forallb (λ c, negb (is_ws c) && (0 <=? c) && (c <? 128)) (access_to_str a)).
  intros Ha. assert (P a = true) as H by (destruct Ha as [->|Ha]; [by vm_compute|apply byte_cases; [by vm_compute|done]]).
  unfold P in H. apply andb_prop in H as [H H3]. apply andb_prop in H as [H1 H2]. assert (parse_access (access_to_str a) = inr a) as Hp by (destruct (parse_access (access_to_str a)) as [|b]; [done|]; apply Z.eqb_eq in H1; by subst b).
  apply negb_true_iff, bool_decide_eq_false in H2.
  rewrite forallb_forall in H3. split_and!; [done|split; [done|]|]; apply Forall_forall; intros c Hc; apply list_elem_of_In, H3 in Hc; [destruct (is_ws c); done|]. unfold is_char. destruct (is_ws c); [done|]. lia.
Qed.
Lemma hex16_word n : is_u64 n → word (hex16 n) ∧ Forall is_char (hex16 n).
Proof.
  intros Hn. destruct (digits_word 16 15 n) as [_ Hw]; [lia|apply Hn|]. unfold hex16. split.
  - split; [|apply Forall_app_2; [by apply Forall_replicate|exact Hw]]. intros E. apply app_nil in E as [_ E]. by apply to_digits_nonempty in E.
  - apply Forall_app_2; [apply Forall_replicate; unfold is_char; lia|]. eapply Forall_impl; [apply to_digits_chars; [lia|apply Hn]|]. unfold is_char. intros. lia.
Qed.

Definition rule_line (r : MacRule) : str :=
  join [32] [lit "allow"; lit "subject=0x" ++ hex16 (r_subject r); lit "object=0x" ++ hex16 (r_object r); lit "access=" ++ access_to_str (r_access r)].
Lemma rule_text_line r : rule_text r = rule_line r ++ [10].
Proof. unfold rule_text, rule_line. cbn [join]. rewrite <- !app_assoc. reflexivity. Qed.
Lemma prefix_word p w : Forall (λ c, is_ws c = false) p → word w → word (p ++ w).
Proof. intros Hp [Hn Hw]. split; [|by apply Forall_app_2]. destruct p; [done|]. done. Qed.
Lemma rule_words r : rule_ok r → Forall word [lit "allow"; lit "subject=0x" ++ hex16 (r_subject r); lit "object=0x" ++ hex16 (r_object r); lit "access=" ++ access_to_str (r_access r)].
Proof.
  intros [Hs Ho Ha]. repeat apply Forall_cons_2; [split; [done|by repeat constructor]|..|constructor]; (apply prefix_word; [by repeat constructor|]); [by apply hex16_word..|by apply access_roundtrip].
Qed.
Lemma parse_hex16 l : is_u64 l → parse_label (lit "0x" ++ hex16 l) = inr l.
Proof.
  intros Hl. unfold parse_label. rewrite trim_word by (apply prefix_word; [by repeat constructor|by apply hex16_word]). rewrite strip_prefix_app, hex16_roundtrip by done. done.
Qed.
Lemma apply_rule_line r s : rule_ok r → apply_line (rule_line r) s = (mac_add_rule (r_subject r) (r_object r) (r_access r) s, None).
Proof.
  intros Hr. pose proof (rule_words r Hr) as Hw. unfold apply_line, rule_line in *. rewrite trim_join, split_whitespace_join by done. destruct Hr as [Hs Ho Ha].
  set (ts := [lit "allow"; _; _; _]) in *. assert (bool_decide (join [32] ts = []) || bool_decide (take 1 (join [32] ts) = lit "#") = false) as -> by reflexivity.
  unfold ts. cbv beta iota zeta. fold ts.
  assert (bool_decide (lit "allow" = lit "mac") = false) as -> by reflexivity. assert (bool_decide (lit "allow" = lit "flush") = false) as -> by reflexivity. assert (one_of (lit "allow") ["allow"; "deny"] = true) as -> by reflexivity. rewrite bool_decide_eq_true_2 by done.
  unfold apply_rule.
  assert (extract_kv ts (lit "subject") = Some (lit "0x" ++ hex16 (r_subject r))) as -> by reflexivity.
  assert (extract_kv ts (lit "object") = Some (lit "0x" ++ hex16 (r_object r))) as -> by reflexivity.
  assert (extract_kv ts (lit "access") = Some (access_to_str (r_access r))) as -> by (unfold ts; cbn [extract_kv]; reflexivity).
  rewrite !parse_hex16 by done. rewrite (proj1 (access_roundtrip _ Ha)). done.
Qed.
Definition head_lines (p : MacPolicy) : list str :=
  [lit "# Qunix Security Foundation " ++ [0x2014] ++ lit " MAC Policy Dump";
   lit "mac " ++ (if enabled p then lit "enable" else lit "disable"); lit "mac default " ++ (if default_deny p then lit "deny" else lit "allow")].
Lemma dump_lines p : Forall rule_ok (rules p) → lines (dump_text p) = head_lines p ++ map rule_line (rules p).
Proof.
  intros Hr. assert (dump_text p = concat (map (λ l, l ++ [10]) (head_lines p ++ map rule_line (rules p)))) as ->.
  { rewrite map_app, concat_app. unfold dump_text. replace (map rule_text (rules p)) with (map (λ l, l ++ [10]) (map rule_line (rules p))) by (rewrite map_map; apply map_ext; intros r; by rewrite rule_text_line).
    cbn [head_lines map concat]. rewrite <- !app_assoc. reflexivity. }
  assert (∀ x, forallb (λ c, negb (c =? 10) && negb (c =? 13)) x = true → line x) as Hx by (intros x Hx; apply Forall_forall; intros c Hc; rewrite forallb_forall in Hx; apply list_elem_of_In, Hx in Hc; lia).
  apply lines_concat, Forall_app_2; [unfold head_lines; do 3 (apply Forall_cons_2; [apply Hx; destruct (enabled p), (default_deny p); reflexivity|]); constructor|].
  apply Forall_map. eapply Forall_impl; [exact Hr|]. intros r H. apply join_line; [by apply Hx|]. eapply Forall_impl; [by apply rule_words|]. apply word_line.
Qed.
Definition rule_key (r : MacRule) : Z * Z := (r_subject r, r_object r).
Lemma add_rule_fresh s o a p : (s, o) ∉ map rule_key (rules p) → rules (add_rule s o a p) = rules p ++ [mkRule s o a].
Proof.
  intros Hn. cbn [add_rule rules]. f_equal. induction (rules p) as [|r rs IH]; [done|]. cbn [map] in Hn. apply not_elem_of_cons in Hn as [Hr Hn].
  rewrite filter_cons, decide_True, IH by (done || (intros [<- <-]; by apply Hr)). done.
Qed.
Lemma apply_rules rs : ∀ s ok err, Forall rule_ok rs → NoDup (map rule_key (rules (mac_policy s) ++ rs)) →
  (fold_left apply_counted (map rule_line rs) (s, (ok, err))).1 = set_policy (mkPolicy (rules (mac_policy s) ++ rs) (enabled (mac_policy s)) (default_deny (mac_policy s))) s.
Proof.
  induction rs as [|r rs IH]; intros s ok err Hr Hd; [by rewrite app_nil_r; destruct s as [[] ? ? ?]|]. apply Forall_cons in Hr as [H Hr]. cbn [map fold_left apply_counted]. rewrite apply_rule_line by done.
  assert (rules (mac_policy (mac_add_rule (r_subject r) (r_object r) (r_access r) s)) = rules (mac_policy s) ++ [r]) as E.
  { cbn [mac_add_rule set_policy mac_policy]. rewrite add_rule_fresh; [by destruct r|]. rewrite map_app, NoDup_app in Hd. destruct Hd as (_ & Hd & _). intros Hin. apply (Hd _ Hin). cbn [map]. left. }
  rewrite IH; [rewrite E, <- app_assoc; done|done|rewrite E, <- app_assoc; exact Hd].
Qed.
Lemma apply_head p s : (fold_left apply_counted (head_lines p) (s, (0, 0))) =
  (set_policy (mkPolicy (rules (mac_policy s)) (enabled p) (default_deny p)) (mac_switch (enabled p) s), (3, 0)).
Proof. destruct s as [[rs e d] m au ae], p as [rs' [] []]; reflexivity. Qed.
Lemma rule_line_chars r : rule_ok r → Forall is_char (rule_line r).
Proof.
  intros [Hs Ho Ha]. assert (∀ x, Forall is_char (lit x)) as Hl.
  { intros x. unfold lit. apply Forall_map, Forall_forall. intros c _. unfold is_char. pose proof (nat_ascii_bounded c). lia. }
  unfold rule_line. cbn [join]. rewrite !Forall_app. split_and!; first [apply Hl|by apply hex16_word|by apply access_roundtrip|constructor; [unfold is_char; lia|constructor]].
Qed.

(** C25. What the dump of the policy says is the policy: written to the policy
    file of a system without rules it sets the same switches and the same
    rules in the same order.  (The rules give at least one right, and none but
    the eight with names, or all 32 bits: the others are not written so that
    they can be read.) *)
Theorem policy_roundtrip s s0 : Forall rule_ok (rules (mac_policy s)) → NoDup (map rule_key (rules (mac_policy s))) → rules (mac_policy s0) = [] →
  handle_policy_write (dump_policy s) s0 = (mkSec (mac_policy s) (enabled (mac_policy s)) (audit s0) (audit_enabled s0), inr (Z.of_nat (length (dump_policy s)))).
Proof.
  intros Hr Hd H0. unfold handle_policy_write. unfold dump_policy at 1. rewrite from_utf8_encode.
  - unfold apply_policy_text. rewrite dump_lines by done. rewrite fold_left_app, apply_head.
    pose proof (apply_rules (rules (mac_policy s)) (set_policy (mkPolicy (rules (mac_policy s0)) (enabled (mac_policy s)) (default_deny (mac_policy s))) (mac_switch (enabled (mac_policy s)) s0)) 3 0 Hr) as H.
    cbn [set_policy mac_policy rules] in H. rewrite H0 in *. specialize (H Hd). destruct (fold_left _ _ _) as [s1 x]. cbn [fst] in H. subst s1.
    f_equal. cbn [app enabled default_deny mac_switch mac_enabled audit audit_enabled]. by destruct (mac_policy s).
  - unfold dump_text. assert (∀ x, forallb (λ c, (0 <=? c) && (c <? 0xD800)) x = true → Forall is_char x) as Hx.
    { intros x Hx. apply Forall_forall. intros c Hc. rewrite forallb_forall in Hx. apply list_elem_of_In, Hx in Hc. unfold is_char. lia. }
    rewrite !app_assoc. apply Forall_app_2; [apply Hx; destruct (enabled _), (default_deny _); reflexivity|]. apply Forall_concat, Forall_map. eapply Forall_impl; [exact Hr|].
    intros r H. rewrite rule_text_line. apply Forall_app_2; [by apply rule_line_chars|]. apply Hx. reflexivity.
Qed.
Definition sample : Security := mkSec (mkPolicy [mkRule LABEL_USER 0x100 (MAC_READ + MAC_NET); mkRule LABEL_USER LABEL_USER MAC_ALL] true true) true None false.
Lemma policy_roundtrip_witness : (handle_policy_write (dump_policy sample) security_start).1 = sample.
Proof.
  rewrite (policy_roundtrip sample security_start); [reflexivity| | |reflexivity].
  - repeat constructor; vm_compute; try done; auto; right; done.
  - apply (bool_decide_unpack (NoDup (map rule_key (rules (mac_policy sample))))). exact I.
Defined.

(** A deny rule is stored as a rule that allows everything else, also where
    nothing was allowed before; and a rule without rights is dumped as a line
    that cannot be read. *)
Example deny_grants : let s := (apply_line (lit "deny subject=0x2 object=0x1 access=exec") (mkSec (mkPolicy [] true true) true None false)).1 in
  policy_check (mac_policy s) 2 1 MAC_WRITE = true.
Proof. vm_compute. reflexivity. Qed.
Example none_unreadable : parse_access (access_to_str 0) = inl (InvalidAccess (lit "none")).
Proof. reflexivity. Qed.
