(* ===== verification/Namespace.v ===== *)
(** * Namespaces

    Models kernel/src/security/namespace.rs: the six kinds of namespaces, what
    clone makes of them, and the checks that keep processes of different
    namespaces apart.  The namespaces of the running processes, which the
    process table keeps, are an argument ([procs]; [cur] is the caller's). *)
From stdpp Require Import sorting.
From S2P Require Import Prelude Utf8 Text.

Definition CLONE_NEWNS : Z := 0x00020000.
Definition CLONE_NEWUTS : Z := 0x04000000.
Definition CLONE_NEWIPC : Z := 0x08000000.
Definition CLONE_NEWUSER : Z := 0x10000000.
Definition CLONE_NEWPID : Z := 0x20000000.
Definition CLONE_NEWNET : Z := 0x40000000.

(** ** Data *)
Record Namespaces := mkNs { pid_ns : Z; net_ns : Z; mnt_ns : Z; uts_ns : Z; ipc_ns : Z; user_ns : Z }.
Definition root_namespaces : Namespaces := mkNs 0 0 0 0 0 0.
Record UtsNamespace := mkUts { uts_id : Z; hostname : str; domname : str; sysname : str; release : str; version : str; machine : str }.
Definition uts_root : UtsNamespace :=
  mkUts 0 (lit "qunix") (lit "(none)") (lit "Qunix") (lit "5.0.0") (lit "#1 SMP Qunix 5.0.0") (lit "x86_64").
Record PidNamespace := mkPidNs { pns_id : Z; pid_map : gmap Z Z; rev_map : gmap Z Z; next_local : Z }.
Definition pid_root : PidNamespace := mkPidNs 0 ∅ ∅ 2.
Record NetNamespace := mkNetNs { nns_id : Z; socket_ids : gset Z; loopback_ip : Z }.
Definition net_root : NetNamespace := mkNetNs 0 ∅ 0x7F000001.
Record IpcNamespace := mkIpcNs { ins_id : Z; shm_ids : gset Z; sem_ids : gset Z; msg_ids : gset Z }.
Record IdMapEntry := mkIdEntry { inner_start : Z; outer_start : Z; count : Z }.
Abbreviation IdMap := (list IdMapEntry).
Record UserNamespace := mkUserNs { uns_id : Z; uid_map : IdMap; gid_map : IdMap; parent : Z }.

(** The tables and the counter of the module. *)
Record NsState := mkNsState {
  NEXT_NS_ID : Z;
  UTS_NS_TABLE : gmap Z UtsNamespace;
  PID_NS_TABLE : gmap Z PidNamespace;
  NET_NS_TABLE : gmap Z NetNamespace;
  IPC_NS_TABLE : gmap Z IpcNamespace;
  MNT_NS_ROOTS : gmap Z str;
  USER_NS_TABLE : gmap Z UserNamespace;
}.
Definition ns_start : NsState := mkNsState 1 ∅ ∅ ∅ ∅ ∅ ∅.
Definition set_next v s := mkNsState v (UTS_NS_TABLE s) (PID_NS_TABLE s) (NET_NS_TABLE s) (IPC_NS_TABLE s) (MNT_NS_ROOTS s) (USER_NS_TABLE s).
Definition set_uts v s := mkNsState (NEXT_NS_ID s) v (PID_NS_TABLE s) (NET_NS_TABLE s) (IPC_NS_TABLE s) (MNT_NS_ROOTS s) (USER_NS_TABLE s).
Definition set_pidns v s := mkNsState (NEXT_NS_ID s) (UTS_NS_TABLE s) v (NET_NS_TABLE s) (IPC_NS_TABLE s) (MNT_NS_ROOTS s) (USER_NS_TABLE s).
Definition set_netns v s := mkNsState (NEXT_NS_ID s) (UTS_NS_TABLE s) (PID_NS_TABLE s) v (IPC_NS_TABLE s) (MNT_NS_ROOTS s) (USER_NS_TABLE s).
Definition set_ipcns v s := mkNsState (NEXT_NS_ID s) (UTS_NS_TABLE s) (PID_NS_TABLE s) (NET_NS_TABLE s) v (MNT_NS_ROOTS s) (USER_NS_TABLE s).
Definition set_roots v s := mkNsState (NEXT_NS_ID s) (UTS_NS_TABLE s) (PID_NS_TABLE s) (NET_NS_TABLE s) (IPC_NS_TABLE s) v (USER_NS_TABLE s).
Definition set_userns v s := mkNsState (NEXT_NS_ID s) (UTS_NS_TABLE s) (PID_NS_TABLE s) (NET_NS_TABLE s) (IPC_NS_TABLE s) (MNT_NS_ROOTS s) v.
Definition alloc_ns_id (s : NsState) : NsState * Z := (set_next (wadd 32 (NEXT_NS_ID s) 1) s, NEXT_NS_ID s).

(** ** UTS namespaces *)
Definition uts_fork (u : UtsNamespace) (s : NsState) : NsState * UtsNamespace :=
  let '(s, id) := alloc_ns_id s in (s, mkUts id (hostname u) (domname u) (sysname u) (release u) (version u) (machine u)).
Definition uts_ns_init (s : NsState) : NsState := set_uts (<[0 := uts_root]> (UTS_NS_TABLE s)) s.
Definition uts_get (ns_id : Z) (s : NsState) : UtsNamespace := default uts_root (UTS_NS_TABLE s !! ns_id).
Definition uts_set_hostname (ns_id : Z) (h : str) (s : NsState) : NsState :=
  match UTS_NS_TABLE s !! ns_id with
  | Some u => set_uts (<[ns_id := mkUts (uts_id u) h (domname u) (sysname u) (release u) (version u) (machine u)]> (UTS_NS_TABLE s)) s
  | None => s
  end.

(** ** PID namespaces *)
Definition pid_new_child (s : NsState) : NsState * PidNamespace := let '(s, id) := alloc_ns_id s in (s, mkPidNs id ∅ ∅ 2).
Definition alloc_local (kernel_pid : Z) (ns : PidNamespace) : PidNamespace * Z :=
  let local := next_local ns in
  (mkPidNs (pns_id ns) (<[local := kernel_pid]> (pid_map ns)) (<[kernel_pid := local]> (rev_map ns)) (wadd 32 local 1), local).
Definition kernel_to_local (kernel_pid : Z) (ns : PidNamespace) : option Z := rev_map ns !! kernel_pid.
Definition local_to_kernel (local_pid : Z) (ns : PidNamespace) : option Z := pid_map ns !! local_pid.
Definition is_visible (kernel_pid : Z) (ns : PidNamespace) : bool := (pns_id ns =? 0) || bool_decide (is_Some (rev_map ns !! kernel_pid)).
Definition pid_ns_init (s : NsState) : NsState := set_pidns (<[0 := pid_root]> (PID_NS_TABLE s)) s.
Definition pid_ns_can_signal (sender_pid_ns target_kernel_pid : Z) (s : NsState) : bool :=
  if sender_pid_ns =? 0 then true
  else match PID_NS_TABLE s !! sender_pid_ns with Some ns => is_visible target_kernel_pid ns | None => false end.
Definition pid_ns_resolve (pid_ns local_pid : Z) (s : NsState) : option Z :=
  if pid_ns =? 0 then Some local_pid else ns ← PID_NS_TABLE s !! pid_ns; local_to_kernel local_pid ns.
Definition pid_ns_visible_pids (pid_ns : Z) (all_pids : list Z) (s : NsState) : list Z :=
  if pid_ns =? 0 then all_pids
  else match PID_NS_TABLE s !! pid_ns with Some ns => merge_sort Z.le (map_to_list (rev_map ns)).*1 | None => [] end.

(** ** Network and IPC namespaces *)
Definition net_new_child (s : NsState) : NsState * NetNamespace := let '(s, id) := alloc_ns_id s in (s, mkNetNs id ∅ 0x7F000001).
Definition register_socket (sock : Z) (ns : NetNamespace) : NetNamespace := mkNetNs (nns_id ns) ({[sock]} ∪ socket_ids ns) (loopback_ip ns).
Definition unregister_socket (sock : Z) (ns : NetNamespace) : NetNamespace := mkNetNs (nns_id ns) (socket_ids ns ∖ {[sock]}) (loopback_ip ns).
Definition owns_socket (sock : Z) (ns : NetNamespace) : bool := (nns_id ns =? 0) || bool_decide (sock ∈ socket_ids ns).
Definition net_ns_init (s : NsState) : NsState := set_netns (<[0 := net_root]> (NET_NS_TABLE s)) s.
Definition net_ns_can_use_socket (net_ns sock : Z) (s : NsState) : bool :=
  if net_ns =? 0 then true else default false (owns_socket sock <$> NET_NS_TABLE s !! net_ns).
Definition net_ns_register_socket (net_ns sock : Z) (s : NsState) : NsState :=
  match NET_NS_TABLE s !! net_ns with Some ns => set_netns (<[net_ns := register_socket sock ns]> (NET_NS_TABLE s)) s | None => s end.
Definition net_ns_unregister_socket (net_ns sock : Z) (s : NsState) : NsState :=
  match NET_NS_TABLE s !! net_ns with Some ns => set_netns (<[net_ns := unregister_socket sock ns]> (NET_NS_TABLE s)) s | None => s end.
Definition ipc_ns_init (s : NsState) : NsState := set_ipcns (<[0 := mkIpcNs 0 ∅ ∅ ∅]> (IPC_NS_TABLE s)) s.
Definition ipc_ns_can_access_shm (ipc_ns shm_id : Z) (s : NsState) : bool :=
  if ipc_ns =? 0 then true else default false ((λ ns, bool_decide (shm_id ∈ shm_ids ns)) <$> IPC_NS_TABLE s !! ipc_ns).

(** ** Clone *)
Definition flag_set (flags f : Z) : bool := negb (Z.land flags f =? 0).
Definition clone_pid (flags child : Z) (ns : Namespaces) (s : NsState) : NsState * Namespaces :=
  if flag_set flags CLONE_NEWPID then
    let '(s, new_id) := alloc_ns_id s in
    let '(s, new_ns) := pid_new_child s in
    let '(new_ns, _) := alloc_local child (mkPidNs new_id (pid_map new_ns) (rev_map new_ns) (next_local new_ns)) in
    (set_pidns (<[new_id := new_ns]> (PID_NS_TABLE s)) s, mkNs new_id (net_ns ns) (mnt_ns ns) (uts_ns ns) (ipc_ns ns) (user_ns ns))
  else if negb (pid_ns ns =? 0) then
    match PID_NS_TABLE s !! pid_ns ns with
    | Some p => (set_pidns (<[pid_ns ns := (alloc_local child p).1]> (PID_NS_TABLE s)) s, ns)
    | None => (s, ns)
    end
  else (s, ns).
Definition clone_net (flags : Z) (ns : Namespaces) (s : NsState) : NsState * Namespaces :=
  if flag_set flags CLONE_NEWNET then
    let '(s, new_ns) := net_new_child s in
    let id := nns_id new_ns in
    (set_netns (<[id := new_ns]> (NET_NS_TABLE s)) s, mkNs (pid_ns ns) id (mnt_ns ns) (uts_ns ns) (ipc_ns ns) (user_ns ns))
  else (s, ns).
Definition clone_ipc (flags : Z) (ns : Namespaces) (s : NsState) : NsState * Namespaces :=
  if flag_set flags CLONE_NEWIPC then
    let '(s, new_id) := alloc_ns_id s in
    (set_ipcns (<[new_id := mkIpcNs new_id ∅ ∅ ∅]> (IPC_NS_TABLE s)) s, mkNs (pid_ns ns) (net_ns ns) (mnt_ns ns) (uts_ns ns) new_id (user_ns ns))
  else (s, ns).
Definition clone_uts (flags parent_uts_ns : Z) (ns : Namespaces) (s : NsState) : NsState * Namespaces :=
  if flag_set flags CLONE_NEWUTS then
    let '(s, new_uts) := uts_fork (uts_get parent_uts_ns s) s in
    let new_id := uts_id new_uts in
    (set_uts (<[new_id := new_uts]> (UTS_NS_TABLE s)) s, mkNs (pid_ns ns) (net_ns ns) (mnt_ns ns) new_id (ipc_ns ns) (user_ns ns))
  else (s, ns).
Definition clone_namespaces (parent_ns : Namespaces) (clone_flags child_kernel_pid : Z) (s : NsState) : NsState * Namespaces :=
  let '(s, ns) := clone_pid clone_flags child_kernel_pid parent_ns s in
  let '(s, ns) := clone_net clone_flags ns s in
  let '(s, ns) := clone_ipc clone_flags ns s in
  clone_uts clone_flags (uts_ns parent_ns) ns s.

(** ** Checks *)
Definition check_kill_permission (procs : gmap Z Namespaces) (sender_pid target_kernel_pid : Z) (s : NsState) : bool :=
  let sender_ns := default 0 (pid_ns <$> procs !! sender_pid) in
  if sender_ns =? 0 then true else pid_ns_can_signal sender_ns target_kernel_pid s.
Definition resolve_pid_for_current (cur : option Namespaces) (current_pid user_pid : Z) (s : NsState) : option Z :=
  if user_pid =? 0 then Some current_pid
  else let ns := default 0 (pid_ns <$> cur) in if ns =? 0 then Some user_pid else pid_ns_resolve ns user_pid s.
Definition check_socket_access (cur : option Namespaces) (sock : Z) (s : NsState) : bool := net_ns_can_use_socket (default 0 (net_ns <$> cur)) sock s.
Definition register_socket_in_current_ns (cur : option Namespaces) (sock : Z) (s : NsState) : NsState := net_ns_register_socket (default 0 (net_ns <$> cur)) sock s.
Definition proc_visible_pids (cur : option Namespaces) (all_pids : list Z) (s : NsState) : list Z := pid_ns_visible_pids (default 0 (pid_ns <$> cur)) all_pids s.
Definition ns_status_for_pid (procs : gmap Z Namespaces) (kernel_pid : Z) (s : NsState) : list Z :=
  let ns := default root_namespaces (procs !! kernel_pid) in
  encode (concat (map (λ '(n, v), lit n ++ decimal v ++ [10])
    [("pid_ns="%string, pid_ns ns); ("net_ns="%string, net_ns ns); ("mnt_ns="%string, mnt_ns ns); ("uts_ns="%string, uts_ns ns); ("ipc_ns="%string, ipc_ns ns); ("user_ns="%string, user_ns ns)])
    ++ lit "hostname=" ++ hostname (uts_get (uts_ns ns) s) ++ [10]).

(** ** Mount namespaces *)
Definition mnt_ns_root (mnt_ns : Z) (s : NsState) : str := if mnt_ns =? 0 then lit "/" else default (lit "/") (MNT_NS_ROOTS s !! mnt_ns).
Fixpoint drop_slashes (s : str) : str := match s with 47 :: r => drop_slashes r | _ => s end.
Definition trim_end_slashes (s : str) : str := rev (drop_slashes (rev s)).
Definition mnt_ns_set_root (mnt_ns : Z) (root : str) (s : NsState) : NsState :=
  let canonical := trim_end_slashes root in
  set_roots (<[mnt_ns := if bool_decide (canonical = []) then lit "/" else canonical]> (MNT_NS_ROOTS s)) s.
Definition new_mnt_ns (parent_ns : Z) (new_root : str) (s : NsState) : NsState * Z :=
  let '(s, id) := alloc_ns_id s in
  let root := if bool_decide (new_root = []) then mnt_ns_root parent_ns s else new_root in
  (set_roots (<[id := root]> (MNT_NS_ROOTS s)) s, id).

(** ** User namespaces *)
Fixpoint to_outer (inner : Z) (m : IdMap) : option Z :=
  match m with
  | [] => None
  | e :: m => if (inner_start e <=? inner) && (inner <? wadd 32 (inner_start e) (count e)) then Some (wadd 32 (outer_start e) (inner - inner_start e)) else to_outer inner m
  end.
Fixpoint to_inner (outer : Z) (m : IdMap) : option Z :=
  match m with
  | [] => None
  | e :: m => if (outer_start e <=? outer) && (outer <? wadd 32 (outer_start e) (count e)) then Some (wadd 32 (inner_start e) (outer - outer_start e)) else to_inner outer m
  end.
Definition parse_u32 (s : str) : option Z := from_str_radix 32 10 s.
Definition parse_id_line (m : IdMap) (l : str) : IdMap :=
  match split_whitespace l with
  | a :: b :: c :: _ =>
      match parse_u32 a, parse_u32 b, parse_u32 c with
      | Some a, Some b, Some c => if (length m <? 5)%nat then m ++ [mkIdEntry a b c] else m
      | _, _, _ => m
      end
  | _ => m
  end.
Definition id_map_parse (text : str) : IdMap := fold_left parse_id_line (lines text) [].
Definition id_line (e : IdMapEntry) : str := join [32] [decimal (inner_start e); decimal (outer_start e); decimal (count e)].
Definition to_file_content (m : IdMap) : str := concat (map (λ e, id_line e ++ [10]) m).

Definition user_ns_init (s : NsState) : NsState := set_userns (<[0 := mkUserNs 0 [mkIdEntry 0 0 65536] [mkIdEntry 0 0 65536] 0]> (USER_NS_TABLE s)) s.
Definition map_uid_to_host (user_ns inner_uid : Z) (s : NsState) : Z := default 65534 (ns ← USER_NS_TABLE s !! user_ns; to_outer inner_uid (uid_map ns)).
Definition map_uid_from_host (user_ns outer_uid : Z) (s : NsState) : Z := default 65534 (ns ← USER_NS_TABLE s !! user_ns; to_inner outer_uid (uid_map ns)).
Definition map_gid_to_host (user_ns inner_gid : Z) (s : NsState) : Z := default 65534 (ns ← USER_NS_TABLE s !! user_ns; to_outer inner_gid (gid_map ns)).
Definition install_uid_map (user_ns : Z) (content : str) (s : NsState) : NsState :=
  match USER_NS_TABLE s !! user_ns with
  | Some ns => set_userns (<[user_ns := mkUserNs (uns_id ns) (id_map_parse content) (gid_map ns) (parent ns)]> (USER_NS_TABLE s)) s
  | None => s
  end.
Definition install_gid_map (user_ns : Z) (content : str) (s : NsState) : NsState :=
  match USER_NS_TABLE s !! user_ns with
  | Some ns => set_userns (<[user_ns := mkUserNs (uns_id ns) (uid_map ns) (id_map_parse content) (parent ns)]> (USER_NS_TABLE s)) s
  | None => s
  end.
Definition get_uid_map_content (user_ns : Z) (s : NsState) : str := default [] ((λ ns, to_file_content (uid_map ns)) <$> USER_NS_TABLE s !! user_ns).
Definition get_gid_map_content (user_ns : Z) (s : NsState) : str := default [] ((λ ns, to_file_content (gid_map ns)) <$> USER_NS_TABLE s !! user_ns).
Definition new_user_ns (parent_ns : Z) (s : NsState) : NsState * Z :=
  let '(s, id) := alloc_ns_id s in (set_userns (<[id := mkUserNs id [] [] parent_ns]> (USER_NS_TABLE s)) s, id).
(** The calls that look at the user namespace: [cur] is the user or group of
    the caller and its namespace. *)
Definition sys_getuid (cur : option (Z * Z)) (s : NsState) : Z :=
  let '(uid, user_ns) := default (0, 0) cur in if user_ns =? 0 then uid else map_uid_from_host user_ns uid s.
Definition sys_getgid (cur : option (Z * Z)) (s : NsState) : Z :=
  let '(gid, user_ns) := default (0, 0) cur in if user_ns =? 0 then gid else map_gid_to_host user_ns gid s.

Definition namespace_init (s : NsState) : NsState :=
  let s := user_ns_init (ipc_ns_init (net_ns_init (pid_ns_init (uts_ns_init s)))) in set_roots (<[0 := lit "/"]> (MNT_NS_ROOTS s)) s.

(** ** Maps of users and groups *)
Definition entry_ok (e : IdMapEntry) : Prop := is_u32 (inner_start e) ∧ is_u32 (outer_start e) ∧ is_u32 (count e).
Lemma decimal_word n : 0 ≤ n → word (decimal n).
Proof. intros Hn. apply digits_word; lia. Qed.
Lemma entry_words e : entry_ok e → Forall word [decimal (inner_start e); decimal (outer_start e); decimal (count e)].
Proof. intros ([H1 _] & [H2 _] & [H3 _]). do 3 (apply Forall_cons_2; [by apply decimal_word|]). constructor. Qed.
Lemma parse_line_entry m e : entry_ok e → (length m < 5)%nat → parse_id_line m (id_line e) = m ++ [e].
Proof.
  intros He Hl. unfold parse_id_line, id_line. rewrite split_whitespace_join by (by apply entry_words). destruct He as (H1 & H2 & H3).
  unfold parse_u32. rewrite !decimal_roundtrip by done. rewrite (proj2 (Nat.ltb_lt _ _)) by done. by destruct e.
Qed.
Lemma parse_lines es : ∀ m, Forall entry_ok es → (length m + length es ≤ 5)%nat → fold_left parse_id_line (map id_line es) m = m ++ es.
Proof.
  induction es as [|e es IH]; intros m He Hl; [by rewrite app_nil_r|]. apply Forall_cons in He as [H He]. cbn [map fold_left length] in *. rewrite parse_line_entry by (done || lia).
  rewrite IH by (try done; rewrite length_app; cbn [length]; lia). by rewrite <- app_assoc.
Qed.
(** A map that was written out reads back: the text of uid_map or gid_map,
    installed in any namespace, gives the map it was printed from, up to the
    five entries a map may have. *)
Theorem id_map_roundtrip m : Forall entry_ok m → (length m ≤ 5)%nat → id_map_parse (to_file_content m) = m.
Proof.
  intros Hm Hl. unfold id_map_parse, to_file_content. rewrite <- (map_map id_line (λ l, l ++ [10])), lines_concat; [by apply parse_lines|].
  apply Forall_map. eapply Forall_impl; [exact Hm|]. intros e He. apply join_line; [by repeat constructor|]. eapply Forall_impl; [by apply entry_words|apply word_line].
Qed.
Lemma id_map_roundtrip_witness : id_map_parse (to_file_content [mkIdEntry 0 100000 65536; mkIdEntry 70000 4294967295 1]) = [mkIdEntry 0 100000 65536; mkIdEntry 70000 4294967295 1].
Proof. apply (id_map_roundtrip [mkIdEntry 0 100000 65536; mkIdEntry 70000 4294967295 1]); [repeat constructor; done|cbn; lia]. Defined.

(** A map as an administrator means it: the ranges end below 2^32, and no two
    entries lead to the same number outside. *)
Inductive id_map_wf : IdMap → Prop :=
| wf_nil : id_map_wf []
| wf_cons e m : entry_ok e → inner_start e + count e < 2 ^ 32 → outer_start e + count e < 2 ^ 32 →
    Forall (λ e', outer_start e + count e ≤ outer_start e' ∨ outer_start e' + count e' ≤ outer_start e) m → id_map_wf m → id_map_wf (e :: m).
Lemma to_outer_range m i o : id_map_wf m → to_outer i m = Some o → ∃ e, e ∈ m ∧ outer_start e ≤ o < outer_start e + count e.
Proof.
  intros Hm. induction Hm as [|e m He Hi Ho Hd Hm IH]; [done|]. cbn [to_outer]. destruct He as ([? _] & [? _] & [? _]). rewrite wadd_small by lia.
  destruct (_ && _) eqn:E; intros Hso; [|destruct (IH Hso) as (e' & ? & ?); exists e'; split; [by right|done]].
  injection Hso as <-. rewrite wadd_small by lia. exists e. split; [by left|lia].
Qed.
(** In a map whose ranges lie apart outside, a user of the namespace that
    has a number outside is found again from that number: [to_inner] undoes
    [to_outer]. *)
Theorem id_map_inverse m i o : id_map_wf m → to_outer i m = Some o → to_inner o m = Some i.
Proof.
  intros Hm. induction Hm as [|e m He Hi Ho Hd Hm IH]; [done|]. cbn [to_outer to_inner]. destruct He as ([? _] & [? _] & [? _]). rewrite !(wadd_small 32 _ (count e)) by lia.
  destruct (_ && _) eqn:E; intros Hso.
  - injection Hso as <-. rewrite (wadd_small 32 (outer_start e)) by lia. rewrite (proj2 (Z.leb_le _ _)), (proj2 (Z.ltb_lt _ _)) by lia. cbn [andb]. rewrite wadd_small by lia. f_equal. lia.
  - destruct (to_outer_range m i o Hm Hso) as (e' & Hin & Hr). rewrite Forall_forall in Hd. specialize (Hd e' Hin). assert ((outer_start e <=? o) && (o <? outer_start e + count e) = false) as -> by lia. by apply IH.
Qed.
Lemma id_map_inverse_witness : to_inner 100007 [mkIdEntry 0 100000 65536; mkIdEntry 70000 200000 10] = Some 7.
Proof. apply (id_map_inverse [mkIdEntry 0 100000 65536; mkIdEntry 70000 200000 10] 7 100007); [repeat constructor; done|reflexivity]. Defined.

(** ** Processes of different PID namespaces *)

(** A namespace numbers exactly the processes that are in it, each once. *)
Record pid_ns_ok (n : Z) (ns : PidNamespace) (procs : gmap Z Namespaces) : Prop := {
  po_id : pns_id ns = n;
  po_members k : is_Some (rev_map ns !! k) ↔ ∃ p, procs !! k = Some p ∧ pid_ns p = n;
  po_inverse l k : pid_map ns !! l = Some k ↔ rev_map ns !! k = Some l;
  po_next : next_local ns = 2 + Z.of_nat (size (rev_map ns));
  po_bound k l : rev_map ns !! k = Some l → 2 ≤ l < next_local ns;
}.
Record ns_inv (s : NsState) (procs : gmap Z Namespaces) : Prop := {
  ni_next : 0 < NEXT_NS_ID s < 2 ^ 32;
  ni_tables n ns : PID_NS_TABLE s !! n = Some ns → n ≠ 0 → pid_ns_ok n ns procs ∧ n < NEXT_NS_ID s;
  ni_procs k p : procs !! k = Some p → 0 ≤ pid_ns p ∧ (pid_ns p ≠ 0 → is_Some (PID_NS_TABLE s !! pid_ns p));
}.

Lemma pid_ok_join n ns procs child p : pid_ns_ok n ns procs → Z.of_nat (size procs) < 2 ^ 32 - 8 → procs !! child = None → pid_ns p = n →
  pid_ns_ok n (alloc_local child ns).1 (<[child := p]> procs).
Proof.
  intros [H1 H2 H3 H4 H5] Hsz Hc Hp. assert (rev_map ns !! child = None) as Hr.
  { destruct (rev_map ns !! child) eqn:E; [|done]. destruct (proj1 (H2 child)) as (q & Hq & _); [by rewrite E|]. congruence. }
  assert (size (rev_map ns) ≤ size procs)%nat as Hle.
  { rewrite <- (size_dom (rev_map ns)), <- (size_dom procs). apply subseteq_size. intros k Hk. apply elem_of_dom in Hk. apply H2 in Hk as (q & Hq & _). by apply elem_of_dom_2 in Hq. }
  assert (∀ k, pid_map ns !! next_local ns ≠ Some k) as Hfresh by (intros k Hk; apply H3, H5 in Hk; lia).
  split; cbn [alloc_local fst pns_id rev_map pid_map next_local]; [done|..].
  - intros k. destruct (decide (k = child)) as [->|Hne].
    + rewrite !lookup_insert_eq. split; [by eauto|done].
    + rewrite !lookup_insert_ne by done. apply H2.
  - intros l k. destruct (decide (l = next_local ns)) as [->|Hl], (decide (k = child)) as [->|Hk]; rewrite ?lookup_insert_eq, ?(lookup_insert_ne _ _ _ _ (not_eq_sym Hl)), ?(lookup_insert_ne _ _ _ _ (not_eq_sym Hk)).
    + done.
    + split; [intros [=]; congruence|]. intros Hx. apply H5 in Hx. lia.
    + split; [|intros [=]; congruence]. intros Hx. apply H3 in Hx. congruence.
    + apply H3.
  - rewrite map_size_insert_None by done. rewrite wadd_small by lia. lia.
  - intros k l. rewrite wadd_small by lia. destruct (decide (k = child)) as [->|Hk]; [rewrite lookup_insert_eq; intros [= <-]; lia|rewrite lookup_insert_ne by done; intros Hx; apply H5 in Hx; lia].
Qed.
Lemma pid_ok_other n ns procs child p : pid_ns_ok n ns procs → procs !! child = None → pid_ns p ≠ n → pid_ns_ok n ns (<[child := p]> procs).
Proof.
  intros [H1 H2 H3 H4 H5] Hc Hp. split; try done. intros k. rewrite H2. destruct (decide (k = child)) as [->|Hne].
  - rewrite lookup_insert_eq, Hc. split; [by intros (? & ? & _)|intros (q & [= ->] & ?); done].
  - by rewrite lookup_insert_ne.
Qed.
Lemma pid_ok_first n child procs p : Z.of_nat (size procs) < 2 ^ 32 - 8 → (∀ k q, procs !! k = Some q → pid_ns q ≠ n) → procs !! child = None → pid_ns p = n →
  pid_ns_ok n (alloc_local child (mkPidNs n ∅ ∅ 2)).1 (<[child := p]> procs).
Proof.
  intros Hsz Hn Hc Hp. apply pid_ok_join; try done. split; cbn [pns_id rev_map pid_map next_local]; [done|..|done|].
  - intros k. rewrite lookup_empty. split; [by intros [? ?]|intros (q & Hq & He); by apply Hn in Hq].
  - intros l k. by rewrite !lookup_empty.
  - intros k l. by rewrite lookup_empty.
Qed.

Lemma alloc_next s : NEXT_NS_ID s < 2 ^ 32 - 1 → 0 < NEXT_NS_ID s → NEXT_NS_ID (alloc_ns_id s).1 = NEXT_NS_ID s + 1.
Proof. intros. cbn [alloc_ns_id fst set_next NEXT_NS_ID]. apply wadd_small. lia. Qed.
Definition keeps_pids (s s' : NsState) : Prop := PID_NS_TABLE s' = PID_NS_TABLE s ∧ NEXT_NS_ID s ≤ NEXT_NS_ID s' ≤ NEXT_NS_ID s + 1.
Lemma keeps_refl s : keeps_pids s s.
Proof. split; [done|lia]. Qed.
Definition keeps_part (ns : Namespaces) (s : NsState) (r : NsState * Namespaces) : Prop := keeps_pids s r.1 ∧ pid_ns r.2 = pid_ns ns.
Lemma net_keeps flags ns s : NEXT_NS_ID s < 2 ^ 32 - 1 → 0 < NEXT_NS_ID s → keeps_part ns s (clone_net flags ns s).
Proof.
  intros H1 H2. pose proof (alloc_next s H1 H2) as Hn. cbn [alloc_ns_id fst set_next NEXT_NS_ID] in Hn.
  unfold clone_net. destruct (flag_set _ _); (split; [|done]); [|apply keeps_refl]. split; [done|]. cbn. lia.
Qed.
Lemma ipc_keeps flags ns s : NEXT_NS_ID s < 2 ^ 32 - 1 → 0 < NEXT_NS_ID s → keeps_part ns s (clone_ipc flags ns s).
Proof.
  intros H1 H2. pose proof (alloc_next s H1 H2) as Hn. cbn [alloc_ns_id fst set_next NEXT_NS_ID] in Hn.
  unfold clone_ipc. destruct (flag_set _ _); (split; [|done]); [|apply keeps_refl]. split; [done|]. cbn. lia.
Qed.
Lemma uts_keeps flags pu ns s : NEXT_NS_ID s < 2 ^ 32 - 1 → 0 < NEXT_NS_ID s → keeps_part ns s (clone_uts flags pu ns s).
Proof.
  intros H1 H2. pose proof (alloc_next s H1 H2) as Hn. cbn [alloc_ns_id fst set_next NEXT_NS_ID] in Hn.
  unfold clone_uts. destruct (flag_set _ _); (split; [|done]); [|apply keeps_refl]. split; [done|]. cbn. lia.
Qed.
Lemma rest_keeps flags pu ns s : NEXT_NS_ID s < 2 ^ 32 - 4 → 0 < NEXT_NS_ID s →
  let '(s1, ns1) := clone_net flags ns s in let '(s2, ns2) := clone_ipc flags ns1 s1 in let '(s3, ns3) := clone_uts flags pu ns2 s2 in
  PID_NS_TABLE s3 = PID_NS_TABLE s ∧ NEXT_NS_ID s ≤ NEXT_NS_ID s3 ≤ NEXT_NS_ID s + 3 ∧ pid_ns ns3 = pid_ns ns.
Proof.
  intros H1 H2. pose proof (net_keeps flags ns s) as Hnet. destruct (clone_net flags ns s) as [s1 ns1]. destruct Hnet as [[E1 B1] P1]; [lia..|]. cbn [fst snd] in *.
  pose proof (ipc_keeps flags ns1 s1) as Hipc. destruct (clone_ipc flags ns1 s1) as [s2 ns2]. destruct Hipc as [[E2 B2] P2]; [lia..|]. cbn [fst snd] in *.
  pose proof (uts_keeps flags pu ns2 s2) as Huts. destruct (clone_uts flags pu ns2 s2) as [s3 ns3]. destruct Huts as [[E3 B3] P3]; [lia..|]. cbn [fst snd] in *.
  split_and!; [congruence|lia|lia|congruence].
Qed.
Lemma fresh_ns s procs : ns_inv s procs → ∀ k q, procs !! k = Some q → pid_ns q ≠ NEXT_NS_ID s.
Proof.
  intros [[Hn _] Ht Hp] k q Hq E. destruct (Hp k q Hq) as [_ H]. destruct H as [ns Hns]; [lia|]. apply Ht in Hns as [_ ?]; lia.
Qed.
Lemma clone_pid_inv s procs p ns flags child : ns_inv s procs → NEXT_NS_ID s < 2 ^ 32 - 8 → Z.of_nat (size procs) < 2 ^ 32 - 8 → procs !! p = Some ns → procs !! child = None →
  let '(s', ns') := clone_pid flags child ns s in
  NEXT_NS_ID s' ≤ NEXT_NS_ID s + 2 ∧ ∀ ns'', pid_ns ns'' = pid_ns ns' → ns_inv s' (<[child := ns'']> procs).
Proof.
  intros Hinv Hb Hsz Hp Hc. pose proof (fresh_ns s procs Hinv) as Hfresh. destruct Hinv as [Hn Ht Hq]. unfold clone_pid. destruct (flag_set flags CLONE_NEWPID).
  - cbn -[alloc_local pid_new_child]. unfold pid_new_child. cbn. rewrite !wadd_small by (rewrite ?wadd_small; lia).
    split; [lia|]. intros ns'' E. split; cbn [NEXT_NS_ID PID_NS_TABLE set_pidns set_next]; [lia|..].
    + intros n x. destruct (decide (n = NEXT_NS_ID s)) as [->|Hne].
      * rewrite lookup_insert_eq. intros [= <-] _. split; [|lia]. apply (pid_ok_first (NEXT_NS_ID s) child procs ns''); done.
      * rewrite lookup_insert_ne by done. intros Hx H0. destruct (Ht _ _ Hx H0) as [Hok Hlt]. split; [|lia]. apply pid_ok_other; try done. congruence.
    + intros k q. destruct (decide (k = child)) as [->|Hk]; [rewrite lookup_insert_eq; intros [= <-]|rewrite lookup_insert_ne by done; intros Hx].
      * rewrite E. split; [lia|]. intros _. rewrite lookup_insert_eq. eauto.
      * destruct (Hq _ _ Hx) as [H0 Hs]. split; [done|]. intros Hz. rewrite lookup_insert_ne by (intros Ee; by apply (Hfresh _ _ Hx)). by apply Hs.
  - destruct (pid_ns ns =? 0) eqn:E0; cbn [negb]; [apply Z.eqb_eq in E0|apply Z.eqb_neq in E0].
    + split; [lia|]. intros ns'' E. rewrite E0 in E. split; [done|..].
      * intros n x Hx H0. destruct (Ht _ _ Hx H0) as [Hok Hlt]. split; [|done]. apply pid_ok_other; try done. congruence.
      * intros k q. destruct (decide (k = child)) as [->|Hk]; [rewrite lookup_insert_eq; intros [= <-]; rewrite E; done|rewrite lookup_insert_ne by done; apply Hq].
    + destruct (Hq _ _ Hp) as [H0 Hs]. destruct (Hs E0) as [pn Hpn]. rewrite Hpn. cbn [set_pidns NEXT_NS_ID]. split; [lia|]. intros ns'' E. destruct (Ht _ _ Hpn E0) as [Hok Hlt].
      split; cbn [NEXT_NS_ID PID_NS_TABLE set_pidns]; [done|..].
      * intros n x. destruct (decide (n = pid_ns ns)) as [->|Hne].
        -- rewrite lookup_insert_eq. intros [= <-] _. split; [|done]. by apply pid_ok_join.
        -- rewrite lookup_insert_ne by done. intros Hx Hz. destruct (Ht _ _ Hx Hz) as [Hok' Hlt']. split; [|done]. apply pid_ok_other; try done. congruence.
      * intros k q. destruct (decide (k = child)) as [->|Hk]; [rewrite lookup_insert_eq; intros [= <-]; rewrite E|rewrite lookup_insert_ne by done; intros Hx].
        -- split; [done|]. intros _. rewrite lookup_insert_eq. eauto.
        -- destruct (Hq _ _ Hx) as [Hz Hs']. split; [done|]. intros Hnz. apply lookup_insert_is_Some'. right. by apply Hs'.
Qed.
Lemma ns_inv_keep s s' procs : ns_inv s procs → PID_NS_TABLE s' = PID_NS_TABLE s → NEXT_NS_ID s ≤ NEXT_NS_ID s' < 2 ^ 32 → ns_inv s' procs.
Proof.
  intros [Hn Ht Hp] Ept Hb. split; [lia|..].
  - intros n ns. rewrite Ept. intros Hx Hz. destruct (Ht _ _ Hx Hz). split; [done|lia].
  - intros k p Hk. rewrite Ept. by eapply Hp.
Qed.
Lemma start_inv : ns_inv (namespace_init ns_start) {[1 := root_namespaces]}.
Proof.
  split; [done|..].
  - intros n ns. cbn [namespace_init]. cbn. intros Hx Hz. rewrite lookup_insert_ne, lookup_empty in Hx by done. done.
  - intros k p Hk. apply lookup_singleton_Some in Hk as [_ <-]. done.
Qed.
(** [clone_namespaces] keeps the invariant when the pid of the child is that of
    no process before.  This is about the function: nothing in the kernel calls
    it, and pids are given again (see [reused_pid_visible]). *)
Lemma clone_inv s procs p ns flags child : ns_inv s procs → NEXT_NS_ID s < 2 ^ 32 - 8 → Z.of_nat (size procs) < 2 ^ 32 - 8 → procs !! p = Some ns → procs !! child = None →
  ns_inv (clone_namespaces ns flags child s).1 (<[child := (clone_namespaces ns flags child s).2]> procs).
Proof.
  intros IH Hb Hsz Hp Hc. pose proof (ni_next _ _ IH). pose proof (clone_pid_inv s procs p ns flags child IH Hb Hsz Hp Hc) as Hpid. unfold clone_namespaces.
  destruct (clone_pid flags child ns s) as [s1 ns1]. destruct Hpid as [Hb1 Hpid]. pose proof (ni_next _ _ (Hpid ns1 eq_refl)).
  pose proof (rest_keeps flags (uts_ns ns) ns1 s1) as Hrest. destruct (clone_net flags ns1 s1) as [s2 ns2]. destruct (clone_ipc flags ns2 s2) as [s3 ns3]. destruct (clone_uts flags (uts_ns ns) ns3 s3) as [s4 ns4].
  destruct Hrest as (E1 & E2 & E3); [lia..|]. cbn [fst snd]. eapply ns_inv_keep; [by apply Hpid|exact E1|lia].
Qed.

(** Where the tables number the processes as the invariant says, a process may
    signal another exactly if it is in the root namespace or in the same
    namespace as the other. *)
Lemma kill_check s procs p q np nq : ns_inv s procs → procs !! p = Some np → procs !! q = Some nq →
  check_kill_permission procs p q s = (pid_ns np =? 0) || (pid_ns np =? pid_ns nq).
Proof.
  intros [Hn Ht Hpr] Hp Hq. unfold check_kill_permission. rewrite Hp. cbn [fmap option_fmap option_map from_option id]. unfold pid_ns_can_signal.
  destruct (pid_ns np =? 0) eqn:E; [done|]. apply Z.eqb_neq in E. cbn [orb]. destruct (Hpr _ _ Hp) as [_ Hs]. destruct (Hs E) as [ns Hns]. rewrite Hns. destruct (Ht _ _ Hns E) as [[H1 H2 _ _ _] _].
  unfold is_visible. rewrite H1, (proj2 (Z.eqb_neq _ _) E). cbn [orb]. destruct (Z.eqb_spec (pid_ns np) (pid_ns nq)) as [Heq|Hne].
  - apply bool_decide_eq_true_2, H2. eauto.
  - apply bool_decide_eq_false_2. intros Hx. apply H2 in Hx as (q' & Hq' & He). congruence.
Qed.
Definition demo0 : NsState := namespace_init ns_start.
Definition demo1 : NsState * Namespaces := clone_namespaces root_namespaces (Z.lor CLONE_NEWPID CLONE_NEWNET) 2 demo0.
Definition demo2 : NsState * Namespaces := clone_namespaces root_namespaces CLONE_NEWPID 3 demo1.1.
Definition demo_procs : gmap Z Namespaces := <[3 := demo2.2]> (<[2 := demo1.2]> {[1 := root_namespaces]}).
(** Processes 2 and 3, each cloned into a namespace of its own: neither may
    signal the other. *)
Lemma demo_kill : check_kill_permission demo_procs 2 3 demo2.1 = false ∧ check_kill_permission demo_procs 1 3 demo2.1 = true.
Proof.
  assert (ns_inv demo2.1 demo_procs) as H by (repeat first [exact start_inv|apply (clone_inv _ _ 1 root_namespaces); [|vm_compute; reflexivity..]]).
  split; [rewrite (kill_check _ _ 2 3 demo1.2 demo2.2 H)|rewrite (kill_check _ _ 1 3 root_namespaces demo2.2 H)]; vm_compute; reflexivity.
Qed.

(** The numbers a namespace gives, under the same invariant: every process in
    a namespace other than the root has one there, not below 2, which is
    translated back to the process, and no other number is. *)
Theorem local_pid_unique s procs k p : ns_inv s procs → procs !! k = Some p → pid_ns p ≠ 0 →
  ∃ l, 2 ≤ l ∧ ∀ l', pid_ns_resolve (pid_ns p) l' s = Some k ↔ l' = l.
Proof.
  intros [Hn Ht Hpr] Hk Hnz. destruct (Hpr _ _ Hk) as [_ Hs]. destruct (Hs Hnz) as [ns Hns]. destruct (Ht _ _ Hns Hnz) as [[H1 H2 H3 H4 H5] _].
  destruct (proj2 (H2 k)) as [l Hl]; [by eauto|]. exists l. split; [by apply H5 in Hl as [? _]|]. intros l'. unfold pid_ns_resolve. rewrite (proj2 (Z.eqb_neq _ _) Hnz), Hns. cbn [mbind option_bind].
  unfold local_to_kernel. rewrite H3. split; [congruence|by intros ->].
Qed.
Lemma local_pid_unique_witness : ∃ l, 2 ≤ l ∧ ∀ l', pid_ns_resolve 1 l' demo1.1 = Some 2 ↔ l' = l.
Proof.
  apply (local_pid_unique demo1.1 (<[2 := demo1.2]> {[1 := root_namespaces]}) 2 demo1.2); [|vm_compute; reflexivity|vm_compute; done].
  apply (clone_inv _ _ 1 root_namespaces); [exact start_inv|vm_compute; reflexivity..].
Defined.

(** The first process of a namespace is number 2, not 1, and the namespace
    takes two identifiers. *)
Example first_local_pid : pid_ns_resolve 1 1 demo1.1 = None ∧ pid_ns_resolve 1 2 demo1.1 = Some 2 ∧ net_ns demo1.2 = 3.
Proof. vm_compute. done. Qed.
(** Nothing removes a process from its namespace: when its number is given to
    a process of the root namespace, that one can be signalled from inside. *)
Example reused_pid_visible : check_kill_permission (<[2 := root_namespaces]> (<[4 := demo1.2]> demo_procs)) 4 2 demo1.1 = true.
Proof. vm_compute. done. Qed.
(** getgid applies the map in the wrong direction. *)
Example getgid_direction : let s := install_gid_map 1 (lit "0 1000 10") (install_uid_map 1 (lit "0 1000 10") (new_user_ns 0 demo0).1) in
  sys_getuid (Some (1000, 1)) s = 0 ∧ sys_getgid (Some (1000, 1)) s = 65534.
Proof. vm_compute. done. Qed.
