(* ===== verification/Epoll.v ===== *)
(** * epoll

    Models kernel/src/ipc/epoll.rs: the instances and what each watches,
    [epoll_create], [epoll_ctl] and [epoll_wait] for the calling process, with
    the descriptors of Process, the pipes of Pipe and memory as in VfsCalls. *)
From stdpp Require Import sorting.
From S2P Require Import Prelude Process Pipe VfsCalls VfsCallsFacts.

Definition EPOLLIN : Z := 0x001.
Definition EPOLLOUT : Z := 0x004.
Definition EPOLL_CTL_ADD : Z := 1.
Definition EPOLL_CTL_DEL : Z := 2.
Definition EPOLL_CTL_MOD : Z := 3.
Record EpollEvent := mkEvent { ev_events : Z; ev_data : Z }.
(** The packed struct: twelve bytes. *)
Definition event_bytes (e : EpollEvent) : list Z := le_bytes 4 (ev_events e) ++ le_bytes 8 (ev_data e).
Definition read_event (mem : Z → Z) (a : Z) : EpollEvent := mkEvent (le_value (mem_read mem a 4)) (le_value (mem_read mem (a + 4) 8)).

(** [watched] of an instance: the mask and the user's data of a descriptor. *)
Abbreviation EpollInstance := (gmap Z (Z * Z)).
Record Epoll := mkEpoll { EPOLL_TABLE : gmap Z EpollInstance; NEXT_EPOLL_FD : Z }.
Definition epoll_start : Epoll := mkEpoll ∅ 200.
Definition EPOLL_INO : Z := 0xE0000000.

(** [cur] is the calling process; [None] as a result: the scan for a free
    descriptor has not ended. *)
Definition epoll_create (fuel : nat) (cur : option Process) (s : Epoll) : option (Epoll * option Process * Z) :=
  let epfd := NEXT_EPOLL_FD s in
  let s := mkEpoll (<[epfd := ∅]> (EPOLL_TABLE s)) (wadd 32 epfd 1) in
  match cur with
  | None => Some (s, None, -9)
  | Some p =>
      '(p, n) ← alloc_fd fuel (mkFd (EPOLL_INO + epfd) 0 0 FdRegular) p;
      Some (s, Some p, n)
  end.
Definition find_epoll_instance (cur : option Process) (epfd : Z) : option Z :=
  p ← cur; f ← Process.get_fd p (wrap 32 epfd); if EPOLL_INO <=? fd_ino f then Some (wrap 32 (fd_ino f - EPOLL_INO)) else None.
Definition epoll_ctl (cur : option Process) (epfd op fd event : Z) (mem : Z → Z) (s : Epoll) : Epoll * Z :=
  match find_epoll_instance cur epfd with
  | None => (s, -9)
  | Some id =>
      let ev := if negb (event =? 0) then read_event mem event else mkEvent 0 0 in
      match EPOLL_TABLE s !! id with
      | None => (s, -9)
      | Some inst =>
          let set_instance i := mkEpoll (<[id := i]> (EPOLL_TABLE s)) (NEXT_EPOLL_FD s) in
          if op =? EPOLL_CTL_ADD then (set_instance (<[fd := (ev_events ev, ev_data ev)]> inst), 0)
          else if op =? EPOLL_CTL_DEL then (set_instance (delete fd inst), 0)
          else if op =? EPOLL_CTL_MOD then
            if decide (is_Some (inst !! fd)) then (set_instance (<[fd := (ev_events ev, ev_data ev)]> inst), 0) else (s, -2)
          else (s, -22)
      end
  end.
(** A pipe that is read from is asked; everything else is ready. *)
Definition has_data (pipes : gmap Z PipeBuf) (cur : option Process) (fd : Z) : bool :=
  match cur with
  | None => false
  | Some p =>
      match Process.get_fd p (wrap 32 fd) with
      | None => false
      | Some f => match fd_kind f with PipeRead k => match pipes !! k with Some b => 0 <? len b | None => false end | _ => true end
      end
  end.
Definition check_fd_ready (pipes : gmap Z PipeBuf) (cur : option Process) (fd mask : Z) : Z :=
  if has_data pipes cur fd && negb (Z.land mask EPOLLIN =? 0) then EPOLLIN else if negb (Z.land mask EPOLLOUT =? 0) then EPOLLOUT else 0.

(** The watched descriptors in the order of the map. *)
Definition entry_le (a b : Z * (Z * Z)) : Prop := a.1 ≤ b.1.
#[export] Instance entry_le_dec a b : Decision (entry_le a b).
Proof. unfold entry_le. apply _. Defined.
Definition watched_list (inst : EpollInstance) : list (Z * (Z * Z)) := merge_sort entry_le (map_to_list inst).
Fixpoint wait_loop (ready : Z → Z → Z) (events_ptr maxevents : Z) (ws : list (Z * (Z * Z))) (mem : Z → Z) (count : Z) : (Z → Z) * Z :=
  match ws with
  | [] => (mem, count)
  | (fd, (mask, data)) :: ws =>
      if maxevents <=? count then (mem, count)
      else
        let r := ready fd mask in
        if r =? 0 then wait_loop ready events_ptr maxevents ws mem count
        else wait_loop ready events_ptr maxevents ws (mem_write mem (wadd 64 events_ptr (count * 12)) (event_bytes (mkEvent r data))) (count + 1)
  end.
(** The memory, the result, and the ticks it slept. *)
Definition epoll_wait (pipes : gmap Z PipeBuf) (cur : option Process) (epfd events_ptr maxevents timeout_ms : Z) (mem : Z → Z) (s : Epoll) : (Z → Z) * Z * Z :=
  match find_epoll_instance cur epfd with
  | None => (mem, -9, 0)
  | Some id =>
      match EPOLL_TABLE s !! id with
      | None => (mem, -9, 0)
      | Some inst =>
          let '(mem, count) := wait_loop (check_fd_ready pipes cur) events_ptr maxevents (watched_list inst) mem 0 in
          (mem, count, if (count =? 0) && (0 <? timeout_ms) then Z.min timeout_ms 100 else 0)
      end
  end.

(** ** What a wait reports

    The rule of the report, in terms of the descriptor and the pipe behind it:
    an open descriptor that is not the read end of an empty pipe is readable;
    readability is reported when it is asked for (bit 0 of the mask), and
    otherwise writability is reported whenever it is asked for (bit 2), of any
    descriptor. *)
Definition fd_readable (pipes : gmap Z PipeBuf) (cur : option Process) (fd : Z) : Prop :=
  ∃ p f, cur = Some p ∧ Process.get_fd p (wrap 32 fd) = Some f ∧ ∀ k, fd_kind f = PipeRead k → ∃ b, pipes !! k = Some b ∧ 0 < len b.
Inductive reported (pipes : gmap Z PipeBuf) (cur : option Process) (fd mask : Z) : Z → Prop :=
  | reported_in : Z.testbit mask 0 = true → fd_readable pipes cur fd → reported pipes cur fd mask 0x001
  | reported_out : Z.testbit mask 2 = true → ¬ (Z.testbit mask 0 = true ∧ fd_readable pipes cur fd) → reported pipes cur fd mask 0x004.
Lemma has_data_readable pipes cur fd : has_data pipes cur fd = true ↔ fd_readable pipes cur fd.
Proof.
  unfold has_data, fd_readable. destruct cur as [p|]; [|naive_solver]. destruct (Process.get_fd p (wrap 32 fd)) as [f|] eqn:Ef; [|naive_solver]. split.
  - intros H. exists p, f. split_and!; [done..|]. intros k Ek. rewrite Ek in H. destruct (pipes !! k) as [b|]; [|done]. exists b. split; [done|lia].
  - intros (p' & f' & Ep & Ef' & H). simplify_eq. destruct (fd_kind _) eqn:Ek; try done. destruct (H _ eq_refl) as (b & -> & Hb). lia.
Qed.
Lemma land_bit m k : 0 ≤ k → (Z.land m (2 ^ k) =? 0) = negb (Z.testbit m k).
Proof.
  intros Hk. assert (Z.land m (2 ^ k) = if Z.testbit m k then 2 ^ k else 0) as ->.
  - apply Z.bits_inj'. intros i Hi. rewrite Z.land_spec. destruct (Z.eqb_spec k i) as [<-|Hne]; [rewrite Z.pow2_bits_true by done; destruct (Z.testbit m k) eqn:E; [by rewrite Z.pow2_bits_true|by rewrite Z.testbit_0_l]|].
    rewrite Z.pow2_bits_false by done. rewrite andb_false_r. destruct (Z.testbit m k); [by rewrite Z.pow2_bits_false|by rewrite Z.testbit_0_l].
  - destruct (Z.testbit m k); [apply Z.eqb_neq; lia|done].
Qed.
Lemma check_reported pipes cur fd mask r : reported pipes cur fd mask r ↔ check_fd_ready pipes cur fd mask = r ∧ r ≠ 0.
Proof.
  unfold check_fd_ready. rewrite (land_bit mask 0 ltac:(lia) : (Z.land mask EPOLLIN =? 0) = _), (land_bit mask 2 ltac:(lia) : (Z.land mask EPOLLOUT =? 0) = _), !negb_involutive.
  pose proof (has_data_readable pipes cur fd) as Hd. split.
  - intros [Hb Hr|Hb Hr]; [rewrite (proj2 Hd Hr), Hb; done|]. rewrite Hb. destruct (has_data pipes cur fd), (Z.testbit mask 0); try done. exfalso. by apply Hr; split; [|apply Hd].
  - destruct (has_data pipes cur fd), (Z.testbit mask 0) eqn:E0; cbn [andb]; try (intros [<- _]; apply reported_in; [done|by apply Hd]);
      (destruct (Z.testbit mask 2) eqn:E2; [intros [<- _]; apply reported_out; [done|]|intros [<- []]; done]); intros [H1 H2]; try (rewrite E0 in H1; done); apply Hd in H2; done.
Qed.
(** The reports of the loop in its order, each with its descriptor. *)
Fixpoint reports (ready : Z → Z → Z) (ws : list (Z * (Z * Z))) : list (Z * EpollEvent) :=
  match ws with
  | [] => []
  | (fd, (mask, data)) :: ws => if ready fd mask =? 0 then reports ready ws else (fd, mkEvent (ready fd mask) data) :: reports ready ws
  end.
Lemma elem_of_reports ready ws fd e : (fd, e) ∈ reports ready ws ↔ ∃ mask, (fd, (mask, ev_data e)) ∈ ws ∧ ready fd mask = ev_events e ∧ ev_events e ≠ 0.
Proof.
  induction ws as [|[x [m d]] ws IH]; cbn [reports]; [split; [by intros ?%elem_of_nil|by intros (? & ?%elem_of_nil & _)]|]. destruct (Z.eqb_spec (ready x m) 0) as [E|E].
  - rewrite IH. split; intros (mask & Hin & Hr); exists mask; (split; [|done]); [by right|]. apply elem_of_cons in Hin as [Hin|Hin]; [|done]. simplify_eq. destruct Hr as [Hr Hn]. congruence.
  - rewrite elem_of_cons, IH. split.
    + intros [Hin|(mask & Hin & Hr)]; [simplify_eq; exists m; split; [left|done]|exists mask; split; [by right|done]].
    + intros (mask & Hin & Hr & Hn). apply elem_of_cons in Hin as [Hin|Hin]; [left|right; by exists mask]. simplify_eq. destruct e as [ev dt]. cbn in *. by subst ev.
Qed.
Lemma reports_sorted ready ws : StronglySorted (λ a b, a.1 < b.1) ws → StronglySorted (λ a b, a.1 < b.1) (reports ready ws).
Proof.
  intros H. induction H as [|[x [m d]] ws Hs IH Hf]; [constructor|]. cbn [reports]. destruct (_ =? 0); [done|]. constructor; [done|]. apply Forall_forall. intros [y e] Hy. apply elem_of_reports in Hy as (mask & Hin & _). rewrite Forall_forall in Hf. by apply (Hf _ Hin).
Qed.
#[export] Instance entry_le_trans : Transitive entry_le.
Proof. intros a b c. unfold entry_le. lia. Qed.
#[export] Instance entry_le_total : Total entry_le.
Proof. intros a b. unfold entry_le. lia. Qed.
Lemma watched_sorted inst : StronglySorted (λ a b, a.1 < b.1) (watched_list inst).
Proof.
  pose proof (StronglySorted_merge_sort entry_le (map_to_list inst)) as Hs. assert (NoDup (watched_list inst).*1) as Hn by (unfold watched_list; rewrite merge_sort_Permutation; apply NoDup_fst_map_to_list). fold (watched_list inst) in Hs.
  induction Hs as [|a l Hs IH Hf]; [constructor|]. cbn [fmap list_fmap] in Hn. apply NoDup_cons in Hn as [Ha Hn]. constructor; [by apply IH|]. apply Forall_forall. intros b Hb. rewrite Forall_forall in Hf. pose proof (Hf b Hb) as Hle. unfold entry_le in Hle.
  assert (a.1 ≠ b.1) by (intros E; apply Ha; rewrite E; by apply list_elem_of_fmap_2). lia.
Qed.
Lemma elem_of_watched inst fd mask data : (fd, (mask, data)) ∈ watched_list inst ↔ inst !! fd = Some (mask, data).
Proof. unfold watched_list. by rewrite merge_sort_Permutation, elem_of_map_to_list. Qed.
Fixpoint write_events (a : Z) (es : list EpollEvent) (mem : Z → Z) : Z → Z :=
  match es with
  | [] => mem
  | e :: es => write_events (a + 12) es (mem_write mem a (event_bytes e))
  end.
Lemma wait_loop_events ready ptr max ws : ∀ mem count, 0 ≤ ptr → 0 ≤ count → ptr + 12 * (count + Z.of_nat (length ws)) < 2 ^ 64 →
  let es := take (Z.to_nat (max - count)) (reports ready ws).*2 in
  wait_loop ready ptr max ws mem count = (write_events (ptr + 12 * count) es mem, count + Z.of_nat (length es)).
Proof.
  induction ws as [|[fd [mask data]] ws IH]; intros mem count Hp Hc Hb; cbn [length] in Hb.
  - cbn. rewrite take_nil. cbn. f_equal. lia.
  - cbn [wait_loop reports]. destruct (Z.leb_spec max count) as [Hle|Hlt].
    + replace (Z.to_nat (max - count)) with 0%nat by lia. rewrite take_0. cbn [write_events length]. by rewrite Z.add_0_r.
    + destruct (ready fd mask =? 0) eqn:E; [apply IH; lia|]. rewrite IH by lia. rewrite wadd_small by lia.
      replace (Z.to_nat (max - count)) with (S (Z.to_nat (max - (count + 1)))) by lia. cbn [fmap list_fmap take write_events length]. f_equal; [|lia].
      replace (ptr + 12 * (count + 1)) with (ptr + 12 * count + 12) by lia. by rewrite (Z.mul_comm count).
Qed.
Lemma length_event e : length (event_bytes e) = 12%nat.
Proof. unfold event_bytes. by rewrite length_app, !length_le_bytes. Qed.
Lemma write_events_below a es mem x : x < a → write_events a es mem x = mem x.
Proof.
  revert a mem. induction es as [|e es IH]; intros a mem Hx; [done|]. cbn [write_events]. rewrite IH by lia. unfold mem_write. by rewrite decide_False by lia.
Qed.
Lemma mem_read_below a es mem b n : b + Z.of_nat n ≤ a → mem_read (write_events a es mem) b n = mem_read mem b n.
Proof.
  intros H. apply map_ext_in. intros i Hi. apply in_seq in Hi. apply write_events_below. lia.
Qed.
Lemma read_event_written mem a e : is_u32 (ev_events e) → is_u64 (ev_data e) → read_event (mem_write mem a (event_bytes e)) a = e.
Proof.
  intros H1 H2. unfold read_event. rewrite mem_read_write by (rewrite length_event; lia). unfold event_bytes at 1. rewrite take_app_length' by (by rewrite length_le_bytes).
  assert (mem_read (mem_write mem a (event_bytes e)) (a + 4) 8 = le_bytes 8 (ev_data e)) as ->.
  { transitivity (drop 4 (mem_read (mem_write mem a (event_bytes e)) a 12)).
    - apply list_eq. intros i. unfold mem_read. rewrite lookup_drop, !list_lookup_fmap. destruct (decide (i < 8)%nat); [|rewrite !lookup_ge_None_2 by (rewrite length_seq; lia); done].
      rewrite !lookup_seq_lt by lia. cbn [fmap option_fmap option_map]. do 2 f_equal. lia.
    - rewrite mem_read_write by (rewrite length_event; lia). rewrite take_ge by (rewrite length_event; lia). unfold event_bytes. by rewrite drop_app_length' by (by rewrite length_le_bytes). }
  rewrite !le_value_bytes, !wrap_small by done. by destruct e.
Qed.
Lemma read_events_written es : ∀ a mem i e, Forall (λ e, is_u32 (ev_events e) ∧ is_u64 (ev_data e)) es → es !! i = Some e → read_event (write_events a es mem) (a + 12 * Z.of_nat i) = e.
Proof.
  induction es as [|x es IH]; intros a mem i e Hes Hi; [done|]. apply Forall_cons in Hes as [[H1 H2] Hes]. cbn [write_events]. destruct i as [|i].
  - injection Hi as ->. replace (a + 12 * Z.of_nat 0) with a by lia. unfold read_event. rewrite !mem_read_below by lia. by apply read_event_written.
  - replace (a + 12 * Z.of_nat (S i)) with (a + 12 + 12 * Z.of_nat i) by lia. by apply IH.
Qed.
(** The masks and data are words, as [epoll_ctl] stores them. *)
Definition instance_ok (inst : EpollInstance) : Prop := ∀ fd mask data, inst !! fd = Some (mask, data) → is_u64 data.
Lemma write_events_above a es mem x : a + 12 * Z.of_nat (length es) ≤ x → write_events a es mem x = mem x.
Proof.
  revert a mem. induction es as [|e es IH]; intros a mem Hx; [done|]. cbn [length] in Hx. cbn [write_events]. rewrite IH by lia. unfold mem_write. rewrite length_event. by rewrite decide_False by lia.
Qed.
Lemma elem_of_taken {A} (l : list A) n x : x ∈ take n l → x ∈ l.
Proof. intros (i & H & _)%elem_of_take. by eapply list_elem_of_lookup_2. Qed.
(** What is cut off lies behind what stays. *)
Lemma take_sorted {A} (R : A → A → Prop) l n x : StronglySorted R l → x ∈ l → x ∈ take n l ∨ ((n ≤ length (take n l))%nat ∧ ∀ y, y ∈ take n l → R y x).
Proof.
  intros Hs. revert n. induction Hs as [|a l Hs IH Hf]; intros n Hx; [by apply elem_of_nil in Hx|]. destruct n as [|n]; [right; split; [cbn; lia|by intros y ?%elem_of_nil]|]. cbn [take length].
  apply elem_of_cons in Hx as [->|Hx]; [left; left|]. destruct (IH n Hx) as [H|[H1 H2]]; [left; by right|right]. split; [lia|]. rewrite Forall_forall in Hf. intros y [->|Hy]%elem_of_cons; [by apply Hf|by apply H2].
Qed.
Lemma StronglySorted_take {A} (R : A → A → Prop) l n : StronglySorted R l → StronglySorted R (take n l).
Proof.
  intros Hs. revert n. induction Hs as [|a l Hs IH Hf]; intros [|n]; try constructor; [apply IH|by apply Forall_take].
Qed.

(** C37. What [epoll_wait] reports, when the array does not pass the end of the
    address space: a list of descriptors in ascending order, no more than asked
    for, whose length is the result.  A watched descriptor is reported as
    readable when that was asked for, it is open and it is not the read end of
    an empty pipe; otherwise as writable when that was asked for, whatever the
    descriptor is, so that a closed one and a full pipe are reported writable
    and one that is both only readable.  A descriptor to report is left out only when
    the list is full with smaller ones.  The array holds for each the answer and
    the data it was registered with, and the memory around it is unchanged. *)
Theorem epoll_wait_reports pipes cur epfd id inst ptr max timeout mem s : find_epoll_instance cur epfd = Some id → EPOLL_TABLE s !! id = Some inst → instance_ok inst →
  0 ≤ ptr → ptr + 12 * Z.of_nat (size inst) < 2 ^ 64 →
  ∃ (l : list (Z * EpollEvent)) mem' slept,
    epoll_wait pipes cur epfd ptr max timeout mem s = (mem', Z.of_nat (length l), slept) ∧
    StronglySorted (λ a b, a.1 < b.1) l ∧ Z.of_nat (length l) ≤ Z.max 0 max ∧
    (∀ fd e, (fd, e) ∈ l → ∃ mask, inst !! fd = Some (mask, ev_data e) ∧ reported pipes cur fd mask (ev_events e)) ∧
    (∀ fd mask data r, inst !! fd = Some (mask, data) → reported pipes cur fd mask r → (fd, mkEvent r data) ∈ l ∨ (max ≤ Z.of_nat (length l) ∧ ∀ x, x ∈ l → x.1 < fd)) ∧
    (∀ i fd e, l !! i = Some (fd, e) → read_event mem' (ptr + 12 * Z.of_nat i) = e) ∧
    (∀ x, x < ptr ∨ ptr + 12 * Z.of_nat (length l) ≤ x → mem' x = mem x).
Proof.
  intros Hf Ht Hi Hp Hb. unfold epoll_wait. rewrite Hf, Ht. set (rs := reports (check_fd_ready pipes cur) (watched_list inst)).
  assert (∀ fd e, (fd, e) ∈ rs ↔ ∃ mask, inst !! fd = Some (mask, ev_data e) ∧ reported pipes cur fd mask (ev_events e)) as Hrs.
  { intros fd e. unfold rs. rewrite elem_of_reports. by setoid_rewrite elem_of_watched; setoid_rewrite check_reported. }
  pose proof (reports_sorted (check_fd_ready pipes cur) _ (watched_sorted inst)) as Hs. fold rs in Hs.
  rewrite wait_loop_events; [|done|done|unfold watched_list; rewrite merge_sort_Permutation, length_map_to_list; lia]. fold rs. replace (max - 0) with max by lia. replace (ptr + 12 * 0) with ptr by lia. rewrite Z.add_0_l.
  rewrite <- fmap_take. set (l := take (Z.to_nat max) rs). exists l. eexists _, _. rewrite length_fmap. split; [reflexivity|]. split_and!.
  - by apply StronglySorted_take.
  - unfold l. rewrite length_take. lia.
  - intros fd e Hin. apply Hrs. by eapply elem_of_taken.
  - intros fd mask data r Hl Hr. destruct (take_sorted _ rs (Z.to_nat max) (fd, mkEvent r data) Hs) as [H|[H1 H2]]; [apply Hrs; by exists mask|by left|]. right. fold l in H1, H2. split; [lia|]. intros x Hx. by apply (H2 x).
  - intros i fd e Hl. apply read_events_written; [|by rewrite list_lookup_fmap, Hl]. apply Forall_fmap, Forall_forall. intros [x e'] Hx. apply elem_of_taken, Hrs in Hx as (mask & Hx & Hr). cbn. split; [destruct Hr; split; lia|by eapply Hi].
  - intros x [Hx|Hx]; [by apply write_events_below|]. apply write_events_above. by rewrite length_fmap.
Qed.
Definition proc0 : Process := set_fds (<[3 := mkFd (EPOLL_INO + 200) 0 0 FdRegular]> (<[4 := mkFd 7 0 0 (PipeRead 1)]> (<[5 := mkFd 8 0 0 FdRegular]> ∅))) 6 (demo_process 1 0 Running).
Definition watch0 : EpollInstance := <[4 := (EPOLLIN, 44)]> (<[5 := (EPOLLIN, 55)]> ∅).
Definition epoll0 : Epoll := mkEpoll {[200 := watch0]} 201.
Lemma epoll_wait_reports_witness : ∃ mem' slept, epoll_wait {[1 := pipe_new]} (Some proc0) 3 0x1000 8 10 (λ _, 0) epoll0 = (mem', 1, slept) ∧ read_event mem' 0x1000 = mkEvent EPOLLIN 55.
Proof.
  destruct (epoll_wait_reports {[1 := pipe_new]} (Some proc0) 3 200 watch0 0x1000 8 10 (λ _, 0) epoll0) as (l & mem' & slept & H & _ & _ & Hl & _ & Hr & _).
  - vm_compute. reflexivity.
  - vm_compute. reflexivity.
  - intros fd mask data Hx. unfold watch0 in Hx. apply lookup_insert_Some in Hx as [[_ Hx]|[_ Hx]]; [injection Hx as _ <-; split; lia|].
    apply lookup_insert_Some in Hx as [[_ Hx]|[_ Hx]]; [injection Hx as _ <-; split; lia|]. by rewrite lookup_empty in Hx.
  - lia.
  - vm_compute. reflexivity.
  - exists mem', slept. assert ((epoll_wait {[1 := pipe_new]} (Some proc0) 3 0x1000 8 10 (λ _, 0) epoll0).1.2 = 1) as E by (vm_compute; reflexivity).
    rewrite H in E. cbn [fst snd] in E. rewrite E in H. split; [exact H|]. destruct l as [|[fd e] l]; [cbn in E; lia|].
    destruct (Hl fd e ltac:(left)) as (mask & Hw & He). pose proof (Hr 0%nat fd e eq_refl) as Hev. cbn [Z.of_nat] in Hev. rewrite Z.mul_0_r, Z.add_0_r in Hev. rewrite Hev.
    destruct e as [ev dt]. cbn [ev_events ev_data] in *. apply check_reported in He as [He Hne]. unfold watch0 in Hw.
    apply lookup_insert_Some in Hw as [[<- Hw]|[_ Hw]]; [injection Hw as <- <-; vm_compute in He; congruence|]. apply lookup_insert_Some in Hw as [[<- Hw]|[_ Hw]]; [injection Hw as <- <-; vm_compute in He; by rewrite <- He|]. by rewrite lookup_empty in Hw.
Defined.

(** A descriptor that was closed is reported as writable for ever, and a wait
    without a time limit returns at once. *)
Example closed_is_writable : check_fd_ready ∅ (Some proc0) 9 EPOLLOUT = EPOLLOUT.
Proof. vm_compute. reflexivity. Qed.
Example wait_forever_returns : let '(_, n, slept) := epoll_wait {[1 := pipe_new]} (Some proc0) 3 0x1000 8 (-1) (λ _, 0) (mkEpoll {[200 := {[4 := (EPOLLIN, 44)]}]} 201) in n = 0 ∧ slept = 0.
Proof. vm_compute. done. Qed.
