(* ===== verification/IoUring.v ===== *)
(** * io_uring

    Models kernel/src/io_uring/mod.rs: the rings shared with a program, the
    execution of submitted entries and the calls.  A ring is the record of its
    words and entries in the shared pages; the program changes its own words
    (the tail of the submission ring, the head of the completion ring).  The
    system calls an entry stands for are operations of the class [SqeCalls] on
    a state of their own.  [mem] is memory as in VfsCalls. *)
From S2P Require Import Prelude Process VfsCalls.

Definition IORING_SETUP_CQSIZE : Z := 8.
Definition IORING_OFF_SQ_RING : Z := 0.
Definition IORING_OFF_CQ_RING : Z := 0x08000000.
Definition IORING_OFF_SQES : Z := 0x10000000.
Definition IORING_OP_LAST : Z := 40.
Definition IORING_FEATURES : Z := 0x1AF.

Record IoUringSqe := mkSqe { opcode : Z; sqe_fd : Z; off_or_addr2 : Z; addr : Z; sqe_len : Z; op_flags : Z; user_data : Z }.
Record IoUringCqe := mkCqe { cqe_data : Z; cqe_res : Z; cqe_flags : Z }.
Record IoUringParams := mkParams { p_sq_entries : Z; p_cq_entries : Z; p_flags : Z; p_features : Z; p_sq_off : list Z; p_cq_off : list Z }.
Record IoUring := mkUring {
  u_fd : Z;
  u_pid : Z;
  u_flags : Z;
  sq_ring_phys : Z;
  sq_ring_size : Z;
  sq_entries : Z;
  cq_ring_phys : Z;
  cq_ring_size : Z;
  cq_entries : Z;
  sqes_phys : Z;
  sqes_size : Z;
  sq_head : Z;
  sq_tail : Z;
  cq_head : Z;
  cq_tail : Z;
  cq_overflow : Z;
  sq_array : list Z;
  sqes : list IoUringSqe;
  cqes : list IoUringCqe;
  fixed_files : list (option Z);
}.
Definition set_cq (tail overflow : Z) (es : list IoUringCqe) (r : IoUring) : IoUring :=
  mkUring (u_fd r) (u_pid r) (u_flags r) (sq_ring_phys r) (sq_ring_size r) (sq_entries r) (cq_ring_phys r) (cq_ring_size r) (cq_entries r) (sqes_phys r) (sqes_size r)
    (sq_head r) (sq_tail r) (cq_head r) tail overflow (sq_array r) (sqes r) es (fixed_files r).
Definition set_sq_head (h : Z) (r : IoUring) : IoUring :=
  mkUring (u_fd r) (u_pid r) (u_flags r) (sq_ring_phys r) (sq_ring_size r) (sq_entries r) (cq_ring_phys r) (cq_ring_size r) (cq_entries r) (sqes_phys r) (sqes_size r)
    h (sq_tail r) (cq_head r) (cq_tail r) (cq_overflow r) (sq_array r) (sqes r) (cqes r) (fixed_files r).
Definition set_fixed (fs : list (option Z)) (r : IoUring) : IoUring :=
  mkUring (u_fd r) (u_pid r) (u_flags r) (sq_ring_phys r) (sq_ring_size r) (sq_entries r) (cq_ring_phys r) (cq_ring_size r) (cq_entries r) (sqes_phys r) (sqes_size r)
    (sq_head r) (sq_tail r) (cq_head r) (cq_tail r) (cq_overflow r) (sq_array r) (sqes r) (cqes r) fs.

(** ** Making a ring *)
Definition next_power_of_two (n : Z) : Z := if n <=? 1 then 1 else wrap 32 (2 ^ Z.log2_up n).
Definition clamp (lo hi x : Z) : Z := if x <? lo then lo else if hi <? x then hi else x.
Definition align_up (v a : Z) : Z := Z.land (v + a - 1) (wnot 64 (a - 1)).
Definition sqe_zero : IoUringSqe := mkSqe 0 0 0 0 0 0 0.
Definition cqe_zero : IoUringCqe := mkCqe 0 0 0.
(** [alloc] is the allocator of frames. *)
Definition uring_new (alloc : Z → option Z) (fd pid sq_entries cq_entries flags : Z) : option IoUring :=
  let sq := clamp 1 32768 (next_power_of_two sq_entries) in
  let cq := clamp sq 65536 (next_power_of_two cq_entries) in
  let sq_sz := align_up (24 + sq * 4) 4096 in
  let cq_sz := align_up (32 + cq * 16) 4096 in
  let se_sz := align_up (sq * 64) 4096 in
  let total := (sq_sz + cq_sz + se_sz) / 4096 in
  base ← alloc total;
  let sqr := base in
  let cqr := base + sq_sz in
  let ser := cqr + cq_sz in
  Some (mkUring fd pid flags sqr sq_sz sq cqr cq_sz cq ser se_sz 0 0 0 0 0
    (replicate (Z.to_nat sq) 0) (replicate (Z.to_nat sq) sqe_zero) (replicate (Z.to_nat cq) cqe_zero) []).
Definition sq_mask (r : IoUring) : Z := sq_entries r - 1.
Definition cq_mask (r : IoUring) : Z := cq_entries r - 1.
Definition sqe_at (sqe_idx : Z) (r : IoUring) : IoUringSqe := default sqe_zero (sqes r !! Z.to_nat (Z.land sqe_idx (sq_mask r))).
Definition sq_arr_at (pos : Z) (r : IoUring) : Z := default 0 (sq_array r !! Z.to_nat (Z.land pos (sq_mask r))).
Definition mmap_region (offset : Z) (r : IoUring) : option (Z * Z) :=
  if offset =? IORING_OFF_SQ_RING then Some (sq_ring_phys r, sq_ring_size r)
  else if offset =? IORING_OFF_CQ_RING then Some (cq_ring_phys r, cq_ring_size r)
  else if offset =? IORING_OFF_SQES then Some (sqes_phys r, sqes_size r)
  else None.
(** The offsets: head, tail, mask, entries, then flags, dropped and the array;
    or overflow, entries and flags. *)
Definition fill_params (r : IoUring) : IoUringParams :=
  mkParams (sq_entries r) (cq_entries r) (u_flags r) IORING_FEATURES [0; 4; 8; 12; 16; 20; 24; 0; 0] [0; 4; 8; 12; 16; 32; 20; 0; 0].

(** ** Completion *)
Definition post_cqe (data res flags : Z) (r : IoUring) : IoUring :=
  let t := cq_tail r in
  let h := cq_head r in
  if cq_entries r <=? wsub 32 t h then set_cq t (wadd 32 (cq_overflow r) 1) (cqes r) r
  else set_cq (wadd 32 t 1) (cq_overflow r) (<[Z.to_nat (Z.land t (cq_mask r)) := mkCqe data res flags]> (cqes r)) r.

(** ** The system calls behind the entries *)
Class SqeCalls (K : Type) := {
  c_user_ptr : Z → Z → K → bool;
  c_read_fd : Z → Z → Z → K → K * option Z;
  c_write_fd : Z → Z → Z → K → K * option Z;
  c_readv : Z → Z → Z → K → K * Z;
  c_writev : Z → Z → Z → K → K * Z;
  c_fsync : Z → K → K * Z;
  c_accept : Z → Z → Z → K → K * Z;
  c_connect : Z → Z → Z → K → K * Z;
  c_send : Z → Z → Z → Z → K → K * Z;
  c_recv : Z → Z → Z → Z → K → K * Z;
  c_sendmsg : Z → Z → Z → K → K * Z;
  c_recvmsg : Z → Z → Z → K → K * Z;
  c_openat : Z → Z → Z → Z → K → K * Z;
  c_close : Z → K → K * Z;
  c_stat : Z → Z → K → K * Z;
  c_unlinkat : Z → Z → Z → K → K * Z;
  c_mkdirat : Z → Z → Z → K → K * Z;
  c_renameat : Z → Z → Z → Z → K → K * Z;
  c_symlinkat : Z → Z → Z → K → K * Z;
  c_linkat : Z → Z → Z → Z → Z → K → K * Z;
  c_shutdown : Z → Z → K → K * Z;
  c_fallocate : Z → Z → Z → Z → K → K * Z;
  c_nanosleep : Z → Z → K → K * Z;
}.
Definition as_i32 {K} (x : K * Z) : K * Z := (x.1, to_signed 32 x.2).

Section Rings.
Context {K : Type} `{SqeCalls K}.

Definition rw_fd (call : Z → Z → Z → K → K * option Z) (fd buf len : Z) (k : K) : K * Z :=
  if negb (c_user_ptr buf len k) then (k, -14)
  else let '(k, n) := call (wrap 32 fd) buf len k in (k, default (-9) (to_signed 32 <$> n)).
Definition execute_sqe (e : IoUringSqe) (k : K) : K * Z :=
  let fd := sqe_fd e in
  let buf := addr e in
  let len := sqe_len e in
  let off := off_or_addr2 e in
  let fl := to_signed 32 (op_flags e) in
  match opcode e with
  | 0 => (k, 0)
  | 22 => rw_fd c_read_fd fd buf len k
  | 23 => rw_fd c_write_fd fd buf len k
  | 4 => rw_fd c_read_fd fd buf len k
  | 5 => rw_fd c_write_fd fd buf len k
  | 1 => as_i32 (c_readv fd buf len k)
  | 2 => as_i32 (c_writev fd buf len k)
  | 3 => as_i32 (c_fsync fd k)
  | 13 => as_i32 (c_accept fd buf off k)
  | 16 => as_i32 (c_connect fd buf len k)
  | 26 => as_i32 (c_send fd buf len fl k)
  | 27 => as_i32 (c_recv fd buf len fl k)
  | 9 => as_i32 (c_sendmsg fd buf fl k)
  | 10 => as_i32 (c_recvmsg fd buf fl k)
  | 18 => as_i32 (c_openat fd buf fl len k)
  | 19 => as_i32 (c_close fd k)
  | 21 => as_i32 (c_stat buf off k)
  | 36 => as_i32 (c_unlinkat fd buf fl k)
  | 37 => as_i32 (c_mkdirat fd buf len k)
  | 35 => as_i32 (c_renameat fd buf fl off k)
  | 38 => as_i32 (c_symlinkat buf fd off k)
  | 39 => as_i32 (c_linkat fd buf 0 off 0 k)
  | 34 => as_i32 (c_shutdown fd fl k)
  | 17 => as_i32 (c_fallocate fd 0 (to_signed 64 off) len k)
  | 11 => (if negb (buf =? 0) then (c_nanosleep buf 0 k).1 else k, 0)
  | 6 | 7 => (k, 0)
  | _ => (k, -95)
  end.

(** The loop takes [n] entries from position [pos]. *)
Fixpoint submit_loop (n : nat) (pos : Z) (r : IoUring) (k : K) : IoUring * K :=
  match n with
  | O => (r, k)
  | S n =>
      let e := sqe_at (sq_arr_at pos r) r in
      let '(k, res) := execute_sqe e k in
      submit_loop n (wadd 32 pos 1) (post_cqe (user_data e) res 0 r) k
  end.
Definition submit_and_wait (to_submit : Z) (r : IoUring) (k : K) : IoUring * K * Z :=
  let head := sq_head r in
  let pending := Z.min (wsub 32 (sq_tail r) head) to_submit in
  let '(r, k) := submit_loop (Z.to_nat pending) head r k in
  (set_sq_head (wadd 32 (sq_head r) pending) r, k, to_signed 32 pending).

(** ** Calls *)
Record Rings := mkRings { RINGS : gmap Z IoUring; NEXT_URING_FD : Z }.
Definition rings_start : Rings := mkRings ∅ 10000.
Definition resolve_ring_fd (cur : option Process) (process_fd : Z) : Z :=
  default process_fd (p ← cur; f ← Process.get_fd p (wrap 32 process_fd); match fd_kind f with FdIoUring id => Some (to_signed 32 id) | _ => None end).
Definition PARAMS_SIZE : Z := 120.
(** [ok] is the check of a user pointer; the parameters are those the pointer
    leads to, before and after. *)
Definition sys_io_uring_setup (fuel : nat) (ok : Z → Z → bool) (alloc : Z → option Z) (cur : option Process) (cur_pid entries params_ptr : Z) (params : IoUringParams) (g : Rings)
  : option (Rings * option Process * IoUringParams * Z) :=
  if params_ptr =? 0 then Some (g, cur, params, -22)
  else if negb (ok params_ptr PARAMS_SIZE) then Some (g, cur, params, -14)
  else
    let flags := p_flags params in
    let cq := if negb (Z.land flags IORING_SETUP_CQSIZE =? 0) && (entries <? p_cq_entries params) then p_cq_entries params else wmul 32 entries 2 in
    let uid := to_signed 32 (NEXT_URING_FD g) in
    let g := mkRings (RINGS g) (wadd 32 (NEXT_URING_FD g) 1) in
    match uring_new alloc uid cur_pid entries cq flags with
    | None => Some (g, cur, params, -12)
    | Some ring =>
        let g := mkRings (<[uid := ring]> (RINGS g)) (NEXT_URING_FD g) in
        match cur with
        | None => Some (g, None, fill_params ring, -1)
        | Some p =>
            '(p, n) ← alloc_fd fuel (mkFd (wrap 64 uid) 0 0 (FdIoUring (wrap 32 uid))) p;
            Some (g, Some p, fill_params ring, to_signed 32 n)
        end
    end.
Definition sys_io_uring_enter (cur : option Process) (fd to_submit : Z) (g : Rings) (k : K) : Rings * K * Z :=
  let rid := resolve_ring_fd cur fd in
  match RINGS g !! rid with
  | None => (g, k, -9)
  | Some r => let '(r, k, n) := submit_and_wait to_submit r k in (mkRings (<[rid := r]> (RINGS g)) (NEXT_URING_FD g), k, n)
  end.
Definition read_i32 (mem : Z → Z) (a : Z) : Z := to_signed 32 (le_value (mem_read mem a 4)).
Definition sys_io_uring_register (ok : Z → Z → bool) (cur : option Process) (fd opcode arg nr_args : Z) (mem : Z → Z) (g : Rings) : Rings * (Z → Z) * Z :=
  let rid := resolve_ring_fd cur fd in
  if opcode =? 8 then
    if negb (arg =? 0) then
      if negb (ok arg (4 + 4 * IORING_OP_LAST)) then (g, mem, -14)
      else (g, mem_write (mem_write mem arg (le_bytes 4 IORING_OP_LAST)) (arg + 8) (concat (replicate 40 (le_bytes 4 3))), 0)
    else (g, mem, 0)
  else if opcode =? 2 then
    if negb (arg =? 0) && (0 <? nr_args) then
      if negb (ok arg (nr_args * 4)) then (g, mem, -14)
      else
        let fds := map (λ i, read_i32 mem (arg + 4 * Z.of_nat i)) (seq 0 (Z.to_nat nr_args)) in
        (match RINGS g !! rid with
         | Some r => mkRings (<[rid := set_fixed (map (λ f, if f <? 0 then None else Some f) fds) r]> (RINGS g)) (NEXT_URING_FD g)
         | None => g
         end, mem, 0)
    else (g, mem, 0)
  else (g, mem, 0).
(** The address and the pairs of pages that are mapped, user and physical. *)
Definition map_ring_pages (ring_fd offset len : Z) (g : Rings) : option (Z * list (Z * Z)) :=
  ring ← RINGS g !! ring_fd;
  '(phys, sz) ← mmap_region offset ring;
  if sz <? len then None
  else
    let user_base := 0x4000000000 + offset in
    let pages := (len + 4095) / 4096 in
    Some (user_base, map (λ i, (user_base + Z.of_nat i * 4096, phys + Z.of_nat i * 4096)) (seq 0 (Z.to_nat pages))).
End Rings.

(** ** What a submission does *)
Record ring_ok (r : IoUring) : Prop := {
  ok_entries : ∃ k, 0 ≤ k ≤ 16 ∧ cq_entries r = 2 ^ k;
  ok_cqes : Z.of_nat (length (cqes r)) = cq_entries r;
  ok_head : is_u32 (cq_head r);
  ok_tail : is_u32 (cq_tail r);
  ok_overflow : is_u32 (cq_overflow r);
  ok_fill : wsub 32 (cq_tail r) (cq_head r) ≤ cq_entries r;
}.
Definition fill (r : IoUring) : Z := wsub 32 (cq_tail r) (cq_head r).
(** The completions the program finds, from its head to the tail. *)
Definition completions_at (h m : Z) (cs : list IoUringCqe) (n : nat) : list IoUringCqe := map (λ i, default cqe_zero (cs !! Z.to_nat ((h + Z.of_nat i) mod m))) (seq 0 n).
Definition completions (r : IoUring) : list IoUringCqe := completions_at (cq_head r) (cq_entries r) (cqes r) (Z.to_nat (fill r)).
Lemma mask_mod k p : 0 ≤ k → Z.land p (2 ^ k - 1) = p mod 2 ^ k.
Proof. intros Hk. rewrite <- Z.land_ones by done. by rewrite Z.ones_equiv, Z.sub_1_r. Qed.
Lemma slot_differs h m i n : 0 ≤ i < n → n < m → (h + i) mod m ≠ (h + n) mod m.
Proof.
  intros Hi Hn E. assert ((h + n - (h + i)) mod m = 0) as Hz by (rewrite Zminus_mod, E, Z.sub_diag; done).
  replace (h + n - (h + i)) with (n - i) in Hz by lia. rewrite Z.mod_small in Hz by lia. lia.
Qed.
Lemma completions_write h m cs n c : Z.of_nat n < m → Z.of_nat (length cs) = m →
  completions_at h m (<[Z.to_nat ((h + Z.of_nat n) mod m) := c]> cs) (S n) = completions_at h m cs n ++ [c].
Proof.
  intros Hn Hl. unfold completions_at. rewrite seq_S, map_app. cbn [map Nat.add]. f_equal.
  - apply map_ext_in. intros i Hi. apply in_seq in Hi. rewrite list_lookup_insert_ne; [done|]. pose proof (Z.mod_pos_bound (h + Z.of_nat i) m ltac:(lia)). pose proof (Z.mod_pos_bound (h + Z.of_nat n) m ltac:(lia)).
    intros E. apply (slot_differs h m (Z.of_nat i) (Z.of_nat n)); [lia|done|lia].
  - pose proof (Z.mod_pos_bound (h + Z.of_nat n) m ltac:(lia)). rewrite list_lookup_insert_eq by lia. done.
Qed.
Lemma tail_of_fill r : ring_ok r → cq_tail r mod cq_entries r = (cq_head r + fill r) mod cq_entries r.
Proof.
  intros [(k & Hk & Ek) _ Hh Ht _ _]. rewrite Ek. unfold fill, wsub, wrap. destruct Hh, Ht.
  assert (2 ^ 32 = 2 ^ k * 2 ^ (32 - k)) as Hp by (rewrite <- Z.pow_add_r by lia; f_equal; lia).
  rewrite (Z.mod_eq (_ - _) (2 ^ 32)) by lia. set (q := (cq_tail r - cq_head r) / 2 ^ 32). replace (cq_head r + (cq_tail r - cq_head r - 2 ^ 32 * q)) with (cq_tail r + - (2 ^ (32 - k) * q) * 2 ^ k) by (rewrite Hp; ring).
  by rewrite Z.mod_add by lia.
Qed.
Lemma fill_range r : 0 ≤ fill r < 2 ^ 32.
Proof. apply Z.mod_pos_bound. lia. Qed.
Lemma entries_bound r : ring_ok r → 1 ≤ cq_entries r ≤ 65536.
Proof. intros [(k & Hk & ->) _ _ _ _ _]. split; [|change 65536 with (2 ^ 16); apply Z.pow_le_mono_r; lia]. pose proof (Z.pow_pos_nonneg 2 k). lia. Qed.
Lemma fill_succ t h : is_u32 t → is_u32 h → wsub 32 t h < 65536 → wsub 32 (wadd 32 t 1) h = wsub 32 t h + 1.
Proof.
  intros [? ?] [? ?]. unfold wsub, wadd, wrap. intros Hb. rewrite Zminus_mod_idemp_l. replace (t + 1 - h) with (t - h + 1) by lia. rewrite <- Z.add_mod_idemp_l by lia. apply Z.mod_small. pose proof (Z.mod_pos_bound (t - h) (2 ^ 32)). lia.
Qed.

(** The parts a completion leaves alone. *)
Definition same_submission (r r' : IoUring) : Prop :=
  sq_head r' = sq_head r ∧ sq_tail r' = sq_tail r ∧ sq_entries r' = sq_entries r ∧ sq_array r' = sq_array r ∧ sqes r' = sqes r ∧ cq_head r' = cq_head r ∧ cq_entries r' = cq_entries r.
Lemma post_cqe_posts d res fl r : ring_ok r →
  let r' := post_cqe d res fl r in
  ring_ok r' ∧ same_submission r r' ∧
  if cq_entries r <=? fill r then completions r' = completions r ∧ cq_overflow r' = wadd 32 (cq_overflow r) 1 ∧ fill r' = fill r
  else completions r' = completions r ++ [mkCqe d res fl] ∧ cq_overflow r' = cq_overflow r ∧ fill r' = fill r + 1.
Proof.
  intros Hr. pose proof (entries_bound r Hr) as Hb. pose proof (fill_range r) as Hf. pose proof (tail_of_fill r Hr) as Ht. unfold post_cqe. fold (fill r).
  destruct Hr as [(k & Hk & Ek) H2 H3 H4 Ho H5]. destruct (Z.leb_spec (cq_entries r) (fill r)) as [Hle|Hlt].
  - split_and!; try done. split; try done; [by exists k|apply wrap_range; lia].
  - assert (fill (set_cq (wadd 32 (cq_tail r) 1) (cq_overflow r) (<[Z.to_nat (Z.land (cq_tail r) (cq_mask r)) := mkCqe d res fl]> (cqes r)) r) = fill r + 1) as Ef by (apply (fill_succ (cq_tail r) (cq_head r)); [done|done|fold (fill r); lia]).
    cbv zeta. split_and!; try done.
    + split; cbn [set_cq cq_entries cqes cq_head cq_tail]; [by exists k|by rewrite length_insert|done|apply wrap_range; lia|done|]. unfold fill in Ef, Hlt. cbn [set_cq cq_tail cq_head] in Ef. rewrite Ef. lia.
    + unfold completions. rewrite Ef. cbn [set_cq cq_entries cqes cq_head]. assert (Z.land (cq_tail r) (cq_mask r) = (cq_head r + fill r) mod cq_entries r) as -> by (rewrite <- Ht; unfold cq_mask; rewrite Ek; apply mask_mod; lia).
      replace (Z.to_nat (fill r + 1)) with (S (Z.to_nat (fill r))) by lia. rewrite <- (Z2Nat.id (fill r)) at 1 by lia. apply completions_write; lia.
Qed.

Section Submit.
Context {K : Type} `{SqeCalls K}.
(** The entries between two positions of the submission ring, and their
    execution one after the other. *)
Fixpoint entries_from (n : nat) (pos : Z) (r : IoUring) : list IoUringSqe :=
  match n with
  | O => []
  | S n => sqe_at (sq_arr_at pos r) r :: entries_from n (wadd 32 pos 1) r
  end.
Fixpoint run_entries (es : list IoUringSqe) (k : K) : list IoUringCqe * K :=
  match es with
  | [] => ([], k)
  | e :: es => let '(k, res) := execute_sqe e k in let '(cs, k) := run_entries es k in (mkCqe (user_data e) res 0 :: cs, k)
  end.
Lemma entries_same n : ∀ pos r r', same_submission r r' → entries_from n pos r' = entries_from n pos r.
Proof.
  induction n as [|n IH]; intros pos r r' Hs; [done|]. cbn [entries_from]. rewrite (IH _ r r') by done. f_equal. destruct Hs as (_ & _ & E1 & E2 & E3 & _). unfold sqe_at, sq_arr_at, sq_mask. by rewrite E1, E2, E3.
Qed.
Lemma same_submission_trans r r1 r2 : same_submission r r1 → same_submission r1 r2 → same_submission r r2.
Proof. unfold same_submission. intuition congruence. Qed.
Lemma wadd_max o a b : wadd 32 (wadd 32 o a) b = wadd 32 o (a + b).
Proof. unfold wadd, wrap. rewrite Zplus_mod_idemp_l. f_equal. lia. Qed.
Lemma submit_loop_posts n : ∀ pos r k, ring_ok r →
  let '(cs, k') := run_entries (entries_from n pos r) k in
  ∃ r', submit_loop n pos r k = (r', k') ∧ ring_ok r' ∧ same_submission r r' ∧ completions r' = completions r ++ take (Z.to_nat (cq_entries r - fill r)) cs ∧
    cq_overflow r' = wadd 32 (cq_overflow r) (Z.max 0 (Z.of_nat n - (cq_entries r - fill r))).
Proof.
  induction n as [|n IH]; intros pos r k Hr; cbn [entries_from run_entries submit_loop].
  - exists r. split_and!; try done. + by rewrite take_nil, app_nil_r.
    + pose proof (ok_fill r Hr). unfold fill. rewrite Z.max_l by lia. rewrite wadd_small; [lia|]. destruct (ok_overflow r Hr). lia.
  - set (e := sqe_at _ r). destruct (execute_sqe e k) as [k1 res]. destruct (post_cqe_posts (user_data e) res 0 r Hr) as (Hr1 & Hs1 & Hp). set (r1 := post_cqe (user_data e) res 0 r) in *.
    specialize (IH (wadd 32 pos 1) r1 k1 Hr1). rewrite (entries_same n (wadd 32 pos 1) r r1 Hs1) in IH. destruct (run_entries (entries_from n (wadd 32 pos 1) r) k1) as [cs k']. destruct IH as (r' & H1 & H2 & H3 & H4 & H5).
    exists r'. split_and!; [done|done|by eapply same_submission_trans| |]; assert (cq_entries r1 = cq_entries r) as Ee by apply Hs1; rewrite Ee in *; pose proof (ok_fill r Hr) as Hfl; fold (fill r) in Hfl;
      destruct (Z.leb_spec (cq_entries r) (fill r)) as [Hle|Hlt]; destruct Hp as (C1 & C2 & C3); rewrite C3 in *.
    + rewrite H4, C1. replace (cq_entries r - fill r) with 0 by lia. done.
    + rewrite H4, C1, <- app_assoc. f_equal. replace (Z.to_nat (cq_entries r - fill r)) with (S (Z.to_nat (cq_entries r - (fill r + 1)))) by lia. done.
    + rewrite H5, C2, wadd_max. f_equal. lia.
    + rewrite H5, C2. f_equal. lia.
Qed.

(** C21. A call of io_uring_enter takes the entries the program has submitted,
    at most as many as it asks for, runs them in the order of the ring and
    adds their results, with the data of each, behind the completions that are
    there, as long as there is room; the others are counted as overflow.  It
    returns how many it took and moves the head over them. *)
Theorem submit_completes r k to_submit : ring_ok r → 0 ≤ to_submit →
  let pending := Z.min (wsub 32 (sq_tail r) (sq_head r)) to_submit in
  let room := cq_entries r - fill r in
  let '(cs, k') := run_entries (entries_from (Z.to_nat pending) (sq_head r) r) k in
  ∃ r', submit_and_wait to_submit r k = (r', k', to_signed 32 pending) ∧ ring_ok r' ∧
    completions r' = completions r ++ take (Z.to_nat room) cs ∧
    cq_overflow r' = wadd 32 (cq_overflow r) (Z.max 0 (pending - room)) ∧
    sq_head r' = wadd 32 (sq_head r) pending.
Proof.
  intros Hr Ht pending room. assert (0 ≤ pending) as Hp by (unfold pending, wsub; pose proof (wrap_range 32 (sq_tail r - sq_head r) ltac:(lia)) as [? _]; lia).
  pose proof (submit_loop_posts (Z.to_nat pending) (sq_head r) r k Hr) as H1. destruct (run_entries _ k) as [cs k']. destruct H1 as (r1 & H1 & H2 & H3 & H4 & H5).
  unfold submit_and_wait. fold pending. rewrite H1. eexists. split; [reflexivity|]. rewrite Z2Nat.id in H5 by done. destruct H3 as (E & _). split_and!; [|exact H4|exact H5|by rewrite <- E].
  destruct H2. by split.
Qed.
End Submit.

(** ** A new ring *)
Lemma align_up_spec v : 0 ≤ v < 2 ^ 32 → v ≤ align_up v 4096 ∧ align_up v 4096 mod 4096 = 0.
Proof.
  intros Hv. unfold align_up, wnot. replace (Z.land (v + 4096 - 1) (2 ^ 64 - 1 - (4096 - 1))) with (4096 * ((v + 4095) / 4096)).
  - split; [pose proof (Z.mod_pos_bound (v + 4095) 4096); pose proof (Z.div_mod (v + 4095) 4096); lia|]. rewrite Z.mul_comm. apply Z.mod_mul. lia.
  - replace (v + 4096 - 1) with (v + 4095) by lia. rewrite Z.mul_comm. change 4096 with (2 ^ 12) at 1 2. rewrite <- Z.shiftr_div_pow2, <- Z.shiftl_mul_pow2 by lia. apply Z.bits_inj'. intros i Hi. rewrite Z.shiftl_spec, Z.land_spec by lia.
    change (2 ^ 64 - 1 - (4096 - 1)) with (Z.shiftl (Z.ones 52) 12). rewrite Z.shiftl_spec by lia. destruct (Z.lt_ge_cases i 12).
    + rewrite !(Z.testbit_neg_r _ (i - 12)) by lia. by rewrite andb_false_r.
    + rewrite Z.shiftr_spec by lia. replace (i - 12 + 12) with i by lia. rewrite Z.testbit_ones_nonneg by lia. destruct (Z.ltb_spec (i - 12) 52) as [|Hge]; [by rewrite andb_true_r|].
      rewrite andb_false_r. apply (testbit_above 64); [split; lia|lia].
Qed.
Lemma npt_power n : is_u32 n → ∃ k, 0 ≤ k ≤ 31 ∧ (next_power_of_two n = 2 ^ k ∨ next_power_of_two n = 0).
Proof.
  intros [Hn Hb]. unfold next_power_of_two. destruct (Z.leb_spec n 1); [exists 0; split; [lia|by left]|].
  destruct (Z.lt_ge_cases 31 (Z.log2_up n)).
  - exists 0. split; [lia|right]. assert (Z.log2_up n ≤ 32) by (apply Z.log2_up_le_pow2; lia). replace (Z.log2_up n) with 32 by lia. reflexivity.
  - exists (Z.log2_up n). pose proof (Z.log2_up_nonneg n). split; [lia|left]. apply wrap_small. split; [apply Z.pow_nonneg; lia|]. apply Z.pow_lt_mono_r; lia.
Qed.
Lemma clamp_power a b n : 0 ≤ a ≤ b → is_u32 n → ∃ k, a ≤ k ≤ b ∧ clamp (2 ^ a) (2 ^ b) (next_power_of_two n) = 2 ^ k.
Proof.
  intros Hab Hn. pose proof (Z.pow_pos_nonneg 2 a). destruct (npt_power n Hn) as (k & Hk & [E|E]); rewrite E; unfold clamp.
  - destruct (Z.ltb_spec (2 ^ k) (2 ^ a)) as [H1|H1]; [exists a; split; [lia|done]|]. destruct (Z.ltb_spec (2 ^ b) (2 ^ k)) as [H2|H2]; [exists b; split; [lia|done]|].
    exists k. split; [|done]. split; apply (Z.pow_le_mono_r_iff 2); lia.
  - rewrite (proj2 (Z.ltb_lt _ _)) by lia. exists a. split; [lia|done].
Qed.

(** The three parts of a new ring lie behind each other in the frames it
    allocates, page by page, and each has room for its header and its entries,
    whose numbers are powers of two; the completion ring is empty. *)
Theorem uring_new_layout alloc fd pid sq cq flags r : is_u32 sq → is_u32 cq → (∀ n b, alloc n = Some b → 0 ≤ b ∧ b mod 4096 = 0) → uring_new alloc fd pid sq cq flags = Some r →
  ring_ok r ∧ completions r = [] ∧ (∃ j, 0 ≤ j ≤ 15 ∧ sq_entries r = 2 ^ j) ∧ sq_entries r ≤ cq_entries r ∧
  24 + 4 * sq_entries r ≤ sq_ring_size r ∧ 32 + 16 * cq_entries r ≤ cq_ring_size r ∧ 64 * sq_entries r ≤ sqes_size r ∧
  cq_ring_phys r = sq_ring_phys r + sq_ring_size r ∧ sqes_phys r = cq_ring_phys r + cq_ring_size r ∧
  alloc ((sq_ring_size r + cq_ring_size r + sqes_size r) / 4096) = Some (sq_ring_phys r) ∧ sq_ring_phys r mod 4096 = 0 ∧ cq_ring_phys r mod 4096 = 0 ∧ sqes_phys r mod 4096 = 0.
Proof.
  intros Hsq Hcq Halloc. unfold uring_new. destruct (clamp_power 0 15 sq) as (j & Hj & Ej); [lia|done|]. change (2 ^ 0) with 1 in Ej. change (2 ^ 15) with 32768 in Ej. rewrite Ej.
  destruct (clamp_power j 16 cq) as (k & Hk & Ek); [lia|done|]. change (2 ^ 16) with 65536 in Ek. rewrite Ek.
  assert (1 ≤ 2 ^ j ≤ 32768) as Bj by (split; [change 1 with (2 ^ 0)|change 32768 with (2 ^ 15)]; apply Z.pow_le_mono_r; lia). assert (2 ^ j ≤ 2 ^ k ≤ 65536) as Bk by (split; [|change 65536 with (2 ^ 16)]; apply Z.pow_le_mono_r; lia).
  destruct (align_up_spec (24 + 2 ^ j * 4)) as [A1 M1]; [lia|]. destruct (align_up_spec (32 + 2 ^ k * 16)) as [A2 M2]; [lia|]. destruct (align_up_spec (2 ^ j * 64)) as [A3 M3]; [lia|].
  destruct (alloc _) as [base|] eqn:Ea; [|done]. cbn [mbind option_bind]. intros [= <-]. cbn [sq_entries cq_entries sq_ring_size cq_ring_size sqes_size sq_ring_phys cq_ring_phys sqes_phys].
  destruct (Halloc _ _ Ea) as [Hb0 Hbm]. split_and!; try done; try lia.
  - split; cbn [cq_entries cqes cq_head cq_tail cq_overflow]; try done; [exists k; split; [lia|done]|rewrite length_replicate; lia|]. change (wsub 32 0 0) with 0. lia.
  - by exists j.
  - rewrite Z.add_mod, Hbm, M1 by lia. done.
  - rewrite Z.add_mod, M2, Z.add_0_r, Z.mod_mod, Z.add_mod, Hbm, M1 by lia. done.
Qed.
Lemma uring_new_layout_witness : ∃ r, uring_new (λ _, Some 0x100000) 10000 1 100 200 0 = Some r ∧ sq_entries r = 128 ∧ 32 + 16 * cq_entries r ≤ cq_ring_size r.
Proof.
  eexists. split; [reflexivity|]. split; [reflexivity|].
  apply (uring_new_layout (λ _, Some 0x100000) 10000 1 100 200 0); [split; lia|split; lia|intros n b [= <-]; split; [lia|reflexivity]|reflexivity].
Defined.

(** A ring with three entries submitted, over calls that keep the list of the
    descriptors that were closed. *)
#[local] Instance close_log : SqeCalls (list Z) := {|
  c_user_ptr _ _ _ := true; c_read_fd _ _ _ k := (k, None); c_write_fd _ _ _ k := (k, None); c_readv _ _ _ k := (k, 0); c_writev _ _ _ k := (k, 0); c_fsync _ k := (k, 0);
  c_accept _ _ _ k := (k, 0); c_connect _ _ _ k := (k, 0); c_send _ _ _ _ k := (k, 0); c_recv _ _ _ _ k := (k, 0); c_sendmsg _ _ _ k := (k, 0); c_recvmsg _ _ _ k := (k, 0);
  c_openat _ _ _ _ k := (k, 0); c_close fd k := (k ++ [fd], fd); c_stat _ _ k := (k, 0); c_unlinkat _ _ _ k := (k, 0); c_mkdirat _ _ _ k := (k, 0); c_renameat _ _ _ _ k := (k, 0);
  c_symlinkat _ _ _ k := (k, 0); c_linkat _ _ _ _ _ k := (k, 0); c_shutdown _ _ k := (k, 0); c_fallocate _ _ _ _ k := (k, 0); c_nanosleep _ _ k := (k, 0) |}.
Definition close_entry (fd : Z) : IoUringSqe := mkSqe 19 fd 0 0 0 0 (100 + fd).
Definition ring3 (cq : nat) : IoUring :=
  mkUring 10000 1 0 0 4096 4 4096 4096 (Z.of_nat cq) 8192 4096 0 3 0xFFFFFFFF 0xFFFFFFFF 0 [2; 1; 0; 0] [close_entry 5; close_entry 6; close_entry 7; sqe_zero] (replicate cq cqe_zero) [].
Lemma ring3_ok cq : (∃ k, 0 ≤ k ≤ 16 ∧ Z.of_nat cq = 2 ^ k) → ring_ok (ring3 cq).
Proof. intros H. split; try done; [cbn [ring3 cqes cq_entries]; by rewrite length_replicate|]. cbn [ring3 cq_tail cq_head cq_entries]. change (wsub 32 0xFFFFFFFF 0xFFFFFFFF) with 0. lia. Qed.
Lemma submit_completes_witness : ∃ r', submit_and_wait 8 (ring3 4) ([] : list Z) = (r', [7; 6; 5], 3) ∧ completions r' = [mkCqe 107 7 0; mkCqe 106 6 0; mkCqe 105 5 0].
Proof.
  pose proof (submit_completes (ring3 4) ([] : list Z) 8 (ring3_ok 4 ltac:(exists 2; split; [lia|reflexivity])) ltac:(lia)) as H. cbv beta zeta in H.
  destruct (run_entries _ _) as [cs k'] eqn:E in H. vm_compute in E. injection E as <- <-. destruct H as (r' & H1 & _ & H2 & _). exists r'. split; [rewrite H1; reflexivity|]. rewrite H2. vm_compute. reflexivity.
Defined.

(** The rings promise not to drop completions (IORING_FEAT_NODROP); with room
    for two the third is lost. *)
Example nodrop_drops : let '(r, closed, n) := submit_and_wait 8 (ring3 2) ([] : list Z) in (n, closed, length (completions r), cq_overflow r) = (3, [7; 6; 5], 2%nat, 1).
Proof. vm_compute. reflexivity. Qed.
(** A number that is no descriptor of the process is taken as the number of a
    ring, whoever made it. *)
Example foreign_ring : let '(g, closed, n) := sys_io_uring_enter None 10000 8 (mkRings {[10000 := ring3 4]} 10001) ([] : list Z) in (n, closed) = (3, [7; 6; 5]).
Proof. vm_compute. reflexivity. Qed.
(** The probe writes four bytes more than were checked. *)
Example probe_past_check : let ok := λ ptr len, ptr + len <=? 0x1000 + 164 in
  let '(_, mem, n) := sys_io_uring_register ok None 10000 8 0x1000 0 (λ _, 0) rings_start in n = 0 ∧ mem (0x1000 + 164) = 3.
Proof. vm_compute. done. Qed.
