(* ===== verification/Shell.v ===== *)
(** * The shell: words, patterns, history

    Models the parts of userland/qshell/src/main.rs that work on text alone:
    the tokenizer, the patterns of file names and of braces, the history file.
    A text is a list of characters; an index that only moves forward is the
    rest of the list.  Which characters Unicode calls letters and digits is a
    parameter. *)
From S2P Require Import Prelude Text.

Definition ch (s : string) : Z := default 0 (head (lit s)).
Definition chr_in (c : Z) (s : string) : bool := existsb (Z.eqb c) (lit s).

(** ** Tokens *)
Inductive Tok :=
| TWord (w : str)
| TAssign (name value : str)
| TPipe
| TPipeErr
| TAnd
| TOr
| TSemi
| TAmp
| TNl
| TRout (fd : option Z) (file : str) (append : bool)
| TRin (fd : option Z) (file : str)
| TRHere (s : str)
| TRHereDoc (delim content : str)
| TRDup (from to : Z)
| TRP
| TLB
| TRB
| TBang
| TIf
| TThen
| TElif
| TElse
| TFi
| TWhile
| TUntil
| TDo
| TDone
| TFor
| TIn
| TCase
| TEsac
| TFunc
| TFn
| TSub (s : str).

(** The rest behind the first [c], and what stands before it. *)
Fixpoint until (c : Z) (s : str) : str * str :=
  match s with
  | [] => ([], [])
  | x :: r => if x =? c then ([], r) else let '(w, r) := until c r in (x :: w, r)
  end.
Fixpoint balanced (close open : Z) (d : Z) (s : str) : str * str :=
  match s with
  | [] => ([], [])
  | c :: r =>
      let d := if c =? open then d + 1 else d in
      if c =? close then
        if d - 1 =? 0 then ([], r) else let '(w, r) := balanced close open (d - 1) r in (c :: w, r)
      else let '(w, r) := balanced close open d r in (c :: w, r)
  end.
Definition dq_escape (c : Z) : str :=
  if existsb (Z.eqb c) [34; 92; 36; 96; 10] then [c]
  else if c =? 110 then [10] else if c =? 116 then [9] else if c =? 114 then [13] else if c =? 97 then [7] else [92; c].
Fixpoint dquoted (s : str) : str * str :=
  match s with
  | [] => ([], [])
  | c :: r =>
      if c =? 34 then ([], r)
      else match r with
        | x :: r' => if c =? 92 then let '(w, t) := dquoted r' in (dq_escape x ++ w, t) else let '(w, t) := dquoted r in (c :: w, t)
        | [] => ([c], [])
        end
  end.
Definition word_end (c : Z) : bool := existsb (Z.eqb c) [32; 9; 10; 59; 38; 124; 40; 41; 123; 125; 60; 62; 35].
Fixpoint take_while (p : Z → bool) (s : str) : str * str :=
  match s with
  | [] => ([], [])
  | c :: r => if p c then let '(w, t) := take_while p r in (c :: w, t) else ([], s)
  end.

Section Tokens.
Context (is_alphabetic is_alphanumeric : Z → bool).
Definition ident (c : Z) : bool := is_alphanumeric c || (c =? 95).

(** After a dollar sign: what is added to the word, and the rest. *)
Definition dollar (s : str) : str * str :=
  match s with
  | [] => ([36], [])
  | c :: r =>
      if c =? 40 then
        match r with
        | x :: r' =>
            if x =? 40 then let '(e, t) := balanced 41 40 1 r' in (lit "$((" ++ e ++ lit "))", tail t)
            else let '(e, t) := balanced 41 40 1 r in (lit "$(" ++ e ++ lit ")", t)
        | [] => (lit "$()", [])
        end
      else if c =? 123 then let '(v, t) := balanced 125 123 1 r in (lit "${" ++ v ++ lit "}", t)
      else if ident c then let '(w, t) := take_while ident r in (36 :: c :: w, t)
      else if chr_in c "?$!@*#0" then ([36; c], r)
      else ([36], s)
  end.
Fixpoint word_loop (fuel : nat) (s acc : str) : option (str * str) :=
  match s with
  | [] => Some (acc, [])
  | c :: r =>
      if word_end c then Some (acc, s)
      else match fuel with
        | O => None
        | S fuel =>
            if c =? 39 then let '(w, t) := until 39 r in word_loop fuel t (acc ++ w)
            else if c =? 34 then let '(w, t) := dquoted r in word_loop fuel t (acc ++ w)
            else if c =? 92 then match r with x :: t => word_loop fuel t (acc ++ [x]) | [] => Some (acc, []) end
            else if c =? 36 then let '(w, t) := dollar r in word_loop fuel t (acc ++ w)
            else if c =? 96 then let '(w, t) := until 96 r in word_loop fuel t (acc ++ [96] ++ w ++ [96])
            else word_loop fuel r (acc ++ [c])
        end
  end.
Definition read_word (s : str) : option (str * str) := word_loop (length s) s [].
Definition skip_read (s : str) : option (str * str) := read_word (take_while (λ c, (c =? 32) || (c =? 9)) s).2.
Fixpoint heredoc_lines (delim s line : str) : str * str :=
  match s with
  | [] => ([], [])
  | c :: r =>
      if c =? 10 then
        if bool_decide (trim line = delim) then ([], r) else let '(w, t) := heredoc_lines delim r [] in (line ++ [10] ++ w, t)
      else heredoc_lines delim r (line ++ [c])
  end.
Definition heredoc (s delim : str) : str * str := heredoc_lines delim (tail (take_while (λ c, negb (c =? 10)) s).2) [].

Definition is_varname (s : str) : bool :=
  match s with
  | [] => false
  | c :: r => (is_alphabetic c || (c =? 95)) && forallb ident r
  end.
Definition keywords : list (string * Tok) :=
  [("if", TIf); ("then", TThen); ("elif", TElif); ("else", TElse); ("fi", TFi); ("while", TWhile); ("until", TUntil); ("do", TDo); ("done", TDone); ("for", TFor); ("in", TIn);
   ("case", TCase); ("esac", TEsac); ("function", TFunc); ("fn", TFn); ("{", TLB); ("}", TRB); ("!", TBang)]%string.
Fixpoint find_keyword (w : str) (ks : list (string * Tok)) : option Tok :=
  match ks with
  | [] => None
  | (k, t) :: ks => if bool_decide (w = lit k) then Some t else find_keyword w ks
  end.
Definition cls (w : str) : Tok :=
  match find_keyword w keywords with
  | Some t => t
  | None =>
      let '(name, value) := until 61 w in
      if existsb (Z.eqb 61) w && is_varname name then TAssign name value else TWord w
  end.

Definition parse_u8 (s : str) : option Z := from_str_radix 8 10 s.
(** Behind [>]: the optional second one, then a descriptor or a file. *)
Definition redirect_out (fd : option Z) (from : Z) (s : str) : option (Tok * str) :=
  let '(append, s) := match s with 62 :: r => (true, r) | _ => (false, s) end in
  match s with
  | 38 :: r => '(d, t) ← skip_read r; Some (TRDup from (default 1 (parse_u8 d)), t)
  | _ => '(f, t) ← skip_read s; Some (TRout fd f append, t)
  end.
Definition is_digit (c : Z) : bool := (48 <=? c) && (c <=? 57).
Definition read_cls (s : str) : option (Tok * str) := '(w, t) ← read_word s; Some (cls w, t).
(** One round of the loop: the token, if there is one, and the rest. *)
Definition next_tok (c : Z) (r : str) : option (option Tok * str) :=
  let some x := '(t, s) ← x; Some (Some t, s) in
  if (c =? 32) || (c =? 9) then Some (None, r)
  else if c =? 10 then Some (Some TNl, r)
  else if c =? 35 then Some (None, (take_while (λ x, negb (x =? 10)) (c :: r)).2)
  else if c =? 124 then match r with 124 :: t => Some (Some TOr, t) | 38 :: t => Some (Some TPipeErr, t) | _ => Some (Some TPipe, r) end
  else if c =? 38 then
    match r with
    | 38 :: t => Some (Some TAnd, t)
    | 62 :: t => let '(append, t) := match t with 62 :: t => (true, t) | _ => (false, t) end in '(f, u) ← skip_read t; Some (Some (TRout None f append), u)
    | _ => Some (Some TAmp, r)
    end
  else if c =? 59 then match r with 59 :: t => Some (Some TSemi, t) | _ => Some (Some TSemi, r) end
  else if c =? 33 then Some (Some TBang, r)
  else if c =? 40 then let '(s, t) := balanced 41 40 1 r in Some (Some (TSub s), t)
  else if c =? 41 then Some (Some TRP, r)
  else if c =? 123 then Some (Some TLB, r)
  else if c =? 125 then Some (Some TRB, r)
  else if c =? 60 then
    match r with
    | 60 :: 60 :: t => '(s, u) ← skip_read t; Some (Some (TRHere s), u)
    | 60 :: t => '(d, u) ← skip_read t; let '(text, v) := heredoc u d in Some (Some (TRHereDoc d text), v)
    | _ => '(f, u) ← skip_read r; Some (Some (TRin None f), u)
    end
  else if c =? 62 then some (redirect_out None 1 r)
  else if is_digit c then
    let '(num, t) := take_while is_digit (c :: r) in
    match t with
    | 62 :: u => some (redirect_out (parse_u8 num) (default 1 (parse_u8 num)) u)
    | 60 :: u => '(f, v) ← skip_read u; Some (Some (TRin (parse_u8 num) f), v)
    | _ => some (read_cls (c :: r))
    end
  else some (read_cls (c :: r)).
Fixpoint tokenize_loop (fuel : nat) (s : str) : option (list Tok) :=
  match s with
  | [] => Some []
  | c :: r =>
      match fuel with
      | O => None
      | S fuel => '(t, s) ← next_tok c r; ts ← tokenize_loop fuel s; Some (match t with Some t => t :: ts | None => ts end)
      end
  end.
Definition tokenize (s : str) : option (list Tok) := tokenize_loop (length s) s.
End Tokens.

(** ** The tokenizer ends *)
Lemma until_rest c s : (length (until c s).2 ≤ length s)%nat.
Proof. induction s as [|x s IH]; [done|]. cbn [until]. destruct (x =? c); [cbn; lia|]. destruct (until c s) as [w t]. cbn in *. lia. Qed.
Lemma balanced_rest close open s : ∀ d, (length (balanced close open d s).2 ≤ length s)%nat.
Proof.
  induction s as [|c s IH]; intros d; [done|]. cbn [balanced]. set (d' := if c =? open then d + 1 else d).
  destruct (c =? close); [destruct (d' - 1 =? 0); [cbn; lia|]|]; [pose proof (IH (d' - 1)) as H; destruct (balanced close open (d' - 1) s)|pose proof (IH d') as H; destruct (balanced close open d' s)]; cbn in *; lia.
Qed.
Lemma dquoted_rest n : ∀ s, (length s ≤ n)%nat → (length (dquoted s).2 ≤ length s)%nat.
Proof.
  induction n as [|n IH]; intros s Hs; [by destruct s; [|cbn in Hs; lia]|]. destruct s as [|c r]; [done|]. cbn [dquoted length] in *. destruct (c =? 34); [cbn; lia|]. destruct r as [|x r]; [cbn; lia|].
  destruct (c =? 92).
  - pose proof (IH r) as H. destruct (dquoted r). cbn in *. lia.
  - pose proof (IH (x :: r)) as H. destruct (dquoted (x :: r)). cbn in *. lia.
Qed.
Lemma take_while_rest p s : (length (take_while p s).2 ≤ length s)%nat.
Proof. induction s as [|c s IH]; [done|]. cbn [take_while]. destruct (p c); [|done]. destruct (take_while p s). cbn in *. lia. Qed.
Lemma heredoc_rest delim s : ∀ line, (length (heredoc_lines delim s line).2 ≤ length s)%nat.
Proof.
  induction s as [|c s IH]; intros line; [done|]. cbn [heredoc_lines]. destruct (c =? 10); [|pose proof (IH (line ++ [c])); cbn; lia].
  destruct (bool_decide _); [cbn; lia|]. pose proof (IH []) as H. destruct (heredoc_lines delim s []). cbn in *. lia.
Qed.
Lemma length_tail {A} (l : list A) : (length (tail l) ≤ length l)%nat.
Proof. destruct l; cbn; lia. Qed.

Ltac simple_arm := eexists _, _; split; [done|cbn in *; lia].
Section TokensFacts.
Context (is_alphabetic is_alphanumeric : Z → bool).
Abbreviation word_loop := (word_loop is_alphanumeric).
Abbreviation read_word := (read_word is_alphanumeric).
Abbreviation skip_read := (skip_read is_alphanumeric).
Lemma dollar_rest s : (length (dollar is_alphanumeric s).2 ≤ length s)%nat.
Proof.
  destruct s as [|c r]; [done|]. cbn [dollar]. destruct (c =? 40).
  - destruct r as [|x r]; [cbn; lia|]. destruct (x =? 40).
    + pose proof (balanced_rest 41 40 r 1) as H. destruct (balanced 41 40 1 r) as [e t]. pose proof (length_tail t). cbn in *. lia.
    + pose proof (balanced_rest 41 40 (x :: r) 1) as H. destruct (balanced 41 40 1 (x :: r)) as [e t]. cbn [snd length] in *. lia.
  - destruct (c =? 123); [pose proof (balanced_rest 125 123 r 1) as H; destruct (balanced 125 123 1 r); cbn in *; lia|].
    destruct (ident is_alphanumeric c); [pose proof (take_while_rest (ident is_alphanumeric) r) as H; destruct (take_while (ident is_alphanumeric) r); cbn in *; lia|]. destruct (chr_in _ _); cbn; lia.
Qed.
Lemma word_loop_total fuel : ∀ s acc, (length s ≤ fuel)%nat → ∃ w t, word_loop fuel s acc = Some (w, t) ∧ (length t ≤ length s)%nat ∧ (∀ c r, s = c :: r → word_end c = false → (length t ≤ length r)%nat).
Proof.
  induction fuel as [|fuel IH]; intros s acc Hs; (destruct s as [|c r]; [eexists _, _; split; [done|]; split; [done|]; intros ? ? [=]|]); [cbn in Hs; lia|]. cbn [length] in Hs. cbn [Shell.word_loop].
  destruct (word_end c) eqn:Ew; [eexists _, _; split; [done|]; split; [done|]; intros ? ? [= -> ->]; congruence|].
  assert (∀ w t, (length t ≤ length r)%nat → ∃ w' t', word_loop fuel t w = Some (w', t') ∧ (length t' ≤ length (c :: r))%nat ∧ (∀ c0 r0, c :: r = c0 :: r0 → word_end c0 = false → (length t' ≤ length r0)%nat)) as Hgo.
  { intros w t Ht. destruct (IH t w) as (w' & t' & H1 & H2 & _); [lia|]. exists w', t'. split; [done|]. split; [cbn; lia|]. intros ? ? [= <- <-] _. lia. }
  repeat case_match; simplify_eq; try (apply Hgo); try done.
  all: try (match goal with H : until ?a ?b = _ |- _ => pose proof (until_rest a b) as Hl; rewrite H in Hl; exact Hl end).
  - match goal with H : dquoted ?b = _ |- _ => pose proof (dquoted_rest (length b) b) as Hl; rewrite H in Hl; cbn in Hl; lia end.
  - eexists _, _. split; [done|]. split; [cbn; lia|]. intros ? ? [= <- <-] _. done.
  - cbn. lia.
  - match goal with H : dollar _ ?b = _ |- _ => pose proof (dollar_rest b) as Hl; rewrite H in Hl; exact Hl end.
Qed.
Lemma read_word_total s : ∃ w t, read_word s = Some (w, t) ∧ (length t ≤ length s)%nat ∧ (∀ c r, s = c :: r → word_end c = false → (length t ≤ length r)%nat).
Proof. by apply word_loop_total. Qed.
Lemma skip_read_total s : ∃ w t, skip_read s = Some (w, t) ∧ (length t ≤ length s)%nat.
Proof.
  unfold Shell.skip_read. set (p := λ c : Z, (c =? 32) || (c =? 9)). pose proof (take_while_rest p s). destruct (read_word_total (take_while p s).2) as (w & t & H1 & H2 & _). exists w, t. split; [done|lia].
Qed.
Lemma redirect_total fd from s : ∃ t r, redirect_out is_alphanumeric fd from s = Some (t, r) ∧ (length r ≤ length s)%nat.
Proof.
  unfold redirect_out. set (a := match s with 62 :: r => (true, r) | _ => (false, s) end). assert (length a.2 ≤ length s)%nat as Ha by (unfold a; repeat case_match; cbn; lia). destruct a as [ap s1]. cbn [snd] in Ha.
  assert (∀ (f : str → Tok) x, (length x ≤ length s1)%nat → ∃ t r, ('(d, u) ← skip_read x; Some (f d, u)) = Some (t, r) ∧ (length r ≤ length s)%nat) as Hs.
  { intros f x Hx. destruct (skip_read_total x) as (d & u & Hd & Hu). rewrite Hd. cbn [mbind option_bind]. eexists _, _. split; [done|lia]. }
  repeat case_match; subst; apply (Hs (λ d, _)); cbn; lia.
Qed.
Lemma next_tok_total c r : ∃ t s, next_tok is_alphabetic is_alphanumeric c r = Some (t, s) ∧ (length s ≤ length r)%nat.
Proof.
  assert (∀ (f : str → Tok) x, (length x ≤ length r)%nat → ∃ t s, ('(d, u) ← skip_read x; Some (Some (f d : Tok), u)) = Some (t, s) ∧ (length s ≤ length r)%nat) as Hskip.
  { intros f x Hx. destruct (skip_read_total x) as (d & u & Hd & Hu). rewrite Hd. cbn [mbind option_bind]. eexists _, _. split; [done|lia]. }
  assert (∀ fd from x, (length x ≤ length r)%nat → ∃ t s, ('(t, s) ← redirect_out is_alphanumeric fd from x; Some (Some t, s)) = Some (t, s) ∧ (length s ≤ length r)%nat) as Hred.
  { intros fd from x Hx. destruct (redirect_total fd from x) as (t & s & Ht & Hs). rewrite Ht. cbn [mbind option_bind]. eexists _, _. split; [done|lia]. }
  assert (word_end c = false → ∃ t s, ('(t, s) ← read_cls is_alphabetic is_alphanumeric (c :: r); Some (Some t, s)) = Some (t, s) ∧ (length s ≤ length r)%nat) as Hcls.
  { intros Hw. destruct (read_word_total (c :: r)) as (w & t & H1 & _ & H3). unfold read_cls. rewrite H1. cbn [mbind option_bind]. eexists _, _. split; [done|]. by apply (H3 c r). }
  assert (∀ p, p c = true → (length (take_while p (c :: r)).2 ≤ length r)%nat) as Htw.
  { intros p Hp. cbn [take_while]. rewrite Hp. pose proof (take_while_rest p r). destruct (take_while p r). done. }
  unfold next_tok. cbv zeta.
  destruct ((c =? 32) || (c =? 9)) eqn:E1; [simple_arm|]. destruct (c =? 10) eqn:E2; [simple_arm|].
  destruct (c =? 35) eqn:E3; [eexists _, _; split; [done|]; apply Htw; by rewrite E2|].
  destruct (c =? 124) eqn:E4; [repeat case_match; simple_arm|].
  destruct (c =? 38) eqn:E5; [repeat case_match; simplify_eq; first [apply (Hskip (λ f, TRout None f _)); cbn; lia|simple_arm]|].
  destruct (c =? 59) eqn:E6; [repeat case_match; simple_arm|]. destruct (c =? 33) eqn:E7; [simple_arm|].
  destruct (c =? 40) eqn:E8; [pose proof (balanced_rest 41 40 r 1) as H; destruct (balanced 41 40 1 r); simple_arm|].
  destruct (c =? 41) eqn:E9; [simple_arm|]. destruct (c =? 123) eqn:E10; [simple_arm|]. destruct (c =? 125) eqn:E11; [simple_arm|].
  destruct (c =? 60) eqn:E12.
  { assert (∀ x, (length x ≤ length r)%nat → ∃ t s, ('(d, u) ← skip_read x; let '(text, v) := heredoc u d in Some (Some (TRHereDoc d text), v)) = Some (t, s) ∧ (length s ≤ length r)%nat) as Hdoc.
    { intros x Hx. destruct (skip_read_total x) as (d & u & Hd & Hu). rewrite Hd. cbn [mbind option_bind]. unfold heredoc. set (p := λ c : Z, negb (c =? 10)). pose proof (take_while_rest p u). pose proof (length_tail (take_while p u).2).
      pose proof (heredoc_rest d (tail (take_while p u).2) []) as Hh. destruct (heredoc_lines d _ []) as [text v]. eexists _, _. split; [done|]. cbn [snd] in Hh. lia. }
    repeat case_match; subst; first [apply (Hskip TRHere); cbn; lia|apply (Hskip (TRin None)); cbn; lia|apply Hdoc; cbn; lia]. }
  destruct (c =? 62) eqn:E13; [by apply Hred|].
  assert (word_end c = false) as Hw by (unfold word_end; cbn [existsb]; rewrite E2, E3, E4, E5, E6, E8, E9, E10, E11, E12, E13; apply orb_false_iff in E1 as [-> ->]; done).
  destruct (is_digit c) eqn:E14; [|by apply Hcls]. pose proof (Htw is_digit E14) as Hd. destruct (take_while is_digit (c :: r)) as [num t]. cbn [snd] in Hd.
  repeat case_match; subst; first [by apply Hcls|apply Hred; cbn in *; lia|apply (Hskip (TRin _)); cbn in *; lia].
Qed.

(** C39. The tokenizer ends on every text, also on one with open quotes and
    parentheses: each round of its loop, and of the loop that reads a word,
    goes at least one character further. *)
Theorem tokenize_total s : ∃ ts, tokenize is_alphabetic is_alphanumeric s = Some ts.
Proof.
  unfold tokenize. assert (∀ n s, (length s ≤ n)%nat → ∃ ts, tokenize_loop is_alphabetic is_alphanumeric n s = Some ts) as H; [|by apply H].
  clear s. induction n as [|n IH]; intros s Hs; (destruct s as [|c r]; [by eexists|]); cbn [length] in Hs; [lia|]. cbn [tokenize_loop].
  destruct (next_tok_total c r) as (t & s & -> & Hl). cbn [mbind option_bind]. destruct (IH s) as [ts ->]; [lia|]. by eexists.
Qed.

(** The usual way to quote a text: between single quotes, a single quote in it
    as one that ends the quotes, one behind a backslash and one that opens
    them again. *)
Definition quote_body (s : str) : str := concat (map (λ c, if c =? 39 then [39; 92; 39; 39] else [c]) s).
Definition quote (s : str) : str := 39 :: quote_body s ++ [39].
Definition word_ends (rest : str) : Prop := match rest with [] => True | c :: _ => word_end c = true end.
Lemma word_loop_end fuel acc rest : word_ends rest → word_loop fuel rest acc = Some (acc, rest).
Proof. intros H. destruct fuel, rest as [|c r]; cbn [Shell.word_loop word_ends] in *; try done; by rewrite H. Qed.
Lemma quoted_loop s rest : word_ends rest → ∀ fuel acc, let '(w, t) := until 39 (quote_body s ++ 39 :: rest) in (length t ≤ fuel)%nat → word_loop fuel t (acc ++ w) = Some (acc ++ s, rest).
Proof.
  intros Hrest. induction s as [|c s IH]; intros fuel acc.
  - cbn. rewrite app_nil_r. intros _. by apply word_loop_end.
  - unfold quote_body in *. cbn [map concat]. destruct (Z.eqb_spec c 39) as [->|Hne].
    + cbn [app until Z.eqb Pos.eqb]. intros Hf. rewrite app_nil_r. destruct fuel as [|fuel]; [cbn in Hf; lia|]. cbn [Shell.word_loop word_end existsb Z.eqb Pos.eqb orb].
      destruct fuel as [|fuel]; [cbn in Hf; lia|]. cbn [Shell.word_loop word_end existsb Z.eqb Pos.eqb orb]. specialize (IH fuel (acc ++ [39])). destruct (until 39 _) as [w t] eqn:E. rewrite IH; [by rewrite <- app_assoc|].
      cbn [length] in Hf. pose proof (until_rest 39 (concat (map (λ c : Z, if c =? 39 then [39; 92; 39; 39] else [c]) s) ++ 39 :: rest)) as Hl. rewrite E in Hl. cbn [snd] in Hl. lia.
    + cbn [app until]. rewrite (proj2 (Z.eqb_neq _ _) Hne). specialize (IH fuel (acc ++ [c])). destruct (until 39 _) as [w t]. intros Hf. rewrite <- app_assoc in IH. cbn [app] in IH. rewrite IH by done. by rewrite <- app_assoc.
Qed.
(** Whatever a text contains_text, quoted it is read as one word, and the word
    is the text; what follows is left. *)
Theorem quote_reads_back s rest : word_ends rest → read_word (quote s ++ rest) = Some (s, rest).
Proof.
  intros Hr. unfold Shell.read_word, quote. cbn [app length]. rewrite <- app_assoc. cbn [app Shell.word_loop word_end existsb Z.eqb Pos.eqb orb].
  pose proof (quoted_loop s rest Hr (length (quote_body s ++ 39 :: rest)) []) as H. pose proof (until_rest 39 (quote_body s ++ 39 :: rest)) as Hl. destruct (until 39 _) as [w t]. cbn [snd app] in *. by apply H.
Qed.
End TokensFacts.
Lemma quote_reads_back_witness : read_word (λ _, false) (quote (lit "a b'$(c)") ++ lit ";x") = Some (lit "a b'$(c)", lit ";x").
Proof. apply (quote_reads_back (λ _, false) (lit "a b'$(c)") (lit ";x")). reflexivity. Defined.

(** A word forgets that it was quoted: it is taken for a keyword or an
    assignment, and later for a pattern with variables. *)
Example quoted_keyword : tokenize (λ _, true) (λ _, true) (lit "echo 'if' 'a=b'") = Some [TWord (lit "echo"); TIf; TAssign (lit "a") (lit "b")].
Proof. vm_compute. reflexivity. Qed.

(** ** Patterns of file names *)

(** The body of brackets behind the sign: whether [c] is in it and how many
    characters it has. *)
Fixpoint bracket_loop (p : str) (c : Z) (ok : bool) (i : nat) : bool * nat :=
  match p with
  | [] => (ok, i)
  | a :: r =>
      if a =? 93 then (ok, S i)
      else match r with
        | m :: b :: r' => if (m =? 45) && negb (b =? 93) then bracket_loop r' c (ok || ((a <=? c) && (c <=? b))) (3 + i) else bracket_loop r c (ok || (c =? a)) (S i)
        | _ => bracket_loop r c (ok || (c =? a)) (S i)
        end
  end.
Definition bracket_match (p : str) (c : Z) : bool * nat :=
  match p with
  | x :: r => if (x =? 33) || (x =? 94) then let '(ok, n) := bracket_loop r c false 1 in (negb ok, n) else bracket_loop p c false 0
  | [] => bracket_loop p c false 0
  end.
Fixpoint glob_inner (fuel : nat) (p n : str) : bool :=
  match fuel, p with
  | _, [] => bool_decide (n = [])
  | O, _ => false
  | S fuel, x :: p' =>
      if x =? 42 then existsb (λ i, glob_inner fuel p' (drop i n)) (seq 0 (S (length n)))
      else if x =? 63 then match n with [] => false | _ :: n' => glob_inner fuel p' n' end
      else if x =? 91 then
        match n with
        | [] => false
        | c :: n' => let '(ok, len) := bracket_match p' c in ok && glob_inner fuel (drop len p') n'
        end
      else match n with [] => false | c :: n' => (x =? c) && glob_inner fuel p' n' end
  end.
Definition glob_match (name pat : str) : bool := glob_inner (length pat) pat name.

(** What a pattern means: a sequence of stars and of sets of characters. *)
Inductive item := Star | One (f : Z → bool).
Inductive matches : list item → str → Prop :=
| match_nil : matches [] []
| match_star ps skipped n : matches ps n → matches (Star :: ps) (skipped ++ n)
| match_one f ps c n : f c = true → matches ps n → matches (One f :: ps) (c :: n).
Fixpoint items (fuel : nat) (p : str) : list item :=
  match fuel, p with
  | S fuel, x :: p' =>
      if x =? 42 then Star :: items fuel p'
      else if x =? 63 then One (λ _, true) :: items fuel p'
      else if x =? 91 then One (λ c, (bracket_match p' c).1) :: items fuel (drop (bracket_match p' 0).2 p')
      else One (Z.eqb x) :: items fuel p'
  | _, _ => []
  end.
Lemma bracket_loop_len n : ∀ p c c' ok ok' i, (length p ≤ n)%nat → (bracket_loop p c ok i).2 = (bracket_loop p c' ok' i).2.
Proof.
  induction n as [|n IH]; intros p c c' ok ok' i Hp; (destruct p as [|a r]; [done|]); cbn [length] in Hp; [lia|]. cbn [bracket_loop]. destruct (a =? 93); [done|].
  destruct r as [|m [|b r']]; cbn [length] in Hp; [apply IH; cbn; lia..|]. destruct (_ && _); apply IH; cbn; lia.
Qed.
Lemma bracket_len p c c' : (bracket_match p c).2 = (bracket_match p c').2.
Proof.
  unfold bracket_match. destruct p as [|x r]; [done|]. destruct (_ || _); [|by eapply bracket_loop_len].
  pose proof (bracket_loop_len (length r) r c c' false false 1 ltac:(done)) as H. destruct (bracket_loop r c false 1), (bracket_loop r c' false 1). exact H.
Qed.
Lemma matches_star ps n : matches (Star :: ps) n ↔ ∃ i, (i ≤ length n)%nat ∧ matches ps (drop i n).
Proof.
  split.
  - intros H. remember (Star :: ps) as js eqn:E. destruct H as [|js skipped n H|]; [done| |done]. injection E as ->. exists (length skipped). rewrite length_app, drop_app_length. split; [lia|done].
  - intros (i & Hi & H). rewrite <- (take_drop i n). by constructor.
Qed.
Lemma matches_one f ps n : matches (One f :: ps) n ↔ ∃ c n', n = c :: n' ∧ f c = true ∧ matches ps n'.
Proof.
  split.
  - intros H. remember (One f :: ps) as js eqn:E. destruct H as [| |g js c n Hf H]; [done|done|]. injection E as -> ->. eauto.
  - intros (c & n' & -> & Hf & H). by constructor.
Qed.
Lemma glob_inner_matches fuel : ∀ p n, (length p ≤ fuel)%nat → glob_inner fuel p n = true ↔ matches (items fuel p) n.
Proof.
  assert (∀ n, bool_decide (n = []) = true ↔ matches [] n) as Hnil by (intros n; rewrite bool_decide_eq_true; split; [intros ->; constructor|by inversion 1]).
  induction fuel as [|fuel IH]; intros p n Hp; (destruct p as [|x p]; [apply Hnil|]); cbn [length] in Hp; [lia|]. cbn [glob_inner items].
  destruct (x =? 42); [|destruct (x =? 63); [|destruct (x =? 91)]].
  - rewrite matches_star, existsb_exists. setoid_rewrite in_seq. split; intros (i & Hi & H); exists i; (split; [lia|]); apply IH in H || apply IH; (done || lia).
  - rewrite matches_one. destruct n as [|c n]; [naive_solver|]. rewrite IH by lia. naive_solver.
  - rewrite matches_one. destruct n as [|c n]; [naive_solver|]. pose proof (bracket_len p c 0) as El. destruct (bracket_match p c) as [ok len] eqn:E. cbn [snd] in El. subst len.
    rewrite andb_true_iff, IH by (rewrite length_drop; lia). split; [intros [-> H]; exists c, n; by rewrite E|]. intros (c' & n' & [= <- <-] & H1 & H2). rewrite E in H1. done.
  - rewrite matches_one. destruct n as [|c n]; [naive_solver|]. rewrite andb_true_iff, IH by lia. naive_solver.
Qed.
(** The matcher of file names decides what a pattern means: a star stands
    for any characters, a question mark for one, brackets for one of a set. *)
Theorem glob_match_spec name pat : glob_match name pat = true ↔ matches (items (length pat) pat) name.
Proof. by apply glob_inner_matches. Qed.
Example glob_set : glob_match (lit "log7.txt") (lit "*[!a-c0-5].t?t") = true ∧ glob_match (lit "log4.txt") (lit "*[!a-c0-5].t?t") = false.
Proof. vm_compute. done. Qed.

(** ** History *)
Definition HIST_MAX : Z := 50000.
Record History := mkHist { entries : list str; timestamps : list Z; dirty : bool }.
Definition history_new : History := mkHist [] [] false.
(** The last position of [x]. *)
Fixpoint rposition (x : str) (es : list str) : option nat :=
  match es with
  | [] => None
  | e :: es => match rposition x es with Some i => Some (S i) | None => if bool_decide (e = x) then Some 0%nat else None end
  end.
Definition push_raw (cmd : str) (ts : Z) (h : History) : History :=
  let '(es, tss) := match rposition cmd (entries h) with Some p => (delete p (entries h), delete p (timestamps h)) | None => (entries h, timestamps h) end in
  let es := es ++ [cmd] in
  let tss := tss ++ [ts] in
  if HIST_MAX <? Z.of_nat (length es) then mkHist (tail es) (tail tss) (dirty h) else mkHist es tss (dirty h).
Definition hist_push (cmd : str) (now : Z) (h : History) : History :=
  if bool_decide (trim cmd = []) then h else let h := push_raw cmd now h in mkHist (entries h) (timestamps h) true.
Definition signed (z : Z) : str := if z <? 0 then 45 :: decimal (- z) else decimal z.
(** [i64::from_str_radix] *)
Definition parse_signed (radix : Z) (s : str) : option Z :=
  let '(neg, ds) := match s with 45 :: r => (true, r) | 43 :: r => (false, r) | _ => (false, s) end in
  if bool_decide (ds = []) then None
  else v ← digits_value radix 0 ds; let v := if (neg : bool) then - v else v in if (- 2 ^ 63 <=? v) && (v <? 2 ^ 63) then Some v else None.
Definition parse_i64 (s : str) : option Z := parse_signed 10 s.
Definition hist_line (ts : Z) (cmd : str) : str := lit ": " ++ signed ts ++ lit ":0;" ++ cmd.
(** The text that [save] writes. *)
Definition hist_text (h : History) : str :=
  let start := Z.to_nat (sat_sub (Z.of_nat (length (entries h))) HIST_MAX) in
  concat (map (λ '(i, cmd), hist_line (default 0 (timestamps h !! (start + i)%nat)) cmd ++ [10]) (imap pair (drop start (entries h)))).
(** What stands before and behind the first [pat]. *)
Fixpoint split_at (pat s : str) : option (str * str) :=
  match strip_prefix pat s with
  | Some r => Some ([], r)
  | None => match s with [] => None | c :: s => '(a, b) ← split_at pat s; Some (c :: a, b) end
  end.
Definition parse_hist_line (l : str) : Z * str :=
  match strip_prefix (lit ": ") l with
  | None => (0, l)
  | Some rest => match split_at (lit ":0;") rest with Some (a, cmd) => (default 0 (parse_i64 (trim a)), cmd) | None => (0, l) end
  end.
Definition load_line (h : History) (l : str) : History :=
  let l := trim l in
  if bool_decide (l = []) then h else let '(ts, cmd) := parse_hist_line l in if bool_decide (cmd = []) then h else push_raw cmd ts h.
(** [load] on the text of the file. *)
Definition hist_load (text : str) (h : History) : History := fold_left load_line (split_by (Z.eqb 10) text) h.
Fixpoint contains_text (pat s : str) : bool := match strip_prefix pat s with Some _ => true | None => match s with [] => false | _ :: s => contains_text pat s end end.
Definition starts_with (pat s : str) : bool := match strip_prefix pat s with Some _ => true | None => false end.
(** The last entry below [n] that satisfies [p]. *)
Fixpoint search_from (p : str → bool) (n : nat) (es : list str) : option nat :=
  match n with
  | O => None
  | S n => match es !! n with Some e => if p e then Some n else search_from p n es | None => search_from p n es end
  end.
Definition search_back (query : str) (from : nat) (h : History) : option nat := search_from (contains_text query) (Nat.min from (length (entries h))) (entries h).
Definition prefix_search_back (prefix : str) (from : nat) (h : History) : option nat := search_from (starts_with prefix) (Nat.min from (length (entries h))) (entries h).
Definition suggestion (prefix : str) (h : History) : option str := i ← search_from (λ e, starts_with prefix e && negb (bool_decide (e = prefix))) (length (entries h)) (entries h); entries h !! i.

(** Commands without line ends whose last character is not a blank, each
    once. *)
Definition command_ok (c : str) : Prop := Forall (λ x, x ≠ 10) c ∧ ∃ r d, c = r ++ [d] ∧ is_ws d = false.
Record hist_ok (h : History) : Prop := {
  ho_length : length (timestamps h) = length (entries h);
  ho_max : Z.of_nat (length (entries h)) ≤ HIST_MAX;
  ho_nodup : NoDup (entries h);
  ho_commands : Forall command_ok (entries h);
  ho_times : Forall (λ t, - 2 ^ 63 ≤ t < 2 ^ 63) (timestamps h);
}.
Lemma rposition_None x es : x ∉ es → rposition x es = None.
Proof. induction es as [|e es IH]; intros H; [done|]. apply not_elem_of_cons in H as [H1 H2]. cbn [rposition]. rewrite IH by done. by rewrite bool_decide_eq_false_2 by congruence. Qed.
Lemma signed_parse z : - 2 ^ 63 ≤ z < 2 ^ 63 → parse_i64 (signed z) = Some z ∧ word (signed z) ∧ Forall (λ c, c ≠ 10 ∧ c ≠ 58) (signed z).
Proof.
  intros Hz. assert (∀ n, 0 ≤ n ≤ 2 ^ 63 → digits_value 10 0 (decimal n) = Some n ∧ decimal n ≠ [] ∧ Forall (λ c, 48 ≤ c ≤ 57 ∨ 97 ≤ c ≤ 122) (decimal n) ∧ word (decimal n)) as Hd.
  { intros n Hn. split_and!; [apply digits_value_digits; [lia|change (10 ^ Z.of_nat 20) with 100000000000000000000; lia]|apply to_digits_nonempty|apply to_digits_chars; lia|apply digits_word; lia]. }
  assert (∀ s, Forall (λ c, 48 ≤ c ≤ 57 ∨ 97 ≤ c ≤ 122) s → Forall (λ c, c ≠ 10 ∧ c ≠ 58) s) as Hc by (intros s Hs; eapply Forall_impl; [exact Hs|]; cbn; lia).
  unfold signed. destruct (Z.ltb_spec z 0).
  - destruct (Hd (- z) ltac:(lia)) as (H1 & H2 & H3 & H4 & H5). split_and!; [|split; [done|by constructor]|constructor; [lia|by apply Hc]].
    unfold parse_i64, parse_signed. rewrite bool_decide_eq_false_2, H1 by done. cbn [mbind option_bind]. rewrite Z.opp_involutive. by rewrite (proj2 (Z.leb_le _ _)), (proj2 (Z.ltb_lt _ _)) by lia.
  - destruct (Hd z ltac:(lia)) as (H1 & H2 & H3 & H4). split_and!; [|done|by apply Hc]. unfold parse_i64, parse_signed.
    assert ((match decimal z with 45 :: r => (true, r) | 43 :: r => (false, r) | _ => (false, decimal z) end) = (false, decimal z)) as ->.
    { destruct (decimal z) as [|c r]; [done|]. apply Forall_cons in H3 as [H3 _]. destruct c as [|p|p]; [lia| |lia]. repeat (destruct p as [p|p|]; try done; try lia). }
    rewrite bool_decide_eq_false_2, H1 by done. cbn [mbind option_bind]. by rewrite (proj2 (Z.leb_le _ _)), (proj2 (Z.ltb_lt _ _)) by lia.
Qed.
Lemma split_at_colon a b : Forall (λ c, c ≠ 10 ∧ c ≠ 58) a → split_at (lit ":0;") (a ++ lit ":0;" ++ b) = Some (a, b).
Proof.
  intros Ha. induction Ha as [|c a [_ Hc] Ha IH].
  - cbn [app]. change (lit ":0;" ++ b) with (58 :: 48 :: 59 :: b). cbn [split_at]. change (58 :: 48 :: 59 :: b) with (lit ":0;" ++ b). by rewrite strip_prefix_app.
  - cbn [app split_at]. assert (strip_prefix (lit ":0;") (c :: a ++ lit ":0;" ++ b) = None) as ->; [|rewrite IH; done].
    unfold strip_prefix. case_bool_decide as E; [|done]. cbn in E. injection E as E _. done.
Qed.
Lemma parse_hist_saved ts cmd : - 2 ^ 63 ≤ ts < 2 ^ 63 → command_ok cmd → trim (hist_line ts cmd) = hist_line ts cmd ∧ parse_hist_line (hist_line ts cmd) = (ts, cmd) ∧ Forall (λ c, (10 =? c) = false) (hist_line ts cmd).
Proof.
  intros Ht [Hn (r & d & -> & Hd)]. destruct (signed_parse ts Ht) as (Hp & Hw & Hc). unfold hist_line. split_and!.
  - apply trim_word_ends; [by exists 58, (32 :: signed ts ++ lit ":0;" ++ r ++ [d])|]. exists (lit ": " ++ signed ts ++ lit ":0;" ++ r), d. by rewrite <- !app_assoc.
  - unfold parse_hist_line. rewrite strip_prefix_app, split_at_colon, trim_word by done. by rewrite Hp.
  - assert (∀ s, Forall (λ x, x ≠ 10) s → Forall (λ c, (10 =? c) = false) s) as Hx by (intros s Hs; eapply Forall_impl; [exact Hs|]; intros c H; apply Z.eqb_neq; congruence).
    apply Hx. rewrite !Forall_app. rewrite Forall_app in Hn. destruct Hn as [Hn1 Hn2]. split_and!; [by repeat constructor| |by repeat constructor|done|done]. eapply Forall_impl; [exact Hc|]. by intros c [? _].
Qed.
Lemma load_lines cs : ∀ h ts, length ts = length cs → Forall command_ok cs → Forall (λ t, - 2 ^ 63 ≤ t < 2 ^ 63) ts → NoDup (entries h ++ cs) → Z.of_nat (length (entries h) + length cs) ≤ HIST_MAX →
  fold_left load_line (zip_with hist_line ts cs) h = mkHist (entries h ++ cs) (timestamps h ++ ts) (dirty h).
Proof.
  induction cs as [|c cs IH]; intros h ts Hl Hc Ht Hd Hm; (destruct ts as [|t ts]; try done); [rewrite !app_nil_r; by destruct h|]. apply Forall_cons in Hc as [H1 Hc]. apply Forall_cons in Ht as [H2 Ht].
  cbn [zip_with fold_left length] in *. destruct (parse_hist_saved t c H2 H1) as (E1 & E2 & _).
  assert (load_line h (hist_line t c) = mkHist (entries h ++ [c]) (timestamps h ++ [t]) (dirty h)) as ->.
  { unfold load_line. rewrite E1, E2. rewrite bool_decide_eq_false_2 by (intros E; discriminate E). destruct H1 as [_ (r & d & -> & _)]. rewrite bool_decide_eq_false_2 by (by destruct r). unfold push_raw. rewrite rposition_None.
    - rewrite (proj2 (Z.ltb_ge _ _)); [done|]. rewrite length_app. cbn [length]. lia.
    - apply NoDup_app in Hd as (_ & Hd & _). intros Hin. apply (Hd _ Hin). left. }
  rewrite IH; cbn [entries timestamps dirty]; try done; [by rewrite <- !app_assoc|lia|by rewrite <- app_assoc|]. rewrite length_app. cbn [length]. lia.
Qed.
Lemma split_concat ls : Forall (Forall (λ c, (10 =? c) = false)) ls → split_by (Z.eqb 10) (concat (map (λ l, l ++ [10]) ls)) = ls ++ [[]].
Proof.
  intros H. induction H as [|l ls Hl Hls IH]; [done|]. cbn [map concat]. rewrite <- app_assoc. cbn [app]. rewrite split_by_end by done. by rewrite IH.
Qed.
Lemma imap_zip (f : Z → str → str) (es : list str) : ∀ (ts : list Z) (k : nat) (all : list Z), length ts = length es → drop k all = ts →
  map (λ '(i, c), f (default 0 (all !! i)) c) (imap (λ i c, ((k + i)%nat, c)) es) = zip_with f ts es.
Proof.
  induction es as [|e es IH]; intros ts k all Hl Hd; (destruct ts as [|t ts]; try done). cbn [imap map zip_with length] in *. f_equal.
  - rewrite Nat.add_0_r. assert (all !! k = Some t) as ->; [|done]. rewrite <- (Nat.add_0_r k), <- lookup_drop, Hd. done.
  - rewrite <- (IH ts (S k) all) by (try lia; rewrite <- Nat.add_1_r, <- drop_drop, Hd; done). f_equal. apply imap_ext. intros i x _. cbn. f_equal. lia.
Qed.
(** The history a shell saves is the history the next one loads: the same
    commands in the same order with their times. *)
Theorem history_roundtrip h : hist_ok h → hist_load (hist_text h) history_new = mkHist (entries h) (timestamps h) false.
Proof.
  intros [H1 H2 H3 H4 H5]. unfold hist_text, hist_load. replace (Z.to_nat (sat_sub _ HIST_MAX)) with 0%nat by (unfold sat_sub; lia). rewrite drop_0.
  assert (map (λ '(i, cmd), hist_line (default 0 (timestamps h !! (0 + i)%nat)) cmd ++ [10]) (imap pair (entries h)) = map (λ l, l ++ [10]) (zip_with hist_line (timestamps h) (entries h))) as ->.
  { rewrite <- (imap_zip hist_line (entries h) (timestamps h) 0 (timestamps h)) by done. rewrite map_map. apply map_ext. by intros [i c]. }
  rewrite split_concat.
  - rewrite fold_left_app, (load_lines (entries h) history_new (timestamps h)) by done. done.
  - clear - H1 H4 H5. revert H1 H4 H5. generalize (timestamps h). induction (entries h) as [|c cs IH]; intros ts Hl Hc Ht; (destruct ts as [|t ts]; try done). apply Forall_cons in Hc as [? Hc]. apply Forall_cons in Ht as [? Ht].
    cbn [zip_with]. constructor; [by apply parse_hist_saved|]. cbn [length] in Hl. apply IH; [lia|done|done].
Qed.
Lemma history_roundtrip_witness : hist_load (hist_text (mkHist [lit "ls -l"; lit "echo :0; x"] [5; -1] true)) history_new = mkHist [lit "ls -l"; lit "echo :0; x"] [5; -1] false.
Proof.
  apply (history_roundtrip (mkHist [lit "ls -l"; lit "echo :0; x"] [5; -1] true)). split; cbn [entries timestamps].
  - reflexivity.
  - vm_compute. discriminate.
  - apply (bool_decide_unpack (NoDup [lit "ls -l"; lit "echo :0; x"])). exact I.
  - constructor; [|constructor; [|constructor]]; (split; [by repeat constructor|]); [exists (lit "ls -"), 108|exists (lit "echo :0; "), 120]; done.
  - repeat constructor; vm_compute; done.
Defined.
