(* ===== verification/ShellArith.v ===== *)
(** * The shell: arithmetic

    Models [eval_arith] of userland/qshell/src/main.rs with the search for an
    operator outside parentheses, for texts of ASCII characters, in 64-bit
    arithmetic; [None] is a panic (the one quotient that overflows).  Proves
    that a fully parenthesized expression has the value it should, and shows
    what goes wrong without the parentheses. *)
From S2P Require Import Prelude Text Shell.

(** The depth a scan from the right has reached. *)
Definition paren (c d : Z) : Z := if c =? 41 then d + 1 else if c =? 40 then d - 1 else d.
Fixpoint fop_from (i : nat) (d : Z) (e op : str) : option nat :=
  match i with
  | O => None
  | S j =>
      if (i <=? length op)%nat then None
      else
        let d := paren (nth j e 0) d in
        if (d =? 0) && bool_decide (take (length op) (drop j e) = op) then Some j else fop_from j d e op
  end.
Definition fop (e op : str) : option nat := fop_from (length e) 0 e op.
(** Not next to another of the same character. *)
Definition alone (e : str) (op : Z) (j : nat) : bool :=
  negb ((0 <? j)%nat && (nth (j - 1) e 0 =? op)) && negb ((j + 1 <? length e)%nat && (nth (j + 1) e 0 =? op)).
Fixpoint fop_pm_from (i : nat) (d : Z) (e : str) (op : Z) : option nat :=
  match i with
  | O => None
  | S j =>
      let d := paren (nth j e 0) d in
      if (d =? 0) && (nth j e 0 =? op) && alone e op j then Some j else fop_pm_from j d e op
  end.
Definition fop_pm (e : str) (op : Z) : option nat := fop_pm_from (length e) 0 e op.

(** ** Operators, in the order in which they are tried *)
Definition i64_val (z : Z) : Z := to_signed 64 z.
Definition truth (b : bool) : Z := if b then 1 else 0.
Definition both (f : Z → Z → Z) (x y : option Z) : option Z := a ← x; b ← y; Some (f a b).
Definition quotient (f : Z → Z → Z) (x y : option Z) : option Z :=
  d ← y; if d =? 0 then Some 0 else a ← x; if (a =? - 2 ^ 63) && (d =? -1) then None else Some (f a d).
Record binop := mkOp { pm : bool; sym : str; sem : option Z → option Z → option Z }.
Definition op_or : binop := mkOp false (lit "||") (λ x y, a ← x; if a =? 0 then b ← y; Some (truth (negb (b =? 0))) else Some 1).
Definition op_and : binop := mkOp false (lit "&&") (λ x y, a ← x; if a =? 0 then Some 0 else b ← y; Some (truth (negb (b =? 0)))).
Definition shift_count (b : Z) : Z := Z.land (wrap 32 b) 63.
Definition binops : list binop :=
  [op_or; op_and;
   mkOp false (lit "|") (both Z.lor); mkOp false (lit "^") (both Z.lxor); mkOp false (lit "&") (both Z.land);
   mkOp false (lit "==") (both (λ a b, truth (a =? b))); mkOp false (lit "!=") (both (λ a b, truth (negb (a =? b))));
   mkOp false (lit "<=") (both (λ a b, truth (a <=? b))); mkOp false (lit ">=") (both (λ a b, truth (b <=? a)));
   mkOp false (lit "<") (both (λ a b, truth (a <? b))); mkOp false (lit ">") (both (λ a b, truth (b <? a)));
   mkOp false (lit "<<") (both (λ a b, i64_val (Z.shiftl a (shift_count b)))); mkOp false (lit ">>") (both (λ a b, Z.shiftr a (shift_count b)));
   mkOp true (lit "+") (both (λ a b, i64_val (a + b))); mkOp true (lit "-") (both (λ a b, i64_val (a - b))); mkOp true (lit "*") (both (λ a b, i64_val (a * b)));
   mkOp true (lit "/") (quotient Z.quot); mkOp true (lit "%") (quotient Z.rem)].
Definition locate (b : binop) (e : str) : option nat := if pm b then fop_pm e (nth 0 (sym b) 0) else fop e (sym b).
Fixpoint find_op (ops : list binop) (e : str) : option (nat * binop) :=
  match ops with
  | [] => None
  | b :: ops => match locate b e with Some p => Some (p, b) | None => find_op ops e end
  end.
Definition atom (e : str) : Z :=
  match strip_prefix (lit "0x") e with
  | Some s => default 0 (parse_signed 16 s)
  | None => match strip_prefix (lit "0X") e with Some s => default 0 (parse_signed 16 s) | None => default 0 (parse_i64 e) end
  end.
(** Every call is for a shorter text; an empty one has the value 0. *)
Fixpoint arith (fuel : nat) (e : str) : option Z :=
  match fuel with
  | O => Some 0
  | S fuel =>
      match trim e with
      | [] => Some 0
      | (c :: r) as e =>
          match find_op binops e with
          | Some (p, b) => sem b (arith fuel (take p e)) (arith fuel (drop (p + length (sym b)) e))
          | None =>
              if c =? 45 then a ← arith fuel r; Some (i64_val (- a))
              else if c =? 33 then a ← arith fuel r; Some (truth (a =? 0))
              else if c =? 126 then a ← arith fuel r; Some (Z.lnot a)
              else if (c =? 40) && bool_decide (last r = Some 41) then arith fuel (take (length r - 1) r)
              else Some (atom e)
          end
      end
  end.
Definition eval_arith (e : str) : option Z := arith (length e) e.

(** Operators of the same rank are split at the wrong one, a sign behind an
    operator is taken for a subtraction, a shift for two comparisons, and an
    operator of two characters needs two characters before it. *)
Example product_then_quotient : eval_arith (lit "4*3/2") = Some 4 ∧ eval_arith (lit "7*3%4") = Some 21.
Proof. vm_compute. done. Qed.
Example times_negative : eval_arith (lit "2*-3") = Some (-3).
Proof. vm_compute. done. Qed.
Example shift_compares : eval_arith (lit "1<<3") = Some 1.
Proof. vm_compute. done. Qed.
Example short_equality : eval_arith (lit "1==1") = Some 0 ∧ eval_arith (lit "10==10") = Some 1.
Proof. vm_compute. done. Qed.
Example quotient_panics : eval_arith (lit "(0-9223372036854775807-1)/(0-1)") = None.
Proof. vm_compute. done. Qed.

(** ** The search for an operator *)
Fixpoint depth (s : str) : Z := match s with [] => 0 | c :: s => paren c 0 + depth s end.
Lemma paren_add c d : paren c d = paren c 0 + d.
Proof. unfold paren. repeat case_match; lia. Qed.
Lemma depth_app s t : depth (s ++ t) = depth s + depth t.
Proof. induction s as [|c s IH]; [done|]. cbn [app depth]. lia. Qed.
Lemma drop_nth (e : str) j : (j < length e)%nat → drop j e = nth j e 0 :: drop (S j) e.
Proof. revert j. induction e as [|c e IH]; intros [|j] H; cbn [length] in *; try lia; [done|]. cbn [nth]. rewrite !skipn_cons. apply IH. lia. Qed.
(** A place where the text [q] stands outside parentheses. *)
Definition at_depth0 (e q : str) (j : nat) : Prop := depth (drop j e) = 0 ∧ take (length q) (drop j e) = q.
Lemma fop_from_none e q : ∀ i, (i ≤ length e)%nat → (∀ j, (j < i)%nat → ¬ at_depth0 e q j) → fop_from i (depth (drop i e)) e q = None.
Proof.
  induction i as [|i IH]; intros Hi H; [done|]. cbn [fop_from]. destruct (_ <=? _)%nat; [done|]. rewrite paren_add.
  assert (paren (nth i e 0) 0 + depth (drop (S i) e) = depth (drop i e)) as -> by (rewrite (drop_nth e i) by lia; done).
  destruct (_ && _) eqn:E; [|apply IH; [lia|intros j Hj; apply H; lia]]. apply andb_prop in E as [E1 E2]. apply Z.eqb_eq in E1. apply bool_decide_eq_true in E2. exfalso. apply (H i); [lia|split; done].
Qed.
Lemma fop_from_some e q p : (length q ≤ p)%nat → at_depth0 e q p → ∀ i, (p < i ≤ length e)%nat → (∀ j, (p < j < i)%nat → ¬ at_depth0 e q j) → fop_from i (depth (drop i e)) e q = Some p.
Proof.
  intros Hq [Hp1 Hp2]. induction i as [|i IH]; intros Hi H; [lia|]. cbn [fop_from]. rewrite (proj2 (Nat.leb_gt _ _)) by lia. rewrite paren_add.
  assert (paren (nth i e 0) 0 + depth (drop (S i) e) = depth (drop i e)) as -> by (rewrite (drop_nth e i) by lia; done).
  destruct (decide (i = p)) as [->|Hne]; [by rewrite Hp1, bool_decide_eq_true_2 by done|].
  destruct (_ && _) eqn:E; [|apply IH; [lia|intros j Hj; apply H; lia]]. apply andb_prop in E as [E1 E2]. apply Z.eqb_eq in E1. apply bool_decide_eq_true in E2. exfalso. apply (H i); [lia|split; done].
Qed.
Lemma fop_pm_from_none e q : ∀ i, (i ≤ length e)%nat → (∀ j, (j < i)%nat → ¬ at_depth0 e [q] j) → fop_pm_from i (depth (drop i e)) e q = None.
Proof.
  induction i as [|i IH]; intros Hi H; [done|]. cbn [fop_pm_from]. rewrite paren_add. pose proof (drop_nth e i ltac:(lia)) as Ed.
  assert (paren (nth i e 0) 0 + depth (drop (S i) e) = depth (drop i e)) as -> by (rewrite Ed; done).
  destruct (_ && _) eqn:E; [|apply IH; [lia|intros j Hj; apply H; lia]]. apply andb_prop in E as [E _]. apply andb_prop in E as [E1 E2]. apply Z.eqb_eq in E1, E2. exfalso. apply (H i); [lia|]. split; [done|]. rewrite Ed. cbn [length take]. by rewrite E2, take_0.
Qed.
Lemma fop_pm_from_some e q p : at_depth0 e [q] p → (p < length e)%nat → alone e q p = true → ∀ i, (p < i ≤ length e)%nat → (∀ j, (p < j < i)%nat → ¬ at_depth0 e [q] j) → fop_pm_from i (depth (drop i e)) e q = Some p.
Proof.
  intros [Hp1 Hp2] Hlt Ha. induction i as [|i IH]; intros Hi H; [lia|]. cbn [fop_pm_from]. rewrite paren_add. pose proof (drop_nth e i ltac:(lia)) as Ed.
  assert (paren (nth i e 0) 0 + depth (drop (S i) e) = depth (drop i e)) as -> by (rewrite Ed; done).
  destruct (decide (i = p)) as [->|Hne].
  - rewrite Ed in Hp2. cbn [length take] in Hp2. rewrite take_0 in Hp2. injection Hp2 as Hp2. by rewrite Hp1, Hp2, !Z.eqb_refl, Ha.
  - destruct (_ && _) eqn:E; [|apply IH; [lia|intros j Hj; apply H; lia]]. apply andb_prop in E as [E _]. apply andb_prop in E as [E1 E2]. apply Z.eqb_eq in E1, E2. exfalso. apply (H i); [lia|]. split; [done|]. rewrite Ed. cbn [length take]. by rewrite E2, take_0.
Qed.

(** ** Printed expressions *)
Definition balanced_text (s : str) : Prop := depth s = 0 ∧ ∀ j, 0 ≤ depth (drop j s).
Definition wrapped (s : str) : str := 40 :: s ++ [41].
Lemma wrapped_depth s j : balanced_text s → (j < length (wrapped s))%nat → depth (drop j (wrapped s)) = 0 → j = 0%nat.
Proof.
  intros [H1 H2] Hj Hd. destruct j as [|j]; [done|]. exfalso. unfold wrapped in *. cbn [length] in Hj. rewrite length_app in Hj. cbn [length] in Hj. rewrite skipn_cons, drop_app_le, depth_app in Hd by lia. change (depth [41]) with 1 in Hd. pose proof (H2 j). lia.
Qed.
Lemma wrapped_balanced s : balanced_text s → depth (wrapped s) = 0 ∧ ∀ j, 0 ≤ depth (drop j (wrapped s)).
Proof.
  intros [H1 H2]. assert (depth (wrapped s) = 0) as E by (unfold wrapped; cbn [depth]; rewrite depth_app, H1; done). split; [done|]. intros [|j]; [rewrite drop_0; lia|]. unfold wrapped. rewrite skipn_cons.
  destruct (decide (j ≤ length s)%nat); [rewrite drop_app_le, depth_app by done; change (depth [41]) with 1; pose proof (H2 j); lia|]. rewrite drop_ge by (rewrite length_app; cbn; lia). done.
Qed.
(** The text of an operation, and where its parts at depth 0 are. *)
Definition operation (l o r : str) : str := wrapped l ++ o ++ wrapped r.
Definition plain (o : str) : Prop := Forall (λ c, c ≠ 40 ∧ c ≠ 41) o.
Lemma plain_depth o : plain o → depth o = 0.
Proof. intros H. induction H as [|c o [H1 H2] Ho IH]; [done|]. cbn [depth]. unfold paren. rewrite (proj2 (Z.eqb_neq _ _) H1), (proj2 (Z.eqb_neq _ _) H2). lia. Qed.
Lemma plain_drop o j : plain o → plain (drop j o).
Proof. intros H. by apply Forall_drop. Qed.
Lemma operation_at l o r q j : balanced_text l → balanced_text r → plain o → plain q → q ≠ [] → (j < length (operation l o r))%nat → at_depth0 (operation l o r) q j →
  ∃ k, j = (length (wrapped l) + k)%nat ∧ (k < length o)%nat ∧ take (length q) (drop k o) = q.
Proof.
  intros Hl Hr Ho Hq Hne Hj [Hd Ht]. unfold operation in *. assert (∀ x, take (length q) (40 :: x) ≠ q) as H40.
  { intros x E. destruct q as [|c q]; [done|]. cbn [length take] in E. injection E as E _. apply Forall_cons in Hq as [[Hq _] _]. done. }
  destruct (decide (j < length (wrapped l))%nat) as [H1|H1].
  - exfalso. rewrite drop_app_le in Hd, Ht by lia. rewrite !depth_app, (plain_depth o Ho), (proj1 (wrapped_balanced r Hr)) in Hd. assert (j = 0%nat) as -> by (apply (wrapped_depth l); [done|done|lia]). by apply (H40 ((l ++ [41]) ++ o ++ wrapped r)).
  - rewrite drop_app_ge in Hd, Ht by lia. set (k := (j - length (wrapped l))%nat) in *. exists k. destruct (decide (k < length o)%nat) as [H2|H2].
    + split_and!; [lia|done|]. rewrite drop_app_le in Ht by lia. rewrite take_app in Ht. destruct (decide (length q ≤ length (drop k o))%nat) as [H3|H3].
      * replace (length q - length (drop k o))%nat with 0%nat in Ht by lia. by rewrite take_0, app_nil_r in Ht.
      * exfalso. rewrite take_ge in Ht by lia. destruct (length q - length (drop k o))%nat as [|m] eqn:Em; [lia|]. unfold wrapped in Ht. cbn [take] in Ht. rewrite <- Ht in Hq. apply Forall_app in Hq as [_ Hq]. apply Forall_cons in Hq as [[Hq _] _]. done.
    + exfalso. rewrite drop_app_ge in Hd, Ht by lia. rewrite !length_app in Hj. assert (k - length o = 0)%nat as E by (apply (wrapped_depth r); [done|lia|done]). rewrite E, drop_0 in Ht. by apply (H40 (r ++ [41])).
Qed.
Lemma operation_here l o r : balanced_text r → plain o → at_depth0 (operation l o r) o (length (wrapped l)).
Proof.
  intros Hr Ho. unfold at_depth0, operation. rewrite drop_app_length, depth_app, (plain_depth o Ho), (proj1 (wrapped_balanced r Hr)), take_app_length. done.
Qed.

(** The operators are short, hold no parentheses, and those that are searched
    as one character are one. *)
Record op_ok (b : binop) : Prop := { oo_plain : plain (sym b); oo_short : (0 < length (sym b) ≤ 2)%nat; oo_pm : pm b = true → sym b = [nth 0 (sym b) 0]; oo_head : ¬ (48 ≤ nth 0 (sym b) 0 ≤ 57) }.
Definition op_okb (b : binop) : bool :=
  forallb (λ c, negb (c =? 40) && negb (c =? 41)) (sym b) && (0 <? length (sym b))%nat && (length (sym b) <=? 2)%nat && (negb (pm b) || (length (sym b) =? 1)%nat) && negb ((48 <=? nth 0 (sym b) 0) && (nth 0 (sym b) 0 <=? 57)).
Lemma op_okb_ok b : op_okb b = true → op_ok b.
Proof.
  unfold op_okb. rewrite !andb_true_iff. intros ((((H1 & H2) & H3) & H4) & H5). rewrite forallb_forall in H1. apply Nat.ltb_lt in H2. apply Nat.leb_le in H3. apply negb_true_iff in H5. split.
  - apply Forall_forall. intros c Hc. apply list_elem_of_In, H1 in Hc. lia.
  - lia.
  - intros Hp. rewrite Hp in H4. cbn [negb orb] in H4. apply Nat.eqb_eq in H4. by destruct (sym b) as [|c [|d r]].
  - lia.
Qed.
Lemma binops_ok : Forall op_ok binops.
Proof. apply Forall_forall. intros b Hb. apply op_okb_ok. assert (forallb op_okb binops = true) as H by reflexivity. rewrite forallb_forall in H. by apply H, list_elem_of_In. Qed.
Lemma locate_none b e : op_ok b → (∀ j, (j < length e)%nat → ¬ at_depth0 e (sym b) j) → locate b e = None.
Proof.
  intros Hb H. unfold locate, fop, fop_pm. destruct (pm b) eqn:Ep.
  - pose proof (fop_pm_from_none e (nth 0 (sym b) 0) (length e) ltac:(done)) as Hx. rewrite drop_all, <- (oo_pm b Hb Ep) in Hx. by apply Hx.
  - pose proof (fop_from_none e (sym b) (length e) ltac:(done)) as Hx. rewrite drop_all in Hx. by apply Hx.
Qed.
Lemma find_op_none ops e : Forall op_ok ops → (∀ b j, b ∈ ops → (j < length e)%nat → ¬ at_depth0 e (sym b) j) → find_op ops e = None.
Proof.
  intros Ho H. induction Ho as [|b ops Hb Ho IH]; [done|]. cbn [find_op]. rewrite locate_none; [|done|intros j; apply H; left]. apply IH. intros b' j Hin. apply H. by right.
Qed.
Lemma locate_here b l r : op_ok b → balanced_text l → balanced_text r → l ≠ [] → locate b (operation l (sym b) r) = Some (length (wrapped l)).
Proof.
  intros Hb Hl Hr Hne. pose proof (operation_here l (sym b) r Hr (oo_plain b Hb)) as Hhere. destruct (oo_short b Hb) as [Hs1 Hs2]. set (e := operation l (sym b) r) in *.
  assert (length e = length (wrapped l) + (length (sym b) + length (wrapped r)))%nat as Hlen by (unfold e, operation; by rewrite !length_app).
  assert (2 < length (wrapped l))%nat as Hw by (unfold wrapped; cbn [length]; rewrite length_app; destruct l; [done|cbn; lia]).
  assert (∀ j, (length (wrapped l) < j < length e)%nat → ¬ at_depth0 e (sym b) j) as Hafter.
  { intros j Hj Ha. destruct (operation_at l (sym b) r (sym b) j) as (k & Ek & Hk & Et); try done; [apply oo_plain, Hb|apply oo_plain, Hb|intros E; rewrite E in Hs1; cbn in Hs1; lia|fold e; lia|].
    apply (f_equal length) in Et. rewrite length_take, length_drop in Et. lia. }
  unfold locate, fop, fop_pm. destruct (pm b) eqn:Ep.
  - pose proof (oo_pm b Hb Ep) as E1. set (c := nth 0 (sym b) 0) in *. rewrite E1 in Hhere, Hafter. pose proof (oo_plain b Hb) as Hp. rewrite E1 in Hp. apply Forall_cons in Hp as [[Hc1 Hc2] _].
    assert (e = (40 :: l) ++ 41 :: c :: 40 :: r ++ [41]) as Ee by (unfold e, operation, wrapped; rewrite E1; cbn [app]; by rewrite <- app_assoc).
    assert (length (wrapped l) = S (length (40 :: l))) as El by (unfold wrapped; cbn [length]; rewrite length_app; cbn [length]; lia).
    assert (alone e c (length (wrapped l)) = true) as Hal.
    { unfold alone. rewrite El. cbn [Nat.sub]. rewrite Nat.sub_0_r. rewrite Ee at 1. rewrite app_nth2, Nat.sub_diag by lia. cbn [nth]. rewrite (proj2 (Z.eqb_neq 41 c)) by congruence. rewrite andb_false_r. cbn [negb andb].
      rewrite Ee at 2. rewrite app_nth2 by lia. replace (S (length (40%Z :: l)) + 1 - length (40%Z :: l))%nat with 2%nat by lia. cbn [nth]. rewrite (proj2 (Z.eqb_neq 40 c)) by congruence. by rewrite andb_false_r. }
    pose proof (fop_pm_from_some e c (length (wrapped l)) Hhere ltac:(lia) Hal (length e)) as Hx. rewrite drop_all in Hx. apply Hx; [lia|done].
  - pose proof (fop_from_some e (sym b) (length (wrapped l)) ltac:(lia) Hhere (length e)) as Hx. rewrite drop_all in Hx. apply Hx; [lia|done].
Qed.
(** The first operator of the table whose text occurs in [o], if it is [o]. *)
Fixpoint first_ok (ops : list binop) (o : str) : option binop :=
  match ops with
  | [] => None
  | b :: ops =>
      if bool_decide (sym b = o) then Some b
      else if existsb (λ k, bool_decide (take (length (sym b)) (drop k o) = sym b)) (seq 0 (length o)) then None else first_ok ops o
  end.
Lemma find_op_first ops o b l r : Forall op_ok ops → plain o → first_ok ops o = Some b → balanced_text l → balanced_text r → l ≠ [] → find_op ops (operation l o r) = Some (length (wrapped l), b).
Proof.
  intros Hops Ho. induction Hops as [|x ops Hx Hops IH]; [done|]. cbn [first_ok find_op]. intros Hf Hl Hr Hne. destruct (bool_decide (sym x = o)) eqn:E.
  - apply bool_decide_eq_true in E. injection Hf as <-. subst o. by rewrite locate_here.
  - destruct (existsb _ _) eqn:Ex; [done|]. rewrite locate_none; [by apply IH|done|]. intros j Hj Ha. destruct (oo_short x Hx) as [Hs _].
    destruct (operation_at l o r (sym x) j) as (k & _ & Hk & Et); try done; [apply oo_plain, Hx|intros E'; rewrite E' in Hs; cbn in Hs; lia|].
    rewrite <- not_true_iff_false, existsb_exists in Ex. apply Ex. exists k. split; [apply in_seq; lia|]. by apply bool_decide_eq_true.
Qed.

(** ** Expressions

    The language of expressions with its own meaning, which shares nothing with
    the evaluator's table: what each operator is written as and what it does to
    64-bit numbers.  [None] is the panic of the one quotient that overflows. *)
Inductive operator := LogOr | LogAnd | BitOr | BitXor | BitAnd | Equal | Differ | AtMost | AtLeast | Less | Greater | Plus | Minus | Times | Over | Modulo.
Inductive sign := Negative | Not | Complement.
Inductive expr := Num (n : Z) | Un (s : sign) (x : expr) | Bin (o : operator) (l r : expr).
Definition op_text (o : operator) : str :=
  match o with
  | LogOr => lit "||" | LogAnd => lit "&&" | BitOr => lit "|" | BitXor => lit "^" | BitAnd => lit "&"
  | Equal => lit "==" | Differ => lit "!=" | AtMost => lit "<=" | AtLeast => lit ">=" | Less => lit "<" | Greater => lit ">"
  | Plus => lit "+" | Minus => lit "-" | Times => lit "*" | Over => lit "/" | Modulo => lit "%"
  end.
Definition sign_char (s : sign) : Z := match s with Negative => 45 | Not => 33 | Complement => 126 end.
(** Every operand stands in parentheses. *)
Fixpoint print (x : expr) : str :=
  match x with
  | Num n => decimal n
  | Un s x => sign_char s :: wrapped (print x)
  | Bin o l r => operation (print l) (op_text o) (print r)
  end.
(** The signed 64-bit number that is [z] modulo [2^64]. *)
Definition signed64 (z : Z) : Z := (z + 2 ^ 63) `mod` 2 ^ 64 - 2 ^ 63.
Definition holds (P : Prop) `{!Decision P} : option Z := Some (if decide P then 1 else 0).
Fixpoint value (x : expr) : option Z :=
  match x with
  | Num n => Some n
  | Un Negative x => a ← value x; Some (signed64 (- a))
  | Un Not x => a ← value x; holds (a = 0)
  | Un Complement x => a ← value x; Some (- a - 1)
  | Bin LogOr l r => a ← value l; if decide (a = 0) then b ← value r; holds (b ≠ 0) else Some 1
  | Bin LogAnd l r => a ← value l; if decide (a = 0) then Some 0 else b ← value r; holds (b ≠ 0)
  | Bin Over l r => b ← value r; if decide (b = 0) then Some 0 else a ← value l; if decide (a = - 2 ^ 63 ∧ b = -1) then None else Some (Z.quot a b)
  | Bin Modulo l r => b ← value r; if decide (b = 0) then Some 0 else a ← value l; if decide (a = - 2 ^ 63 ∧ b = -1) then None else Some (a - b * Z.quot a b)
  | Bin o l r =>
      a ← value l; b ← value r;
      match o with
      | BitOr => Some (Z.lor a b) | BitXor => Some (Z.lxor a b) | BitAnd => Some (Z.land a b)
      | Equal => holds (a = b) | Differ => holds (a ≠ b)
      | AtMost => holds (a ≤ b) | AtLeast => holds (b ≤ a) | Less => holds (a < b) | Greater => holds (b < a)
      | Plus => Some (signed64 (a + b)) | Minus => Some (signed64 (a - b)) | Times => Some (signed64 (a * b))
      | _ => None
      end
  end.
(** The literals are numbers of 64 bits without a sign. *)
Fixpoint expr_ok (x : expr) : Prop := match x with Num n => 0 ≤ n < 2 ^ 63 | Un _ x => expr_ok x | Bin _ l r => expr_ok l ∧ expr_ok r end.

(** *** The evaluator's table against that meaning *)
Definition bop (k : nat) : binop := nth k binops op_or.
Definition index_of (o : operator) : nat :=
  match o with
  | LogOr => 0 | LogAnd => 1 | BitOr => 2 | BitXor => 3 | BitAnd => 4 | Equal => 5 | Differ => 6 | AtMost => 7 | AtLeast => 8 | Less => 9 | Greater => 10
  | Plus => 13 | Minus => 14 | Times => 15 | Over => 16 | Modulo => 17
  end.
Lemma op_first o : first_ok binops (op_text o) = Some (bop (index_of o)).
Proof. by destruct o. Qed.
Lemma bop_sym o : sym (bop (index_of o)) = op_text o.
Proof. by destruct o. Qed.
Lemma op_is_ok o : op_ok (bop (index_of o)).
Proof. apply op_okb_ok. by destruct o. Qed.
Lemma signed64_val z : signed64 z = i64_val z.
Proof.
  unfold signed64, i64_val, to_signed, wrap. change (64 - 1) with 63. pose proof (Z.mod_pos_bound z (2 ^ 64) ltac:(lia)) as Hm. pose proof (Z_div_mod_eq_full z (2 ^ 64)) as Hd. symmetry.
  destruct (Z.ltb_spec (z `mod` 2 ^ 64) (2 ^ 63)).
  - rewrite <- (Z.mod_unique (z + 2 ^ 63) (2 ^ 64) (z `div` 2 ^ 64) (z `mod` 2 ^ 64 + 2 ^ 63)); lia.
  - rewrite <- (Z.mod_unique (z + 2 ^ 63) (2 ^ 64) (z `div` 2 ^ 64 + 1) (z `mod` 2 ^ 64 - 2 ^ 63)); lia.
Qed.
Lemma table_value o l r : sem (bop (index_of o)) (value l) (value r) = value (Bin o l r).
Proof.
  destruct o; cbn [index_of bop nth binops sem op_or op_and value]; unfold both, quotient, holds, truth; destruct (value l) as [a|], (value r) as [b|]; cbn [mbind option_bind]; rewrite ?signed64_val; try reflexivity;
    repeat (case_decide || case_match); try reflexivity; try lia.
  f_equal. pose proof (Z.quot_rem' a b). lia.
Qed.
Lemma decimal_chars n : 0 ≤ n < 2 ^ 63 → Forall (λ c, 48 ≤ c ≤ 57) (decimal n).
Proof.
  intros Hn. unfold decimal. assert (∀ fuel m, 0 ≤ m → Forall (λ c, 48 ≤ c ≤ 57) (to_digits fuel 10 m)) as H; [|apply H; lia].
  assert (∀ d, 0 ≤ d < 10 → 48 ≤ digit_char d ≤ 57) as Hd by (intros d Hd; unfold digit_char; rewrite (proj2 (Z.ltb_lt _ _)); lia).
  induction fuel as [|fuel IH]; intros m Hm; [constructor|]. cbn [to_digits]. destruct (Z.ltb_spec m 10); [constructor; [apply Hd; lia|constructor]|].
  apply Forall_app_2; [apply IH, Z.div_pos; lia|]. constructor; [apply Hd, Z.mod_pos_bound; lia|constructor].
Qed.
Lemma operation_balanced l o r : balanced_text l → balanced_text r → plain o → balanced_text (operation l o r).
Proof.
  intros Hl Hr Ho. destruct (wrapped_balanced l Hl) as [L1 L2]. destruct (wrapped_balanced r Hr) as [R1 R2]. unfold operation. split; [rewrite !depth_app, L1, R1, (plain_depth o Ho); done|].
  intros j. destruct (decide (j ≤ length (wrapped l))%nat); [rewrite drop_app_le, !depth_app, R1, (plain_depth o Ho) by done; pose proof (L2 j); lia|]. rewrite drop_app_ge by lia. set (k := (j - _)%nat).
  destruct (decide (k ≤ length o)%nat); [rewrite drop_app_le, depth_app, R1, (plain_depth _ (plain_drop o k Ho)) by done; done|]. rewrite drop_app_ge by lia. apply R2.
Qed.
Lemma sign_plain u : sign_char u ≠ 40 ∧ sign_char u ≠ 41.
Proof. by destruct u. Qed.
Lemma prefixed_balanced u s : balanced_text s → balanced_text (sign_char u :: wrapped s).
Proof.
  intros [H1 H2]%wrapped_balanced. assert (depth (sign_char u :: wrapped s) = 0) as E by (cbn [depth]; rewrite H1; by destruct u). split; [done|]. intros [|j]; [rewrite drop_0; lia|]. rewrite skipn_cons. apply H2.
Qed.
Lemma print_text x : expr_ok x → balanced_text (print x) ∧ word (print x).
Proof.
  induction x as [n|u x IH|o l IHl r IHr]; cbn [expr_ok print].
  - intros Hn. pose proof (decimal_chars n Hn) as Hc. split; [|apply digits_word; lia]. assert (plain (decimal n)) as Hp by (eapply Forall_impl; [exact Hc|]; cbn; lia).
    split; [by apply plain_depth|]. intros j. by rewrite (plain_depth _ (plain_drop _ j Hp)).
  - intros Hx. destruct (IH Hx) as [Bx [Nx Wx]]. split; [by apply prefixed_balanced|]. split; [done|]. unfold wrapped. rewrite !Forall_cons, Forall_app. split_and!; try done; [by destruct u|by repeat constructor].
  - intros (Hl & Hr). destruct (IHl Hl) as [Bl [Nl Wl]]. destruct (IHr Hr) as [Br [Nr Wr]]. pose proof (op_is_ok o) as Ho. split; [by apply operation_balanced; [| |rewrite <- bop_sym; apply Ho]|].
    split; [done|]. assert (Forall (λ c, is_ws c = false) (op_text o)) as Ws by (destruct o; repeat constructor).
    unfold operation, wrapped. rewrite !Forall_app, !Forall_cons, !Forall_app. split_and!; try done; by repeat constructor.
Qed.
Lemma arith_wrapped fuel s : balanced_text s → word s → arith (S fuel) (wrapped s) = arith fuel s.
Proof.
  intros Hb [Hne Hw]. cbn [arith]. rewrite trim_word by (split; [done|]; unfold wrapped; apply Forall_cons_2; [done|]; by apply Forall_app_2; [|repeat constructor]). unfold wrapped at 1. cbv iota beta. fold (wrapped s).
  rewrite find_op_none; [|apply binops_ok|].
  - cbn [Z.eqb Pos.eqb andb]. rewrite last_snoc, bool_decide_eq_true_2, length_app by done. cbn [length]. rewrite Nat.add_sub, take_app_length. done.
  - intros b j Hin Hj [Hd Ht]. apply (wrapped_depth s j Hb Hj) in Hd. subst j. pose proof binops_ok as Ho. rewrite Forall_forall in Ho. destruct (Ho b Hin) as [Hp Hs _ _]. rewrite drop_0 in Ht. unfold wrapped in Ht.
    destruct (sym b) as [|c q]; [cbn in Hs; lia|]. cbn [length take] in Ht. injection Ht as Ht _. apply Forall_cons in Hp as [[Hp _] _]. congruence.
Qed.
Lemma arith_num fuel n : 0 ≤ n < 2 ^ 63 → arith (S fuel) (decimal n) = Some n.
Proof.
  intros Hn. pose proof (decimal_chars n Hn) as Hc. assert (word (decimal n)) as Hw by (apply digits_word; lia). destruct Hw as [Hne Hw]. cbn [arith]. rewrite trim_word by done.
  assert (atom (decimal n) = n) as Ha.
  { unfold atom. assert (∀ x, strip_prefix (lit "0" ++ [x]) (decimal n) = None ∨ 48 ≤ x ≤ 57) as Hx.
    { intros x. unfold strip_prefix. case_bool_decide as E; [|by left]. right. assert (x ∈ decimal n) as Hin by (rewrite <- (take_drop 2 (decimal n)), elem_of_app; left; change (length (lit "0" ++ [x])) with 2%nat in E; rewrite E; right; left). rewrite Forall_forall in Hc. by apply Hc. }
    destruct (Hx 120) as [E|]; [|lia]. destruct (Hx 88) as [E'|]; [|lia]. change (lit "0x") with (lit "0" ++ [120]). change (lit "0X") with (lit "0" ++ [88]). rewrite E, E'.
    destruct (signed_parse n ltac:(lia)) as [Hp _]. unfold signed in Hp. rewrite (proj2 (Z.ltb_ge _ _)) in Hp by lia. by rewrite Hp. }
  destruct (decimal n) as [|c r] eqn:Ed; [done|]. rewrite find_op_none; [|apply binops_ok|].
  - apply Forall_cons in Hc as [Hc _]. repeat (rewrite (proj2 (Z.eqb_neq c _)) by lia). cbn [andb]. by rewrite Ha.
  - intros b j Hin Hj [_ Ht]. pose proof binops_ok as Ho. rewrite Forall_forall in Ho. destruct (Ho b Hin) as [_ Hs _ Hh]. apply Hh. rewrite (drop_nth (c :: r) j Hj) in Ht.
    destruct (sym b) as [|x q]; [cbn in Hs; lia|]. cbn [length take] in Ht. injection Ht as Ht _. cbn [nth]. rewrite <- Ht. rewrite (Forall_nth _ 0) in Hc. by apply Hc.
Qed.
(** *** A sign before parentheses *)
Lemma prefixed_at u s q j : balanced_text s → plain q → q ≠ [] → (j < length (sign_char u :: wrapped s))%nat → at_depth0 (sign_char u :: wrapped s) q j → j = 0%nat ∧ q = [sign_char u].
Proof.
  intros Hs Hq Hne Hj [Hd Ht]. destruct q as [|c q]; [done|]. apply Forall_cons in Hq as [[Hc _] Hq]. destruct j as [|j].
  - rewrite drop_0 in Ht. cbn [length take] in Ht. injection Ht as <- Ht. split; [done|]. f_equal. destruct q as [|c q]; [done|]. unfold wrapped in Ht. cbn [length take] in Ht. injection Ht as <- _. apply Forall_cons in Hq as [[Hq _] _]. done.
  - rewrite skipn_cons in Hd, Ht. cbn [length] in Hj. apply (wrapped_depth s j Hs) in Hd; [|lia]. subst j. rewrite drop_0 in Ht. unfold wrapped in Ht. cbn [length take] in Ht. injection Ht as <- _. done.
Qed.
Lemma prefixed_none u s ops : balanced_text s → Forall op_ok ops → Forall (λ b, sym b ≠ [sign_char u]) ops → find_op ops (sign_char u :: wrapped s) = None.
Proof.
  intros Hs Ho Hn. apply find_op_none; [done|]. intros b j Hb Hj Ha. rewrite Forall_forall in Ho, Hn. destruct (oo_short b (Ho b Hb)) as [H1 _].
  destruct (prefixed_at u s (sym b) j) as [_ E]; try done; [apply (oo_plain b (Ho b Hb))|intros E; rewrite E in H1; cbn in H1; lia|]. by apply (Hn b Hb).
Qed.
Lemma find_op_app l1 l2 e : find_op l1 e = None → find_op (l1 ++ l2) e = find_op l2 e.
Proof. induction l1 as [|b l1 IH]; [done|]. cbn [app find_op]. destruct (locate b e); [done|]. apply IH. Qed.
(** The minus is found as the subtraction of the number behind it from nothing. *)
Lemma negative_found s : balanced_text s → find_op binops (45 :: wrapped s) = Some (0%nat, bop 14).
Proof.
  intros Hs. change binops with (take 14 binops ++ bop 14 :: drop 15 binops). rewrite find_op_app.
  - cbn [find_op]. assert (locate (bop 14) (45 :: wrapped s) = Some 0%nat) as ->; [|done]. change (locate (bop 14) (45 :: wrapped s)) with (fop_pm_from (length (45 :: wrapped s)) 0 (45 :: wrapped s) 45).
    pose proof (fop_pm_from_some (45 :: wrapped s) 45 0) as Hx. specialize (Hx ltac:(split; [rewrite drop_0; apply (prefixed_balanced Negative s Hs)|done]) ltac:(cbn; lia) ltac:(done) (length (45 :: wrapped s))). rewrite drop_all in Hx. apply Hx; [cbn; lia|].
    intros j Hj Ha. apply (prefixed_at Negative s [45] j Hs) in Ha as [-> _]; [lia|by repeat constructor|done|]. cbn [sign_char]. lia.
  - apply (prefixed_none Negative s); [done|apply Forall_take, binops_ok|]. by repeat constructor.
Qed.
Lemma arith_sign fuel u s a : balanced_text s → word s → arith fuel (wrapped s) = a →
  arith (S fuel) (sign_char u :: wrapped s) = (a ← a; match u with Negative => Some (i64_val (- a)) | Not => Some (truth (a =? 0)) | Complement => Some (Z.lnot a) end).
Proof.
  intros Hs [Hne Hw] <-. cbn [arith]. rewrite trim_word by (split; [done|]; unfold wrapped; rewrite !Forall_cons, Forall_app; split_and!; try done; [by destruct u|by repeat constructor]).
  destruct u; cbn [sign_char].
  - rewrite (negative_found s Hs). change (take 0 (45 :: wrapped s)) with (@nil Z). change (drop (0 + length (sym (bop 14))) (45 :: wrapped s)) with (drop 0 (wrapped s)). rewrite drop_0.
    assert (arith fuel [] = Some 0) as -> by (by destruct fuel). cbn [bop nth binops sem]. unfold both. cbn [mbind option_bind]. destruct (arith fuel (wrapped s)); [|done]. cbn [mbind option_bind]. by rewrite Z.sub_0_l.
  - rewrite (prefixed_none Not s binops Hs binops_ok ltac:(by repeat constructor) : find_op binops (33 :: wrapped s) = None). done.
  - rewrite (prefixed_none Complement s binops Hs binops_ok ltac:(by repeat constructor) : find_op binops (126 :: wrapped s) = None). done.
Qed.
Lemma arith_print x : expr_ok x → ∀ fuel, (length (print x) ≤ fuel)%nat → arith fuel (print x) = value x.
Proof.
  induction x as [n|u x IH|o l IHl r IHr]; cbn [expr_ok].
  - intros Hn fuel Hf. cbn [print value] in *. destruct fuel as [|fuel]; [pose proof (to_digits_nonempty 10 19 n) as Hne; change (to_digits 20 10 n) with (decimal n) in Hne; destruct (decimal n); [done|cbn in Hf; lia]|]. by apply arith_num.
  - intros Hx fuel Hf. destruct (print_text x Hx) as [Bx Wx]. cbn [print] in *. unfold wrapped in Hf. cbn [length] in Hf. rewrite length_app in Hf. cbn [length] in Hf. destruct fuel as [|[|fuel]]; [lia|lia|].
    rewrite (arith_sign (S fuel) u (print x) (value x) Bx Wx) by (rewrite arith_wrapped by done; apply IH; [done|lia]).
    destruct u; cbn [value]; destruct (value x) as [a|]; try done; cbn [mbind option_bind]; unfold holds, truth; [by rewrite signed64_val|case_decide; destruct (Z.eqb_spec a 0); done || lia].
  - intros Hx fuel Hf. destruct (print_text (Bin o l r) Hx) as [_ Hw]. destruct Hx as (Hl & Hr). destruct (print_text l Hl) as [Bl Wl]. destruct (print_text r Hr) as [Br Wr]. pose proof (op_is_ok o) as Ho.
    rewrite <- table_value. cbn [print] in *. set (t := op_text o) in *. assert (length (operation (print l) t (print r)) = S (S (length (print l))) + (length t + S (S (length (print r)))))%nat as Hlen by (unfold operation, wrapped; rewrite !length_app; cbn [length]; rewrite !length_app; cbn [length]; lia).
    destruct fuel as [|[|fuel]]; [lia|lia|]. remember (S fuel) as f eqn:Ef. cbn [arith]. rewrite trim_word by done.
    pose proof (find_op_first binops t (bop (index_of o)) (print l) (print r) binops_ok ltac:(unfold t; rewrite <- bop_sym; apply Ho) (op_first o) Bl Br (proj1 Wl)) as Hfind.
    destruct (operation (print l) t (print r)) as [|c e] eqn:Eo; [unfold operation, wrapped in Eo; discriminate Eo|]. rewrite Hfind, <- Eo, bop_sym. fold t.
    assert (take (length (wrapped (print l))) (operation (print l) t (print r)) = wrapped (print l)) as -> by (unfold operation; apply take_app_length).
    assert (drop (length (wrapped (print l)) + length t) (operation (print l) t (print r)) = wrapped (print r)) as -> by (unfold operation; rewrite <- drop_drop, drop_app_length, drop_app_length; done).
    subst f. rewrite !arith_wrapped by done. rewrite IHl, IHr by (done || lia). done.
Qed.
(** C38. An expression that is written with parentheses around every operand
    evaluates to the value that the meaning of its operators gives: every
    operator but the two shifts, the signs -, ! and ~ included, over signed
    64-bit numbers with wrap-around, a quotient by zero being 0 and the one
    quotient that overflows a panic. *)
Theorem eval_parenthesized x : expr_ok x → eval_arith (print x) = value x.
Proof. intros H. by apply arith_print. Qed.
Lemma eval_parenthesized_witness : eval_arith (lit "-(((4)*(3))/(2))") = Some (-6).
Proof. apply (eval_parenthesized (Un Negative (Bin Over (Bin Times (Num 4) (Num 3)) (Num 2)))). cbn [expr_ok]. repeat split; lia. Defined.
